(* ===== verification/_CoqProject ===== *)
-Q . S2P
Prelude.v
JsString.v
JsValue.v
Regex.v
PathSegments.v
DestructiveCommand.v
ToolBatchWaves.v
ResourceClaims.v
DagScheduler.v
TranscriptIntegrity.v
WorkPacket.v
Adjudicator.v
Disposition.v
PolicyWall.v
CorrectnessWall.v
RepairBudget.v
Json.v
SessionLog.v
SessionStorage.v
SessionContext.v
Session.v
JsonlStorage.v
CutPoint.v
Compaction.v
Program.v
PlainData.v
AgentTypes.v
AgentEffects.v
ToolExecution.v
ToolBatch.v
AgentLoop.v
RunInvariant.v
Agent.v
Uuid.v
SessionRepo.v
LoopGates.v
JsNumber.v
CanonicalJson.v
SessionTermination.v
Utf8.v
JournalChecks.v
JournalTermination.v
RunJournal.v
JournalInspector.v
JournalReading.v
JournalTheory.v
JournalSafety.v
SessionReport.v
CompactionTransaction.v
CompactionCommit.v
CompactionBarrier.v
CompactionPolicy.v
SessionShapes.v
SessionInspection.v
SessionGraph.v
SessionTheory.v
SessionSafety.v
SessionRepair.v
SessionPath.v
SessionCanonical.v
SessionAccess.v
SessionDoctor.v
SessionDoctorSafety.v
JsText.v
Truncate.v
EditDiff.v
EditTheory.v
CommandSafety.v
CommandSafetyTheory.v
CommandParser.v
CommandParserTheory.v
TransformMessages.v
StdinBuffer.v
RecoveryCheckpoint.v
Sandbox.v
SandboxTheory.v
SandboxV2.v
