(* ===== verification/Prelude.v ===== *)
(** * OMK agent kit: verification development

    The agent kit runs a language model against tools. This development models
    the parts of it that decide: which tool calls of a batch may run at the same
    time, what becomes of every call whatever tools, hooks, timers and aborts
    do, whether a transcript is well formed, what a session contains, what a
    compaction may drop from it, what its file and its run journal mean after a
    crash and what may be done to repair them, what an edit changes in a file,
    how dangerous a shell command is, what a sandbox lets a command reach, what a
    provider sees of a transcript, which keys a terminal sent, and whether a
    change proposed by an agent may be applied. Input, output and the model
    itself stay outside.

    ** How the parts interact

    An Agent holds the transcript, the queues and the listeners of an
    application; a prompt or a continuation makes it run the agent loop, whose
    events it folds into its state. The agent loop (AgentLoop) asks the model for an assistant message with
    tool calls. The calls of the message are a batch (ToolBatch); each goes
    through the stages of ToolExecution - planning, authorization, execution
    against timer and abort, after hook, result - and either the wave scheduler (ToolBatchWaves, over the
    lexical paths of PathSegments and the destructive commands of
    DestructiveCommand) or the resource-claim scheduler (ResourceClaims and
    DagScheduler) decides their order. Results go back into the transcript,
    which TranscriptIntegrity inspects and repairs before the next request.
    Every message is an entry of the session tree (Session over a
    SessionStorage, created, found and forked by a SessionRepo), from which SessionContext rebuilds the context of the next
    request; when the context grows too large, CutPoint decides what stays and
    Compaction summarises the rest. Work given to the AdaptOrch service is a WorkPacket; its runs are
    judged by the Adjudicator, Disposition turns the verdict into the next state
    of the packet, and CorrectnessWall combines verdict, diff policy
    (PolicyWall) and deep wall into the decision to apply a change, with
    RepairBudget deciding about another attempt.

    In the coding agent a run is also written to a hash-chained RunJournal, of
    records in the text of CanonicalJson; JournalInspector reads it back, and
    SessionTermination classifies how a run ended and what to do next.
    SessionInspection parses a session file, finds what is wrong in its entries
    and its active branch, and makes the SessionReport that the others decide
    on: CompactionTransaction holds a compaction to the revision it started
    from, evaluates the barrier over the report and seals its result in an
    envelope (when to compact, and with what model, is CompactionPolicy);
    SessionRepair plans the entries that close a transcript; SessionPath decides
    which paths may be read and written; and SessionDoctor composes report,
    journal, compaction, paths and checks into one plan. A shell command is
    judged by CommandSafety and, with the structure CommandParser finds in it,
    by the verdict composed there; the edit tool replaces text by EditDiff; the
    output of tools is cut by Truncate; LoopGates decide whether an unattended
    loop may write. Sandbox decides path and network requests against a policy,
    narrows policies by others and builds the request under which a command is
    spawned; SandboxV2 composes such decisions, with those on an environment,
    into one. RecoveryCheckpoint judges whether the files of a turn may be
    restored and plans it. Before a transcript goes to a provider,
    TransformMessages makes it one that provider accepts; StdinBuffer cuts the
    input of a terminal into keys and pastes.

    ** Files and sources

    Language layer, modelled as far as the sources use it:
    - Prelude: [result] for code that throws, tactics, list, option and map
      lemmas shared by all files, the hint databases [omk];
    - JsString, JsValue, Regex: strings, values and regular expressions of the
      language; Json: [JSON.stringify] and [JSON.parse]; JsNumber, Utf8:
      number literals and the decoding of bytes; CanonicalJson: the canonical
      text of values in run-journal.ts; JsText: texts of UTF-16 code units, their lines
      and their UTF-8 bytes.

    packages/agent/src:
    - PathSegments: path-segments.ts;
    - ToolBatchWaves, DestructiveCommand: parallel-tool-batch.ts;
    - ResourceClaims: tool-resource-claims.ts, builtin-tool-resource-claims.ts
      and the claim types of types.ts;
    - DagScheduler: tool-dag-scheduler.ts;
    - TranscriptIntegrity: tool-transcript-integrity.ts and the result envelope
      of types.ts;
    - Program: state and exceptions for code that awaits, Hoare triples, and
      the concurrent tasks of [Promise.all];
    - PlainData: plain-data.ts;
    - AgentTypes: the messages, tools, events and callbacks of types.ts; the
      callbacks are the record [Host], over an arbitrary state of the world;
    - AgentEffects: what a step may change ([progress], [keeps]), and what the
      loop relies on of abort signals and timers ([signal_laws]);
    - ToolExecution: tool-execution-boundary.ts, tool-timeout.ts and the part
      of agent-loop.ts that handles one call;
    - ToolBatch: [executeToolCalls] of agent-loop.ts and its variants;
    - AgentLoop: the rest of agent-loop.ts, and the class of
      packages/ai/src/utils/event-stream.ts;
    - RunInvariant: what the callbacks of a host preserve, a run preserves;
    - Agent: agent.ts.

    packages/agent/src/harness:
    - SessionLog: the functions memory-storage.ts and jsonl-storage.ts share,
      over the class [EntryView] of what a storage reads of an entry, so that
      they run on typed entries and on parsed JSON objects alike; the abstract
      specification of a session is a well-formed list of entries ([wf_log]);
    - SessionStorage: the interface of types.ts as a class, its laws
      ([StorageLaws]) as a class, memory-storage.ts as an instance of both;
    - SessionContext: [buildSessionContext] of session/session.ts, messages.ts;
    - Session: the class of session/session.ts, proved against the laws only;
    - JsonlStorage: jsonl-storage.ts, the second instance of the laws;
    - Uuid: session/uuid.ts; SessionRepo: session/repo-utils.ts,
      memory-repo.ts and jsonl-repo.ts;
    - CutPoint, Compaction: compaction/compaction.ts, compaction/utils.ts and
      the conversion of messages.ts.

    packages/coding-agent/src/core:
    - SessionTermination, JournalChecks, JournalTermination:
      session-termination.ts and the checks of the record it becomes;
    - RunJournal, JournalInspector: run-journal.ts, the writer and the
      inspection; JournalReading, JournalTheory, JournalSafety: what an
      inspector reads of what a writer wrote, and the theorems;
    - LoopGates: loop-gates.ts and loop-types.ts;
    - SessionReport, SessionShapes, SessionInspection: session-integrity.ts, the
      entries it accepts and the messages of messages.ts; SessionGraph, SessionTheory, SessionSafety: the
      paths and cycles of the entries, and the theorems;
    - SessionRepair: session-repair-plan.ts;
    - SessionPath: session-path-policy.ts; SessionCanonical, SessionAccess: its
      canonical paths and its decisions;
    - CompactionTransaction: compaction/transaction.ts; CompactionCommit,
      CompactionBarrier: its theorems; CompactionPolicy:
      compaction/hysteresis.ts, model-policy.ts and resume-policy.ts;
    - SessionDoctor, SessionDoctorSafety: session-doctor-plan.ts;
    - Truncate: tools/truncate.ts;
    - EditDiff, EditTheory: tools/edit-diff.ts and [execute] of tools/edit.ts;
    - CommandSafety, CommandSafetyTheory: command-safety.ts;
    - CommandParser, CommandParserTheory: command-safety-parser.ts;
    - Sandbox: sandbox/policy.ts, path-resolver.ts, env.ts, backend.ts and
      spawn.ts; SandboxTheory: its theorems; SandboxV2: sandbox-policy-v2.ts;
    - RecoveryCheckpoint: recovery-checkpoint.ts.

    packages/ai/src and packages/tui/src:
    - TransformMessages: providers/transform-messages.ts and the messages of
      types.ts;
    - StdinBuffer: stdin-buffer.ts.

    packages/adaptorch-wpl/src:
    - WorkPacket: types.ts, state-machine.ts;
    - Adjudicator: adjudicator-registry.ts, adjudicator.ts and the read calls of
      adaptorch-client.ts;
    - Disposition: loop.ts;
    - PolicyWall: policy-wall.ts;
    - CorrectnessWall: b2c-verdict.ts, deep-wall.ts, b2c-mapper.ts,
      repair-loop.ts, signed-receipt.ts, receipt-signature.ts, wall-meta.ts,
      evaluate-correctness-wall.ts;
    - RepairBudget: repair-budget.ts, regenerate-packet.ts, retry-backoff.ts.

    Definitions carry the names of the source. A class of the source is a
    record of its fields, a method a function from the record to its result and
    the new record; code that throws returns a [result]; a callback, a tool
    transport and a digest function are arguments, over an arbitrary state of
    the world where they are called more than once.

    ** What the theorems show

    - Scheduling: a schedule is a partition of the batch, keeps conflicting
      calls in source order on different levels, is the least such schedule, is
      insensitive to the order of claims, respects the width cap, and its key
      identifies it; waves are compatible and in order; the overlap test on
      paths is characterised exactly, and everything below a path overlaps it;
      tools that must run alone do, whatever the extensions answer.
    - Transcripts: inspection accepts exactly the well-formed transcripts;
      repair yields one of them exactly when appending results can, and is
      idempotent; envelopes are built exactly for the allowed combinations.
    - Agent loop: the results of a batch are committed in call order under
      every interleaving of its tasks; when a turn ends, by whatever path, every
      call of the answer has exactly one result and the transcript is well
      formed; providers only ever see well-formed transcripts; an executed call
      ends in one truthful result and never in an exception; tools see JSON
      data only; a run returns what its events announced; a failed run is ended
      soundly, and its stream settles.
    - Agent class: the transcript of an agent is the one it started with and
      the messages its events announced, through every prompt and continuation;
      a run always settles, closed: no call without result, not streaming, an
      agent_end announced.
    - Compaction: what a compaction hands to the summaries and what it keeps
      are together exactly the context; the kept part is a well-formed
      transcript whenever the branch is; the kept part is the longest within
      the token budget; thresholds stay within the window; file lists are exact.
    - Sessions: every run of operations over any lawful storage preserves the
      log invariant and all earlier branches; appends extend and moves switch
      the active branch; the context grows with the branch and is, with a
      compaction, summary, kept messages and later ones; labels are the last
      ones set; walking to the root ends. Both storages satisfy the laws. A
      session file read again gives the state that wrote it, and an append cut
      off after any number of characters costs at most its own entry.
      A fork holds exactly the branch it was asked for, and its file reads
      back; identifiers grow whatever the clock does.
    - Walls and packets: a record is confirmed, a change applicable, blocked or
      submittable, a deep wall completed, a packet offered exactly under the
      stated conditions; the worst run decides a record; the state machine's
      log is a legal path to the current state, reviewing never meets an illegal
      transition, and CLOSED is its only dead end; backoff delays are bounded
      and monotone; signatures verify and separate what they sign.

    - Run journal: a journal reads back as it was written, one cut off at any
      byte recovers what was complete, a head pins all before it up to
      collisions of the hash, and the inspector accepts valid records exactly
      when they form one chain and one session of whole runs; what the classifier of
      terminations says is recorded but for credential shapes.
    - Session files: the inspection always returns; an append torn at any byte
      costs nothing but a finding; its cycles are exactly those of the parents; a
      compaction commits only over a closed turn and the revision it saw, and
      its envelope survives being written and read; a repair plan closes the
      transcript; the path policy grants exactly what its roots contain, by
      entries that are no links; the doctor acts only where that policy
      authorizes, calls healthy only what each of its parts calls so, and a dry
      run finds what a repair would find.
    - Loops: the files an allowed loop changes are within its scopes.
    - Edits: an edit replaces the regions it names and keeps every other
      character of a file with uniform line endings; the offsets of fuzzy
      matches mirror the normalization; the numbers of a diff are those of the
      lines it shows. Truncated output keeps both limits and as much as they
      allow, cut between characters.
    - Commands: joining commands, wrapping one in a shell, or nesting it in
      substitutions, subshells and process substitutions to the depth of the
      scan never hides a verdict; forced recursive removal of the root is
      blocked however it is spelled; the composed action is a decision table and
      what cannot be parsed is never allowed.
    - Sandbox: what a policy grants lies below its root and under none of its
      deny rules; merging without leave to broaden grants nothing the base
      denies, on paths, hosts and processes; a command is spawned in a readable
      directory, with exactly the harmless variables, and under an enforced
      policy only behind a backend; the second evaluator allows exactly where
      every check passes and agrees with the first on literal patterns.
    - Checkpoints: validation accepts exactly the values that are sound
      checkpoints; a restore of code is ready exactly if the work tree is as the
      checkpoint left it, and its paths stay below the repository.
    - Providers: a transformed transcript answers every call in its turn and has
      no result without a call; one of another model keeps every result under
      the renamed call; the second pass changes its own output nowhere.
    - Terminal: keys and pastes come out as typed however the input is cut;
      extraction loses and reorders nothing.

    The files also prove, beside the properties, counterexamples to promises
    the code does not keep: an append whose write fails half-way spoils the next
    one ([failed_append_breaks_the_next]); a deletion outside the approved
    scope, a path with [..] and an added line that begins with two plus signs
    pass the fast wall ([deletion_out_of_scope_applies], [traversal_in_scope],
    [double_plus_line_not_scanned]); a failing command completes the deep wall
    ([failing_exit_code_completes]), whose completion waives the required review
    ([completed_deep_wall_clears_review]); a used-up attempt budget does not
    stop retries ([retry_beyond_used_budget]); splitting a turn a second time
    drops the summary of the first compaction
    ([split_turn_drops_previous_summary]); a failed run reports the messages of
    earlier prompts as its own ([failed_run_reports_history]), an agent
    continues after a finished answer ([continue_after_answer]); the sessions of
    two directories share one ([directories_collide]); and a tool named like an inherited
    property of objects loses the global timeout
    ([inherited_name_disables_timeout]). A requested scope that is a pattern
    widens the allowed one ([pattern_request_widens]) and a denied file below a
    requested directory changes ([denied_file_changed]); some classified
    terminations cannot be recorded ([bearer_run_not_recorded],
    [credential_provider_not_recorded]) and the sequence of a journal overruns
    ([sequence_overruns]); the barrier misreports two blockers
    ([unsafe_missing_misreported], [damaged_line_misnamed]); an old text of
    white space is found anywhere, overlapping occurrences count once, mixed
    line endings and invalid bytes outside an edit are rewritten, and
    compatibility jamo are not mirrored ([white_space_found_anywhere],
    [overlapping_occurrences_accepted], [mixed_endings_rewritten],
    [invalid_bytes_rewritten], [jamo_not_mirrored]); a final line feed over the
    limit is blamed on the lines ([trailing_newline_misreported]); option values
    and joined arguments hide commands and an inherited property makes the
    classification throw ([env_option_hides_command],
    [shell_option_hides_command], [joined_arguments_hide_command],
    [inherited_property_throws]); and an earlier executor or a redirection hides
    a decoder pipeline ([earlier_executor_hides_pipeline],
    [redirection_cuts_pipeline], with [flag_takes_no_name]). A late tool result
    is sent beside its substitute and one of a spaced identifier dropped
    ([late_result_duplicated], [spaced_identifier_loses_result]); an escape
    before a paste is lost, one at the end of a chunk misread, and a character
    outside the basic plane split ([escape_before_paste_lost],
    [double_escape_cut], [surrogates_parted]). The profile of the macOS sandbox
    denies no reads, bubblewrap shares the network and binds the root writable
    ([seatbelt_denies_only_denyWrite], [bubblewrap_shares_network],
    [bubblewrap_root_writable]); an audited policy without a backend spawns a
    forbidden shell ([audit_ignores_process_policy]); some roots, patterns and
    siblings are compared wrongly ([root_holds_nothing], [everything_is_cwd],
    [inner_glob_matches_nothing], [backslash_sibling_inside],
    [double_glob_broadens]); a merge turns a policy off and loses subdomains
    ([merge_turns_off], [subdomain_narrowing_lost]); the second evaluator trusts
    names that begin like a loopback address, misses a word of the first, takes
    brackets of the directory for globs and decides where nothing was resolved
    ([loopback_name_trusted], [secret_not_sensitive], [bracket_directory_globs],
    [unresolved_path_decided]). A recovery checkpoint accepts a path that starts
    with a backslash and digests that never match, and a restore ignores an
    unseen HEAD and a bare verdict, but not a second [./]
    ([backslash_root_accepted], [capital_digest_never_matches],
    [unseen_head_passes], [bare_verdict_ignored], [second_dot_unrelated]).

    ** Fuel and bounds

    - [json_parse] runs with twice the length of the text plus one; each
      recursive call consumes a character or is followed by one that does:
      [json_parse_fuel] shows that no text runs out of it.
    - [Promise_all] runs with the number of steps its tasks have left, and
      [Promise_all_rule] shows that all of them end.
    - [runLoop] is unbounded in the source, since a model may call tools for
      ever; it answers [None] without fuel, and a run that ends does so alike
      with any larger fuel ([runLoop_fuel]).
    - [path_to_root] runs with one step per entry and one more; a walk that
      ends at all visits no entry twice ([log_path_fuel]), so running out of
      fuel means the parents form a cycle, on which the code does not return.
    - The walks of SessionInspection run with the number of entries and one
      more, and [inspection_returns] shows that this is enough; the doctor's
      walk of its input has the node budget of the code, 200000.
    - Wrapped commands are classified to the depth 6 of the code, and nested
      structures scanned to its depth 6 ([wrapper_depth_bounded]).
    - The extraction of terminal input runs with the length of the buffer and
      processing with that of the text, and [process_text_fuel] shows that more
      changes nothing.
    - The search for an existing parent runs with the length of the path, and
      [nearest_fuel] shows that more changes nothing.
    - [generate_loop] runs the 100 attempts of the code.
    - [chunk_loop] runs with the length of the level; every step takes at least
      one element.
    - Delays are computed on integers with the rounding of a product to the 53
      bits of a double written out; hashes are reduced modulo 2^32 as in the
      code.

    ** Limits of the model

    Strings are the sequences of code units below 256, except the texts of
    JsText (edits, truncation, terminal input); a JSON number is its
    literal; object keys are not array indices (the language reorders those).
    A file is its text and a write an outcome: all of it, a prefix of it, or
    none. Limits of truncation and sequence numbers are integers, and an em dash
    of a message is a hyphen. Hashes, dates, NFKC normalization, combining marks,
    the line diff, glob matching, the host of a URL, the file system of the
    sandbox and the normalization of identifiers for a provider are parameters;
    paths of the sandbox are resolved as on POSIX; the bytes of journals and session files
    are decoded to Latin-1 text or to [None]. The classifier of
    terminations, the barrier and the doctor take typed inputs where the code
    first checks untyped ones; a report keeps role, calls and result
    identifiers of its messages. Operations of one session run one after the other, as the harness
    awaits them; interleaving of unawaited appends is not modelled. Host
    callbacks of the agent loop change the world but not the context they are
    shown; provider streams are finite; updates of a tool reach the listeners at once;
    an application does not subscribe, reset or assign the state of an agent
    during a run; a concurrent task that throws ends the
    batch at once, where the code lets the others go on unobserved.

    ** Not modelled

    The audit events of tools that settle after their timer or an abort has
    won; the proxy stream; the validation of tool
    arguments against their schema, a callback here; branch summaries; the write
    calls and the transports of the AdaptOrch client; the resolver of file
    identities, an argument of the claim model; the store of the journal and the
    session manager, which are input and output around their models; freezing of
    records; the drift score of loops and their registry; the checks of untyped
    reports; the unified patch of an edit, its preview and the other tools;
    context budgets, loadouts and packages; the providers themselves, the command
    line and the rest of the user interface. *)

From stdpp Require Import base list option strings gmap sorting.
From Stdlib Require Import ZArith Lia Permutation.

Create HintDb omk.
Create Rewrite HintDb omk.
Declare Scope omk_scope.
Delimit Scope omk_scope with omk.
#[global] Open Scope omk_scope.

(** ** Failing computations

    A call that may throw is a [result]: the error type [E] is the component's
    own (a message, a [SessionError] record, ...). *)
Inductive result (E A : Type) : Type :=
| Ok (a : A)
| Err (e : E).
Arguments Ok {E A} a.
Arguments Err {E A} e.

Definition result_bind {E A B : Type} (c : result E A) (k : A -> result E B) : result E B :=
  match c with
  | Ok a => k a
  | Err e => Err e
  end.

Notation "x <-? c ;; k" := (result_bind c (fun x => k))
  (at level 100, c at next level, right associativity) : omk_scope.

Definition is_ok {E A : Type} (c : result E A) : bool :=
  match c with
  | Ok _ => true
  | Err _ => false
  end.

Lemma result_bind_Ok {E A B : Type} (c : result E A) (k : A -> result E B) (b : B) :
  result_bind c k = Ok b <-> exists a, c = Ok a /\ k a = Ok b.
Proof. destruct c as [a|e]; simpl; split; [by eauto|intros (? & [= ->] & ?); done|done|by intros (? & ? & ?)]. Qed.

(** ** Tactics of the development *)

(** Turn boolean hypotheses and goals into propositions. *)
Ltac breflect :=
  repeat match goal with
  | H : _ && _ = true |- _ => apply andb_true_iff in H as [? ?]
  | H : _ || _ = false |- _ => apply orb_false_iff in H as [? ?]
  | H : _ || _ = true |- _ => apply orb_true_iff in H
  | H : _ && _ = false |- _ => apply andb_false_iff in H
  | H : negb _ = true |- _ => apply negb_true_iff in H
  | H : negb _ = false |- _ => apply negb_false_iff in H
  | H : bool_decide _ = true |- _ => apply bool_decide_eq_true in H
  | H : bool_decide _ = false |- _ => apply bool_decide_eq_false in H
  | |- _ && _ = true => apply andb_true_iff
  | |- _ || _ = false => apply orb_false_iff
  | |- negb _ = true => apply negb_true_iff
  | |- negb _ = false => apply negb_false_iff
  | |- bool_decide _ = true => apply bool_decide_eq_true
  | |- bool_decide _ = false => apply bool_decide_eq_false
  end.

(** Case analysis on every [match]/[if] of the goal, closing easy branches. *)
Ltac split_matches :=
  repeat (case_match; simplify_eq/=); try done.

(** Case analysis on the scrutinees of one hypothesis. *)
Ltac split_in H :=
  repeat (match type of H with
          | context [match ?x with _ => _ end] => destruct x eqn:?
          end; simplify_eq/=); try done.

(** ** Booleans over lists *)

Lemma existsb_false_iff {A} (f : A -> bool) (l : list A) :
  existsb f l = false <-> forall x, x ∈ l -> f x = false.
Proof.
  induction l as [|a l IH]; simpl.
  - split; [intros _ x Hx; inversion Hx | done].
  - rewrite orb_false_iff, IH. setoid_rewrite elem_of_cons. naive_solver.
Qed.

Lemma existsb_true_iff {A} (f : A -> bool) (l : list A) :
  existsb f l = true <-> exists x, x ∈ l /\ f x = true.
Proof.
  induction l as [|a l IH]; simpl.
  - split; [done | intros (x & Hx & _); inversion Hx].
  - rewrite orb_true_iff, IH. setoid_rewrite elem_of_cons. naive_solver.
Qed.

Lemma forallb_true_iff {A} (f : A -> bool) (l : list A) :
  forallb f l = true <-> forall x, x ∈ l -> f x = true.
Proof.
  induction l as [|a l IH]; simpl.
  - split; [intros _ x Hx; inversion Hx | done].
  - rewrite andb_true_iff, IH. setoid_rewrite elem_of_cons. naive_solver.
Qed.

Lemma existsb_orb {A} (f g : A -> bool) (l : list A) :
  existsb (fun x => f x || g x) l = existsb f l || existsb g l.
Proof.
  induction l as [|a l IH]; simpl; [done|]. rewrite IH.
  destruct (f a), (g a), (existsb f l); done.
Qed.

Lemma existsb_ext_in {A} (f g : A -> bool) (l : list A) :
  (forall x, x ∈ l -> f x = g x) -> existsb f l = existsb g l.
Proof.
  induction l as [|a l IH]; simpl; intros H; [done|].
  rewrite (H a), IH by (intros; try apply H; set_solver). done.
Qed.

Lemma existsb_comm {A B} (f : A -> B -> bool) (l : list A) (m : list B) :
  existsb (fun a => existsb (f a) m) l = existsb (fun b => existsb (fun a => f a b) l) m.
Proof.
  apply eq_true_iff_eq. rewrite !existsb_true_iff.
  setoid_rewrite existsb_true_iff. naive_solver.
Qed.

(** ** Filtering *)

Lemma elem_of_filter_list {A} (p : A -> bool) (l : list A) (x : A) :
  x ∈ List.filter p l <-> x ∈ l /\ p x = true.
Proof. rewrite !list_elem_of_In. apply filter_In. Qed.


Lemma NoDup_filter_list {A} (p : A -> bool) (l : list A) : NoDup l -> NoDup (List.filter p l).
Proof. rewrite !NoDup_ListNoDup. apply List.NoDup_filter. Qed.

Lemma filter_length_existsb {A} (p : A -> bool) (l : list A) :
  (0 <? length (List.filter p l))%nat = existsb p l.
Proof. induction l as [|a l IH]; simpl; [done|]. by destruct (p a). Qed.

Lemma elem_of_concat_map {A B} (f : A -> list B) (l : list A) (x : B) :
  x ∈ concat (map f l) <-> exists y, y ∈ l /\ x ∈ f y.
Proof.
  rewrite list_elem_of_In, in_concat. setoid_rewrite in_map_iff. split.
  - intros (m & (y & <- & Hy) & Hx). exists y. by rewrite !list_elem_of_In.
  - intros (y & Hy & Hx). rewrite !list_elem_of_In in *. eauto.
Qed.

(** ** First-occurrence de-duplication: [[...new Set(xs)]]

    A JavaScript [Set] iterates in insertion order, so spreading a set built
    from an array keeps the first occurrence of every value. *)
Section Dedup.
Context {A : Type} `{!EqDecision A}.

Fixpoint dedup_from (seen : list A) (l : list A) : list A :=
  match l with
  | [] => []
  | x :: l' => if decide (x ∈ seen) then dedup_from seen l' else x :: dedup_from (x :: seen) l'
  end.

Definition dedup (l : list A) : list A := dedup_from [] l.

Lemma elem_of_dedup_from (l seen : list A) (x : A) :
  x ∈ dedup_from seen l <-> x ∈ l /\ x ∉ seen.
Proof.
  revert seen; induction l as [|a l IH]; intros seen; simpl; [set_solver|].
  case_decide; rewrite ?elem_of_cons, ?IH; [set_solver|].
  destruct (decide (x = a)); set_solver.
Qed.

Lemma elem_of_dedup (l : list A) (x : A) : x ∈ dedup l <-> x ∈ l.
Proof. unfold dedup. rewrite elem_of_dedup_from. set_solver. Qed.

Lemma NoDup_dedup_from (l seen : list A) : NoDup (dedup_from seen l).
Proof.
  revert seen; induction l as [|a l IH]; intros seen; simpl; [constructor|].
  case_decide; [apply IH|]. constructor; [|apply IH].
  rewrite elem_of_dedup_from. set_solver.
Qed.

Lemma NoDup_dedup (l : list A) : NoDup (dedup l).
Proof. apply NoDup_dedup_from. Qed.
End Dedup.
#[export] Hint Resolve NoDup_dedup : omk.
#[export] Hint Rewrite @elem_of_dedup : omk.

(** ** Stable sorting: [Array.prototype.sort] with a comparator

    The language's sort is stable; with a total, transitive comparator every
    stable sort returns the same array, so insertion sort models it. [cmp a b]
    is the comparator's sign. *)
Section StableSort.
Context {A : Type} (cmp : A -> A -> comparison).

Fixpoint sort_insert (x : A) (l : list A) : list A :=
  match l with
  | [] => [x]
  | y :: l' =>
      match cmp x y with
      | Gt => y :: sort_insert x l'
      | _ => x :: y :: l'
      end
  end.

Definition stable_sort (l : list A) : list A := foldr sort_insert [] l.

Lemma sort_insert_perm (x : A) (l : list A) : sort_insert x l ≡ₚ x :: l.
Proof.
  induction l as [|y l IH]; simpl; [done|].
  case_match; try done. rewrite IH. apply Permutation_swap.
Qed.

Lemma stable_sort_perm (l : list A) : stable_sort l ≡ₚ l.
Proof. induction l as [|x l IH]; simpl; [done|]. by rewrite sort_insert_perm, IH. Qed.

Lemma elem_of_stable_sort (l : list A) (x : A) : x ∈ stable_sort l <-> x ∈ l.
Proof. by rewrite stable_sort_perm. Qed.

Definition cmp_le (x y : A) : Prop := cmp x y <> Gt.

Context (cmp_antisym : forall x y, cmp y x = CompOpp (cmp x y)).
Context (cmp_trans : forall x y z, cmp_le x y -> cmp_le y z -> cmp_le x z).

Lemma stable_sort_sorted (l : list A) : StronglySorted cmp_le (stable_sort l).
Proof.
  induction l as [|x l IH]; simpl; [constructor|].
  induction IH as [|y l' Hs IHs Hy]; simpl; [repeat constructor|].
  destruct (cmp x y) eqn:E.
  1,2: constructor; [by constructor|]; constructor; [unfold cmp_le; congruence|];
    eapply Forall_impl; [exact Hy|]; intros z Hz; eapply cmp_trans; [|exact Hz];
    unfold cmp_le; congruence.
  constructor; [done|]. rewrite sort_insert_perm. constructor; [|done].
  unfold cmp_le. rewrite cmp_antisym, E. done.
Qed.

(** On lists whose elements are told apart by the comparator, the result
    depends on the multiset of elements only. *)
Lemma stable_sort_perm_eq (l l' : list A) :
  (forall x y, x ∈ l -> y ∈ l -> cmp x y = Eq -> x = y) ->
  l ≡ₚ l' -> stable_sort l = stable_sort l'.
Proof.
  intros Heq Hp.
  assert (Hm : stable_sort l ≡ₚ stable_sort l') by (rewrite !stable_sort_perm; done).
  assert (He : forall x y, x ∈ stable_sort l -> y ∈ stable_sort l -> cmp x y = Eq -> x = y).
  { intros x y Hx Hy. rewrite elem_of_stable_sort in Hx, Hy. auto. }
  revert Hm He. generalize (stable_sort_sorted l), (stable_sort_sorted l').
  generalize (stable_sort l) (stable_sort l'). clear l l' Heq Hp.
  intros l l' Hs. revert l'.
  induction Hs as [|x l Hs IH Hx]; intros l' Hs' Hp He.
  { apply Permutation_nil_l in Hp. done. }
  destruct Hs' as [|y l' Hs' Hy]; [by apply Permutation_nil_r in Hp|].
  assert (x = y) as ->.
  { destruct (decide (cmp x y = Eq)) as [|Hne]; [apply He; [left| |done]|].
    { rewrite Hp. left. }
    exfalso.
    assert (Hyl : y ∈ x :: l) by (rewrite Hp; left).
    assert (Hxl : x ∈ y :: l') by (rewrite <- Hp; left).
    apply elem_of_cons in Hyl as [->|Hyl].
    { specialize (cmp_antisym x x). destruct (cmp x x); done. }
    apply elem_of_cons in Hxl as [->|Hxl].
    { specialize (cmp_antisym y y). destruct (cmp y y); done. }
    rewrite Forall_forall in Hx, Hy.
    specialize (Hx y Hyl). specialize (Hy x Hxl). unfold cmp_le in Hx, Hy.
    rewrite cmp_antisym in Hy. destruct (cmp x y); done. }
  f_equal. apply IH; [done| |].
  - by apply Permutation_cons_inv in Hp.
  - intros; apply He; set_solver.
Qed.
End StableSort.
