(* ===== verification/JsString.v ===== *)
(** * JavaScript strings

    A JavaScript string is a sequence of UTF-16 code units. The development
    models the strings all of whose code units are below 256 as Rocq's
    [string]: one [ascii] is one code unit, so [length], comparison by code
    units, slicing and the case mapping below are those of the language on
    that fragment. This file holds the [String.prototype] operations the
    modelled sources use, and [JSON.stringify] of a string. *)

From Stdlib Require Import Ascii String ZArith Lia.
From stdpp Require Import base list option strings sets.
From S2P Require Import Prelude.

#[global] Arguments String.append s1%_string s2%_string : simpl nomatch.
Open Scope string_scope.

Definition is_empty (s : string) : bool :=
  match s with
  | EmptyString => true
  | String _ _ => false
  end.

(** ** Code units *)

Definition code (a : ascii) : nat := nat_of_ascii a.

Definition in_range (lo hi : nat) (a : ascii) : bool := ((lo <=? code a) && (code a <=? hi))%nat.

(** [[A-Za-z]] *)
Definition is_alpha (a : ascii) : bool := in_range 65 90 a || in_range 97 122 a.

(** The white space and line terminators [trim] and [\s] know, below 256. *)
Definition is_ws (a : ascii) : bool :=
  in_range 9 13 a || (code a =? 32)%nat || (code a =? 160)%nat.

(** What [.] does not match in a regular expression without the [s] flag. *)
Definition is_line_terminator (a : ascii) : bool := (code a =? 10)%nat || (code a =? 13)%nat.

(** [toLowerCase] of one code unit below 256 (ASCII and Latin-1 letters). *)
Definition lower_ascii (a : ascii) : ascii :=
  if in_range 65 90 a || in_range 192 214 a || in_range 216 222 a
  then ascii_of_nat (code a + 32)%nat else a.

(** ** Mapping, filtering, slicing *)

Fixpoint smap (f : ascii -> ascii) (s : string) : string :=
  match s with
  | EmptyString => EmptyString
  | String a s' => String (f a) (smap f s')
  end.

Definition toLowerCase (s : string) : string := smap lower_ascii s.

Fixpoint sforall (p : ascii -> bool) (s : string) : bool :=
  match s with
  | EmptyString => true
  | String a s' => p a && sforall p s'
  end.

Definition sexists (p : ascii -> bool) (s : string) : bool := negb (sforall (fun a => negb (p a)) s).

Fixpoint trimStart (s : string) : string :=
  match s with
  | EmptyString => EmptyString
  | String a s' => if is_ws a then trimStart s' else s
  end.

Fixpoint trimEnd (s : string) : string :=
  match s with
  | EmptyString => EmptyString
  | String a s' =>
      match trimEnd s' with
      | EmptyString => if is_ws a then EmptyString else String a EmptyString
      | r => String a r
      end
  end.

Definition trim (s : string) : string := trimEnd (trimStart s).

Definition startsWith (pre s : string) : bool := String.prefix pre s.

(** [s.slice(n)] for a non-negative [n]. *)
Fixpoint slice (n : nat) (s : string) : string :=
  match n, s with
  | O, _ => s
  | S n', String _ s' => slice n' s'
  | S _, EmptyString => EmptyString
  end.

(** [s.slice(0, n)]. *)
Fixpoint slice_to (n : nat) (s : string) : string :=
  match n, s with
  | S n', String a s' => String a (slice_to n' s')
  | _, _ => EmptyString
  end.

Fixpoint endsWith (suf s : string) : bool :=
  String.eqb suf s ||
  match s with
  | EmptyString => false
  | String _ s' => endsWith suf s'
  end.

(** [s.includes(t)]. *)
Fixpoint includes (t s : string) : bool :=
  startsWith t s ||
  match s with
  | EmptyString => false
  | String _ s' => includes t s'
  end.

(** [s.replace(/c+$/, "")] for one character [c]. *)
Fixpoint stripTrailing (c : ascii) (s : string) : string :=
  match s with
  | EmptyString => EmptyString
  | String a s' =>
      match stripTrailing c s' with
      | EmptyString => if Ascii.eqb a c then EmptyString else String a EmptyString
      | r => String a r
      end
  end.

(** Drop every leading [c]. *)
Fixpoint stripLeading (c : ascii) (s : string) : string :=
  match s with
  | EmptyString => EmptyString
  | String a s' => if Ascii.eqb a c then stripLeading c s' else s
  end.

(** ** Splitting and joining *)

(** [s.split(c)] for a one-character separator. *)
Fixpoint split (c : ascii) (s : string) : list string :=
  match s with
  | EmptyString => [EmptyString]
  | String a s' =>
      if Ascii.eqb a c then EmptyString :: split c s'
      else match split c s' with
           | w :: ws => String a w :: ws
           | [] => [String a EmptyString]
           end
  end.

(** [l.join(sep)]. *)
Fixpoint join (sep : string) (l : list string) : string :=
  match l with
  | [] => EmptyString
  | [w] => w
  | w :: ws => w ++ sep ++ join sep ws
  end.

(** ** Comparison by code units: the [<] of the language *)
Definition str_compare (s t : string) : comparison := String.compare s t.

(** ** [JSON.stringify] of a string *)

Definition quote_char : ascii := "034".
Definition backslash_char : ascii := "092".

Definition hex_digit (n : nat) : ascii :=
  if (n <? 10)%nat then ascii_of_nat (48 + n)%nat else ascii_of_nat (87 + n)%nat.

Definition json_escape_char (a : ascii) : string :=
  if Ascii.eqb a quote_char then String backslash_char (String quote_char EmptyString)
  else if Ascii.eqb a backslash_char then String backslash_char (String backslash_char EmptyString)
  else if (code a =? 8)%nat then String backslash_char "b"
  else if (code a =? 9)%nat then String backslash_char "t"
  else if (code a =? 10)%nat then String backslash_char "n"
  else if (code a =? 12)%nat then String backslash_char "f"
  else if (code a =? 13)%nat then String backslash_char "r"
  else if (code a <? 32)%nat then
    String backslash_char ("u00" ++ String (hex_digit (code a / 16)%nat)
                                      (String (hex_digit (code a mod 16)%nat) EmptyString))
  else String a EmptyString.

Fixpoint json_escape (s : string) : string :=
  match s with
  | EmptyString => EmptyString
  | String a s' => json_escape_char a ++ json_escape s'
  end.

Definition json_string (s : string) : string :=
  String quote_char (json_escape s ++ String quote_char EmptyString).

(** ** Lemmas *)

Lemma app_assoc_str (a b c : string) : (a ++ b) ++ c = a ++ (b ++ c).
Proof. induction a as [|x a IH]; simpl; [done|]. by rewrite IH. Qed.

Lemma app_nil_str (a : string) : a ++ EmptyString = a.
Proof. induction a as [|x a IH]; simpl; [done|]. by rewrite IH. Qed.

Lemma app_inj_l_str (a b c : string) : a ++ b = a ++ c -> b = c.
Proof. induction a as [|x a IH]; simpl; [done|]. intros [= H]. auto. Qed.

#[global] Arguments startsWith : simpl never.

Lemma startsWith_char (c a : ascii) (s : string) :
  startsWith (String c EmptyString) (String a s) = Ascii.eqb c a.
Proof.
  unfold startsWith. simpl. destruct (ascii_dec c a) as [->|Hne].
  - rewrite Ascii.eqb_refl. by destruct s.
  - by rewrite (proj2 (Ascii.eqb_neq c a)).
Qed.

Lemma startsWith_cons (c a : ascii) (p s : string) :
  startsWith (String c p) (String a s) = Ascii.eqb c a && startsWith p s.
Proof.
  unfold startsWith. simpl. destruct (ascii_dec c a) as [->|Hne].
  - by rewrite Ascii.eqb_refl.
  - by rewrite (proj2 (Ascii.eqb_neq c a)).
Qed.

Lemma startsWith_nil (s : string) : startsWith EmptyString s = true.
Proof. by destruct s. Qed.

Lemma startsWith_iff (pre s : string) : startsWith pre s = true <-> exists rest, s = (pre ++ rest)%string.
Proof.
  revert s. induction pre as [|a pre IH]; intros s; [rewrite startsWith_nil; split; [by exists s|done]|].
  destruct s as [|b s]; [split; [done|by intros [? ?]]|]. rewrite startsWith_cons, andb_true_iff, IH.
  split; [intros [->%Ascii.eqb_eq [rest ->]]; by exists rest|].
  intros [rest [= -> ->]]. rewrite Ascii.eqb_refl. eauto.
Qed.

Lemma length_smap (f : ascii -> ascii) (s : string) : String.length (smap f s) = String.length s.
Proof. induction s as [|a s IH]; simpl; [done|]. by rewrite IH. Qed.

Lemma sforall_app (p : ascii -> bool) (s t : string) :
  sforall p (s ++ t) = sforall p s && sforall p t.
Proof. induction s as [|a s IH]; simpl; [done|]. by rewrite IH, andb_assoc. Qed.

Lemma smap_smap (f g : ascii -> ascii) (s : string) :
  smap f (smap g s) = smap (fun a => f (g a)) s.
Proof. induction s as [|a s IH]; simpl; [done|]. by rewrite IH. Qed.

Lemma smap_id_on (f : ascii -> ascii) (p : ascii -> bool) (s : string) :
  (forall a, p a = true -> f a = a) -> sforall p s = true -> smap f s = s.
Proof.
  intros Hf. induction s as [|a s IH]; simpl; [done|].
  intros [Ha Hs]%andb_true_iff. by rewrite Hf, IH.
Qed.

Lemma sforall_smap (p : ascii -> bool) (f : ascii -> ascii) (s : string) :
  (forall a, p (f a) = true) -> sforall p (smap f s) = true.
Proof. intros Hf. induction s as [|a s IH]; simpl; [done|]. by rewrite Hf, IH. Qed.

(** A check over all 256 code units, decided by computation. *)
Lemma ascii_all (p : ascii -> bool) :
  forallb p (map ascii_of_nat (seq 0 256)) = true -> forall a, p a = true.
Proof.
  intros H a. rewrite forallb_true_iff in H. apply H.
  apply list_elem_of_In, in_map_iff. exists (nat_of_ascii a).
  split; [apply ascii_nat_embedding|]. apply in_seq.
  pose proof (nat_ascii_bounded a). lia.
Qed.

(** [split] and [join] on segments free of the separator. *)
(** ** Slices *)

Lemma slice_to_app (n : nat) (a b : string) :
  slice_to n (a ++ b) = slice_to n a ++ slice_to (n - String.length a) b.
Proof.
  revert n. induction a as [|x a IH]; intros n; simpl; [by rewrite Nat.sub_0_r; destruct n|].
  destruct n; simpl; [by destruct b|]. by rewrite IH.
Qed.

Lemma slice_to_all (n : nat) (s : string) : (String.length s <= n)%nat -> slice_to n s = s.
Proof. revert n. induction s as [|a s IH]; intros [|n] H; simpl in *; try done; [lia|]. rewrite IH; [done|lia]. Qed.

Lemma slice_split (n : nat) (s : string) : s = slice_to n s ++ slice n s.
Proof. revert n. induction s as [|a s IH]; intros [|n]; simpl; try done. by rewrite <- IH. Qed.

Lemma slice_nonempty (n : nat) (s : string) : (n < String.length s)%nat -> slice n s <> EmptyString.
Proof. revert n. induction s as [|a s IH]; intros [|n] H; simpl in *; try done; try lia. apply IH. lia. Qed.

Lemma trim_nonempty (a : ascii) (s : string) : is_ws a = false -> is_empty (trim (String a s)) = false.
Proof. intros H. unfold trim. simpl. rewrite H. simpl. destruct (trimEnd s); by rewrite ?H. Qed.

Lemma split_nonnil (c : ascii) (s : string) : split c s <> [].
Proof. destruct s; simpl; [done|]. case_match; [done|]. case_match; done. Qed.

Lemma split_app_sep (c : ascii) (w s : string) :
  sforall (fun a => negb (Ascii.eqb a c)) w = true ->
  split c (w ++ String c s) = w :: split c s.
Proof.
  induction w as [|a w IH]; simpl; intros H.
  - by rewrite Ascii.eqb_refl.
  - breflect. rewrite H, IH by done. done.
Qed.

Lemma split_free (c : ascii) (w : string) :
  sforall (fun a => negb (Ascii.eqb a c)) w = true -> split c w = [w].
Proof.
  induction w as [|a w IH]; simpl; [done|]. intros H. breflect.
  by rewrite H, IH.
Qed.

Lemma split_join (c : ascii) (l : list string) :
  l <> [] ->
  (forall w, w ∈ l -> sforall (fun a => negb (Ascii.eqb a c)) w = true) ->
  split c (join (String c EmptyString) l) = l.
Proof.
  induction l as [|w l IH]; intros Hne Hl; [done|].
  destruct l as [|w' l].
  - simpl. apply split_free, Hl. left.
  - change (join (String c EmptyString) (w :: w' :: l))
      with (w ++ String c EmptyString ++ join (String c EmptyString) (w' :: l)).
    simpl (String c EmptyString ++ _). rewrite split_app_sep by (apply Hl; left).
    f_equal. apply IH; [done|]. intros; apply Hl; by right.
Qed.

Lemma split_segment_free (c : ascii) (s w : string) :
  w ∈ split c s -> sforall (fun a => negb (Ascii.eqb a c)) w = true.
Proof.
  revert w; induction s as [|a s IH]; intros w; simpl.
  - rewrite list_elem_of_singleton. by intros ->.
  - destruct (Ascii.eqb a c) eqn:E.
    + rewrite elem_of_cons. intros [->|H]; [done|auto].
    + destruct (split c s) as [|w' ws] eqn:Es; [by apply split_nonnil in Es|].
      rewrite elem_of_cons. intros [->|H].
      * simpl. rewrite E. simpl. apply IH. left.
      * apply IH. by right.
Qed.

(** Segments keep every character property of the string they come from. *)
Lemma split_sforall (p : ascii -> bool) (c : ascii) (s w : string) :
  sforall p s = true -> w ∈ split c s -> sforall p w = true.
Proof.
  revert w; induction s as [|a s IH]; intros w; simpl.
  - rewrite list_elem_of_singleton. by intros _ ->.
  - intros [Ha Hs]%andb_true_iff. destruct (Ascii.eqb a c).
    + rewrite elem_of_cons. intros [->|H]; [done|auto].
    + destruct (split c s) as [|w' ws] eqn:Es; [by apply split_nonnil in Es|].
      rewrite elem_of_cons. intros [->|H].
      * simpl. rewrite Ha. apply IH; [done|left].
      * apply IH; [done|by right].
Qed.

Lemma join_sforall (p : ascii -> bool) (sep : string) (l : list string) :
  sforall p sep = true -> (forall w, w ∈ l -> sforall p w = true) ->
  sforall p (join sep l) = true.
Proof.
  intros Hsep. induction l as [|w l IH]; intros Hl; [done|].
  destruct l as [|w' l].
  - apply Hl; left.
  - change (join sep (w :: w' :: l)) with (w ++ sep ++ join sep (w' :: l)).
    rewrite !sforall_app, Hsep, (Hl w), IH by (intros; try apply Hl; set_solver). done.
Qed.

(** ** Comparison *)

Lemma str_compare_antisym (s t : string) : str_compare t s = CompOpp (str_compare s t).
Proof. apply String.compare_antisym. Qed.

Lemma str_compare_eq (s t : string) : str_compare s t = Eq <-> s = t.
Proof.
  split; [apply String.compare_eq_iff|]. intros ->. unfold str_compare.
  induction t as [|a t IH]; simpl; [done|].
  assert (Ascii.compare a a = Eq) as -> by (unfold Ascii.compare; apply N.compare_refl). done.
Qed.

Lemma str_compare_refl (s : string) : str_compare s s = Eq.
Proof. by apply str_compare_eq. Qed.

Lemma ascii_compare_trans (a b c : ascii) :
  Ascii.compare a b = Lt -> Ascii.compare b c = Lt -> Ascii.compare a c = Lt.
Proof. unfold Ascii.compare. rewrite !N.compare_lt_iff. lia. Qed.

Lemma ascii_compare_eq (a b : ascii) : Ascii.compare a b = Eq <-> a = b.
Proof.
  unfold Ascii.compare. rewrite N.compare_eq_iff. split; [|by intros ->].
  intros H. rewrite <- (ascii_N_embedding a), <- (ascii_N_embedding b). by rewrite H.
Qed.

Lemma str_compare_trans (s t u : string) :
  str_compare s t = Lt -> str_compare t u = Lt -> str_compare s u = Lt.
Proof.
  unfold str_compare. revert t u.
  induction s as [|a s IH]; intros [|b t] [|c u]; simpl; try done.
  destruct (Ascii.compare a b) eqn:E1; destruct (Ascii.compare b c) eqn:E2; try done.
  - apply ascii_compare_eq in E1, E2. subst.
    rewrite (proj2 (ascii_compare_eq c c) eq_refl). eauto.
  - apply ascii_compare_eq in E1. subst. by rewrite E2.
  - apply ascii_compare_eq in E2. subst. by rewrite E1.
  - by rewrite (ascii_compare_trans _ _ _ E1 E2).
Qed.

(** ** Unambiguity of [JSON.stringify] on strings *)

(** Every escaped code unit is non-empty, starts with neither the closing
    quote nor the escape of another code unit. *)
Definition escapes_apart (a b : ascii) : bool :=
  Ascii.eqb a b || negb (String.prefix (json_escape_char a) (json_escape_char b)).

Lemma escapes_apart_all (a b : ascii) : escapes_apart a b = true.
Proof.
  revert b. apply ascii_all. revert a.
  apply (ascii_all (fun a => forallb (escapes_apart a) (map ascii_of_nat (seq 0 256)))).
  vm_compute. reflexivity.
Qed.

Lemma prefix_app_or (x y p q : string) :
  x ++ p = y ++ q -> String.prefix x y = true \/ String.prefix y x = true.
Proof.
  revert y; induction x as [|a x IH]; intros [|b y]; simpl; auto.
  intros [= -> H]. destruct (IH _ H) as [H'|H']; case_match; auto; done.
Qed.

Lemma json_escape_char_inj (a b : ascii) (p q : string) :
  json_escape_char a ++ p = json_escape_char b ++ q -> a = b /\ p = q.
Proof.
  intros H. assert (a = b) as ->.
  { destruct (Ascii.eqb_spec a b) as [|Hne]; [done|]. exfalso.
    pose proof (escapes_apart_all a b) as H1. pose proof (escapes_apart_all b a) as H2.
    unfold escapes_apart in *. apply Ascii.eqb_neq in Hne.
    rewrite Ascii.eqb_sym in H2. rewrite Hne in H1, H2. simpl in *. breflect.
    destruct (prefix_app_or _ _ _ _ H); congruence. }
  split; [done|]. by eapply app_inj_l_str.
Qed.

Lemma json_escape_char_not_quote (a : ascii) :
  exists b s, json_escape_char a = String b s /\ b <> quote_char.
Proof.
  pose (ok := fun a => match json_escape_char a with
                       | String b _ => negb (Ascii.eqb b quote_char)
                       | EmptyString => false
                       end).
  assert (H : ok a = true).
  { revert a. apply ascii_all. vm_compute. reflexivity. }
  unfold ok in H. destruct (json_escape_char a) as [|b s]; [done|].
  exists b, s. split; [done|]. breflect. by apply Ascii.eqb_neq.
Qed.

(** A JSON string literal followed by anything parses in one way only. *)
Lemma json_string_inj (s t p q : string) :
  json_string s ++ p = json_string t ++ q -> s = t /\ p = q.
Proof.
  unfold json_string. simpl. rewrite !app_assoc_str. intros [= H]. revert t H.
  induction s as [|a s IH]; intros [|b t] H; simpl in H.
  - by injection H.
  - exfalso. destruct (json_escape_char_not_quote b) as (c & r & E & Hc).
    rewrite E in H. simpl in H. injection H. congruence.
  - exfalso. destruct (json_escape_char_not_quote a) as (c & r & E & Hc).
    rewrite E in H. simpl in H. injection H. congruence.
  - rewrite !app_assoc_str in H. apply json_escape_char_inj in H as [-> H].
    destruct (IH _ H). by subst.
Qed.

#[export] Hint Rewrite app_assoc_str app_nil_str : omk.

(** ** Lists of strings *)

Lemma existsb_eqb_elem (k : string) (l : list string) : existsb (String.eqb k) l = true <-> k ∈ l.
Proof.
  rewrite existsb_true_iff. split; [|by exists k; rewrite String.eqb_refl].
  by intros (x & Hx & ->%String.eqb_eq).
Qed.

Lemma str_le_trans (s t u : string) :
  cmp_le str_compare s t -> cmp_le str_compare t u -> cmp_le str_compare s u.
Proof.
  unfold cmp_le. intros Hst Htu. destruct (str_compare s t) eqn:E1; [|clear Hst|done].
  - apply str_compare_eq in E1. by subst.
  - destruct (str_compare t u) eqn:E2; [|by rewrite (str_compare_trans _ _ _ E1 E2)|done].
    apply str_compare_eq in E2. subst. by rewrite E1.
Qed.

(** [l.sort()] of strings. *)
Lemma sort_strings_sorted (l : list string) :
  Sorted.StronglySorted (cmp_le str_compare) (stable_sort str_compare l).
Proof. apply stable_sort_sorted; [apply str_compare_antisym|apply str_le_trans]. Qed.
