(* ===== verification/JsValue.v ===== *)
(** * JavaScript values

    The [unknown] payloads the sources inspect: values as [JSON.parse] and the
    tool transports produce them (no functions, symbols or accessors). A
    number is NaN, an infinity or a finite double, the latter as the rational
    it denotes, on which the language's comparisons are exact. An object is
    the list of its own enumerable properties in order. *)

From Stdlib Require Import String ZArith QArith Qround Lia.
From stdpp Require Import base list option strings pretty sets.
From S2P Require Import Prelude JsString.

Open Scope string_scope.

Inductive jsnum : Type :=
| NumNaN
| NumInf (negative : bool)
| NumFin (q : Q).

Inductive jsval : Type :=
| JUndefined
| JNull
| JBool (b : bool)
| JNumber (n : jsnum)
| JString (s : string)
| JArray (l : list jsval)
| JObject (fields : list (string * jsval)).

(** ** Numbers *)

(** [a < b]; every comparison with NaN is false. *)
Definition num_lt (a b : jsnum) : bool :=
  match a, b with
  | NumNaN, _ | _, NumNaN => false
  | NumInf true, NumInf true => false
  | NumInf true, _ => true
  | _, NumInf true => false
  | NumInf false, _ => false
  | _, NumInf false => true
  | NumFin p, NumFin q => negb (Qle_bool q p)
  end.

(** [a <= b]. *)
Definition num_le (a b : jsnum) : bool :=
  match a, b with
  | NumNaN, _ | _, NumNaN => false
  | NumInf true, _ => true
  | _, NumInf true => false
  | _, NumInf false => true
  | NumInf false, _ => false
  | NumFin p, NumFin q => Qle_bool p q
  end.

(** [Number.isFinite]. *)
Definition num_isFinite (a : jsnum) : bool :=
  match a with
  | NumFin _ => true
  | _ => false
  end.

(** [Math.floor] of a finite number. *)
Definition num_floor (q : Q) : Z := Qfloor q.

Definition num_of_nat (n : nat) : jsnum := NumFin (inject_Z (Z.of_nat n)).

(** ** Arithmetic of doubles

    A finite number is a double, so its denominator is a power of two; a product
    is the exact product with its numerator rounded to 53 bits. *)

Section Doubles.
Local Open Scope Z_scope.

(** An integer product rounded to 53 significant bits, ties to even. *)
Definition round53 (m : Z) : Z :=
  let a := Z.abs m in
  if a <? 2 ^ 53 then m
  else
    let p := 2 ^ (Z.log2 a - 52) in
    let q := a / p in
    let r := a mod p in
    let up := if 2 * r <? p then 0 else if p <? 2 * r then 1 else q mod 2 in
    Z.sgn m * ((q + up) * p).

(** [Math.floor(a * b)] of finite numbers. *)
Definition mul_floor (a b : Q) : Z := round53 (Qnum a * Qnum b) / (Zpos (Qden a) * Zpos (Qden b)).

(** The denominator of a double. *)
Definition dyadic (q : Q) : Prop := exists k, 0 <= k /\ Zpos (Qden q) = 2 ^ k.

Lemma round53_small (m : Z) : Z.abs m < 2 ^ 53 -> round53 m = m.
Proof. intros H. unfold round53. cbv zeta. by rewrite (proj2 (Z.ltb_lt _ _) H). Qed.

Lemma round53_nonneg (m : Z) : 0 <= m -> 0 <= round53 m.
Proof.
  intros Hm. unfold round53. cbv zeta. rewrite Z.abs_eq by done.
  destruct (Z.ltb_spec m (2 ^ 53)); [done|].
  assert (0 <= Z.log2 m - 52) by (pose proof (Z.log2_le_mono (2 ^ 53) m ltac:(lia)) as H1;
    rewrite Z.log2_pow2 in H1 by lia; lia).
  set (p := 2 ^ (Z.log2 m - 52)). assert (0 < p) by (apply Z.pow_pos_nonneg; lia).
  pose proof (Z.div_pos m p ltac:(lia) ltac:(lia)).
  apply Z.mul_nonneg_nonneg; [apply Z.sgn_nonneg; lia|].
  apply Z.mul_nonneg_nonneg; [|lia].
  pose proof (Z.mod_pos_bound (m / p) 2 ltac:(lia)).
  destruct (2 * (m mod p) <? p); [lia|]. destruct (p <? 2 * (m mod p)); lia.
Qed.

(** Rounding does not pass a representable bound. *)
Lemma round53_upper (m w k : Z) :
  0 <= k -> 0 <= m <= w * 2 ^ k -> w < 2 ^ 53 -> round53 m <= w * 2 ^ k.
Proof.
  intros Hk [Hm Hle] Hw. unfold round53. cbv zeta. rewrite Z.abs_eq by done.
  destruct (Z.ltb_spec m (2 ^ 53)) as [|Hbig]; [done|].
  assert (Hl : 53 <= Z.log2 m) by (pose proof (Z.log2_le_mono (2 ^ 53) m ltac:(lia)) as H1;
    rewrite Z.log2_pow2 in H1 by lia; lia).
  assert (Hl2 : Z.log2 m < 53 + k).
  { apply Z.log2_lt_pow2; [lia|]. rewrite Z.pow_add_r by lia.
    apply (Z.le_lt_trans _ (w * 2 ^ k)); [done|]. apply Z.mul_lt_mono_pos_r; [|done].
    apply Z.pow_pos_nonneg; lia. }
  set (e := Z.log2 m - 52) in *. set (p := 2 ^ e). assert (Hp : 0 < p) by (apply Z.pow_pos_nonneg; lia).
  assert (Hx : w * 2 ^ k = w * 2 ^ (k - e) * p).
  { unfold p. rewrite <- Z.mul_assoc, <- Z.pow_add_r by lia. do 2 f_equal. lia. }
  rewrite Z.sgn_pos, Z.mul_1_l, Hx by lia. apply Z.mul_le_mono_nonneg_r; [lia|].
  pose proof (Z.div_mod m p ltac:(lia)) as Hd. pose proof (Z.mod_pos_bound m p Hp) as Hr.
  rewrite Hx in Hle.
  assert (Hq : m / p <= w * 2 ^ (k - e)) by (apply (Z.mul_le_mono_pos_r _ _ p Hp); nia).
  assert (Hup : 0 < m mod p -> m / p + 1 <= w * 2 ^ (k - e)).
  { intros Hpos. assert (m / p < w * 2 ^ (k - e)); [|lia]. apply (Z.mul_lt_mono_pos_r p _ _ Hp). nia. }
  pose proof (Z.mod_pos_bound (m / p) 2 ltac:(lia)).
  destruct (Z.ltb_spec (2 * (m mod p)) p); [lia|]. destruct (p <? 2 * (m mod p)); lia.
Qed.

(** An integer times a ratio below one does not exceed the integer. *)
Lemma mul_floor_ratio (w : Z) (r : Q) :
  0 <= w < 2 ^ 53 -> dyadic r -> (0 < r)%Q -> (r < 1)%Q -> 0 <= mul_floor (inject_Z w) r <= w.
Proof.
  intros Hw (k & Hk & Hd) H0 H1. unfold mul_floor. cbn [inject_Z Qnum Qden]. rewrite Z.mul_1_l.
  unfold Qlt in H0, H1. cbn [Qnum Qden] in H0, H1. rewrite Hd in *.
  assert (Hp : 0 < 2 ^ k) by (apply Z.pow_pos_nonneg; lia).
  assert (Hb : 0 <= w * Qnum r <= w * 2 ^ k).
  { split; [nia|]. apply Z.mul_le_mono_nonneg_l; lia. }
  split.
  - apply Z.div_pos; [|done]. apply round53_nonneg. lia.
  - apply Z.div_le_upper_bound; [done|]. rewrite (Z.mul_comm (2 ^ k)). apply round53_upper; lia.
Qed.
End Doubles.

(** [Math.min(a, b)]. *)
Definition num_min (a b : jsnum) : jsnum :=
  match a, b with
  | NumNaN, _ | _, NumNaN => NumNaN
  | _, _ => if num_lt b a then b else a
  end.

(** ** Property access and shape tests *)

Fixpoint assoc_lookup (key : string) (fields : list (string * jsval)) : jsval :=
  match fields with
  | [] => JUndefined
  | (k, v) :: rest => if String.eqb k key then v else assoc_lookup key rest
  end.

(** [value[key]] on an object or array (never on [null]/[undefined], where the
    language throws; the sources test before they read). *)
Definition get_prop (key : string) (value : jsval) : jsval :=
  match value with
  | JObject fields => assoc_lookup key fields
  | JArray l => if String.eqb key "length" then JNumber (num_of_nat (length l)) else JUndefined
  | _ => JUndefined
  end.

(** [typeof value === "object" && value !== null]: objects and arrays. *)
Definition is_object (value : jsval) : bool :=
  match value with
  | JObject _ | JArray _ => true
  | _ => false
  end.

Definition as_string (value : jsval) : option string :=
  match value with
  | JString s => Some s
  | _ => None
  end.

Definition as_number (value : jsval) : option jsnum :=
  match value with
  | JNumber n => Some n
  | _ => None
  end.

Definition as_array (value : jsval) : option (list jsval) :=
  match value with
  | JArray l => Some l
  | _ => None
  end.

Definition is_nullish (value : jsval) : bool :=
  match value with
  | JUndefined | JNull => true
  | _ => false
  end.

Definition is_undefined (value : jsval) : bool :=
  match value with
  | JUndefined => true
  | _ => false
  end.

(** [a ?? b]. *)
Definition nullish (a b : jsval) : jsval := if is_nullish a then b else a.

(** [value === true]. *)
Definition is_true (value : jsval) : bool :=
  match value with
  | JBool b => b
  | _ => false
  end.

(** ** [JSON.stringify]

    The decimal rendering of a finite number is the parameter [num_str]
    (the language's [Number::toString]); everything else is spelled out.
    [None] is the [undefined] that [JSON.stringify(undefined)] returns;
    inside an array [undefined] prints as [null], and an [undefined] property
    is skipped. *)
Section Stringify.
Context (num_str : Q -> string).

Fixpoint json_stringify (v : jsval) : option string :=
  match v with
  | JUndefined => None
  | JNull => Some "null"
  | JBool true => Some "true"
  | JBool false => Some "false"
  | JNumber (NumFin q) => Some (num_str q)
  | JNumber _ => Some "null"
  | JString s => Some (json_string s)
  | JArray l =>
      Some ("[" ++ join "," (map (fun x => default "null" (json_stringify x)) l) ++ "]")
  | JObject fields =>
      Some ("{" ++ join "," (omap (fun kv =>
        (fun t => json_string (fst kv) ++ ":" ++ t) <$> json_stringify (snd kv)) fields) ++ "}")
  end.
End Stringify.

(** A decimal counter inside a template literal. *)
Definition nat_str (n : nat) : string := pretty n.

(** ** [Map] with string keys: entries in insertion order *)

Section OrderedMap.
Context {V : Type}.

Fixpoint map_get (key : string) (m : list (string * V)) : option V :=
  match m with
  | [] => None
  | (k, v) :: rest => if String.eqb k key then Some v else map_get key rest
  end.

Definition map_has (key : string) (m : list (string * V)) : bool :=
  match map_get key m with
  | Some _ => true
  | None => false
  end.

(** [map.set]: an existing key keeps its place. *)
Fixpoint map_set (key : string) (v : V) (m : list (string * V)) : list (string * V) :=
  match m with
  | [] => [(key, v)]
  | (k, w) :: rest => if String.eqb k key then (k, v) :: rest else (k, w) :: map_set key v rest
  end.

Definition map_delete (key : string) (m : list (string * V)) : list (string * V) :=
  List.filter (fun kv => negb (String.eqb (fst kv) key)) m.
End OrderedMap.

Lemma map_get_set {V} (k k' : string) (v : V) (m : list (string * V)) :
  map_get k' (map_set k v m) = if String.eqb k k' then Some v else map_get k' m.
Proof.
  induction m as [|[q w] m IH]; simpl; [done|].
  destruct (String.eqb_spec q k) as [->|Hqk]; simpl.
  - by destruct (String.eqb k k').
  - rewrite IH. destruct (String.eqb_spec q k'), (String.eqb_spec k k'); congruence.
Qed.

Lemma map_set_keys {V} (k : string) (v : V) (m : list (string * V)) :
  map fst (map_set k v m) = if map_has k m then map fst m else (map fst m ++ [k])%list.
Proof.
  unfold map_has. induction m as [|[q w] m IH]; simpl; [done|].
  destruct (String.eqb_spec q k); simpl; [done|]. rewrite IH. by destruct (map_get k m).
Qed.

Lemma map_has_keys {V} (k : string) (m : list (string * V)) : map_has k m = true <-> k ∈ map fst m.
Proof.
  unfold map_has. induction m as [|[q w] m IH]; simpl; [set_solver|].
  rewrite elem_of_cons, <- IH. destruct (String.eqb_spec q k); naive_solver.
Qed.

Lemma map_get_elem {V} (k : string) (v : V) (m : list (string * V)) :
  NoDup (map fst m) -> (k, v) ∈ m <-> map_get k m = Some v.
Proof.
  induction m as [|[q w] m IH]; simpl; intros Hnd; [split; [by intros ?%elem_of_nil|done]|].
  apply NoDup_cons in Hnd as [Hq Hnd]. rewrite elem_of_cons, (IH Hnd).
  destruct (String.eqb_spec q k) as [->|Hne]; [|naive_solver]. split; [|naive_solver].
  intros [[= ->]|H]; [done|]. exfalso. apply Hq. apply map_has_keys. unfold map_has. by rewrite H.
Qed.

Lemma map_set_NoDup {V} (k : string) (v : V) (m : list (string * V)) :
  NoDup (map fst m) -> NoDup (map fst (map_set k v m)).
Proof.
  intros H. rewrite map_set_keys. destruct (map_has k m) eqn:E; [done|].
  apply NoDup_app. split; [done|]. split; [|apply NoDup_singleton].
  intros x Hx Hk%list_elem_of_singleton. subst.
  apply map_has_keys in Hx. congruence.
Qed.

Lemma map_delete_keys {V} (k : string) (m : list (string * V)) :
  map fst (map_delete k m) = List.filter (fun q => negb (String.eqb q k)) (map fst m).
Proof.
  unfold map_delete. induction m as [|[q w] m IH]; simpl; [done|].
  destruct (String.eqb q k); simpl; by rewrite IH.
Qed.
