(* ===== verification/Regex.v ===== *)
(** * Regular expressions

    The fragment of the language's regular expressions the modelled sources
    test with: literals, classes, groups, alternation, repetition, [^], [$]
    (without the [m] flag) and [\b], with or without the [i] flag. Only
    [RegExp.prototype.test] is modelled, so a match is a pair of positions and
    greediness does not matter. [rx_matches] is the declarative meaning,
    [ends] the executable one; they agree. *)

From Stdlib Require Import Ascii String ZArith Lia.
From stdpp Require Import base list option strings sets.
From S2P Require Import Prelude JsString.

Open Scope nat_scope.
Open Scope list_scope.

Inductive regex : Type :=
| REps
| RChar (p : ascii -> bool)
| RSeq (r1 r2 : regex)
| RAlt (r1 r2 : regex)
| RStar (r : regex)
| RBegin
| REnd
| RWordB.

(** A character of [\w]. *)
Definition is_word (a : ascii) : bool :=
  is_alpha a || in_range 48 57 a || (code a =? 95).

Definition word_at (s : list ascii) (i : nat) : bool :=
  match s !! i with
  | Some a => is_word a
  | None => false
  end.

(** Is position [i] a word boundary? *)
Definition word_boundary (s : list ascii) (i : nat) : bool :=
  xorb (match i with
        | O => false
        | S i' => word_at s i'
        end) (word_at s i).

(** ** Meaning *)

Inductive rx_matches (s : list ascii) : regex -> nat -> nat -> Prop :=
| m_eps (i : nat) : rx_matches s REps i i
| m_char (p : ascii -> bool) (i : nat) (a : ascii) :
    s !! i = Some a -> p a = true -> rx_matches s (RChar p) i (S i)
| m_seq (r1 r2 : regex) (i j k : nat) :
    rx_matches s r1 i j -> rx_matches s r2 j k -> rx_matches s (RSeq r1 r2) i k
| m_alt_l (r1 r2 : regex) (i j : nat) : rx_matches s r1 i j -> rx_matches s (RAlt r1 r2) i j
| m_alt_r (r1 r2 : regex) (i j : nat) : rx_matches s r2 i j -> rx_matches s (RAlt r1 r2) i j
| m_star_nil (r : regex) (i : nat) : rx_matches s (RStar r) i i
| m_star_step (r : regex) (i j k : nat) :
    rx_matches s r i j -> rx_matches s (RStar r) j k -> rx_matches s (RStar r) i k
| m_begin : rx_matches s RBegin 0 0
| m_end : rx_matches s REnd (length s) (length s)
| m_wordb (i : nat) : word_boundary s i = true -> rx_matches s RWordB i i.

(** ** Matcher *)

(** The end positions of at most [fuel] iterations of a body. *)
Fixpoint star_ends (step : nat -> list nat) (fuel i : nat) : list nat :=
  i :: match fuel with
       | O => []
       | S fuel' =>
           concat (map (fun j => if (i <? j)%nat then star_ends step fuel' j else []) (step i))
       end.

Fixpoint ends (s : list ascii) (r : regex) (i : nat) : list nat :=
  match r with
  | REps => [i]
  | RChar p =>
      match s !! i with
      | Some a => if p a then [S i] else []
      | None => []
      end
  | RSeq r1 r2 => concat (map (ends s r2) (ends s r1 i))
  | RAlt r1 r2 => ends s r1 i ++ ends s r2 i
  | RStar r1 => star_ends (ends s r1) (length s - i) i
  | RBegin => if (i =? 0)%nat then [i] else []
  | REnd => if (i =? length s)%nat then [i] else []
  | RWordB => if word_boundary s i then [i] else []
  end.

(** [regex.test(s)]. *)
Definition rx_test (r : regex) (s : string) : bool :=
  let l := list_ascii_of_string s in
  existsb (fun i => match ends l r i with
                    | [] => false
                    | _ => true
                    end) (seq 0 (S (length l))).

(** ** Notation of the sources *)

Definition RPlus (r : regex) : regex := RSeq r (RStar r).
Definition ROpt (r : regex) : regex := RAlt r REps.

(** [r{n,}] *)
Fixpoint RAtLeast (n : nat) (r : regex) : regex :=
  match n with
  | O => RStar r
  | S n' => RSeq r (RAtLeast n' r)
  end.

Fixpoint RAlts (rs : list regex) : regex :=
  match rs with
  | [] => RChar (fun _ => false)
  | [r] => r
  | r :: rs' => RAlt r (RAlts rs')
  end.

Fixpoint RSeqs (rs : list regex) : regex :=
  match rs with
  | [] => REps
  | [r] => r
  | r :: rs' => RSeq r (RSeqs rs')
  end.

(** A literal, case-sensitively and under the [i] flag. *)
Fixpoint RLit (t : string) : regex :=
  match t with
  | EmptyString => REps
  | String c t' => RSeq (RChar (fun a => Ascii.eqb a c)) (RLit t')
  end.

Fixpoint RLitI (t : string) : regex :=
  match t with
  | EmptyString => REps
  | String c t' =>
      RSeq (RChar (fun a => Ascii.eqb (lower_ascii a) (lower_ascii c))) (RLitI t')
  end.

Definition one_of (chars : string) (a : ascii) : bool :=
  existsb (Ascii.eqb a) (list_ascii_of_string chars).

Definition RSpace : regex := RChar is_ws.

(** ** The matcher is correct *)

Lemma ends_progress (s : list ascii) (r : regex) (i j : nat) :
  j ∈ ends s r i -> i <= j.
Proof.
  revert i j; induction r as [|p|r1 IH1 r2 IH2|r1 IH1 r2 IH2|r IH| | |]; intros i j; simpl.
  - intros ->%list_elem_of_singleton. lia.
  - destruct (s !! i) as [a|]; [|set_solver]. destruct (p a); [|set_solver].
    intros ->%list_elem_of_singleton. lia.
  - rewrite elem_of_concat_map. intros (k & Hk & Hj).
    apply IH1 in Hk. apply IH2 in Hj. lia.
  - intros [H|H]%elem_of_app; auto.
  - generalize (length s - i). intros fuel. revert i. induction fuel as [|fuel IHf]; intros i; simpl.
    + intros ->%list_elem_of_singleton. lia.
    + intros [->|H]%elem_of_cons; [lia|]. apply elem_of_concat_map in H as (k & Hk & Hj).
      destruct (Nat.ltb_spec i k); [|set_solver]. apply IHf in Hj. lia.
  - destruct (i =? 0)%nat; [|set_solver]. intros ->%list_elem_of_singleton. lia.
  - destruct (i =? length s)%nat; [|set_solver]. intros ->%list_elem_of_singleton. lia.
  - destruct (word_boundary s i); [|set_solver]. intros ->%list_elem_of_singleton. lia.
Qed.

Lemma matches_bounds (s : list ascii) (r : regex) (i j : nat) :
  rx_matches s r i j -> i <= j /\ (i <= length s -> j <= length s).
Proof.
  induction 1 as [|p i a Ha _| | | | | | | |]; try lia.
  apply lookup_lt_Some in Ha. lia.
Qed.

Lemma star_ends_sound (s : list ascii) (r : regex) (fuel i j : nat) :
  (forall i j, j ∈ ends s r i -> rx_matches s r i j) ->
  j ∈ star_ends (ends s r) fuel i -> rx_matches s (RStar r) i j.
Proof.
  intros IH. revert i; induction fuel as [|fuel IHf]; intros i; simpl.
  - intros ->%list_elem_of_singleton. constructor.
  - intros [->|H]%elem_of_cons; [constructor|]. apply elem_of_concat_map in H as (k & Hk & Hj).
    destruct (Nat.ltb_spec i k); [|set_solver]. econstructor; [by apply IH|by apply IHf].
Qed.

Lemma star_ends_complete (s : list ascii) (r : regex) (i j : nat) :
  (forall i j, rx_matches s r i j -> i <= length s -> j ∈ ends s r i) ->
  rx_matches s (RStar r) i j -> i <= length s ->
  forall fuel, length s - i <= fuel -> j ∈ star_ends (ends s r) fuel i.
Proof.
  intros IH H. remember (RStar r) as rs eqn:Hrs.
  induction H as [| | | | |r' i|r' i j k Hij _ Hjk IHjk| | |]; try done; injection Hrs as ->;
    intros Hi fuel Hf.
  - destruct fuel; simpl; left.
  - pose proof (matches_bounds _ _ _ _ Hij) as [Hle Hb]. specialize (Hb Hi).
    destruct (decide (i = j)) as [->|Hne]; [by apply IHjk|].
    destruct fuel as [|fuel]; [lia|]. simpl. apply elem_of_cons. right.
    apply elem_of_concat_map. exists j. split; [by apply IH|].
    destruct (Nat.ltb_spec i j); [|lia]. apply IHjk; [done|lia|lia].
Qed.

Lemma ends_sound (s : list ascii) (r : regex) (i j : nat) : j ∈ ends s r i -> rx_matches s r i j.
Proof.
  revert i j; induction r as [|p|r1 IH1 r2 IH2|r1 IH1 r2 IH2|r IH| | |]; intros i j; simpl.
  - intros ->%list_elem_of_singleton. constructor.
  - destruct (s !! i) as [a|] eqn:E; [|set_solver]. destruct (p a) eqn:Ep; [|set_solver].
    intros ->%list_elem_of_singleton. by econstructor.
  - rewrite elem_of_concat_map. intros (k & Hk & Hj). econstructor; eauto.
  - intros [H|H]%elem_of_app; [by apply m_alt_l, IH1|by apply m_alt_r, IH2].
  - by apply star_ends_sound.
  - destruct (Nat.eqb_spec i 0) as [->|]; [|set_solver]. intros ->%list_elem_of_singleton. constructor.
  - destruct (Nat.eqb_spec i (length s)) as [->|]; [|set_solver].
    intros ->%list_elem_of_singleton. constructor.
  - destruct (word_boundary s i) eqn:E; [|set_solver].
    intros ->%list_elem_of_singleton. by constructor.
Qed.

Lemma ends_complete (s : list ascii) (r : regex) (i j : nat) :
  rx_matches s r i j -> i <= length s -> j ∈ ends s r i.
Proof.
  revert i j; induction r as [|p|r1 IH1 r2 IH2|r1 IH1 r2 IH2|r IH| | |]; intros i j H Hi; simpl.
  5: { by eapply star_ends_complete. }
  all: inversion H; subst.
  - left.
  - match goal with Ha : s !! i = Some _, Hp : p _ = true |- _ => rewrite Ha, Hp; left end.
  - match goal with H1 : rx_matches s r1 i ?k |- _ =>
      apply elem_of_concat_map; exists k; split; [by apply IH1|];
      apply IH2; [done|by apply matches_bounds in H1 as [_ ?]; auto] end.
  - apply elem_of_app. left. auto.
  - apply elem_of_app. right. auto.
  - left.
  - rewrite Nat.eqb_refl. left.
  - match goal with Hb : word_boundary s _ = true |- _ => rewrite Hb; left end.
Qed.

(** A literal matches where it occurs. *)
Lemma RLit_matches (pre post : list ascii) (t : string) :
  rx_matches (pre ++ list_ascii_of_string t ++ post) (RLit t) (length pre)
    (length pre + String.length t).
Proof.
  revert pre; induction t as [|c t IH]; intros pre; simpl; [rewrite Nat.add_0_r; constructor|].
  econstructor.
  - apply (m_char _ _ (length pre) c); [by apply list_lookup_middle|apply Ascii.eqb_refl].
  - specialize (IH (pre ++ [c])). rewrite length_app, <- app_assoc in IH. simpl in IH.
    rewrite Nat.add_1_r in IH. rewrite Nat.add_succ_r. exact IH.
Qed.

Lemma RAlts_matches (s : list ascii) (rs : list regex) (r : regex) (i j : nat) :
  r ∈ rs -> rx_matches s r i j -> rx_matches s (RAlts rs) i j.
Proof.
  intros Hin Hm. induction rs as [|r' rs IH]; [by apply elem_of_nil in Hin|].
  apply elem_of_cons in Hin as [->|Hin].
  - destruct rs; [done|by apply m_alt_l].
  - specialize (IH Hin). destruct rs; [by apply elem_of_nil in Hin|by apply m_alt_r].
Qed.

Lemma list_ascii_app (s t : string) :
  list_ascii_of_string (s ++ t)%string = list_ascii_of_string s ++ list_ascii_of_string t.
Proof. induction s as [|a s IH]; simpl; [done|]. by rewrite IH. Qed.

Lemma length_list_ascii (s : string) : length (list_ascii_of_string s) = String.length s.
Proof. induction s as [|a s IH]; simpl; [done|]. by rewrite IH. Qed.

(** The executable matcher decides the declarative meaning: a test
    succeeds exactly when the expression matches between two positions of the
    string. *)
Theorem rx_test_iff (r : regex) (s : string) :
  rx_test r s = true <->
  exists i j, i <= length (list_ascii_of_string s) /\ rx_matches (list_ascii_of_string s) r i j.
Proof.
  unfold rx_test. rewrite existsb_true_iff. split.
  - intros (i & Hi & H). destruct (ends _ r i) as [|j js] eqn:E; [done|].
    apply elem_of_seq in Hi. exists i, j. split; [lia|]. apply ends_sound. rewrite E. left.
  - intros (i & j & Hi & H). exists i. apply ends_complete in H; [|done].
    split; [apply elem_of_seq; lia|]. destruct (ends _ r i); [by apply elem_of_nil in H|done].
Qed.
