(* ===== verification/PathSegments.v ===== *)
(** * Lexical paths (packages/agent/src/path-segments.ts)

    The browser-safe path layer of the tool scheduler: slash normalisation,
    joining, the lexical canonicalisation of POSIX and Windows-drive paths,
    and the fail-closed overlap test between two paths. *)

From Stdlib Require Import Ascii String Lia.
From stdpp Require Import base list option strings sets.
From S2P Require Import Prelude JsString.

Open Scope string_scope.

Definition slash : ascii := "/".

(** [raw.replace(/\\/g, "/")] *)
Definition normalizePathSlashes (raw : string) : string :=
  smap (fun a => if Ascii.eqb a backslash_char then slash else a) raw.

Definition pathSegments (normalized : string) : list string :=
  List.filter (fun s => negb (is_empty s)) (split slash normalized).

(** [/^[A-Za-z]:/.test(s)] *)
Definition has_drive (s : string) : bool :=
  match s with
  | String a (String b _) => is_alpha a && Ascii.eqb b ":"
  | _ => false
  end.

(** [/^[A-Za-z]:\//.test(s)] *)
Definition has_drive_slash (s : string) : bool := has_drive s && startsWith "/" (slice 2 s).

(** Join cwd and relative path using forward slashes only. *)
Definition joinPathSegments (cwd relative : string) : string :=
  let base := stripTrailing slash (normalizePathSlashes cwd) in
  let rel := normalizePathSlashes relative in
  if is_empty rel then (if is_empty base then "/" else base)
  else if startsWith "/" rel || has_drive rel then rel
  else base ++ "/" ++ rel.

(** The loop of [collapsePathSegments]: [collapsed] is the array built so far
    ([push] appends, [pop] drops the last element). *)
Fixpoint collapse_loop (segments collapsed : list string) : option (list string) :=
  match segments with
  | [] => Some collapsed
  | segment :: rest =>
      if String.eqb segment "." then collapse_loop rest collapsed
      else if String.eqb segment ".." then
        match collapsed with
        | [] => None
        | _ => collapse_loop rest (removelast collapsed)
        end
      else collapse_loop rest (collapsed ++ [segment])%list
  end.

Definition collapsePathSegments (segments : list string) : option (list string) :=
  collapse_loop segments [].

(** The drive branch of [canonicalizeLexicalPath]: [..] clamps at the root. *)
Fixpoint collapse_clamped (segments collapsed : list string) : list string :=
  match segments with
  | [] => collapsed
  | segment :: rest =>
      if String.eqb segment "." then collapse_clamped rest collapsed
      else if String.eqb segment ".." then collapse_clamped rest (removelast collapsed)
      else collapse_clamped rest (collapsed ++ [segment])%list
  end.

(** The drive-absolute regular expression: a drive, one or more slashes, and a
    rest that holds no line terminator (what [.] excludes). *)
Definition drive_absolute (s : string) : option (string * string) :=
  let rest := stripLeading slash (slice 2 s) in
  if has_drive_slash s && sforall (fun a => negb (is_line_terminator a)) rest
  then Some (slice_to 2 s, rest) else None.

(** The same with exactly one slash consumed. *)
Definition drive_slash (s : string) : option (string * string) :=
  let rest := slice 3 s in
  if has_drive_slash s && sforall (fun a => negb (is_line_terminator a)) rest
  then Some (slice_to 2 s, rest) else None.

Definition canonicalizeLexicalPath (raw : string) : option string :=
  let normalized := normalizePathSlashes raw in
  if startsWith "//" normalized then None
  else match drive_absolute normalized with
  | Some (drive, rest) =>
      Some (drive ++ "/" ++ join "/" (collapse_clamped (pathSegments rest) []))
  | None =>
      if has_drive normalized then None
      else
        let rooted := startsWith "/" normalized in
        match collapsePathSegments (pathSegments normalized) with
        | None => None
        | Some collapsed =>
            Some (if rooted then "/" ++ join "/" collapsed else join "/" collapsed)
        end
  end.

Record CanonicalPathParts : Type := {
  drive : option string;
  rooted : bool;
  segments : list string;
}.

Definition canonicalPathParts (raw : string) : option CanonicalPathParts :=
  match canonicalizeLexicalPath raw with
  | None => None
  | Some canonical =>
      match drive_slash canonical with
      | Some (d, rest) =>
          Some {| drive := Some (toLowerCase d); rooted := true; segments := pathSegments rest |}
      | None =>
          Some {| drive := None; rooted := startsWith "/" canonical;
                  segments := pathSegments canonical |}
      end
  end.

(** The comparison loop over the common length. *)
Fixpoint segments_agree (l r : list string) : bool :=
  match l, r with
  | x :: l', y :: r' =>
      if negb (String.eqb (toLowerCase x) (toLowerCase y)) then false else segments_agree l' r'
  | _, _ => true
  end.

Definition is_nil {A} (l : list A) : bool :=
  match l with
  | [] => true
  | _ => false
  end.

(** [leftPath.drive !== rightPath.drive], both non-null. *)
Definition drives_differ (l r : CanonicalPathParts) : bool :=
  match drive l, drive r with
  | Some a, Some b => negb (String.eqb a b)
  | _, _ => false
  end.

(** One path names a drive, the other is relative. *)
Definition drive_vs_relative (l r : CanonicalPathParts) : bool :=
  (match drive l with Some _ => negb (rooted r) | None => false end)
  || (match drive r with Some _ => negb (rooted l) | None => false end).

Definition pathSegmentsOverlap (left right : string) : bool :=
  match canonicalPathParts left, canonicalPathParts right with
  | Some leftPath, Some rightPath =>
      if drives_differ leftPath rightPath then false
      else if drive_vs_relative leftPath rightPath then true
      else if is_nil (segments leftPath) || is_nil (segments rightPath) then true
      else segments_agree (segments leftPath) (segments rightPath)
  | _, _ => true
  end.

(** ** Lemmas *)

(** A segment that survives collapsing. *)
Definition proper_segment (s : string) : Prop :=
  s <> EmptyString /\ s <> "." /\ s <> ".." /\
  sforall (fun a => negb (Ascii.eqb a slash)) s = true.

Lemma pathSegments_elem (s w : string) :
  w ∈ pathSegments s ->
  w <> EmptyString /\ sforall (fun a => negb (Ascii.eqb a slash)) w = true.
Proof.
  unfold pathSegments. rewrite elem_of_filter_list. intros [Hw Hne]. split.
  - intros ->. done.
  - by eapply split_segment_free.
Qed.

Lemma elem_of_removelast {A} (l : list A) (x : A) : x ∈ removelast l -> x ∈ l.
Proof.
  induction l as [|a l IH]; simpl; [done|]. destruct l as [|b l]; [by inversion 1|].
  rewrite elem_of_cons. intros [->|H]; [left|right; auto].
Qed.

Lemma collapse_loop_proper (segs acc out : list string) :
  (forall w, w ∈ segs ->
     w <> EmptyString /\ sforall (fun a => negb (Ascii.eqb a slash)) w = true) ->
  Forall proper_segment acc ->
  collapse_loop segs acc = Some out -> Forall proper_segment out.
Proof.
  revert acc; induction segs as [|s segs IH]; intros acc Hs Hacc; simpl; [by intros [= <-]|].
  assert (Hs' : forall w, w ∈ segs ->
     w <> EmptyString /\ sforall (fun a => negb (Ascii.eqb a slash)) w = true)
    by (intros; apply Hs; by right).
  destruct (String.eqb_spec s "."); [by apply IH|].
  destruct (String.eqb_spec s "..").
  - destruct acc as [|a acc]; [done|]. apply IH; [done|].
    rewrite Forall_forall in *. intros x Hx. by apply Hacc, elem_of_removelast.
  - apply IH; [done|]. apply Forall_app; split; [done|]. constructor; [|constructor].
    destruct (Hs s) as [? ?]; [left|]. by repeat split.
Qed.

(** Collapsing a list of proper segments appends it. *)
Lemma collapse_loop_id (segs acc : list string) :
  Forall proper_segment segs -> collapse_loop segs acc = Some (acc ++ segs)%list.
Proof.
  revert acc; induction segs as [|s segs IH]; intros acc; simpl.
  - by rewrite app_nil_r.
  - intros [(? & ? & ? & ?) Hs]%Forall_cons.
    rewrite (proj2 (String.eqb_neq s ".")), (proj2 (String.eqb_neq s "..")) by done.
    rewrite IH by done. by rewrite <- (assoc (++)%list).
Qed.

Lemma collapse_loop_app (segs more acc : list string) :
  collapse_loop (segs ++ more)%list acc
  = match collapse_loop segs acc with
    | None => None
    | Some c => collapse_loop more c
    end.
Proof.
  revert acc; induction segs as [|s segs IH]; intros acc; simpl; [done|].
  destruct (String.eqb s "."); [apply IH|].
  destruct (String.eqb s ".."); [|apply IH]. destruct acc; [done|apply IH].
Qed.

Lemma pathSegments_join (l : list string) :
  Forall proper_segment l -> pathSegments (join "/" l) = l.
Proof.
  intros Hl. destruct l as [|w l]; [done|].
  unfold pathSegments. rewrite (split_join slash).
  - clear -Hl. induction Hl as [|x l' (Hx & _) Hl IH]; [done|].
    simpl. destruct x; [done|]. simpl. by rewrite IH.
  - done.
  - rewrite Forall_forall in Hl. intros x Hx. apply Hl in Hx. by destruct Hx as (_ & _ & _ & ?).
Qed.

Lemma pathSegments_slash (s : string) : pathSegments (String slash s) = pathSegments s.
Proof. unfold pathSegments, slash. simpl. done. Qed.

Lemma split_app (c : ascii) (s t : string) :
  split c (s ++ String c t) = (split c s ++ split c t)%list.
Proof.
  induction s as [|a s IH]; simpl; [by rewrite Ascii.eqb_refl|].
  rewrite IH. destruct (Ascii.eqb a c); [done|].
  destruct (split c s) eqn:E; [by apply split_nonnil in E|done].
Qed.

Lemma pathSegments_app (s t : string) :
  pathSegments (s ++ "/" ++ t) = (pathSegments s ++ pathSegments t)%list.
Proof.
  unfold pathSegments. change ("/" ++ t) with (String slash t).
  by rewrite split_app, List.filter_app.
Qed.

Definition no_backslash (s : string) : bool :=
  sforall (fun a => negb (Ascii.eqb a backslash_char)) s.

Lemma normalizePathSlashes_no_backslash (s : string) :
  no_backslash (normalizePathSlashes s) = true.
Proof.
  apply sforall_smap. intros a. by destruct (Ascii.eqb a backslash_char) eqn:E; [|rewrite E].
Qed.

Lemma normalizePathSlashes_id (s : string) :
  no_backslash s = true -> normalizePathSlashes s = s.
Proof.
  apply smap_id_on. intros a Ha. breflect. by rewrite Ha.
Qed.

Lemma normalizePathSlashes_app (s t : string) :
  normalizePathSlashes (s ++ t) = normalizePathSlashes s ++ normalizePathSlashes t.
Proof. unfold normalizePathSlashes. induction s as [|a s IH]; simpl; [done|]. by rewrite IH. Qed.

Lemma collapse_loop_sforall (p : ascii -> bool) (segs acc out : list string) :
  (forall w, w ∈ segs -> sforall p w = true) -> (forall w, w ∈ acc -> sforall p w = true) ->
  collapse_loop segs acc = Some out -> forall w, w ∈ out -> sforall p w = true.
Proof.
  revert acc; induction segs as [|s segs IH]; intros acc Hs Hacc; simpl; [by intros [= <-]|].
  assert (Hs' : forall w, w ∈ segs -> sforall p w = true) by (intros; apply Hs; by right).
  repeat case_match; try done; apply IH; try done.
  - intros w Hw. by apply Hacc, elem_of_removelast.
  - intros w [Hw|Hw]%elem_of_app; [auto|]. apply list_elem_of_singleton in Hw as ->.
    apply Hs. left.
Qed.

Lemma join_proper_no_slash_head (l : list string) :
  Forall proper_segment l -> startsWith "/" (join "/" l) = false.
Proof.
  intros Hl. destruct Hl as [|w l' (Hne & _ & _ & Hw) _]; [done|].
  destruct w as [|a w]; [done|]. simpl in Hw. breflect.
  assert (a <> "/"%char) by (intros ->; done).
  assert (exists r, join "/" (String a w :: l') = String a r) as [r ->]
    by (destruct l'; simpl; eauto).
  rewrite startsWith_char. apply Ascii.eqb_neq. congruence.
Qed.

(** ** Canonicalisation *)

(** What a rooted canonical path is made of. *)
Lemma canonicalize_rooted_shape (raw canonical : string) :
  canonicalizeLexicalPath raw = Some canonical -> startsWith "/" canonical = true ->
  exists segs, Forall proper_segment segs /\ canonical = "/" ++ join "/" segs
    /\ no_backslash canonical = true
    /\ has_drive (normalizePathSlashes raw) = false
    /\ startsWith "/" (normalizePathSlashes raw) = true
    /\ startsWith "//" (normalizePathSlashes raw) = false
    /\ collapsePathSegments (pathSegments (normalizePathSlashes raw)) = Some segs.
Proof.
  unfold canonicalizeLexicalPath.
  destruct (startsWith "//" _) eqn:Eu; [done|].
  destruct (drive_absolute _) as [[d rest]|] eqn:Ed.
  - (* a drive path does not start with a slash *)
    unfold drive_absolute in Ed. split_in Ed. breflect.
    unfold has_drive_slash, has_drive in *.
    destruct (normalizePathSlashes raw) as [|a [|b s]]; try done.
    breflect. intros [= <-]. simpl. rewrite startsWith_char.
    intros <-%Ascii.eqb_eq. done.
  - destruct (has_drive _) eqn:Eh; [done|].
    destruct (collapsePathSegments _) as [segs|] eqn:Ec; [|done].
    assert (Hp : Forall proper_segment segs).
    { eapply collapse_loop_proper; [| |exact Ec]; [|constructor].
      intros w Hw. by eapply pathSegments_elem. }
    destruct (startsWith "/" (normalizePathSlashes raw)) eqn:Er; intros [= <-] Hs.
    + exists segs. split; [done|]. split; [done|]. split; [|done].
      unfold no_backslash. simpl. apply join_sforall; [done|].
      eapply collapse_loop_sforall; [| |exact Ec]; [|by intros ? ?%elem_of_nil].
      intros w Hw. unfold pathSegments in Hw. apply elem_of_filter_list in Hw as [Hw _].
      eapply split_sforall; [|exact Hw]. apply normalizePathSlashes_no_backslash.
    + rewrite join_proper_no_slash_head in Hs; done.
Qed.

Lemma canonicalize_rooted_intro (segs : list string) :
  Forall proper_segment segs -> no_backslash ("/" ++ join "/" segs) = true ->
  canonicalizeLexicalPath ("/" ++ join "/" segs) = Some ("/" ++ join "/" segs).
Proof.
  intros Hp Hb. unfold canonicalizeLexicalPath.
  rewrite (normalizePathSlashes_id _ Hb). simpl ("/" ++ _).
  assert (startsWith "//" (String "/" (join "/" segs)) = false) as ->.
  { rewrite startsWith_cons, Ascii.eqb_refl. by apply join_proper_no_slash_head. }
  assert (drive_absolute (String "/" (join "/" segs)) = None) as ->.
  { unfold drive_absolute, has_drive_slash. by destruct (join "/" segs). }
  assert (has_drive (String "/" (join "/" segs)) = false) as ->.
  { by destruct (join "/" segs). }
  change (String "/" (join "/" segs)) with (String slash (join "/" segs)).
  rewrite pathSegments_slash, pathSegments_join by done.
  unfold collapsePathSegments. rewrite collapse_loop_id by done.
  by rewrite startsWith_char.
Qed.

(** ** Overlap *)

Lemma segments_agree_false (l r : list string) :
  segments_agree l r = false <->
  exists i a b, l !! i = Some a /\ r !! i = Some b /\ toLowerCase a <> toLowerCase b.
Proof.
  revert r; induction l as [|x l IH]; intros r; simpl.
  { split; [done|]. intros (i & a & b & H & _). by rewrite lookup_nil in H. }
  destruct r as [|y r].
  { split; [done|]. intros (i & a & b & _ & H & _). by rewrite lookup_nil in H. }
  destruct (String.eqb_spec (toLowerCase x) (toLowerCase y)) as [E|E]; simpl.
  - rewrite IH. split.
    + intros (i & a & b & H). by exists (S i), a, b.
    + intros ([|i] & a & b & Ha & Hb & Hne); simplify_eq/=. by exists i, a, b.
  - split; [|done]. intros _. by exists 0, x, y.
Qed.

Lemma segments_agree_sym (l r : list string) : segments_agree l r = segments_agree r l.
Proof.
  revert r; induction l as [|x l IH]; intros [|y r]; simpl; try done.
  rewrite String.eqb_sym. by rewrite IH.
Qed.

Lemma segments_agree_app (l r : list string) : segments_agree l (l ++ r)%list = true.
Proof. induction l as [|x l IH]; simpl; [done|]. by rewrite String.eqb_refl. Qed.

Lemma pathSegmentsOverlap_sym (l r : string) : pathSegmentsOverlap l r = pathSegmentsOverlap r l.
Proof.
  unfold pathSegmentsOverlap.
  destruct (canonicalPathParts l) as [L|], (canonicalPathParts r) as [R|]; try done.
  assert (drives_differ R L = drives_differ L R) as ->.
  { unfold drives_differ. destruct (drive L), (drive R); try done. by rewrite String.eqb_sym. }
  assert (drive_vs_relative R L = drive_vs_relative L R) as ->.
  { unfold drive_vs_relative. apply orb_comm. }
  by rewrite (orb_comm (is_nil (segments R))), segments_agree_sym.
Qed.

Lemma canonicalPathParts_rooted (segs : list string) (raw : string) :
  canonicalizeLexicalPath raw = Some ("/" ++ join "/" segs) ->
  Forall proper_segment segs ->
  canonicalPathParts raw = Some {| drive := None; rooted := true; segments := segs |}.
Proof.
  intros Hc Hp. unfold canonicalPathParts. rewrite Hc.
  assert (drive_slash ("/" ++ join "/" segs) = None) as ->.
  { unfold drive_slash, has_drive_slash. simpl. by destruct (join "/" segs). }
  change ("/" ++ join "/" segs) with (String slash (join "/" segs)).
  by rewrite pathSegments_slash, pathSegments_join, startsWith_char.
Qed.

(** Collapsing segments without [..] only appends to what is collapsed. *)
Lemma collapse_loop_extends (segs acc : list string) :
  ".." ∉ segs -> exists more, collapse_loop segs acc = Some (acc ++ more)%list.
Proof.
  revert acc; induction segs as [|s segs IH]; intros acc Hs; simpl.
  - exists []. by rewrite app_nil_r.
  - apply not_elem_of_cons in Hs as [Hne Hs].
    destruct (String.eqb s "."); [by apply IH|].
    rewrite (proj2 (String.eqb_neq s "..")) by done.
    destruct (IH (acc ++ [s])%list Hs) as [more ->]. exists (s :: more).
    by rewrite <- (assoc (++)%list).
Qed.

(** The canonical form of a path below a rooted one extends its segments. *)
Lemma canonicalize_below (raw suffix c : string) (segs : list string) :
  Forall proper_segment segs ->
  startsWith "/" (normalizePathSlashes raw) = true ->
  collapsePathSegments (pathSegments (normalizePathSlashes raw)) = Some segs ->
  ".." ∉ pathSegments (normalizePathSlashes suffix) ->
  canonicalizeLexicalPath (raw ++ "/" ++ suffix) = Some c ->
  exists more, Forall proper_segment (segs ++ more)%list /\ c = "/" ++ join "/" (segs ++ more)%list.
Proof.
  intros Hp Hr Hcol Hs. unfold canonicalizeLexicalPath.
  assert (normalizePathSlashes (raw ++ "/" ++ suffix)
          = normalizePathSlashes raw ++ "/" ++ normalizePathSlashes suffix) as ->
    by (by rewrite normalizePathSlashes_app).
  destruct (startsWith "//" _); [done|].
  destruct (normalizePathSlashes raw) as [|a n]; [done|].
  rewrite startsWith_char in Hr. apply Ascii.eqb_eq in Hr as <-.
  assert (drive_absolute (String "/" n ++ "/" ++ normalizePathSlashes suffix) = None) as ->.
  { unfold drive_absolute, has_drive_slash. by destruct n. }
  assert (has_drive (String "/" n ++ "/" ++ normalizePathSlashes suffix) = false) as ->.
  { by destruct n. }
  rewrite pathSegments_app. unfold collapsePathSegments in *. rewrite collapse_loop_app, Hcol.
  destruct (collapse_loop_extends _ segs Hs) as [more Hm]. rewrite Hm.
  simpl (String _ _ ++ _). rewrite startsWith_char. intros [= <-].
  exists more. split; [|done]. eapply collapse_loop_proper; [|exact Hp|exact Hm].
  intros w Hw. by eapply pathSegments_elem.
Qed.

(** ** Properties *)

(** A rooted path that canonicalises is a fixed point of the
    canonicalisation: it is [/] followed by its segments joined by [/], none of
    them empty, [.] or [..], and canonicalising it again changes nothing. *)
Theorem canonicalize_rooted_idempotent (raw canonical : string) :
  canonicalizeLexicalPath raw = Some canonical ->
  startsWith "/" canonical = true ->
  canonicalizeLexicalPath canonical = Some canonical /\
  exists segs, canonical = "/" ++ join "/" segs /\ pathSegments canonical = segs /\
    Forall proper_segment segs.
Proof.
  intros Hc Hr. destruct (canonicalize_rooted_shape _ _ Hc Hr) as (segs & Hp & -> & Hb & _).
  split; [by apply canonicalize_rooted_intro|]. exists segs. split; [done|]. split; [|done].
  change ("/" ++ join "/" segs) with (String slash (join "/" segs)).
  by rewrite pathSegments_slash, pathSegments_join.
Qed.

(** Two paths are declared independent exactly when both
    canonicalise and either lie on different drives, or neither mixes a drive
    with a relative path, neither is a root, and at some depth both have a
    segment and the segments differ even up to letter case. Anything else
    (an escaping [..], an ambiguous form, a parent/child pair) overlaps. *)
Theorem pathSegmentsOverlap_false_iff (l r : string) :
  pathSegmentsOverlap l r = false <->
  exists L R, canonicalPathParts l = Some L /\ canonicalPathParts r = Some R /\
    (drives_differ L R = true \/
     drive_vs_relative L R = false /\ segments L <> [] /\ segments R <> [] /\
     exists i a b, segments L !! i = Some a /\ segments R !! i = Some b /\
       toLowerCase a <> toLowerCase b).
Proof.
  unfold pathSegmentsOverlap.
  destruct (canonicalPathParts l) as [L|];
    [destruct (canonicalPathParts r) as [R|]; [|split; [done|by intros (? & ? & _ & [=] & _)]]
    |split; [done|by intros (? & ? & [=] & _)]].
  split.
  - intros H. exists L, R. split; [done|]. split; [done|].
    destruct (drives_differ L R); [by left|right].
    destruct (drive_vs_relative L R); [done|].
    destruct (segments L) eqn:EL, (segments R) eqn:ER; try done.
    apply segments_agree_false in H. done.
  - intros (? & ? & [= <-] & [= <-] & [->|(Hd & HL & HR & H)]); [done|].
    apply segments_agree_false in H. rewrite Hd.
    destruct (drives_differ L R); [done|].
    destruct (segments L) eqn:EL, (segments R) eqn:ER; done.
Qed.

(** Whatever lies below a rooted path overlaps it: for every path
    that canonicalises to a rooted one and every suffix that does not climb
    with [..], the two are never scheduled as independent. *)
Theorem subtree_overlaps (raw suffix canonical : string) :
  canonicalizeLexicalPath raw = Some canonical ->
  startsWith "/" canonical = true ->
  ".." ∉ pathSegments (normalizePathSlashes suffix) ->
  pathSegmentsOverlap raw (raw ++ "/" ++ suffix) = true.
Proof.
  intros Hc Hr Hs.
  destruct (canonicalize_rooted_shape _ _ Hc Hr) as (segs & Hp & -> & _ & Hd & Hr' & Hu & Hcol).
  unfold pathSegmentsOverlap. rewrite (canonicalPathParts_rooted segs raw Hc Hp).
  destruct (canonicalPathParts (raw ++ "/" ++ suffix)) as [R|] eqn:ER; [|done].
  assert (exists more, R = {| drive := None; rooted := true; segments := (segs ++ more)%list |})
    as [more ->].
  { pose proof ER as ER'. unfold canonicalPathParts in ER.
    destruct (canonicalizeLexicalPath (raw ++ "/" ++ suffix)) as [c|] eqn:Ec; [|done].
    destruct (canonicalize_below _ _ _ _ Hp Hr' Hcol Hs Ec) as (more & Hp' & ->).
    rewrite (canonicalPathParts_rooted _ _ Ec Hp') in ER'. eexists. by injection ER' as <-. }
  simpl. rewrite segments_agree_app. destruct segs as [|x segs]; [done|]. done.
Qed.

(** ** The properties at concrete paths *)

Lemma canonicalize_rooted_idempotent_witness :
  canonicalizeLexicalPath "/a/c" = Some "/a/c".
Proof.
  exact (proj1 (canonicalize_rooted_idempotent "/a//b/../c/." "/a/c"
           ltac:(vm_compute; reflexivity) ltac:(vm_compute; reflexivity))).
Defined.

Lemma subtree_overlaps_witness : pathSegmentsOverlap "/src/../lib" "/src/../lib/a/./b" = true.
Proof.
  apply (subtree_overlaps "/src/../lib" "a/./b" "/lib");
    first [vm_compute; reflexivity | apply (bool_decide_unpack _); vm_compute; exact I].
Defined.
