(* ===== verification/DestructiveCommand.v ===== *)
(** * Destructive shell commands

    [isDestructiveBashCommand] of packages/agent/src/parallel-tool-batch.ts. *)

From Stdlib Require Import Ascii String ZArith Lia.
From stdpp Require Import base list option strings sets.
From S2P Require Import Prelude JsString Regex.

Open Scope nat_scope.
Open Scope list_scope.

Definition SEPARATORS : list regex :=
  [RBegin; RSpace; RLit "&&"; RLit "||"; RLit ";"; RLit "`"].

(** A command word and the white space after it. *)
Definition word_space (w : string) : regex := RSeq (RLit w) RSpace.

Definition git_destructive : regex :=
  RSeqs [RLit "git"; RPlus RSpace; RAlts [RLit "reset"; RLit "clean"; RLit "checkout"]; RSpace].

Definition DESTRUCTIVE_COMMAND : regex :=
  RSeq (RAlts SEPARATORS)
    (RAlts [word_space "rm"; word_space "rmdir"; word_space "mv";
            RSeqs [RLit "sed"; RPlus RSpace; RLit "-i"]; word_space "truncate"; word_space "dd";
            word_space "shred"; git_destructive]).

Definition not_gt : regex := RChar (fun a => negb (Ascii.eqb a ">")).
Definition gt : regex := RChar (fun a => Ascii.eqb a ">").

Definition REDIRECT_OVERWRITE : regex :=
  RAlt (RSeqs [not_gt; gt; not_gt]) (RSeqs [RBegin; gt; not_gt]).

Definition isDestructiveBashCommand (command : string) : bool :=
  if is_empty command then false
  else if rx_test DESTRUCTIVE_COMMAND command then true
  else if rx_test REDIRECT_OVERWRITE command then true
  else false.

(** The words of the table that need only white space after them. *)
Definition destructive_words : list string := ["rm"; "rmdir"; "mv"; "truncate"; "dd"; "shred"].

(** What may stand before a command. *)
Inductive separator : string -> Prop :=
| sep_space (a : ascii) : is_ws a = true -> separator (String a EmptyString)
| sep_and : separator "&&"
| sep_or : separator "||"
| sep_semi : separator ";"
| sep_tick : separator "`".

(** The positions a redirection that overwrites occupies: a single [>]
    between other characters, or at the start. *)
Definition overwrites_at (s : list ascii) (i : nat) : Prop :=
  s !! i = Some ">"%char /\ (exists a, s !! S i = Some a /\ a <> ">"%char) /\
  (i = 0 \/ exists b, s !! Nat.pred i = Some b /\ b <> ">"%char).

Lemma word_space_matches (pre post : list ascii) (w : string) (a : ascii) :
  is_ws a = true ->
  rx_matches (pre ++ list_ascii_of_string w ++ a :: post) (word_space w) (length pre)
    (S (length pre + String.length w)).
Proof.
  intros Ha. econstructor; [apply RLit_matches|]. apply (m_char _ _ _ a); [|done].
  rewrite app_assoc. rewrite <- length_list_ascii, <- length_app. by apply list_lookup_middle.
Qed.

Lemma separator_matches (pre post : list ascii) (sep : string) :
  separator sep ->
  rx_matches (pre ++ list_ascii_of_string sep ++ post) (RAlts SEPARATORS) (length pre)
    (length pre + String.length sep).
Proof.
  intros H.
  assert (Hlit : forall t, RLit t ∈ SEPARATORS ->
    rx_matches (pre ++ list_ascii_of_string t ++ post) (RAlts SEPARATORS) (length pre)
      (length pre + String.length t)).
  { intros t Ht. eapply RAlts_matches; [exact Ht|apply RLit_matches]. }
  destruct H as [a Ha| | | |]; try (apply Hlit; unfold SEPARATORS; set_solver).
  eapply (RAlts_matches _ _ RSpace); [unfold SEPARATORS; set_solver|].
  simpl. rewrite Nat.add_1_r. apply (m_char _ _ _ a); [by apply list_lookup_middle|done].
Qed.

Lemma words_in_table (w : string) :
  w ∈ destructive_words ->
  word_space w ∈ [word_space "rm"; word_space "rmdir"; word_space "mv";
            RSeqs [RLit "sed"; RPlus RSpace; RLit "-i"]; word_space "truncate"; word_space "dd";
            word_space "shred"; git_destructive].
Proof.
  unfold destructive_words. rewrite !elem_of_cons.
  intros [->|[->|[->|[->|[->|[->|H]]]]]]; [tauto..|by apply elem_of_nil in H].
Qed.

(** A destructive command word followed by white space is
    recognised wherever it stands in a command line: at its start or after
    white space, [;], [&&], [||] or a backquote, with anything before and after. *)
Theorem destructive_word_detected (pre sep w post : string) (a : ascii) :
  (separator sep \/ pre = EmptyString /\ sep = EmptyString) -> w ∈ destructive_words ->
  is_ws a = true ->
  isDestructiveBashCommand (pre ++ sep ++ w ++ String a post) = true.
Proof.
  intros Hsep Hw Ha. unfold isDestructiveBashCommand.
  assert (Hne : is_empty (pre ++ sep ++ w ++ String a post) = false).
  { destruct pre, sep, w; done. }
  rewrite Hne. enough (rx_test DESTRUCTIVE_COMMAND (pre ++ sep ++ w ++ String a post) = true) as ->
    by done.
  apply rx_test_iff. rewrite !list_ascii_app. simpl.
  set (p := list_ascii_of_string pre). set (q := list_ascii_of_string sep).
  assert (Hword : rx_matches (p ++ q ++ list_ascii_of_string w ++ a :: list_ascii_of_string post)
            (RAlts [word_space "rm"; word_space "rmdir"; word_space "mv";
            RSeqs [RLit "sed"; RPlus RSpace; RLit "-i"]; word_space "truncate"; word_space "dd";
            word_space "shred"; git_destructive]) (length (p ++ q))
            (S (length (p ++ q) + String.length w))).
  { eapply RAlts_matches; [by apply words_in_table|]. rewrite app_assoc. by apply word_space_matches. }
  exists (length p), (S (length (p ++ q) + String.length w)).
  split; [rewrite !length_app; lia|]. econstructor; [|exact Hword].
  destruct Hsep as [Hsep|[-> ->]].
  - rewrite length_app. unfold q at 2. rewrite length_list_ascii. by apply separator_matches.
  - subst p q. change (length (list_ascii_of_string EmptyString ++ list_ascii_of_string EmptyString)) with 0.
    change (length (list_ascii_of_string EmptyString)) with 0.
    eapply (RAlts_matches _ _ RBegin); [unfold SEPARATORS; set_solver|]. constructor.
Qed.

(** The redirection test finds exactly the single [>] that
    overwrites: one with a character other than [>] after it, and at the start
    of the line or after a character other than [>]; appending is not one. *)
Theorem redirect_overwrite_iff (command : string) :
  rx_test REDIRECT_OVERWRITE command = true <->
  exists i, overwrites_at (list_ascii_of_string command) i.
Proof.
  rewrite rx_test_iff. unfold overwrites_at.
  set (s := list_ascii_of_string command). unfold REDIRECT_OVERWRITE, RSeqs, not_gt, gt. split.
  - intros (i & j & _ & H). inversion H as [| | |? ? ? ? Hl|? ? ? ? Hr| | | | |]; subst; clear H.
    + inversion Hl as [| |? ? ? k ? G1 G2| | | | | | |]; subst. inversion G1; subst.
      inversion G2 as [| |? ? ? k' ? G3 G4| | | | | | |]; subst. inversion G3; subst. inversion G4; subst.
      breflect. repeat match goal with
      | H : Ascii.eqb _ _ = true |- _ => apply Ascii.eqb_eq in H; subst
      | H : Ascii.eqb _ _ = false |- _ => apply Ascii.eqb_neq in H
      end. exists (S i). split; [done|]. split; [eauto|]. right. simpl. eauto.
    + inversion Hr as [| |? ? ? k ? G1 G2| | | | | | |]; subst. inversion G1; subst.
      inversion G2 as [| |? ? ? k' ? G3 G4| | | | | | |]; subst. inversion G3; subst. inversion G4; subst.
      breflect. repeat match goal with
      | H : Ascii.eqb _ _ = true |- _ => apply Ascii.eqb_eq in H; subst
      | H : Ascii.eqb _ _ = false |- _ => apply Ascii.eqb_neq in H
      end. exists 0. split; [done|]. split; [eauto|by left].
  - intros (i & Hi & (a & Ha & Hna) & Hpre). pose proof (lookup_lt_Some _ _ _ Hi) as Hlt.
    assert (Htail : rx_matches s (RSeq gt not_gt) i (S (S i))).
    { econstructor; econstructor; [exact Hi|done|exact Ha|by apply negb_true_iff, Ascii.eqb_neq]. }
    destruct Hpre as [->|(b & Hb & Hnb)].
    + exists 0, 2. split; [lia|]. apply m_alt_r. econstructor; [constructor|exact Htail].
    + destruct i as [|i]; simpl in Hb; [congruence|].
      exists i, (S (S (S i))). split; [lia|]. apply m_alt_l. econstructor; [|exact Htail].
      econstructor; [exact Hb|by apply negb_true_iff, Ascii.eqb_neq].
Qed.

Lemma destructive_word_detected_witness :
  isDestructiveBashCommand "ls -la; rm -rf build" = true.
Proof.
  apply (destructive_word_detected "ls -la;" " " "rm" "-rf build" " ").
  - left. apply sep_space. reflexivity.
  - left.
  - reflexivity.
Defined.
