(* ===== verification/ToolBatchWaves.v ===== *)
(** * Wave partition of a tool-call batch (packages/agent/src/parallel-tool-batch.ts)

    The [waves-v1] scheduler: each call is classified as solo, safe or
    path-scoped, and the batch is cut into contiguous waves. The process
    environment ([process.cwd()], [process.env.HOME]) is a parameter. *)

From Stdlib Require Import Ascii String Lia.
From stdpp Require Import base list option strings gmap sets.
From S2P Require Import Prelude JsString JsValue PathSegments.

Open Scope string_scope.

Definition set_has (set : list string) (name : string) : bool := existsb (String.eqb name) set.

Definition NEVER_PARALLEL_TOOLS : list string := ["clarify"].

Definition PARALLEL_SAFE_TOOLS : list string :=
  ["grep"; "find"; "ls"; "read"; "search_files"; "session_search"; "skill_view";
   "skills_list"; "vision_analyze"; "web_extract"; "web_search"].

Definition PATH_SCOPED_TOOLS : list string := ["read"; "write"; "edit"].

Inductive ToolParallelPolicy : Type :=
| Sequential
| Parallel.

#[export] Instance ToolParallelPolicy_eq_dec : EqDecision ToolParallelPolicy.
Proof. solve_decision. Defined.

Record ParallelizableToolCall : Type := {
  name : string;
  arguments : jsval;
}.

Record ShouldParallelizeToolBatchOptions : Type := {
  opt_cwd : option string;
  toolPolicies : gmap string ToolParallelPolicy;
  allowUnknownParallel : option (string -> bool);
}.

(** [GetSubstitution] of the language for a match without capture groups:
    [matched] is the matched text, [following] what comes after it; nothing
    precedes the match. *)
Fixpoint get_substitution (matched following template : string) : string :=
  match template with
  | EmptyString => EmptyString
  | String a t =>
      if Ascii.eqb a "$" then
        match t with
        | EmptyString => "$"
        | String c t' =>
            if Ascii.eqb c "$" then "$" ++ get_substitution matched following t'
            else if Ascii.eqb c "&" then matched ++ get_substitution matched following t'
            else if Ascii.eqb c "`" then get_substitution matched following t'
            else if Ascii.eqb c "'" then following ++ get_substitution matched following t'
            else "$" ++ get_substitution matched following t
        end
      else String a (get_substitution matched following t)
  end.

Inductive ToolCallKind : Type :=
| Solo
| Safe
| Path.

Section Waves.
Context (process_cwd : string) (HOME : option string).

(** The [~] expansion: [rawPath.replace(/^~/, HOME ?? "")]. *)
Definition expand_home (rawPath : string) : string :=
  if startsWith "~" rawPath
  then get_substitution "~" (slice 1 rawPath) (default EmptyString HOME) ++ slice 1 rawPath
  else rawPath.

Definition extractParallelScopePath (toolName : string) (functionArgs : jsval)
    (cwd : option string) : option string :=
  if negb (set_has PATH_SCOPED_TOOLS toolName) then None
  else match get_prop "path" functionArgs with
  | JString rawPath =>
      if is_empty (trim rawPath) then None
      else
        let expanded := normalizePathSlashes (expand_home rawPath) in
        if startsWith "/" expanded then Some expanded
        else Some (joinPathSegments (default process_cwd cwd) expanded)
  | _ => None
  end.

Definition pathsOverlap (left right : string) : bool := pathSegmentsOverlap left right.

Definition is_plain_object (v : jsval) : bool :=
  match v with
  | JObject _ => true
  | _ => false
  end.

Definition classifyToolCall (toolCall : ParallelizableToolCall)
    (options : ShouldParallelizeToolBatchOptions) : ToolCallKind :=
  let n := name toolCall in
  if set_has NEVER_PARALLEL_TOOLS n then Solo
  else if bool_decide (toolPolicies options !! n = Some Sequential) then Solo
  else if negb (is_plain_object (arguments toolCall)) then Solo
  else if String.eqb n "bash" then Solo
  else if set_has PATH_SCOPED_TOOLS n then Path
  else if set_has PARALLEL_SAFE_TOOLS n then Safe
  else if bool_decide (toolPolicies options !! n = Some Parallel)
          || match allowUnknownParallel options with
             | Some f => f n
             | None => false
             end then Safe
  else Solo.

(** The local variables of [partitionToolBatchWaves]. *)
Record WaveState : Type := {
  waves : list (list nat);
  wave : list nat;
  wavePaths : list string;
}.

Definition closeWave (st : WaveState) : WaveState :=
  match wave st with
  | [] => st
  | w => {| waves := (waves st ++ [w])%list; wave := []; wavePaths := [] |}
  end.

Definition push_solo (index : nat) (st : WaveState) : WaveState :=
  let st' := closeWave st in
  {| waves := (waves st' ++ [[index]])%list; wave := wave st'; wavePaths := wavePaths st' |}.

Definition push_wave (index : nat) (st : WaveState) : WaveState :=
  {| waves := waves st; wave := (wave st ++ [index])%list; wavePaths := wavePaths st |}.

(** The loop body for one call. *)
Definition wave_step (options : ShouldParallelizeToolBatchOptions) (index : nat)
    (toolCall : ParallelizableToolCall) (st : WaveState) : WaveState :=
  match classifyToolCall toolCall options with
  | Solo => push_solo index st
  | Path =>
      match extractParallelScopePath (name toolCall) (arguments toolCall) (opt_cwd options) with
      | None => push_solo index st
      | Some scopedPath =>
          let st1 := if existsb (fun existing => pathsOverlap scopedPath existing) (wavePaths st)
                     then closeWave st else st in
          push_wave index {| waves := waves st1; wave := wave st1;
                             wavePaths := (wavePaths st1 ++ [scopedPath])%list |}
      end
  | Safe => push_wave index st
  end.

Fixpoint wave_loop (options : ShouldParallelizeToolBatchOptions) (index : nat)
    (toolCalls : list ParallelizableToolCall) (st : WaveState) : WaveState :=
  match toolCalls with
  | [] => st
  | toolCall :: rest => wave_loop options (S index) rest (wave_step options index toolCall st)
  end.

Definition partitionToolBatchWaves (toolCalls : list ParallelizableToolCall)
    (options : ShouldParallelizeToolBatchOptions) : list (list nat) :=
  waves (closeWave (wave_loop options 0 toolCalls {| waves := []; wave := []; wavePaths := [] |})).

Definition shouldParallelizeToolBatch (toolCalls : list ParallelizableToolCall)
    (options : ShouldParallelizeToolBatchOptions) : bool :=
  if (length toolCalls <=? 1)%nat then false
  else (length (partitionToolBatchWaves toolCalls options) =? 1)%nat.

(** ** Specification *)

(** The path a call reserves in its wave: [None] for a call that must be
    alone, [Some None] for a call that shares a wave without reserving a path,
    [Some (Some p)] for a path-scoped call. *)
Definition reservation (options : ShouldParallelizeToolBatchOptions)
    (toolCall : ParallelizableToolCall) : option (option string) :=
  match classifyToolCall toolCall options with
  | Solo => None
  | Safe => Some None
  | Path => Some <$> extractParallelScopePath (name toolCall) (arguments toolCall) (opt_cwd options)
  end.

(** Two calls may run concurrently. *)
Definition compatible (options : ShouldParallelizeToolBatchOptions)
    (a b : ParallelizableToolCall) : Prop :=
  exists ra rb, reservation options a = Some ra /\ reservation options b = Some rb /\
    forall p q, ra = Some p -> rb = Some q -> pathsOverlap p q = false.

(** A wave is fine when its members pairwise may run concurrently. *)
Definition wave_ok (options : ShouldParallelizeToolBatchOptions)
    (toolCalls : list ParallelizableToolCall) (w : list nat) : Prop :=
  forall i j a b, i ∈ w -> j ∈ w -> i <> j -> toolCalls !! i = Some a -> toolCalls !! j = Some b ->
    compatible options a b.

Lemma wave_step_reservation (options : ShouldParallelizeToolBatchOptions) (index : nat)
    (toolCall : ParallelizableToolCall) (st : WaveState) :
  wave_step options index toolCall st =
  match reservation options toolCall with
  | None => push_solo index st
  | Some None => push_wave index st
  | Some (Some p) =>
      let st1 := if existsb (pathsOverlap p) (wavePaths st) then closeWave st else st in
      push_wave index {| waves := waves st1; wave := wave st1;
                         wavePaths := (wavePaths st1 ++ [p])%list |}
  end.
Proof.
  unfold wave_step, reservation.
  destruct (classifyToolCall toolCall options); simpl; try done.
  by destruct (extractParallelScopePath _ _ _).
Qed.

(** The loop invariant after the first [n] calls: the indices are placed in
    order, closed waves are fine, and the open wave's members all reserve and
    agree with the reserved paths. *)
Record wave_inv (options : ShouldParallelizeToolBatchOptions)
    (calls : list ParallelizableToolCall) (n : nat) (st : WaveState) : Prop := {
  inv_order : (concat (waves st) ++ wave st)%list = seq 0 n;
  inv_nonempty : Forall (fun w => w <> []) (waves st);
  inv_closed : Forall (wave_ok options calls) (waves st);
  inv_members : Forall (fun i => exists c r, calls !! i = Some c /\ reservation options c = Some r
                   /\ forall p, r = Some p -> p ∈ wavePaths st) (wave st);
  inv_open : wave_ok options calls (wave st);
  inv_paths : wave st = [] -> wavePaths st = [];
}.

Lemma seq_snoc (n : nat) : (seq 0 n ++ [n])%list = seq 0 (S n).
Proof. by rewrite seq_S. Qed.

Lemma concat_snoc (ws : list (list nat)) (w : list nat) :
  concat (ws ++ [w])%list = (concat ws ++ w)%list.
Proof. rewrite concat_app. simpl. by rewrite app_nil_r. Qed.

Lemma closeWave_inv (options : ShouldParallelizeToolBatchOptions)
    (calls : list ParallelizableToolCall) (n : nat) (st : WaveState) :
  wave_inv options calls n st ->
  wave_inv options calls n (closeWave st) /\ wave (closeWave st) = [] /\ wavePaths (closeWave st) = [].
Proof.
  intros [Ho Hne Hc Hm Hw Hp]. unfold closeWave. destruct (wave st) as [|i w] eqn:E.
  { rewrite E, Hp by done. by repeat split; rewrite ?E, ?Hp. }
  split; [|done]. split; simpl; try done.
  - by rewrite concat_snoc, app_nil_r.
  - apply Forall_app; split; [done|]. by constructor.
  - apply Forall_app; split; [done|]. by constructor.
  - intros i' j' a b Hi. by inversion Hi.
Qed.

Lemma wave_ok_singleton (options : ShouldParallelizeToolBatchOptions)
    (calls : list ParallelizableToolCall) (i : nat) : wave_ok options calls [i].
Proof.
  intros i' j a b Hi Hj. apply list_elem_of_singleton in Hi, Hj. congruence.
Qed.

Lemma wave_ok_snoc (options : ShouldParallelizeToolBatchOptions)
    (calls : list ParallelizableToolCall) (w : list nat) (n : nat) (c : ParallelizableToolCall) :
  wave_ok options calls w -> calls !! n = Some c ->
  (forall i a, i ∈ w -> calls !! i = Some a -> compatible options a c) ->
  wave_ok options calls (w ++ [n])%list.
Proof.
  intros Hw Hn Hc i j a b Hi Hj Hne Ha Hb.
  apply elem_of_app in Hi, Hj. rewrite list_elem_of_singleton in Hi, Hj.
  destruct Hi as [Hi| ->], Hj as [Hj| ->]; simplify_eq/=.
  1: by eapply (Hw i j).
  1: by eapply Hc.
  destruct (Hc _ _ Hj Hb) as (ra & rb & ? & ? & H). exists rb, ra. split; [done|]. split; [done|].
  intros p q -> ->. unfold pathsOverlap. rewrite pathSegmentsOverlap_sym. by apply H.
Qed.

Lemma push_wave_inv (options : ShouldParallelizeToolBatchOptions)
    (calls : list ParallelizableToolCall) (n : nat) (st : WaveState)
    (c : ParallelizableToolCall) (r : option string) (paths : list string) :
  wave_inv options calls n st -> calls !! n = Some c -> reservation options c = Some r ->
  wavePaths st ⊆ paths ->
  (forall p, r = Some p -> p ∈ paths /\ forall q, q ∈ wavePaths st -> pathsOverlap q p = false) ->
  wave_inv options calls (S n)
    (push_wave n {| waves := waves st; wave := wave st; wavePaths := paths |}).
Proof.
  intros [Ho Hne Hc Hm Hw _] Hn Hr Hsub Hp. split; simpl; try done.
  - by rewrite (assoc (++)%list), Ho, seq_snoc.
  - apply Forall_app; split.
    + eapply Forall_impl; [exact Hm|]. intros i (ci & ri & ? & ? & Hi).
      exists ci, ri. split; [done|]. split; [done|]. intros p ->. by apply Hsub, Hi.
    + constructor; [|constructor]. exists c, r. split; [done|]. split; [done|].
      intros p Hpr. by apply Hp.
  - eapply wave_ok_snoc; [done|exact Hn|]. intros i a Hi Ha.
    rewrite Forall_forall in Hm. destruct (Hm i Hi) as (ci & ri & ? & ? & Hpi). simplify_eq.
    exists ri, r. split; [done|]. split; [done|]. intros p q -> Hq.
    by eapply Hp; [exact Hq|apply Hpi].
  - by intros []%app_eq_nil.
Qed.

Lemma push_solo_inv (options : ShouldParallelizeToolBatchOptions)
    (calls : list ParallelizableToolCall) (n : nat) (st : WaveState) :
  wave_inv options calls n st -> wave_inv options calls (S n) (push_solo n st).
Proof.
  intros H. destruct (closeWave_inv _ _ _ _ H) as [[Ho Hne Hc Hm Hw Hp] [E Ep]]. unfold push_solo.
  rewrite E, Ep in *. rewrite app_nil_r in Ho. split; simpl; try done.
  - by rewrite concat_snoc, app_nil_r, Ho, seq_snoc.
  - apply Forall_app; split; [done|]. by constructor.
  - apply Forall_app; split; [done|]. constructor; [|constructor]. apply wave_ok_singleton.
Qed.

Lemma wave_step_inv (options : ShouldParallelizeToolBatchOptions)
    (calls : list ParallelizableToolCall) (n : nat) (st : WaveState) (c : ParallelizableToolCall) :
  wave_inv options calls n st -> calls !! n = Some c ->
  wave_inv options calls (S n) (wave_step options n c st).
Proof.
  intros H Hn. rewrite wave_step_reservation.
  destruct (reservation options c) as [[p|]|] eqn:Er; [| |by apply push_solo_inv].
  - destruct (existsb _ _) eqn:Eo; simpl.
    + destruct (closeWave_inv _ _ _ _ H) as (H' & _ & Ep).
      eapply (push_wave_inv _ _ _ (closeWave st)); [done|done|exact Er|set_solver|].
      intros q [= <-]. split; [set_solver|]. intros q Hq. rewrite Ep in Hq. by apply elem_of_nil in Hq.
    + eapply (push_wave_inv _ _ _ st); [done|done|exact Er|set_solver|].
      intros q [= <-]. split; [set_solver|]. intros q Hq.
      rewrite existsb_false_iff in Eo. unfold pathsOverlap in *.
      rewrite pathSegmentsOverlap_sym. by apply Eo.
  - destruct st as [ws w ps]. eapply (push_wave_inv _ _ _ _ _ None ps H); done.
Qed.

Lemma wave_loop_inv (options : ShouldParallelizeToolBatchOptions)
    (done rest : list ParallelizableToolCall) (st : WaveState) :
  wave_inv options (done ++ rest)%list (length done) st ->
  wave_inv options (done ++ rest)%list (length (done ++ rest)%list)
    (wave_loop options (length done) rest st).
Proof.
  revert done st; induction rest as [|c rest IH]; intros done st H; simpl.
  - by rewrite app_nil_r in *.
  - rewrite cons_middle, (assoc (++)%list).
    replace (S (length done)) with (length (done ++ [c])%list) by (rewrite length_app; simpl; lia).
    apply IH. rewrite <- (assoc (++)%list). simpl.
    replace (length (done ++ [c])%list) with (S (length done)) by (rewrite length_app; simpl; lia).
    apply wave_step_inv; [done|]. by rewrite list_lookup_middle.
Qed.

Definition initial_waves : WaveState := {| waves := []; wave := []; wavePaths := [] |}.

Lemma initial_waves_inv (options : ShouldParallelizeToolBatchOptions)
    (calls : list ParallelizableToolCall) : wave_inv options calls 0 initial_waves.
Proof. split; simpl; try done; try constructor. intros i j a b Hi. by inversion Hi. Qed.

Lemma partition_inv (options : ShouldParallelizeToolBatchOptions)
    (calls : list ParallelizableToolCall) :
  let st := closeWave (wave_loop options 0 calls initial_waves) in
  wave_inv options calls (length calls) st /\ wave st = [].
Proof.
  intros st. destruct (closeWave_inv options calls (length calls)
    (wave_loop options 0 calls initial_waves)) as (? & ? & _); [|done].
  apply (wave_loop_inv options [] calls), initial_waves_inv.
Qed.

(** When all calls are pairwise compatible the open wave is never closed. *)
Lemma wave_loop_one_wave (options : ShouldParallelizeToolBatchOptions)
    (rest : list ParallelizableToolCall) (n : nat) (w : list nat) (paths : list string) :
  (forall c, c ∈ rest -> exists r, reservation options c = Some r /\
     forall p, r = Some p -> forall q, q ∈ paths -> pathsOverlap p q = false) ->
  (forall i j a b, i < j -> rest !! i = Some a -> rest !! j = Some b -> compatible options a b) ->
  exists paths', wave_loop options n rest {| waves := []; wave := w; wavePaths := paths |}
    = {| waves := []; wave := (w ++ seq n (length rest))%list; wavePaths := paths' |}.
Proof.
  revert n w paths; induction rest as [|c rest IH]; intros n w paths Hr Hc.
  { simpl. rewrite app_nil_r. eauto. }
  destruct (Hr c) as (r & Er & Hp); [left|].
  assert (exists paths', wave_step options n c {| waves := []; wave := w; wavePaths := paths |}
    = {| waves := []; wave := (w ++ [n])%list; wavePaths := paths' |} /\
    forall q, q ∈ paths' -> q ∈ paths \/ r = Some q) as (paths' & Hstep & Hpaths).
  { rewrite wave_step_reservation, Er. destruct r as [p|]; simpl.
    - rewrite (proj2 (existsb_false_iff _ _)); [|by apply Hp].
      eexists. split; [done|]. intros q [Hq|Hq%list_elem_of_singleton]%elem_of_app; [by left|].
      right. by subst.
    - eexists. split; [done|]. by left. }
  simpl. rewrite Hstep. destruct (IH (S n) (w ++ [n])%list paths') as [paths'' ->].
  - intros d Hd. destruct (Hr d) as (rd & Erd & Hpd); [by right|]. exists rd. split; [done|].
    intros p -> q Hq. destruct (Hpaths q Hq) as [|Hrq]; [by eapply Hpd|].
    apply list_elem_of_lookup in Hd as [j Hj].
    destruct (Hc 0 (S j) c d) as (ra & rb & ? & ? & H); [lia|done|done|]. simplify_eq.
    unfold pathsOverlap in *. rewrite pathSegmentsOverlap_sym. by apply H.
  - intros i j a b Hij Ha Hb. by apply (Hc (S i) (S j)); [lia| |].
  - exists paths''. by rewrite <- (assoc (++)%list).
Qed.

(** ** Properties *)

(** The waves contain every call of the batch exactly once and in
    source order (reading the waves left to right gives 0, 1, ..., n-1), and no
    wave is empty. *)
Theorem partition_source_order (options : ShouldParallelizeToolBatchOptions)
    (calls : list ParallelizableToolCall) :
  concat (partitionToolBatchWaves calls options) = seq 0 (length calls) /\
  Forall (fun w => w <> []) (partitionToolBatchWaves calls options).
Proof.
  destruct (partition_inv options calls) as [[Ho Hne _ _ _ _] E]. rewrite E, app_nil_r in Ho.
  done.
Qed.

(** The whole batch is run concurrently exactly when it has at least
    two calls and every two of its calls are compatible: neither must run
    alone, and if both reserve a path the paths do not overlap. *)
Theorem shouldParallelize_iff (options : ShouldParallelizeToolBatchOptions)
    (calls : list ParallelizableToolCall) :
  shouldParallelizeToolBatch calls options = true <->
  2 <= length calls /\
  forall i j a b, i <> j -> calls !! i = Some a -> calls !! j = Some b -> compatible options a b.
Proof.
  unfold shouldParallelizeToolBatch.
  destruct (Nat.leb_spec (length calls) 1) as [Hl|Hl].
  { split; [done|]. intros [? _]. lia. }
  rewrite Nat.eqb_eq. destruct (partition_inv options calls) as [[Ho Hne Hc _ _ _] E].
  rewrite E, app_nil_r in Ho. fold initial_waves in Ho, Hc.
  change (waves (closeWave (wave_loop options 0 calls initial_waves)))
    with (partitionToolBatchWaves calls options) in *.
  split.
  - intros H1. split; [lia|].
    destruct (partitionToolBatchWaves calls options) as [|w [|]]; try done.
    simpl in Ho. rewrite app_nil_r in Ho. subst w.
    apply Forall_inv in Hc. intros i j a b Hij Ha Hb. eapply (Hc i j); try done.
    all: apply elem_of_seq; apply lookup_lt_Some in Ha, Hb; lia.
  - intros [_ H]. unfold partitionToolBatchWaves.
    destruct (wave_loop_one_wave options calls 0 [] []) as [paths ->].
    + intros c Hin. apply list_elem_of_lookup in Hin as [i Hi].
      assert (exists j, j <> i /\ j < length calls) as (j & Hj & Hjl).
      { destruct i; [exists 1|exists 0]; lia. }
      apply lookup_lt_is_Some in Hjl as [b Hb].
      destruct (H j i b c Hj Hb Hi) as (rb & r & _ & Hr & _). exists r. split; [done|].
      intros p _ q Hq. by apply elem_of_nil in Hq.
    + intros i j a b Hij. apply H. lia.
    + simpl. destruct calls as [|c calls]; [simpl in Hl; lia|]. done.
Qed.

(** Any two calls placed in one wave are compatible: a call that
    must run alone is the only member of its wave, and two path-scoped calls
    share a wave only when their targets do not overlap. *)
Theorem partition_waves_compatible (options : ShouldParallelizeToolBatchOptions)
    (calls : list ParallelizableToolCall) (w : list nat) (i j : nat)
    (a b : ParallelizableToolCall) :
  w ∈ partitionToolBatchWaves calls options -> i ∈ w -> j ∈ w -> i <> j ->
  calls !! i = Some a -> calls !! j = Some b -> compatible options a b.
Proof.
  destruct (partition_inv options calls) as [[_ _ Hc _ _ _] _]. rewrite Forall_forall in Hc.
  intros Hw Hi Hj Hne Ha Hb. by eapply (Hc w Hw i j).
Qed.
End Waves.

(** ** The wave property at a concrete batch *)

Definition sample_batch_options : ShouldParallelizeToolBatchOptions :=
  {| opt_cwd := Some "/w"; toolPolicies := ∅; allowUnknownParallel := None |}.

Definition edit_of (path : string) : ParallelizableToolCall :=
  {| name := "edit"; arguments := JObject [("path", JString path)] |}.

Definition sample_batch : list ParallelizableToolCall := [edit_of "a"; edit_of "b"; edit_of "a/c"].

Example sample_batch_waves :
  partitionToolBatchWaves "/" None sample_batch sample_batch_options = [[0; 1]; [2]].
Proof. vm_compute. reflexivity. Qed.

Lemma partition_waves_compatible_witness :
  compatible "/" None sample_batch_options (edit_of "a") (edit_of "b").
Proof.
  apply (partition_waves_compatible "/" None sample_batch_options sample_batch [0; 1] 0 1
           (edit_of "a") (edit_of "b")).
  - replace (partitionToolBatchWaves "/" None sample_batch sample_batch_options) with [[0; 1]; [2]]
      by (vm_compute; reflexivity).
    left.
  - left.
  - right; left.
  - discriminate.
  - reflexivity.
  - reflexivity.
Defined.
