(* ===== verification/ResourceClaims.v ===== *)
(** * Resource claims of tool calls

    packages/agent/src/tool-resource-claims.ts and
    builtin-tool-resource-claims.ts, with the claim types of
    packages/agent/src/types.ts: which resources a call touches, and when two
    claims conflict. Extension callbacks ([resourceClaims] of a tool,
    [resolvePath] of an identity resolver) are values of the options, as in
    the code; a callback that throws or rejects returns [None]. Awaiting a
    callback is a call, since the resolution loop awaits one at a time. *)

From Stdlib Require Import Ascii String Lia Permutation.
From stdpp Require Import base list option strings gmap sets.
From S2P Require Import Prelude JsString JsValue PathSegments ToolBatchWaves.

Open Scope string_scope.

(** ** Data *)

Inductive ResourceAccess : Type :=
| AccRead
| AccWrite
| AccExclusive.

Inductive ToolResourceAccess : Type :=
| ToolRead
| ToolWrite.

Inductive OtherKind : Type :=
| KSession
| KTerminal
| KNetwork
| KGlobal.

Inductive ToolResourceClaim : Type :=
| PathClaim (key : string) (access : ToolResourceAccess) (realKey inodeKey : option string)
| OtherClaim (kind : OtherKind) (key : string) (access : ResourceAccess).

#[export] Instance ResourceAccess_eq_dec : EqDecision ResourceAccess.
Proof. solve_decision. Defined.
#[export] Instance ToolResourceAccess_eq_dec : EqDecision ToolResourceAccess.
Proof. solve_decision. Defined.
#[export] Instance OtherKind_eq_dec : EqDecision OtherKind.
Proof. solve_decision. Defined.
#[export] Instance ToolResourceClaim_eq_dec : EqDecision ToolResourceClaim.
Proof. solve_decision. Defined.

Inductive ToolClaimResolution : Type :=
| Exclusive
| Claims (claims : list ToolResourceClaim).

Record ToolResourceClaimsContext : Type := {
  ctx_cwd : string;
  ctx_toolCallId : string;
}.

Record RegisteredToolClaimDefinition : Type := {
  tool_name : string;
  executionMode : option ToolParallelPolicy;
  resourceClaims : option (jsval -> ToolResourceClaimsContext -> option jsval);
}.

Record ClaimableToolCall : Type := {
  call_id : option string;
  call_name : string;
  call_arguments : jsval;
}.

Record ResolveToolClaimsOptions : Type := {
  cwd : string;
  policies : gmap string ToolParallelPolicy;
  registeredTools : list RegisteredToolClaimDefinition;
  strictExtensionClaims : bool;
  resourceKeyResolver : option (string -> string -> option jsval);
}.

Record ResolvedResourceKeys : Type := {
  rk_lexicalKey : string;
  rk_realKey : option string;
  rk_inodeKey : option string;
}.

(** ** Accessors: the string-valued fields of a claim *)

Definition widen (a : ToolResourceAccess) : ResourceAccess :=
  match a with
  | ToolRead => AccRead
  | ToolWrite => AccWrite
  end.

Definition claim_access (c : ToolResourceClaim) : ResourceAccess :=
  match c with
  | PathClaim _ a _ _ => widen a
  | OtherClaim _ _ a => a
  end.

Definition claim_key (c : ToolResourceClaim) : string :=
  match c with
  | PathClaim k _ _ _ => k
  | OtherClaim _ k _ => k
  end.

Definition claim_realKey (c : ToolResourceClaim) : option string :=
  match c with
  | PathClaim _ _ r _ => r
  | OtherClaim _ _ _ => None
  end.

Definition claim_inodeKey (c : ToolResourceClaim) : option string :=
  match c with
  | PathClaim _ _ _ i => i
  | OtherClaim _ _ _ => None
  end.

Definition other_kind_str (k : OtherKind) : string :=
  match k with
  | KSession => "session"
  | KTerminal => "terminal"
  | KNetwork => "network"
  | KGlobal => "global"
  end.

Definition claim_kind (c : ToolResourceClaim) : string :=
  match c with
  | PathClaim _ _ _ _ => "path"
  | OtherClaim k _ _ => other_kind_str k
  end.

Definition access_str (a : ResourceAccess) : string :=
  match a with
  | AccRead => "read"
  | AccWrite => "write"
  | AccExclusive => "exclusive"
  end.

Definition is_exclusive_access (a : ResourceAccess) : bool :=
  match a with
  | AccExclusive => true
  | _ => false
  end.

Definition is_read_access (a : ResourceAccess) : bool :=
  match a with
  | AccRead => true
  | _ => false
  end.

(** ** builtin-tool-resource-claims.ts *)

Definition SEARCH_PATH_TOOLS : list string := ["grep"; "find"; "ls"; "search_files"].

Definition isPlainArguments (value : jsval) : bool :=
  match value with
  | JObject _ => true
  | _ => false
  end.

Definition findRegisteredToolClaimDefinition (name : string)
    (tools : list RegisteredToolClaimDefinition) : option RegisteredToolClaimDefinition :=
  List.find (fun tool => String.eqb (tool_name tool) name) tools.

Definition resolveToolPolicy (name : string) (options : ResolveToolClaimsOptions)
    : option ToolParallelPolicy :=
  match (tool ← findRegisteredToolClaimDefinition name (registeredTools options);
         executionMode tool) with
  | Some p => Some p
  | None => policies options !! name
  end.

Definition isBuiltinPathClaimTool (name : string) : bool :=
  set_has PATH_SCOPED_TOOLS name || set_has SEARCH_PATH_TOOLS name.

(** Three or more leading slashes become one. *)
Definition normalizeLeadingSlashes (rawPath : string) : string :=
  let normalized := normalizePathSlashes rawPath in
  if startsWith "///" normalized then String slash (stripLeading slash normalized) else normalized.

Definition resolveCanonicalPathKey (rawPath : jsval) (cwd : string) : option string :=
  match rawPath with
  | JString raw =>
      if is_empty (trim raw) then None
      else
        let normalized := normalizeLeadingSlashes raw in
        if startsWith "//" normalized || (has_drive normalized && negb (has_drive_slash normalized))
        then None
        else match canonicalizeLexicalPath cwd with
        | None => None
        | Some canonicalCwd =>
            if negb (startsWith "/" canonicalCwd || has_drive_slash canonicalCwd) then None
            else
              let resolved :=
                if has_drive_slash normalized then normalized
                else if startsWith "/" normalized then
                  if has_drive_slash canonicalCwd then slice_to 2 canonicalCwd ++ normalized
                  else normalized
                else joinPathSegments canonicalCwd normalized in
              match canonicalizeLexicalPath resolved with
              | Some canonical =>
                  if startsWith "/" canonical || has_drive_slash canonical then Some canonical
                  else None
              | None => None
              end
        end
  | _ => None
  end.

Definition builtinRawPath (toolName : string) (args : jsval) (cwd : string) : jsval :=
  if set_has PATH_SCOPED_TOOLS toolName then get_prop "path" args
  else if negb (set_has SEARCH_PATH_TOOLS toolName) then JUndefined
  else match get_prop "path" args with
  | JString p => if is_empty (trim p) then JString cwd else JString p
  | _ => JString cwd
  end.

Definition builtinPathAccess (toolName : string) : ToolResourceAccess :=
  if String.eqb toolName "read" || set_has SEARCH_PATH_TOOLS toolName then ToolRead else ToolWrite.

Definition resolvePathClaimKey (toolName : string) (args : jsval) (cwd : string) : option string :=
  if isBuiltinPathClaimTool toolName
  then resolveCanonicalPathKey (builtinRawPath toolName args cwd) cwd else None.

(** Split a string at its first slash. *)
Fixpoint break_slash (s : string) : string * string :=
  match s with
  | EmptyString => (EmptyString, EmptyString)
  | String a s' =>
      if Ascii.eqb a slash then (EmptyString, s)
      else let '(w, r) := break_slash s' in (String a w, r)
  end.

(** The UNC regular expression: slashes, a server, slashes, a share, and
    optionally slashes and a suffix without line terminators. The third
    component is [match[3] ?? ""]. *)
Definition unc_match (s : string) : option (string * string * string) :=
  let '(server, r1) := break_slash (stripLeading slash s) in
  let '(share, r2) := break_slash (stripLeading slash r1) in
  let suffix := stripLeading slash r2 in
  if is_empty server || is_empty share || sexists is_line_terminator suffix then None
  else Some (server, share, suffix).

Definition canonicalizeResolvedPathKey (rawPath : jsval) : option string :=
  match rawPath with
  | JString raw =>
      if is_empty (trim raw) then None
      else
        let normalized := normalizeLeadingSlashes raw in
        if startsWith "//" normalized then
          match unc_match normalized with
          | None => None
          | Some (server, share, suffix) =>
              match (if is_empty suffix then Some EmptyString else canonicalizeLexicalPath suffix) with
              | None => None
              | Some canonicalSuffix =>
                  let root := "//" ++ toLowerCase server ++ "/" ++ toLowerCase share in
                  Some (if is_empty canonicalSuffix then root else root ++ "/" ++ canonicalSuffix)
              end
          end
        else match canonicalizeLexicalPath normalized with
        | None => None
        | Some canonical =>
            match drive_slash canonical with
            | Some (d, rest) => Some (toLowerCase d ++ "/" ++ rest)
            | None => if startsWith "/" canonical then Some canonical else None
            end
        end
  | _ => None
  end.

(** [/^[a-z]:\//.test(s)] *)
Definition has_lower_drive_slash (s : string) : bool :=
  match s with
  | String a _ => in_range 97 122 a && has_drive_slash s
  | EmptyString => false
  end.

Definition normalizeResolvedResourceKeys (value : jsval) : option ResolvedResourceKeys :=
  if negb (isPlainArguments value) then None
  else match canonicalizeResolvedPathKey (get_prop "lexicalKey" value) with
  | None => None
  | Some lexicalKey =>
      match (match get_prop "realKey" value with
             | JUndefined => Some None
             | v => Some <$> canonicalizeResolvedPathKey v
             end) with
      | None => None
      | Some realKey =>
          match (match get_prop "inodeKey" value with
                 | JUndefined => Some None
                 | JString s => if is_empty s then None else Some (Some s)
                 | _ => None
                 end) with
          | None => None
          | Some inodeKey =>
              if (startsWith "//" lexicalKey || has_lower_drive_slash lexicalKey)
                 && bool_decide (realKey = None) && bool_decide (inodeKey = None)
              then None
              else Some {| rk_lexicalKey := lexicalKey; rk_realKey := realKey;
                           rk_inodeKey := inodeKey |}
          end
      end
  end.

Definition resolvePathClaimWithIdentity (rawPath : jsval) (access : ToolResourceAccess)
    (options : ResolveToolClaimsOptions) : ToolClaimResolution :=
  match rawPath with
  | JString raw =>
      if is_empty (trim raw) then Exclusive
      else match resourceKeyResolver options with
      | None =>
          match resolveCanonicalPathKey rawPath (cwd options) with
          | None => Exclusive
          | Some key => Claims [PathClaim key access None None]
          end
      | Some resolvePath =>
          match resolvePath raw (cwd options) with
          | None => Exclusive
          | Some value =>
              match normalizeResolvedResourceKeys value with
              | None => Exclusive
              | Some keys =>
                  Claims [PathClaim (rk_lexicalKey keys) access (rk_realKey keys) (rk_inodeKey keys)]
              end
          end
      end
  | _ => Exclusive
  end.

Definition resolveBuiltinPathClaimWithIdentity (toolCall : ClaimableToolCall)
    (options : ResolveToolClaimsOptions) : ToolClaimResolution :=
  if negb (isPlainArguments (call_arguments toolCall)) then Exclusive
  else resolvePathClaimWithIdentity
         (builtinRawPath (call_name toolCall) (call_arguments toolCall) (cwd options))
         (builtinPathAccess (call_name toolCall)) options.

Definition is_sequential (p : option ToolParallelPolicy) : bool := bool_decide (p = Some Sequential).

Definition resolveToolClaims (toolCall : ClaimableToolCall) (options : ResolveToolClaimsOptions)
    : ToolClaimResolution :=
  if negb (isPlainArguments (call_arguments toolCall)) then Exclusive
  else
    let name := call_name toolCall in
    if set_has NEVER_PARALLEL_TOOLS name || String.eqb name "bash"
       || is_sequential (resolveToolPolicy name options) then Exclusive
    else if isBuiltinPathClaimTool name then
      match resolvePathClaimKey name (call_arguments toolCall) (cwd options) with
      | None => Exclusive
      | Some key => Claims [PathClaim key (builtinPathAccess name) None None]
      end
    else if set_has PARALLEL_SAFE_TOOLS name then Claims []
    else if bool_decide (resolveToolPolicy name options = Some Parallel) then
      if strictExtensionClaims options then Exclusive else Claims []
    else Exclusive.

Definition pathClaimKeys (key : string) (realKey : option string) : list string :=
  match realKey with
  | None => [key]
  | Some r => if String.eqb r key then [key] else [key; r]
  end.

Definition uncSegments (key : string) : option (list string) :=
  if startsWith "//" key then Some (map toLowerCase (pathSegments (slice 2 key))) else None.

(** The comparison loop of [identityPathKeysOverlap] over the common length. *)
Fixpoint unc_agree (l r : list string) : bool :=
  match l, r with
  | x :: l', y :: r' => if negb (String.eqb x y) then false else unc_agree l' r'
  | _, _ => true
  end.

Definition identityPathKeysOverlap (left right : string) : bool :=
  match uncSegments left, uncSegments right with
  | Some l, Some r => unc_agree l r
  | None, None => pathSegmentsOverlap left right
  | _, _ => false
  end.

Definition same_inode (left right : option string) : bool :=
  match left, right with
  | Some a, Some b => String.eqb a b
  | _, _ => false
  end.

Definition pathClaimsOverlap (lkey rkey : string) (lreal rreal linode rinode : option string) : bool :=
  if same_inode linode rinode then true
  else existsb (fun leftKey =>
         existsb (fun rightKey => identityPathKeysOverlap leftKey rightKey)
           (pathClaimKeys rkey rreal))
         (pathClaimKeys lkey lreal).

(** ** tool-resource-claims.ts *)

Definition parse_other_kind (v : jsval) : option OtherKind :=
  match v with
  | JString s =>
      if String.eqb s "session" then Some KSession
      else if String.eqb s "terminal" then Some KTerminal
      else if String.eqb s "network" then Some KNetwork
      else if String.eqb s "global" then Some KGlobal
      else None
  | _ => None
  end.

Definition parse_access (v : jsval) : option ResourceAccess :=
  match v with
  | JString s =>
      if String.eqb s "read" then Some AccRead
      else if String.eqb s "write" then Some AccWrite
      else if String.eqb s "exclusive" then Some AccExclusive
      else None
  | _ => None
  end.

Definition parse_tool_access (v : jsval) : option ToolResourceAccess :=
  match v with
  | JString s =>
      if String.eqb s "read" then Some ToolRead
      else if String.eqb s "write" then Some ToolWrite
      else None
  | _ => None
  end.

(** The loop of [normalizeCustomClaims]: [None] is its early
    [return { kind: "exclusive" }]. *)
Fixpoint normalize_loop (options : ResolveToolClaimsOptions) (candidates : list jsval)
    (claims : list ToolResourceClaim) (hasExclusiveAccess : bool)
    : option (list ToolResourceClaim * bool) :=
  match candidates with
  | [] => Some (claims, hasExclusiveAccess)
  | candidate :: rest =>
      if negb (isPlainArguments candidate) then None
      else match get_prop "key" candidate with
      | JString key =>
          if is_empty (trim key) then None
          else if bool_decide (as_string (get_prop "kind" candidate) = Some "path") then
            match parse_tool_access (get_prop "access" candidate) with
            | None => None
            | Some access =>
                match resolvePathClaimWithIdentity (JString key) access options with
                | Exclusive => None
                | Claims cs => normalize_loop options rest (claims ++ cs)%list hasExclusiveAccess
                end
            end
          else match parse_other_kind (get_prop "kind" candidate) with
          | None => None
          | Some kind =>
              match parse_access (get_prop "access" candidate) with
              | None => None
              | Some access =>
                  normalize_loop options rest (claims ++ [OtherClaim kind key access])%list
                    (hasExclusiveAccess || is_exclusive_access access)
              end
          end
      | _ => None
      end
  end.

Definition normalizeCustomClaims (value : jsval) (options : ResolveToolClaimsOptions)
    : ToolClaimResolution :=
  match value with
  | JArray (candidate :: rest) =>
      match normalize_loop options (candidate :: rest) [] false with
      | Some (claims, false) => Claims claims
      | _ => Exclusive
      end
  | _ => Exclusive
  end.

Definition resolveToolClaimsForCall (toolCall : ClaimableToolCall)
    (options : ResolveToolClaimsOptions) : ToolClaimResolution :=
  let name := call_name toolCall in
  match (tool ← findRegisteredToolClaimDefinition name (registeredTools options);
         resourceClaims tool) with
  | None =>
      if bool_decide (is_Some (resourceKeyResolver options))
         && isBuiltinPathClaimTool name
         && isPlainArguments (call_arguments toolCall)
         && negb (set_has NEVER_PARALLEL_TOOLS name)
         && negb (is_sequential (resolveToolPolicy name options))
      then resolveBuiltinPathClaimWithIdentity toolCall options
      else resolveToolClaims toolCall options
  | Some callback =>
      if negb (isPlainArguments (call_arguments toolCall)) then Exclusive
      else match callback (call_arguments toolCall)
               {| ctx_cwd := cwd options;
                  ctx_toolCallId := default EmptyString (call_id toolCall) |} with
      | None => Exclusive
      | Some claims =>
          let resolution := normalizeCustomClaims claims options in
          if set_has NEVER_PARALLEL_TOOLS name || String.eqb name "bash"
             || is_sequential (resolveToolPolicy name options)
          then Exclusive else resolution
      end
  end.

(** Lexicographic chaining of [if (a !== b) return a < b ? -1 : 1]. *)
Definition cmp_then (c d : comparison) : comparison :=
  match c with
  | Eq => d
  | _ => c
  end.

Definition compareClaims (left right : ToolResourceClaim) : comparison :=
  cmp_then (str_compare (claim_kind left) (claim_kind right))
  (cmp_then (str_compare (claim_key left) (claim_key right))
  (cmp_then (str_compare (access_str (claim_access left)) (access_str (claim_access right)))
  (cmp_then (str_compare (default EmptyString (claim_realKey left))
                         (default EmptyString (claim_realKey right)))
            (str_compare (default EmptyString (claim_inodeKey left))
                         (default EmptyString (claim_inodeKey right)))))).

(** The [map] of the source copies every claim to a fixed property order,
    which a constructor already has. *)
Definition canonicalizeClaims (claims : list ToolResourceClaim) : list ToolResourceClaim :=
  stable_sort compareClaims claims.

Definition claimsConflict (left right : ToolResourceClaim) : bool :=
  if is_exclusive_access (claim_access left) || is_exclusive_access (claim_access right) then true
  else if negb (String.eqb (claim_kind left) (claim_kind right)) then false
  else
    let both_read := is_read_access (claim_access left) && is_read_access (claim_access right) in
    match left, right with
    | PathClaim lk _ lr li, PathClaim rk _ rr ri =>
        if negb (pathClaimsOverlap lk rk lr rr li ri) then false else negb both_read
    | _, _ =>
        if negb (String.eqb (claim_key left) (claim_key right)) then false else negb both_read
    end.

Definition resolutionsConflict (left right : ToolClaimResolution) : bool :=
  match left, right with
  | Claims l, Claims r =>
      existsb (fun leftClaim => existsb (fun rightClaim => claimsConflict leftClaim rightClaim) r) l
  | _, _ => true
  end.

(** ** Conflict relation *)

Lemma claim_kind_path (k k' : string) (a : ToolResourceAccess) (r i : option string)
    (o : OtherKind) (b : ResourceAccess) :
  claim_kind (PathClaim k a r i) <> claim_kind (OtherClaim o k' b).
Proof. by destruct o. Qed.

Lemma unc_agree_sym (l r : list string) : unc_agree l r = unc_agree r l.
Proof.
  revert r; induction l as [|x l IH]; intros [|y r]; simpl; try done.
  by rewrite String.eqb_sym, IH.
Qed.

Lemma identityPathKeysOverlap_sym (l r : string) :
  identityPathKeysOverlap l r = identityPathKeysOverlap r l.
Proof.
  unfold identityPathKeysOverlap. destruct (uncSegments l), (uncSegments r); try done.
  - apply unc_agree_sym.
  - apply pathSegmentsOverlap_sym.
Qed.

Lemma pathClaimsOverlap_sym (lk rk : string) (lr rr li ri : option string) :
  pathClaimsOverlap lk rk lr rr li ri = pathClaimsOverlap rk lk rr lr ri li.
Proof.
  unfold pathClaimsOverlap.
  assert (same_inode ri li = same_inode li ri) as ->.
  { destruct li, ri; simpl; try done. apply String.eqb_sym. }
  rewrite (existsb_comm identityPathKeysOverlap).
  destruct (same_inode li ri); [done|].
  apply existsb_ext_in. intros x _. apply existsb_ext_in. intros y _.
  apply identityPathKeysOverlap_sym.
Qed.

Lemma claimsConflict_sym (a b : ToolResourceClaim) : claimsConflict a b = claimsConflict b a.
Proof.
  unfold claimsConflict. rewrite (orb_comm (is_exclusive_access (claim_access b))).
  rewrite (String.eqb_sym (claim_kind b)), (andb_comm (is_read_access (claim_access b))).
  destruct (_ || _); [done|]. destruct (negb _); [done|].
  rewrite (String.eqb_sym (claim_key b)).
  destruct a, b; try done. by rewrite pathClaimsOverlap_sym.
Qed.

Lemma resolutionsConflict_sym (a b : ToolClaimResolution) :
  resolutionsConflict a b = resolutionsConflict b a.
Proof.
  destruct a as [|l], b as [|r]; simpl; try done. rewrite existsb_comm.
  apply existsb_ext_in. intros x _. apply existsb_ext_in. intros y _. apply claimsConflict_sym.
Qed.

(** Two reads never conflict. *)
Lemma claimsConflict_reads (a b : ToolResourceClaim) :
  claim_access a = AccRead -> claim_access b = AccRead -> claimsConflict a b = false.
Proof.
  intros Ha Hb. unfold claimsConflict. rewrite Ha, Hb. simpl.
  destruct (negb _); [done|]. destruct a, b; by destruct (negb _).
Qed.

(** ** The claim comparator *)

(** A claim whose identity keys, when present, are not empty strings: the
    comparator reads an absent key as the empty string. *)
Definition claim_wf (c : ToolResourceClaim) : Prop :=
  claim_realKey c <> Some EmptyString /\ claim_inodeKey c <> Some EmptyString.

Lemma cmp_then_eq (c d : comparison) : cmp_then c d = Eq <-> c = Eq /\ d = Eq.
Proof. destruct c; simpl; naive_solver. Qed.

Lemma cmp_then_opp (c d : comparison) : CompOpp (cmp_then c d) = cmp_then (CompOpp c) (CompOpp d).
Proof. by destruct c. Qed.

Lemma compareClaims_antisym (a b : ToolResourceClaim) :
  compareClaims b a = CompOpp (compareClaims a b).
Proof.
  unfold compareClaims. rewrite !cmp_then_opp.
  by rewrite <- !str_compare_antisym.
Qed.

(** Lexicographic comparison of the five string fields. *)
Definition claim_fields (c : ToolResourceClaim) : list string :=
  [claim_kind c; claim_key c; access_str (claim_access c);
   default EmptyString (claim_realKey c); default EmptyString (claim_inodeKey c)].

Fixpoint lex_compare (l r : list string) : comparison :=
  match l, r with
  | x :: l', y :: r' => cmp_then (str_compare x y) (lex_compare l' r')
  | _, _ => Eq
  end.

Lemma compareClaims_lex (a b : ToolResourceClaim) :
  compareClaims a b = lex_compare (claim_fields a) (claim_fields b).
Proof.
  unfold compareClaims, claim_fields. simpl. repeat f_equal.
  by destruct (str_compare (default _ (claim_inodeKey a)) _).
Qed.

Lemma lex_compare_trans (l r t : list string) :
  length l = length r -> length r = length t ->
  lex_compare l r <> Gt -> lex_compare r t <> Gt -> lex_compare l t <> Gt.
Proof.
  revert r t; induction l as [|x l IH]; intros [|y r] [|z t] H1 H2; simpl in *; try done.
  destruct (str_compare x y) eqn:E1; simpl.
  - apply str_compare_eq in E1 as ->. destruct (str_compare y z); simpl; try done.
    apply IH; lia.
  - intros _. destruct (str_compare y z) eqn:E2; simpl; try done; intros _.
    + apply str_compare_eq in E2 as ->. by rewrite E1.
    + by rewrite (str_compare_trans _ _ _ E1 E2).
  - done.
Qed.

Lemma compareClaims_trans (a b c : ToolResourceClaim) :
  cmp_le compareClaims a b -> cmp_le compareClaims b c -> cmp_le compareClaims a c.
Proof. unfold cmp_le. rewrite !compareClaims_lex. by apply lex_compare_trans. Qed.

Lemma default_empty_inj (a b : option string) :
  a <> Some EmptyString -> b <> Some EmptyString ->
  default EmptyString a = default EmptyString b -> a = b.
Proof. destruct a, b; simpl; congruence. Qed.

Lemma access_str_inj (a b : ResourceAccess) : access_str a = access_str b -> a = b.
Proof. by destruct a, b. Qed.

Lemma widen_inj (a b : ToolResourceAccess) : widen a = widen b -> a = b.
Proof. by destruct a, b. Qed.

Lemma compareClaims_eq (a b : ToolResourceClaim) :
  claim_wf a -> claim_wf b -> compareClaims a b = Eq -> a = b.
Proof.
  intros [Ha1 Ha2] [Hb1 Hb2]. unfold compareClaims. rewrite !cmp_then_eq, !str_compare_eq.
  intros (Hk & Hkey & Hacc & Hr & Hi).
  apply default_empty_inj in Hr, Hi; [|done..]. apply access_str_inj in Hacc.
  destruct a as [k1 a1 r1 i1|o1 k1 a1], b as [k2 a2 r2 i2|o2 k2 a2]; simpl in *.
  - apply widen_inj in Hacc. congruence.
  - by destruct o2.
  - by destruct o1.
  - assert (o1 = o2) as -> by (destruct o1, o2; done). congruence.
Qed.

(** ** What a resolution can be *)

(** A resolution the scheduler receives: its claims are well formed and none
    has exclusive access (an exclusive claim makes the whole call exclusive). *)
Definition resolution_wf (r : ToolClaimResolution) : Prop :=
  match r with
  | Exclusive => True
  | Claims cs => Forall (fun c => claim_wf c /\ is_exclusive_access (claim_access c) = false) cs
  end.

Lemma widen_not_exclusive (a : ToolResourceAccess) : is_exclusive_access (widen a) = false.
Proof. by destruct a. Qed.

Lemma canonicalizeResolvedPathKey_nonempty (v : jsval) :
  canonicalizeResolvedPathKey v <> Some EmptyString.
Proof.
  unfold canonicalizeResolvedPathKey. destruct v; try done.
  destruct (is_empty _); [done|]. destruct (startsWith "//" _).
  - destruct (unc_match _) as [[[server share] suffix]|]; [|done].
    destruct (if is_empty suffix then _ else _) as [c|]; [|done]. by destruct (is_empty c).
  - destruct (canonicalizeLexicalPath _) as [c|]; [|done].
    destruct (drive_slash c) as [[d rest]|].
    + intros [= H]. destruct (toLowerCase d); done.
    + destruct (startsWith "/" c) eqn:E; [|done]. intros [= ->]. done.
Qed.

Lemma normalizeResolvedResourceKeys_wf (v : jsval) (keys : ResolvedResourceKeys) :
  normalizeResolvedResourceKeys v = Some keys ->
  rk_realKey keys <> Some EmptyString /\ rk_inodeKey keys <> Some EmptyString.
Proof.
  unfold normalizeResolvedResourceKeys. destruct (negb _); [done|].
  destruct (canonicalizeResolvedPathKey (get_prop "lexicalKey" v)) as [lk|]; [|done].
  destruct (match get_prop "realKey" v with JUndefined => _ | _ => _ end) as [rk|] eqn:Er; [|done].
  destruct (match get_prop "inodeKey" v with JUndefined => _ | _ => _ end) as [ik|] eqn:Ei; [|done].
  destruct (_ && _); [done|]. intros [= <-]. simpl. split.
  - intros ->. pose proof (canonicalizeResolvedPathKey_nonempty (get_prop "realKey" v)) as Hne.
    destruct (get_prop "realKey" v); try done;
      (apply fmap_Some in Er as (k & Hk & [= <-]); congruence).
  - intros ->. destruct (get_prop "inodeKey" v); simplify_eq/=. by destruct s.
Qed.

Lemma resolvePathClaimWithIdentity_wf (v : jsval) (a : ToolResourceAccess)
    (options : ResolveToolClaimsOptions) :
  resolution_wf (resolvePathClaimWithIdentity v a options).
Proof.
  unfold resolvePathClaimWithIdentity. destruct v; try done.
  destruct (is_empty _); [done|]. destruct (resourceKeyResolver options) as [f|].
  - destruct (f s (cwd options)) as [value|]; [|done].
    destruct (normalizeResolvedResourceKeys value) as [keys|] eqn:E; [|done].
    apply normalizeResolvedResourceKeys_wf in E. simpl. constructor; [|constructor].
    split; [done|apply widen_not_exclusive].
  - destruct (resolveCanonicalPathKey _ _) as [key|]; [|done]. simpl. constructor; [|constructor].
    split; [done|apply widen_not_exclusive].
Qed.

Lemma resolveToolClaims_wf (toolCall : ClaimableToolCall) (options : ResolveToolClaimsOptions) :
  resolution_wf (resolveToolClaims toolCall options).
Proof.
  unfold resolveToolClaims. destruct (negb _); [done|]. destruct (_ || _ || _); [done|].
  destruct (isBuiltinPathClaimTool _).
  { destruct (resolvePathClaimKey _ _ _); [|done]. simpl. constructor; [|constructor].
    split; [done|apply widen_not_exclusive]. }
  destruct (set_has _ _); [constructor|]. destruct (bool_decide _); [|done].
  destruct (strictExtensionClaims options); [done|constructor].
Qed.

#[local] Arguments resolvePathClaimWithIdentity : simpl never.

Lemma normalize_loop_wf (options : ResolveToolClaimsOptions) (vs : list jsval)
    (acc out : list ToolResourceClaim) (h : bool) :
  (h = false -> resolution_wf (Claims acc)) ->
  normalize_loop options vs acc h = Some (out, false) -> resolution_wf (Claims out).
Proof.
  revert acc h; induction vs as [|v vs IH]; intros acc h Hacc; simpl.
  { intros [= <- ->]. by apply Hacc. }
  destruct (negb _); [done|]. destruct (get_prop "key" v); try done.
  destruct (is_empty _); [done|]. destruct (bool_decide _).
  - destruct (parse_tool_access _) as [a|]; [|done].
    destruct (resolvePathClaimWithIdentity (JString s) a options) as [|cs] eqn:E; [done|].
    apply IH. intros Hh. simpl. apply Forall_app. split; [by apply Hacc|].
    pose proof (resolvePathClaimWithIdentity_wf (JString s) a options) as H. by rewrite E in H.
  - destruct (parse_other_kind _) as [k|]; [|done]. destruct (parse_access _) as [a|]; [|done].
    apply IH. intros [Hh Ha]%orb_false_iff. simpl. apply Forall_app. split; [by apply Hacc|].
    by repeat constructor.
Qed.

(** The shape invariant of every resolution, whatever the extension callbacks
    and the identity resolver return. *)
Lemma resolveToolClaimsForCall_wf (toolCall : ClaimableToolCall) (options : ResolveToolClaimsOptions) :
  resolution_wf (resolveToolClaimsForCall toolCall options).
Proof.
  unfold resolveToolClaimsForCall. destruct (_ ≫= _) as [callback|].
  - destruct (negb _); [done|]. destruct (callback _ _) as [v|]; [|done].
    destruct (_ || _ || _); [done|]. unfold normalizeCustomClaims.
    destruct v as [| | | | |[|c rest]|]; try done.
    destruct (normalize_loop options (c :: rest) [] false) as [[out []]|] eqn:E; try done.
    eapply normalize_loop_wf; [|exact E]. intros _. constructor.
  - destruct (_ && _); [|apply resolveToolClaims_wf].
    unfold resolveBuiltinPathClaimWithIdentity. destruct (negb _); [done|].
    apply resolvePathClaimWithIdentity_wf.
Qed.

(** One candidate of a callback's answer, on its own. *)
Definition candidate_claim (options : ResolveToolClaimsOptions) (candidate : jsval)
    : option (list ToolResourceClaim * bool) := normalize_loop options [candidate] [] false.

Lemma resolvePathClaimWithIdentity_single (v : jsval) (a : ToolResourceAccess)
    (options : ResolveToolClaimsOptions) (cs : list ToolResourceClaim) :
  resolvePathClaimWithIdentity v a options = Claims cs -> exists c, cs = [c].
Proof.
  unfold resolvePathClaimWithIdentity. intros H. split_in H; eauto.
Qed.

Lemma normalize_loop_each (options : ResolveToolClaimsOptions) (vs : list jsval)
    (acc out : list ToolResourceClaim) (h : bool) :
  normalize_loop options vs acc h = Some (out, false) <->
  h = false /\ exists cs, out = (acc ++ cs)%list /\
    Forall2 (fun v c => candidate_claim options v = Some ([c], false)) vs cs.
Proof.
  revert acc h; induction vs as [|v vs IH]; intros acc h; simpl.
  { split.
    - intros [= -> ->]. split; [done|]. exists []. by rewrite app_nil_r.
    - intros [-> (cs & -> & H)]. apply Forall2_nil_inv_l in H as ->. by rewrite app_nil_r. }
  assert (Hstep : forall c e, candidate_claim options v = Some ([c], e) ->
    normalize_loop options vs (acc ++ [c])%list (h || e) = Some (out, false) <->
    h = false /\ exists cs, out = (acc ++ cs)%list /\
      Forall2 (fun v c => candidate_claim options v = Some ([c], false)) (v :: vs) cs).
  { intros c e Hc. rewrite IH, orb_false_iff. split.
    - intros [[-> ->] (cs & -> & Hcs)]. split; [done|]. exists (c :: cs).
      rewrite <- app_assoc. split; [done|]. by constructor.
    - intros [-> (cs & -> & Hcs)]. inversion Hcs as [|? c' ? cs' Hv Hvs]; subst.
      rewrite Hc in Hv. injection Hv as -> ->. split; [done|]. exists cs'.
      by rewrite <- app_assoc. }
  assert (Hnone : candidate_claim options v = None ->
    None = Some (out, false) <-> h = false /\ exists cs, out = (acc ++ cs)%list /\
      Forall2 (fun v c => candidate_claim options v = Some ([c], false)) (v :: vs) cs).
  { intros Hc. split; [done|]. intros [_ (cs & _ & Hcs)]. inversion Hcs; congruence. }
  unfold candidate_claim in *. cbn [normalize_loop] in Hstep, Hnone.
  destruct (negb _); [by apply Hnone|]. destruct (get_prop "key" v); try by apply Hnone.
  destruct (is_empty _); [by apply Hnone|]. destruct (bool_decide _).
  - destruct (parse_tool_access _) as [a|]; [|by apply Hnone].
    destruct (resolvePathClaimWithIdentity _ _ _) as [|cs] eqn:E; [by apply Hnone|].
    apply resolvePathClaimWithIdentity_single in E as [c ->].
    specialize (Hstep c false eq_refl). by rewrite orb_false_r in Hstep.
  - destruct (parse_other_kind _) as [k|]; [|by apply Hnone].
    destruct (parse_access _) as [a|]; [|by apply Hnone]. by apply Hstep.
Qed.

(** ** Properties *)

(** A call of a never-parallel tool, of [bash], or of a tool whose
    effective policy is sequential runs exclusively, whatever claims its
    extension callback returns (or if it throws), whatever the identity
    resolver answers, and whatever the call's arguments are. *)
Theorem resolve_forced_exclusive (toolCall : ClaimableToolCall) (options : ResolveToolClaimsOptions) :
  set_has NEVER_PARALLEL_TOOLS (call_name toolCall)
  || String.eqb (call_name toolCall) "bash"
  || is_sequential (resolveToolPolicy (call_name toolCall) options) = true ->
  resolveToolClaimsForCall toolCall options = Exclusive.
Proof.
  intros H. unfold resolveToolClaimsForCall. destruct (_ ≫= _) as [callback|].
  - destruct (negb _); [done|]. destruct (callback _ _); [|done]. by rewrite H.
  - assert (Hdef : resolveToolClaims toolCall options = Exclusive).
    { unfold resolveToolClaims. destruct (negb _); [done|]. by rewrite H. }
    destruct (_ && _) eqn:E; [|done]. exfalso. breflect.
    repeat match goal with H : _ \/ _ |- _ => destruct H; breflect end; try congruence.
    match goal with H : String.eqb _ "bash" = true |- _ => apply String.eqb_eq in H as Hb end.
    match goal with H : isBuiltinPathClaimTool _ = true |- _ => by rewrite Hb in H end.
Qed.

(** An extension callback's answer is taken or refused as a whole:
    it yields claims exactly when it is a non-empty array each of whose elements,
    in order, yields one non-exclusive claim; one malformed or exclusive element
    makes the whole call exclusive. *)
Theorem normalizeCustomClaims_all_or_nothing (value : jsval) (options : ResolveToolClaimsOptions)
    (claims : list ToolResourceClaim) :
  normalizeCustomClaims value options = Claims claims <->
  exists candidates, value = JArray candidates /\ candidates <> [] /\
    Forall2 (fun candidate claim => candidate_claim options candidate = Some ([claim], false))
      candidates claims.
Proof.
  assert (Hall : forall c rest,
    normalize_loop options (c :: rest) [] false = Some (claims, false) <->
    Forall2 (fun v c => candidate_claim options v = Some ([c], false)) (c :: rest) claims).
  { intros c rest. rewrite normalize_loop_each. split; [by intros [_ (cs & -> & H)]|eauto]. }
  unfold normalizeCustomClaims. split.
  - destruct value as [| | | | |[|c rest]|]; try done.
    destruct (normalize_loop options (c :: rest) [] false) as [[out []]|] eqn:E; try done.
    intros [= ->]. exists (c :: rest). split; [done|]. split; [done|]. by apply Hall.
  - intros (cands & -> & Hne & H). destruct cands as [|c rest]; [done|].
    apply Hall in H. by rewrite H.
Qed.

Lemma resolve_forced_exclusive_witness :
  let options :=
    {| cwd := "/w"; policies := ∅; strictExtensionClaims := false; resourceKeyResolver := None;
       registeredTools := [{| tool_name := "bash"; executionMode := Some Parallel;
         resourceClaims := Some (fun _ _ => Some (JArray [JObject [("kind", JString "global");
           ("key", JString "k"); ("access", JString "read")]])) |}] |} in
  resolveToolClaimsForCall {| call_id := None; call_name := "bash"; call_arguments := JObject [] |}
    options = Exclusive.
Proof. apply resolve_forced_exclusive. vm_compute. reflexivity. Defined.
