(* ===== verification/DagScheduler.v ===== *)
(** * The resource-claim DAG scheduler (packages/agent/src/tool-dag-scheduler.ts)

    A source-ordered batch is cut into levels: each call is placed one level
    after the latest earlier call it conflicts with. This file models the
    level assignment with its per-level claim summaries, the width cap and the
    canonical plan key. *)

From Stdlib Require Import Ascii String ZArith QArith Lia Permutation.
From stdpp Require Import base list option strings gmap sets sorting.
From S2P Require Import Prelude JsString JsValue PathSegments ToolBatchWaves ResourceClaims.

Open Scope nat_scope.
Open Scope list_scope.

(** ** Data *)

Record ResolvedClaimEntry : Type := {
  sourceIndex : nat;
  resolution : ToolClaimResolution;
  canonicalClaims : list ToolResourceClaim;
}.

Record DagLevel : Type := {
  indices : list nat;
  writeClaims : list ToolResourceClaim;
  readClaims : list ToolResourceClaim;
  hasExclusive : bool;
}.

Record ScheduleDagLevelsOptions : Type := {
  claim_options : ResolveToolClaimsOptions;
  maxConcurrency : option jsnum;
}.

Record DagSchedulePlan : Type := {
  levels : list (list nat);
  planKey : string;
}.

(** ** Resolution of a batch *)

Definition resolve_entry (options : ResolveToolClaimsOptions) (index : nat)
    (toolCall : ClaimableToolCall) : ResolvedClaimEntry :=
  let r := resolveToolClaimsForCall toolCall options in
  {| sourceIndex := index; resolution := r;
     canonicalClaims := match r with
                        | Claims claims => canonicalizeClaims claims
                        | Exclusive => []
                        end |}.

Definition resolveBatchClaims (toolCalls : list ClaimableToolCall)
    (options : ResolveToolClaimsOptions) : list ResolvedClaimEntry :=
  imap (resolve_entry options) toolCalls.

(** ** Level assignment *)

Definition claimConflictsAny (claim : ToolResourceClaim) (candidates : list ToolResourceClaim)
    : bool := existsb (fun candidate => claimsConflict claim candidate) candidates.

(** The loop over one resolution's claims. *)
Fixpoint claims_conflict_level (claims : list ToolResourceClaim) (level : DagLevel) : bool :=
  match claims with
  | [] => false
  | claim :: rest =>
      match claim_access claim with
      | AccExclusive => true
      | AccWrite =>
          if claimConflictsAny claim (writeClaims level) then true
          else if claimConflictsAny claim (readClaims level) then true
          else claims_conflict_level rest level
      | AccRead =>
          if claimConflictsAny claim (writeClaims level) then true
          else claims_conflict_level rest level
      end
  end.

Definition resolutionConflictsLevel (r : ToolClaimResolution) (level : DagLevel) : bool :=
  if hasExclusive level then true
  else match r with
  | Exclusive => true
  | Claims claims => claims_conflict_level claims level
  end.

(** The inner loop: the index after the last conflicting level, or 0. *)
Fixpoint find_target (r : ToolClaimResolution) (ls : list DagLevel) (levelIndex targetIndex : nat)
    : nat :=
  match ls with
  | [] => targetIndex
  | level :: rest =>
      find_target r rest (S levelIndex)
        (if resolutionConflictsLevel r level then S levelIndex else targetIndex)
  end.

Definition is_write_claim (c : ToolResourceClaim) : bool :=
  match claim_access c with
  | AccWrite => true
  | _ => false
  end.

Definition is_exclusive_resolution (r : ToolClaimResolution) : bool :=
  match r with
  | Exclusive => true
  | Claims _ => false
  end.

Definition add_to_level (entry : ResolvedClaimEntry) (target : DagLevel) : DagLevel :=
  if is_exclusive_resolution (resolution entry)
     || existsb (fun claim => is_exclusive_access (claim_access claim)) (canonicalClaims entry)
  then {| indices := indices target ++ [sourceIndex entry];
          writeClaims := writeClaims target; readClaims := readClaims target;
          hasExclusive := true |}
  else {| indices := indices target ++ [sourceIndex entry];
          writeClaims := writeClaims target ++ List.filter is_write_claim (canonicalClaims entry);
          readClaims := readClaims target
                        ++ List.filter (fun c => negb (is_write_claim c)) (canonicalClaims entry);
          hasExclusive := hasExclusive target |}.

Definition empty_level : DagLevel :=
  {| indices := []; writeClaims := []; readClaims := []; hasExclusive := false |}.

(** One iteration of the outer loop. *)
Definition place_entry (ls : list DagLevel) (entry : ResolvedClaimEntry) : list DagLevel :=
  let targetIndex := find_target (resolution entry) ls 0 0 in
  match ls !! targetIndex with
  | Some target => <[targetIndex := add_to_level entry target]> ls
  | None => ls ++ [add_to_level entry empty_level]
  end.

Definition assignDagLevels (entries : list ResolvedClaimEntry) : list (list nat) :=
  map indices (foldl place_entry [] entries).

(** ** Width cap *)

(** [for (start = 0; start < level.length; start += cap) push(slice)], with
    [fuel] iterations at most. *)
Fixpoint chunk_loop (fuel cap : nat) (level : list nat) : list (list nat) :=
  match fuel, level with
  | _, [] => []
  | O, _ => []
  | S fuel', _ => take cap level :: chunk_loop fuel' cap (drop cap level)
  end.

(** [Math.max(1, Math.floor(cap))] of a positive finite cap. *)
Definition integer_cap (q : Q) : nat := Z.to_nat (Z.max 1 (num_floor q)).

Definition chunk_level (cap : nat) (level : list nat) : list (list nat) :=
  if length level <=? cap then [level] else chunk_loop (length level) cap level.

Definition applyConcurrencyCap (ls : list (list nat)) (cap : option jsnum) : list (list nat) :=
  match cap with
  | Some (NumFin q) =>
      if Qle_bool q 0 then ls else concat (map (chunk_level (integer_cap q)) ls)
  | _ => ls
  end.

(** ** Plan key *)

Definition json_prop (key value : string) : string :=
  (json_string key ++ ":" ++ json_string value)%string.

Definition json_opt_prop (key : string) (value : option string) : string :=
  match value with
  | None => EmptyString
  | Some v => ("," ++ json_prop key v)%string
  end.

(** [JSON.stringify] of a canonical claim: [kind], [key], [access], then the
    identity keys a path claim has. *)
Definition json_claim (c : ToolResourceClaim) : string :=
  ("{" ++ json_prop "kind" (claim_kind c)
       ++ "," ++ json_prop "key" (claim_key c)
       ++ "," ++ json_prop "access" (access_str (claim_access c))
       ++ json_opt_prop "realKey" (claim_realKey c)
       ++ json_opt_prop "inodeKey" (claim_inodeKey c) ++ "}")%string.

Definition json_claims (cs : list ToolResourceClaim) : string :=
  ("[" ++ join "," (map json_claim cs) ++ "]")%string.

Definition plan_key_part (entry : ResolvedClaimEntry) : string :=
  match resolution entry with
  | Exclusive => "E,"
  | Claims _ => ("C" ++ json_claims (canonicalClaims entry) ++ ",")%string
  end.

Definition computePlanKey (entries : list ResolvedClaimEntry) : string :=
  foldl (fun key entry => (key ++ plan_key_part entry)%string) EmptyString entries.

Definition scheduleDagLevels (toolCalls : list ClaimableToolCall)
    (options : ScheduleDagLevelsOptions) : DagSchedulePlan :=
  let entries := resolveBatchClaims toolCalls (claim_options options) in
  {| levels := applyConcurrencyCap (assignDagLevels entries) (maxConcurrency options);
     planKey := computePlanKey entries |}.

(** ** Reference schedule

    The longest-path numbering of the conflict graph: an entry's level is one
    more than the greatest level of an earlier conflicting entry, 0 without
    one. [placed] holds the earlier entries with their levels. *)
Section Reference.
Context {A : Type} (conflict : A -> A -> bool).

Definition next_level (placed : list (A * nat)) (x : A) : nat :=
  foldr (fun al m => if conflict x (fst al) then Nat.max (S (snd al)) m else m) 0 placed.

Definition place_ref (placed : list (A * nat)) (x : A) : list (A * nat) :=
  placed ++ [(x, next_level placed x)].

Definition number_levels (xs : list A) : list (A * nat) := foldl place_ref [] xs.

Lemma next_level_lt (placed : list (A * nat)) (x a : A) (l : nat) :
  (a, l) ∈ placed -> conflict x a = true -> l < next_level placed x.
Proof.
  induction placed as [|[b m] placed IH]; intros Hin Hc; [by apply elem_of_nil in Hin|].
  simpl. apply elem_of_cons in Hin as [[= <- <-]|Hin].
  - rewrite Hc. lia.
  - specialize (IH Hin Hc). destruct (conflict x b); lia.
Qed.

(** The bound is reached: a positive level sits right after a conflicting entry. *)
Lemma next_level_attained (placed : list (A * nat)) (x : A) (l : nat) :
  next_level placed x = S l -> exists a, (a, l) ∈ placed /\ conflict x a = true.
Proof.
  induction placed as [|[b m] placed IH]; simpl; [done|].
  destruct (conflict x b) eqn:E.
  - intros H. destruct (Nat.max_spec (S m) (next_level placed x)) as [[? Hm]|[? Hm]];
      unfold next_level in *; rewrite Hm in H.
    + destruct (IH H) as (a & Ha & Hca). exists a. split; [by right|done].
    + injection H as <-. exists b. split; [left|done].
  - intros H. destruct (IH H) as (a & Ha & Hca). exists a. split; [by right|done].
Qed.

Lemma number_levels_snoc (xs : list A) (x : A) :
  number_levels (xs ++ [x]) = place_ref (number_levels xs) x.
Proof. unfold number_levels. by rewrite foldl_app. Qed.

Lemma number_levels_fst (xs : list A) : map fst (number_levels xs) = xs.
Proof.
  induction xs as [|x xs IH] using rev_ind; [done|].
  rewrite number_levels_snoc. unfold place_ref. by rewrite map_app, IH.
Qed.

Lemma number_levels_length (xs : list A) : length (number_levels xs) = length xs.
Proof. rewrite <- (length_map fst). by rewrite number_levels_fst. Qed.

Lemma number_levels_lookup_snoc (xs : list A) (x y : A) (i l : nat) :
  number_levels (xs ++ [x]) !! i = Some (y, l) ->
  number_levels xs !! i = Some (y, l) \/
  (i = length xs /\ y = x /\ l = next_level (number_levels xs) x).
Proof.
  rewrite number_levels_snoc. unfold place_ref. intros H.
  apply lookup_app_Some in H as [H|[Hi H]]; [by left|right].
  rewrite number_levels_length in *.
  destruct (i - length xs) eqn:E; simpl in H; [|done]. split; [lia|]. by simplify_eq.
Qed.

(** Conflicting entries keep their order, strictly. *)
Lemma number_levels_conflict (xs : list A) (i j : nat) (a b : A) (k l : nat) :
  number_levels xs !! i = Some (a, k) -> number_levels xs !! j = Some (b, l) ->
  i < j -> conflict b a = true -> k < l.
Proof.
  revert i j a b k l; induction xs as [|x xs IH] using rev_ind; intros i j a b k l Hi Hj Hij Hc.
  { done. }
  apply number_levels_lookup_snoc in Hi as [Hi|(-> & -> & ->)],
    Hj as [Hj|(-> & -> & ->)]; [by eapply IH| | |lia].
  - eapply next_level_lt; [by eapply list_elem_of_lookup_2|done].
  - apply lookup_lt_Some in Hj. rewrite number_levels_length in Hj. lia.
Qed.

(** No schedule that respects the conflicts puts an entry on a lower level. *)
Lemma number_levels_least (xs : list A) (f : nat -> nat) :
  (forall i j a b, i < j -> xs !! i = Some a -> xs !! j = Some b -> conflict b a = true -> f i < f j) ->
  forall i a k, number_levels xs !! i = Some (a, k) -> k <= f i.
Proof.
  induction xs as [|x xs IH] using rev_ind; intros Hf i a k Hi; [done|].
  assert (IH' : forall i a k, number_levels xs !! i = Some (a, k) -> k <= f i).
  { apply IH. intros i' j' a' b' ? Ha' Hb'. apply (Hf i' j' a' b'); [done| |];
      by apply lookup_app_l_Some. }
  apply number_levels_lookup_snoc in Hi as [Hi|(-> & -> & Hk)]; [by eapply IH'|].
  destruct k as [|k]; [lia|]. symmetry in Hk.
  apply next_level_attained in Hk as (b & Hb & Hc). apply list_elem_of_lookup in Hb as [j Hj].
  specialize (IH' j b k Hj). enough (f j < f (length xs)) by lia.
  pose proof (lookup_lt_Some _ _ _ Hj) as Hlt. rewrite number_levels_length in Hlt.
  apply (Hf j (length xs) b x); [done| |by apply list_lookup_middle|done].
  apply lookup_app_l_Some. rewrite <- (number_levels_fst xs), list_lookup_fmap, Hj. done.
Qed.
End Reference.

(** ** The level summaries decide the pairwise conflicts *)

Definition entry_conflict (later earlier : ResolvedClaimEntry) : bool :=
  resolutionsConflict (resolution later) (resolution earlier).

(** An entry as [resolveBatchClaims] builds it. *)
Definition entry_ok (e : ResolvedClaimEntry) : Prop :=
  resolution_wf (resolution e) /\
  canonicalClaims e = match resolution e with
                      | Claims claims => canonicalizeClaims claims
                      | Exclusive => []
                      end.

Definition level_of (es : list ResolvedClaimEntry) : DagLevel :=
  foldl (fun level e => add_to_level e level) empty_level es.

Lemma resolve_entry_ok (options : ResolveToolClaimsOptions) (i : nat) (c : ClaimableToolCall) :
  entry_ok (resolve_entry options i c).
Proof. split; [apply resolveToolClaimsForCall_wf|done]. Qed.

Lemma resolveBatchClaims_ok (calls : list ClaimableToolCall) (options : ResolveToolClaimsOptions) :
  Forall entry_ok (resolveBatchClaims calls options).
Proof.
  apply Forall_lookup_2. intros i e He. unfold resolveBatchClaims in He.
  rewrite list_lookup_imap in He. apply fmap_Some in He as (c & _ & ->). apply resolve_entry_ok.
Qed.

Lemma canonicalClaims_elem (e : ResolvedClaimEntry) (c : ToolResourceClaim) :
  entry_ok e -> c ∈ canonicalClaims e <-> exists cs, resolution e = Claims cs /\ c ∈ cs.
Proof.
  intros [_ ->]. destruct (resolution e) as [|cs]; [set_solver|].
  unfold canonicalizeClaims. rewrite elem_of_stable_sort. naive_solver.
Qed.

Lemma canonicalClaims_not_exclusive (e : ResolvedClaimEntry) (c : ToolResourceClaim) :
  entry_ok e -> c ∈ canonicalClaims e -> is_exclusive_access (claim_access c) = false.
Proof.
  intros He Hc. apply (canonicalClaims_elem e c He) in Hc as (cs & E & Hc).
  destruct He as [Hwf _]. rewrite E in Hwf. simpl in Hwf. rewrite Forall_forall in Hwf.
  by apply Hwf.
Qed.

Lemma add_exclusive_iff (e : ResolvedClaimEntry) :
  entry_ok e ->
  is_exclusive_resolution (resolution e)
  || existsb (fun claim => is_exclusive_access (claim_access claim)) (canonicalClaims e)
  = is_exclusive_resolution (resolution e).
Proof.
  intros He. destruct (existsb _ _) eqn:E; [|apply orb_false_r].
  apply existsb_true_iff in E as (c & Hc & Hx).
  rewrite (canonicalClaims_not_exclusive e c He Hc) in Hx. done.
Qed.

(** What a level's summary holds. *)
Lemma level_of_indices (es : list ResolvedClaimEntry) :
  indices (level_of es) = map sourceIndex es.
Proof.
  induction es as [|e es IH] using rev_ind; [done|].
  unfold level_of in *. rewrite foldl_app, map_app. simpl. unfold add_to_level at 1.
  destruct (_ || _); simpl; by rewrite IH.
Qed.

Lemma level_of_summary (es : list ResolvedClaimEntry) :
  Forall entry_ok es ->
  hasExclusive (level_of es) = existsb (fun e => is_exclusive_resolution (resolution e)) es /\
  (forall c, c ∈ writeClaims (level_of es) <->
             is_write_claim c = true /\ exists e, e ∈ es /\ c ∈ canonicalClaims e) /\
  (forall c, c ∈ readClaims (level_of es) <->
             is_write_claim c = false /\ exists e, e ∈ es /\ c ∈ canonicalClaims e).
Proof.
  induction es as [|e es IH] using rev_ind; intros Hok.
  { split; [done|]. split; intros c; simpl; set_solver. }
  rewrite Forall_app, Forall_singleton in Hok. destruct Hok as [Hes He].
  specialize (IH Hes) as (IHx & IHw & IHr).
  assert (Hsplit : forall c, (exists e', e' ∈ es ++ [e] /\ c ∈ canonicalClaims e') <->
                   (exists e', e' ∈ es /\ c ∈ canonicalClaims e') \/ c ∈ canonicalClaims e).
  { set_solver. }
  setoid_rewrite Hsplit. unfold level_of in *. rewrite foldl_app. simpl. unfold add_to_level at 1 3 5.
  rewrite (add_exclusive_iff e He). rewrite existsb_app. simpl. rewrite orb_false_r, <- IHx.
  destruct (is_exclusive_resolution (resolution e)) eqn:E; simpl.
  - split; [by rewrite orb_true_r|].
    assert (canonicalClaims e = []) as ->.
    { destruct He as [_ ->]. by destruct (resolution e). }
    setoid_rewrite IHw. setoid_rewrite IHr. set_solver.
  - split; [by rewrite orb_false_r|]. setoid_rewrite elem_of_app.
    setoid_rewrite IHw. setoid_rewrite IHr. setoid_rewrite elem_of_filter_list.
    setoid_rewrite negb_true_iff. split; tauto.
Qed.

Lemma claims_conflict_level_iff (cs : list ToolResourceClaim) (level : DagLevel) :
  Forall (fun c => is_exclusive_access (claim_access c) = false) cs ->
  (forall c, c ∈ readClaims level -> claim_access c = AccRead) ->
  claims_conflict_level cs level = true <->
  exists c d, c ∈ cs /\ (d ∈ writeClaims level \/ d ∈ readClaims level) /\ claimsConflict c d = true.
Proof.
  intros Hx Hr. induction Hx as [|c cs Hc Hcs IH]; simpl; [set_solver|].
  assert (Hany : forall ds, claimConflictsAny c ds = true <-> exists d, d ∈ ds /\ claimsConflict c d = true).
  { intros ds. unfold claimConflictsAny. by rewrite existsb_true_iff. }
  pose proof (Hany (writeClaims level)) as Hw. pose proof (Hany (readClaims level)) as Hrd.
  destruct (claim_access c) eqn:E; [| |done].
  - assert (Hno : forall d, d ∈ readClaims level -> claimsConflict c d = true -> False).
    { intros d Hd Hcd. rewrite claimsConflict_reads in Hcd by auto. done. }
    destruct (claimConflictsAny c (writeClaims level)) eqn:Ew.
    + split; [|done]. intros _. destruct (proj1 Hw eq_refl) as (d & ? & ?). exists c, d. set_solver.
    + rewrite IH. split; [set_solver|]. intros (c' & d & [->|Hc']%elem_of_cons & [Hd|Hd] & Hcd).
      * discriminate (proj2 Hw (ex_intro _ d (conj Hd Hcd))).
      * by exfalso; eapply Hno.
      * exists c', d. auto.
      * exists c', d. auto.
  - destruct (claimConflictsAny c (writeClaims level)) eqn:Ew.
    { split; [|done]. intros _. destruct (proj1 Hw eq_refl) as (d & ? & ?). exists c, d. set_solver. }
    destruct (claimConflictsAny c (readClaims level)) eqn:Er.
    { split; [|done]. intros _. destruct (proj1 Hrd eq_refl) as (d & ? & ?). exists c, d. set_solver. }
    rewrite IH. split; [set_solver|]. intros (c' & d & [->|Hc']%elem_of_cons & [Hd|Hd] & Hcd).
    + discriminate (proj2 Hw (ex_intro _ d (conj Hd Hcd))).
    + discriminate (proj2 Hrd (ex_intro _ d (conj Hd Hcd))).
    + exists c', d. auto.
    + exists c', d. auto.
Qed.

(** A level that holds calls is refused exactly to the calls that conflict
    with one of them. *)
Lemma resolutionConflictsLevel_level_of (r : ToolClaimResolution) (es : list ResolvedClaimEntry) :
  resolution_wf r -> Forall entry_ok es -> es <> [] ->
  resolutionConflictsLevel r (level_of es) = existsb (fun e => resolutionsConflict r (resolution e)) es.
Proof.
  intros Hr Hes Hne. destruct (level_of_summary es Hes) as (Hx & Hw & Hrd).
  unfold resolutionConflictsLevel. rewrite Hx. apply eq_true_iff_eq.
  destruct (existsb (fun e => is_exclusive_resolution (resolution e)) es) eqn:Ex.
  - split; [intros _|done]. apply existsb_true_iff in Ex as (e & He & Hex).
    apply existsb_true_iff. exists e. split; [done|]. destruct (resolution e); [|done].
    by destruct r.
  - destruct r as [|cs].
    { split; [intros _|done]. destruct es as [|e es]; [done|]. apply existsb_true_iff.
      exists e. split; [left|done]. }
    rewrite existsb_false_iff in Ex. simpl in Hr.
    rewrite claims_conflict_level_iff; [| |].
    + rewrite existsb_true_iff. setoid_rewrite Hw. setoid_rewrite Hrd.
      rewrite Forall_forall in Hes. split.
      * intros (c & d & Hc & Hd & Hcd).
        assert (exists e, e ∈ es /\ d ∈ canonicalClaims e) as (e & He & Hde) by tauto.
        exists e. split; [done|]. simpl. specialize (Ex e He).
        apply (canonicalClaims_elem e d (Hes e He)) in Hde as (ds & -> & Hde).
        apply existsb_true_iff. exists c. split; [done|]. apply existsb_true_iff. by exists d.
      * intros (e & He & Hc). specialize (Ex e He). destruct (resolution e) as [|ds] eqn:E; [done|].
        simpl in Hc. apply existsb_true_iff in Hc as (c & Hc & Hd).
        apply existsb_true_iff in Hd as (d & Hd & Hcd). exists c, d. split; [done|]. split; [|done].
        assert (d ∈ canonicalClaims e) by (apply canonicalClaims_elem; eauto).
        destruct (is_write_claim d) eqn:Ed; [left|right]; eauto.
    + eapply Forall_impl; [exact Hr|]. by intros c [_ ?].
    + intros c Hc. apply Hrd in Hc as (Hnw & e & He & Hce). rewrite Forall_forall in Hes.
      pose proof (canonicalClaims_not_exclusive e c (Hes e He) Hce).
      unfold is_write_claim in Hnw. by destruct (claim_access c).
Qed.

(** ** The scheduler computes the reference schedule *)

Section Levels.
Context {A : Type}.
Implicit Types placed : list (A * nat).

Definition at_level placed (k : nat) : list A :=
  map fst (List.filter (fun al => (snd al =? k)%nat) placed).

Definition height placed : nat := foldr (fun al m => Nat.max (S (snd al)) m) 0 placed.

Lemma elem_of_at_level placed (k : nat) (a : A) : a ∈ at_level placed k <-> (a, k) ∈ placed.
Proof.
  unfold at_level. rewrite list_elem_of_In, in_map_iff. setoid_rewrite <- list_elem_of_In.
  setoid_rewrite elem_of_filter_list. split.
  - intros ([b l] & <- & Hin & E). simpl in *. apply Nat.eqb_eq in E. by subst.
  - intros Hin. exists (a, k). simpl. by rewrite Nat.eqb_refl.
Qed.

Lemma at_level_snoc placed (a : A) (l k : nat) :
  at_level (placed ++ [(a, l)]) k = at_level placed k ++ if (l =? k)%nat then [a] else [].
Proof.
  unfold at_level. rewrite List.filter_app, map_app. simpl. by destruct (l =? k)%nat.
Qed.

Lemma height_snoc placed (a : A) (l : nat) :
  height (placed ++ [(a, l)]) = Nat.max (height placed) (S l).
Proof.
  unfold height. rewrite foldr_app. simpl.
  induction placed as [|[b m] placed IH]; simpl; [lia|]. rewrite IH. lia.
Qed.

Lemma height_lt placed (a : A) (l : nat) : (a, l) ∈ placed -> l < height placed.
Proof.
  induction placed as [|[b m] placed IH]; intros Hin; [by apply elem_of_nil in Hin|].
  simpl. apply elem_of_cons in Hin as [[= <- <-]|Hin]; [lia|]. specialize (IH Hin). lia.
Qed.
End Levels.

Lemma next_level_le_height {A} (conflict : A -> A -> bool) (placed : list (A * nat)) (x : A) :
  next_level conflict placed x <= height placed.
Proof.
  destruct (next_level conflict placed x) eqn:E; [lia|].
  apply next_level_attained in E as (a & Ha & _). by apply height_lt in Ha.
Qed.

(** No level below the height is empty. *)
Lemma number_levels_dense {A} (conflict : A -> A -> bool) (xs : list A) (k : nat) :
  k < height (number_levels conflict xs) -> at_level (number_levels conflict xs) k <> [].
Proof.
  induction xs as [|x xs IH] using rev_ind; [simpl; lia|].
  rewrite number_levels_snoc. unfold place_ref. rewrite height_snoc, at_level_snoc.
  pose proof (next_level_le_height conflict (number_levels conflict xs) x) as Hle.
  intros Hk Hnil. apply app_nil in Hnil as [Hnil Hif].
  destruct (decide (k < height (number_levels conflict xs))) as [Hlt|]; [by apply IH in Hlt|].
  rewrite (proj2 (Nat.eqb_eq _ k)) in Hif; [done|lia].
Qed.

(** The inner loop finds the least index above every conflicting level. *)
Lemma find_target_spec (r : ToolClaimResolution) (ls : list DagLevel) (i t : nat) :
  t <= i ->
  let m := find_target r ls i t in
  (forall k L, ls !! k = Some L -> resolutionConflictsLevel r L = true -> S (i + k) <= m) /\
  t <= m /\
  (m = t \/ exists k L, ls !! k = Some L /\ resolutionConflictsLevel r L = true /\ m = S (i + k)).
Proof.
  revert i t; induction ls as [|L ls IH]; intros i t Hti; simpl; [split; [done|]; auto|].
  specialize (IH (S i) (if resolutionConflictsLevel r L then S i else t)).
  destruct IH as (Hub & Hge & Hatt); [case_match; lia|]. split_and!.
  - intros [|k] L' HL Hc; simpl in HL.
    + injection HL as ->. rewrite Hc in *. lia.
    + specialize (Hub k L' HL Hc). lia.
  - case_match; lia.
  - destruct Hatt as [Hm|(k & L' & HL & Hc & Hm)].
    + destruct (resolutionConflictsLevel r L) eqn:E; [right|by left].
      exists 0, L. rewrite Hm. split_and!; [done|done|lia].
    + right. exists (S k), L'. split_and!; [done|done|lia].
Qed.

Definition level_view (placed : list (ResolvedClaimEntry * nat)) : list DagLevel :=
  map (fun k => level_of (at_level placed k)) (seq 0 (height placed)).

Lemma level_view_lookup (placed : list (ResolvedClaimEntry * nat)) (k : nat) (L : DagLevel) :
  level_view placed !! k = Some L <-> k < height placed /\ L = level_of (at_level placed k).
Proof.
  unfold level_view. rewrite list_lookup_fmap.
  destruct (decide (k < height placed)) as [Hlt|Hge].
  - rewrite lookup_seq_lt by done. simpl. naive_solver.
  - rewrite lookup_seq_ge by lia. simpl. naive_solver.
Qed.

Lemma find_target_next (placed : list (ResolvedClaimEntry * nat)) (e : ResolvedClaimEntry) :
  Forall entry_ok (map fst placed) -> entry_ok e ->
  (forall k, k < height placed -> at_level placed k <> []) ->
  find_target (resolution e) (level_view placed) 0 0 = next_level entry_conflict placed e.
Proof.
  intros Hok He Hdense.
  assert (Hlevel : forall k, k < height placed ->
    resolutionConflictsLevel (resolution e) (level_of (at_level placed k)) = true <->
    exists a, (a, k) ∈ placed /\ entry_conflict e a = true).
  { intros k Hk. rewrite resolutionConflictsLevel_level_of; [|apply He| |by apply Hdense].
    - rewrite existsb_true_iff. by setoid_rewrite elem_of_at_level.
    - apply Forall_forall. intros a Ha. apply elem_of_at_level in Ha. rewrite Forall_forall in Hok.
      apply Hok. change a with (fst (a, k)). by apply list_elem_of_fmap_2. }
  destruct (find_target_spec (resolution e) (level_view placed) 0 0) as (Hub & _ & Hatt); [done|].
  simpl in *. apply Nat.le_antisymm.
  - destruct Hatt as [->|(k & L & HL & Hc & ->)]; [lia|].
    apply level_view_lookup in HL as [Hk ->]. apply Hlevel in Hc as (a & Ha & Hc); [|done].
    by eapply next_level_lt.
  - destruct (next_level entry_conflict placed e) as [|l] eqn:E; [lia|].
    apply next_level_attained in E as (a & Ha & Hc). pose proof (height_lt _ _ _ Ha) as Hl.
    apply (Hub l (level_of (at_level placed l))); [by apply level_view_lookup|].
    apply Hlevel; eauto.
Qed.

Lemma level_view_insert (placed : list (ResolvedClaimEntry * nat)) (e : ResolvedClaimEntry) (l : nat) :
  l <= height placed ->
  match level_view placed !! l with
  | Some target => <[l := add_to_level e target]> (level_view placed)
  | None => level_view placed ++ [add_to_level e empty_level]
  end = level_view (placed ++ [(e, l)]).
Proof.
  intros Hl. apply list_eq. intros k. apply option_eq. intros L.
  assert (Hlen : length (level_view placed) = height placed).
  { unfold level_view. by rewrite length_map, length_seq. }
  assert (Hadd : level_of (at_level placed l ++ [e]) = add_to_level e (level_of (at_level placed l))).
  { unfold level_of. by rewrite foldl_app. }
  rewrite level_view_lookup, height_snoc, at_level_snoc.
  destruct (level_view placed !! l) as [target|] eqn:E.
  - apply level_view_lookup in E as [Hlt ->]. rewrite Nat.max_l by lia.
    rewrite list_lookup_insert_Some, level_view_lookup, Hlen.
    destruct (Nat.eqb_spec l k) as [->|Hne].
    + rewrite Hadd. naive_solver.
    + rewrite app_nil_r. naive_solver.
  - apply lookup_ge_None in E. assert (l = height placed) as -> by lia. rewrite Nat.max_r by lia.
    rewrite lookup_app_Some, level_view_lookup, Hlen.
    assert (Hnil : at_level placed (height placed) = []).
    { destruct (at_level placed (height placed)) as [|a ?] eqn:E'; [done|].
      assert (Ha : a ∈ at_level placed (height placed)) by (rewrite E'; left).
      apply elem_of_at_level, height_lt in Ha. lia. }
    destruct (Nat.eqb_spec (height placed) k) as [<-|Hne].
    + rewrite Hadd, Hnil, Nat.sub_diag. simpl. unfold level_of. simpl. split.
      * intros [[? _]|[_ [= <-]]]; [lia|]. split; [lia|done].
      * intros [_ ->]. by right.
    + rewrite app_nil_r. split.
      * intros [[? ->]|[? H]]; [split; [lia|done]|].
        destruct (k - height placed) eqn:?; [lia|done].
      * intros [? ->]. left. split; [lia|done].
Qed.

Lemma place_entries (es : list ResolvedClaimEntry) :
  Forall entry_ok es -> foldl place_entry [] es = level_view (number_levels entry_conflict es).
Proof.
  induction es as [|e es IH] using rev_ind; intros Hok; [done|].
  rewrite Forall_app, Forall_singleton in Hok. destruct Hok as [Hes He].
  rewrite foldl_app, (IH Hes), number_levels_snoc. simpl. unfold place_entry, place_ref.
  rewrite find_target_next; [|by rewrite number_levels_fst|done|apply number_levels_dense].
  apply level_view_insert, next_level_le_height.
Qed.

(** ** Shape of the computed levels *)

(** The entries' source indices are their positions. *)
Definition indexed (es : list ResolvedClaimEntry) : Prop :=
  map sourceIndex es = seq 0 (length es).

Lemma resolveBatchClaims_length (calls : list ClaimableToolCall) (options : ResolveToolClaimsOptions) :
  length (resolveBatchClaims calls options) = length calls.
Proof. apply length_imap. Qed.

Lemma resolveBatchClaims_lookup (calls : list ClaimableToolCall) (options : ResolveToolClaimsOptions)
    (i : nat) (e : ResolvedClaimEntry) :
  resolveBatchClaims calls options !! i = Some e ->
  exists c, calls !! i = Some c /\ e = resolve_entry options i c.
Proof.
  unfold resolveBatchClaims. rewrite list_lookup_imap. intros H.
  apply fmap_Some in H as (c & ? & ->). eauto.
Qed.

Lemma resolveBatchClaims_indexed (calls : list ClaimableToolCall) (options : ResolveToolClaimsOptions) :
  indexed (resolveBatchClaims calls options).
Proof.
  unfold indexed. apply list_eq. intros i. rewrite list_lookup_fmap, resolveBatchClaims_length.
  destruct (decide (i < length calls)) as [Hlt|Hge].
  - rewrite lookup_seq_lt by done. unfold resolveBatchClaims. rewrite list_lookup_imap.
    destruct (lookup_lt_is_Some_2 _ _ Hlt) as [c ->]. done.
  - rewrite lookup_seq_ge by lia. rewrite lookup_ge_None_2; [done|].
    rewrite resolveBatchClaims_length. lia.
Qed.

Lemma assignDagLevels_lookup (es : list ResolvedClaimEntry) (k : nat) (level : list nat) :
  Forall entry_ok es ->
  assignDagLevels es !! k = Some level <->
  k < height (number_levels entry_conflict es) /\
  level = map sourceIndex (at_level (number_levels entry_conflict es) k).
Proof.
  intros Hok. unfold assignDagLevels. rewrite place_entries by done.
  rewrite list_lookup_fmap, fmap_Some. setoid_rewrite level_view_lookup.
  split.
  - intros (L & [Hk ->] & ->). by rewrite level_of_indices.
  - intros [Hk ->]. eexists. split; [by split|]. by rewrite level_of_indices.
Qed.

(** The level of a source index, read off the reference numbering. *)
Lemma elem_of_assigned (es : list ResolvedClaimEntry) (k : nat) (level : list nat) (i : nat) :
  Forall entry_ok es -> indexed es -> assignDagLevels es !! k = Some level -> i ∈ level ->
  exists e, number_levels entry_conflict es !! i = Some (e, k).
Proof.
  intros Hok Hidx Hk Hi. apply assignDagLevels_lookup in Hk as [_ ->]; [|done].
  apply list_elem_of_fmap in Hi as (e & -> & He). apply elem_of_at_level in He.
  apply list_elem_of_lookup in He as [j Hj]. exists e. enough (sourceIndex e = j) as -> by done.
  assert (He : es !! j = Some e).
  { rewrite <- (number_levels_fst entry_conflict es), list_lookup_fmap, Hj. done. }
  assert (Hs : map sourceIndex es !! j = Some (sourceIndex e)) by (rewrite list_lookup_fmap, He; done).
  rewrite Hidx in Hs. apply lookup_seq in Hs as [-> _]. lia.
Qed.

Lemma assigned_lt (es : list ResolvedClaimEntry) (i j k l : nat) (la lb : list nat)
    (ei ej : ResolvedClaimEntry) :
  Forall entry_ok es -> indexed es ->
  assignDagLevels es !! k = Some la -> i ∈ la -> assignDagLevels es !! l = Some lb -> j ∈ lb ->
  es !! i = Some ei -> es !! j = Some ej -> i < j -> entry_conflict ej ei = true -> k < l.
Proof.
  intros Hok Hidx Hk Hi Hl Hj Hei Hej Hij Hc.
  apply (elem_of_assigned es k la i) in Hi as [ei' Hi]; [|done..].
  apply (elem_of_assigned es l lb j) in Hj as [ej' Hj]; [|done..].
  assert (ei' = ei) as ->.
  { rewrite <- (number_levels_fst entry_conflict es), list_lookup_fmap, Hi in Hei. by simplify_eq/=. }
  assert (ej' = ej) as ->.
  { rewrite <- (number_levels_fst entry_conflict es), list_lookup_fmap, Hj in Hej. by simplify_eq/=. }
  by eapply number_levels_conflict.
Qed.

Lemma concat_map_app {A B} (f g : A -> list B) (l : list A) :
  concat (map (fun x => f x ++ g x) l) ≡ₚ concat (map f l) ++ concat (map g l).
Proof.
  induction l as [|x l IH]; simpl; [done|]. rewrite IH, <- !app_assoc.
  apply Permutation_app_head. rewrite !app_assoc. apply Permutation_app_tail, Permutation_app_comm.
Qed.

Lemma concat_single {A} (a : A) (l n : nat) :
  concat (map (fun k => if (l =? k)%nat then [a] else []) (seq 0 n)) = if l <? n then [a] else [].
Proof.
  induction n as [|n IH]; [done|]. rewrite seq_S, map_app, concat_app, IH. simpl.
  destruct (Nat.ltb_spec l n), (Nat.ltb_spec l (S n)), (Nat.eqb_spec l n); simpl; done || lia.
Qed.

Lemma at_levels_perm {A} (placed : list (A * nat)) (n : nat) :
  height placed <= n -> concat (map (at_level placed) (seq 0 n)) ≡ₚ map fst placed.
Proof.
  induction placed as [|[a l] placed IH] using rev_ind; intros Hn.
  { simpl. induction (seq 0 n); simpl; done. }
  rewrite height_snoc in Hn. rewrite (map_ext _ _ (at_level_snoc placed a l)), concat_map_app.
  rewrite concat_single, (proj2 (Nat.ltb_lt _ _)), IH, map_app by lia. done.
Qed.

Lemma StronglySorted_at_level (es : list ResolvedClaimEntry) (placed : list (ResolvedClaimEntry * nat))
    (k : nat) :
  StronglySorted lt (map sourceIndex (map fst placed)) ->
  StronglySorted lt (map sourceIndex (at_level placed k)).
Proof.
  unfold at_level. induction placed as [|[a l] placed IH]; simpl; intros Hs; [constructor|].
  apply StronglySorted_inv in Hs as [Hs Hf]. specialize (IH Hs).
  destruct (l =? k)%nat; [|done]. simpl. constructor; [done|].
  rewrite Forall_forall in *. intros x (e & -> & He)%list_elem_of_fmap. apply Hf.
  apply list_elem_of_fmap in He as ([b m] & -> & Hb). apply elem_of_filter_list in Hb as [Hb _].
  do 2 apply list_elem_of_fmap_2. exact Hb.
Qed.

Lemma StronglySorted_seq (i n : nat) : StronglySorted lt (seq i n).
Proof.
  revert i; induction n as [|n IH]; intros i; simpl; constructor; [apply IH|].
  apply Forall_forall. intros x [Hx _]%elem_of_seq. lia.
Qed.

Definition level_shape (level : list nat) : Prop := level <> [] /\ StronglySorted lt level.

Lemma assignDagLevels_shape (es : list ResolvedClaimEntry) :
  Forall entry_ok es -> indexed es ->
  concat (assignDagLevels es) ≡ₚ seq 0 (length es) /\ Forall level_shape (assignDagLevels es).
Proof.
  intros Hok Hidx. split.
  - unfold assignDagLevels. rewrite place_entries by done. unfold level_view. rewrite map_map.
    rewrite (map_ext _ (fun k => map sourceIndex (at_level (number_levels entry_conflict es) k)))
      by (intros; apply level_of_indices).
    rewrite <- (map_map (at_level _) (map sourceIndex)), <- concat_map, at_levels_perm by done.
    by rewrite number_levels_fst, Hidx.
  - apply Forall_lookup_2. intros k level Hk. apply assignDagLevels_lookup in Hk as [Hk ->]; [|done].
    split.
    + intros Hnil. apply map_eq_nil in Hnil. by apply number_levels_dense in Hk.
    + apply (StronglySorted_at_level es). rewrite number_levels_fst, Hidx. apply StronglySorted_seq.
Qed.

(** ** The width cap *)

Lemma integer_cap_pos (q : Q) : 1 <= integer_cap q.
Proof. unfold integer_cap. lia. Qed.

Lemma chunk_loop_spec (fuel cap : nat) (level : list nat) :
  1 <= cap -> length level <= fuel ->
  concat (chunk_loop fuel cap level) = level /\
  Forall (fun chunk => chunk <> [] /\ length chunk <= cap) (chunk_loop fuel cap level).
Proof.
  revert level; induction fuel as [|fuel IH]; intros [|i level] Hcap Hlen; simpl in *;
    try lia; try (split; [done|constructor]).
  destruct cap as [|cap]; [lia|].
  destruct (IH (drop (S cap) (i :: level)) Hcap) as [Hc Hf].
  { rewrite length_drop. simpl. lia. }
  split.
  - rewrite Hc, (take_drop (S cap) (i :: level)). done.
  - constructor; [|done]. rewrite length_take. simpl. split; [done|lia].
Qed.

Lemma chunk_level_spec (cap : nat) (level : list nat) :
  1 <= cap -> level <> [] ->
  concat (chunk_level cap level) = level /\
  Forall (fun chunk => chunk <> [] /\ length chunk <= cap) (chunk_level cap level).
Proof.
  intros Hcap Hne. unfold chunk_level. destruct (Nat.leb_spec (length level) cap).
  - simpl. rewrite app_nil_r. split; [done|]. by repeat constructor.
  - by apply chunk_loop_spec.
Qed.

(** Every level of a capped schedule is a piece of one level of the original,
    and pieces keep the levels' order. *)
Definition refines_levels (fine coarse : list (list nat)) : Prop :=
  concat fine = concat coarse /\
  (forall a la, fine !! a = Some la -> la <> [] /\
     exists k L pre post, coarse !! k = Some L /\ L = pre ++ la ++ post) /\
  (forall a b la lb, fine !! a = Some la -> fine !! b = Some lb -> a <= b ->
     exists k l L M, k <= l /\ coarse !! k = Some L /\ la ⊆ L /\ coarse !! l = Some M /\ lb ⊆ M).

Lemma elem_of_concat_piece (ls : list (list nat)) (a : nat) (la : list nat) :
  ls !! a = Some la -> exists pre post, concat ls = pre ++ la ++ post.
Proof.
  revert a; induction ls as [|l ls IH]; intros [|a] H; simplify_eq/=.
  - exists [], (concat ls). done.
  - destruct (IH a H) as (pre & post & ->). exists (l ++ pre), post. by rewrite app_assoc.
Qed.

Lemma refines_chunks (f : list nat -> list (list nat)) (coarse : list (list nat)) :
  (forall L, L ∈ coarse -> concat (f L) = L /\ Forall (fun chunk => chunk <> []) (f L)) ->
  refines_levels (concat (map f coarse)) coarse.
Proof.
  induction coarse as [|L coarse IH]; intros Hf.
  { split; [done|]. split; intros a; [intros la H|intros b la lb H]; done. }
  destruct IH as (Hc & Hp & Ho); [intros; apply Hf; by right|].
  destruct (Hf L) as [HL HfL]; [left|]. rewrite Forall_forall in HfL.
  assert (Hin : forall a la, f L !! a = Some la -> la ⊆ L).
  { intros a la Ha. destruct (elem_of_concat_piece _ _ _ Ha) as (pre & post & E).
    rewrite HL in E. rewrite E. set_solver. }
  split; [simpl; by rewrite concat_app, HL, Hc|]. split.
  - intros a la Ha. simpl in Ha. apply lookup_app_Some in Ha as [Ha|[_ Ha]].
    + split; [by eapply HfL, list_elem_of_lookup_2|].
      destruct (elem_of_concat_piece _ _ _ Ha) as (pre & post & E). rewrite HL in E.
      by exists 0, L, pre, post.
    + destruct (Hp _ _ Ha) as [? (k & M & pre & post & ? & ?)]. split; [done|].
      by exists (S k), M, pre, post.
  - intros a b la lb Ha Hb Hab. simpl in Ha, Hb.
    apply lookup_app_Some in Ha as [Ha|[Hla Ha]], Hb as [Hb|[Hlb Hb]].
    + exists 0, 0, L, L. split_and!; eauto.
    + destruct (Ho _ _ _ _ Hb Hb) as (k & l & M & N & _ & _ & _ & ? & ?); [done|].
      exists 0, (S l), L, N. split_and!; eauto. lia.
    + apply lookup_lt_Some in Hb. lia.
    + destruct (Ho _ _ _ _ Ha Hb) as (k & l & M & N & ? & ? & ? & ? & ?); [lia|].
      exists (S k), (S l), M, N. split_and!; eauto. lia.
Qed.

Lemma refines_levels_refl (ls : list (list nat)) :
  Forall level_shape ls -> refines_levels ls ls.
Proof.
  intros Hs. pose proof (refines_chunks (fun l => [l]) ls) as H.
  assert (E : concat (map (fun l => [l]) ls) = ls).
  { clear. induction ls as [|l ls IH]; simpl; [done|]. by rewrite IH. }
  rewrite E in H. apply H. intros L HL. simpl. rewrite app_nil_r. split; [done|].
  rewrite Forall_forall in Hs. repeat constructor. by apply Hs.
Qed.

Lemma applyConcurrencyCap_refines (ls : list (list nat)) (cap : option jsnum) :
  Forall level_shape ls -> refines_levels (applyConcurrencyCap ls cap) ls.
Proof.
  intros Hs. unfold applyConcurrencyCap.
  destruct cap as [[| |q]|]; try by apply refines_levels_refl.
  destruct (Qle_bool q 0); [by apply refines_levels_refl|].
  apply refines_chunks. intros L HL. rewrite Forall_forall in Hs.
  destruct (chunk_level_spec (integer_cap q) L (integer_cap_pos q)) as [H1 H2]; [by apply Hs|].
  split; [done|]. eapply Forall_impl; [exact H2|]. by intros ? [? _].
Qed.

Lemma level_shape_piece (L pre la post : list nat) :
  level_shape L -> L = pre ++ la ++ post -> la <> [] -> level_shape la.
Proof.
  intros [_ Hs] -> Hne. split; [done|].
  apply StronglySorted_app_1_r, StronglySorted_app_1_l in Hs. done.
Qed.

(** ** The plan key is an unambiguous encoding *)

(** What the key is meant to determine: exclusive, or the canonical claims. *)
Definition claim_view (e : ResolvedClaimEntry) : option (list ToolResourceClaim) :=
  match resolution e with
  | Exclusive => None
  | Claims _ => Some (canonicalClaims e)
  end.

Lemma json_prop_inj (k v w p q : string) :
  (json_prop k v ++ p)%string = (json_prop k w ++ q)%string -> v = w /\ p = q.
Proof.
  unfold json_prop. rewrite !app_assoc_str. intros H. do 2 apply app_inj_l_str in H.
  by apply json_string_inj in H.
Qed.

(** A property of one name is never read as another one's. *)
Lemma json_opt_prop_inj (k : string) (v w : option string) (p q : string) :
  (forall s t, p <> ("," ++ json_prop k s ++ t)%string) ->
  (forall s t, q <> ("," ++ json_prop k s ++ t)%string) ->
  (json_opt_prop k v ++ p)%string = (json_opt_prop k w ++ q)%string -> v = w /\ p = q.
Proof.
  intros Hp Hq. destruct v as [v|], w as [w|]; cbn [json_opt_prop]; intros H.
  - change ((("," ++ json_prop k v) ++ p) = (("," ++ json_prop k w) ++ q))%string in H.
    rewrite !app_assoc_str in H. apply app_inj_l_str, json_prop_inj in H as [-> ->]. done.
  - exfalso. eapply Hq. symmetry. exact H.
  - exfalso. eapply Hp. exact H.
  - done.
Qed.

Lemma json_claim_inj (c d : ToolResourceClaim) (p q : string) :
  (json_claim c ++ p)%string = (json_claim d ++ q)%string -> c = d /\ p = q.
Proof.
  unfold json_claim. rewrite !app_assoc_str. intros H. apply app_inj_l_str in H.
  apply json_prop_inj in H as [Hkind H]. apply app_inj_l_str in H.
  apply json_prop_inj in H as [Hkey H]. apply app_inj_l_str in H.
  apply json_prop_inj in H as [Hacc H]. apply access_str_inj in Hacc.
  apply json_opt_prop_inj in H as [Hr H].
  2,3: intros s t; match goal with
       | |- context [json_opt_prop _ ?o] => destruct o; simpl; unfold json_prop; simpl; congruence
       end.
  apply json_opt_prop_inj in H as [Hi H]; [|done|done].
  simpl in H. injection H as H. split; [|done].
  destruct c as [k1 a1 r1 i1|o1 k1 a1], d as [k2 a2 r2 i2|o2 k2 a2]; simpl in *.
  - apply widen_inj in Hacc. congruence.
  - by destruct o2.
  - by destruct o1.
  - assert (o1 = o2) as -> by (destruct o1, o2; done). congruence.
Qed.

Lemma json_claims_inj (cs ds : list ToolResourceClaim) (p q : string) :
  (json_claims cs ++ p)%string = (json_claims ds ++ q)%string -> cs = ds /\ p = q.
Proof.
  unfold json_claims. rewrite !app_assoc_str. intros H. apply app_inj_l_str in H.
  revert ds H. induction cs as [|c cs IH]; intros [|d ds] H.
  - simpl in H. by injection H.
  - destruct ds; simpl in H; unfold json_claim in H; simpl in H; discriminate.
  - destruct cs; simpl in H; unfold json_claim in H; simpl in H; discriminate.
  - destruct cs as [|c' cs], ds as [|d' ds]; cbn [map join] in H; rewrite ?app_assoc_str in H;
      apply json_claim_inj in H as [-> H].
    + simpl in H. by injection H.
    + simpl in H. discriminate.
    + simpl in H. discriminate.
    + apply app_inj_l_str in H. destruct (IH (d' :: ds) H) as [-> ->]. done.
Qed.

Lemma plan_key_part_inj (e f : ResolvedClaimEntry) (p q : string) :
  (plan_key_part e ++ p)%string = (plan_key_part f ++ q)%string ->
  claim_view e = claim_view f /\ p = q.
Proof.
  unfold plan_key_part, claim_view.
  destruct (resolution e), (resolution f); intros H; try discriminate.
  - by injection H.
  - rewrite !app_assoc_str in H. apply app_inj_l_str in H.
    apply json_claims_inj in H as [-> H]. by injection H.
Qed.

Lemma computePlanKey_foldl (es : list ResolvedClaimEntry) (k : string) :
  foldl (fun key entry => (key ++ plan_key_part entry)%string) k es
  = (k ++ join EmptyString (map plan_key_part es))%string.
Proof.
  revert k; induction es as [|e es IH]; intros k; simpl; [by rewrite app_nil_str|].
  rewrite IH, app_assoc_str. f_equal. destruct (map plan_key_part es); simpl; [by rewrite app_nil_str|done].
Qed.

Lemma plan_key_part_nonempty (e : ResolvedClaimEntry) (s : string) :
  (plan_key_part e ++ s)%string <> EmptyString.
Proof. unfold plan_key_part. by destruct (resolution e). Qed.

Lemma plan_key_part_view (e f : ResolvedClaimEntry) :
  claim_view e = claim_view f -> plan_key_part e = plan_key_part f.
Proof.
  unfold claim_view, plan_key_part. destruct (resolution e), (resolution f); congruence.
Qed.

Lemma join_key_cons (p : string) (ps : list string) :
  join EmptyString (p :: ps) = (p ++ join EmptyString ps)%string.
Proof. destruct ps; simpl; [by rewrite app_nil_str|done]. Qed.

(** Two entries whose resolutions are permutations of each other. *)
Definition resolution_perm (r s : ToolClaimResolution) : Prop :=
  match r, s with
  | Exclusive, Exclusive => True
  | Claims l, Claims m => l ≡ₚ m
  | _, _ => False
  end.

Lemma canonicalizeClaims_perm (l m : list ToolResourceClaim) :
  resolution_wf (Claims l) -> l ≡ₚ m -> canonicalizeClaims l = canonicalizeClaims m.
Proof.
  intros Hwf Hp. apply (stable_sort_perm_eq compareClaims compareClaims_antisym compareClaims_trans);
    [|done].
  simpl in Hwf. rewrite Forall_forall in Hwf. intros x y Hx Hy.
  apply compareClaims_eq; by apply Hwf.
Qed.

Lemma claim_view_perm (e f : ResolvedClaimEntry) :
  entry_ok e -> entry_ok f -> resolution_perm (resolution e) (resolution f) ->
  claim_view e = claim_view f.
Proof.
  intros [Hwf He] [_ Hf]. unfold claim_view. rewrite He, Hf.
  destruct (resolution e), (resolution f); simpl; try done.
  intros Hp. f_equal. by apply canonicalizeClaims_perm.
Qed.

Lemma existsb_perm {A} (f : A -> bool) (l m : list A) : l ≡ₚ m -> existsb f l = existsb f m.
Proof.
  intros Hp. apply eq_true_iff_eq. rewrite !existsb_true_iff. by setoid_rewrite Hp.
Qed.

Lemma resolutionsConflict_perm (r r' s s' : ToolClaimResolution) :
  resolution_perm r r' -> resolution_perm s s' -> resolutionsConflict r s = resolutionsConflict r' s'.
Proof.
  destruct r, r', s, s'; simpl; try done. intros Hr Hs. rewrite (existsb_perm _ _ _ Hr).
  apply existsb_ext_in. intros c _. by apply existsb_perm.
Qed.

Definition entry_perm (e f : ResolvedClaimEntry) : Prop :=
  sourceIndex e = sourceIndex f /\ resolution_perm (resolution e) (resolution f).

(** The numbering depends on the conflicts only. *)
Lemma number_levels_ext {A} (conflict : A -> A -> bool) (R : A -> A -> Prop) (xs ys : list A) :
  (forall a a' b b', R a a' -> R b b' -> conflict a b = conflict a' b') ->
  Forall2 R xs ys ->
  Forall2 (fun al bl => R (fst al) (fst bl) /\ snd al = snd bl)
    (number_levels conflict xs) (number_levels conflict ys).
Proof.
  intros HR. revert ys. induction xs as [|x xs IH] using rev_ind; intros ys Hxy.
  { apply Forall2_nil_inv_l in Hxy as ->. constructor. }
  apply Forall2_app_inv_l in Hxy as (ys' & [|y [|]] & Hxy & Hy & ->); inversion_clear Hy; [|by inversion_clear H0].
  specialize (IH ys' Hxy). rewrite !number_levels_snoc. unfold place_ref.
  apply Forall2_app; [done|]. repeat constructor; [done|]. simpl. clear -IH HR H.
  induction IH as [|[a k] [b l] placed placed' [HRab Hkl] _ IH]; simpl in *; [done|].
  by rewrite (HR x y a b), IH, Hkl by done.
Qed.

Lemma at_level_ext (placed placed' : list (ResolvedClaimEntry * nat)) (R : ResolvedClaimEntry -> ResolvedClaimEntry -> Prop) :
  (forall e f, R e f -> sourceIndex e = sourceIndex f) ->
  Forall2 (fun al bl => R (fst al) (fst bl) /\ snd al = snd bl) placed placed' ->
  height placed = height placed' /\
  forall k, map sourceIndex (at_level placed k) = map sourceIndex (at_level placed' k).
Proof.
  intros HR H. induction H as [|[e k] [f l] placed placed' [HRef Hkl] _ [IHh IHl]]; [done|].
  simpl in HRef, Hkl. subst l. split; [simpl; by rewrite IHh|]. intros m. unfold at_level in *. simpl.
  destruct (k =? m)%nat; simpl; [by rewrite (HR e f HRef), IHl|apply IHl].
Qed.

Lemma assignDagLevels_perm (es fs : list ResolvedClaimEntry) :
  Forall entry_ok es -> Forall entry_ok fs ->
  Forall2 entry_perm es fs ->
  assignDagLevels es = assignDagLevels fs.
Proof.
  intros Hes Hfs HR.
  eapply (number_levels_ext entry_conflict entry_perm) in HR as Hn;
    [|intros a a' b b' [_ Ha] [_ Hb]; by apply resolutionsConflict_perm].
  apply (at_level_ext _ _ entry_perm) in Hn as [Hh Hl]; [|by intros e f [? _]].
  unfold assignDagLevels. rewrite !place_entries by done. unfold level_view. rewrite Hh, !map_map.
  apply map_ext. intros k. rewrite !level_of_indices. apply Hl.
Qed.

Lemma resolveBatchClaims_perm (calls calls' : list ClaimableToolCall)
    (options options' : ResolveToolClaimsOptions) :
  Forall2 (fun c c' => resolution_perm (resolveToolClaimsForCall c options)
                                       (resolveToolClaimsForCall c' options')) calls calls' ->
  Forall2 entry_perm
    (resolveBatchClaims calls options) (resolveBatchClaims calls' options').
Proof.
  intros H. apply Forall2_same_length_lookup_2.
  { rewrite !resolveBatchClaims_length. by eapply Forall2_length. }
  intros i e f He Hf. apply resolveBatchClaims_lookup in He as (c & Hc & ->), Hf as (c' & Hc' & ->).
  split; [done|]. eapply (Forall2_lookup_lr _ _ _ _ _ _ H Hc Hc').
Qed.

(** What other components need of a schedule. *)
Lemma scheduled_levels (calls : list ClaimableToolCall) (o : ScheduleDagLevelsOptions) :
  concat (levels (scheduleDagLevels calls o)) ≡ₚ seq 0 (length calls) /\
  Forall level_shape (levels (scheduleDagLevels calls o)).
Proof.
  pose proof (resolveBatchClaims_ok calls (claim_options o)) as Hok.
  pose proof (resolveBatchClaims_indexed calls (claim_options o)) as Hidx.
  destruct (assignDagLevels_shape _ Hok Hidx) as [Hp Hs]. rewrite resolveBatchClaims_length in Hp.
  destruct (applyConcurrencyCap_refines _ (maxConcurrency o) Hs) as (Hc & Hpiece & _).
  simpl. rewrite Hc. split; [done|]. apply Forall_lookup_2. intros a la Ha.
  destruct (Hpiece a la Ha) as [Hne (k & L & pre & post & HL & ->)].
  eapply level_shape_piece; [|done|done]. by eapply Forall_lookup_1.
Qed.

(** ** Properties *)

(** A schedule runs every call of the batch exactly once: its levels
    are non-empty, list their source indices in increasing order, and together
    hold each index of the batch once, whatever the tools, the extension
    callbacks and the width cap are. *)
Theorem scheduleDagLevels_partition (calls : list ClaimableToolCall) (o : ScheduleDagLevelsOptions) :
  concat (levels (scheduleDagLevels calls o)) ≡ₚ seq 0 (length calls) /\
  Forall level_shape (levels (scheduleDagLevels calls o)).
Proof. apply scheduled_levels. Qed.

(** C1: when an earlier call [i] and a later call [j] of the batch have
    conflicting resource claims, [i]'s level runs strictly before [j]'s: two
    conflicting calls never share a level, nor a chunk of a capped level, and
    source order is kept between them. *)
Theorem scheduleDagLevels_orders_conflicts (calls : list ClaimableToolCall)
    (o : ScheduleDagLevelsOptions) (i j a b : nat) (ci cj : ClaimableToolCall) (la lb : list nat) :
  calls !! i = Some ci -> calls !! j = Some cj -> i < j ->
  resolutionsConflict (resolveToolClaimsForCall ci (claim_options o))
                      (resolveToolClaimsForCall cj (claim_options o)) = true ->
  levels (scheduleDagLevels calls o) !! a = Some la -> i ∈ la ->
  levels (scheduleDagLevels calls o) !! b = Some lb -> j ∈ lb ->
  a < b.
Proof.
  intros Hi Hj Hij Hc Ha Hia Hb Hjb.
  pose proof (resolveBatchClaims_ok calls (claim_options o)) as Hok.
  pose proof (resolveBatchClaims_indexed calls (claim_options o)) as Hidx.
  destruct (assignDagLevels_shape _ Hok Hidx) as [_ Hs].
  destruct (applyConcurrencyCap_refines _ (maxConcurrency o) Hs) as (_ & _ & Hord).
  apply Nat.nle_gt. intros Hba. destruct (Hord _ _ _ _ Hb Ha Hba) as (k & l & L & M & Hkl & HL & HlbL & HM & HlaM).
  enough (l < k) by lia.
  apply (assigned_lt _ i j l k M L (resolve_entry (claim_options o) i ci)
           (resolve_entry (claim_options o) j cj) Hok Hidx HM (HlaM i Hia) HL (HlbL j Hjb));
    [| |done|].
  - unfold resolveBatchClaims. by rewrite list_lookup_imap, Hi.
  - unfold resolveBatchClaims. by rewrite list_lookup_imap, Hj.
  - unfold entry_conflict. by rewrite resolutionsConflict_sym.
Qed.

(** Without a width cap the schedule is as parallel as the claims
    allow: any assignment [f] of levels that puts conflicting calls on strictly
    increasing levels puts every call at least as high as the scheduler does. *)
Theorem scheduleDagLevels_least (calls : list ClaimableToolCall) (options : ResolveToolClaimsOptions)
    (f : nat -> nat) (i k : nat) (level : list nat) :
  (forall i j ci cj, i < j -> calls !! i = Some ci -> calls !! j = Some cj ->
     resolutionsConflict (resolveToolClaimsForCall ci options)
                         (resolveToolClaimsForCall cj options) = true -> f i < f j) ->
  levels (scheduleDagLevels calls {| claim_options := options; maxConcurrency := None |}) !! k
    = Some level ->
  i ∈ level -> k <= f i.
Proof.
  intros Hf Hk Hi. pose proof (resolveBatchClaims_ok calls options) as Hok.
  pose proof (resolveBatchClaims_indexed calls options) as Hidx. simpl in Hk.
  apply (elem_of_assigned _ k level i Hok Hidx Hk) in Hi as [e He].
  eapply (number_levels_least entry_conflict); [|exact He].
  intros i' j' a b Hij Ha Hb Hc.
  apply resolveBatchClaims_lookup in Ha as (ca & Hca & ->), Hb as (cb & Hcb & ->).
  apply (Hf i' j' ca cb); [done..|]. by rewrite resolutionsConflict_sym.
Qed.

(** A positive finite width cap [q] bounds every level's width by
    [max(1, floor q)], adds no empty level, and leaves the execution order of
    the calls unchanged: the capped levels, read one after the other, list the
    calls as the uncapped levels do. *)
Theorem scheduleDagLevels_width (calls : list ClaimableToolCall) (options : ResolveToolClaimsOptions)
    (q : Q) :
  (0 < q)%Q ->
  let schedule cap := levels (scheduleDagLevels calls {| claim_options := options; maxConcurrency := cap |}) in
  concat (schedule (Some (NumFin q))) = concat (schedule None) /\
  Forall (fun level => level <> [] /\ length level <= integer_cap q) (schedule (Some (NumFin q))).
Proof.
  intros Hq. simpl. pose proof (resolveBatchClaims_ok calls options) as Hok.
  destruct (assignDagLevels_shape _ Hok (resolveBatchClaims_indexed calls options)) as [_ Hs].
  pose proof (applyConcurrencyCap_refines _ (Some (NumFin q)) Hs) as (Hc & _).
  split; [done|]. unfold applyConcurrencyCap.
  destruct (Qle_bool q 0) eqn:E; [by apply Qle_bool_iff, Qle_not_lt in E|].
  apply Forall_concat, Forall_fmap. eapply Forall_impl; [exact Hs|]. intros L [HL _].
  apply (chunk_level_spec (integer_cap q) L (integer_cap_pos q) HL).
Qed.

(** The plan key is collision-free: two batches get the same key
    exactly when they have the same sequence of canonical resolutions. *)
Theorem computePlanKey_iff (es fs : list ResolvedClaimEntry) :
  computePlanKey es = computePlanKey fs <-> map claim_view es = map claim_view fs.
Proof.
  unfold computePlanKey. rewrite !computePlanKey_foldl. simpl.
  revert fs; induction es as [|e es IH]; intros [|f fs]; cbn [map]; rewrite ?join_key_cons; try done.
  - split; [|done]. intros H. symmetry in H. by apply plan_key_part_nonempty in H.
  - split; [|done]. intros H. by apply plan_key_part_nonempty in H.
  - split.
    + intros H. apply plan_key_part_inj in H as [-> H]. f_equal. by apply IH.
    + intros [= He Hes]. rewrite (plan_key_part_view e f He). f_equal. by apply IH.
Qed.

(** The order in which a call lists its claims does not matter: two
    batches whose resolutions are, call by call, permutations of each other get
    the same levels and the same plan key. *)
Theorem scheduleDagLevels_claim_order (calls calls' : list ClaimableToolCall)
    (options options' : ResolveToolClaimsOptions) (cap : option jsnum) :
  Forall2 (fun c c' => resolution_perm (resolveToolClaimsForCall c options)
                                       (resolveToolClaimsForCall c' options')) calls calls' ->
  scheduleDagLevels calls {| claim_options := options; maxConcurrency := cap |}
  = scheduleDagLevels calls' {| claim_options := options'; maxConcurrency := cap |}.
Proof.
  intros H. apply resolveBatchClaims_perm in H.
  pose proof (resolveBatchClaims_ok calls options) as He.
  pose proof (resolveBatchClaims_ok calls' options') as Hf.
  unfold scheduleDagLevels. simpl. f_equal; [by rewrite (assignDagLevels_perm _ _ He Hf H)|].
  unfold computePlanKey. rewrite !computePlanKey_foldl. simpl.
  enough (map plan_key_part (resolveBatchClaims calls options)
          = map plan_key_part (resolveBatchClaims calls' options')) as -> by done.
  revert He Hf. induction H as [|e f es fs [_ Hp] _ IH]; [done|].
  rewrite !Forall_cons. intros [He Hes] [Hf Hfs]. cbn [map]. rewrite (IH Hes Hfs). f_equal.
  by apply plan_key_part_view, claim_view_perm.
Qed.

(** ** Concrete schedules *)

Definition sample_options : ResolveToolClaimsOptions :=
  {| cwd := "/w"; policies := ∅; registeredTools := []; strictExtensionClaims := true;
     resourceKeyResolver := None |}.

Definition sample_write (path : string) : ClaimableToolCall :=
  {| call_id := None; call_name := "write"; call_arguments := JObject [("path", JString path)] |}.

(** The head-of-line example of the source: [write x, write x, write y]. *)
Definition head_of_line : list ClaimableToolCall :=
  [sample_write "x"; sample_write "x"; sample_write "y"].

Definition sample_schedule (cap : option jsnum) : ScheduleDagLevelsOptions :=
  {| claim_options := sample_options; maxConcurrency := cap |}.

Example head_of_line_levels :
  levels (scheduleDagLevels head_of_line (sample_schedule None)) = [[0; 2]; [1]].
Proof. vm_compute. reflexivity. Qed.

Example head_of_line_capped :
  levels (scheduleDagLevels head_of_line (sample_schedule (Some (NumFin 1)))) = [[0]; [2]; [1]].
Proof. vm_compute. reflexivity. Qed.

Lemma scheduleDagLevels_orders_conflicts_witness : 0 < 2.
Proof.
  apply (scheduleDagLevels_orders_conflicts head_of_line (sample_schedule (Some (NumFin 1)))
           0 1 0 2 (sample_write "x") (sample_write "x") [0] [1]);
    first [reflexivity | (vm_compute; reflexivity) | lia | left].
Defined.

(** The assignment that runs every call alone respects all conflicts. *)
Lemma scheduleDagLevels_least_witness : 1 <= 1.
Proof.
  apply (scheduleDagLevels_least head_of_line sample_options (fun i => i) 1 1 [1]).
  - intros i j ci cj Hij _ _ _. exact Hij.
  - vm_compute. reflexivity.
  - left.
Defined.

Lemma scheduleDagLevels_width_witness :
  Forall (fun level => level <> [] /\ length level <= integer_cap 1)
    (levels (scheduleDagLevels head_of_line (sample_schedule (Some (NumFin 1))))).
Proof. apply (scheduleDagLevels_width head_of_line sample_options 1). reflexivity. Defined.

(** An extension tool that reports the same two claims in either order. *)
Definition reporting_options (first second : string) : ResolveToolClaimsOptions :=
  {| cwd := "/w"; policies := ∅; strictExtensionClaims := true; resourceKeyResolver := None;
     registeredTools := [{| tool_name := "sync"; executionMode := None;
       resourceClaims := Some (fun _ _ => Some (JArray (map (fun key =>
         JObject [("kind", JString "session"); ("key", JString key); ("access", JString "write")])
         [first; second]))) |}] |}.

Definition sync_call : ClaimableToolCall :=
  {| call_id := Some "1"; call_name := "sync"; call_arguments := JObject [] |}.

Lemma scheduleDagLevels_claim_order_witness :
  scheduleDagLevels [sync_call]
    {| claim_options := reporting_options "a" "b"; maxConcurrency := None |}
  = scheduleDagLevels [sync_call]
    {| claim_options := reporting_options "b" "a"; maxConcurrency := None |}.
Proof.
  apply (scheduleDagLevels_claim_order [sync_call] [sync_call] (reporting_options "a" "b")
           (reporting_options "b" "a") None).
  constructor; [|constructor].
  change (resolution_perm
    (Claims [OtherClaim KSession "a" AccWrite; OtherClaim KSession "b" AccWrite])
    (Claims [OtherClaim KSession "b" AccWrite; OtherClaim KSession "a" AccWrite])).
  apply Permutation_swap.
Defined.
