(* ===== verification/TranscriptIntegrity.v ===== *)
(** * Tool-call transcripts: inspection and repair

    packages/agent/src/tool-transcript-integrity.ts, and the result envelope of
    packages/agent/src/types.ts. A message keeps the fields these functions
    read; a [Map] is its list of entries in insertion order. [Date.now()] is
    the parameter [now], indexed by the number of results appended so far. *)

From Stdlib Require Import String ZArith QArith Lia Permutation.
From stdpp Require Import base list option strings sets.
From S2P Require Import Prelude JsString JsValue.

Open Scope nat_scope.
Open Scope list_scope.

(** ** The result envelope (types.ts) *)

Inductive ToolCallDisposition : Type :=
| completed
| failed
| blocked
| aborted
| timeout
| skipped.

Definition disposition_str (d : ToolCallDisposition) : string :=
  match d with
  | completed => "completed"
  | failed => "failed"
  | blocked => "blocked"
  | aborted => "aborted"
  | timeout => "timeout"
  | skipped => "skipped"
  end.

Definition TOOL_RESULT_ENVELOPE_SCHEMA : string := "tool-result/v2".

Record ToolResultEnvelopeInput : Type := {
  synthetic : bool;
  disposition : ToolCallDisposition;
  env_reason : option string;
  timeoutMs : option jsnum;
  executionStarted : bool;
}.

Definition is_bool (v : jsval) : bool :=
  match v with
  | JBool _ => true
  | _ => false
  end.

Definition is_record (v : jsval) : bool :=
  match v with
  | JObject _ => true
  | _ => false
  end.

Definition is_str (v : jsval) (s : string) : bool :=
  match v with
  | JString t => String.eqb t s
  | _ => false
  end.

Definition opt_string_ok (v : jsval) : bool :=
  match v with
  | JUndefined | JString _ => true
  | _ => false
  end.

Definition opt_positive_ok (v : jsval) : bool :=
  match v with
  | JUndefined => true
  | JNumber (NumFin q) => negb (Qle_bool q 0)
  | _ => false
  end.

Definition isToolResultEnvelope (value : jsval) : bool :=
  if negb (is_record value)
     || negb (is_str (get_prop "schema" value) TOOL_RESULT_ENVELOPE_SCHEMA)
     || negb (is_bool (get_prop "synthetic" value))
     || negb (is_bool (get_prop "executionStarted" value))
     || negb (opt_string_ok (get_prop "reason" value))
     || negb (opt_positive_ok (get_prop "timeoutMs" value))
  then false
  else
    let synth := is_true (get_prop "synthetic" value) in
    let started := is_true (get_prop "executionStarted" value) in
    let no_timeout := is_undefined (get_prop "timeoutMs" value) in
    match get_prop "disposition" value with
    | JString d =>
        if String.eqb d "completed" then negb synth && started && no_timeout
        else if String.eqb d "failed" then (started || synth) && no_timeout
        else if String.eqb d "blocked" || String.eqb d "skipped"
        then synth && negb started && no_timeout
        else if String.eqb d "aborted" then synth && no_timeout
        else if String.eqb d "timeout" then synth && started && negb no_timeout
        else false
    | _ => false
    end.

(** The object literal of [createToolResultEnvelope]. *)
Definition envelope_value (input : ToolResultEnvelopeInput) : jsval :=
  JObject ([("schema", JString TOOL_RESULT_ENVELOPE_SCHEMA);
            ("synthetic", JBool (synthetic input));
            ("disposition", JString (disposition_str (disposition input)))]
           ++ match env_reason input with
              | None => []
              | Some r => [("reason", JString r)]
              end
           ++ match timeoutMs input with
              | None => []
              | Some n => [("timeoutMs", JNumber n)]
              end
           ++ [("executionStarted", JBool (executionStarted input))]).

Definition createToolResultEnvelope (input : ToolResultEnvelopeInput) : result string jsval :=
  let envelope := envelope_value input in
  if negb (isToolResultEnvelope envelope)
  then Err ("Invalid " ++ TOOL_RESULT_ENVELOPE_SCHEMA ++ " "
            ++ disposition_str (disposition input) ++ " envelope")%string
  else Ok envelope.

(** ** Messages *)

Record ToolCall : Type := {
  tc_id : string;
  tc_name : string;
}.

Inductive Block : Type :=
| ToolCallBlock (call : ToolCall)
| OtherBlock (value : jsval).

Record ToolResultMessage : Type := {
  toolCallId : string;
  toolName : string;
  tr_content : jsval;
  details : jsval;
  isError : bool;
  timestamp : jsnum;
}.

Inductive AgentMessage : Type :=
| AssistantMsg (content : list Block)
| ToolResultMsg (m : ToolResultMessage)
| OtherMsg (role : string) (payload : jsval).

Definition message_calls (content : list Block) : list ToolCall :=
  omap (fun b => match b with
                 | ToolCallBlock c => Some c
                 | OtherBlock _ => None
                 end) content.

(** ** Reports *)

Inductive TranscriptIntegrityIssueKind : Type :=
| missing_result
| duplicate_result
| orphan_result
| duplicate_call_id
| interleaved_non_result.

Definition issue_kind_str (k : TranscriptIntegrityIssueKind) : string :=
  match k with
  | missing_result => "missing_result"
  | duplicate_result => "duplicate_result"
  | orphan_result => "orphan_result"
  | duplicate_call_id => "duplicate_call_id"
  | interleaved_non_result => "interleaved_non_result"
  end.

Record TranscriptIntegrityIssue : Type := {
  issue_kind : TranscriptIntegrityIssueKind;
  issue_id : string;
  issue_name : option string;
}.

Record TranscriptIntegrityReport : Type := {
  ok : bool;
  issues : list TranscriptIntegrityIssue;
}.

Inductive RepairError : Type :=
| TranscriptIntegrityError (message : string) (report : TranscriptIntegrityReport)
| EnvelopeTypeError (message : string).

(** ** Accounting of the identifiers *)

Record IdCounts : Type := {
  callIdCount : list (string * nat);
  resultIdCount : list (string * nat);
  callToolName : list (string * string);
}.

Definition increment (key : string) (m : list (string * nat)) : list (string * nat) :=
  map_set key (default 0 (map_get key m) + 1) m.

Definition count_call (st : IdCounts) (c : ToolCall) : IdCounts :=
  {| callIdCount := increment (tc_id c) (callIdCount st);
     resultIdCount := resultIdCount st;
     callToolName := if map_has (tc_id c) (callToolName st) then callToolName st
                     else map_set (tc_id c) (tc_name c) (callToolName st) |}.

Definition count_message (st : IdCounts) (m : AgentMessage) : IdCounts :=
  match m with
  | AssistantMsg content => foldl count_call st (message_calls content)
  | ToolResultMsg r =>
      {| callIdCount := callIdCount st;
         resultIdCount := increment (toolCallId r) (resultIdCount st);
         callToolName := callToolName st |}
  | OtherMsg _ _ => st
  end.

Definition count_ids (messages : list AgentMessage) : IdCounts :=
  foldl count_message {| callIdCount := []; resultIdCount := []; callToolName := [] |} messages.

Definition mk_issue (k : TranscriptIntegrityIssueKind) (id : string) (name : option string)
    : TranscriptIntegrityIssue := {| issue_kind := k; issue_id := id; issue_name := name |}.

Definition count_issues (st : IdCounts) : list TranscriptIntegrityIssue :=
  (omap (fun ic => if (1 <? snd ic)%nat
                   then Some (mk_issue duplicate_call_id (fst ic) (map_get (fst ic) (callToolName st)))
                   else None) (callIdCount st)
   ++ omap (fun ic => if (1 <? snd ic)%nat
                      then Some (mk_issue duplicate_result (fst ic) None) else None) (resultIdCount st)
   ++ omap (fun ic => if negb (map_has (fst ic) (callIdCount st))
                      then Some (mk_issue orphan_result (fst ic) None) else None) (resultIdCount st)
   ++ omap (fun ic => if negb (map_has (fst ic) (resultIdCount st))
                      then Some (mk_issue missing_result (fst ic) (map_get (fst ic) (callToolName st)))
                      else None) (callIdCount st))%list.

(** ** The ordering pass *)

Record OrderState : Type := {
  pending : list (string * string);
  resultsRegion : bool;
}.

Definition pending_issues (p : list (string * string)) : list TranscriptIntegrityIssue :=
  map (fun kv => mk_issue interleaved_non_result (fst kv) (Some (snd kv))) p.

(** One message of the pass: the next state, or the issues pushed before
    [break]. *)
Definition order_step (known : string -> bool) (st : OrderState) (m : AgentMessage)
    : result (list TranscriptIntegrityIssue) OrderState :=
  match m with
  | AssistantMsg content =>
      match message_calls content with
      | [] =>
          if resultsRegion st && (0 <? length (pending st))
          then Err (pending_issues (pending st)) else Ok st
      | calls =>
          if (0 <? length (pending st)) then Err (pending_issues (pending st))
          else Ok {| pending := foldl (fun p c => map_set (tc_id c) (tc_name c) p) (pending st) calls;
                     resultsRegion := true |}
      end
  | ToolResultMsg r =>
      if resultsRegion st && map_has (toolCallId r) (pending st) then
        let p := map_delete (toolCallId r) (pending st) in
        Ok {| pending := p;
              resultsRegion := if (length p =? 0) then false else resultsRegion st |}
      else if known (toolCallId r) then Err [mk_issue interleaved_non_result (toolCallId r) None]
      else Ok st
  | OtherMsg _ _ =>
      if resultsRegion st && (0 <? length (pending st))
      then Err (pending_issues (pending st)) else Ok st
  end.

Fixpoint order_pass (known : string -> bool) (st : OrderState) (messages : list AgentMessage)
    : list TranscriptIntegrityIssue :=
  match messages with
  | [] => []
  | m :: rest =>
      match order_step known st m with
      | Err found => found
      | Ok st' => order_pass known st' rest
      end
  end.

Definition inspectTranscriptIntegrity (messages : list AgentMessage) : TranscriptIntegrityReport :=
  let st := count_ids messages in
  let found := (count_issues st
                ++ order_pass (fun id => map_has id (callIdCount st))
                     {| pending := []; resultsRegion := false |} messages)%list in
  {| ok := (length found =? 0); issues := found |}.

(** ** Repair *)

Definition createSyntheticToolResult (id name reason : string) (ts : Q) (d : ToolCallDisposition)
    : result string ToolResultMessage :=
  envelope <-? createToolResultEnvelope
    {| synthetic := true; disposition := d; env_reason := Some reason; timeoutMs := None;
       executionStarted := false |} ;;
  Ok {| toolCallId := id; toolName := name;
        tr_content := JArray [JObject [("type", JString "text"); ("text", JString reason)]];
        details := JObject [("omk", envelope)]; isError := true; timestamp := NumFin ts |}.

Definition not_missing (i : TranscriptIntegrityIssue) : bool :=
  match issue_kind i with
  | missing_result => false
  | _ => true
  end.

(** The last assistant message and what follows it. *)
Fixpoint last_assistant (messages : list AgentMessage) : option (list Block * list AgentMessage) :=
  match messages with
  | [] => None
  | m :: rest =>
      match last_assistant rest with
      | Some found => Some found
      | None =>
          match m with
          | AssistantMsg content => Some (content, rest)
          | _ => None
          end
      end
  end.

Definition result_for (ids : list string) (m : AgentMessage) : bool :=
  match m with
  | ToolResultMsg r => existsb (String.eqb (toolCallId r)) ids
  | _ => false
  end.

Definition repair_default_reason : string := "Tool result missing; synthesized by transcript repair".

Section Repair.
Context (now : nat -> Q).

(** The final loop over the trailing calls; [k] results were appended so far. *)
Fixpoint append_missing (text : string) (missing : list string) (calls : list ToolCall) (k : nat)
    : result RepairError (list AgentMessage) :=
  match calls with
  | [] => Ok []
  | c :: rest =>
      if existsb (String.eqb (tc_id c)) missing then
        match createSyntheticToolResult (tc_id c) (tc_name c) text (now k) aborted with
        | Err e => Err (EnvelopeTypeError e)
        | Ok m => more <-? append_missing text missing rest (S k) ;; Ok (ToolResultMsg m :: more)
        end
      else append_missing text missing rest k
  end.

Definition repairTranscriptIntegrity (messages : list AgentMessage) (reason : option string)
    : result RepairError (list AgentMessage) :=
  let report := inspectTranscriptIntegrity messages in
  match List.find not_missing (issues report) with
  | Some issue =>
      Err (TranscriptIntegrityError
        ("Cannot repair transcript: detected " ++ issue_kind_str (issue_kind issue)
         ++ " for tool call " ++ issue_id issue)%string report)
  | None =>
      let missingIds := dedup (map issue_id (issues report)) in
      match missingIds with
      | [] => Ok messages
      | _ =>
          match last_assistant messages with
          | None =>
              Err (TranscriptIntegrityError
                "Cannot repair transcript: missing results without an assistant message" report)
          | Some (content, trailing) =>
              let tailCalls := message_calls content in
              let tailCallIds := map tc_id tailCalls in
              match List.find (fun id => negb (existsb (String.eqb id) tailCallIds)) missingIds with
              | Some id =>
                  Err (TranscriptIntegrityError
                    ("Cannot repair transcript: missing result for " ++ id
                     ++ " is not in the trailing assistant message")%string report)
              | None =>
                  if negb (forallb (result_for tailCallIds) trailing)
                  then Err (TranscriptIntegrityError
                    "Cannot repair transcript: non-result message after the trailing assistant message"
                    report)
                  else
                    added <-? append_missing (default repair_default_reason reason) missingIds
                                tailCalls 0 ;;
                    Ok (messages ++ added)
              end
          end
      end
  end.
End Repair.

(** ** Specification: balanced transcripts *)

Definition calls_of (m : AgentMessage) : list ToolCall :=
  match m with
  | AssistantMsg content => message_calls content
  | _ => []
  end.

Definition result_ids_of (m : AgentMessage) : list string :=
  match m with
  | ToolResultMsg r => [toolCallId r]
  | _ => []
  end.

Definition is_result (m : AgentMessage) : bool :=
  match m with
  | ToolResultMsg _ => true
  | _ => false
  end.

Definition call_ids (messages : list AgentMessage) : list string :=
  concat (map (fun m => map tc_id (calls_of m)) messages).

Definition result_ids (messages : list AgentMessage) : list string :=
  concat (map result_ids_of messages).

(** Every message with tool calls is directly followed by exactly one result
    for each of its calls, in any order; no other result occurs. *)
Inductive balanced : list AgentMessage -> Prop :=
| bal_nil : balanced []
| bal_plain (m : AgentMessage) (ms : list AgentMessage) :
    calls_of m = [] -> is_result m = false -> balanced ms -> balanced (m :: ms)
| bal_calls (m : AgentMessage) (rs ms : list AgentMessage) :
    calls_of m <> [] -> forallb is_result rs = true ->
    result_ids rs ≡ₚ map tc_id (calls_of m) -> balanced ms -> balanced (m :: rs ++ ms).

(** The ordering pass alone: [open] holds the calls that still wait for their
    result; the transcript may end with calls open. *)
Inductive ordered : list string -> list AgentMessage -> Prop :=
| ord_end (open : list string) : ordered open []
| ord_plain (m : AgentMessage) (ms : list AgentMessage) :
    calls_of m = [] -> is_result m = false -> ordered [] ms -> ordered [] (m :: ms)
| ord_calls (m : AgentMessage) (ms : list AgentMessage) :
    calls_of m <> [] -> ordered (map tc_id (calls_of m)) ms -> ordered [] (m :: ms)
| ord_result (r : ToolResultMessage) (ms : list AgentMessage) (open : list string) :
    toolCallId r ∈ open -> ordered (List.filter (fun k => negb (String.eqb k (toolCallId r))) open) ms ->
    ordered open (ToolResultMsg r :: ms).

(** ** Identifier counts *)

Definition counts_of (ids : list string) : list (string * nat) :=
  foldl (fun m id => increment id m) [] ids.

Lemma counts_of_snoc (ids : list string) (id : string) :
  counts_of (ids ++ [id]) = increment id (counts_of ids).
Proof. unfold counts_of. by rewrite foldl_app. Qed.

Lemma counts_of_NoDup (ids : list string) : NoDup (map fst (counts_of ids)).
Proof.
  induction ids as [|id ids IH] using rev_ind; [constructor|].
  rewrite counts_of_snoc. by apply map_set_NoDup.
Qed.

Lemma counts_of_get (ids : list string) (k : string) :
  map_get k (counts_of ids) =
  if decide (k ∈ ids) then Some (count_occ String.string_dec ids k) else None.
Proof.
  induction ids as [|id ids IH] using rev_ind; [done|].
  rewrite counts_of_snoc. unfold increment. rewrite map_get_set, count_occ_app. simpl.
  destruct (String.eqb_spec id k) as [->|Hne].
  - rewrite IH. destruct (String.string_dec k k); [|done].
    rewrite (decide_True (P := k ∈ ids ++ [k])) by set_solver. f_equal. case_decide; simpl; [done|].
    rewrite list_elem_of_In in *. by rewrite (proj1 (count_occ_not_In String.string_dec ids k)).
  - rewrite IH. destruct (String.string_dec id k); [done|]. rewrite Nat.add_0_r.
    destruct (decide (k ∈ ids)), (decide (k ∈ ids ++ [id])); set_solver.
Qed.

Lemma counts_of_elem (ids : list string) (k : string) (n : nat) :
  (k, n) ∈ counts_of ids <-> k ∈ ids /\ n = count_occ String.string_dec ids k.
Proof.
  rewrite map_get_elem by apply counts_of_NoDup. rewrite counts_of_get.
  case_decide; naive_solver.
Qed.

Lemma counts_of_has (ids : list string) (k : string) :
  map_has k (counts_of ids) = bool_decide (k ∈ ids).
Proof.
  unfold map_has. rewrite counts_of_get. case_decide; symmetry.
  - by apply bool_decide_eq_true. - by apply bool_decide_eq_false.
Qed.

Lemma count_calls_fold (cs : list ToolCall) (st : IdCounts) :
  callIdCount (foldl count_call st cs) = foldl (fun m id => increment id m) (callIdCount st) (map tc_id cs) /\
  resultIdCount (foldl count_call st cs) = resultIdCount st.
Proof.
  revert st; induction cs as [|c cs IH]; intros st; simpl; [done|].
  destruct (IH (count_call st c)) as [-> ->]. done.
Qed.

Lemma call_ids_app (l m : list AgentMessage) : call_ids (l ++ m) = call_ids l ++ call_ids m.
Proof. unfold call_ids. by rewrite map_app, concat_app. Qed.

Lemma result_ids_app (l m : list AgentMessage) : result_ids (l ++ m) = result_ids l ++ result_ids m.
Proof. unfold result_ids. by rewrite map_app, concat_app. Qed.

Lemma call_ids_cons (m : AgentMessage) (ms : list AgentMessage) :
  call_ids (m :: ms) = map tc_id (calls_of m) ++ call_ids ms.
Proof. done. Qed.

Lemma result_ids_cons (m : AgentMessage) (ms : list AgentMessage) :
  result_ids (m :: ms) = result_ids_of m ++ result_ids ms.
Proof. done. Qed.

Lemma count_ids_spec (ms : list AgentMessage) :
  callIdCount (count_ids ms) = counts_of (call_ids ms) /\
  resultIdCount (count_ids ms) = counts_of (result_ids ms).
Proof.
  induction ms as [|m ms [IHc IHr]] using rev_ind; [done|].
  unfold count_ids in *. rewrite foldl_app, call_ids_app, result_ids_app.
  unfold counts_of in *. rewrite !foldl_app. simpl. rewrite <- IHc, <- IHr.
  unfold call_ids, result_ids. simpl. rewrite !app_nil_r.
  destruct m as [content|r|role p]; simpl; [|done|done].
  destruct (count_calls_fold (message_calls content)
    (foldl count_message {| callIdCount := []; resultIdCount := []; callToolName := [] |} ms)) as [-> ->].
  done.
Qed.

Lemma omap_nil_iff {A B} (f : A -> option B) (l : list A) :
  omap f l = [] <-> forall x, x ∈ l -> f x = None.
Proof.
  induction l as [|a l IH]; simpl; [set_solver|].
  setoid_rewrite elem_of_cons. destruct (f a) eqn:E; naive_solver.
Qed.

Lemma no_duplicates_iff {B} (ids : list string) (f : string -> B) :
  omap (fun ic : string * nat => if (1 <? snd ic)%nat then Some (f (fst ic)) else None) (counts_of ids) = []
  <-> NoDup ids.
Proof.
  rewrite omap_nil_iff, NoDup_ListNoDup, (NoDup_count_occ String.string_dec). split.
  - intros H k. destruct (decide (k ∈ ids)) as [Hk|Hk].
    + specialize (H (k, count_occ String.string_dec ids k)
        (proj2 (counts_of_elem _ _ _) (conj Hk eq_refl))). simpl in H.
      destruct (Nat.ltb_spec 1 (count_occ String.string_dec ids k)); [done|lia].
    + rewrite list_elem_of_In in Hk. apply (count_occ_not_In String.string_dec) in Hk. lia.
  - intros H [k n] [Hk ->]%counts_of_elem. simpl. specialize (H k).
    destruct (Nat.ltb_spec 1 (count_occ String.string_dec ids k)); [lia|done].
Qed.

Lemma no_absent_iff {B} (ids other : list string) (f : string -> B) :
  omap (fun ic : string * nat => if negb (map_has (fst ic) (counts_of other))
                                 then Some (f (fst ic)) else None) (counts_of ids) = []
  <-> ids ⊆ other.
Proof.
  rewrite omap_nil_iff. split.
  - intros H k Hk. specialize (H (k, count_occ String.string_dec ids k)
      (proj2 (counts_of_elem _ _ _) (conj Hk eq_refl))). simpl in H.
    rewrite counts_of_has in H. by destruct (bool_decide_reflect (k ∈ other)).
  - intros H [k n] [Hk _]%counts_of_elem. simpl. rewrite counts_of_has, bool_decide_true by auto. done.
Qed.

(** The ordering pass of the code finds nothing exactly on ordered transcripts. *)
Lemma pending_keys_set (cs : list ToolCall) :
  NoDup (map tc_id cs) ->
  map fst (foldl (fun p c => map_set (tc_id c) (tc_name c) p) [] cs) = map tc_id cs.
Proof.
  induction cs as [|c cs IH] using rev_ind; intros Hnd; [done|].
  rewrite map_app in *. apply NoDup_app in Hnd as (Hnd & Hd & _). simpl in *.
  rewrite foldl_app. simpl. rewrite map_set_keys, (IH Hnd).
  destruct (map_has _ _) eqn:E; [|done]. exfalso.
  apply map_has_keys in E. rewrite (IH Hnd) in E. apply (Hd _ E). left.
Qed.

Definition open_state (p : list (string * string)) : OrderState :=
  {| pending := p; resultsRegion := (0 <? length p)%nat |}.

Lemma order_pass_ordered (known : string -> bool) (ms : list AgentMessage) (p : list (string * string)) :
  NoDup (map fst p ++ call_ids ms) ->
  (forall id, id ∈ result_ids ms -> known id = true) ->
  order_pass known (open_state p) ms = [] <-> ordered (map fst p) ms.
Proof.
  revert p; induction ms as [|m ms IH]; intros p Hnd Hk; simpl; [split; [constructor|done]|].
  assert (Hk' : forall id, id ∈ result_ids ms -> known id = true).
  { intros id Hid. apply Hk. rewrite result_ids_cons. set_solver. }
  assert (Hplain : calls_of m = [] -> is_result m = false ->
    order_step known (open_state p) m =
    (if (0 <? length p)%nat then Err (pending_issues p) else Ok (open_state p))).
  { destruct m as [content|r|]; simpl; [intros ->|done|]; simpl; by rewrite andb_diag. }
  rewrite call_ids_cons in Hnd.
  destruct (calls_of m) as [|c cs] eqn:Hc; [destruct (is_result m) eqn:Hr|].
  - destruct m as [|r|]; try done. simpl.
    assert (Hkr : known (toolCallId r) = true) by (apply Hk; left). rewrite Hkr.
    assert (Hreg : ((0 <? length p)%nat && map_has (toolCallId r) p) = map_has (toolCallId r) p).
    { by destruct p. }
    rewrite Hreg. destruct (map_has (toolCallId r) p) eqn:E.
    + apply map_has_keys in E.
      assert (Hopen : {| pending := map_delete (toolCallId r) p;
                 resultsRegion := if (length (map_delete (toolCallId r) p) =? 0)%nat then false
                                  else (0 <? length p)%nat |} = open_state (map_delete (toolCallId r) p)).
      { unfold open_state. f_equal. destruct (map_delete (toolCallId r) p) eqn:Ed; [done|].
        simpl. by destruct p. }
      rewrite Hopen, IH, map_delete_keys; [| |done].
      * split; [intros; by constructor|]. by inversion_clear 1.
      * rewrite map_delete_keys. apply NoDup_app in Hnd as (Hnd & Hd & Hcs).
        apply NoDup_app. split; [|split; [|done]].
        { by apply NoDup_filter_list. }
        intros x Hx. apply Hd. by apply elem_of_filter_list in Hx as [? _].
    + split; [done|]. intros H. inversion H; subst; simplify_eq/=.
      match goal with Hin : _ ∈ map fst p |- _ => apply map_has_keys in Hin; congruence end.
  - rewrite Hplain by done. destruct p as [|kv p]; simpl.
    + rewrite IH by done. split; [by constructor|]. inversion_clear 1; simplify_eq/=; done.
    + split; [done|]. inversion 1; by subst.
  - destruct m as [content| |]; try done. simpl in Hc |- *. rewrite Hc.
    destruct p as [|kv p]; simpl.
    + simpl in Hnd. rewrite app_comm_cons in Hnd.
      pose proof (pending_keys_set (c :: cs)) as Hp. simpl in Hp.
      apply NoDup_app in Hnd as (Hnd & Hd & Hms). specialize (Hp Hnd).
      set (q := foldl _ _ cs) in *.
      assert (Hq : {| pending := q; resultsRegion := true |} = open_state q).
      { unfold open_state. f_equal. symmetry. apply Nat.ltb_lt.
        rewrite <- (length_map fst), Hp. simpl. lia. }
      rewrite Hq, IH; [|by rewrite Hp; apply NoDup_app|done].
      rewrite Hp. split.
      * intros H. constructor; simpl; rewrite Hc; done.
      * inversion_clear 1; simplify_eq/=; rewrite ?Hc in *; done.
    + split; [done|]. inversion 1; subst; simplify_eq/=; congruence.
Qed.

(** The four conditions the inspection checks. *)
Definition accounted (ms : list AgentMessage) : Prop :=
  NoDup (call_ids ms) /\ NoDup (result_ids ms) /\ result_ids ms ⊆ call_ids ms /\ ordered [] ms.

Lemma count_issues_split (ms : list AgentMessage) :
  let st := count_ids ms in
  exists dup_calls dup_results orphans missing,
    count_issues st = dup_calls ++ dup_results ++ orphans ++ missing /\
    (dup_calls = [] <-> NoDup (call_ids ms)) /\ (dup_results = [] <-> NoDup (result_ids ms)) /\
    (orphans = [] <-> result_ids ms ⊆ call_ids ms) /\
    Forall (fun i => not_missing i = true) (dup_calls ++ dup_results ++ orphans) /\
    Forall (fun i => not_missing i = false) missing /\
    forall id, id ∈ map issue_id missing <-> id ∈ call_ids ms /\ id ∉ result_ids ms.
Proof.
  simpl. destruct (count_ids_spec ms) as [Hc Hr]. unfold count_issues. rewrite Hc, Hr.
  do 4 eexists. split; [reflexivity|].
  split; [apply (no_duplicates_iff _ (fun id => mk_issue duplicate_call_id id (map_get id (callToolName (count_ids ms)))))|].
  split; [apply (no_duplicates_iff _ (fun id => mk_issue duplicate_result id None))|].
  split; [apply (no_absent_iff _ _ (fun id => mk_issue orphan_result id None))|].
  split; [|split].
  - rewrite !Forall_app. split_and!; apply Forall_forall; intros i Hi;
      apply list_elem_of_omap in Hi as (ic & _ & Hi); case_match; by simplify_eq.
  - apply Forall_forall. intros i Hi.
    apply list_elem_of_omap in Hi as (ic & _ & Hi). case_match; by simplify_eq.
  - intros id. rewrite list_elem_of_fmap. setoid_rewrite list_elem_of_omap. split.
    + intros (i & -> & [k n] & [Hk _]%counts_of_elem & Hi). simpl in Hi.
      rewrite counts_of_has in Hi.
      destruct (bool_decide_reflect (k ∈ result_ids ms)); by simplify_eq/=.
    + intros [Hid Hno]. eexists. split; [|eexists (id, _); split].
      2: { apply counts_of_elem. by split. }
      2: { simpl. rewrite counts_of_has, bool_decide_false by done. reflexivity. }
      done.
Qed.

Lemma order_pass_not_missing (known : string -> bool) (ms : list AgentMessage) (st : OrderState) :
  Forall (fun i => not_missing i = true) (order_pass known st ms).
Proof.
  assert (Hp : forall p, Forall (fun i => not_missing i = true) (pending_issues p)).
  { intros p. apply Forall_fmap, Forall_forall. done. }
  revert st; induction ms as [|m ms IH]; intros st; simpl; [done|].
  destruct (order_step known st m) as [st'|found] eqn:E; [apply IH|].
  unfold order_step in E. split_in E; try apply Hp; by repeat constructor.
Qed.

Lemma order_pass_initial (ms : list AgentMessage) :
  NoDup (call_ids ms) -> result_ids ms ⊆ call_ids ms ->
  order_pass (fun id => map_has id (callIdCount (count_ids ms)))
    {| pending := []; resultsRegion := false |} ms = [] <-> ordered [] ms.
Proof.
  intros Hnd Hsub. destruct (count_ids_spec ms) as [-> _].
  apply (order_pass_ordered _ ms []); [done|].
  intros id Hid. rewrite counts_of_has. by apply bool_decide_eq_true, Hsub.
Qed.

(** The report holds nothing but missing results exactly on accounted
    transcripts, and then lists the calls without result. *)
Lemma only_missing_iff (ms : list AgentMessage) :
  List.find not_missing (issues (inspectTranscriptIntegrity ms)) = None <-> accounted ms.
Proof.
  destruct (count_issues_split ms) as (dc & dr & orph & miss & E & Hdc & Hdr & Ho & Hbad & Hmiss & _).
  unfold inspectTranscriptIntegrity. simpl in E |- *. rewrite E.
  assert (Hfind : forall l, List.find not_missing l = None <-> Forall (fun i => not_missing i = false) l).
  { induction l as [|i l IH]; simpl; [split; [constructor|done]|].
    rewrite Forall_cons, <- IH. destruct (not_missing i); naive_solver. }
  assert (Hnil : forall l, Forall (fun i => not_missing i = true) l ->
    Forall (fun i => not_missing i = false) l <-> l = []).
  { intros [|i l]; [split; [done|constructor]|]. rewrite !Forall_cons.
    intros [Hi _]. split; [|done]. intros [Hi' _]. congruence. }
  rewrite Hfind, !Forall_app. rewrite !Forall_app in Hbad. destruct Hbad as (Hb1 & Hb2 & Hb3).
  rewrite (Hnil dc), (Hnil dr), (Hnil orph), (Hnil (order_pass _ _ _)) by
    (done || apply order_pass_not_missing).
  unfold accounted. rewrite Hdc, Hdr, Ho. split.
  - intros ((? & ? & ? & _) & Hop). split_and!; [done..|]. by apply order_pass_initial in Hop.
  - intros (? & ? & ? & Hop). split_and!; [done..|]. by apply order_pass_initial.
Qed.

Lemma issues_missing_ids (ms : list AgentMessage) (id : string) :
  accounted ms ->
  id ∈ map issue_id (issues (inspectTranscriptIntegrity ms)) <-> id ∈ call_ids ms /\ id ∉ result_ids ms.
Proof.
  intros (Hc & Hr & Hs & Ho).
  destruct (count_issues_split ms) as (dc & dr & orph & miss & E & Hdc & Hdr & Horph & _ & _ & Hmiss).
  unfold inspectTranscriptIntegrity. simpl in E |- *. rewrite E.
  rewrite (proj2 (order_pass_initial ms Hc Hs) Ho).
  rewrite (proj2 Hdc Hc), (proj2 Hdr Hr), (proj2 Horph Hs), app_nil_r. apply Hmiss.
Qed.

Lemma inspect_ok_accounted (ms : list AgentMessage) :
  ok (inspectTranscriptIntegrity ms) = true <-> accounted ms /\ call_ids ms ⊆ result_ids ms.
Proof.
  assert (Hok : ok (inspectTranscriptIntegrity ms) = true
                <-> issues (inspectTranscriptIntegrity ms) = []).
  { simpl. rewrite Nat.eqb_eq. destruct (_ ++ _); simpl; split; done || lia. }
  rewrite Hok. split.
  - intros Hi. assert (Ha : accounted ms) by (apply only_missing_iff; by rewrite Hi).
    split; [done|]. intros id Hid. destruct (decide (id ∈ result_ids ms)); [done|]. exfalso.
    pose proof (proj2 (issues_missing_ids ms id Ha) (conj Hid n)) as H. rewrite Hi in H.
    by apply elem_of_nil in H.
  - intros [Ha Hsub]. destruct (issues (inspectTranscriptIntegrity ms)) as [|i l] eqn:E; [done|].
    exfalso. assert (Hin : issue_id i ∈ map issue_id (issues (inspectTranscriptIntegrity ms))).
    { rewrite E. left. }
    apply issues_missing_ids in Hin as [Hc Hn]; [|done]. by apply Hn, Hsub.
Qed.

(** ** Ordered transcripts *)

Lemma filter_ne_perm (k : string) (l : list string) :
  NoDup l -> k ∈ l -> l ≡ₚ k :: List.filter (fun q => negb (String.eqb q k)) l.
Proof.
  intros Hnd Hk. apply NoDup_Permutation; [done| |].
  - constructor; [|by apply NoDup_filter_list].
    rewrite elem_of_filter_list, String.eqb_refl. by intros [_ ?].
  - intros x. rewrite elem_of_cons, elem_of_filter_list.
    destruct (String.eqb_spec x k); naive_solver.
Qed.

Lemma result_ids_singles (rs : list AgentMessage) :
  forallb is_result rs = true -> call_ids rs = [].
Proof.
  induction rs as [|[| |] rs IH]; simpl; try done.
Qed.

Lemma ordered_balanced (open : list string) (ms : list AgentMessage) :
  ordered open ms -> NoDup (open ++ call_ids ms) ->
  open ⊆ result_ids ms -> call_ids ms ⊆ result_ids ms ->
  exists rs ms', ms = rs ++ ms' /\ forallb is_result rs = true /\ result_ids rs ≡ₚ open /\ balanced ms'.
Proof.
  induction 1 as [open|m ms Hc Hr Ho IH|m ms Hc Ho IH|r ms open Hin Ho IH]; intros Hnd Hop Hcs.
  - exists [], []. assert (open = []) as ->.
    { destruct open as [|k open]; [done|]. exfalso. specialize (Hop k). set_solver. }
    split_and!; done || constructor.
  - rewrite call_ids_cons, Hc in *. rewrite result_ids_cons in *.
    assert (result_ids_of m = []) as Hrm by (by destruct m). rewrite Hrm in *. simpl in *.
    destruct IH as (rs & ms' & -> & Hrs & Hp & Hb); [done..|].
    apply Permutation_nil_r in Hp.
    assert (rs = []) as ->. { destruct rs as [|[| |] rs]; simpl in *; try done. }
    exists [], (m :: ms'). split_and!; try done. by constructor.
  - rewrite call_ids_cons in *. rewrite result_ids_cons in *.
    assert (result_ids_of m = []) as Hrm by (by destruct m). rewrite Hrm in *. simpl in *.
    destruct IH as (rs & ms' & -> & Hrs & Hp & Hb); [done|set_solver|set_solver|].
    exists [], (m :: rs ++ ms'). split_and!; try done. by constructor.
  - rewrite call_ids_cons in *. rewrite result_ids_cons in *. simpl in *.
    apply NoDup_app in Hnd as (Hnd & Hd & Hcd).
    destruct IH as (rs & ms' & -> & Hrs & Hp & Hb).
    + apply NoDup_app. split; [by apply NoDup_filter_list|]. split; [|done].
      intros x [Hx _]%elem_of_filter_list. by apply Hd.
    + intros x [Hx Hne]%elem_of_filter_list. apply Hop in Hx as [->|Hx]%elem_of_cons; [|done].
      by rewrite String.eqb_refl in Hne.
    + intros x Hx. pose proof (Hcs x Hx) as [->|Hx']%elem_of_cons; [|done].
      exfalso. by apply (Hd _ Hin).
    + exists (ToolResultMsg r :: rs), ms'. split_and!; try done.
      rewrite result_ids_cons, Hp. simpl. symmetry. by apply filter_ne_perm.
Qed.

Lemma balanced_ids (ms : list AgentMessage) : balanced ms -> result_ids ms ≡ₚ call_ids ms.
Proof.
  induction 1 as [|m ms Hc Hr _ IH|m rs ms Hc Hrs Hp _ IH]; [done| |].
  - rewrite call_ids_cons, result_ids_cons, Hc. by destruct m.
  - rewrite call_ids_cons, result_ids_cons, call_ids_app, result_ids_app, Hp, IH.
    rewrite (result_ids_singles rs Hrs). by destruct m.
Qed.

(** Closing the open calls in any order keeps a transcript ordered. *)
Lemma ordered_results (open : list string) (rs ms : list AgentMessage) :
  NoDup open -> forallb is_result rs = true -> result_ids rs ≡ₚ open -> ordered [] ms ->
  ordered open (rs ++ ms).
Proof.
  revert open; induction rs as [|m rs IH]; intros open Hnd Hrs Hp Hms; simpl in *.
  { apply Permutation_nil_l in Hp as <-. done. }
  destruct m as [|r|]; try done. rewrite result_ids_cons in Hp. simpl in Hp, Hrs.
  assert (Hin : toolCallId r ∈ open) by (rewrite <- Hp; left).
  constructor; [done|]. apply IH; [by apply NoDup_filter_list|done| |done].
  apply (Permutation_cons_inv (a := toolCallId r)). rewrite Hp. by apply filter_ne_perm.
Qed.

Lemma balanced_ordered (ms : list AgentMessage) :
  balanced ms -> NoDup (call_ids ms) -> ordered [] ms.
Proof.
  induction 1 as [|m ms Hc Hr _ IH|m rs ms Hc Hrs Hp _ IH]; intros Hnd; [constructor| |].
  - rewrite call_ids_cons, Hc in Hnd. constructor; auto.
  - rewrite call_ids_cons, call_ids_app, (result_ids_singles rs Hrs) in Hnd.
    apply NoDup_app in Hnd as (Hnd & _ & Hms).
    apply ord_calls; [done|]. apply ordered_results; auto.
Qed.

Lemma ordered_prefix (open : list string) (ms extra : list AgentMessage) :
  ordered open (ms ++ extra) -> ordered open ms.
Proof.
  revert open; induction ms as [|m ms IH]; intros open H; [constructor|].
  inversion H; subst; [constructor|apply ord_calls|constructor]; auto.
Qed.

Lemma ordered_results_known (open : list string) (ms : list AgentMessage) :
  ordered open ms -> result_ids ms ⊆ open ++ call_ids ms.
Proof.
  induction 1 as [open|m ms Hc Hr Ho IH|m ms Hc Ho IH|r ms open Hin Ho IH];
    rewrite ?call_ids_cons, ?result_ids_cons; [set_solver|destruct m; set_solver|destruct m; set_solver|].
  simpl. intros x [->|Hx]%elem_of_cons; [set_solver|].
  apply IH in Hx as [Hx|Hx]%elem_of_app; [|set_solver].
  apply elem_of_filter_list in Hx as [Hx _]. set_solver.
Qed.

(** A message that opens calls (or is no result) finds nothing open. *)
Lemma ordered_split (open : list string) (pre ms : list AgentMessage) (m : AgentMessage) :
  is_result m = false -> ordered open (pre ++ m :: ms) ->
  ordered [] (m :: ms) /\ open ++ call_ids pre ⊆ result_ids pre /\
  (forall ms', ordered [] (m :: ms') -> ordered open (pre ++ m :: ms')).
Proof.
  intros Hm. revert open; induction pre as [|m' pre IH]; intros open H; simpl in *.
  - assert (open = []) as ->. { by inversion H; subst. }
    split_and!; [done|set_solver|done].
  - rewrite call_ids_cons, result_ids_cons.
    inversion H as [|? ? Hc Hr Ho|? ? Hc Ho|r ? ? Hin Ho]; subst;
      destruct (IH _ Ho) as (H1 & H2 & H3); (split; [done|]); split; simpl in *.
    + rewrite Hc. set_solver.
    + intros ms' Hms'. constructor; auto.
    + set_solver.
    + intros ms' Hms'. apply ord_calls; auto.
    + intros x Hx. destruct (decide (x = toolCallId r)) as [->|Hne]; [left|right].
      apply H2. apply elem_of_app in Hx as [Hx|Hx]; apply elem_of_app; [left|by right].
      apply elem_of_filter_list. split; [done|]. by apply negb_true_iff, String.eqb_neq.
    + intros ms' Hms'. constructor; auto.
Qed.

Lemma last_assistant_spec (ms : list AgentMessage) :
  match last_assistant ms with
  | Some (content, trailing) =>
      (exists pre, ms = pre ++ AssistantMsg content :: trailing) /\
      Forall (fun m => calls_of m = []) trailing
  | None => Forall (fun m => calls_of m = []) ms
  end.
Proof.
  induction ms as [|m ms IH]; simpl; [constructor|].
  destruct (last_assistant ms) as [[content trailing]|].
  - destruct IH as [[pre ->] Ht]. split; [by exists (m :: pre)|done].
  - destruct m as [content| |]; [split; [by exists []|done]|by constructor..].
Qed.

(** ** Repair *)

Definition synthetic_envelope (text : string) : jsval :=
  envelope_value {| synthetic := true; disposition := aborted; env_reason := Some text;
                    timeoutMs := None; executionStarted := false |}.

(** A result the repair may append: an error marked as never executed. *)
Definition is_synthetic (text : string) (m : AgentMessage) : Prop :=
  exists r, m = ToolResultMsg r /\ isError r = true /\
    details r = JObject [("omk", synthetic_envelope text)] /\
    tr_content r = JArray [JObject [("type", JString "text"); ("text", JString text)]] /\
    exists now, timestamp r = NumFin now.

Lemma createSyntheticToolResult_ok (id name text : string) (ts : Q) :
  createSyntheticToolResult id name text ts aborted
  = Ok {| toolCallId := id; toolName := name;
          tr_content := JArray [JObject [("type", JString "text"); ("text", JString text)]];
          details := JObject [("omk", synthetic_envelope text)]; isError := true;
          timestamp := NumFin ts |}.
Proof. reflexivity. Qed.

Lemma append_missing_spec (now : nat -> Q) (text : string) (missing : list string)
    (calls : list ToolCall) (k : nat) :
  exists added, append_missing now text missing calls k = Ok added /\
    forallb is_result added = true /\ Forall (is_synthetic text) added /\
    result_ids added = List.filter (fun id => existsb (String.eqb id) missing) (map tc_id calls).
Proof.
  revert k; induction calls as [|c calls IH]; intros k; [by exists []|].
  cbn [append_missing map List.filter]. destruct (existsb (String.eqb (tc_id c)) missing); [|apply IH].
  destruct (IH (S k)) as (added & E & Hr & Hs & Hids). rewrite createSyntheticToolResult_ok, E.
  eexists. split; [reflexivity|]. rewrite result_ids_cons, Hids. split_and!; [done| |done].
  constructor; [|done]. eexists. by eauto 10.
Qed.

Lemma forallb_result_for (ids : list string) (ms : list AgentMessage) :
  forallb (result_for ids) ms = true <-> forallb is_result ms = true /\ result_ids ms ⊆ ids.
Proof.
  induction ms as [|m ms IH]; simpl; [set_solver|].
  rewrite result_ids_cons, !andb_true_iff, IH.
  destruct m as [|r|]; simpl; [naive_solver| |naive_solver].
  rewrite existsb_eqb_elem. set_solver.
Qed.

Lemma find_absent_none (ids missing : list string) :
  List.find (fun id => negb (existsb (String.eqb id) ids)) missing = None <-> missing ⊆ ids.
Proof.
  induction missing as [|m missing IH]; simpl; [set_solver|].
  destruct (existsb (String.eqb m) ids) eqn:E; simpl.
  - rewrite IH. apply existsb_eqb_elem in E. set_solver.
  - split; [done|]. intros H. exfalso. apply not_true_iff_false in E. apply E.
    apply existsb_eqb_elem. set_solver.
Qed.

(** Appending the missing results of the trailing calls balances the transcript. *)
Lemma repair_balances (pre trailing added : list AgentMessage) (content : list Block) :
  let ms := pre ++ AssistantMsg content :: trailing in
  accounted ms -> message_calls content <> [] ->
  forallb is_result trailing = true ->
  (forall id, id ∈ call_ids ms -> id ∉ result_ids ms -> id ∈ map tc_id (message_calls content)) ->
  forallb is_result added = true -> NoDup (result_ids added) ->
  (forall id, id ∈ result_ids added <-> id ∈ call_ids ms /\ id ∉ result_ids ms) ->
  ok (inspectTranscriptIntegrity (ms ++ added)) = true.
Proof.
  intros ms (Hc & Hr & Hs & Ho) Hne Htr Hmiss Hadd Hnd Hids.
  assert (Hcalls : call_ids (ms ++ added) = call_ids ms).
  { by rewrite call_ids_app, (result_ids_singles added Hadd), app_nil_r. }
  assert (Hcm : call_ids ms = call_ids pre ++ map tc_id (message_calls content)).
  { unfold ms. rewrite call_ids_app, call_ids_cons, (result_ids_singles trailing Htr), app_nil_r. done. }
  assert (Hrm : result_ids ms = result_ids pre ++ result_ids trailing).
  { unfold ms. by rewrite result_ids_app, result_ids_cons. }
  destruct (ordered_split [] pre trailing (AssistantMsg content) eq_refl Ho) as (Ht & Hpre & Hext).
  apply inspect_ok_accounted. rewrite Hcalls. split.
  2: { intros id Hid. rewrite result_ids_app. apply elem_of_app.
       destruct (decide (id ∈ result_ids ms)); [by left|right]. by apply Hids. }
  split; [by rewrite Hcalls|]. split; [|split].
  - rewrite result_ids_app. apply NoDup_app. split; [done|]. split; [|done].
    intros id Hid [_ Hno]%Hids. done.
  - rewrite Hcalls, result_ids_app. intros id [Hid|Hid]%elem_of_app; [by apply Hs|].
    by apply Hids in Hid as [? _].
  - unfold ms. rewrite <- app_assoc. simpl. apply Hext. apply ord_calls; [done|]. simpl.
    rewrite <- (app_nil_r (trailing ++ added)). apply ordered_results; [| | |constructor].
    + rewrite Hcm in Hc. by apply NoDup_app in Hc as (_ & _ & ?).
    + rewrite forallb_app. by rewrite Htr, Hadd.
    + rewrite Hrm in Hr. apply NoDup_app in Hr as (Hrp & Hdis & Hrt). rewrite Hcm in Hc.
      apply NoDup_app in Hc as (Hcp & Hcd & Hcc).
      apply NoDup_Permutation; [|done|].
      * rewrite result_ids_app. apply NoDup_app. split; [done|]. split; [|done].
        intros id Hid [_ Hno]%Hids. apply Hno. rewrite Hrm. apply elem_of_app. by right.
      * intros id. rewrite result_ids_app, elem_of_app, Hids. split.
        -- intros [Hid|[Hid Hno]]; [|by apply Hmiss].
           assert (Hin : id ∈ call_ids ms) by (apply Hs; rewrite Hrm; apply elem_of_app; by right).
           rewrite Hcm in Hin. apply elem_of_app in Hin as [Hin|Hin]; [|done].
           exfalso. apply (Hdis id); [|done]. by apply Hpre.
        -- intros Hid. destruct (decide (id ∈ result_ids trailing)); [by left|right].
           rewrite Hcm, Hrm, !elem_of_app. split; [by right|]. intros [Hp|?]; [|done].
           apply ordered_prefix, ordered_results_known in Ho. apply Ho in Hp.
           by apply (Hcd id).
Qed.

Lemma accounted_prefix (ms extra : list AgentMessage) :
  forallb is_result extra = true -> ok (inspectTranscriptIntegrity (ms ++ extra)) = true -> accounted ms.
Proof.
  intros Hx [(Hc & Hr & Hs & Ho) _]%inspect_ok_accounted.
  rewrite call_ids_app, (result_ids_singles extra Hx), app_nil_r in Hc, Hs.
  rewrite result_ids_app in Hr, Hs. apply NoDup_app in Hr as [Hr _]. split_and!; [done|done| |].
  - intros id Hid. apply Hs, elem_of_app. by left.
  - by apply ordered_prefix in Ho.
Qed.

(** While a call of the open group has no result, only results of the group
    can follow. *)
Lemma ordered_open_results (open : list string) (trailing extra : list AgentMessage) (id : string) :
  ordered open (trailing ++ extra) -> id ∈ open -> id ∉ result_ids trailing ->
  forallb is_result trailing = true /\ result_ids trailing ⊆ open.
Proof.
  revert open; induction trailing as [|m trailing IH]; intros open Ho Hin Hno; [set_solver|].
  simpl in Ho. inversion Ho as [|? ? Hc Hr Ho'|? ? Hc Ho'|r ? ? Hr Ho']; subst;
    try by apply elem_of_nil in Hin.
  rewrite result_ids_cons in *. simpl in *. destruct (IH _ Ho') as [Hres Hsub].
  - apply elem_of_filter_list. split; [done|]. apply negb_true_iff, String.eqb_neq. set_solver.
  - set_solver.
  - split; [done|]. intros x [->|Hx]%elem_of_cons; [done|].
    by apply Hsub, elem_of_filter_list in Hx as [? _].
Qed.

(** What any completion by results forces on the transcript. *)
Lemma completable_tail (pre trailing extra : list AgentMessage) (content : list Block) :
  let ms := pre ++ AssistantMsg content :: trailing in
  forallb is_result extra = true -> ok (inspectTranscriptIntegrity (ms ++ extra)) = true ->
  Forall (fun m => calls_of m = []) trailing ->
  (exists id, id ∈ call_ids ms /\ id ∉ result_ids ms) ->
  (forall id, id ∈ call_ids ms -> id ∉ result_ids ms -> id ∈ map tc_id (message_calls content)) /\
  message_calls content <> [] /\
  forallb (result_for (map tc_id (message_calls content))) trailing = true.
Proof.
  intros ms Hx Hok Hno (id0 & Hc0 & Hr0).
  apply inspect_ok_accounted in Hok as [(_ & _ & _ & Ho) _].
  unfold ms in Ho. rewrite <- app_assoc in Ho. simpl in Ho.
  destruct (ordered_split [] pre (trailing ++ extra) (AssistantMsg content) eq_refl Ho) as (Ht & Hpre & _).
  assert (Htc : call_ids trailing = []).
  { clear -Hno. induction Hno as [|m ms Hm _ IH]; [done|]. by rewrite call_ids_cons, Hm, IH. }
  assert (Htail : forall id, id ∈ call_ids ms -> id ∉ result_ids ms ->
                  id ∈ map tc_id (message_calls content)).
  { intros id Hid Hnr. unfold ms in *. rewrite call_ids_app, call_ids_cons, Htc, app_nil_r in Hid.
    apply elem_of_app in Hid as [Hid|Hid]; [|done]. exfalso. apply Hnr.
    rewrite result_ids_app. apply elem_of_app. left. by apply Hpre. }
  specialize (Htail id0 Hc0 Hr0) as Hid0.
  assert (Hne : message_calls content <> []) by (intros E; rewrite E in Hid0; set_solver).
  split_and!; [done|done|]. apply forallb_result_for.
  inversion Ht as [|? ? Hc ? _|? ? _ Ho'|]; subst; [simpl in Hc; congruence|].
  apply (ordered_open_results _ trailing extra id0 Ho' Hid0).
  unfold ms in Hr0. rewrite result_ids_app, result_ids_cons in Hr0. set_solver.
Qed.

Lemma repair_outcome (now : nat -> Q) (ms : list AgentMessage) (reason : option string) :
  match repairTranscriptIntegrity now ms reason with
  | Ok ms' => exists added, ms' = ms ++ added /\ forallb is_result added = true /\
      Forall (is_synthetic (default repair_default_reason reason)) added /\
      ok (inspectTranscriptIntegrity ms') = true
  | Err _ => forall extra, forallb is_result extra = true ->
      ok (inspectTranscriptIntegrity (ms ++ extra)) = true -> False
  end.
Proof.
  unfold repairTranscriptIntegrity.
  destruct (List.find not_missing _) as [i|] eqn:F.
  { intros extra Hx Hok. apply accounted_prefix, only_missing_iff in Hok; [congruence|done]. }
  apply only_missing_iff in F.
  assert (Hmiss : forall id, id ∈ dedup (map issue_id (issues (inspectTranscriptIntegrity ms)))
                  <-> id ∈ call_ids ms /\ id ∉ result_ids ms).
  { intros id. rewrite elem_of_dedup. by apply issues_missing_ids. }
  destruct (dedup _) as [|i0 missing] eqn:D.
  { exists []. rewrite app_nil_r. split_and!; [done|done|constructor|].
    apply inspect_ok_accounted. split; [done|]. intros id Hid.
    destruct (decide (id ∈ result_ids ms)) as [|Hn]; [done|].
    exfalso. apply (elem_of_nil id), Hmiss. by split. }
  pose proof (proj1 (Hmiss i0) ltac:(left)) as Hi0.
  pose proof (last_assistant_spec ms) as Hlast. destruct (last_assistant ms) as [[content trailing]|].
  2: { exfalso. enough (call_ids ms = []) as E by (rewrite E in Hi0; set_solver).
       clear -Hlast. induction Hlast as [|m ms Hm _ IH]; [done|]. by rewrite call_ids_cons, Hm, IH. }
  destruct Hlast as [[pre Hms] Htc].
  assert (Hkey := fun extra Hx Hok => completable_tail pre trailing extra content Hx Hok Htc).
  simpl in Hkey. rewrite <- Hms in Hkey.
  destruct (List.find _ (i0 :: missing)) eqn:Fa.
  { intros extra Hx Hok. destruct (Hkey extra Hx Hok) as (Hsub & _ & _); [by exists i0|].
    rewrite (proj2 (find_absent_none _ (i0 :: missing))) in Fa; [done|].
    intros id Hid. apply Hmiss in Hid as [? ?]. by apply Hsub. }
  apply find_absent_none in Fa.
  destruct (forallb (result_for _) trailing) eqn:Ht; simpl.
  2: { intros extra Hx Hok. destruct (Hkey extra Hx Hok) as (_ & _ & H); [by exists i0|congruence]. }
  destruct (append_missing_spec now (default repair_default_reason reason) (i0 :: missing)
              (message_calls content) 0) as (added & -> & Hr & Hsyn & Hids).
  simpl. exists added. split_and!; [done..|]. subst ms.
  assert (Hcid : NoDup (map tc_id (message_calls content))).
  { destruct F as [Hc _]. rewrite call_ids_app, call_ids_cons in Hc. simpl in Hc.
    apply NoDup_app in Hc as (_ & _ & Hc). by apply NoDup_app in Hc as [? _]. }
  assert (Htail : forall id, id ∈ i0 :: missing -> id ∈ map tc_id (message_calls content)) by exact Fa.
  apply repair_balances; [done| | | |done| |].
  - intros E. specialize (Htail i0 ltac:(left)). rewrite E in Htail. set_solver.
  - by apply forallb_result_for in Ht as [? _].
  - intros id Hc Hn. apply Htail, Hmiss. by split.
  - rewrite Hids. by apply NoDup_filter_list.
  - intros id. rewrite Hids, elem_of_filter_list, existsb_eqb_elem, Hmiss. split; [by intros [_ ?]|].
    intros H. split; [|done]. by apply Htail, Hmiss.
Qed.

(** What the inspector accepts, for the property and for other components. *)
Lemma inspect_balanced (ms : list AgentMessage) :
  ok (inspectTranscriptIntegrity ms) = true <-> NoDup (call_ids ms) /\ balanced ms.
Proof.
  rewrite inspect_ok_accounted. split.
  - intros [(Hc & Hr & Hs & Ho) Hsub]. split; [done|].
    destruct (ordered_balanced [] ms Ho) as (rs & ms' & -> & Hrs & Hp & Hb); [done|set_solver|done|].
    apply Permutation_nil_r in Hp.
    destruct rs as [|[| |] rs]; simpl in *; done.
  - intros [Hc Hb]. pose proof (balanced_ids ms Hb) as Hp. split.
    + split_and!; [done|by rewrite Hp| |by apply balanced_ordered]. intros id. by rewrite Hp.
    + intros id. by rewrite Hp.
Qed.

(** A transcript that ends with an assistant message and lacks nothing but
    results lacks those of that message: one result per call completes it. *)
Lemma accepted_turn (pre : list AgentMessage) (content : list Block) :
  List.find not_missing (issues (inspectTranscriptIntegrity (pre ++ [AssistantMsg content]))) = None ->
  NoDup (map tc_id (message_calls content)) /\
  forall added, forallb is_result added = true ->
    result_ids added ≡ₚ map tc_id (message_calls content) ->
    ok (inspectTranscriptIntegrity ((pre ++ [AssistantMsg content]) ++ added)) = true.
Proof.
  rewrite only_missing_iff. intros Hacc. pose proof Hacc as (Hc & Hr & Hs & Ho).
  assert (Hcids : call_ids (pre ++ [AssistantMsg content]) = call_ids pre ++ map tc_id (message_calls content)).
  { by rewrite call_ids_app, call_ids_cons, app_nil_r. }
  assert (Hrids : result_ids (pre ++ [AssistantMsg content]) = result_ids pre).
  { by rewrite result_ids_app, app_nil_r. }
  destruct (ordered_split [] pre [] (AssistantMsg content) eq_refl Ho) as (_ & Hclosed & _). simpl in Hclosed.
  apply ordered_prefix, ordered_results_known in Ho. simpl in Ho.
  rewrite Hcids in Hc. apply NoDup_app in Hc as (_ & Hdis & Hnd). split; [done|]. intros added Hadd Hp.
  destruct (message_calls content) as [|c cs] eqn:Hcalls.
  - apply Permutation_nil_r in Hp. assert (added = []) as ->; [by destruct added as [|[]]|].
    rewrite app_nil_r. apply inspect_ok_accounted. split; [done|].
    rewrite Hcids, Hrids, app_nil_r. done.
  - rewrite <- Hcalls in *. apply (repair_balances pre [] added content); try done.
    + by rewrite Hcalls.
    + intros id Hid Hno. rewrite Hcids in Hid. rewrite Hrids in Hno.
      apply elem_of_app in Hid as [Hid|?]; [|done]. by destruct Hno; apply Hclosed.
    + by rewrite Hp.
    + intros id. rewrite Hp, Hcids, Hrids, elem_of_app. split.
      * intros Hid. split; [by right|]. intros Hin. by apply (Hdis id); [apply Ho|].
      * intros [[Hid|Hid] Hno]; [by destruct Hno; apply Hclosed|done].
Qed.

Lemma balanced_app (a b : list AgentMessage) : balanced a -> balanced b -> balanced (a ++ b).
Proof.
  intros Ha Hb. induction Ha as [|m ms Hc Hr H IH|m rs ms Hc Hr Hp H IH]; [done|by constructor|].
  simpl. rewrite <- app_assoc. by constructor.
Qed.

(** A message without calls may follow a well-formed transcript. *)
Lemma inspect_ok_plain (ms : list AgentMessage) (content : list Block) :
  message_calls content = [] -> ok (inspectTranscriptIntegrity ms) = true ->
  ok (inspectTranscriptIntegrity (ms ++ [AssistantMsg content])) = true.
Proof.
  rewrite !inspect_balanced. intros Hc [Hnd Hb]. split.
  - rewrite call_ids_app, call_ids_cons. simpl. by rewrite Hc, app_nil_r.
  - apply balanced_app; [done|]. by repeat constructor.
Qed.

(** The rest of a well-formed transcript that does not start in the middle of
    a group of results is well formed. *)
Lemma balanced_app_r (a b : list AgentMessage) :
  balanced (a ++ b) -> (forall m, head b = Some m -> is_result m = false) -> balanced b.
Proof.
  intros H Hb. remember (a ++ b) as ms eqn:E. revert a E.
  induction H as [|m ms Hc Hr H IH|m rs ms Hc Hr Hp H IH]; intros a E.
  - symmetry in E. apply app_eq_nil in E as [_ ->]. constructor.
  - destruct a as [|x a]; simpl in E; [rewrite <- E; by constructor|].
    injection E as _ E. by apply (IH a).
  - destruct a as [|x a]; simpl in E; [rewrite <- E; by constructor|]. injection E as _ E.
    apply app_eq_app in E as [l [[-> ->]|[-> ->]]].
    + destruct l as [|y l]; [done|]. rewrite forallb_app in Hr. simpl in Hr. breflect.
      specialize (Hb y eq_refl). congruence.
    + by apply (IH l).
Qed.

(** ** Properties *)

(** The inspector accepts exactly the well-formed transcripts:
    no call identifier is used twice, every message with tool calls is directly
    followed by exactly one result per call, in any order, and no other result
    occurs anywhere. *)
Theorem inspect_ok_iff (ms : list AgentMessage) :
  ok (inspectTranscriptIntegrity ms) = true <-> NoDup (call_ids ms) /\ balanced ms.
Proof. apply inspect_balanced. Qed.

(** A repair that succeeds returns a well-formed transcript: the
    original messages, unchanged, followed only by synthetic error results
    marked as never executed; and repairing the outcome again, whatever the
    clock and the reason, changes nothing. *)
Theorem repair_sound (now now' : nat -> Q) (ms ms' : list AgentMessage) (reason reason' : option string) :
  repairTranscriptIntegrity now ms reason = Ok ms' ->
  ok (inspectTranscriptIntegrity ms') = true /\
  (exists added, ms' = ms ++ added /\
     Forall (is_synthetic (default repair_default_reason reason)) added) /\
  repairTranscriptIntegrity now' ms' reason' = Ok ms'.
Proof.
  intros H. pose proof (repair_outcome now ms reason) as Ho. rewrite H in Ho.
  destruct Ho as (added & Hms' & _ & Hsyn & Hok). split_and!; [done|eauto|].
  unfold repairTranscriptIntegrity.
  assert (issues (inspectTranscriptIntegrity ms') = []) as ->; [|done].
  simpl in *. apply Nat.eqb_eq in Hok. by apply length_zero_iff_nil.
Qed.

(** Repair fails closed but never needlessly: it succeeds exactly
    on the transcripts that some appended tool results would make well formed. *)
Theorem repair_iff_completable (now : nat -> Q) (ms : list AgentMessage) (reason : option string) :
  is_ok (repairTranscriptIntegrity now ms reason) = true <->
  exists extra, forallb is_result extra = true /\
    ok (inspectTranscriptIntegrity (ms ++ extra)) = true.
Proof.
  pose proof (repair_outcome now ms reason) as Ho.
  destruct (repairTranscriptIntegrity now ms reason) as [ms'|e]; simpl.
  - destruct Ho as (added & -> & Hr & _ & Hok). split; [by exists added|done].
  - split; [done|]. intros (extra & Hx & Hok). by apply Ho in Hok.
Qed.

(** The disposition-specific invariants, as a table. *)
Definition envelope_allowed (i : ToolResultEnvelopeInput) : bool :=
  match timeoutMs i with
  | Some (NumFin q) => negb (Qle_bool q 0)
  | Some _ => false
  | None => true
  end &&
  match disposition i with
  | completed => negb (synthetic i) && executionStarted i && bool_decide (timeoutMs i = None)
  | failed => (synthetic i || executionStarted i) && bool_decide (timeoutMs i = None)
  | blocked | skipped => synthetic i && negb (executionStarted i) && bool_decide (timeoutMs i = None)
  | aborted => synthetic i && bool_decide (timeoutMs i = None)
  | timeout => synthetic i && executionStarted i && bool_decide (timeoutMs i <> None)
  end.

(** The executor can build an envelope exactly for the allowed
    combinations of disposition, synthetic flag, execution flag and timeout (a
    positive finite timeout for [timeout], none otherwise); every envelope it
    builds passes the validator, and every other input throws. *)
Theorem createToolResultEnvelope_iff (i : ToolResultEnvelopeInput) :
  createToolResultEnvelope i =
  if envelope_allowed i then Ok (envelope_value i)
  else Err ("Invalid tool-result/v2 " ++ disposition_str (disposition i) ++ " envelope")%string.
Proof.
  assert (H : isToolResultEnvelope (envelope_value i) = envelope_allowed i).
  { unfold envelope_allowed, isToolResultEnvelope.
    destruct i as [[] [] [r|] [[|neg|q]|] []]; cbn; try reflexivity; by destruct (Qle_bool q 0). }
  unfold createToolResultEnvelope. rewrite H. by destruct (envelope_allowed i).
Qed.

(** ** A concrete transcript *)

Definition sample_call (id : string) : Block := ToolCallBlock {| tc_id := id; tc_name := "read" |}.

Definition sample_result (id : string) : AgentMessage :=
  ToolResultMsg {| toolCallId := id; toolName := "read"; tr_content := JArray []; details := JUndefined;
                   isError := false; timestamp := NumFin 1 |}.

(** Two calls, of which the run was interrupted before the second returned. *)
Definition interrupted : list AgentMessage :=
  [OtherMsg "user" JNull; AssistantMsg [sample_call "a"; OtherBlock JNull; sample_call "b"];
   sample_result "a"].

Example interrupted_report :
  map issue_id (issues (inspectTranscriptIntegrity interrupted)) = ["b"].
Proof. vm_compute. reflexivity. Qed.

Lemma repair_sound_witness :
  exists ms', repairTranscriptIntegrity (fun _ => 7%Q) interrupted None = Ok ms' /\
    ok (inspectTranscriptIntegrity ms') = true.
Proof.
  eexists. split; [vm_compute; reflexivity|].
  refine (proj1 (repair_sound (fun _ => 7%Q) (fun _ => 7%Q) interrupted _ None None _)).
  vm_compute. reflexivity.
Defined.
