(* ===== verification/WorkPacket.v ===== *)
(** * Work packets and their state machine

    packages/adaptorch-wpl/src/types.ts and state-machine.ts. Counters of the
    source (attempts, retries) are the integers they are. [toISOString] of the
    wall clock is the argument [now]; the decimal rendering [JSON.stringify]
    uses is the parameter [num_str]. *)

From Stdlib Require Import String ZArith Lia.
From stdpp Require Import base list option strings sets.
From S2P Require Import Prelude JsString JsValue.

Open Scope list_scope.

(** ** types.ts *)

Inductive WorkPacketState : Type :=
| DRAFTED
| ROUTED
| AWAITING_APPROVAL
| DISPATCHED
| ACTIVE
| HALTING
| RAW_TERMINAL
| UNDER_REVIEW
| ADJUDICATION_FAILED
| CONFIRMED
| DECLINED
| RETRY_QUEUED
| ESCALATED
| CLOSED.

#[export] Instance WorkPacketState_eq_dec : EqDecision WorkPacketState.
Proof. solve_decision. Defined.

Inductive CardinalityMode : Type :=
| single_call
| fanout_n.

Inductive TopologyClassification : Type :=
| singleton
| pipeline
| dag
| ensemble.

#[export] Instance TopologyClassification_eq_dec : EqDecision TopologyClassification.
Proof. solve_decision. Defined.

Inductive DispatchMode : Type :=
| blocking
| polling.

Record DispatchRecord : Type := {
  attempt_n : Z;
  cardinality_mode : CardinalityMode;
  run_ids : list string;
  submitted_at : string;
  mode : DispatchMode;
  terminal_status : option string;
  terminal_at : option string;
}.

Record TransitionLogEntry : Type := {
  log_from : WorkPacketState;
  log_to : WorkPacketState;
  log_at : string;
  log_cause : string;
}.

Record TopologyDecision : Type := {
  classification : TopologyClassification;
  decided_at : string;
  raw_route_response : jsval;
}.

Record AttemptBudget : Type := {
  max_dispatch_attempts : Z;
  dispatch_attempts_used : Z;
}.

Record WorkPacket : Type := {
  packet_id : string;
  packet_kind : string;
  created_at : string;
  payload : jsval;
  topology_decision : option TopologyDecision;
  dispatch_records : list DispatchRecord;
  state : WorkPacketState;
  retry_count : Z;
  transition_log : list TransitionLogEntry;
  last_adjudication_ref : option string;
  attempt_budget : AttemptBudget;
  last_human_approved_payload : jsval;
}.

Record CapacityGovernorThresholds : Type := {
  saturation_threshold : jsnum;
  sustained_duration_ms : jsnum;
  reduced_concurrency_ceiling : jsnum;
}.

Record LoopConfig : Type := {
  loop_instance_id : string;
  max_dispatch_attempts_per_packet : Z;
  max_loop_duration_ms : jsnum;
  max_total_dispatch_calls : Z;
  stagnation_repeat_threshold : Z;
  capacity_governor_thresholds : CapacityGovernorThresholds;
  pre_approved_batch : bool;
  observed_cardinality_mode : option CardinalityMode;
}.

(** ** state-machine.ts *)

Definition TRANSITIONS (from : WorkPacketState) : list WorkPacketState :=
  match from with
  | DRAFTED => [ROUTED]
  | ROUTED => [AWAITING_APPROVAL; DISPATCHED]
  | AWAITING_APPROVAL => [DISPATCHED; CLOSED]
  | DISPATCHED => [ACTIVE; RAW_TERMINAL; CLOSED]
  | ACTIVE => [RAW_TERMINAL; HALTING; CLOSED]
  | HALTING => [RAW_TERMINAL; CLOSED]
  | RAW_TERMINAL => [UNDER_REVIEW; ADJUDICATION_FAILED]
  | UNDER_REVIEW => [ADJUDICATION_FAILED; CONFIRMED; DECLINED]
  | ADJUDICATION_FAILED => [UNDER_REVIEW; ESCALATED]
  | CONFIRMED => [CLOSED]
  | DECLINED => [ESCALATED; RETRY_QUEUED; CLOSED]
  | RETRY_QUEUED => [ROUTED]
  | ESCALATED => [RETRY_QUEUED; CLOSED]
  | CLOSED => []
  end.

Definition canTransition (from to : WorkPacketState) : bool := bool_decide (to ∈ TRANSITIONS from).

Definition state_str (s : WorkPacketState) : string :=
  match s with
  | DRAFTED => "DRAFTED"
  | ROUTED => "ROUTED"
  | AWAITING_APPROVAL => "AWAITING_APPROVAL"
  | DISPATCHED => "DISPATCHED"
  | ACTIVE => "ACTIVE"
  | HALTING => "HALTING"
  | RAW_TERMINAL => "RAW_TERMINAL"
  | UNDER_REVIEW => "UNDER_REVIEW"
  | ADJUDICATION_FAILED => "ADJUDICATION_FAILED"
  | CONFIRMED => "CONFIRMED"
  | DECLINED => "DECLINED"
  | RETRY_QUEUED => "RETRY_QUEUED"
  | ESCALATED => "ESCALATED"
  | CLOSED => "CLOSED"
  end.

Definition applyTransition (packet : WorkPacket) (to : WorkPacketState) (cause now : string)
    : result string WorkPacket :=
  if negb (canTransition (state packet) to)
  then Err ("Illegal work packet transition: " ++ state_str (state packet) ++ " -> " ++ state_str to
            ++ " for packet " ++ packet_id packet ++ " (cause: " ++ cause ++ ")")%string
  else Ok {| packet_id := packet_id packet; packet_kind := packet_kind packet;
             created_at := created_at packet; payload := payload packet;
             topology_decision := topology_decision packet;
             dispatch_records := dispatch_records packet;
             state := to;
             retry_count := retry_count packet;
             transition_log := transition_log packet
               ++ [{| log_from := state packet; log_to := to; log_at := now; log_cause := cause |}];
             last_adjudication_ref := last_adjudication_ref packet;
             attempt_budget := attempt_budget packet;
             last_human_approved_payload := last_human_approved_payload packet |}.

Definition isTerminalState (s : WorkPacketState) : bool := bool_decide (s = CLOSED).

Section Approval.
Context (num_str : QArith_base.Q -> string).

Definition requiresHumanApproval (packet : WorkPacket) (newPayload : jsval)
    (newTopology : option TopologyClassification) (loopConfig : LoopConfig) : bool :=
  if pre_approved_batch loopConfig then false
  else
    let payloadChanged :=
      negb (bool_decide (json_stringify num_str newPayload
                         = json_stringify num_str (last_human_approved_payload packet))) in
    let topologyChanged :=
      match newTopology, topology_decision packet with
      | Some t, Some d => negb (bool_decide (t = classification d))
      | _, _ => false
      end in
    payloadChanged || topologyChanged.
End Approval.

(** ** Runs of the machine *)

(** A packet as it is first drafted. *)
Definition drafted (p : WorkPacket) : Prop := state p = DRAFTED /\ transition_log p = [].

(** The packets some sequence of successful [applyTransition] calls leads to. *)
Inductive reachable (p0 : WorkPacket) : WorkPacket -> Prop :=
| reach_refl : reachable p0 p0
| reach_step (p p' : WorkPacket) (to : WorkPacketState) (cause now : string) :
    reachable p0 p -> applyTransition p to cause now = Ok p' -> reachable p0 p'.

(** Consecutive entries meet, every entry is legal, and the chain leads from
    [a] to [b]. *)
Inductive legal_chain : WorkPacketState -> list TransitionLogEntry -> WorkPacketState -> Prop :=
| chain_nil (a : WorkPacketState) : legal_chain a [] a
| chain_snoc (a b : WorkPacketState) (log : list TransitionLogEntry) (e : TransitionLogEntry) :
    legal_chain a log b -> log_from e = b -> canTransition b (log_to e) = true ->
    legal_chain a (log ++ [e]) (log_to e).

(** What a packet in a state must have gone through, in this order. *)
Definition required_trail (s : WorkPacketState) : list WorkPacketState :=
  match s with
  | DRAFTED => []
  | ROUTED => [ROUTED]
  | AWAITING_APPROVAL => [ROUTED; AWAITING_APPROVAL]
  | DISPATCHED => [ROUTED; DISPATCHED]
  | ACTIVE => [ROUTED; DISPATCHED; ACTIVE]
  | HALTING => [ROUTED; DISPATCHED; ACTIVE; HALTING]
  | RAW_TERMINAL => [ROUTED; DISPATCHED; RAW_TERMINAL]
  | UNDER_REVIEW => [ROUTED; DISPATCHED; RAW_TERMINAL; UNDER_REVIEW]
  | ADJUDICATION_FAILED => [ROUTED; DISPATCHED; RAW_TERMINAL; ADJUDICATION_FAILED]
  | CONFIRMED => [ROUTED; DISPATCHED; RAW_TERMINAL; UNDER_REVIEW; CONFIRMED]
  | DECLINED => [ROUTED; DISPATCHED; RAW_TERMINAL; UNDER_REVIEW; DECLINED]
  | RETRY_QUEUED => [ROUTED; DISPATCHED; RAW_TERMINAL; RETRY_QUEUED]
  | ESCALATED => [ROUTED; DISPATCHED; RAW_TERMINAL; ESCALATED]
  | CLOSED => [ROUTED; CLOSED]
  end.

Definition all_states : list WorkPacketState :=
  [DRAFTED; ROUTED; AWAITING_APPROVAL; DISPATCHED; ACTIVE; HALTING; RAW_TERMINAL; UNDER_REVIEW;
   ADJUDICATION_FAILED; CONFIRMED; DECLINED; RETRY_QUEUED; ESCALATED; CLOSED].

(** Is [CLOSED] at most [fuel] transitions away? *)
Fixpoint closable (fuel : nat) (s : WorkPacketState) : bool :=
  match fuel with
  | O => isTerminalState s
  | S fuel' => isTerminalState s || existsb (closable fuel') (TRANSITIONS s)
  end.

(** Greedy subsequence test. *)
Fixpoint is_subseq (l k : list WorkPacketState) : bool :=
  match l, k with
  | [], _ => true
  | _ :: _, [] => false
  | x :: l', y :: k' => if bool_decide (x = y) then is_subseq l' k' else is_subseq l k'
  end.

(** ** Lemmas *)

Lemma is_subseq_sublist (l k : list WorkPacketState) : is_subseq l k = true -> sublist l k.
Proof.
  revert l; induction k as [|y k IH]; intros [|x l] H; simpl in H; try done.
  - apply sublist_nil_l.
  - destruct (bool_decide_reflect (x = y)) as [->|]; [by apply sublist_skip, IH|].
    by apply sublist_cons, IH.
Qed.

Lemma all_states_in (s : WorkPacketState) : s ∈ all_states.
Proof. unfold all_states. destruct s; set_solver. Qed.

Lemma applyTransition_Ok (p p' : WorkPacket) (to : WorkPacketState) (cause now : string) :
  applyTransition p to cause now = Ok p' <->
  canTransition (state p) to = true /\
  state p' = to /\
  transition_log p' = transition_log p
    ++ [{| log_from := state p; log_to := to; log_at := now; log_cause := cause |}] /\
  packet_id p' = packet_id p /\ packet_kind p' = packet_kind p /\ created_at p' = created_at p /\
  payload p' = payload p /\ topology_decision p' = topology_decision p /\
  dispatch_records p' = dispatch_records p /\ retry_count p' = retry_count p /\
  last_adjudication_ref p' = last_adjudication_ref p /\ attempt_budget p' = attempt_budget p /\
  last_human_approved_payload p' = last_human_approved_payload p.
Proof.
  unfold applyTransition. destruct (canTransition (state p) to); simpl; split.
  - intros [= <-]. simpl. auto 15.
  - destruct p'. simpl. intros (_ & -> & -> & -> & -> & -> & -> & -> & -> & -> & -> & -> & ->). done.
  - done.
  - by intros [? _].
Qed.

Lemma required_trail_step (a b : WorkPacketState) :
  canTransition a b = true -> sublist (required_trail b) (required_trail a ++ [b]).
Proof.
  intros H.
  assert (Hall : forallb (fun a => forallb (fun b =>
      negb (canTransition a b) || is_subseq (required_trail b) (required_trail a ++ [b]))
      all_states) all_states = true) by (vm_compute; reflexivity).
  rewrite forallb_true_iff in Hall. specialize (Hall a (all_states_in a)).
  rewrite forallb_true_iff in Hall. specialize (Hall b (all_states_in b)).
  rewrite H in Hall. simpl in Hall. by apply is_subseq_sublist.
Qed.

Lemma reachable_chain (p0 p : WorkPacket) :
  drafted p0 -> reachable p0 p -> legal_chain DRAFTED (transition_log p) (state p).
Proof.
  intros [Hs Hl]. induction 1 as [|p p' to cause now _ IH H].
  - rewrite Hs, Hl. constructor.
  - apply applyTransition_Ok in H as (Hc & -> & -> & _).
    apply (chain_snoc DRAFTED (state p) (transition_log p)
             {| log_from := state p; log_to := to; log_at := now; log_cause := cause |}); done.
Qed.

Lemma chain_trail (log : list TransitionLogEntry) (s : WorkPacketState) :
  legal_chain DRAFTED log s -> sublist (required_trail s) (map log_to log).
Proof.
  remember DRAFTED as a eqn:Ha. induction 1 as [a|a b log e Hch IH Hf Hc]; subst; [done|].
  specialize (IH eq_refl). rewrite map_app. simpl.
  etransitivity; [by apply required_trail_step|]. by apply sublist_app.
Qed.

Lemma closable_reaches (fuel : nat) (p : WorkPacket) :
  closable fuel (state p) = true -> exists p', reachable p p' /\ state p' = CLOSED.
Proof.
  revert p; induction fuel as [|fuel IH]; intros p H; simpl in H.
  { apply bool_decide_eq_true in H. exists p. split; [constructor|done]. }
  apply orb_true_iff in H as [H|H].
  { apply bool_decide_eq_true in H. exists p. split; [constructor|done]. }
  apply existsb_true_iff in H as (to & Hto & Hc).
  destruct (applyTransition p to EmptyString EmptyString) as [q|e] eqn:E.
  2: { unfold applyTransition, canTransition in E. by rewrite bool_decide_true in E. }
  pose proof E as E'. apply applyTransition_Ok in E' as (_ & Hq & _). rewrite <- Hq in Hc.
  destruct (IH q Hc) as (p' & Hr & Hp'). exists p'. split; [|done].
  clear -E Hr. induction Hr as [|p1 p2 to' c n _ IHr H]; [|by eapply reach_step].
  eapply reach_step; [constructor|exact E].
Qed.

(** ** Properties *)

(** In every run of the machine that starts from a freshly drafted
    packet, the transition log is the run: its entries meet end to end, each is
    a legal transition, and they lead from DRAFTED to the packet's state. A
    packet in a state has passed, in order, all the stages that state requires;
    in particular it is CONFIRMED only after having been routed, dispatched,
    raw-terminal and under review. Nothing but the state and the log changes. *)
Theorem reachable_log_trail (p0 p : WorkPacket) :
  drafted p0 -> reachable p0 p ->
  legal_chain DRAFTED (transition_log p) (state p) /\
  sublist (required_trail (state p)) (map log_to (transition_log p)) /\
  packet_id p = packet_id p0 /\ payload p = payload p0 /\ retry_count p = retry_count p0 /\
  attempt_budget p = attempt_budget p0 /\ dispatch_records p = dispatch_records p0.
Proof.
  intros H0 Hr. pose proof (reachable_chain p0 p H0 Hr) as Hc.
  split; [done|]. split; [by apply chain_trail|].
  clear H0 Hc. induction Hr as [|p p' to cause now _ IH H]; [done|].
  apply applyTransition_Ok in H as (_ & _ & _ & -> & _ & _ & -> & _ & -> & -> & _ & -> & _). done.
Qed.

(** CLOSED is the one dead end of the machine: a state is terminal
    exactly when every transition from it is refused, and from any packet
    whatever its state some sequence of legal transitions reaches CLOSED. *)
Theorem closed_is_the_dead_end (p : WorkPacket) :
  (isTerminalState (state p) = true <->
   forall to cause now, is_ok (applyTransition p to cause now) = false) /\
  exists p', reachable p p' /\ isTerminalState (state p') = true.
Proof.
  split.
  - assert (Hok : forall to cause now,
      is_ok (applyTransition p to cause now) = canTransition (state p) to).
    { intros. unfold applyTransition. by destruct (canTransition (state p) to). }
    setoid_rewrite Hok. unfold isTerminalState, canTransition. rewrite bool_decide_eq_true.
    split; [by intros -> to|]. intros H.
    destruct (state p); try done; exfalso;
      (specialize (H ROUTED EmptyString EmptyString) as H1;
       specialize (H CLOSED EmptyString EmptyString) as H2;
       specialize (H UNDER_REVIEW EmptyString EmptyString) as H3;
       specialize (H DISPATCHED EmptyString EmptyString) as H4;
       specialize (H CONFIRMED EmptyString EmptyString) as H5;
       vm_compute in H1, H2, H3, H4, H5; congruence).
  - destruct (closable_reaches 8 p) as (p' & Hr & Hp'); [by destruct (state p)|].
    exists p'. split; [done|]. by apply bool_decide_eq_true.
Qed.

(** ** A concrete packet *)

Definition sample_packet : WorkPacket :=
  {| packet_id := "p1"; packet_kind := "doc"; created_at := "t0"; payload := JNull;
     topology_decision := None; dispatch_records := []; state := DRAFTED; retry_count := 0;
     transition_log := []; last_adjudication_ref := None;
     attempt_budget := {| max_dispatch_attempts := 3; dispatch_attempts_used := 0 |};
     last_human_approved_payload := JNull |}.

(** A sequence of transitions, as a fold of [applyTransition]. *)
Definition run_states (p : WorkPacket) (states : list WorkPacketState) : result string WorkPacket :=
  foldl (fun r s => q <-? r ;; applyTransition q s "step" "t1") (Ok p) states.

Lemma run_states_reachable (p q : WorkPacket) (states : list WorkPacketState) :
  run_states p states = Ok q -> reachable p q.
Proof.
  revert q; induction states as [|s states IH] using rev_ind; intros q.
  - intros [= <-]. constructor.
  - unfold run_states in *. rewrite foldl_app. simpl. intros H.
    apply result_bind_Ok in H as (r & Hr & H). eapply reach_step; [by apply IH|exact H].
Qed.

Definition sample_path : list WorkPacketState :=
  [ROUTED; DISPATCHED; ACTIVE; RAW_TERMINAL; ADJUDICATION_FAILED; UNDER_REVIEW; CONFIRMED].

Lemma reachable_log_trail_witness :
  sublist [ROUTED; DISPATCHED; RAW_TERMINAL; UNDER_REVIEW; CONFIRMED] sample_path.
Proof.
  destruct (run_states sample_packet sample_path) as [p|e] eqn:E; [|discriminate E].
  assert (Hs : state p = CONFIRMED /\ map log_to (transition_log p) = sample_path).
  { vm_compute in E. injection E as <-. split; reflexivity. }
  destruct Hs as [Hs Hl]. rewrite <- Hl.
  pose proof (proj1 (proj2 (reachable_log_trail sample_packet p (conj eq_refl eq_refl)
                              (run_states_reachable _ _ _ E)))) as H.
  rewrite Hs in H. exact H.
Defined.
