(* ===== verification/Adjudicator.v ===== *)
(** * The outcome adjudicator

    packages/adaptorch-wpl/src/adjudicator-registry.ts, adjudicator.ts and the
    read calls of adaptorch-client.ts. The transport behind the client is not
    in the repository: [callTool] is a parameter over an arbitrary state of the
    world, and may fail (the error's message is kept). Hooks of a registry
    entry may throw as well. [num_to_str] renders a number in a template. *)

From Stdlib Require Import String ZArith QArith Lia.
From stdpp Require Import base list option strings sets.
From S2P Require Import Prelude JsString JsValue.

Open Scope nat_scope.
Open Scope list_scope.

(** ** adjudicator-registry.ts *)

Inductive VerdictState : Type :=
| V_CONFIRMED
| V_CONTRADICTED
| V_CORROBORATED_FAILURE
| V_INDETERMINATE
| V_VERIFIER_ERROR.

#[export] Instance VerdictState_eq_dec : EqDecision VerdictState.
Proof. solve_decision. Defined.

Definition verdict_str (v : VerdictState) : string :=
  match v with
  | V_CONFIRMED => "CONFIRMED"
  | V_CONTRADICTED => "CONTRADICTED"
  | V_CORROBORATED_FAILURE => "CORROBORATED-FAILURE"
  | V_INDETERMINATE => "INDETERMINATE"
  | V_VERIFIER_ERROR => "VERIFIER-ERROR"
  end.

Inductive AdjudicationReasonCode : Type :=
| SCOPE_VIOLATION
| SCHEMA_DRIFT
| CONTENT_CHECK_FAILED
| NO_EVIDENCE_ON_SUCCESS
| EMPTY_ARTIFACT_CONTENT
| TRACE_CHECK_FAILED
| TRACE_ERROR_SPAN
| MIN_ACTIONS_UNMET
| RUN_STATUS_UNPARSEABLE
| RUN_FETCH_FAILED
| MALFORMED_REQUEST
| RUN_NOT_TERMINAL
| EVIDENCE_EMPTY
| FAILURE_REPORTED
| ALL_CHECKS_PASSED.

#[export] Instance AdjudicationReasonCode_eq_dec : EqDecision AdjudicationReasonCode.
Proof. solve_decision. Defined.

Definition ADJUDICATION_REASON_CODES : list AdjudicationReasonCode :=
  [SCOPE_VIOLATION; SCHEMA_DRIFT; CONTENT_CHECK_FAILED; NO_EVIDENCE_ON_SUCCESS;
   EMPTY_ARTIFACT_CONTENT; TRACE_CHECK_FAILED; TRACE_ERROR_SPAN; MIN_ACTIONS_UNMET;
   RUN_STATUS_UNPARSEABLE; RUN_FETCH_FAILED; MALFORMED_REQUEST; RUN_NOT_TERMINAL;
   EVIDENCE_EMPTY; FAILURE_REPORTED; ALL_CHECKS_PASSED].

Definition reduceReasonCodes (codes : list AdjudicationReasonCode) : AdjudicationReasonCode :=
  default ALL_CHECKS_PASSED
    (List.find (fun code => bool_decide (code ∈ codes)) ADJUDICATION_REASON_CODES).

Record CheckResult : Type := {
  cr_ok : bool;
  cr_reason : option string;
  cr_code : option AdjudicationReasonCode;
}.

Record VerifierRegistryEntry : Type := {
  entry_kind : string;
  allow_zero_artifacts : option bool;
  expected_artifact_kinds : option (list string);
  expected_min_actions : option jsnum;
  no_retry_masking : option bool;
  no_evidence_on_success_is_contradiction : option bool;
  content_check : option (jsval -> result string CheckResult);
  trace_check : option (jsval -> result string CheckResult);
  build_augmented_payload : option (VerdictState -> jsval -> jsval -> result string jsval);
}.

Definition DEFAULT_VERIFIER : VerifierRegistryEntry :=
  {| entry_kind := "DEFAULT"; allow_zero_artifacts := Some false; expected_artifact_kinds := None;
     expected_min_actions := None; no_retry_masking := None;
     no_evidence_on_success_is_contradiction := None; content_check := None; trace_check := None;
     build_augmented_payload := None |}.

Definition createVerifierRegistry (entries : list VerifierRegistryEntry) (kind : string)
    : VerifierRegistryEntry :=
  let byKind := foldl (fun m entry => map_set (entry_kind entry) entry m) [] entries in
  default DEFAULT_VERIFIER (map_get kind byKind).

(** ** adjudicator.ts: data *)

Record AdjudicationRequest : Type := {
  dispatch_record_id : string;
  kind : string;
  req_run_ids : list string;
}.

(** The evidence snapshot: a field is absent until its fetch returned. *)
Record RunEvidence : Type := {
  ev_run : option jsval;
  ev_artifacts : option jsval;
  ev_traces : option jsval;
}.

(** [RunOutcome] and [PerRunVerdict] have the same fields up to a name. *)
Record PerRunVerdict : Type := {
  run_id : string;
  verdict : VerdictState;
  reason_code : AdjudicationReasonCode;
  reason : string;
  evidence_refs : RunEvidence;
}.

Record AdjudicationResult : Type := {
  res_verdict : VerdictState;
  res_reason_code : AdjudicationReasonCode;
  res_reason : string;
  per_run : list PerRunVerdict;
  augmented_payload : option jsval;
}.

Definition NON_TERMINAL_STATUSES : list string :=
  ["pending"; "queued"; "running"; "in_progress"; "in-progress"; "scheduled"; "dispatched";
   "starting"; "initializing"].
Definition SUCCESS_STATUSES : list string :=
  ["completed"; "success"; "succeeded"; "done"; "ok"; "finished"].
Definition FAILURE_STATUSES : list string :=
  ["failed"; "failure"; "error"; "errored"; "cancelled"; "canceled"; "timeout"; "timed_out"; "aborted"].

Inductive RunStatusBranch : Type :=
| BrNonTerminal
| BrSuccess
| BrFailure
| BrUnparseable.

#[export] Instance RunStatusBranch_eq_dec : EqDecision RunStatusBranch.
Proof. solve_decision. Defined.

(** ** adjudicator.ts: reading untyped payloads *)

(** The loop of [readStringField] over the keys of a record. *)
Fixpoint read_first (value : jsval) (keys : list string) : option string :=
  match keys with
  | [] => None
  | key :: rest =>
      match get_prop key value with
      | JString s => Some s
      | _ => read_first value rest
      end
  end.

Definition readStringField (value : jsval) (keys : list string) : option string :=
  if negb (is_object value) then None else read_first value keys.

Definition str_in (s : string) (l : list string) : bool := existsb (String.eqb s) l.

Definition interpretRunStatus (run : jsval) : RunStatusBranch :=
  match readStringField run ["status"; "state"] with
  | None => BrUnparseable
  | Some status =>
      let normalized := toLowerCase status in
      if str_in normalized NON_TERMINAL_STATUSES then BrNonTerminal
      else if str_in normalized SUCCESS_STATUSES then BrSuccess
      else if str_in normalized FAILURE_STATUSES then BrFailure
      else BrUnparseable
  end.

Fixpoint first_array (value : jsval) (keys : list string) : option (list jsval) :=
  match keys with
  | [] => None
  | key :: rest =>
      match get_prop key value with
      | JArray l => Some l
      | _ => first_array value rest
      end
  end.

Definition LIST_KEYS : list string :=
  ["items"; "artifacts"; "traces"; "spans"; "entries"; "data"; "results"].

Definition asList (value : jsval) : list jsval :=
  match value with
  | JNull | JUndefined => []
  | JArray l => l
  | JObject _ =>
      match first_array value LIST_KEYS with
      | Some l => l
      | None => [value]
      end
  | _ => [value]
  end.

Definition nonblank (s : string) : bool := negb (is_empty (trim s)).

Definition hasSubstance (item : jsval) : bool :=
  match item with
  | JString s => nonblank s
  | JObject _ | JArray _ =>
      match nullish (nullish (get_prop "size" item) (get_prop "byteLength" item)) (get_prop "length" item) with
      | JNumber n => num_lt (num_of_nat 0) n
      | _ =>
          match readStringField item ["content"; "text"; "body"] with
          | Some text => nonblank text
          | None => true
          end
      end
  | _ => true
  end.

(** One span of [countErrorSpans]. *)
Definition is_error_span (span : jsval) : bool :=
  if negb (is_object span) then false
  else if match readStringField span ["level"; "severity"; "status"] with
          | Some level => String.eqb (toLowerCase level) "error"
          | None => false
          end then true
  else is_true (get_prop "error" span) || is_true (get_prop "isError" span).

Definition countErrorSpans (traces : list jsval) : nat := length (List.filter is_error_span traces).

Definition span_marker (span : jsval) : option string :=
  readStringField span ["action"; "tool_call"; "toolCall"; "kind"; "type"].

(** The case-insensitive alternation of five words. *)
Definition is_action_marker (marker : string) : bool :=
  let m := toLowerCase marker in
  existsb (fun w => includes w m) ["action"; "tool"; "write"; "edit"; "call"].

Definition countActionSpans (traces : list jsval) : nat :=
  let markers := omap span_marker traces in
  if (0 <? length markers)%nat then length (List.filter is_action_marker markers)
  else length traces.

(** ** adjudicator.ts: one run *)

Section Adjudicate.
Context {W : Type} (callTool : string -> jsval -> W -> result string jsval * W).
Context (num_to_str : jsnum -> string).

(** The three read methods of [AdaptOrchClient]. *)
Definition run_args (runId : string) : jsval := JObject [("run_id", JString runId)].
Definition getRun (runId : string) : W -> result string jsval * W :=
  callTool "adaptorch_get_run" (run_args runId).
Definition getArtifacts (runId : string) : W -> result string jsval * W :=
  callTool "adaptorch_get_artifacts" (run_args runId).
Definition getTraces (runId : string) : W -> result string jsval * W :=
  callTool "adaptorch_get_traces" (run_args runId).

Definition with_detail (head : string) (r : option string) : string :=
  match r with
  | Some s => if is_empty s then head else (head ++ ": " ++ s)%string
  | None => head
  end.

Definition problem : Type := (AdjudicationReasonCode * string)%type.

(** The problem a check result reports, if any. *)
Definition check_problem (fallback : AdjudicationReasonCode) (head : string) (r : CheckResult)
    : list problem :=
  if cr_ok r then [] else [(default fallback (cr_code r), with_detail head (cr_reason r))].

(** The [content_check] loop over the artifacts; a throwing hook ends it. *)
Fixpoint content_problems (check : jsval -> result string CheckResult) (artifacts : list jsval)
    : result string (list problem) :=
  match artifacts with
  | [] => Ok []
  | artifact :: rest =>
      r <-? check artifact ;;
      more <-? content_problems check rest ;;
      Ok (check_problem CONTENT_CHECK_FAILED "content-check-failed" r ++ more)
  end.

Definition truthy (b : option bool) : bool := default false b.

Definition min_actions_problem (entry : VerifierRegistryEntry) (traces : list jsval) : list problem :=
  match expected_min_actions entry with
  | Some n =>
      if num_lt (num_of_nat 0) n then
        let actionCount := countActionSpans traces in
        if num_lt (num_of_nat actionCount) n
        then [(MIN_ACTIONS_UNMET,
               ("expected-min-actions-not-met: found " ++ nat_str actionCount ++ ", needed "
                ++ num_to_str n)%string)]
        else []
      else []
  | None => []
  end.

Definition error_span_problem (traces : list jsval) : list problem :=
  let n := countErrorSpans traces in
  if (0 <? n)%nat
  then [(TRACE_ERROR_SPAN, ("error-span-scan: " ++ nat_str n ++ " error span(s) found")%string)]
  else [].

(** All checks of a successful run, in the order of the code. *)
Definition collect_problems (entry : VerifierRegistryEntry) (artifacts traces : jsval)
    : result string (list problem) :=
  let artifactsList := asList artifacts in
  let tracesList := asList traces in
  let empties := if existsb (fun a => negb (hasSubstance a)) artifactsList
                 then [(EMPTY_ARTIFACT_CONTENT, "artifact-empty-or-whitespace"%string)] else [] in
  contents <-? match content_check entry with
               | None => Ok []
               | Some check => content_problems check artifactsList
               end ;;
  checked <-? match trace_check entry with
              | None => Ok []
              | Some check =>
                  r <-? check traces ;;
                  Ok (check_problem TRACE_CHECK_FAILED "trace-check-failed" r)
              end ;;
  Ok (empties ++ contents ++ checked ++ error_span_problem tracesList
      ++ min_actions_problem entry tracesList).

Definition mk_outcome (runId : string) (v : VerdictState) (code : AdjudicationReasonCode)
    (why : string) (evidence : RunEvidence) : PerRunVerdict :=
  {| run_id := runId; verdict := v; reason_code := code; reason := why; evidence_refs := evidence |}.

(** The [catch] of [adjudicateRun]. *)
Definition run_failed (runId : string) (e : string) (evidence : RunEvidence) : PerRunVerdict :=
  mk_outcome runId V_VERIFIER_ERROR RUN_FETCH_FAILED ("run-adjudication-failed: " ++ e)%string evidence.

(** The judgement once the run, its artifacts and its traces are fetched and
    the run is terminal. *)
Definition judge_evidence (runId : string) (entry : VerifierRegistryEntry) (isSuccess : bool)
    (artifacts traces : jsval) (evidence : RunEvidence) : PerRunVerdict :=
  let artifactsEmpty := (length (asList artifacts) =? 0)%nat in
  let tracesEmpty := (length (asList traces) =? 0)%nat in
  let missingArtifacts := artifactsEmpty && negb (truthy (allow_zero_artifacts entry)) in
  if missingArtifacts || tracesEmpty then
    if isSuccess && artifactsEmpty && tracesEmpty
       && truthy (no_evidence_on_success_is_contradiction entry)
    then mk_outcome runId V_CONTRADICTED NO_EVIDENCE_ON_SUCCESS
           "no-evidence-on-success-is-contradiction" evidence
    else mk_outcome runId V_INDETERMINATE EVIDENCE_EMPTY
           (join "," ((if missingArtifacts then ["artifacts-empty-unexpected"%string] else [])
                      ++ (if tracesEmpty then ["traces-empty-unexpected"%string] else [])))
           evidence
  else if negb isSuccess
  then mk_outcome runId V_CORROBORATED_FAILURE FAILURE_REPORTED "failure-reported" evidence
  else match collect_problems entry artifacts traces with
  | Err e => run_failed runId e evidence
  | Ok [] => mk_outcome runId V_CONFIRMED ALL_CHECKS_PASSED "all-checks-passed" evidence
  | Ok problems =>
      mk_outcome runId V_CONTRADICTED (reduceReasonCodes (map fst problems))
        (join "; " (map snd problems)) evidence
  end.

Definition adjudicateRun (runId : string) (entry : VerifierRegistryEntry) (w : W)
    : PerRunVerdict * W :=
  match getRun runId w with
  | (Err e, w1) => (run_failed runId e {| ev_run := None; ev_artifacts := None; ev_traces := None |}, w1)
  | (Ok run, w1) =>
      let evidence1 := {| ev_run := Some run; ev_artifacts := None; ev_traces := None |} in
      match interpretRunStatus run with
      | BrUnparseable =>
          (mk_outcome runId V_VERIFIER_ERROR RUN_STATUS_UNPARSEABLE "run-status-unparseable" evidence1, w1)
      | BrNonTerminal =>
          (mk_outcome runId V_INDETERMINATE RUN_NOT_TERMINAL "run-not-terminal" evidence1, w1)
      | branch =>
          match getArtifacts runId w1 with
          | (Err e, w2) => (run_failed runId e evidence1, w2)
          | (Ok artifacts, w2) =>
              let evidence2 := {| ev_run := Some run; ev_artifacts := Some artifacts; ev_traces := None |} in
              match getTraces runId w2 with
              | (Err e, w3) => (run_failed runId e evidence2, w3)
              | (Ok traces, w3) =>
                  (judge_evidence runId entry (bool_decide (branch = BrSuccess)) artifacts traces
                     {| ev_run := Some run; ev_artifacts := Some artifacts; ev_traces := Some traces |},
                   w3)
              end
          end
      end
  end.

(** ** adjudicator.ts: the record *)

Definition verdict_priority : list VerdictState :=
  [V_VERIFIER_ERROR; V_CONTRADICTED; V_CORROBORATED_FAILURE; V_INDETERMINATE; V_CONFIRMED].

Definition reduceVerdicts (perRun : list PerRunVerdict) : VerdictState :=
  default V_CONFIRMED
    (List.find (fun st => existsb (fun r => bool_decide (verdict r = st)) perRun) verdict_priority).

Definition sharing (v : VerdictState) (perRun : list PerRunVerdict) : list PerRunVerdict :=
  List.filter (fun r => bool_decide (verdict r = v)) perRun.

Definition buildRecordReason (v : VerdictState) (perRun : list PerRunVerdict) : string :=
  match perRun with
  | [r] => reason r
  | _ => (verdict_str v ++ " via "
          ++ join "; " (map (fun r => (run_id r ++ ": " ++ reason r)%string) (sharing v perRun)))%string
  end.

Definition buildRecordReasonCode (v : VerdictState) (perRun : list PerRunVerdict)
    : AdjudicationReasonCode := reduceReasonCodes (map reason_code (sharing v perRun)).

Fixpoint adjudicate_runs (entry : VerifierRegistryEntry) (runIds : list string) (w : W)
    : list PerRunVerdict * W :=
  match runIds with
  | [] => ([], w)
  | runId :: rest =>
      let '(outcome, w1) := adjudicateRun runId entry w in
      let '(more, w2) := adjudicate_runs entry rest w1 in
      (outcome :: more, w2)
  end.

Definition by_run (field : string) (get : RunEvidence -> option jsval) (outcomes : list PerRunVerdict)
    : jsval :=
  JArray (map (fun o => JObject [("run_id", JString (run_id o));
                                 (field, default JUndefined (get (evidence_refs o)))]) outcomes).

Definition adjudicate (request : AdjudicationRequest) (registry : string -> VerifierRegistryEntry)
    (w : W) : result string AdjudicationResult * W :=
  if is_empty (kind request) || (length (req_run_ids request) =? 0)%nat
  then (Ok {| res_verdict := V_VERIFIER_ERROR; res_reason_code := MALFORMED_REQUEST;
              res_reason := if is_empty (kind request) then "malformed-request-missing-kind"
                            else "malformed-request-empty-run-ids";
              per_run := []; augmented_payload := None |}, w)
  else
    let entry := registry (kind request) in
    let '(perRun, w1) := adjudicate_runs entry (req_run_ids request) w in
    let v := reduceVerdicts perRun in
    let base payload :=
      {| res_verdict := v; res_reason_code := buildRecordReasonCode v perRun;
         res_reason := buildRecordReason v perRun; per_run := perRun;
         augmented_payload := payload |} in
    match build_augmented_payload entry with
    | Some build =>
        if negb (bool_decide (v = V_CONFIRMED))
        then (payload <-? build v (by_run "artifacts" ev_artifacts perRun)
                                  (by_run "traces" ev_traces perRun) ;;
              Ok (base (Some payload)), w1)
        else (Ok (base None), w1)
    | None => (Ok (base None), w1)
    end.
End Adjudicate.

(** ** Specification *)

(** What the evidence of a successful run must show to be confirmed. *)
Record evidence_passes (entry : VerifierRegistryEntry) (artifacts traces : jsval) : Prop := {
  ep_traces : asList traces <> [];
  ep_artifacts : asList artifacts = [] -> allow_zero_artifacts entry = Some true;
  ep_substance : forall a, a ∈ asList artifacts -> hasSubstance a = true;
  ep_content : forall check a, content_check entry = Some check -> a ∈ asList artifacts ->
    exists r, check a = Ok r /\ cr_ok r = true;
  ep_trace : forall check, trace_check entry = Some check ->
    exists r, check traces = Ok r /\ cr_ok r = true;
  ep_spans : forall s, s ∈ asList traces -> is_error_span s = false;
  ep_actions : forall n, expected_min_actions entry = Some n -> num_lt (num_of_nat 0) n = true ->
    num_lt (num_of_nat (countActionSpans (asList traces))) n = false;
}.

Section Specification.
Context {W : Type} (callTool : string -> jsval -> W -> result string jsval * W).
Context (num_to_str : jsnum -> string).

(** One run whose evidence can be fetched from state [w], leaving [w'], and
    passes every check. *)
Definition run_passes (entry : VerifierRegistryEntry) (runId : string) (w w' : W) : Prop :=
  exists run artifacts traces w1 w2,
    getRun callTool runId w = (Ok run, w1) /\ interpretRunStatus run = BrSuccess /\
    getArtifacts callTool runId w1 = (Ok artifacts, w2) /\
    getTraces callTool runId w2 = (Ok traces, w') /\
    evidence_passes entry artifacts traces.

Inductive runs_pass (entry : VerifierRegistryEntry) : list string -> W -> W -> Prop :=
| runs_nil (w : W) : runs_pass entry [] w w
| runs_cons (runId : string) (rest : list string) (w w1 w2 : W) :
    run_passes entry runId w w1 -> runs_pass entry rest w1 w2 -> runs_pass entry (runId :: rest) w w2.
End Specification.

(** Severity of a verdict, worst highest. *)
Definition verdict_severity (v : VerdictState) : nat :=
  match v with
  | V_VERIFIER_ERROR => 4
  | V_CONTRADICTED => 3
  | V_CORROBORATED_FAILURE => 2
  | V_INDETERMINATE => 1
  | V_CONFIRMED => 0
  end.

(** The position of a code in the severity-ordered table. *)
Fixpoint code_rank_in (c : AdjudicationReasonCode) (l : list AdjudicationReasonCode) : nat :=
  match l with
  | [] => 0
  | x :: l' => if bool_decide (x = c) then 0 else S (code_rank_in c l')
  end.

Definition code_rank (c : AdjudicationReasonCode) : nat := code_rank_in c ADJUDICATION_REASON_CODES.

(** ** Lemmas *)

Lemma check_problem_nil (fallback : AdjudicationReasonCode) (head : string) (r : CheckResult) :
  check_problem fallback head r = [] <-> cr_ok r = true.
Proof. unfold check_problem. by destruct (cr_ok r). Qed.

Lemma content_problems_nil (check : jsval -> result string CheckResult) (artifacts : list jsval) :
  content_problems check artifacts = Ok [] <->
  forall a, a ∈ artifacts -> exists r, check a = Ok r /\ cr_ok r = true.
Proof.
  induction artifacts as [|a artifacts IH]; simpl; [split; [set_solver|done]|].
  setoid_rewrite elem_of_cons. split.
  - intros H. apply result_bind_Ok in H as (r & Hr & H).
    apply result_bind_Ok in H as (more & Hm & [= H]).
    apply app_nil in H as [Hp ->]. apply check_problem_nil in Hp.
    intros a' [->|Ha']; [by exists r|]. by apply IH.
  - intros H. destruct (H a (or_introl eq_refl)) as (r & -> & Hr). simpl.
    rewrite (proj2 IH) by auto. simpl. by rewrite (proj2 (check_problem_nil _ _ _) Hr).
Qed.

Lemma existsb_empty_iff {A} (f : A -> bool) (l : list A) {B} (x : B) :
  (if existsb f l then [x] else []) = [] <-> forall a, a ∈ l -> f a = false.
Proof. rewrite <- existsb_false_iff. by destruct (existsb f l). Qed.

Lemma error_span_problem_nil (traces : list jsval) :
  error_span_problem traces = [] <-> forall s, s ∈ traces -> is_error_span s = false.
Proof.
  rewrite <- existsb_false_iff. unfold error_span_problem, countErrorSpans.
  induction traces as [|s traces IH]; simpl; [done|]. by destruct (is_error_span s).
Qed.

Lemma min_actions_problem_nil (num_to_str : jsnum -> string) (entry : VerifierRegistryEntry)
    (traces : list jsval) :
  min_actions_problem num_to_str entry traces = [] <->
  forall n, expected_min_actions entry = Some n -> num_lt (num_of_nat 0) n = true ->
    num_lt (num_of_nat (countActionSpans traces)) n = false.
Proof.
  unfold min_actions_problem. destruct (expected_min_actions entry) as [n|]; [|done].
  destruct (num_lt (num_of_nat 0) n) eqn:E; [|split; [intros _ ? [= <-]; congruence|done]].
  destruct (num_lt (num_of_nat (countActionSpans traces)) n) eqn:E'.
  - split; [done|]. intros H. specialize (H n eq_refl E). congruence.
  - split; [|done]. by intros _ ? [= <-].
Qed.

Lemma collect_problems_nil (num_to_str : jsnum -> string) (entry : VerifierRegistryEntry)
    (artifacts traces : jsval) :
  collect_problems num_to_str entry artifacts traces = Ok [] <->
  (forall a, a ∈ asList artifacts -> hasSubstance a = true) /\
  (forall check a, content_check entry = Some check -> a ∈ asList artifacts ->
     exists r, check a = Ok r /\ cr_ok r = true) /\
  (forall check, trace_check entry = Some check -> exists r, check traces = Ok r /\ cr_ok r = true) /\
  (forall s, s ∈ asList traces -> is_error_span s = false) /\
  (forall n, expected_min_actions entry = Some n -> num_lt (num_of_nat 0) n = true ->
     num_lt (num_of_nat (countActionSpans (asList traces))) n = false).
Proof.
  rewrite <- error_span_problem_nil, <- (min_actions_problem_nil num_to_str).
  assert (Hsub : (forall a, a ∈ asList artifacts -> hasSubstance a = true) <->
    forall a, a ∈ asList artifacts -> negb (hasSubstance a) = false).
  { by setoid_rewrite negb_false_iff. }
  rewrite Hsub, <- (existsb_empty_iff _ (asList artifacts)
                      (EMPTY_ARTIFACT_CONTENT, "artifact-empty-or-whitespace"%string)).
  unfold collect_problems. split.
  - intros H. apply result_bind_Ok in H as (contents & Hc & H).
    apply result_bind_Ok in H as (checked & Ht & [= H]).
    apply app_nil in H as [H1 H]. apply app_nil in H as [-> H]. apply app_nil in H as [-> H].
    apply app_nil in H as [H4 H5]. split_and!; try done.
    + intros check a E Ha. rewrite E in Hc. by apply (proj1 (content_problems_nil check _) Hc).
    + intros check E. rewrite E in Ht. apply result_bind_Ok in Ht as (r & Hr & [= Hp]).
      exists r. split; [done|]. by apply check_problem_nil in Hp.
  - intros (H1 & H2 & H3 & H4 & H5). rewrite H1, H4, H5.
    assert (match content_check entry with
            | None => Ok []
            | Some check => content_problems check (asList artifacts)
            end = Ok []) as ->.
    { destruct (content_check entry) as [check|]; [|done]. apply content_problems_nil. eauto. }
    simpl. destruct (trace_check entry) as [check|]; [|done].
    destruct (H3 check eq_refl) as (r & -> & Hr). simpl.
    by rewrite (proj2 (check_problem_nil _ _ _) Hr).
Qed.

Lemma judge_evidence_confirmed (num_to_str : jsnum -> string) (runId : string)
    (entry : VerifierRegistryEntry) (isSuccess : bool) (artifacts traces : jsval) (ev : RunEvidence) :
  verdict (judge_evidence num_to_str runId entry isSuccess artifacts traces ev) = V_CONFIRMED <->
  isSuccess = true /\ evidence_passes entry artifacts traces.
Proof.
  unfold judge_evidence.
  assert (Ht : (length (asList traces) =? 0)%nat = false <-> asList traces <> []).
  { by destruct (asList traces). }
  assert (Ha : (length (asList artifacts) =? 0)%nat && negb (truthy (allow_zero_artifacts entry)) = false
               <-> (asList artifacts = [] -> allow_zero_artifacts entry = Some true)).
  { destruct (asList artifacts) as [|? ?]; simpl; [|done].
    destruct (allow_zero_artifacts entry) as [[]|]; simpl; naive_solver. }
  destruct (_ || (length (asList traces) =? 0)%nat) eqn:E.
  - assert (~ evidence_passes entry artifacts traces) as Hno.
    { intros [H1 H2 _ _ _ _ _]. apply orb_true_iff in E as [E|E].
      - rewrite (proj2 Ha H2) in E. done.
      - rewrite (proj2 Ht H1) in E. done. }
    destruct (_ && _ && _ && _); simpl; naive_solver.
  - apply orb_false_iff in E as [E1 E2]. pose proof (proj1 Ha E1) as HA. apply Ht in E2.
    destruct isSuccess; simpl; [|naive_solver].
    destruct (collect_problems num_to_str entry artifacts traces) as [[|p ps]|e] eqn:Ec; simpl.
    + split; [|done]. intros _. split; [done|].
      apply collect_problems_nil in Ec as (? & ? & ? & ? & ?). by split.
    + split; [done|]. intros [_ [_ _ H1 H2 H3 H4 H5]]. exfalso.
      rewrite (proj2 (collect_problems_nil num_to_str entry artifacts traces)) in Ec; [done|]. by split_and!.
    + split; [done|]. intros [_ [_ _ H1 H2 H3 H4 H5]]. exfalso.
      rewrite (proj2 (collect_problems_nil num_to_str entry artifacts traces)) in Ec; [done|]. by split_and!.
Qed.

Section Records.
Context {W : Type} (callTool : string -> jsval -> W -> result string jsval * W).
Context (num_to_str : jsnum -> string).

Lemma adjudicateRun_confirmed (runId : string) (entry : VerifierRegistryEntry) (w w' : W) :
  (exists r, adjudicateRun callTool num_to_str runId entry w = (r, w') /\ verdict r = V_CONFIRMED) <->
  run_passes callTool entry runId w w'.
Proof.
  unfold adjudicateRun, run_passes. split.
  - intros (r & H & Hv). destruct (getRun callTool runId w) as [[run|e] w1] eqn:E1.
    2: { injection H as <- <-. done. }
    destruct (interpretRunStatus run) eqn:Es; try (injection H as <- <-; done).
    all: destruct (getArtifacts callTool runId w1) as [[artifacts|e] w2] eqn:E2;
      [|injection H as <- <-; done].
    all: destruct (getTraces callTool runId w2) as [[traces|e] w3] eqn:E3;
      [|injection H as <- <-; done].
    all: injection H as <- <-; apply judge_evidence_confirmed in Hv as [Hs Hp]; try done.
    by exists run, artifacts, traces, w1, w2.
  - intros (run & artifacts & traces & w1 & w2 & -> & -> & -> & -> & Hp). eexists.
    split; [reflexivity|]. by apply judge_evidence_confirmed.
Qed.

Lemma adjudicate_runs_confirmed (entry : VerifierRegistryEntry) (ids : list string) (w w' : W) :
  (exists rs, adjudicate_runs callTool num_to_str entry ids w = (rs, w') /\
     Forall (fun r => verdict r = V_CONFIRMED) rs) <-> runs_pass callTool entry ids w w'.
Proof.
  revert w; induction ids as [|id ids IH]; intros w; simpl.
  - split; [intros (rs & [= <- <-] & _); constructor|]. inversion 1; subst. by exists [].
  - destruct (adjudicateRun callTool num_to_str id entry w) as [r w1] eqn:E1.
    destruct (adjudicate_runs callTool num_to_str entry ids w1) as [rs w2] eqn:E2. split.
    + intros (rs' & [= <- <-] & Hf). apply Forall_cons in Hf as [Hr Hrs].
      econstructor; [apply adjudicateRun_confirmed; eauto|]. apply IH. eauto.
    + intros H. inversion H as [|? ? ? w1' ? Hr Hrs]; subst.
      apply adjudicateRun_confirmed in Hr as (r' & Er & Hv). rewrite E1 in Er. injection Er as <- <-.
      apply IH in Hrs as (rs' & Ers & Hf). rewrite E2 in Ers. injection Ers as <- <-.
      eexists. split; [reflexivity|]. by constructor.
Qed.

Lemma adjudicateRun_id (id : string) (entry : VerifierRegistryEntry) (w : W) :
  run_id (fst (adjudicateRun callTool num_to_str id entry w)) = id.
Proof.
  unfold adjudicateRun. destruct (getRun callTool id w) as [[run|e] w1]; [|done].
  destruct (interpretRunStatus run); try done;
    (destruct (getArtifacts callTool id w1) as [[artifacts|e] w2]; [|done]);
    (destruct (getTraces callTool id w2) as [[traces|e] w3]; [|done]);
    unfold judge_evidence; simpl; by repeat case_match.
Qed.

Lemma adjudicate_runs_ids (entry : VerifierRegistryEntry) (ids : list string) (w : W) :
  map run_id (fst (adjudicate_runs callTool num_to_str entry ids w)) = ids.
Proof.
  revert w; induction ids as [|id ids IH]; intros w; simpl; [done|].
  destruct (adjudicateRun callTool num_to_str id entry w) as [r w1] eqn:E1.
  destruct (adjudicate_runs callTool num_to_str entry ids w1) as [rs w2] eqn:E2. simpl.
  specialize (IH w1). rewrite E2 in IH. simpl in IH. rewrite IH. f_equal.
  pose proof (adjudicateRun_id id entry w) as H. by rewrite E1 in H.
Qed.
End Records.

Lemma reduceVerdicts_spec (perRun : list PerRunVerdict) :
  perRun <> [] ->
  (exists r, r ∈ perRun /\ verdict r = reduceVerdicts perRun) /\
  forall r, r ∈ perRun -> verdict_severity (verdict r) <= verdict_severity (reduceVerdicts perRun).
Proof.
  intros Hne. unfold reduceVerdicts.
  assert (Hhas : forall v, existsb (fun r => bool_decide (verdict r = v)) perRun = true <->
                           exists r, r ∈ perRun /\ verdict r = v).
  { intros v. rewrite existsb_true_iff. by setoid_rewrite bool_decide_eq_true. }
  assert (Hnot : forall v, existsb (fun r => bool_decide (verdict r = v)) perRun = false <->
                           forall r, r ∈ perRun -> verdict r <> v).
  { intros v. rewrite existsb_false_iff. by setoid_rewrite bool_decide_eq_false. }
  assert (Hsev : forall v, (forall u, verdict_severity v < verdict_severity u ->
                    forall r, r ∈ perRun -> verdict r <> u) ->
                  forall r, r ∈ perRun -> verdict_severity (verdict r) <= verdict_severity v).
  { intros v Hv r Hr. destruct (decide (verdict_severity v < verdict_severity (verdict r))); [|lia].
    exfalso. by apply (Hv (verdict r) ltac:(done) r Hr). }
  set (has := fun v => existsb (fun r => bool_decide (verdict r = v)) perRun) in *.
  change (forall v, has v = true <-> exists r, r ∈ perRun /\ verdict r = v) in Hhas.
  change (forall v, has v = false <-> forall r, r ∈ perRun -> verdict r <> v) in Hnot.
  change (List.find _ _) with (List.find has verdict_priority).
  destruct (List.find has verdict_priority) as [v|] eqn:Ef; cbn [default from_option].
  - apply find_some in Ef as Hv. destruct Hv as [_ Hv]. apply Hhas in Hv. split; [done|].
    apply Hsev. intros u Hu. apply Hnot.
    unfold verdict_priority in Ef. cbn [List.find] in Ef.
    destruct (has V_VERIFIER_ERROR) eqn:?, (has V_CONTRADICTED) eqn:?,
      (has V_CORROBORATED_FAILURE) eqn:?, (has V_INDETERMINATE) eqn:?, (has V_CONFIRMED) eqn:?;
      simplify_eq; destruct u; simpl in Hu; done || lia.
  - exfalso. destruct perRun as [|r rs]; [done|].
    assert (Hin : In (verdict r) verdict_priority) by (destruct (verdict r); simpl; tauto).
    pose proof (find_none _ _ Ef _ Hin) as H. apply (proj1 (Hnot _)) with (r := r) in H; [done|left].
Qed.

Lemma find_least (codes l : list AdjudicationReasonCode) (c : AdjudicationReasonCode) :
  List.find (fun x => bool_decide (x ∈ codes)) l = Some c ->
  c ∈ codes /\ forall x, x ∈ codes -> code_rank_in c l <= code_rank_in x l.
Proof.
  induction l as [|y l IH]; simpl; [done|].
  destruct (bool_decide_reflect (y ∈ codes)) as [Hy|Hy].
  - intros [= ->]. split; [done|]. intros x _. rewrite bool_decide_true by done. lia.
  - intros H. destruct (IH H) as [Hc Hle]. split; [done|]. intros x Hx.
    rewrite !bool_decide_false by congruence. specialize (Hle x Hx). lia.
Qed.

Lemma reduceReasonCodes_spec (codes : list AdjudicationReasonCode) :
  codes <> [] ->
  reduceReasonCodes codes ∈ codes /\
  forall c, c ∈ codes -> code_rank (reduceReasonCodes codes) <= code_rank c.
Proof.
  intros Hne. unfold reduceReasonCodes, code_rank.
  destruct (List.find _ _) as [c|] eqn:E; cbn [default from_option]; [by apply find_least|].
  exfalso. destruct codes as [|c codes]; [done|].
  assert (Hin : In c ADJUDICATION_REASON_CODES) by (destruct c; simpl; tauto).
  pose proof (find_none _ _ E _ Hin) as H. cbv beta in H.
  rewrite bool_decide_true in H; [done|left].
Qed.

Lemma adjudicate_confirmed {W : Type} (callTool : string -> jsval -> W -> result string jsval * W)
    (num_to_str : jsnum -> string) (request : AdjudicationRequest)
    (registry : string -> VerifierRegistryEntry) (w w' : W) :
  (exists res, adjudicate callTool num_to_str request registry w = (Ok res, w') /\
     res_verdict res = V_CONFIRMED) <->
  kind request <> EmptyString /\ req_run_ids request <> [] /\
  runs_pass callTool (registry (kind request)) (req_run_ids request) w w'.
Proof.
  unfold adjudicate. rewrite <- (adjudicate_runs_confirmed callTool num_to_str).
  destruct (kind request) as [|a k] eqn:Ek.
  { simpl. split; [intros (res & [= <- _] & H); done|by intros [? _]]. }
  destruct (req_run_ids request) as [|id ids] eqn:Ei.
  { simpl. split; [intros (res & [= <- _] & H); done|by intros (_ & ? & _)]. }
  pose proof (adjudicate_runs_ids callTool num_to_str (registry (String a k)) (id :: ids) w) as Hids.
  destruct (adjudicate_runs _ _ _ _ w) as [rs w1]. cbn [fst] in Hids.
  assert (Hne : rs <> []) by (by destruct rs).
  destruct (reduceVerdicts_spec rs Hne) as [(r & Hr & Hv) Hmax].
  assert (Hall : reduceVerdicts rs = V_CONFIRMED <-> Forall (fun r => verdict r = V_CONFIRMED) rs).
  { split; intros H.
    - apply Forall_forall. intros x Hx. specialize (Hmax x Hx). rewrite H in Hmax.
      destruct (verdict x); simpl in Hmax; done || lia.
    - rewrite Forall_forall in H. rewrite <- Hv. by apply H. }
  cbn [is_empty orb length Nat.eqb]. split.
  - intros (res & H & Hc). split; [done|]. split; [done|]. exists rs.
    destruct (build_augmented_payload _) as [build|].
    + destruct (bool_decide_reflect (reduceVerdicts rs = V_CONFIRMED)) as [E|E]; cbn [negb] in H.
      * injection H as <- <-. split; [done|]. by apply Hall.
      * destruct (build _ _ _); [|done]. injection H as <- <-. by exfalso.
    + injection H as <- <-. split; [done|]. by apply Hall.
  - intros (_ & _ & rs' & [= <- <-] & Hf). apply Hall in Hf. rewrite Hf.
    destruct (build_augmented_payload _); eexists; split; reflexivity || done.
Qed.

(** ** Properties *)

(** The adjudicator confirms a record exactly when it should: the
    request names a kind and at least one run, and every run, fetched in order,
    reports success with non-empty traces, artifacts (unless the kind allows
    none) all of which have substance and pass the content hook, traces that
    pass the trace hook and hold no error span, and the minimum of actions. No
    other path, fallback or error leads to CONFIRMED. *)
Theorem adjudicate_confirmed_iff {W : Type} (callTool : string -> jsval -> W -> result string jsval * W)
    (num_to_str : jsnum -> string) (request : AdjudicationRequest)
    (registry : string -> VerifierRegistryEntry) (w w' : W) :
  (exists res, adjudicate callTool num_to_str request registry w = (Ok res, w') /\
     res_verdict res = V_CONFIRMED) <->
  kind request <> EmptyString /\ req_run_ids request <> [] /\
  runs_pass callTool (registry (kind request)) (req_run_ids request) w w'.
Proof. apply adjudicate_confirmed. Qed.

(** The record reports the worst of its runs: one verdict per
    requested run, in order; a record verdict held by some run and at least as
    severe as every run's; and as reason code the most severe code among the
    runs that share that verdict. *)
Theorem adjudicate_worst_wins {W : Type} (callTool : string -> jsval -> W -> result string jsval * W)
    (num_to_str : jsnum -> string) (request : AdjudicationRequest)
    (registry : string -> VerifierRegistryEntry) (w w' : W) (res : AdjudicationResult) :
  kind request <> EmptyString -> req_run_ids request <> [] ->
  adjudicate callTool num_to_str request registry w = (Ok res, w') ->
  map run_id (per_run res) = req_run_ids request /\
  (forall r, r ∈ per_run res -> verdict_severity (verdict r) <= verdict_severity (res_verdict res)) /\
  (exists r, r ∈ per_run res /\ verdict r = res_verdict res /\ reason_code r = res_reason_code res) /\
  (forall r, r ∈ per_run res -> verdict r = res_verdict res ->
     code_rank (res_reason_code res) <= code_rank (reason_code r)).
Proof.
  intros Hk Hi. unfold adjudicate. destruct (kind request) as [|a k]; [done|].
  destruct (req_run_ids request) as [|id ids]; [done|].
  pose proof (adjudicate_runs_ids callTool num_to_str (registry (String a k)) (id :: ids) w) as Hids.
  destruct (adjudicate_runs _ _ _ _ w) as [rs w1]. cbn [fst] in Hids.
  assert (Hne : rs <> []) by (by destruct rs).
  destruct (reduceVerdicts_spec rs Hne) as [(r & Hr & Hv) Hmax].
  cbn [is_empty orb length Nat.eqb]. intros H.
  assert (Hres : per_run res = rs /\ res_verdict res = reduceVerdicts rs /\
                 res_reason_code res = buildRecordReasonCode (reduceVerdicts rs) rs).
  { destruct (build_augmented_payload _) as [build|]; [|by injection H as <- _].
    destruct (negb _); [|by injection H as <- _].
    destruct (build _ _ _); [|done]. by injection H as <- _. }
  destruct Hres as (-> & -> & ->).
  assert (Hsh : forall x, x ∈ sharing (reduceVerdicts rs) rs <-> x ∈ rs /\ verdict x = reduceVerdicts rs).
  { intros x. unfold sharing. by rewrite elem_of_filter_list, bool_decide_eq_true. }
  destruct (reduceReasonCodes_spec (map reason_code (sharing (reduceVerdicts rs) rs))) as [Hin Hle].
  { intros E. apply map_eq_nil in E. assert (Hx : r ∈ sharing (reduceVerdicts rs) rs) by (by apply Hsh).
    rewrite E in Hx. by apply elem_of_nil in Hx. }
  split; [done|]. split; [done|]. split.
  - apply list_elem_of_fmap in Hin as (x & Hx & Hin). apply Hsh in Hin as [? ?].
    exists x. split_and!; [done|done|]. by symmetry.
  - intros x Hx Hvx. apply Hle. apply list_elem_of_fmap_2. by apply Hsh.
Qed.

(** Adjudication never fails because of the checked system: as long
    as the kind's payload builder does not throw, a verdict record is returned
    whatever the transport answers or throws and whatever the content and trace
    hooks do. *)
Theorem adjudicate_total {W : Type} (callTool : string -> jsval -> W -> result string jsval * W)
    (num_to_str : jsnum -> string) (request : AdjudicationRequest)
    (registry : string -> VerifierRegistryEntry) (w : W) :
  (forall build v a t, build_augmented_payload (registry (kind request)) = Some build ->
     is_ok (build v a t) = true) ->
  is_ok (fst (adjudicate callTool num_to_str request registry w)) = true.
Proof.
  intros Hb. unfold adjudicate. destruct (_ || _); [done|].
  destruct (adjudicate_runs _ _ _ _ w) as [rs w1].
  destruct (build_augmented_payload _) as [build|] eqn:E; [|done].
  destruct (negb _); [|done]. simpl.
  match goal with |- context [build ?v ?a ?t] => specialize (Hb build v a t eq_refl) end.
  by destruct (build _ _ _).
Qed.

(** ** A concrete adjudication *)

(** A transport answering from fixed payloads, as the in-memory one does. *)
Definition fixture_transport (run artifacts traces : jsval) (name : string) (args : jsval) (w : nat)
    : result string jsval * nat :=
  (if String.eqb name "adaptorch_get_run" then Ok run
   else if String.eqb name "adaptorch_get_artifacts" then Ok artifacts
   else if String.eqb name "adaptorch_get_traces" then Ok traces
   else Err "unexpected tool call"%string, S w).

Definition ok_transport : string -> jsval -> nat -> result string jsval * nat :=
  fixture_transport (JObject [("status", JString "COMPLETED")])
    (JArray [JObject [("content", JString "text")]]) (JArray [JObject [("kind", JString "tool")]]).

Definition doc_request : AdjudicationRequest :=
  {| dispatch_record_id := "d1"; kind := "doc"; req_run_ids := ["r1"; "r2"] |}.

Definition no_hooks : string -> VerifierRegistryEntry := createVerifierRegistry [].

Lemma adjudicate_worst_wins_witness :
  exists r, r ∈ per_run (default {| res_verdict := V_CONFIRMED; res_reason_code := ALL_CHECKS_PASSED;
                                    res_reason := EmptyString; per_run := []; augmented_payload := None |}
      match fst (adjudicate ok_transport (fun _ => EmptyString) doc_request no_hooks 0) with
      | Ok res => Some res
      | Err _ => None
      end) /\ verdict r = V_CONFIRMED.
Proof.
  destruct (adjudicate ok_transport (fun _ => EmptyString) doc_request no_hooks 0) as [[res|e] w'] eqn:E;
    [|vm_compute in E; discriminate E].
  destruct (adjudicate_worst_wins ok_transport (fun _ => EmptyString) doc_request no_hooks 0 w' res
              ltac:(discriminate) ltac:(discriminate) E) as (_ & _ & (r & Hr & Hv & _) & _).
  exists r. split; [exact Hr|]. rewrite Hv. vm_compute in E. injection E as <- _. reflexivity.
Defined.

Lemma adjudicate_total_witness :
  is_ok (fst (adjudicate (fun _ _ w => (Err "down"%string, w)) (fun _ => EmptyString) doc_request
                no_hooks 0)) = true.
Proof. apply adjudicate_total. intros build v a t H. vm_compute in H. discriminate H. Defined.
