(* ===== verification/Disposition.v ===== *)
(** * From verdicts to the next packet state

    packages/adaptorch-wpl/src/loop.ts: the projection of an adjudication
    result onto a disposition, the choice of the next state, and the wrapper
    that bounds an adjudication in time. Which of the two racing promises
    settles first is an argument of the wrapper. *)

From Stdlib Require Import String ZArith Lia.
From stdpp Require Import base list option strings sets.
From S2P Require Import Prelude JsString JsValue WorkPacket Adjudicator.

Open Scope Z_scope.

Inductive ContradictedDispositionClass : Type :=
| class_escalate
| class_reroute_on_recurrence
| class_retry_same_topology.

Definition CONTRADICTED_DISPOSITION_CLASS (c : AdjudicationReasonCode)
    : ContradictedDispositionClass :=
  match c with
  | SCOPE_VIOLATION => class_escalate
  | SCHEMA_DRIFT | CONTENT_CHECK_FAILED => class_reroute_on_recurrence
  | NO_EVIDENCE_ON_SUCCESS | EMPTY_ARTIFACT_CONTENT | TRACE_CHECK_FAILED | TRACE_ERROR_SPAN
  | MIN_ACTIONS_UNMET | RUN_STATUS_UNPARSEABLE | RUN_FETCH_FAILED | MALFORMED_REQUEST
  | RUN_NOT_TERMINAL | EVIDENCE_EMPTY | FAILURE_REPORTED | ALL_CHECKS_PASSED =>
      class_retry_same_topology
  end.

Inductive NextActionKind : Type :=
| next_retry_same_topology
| next_reroute
| next_escalate
| next_none.

#[export] Instance NextActionKind_eq_dec : EqDecision NextActionKind.
Proof. solve_decision. Defined.

Record VerdictDisposition : Type := {
  targetState : WorkPacketState;
  nextActionKind : NextActionKind;
}.

Definition disposition_of (s : WorkPacketState) (k : NextActionKind) : VerdictDisposition :=
  {| targetState := s; nextActionKind := k |}.

Definition projectVerdictToDisposition (res : AdjudicationResult) (packet : WorkPacket)
    : VerdictDisposition :=
  match res_verdict res with
  | V_CONFIRMED => disposition_of CONFIRMED next_none
  | V_CORROBORATED_FAILURE => disposition_of DECLINED next_retry_same_topology
  | V_CONTRADICTED =>
      match CONTRADICTED_DISPOSITION_CLASS (res_reason_code res) with
      | class_escalate => disposition_of DECLINED next_escalate
      | class_reroute_on_recurrence =>
          if 1 <=? retry_count packet then disposition_of DECLINED next_reroute
          else disposition_of DECLINED next_retry_same_topology
      | class_retry_same_topology => disposition_of DECLINED next_retry_same_topology
      end
  | V_INDETERMINATE => disposition_of DECLINED next_escalate
  | V_VERIFIER_ERROR => disposition_of DECLINED next_escalate
  end.

Definition decideNextTransition (packet : WorkPacket) (d : VerdictDisposition) : WorkPacketState :=
  if bool_decide (nextActionKind d = next_escalate) then ESCALATED
  else if bool_decide (targetState d = CONFIRMED) then CONFIRMED
  else if retry_count packet <? max_dispatch_attempts (attempt_budget packet)
  then RETRY_QUEUED else CLOSED.

Definition handleAdjudicationFailure (packet : WorkPacket)
    (adjudicationCallAttempts maxAdjudicationCallAttempts : Z) : WorkPacketState :=
  if adjudicationCallAttempts <? maxAdjudicationCallAttempts then UNDER_REVIEW else ESCALATED.

Section Timeout.
Context {W : Type} (callTool : string -> jsval -> W -> result string jsval * W).
Context (num_to_str : jsnum -> string).

(** [Promise.race] of the adjudication and the timer; [settles_first] says
    that the adjudication settled before the timer fired. *)
Definition runAdjudicationWithTimeout (request : AdjudicationRequest)
    (registry : string -> VerifierRegistryEntry) (timeoutMs : jsnum) (settles_first : bool) (w : W)
    : result string AdjudicationResult :=
  if settles_first then fst (adjudicate callTool num_to_str request registry w)
  else Err ("adjudicate() call timed out after " ++ num_to_str timeoutMs ++ "ms")%string.
End Timeout.

(** ** The review step of a packet

    How the callers chain the functions: from UNDER_REVIEW to the projected
    state, and from DECLINED on to the decided one, each through
    [applyTransition]. *)
Definition review_packet (packet : WorkPacket) (res : AdjudicationResult) (cause now : string)
    : result string WorkPacket :=
  let d := projectVerdictToDisposition res packet in
  p1 <-? applyTransition packet (targetState d) cause now ;;
  if bool_decide (targetState d = CONFIRMED) then Ok p1
  else applyTransition p1 (decideNextTransition p1 d) cause now.

(** The verdicts an automatic retry must never follow. *)
Definition needs_human (res : AdjudicationResult) : bool :=
  match res_verdict res with
  | V_VERIFIER_ERROR | V_INDETERMINATE => true
  | V_CONTRADICTED => bool_decide (res_reason_code res = SCOPE_VIOLATION)
  | _ => false
  end.

(** ** Properties *)

(** Reviewing a packet never gets stuck on an illegal transition:
    from UNDER_REVIEW, whatever the verdict, the projected state and then the
    decided next state are accepted by the state machine, and the packet ends
    in CONFIRMED, ESCALATED, RETRY_QUEUED or CLOSED as the verdict says: it is
    confirmed exactly for a CONFIRMED verdict, escalated exactly for the
    verdicts that need a human (whatever budget is left), and otherwise
    retried while the retry count is below the attempt budget, closed after. *)
Theorem review_packet_total (packet : WorkPacket) (res : AdjudicationResult) (cause now : string) :
  state packet = UNDER_REVIEW ->
  exists p', review_packet packet res cause now = Ok p' /\
    state p' =
      (if bool_decide (res_verdict res = V_CONFIRMED) then CONFIRMED
       else if needs_human res then ESCALATED
       else if retry_count packet <? max_dispatch_attempts (attempt_budget packet)
       then RETRY_QUEUED else CLOSED).
Proof.
  intros Hs. destruct packet as [pid pk ca pl td dr st rc tl lar ab lhp]. simpl in Hs. subst st.
  unfold review_packet, projectVerdictToDisposition, needs_human, decideNextTransition, applyTransition.
  destruct res as [[] code why runs aug]; simpl;
    try (eexists; split; reflexivity).
  - destruct code; simpl; try (eexists; split; reflexivity);
      destruct (1 <=? rc); simpl; destruct (rc <? max_dispatch_attempts ab); simpl;
      try (eexists; split; reflexivity).
  - destruct (rc <? max_dispatch_attempts ab); simpl; eexists; split; reflexivity.
Qed.

(** An adjudication that throws or times out yields no verdict
    and is handled by a transition that is legal from ADJUDICATION_FAILED: back
    under review while the call attempts are below their own bound, escalated
    after, independently of the packet's attempt budget. *)
Theorem adjudication_failure_bounded (packet : WorkPacket) (attempts max : Z) (cause now : string) :
  state packet = ADJUDICATION_FAILED ->
  exists p', applyTransition packet (handleAdjudicationFailure packet attempts max) cause now = Ok p' /\
    (state p' = UNDER_REVIEW /\ attempts < max \/ state p' = ESCALATED /\ max <= attempts) /\
    retry_count p' = retry_count packet /\ attempt_budget p' = attempt_budget packet.
Proof.
  intros Hs. unfold handleAdjudicationFailure, applyTransition. rewrite Hs.
  destruct (Z.ltb_spec attempts max); simpl; eexists; split_and!; try reflexivity; auto.
Qed.

(** The decision reads the retry count, never the recorded dispatch attempts:
    a packet whose attempt budget is used up can still be queued for a retry. *)
Theorem retry_beyond_used_budget :
  exists packet d, dispatch_attempts_used (attempt_budget packet)
                   = max_dispatch_attempts (attempt_budget packet) /\
    retry_count packet = dispatch_attempts_used (attempt_budget packet) - 1 /\
    decideNextTransition packet d = RETRY_QUEUED.
Proof.
  exists {| packet_id := "p"; packet_kind := "doc"; created_at := "t"; payload := JNull;
            topology_decision := None; dispatch_records := []; state := DECLINED; retry_count := 2;
            transition_log := []; last_adjudication_ref := None;
            attempt_budget := {| max_dispatch_attempts := 3; dispatch_attempts_used := 3 |};
            last_human_approved_payload := JNull |}, (disposition_of DECLINED next_retry_same_topology).
  vm_compute. auto.
Qed.

(** ** Concrete reviews *)

Definition packet_in (s : WorkPacketState) : WorkPacket :=
  {| packet_id := "p"; packet_kind := "doc"; created_at := "t"; payload := JNull;
     topology_decision := None; dispatch_records := []; state := s; retry_count := 1;
     transition_log := []; last_adjudication_ref := None;
     attempt_budget := {| max_dispatch_attempts := 3; dispatch_attempts_used := 2 |};
     last_human_approved_payload := JNull |}.

Definition drifted : AdjudicationResult :=
  {| res_verdict := V_CONTRADICTED; res_reason_code := SCHEMA_DRIFT; res_reason := "drift";
     per_run := []; augmented_payload := None |}.

Lemma review_packet_total_witness :
  exists p', review_packet (packet_in UNDER_REVIEW) drifted "review" "t" = Ok p' /\
    state p' = RETRY_QUEUED.
Proof. exact (review_packet_total (packet_in UNDER_REVIEW) drifted "review" "t" eq_refl). Defined.

Lemma adjudication_failure_bounded_witness :
  exists p', applyTransition (packet_in ADJUDICATION_FAILED)
               (handleAdjudicationFailure (packet_in ADJUDICATION_FAILED) 2 2) "c" "t" = Ok p' /\
    state p' = ESCALATED.
Proof.
  destruct (adjudication_failure_bounded (packet_in ADJUDICATION_FAILED) 2 2 "c" "t" eq_refl)
    as (p' & H & [[_ Hlt]|[Hs _]] & _); [lia|]. exists p'. split; [exact H|exact Hs].
Defined.
