(* ===== verification/PolicyWall.v ===== *)
(** * The fast wall

    packages/adaptorch-wpl/src/policy-wall.ts: secret scan, changed paths and
    write scope of a unified diff. *)

From Stdlib Require Import Ascii String ZArith Lia.
From stdpp Require Import base list option strings sets.
From S2P Require Import Prelude JsString Regex PathSegments.

Open Scope nat_scope.
Open Scope list_scope.

Inductive PolicyFlag : Type :=
| NON_NEGOTIABLE_BLOCKING
| SECRET_SUSPECT
| CANDIDATE_LEAK_SUSPECT
| EVIDENCE_DAG_INCOMPLETE
| REPRO_OVERFIT_SUSPECT
| LOW_DISCRIMINATION.

#[export] Instance PolicyFlag_eq_dec : EqDecision PolicyFlag.
Proof. solve_decision. Defined.

Definition flag_str (f : PolicyFlag) : string :=
  match f with
  | NON_NEGOTIABLE_BLOCKING => "NON_NEGOTIABLE_BLOCKING"
  | SECRET_SUSPECT => "SECRET_SUSPECT"
  | CANDIDATE_LEAK_SUSPECT => "CANDIDATE_LEAK_SUSPECT"
  | EVIDENCE_DAG_INCOMPLETE => "EVIDENCE_DAG_INCOMPLETE"
  | REPRO_OVERFIT_SUSPECT => "REPRO_OVERFIT_SUSPECT"
  | LOW_DISCRIMINATION => "LOW_DISCRIMINATION"
  end.

(** ** Secret patterns *)

(** A class under the [i] flag. *)
Definition is_digit (a : ascii) : bool := in_range 48 57 a.
Definition is_alnum (a : ascii) : bool := is_alpha a || is_digit a.

Definition key_sep : regex := ROpt (RChar (one_of "_-")).

Definition SECRET_LINE_PATTERNS : list regex :=
  [RSeqs [RLitI ".env"; RAlts [RLit "."; REnd; RWordB]];
   RSeqs [RLitI "BEGIN "; ROpt (RAlts [RLitI "RSA "; RLitI "EC "; RLitI "OPENSSH "]);
          RLitI "PRIVATE KEY"];
   RSeqs [RLitI "api"; key_sep; RLitI "key"; RStar RSpace; RLit "="];
   RSeqs [RLitI "secret"; key_sep; RLitI "key"; RStar RSpace; RLit "="];
   RSeqs [RLitI "password"; RStar RSpace; RLit "="];
   RSeqs [RWordB; RLitI "sk-"; RAlts [RLitI "ant"; RLitI "proj"; RLitI "live"; RLitI "test"];
          RAtLeast 8 (RChar (fun a => is_alnum a || one_of "-_" a))];
   RSeqs [RWordB; RLitI "sk-"; RAtLeast 20 (RChar is_alnum)];
   RSeqs [RWordB; RLit "ghp_"; RAtLeast 20 (RChar is_alnum)];
   RSeqs [RWordB; RLit "xox"; RChar (one_of "baprs"); RLit "-";
          RAtLeast 10 (RChar (fun a => is_alnum a || one_of "-" a))]].

(** ** Lines of a diff *)

Definition line_feed : ascii := ascii_of_nat 10.
Definition carriage_return : ascii := ascii_of_nat 13.

(** One trailing carriage return removed. *)
Fixpoint drop_cr (s : string) : string :=
  match s with
  | EmptyString => EmptyString
  | String a EmptyString => if Ascii.eqb a carriage_return then EmptyString else s
  | String a s' => String a (drop_cr s')
  end.

(** [text.split(/\r?\n/)]: every line that a line feed ends loses the carriage
    return before it. *)
Fixpoint drop_crs (lines : list string) : list string :=
  match lines with
  | [] => []
  | [last] => [last]
  | l :: rest => drop_cr l :: drop_crs rest
  end.

Definition split_lines (text : string) : list string := drop_crs (split line_feed text).

Definition blank (text : option string) : bool :=
  match text with
  | None => true
  | Some t => is_empty (trim t)
  end.

(** The lines the scan looks at, without their [+]. *)
Definition added_body (line : string) : option string :=
  if negb (startsWith "+" line) || startsWith "+++" line then None else Some (slice 1 line).

Definition has_secret (body : string) : bool :=
  existsb (fun pattern => rx_test pattern body) SECRET_LINE_PATTERNS.

Definition scanDiffLinesForSecrets (diffText : option string) : bool :=
  if blank diffText then false
  else existsb has_secret (omap added_body (split_lines (default EmptyString diffText))).

(** ** Changed paths *)

Definition diff_path (line : string) : option string :=
  if startsWith "+++ " line then
    let raw := trim (slice 4 line) in
    if String.eqb raw "/dev/null" then None
    else
      let path := if startsWith "b/" raw then slice 2 raw else raw in
      if is_empty path then None else Some path
  else None.

Definition parseDiffPaths (diffText : option string) : list string :=
  if blank diffText then []
  else stable_sort str_compare
         (dedup (omap diff_path (split_lines (default EmptyString diffText)))).

Definition normalizePathForMatch (path : string) : string := normalizePathSlashes path.

(** The text before the first occurrence of the two stars: [p.split] of them. *)
Fixpoint before_stars (p : string) : string :=
  if startsWith "**" p then EmptyString
  else match p with
  | EmptyString => EmptyString
  | String a p' => String a (before_stars p')
  end.

(** [s.slice(0, -n)] *)
Definition slice_end (n : nat) (s : string) : string := slice_to (String.length s - n) s.

Definition under_prefix (prefix normalized : string) : bool :=
  is_empty prefix || String.eqb normalized prefix || startsWith (prefix ++ "/") normalized.

(** One pattern of the scope; [None] is the [continue] of an empty pattern. *)
Definition pattern_matches (normalized pattern : string) : bool :=
  let p := normalizePathForMatch (trim pattern) in
  if is_empty p then false
  else if endsWith "/**" p then under_prefix (slice_end 3 p) normalized
  else if includes "**" p then
    let head := before_stars p in
    under_prefix (if endsWith "/" head then slice_end 1 head else head) normalized
  else String.eqb normalized p || startsWith (p ++ "/") normalized.

Definition pathMatchesApprovedScope (filePath : string) (approvedWriteScope : list string) : bool :=
  existsb (pattern_matches (normalizePathForMatch filePath)) approvedWriteScope.

(** ** The wall *)

Record FastWallInput : Type := {
  diffText : option string;
  approvedWriteScope : option (list string);
  fw_runIds : option (list string);
  fw_previewOnly : bool;
}.

Record FastWallResult : Type := {
  flags : list PolicyFlag;
  diffPaths : list string;
}.

Definition runFastWall (input : FastWallInput) : FastWallResult :=
  let paths := parseDiffPaths (diffText input) in
  let scope := default [] (approvedWriteScope input) in
  let previewOnly := fw_previewOnly input in
  let runIds := default [] (fw_runIds input) in
  let scope_flags :=
    if (0 <? length scope)%nat && (0 <? length paths)%nat then
      let outOfScope := List.filter (fun p => negb (pathMatchesApprovedScope p scope)) paths in
      if (0 <? length outOfScope)%nat then [CANDIDATE_LEAK_SUSPECT; NON_NEGOTIABLE_BLOCKING] else []
    else [] in
  let expectsRunEvidence := (0 <? length runIds)%nat && negb previewOnly in
  let evidence_flags := if expectsRunEvidence then [EVIDENCE_DAG_INCOMPLETE] else [] in
  let preview_flags := if previewOnly then [REPRO_OVERFIT_SUSPECT; LOW_DISCRIMINATION] else [] in
  let secret_flags :=
    if scanDiffLinesForSecrets (diffText input) then [SECRET_SUSPECT; NON_NEGOTIABLE_BLOCKING] else [] in
  {| flags := scope_flags ++ evidence_flags ++ preview_flags ++ secret_flags; diffPaths := paths |}.

(** ** Lemmas *)

Lemma elem_of_parseDiffPaths (d : option string) (p : string) :
  p ∈ parseDiffPaths d <->
  blank d = false /\ exists line, line ∈ split_lines (default EmptyString d) /\ diff_path line = Some p.
Proof.
  unfold parseDiffPaths. destruct (blank d); [set_solver|].
  rewrite elem_of_stable_sort, elem_of_dedup, list_elem_of_omap. naive_solver.
Qed.

Lemma parseDiffPaths_NoDup (d : option string) : NoDup (parseDiffPaths d).
Proof.
  unfold parseDiffPaths. destruct (blank d); [constructor|].
  rewrite stable_sort_perm. apply NoDup_dedup.
Qed.

Lemma scan_iff (d : option string) :
  scanDiffLinesForSecrets d = true <->
  blank d = false /\ exists line body, line ∈ split_lines (default EmptyString d) /\
    added_body line = Some body /\ has_secret body = true.
Proof.
  unfold scanDiffLinesForSecrets. destruct (blank d); [naive_solver|].
  rewrite existsb_true_iff. setoid_rewrite list_elem_of_omap. naive_solver.
Qed.

Lemma fast_wall_blocking (input : FastWallInput) :
  NON_NEGOTIABLE_BLOCKING ∈ flags (runFastWall input) <->
  scanDiffLinesForSecrets (diffText input) = true \/
  exists scope p, approvedWriteScope input = Some scope /\ scope <> [] /\
    p ∈ parseDiffPaths (diffText input) /\ pathMatchesApprovedScope p scope = false.
Proof.
  unfold runFastWall. simpl. rewrite !elem_of_app.
  set (paths := parseDiffPaths (diffText input)).
  assert (Hscope : NON_NEGOTIABLE_BLOCKING ∈
    (if (0 <? length (default [] (approvedWriteScope input)))%nat && (0 <? length paths)%nat
     then if (0 <? length (List.filter (fun p => negb (pathMatchesApprovedScope p
                 (default [] (approvedWriteScope input)))) paths))%nat
          then [CANDIDATE_LEAK_SUSPECT; NON_NEGOTIABLE_BLOCKING] else [] else []) <->
    exists scope p, approvedWriteScope input = Some scope /\ scope <> [] /\ p ∈ paths /\
      pathMatchesApprovedScope p scope = false).
  { destruct (approvedWriteScope input) as [[|s scope]|]; cbn [default from_option id];
      [set_solver| |set_solver].
    rewrite filter_length_existsb.
    destruct (existsb _ paths) eqn:E.
    - apply existsb_true_iff in E as (p & Hp & Hno%negb_true_iff).
      destruct paths as [|p0 paths]; [by apply elem_of_nil in Hp|].
      split; [intros _; by exists (s :: scope), p|set_solver].
    - rewrite existsb_false_iff in E. split; [by destruct (_ && _); set_solver|].
      intros (sc & p & [= <-] & _ & Hp & Hno). specialize (E p Hp). apply negb_false_iff in E. congruence. }
  rewrite Hscope.
  assert (Hsec : NON_NEGOTIABLE_BLOCKING ∈ (if scanDiffLinesForSecrets (diffText input)
     then [SECRET_SUSPECT; NON_NEGOTIABLE_BLOCKING] else []) <->
     scanDiffLinesForSecrets (diffText input) = true).
  { destruct (scanDiffLinesForSecrets (diffText input)); set_solver. }
  rewrite Hsec.
  destruct (_ && negb (fw_previewOnly input)), (fw_previewOnly input); set_solver.
Qed.
