(* ===== verification/CorrectnessWall.v ===== *)
(** * The correctness wall

    packages/adaptorch-wpl/src: b2c-verdict.ts, deep-wall.ts, b2c-mapper.ts,
    repair-loop.ts, signed-receipt.ts, receipt-signature.ts, wall-meta.ts and
    evaluate-correctness-wall.ts. The digest functions of [node:crypto] are the
    parameters [sha256Hex] and [hmacSha256Hex]; [clock n] is the [n]-th reading
    of the wall clock; the environment variable is an argument; an injected deep
    runner is a function that may throw. *)

From Stdlib Require Import Ascii String ZArith QArith Lia.
From stdpp Require Import base list option strings sets.
From S2P Require Import Prelude JsString JsValue Regex PathSegments PolicyWall Adjudicator.

Open Scope nat_scope.
Open Scope list_scope.

(** ** b2c-verdict.ts *)

Definition B2C_VERDICT_SCHEMA_VERSION : nat := 1.

Inductive UserVerdict : Type :=
| PASS
| ADVISORY
| INCONCLUSIVE
| BLOCKED.

#[export] Instance UserVerdict_eq_dec : EqDecision UserVerdict.
Proof. solve_decision. Defined.

Inductive UserRiskLevel : Type :=
| low
| medium
| high
| critical.

Inductive VerdictNextAction : Type :=
| Apply
| DeepCheck
| Regenerate.

Record VerdictLimits : Type := {
  requiresHumanReview : bool;
  lim_previewOnly : bool;
  limits_code : option string;
}.

Record VerdictCard : Type := {
  card_schemaVersion : nat;
  card_verdict : UserVerdict;
  risk : UserRiskLevel;
  limits : VerdictLimits;
  passed_checks : list string;
  blocked_reasons : list string;
  next_actions : list VerdictNextAction;
  repairHints : option (list string);
  card_packetId : option string;
  card_kind : string;
}.

(** ** deep-wall.ts *)

Inductive DeepWallStatus : Type :=
| not_requested
| unavailable
| deep_completed.

#[export] Instance DeepWallStatus_eq_dec : EqDecision DeepWallStatus.
Proof. solve_decision. Defined.

Inductive DeepWallPhase : Type :=
| stub
| docker.

Definition DEEP_WALL_UNAVAILABLE : string := "DEEP_WALL_UNAVAILABLE".
Definition DEEP_RUNNER_NOT_WIRED : string := "DEEP_RUNNER_NOT_WIRED".
Definition DEEP_RUNNER_EVIDENCE_MISSING : string := "DEEP_RUNNER_EVIDENCE_MISSING".
Definition DEEP_RUNNER_ERROR : string := "DEEP_RUNNER_ERROR".
Definition BATCH1_NO_DOCKER_RUNNER : string := "BATCH1_NO_DOCKER_RUNNER".

Record DeepWallRunnerResult : Type := {
  rr_completed : bool;
  rr_evidence : jsval;
  rr_message : string;
}.

(** What a runner is given. *)
Record DeepRunnerInput : Type := {
  dri_kind : string;
  dri_runIds : list string;
  dri_packetId : option string;
  dri_phase : DeepWallPhase;
}.

Definition DeepWallRunnerFn : Type := DeepRunnerInput -> result string DeepWallRunnerResult.

Record DeepWallResult : Type := {
  deep_status : DeepWallStatus;
  deep_message : string;
  deep_evidence : option jsval;
  deep_limits : list string;
  runnerFlags : list string;
}.

Definition DEFAULT_DEEP_WALL_MESSAGE : string :=
  "Deep correctness check is not available in this environment (no docker runner). Use preview fast wall or run checks locally.".

Definition DOCKER_PHASE_MESSAGE : string :=
  "Deep wall docker phase requested but hermetic runner is not wired yet; fast wall and local CI remain authoritative.".

Definition nonempty_string (v : jsval) : bool :=
  match v with
  | JString s => negb (is_empty s)
  | _ => false
  end.

Definition finite_number (v : jsval) : bool :=
  match v with
  | JNumber n => num_isFinite n
  | _ => false
  end.

Definition hasValidEvidence (e : jsval) : bool :=
  if negb (is_object e) then false
  else nonempty_string (get_prop "digest" e) && nonempty_string (get_prop "command" e)
       && finite_number (get_prop "exitCode" e).

Definition resolveDeepWallPhaseFromEnv (env : option string) : DeepWallPhase :=
  match env with
  | Some raw => if String.eqb (toLowerCase (trim raw)) "docker" then docker else stub
  | None => stub
  end.

Definition isDeepRunnerCompletionAllowed : bool := false.

Definition runDeepWallStub (phase : DeepWallPhase) : DeepWallResult :=
  {| deep_status := unavailable;
     deep_message := match phase with
                     | docker => DOCKER_PHASE_MESSAGE
                     | stub => DEFAULT_DEEP_WALL_MESSAGE
                     end;
     deep_evidence := None; deep_limits := [BATCH1_NO_DOCKER_RUNNER]; runnerFlags := [] |}.

Definition runDeepWall (input : DeepRunnerInput) (runner : option DeepWallRunnerFn)
    (allowCompletion : bool) : DeepWallResult :=
  match runner with
  | Some run =>
      if allowCompletion then
        match run input with
        | Err e =>
            {| deep_status := unavailable; deep_message := ("Deep runner threw: " ++ e)%string;
               deep_evidence := None; deep_limits := []; runnerFlags := [DEEP_RUNNER_ERROR] |}
        | Ok r =>
            if rr_completed r then
              if hasValidEvidence (rr_evidence r)
              then {| deep_status := deep_completed; deep_message := rr_message r;
                      deep_evidence := Some (rr_evidence r); deep_limits := []; runnerFlags := [] |}
              else {| deep_status := unavailable;
                      deep_message := "Deep runner reported completed without valid evidence; downgraded to unavailable.";
                      deep_evidence := None; deep_limits := [];
                      runnerFlags := [DEEP_RUNNER_EVIDENCE_MISSING] |}
            else {| deep_status := unavailable; deep_message := rr_message r; deep_evidence := None;
                    deep_limits := []; runnerFlags := [] |}
        end
      else runDeepWallStub (dri_phase input)
  | None => runDeepWallStub (dri_phase input)
  end.

(** ** b2c-mapper.ts *)

Definition USER_VERDICT_SEVERITY : list UserVerdict := [BLOCKED; INCONCLUSIVE; ADVISORY; PASS].

Fixpoint indexOf (v : UserVerdict) (l : list UserVerdict) : nat :=
  match l with
  | [] => 0
  | x :: l' => if bool_decide (x = v) then 0 else S (indexOf v l')
  end.

Definition worstUserVerdict (current next : UserVerdict) : UserVerdict :=
  let cur := indexOf current USER_VERDICT_SEVERITY in
  let nxt := indexOf next USER_VERDICT_SEVERITY in
  if (cur <=? nxt)%nat then current else next.

Definition verdictFromOa (v : VerdictState) : UserVerdict :=
  match v with
  | V_CONFIRMED => PASS
  | V_CORROBORATED_FAILURE => ADVISORY
  | V_CONTRADICTED => BLOCKED
  | V_INDETERMINATE => INCONCLUSIVE
  | V_VERIFIER_ERROR => INCONCLUSIVE
  end.

Definition has_flag (flags : list PolicyFlag) (f : PolicyFlag) : bool := bool_decide (f ∈ flags).

Definition riskFromUserVerdict (v : UserVerdict) (flags : list PolicyFlag) : UserRiskLevel :=
  if bool_decide (v = BLOCKED) || has_flag flags NON_NEGOTIABLE_BLOCKING then critical
  else match v with
  | INCONCLUSIVE => high
  | ADVISORY => medium
  | _ => low
  end.

(** [REASON_CODE_USER]: the passed and the blocked string of a code. *)
Definition REASON_CODE_USER (c : AdjudicationReasonCode) : option string * option string :=
  match c with
  | SCOPE_VIOLATION => (None, Some "Write scope violation detected by outcome adjudication.")
  | SCHEMA_DRIFT => (None, Some "Output schema does not match the expected contract.")
  | CONTENT_CHECK_FAILED => (None, Some "Content verification failed for one or more artifacts.")
  | NO_EVIDENCE_ON_SUCCESS => (None, Some "Run reported success but left no usable evidence.")
  | EMPTY_ARTIFACT_CONTENT => (None, Some "An artifact was present but contained no substantive content.")
  | TRACE_CHECK_FAILED => (None, Some "Trace verification failed for this run.")
  | TRACE_ERROR_SPAN => (None, Some "Error-level spans were found under a reported success.")
  | MIN_ACTIONS_UNMET => (None, Some "Fewer actions were recorded than required for this kind.")
  | RUN_STATUS_UNPARSEABLE => (None, Some "Run status could not be interpreted.")
  | RUN_FETCH_FAILED => (None, Some "Evidence could not be fetched for this run.")
  | MALFORMED_REQUEST => (None, Some "Adjudication request was malformed.")
  | RUN_NOT_TERMINAL => (None, Some "Run has not reached a terminal status yet.")
  | EVIDENCE_EMPTY => (None, Some "Evidence was too thin to reach a confident verdict.")
  | FAILURE_REPORTED => (None, Some "The run reported failure and evidence agrees.")
  | ALL_CHECKS_PASSED => (Some "All outcome adjudication checks passed.", None)
  end%string.

Definition opt_list {A} (o : option A) : list A :=
  match o with
  | Some a => [a]
  | None => []
  end.

Definition userVerdictFromPolicyFlags (flags : list PolicyFlag) (previewOnly : bool)
    : option UserVerdict :=
  let v0 := PASS in
  let v1 := if has_flag flags NON_NEGOTIABLE_BLOCKING || has_flag flags CANDIDATE_LEAK_SUSPECT
               || has_flag flags SECRET_SUSPECT
            then worstUserVerdict v0 BLOCKED else v0 in
  let v2 := if has_flag flags EVIDENCE_DAG_INCOMPLETE then worstUserVerdict v1 INCONCLUSIVE else v1 in
  let v3 := if previewOnly && (has_flag flags REPRO_OVERFIT_SUSPECT || has_flag flags LOW_DISCRIMINATION)
            then worstUserVerdict v2 ADVISORY else v2 in
  if bool_decide (v3 = PASS) && (length flags =? 0)%nat then None else Some v3.

Record MapToB2CInput : Type := {
  m_kind : string;
  m_packetId : option string;
  m_dispatchRecordId : option string;
  m_runIds : list string;
  m_previewOnly : bool;
  policyFlags : list PolicyFlag;
  m_diffPaths : list string;
  adjudication : option AdjudicationResult;
  m_repairHints : option (list string);
}.

Definition buildNextActions (v : UserVerdict) (previewOnly canApply : bool) : list VerdictNextAction :=
  match v with
  | BLOCKED => [Regenerate]
  | INCONCLUSIVE => if previewOnly then [DeepCheck; Regenerate] else [DeepCheck]
  | ADVISORY => if previewOnly then [DeepCheck; Apply] else [Apply]
  | PASS => if canApply then [Apply] else [DeepCheck]
  end.

Definition buildLimitsCode (previewOnly : bool) : option string :=
  if previewOnly then Some BATCH1_NO_DOCKER_RUNNER else None.

Definition buildDisclaimer (previewOnly : bool) (limitsCode : option string) : option string :=
  if negb previewOnly then None
  else Some ("Preview-only evaluation (" ++ default BATCH1_NO_DOCKER_RUNNER limitsCode
             ++ "): no docker runner; apply and submit gates are conservative.")%string.

(** The user verdict, in the order the mapper lowers it. *)
Definition base_verdict (input : MapToB2CInput) : UserVerdict :=
  if (length (m_diffPaths input) =? 0)%nat && bool_decide (~ is_Some (adjudication input))
  then INCONCLUSIVE else PASS.

Definition flagged_verdict (input : MapToB2CInput) : UserVerdict :=
  match userVerdictFromPolicyFlags (policyFlags input) (m_previewOnly input) with
  | Some p => worstUserVerdict (base_verdict input) p
  | None => base_verdict input
  end.

Definition final_verdict (input : MapToB2CInput) : UserVerdict :=
  match adjudication input with
  | Some a => worstUserVerdict (flagged_verdict input) (verdictFromOa (res_verdict a))
  | None => flagged_verdict input
  end.

Definition when (b : bool) (s : string) : list string := if b then [s] else [].

Definition blocked_of (input : MapToB2CInput) : list string :=
  when (bool_decide (base_verdict input = INCONCLUSIVE))
    "No changed paths were found in the diff; cannot assess write scope."
  ++ when (has_flag (policyFlags input) SECRET_SUSPECT)
    "Diff lines may contain secrets or credentials; remove before proceeding."
  ++ when (has_flag (policyFlags input) CANDIDATE_LEAK_SUSPECT)
    "One or more changed paths fall outside the approved write scope."
  ++ when (has_flag (policyFlags input) EVIDENCE_DAG_INCOMPLETE)
    "Run evidence is required but was not evaluated in this receipt."
  ++ when (m_previewOnly input && has_flag (policyFlags input) LOW_DISCRIMINATION)
    "Preview-only mode: discrimination against production evidence is limited."
  ++ match adjudication input with
     | Some a => opt_list (snd (REASON_CODE_USER (res_reason_code a)))
     | None => []
     end.

Definition passed_of (input : MapToB2CInput) : list string :=
  match adjudication input with
  | Some a => opt_list (fst (REASON_CODE_USER (res_reason_code a)))
  | None =>
      when (bool_decide (flagged_verdict input = PASS) && (0 <? length (m_diffPaths input))%nat)
        "Changed paths are within approved write scope (fast wall)."
  end.

Definition canApply_of (input : MapToB2CInput) : bool :=
  bool_decide (final_verdict input = PASS)
  && negb (has_flag (policyFlags input) NON_NEGOTIABLE_BLOCKING)
  && negb (has_flag (policyFlags input) CANDIDATE_LEAK_SUSPECT)
  && negb (has_flag (policyFlags input) SECRET_SUSPECT)
  && match adjudication input with
     | None => true
     | Some a => bool_decide (res_verdict a = V_CONFIRMED)
     end.

Definition shouldSubmit_of (input : MapToB2CInput) : bool :=
  negb (bool_decide (final_verdict input = BLOCKED))
  && negb (has_flag (policyFlags input) NON_NEGOTIABLE_BLOCKING).

(** ** signed-receipt.ts, receipt-signature.ts, wall-meta.ts *)

Record VerificationDigest : Type := {
  patchHash : option string;
  evidenceHashes : list string;
  compositeHash : string;
  dg_wallVersion : option string;
}.

Record SignedWallReceipt : Type := {
  digestCompositeHash : string;
  sr_wallVersion : string;
  signature : string;
  signedAt : string;
}.

Definition CORRECTNESS_WALL_VERSION : string := "2026-07-08.batch2".

Section Digests.
Context (sha256Hex : string -> string) (hmacSha256Hex : string -> string -> string).

(** [x !== undefined && x.length > 0 ? x : undefined] *)
Definition nonempty_opt (x : option string) : option string :=
  match x with
  | Some s => if is_empty s then None else Some s
  | None => None
  end.

(** The string under the composite hash. *)
Definition composite_material (wallVersion patch : option string) (evidence : list string) : string :=
  join "|" (default EmptyString wallVersion :: default EmptyString patch :: evidence).

Definition buildVerificationDigest (patchText : option string) (evidenceChunks : option (list string))
    (wallVersion : option string) : VerificationDigest :=
  let patch := sha256Hex <$> nonempty_opt patchText in
  let evidence := map sha256Hex
    (List.filter (fun c => negb (is_empty c)) (default [] evidenceChunks)) in
  let version := nonempty_opt wallVersion in
  let material := composite_material version patch evidence in
  {| patchHash := patch; evidenceHashes := evidence;
     compositeHash := sha256Hex (if is_empty material then "empty"%string else material);
     dg_wallVersion := version |}.

Definition signature_material (wallVersion composite signedAt : string) : string :=
  join "|" [wallVersion; composite; signedAt].

Definition signWallReceipt (digest : VerificationDigest) (wallVersion secret signedAt : string)
    : SignedWallReceipt :=
  {| digestCompositeHash := compositeHash digest; sr_wallVersion := wallVersion;
     signature := hmacSha256Hex secret (signature_material wallVersion (compositeHash digest) signedAt);
     signedAt := signedAt |}.

(** [timingSafeEqual] is equality of the bytes once the lengths agree. *)
Definition verifyWallReceipt (signed : SignedWallReceipt) (secret : string) : bool :=
  let expected := hmacSha256Hex secret
    (signature_material (sr_wallVersion signed) (digestCompositeHash signed) (signedAt signed)) in
  if negb (String.length expected =? String.length (signature signed))%nat then false
  else String.eqb expected (signature signed).

(** ** The receipt and the mapper *)

Record VerificationReceipt : Type := {
  rc_schemaVersion : nat;
  evaluatedAt : string;
  rc_kind : string;
  rc_packetId : option string;
  rc_dispatchRecordId : option string;
  rc_runIds : list string;
  rc_previewOnly : bool;
  canApply : bool;
  shouldSubmit : bool;
  rc_policyFlags : list string;
  adjudicationVerdict : option string;
  adjudicationReasonCode : option AdjudicationReasonCode;
  rc_diffPaths : list string;
  disclaimer : option string;
  verificationDigest : option VerificationDigest;
  rc_wallVersion : option string;
  deepWallStatus : option DeepWallStatus;
  deepWallEvidence : option jsval;
  signedReceipt : option SignedWallReceipt;
}.

Definition mapToB2C (input : MapToB2CInput) (now : string) : VerdictCard * VerificationReceipt :=
  let v := final_verdict input in
  let previewOnly := m_previewOnly input in
  let limitsCode := buildLimitsCode previewOnly in
  let apply := canApply_of input in
  ({| card_schemaVersion := B2C_VERDICT_SCHEMA_VERSION; card_verdict := v;
      risk := riskFromUserVerdict v (policyFlags input);
      limits := {| requiresHumanReview := bool_decide (v = BLOCKED) || bool_decide (v = INCONCLUSIVE);
                   lim_previewOnly := previewOnly; limits_code := limitsCode |};
      passed_checks := passed_of input;
      blocked_reasons := dedup (blocked_of input);
      next_actions := buildNextActions v previewOnly apply;
      repairHints := match m_repairHints input with
                     | Some (h :: hs) => Some (h :: hs)
                     | _ => None
                     end;
      card_packetId := m_packetId input; card_kind := m_kind input |},
   {| rc_schemaVersion := B2C_VERDICT_SCHEMA_VERSION; evaluatedAt := now; rc_kind := m_kind input;
      rc_packetId := m_packetId input; rc_dispatchRecordId := m_dispatchRecordId input;
      rc_runIds := m_runIds input; rc_previewOnly := previewOnly; canApply := apply;
      shouldSubmit := shouldSubmit_of input; rc_policyFlags := map flag_str (policyFlags input);
      adjudicationVerdict := (fun a => verdict_str (res_verdict a)) <$> adjudication input;
      adjudicationReasonCode := res_reason_code <$> adjudication input;
      rc_diffPaths := m_diffPaths input; disclaimer := buildDisclaimer previewOnly limitsCode;
      verificationDigest := None; rc_wallVersion := None; deepWallStatus := None;
      deepWallEvidence := None; signedReceipt := None |}).

(** ** repair-loop.ts *)

Definition REASON_REPAIR (c : AdjudicationReasonCode) : option string :=
  match c with
  | SCOPE_VIOLATION => Some "Narrow the change to approved write paths only, then re-run the wall."
  | SCHEMA_DRIFT => Some "Align outputs with the expected schema contract before resubmitting."
  | CONTENT_CHECK_FAILED => Some "Fix failing content checks on artifacts, then re-adjudicate."
  | NO_EVIDENCE_ON_SUCCESS => Some "Attach terminal run evidence before claiming success."
  | EMPTY_ARTIFACT_CONTENT => Some "Ensure artifacts contain substantive content, not placeholders."
  | TRACE_CHECK_FAILED => Some "Resolve trace verification failures on the reported run."
  | TRACE_ERROR_SPAN => Some "Clear error spans under a success status or mark the run failed."
  | MIN_ACTIONS_UNMET => Some "Record the minimum required actions for this kind."
  | RUN_FETCH_FAILED => Some "Retry fetching run evidence when the runner is available."
  | EVIDENCE_EMPTY => Some "Widen verification scope or wait for terminal run artifacts."
  | _ => None
  end%string.

Record RepairHintInput : Type := {
  userVerdict : UserVerdict;
  rh_policyFlags : list PolicyFlag;
  rh_reasonCode : option AdjudicationReasonCode;
  rh_previewOnly : bool;
  rh_diffPaths : list string;
}.

Definition deriveRepairHints (input : RepairHintInput) : list string :=
  let fl := rh_policyFlags input in
  let hints1 :=
    when (has_flag fl CANDIDATE_LEAK_SUSPECT)
      "Remove or relocate paths outside the approved write scope."
    ++ when (has_flag fl SECRET_SUSPECT)
      "Remove secret-like material from the diff; never commit credentials or private keys."
    ++ when (has_flag fl NON_NEGOTIABLE_BLOCKING)
      "Resolve non-negotiable policy blocks before apply or submit."
    ++ when (has_flag fl EVIDENCE_DAG_INCOMPLETE)
      "Complete the evidence DAG with terminal run ids (non-preview evaluation)."
    ++ when (rh_previewOnly input && has_flag fl LOW_DISCRIMINATION)
      "Run a non-preview Deep Check with runner evidence for higher discrimination."
    ++ opt_list (rh_reasonCode input ≫= REASON_REPAIR)
    ++ when (bool_decide (userVerdict input = INCONCLUSIVE) && (length (rh_diffPaths input) =? 0)%nat)
      "Provide a non-empty diff or explicit changed paths." in
  let hints2 := hints1
    ++ when (bool_decide (userVerdict input = BLOCKED) && (length hints1 =? 0)%nat)
      "Regenerate the change set after addressing blocked reasons." in
  dedup (hints2 ++ when (bool_decide (userVerdict input = ADVISORY))
                    "Review advisory signals before applying in production.").

(** ** evaluate-correctness-wall.ts *)

Section Evaluate.
Context {W : Type} (callTool : string -> jsval -> W -> result string jsval * W).
Context (num_to_str : jsnum -> string) (clock : nat -> string) (deep_phase_env : option string).

Record EvaluateCorrectnessWallParams : Type := {
  p_kind : string;
  p_runIds : option (list string);
  p_dispatchRecordId : option string;
  p_approvedWriteScope : option (list string);
  p_previewOnly : bool;
  p_diffText : option string;
  p_packetId : option string;
  p_client : bool;
  p_registry : option (string -> VerifierRegistryEntry);
  p_deepWall : bool;
  deepWallRunner : option DeepWallRunnerFn;
  deepWallAllowCompletion : bool;
  receiptSigningSecret : option string;
}.

(** A client is given ([p_client]), there are runs, and this is no preview. *)
Definition uses_oa (params : EvaluateCorrectnessWallParams) : bool :=
  (0 <? length (default [] (p_runIds params)))%nat && negb (p_previewOnly params) && p_client params.

Definition adjudicate_if (params : EvaluateCorrectnessWallParams) (w : W)
    : result string (option AdjudicationResult) * W :=
  if uses_oa params then
    let '(r, w') := adjudicate callTool num_to_str
      {| dispatch_record_id := default "b2c-wall"%string (p_dispatchRecordId params);
         kind := p_kind params; req_run_ids := default [] (p_runIds params) |}
      (default (createVerifierRegistry []) (p_registry params)) w in
    (a <-? r ;; Ok (Some a), w')
  else (Ok None, w).

(** Flags still meaningful once the runs were adjudicated. *)
Definition wall_flags (wall : FastWallResult) (a : option AdjudicationResult) : list PolicyFlag :=
  match a with
  | Some _ => List.filter (fun f => negb (bool_decide (f = EVIDENCE_DAG_INCOMPLETE))) (flags wall)
  | None => flags wall
  end.

Definition push_new (fs : list string) (f : string) : list string :=
  if bool_decide (f ∈ fs) then fs else fs ++ [f].

(** Merging the deep wall into the card and the receipt. *)
Definition merge_deep (deep : DeepWallResult) (card : VerdictCard) (receipt : VerificationReceipt)
    : VerdictCard * VerificationReceipt :=
  let done := bool_decide (deep_status deep = deep_completed) in
  let fs0 := rc_policyFlags receipt in
  let fs1 := if done then fs0
             else let fs := push_new fs0 DEEP_WALL_UNAVAILABLE in
                  if negb isDeepRunnerCompletionAllowed then push_new fs DEEP_RUNNER_NOT_WIRED else fs in
  let fs2 := foldl push_new fs1 (runnerFlags deep) in
  let code := match head (deep_limits deep) with
              | Some c => Some c
              | None => limits_code (limits card)
              end in
  ({| card_schemaVersion := card_schemaVersion card; card_verdict := card_verdict card;
      risk := risk card;
      limits := {| requiresHumanReview := negb done; lim_previewOnly := lim_previewOnly (limits card);
                   limits_code := code |};
      passed_checks := passed_checks card;
      blocked_reasons := dedup (blocked_reasons card ++ [deep_message deep]);
      next_actions := next_actions card; repairHints := repairHints card;
      card_packetId := card_packetId card; card_kind := card_kind card |},
   {| rc_schemaVersion := rc_schemaVersion receipt; evaluatedAt := evaluatedAt receipt;
      rc_kind := rc_kind receipt; rc_packetId := rc_packetId receipt;
      rc_dispatchRecordId := rc_dispatchRecordId receipt; rc_runIds := rc_runIds receipt;
      rc_previewOnly := rc_previewOnly receipt; canApply := canApply receipt;
      shouldSubmit := shouldSubmit receipt; rc_policyFlags := fs2;
      adjudicationVerdict := adjudicationVerdict receipt;
      adjudicationReasonCode := adjudicationReasonCode receipt; rc_diffPaths := rc_diffPaths receipt;
      disclaimer := disclaimer receipt; verificationDigest := verificationDigest receipt;
      rc_wallVersion := rc_wallVersion receipt; deepWallStatus := Some (deep_status deep);
      deepWallEvidence := deep_evidence deep; signedReceipt := signedReceipt receipt |}).

(** The receipt with its digest, its wall version and, with a secret, its
    signature. *)
Definition attest (receipt : VerificationReceipt) (digest : VerificationDigest)
    (secret : option string) : VerificationReceipt :=
  {| rc_schemaVersion := rc_schemaVersion receipt; evaluatedAt := evaluatedAt receipt;
     rc_kind := rc_kind receipt; rc_packetId := rc_packetId receipt;
     rc_dispatchRecordId := rc_dispatchRecordId receipt; rc_runIds := rc_runIds receipt;
     rc_previewOnly := rc_previewOnly receipt; canApply := canApply receipt;
     shouldSubmit := shouldSubmit receipt; rc_policyFlags := rc_policyFlags receipt;
     adjudicationVerdict := adjudicationVerdict receipt;
     adjudicationReasonCode := adjudicationReasonCode receipt; rc_diffPaths := rc_diffPaths receipt;
     disclaimer := disclaimer receipt; verificationDigest := Some digest;
     rc_wallVersion := Some CORRECTNESS_WALL_VERSION; deepWallStatus := deepWallStatus receipt;
     deepWallEvidence := deepWallEvidence receipt;
     signedReceipt :=
       match trim <$> secret with
       | Some s => if is_empty s then None
                   else Some (signWallReceipt digest CORRECTNESS_WALL_VERSION s (clock 2))
       | None => None
       end |}.

(** The mapper input of one evaluation. *)
Definition mapper_input (params : EvaluateCorrectnessWallParams) (a : option AdjudicationResult)
    (hints : option (list string)) : MapToB2CInput :=
  let wall := runFastWall
    {| diffText := p_diffText params; approvedWriteScope := p_approvedWriteScope params;
       fw_runIds := Some (default [] (p_runIds params)); fw_previewOnly := p_previewOnly params |} in
  {| m_kind := p_kind params; m_packetId := p_packetId params;
     m_dispatchRecordId := p_dispatchRecordId params; m_runIds := default [] (p_runIds params);
     m_previewOnly := p_previewOnly params; policyFlags := wall_flags wall a;
     m_diffPaths := diffPaths wall; adjudication := a; m_repairHints := hints |}.

Definition evaluateCorrectnessWall (params : EvaluateCorrectnessWallParams) (w : W)
    : result string (VerdictCard * VerificationReceipt) * W :=
  let '(adj, w1) := adjudicate_if params w in
  (a <-? adj ;;
   let provisional := mapToB2C (mapper_input params a None) (clock 0) in
   let hints := deriveRepairHints
     {| userVerdict := card_verdict (fst provisional);
        rh_policyFlags := policyFlags (mapper_input params a None);
        rh_reasonCode := res_reason_code <$> a; rh_previewOnly := p_previewOnly params;
        rh_diffPaths := m_diffPaths (mapper_input params a None) |} in
   let mapped := mapToB2C (mapper_input params a (Some hints)) (clock 1) in
   let digest := buildVerificationDigest (p_diffText params)
     (if (0 <? length (default [] (p_runIds params)))%nat
      then Some (default [] (p_runIds params)) else None)
     (Some CORRECTNESS_WALL_VERSION) in
   let receipt := attest (snd mapped) digest (receiptSigningSecret params) in
   if p_deepWall params then
     let deep := runDeepWall
       {| dri_kind := p_kind params; dri_runIds := default [] (p_runIds params);
          dri_packetId := p_packetId params;
          dri_phase := resolveDeepWallPhaseFromEnv deep_phase_env |}
       (deepWallRunner params) (deepWallAllowCompletion params) in
     Ok (merge_deep deep (fst mapped) receipt)
   else Ok (fst mapped, receipt), w1).
End Evaluate.
End Digests.

(** ** The fast wall's findings, as the mapper sees them *)

(** Something in the diff blocks the change: a secret-like added line, or a
    changed path outside a non-empty approved scope. *)
Definition diff_blocked (params : EvaluateCorrectnessWallParams) : Prop :=
  scanDiffLinesForSecrets (p_diffText params) = true \/
  exists scope p, p_approvedWriteScope params = Some scope /\ scope <> [] /\
    p ∈ parseDiffPaths (p_diffText params) /\ pathMatchesApprovedScope p scope = false.

Definition run_ids_of (params : EvaluateCorrectnessWallParams) : list string :=
  default [] (p_runIds params).

Lemma has_flag_iff (fs : list PolicyFlag) (f : PolicyFlag) : has_flag fs f = true <-> f ∈ fs.
Proof. apply bool_decide_eq_true. Qed.

Lemma elem_of_wall_flags (wall : FastWallResult) (a : option AdjudicationResult) (f : PolicyFlag) :
  f ∈ wall_flags wall a <-> f ∈ flags wall /\ (f = EVIDENCE_DAG_INCOMPLETE -> a = None).
Proof.
  unfold wall_flags. destruct a; [|naive_solver].
  rewrite elem_of_filter_list, negb_true_iff, bool_decide_eq_false. naive_solver.
Qed.

(** The flags of [runFastWall], one by one. *)
Lemma fast_wall_flag_iff (input : FastWallInput) (f : PolicyFlag) :
  f ∈ flags (runFastWall input) <->
  match f with
  | NON_NEGOTIABLE_BLOCKING => NON_NEGOTIABLE_BLOCKING ∈ flags (runFastWall input)
  | SECRET_SUSPECT => scanDiffLinesForSecrets (diffText input) = true
  | CANDIDATE_LEAK_SUSPECT => CANDIDATE_LEAK_SUSPECT ∈ flags (runFastWall input)
  | EVIDENCE_DAG_INCOMPLETE => default [] (fw_runIds input) <> [] /\ fw_previewOnly input = false
  | REPRO_OVERFIT_SUSPECT | LOW_DISCRIMINATION => fw_previewOnly input = true
  end.
Proof.
  destruct f; try done; unfold runFastWall; simpl; rewrite !elem_of_app;
    destruct (default [] (fw_runIds input)) as [|r rs], (fw_previewOnly input),
      (scanDiffLinesForSecrets (diffText input)); simpl;
    repeat (case_match; simpl); set_solver.
Qed.

Lemma fast_wall_leak_blocks (input : FastWallInput) :
  CANDIDATE_LEAK_SUSPECT ∈ flags (runFastWall input) \/ SECRET_SUSPECT ∈ flags (runFastWall input) ->
  NON_NEGOTIABLE_BLOCKING ∈ flags (runFastWall input).
Proof.
  unfold runFastWall. simpl. rewrite !elem_of_app.
  destruct (fw_previewOnly input), (scanDiffLinesForSecrets (diffText input));
    repeat (case_match; simpl); set_solver.
Qed.

Lemma mapper_flags (params : EvaluateCorrectnessWallParams) (a : option AdjudicationResult)
    (hints : option (list string)) :
  let fs := policyFlags (mapper_input params a hints) in
  (has_flag fs NON_NEGOTIABLE_BLOCKING = true <-> diff_blocked params) /\
  (has_flag fs CANDIDATE_LEAK_SUSPECT = true \/ has_flag fs SECRET_SUSPECT = true -> diff_blocked params) /\
  (has_flag fs EVIDENCE_DAG_INCOMPLETE = true <-> run_ids_of params <> [] /\ p_previewOnly params = false /\ a = None) /\
  (has_flag fs REPRO_OVERFIT_SUSPECT = true <-> p_previewOnly params = true) /\
  (has_flag fs LOW_DISCRIMINATION = true <-> p_previewOnly params = true).
Proof.
  unfold mapper_input. cbn [policyFlags]. rewrite !has_flag_iff, !elem_of_wall_flags.
  match goal with |- context [runFastWall ?i] => set (input := i) end.
  assert (Hb : NON_NEGOTIABLE_BLOCKING ∈ flags (runFastWall input) <-> diff_blocked params)
    by apply fast_wall_blocking.
  pose proof (fast_wall_leak_blocks input) as Hl.
  rewrite (fast_wall_flag_iff input EVIDENCE_DAG_INCOMPLETE),
    (fast_wall_flag_iff input REPRO_OVERFIT_SUSPECT), (fast_wall_flag_iff input LOW_DISCRIMINATION).
  unfold run_ids_of. subst input. cbn [fw_runIds fw_previewOnly default from_option id] in *.
  split_and!; [split|..]; naive_solver.
Qed.

(** The user verdict by cases. *)
Lemma final_verdict_pass (params : EvaluateCorrectnessWallParams) (a : option AdjudicationResult)
    (hints : option (list string)) :
  final_verdict (mapper_input params a hints) = PASS <->
  ~ diff_blocked params /\ p_previewOnly params = false /\
  match a with
  | Some r => res_verdict r = V_CONFIRMED
  | None => run_ids_of params = [] /\ parseDiffPaths (p_diffText params) <> []
  end.
Proof.
  destruct (mapper_flags params a hints) as (Hb & Hl & He & Hr & Hd).
  unfold final_verdict, flagged_verdict, userVerdictFromPolicyFlags, base_verdict.
  change (m_previewOnly (mapper_input params a hints)) with (p_previewOnly params).
  change (adjudication (mapper_input params a hints)) with a.
  change (m_diffPaths (mapper_input params a hints)) with (parseDiffPaths (p_diffText params)).
  set (fs := policyFlags (mapper_input params a hints)) in *.
  assert (Hnb : ~ diff_blocked params <-> has_flag fs NON_NEGOTIABLE_BLOCKING = false).
  { rewrite <- Hb. by destruct (has_flag fs NON_NEGOTIABLE_BLOCKING). }
  assert (Hc : has_flag fs NON_NEGOTIABLE_BLOCKING = false ->
               has_flag fs CANDIDATE_LEAK_SUSPECT = false /\ has_flag fs SECRET_SUSPECT = false).
  { intros H0. apply Hnb in H0. split; apply not_true_iff_false; intros H1; apply H0, Hl; auto. }
  assert (Hx : has_flag fs EVIDENCE_DAG_INCOMPLETE = false <->
               ~ (run_ids_of params <> [] /\ p_previewOnly params = false /\ a = None)).
  { rewrite <- He. by destruct (has_flag fs EVIDENCE_DAG_INCOMPLETE). }
  rewrite Hnb.
  destruct (has_flag fs NON_NEGOTIABLE_BLOCKING) eqn:E1.
  { simpl. split; [|by intros [? _]]. clear.
    destruct (has_flag fs EVIDENCE_DAG_INCOMPLETE), (p_previewOnly params),
      (has_flag fs REPRO_OVERFIT_SUSPECT), (has_flag fs LOW_DISCRIMINATION), a as [r|];
      destruct (length (parseDiffPaths (p_diffText params))); simpl;
      try destruct (res_verdict r); done. }
  destruct (Hc eq_refl) as [-> ->]. cbn [orb].
  destruct (p_previewOnly params) eqn:Ep.
  { rewrite (proj2 Hr eq_refl). cbn [andb orb]. split; [|by intros (_ & ? & _)].
    destruct (has_flag fs EVIDENCE_DAG_INCOMPLETE), a as [r|];
      destruct (length (parseDiffPaths (p_diffText params))); simpl;
      try destruct (res_verdict r); done. }
  cbn [andb]. destruct a as [r|].
  - assert (has_flag fs EVIDENCE_DAG_INCOMPLETE = false) as -> by (apply Hx; naive_solver).
    rewrite andb_false_r. destruct fs; simpl; destruct (res_verdict r); simpl; naive_solver.
  - rewrite andb_true_r. destruct (parseDiffPaths (p_diffText params)) as [|q qs]; simpl.
    + split; [|naive_solver].
      destruct (has_flag fs EVIDENCE_DAG_INCOMPLETE), fs; done.
    + destruct (has_flag fs EVIDENCE_DAG_INCOMPLETE) eqn:E2.
      * simpl. split; [done|]. intros (_ & _ & Hn & _). exfalso.
        by destruct (proj1 He eq_refl) as [? _].
      * split; [|by destruct fs]. intros _. split_and!; try done.
        destruct (run_ids_of params); [done|]. exfalso. by apply (proj1 Hx eq_refl).
Qed.

Lemma canApply_final (params : EvaluateCorrectnessWallParams) (a : option AdjudicationResult)
    (hints : option (list string)) :
  canApply_of (mapper_input params a hints) = bool_decide (final_verdict (mapper_input params a hints) = PASS).
Proof.
  unfold canApply_of. destruct (bool_decide_reflect (final_verdict (mapper_input params a hints) = PASS))
    as [H|]; [|done].
  apply final_verdict_pass in H as (Hb & Hp & Ha).
  destruct (mapper_flags params a hints) as (H1 & H2 & _). cbn [andb].
  assert (Hn : forall f, (has_flag (policyFlags (mapper_input params a hints)) f = true -> diff_blocked params) ->
               has_flag (policyFlags (mapper_input params a hints)) f = false).
  { intros f Hf. apply not_true_iff_false. auto. }
  rewrite !Hn by tauto. simpl. destruct a; [|done]. by apply bool_decide_true.
Qed.

Lemma final_verdict_blocked (params : EvaluateCorrectnessWallParams) (a : option AdjudicationResult)
    (hints : option (list string)) :
  final_verdict (mapper_input params a hints) = BLOCKED <->
  diff_blocked params \/ res_verdict <$> a = Some V_CONTRADICTED.
Proof.
  destruct (mapper_flags params a hints) as (Hb & Hl & _).
  unfold final_verdict, flagged_verdict, userVerdictFromPolicyFlags, base_verdict.
  change (m_previewOnly (mapper_input params a hints)) with (p_previewOnly params).
  change (adjudication (mapper_input params a hints)) with a.
  change (m_diffPaths (mapper_input params a hints)) with (parseDiffPaths (p_diffText params)).
  set (fs := policyFlags (mapper_input params a hints)) in *.
  rewrite <- Hb. destruct (has_flag fs NON_NEGOTIABLE_BLOCKING) eqn:E1.
  { simpl. split; [by left|intros _].
    destruct (has_flag fs EVIDENCE_DAG_INCOMPLETE), (p_previewOnly params),
      (has_flag fs REPRO_OVERFIT_SUSPECT), (has_flag fs LOW_DISCRIMINATION), a as [r|];
      destruct (length (parseDiffPaths (p_diffText params))); simpl;
      try destruct (res_verdict r); done. }
  assert (has_flag fs CANDIDATE_LEAK_SUSPECT = false /\ has_flag fs SECRET_SUSPECT = false) as [-> ->].
  { split; apply not_true_iff_false; intros H; discriminate (proj2 Hb (Hl ltac:(auto))). }
  cbn [orb].
  destruct (has_flag fs EVIDENCE_DAG_INCOMPLETE), (p_previewOnly params),
    (has_flag fs REPRO_OVERFIT_SUSPECT), (has_flag fs LOW_DISCRIMINATION), a as [r|];
    destruct (length (parseDiffPaths (p_diffText params))), fs; simpl;
    try destruct (res_verdict r); simpl; naive_solver.
Qed.

Lemma shouldSubmit_final (params : EvaluateCorrectnessWallParams) (a : option AdjudicationResult)
    (hints : option (list string)) :
  shouldSubmit_of (mapper_input params a hints)
  = negb (bool_decide (final_verdict (mapper_input params a hints) = BLOCKED)).
Proof.
  unfold shouldSubmit_of.
  destruct (bool_decide_reflect (final_verdict (mapper_input params a hints) = BLOCKED)) as [|H]; [done|].
  destruct (mapper_flags params a hints) as (H1 & _). simpl.
  destruct (has_flag _ _); [|done]. exfalso. apply H, final_verdict_blocked. left. by apply H1.
Qed.

Section Walls.
Context (sha256Hex : string -> string) (hmacSha256Hex : string -> string -> string).
Context {W : Type} (callTool : string -> jsval -> W -> result string jsval * W).
Context (num_to_str : jsnum -> string) (clock : nat -> string) (deep_phase_env : option string).

Abbreviation evaluate :=
  (evaluateCorrectnessWall sha256Hex hmacSha256Hex callTool num_to_str clock deep_phase_env).

(** What an evaluation returns, whatever the deep wall does. *)
Lemma evaluate_result (params : EvaluateCorrectnessWallParams) (w w' : W)
    (card : VerdictCard) (receipt : VerificationReceipt) :
  evaluate params w = (Ok (card, receipt), w') ->
  exists a hints, adjudicate_if callTool num_to_str params w = (Ok a, w') /\
    card_verdict card = final_verdict (mapper_input params a hints) /\
    canApply receipt = canApply_of (mapper_input params a hints) /\
    shouldSubmit receipt = shouldSubmit_of (mapper_input params a hints).
Proof.
  unfold evaluateCorrectnessWall. destruct (adjudicate_if _ _ params w) as [[a|e] w1]; [|done].
  simpl. destruct (p_deepWall params); intros [= <- <- <-]; simpl; eauto 6.
Qed.

(** An adjudication takes place exactly when there are runs, a client, and no
    preview. *)
Lemma adjudicate_if_confirmed (params : EvaluateCorrectnessWallParams) (w w' : W)
    (a : option AdjudicationResult) :
  adjudicate_if callTool num_to_str params w = (Ok a, w') ->
  match a with
  | Some r =>
      uses_oa params = true /\
      (res_verdict r = V_CONFIRMED <->
       p_kind params <> EmptyString /\
       runs_pass callTool (default (createVerifierRegistry []) (p_registry params) (p_kind params))
         (run_ids_of params) w w')
  | None => uses_oa params = false
  end.
Proof.
  unfold adjudicate_if. destruct (uses_oa params) eqn:E; [|by intros [= <- <-]].
  match goal with |- context [adjudicate _ _ ?rq ?rg w] =>
    pose proof (adjudicate_confirmed callTool num_to_str rq rg w w') as Hc;
    destruct (adjudicate callTool num_to_str rq rg w) as [[r|e] w1] end; [|done].
  simpl. intros [= <- ->]. split; [done|]. cbn [kind req_run_ids] in Hc.
  assert (Hids : run_ids_of params <> []).
  { unfold uses_oa in E. unfold run_ids_of. by destruct (default [] (p_runIds params)). }
  unfold run_ids_of in *. split.
  - intros Hr. destruct (proj1 Hc) as (? & ? & ?); [by exists r|done].
  - intros [? ?]. destruct (proj2 Hc) as (r' & [= <-] & ?); done.
Qed.

(** The apply gate is exact. A change may be applied automatically
    exactly when its diff adds no secret-like line and touches no path outside
    a given scope, the evaluation is no preview, and either every requested run
    was fetched and passes all adjudication checks, or no runs were requested
    and the diff names at least one path. Requested runs without a client, an
    empty diff, or a failing, thin or unfetchable run never open the gate; and
    the deep wall has no say in it. *)
Theorem canApply_iff (params : EvaluateCorrectnessWallParams) (w w' : W)
    (card : VerdictCard) (receipt : VerificationReceipt) :
  evaluate params w = (Ok (card, receipt), w') ->
  canApply receipt = true <->
  ~ diff_blocked params /\ p_previewOnly params = false /\
  (run_ids_of params = [] /\ parseDiffPaths (p_diffText params) <> [] \/
   run_ids_of params <> [] /\ p_client params = true /\ p_kind params <> EmptyString /\
   runs_pass callTool (default (createVerifierRegistry []) (p_registry params) (p_kind params))
     (run_ids_of params) w w').
Proof.
  intros H. apply evaluate_result in H as (a & hints & Ha & _ & -> & _).
  rewrite canApply_final, bool_decide_eq_true, final_verdict_pass.
  apply adjudicate_if_confirmed in Ha. unfold uses_oa in Ha.
  change (default [] (p_runIds params)) with (run_ids_of params) in Ha.
  destruct a as [r|].
  - destruct Ha as [Hu Hr]. rewrite Hr. breflect.
    destruct (run_ids_of params); [done|]. naive_solver.
  - destruct (run_ids_of params), (p_previewOnly params), (p_client params); simpl in Ha; naive_solver.
Qed.

(** A change is BLOCKED exactly when its diff is blocked (a secret or
    a path out of scope) or the adjudication contradicts the reported success,
    and it may be submitted exactly when it is not BLOCKED. *)
Theorem blocked_iff (params : EvaluateCorrectnessWallParams) (w w' : W)
    (card : VerdictCard) (receipt : VerificationReceipt) :
  evaluate params w = (Ok (card, receipt), w') ->
  (card_verdict card = BLOCKED <->
   diff_blocked params \/
   exists r, fst (adjudicate_if callTool num_to_str params w) = Ok (Some r) /\
     res_verdict r = V_CONTRADICTED) /\
  (shouldSubmit receipt = true <-> card_verdict card <> BLOCKED).
Proof.
  intros H. apply evaluate_result in H as (a & hints & Ha & -> & _ & ->).
  rewrite shouldSubmit_final, negb_true_iff, bool_decide_eq_false, Ha. split; [|done].
  rewrite final_verdict_blocked. simpl. split; (intros [?|H]; [by left|right]).
  - destruct a as [r|]; simpl in H; [|done]. injection H as H. by exists r.
  - destruct H as (r & [= ->] & Hr). simpl. by rewrite Hr.
Qed.

(** The deep wall reports completion exactly when a runner was injected,
    completion was allowed, and the runner returned a completed result with
    valid evidence: a non-empty digest, a non-empty command and a finite exit
    code; a throwing runner, a missing one or bad evidence never completes. *)
Theorem runDeepWall_completed_iff (input : DeepRunnerInput) (runner : option DeepWallRunnerFn)
    (allow : bool) :
  deep_status (runDeepWall input runner allow) = deep_completed <->
  allow = true /\ exists run r, runner = Some run /\ run input = Ok r /\ rr_completed r = true /\
    exists digest command code,
      get_prop "digest" (rr_evidence r) = JString digest /\ digest <> EmptyString /\
      get_prop "command" (rr_evidence r) = JString command /\ command <> EmptyString /\
      get_prop "exitCode" (rr_evidence r) = JNumber (NumFin code).
Proof.
  assert (Hev : forall e, hasValidEvidence e = true <-> exists digest command code,
      get_prop "digest" e = JString digest /\ digest <> EmptyString /\
      get_prop "command" e = JString command /\ command <> EmptyString /\
      get_prop "exitCode" e = JNumber (NumFin code)).
  { intros e. unfold hasValidEvidence, nonempty_string, finite_number. split.
    - destruct (is_object e); [|done]. cbn [negb]. intros H. breflect.
      destruct (get_prop "digest" e) as [| | | |d| |] eqn:?; try done.
      destruct (get_prop "command" e) as [| | | |c| |] eqn:?; try done.
      destruct (get_prop "exitCode" e) as [| | |[| |q]| | |] eqn:?; try done.
      exists d, c, q. split_and!; try done; by intros ->.
    - intros (d & c & q & Hd & Hdn & Hc & Hcn & Hq). rewrite Hd, Hc, Hq.
      destruct d; [done|]. destruct c; [done|]. by destruct e. }
  unfold runDeepWall. destruct runner as [run|].
  2: { simpl. split; [done|]. by intros (_ & run & r & ? & _). }
  destruct allow; [|simpl; split; [done|by intros [? _]]].
  destruct (run input) as [r|e] eqn:Er; simpl.
  2: { split; [done|]. intros (_ & run' & r & [= <-] & Hr & _). congruence. }
  destruct (rr_completed r) eqn:Ec; simpl.
  2: { split; [done|]. intros (_ & run' & r' & [= <-] & Hr & Hc & _). congruence. }
  destruct (hasValidEvidence (rr_evidence r)) eqn:Ee; simpl.
  - apply Hev in Ee. split; [|done]. intros _. split; [done|]. by exists run, r.
  - split; [done|]. intros (_ & run' & r' & [= <-] & Hr' & _ & Hx). rewrite Er in Hr'.
    injection Hr' as <-. apply Hev in Hx. congruence.
Qed.

End Walls.

(** A receipt signed with a secret verifies under that secret, and a
    verifying receipt that carries the same signature but another wall version,
    composite hash or time of signing yields two messages with the same keyed
    hash (none of these fields holding the separator). *)
Theorem signed_receipt_authentic (hmacSha256Hex : string -> string -> string) (digest : VerificationDigest) (version secret time : string)
    (forged : SignedWallReceipt) :
  let signed := signWallReceipt hmacSha256Hex digest version secret time in
  verifyWallReceipt hmacSha256Hex signed secret = true /\
  ((forall s, s ∈ [version; compositeHash digest; time; sr_wallVersion forged;
                   digestCompositeHash forged; signedAt forged] ->
      sforall (fun a => negb (Ascii.eqb a "|"%char)) s = true) ->
   verifyWallReceipt hmacSha256Hex forged secret = true ->
   signature forged = signature signed ->
   forged = signed \/
   exists m m', m <> m' /\ hmacSha256Hex secret m = hmacSha256Hex secret m').
Proof.
  intros signed. split.
  { unfold verifyWallReceipt, signed. simpl. rewrite Nat.eqb_refl. by apply String.eqb_eq. }
  intros Hfree Hv Hs. unfold verifyWallReceipt in Hv.
  destruct (negb _); [done|]. apply String.eqb_eq in Hv. rewrite Hs in Hv. subst signed. simpl in Hv, Hs.
  destruct (decide (signature_material (sr_wallVersion forged) (digestCompositeHash forged) (signedAt forged)
                    = signature_material version (compositeHash digest) time)) as [E|Hne].
  2: { right. by eexists _, _. }
  left. apply (f_equal (split "|"%char)) in E. unfold signature_material in E.
  rewrite !split_join in E; [| done | set_solver | done | set_solver].
  injection E as E1 E2 E3. destruct forged. simpl in *. by subst.
Qed.

(** ** Concrete evaluations *)

Definition sample_params (diff : list string) : EvaluateCorrectnessWallParams :=
  {| p_kind := "code-edit"; p_runIds := None; p_dispatchRecordId := None;
     p_approvedWriteScope := Some ["packages/a/**"%string]; p_previewOnly := false;
     p_diffText := Some (join (String line_feed EmptyString) diff); p_packetId := None;
     p_client := false; p_registry := None; p_deepWall := false; deepWallRunner := None;
     deepWallAllowCompletion := false; receiptSigningSecret := None |}.

(** Evaluation with transparent digests and a transport that is never used. *)
Definition sample_evaluate (params : EvaluateCorrectnessWallParams)
    : result string (VerdictCard * VerificationReceipt) * unit :=
  evaluateCorrectnessWall id (fun k m => (k ++ m)%string) (fun _ _ w => (Err EmptyString, w))
    (fun _ => EmptyString) (fun _ => "t"%string) None params tt.

Definition sample_receipt (params : EvaluateCorrectnessWallParams) : option VerificationReceipt :=
  match fst (sample_evaluate params) with
  | Ok (_, receipt) => Some receipt
  | Err _ => None
  end.

Definition sample_card (params : EvaluateCorrectnessWallParams) : option VerdictCard :=
  match fst (sample_evaluate params) with
  | Ok (card, _) => Some card
  | Err _ => None
  end.

Definition in_scope_diff : list string :=
  ["--- a/packages/a/x.ts"; "+++ b/packages/a/x.ts"; "@@ -1 +1 @@"; "+ok"]%string.

Definition out_of_scope_diff : list string :=
  ["--- a/secret.ts"; "+++ b/secret.ts"; "@@ -1 +1 @@"; "+ok"]%string.

Lemma canApply_iff_witness :
  exists card receipt, sample_evaluate (sample_params in_scope_diff) = (Ok (card, receipt), tt) /\
    ~ diff_blocked (sample_params in_scope_diff).
Proof.
  destruct (sample_evaluate (sample_params in_scope_diff)) as [[[card receipt]|e] []] eqn:E;
    [|vm_compute in E; discriminate E].
  exists card, receipt. split; [reflexivity|].
  pose proof (canApply_iff id (fun k m => (k ++ m)%string) (fun _ _ w => (Err EmptyString, w))
    (fun _ => EmptyString) (fun _ => "t"%string) None (sample_params in_scope_diff) tt tt card receipt E) as H.
  apply H. vm_compute in E. injection E as _ <-. reflexivity.
Defined.

Lemma blocked_iff_witness :
  exists card receipt, sample_evaluate (sample_params out_of_scope_diff) = (Ok (card, receipt), tt) /\
    shouldSubmit receipt = false /\ diff_blocked (sample_params out_of_scope_diff).
Proof.
  destruct (sample_evaluate (sample_params out_of_scope_diff)) as [[[card receipt]|e] []] eqn:E;
    [|vm_compute in E; discriminate E].
  exists card, receipt. split; [reflexivity|].
  pose proof (blocked_iff id (fun k m => (k ++ m)%string) (fun _ _ w => (Err EmptyString, w))
    (fun _ => EmptyString) (fun _ => "t"%string) None (sample_params out_of_scope_diff) tt tt card receipt E)
    as [Hb Hs].
  assert (Hc : card_verdict card = BLOCKED) by (vm_compute in E; injection E as <- _; reflexivity).
  split.
  - destruct (shouldSubmit receipt); [|reflexivity]. exfalso. exact (proj1 Hs eq_refl Hc).
  - destruct (proj1 Hb Hc) as [H|(r & Hr & _)]; [exact H|vm_compute in Hr; discriminate Hr].
Defined.

(** The separator hypothesis holds for real fields, and the conclusion too. *)
Definition plain_digest : VerificationDigest := buildVerificationDigest id None None None.

Lemma signed_receipt_authentic_witness :
  verifyWallReceipt (fun k m => (k ++ m)%string)
    (signWallReceipt (fun k m => (k ++ m)%string) plain_digest "v" "k" "t") "k" = true.
Proof.
  exact (proj1 (signed_receipt_authentic (fun k m => (k ++ m)%string) plain_digest "v" "k" "t"
    (signWallReceipt (fun k m => (k ++ m)%string) plain_digest "v" "k" "t"))).
Defined.

(** ** What the wall lets through *)

(** A diff that edits a file in scope and deletes one outside it. *)
Definition deleting_diff : list string :=
  (in_scope_diff ++ ["--- a/packages/b/guard.ts"; "+++ /dev/null"; "@@ -1 +0,0 @@"; "-checked"]%string)%list.

(** The deleted path is not among the changed paths, so the gate opens. *)
Theorem deletion_out_of_scope_applies :
  canApply <$> sample_receipt (sample_params deleting_diff) = Some true /\
  rc_diffPaths <$> sample_receipt (sample_params deleting_diff) = Some ["packages/a/x.ts"%string].
Proof. split; vm_compute; reflexivity. Qed.

(** Parent segments are not collapsed before the scope test. *)
Theorem traversal_in_scope :
  pathMatchesApprovedScope "packages/a/../../etc/passwd" ["packages/a/**"%string] = true.
Proof. vm_compute. reflexivity. Qed.

(** An added line whose text starts with two plus signs is not scanned. *)
Theorem double_plus_line_not_scanned :
  scanDiffLinesForSecrets (Some "+++ password=hunter2"%string) = false /\
  scanDiffLinesForSecrets (Some "+password=hunter2"%string) = true.
Proof. split; vm_compute; reflexivity. Qed.

(** A runner result with a failing exit code, and one that completes. *)
Definition runner_result (code : Q) : DeepWallRunnerResult :=
  {| rr_completed := true; rr_message := "replayed";
     rr_evidence := JObject [("digest", JString "d"); ("command", JString "make");
                             ("exitCode", JNumber (NumFin code))]%string |}.

Definition deep_params (diff : list string) (code : Q) : EvaluateCorrectnessWallParams :=
  {| p_kind := "code-edit"; p_runIds := None; p_dispatchRecordId := None;
     p_approvedWriteScope := Some ["packages/a/**"%string]; p_previewOnly := false;
     p_diffText := Some (join (String line_feed EmptyString) diff); p_packetId := None;
     p_client := false; p_registry := None; p_deepWall := true;
     deepWallRunner := Some (fun _ => Ok (runner_result code));
     deepWallAllowCompletion := true; receiptSigningSecret := None |}.

(** A failing exit code is accepted as evidence of completion. *)
Theorem failing_exit_code_completes :
  (sample_receipt (deep_params in_scope_diff 1) ≫= deepWallStatus) = Some deep_completed.
Proof. vm_compute. reflexivity. Qed.

(** A completed deep wall withdraws the human review of a blocked change. *)
Theorem completed_deep_wall_clears_review :
  card_verdict <$> sample_card (deep_params out_of_scope_diff 0) = Some BLOCKED /\
  (requiresHumanReview ∘ limits) <$> sample_card (deep_params out_of_scope_diff 0) = Some false /\
  (requiresHumanReview ∘ limits) <$> sample_card (sample_params out_of_scope_diff) = Some true.
Proof. split_and!; vm_compute; reflexivity. Qed.
