(* ===== verification/RepairBudget.v ===== *)
(** * Repair budget, regenerate packets and retry backoff

    packages/adaptorch-wpl/src/repair-budget.ts, regenerate-packet.ts and
    retry-backoff.ts. Budgets and attempt counts are integers, as everything
    that reaches them is. [double_of_Z] is the double nearest to an integer
    literal. A backoff configuration holds integer milliseconds below 2^53, the
    product with the jitter is rounded to the 53 bits of a double. *)

From Stdlib Require Import Ascii String ZArith QArith Qround Lia.
From stdpp Require Import base list option strings sets.
From S2P Require Import Prelude JsString JsValue PolicyWall Adjudicator CorrectnessWall.

Open Scope Z_scope.

(** ** repair-budget.ts *)

Definition DEFAULT_REPAIR_BUDGET : Z := 1.

(** The decimal digits at the start of a string, as [parseInt(s, 10)] reads
    them; [None] is NaN. *)
Fixpoint digits_prefix (s : string) (acc : option Z) : option Z :=
  match s with
  | String a s' =>
      if in_range 48 57 a
      then digits_prefix s' (Some (10 * default 0 acc + (Z.of_nat (code a) - 48)))
      else acc
  | EmptyString => acc
  end.

Definition parse_int (s : string) : option Z :=
  match s with
  | String a s' =>
      if Ascii.eqb a "-" then Z.opp <$> digits_prefix s' None
      else if Ascii.eqb a "+" then digits_prefix s' None
      else digits_prefix s None
  | EmptyString => None
  end.

Section Budget.
Context (double_of_Z : Z -> jsnum).

(** [env] is [process.env.OMK_WALL_REPAIR_BUDGET]. *)
Definition parseRepairBudget (override : option jsnum) (env : option string) : Z :=
  match override with
  | Some n =>
      match n with
      | NumFin q => if negb (Qle_bool 0 q) then DEFAULT_REPAIR_BUDGET else num_floor q
      | _ => DEFAULT_REPAIR_BUDGET
      end
  | None =>
      match nonempty_opt (trim <$> env) with
      | None => DEFAULT_REPAIR_BUDGET
      | Some raw =>
          match double_of_Z <$> parse_int raw with
          | Some (NumFin q) => if negb (Qle_bool 0 q) then DEFAULT_REPAIR_BUDGET else num_floor q
          | _ => DEFAULT_REPAIR_BUDGET
          end
      end
  end.

(** Re-parsing a budget that was already parsed. *)
Definition reparse (budget : Z) : Z := parseRepairBudget (Some (NumFin (inject_Z budget))) None.

Definition shouldOfferRepair (verdict : UserVerdict) (attemptCount budget : Z) : bool :=
  if negb (bool_decide (verdict = BLOCKED)) then false
  else
    let cap := reparse budget in
    if cap =? 0 then false else attemptCount <? cap.

Definition capRepairHints (hints : list string) (budget : Z) : list string :=
  let cap := reparse budget in
  if (cap =? 0) || (length hints =? 0)%nat then [] else take (Z.to_nat cap) hints.

(** ** regenerate-packet.ts *)

Record RegeneratePacket : Type := {
  enabled : bool;
  rp_verdict : UserVerdict;
  rp_attemptCount : Z;
  rp_budget : Z;
  budgetRemaining : Z;
  rp_hints : list string;
  rp_message : string;
}.

Definition buildRegeneratePacket (input : RepairHintInput) (attemptCount : Z)
    (budgetOverride : option jsnum) (env : option string) (autoRegenerateEnabled : bool)
    : RegeneratePacket :=
  let budget := parseRepairBudget budgetOverride env in
  let rawHints := deriveRepairHints input in
  let hints := capRepairHints rawHints budget in
  let offer := shouldOfferRepair (userVerdict input) attemptCount budget in
  let on := autoRegenerateEnabled && offer && (0 <? length hints)%nat in
  {| enabled := on; rp_verdict := userVerdict input; rp_attemptCount := attemptCount;
     rp_budget := budget; budgetRemaining := Z.max 0 (budget - attemptCount);
     rp_hints := if on then hints else [];
     rp_message := if on
       then "Capped regenerate packet ready (hints only; re-run wall after editing)."
       else "Auto-regenerate not offered (disabled, non-BLOCKED verdict, or repair budget exhausted)." |}.
End Budget.

(** ** retry-backoff.ts *)

Definition UINT32_MOD : Z := 4294967296.
Definition FNV1A_OFFSET_BASIS : Z := 2166136261.
Definition FNV1A_PRIME : Z := 16777619.

(** [x >>> 0] *)
Definition to_uint32 (x : Z) : Z := Z.land x (UINT32_MOD - 1).

Definition fnv1a_step (hash unit : Z) : Z := to_uint32 (to_uint32 (Z.lxor hash unit) * FNV1A_PRIME).

Fixpoint fnv1a_loop (s : string) (hash : Z) : Z :=
  match s with
  | EmptyString => hash
  | String a s' => fnv1a_loop s' (fnv1a_step hash (Z.of_nat (code a)))
  end.

Definition fnv1a32 (s : string) : Z := to_uint32 (fnv1a_loop s FNV1A_OFFSET_BASIS).

Definition DEFAULT_INITIAL_MS : Z := 2000.
Definition DEFAULT_MAX_MS : Z := 120000.

Record BackoffConfig : Type := {
  cfg_initial : option Z;
  cfg_max : option Z;
}.

(** [initial * 2 ** n] *)
Definition scaled (initial n : Z) : jsnum :=
  if (initial =? 0) && (1024 <=? n) then NumNaN
  else
    let v := initial * 2 ^ n in
    if Z.abs v <? 2 ^ 1024 then NumFin (inject_Z v) else NumInf (v <? 0).

(** [Math.min] of an integer and a number. *)
Definition min_with (max : Z) (x : jsnum) : jsnum :=
  match x with
  | NumNaN => NumNaN
  | NumInf true => NumInf true
  | NumInf false => NumFin (inject_Z max)
  | NumFin q => NumFin (inject_Z (Z.min max (num_floor q)))
  end.

(** [Math.round(base * (0.5 + h / 2^32))] of an integer base. *)
Definition jittered (base h : Z) : Z :=
  (round53 (base * (UINT32_MOD / 2 + h)) + UINT32_MOD / 2) / UINT32_MOD.

(** [retryCount] is [None] for NaN. *)
Definition backoffDelayMs (packetId : string) (retryCount : option Z) (cfg : option BackoffConfig)
    : jsnum :=
  let n := match retryCount with
           | Some k => if k <? 0 then 0 else k
           | None => 0
           end in
  let max := default DEFAULT_MAX_MS (cfg ≫= cfg_max) in
  let initial0 := default DEFAULT_INITIAL_MS (cfg ≫= cfg_initial) in
  let initial := if max <? initial0 then max else initial0 in
  match min_with max (scaled initial n) with
  | NumFin base => NumFin (inject_Z (jittered (num_floor base) (fnv1a32 packetId)))
  | other => other
  end.

(** ** Lemmas *)

Lemma num_floor_Z (z : Z) : num_floor (inject_Z z) = z.
Proof. apply Qfloor_Z. Qed.

Lemma floor_nonneg (q : Q) : Qle_bool 0 q = true -> 0 <= num_floor q.
Proof.
  intros H. apply Qle_bool_iff in H. apply Qfloor_resp_le in H. exact H.
Qed.

Lemma parseRepairBudget_nonneg (d : Z -> jsnum) (override : option jsnum) (env : option string) :
  0 <= parseRepairBudget d override env.
Proof.
  unfold parseRepairBudget, DEFAULT_REPAIR_BUDGET.
  destruct override as [[| |q]|]; try lia.
  - destruct (Qle_bool 0 q) eqn:E; simpl; [by apply floor_nonneg|lia].
  - destruct (nonempty_opt _) as [raw|]; [|lia].
    destruct (d <$> parse_int raw) as [[| |q]|]; try lia.
    destruct (Qle_bool 0 q) eqn:E; simpl; [by apply floor_nonneg|lia].
Qed.

Lemma reparse_nonneg (d : Z -> jsnum) (b : Z) : 0 <= b -> reparse d b = b.
Proof.
  intros H. unfold reparse, parseRepairBudget. rewrite num_floor_Z.
  destruct (Qle_bool 0 (inject_Z b)) eqn:E; [done|].
  exfalso. apply not_true_iff_false in E. apply E, Qle_bool_iff. unfold Qle, inject_Z. simpl. lia.
Qed.

(** A blocked verdict always comes with a hint. *)
Lemma blocked_hints (input : RepairHintInput) :
  userVerdict input = BLOCKED -> deriveRepairHints input <> [].
Proof.
  intros Hv. unfold deriveRepairHints. rewrite Hv.
  match goal with |- dedup ((?h ++ _) ++ _) <> [] => set (hints := h) end.
  intros H. assert (Hin : forall x, x ∈ hints ++ when (bool_decide (BLOCKED = BLOCKED)
      && (length hints =? 0)%nat) "Regenerate the change set after addressing blocked reasons." -> False).
  { intros x Hx. apply (elem_of_nil x). rewrite <- H. apply elem_of_dedup, elem_of_app. by left. }
  destruct hints as [|x hs].
  - apply (Hin "Regenerate the change set after addressing blocked reasons."%string). left.
  - apply (Hin x). apply elem_of_app. left. left.
Qed.

Lemma to_uint32_range (x : Z) : 0 <= to_uint32 x < UINT32_MOD.
Proof.
  unfold to_uint32, UINT32_MOD. change (4294967296 - 1) with (Z.ones 32).
  rewrite Z.land_ones by lia. change 4294967296 with (2 ^ 32). apply Z.mod_pos_bound. lia.
Qed.

Lemma jittered_exact (base h : Z) :
  0 <= base < 2 ^ 20 -> 0 <= h < UINT32_MOD ->
  jittered base h = (base * (UINT32_MOD / 2 + h) + UINT32_MOD / 2) / UINT32_MOD.
Proof.
  intros Hb Hh. unfold jittered, round53. unfold UINT32_MOD in *. change (4294967296 / 2) with 2147483648.
  rewrite Z.abs_eq by nia. destruct (Z.ltb_spec (base * (2147483648 + h)) (2 ^ 53)); [done|].
  exfalso. change (2 ^ 20) with 1048576 in Hb. change (2 ^ 53) with 9007199254740992 in *. nia.
Qed.

Lemma jittered_bounds (base h : Z) :
  0 <= base < 2 ^ 20 -> 0 <= h < UINT32_MOD ->
  base <= 2 * jittered base h <= 3 * base + 1.
Proof.
  intros Hb Hh. rewrite jittered_exact by done. unfold UINT32_MOD in *.
  change (4294967296 / 2) with 2147483648.
  pose proof (Z.div_mod (base * (2147483648 + h) + 2147483648) 4294967296 ltac:(lia)) as Hd.
  pose proof (Z.mod_pos_bound (base * (2147483648 + h) + 2147483648) 4294967296 ltac:(lia)) as Hm.
  set (d := (base * (2147483648 + h) + 2147483648) / 4294967296) in *. nia.
Qed.

Lemma jittered_mono (b b' h : Z) :
  0 <= b <= b' -> b' < 2 ^ 20 -> 0 <= h < UINT32_MOD -> jittered b h <= jittered b' h.
Proof.
  intros Hb Hb' Hh. rewrite !jittered_exact by lia. apply Z.div_le_mono; [done|].
  unfold UINT32_MOD in *. change (4294967296 / 2) with 2147483648. nia.
Qed.

(** The base of a configuration, on non-negative settings. *)
Lemma min_scaled (initial max n : Z) :
  0 < initial -> 0 <= max < 2 ^ 20 -> 0 <= n ->
  min_with max (scaled initial n) = NumFin (inject_Z (Z.min max (initial * 2 ^ n))).
Proof.
  intros Hi Hm Hn. unfold scaled. rewrite (proj2 (Z.eqb_neq initial 0)) by lia.
  cbn [andb]. cbv zeta.
  destruct (Z.ltb_spec (Z.abs (initial * 2 ^ n)) (2 ^ 1024)) as [Hlt|Hge]; cbn [min_with].
  - by rewrite num_floor_Z.
  - assert (0 <= initial * 2 ^ n) by (apply Z.mul_nonneg_nonneg; [lia|apply Z.pow_nonneg; lia]).
    rewrite Z.abs_eq in Hge by done. rewrite (proj2 (Z.ltb_ge _ _)) by lia.
    cbn [min_with]. rewrite Z.min_l; [done|]. etransitivity; [|exact Hge].
    transitivity (2 ^ 20); [lia|]. apply Z.pow_le_mono_r; lia.
Qed.

(** A backoff configuration of ordinary settings: a positive first delay and a
    cap below 2^20 ms (over 17 minutes). *)
Definition ordinary (cfg : option BackoffConfig) : Prop :=
  0 < default DEFAULT_INITIAL_MS (cfg ≫= cfg_initial) /\
  0 < default DEFAULT_MAX_MS (cfg ≫= cfg_max) < 2 ^ 20.

(** The uncapped result before jitter. *)
Definition backoff_base (cfg : option BackoffConfig) (n : Z) : Z :=
  let max := default DEFAULT_MAX_MS (cfg ≫= cfg_max) in
  let initial := Z.min max (default DEFAULT_INITIAL_MS (cfg ≫= cfg_initial)) in
  Z.min max (initial * 2 ^ n).

Lemma backoff_value (packetId : string) (n : Z) (cfg : option BackoffConfig) :
  ordinary cfg -> 0 <= n ->
  backoffDelayMs packetId (Some n) cfg
    = NumFin (inject_Z (jittered (backoff_base cfg n) (fnv1a32 packetId))).
Proof.
  intros [Hi Hm] Hn. unfold backoffDelayMs, backoff_base. cbv zeta.
  set (m := default DEFAULT_MAX_MS _) in *. set (i := default DEFAULT_INITIAL_MS _) in *.
  rewrite (proj2 (Z.ltb_ge n 0)) by lia.
  replace (if m <? i then m else i) with (Z.min m i)
    by (destruct (Z.ltb_spec m i); lia).
  rewrite min_scaled by lia. by rewrite num_floor_Z.
Qed.

Lemma backoff_base_range (cfg : option BackoffConfig) (n : Z) :
  ordinary cfg -> 0 <= n -> 0 <= backoff_base cfg n < 2 ^ 20.
Proof.
  intros [Hi Hm] Hn. unfold backoff_base.
  pose proof (Z.pow_pos_nonneg 2 n ltac:(lia) Hn). nia.
Qed.

Lemma backoff_base_mono (cfg : option BackoffConfig) (n n' : Z) :
  ordinary cfg -> 0 <= n <= n' -> backoff_base cfg n <= backoff_base cfg n'.
Proof.
  intros [Hi Hm] Hn. unfold backoff_base.
  pose proof (Z.pow_le_mono_r 2 n n' ltac:(lia) ltac:(lia)).
  apply Z.min_le_compat_l, Z.mul_le_mono_nonneg_l; lia.
Qed.

Lemma fnv1a32_range (s : string) : 0 <= fnv1a32 s < UINT32_MOD.
Proof. apply to_uint32_range. Qed.

(** ** Properties *)

Lemma shouldOfferRepair_iff (d : Z -> jsnum) (v : UserVerdict) (attempts budget : Z) :
  0 <= budget ->
  shouldOfferRepair d v attempts budget = true <-> v = BLOCKED /\ 0 < budget /\ attempts < budget.
Proof.
  intros Hb. unfold shouldOfferRepair. rewrite reparse_nonneg by done. cbv zeta.
  destruct (decide (v = BLOCKED)) as [Hv|Hv];
    [rewrite bool_decide_true by done | rewrite bool_decide_false by done]; cbn [negb];
    [|split; [done|by intros [? _]]].
  destruct (Z.eqb_spec budget 0); [split; [done|lia]|]. rewrite Z.ltb_lt. split; [|tauto].
  intros H. split_and!; [done|lia|done].
Qed.

Lemma capRepairHints_take (d : Z -> jsnum) (hints : list string) (budget : Z) :
  0 <= budget -> capRepairHints d hints budget = take (Z.to_nat budget) hints.
Proof.
  intros Hb. unfold capRepairHints. rewrite reparse_nonneg by done. cbv zeta.
  destruct (Z.eqb_spec budget 0) as [->|]; [done|]. destruct hints as [|h hs]; [|done].
  cbn [length orb]. by rewrite take_nil.
Qed.

(** A regenerate packet is offered exactly when auto-regeneration is
    on, the verdict is BLOCKED, the budget is positive and fewer attempts than
    it are used, for every override and every value of the environment variable;
    an offered packet carries between one and [budget] hints, a prefix of those
    derived from the evidence, and its [budgetRemaining] is the positive number
    of attempts left; a packet that is not offered carries no hint. *)
Theorem packet_enabled_iff (double_of_Z : Z -> jsnum) (input : RepairHintInput) (attempts : Z)
    (override : option jsnum) (env : option string) (auto : bool) :
  let p := buildRegeneratePacket double_of_Z input attempts override env auto in
  let budget := parseRepairBudget double_of_Z override env in
  (enabled p = true <->
     auto = true /\ userVerdict input = BLOCKED /\ 0 < budget /\ attempts < budget) /\
  (if enabled p
   then rp_hints p = take (Z.to_nat budget) (deriveRepairHints input) /\ rp_hints p <> [] /\
        budgetRemaining p = budget - attempts /\ 0 < budgetRemaining p
   else rp_hints p = []).
Proof.
  intros p budget. pose proof (parseRepairBudget_nonneg double_of_Z override env) as Hb.
  fold budget in Hb.
  assert (Hne : userVerdict input = BLOCKED -> 0 < budget ->
                take (Z.to_nat budget) (deriveRepairHints input) <> []).
  { intros Hv Hp. pose proof (blocked_hints _ Hv) as Hh.
    destruct (deriveRepairHints input); [done|].
    destruct (Z.to_nat budget) eqn:E; [lia|done]. }
  assert (Hiff : enabled p = true <->
     auto = true /\ userVerdict input = BLOCKED /\ 0 < budget /\ attempts < budget).
  { unfold p, buildRegeneratePacket. cbn [enabled]. fold budget.
    rewrite !andb_true_iff, shouldOfferRepair_iff, capRepairHints_take, Nat.ltb_lt by done.
    split; [tauto|]. intros (Ha & Hv & Hp & Hlt). split_and!; try done.
    specialize (Hne Hv Hp). destruct (take _ _); [done|simpl; lia]. }
  split; [exact Hiff|].
  destruct (enabled p) eqn:E.
  - destruct (proj1 Hiff eq_refl) as (_ & Hv & Hp & Hlt).
    assert (Hh : rp_hints p = take (Z.to_nat budget) (deriveRepairHints input)).
    { revert E. unfold p, buildRegeneratePacket. cbn [enabled rp_hints]. fold budget.
      intros ->. by apply capRepairHints_take. }
    rewrite Hh. cbn [budgetRemaining p buildRegeneratePacket].
    split_and!; [done|by apply Hne|..]; unfold p, buildRegeneratePacket;
      cbn [budgetRemaining]; fold budget; lia.
  - revert E. unfold p, buildRegeneratePacket. cbn [enabled rp_hints]. by intros ->.
Qed.

(** For a positive first delay and a positive cap below 2^20 ms, the
    delay of every retry is a number of milliseconds between half the capped
    exponential base and one and a half times it (rounded), so it never exceeds
    3/2 of the cap, and it never decreases from one retry to a later one: the
    jitter depends on the packet only. *)
Theorem backoff_bounded_monotone (packetId : string) (cfg : option BackoffConfig) (n n' : Z) :
  ordinary cfg -> 0 <= n <= n' ->
  exists d d' : Z,
    backoffDelayMs packetId (Some n) cfg = NumFin (inject_Z d) /\
    backoffDelayMs packetId (Some n') cfg = NumFin (inject_Z d') /\
    backoff_base cfg n <= 2 * d <= 3 * backoff_base cfg n + 1 /\
    2 * d <= 3 * default DEFAULT_MAX_MS (cfg ≫= cfg_max) + 1 /\ d <= d'.
Proof.
  intros Hc Hn. do 2 eexists. rewrite !backoff_value by (done || lia).
  pose proof (backoff_base_range cfg n Hc ltac:(lia)) as Hr.
  pose proof (backoff_base_range cfg n' Hc ltac:(lia)) as Hr'.
  pose proof (backoff_base_mono cfg n n' Hc Hn) as Hm.
  pose proof (jittered_bounds _ _ Hr (fnv1a32_range packetId)) as Hb.
  split_and!; [done|done|lia|lia| |apply jittered_mono; [lia|lia|apply fnv1a32_range]].
  assert (backoff_base cfg n <= default DEFAULT_MAX_MS (cfg ≫= cfg_max)) by apply Z.le_min_l.
  lia.
Qed.

(** The first, second and eighth delay of one packet at the defaults. *)
Lemma backoff_bounded_monotone_witness :
  map (fun n => backoffDelayMs "wp-1" (Some n) None) [0; 1; 7]
    = [NumFin 2278; NumFin 4555; NumFin 136658]%Q /\
  exists d d' : Z,
    backoffDelayMs "wp-1" (Some 1) None = NumFin (inject_Z d) /\
    backoffDelayMs "wp-1" (Some 7) None = NumFin (inject_Z d') /\
    backoff_base None 1 <= 2 * d <= 3 * backoff_base None 1 + 1 /\
    2 * d <= 3 * 120000 + 1 /\ d <= d'.
Proof.
  split; [vm_compute; reflexivity|].
  apply (backoff_bounded_monotone "wp-1" None 1 7); [split; vm_compute; split; congruence|lia].
Defined.
