(* ===== verification/Json.v ===== *)
(** * JSON texts

    [JSON.stringify] and [JSON.parse] on plain data, for the files the sources
    write and read back: a printer, a parser and the three facts the crash
    recovery of a line-oriented file rests on: parsing inverts printing, the
    text of a value holds no line break, and no proper prefix of the text of an
    object is a JSON text. A number is its decimal literal (the sources only
    carry numbers through); strings are the code units below 256 of [JsString];
    object keys are those the language keeps in insertion order (no array
    indices). *)

From Stdlib Require Import Ascii String ZArith Lia.
From stdpp Require Import base list option strings sets.
From S2P Require Import Prelude JsString JsValue.

Open Scope string_scope.

Inductive json : Type :=
| JsNull
| JsBool (b : bool)
| JsNum (literal : string)
| JsStr (s : string)
| JsArr (l : list json)
| JsObj (fields : list (string * json)).

(** ** [JSON.stringify] *)

Fixpoint json_print (v : json) : string :=
  match v with
  | JsNull => "null"
  | JsBool true => "true"
  | JsBool false => "false"
  | JsNum lit => lit
  | JsStr s => json_string s
  | JsArr l => "[" ++ join "," (map json_print l) ++ "]"
  | JsObj fields =>
      "{" ++ join "," (map (fun kv => json_string (fst kv) ++ ":" ++ json_print (snd kv)) fields) ++ "}"
  end.

(** ** [JSON.parse] *)

Definition json_ws (a : ascii) : bool :=
  (code a =? 32)%nat || (code a =? 9)%nat || (code a =? 10)%nat || (code a =? 13)%nat.

Fixpoint skip_ws (s : string) : string :=
  match s with
  | String a s' => if json_ws a then skip_ws s' else s
  | EmptyString => EmptyString
  end.

Definition hex_value (a : ascii) : option nat :=
  if in_range 48 57 a then Some (code a - 48)%nat
  else if in_range 97 102 a then Some (code a - 87)%nat
  else if in_range 65 70 a then Some (code a - 55)%nat
  else None.

(** The code unit of four hexadecimal digits, below 256. *)
Definition hex4 (a b c d : ascii) : option ascii :=
  match hex_value a, hex_value b, hex_value c, hex_value d with
  | Some 0, Some 0, Some h, Some l => Some (ascii_of_nat (16 * h + l)%nat)
  | _, _, _, _ => None
  end%nat.

Definition unescape (e : ascii) : option ascii :=
  if Ascii.eqb e quote_char || Ascii.eqb e backslash_char || Ascii.eqb e "/" then Some e
  else if Ascii.eqb e "b" then Some (ascii_of_nat 8)
  else if Ascii.eqb e "t" then Some (ascii_of_nat 9)
  else if Ascii.eqb e "n" then Some (ascii_of_nat 10)
  else if Ascii.eqb e "f" then Some (ascii_of_nat 12)
  else if Ascii.eqb e "r" then Some (ascii_of_nat 13)
  else None.

Definition cons_char (a : ascii) (r : option (string * string)) : option (string * string) :=
  (fun wr => (String a (fst wr), snd wr)) <$> r.

(** The characters of a string literal up to its closing quote. *)
Fixpoint parse_chars (s : string) : option (string * string) :=
  match s with
  | EmptyString => None
  | String a s1 =>
      if Ascii.eqb a quote_char then Some (EmptyString, s1)
      else if Ascii.eqb a backslash_char then
        match s1 with
        | String e s2 =>
            if Ascii.eqb e "u" then
              match s2 with
              | String a1 (String a2 (String a3 (String a4 s3))) =>
                  match hex4 a1 a2 a3 a4 with
                  | Some c => cons_char c (parse_chars s3)
                  | None => None
                  end
              | _ => None
              end
            else match unescape e with
                 | Some c => cons_char c (parse_chars s2)
                 | None => None
                 end
        | EmptyString => None
        end
      else if (code a <? 32)%nat then None
      else cons_char a (parse_chars s1)
  end.

Definition is_digit (a : ascii) : bool := in_range 48 57 a.

Definition num_char (a : ascii) : bool :=
  is_digit a || Ascii.eqb a "-" || Ascii.eqb a "+" || Ascii.eqb a "." || Ascii.eqb a "e"
  || Ascii.eqb a "E".

Fixpoint span (p : ascii -> bool) (s : string) : string * string :=
  match s with
  | String a s' => if p a then (String a (fst (span p s')), snd (span p s')) else (EmptyString, s)
  | EmptyString => (EmptyString, EmptyString)
  end.

(** Digits, at least one; the rest of the literal. *)
Definition digits1 (s : string) : option string :=
  if is_empty (fst (span is_digit s)) then None else Some (snd (span is_digit s)).

Definition exponent_ok (s : string) : bool :=
  match s with
  | EmptyString => true
  | String e s' =>
      (Ascii.eqb e "e" || Ascii.eqb e "E")
      && match match s' with
               | String sg s'' => if Ascii.eqb sg "+" || Ascii.eqb sg "-" then digits1 s'' else digits1 s'
               | EmptyString => None
               end with
         | Some EmptyString => true
         | _ => false
         end
  end.

Definition fraction_ok (s : string) : bool :=
  match s with
  | String p s' =>
      if Ascii.eqb p "." then match digits1 s' with
                              | Some r => exponent_ok r
                              | None => false
                              end
      else exponent_ok s
  | EmptyString => true
  end.

Definition unsigned_ok (s : string) : bool :=
  match s with
  | String d s' =>
      if Ascii.eqb d "0" then fraction_ok s'
      else match digits1 s with
           | Some r => fraction_ok r
           | None => false
           end
  | EmptyString => false
  end.

(** The grammar of JSON numbers. *)
Definition number_ok (lit : string) : bool :=
  match lit with
  | String m s => if Ascii.eqb m "-" then unsigned_ok s else unsigned_ok lit
  | EmptyString => false
  end.

(** Every property assignment of a parsed object, in order: a repeated key
    keeps its place and takes the last value. *)
Definition build_object (fields : list (string * json)) : list (string * json) :=
  foldl (fun m kv => map_set (fst kv) (snd kv) m) [] fields.

Definition expect (w s : string) (v : json) : option (json * string) :=
  if startsWith w s then Some (v, slice (String.length w) s) else None.

Fixpoint parse_value (fuel : nat) (s : string) : option (json * string) :=
  match fuel with
  | O => None
  | S n =>
      match skip_ws s with
      | EmptyString => None
      | String a r =>
          if Ascii.eqb a "{" then
            if startsWith "}" (skip_ws r) then Some (JsObj [], slice 1 (skip_ws r))
            else (fun fr => (JsObj (build_object (fst fr)), snd fr)) <$> parse_members n r
          else if Ascii.eqb a "[" then
            if startsWith "]" (skip_ws r) then Some (JsArr [], slice 1 (skip_ws r))
            else (fun lr => (JsArr (fst lr), snd lr)) <$> parse_elements n r
          else if Ascii.eqb a quote_char then (fun wr => (JsStr (fst wr), snd wr)) <$> parse_chars r
          else if Ascii.eqb a "n" then expect "null" (String a r) JsNull
          else if Ascii.eqb a "t" then expect "true" (String a r) (JsBool true)
          else if Ascii.eqb a "f" then expect "false" (String a r) (JsBool false)
          else
            let lit := fst (span num_char (String a r)) in
            if number_ok lit then Some (JsNum lit, snd (span num_char (String a r))) else None
      end
  end
with parse_elements (fuel : nat) (s : string) : option (list json * string) :=
  match fuel with
  | O => None
  | S n =>
      match parse_value n s with
      | None => None
      | Some (v, r) =>
          match skip_ws r with
          | String c r' =>
              if Ascii.eqb c "," then (fun lr => (v :: fst lr, snd lr)) <$> parse_elements n r'
              else if Ascii.eqb c "]" then Some ([v], r')
              else None
          | EmptyString => None
          end
      end
  end
with parse_members (fuel : nat) (s : string) : option (list (string * json) * string) :=
  match fuel with
  | O => None
  | S n =>
      match skip_ws s with
      | String q r0 =>
          if Ascii.eqb q quote_char then
            match parse_chars r0 with
            | None => None
            | Some (k, r1) =>
                match skip_ws r1 with
                | String colon r2 =>
                    if Ascii.eqb colon ":" then
                      match parse_value n r2 with
                      | None => None
                      | Some (v, r3) =>
                          match skip_ws r3 with
                          | String c r' =>
                              if Ascii.eqb c "," then
                                (fun fr => ((k, v) :: fst fr, snd fr)) <$> parse_members n r'
                              else if Ascii.eqb c "}" then Some ([(k, v)], r')
                              else None
                          | EmptyString => None
                          end
                      end
                    else None
                | EmptyString => None
                end
            end
          else None
      | EmptyString => None
      end
  end.

(** [JSON.parse(text)]; [None] is the [SyntaxError]. The fuel is more than the
    nesting and the elements of any value of the text can use. *)
Definition json_parse (text : string) : option json :=
  match parse_value (S (2 * String.length text)) text with
  | Some (v, r) => if is_empty (skip_ws r) then Some v else None
  | None => None
  end.

(** [value[key]] of an object, [None] being [undefined], and its string. *)
Definition jget (key : string) (v : json) : option json :=
  match v with
  | JsObj fields => map_get key fields
  | _ => None
  end.

Definition jstr (key : string) (v : json) : option string :=
  match jget key v with
  | Some (JsStr s) => Some s
  | _ => None
  end.

(** ** Values the round trip is about: numbers follow the grammar, and the keys
    of an object are distinct *)

Fixpoint json_ok (v : json) : bool :=
  match v with
  | JsNum lit => number_ok lit
  | JsArr l => forallb json_ok l
  | JsObj fields =>
      forallb (fun kv => json_ok (snd kv)) fields
      && bool_decide (NoDup (map fst fields))
  | _ => true
  end.

Fixpoint json_size (v : json) : nat :=
  match v with
  | JsArr l => 2 + list_sum (map (fun x => S (json_size x)) l)
  | JsObj fields => 2 + list_sum (map (fun kv => S (json_size (snd kv))) fields)
  | _ => 1
  end.

Section JsonInd.
Context (P : json -> Prop).
Context (Hnull : P JsNull) (Hbool : forall b, P (JsBool b)) (Hnum : forall s, P (JsNum s))
  (Hstr : forall s, P (JsStr s)) (Harr : forall l, Forall P l -> P (JsArr l))
  (Hobj : forall fields, Forall (fun kv => P (snd kv)) fields -> P (JsObj fields)).

Fixpoint json_ind_nested (v : json) : P v :=
  match v with
  | JsNull => Hnull
  | JsBool b => Hbool b
  | JsNum s => Hnum s
  | JsStr s => Hstr s
  | JsArr l =>
      Harr l ((fix go l : Forall P l :=
        match l with
        | [] => List.Forall_nil P
        | x :: l' => List.Forall_cons P x l' (json_ind_nested x) (go l')
        end) l)
  | JsObj fields =>
      Hobj fields ((fix go fs : Forall (fun kv => P (snd kv)) fs :=
        match fs with
        | [] => List.Forall_nil _
        | kv :: fs' => List.Forall_cons _ kv fs' (json_ind_nested (snd kv)) (go fs')
        end) fields)
  end.
End JsonInd.

(** ** Lexical lemmas *)

Lemma span_app (p : ascii -> bool) (w rest : string) :
  sforall p w = true ->
  (forall a r, rest = String a r -> p a = false) ->
  span p (w ++ rest) = (w, rest).
Proof.
  intros Hw Hr. induction w as [|a w IH]; simpl in *.
  - destruct rest as [|a r]; [done|]. simpl. by rewrite (Hr a r).
  - breflect. by rewrite H, IH.
Qed.

Lemma span_eq (p : ascii -> bool) (s : string) :
  s = fst (span p s) ++ snd (span p s) /\ sforall p (fst (span p s)) = true.
Proof.
  induction s as [|a s [IH1 IH2]]; simpl; [done|].
  destruct (p a) eqn:E; simpl; [|done]. by rewrite E, <- IH1.
Qed.

Lemma span_ext (p : ascii -> bool) (s t : string) :
  snd (span p s) <> EmptyString ->
  span p (s ++ t) = (fst (span p s), snd (span p s) ++ t).
Proof.
  induction s as [|a s IH]; simpl; [done|]. destruct (p a); simpl; [|done].
  intros H. by rewrite IH.
Qed.

Lemma skip_ws_ext (s t : string) (a : ascii) (r : string) :
  skip_ws s = String a r -> skip_ws (s ++ t) = String a (r ++ t).
Proof.
  induction s as [|b s IH]; simpl; [done|]. destruct (json_ws b); [done|]. by intros [= -> ->].
Qed.

Lemma skip_ws_head (a : ascii) (s : string) : json_ws a = false -> skip_ws (String a s) = String a s.
Proof. simpl. by intros ->. Qed.

Lemma digits1_spec (s r : string) :
  digits1 s = Some r -> exists a d, s = String a (d ++ r) /\ is_digit a = true /\ sforall is_digit d = true.
Proof.
  unfold digits1. destruct (span_eq is_digit s) as [H1 H2].
  destruct (fst (span is_digit s)) as [|a d]; simpl; [done|]. intros [= <-].
  simpl in H2. breflect. eauto.
Qed.

Definition num_start (a : ascii) : bool := is_digit a || Ascii.eqb a "-".

Lemma num_chars_all (s : string) : sforall is_digit s = true -> sforall num_char s = true.
Proof.
  induction s as [|a s IH]; simpl; [done|]. intros H. breflect. unfold num_char.
  rewrite H. auto.
Qed.

Lemma is_digit_num (a : ascii) : is_digit a = true -> num_char a = true.
Proof. unfold num_char. by intros ->. Qed.

Lemma digits1_num (s r : string) :
  digits1 s = Some r -> sforall num_char r = true -> sforall num_char s = true.
Proof.
  intros (a & d & -> & Ha & Hd)%digits1_spec Hr. simpl.
  by rewrite sforall_app, (is_digit_num _ Ha), (num_chars_all _ Hd), Hr.
Qed.

Lemma exponent_num (s : string) : exponent_ok s = true -> sforall num_char s = true.
Proof.
  destruct s as [|e s]; simpl; [done|]. intros [He H]%andb_true_iff.
  assert (num_char e = true) as ->.
  { unfold num_char. breflect. destruct He as [->| ->]; rewrite ?orb_true_r; done. }
  simpl. destruct s as [|sg s']; [done|].
  destruct (Ascii.eqb sg "+" || Ascii.eqb sg "-") eqn:Es.
  - destruct (digits1 s') as [[|]|] eqn:E; try done. apply digits1_num in E; [|done]. simpl.
    rewrite E. unfold num_char. breflect. destruct Es as [->| ->]; rewrite ?orb_true_r; done.
  - destruct (digits1 (String sg s')) as [[|]|] eqn:E; try done. by apply digits1_num in E.
Qed.

Lemma fraction_num (s : string) : fraction_ok s = true -> sforall num_char s = true.
Proof.
  destruct s as [|p s]; [done|]. intros H. cbn [fraction_ok] in H.
  destruct (Ascii.eqb p ".") eqn:Ep.
  - destruct (digits1 s) as [r|] eqn:E; [|done]. apply exponent_num in H.
    apply (digits1_num _ _ E) in H. cbn [sforall]. rewrite H. unfold num_char.
    rewrite Ep, ?orb_true_r. done.
  - by apply exponent_num.
Qed.

Lemma number_num (lit : string) :
  number_ok lit = true ->
  sforall num_char lit = true /\ exists a r, lit = String a r /\ num_start a = true.
Proof.
  assert (Hbody : forall s, unsigned_ok s = true ->
    sforall num_char s = true /\ exists a r, s = String a r /\ is_digit a = true).
  { intros [|d s]; [done|]. unfold unsigned_ok. destruct (Ascii.eqb_spec d "0") as [->|Hd].
    - intros H%fraction_num. split; [cbn [sforall]; by rewrite H|eauto].
    - destruct (digits1 (String d s)) as [r|] eqn:E; [|done]. intros H%fraction_num.
      split; [by eapply digits1_num|]. apply digits1_spec in E as (a & d' & [= -> ->] & Ha & _). eauto. }
  unfold number_ok. destruct lit as [|m s']; [done|].
  destruct (Ascii.eqb_spec m "-") as [->|Hm].
  - intros [H _]%Hbody. split; [cbn [sforall]; by rewrite H|eauto].
  - intros [H (a & r & [= -> ->] & Ha)]%Hbody. split; [done|]. exists a, r.
    unfold num_start. by rewrite Ha.
Qed.

(** ** String literals *)

Lemma parse_escape_char (a : ascii) (r : string) :
  parse_chars (json_escape_char a ++ r) = cons_char a (parse_chars r).
Proof. destruct a as [[] [] [] [] [] [] [] []]; reflexivity. Qed.

Lemma parse_chars_escape (s r : string) :
  parse_chars (json_escape s ++ String quote_char r) = Some (s, r).
Proof.
  induction s as [|a s IH]; [done|]. cbn [json_escape].
  by rewrite app_assoc_str, parse_escape_char, IH.
Qed.

Lemma cons_char_Some (a : ascii) (x : option (string * string)) (w r : string) :
  cons_char a x = Some (w, r) <-> exists w', x = Some (w', r) /\ w = String a w'.
Proof. destruct x as [[w' r']|]; simpl; naive_solver. Qed.

Lemma parse_chars_ext (s w r t : string) :
  parse_chars s = Some (w, r) -> parse_chars (s ++ t) = Some (w, r ++ t).
Proof.
  remember (String.length s) as n eqn:Hn. revert s Hn w.
  induction n as [n IH] using lt_wf_ind. intros s -> w.
  assert (Hsub : forall s' a w, (String.length s' < String.length s)%nat ->
    cons_char a (parse_chars s') = Some (w, r) ->
    cons_char a (parse_chars (s' ++ t)) = Some (w, r ++ t)).
  { intros s' a w' Hlt (w'' & Hp & ->)%cons_char_Some. by rewrite (IH _ Hlt s' eq_refl w'' Hp). }
  destruct s as [|a s1]; [done|]. cbn [parse_chars String.append].
  destruct (Ascii.eqb a quote_char); [by intros [= <- <-]|].
  destruct (Ascii.eqb a backslash_char).
  - destruct s1 as [|e s2]; [done|]. cbn [String.append]. destruct (Ascii.eqb e "u").
    + destruct s2 as [|a1 [|a2 [|a3 [|a4 s3]]]]; try done. cbn [String.append].
      destruct (hex4 a1 a2 a3 a4); [|done]. apply Hsub. simpl. lia.
    + destruct (unescape e); [|done]. apply Hsub. simpl. lia.
  - destruct (code a <? 32)%nat; [done|]. apply Hsub. simpl. lia.
Qed.

(** ** Parsing inverts printing *)

Definition stops (rest : string) : Prop := forall a r, rest = String a r -> num_char a = false.

(** The first character of a printed value: not white space, and telling the
    alternatives of the grammar apart. *)
Lemma num_start_other (a : ascii) :
  num_start a = true ->
  json_ws a = false /\ Ascii.eqb a "{" = false /\ Ascii.eqb a "[" = false /\
  Ascii.eqb a quote_char = false /\ Ascii.eqb a "n" = false /\ Ascii.eqb a "t" = false /\
  Ascii.eqb a "f" = false.
Proof. destruct a as [[] [] [] [] [] [] [] []]; try done; intros _; repeat split. Qed.

Lemma print_head (v : json) :
  json_ok v = true ->
  exists a r, json_print v = String a r /\ json_ws a = false /\ Ascii.eqb a "]" = false.
Proof.
  destruct v as [|[]|lit|s|l|fields]; simpl; intros H; try (do 2 eexists; by split_and!).
  apply number_num in H as (_ & a & r & -> & Ha). exists a, r.
  split_and!; [done|by apply num_start_other in Ha as (-> & _)|].
  revert Ha. destruct a as [[] [] [] [] [] [] [] []]; done.
Qed.

Lemma build_object_app (fields m : list (string * json)) :
  NoDup (map fst (m ++ fields)%list) ->
  foldl (fun m kv => map_set (fst kv) (snd kv) m) m fields = (m ++ fields)%list.
Proof.
  revert m. induction fields as [|[k v] fields IH]; intros m Hnd; simpl; [by rewrite app_nil_r|].
  assert (Hset : map_set k v m = (m ++ [(k, v)])%list).
  { rewrite map_app in Hnd. simpl in Hnd.
    assert (Hk : k ∉ map fst m).
    { intros Hk. apply NoDup_app in Hnd as (_ & Hd & _). apply (Hd k Hk). left. }
    clear -Hk. induction m as [|[q w] m IH]; simpl; [done|]. simpl in Hk.
    apply not_elem_of_cons in Hk as [Hq Hk]. destruct (String.eqb_spec q k); [congruence|].
    by rewrite IH. }
  rewrite Hset, IH by (by rewrite <- app_assoc). by rewrite <- app_assoc.
Qed.

Lemma build_object_id (fields : list (string * json)) :
  NoDup (map fst fields) -> build_object fields = fields.
Proof. apply (build_object_app fields []). Qed.

Lemma join_cons (sep w : string) (ws : list string) :
  join sep (w :: ws) = w ++ match ws with [] => EmptyString | _ => sep ++ join sep ws end.
Proof. destruct ws; [by rewrite app_nil_str|done]. Qed.

(** One value parses back. *)
Definition parses (v : json) : Prop :=
  json_ok v = true ->
  forall n rest, (json_size v <= n)%nat -> stops rest -> parse_value n (json_print v ++ rest) = Some (v, rest).

Lemma parse_elements_print (l : list json) :
  l <> [] -> Forall parses l -> forallb json_ok l = true ->
  forall n rest, (list_sum (map (fun x => S (json_size x)) l) <= n)%nat ->
  parse_elements n (join "," (map json_print l) ++ String "]" rest) = Some (l, rest).
Proof.
  intros Hne Hl. induction Hl as [|v l Hv Hl IH]; intros Hok n rest Hn; [done|].
  cbn [forallb] in Hok. breflect.
  cbn [map list_sum foldr] in Hn. destruct n as [|n]; [lia|].
  cbn [parse_elements map]. rewrite join_cons, app_assoc_str. destruct l as [|v' l].
  - cbn [map]. rewrite Hv; [done|done|simpl in Hn; lia|by intros ? ? [= <- <-]].
  - rewrite Hv; [|done|lia|by intros ? ? [= <- <-]].
    cbn [map]. cbn [String.append]. rewrite skip_ws_head by done. cbn.
    rewrite IH; [done|done|done|]. cbn [map list_sum foldr] in *. lia.
Qed.

Definition print_member (kv : string * json) : string := json_string (fst kv) ++ ":" ++ json_print (snd kv).

Lemma parse_members_print (fields : list (string * json)) :
  fields <> [] -> Forall (fun kv => parses (snd kv)) fields ->
  forallb (fun kv => json_ok (snd kv)) fields = true ->
  forall n rest, (list_sum (map (fun kv => S (json_size (snd kv))) fields) <= n)%nat ->
  parse_members n (join "," (map print_member fields) ++ String "}" rest) = Some (fields, rest).
Proof.
  intros Hne Hl. induction Hl as [|[k v] l Hv Hl IH]; intros Hok n rest Hn; [done|].
  cbn [forallb fst snd] in Hok. breflect. simpl in Hv.
  cbn [map list_sum foldr snd] in Hn. destruct n as [|n]; [lia|].
  cbn [parse_members map]. rewrite join_cons. unfold print_member at 1, json_string.
  cbn [fst snd String.append]. rewrite !app_assoc_str. rewrite skip_ws_head by done.
  rewrite Ascii.eqb_refl. cbn [String.append]. rewrite parse_chars_escape.
  rewrite skip_ws_head by done. rewrite Ascii.eqb_refl.
  destruct l as [|kv' l].
  - rewrite Hv; [done|done|simpl in Hn; lia|by intros ? ? [= <- <-]].
  - rewrite Hv; [|done|lia|by intros ? ? [= <- <-]].
    cbn [map]. cbn [String.append]. rewrite skip_ws_head by done. cbn.
    rewrite IH; [done|done|done|]. cbn [map list_sum foldr] in *. lia.
Qed.

Lemma expect_app (w rest : string) (v : json) : expect w (w ++ rest) v = Some (v, rest).
Proof.
  unfold expect. assert (startsWith w (w ++ rest) = true) as ->.
  { induction w as [|a w IH]; simpl; [by destruct rest|]. by rewrite startsWith_cons, Ascii.eqb_refl. }
  do 2 f_equal. induction w as [|a w IH]; simpl; [by destruct rest|done].
Qed.

Lemma startsWith_no (c a : ascii) (s : string) :
  Ascii.eqb a c = false -> startsWith (String c EmptyString) (String a s) = false.
Proof. intros H. rewrite startsWith_char. by rewrite Ascii.eqb_sym. Qed.

Lemma parse_print (v : json) : parses v.
Proof.
  induction v as [|[]|lit|s|l Hl|fields Hl] using json_ind_nested;
    intros Hok n rest Hn Hrest; simpl in Hn; (destruct n as [|n]; [lia|]);
    cbn [parse_value json_print].
  - cbn [String.append]. rewrite skip_ws_head by done. exact (expect_app "null" rest JsNull).
  - cbn [String.append]. rewrite skip_ws_head by done. exact (expect_app "true" rest _).
  - cbn [String.append]. rewrite skip_ws_head by done. exact (expect_app "false" rest _).
  - cbn [json_ok] in Hok. destruct (number_num _ Hok) as (Hc & a & r & -> & Ha).
    apply num_start_other in Ha as (H1 & H2 & H3 & H4 & H5 & H6 & H7).
    cbn [String.append]. rewrite skip_ws_head by done. rewrite H2, H3, H4, H5, H6, H7. cbv zeta.
    change (String a (r ++ rest)) with (String a r ++ rest).
    rewrite span_app by done. cbn [fst snd]. by rewrite Hok.
  - unfold json_string. cbn [String.append]. rewrite skip_ws_head by done.
    rewrite Ascii.eqb_refl, app_assoc_str. cbn [String.append]. by rewrite parse_chars_escape.
  - cbn [String.append]. rewrite skip_ws_head by done. cbn [json_ok] in Hok.
    destruct l as [|v l].
    { cbn [map join String.append]. rewrite skip_ws_head by done. by rewrite !startsWith_char. }
    rewrite !app_assoc_str. cbn [String.append].
    assert (Hh : exists a r, join "," (map json_print (v :: l)) ++ String "]" rest = String a r /\
              json_ws a = false /\ Ascii.eqb a "]" = false).
    { simpl in Hok. breflect. destruct (print_head v H) as (a & r & E & Hw & Hb).
      cbn [map]. rewrite join_cons, E. cbn [String.append]. eauto. }
    destruct Hh as (a & r & E & Hw & Hb). rewrite (Ascii.eqb_refl "[").
    change (Ascii.eqb "[" "{") with false. cbv iota.
    rewrite E, skip_ws_head, startsWith_no by done. rewrite <- E.
    rewrite parse_elements_print; [done|done|done|done|lia].
  - cbn [String.append]. rewrite skip_ws_head by done. cbn [json_ok] in Hok. breflect.
    destruct fields as [|[k v] l].
    { cbn [map join String.append]. rewrite skip_ws_head by done. by rewrite !startsWith_char. }
    rewrite !app_assoc_str. cbn [String.append].
    rewrite (Ascii.eqb_refl "{"). fold print_member.
    change (map (fun kv => json_string (fst kv) ++ String ":" (json_print (snd kv)))
      ((k, v) :: l)) with (map print_member ((k, v) :: l)).
    assert (Hh : exists r, join "," (map print_member ((k, v) :: l)) ++ String "}" rest = String quote_char r).
    { cbn [map]. rewrite join_cons. unfold print_member at 1, json_string. cbn [String.append]. eauto. }
    destruct Hh as (r & E). rewrite E, skip_ws_head, startsWith_no by done. rewrite <- E.
    rewrite parse_members_print; [|done|done|done|lia]. cbn [fmap option_fmap option_map fst snd].
    by rewrite build_object_id.
Qed.

Lemma length_append (a b : string) :
  String.length (a ++ b) = (String.length a + String.length b)%nat.
Proof. induction a as [|x a IH]; simpl; [done|]. by rewrite IH. Qed.

Lemma length_join_ge (l : list string) :
  (list_sum (map (fun w => S (String.length w)) l) <= S (String.length (join "," l)))%nat.
Proof.
  induction l as [|w l IH]; [simpl; lia|]. rewrite join_cons. cbn [map list_sum foldr].
  destruct l as [|w' l]; [simpl; rewrite length_append; simpl; lia|].
  rewrite length_append. cbn [String.append String.length].
  cbn [map list_sum foldr] in *. lia.
Qed.

Lemma list_sum_le {A} (f g : A -> nat) (l : list A) :
  Forall (fun x => f x <= g x)%nat l -> (list_sum (map f l) <= list_sum (map g l))%nat.
Proof. induction 1; simpl; lia. Qed.

Lemma list_sum_double {A} (f : A -> nat) (l : list A) :
  (2 * list_sum (map f l) = list_sum (map (fun x => 2 * f x) l))%nat.
Proof. induction l; simpl in *; lia. Qed.

(** The fuel of [json_parse] covers every printed value. *)
Lemma json_size_length (v : json) :
  json_ok v = true -> (json_size v <= 2 * String.length (json_print v))%nat.
Proof.
  induction v as [|[]|lit|s|l Hl|fields Hl] using json_ind_nested; intros Hok; cbn [json_size json_print]; try (simpl; lia).
  - simpl in Hok. apply number_num in Hok as (_ & a & r & -> & _). simpl. lia.
  - rewrite !length_append. cbn [String.length].
    pose proof (length_join_ge (map json_print l)) as Hj. rewrite map_map in Hj.
    assert (Hs : (list_sum (map (fun x => S (json_size x)) l)
              <= list_sum (map (fun x => 2 * S (String.length (json_print x))) l))%nat).
    { apply list_sum_le. simpl in Hok. clear Hj. induction Hl as [|v l Hv Hl IH]; [constructor|].
      simpl in Hok. breflect. constructor; [specialize (Hv H); lia|by apply IH]. }
    rewrite <- list_sum_double in Hs. lia.
  - rewrite !length_append. cbn [String.length].
    change (map (fun kv => json_string (fst kv) ++ ":" ++ json_print (snd kv)) fields)
      with (map print_member fields).
    pose proof (length_join_ge (map print_member fields)) as Hj. rewrite map_map in Hj.
    assert (Hs : (list_sum (map (fun kv => S (json_size (snd kv))) fields)
              <= list_sum (map (fun kv => 2 * S (String.length (print_member kv))) fields))%nat).
    { apply list_sum_le. simpl in Hok. breflect. clear Hj.
      induction Hl as [|[k v] l Hv Hl IH]; [constructor|].
      simpl in H. breflect. constructor; [|apply IH; [done|by inversion H0; subst]].
      simpl in *. specialize (Hv H). rewrite length_append. simpl. lia. }
    rewrite <- list_sum_double in Hs.
    lia.
Qed.

(** [JSON.parse(JSON.stringify(v))] is [v]. *)
Lemma json_parse_print (v : json) : json_ok v = true -> json_parse (json_print v) = Some v.
Proof.
  intros Hok. unfold json_parse. rewrite <- (app_nil_str (json_print v)) at 2.
  rewrite (parse_print v Hok); [done|..].
  - pose proof (json_size_length v Hok). lia.
  - by intros a r [=].
Qed.

(** ** The text of a value holds no line break *)

Definition no_lf (a : ascii) : bool := negb (code a =? 10)%nat.

Definition line_feed : ascii := ascii_of_nat 10.

Lemma no_lf_free (s : string) :
  sforall no_lf s = true -> sforall (fun a => negb (Ascii.eqb a line_feed)) s = true.
Proof.
  induction s as [|a s IH]; simpl; [done|]. intros [Ha Hs]%andb_true_iff. rewrite IH, andb_true_r by done.
  destruct (Ascii.eqb_spec a line_feed) as [->|]; [vm_compute in Ha|]; done.
Qed.

Lemma json_string_no_lf (s : string) : sforall no_lf (json_string s) = true.
Proof.
  unfold json_string. cbn [sforall]. rewrite sforall_app. cbn [sforall].
  change (no_lf quote_char) with true. cbn [andb]. rewrite andb_true_r. induction s as [|a s IH]; [done|]. cbn [json_escape].
  rewrite sforall_app. rewrite IH, andb_true_r. clear IH. revert a.
  apply (ascii_all (fun a => sforall no_lf (json_escape_char a))). vm_compute. reflexivity.
Qed.

Lemma json_print_no_lf (v : json) : json_ok v = true -> sforall no_lf (json_print v) = true.
Proof.
  induction v as [|[]|lit|s|l Hl|fields Hl] using json_ind_nested; intros Hok; cbn [json_print];
    try done.
  - apply number_num in Hok as [H _]. revert H. induction lit as [|a lit IH]; [done|].
    simpl. intros [Ha H]%andb_true_iff. rewrite IH, andb_true_r by done.
    revert Ha. destruct a as [[] [] [] [] [] [] [] []]; done.
  - apply json_string_no_lf.
  - rewrite !sforall_app. cbn [sforall]. change (no_lf "]") with true.
    change (no_lf "[") with true. rewrite !andb_true_r. apply join_sforall; [done|].
    intros w (v & -> & Hv)%list_elem_of_fmap. rewrite Forall_forall in Hl. apply Hl; [done|].
    cbn [json_ok] in Hok. rewrite forallb_true_iff in Hok. auto.
  - rewrite !sforall_app. cbn [sforall]. change (no_lf "}") with true.
    change (no_lf "{") with true. rewrite !andb_true_r. apply join_sforall; [done|].
    intros w ([k v] & -> & Hv)%list_elem_of_fmap. cbn [fst snd].
    rewrite !sforall_app, json_string_no_lf. cbn [sforall andb]. rewrite Forall_forall in Hl.
    apply (Hl (k, v) Hv). cbn [json_ok] in Hok. breflect.
    rewrite forallb_true_iff in H. exact (H (k, v) Hv).
Qed.

(** ** A truncated text is no text *)

(** More fuel and more input leave a finished parse as it was; a number is
    finished only when something follows it. *)
Definition finished (v : json) (r : string) : Prop := r <> EmptyString \/ forall lit, v <> JsNum lit.

Lemma nonblank_finished (v : json) (r r' : string) (a : ascii) :
  skip_ws r = String a r' -> finished v r.
Proof. intros H. left. by destruct r. Qed.

Definition value_extends (n : nat) : Prop := forall s v r,
  parse_value n s = Some (v, r) -> finished v r ->
  forall m t, (n <= m)%nat -> parse_value m (s ++ t) = Some (v, r ++ t).

Lemma fmap_pair_Some {A B} (f : A -> B) (x : option (A * string)) (b : B) (r : string) :
  (fun p => (f (fst p), snd p)) <$> x = Some (b, r) <-> exists a, x = Some (a, r) /\ b = f a.
Proof. destruct x as [[a r']|]; simpl; naive_solver. Qed.

Lemma startsWith_ext (w s t : string) : startsWith w s = true ->
  startsWith w (s ++ t) = true /\ slice (String.length w) (s ++ t) = slice (String.length w) s ++ t.
Proof.
  revert s. induction w as [|a w IH]; intros s H; simpl.
  - by destruct s, t.
  - destruct s as [|b s]; [done|]. cbn [String.append]. rewrite startsWith_cons in *.
    breflect. rewrite H. by apply IH.
Qed.

Lemma expect_ext (w s t : string) (v v' : json) (r : string) :
  expect w s v = Some (v', r) -> expect w (s ++ t) v = Some (v', r ++ t).
Proof.
  unfold expect. destruct (startsWith w s) eqn:E; [|done]. intros [= <- <-].
  destruct (startsWith_ext w s t E) as [-> ->]. done.
Qed.

Section Extend.
Context (n : nat) (IH : value_extends n).
Context (IHe : forall s l r, parse_elements n s = Some (l, r) ->
  forall m t, (n <= m)%nat -> parse_elements m (s ++ t) = Some (l, r ++ t)).
Context (IHm : forall s l r, parse_members n s = Some (l, r) ->
  forall m t, (n <= m)%nat -> parse_members m (s ++ t) = Some (l, r ++ t)).

Lemma elements_step (s r : string) (l : list json) (m : nat) (t : string) :
  parse_elements (S n) s = Some (l, r) -> (n <= m)%nat ->
  parse_elements (S m) (s ++ t) = Some (l, r ++ t).
Proof.
  intros H Hm. cbn [parse_elements] in *.
  destruct (parse_value n s) as [[v r1]|] eqn:Ev; [|done].
  destruct (skip_ws r1) as [|c r2] eqn:Er; [done|].
  rewrite (IH _ _ _ Ev (nonblank_finished _ _ _ _ Er) m t Hm), (skip_ws_ext _ t _ _ Er).
  destruct (Ascii.eqb c ","); [|destruct (Ascii.eqb c "]"); [by simplify_eq|done]].
  apply fmap_pair_Some in H as (l' & He & ->). by rewrite (IHe _ _ _ He m t Hm).
Qed.

Lemma members_step (s r : string) (l : list (string * json)) (m : nat) (t : string) :
  parse_members (S n) s = Some (l, r) -> (n <= m)%nat ->
  parse_members (S m) (s ++ t) = Some (l, r ++ t).
Proof.
  intros H Hm. cbn [parse_members] in *.
  destruct (skip_ws s) as [|q r0] eqn:Es; [done|]. rewrite (skip_ws_ext _ t _ _ Es).
  destruct (Ascii.eqb q quote_char); [|done].
  destruct (parse_chars r0) as [[k r1]|] eqn:Ek; [|done]. rewrite (parse_chars_ext _ _ _ t Ek).
  destruct (skip_ws r1) as [|c r2] eqn:Er1; [done|]. rewrite (skip_ws_ext _ t _ _ Er1).
  destruct (Ascii.eqb c ":"); [|done].
  destruct (parse_value n r2) as [[v r3]|] eqn:Ev; [|done].
  destruct (skip_ws r3) as [|d r4] eqn:Er3; [done|].
  rewrite (IH _ _ _ Ev (nonblank_finished _ _ _ _ Er3) m t Hm), (skip_ws_ext _ t _ _ Er3).
  destruct (Ascii.eqb d ","); [|destruct (Ascii.eqb d "}"); [by simplify_eq|done]].
  apply fmap_pair_Some in H as (l' & He & ->). by rewrite (IHm _ _ _ He m t Hm).
Qed.

(** The container alternatives: an empty one, or its contents. *)
Lemma container_step {A} (close : ascii) (empty : json) (f : A -> json)
    (content : nat -> string -> option (A * string)) (m : nat) (r t r' : string) (v : json) :
  (forall s x q, content n s = Some (x, q) ->
     content m (s ++ t) = Some (x, q ++ t) /\ skip_ws s <> EmptyString) ->
  (if startsWith (String close EmptyString) (skip_ws r) then Some (empty, slice 1 (skip_ws r))
   else (fun p => (f (fst p), snd p)) <$> content n r) = Some (v, r') ->
  (if startsWith (String close EmptyString) (skip_ws (r ++ t))
   then Some (empty, slice 1 (skip_ws (r ++ t)))
   else (fun p => (f (fst p), snd p)) <$> content m (r ++ t)) = Some (v, r' ++ t).
Proof.
  intros Hc. destruct (skip_ws r) as [|a s] eqn:E.
  - change (startsWith (String close EmptyString) EmptyString) with false. cbv iota.
    intros (x & Hx & ->)%fmap_pair_Some. destruct (Hc _ _ _ Hx) as [_ Hne]. congruence.
  - rewrite (skip_ws_ext _ t _ _ E), !startsWith_char.
    destruct (Ascii.eqb close a).
    + cbn [slice]. intros [= <- <-]. cbn [slice]. by destruct s, t.
    + intros (x & Hx & ->)%fmap_pair_Some. by destruct (Hc _ _ _ Hx) as [-> _].
Qed.

Lemma parse_value_nonblank (k : nat) (s : string) (x : json * string) :
  parse_value k s = Some x -> skip_ws s <> EmptyString.
Proof. destruct k; [done|]. cbn [parse_value]. by destruct (skip_ws s). Qed.

Lemma value_step : value_extends (S n).
Proof.
  intros s v r H Hf [|m] t Hm; [lia|]. assert (Hm' : (n <= m)%nat) by lia.
  cbn [parse_value] in H |- *.
  destruct (skip_ws s) as [|a r0] eqn:Es; [done|]. rewrite (skip_ws_ext _ t _ _ Es).
  destruct (Ascii.eqb a "{").
  { apply (container_step "}" (JsObj []) (fun x => JsObj (build_object x)) parse_members m);
      [|exact H]. intros s' x q Hx. split; [by apply IHm|].
    destruct n; [done|]. cbn [parse_members] in Hx. by destruct (skip_ws s'). }
  destruct (Ascii.eqb a "[").
  { apply (container_step "]" (JsArr []) JsArr parse_elements m); [|exact H].
    intros s' x q Hx. split; [by apply IHe|].
    destruct n as [|k]; [done|]. cbn [parse_elements] in Hx.
    destruct (parse_value k s') eqn:E; [|done]. by eapply parse_value_nonblank. }
  destruct (Ascii.eqb a quote_char).
  { apply fmap_pair_Some in H as (w & Hw & ->). by rewrite (parse_chars_ext _ _ _ t Hw). }
  change (String a (r0 ++ t)) with (String a r0 ++ t).
  destruct (Ascii.eqb a "n"); [by apply expect_ext|].
  destruct (Ascii.eqb a "t"); [by apply expect_ext|].
  destruct (Ascii.eqb a "f"); [by apply expect_ext|].
  cbv zeta in *. destruct (number_ok _) eqn:En; [|done]. injection H as <- <-.
  destruct Hf as [Hne|Hn]; [|by destruct (Hn (fst (span num_char (String a r0))))].
  rewrite (span_ext num_char (String a r0) t Hne). cbn [fst snd]. by rewrite En.
Qed.
End Extend.

Lemma parse_extends (n : nat) :
  value_extends n /\
  (forall s l r, parse_elements n s = Some (l, r) ->
     forall m t, (n <= m)%nat -> parse_elements m (s ++ t) = Some (l, r ++ t)) /\
  (forall s l r, parse_members n s = Some (l, r) ->
     forall m t, (n <= m)%nat -> parse_members m (s ++ t) = Some (l, r ++ t)).
Proof.
  induction n as [|n (IH & IHe & IHm)]; [split_and!; intros ????; done|].
  split_and!.
  - by apply value_step.
  - intros s l r H [|m] t Hm; [lia|]. apply (elements_step n); try done. lia.
  - intros s l r H [|m] t Hm; [lia|]. apply (members_step n); try done. lia.
Qed.

Lemma app_eq_nil_str (a b : string) : a ++ b = EmptyString -> b = EmptyString.
Proof. by destruct a. Qed.

(** A proper prefix of the text of an object is not a JSON text. *)
Lemma json_truncated (fields : list (string * json)) (p t : string) :
  json_ok (JsObj fields) = true -> json_print (JsObj fields) = p ++ t -> t <> EmptyString ->
  json_parse p = None.
Proof.
  intros Hok Hp Ht. unfold json_parse.
  destruct (parse_value _ p) as [[v r]|] eqn:E; [|done].
  destruct (is_empty (skip_ws r)) eqn:Er; [|done]. exfalso. apply Ht.
  assert (Hv : forall lit, v <> JsNum lit).
  { destruct p as [|a p]; [done|]. cbn [json_print String.append] in Hp. injection Hp as <- _.
    cbn [parse_value] in E. rewrite skip_ws_head in E by done. rewrite Ascii.eqb_refl in E.
    intros lit ->. destruct (startsWith "}" (skip_ws p)); [done|].
    destruct (parse_members _ p) as [[]|]; simplify_eq/=. }
  pose proof (proj1 (parse_extends _) _ _ _ E (or_intror Hv)
    (S (2 * String.length (p ++ t))) t ltac:(rewrite length_append; lia)) as He.
  rewrite <- Hp in He. rewrite <- (app_nil_str (json_print _)) in He at 2.
  rewrite (parse_print _ Hok) in He; [|pose proof (json_size_length _ Hok); lia|by intros ?? [=]].
  injection He as _ He. symmetry in He. by apply app_eq_nil_str in He.
Qed.

(** ** Parsed values are in the domain of the round trip *)

Lemma build_object_ok (fields : list (string * json)) :
  forallb (fun kv => json_ok (snd kv)) fields = true ->
  json_ok (JsObj (build_object fields)) = true.
Proof.
  intros H. cbn [json_ok]. apply andb_true_iff. rewrite bool_decide_eq_true. unfold build_object.
  assert (Hgo : forall m, forallb (fun kv => json_ok (snd kv)) m = true -> NoDup (map fst m) ->
    forallb (fun kv => json_ok (snd kv)) (foldl (fun m kv => map_set (fst kv) (snd kv) m) m fields) = true /\
    NoDup (map fst (foldl (fun m kv => map_set (fst kv) (snd kv) m) m fields))).
  { induction fields as [|[k v] fields IH]; intros m Hm Hnd; [done|]. simpl in H. breflect.
    cbn [foldl]. apply IH; [done| |by apply map_set_NoDup].
    clear -Hm H. induction m as [|[q w] m IHm]; simpl; [by rewrite H|].
    simpl in Hm. breflect. destruct (String.eqb q k); simpl; [by rewrite H, H1|].
    rewrite H0. by apply IHm. }
  by apply (Hgo []); [|constructor].
Qed.

Lemma parse_ok (n : nat) :
  (forall s v r, parse_value n s = Some (v, r) -> json_ok v = true) /\
  (forall s l r, parse_elements n s = Some (l, r) -> forallb json_ok l = true) /\
  (forall s l r, parse_members n s = Some (l, r) -> forallb (fun kv => json_ok (snd kv)) l = true).
Proof.
  induction n as [|n (IHv & IHe & IHm)]; [split_and!; done|]. split_and!.
  - intros s v r. cbn [parse_value]. destruct (skip_ws s) as [|a r0]; [done|].
    destruct (Ascii.eqb a "{").
    { destruct (startsWith _ _); [by intros [= <- _]|].
      destruct (parse_members n r0) as [[fs r1]|] eqn:Em; [|done]. intros [= <- _].
      eapply build_object_ok, IHm, Em. }
    destruct (Ascii.eqb a "[").
    { destruct (startsWith _ _); [by intros [= <- _]|].
      destruct (parse_elements n r0) as [[l r1]|] eqn:Ee; [|done]. intros [= <- _].
      eapply IHe, Ee. }
    destruct (Ascii.eqb a quote_char); [destruct (parse_chars r0); [by intros [= <- _]|done]|].
    unfold expect. destruct (Ascii.eqb a "n"); [destruct (startsWith _ _); [by intros [= <- _]|done]|].
    destruct (Ascii.eqb a "t"); [destruct (startsWith _ _); [by intros [= <- _]|done]|].
    destruct (Ascii.eqb a "f"); [destruct (startsWith _ _); [by intros [= <- _]|done]|].
    cbv zeta. destruct (number_ok _) eqn:En; [|done]. by intros [= <- _].
  - intros s l r. cbn [parse_elements]. destruct (parse_value n s) as [[v r1]|] eqn:Ev; [|done].
    apply IHv in Ev. destruct (skip_ws r1) as [|c r2]; [done|].
    destruct (Ascii.eqb c ","); [|destruct (Ascii.eqb c "]"); [intros [= <- _]; simpl; by rewrite Ev|done]].
    destruct (parse_elements n r2) as [[l' r3]|] eqn:Ee; [|done]. intros [= <- _]. simpl.
    rewrite Ev. eapply IHe, Ee.
  - intros s l r. cbn [parse_members]. destruct (skip_ws s) as [|q r0]; [done|].
    destruct (Ascii.eqb q quote_char); [|done]. destruct (parse_chars r0) as [[k r1]|]; [|done].
    destruct (skip_ws r1) as [|c r2]; [done|]. destruct (Ascii.eqb c ":"); [|done].
    destruct (parse_value n r2) as [[v r3]|] eqn:Ev; [|done]. apply IHv in Ev.
    destruct (skip_ws r3) as [|d r4]; [done|].
    destruct (Ascii.eqb d ","); [|destruct (Ascii.eqb d "}"); [intros [= <- _]; simpl; by rewrite Ev|done]].
    destruct (parse_members n r4) as [[l' r5]|] eqn:Em; [|done]. intros [= <- _]. simpl.
    rewrite Ev. eapply IHm, Em.
Qed.

Lemma json_parse_ok (s : string) (v : json) : json_parse s = Some v -> json_ok v = true.
Proof.
  unfold json_parse. destruct (parse_value _ s) as [[w r]|] eqn:E; [|done].
  destruct (is_empty _); [|done]. intros [= <-]. eapply parse_ok, E.
Qed.

(** ** The fuel is enough for every text

    What is left after a value is no longer than what was given, so the bound
    on the fuel follows the text through the three functions. *)

Lemma skip_ws_length (s : string) : (String.length (skip_ws s) <= String.length s)%nat.
Proof. induction s as [|a s IH]; simpl; [done|]. destruct (json_ws a); simpl; lia. Qed.

Lemma skip_ws_cons_length (s r : string) (a : ascii) :
  skip_ws s = String a r -> (String.length r < String.length s)%nat.
Proof. intros H. pose proof (skip_ws_length s) as L. rewrite H in L. simpl in L. lia. Qed.

Lemma slice_length (n : nat) (s : string) : (String.length (slice n s) <= String.length s)%nat.
Proof.
  revert n. induction s as [|a s IH]; intros [|n]; simpl; try lia. specialize (IH n). lia.
Qed.

Lemma cons_char_rest (c : ascii) (x : option (string * string)) (w r : string) :
  cons_char c x = Some (w, r) -> exists w', x = Some (w', r).
Proof. intros (w' & -> & _)%cons_char_Some. by exists w'. Qed.

Lemma span_length (p : ascii -> bool) (s : string) :
  (String.length (snd (span p s)) <= String.length s)%nat.
Proof. induction s as [|a s IH]; simpl; [done|]. destruct (p a); simpl; lia. Qed.

Lemma parse_chars_length (s w r : string) :
  parse_chars s = Some (w, r) -> (String.length r < String.length s)%nat.
Proof.
  remember (String.length s) as n eqn:Hn. revert s Hn w.
  induction n as [n IH] using lt_wf_ind. intros s -> w.
  assert (Hsub : forall s' a w, (String.length s' < String.length s)%nat ->
    cons_char a (parse_chars s') = Some (w, r) -> (String.length r < String.length s)%nat).
  { intros s' a w' Hlt (w'' & Hp)%cons_char_rest. specialize (IH _ Hlt s' eq_refl w'' Hp). lia. }
  destruct s as [|a s1]; [done|]. cbn [parse_chars].
  destruct (Ascii.eqb a quote_char); [intros [= _ <-]; simpl; lia|].
  destruct (Ascii.eqb a backslash_char).
  - destruct s1 as [|e s2]; [done|]. destruct (Ascii.eqb e "u").
    + destruct s2 as [|a1 [|a2 [|a3 [|a4 s3]]]]; try done.
      destruct (hex4 a1 a2 a3 a4); [|done]. apply Hsub. simpl. lia.
    + destruct (unescape e); [|done]. apply Hsub. simpl. lia.
  - destruct (code a <? 32)%nat; [done|]. apply Hsub. simpl. lia.
Qed.

Lemma expect_length (w s r : string) (v v' : json) :
  expect w s v = Some (v', r) -> (String.length r <= String.length s)%nat.
Proof. unfold expect. destruct (startsWith w s); [|done]. intros [= _ <-]. apply slice_length. Qed.

Lemma rest_inj {A} (x y : A) (r r' : string) : Some (x, r) = Some (y, r') -> r' = r.
Proof. congruence. Qed.

(** Decompose a successful parse into its parts; the lengths of what each part
    leaves go to [lia]. *)
Ltac parse_lengths :=
  repeat match goal with
  | H : (_ <$> ?x) = Some _ |- _ =>
      destruct x as [[? ?]|] eqn:?; [cbn [fmap option_fmap option_map fst snd] in H|discriminate H]
  | H : (if ?b then _ else _) = Some _ |- _ => destruct b
  | H : Some (_, _) = Some (_, _) |- _ => apply rest_inj in H; subst
  | H : None = Some _ |- _ => discriminate H
  | H : skip_ws _ = String _ _ |- _ => apply skip_ws_cons_length in H
  | H : parse_chars _ = Some _ |- _ => apply parse_chars_length in H
  | H : expect _ _ _ = Some _ |- _ => apply expect_length in H
  | H : match skip_ws ?s with _ => _ end = Some _ |- _ => destruct (skip_ws s) eqn:?
  | H : match parse_chars ?s with _ => _ end = Some _ |- _ => destruct (parse_chars s) as [[? ?]|] eqn:?
  | H : match parse_value ?n ?s with _ => _ end = Some _ |- _ =>
      destruct (parse_value n s) as [[? ?]|] eqn:?
  end.

Ltac lengths_by IHv IHe IHm :=
  repeat match goal with
  | H : parse_value _ _ = Some _ |- _ => apply IHv in H
  | H : parse_elements _ _ = Some _ |- _ => apply IHe in H
  | H : parse_members _ _ = Some _ |- _ => apply IHm in H
  end; cbn [String.length] in *; lia.

Lemma rest_length (n : nat) :
  (forall s v r, parse_value n s = Some (v, r) -> (String.length r <= String.length s)%nat) /\
  (forall s l r, parse_elements n s = Some (l, r) -> (String.length r <= String.length s)%nat) /\
  (forall s l r, parse_members n s = Some (l, r) -> (String.length r <= String.length s)%nat).
Proof.
  induction n as [|n (IHv & IHe & IHm)]; [split_and!; intros ???; done|]. split_and!.
  - intros s v r H. cbn [parse_value] in H. cbv zeta in H.
    destruct (skip_ws s) as [|a r0] eqn:E; [done|].
    pose proof (slice_length 1 (skip_ws r0)). pose proof (skip_ws_length r0).
    pose proof (span_length num_char (String a r0)).
    parse_lengths; lengths_by IHv IHe IHm.
  - intros s l r H. cbn [parse_elements] in H. parse_lengths; lengths_by IHv IHe IHm.
  - intros s l r H. cbn [parse_members] in H. parse_lengths; lengths_by IHv IHe IHm.
Qed.

(** From the bound on, more fuel changes nothing: neither a value nor a
    refusal is a matter of fuel. *)
Lemma parse_fuel (n : nat) :
  (forall (s : string) (m : nat), (2 * String.length s < n)%nat -> (n <= m)%nat -> parse_value m s = parse_value n s) /\
  (forall (s : string) (m : nat), (2 * String.length s + 1 < n)%nat -> (n <= m)%nat ->
     parse_elements m s = parse_elements n s) /\
  (forall (s : string) (m : nat), (2 * String.length s + 1 < n)%nat -> (n <= m)%nat ->
     parse_members m s = parse_members n s).
Proof.
  induction n as [|n (IHv & IHe & IHm)]; [split_and!; intros; lia|].
  split_and!; intros s [|m] Hs Hm; try lia.
  - cbn [parse_value]. destruct (skip_ws s) as [|a r] eqn:E; [done|].
    apply skip_ws_cons_length in E. by rewrite IHm, IHe by lia.
  - cbn [parse_elements]. rewrite IHv by lia.
    destruct (parse_value n s) as [[v r]|] eqn:Ev; [|done]. apply rest_length in Ev.
    destruct (skip_ws r) as [|c r'] eqn:E; [done|]. apply skip_ws_cons_length in E.
    by rewrite IHe by lia.
  - cbn [parse_members]. destruct (skip_ws s) as [|q r0] eqn:E0; [done|].
    apply skip_ws_cons_length in E0. destruct (Ascii.eqb q quote_char); [|done].
    destruct (parse_chars r0) as [[k r1]|] eqn:Ek; [|done]. apply parse_chars_length in Ek.
    destruct (skip_ws r1) as [|c r2] eqn:E1; [done|]. apply skip_ws_cons_length in E1.
    rewrite IHv by lia. destruct (Ascii.eqb c ":"); [|done].
    destruct (parse_value n r2) as [[v r3]|] eqn:Ev; [|done]. apply rest_length in Ev.
    destruct (skip_ws r3) as [|d r4] eqn:E3; [done|]. apply skip_ws_cons_length in E3.
    by rewrite IHm by lia.
Qed.

Lemma json_parse_fuel (text : string) (fuel : nat) :
  (2 * String.length text < fuel)%nat ->
  json_parse text = match parse_value fuel text with
                    | Some (v, r) => if is_empty (skip_ws r) then Some v else None
                    | None => None
                    end.
Proof.
  intros H. unfold json_parse.
  by rewrite (proj1 (parse_fuel (S (2 * String.length text))) text fuel) by lia.
Qed.
