(* ===== verification/SessionLog.v ===== *)
(** * The session tree as a log

    What every session storage promises (packages/agent/src/harness/types.ts
    and the functions memory-storage.ts and jsonl-storage.ts share): a session
    is the list of its entries, oldest first. The index by id, the label cache
    and the active leaf are functions of that list, and so is the path from an
    entry to the root. [EntryView] is what a storage reads of an entry, so that
    the same functions run on typed entries and on parsed JSON objects. *)

From Stdlib Require Import String ZArith Lia.
From stdpp Require Import base list option strings gmap sets.
From S2P Require Import Prelude JsString JsValue Json.

Open Scope string_scope.

(** ** Errors *)

Inductive SessionErrorCode : Type :=
| not_found
| invalid_session
| invalid_entry
| invalid_fork_target
| storage_error
| unknown.

#[export] Instance SessionErrorCode_eq_dec : EqDecision SessionErrorCode.
Proof. solve_decision. Defined.

Record SessionError : Type := {
  err_code : SessionErrorCode;
  err_message : string;
}.

Definition session_error (c : SessionErrorCode) (m : string) : SessionError :=
  {| err_code := c; err_message := m |}.

Definition entry_missing (c : SessionErrorCode) (id : string) : SessionError :=
  session_error c ("Entry " ++ id ++ " not found").

(** ** Entries *)

Inductive EntryBody : Type :=
| MessageEntry (message : json)
| ThinkingLevelChangeEntry (thinkingLevel : string)
| ModelChangeEntry (provider modelId : string)
| ActiveToolsChangeEntry (activeToolNames : list string)
| CompactionEntry (summary firstKeptEntryId : string) (tokensBefore : Z) (details : option json)
    (fromHook : option bool)
| BranchSummaryEntry (fromId summary : string) (details : option json) (fromHook : option bool)
| CustomEntry (customType : string) (data : option json)
| CustomMessageEntry (customType : string) (content : json) (display : bool) (details : option json)
| LabelEntry (targetId : string) (label : option string)
| SessionInfoEntry (name : option string)
| LeafEntry (target : option string).

Record SessionTreeEntry : Type := {
  id : string;
  parentId : option string;
  timestamp : string;
  body : EntryBody;
}.

Definition body_type (b : EntryBody) : string :=
  match b with
  | MessageEntry _ => "message"
  | ThinkingLevelChangeEntry _ => "thinking_level_change"
  | ModelChangeEntry _ _ => "model_change"
  | ActiveToolsChangeEntry _ => "active_tools_change"
  | CompactionEntry _ _ _ _ _ => "compaction"
  | BranchSummaryEntry _ _ _ _ => "branch_summary"
  | CustomEntry _ _ => "custom"
  | CustomMessageEntry _ _ _ _ => "custom_message"
  | LabelEntry _ _ => "label"
  | SessionInfoEntry _ => "session_info"
  | LeafEntry _ => "leaf"
  end.

(** What the storages read of an entry, and how a session makes one. *)
Class EntryView (E : Type) : Type := {
  entry_id : E -> string;
  entry_parent : E -> option string;
  entry_type : E -> string;
  (** [Some target] of a leaf entry. *)
  entry_leaf_target : E -> option (option string);
  (** Target and label of a label entry. *)
  entry_label : E -> option (string * option string);
  entry_make : string -> option string -> string -> EntryBody -> E;
}.

(** The fields of a made entry read back. *)
Class EntryLaws (E : Type) `{EntryView E} : Prop := {
  make_id : forall i p ts b, entry_id (entry_make i p ts b) = i;
  make_parent : forall i p ts b, entry_parent (entry_make i p ts b) = p;
  make_type : forall i p ts b, entry_type (entry_make i p ts b) = body_type b;
  make_leaf_target : forall i p ts b, entry_leaf_target (entry_make i p ts b)
    = match b with LeafEntry t => Some t | _ => None end;
  make_label : forall i p ts b, entry_label (entry_make i p ts b)
    = match b with LabelEntry t l => Some (t, l) | _ => None end;
}.

#[export] Instance typed_entry_view : EntryView SessionTreeEntry := {|
  entry_id := id;
  entry_parent := parentId;
  entry_type e := body_type (body e);
  entry_leaf_target e := match body e with LeafEntry t => Some t | _ => None end;
  entry_label e := match body e with LabelEntry t l => Some (t, l) | _ => None end;
  entry_make i p ts b := {| id := i; parentId := p; timestamp := ts; body := b |};
|}.

#[export] Instance typed_entry_laws : EntryLaws SessionTreeEntry.
Proof. split; done. Qed.

(** ** The functions the storages share *)

Section Log.
Context {E : Type} `{EntryView E}.

(** [label?.trim()], when truthy. *)
Definition trimmed_label (label : option string) : option string :=
  match trim <$> label with
  | Some l => if is_empty l then None else Some l
  | None => None
  end.

Definition updateLabelCache (labelsById : gmap string string) (entry : E) : gmap string string :=
  match entry_label entry with
  | None => labelsById
  | Some (targetId, label) =>
      match trimmed_label label with
      | Some l => <[targetId := l]> labelsById
      | None => delete targetId labelsById
      end
  end.

Definition buildLabelsById (entries : list E) : gmap string string := foldl updateLabelCache ∅ entries.

(** [new Map(entries.map((entry) => [entry.id, entry]))] *)
Definition index_by_id (entries : list E) : gmap string E :=
  foldl (fun m e => <[entry_id e := e]> m) ∅ entries.

Definition leafIdAfterEntry (entry : E) : option string :=
  match entry_leaf_target entry with
  | Some targetId => targetId
  | None => Some (entry_id entry)
  end.

Definition leaf_after_all (entries : list E) : option string :=
  foldl (fun _ e => leafIdAfterEntry e) None entries.

(** Up to 100 eight-character prefixes, then a whole uuid. [uuids i] is the
    i-th uuid of this call. *)
Fixpoint generate_loop (has : string -> bool) (uuids : nat -> string) (i fuel : nat) : string :=
  match fuel with
  | O => uuids i
  | S n =>
      let short := slice_to 8 (uuids i) in
      if negb (has short) then short else generate_loop has uuids (S i) n
  end.

Definition generateEntryId (has : string -> bool) (uuids : nat -> string) : string :=
  generate_loop has uuids 0 100.

(** The [while] of [getPathToRoot]; out of fuel ([None]) stands for a loop
    that has not ended yet. *)
Fixpoint path_loop (get : string -> option E) (fuel : nat) (current : E) (path : list E)
    : option (result SessionError (list E)) :=
  match fuel with
  | O => None
  | S n =>
      match entry_parent current with
      | None => Some (Ok (current :: path))
      | Some p =>
          if is_empty p then Some (Ok (current :: path))
          else match get p with
               | None => Some (Err (entry_missing invalid_session p))
               | Some parent => path_loop get n parent (current :: path)
               end
      end
  end.

Definition path_to_root (get : string -> option E) (fuel : nat) (leafId : option string)
    : option (result SessionError (list E)) :=
  match leafId with
  | None => Some (Ok [])
  | Some i =>
      match get i with
      | None => Some (Err (entry_missing not_found i))
      | Some e => path_loop get fuel e []
      end
  end.

(** The leaf, checked as [getLeafId] does. *)
Definition checked_leaf (get : string -> option E) (leaf : option string)
    : result SessionError (option string) :=
  match leaf with
  | Some i => match get i with
              | Some _ => Ok leaf
              | None => Err (entry_missing invalid_session i)
              end
  | None => Ok leaf
  end.

(** ** Well-formed logs

    Ids are non-empty and distinct; a parent and the target of a leaf entry
    are older entries. *)

Definition ids (l : list E) : list string := map entry_id l.

Inductive wf_log : list E -> Prop :=
| wf_nil : wf_log []
| wf_snoc l e :
    wf_log l -> entry_id e <> EmptyString -> entry_id e ∉ ids l ->
    (forall p, entry_parent e = Some p -> p ∈ ids l) ->
    (forall t, entry_leaf_target e = Some (Some t) -> t ∈ ids l) ->
    wf_log (l ++ [e]).

(** The entries from a root to [i], linked by their parents. *)
Inductive rooted (get : string -> option E) : list E -> string -> Prop :=
| rooted_root e :
    get (entry_id e) = Some e -> entry_parent e = None -> rooted get [e] (entry_id e)
| rooted_step p e q :
    rooted get p q -> q <> EmptyString -> get (entry_id e) = Some e -> entry_parent e = Some q ->
    rooted get (p ++ [e]) (entry_id e).

Definition get_in (l : list E) (i : string) : option E := index_by_id l !! i.

(** ** Lemmas *)

Lemma index_by_id_snoc (l : list E) (e : E) :
  index_by_id (l ++ [e]) = <[entry_id e := e]> (index_by_id l).
Proof. unfold index_by_id. by rewrite foldl_app. Qed.

Lemma get_in_snoc (l : list E) (e : E) (i : string) :
  get_in (l ++ [e]) i = if decide (entry_id e = i) then Some e else get_in l i.
Proof.
  unfold get_in. rewrite index_by_id_snoc. case_decide; [by subst; simplify_map_eq|].
  by rewrite lookup_insert_ne.
Qed.

Lemma ids_snoc (l : list E) (e : E) : ids (l ++ [e]) = (ids l ++ [entry_id e])%list.
Proof. unfold ids. by rewrite map_app. Qed.

Lemma elem_of_ids_snoc (l : list E) (e : E) (i : string) :
  i ∈ ids (l ++ [e]) <-> i ∈ ids l \/ i = entry_id e.
Proof. rewrite ids_snoc, elem_of_app, list_elem_of_singleton. done. Qed.

Lemma get_in_ids (l : list E) (i : string) : is_Some (get_in l i) <-> i ∈ ids l.
Proof.
  induction l as [|e l IH] using rev_ind; [|rewrite elem_of_ids_snoc, <- IH, get_in_snoc].
  - unfold get_in, index_by_id. simpl. rewrite lookup_empty. split; [by intros []|].
    by intros ?%elem_of_nil.
  - case_decide; naive_solver.
Qed.

Lemma get_in_id (l : list E) (i : string) (e : E) : get_in l i = Some e -> entry_id e = i /\ e ∈ l.
Proof.
  induction l as [|x l IH] using rev_ind; [done|]. rewrite get_in_snoc, elem_of_app, list_elem_of_singleton.
  case_decide; naive_solver.
Qed.

Lemma leaf_after_snoc (l : list E) (e : E) : leaf_after_all (l ++ [e]) = leafIdAfterEntry e.
Proof. unfold leaf_after_all. by rewrite foldl_app. Qed.

Lemma labels_snoc (l : list E) (e : E) : buildLabelsById (l ++ [e]) = updateLabelCache (buildLabelsById l) e.
Proof. unfold buildLabelsById. by rewrite foldl_app. Qed.

Lemma wf_snoc_inv (l : list E) (e : E) :
  wf_log (l ++ [e]) ->
  wf_log l /\ entry_id e <> EmptyString /\ (entry_id e ∉ ids l) /\
  (forall p, entry_parent e = Some p -> p ∈ ids l) /\
  ((forall t, entry_leaf_target e = Some (Some t) -> t ∈ ids l)).
Proof.
  intros Hwf. inversion Hwf as [Heq|l' e' ????? Heq].
  - by destruct l.
  - apply app_inj_tail in Heq as [-> ->]. split_and!; done.
Qed.

Lemma wf_prefix (l l' : list E) : wf_log (l ++ l') -> wf_log l.
Proof.
  induction l' as [|e l' IH] using rev_ind; [by rewrite app_nil_r|].
  rewrite app_assoc. intros (Hw & _)%wf_snoc_inv. auto.
Qed.

Lemma wf_nonempty (l : list E) (i : string) : wf_log l -> i ∈ ids l -> i <> EmptyString.
Proof.
  induction 1 as [|l e Hl IH Hne Hf Hp Ht]; [by intros ?%elem_of_nil|].
  rewrite elem_of_ids_snoc. intros [Hi| ->]; auto.
Qed.

Lemma wf_NoDup (l : list E) : wf_log l -> NoDup (ids l).
Proof.
  induction 1 as [|l e Hl IH Hne Hf Hp Ht]; [constructor|]. rewrite ids_snoc.
  apply NoDup_app. split_and!; [done| |apply NoDup_singleton].
  intros i Hi ->%list_elem_of_singleton. done.
Qed.

(** In a well-formed log an id finds the entry that has it. *)
Lemma wf_get (l : list E) (e : E) : wf_log l -> e ∈ l -> get_in l (entry_id e) = Some e.
Proof.
  induction 1 as [|l x Hl IH Hne Hf Hp Ht]; [by intros ?%elem_of_nil|].
  rewrite elem_of_app, list_elem_of_singleton, get_in_snoc. intros [He| ->]; [|by rewrite decide_True].
  rewrite decide_False; [auto|]. intros Hx. apply Hf. rewrite Hx. apply list_elem_of_fmap. eauto.
Qed.

Lemma rooted_ext (l : list E) (e : E) (p : list E) (i : string) :
  entry_id e ∉ ids l -> rooted (get_in l) p i -> rooted (get_in (l ++ [e])) p i.
Proof.
  intros Hf. assert (Hget : forall x, get_in l (entry_id x) = Some x -> get_in (l ++ [e]) (entry_id x) = Some x).
  { intros x Hx. rewrite get_in_snoc. case_decide as Hd; [|done].
    destruct Hf. rewrite Hd. apply get_in_ids. eauto. }
  induction 1; [by apply rooted_root; auto|]. eapply rooted_step; eauto.
Qed.

Lemma rooted_nonnil (get : string -> option E) (p : list E) (i : string) : rooted get p i -> p <> [].
Proof. destruct 1; [done|]. by destruct p. Qed.

(** The loop collects exactly the rooted path, with as much fuel as it is long. *)
Lemma path_loop_rooted (get : string -> option E) (p : list E) (i : string) :
  rooted get p i ->
  forall n acc, (length p <= n)%nat ->
  exists e, get i = Some e /\ path_loop get n e acc = Some (Ok (p ++ acc)%list).
Proof.
  induction 1 as [e He Hp|p e q Hr IH Hq He Hp]; intros n acc Hn.
  - exists e. split; [done|]. destruct n; simpl in Hn; [lia|]. simpl. by rewrite Hp.
  - rewrite length_app in Hn. simpl in Hn. exists e. split; [done|]. destruct n; [lia|].
    cbn [path_loop]. rewrite Hp. destruct q as [|a q]; [done|]. cbn [is_empty].
    destruct (IH n (e :: acc) ltac:(lia)) as (x & -> & ->). by rewrite <- app_assoc.
Qed.

(** Every entry of a well-formed log has a path, no longer than the log. *)
Lemma wf_rooted (l : list E) (i : string) :
  wf_log l -> i ∈ ids l -> exists p, rooted (get_in l) p i /\ (length p <= length l)%nat.
Proof.
  intros Hwf. revert i.
  induction Hwf as [|l e Hl IH Hne Hf Hp Ht]; intros i; [by intros ?%elem_of_nil|].
  rewrite elem_of_ids_snoc, length_app. simpl. intros [Hi| ->].
  - destruct (IH i Hi) as (p & Hr & Hlen). exists p. split; [by apply rooted_ext|lia].
  - assert (Hget : get_in (l ++ [e]) (entry_id e) = Some e) by (rewrite get_in_snoc; by rewrite decide_True).
    destruct (entry_parent e) as [q|] eqn:Eq.    + specialize (Hp q eq_refl). destruct (IH q Hp) as (p & Hr & Hlen). exists (p ++ [e])%list.
      rewrite length_app. simpl. split; [|lia].
      apply rooted_step with q; [by apply rooted_ext|by eapply wf_nonempty|done|done].
    + exists [e]. split; [by apply rooted_root|simpl; lia].
Qed.

Definition log_path (l : list E) (leaf : option string) : option (result SessionError (list E)) :=
  path_to_root (get_in l) (S (length l)) leaf.

Lemma log_path_rooted (l : list E) (p : list E) (i : string) :
  rooted (get_in l) p i -> (length p <= length l)%nat -> log_path l (Some i) = Some (Ok p).
Proof.
  intros Hr Hlen. destruct (path_loop_rooted _ _ _ Hr (S (length l)) [] ltac:(lia)) as (e & He & Hp).
  unfold log_path, path_to_root. rewrite He, Hp. by rewrite app_nil_r.
Qed.

(** A well-formed log has a path to every one of its entries. *)
Lemma log_path_total (l : list E) (i : string) :
  wf_log l -> i ∈ ids l ->
  exists p, log_path l (Some i) = Some (Ok p) /\ rooted (get_in l) p i /\ (length p <= length l)%nat.
Proof.
  intros Hwf Hi. destruct (wf_rooted l i Hwf Hi) as (p & Hr & Hlen). exists p.
  split_and!; [by apply log_path_rooted|done|done].
Qed.

(** Appending an entry leaves the older paths alone. *)
Lemma log_path_snoc_old (l : list E) (e : E) (i : string) :
  wf_log (l ++ [e]) -> i ∈ ids l -> log_path (l ++ [e]) (Some i) = log_path l (Some i).
Proof.
  intros (Hwf & _ & Hf & _ & _)%wf_snoc_inv Hi.
  destruct (log_path_total l i Hwf Hi) as (p & -> & Hr & Hlen).
  apply log_path_rooted; [by apply rooted_ext|]. rewrite length_app. simpl. lia.
Qed.

(** The path of a new entry is its parent's path and itself. *)
Lemma log_path_snoc_new (l : list E) (e : E) (p : list E) :
  wf_log (l ++ [e]) -> log_path l (entry_parent e) = Some (Ok p) ->
  log_path (l ++ [e]) (Some (entry_id e)) = Some (Ok (p ++ [e])%list).
Proof.
  intros (Hwf & _ & Hf & Hp & _)%wf_snoc_inv Hpath.
  assert (Hget : get_in (l ++ [e]) (entry_id e) = Some e) by (rewrite get_in_snoc; by rewrite decide_True).
  destruct (entry_parent e) as [q|] eqn:Eq.
  - specialize (Hp q eq_refl). destruct (log_path_total l q Hwf Hp) as (p' & Hp' & Hr & Hlen).
    rewrite Hp' in Hpath. injection Hpath as ->. apply log_path_rooted.
    + apply rooted_step with q; [by apply rooted_ext|by eapply wf_nonempty|done|done].
    + rewrite !length_app. simpl. lia.
  - cbn in Hpath. injection Hpath as <-. apply log_path_rooted; [by apply rooted_root|].
    rewrite !length_app. simpl. lia.
Qed.

(** A path visits entries of the log in the order of the log, so no id comes
    twice on it. *)
Lemma log_path_sublist (l : list E) (i : string) (p : list E) :
  wf_log l -> log_path l (Some i) = Some (Ok p) -> p `sublist_of` l.
Proof.
  intros Hwf. revert i p. induction Hwf as [|l e Hl IH Hne Hf Hp Ht]; intros i p Hpath.
  - unfold log_path, path_to_root in Hpath. destruct (get_in [] i) eqn:Hg; [|done].
    by apply get_in_id in Hg as [_ ?%elem_of_nil].
  - assert (Hw : wf_log (l ++ [e])) by by constructor.
    destruct (decide (i = entry_id e)) as [->|Hi].
    + destruct (log_path_total (l ++ [e]) (entry_id e) Hw) as (p1 & Hp1 & _).
      { rewrite elem_of_ids_snoc. by right. }
      assert (Hq : exists q, log_path l (entry_parent e) = Some (Ok q) /\ q `sublist_of` l).
      { destruct (entry_parent e) as [j|] eqn:Ej.
        - destruct (log_path_total l j Hl (Hp j eq_refl)) as (q & Hq & _). eauto.
        - exists []. split; [done|apply sublist_nil_l]. }
      destruct Hq as (q & Hq & Hsub). rewrite (log_path_snoc_new _ _ _ Hw Hq) in Hpath.
      injection Hpath as <-. by apply sublist_app.
    + assert (Hil : i ∈ ids l).
      { unfold log_path, path_to_root in Hpath. destruct (get_in (l ++ [e]) i) eqn:Hg; [|done].
        assert (Hin : i ∈ ids (l ++ [e])) by (apply get_in_ids; eauto).
        apply elem_of_ids_snoc in Hin as [Hin|Hin]; done. }
      rewrite log_path_snoc_old in Hpath by done. apply sublist_inserts_r. eauto.
Qed.

Lemma log_path_NoDup (l : list E) (i : option string) (p : list E) :
  wf_log l -> log_path l i = Some (Ok p) -> NoDup (ids p).
Proof.
  destruct i as [i|]; intros Hwf Hp; [|injection Hp as <-; constructor].
  apply log_path_sublist in Hp; [|done]. apply wf_NoDup in Hwf.
  eapply sublist_NoDup; [exact Hwf|]. unfold ids.
  induction Hp as [|x p l Hp IH|x p l Hp IH]; simpl in *; [constructor| |]; apply NoDup_cons in Hwf as [_ Hwf].
  - constructor. auto.
  - constructor. auto.
Qed.

(** The leaf of a well-formed log is an entry of it. *)
Lemma wf_leaf (l : list E) (i : string) : wf_log l -> leaf_after_all l = Some i -> i ∈ ids l.
Proof.
  destruct 1 as [|l e Hl Hne Hf Hp Ht]; [done|]. rewrite leaf_after_snoc, elem_of_ids_snoc.
  unfold leafIdAfterEntry. destruct (entry_leaf_target e) as [t|]; [intros ->; left; by apply Ht|].
  intros [= <-]. by right.
Qed.

Lemma checked_leaf_wf (l : list E) :
  wf_log l -> checked_leaf (get_in l) (leaf_after_all l) = Ok (leaf_after_all l).
Proof.
  intros Hwf. unfold checked_leaf. destruct (leaf_after_all l) as [i|] eqn:Hi; [|done].
  apply wf_leaf, get_in_ids in Hi as [e ->]; done.
Qed.

(** ** Fuel

    A loop that returns at all returns within as many steps as there are
    entries: the number of steps left differs along the chain, so no entry is
    visited twice. *)

Definition ends (get : string -> option E) (n : nat) (e : E) : Prop := path_loop get n e [] <> None.

Lemma path_loop_acc (get : string -> option E) (n : nat) (e : E) (a b : list E) :
  path_loop get n e a <> None -> path_loop get n e b <> None.
Proof.
  revert e a b. induction n as [|n IH]; intros e a b; [done|]. cbn [path_loop].
  destruct (entry_parent e) as [p|]; [|done]. destruct (is_empty p); [done|].
  destruct (get p); [apply IH|done].
Qed.

(** One step of the chain. *)
Definition next (get : string -> option E) (e : E) : option E :=
  match entry_parent e with
  | Some p => if is_empty p then None else get p
  | None => None
  end.

Lemma ends_step (get : string -> option E) (n : nat) (e : E) :
  ends get (S n) e <-> match next get e with Some e' => ends get n e' | None => True end.
Proof.
  unfold ends, next. cbn [path_loop]. destruct (entry_parent e) as [p|]; [|done].
  destruct (is_empty p); [done|]. destruct (get p) as [e'|]; [|done].
  split; apply path_loop_acc.
Qed.

(** The loop from [e] needs exactly [n] steps. *)
Fixpoint exactly (get : string -> option E) (n : nat) (e : E) : Prop :=
  match n with
  | O => False
  | S m => match next get e with Some e' => exactly get m e' | None => m = 0 end
  end.

Lemma exactly_unique (get : string -> option E) (n m : nat) (e : E) :
  exactly get n e -> exactly get m e -> n = m.
Proof.
  revert m e. induction n as [|n IH]; intros [|m] e; try done. simpl.
  destruct (next get e); [eauto|lia].
Qed.

Lemma ends_exactly (get : string -> option E) (n : nat) (e : E) :
  ends get n e -> exists m, (m <= n)%nat /\ exactly get m e.
Proof.
  revert e. induction n as [|n IH]; intros e; [done|]. rewrite ends_step.
  destruct (next get e) as [e'|] eqn:En.
  - intros (m & Hm & Hx)%IH. exists (S m). simpl. rewrite En. split; [lia|done].
  - intros _. exists 1. simpl. rewrite En. split; [lia|done].
Qed.

Lemma exactly_ends (get : string -> option E) (m n : nat) (e : E) :
  exactly get m e -> (m <= n)%nat -> ends get n e.
Proof.
  revert m e. induction n as [|n IH]; intros [|m] e; try done; [lia|]. cbn [exactly].
  rewrite ends_step. destruct (next get e); [|done]. intros Hx Hm. eapply IH; [exact Hx|lia].
Qed.

Lemma chain_visits (get : string -> option E) (l : list E) (n : nat) (e : E) :
  (forall i x, get i = Some x -> x ∈ l) -> e ∈ l -> exactly get n e ->
  exists v, length v = n /\ NoDup v /\ (forall x, x ∈ v -> x ∈ l /\ exists k, (k <= n)%nat /\ exactly get k x).
Proof.
  intros Hget. revert e. induction n as [|n IH]; intros e He; [done|]. cbn [exactly].
  destruct (next get e) as [e'|] eqn:En.
  - intros Hx. assert (He' : e' ∈ l).
    { unfold next in En. destruct (entry_parent e) as [p|]; [|done].
      destruct (is_empty p); [done|]. eauto. }
    destruct (IH e' He' Hx) as (v & Hlen & Hnd & Hv). exists (e :: v).
    assert (Hexe : exactly get (S n) e) by (simpl; by rewrite En).
    split; [simpl; lia|]. split.
    + constructor; [|done]. intros Hin. destruct (Hv e Hin) as (_ & k & Hk & Hk').
      pose proof (exactly_unique _ _ _ _ Hexe Hk'). lia.
    + intros x [->|Hx']%elem_of_cons; [split; [done|]; exists (S n); by split|].
      destruct (Hv x Hx') as (Hxl & k & Hk & Hk'). split; [done|]. exists k. split; [lia|done].
  - intros ->. exists [e]. split; [done|]. split; [apply NoDup_singleton|].
    intros x ->%list_elem_of_singleton. split; [done|]. exists 1. split; [lia|].
    simpl. by rewrite En.
Qed.

(** As much fuel as entries is enough for every path that ends. *)
Lemma log_path_fuel (l : list E) (i : option string) (n : nat) :
  path_to_root (get_in l) n i <> None -> log_path l i <> None.
Proof.
  destruct i as [i|]; [|done]. unfold log_path, path_to_root.
  destruct (get_in l i) as [e|] eqn:He; [|done]. intros (m & Hm & Hx)%ends_exactly.
  apply get_in_id in He as [_ He].
  destruct (chain_visits (get_in l) l m e) as (v & Hlen & Hnd & Hv); try done.
  { intros j x Hj. by apply get_in_id in Hj as [_ ?]. }
  apply (exactly_ends _ m); [done|].
  assert (length v <= length l)%nat; [|lia].
  apply submseteq_length, NoDup_submseteq; [done|]. intros x Hx'. by apply Hv.
Qed.
End Log.
