(* ===== verification/SessionStorage.v ===== *)
(** * Session storages

    The [SessionStorage] interface of packages/agent/src/harness/types.ts as a
    class of operations with its laws, and its in-memory implementation,
    packages/agent/src/harness/session/memory-storage.ts. [StoreCore] is the
    state both implementations keep: the entries and the three caches derived
    from them. The contract is that a storage behaves as its log: the laws give
    every observation as a function of [storage_log] and every update as an
    extension of it. *)

From Stdlib Require Import String ZArith Lia.
From stdpp Require Import base list option strings gmap sets.
From S2P Require Import Prelude JsString JsValue Json SessionLog.

Open Scope string_scope.

(** ** Writes to the file system

    How one write ends: it succeeds, or it fails before the file is touched
    ([None]) or after [written] of its characters reached it. In memory every
    write succeeds. *)
Record FileError : Type := {
  fe_not_found : bool;
  fe_message : string;
}.

Inductive IoOutcome : Type :=
| IoOk
| IoFail (error : FileError) (written : option nat).

(** [getFileSystemResultOrThrow] of repo-utils.ts. *)
Definition getFileSystemResultOrThrow {V : Type} (r : result FileError V) (message : string)
    : result SessionError V :=
  match r with
  | Ok v => Ok v
  | Err e => Err (session_error (if fe_not_found e then not_found else storage_error)
                                (message ++ ": " ++ fe_message e))
  end.

(** ** The shared state *)

Record StoreCore (E : Type) : Type := {
  entries : list E;
  byId : gmap string E;
  labelsById : gmap string string;
  leafId : option string;
}.
Arguments entries {E} _.
Arguments byId {E} _.
Arguments labelsById {E} _.
Arguments leafId {E} _.

Section Core.
Context {E : Type} `{EntryView E}.

(** The constructor's initialisation from the loaded entries. *)
Definition core_of (es : list E) : StoreCore E :=
  {| entries := es; byId := index_by_id es; labelsById := buildLabelsById es;
     leafId := leaf_after_all es |}.

(** The updates of [appendEntry]. *)
Definition push_entry (e : E) (c : StoreCore E) : StoreCore E :=
  {| entries := (entries c ++ [e])%list; byId := <[entry_id e := e]> (byId c);
     labelsById := updateLabelCache (labelsById c) e; leafId := leafIdAfterEntry e |}.

(** The updates of [setLeafId]: the label cache is left alone. *)
Definition push_leaf (e : E) (leaf : option string) (c : StoreCore E) : StoreCore E :=
  {| entries := (entries c ++ [e])%list; byId := <[entry_id e := e]> (byId c);
     labelsById := labelsById c; leafId := leaf |}.

Definition core_has (c : StoreCore E) (i : string) : bool :=
  match byId c !! i with
  | Some _ => true
  | None => false
  end.

Definition core_get (c : StoreCore E) (i : string) : option E := byId c !! i.

Definition core_getLeafId (c : StoreCore E) : result SessionError (option string) :=
  checked_leaf (core_get c) (leafId c).

Definition core_findEntries (type : string) (c : StoreCore E) : list E :=
  List.filter (fun e => String.eqb (entry_type e) type) (entries c).

Definition core_getPathToRoot (leaf : option string) (c : StoreCore E)
    : option (result SessionError (list E)) :=
  path_to_root (core_get c) (S (length (entries c))) leaf.

(** [leafId !== null && !this.byId.has(leafId)] *)
Definition leaf_unknown (leaf : option string) (c : StoreCore E) : option string :=
  match leaf with
  | Some i => if core_has c i then None else Some i
  | None => None
  end.

(** The caches are those of the entries. *)
Definition synced (c : StoreCore E) : Prop := c = core_of (entries c).

Lemma core_of_snoc (es : list E) (e : E) : core_of (es ++ [e]) = push_entry e (core_of es).
Proof. unfold core_of, push_entry. simpl. by rewrite index_by_id_snoc, labels_snoc, leaf_after_snoc. Qed.

Lemma push_entry_synced (e : E) (c : StoreCore E) : synced c -> synced (push_entry e c).
Proof. unfold synced. intros ->. simpl. by rewrite core_of_snoc. Qed.

Lemma push_leaf_entry (e : E) (leaf : option string) (c : StoreCore E) :
  entry_leaf_target e = Some leaf -> entry_label e = None -> push_leaf e leaf c = push_entry e c.
Proof. intros Ht Hl. unfold push_leaf, push_entry, updateLabelCache, leafIdAfterEntry. by rewrite Ht, Hl. Qed.

Lemma core_of_synced (es : list E) : synced (core_of es).
Proof. done. Qed.
End Core.

(** ** The interface *)

Class SessionStorage (S E : Type) `{EntryView E} : Type := {
  storage_log : S -> list E;
  getLeafId : S -> result SessionError (option string);
  setLeafId : IoOutcome -> option string -> (nat -> string) -> string -> S ->
              result SessionError unit * S;
  createEntryId : (nat -> string) -> S -> string;
  appendEntry : IoOutcome -> E -> S -> result SessionError unit * S;
  getEntry : string -> S -> option E;
  findEntries : string -> S -> list E;
  getLabel : string -> S -> option string;
  getPathToRoot : option string -> S -> option (result SessionError (list E));
  getEntries : S -> list E;
}.

(** The leaf entry [setLeafId] records. *)
Definition leaf_entry {E} `{EntryView E} (l : list E) (uuids : nat -> string) (now : string)
    (leaf : option string) : E :=
  entry_make (generateEntryId (fun i => bool_decide (i ∈ ids l)) uuids) (leaf_after_all l) now
    (LeafEntry leaf).

Class StorageLaws (S E : Type) `{SessionStorage S E} : Type := {
  storage_ok : S -> Prop;
  law_getEntries : forall s, storage_ok s -> getEntries s = storage_log s;
  law_getEntry : forall s i, storage_ok s -> getEntry i s = get_in (storage_log s) i;
  law_findEntries : forall s t, storage_ok s ->
    findEntries t s = List.filter (fun e => String.eqb (entry_type e) t) (storage_log s);
  law_getLabel : forall s i, storage_ok s -> getLabel i s = buildLabelsById (storage_log s) !! i;
  law_getLeafId : forall s, storage_ok s ->
    getLeafId s = checked_leaf (get_in (storage_log s)) (leaf_after_all (storage_log s));
  law_getPathToRoot : forall s i, storage_ok s -> getPathToRoot i s = log_path (storage_log s) i;
  law_createEntryId : forall s uuids, storage_ok s ->
    createEntryId uuids s = generateEntryId (fun i => bool_decide (i ∈ ids (storage_log s))) uuids;
  (** An append adds the entry or, when the write fails, leaves the log. *)
  law_appendEntry : forall s io e r s', storage_ok s -> appendEntry io e s = (r, s') ->
    storage_ok s' /\ (io = IoOk -> r = Ok tt) /\
    storage_log s' = match r with Ok _ => (storage_log s ++ [e])%list | Err _ => storage_log s end;
  (** Moving the leaf fails on an unknown entry, else records a leaf entry. *)
  law_setLeafId : forall s io leaf uuids now r s', storage_ok s ->
    setLeafId io leaf uuids now s = (r, s') ->
    storage_ok s' /\
    (io = IoOk -> (forall i, leaf = Some i -> i ∈ ids (storage_log s)) -> r = Ok tt) /\
    (forall i, leaf = Some i -> i ∉ ids (storage_log s) ->
       r = Err (entry_missing not_found i) /\ s' = s) /\
    storage_log s' = match r with
                     | Ok _ => (storage_log s ++ [leaf_entry (storage_log s) uuids now leaf])%list
                     | Err _ => storage_log s
                     end;
}.

(** ** memory-storage.ts *)

Record SessionMetadata : Type := {
  md_id : string;
  md_createdAt : string;
}.

Record InMemorySessionStorage (E : Type) : Type := {
  metadata : SessionMetadata;
  core : StoreCore E;
}.
Arguments metadata {E} _.
Arguments core {E} _.

Section InMemory.
Context {E : Type} `{EntryView E}.

(** The constructor; [default_metadata] is the fresh id and the current time. *)
Definition newInMemoryStorage (given : option (list E)) (md : option SessionMetadata)
    (default_metadata : SessionMetadata) : result SessionError (InMemorySessionStorage E) :=
  let c := core_of (default [] given) in
  match leaf_unknown (leafId c) c with
  | Some i => Err (entry_missing invalid_session i)
  | None => Ok {| metadata := default default_metadata md; core := c |}
  end.

Definition with_core (s : InMemorySessionStorage E) (c : StoreCore E) : InMemorySessionStorage E :=
  {| metadata := metadata s; core := c |}.

Definition mem_getLeafId (s : InMemorySessionStorage E) := core_getLeafId (core s).

Definition mem_createEntryId (uuids : nat -> string) (s : InMemorySessionStorage E) : string :=
  generateEntryId (core_has (core s)) uuids.

Definition mem_setLeafId (leaf : option string) (uuids : nat -> string) (now : string)
    (s : InMemorySessionStorage E) : result SessionError unit * InMemorySessionStorage E :=
  match leaf_unknown leaf (core s) with
  | Some i => (Err (entry_missing not_found i), s)
  | None =>
      let entry := entry_make (generateEntryId (core_has (core s)) uuids) (leafId (core s)) now
                     (LeafEntry leaf) in
      (Ok tt, with_core s (push_leaf entry leaf (core s)))
  end.

Definition mem_appendEntry (entry : E) (s : InMemorySessionStorage E)
    : result SessionError unit * InMemorySessionStorage E :=
  (Ok tt, with_core s (push_entry entry (core s))).

Definition mem_getEntry (i : string) (s : InMemorySessionStorage E) : option E := core_get (core s) i.
Definition mem_findEntries (type : string) (s : InMemorySessionStorage E) : list E :=
  core_findEntries type (core s).
Definition mem_getLabel (i : string) (s : InMemorySessionStorage E) : option string :=
  labelsById (core s) !! i.
Definition mem_getPathToRoot (leaf : option string) (s : InMemorySessionStorage E) :=
  core_getPathToRoot leaf (core s).
Definition mem_getEntries (s : InMemorySessionStorage E) : list E := entries (core s).

#[export] Instance in_memory_storage : SessionStorage (InMemorySessionStorage E) E := {|
  storage_log s := entries (core s);
  getLeafId := mem_getLeafId;
  setLeafId _ := mem_setLeafId;
  createEntryId := mem_createEntryId;
  appendEntry _ := mem_appendEntry;
  getEntry := mem_getEntry;
  findEntries := mem_findEntries;
  getLabel := mem_getLabel;
  getPathToRoot := mem_getPathToRoot;
  getEntries := mem_getEntries;
|}.
End InMemory.

(** ** The laws of a core whose caches are in step *)

Section CoreLaws.
Context {E : Type} `{EntryLaws E}.

Lemma core_get_synced (c : StoreCore E) (i : string) : synced c -> core_get c i = get_in (entries c) i.
Proof. unfold synced. intros ->. done. Qed.

Lemma core_has_synced (c : StoreCore E) (i : string) :
  synced c -> core_has c i = bool_decide (i ∈ ids (entries c)).
Proof.
  intros Hs. pose proof (core_get_synced c i Hs) as Hg. unfold core_get in Hg. unfold core_has.
  rewrite Hg. symmetry. case_bool_decide as Hi; rewrite <- get_in_ids in Hi.
  - by destruct Hi as [e ->].
  - destruct (get_in (entries c) i); [exfalso; eauto|done].
Qed.

Lemma generateEntryId_ext (f g : string -> bool) (uuids : nat -> string) :
  (forall i, f i = g i) -> generateEntryId f uuids = generateEntryId g uuids.
Proof.
  intros Hfg. unfold generateEntryId. generalize 0 at 1 3. generalize 100.
  intros n. induction n as [|n IH]; intros i; simpl; [done|]. by rewrite Hfg, IH.
Qed.

Lemma core_path_synced (c : StoreCore E) (i : option string) :
  synced c -> core_getPathToRoot i c = log_path (entries c) i.
Proof. unfold synced. intros ->. done. Qed.

Lemma core_leaf_synced (c : StoreCore E) :
  synced c -> core_getLeafId c = checked_leaf (get_in (entries c)) (leaf_after_all (entries c)).
Proof. unfold synced. intros ->. done. Qed.

Lemma core_label_synced (c : StoreCore E) (i : string) :
  synced c -> labelsById c !! i = buildLabelsById (entries c) !! i.
Proof. unfold synced. intros ->. done. Qed.

Lemma core_leaf_entry (c : StoreCore E) (uuids : nat -> string) (now : string) (leaf : option string) :
  synced c ->
  entry_make (generateEntryId (core_has c) uuids) (leafId c) now (LeafEntry leaf)
    = leaf_entry (entries c) uuids now leaf.
Proof.
  intros Hs. unfold leaf_entry. f_equal; [|unfold synced in Hs; by rewrite Hs].
  apply generateEntryId_ext. intros i. by apply core_has_synced.
Qed.

Lemma leaf_unknown_synced (c : StoreCore E) (leaf : option string) :
  synced c ->
  match leaf_unknown leaf c with
  | Some i => leaf = Some i /\ (i ∉ ids (entries c))
  | None => forall i, leaf = Some i -> i ∈ ids (entries c)
  end.
Proof.
  intros Hs. unfold leaf_unknown. destruct leaf as [i|]; [|done]. rewrite core_has_synced by done.
  case_bool_decide; [by intros ? [= <-]|done].
Qed.

Lemma push_made_leaf (c : StoreCore E) (i : string) (p : option string) (now : string) (leaf : option string) :
  push_leaf (entry_make i p now (LeafEntry leaf)) leaf c = push_entry (entry_make i p now (LeafEntry leaf)) c.
Proof. apply push_leaf_entry; [apply make_leaf_target|apply make_label]. Qed.

#[export] Instance in_memory_laws : StorageLaws (InMemorySessionStorage E) E.
Proof.
  refine {| storage_ok s := synced (core s) |}; simpl; try done.
  - intros s i. apply core_get_synced.
  - intros s i. apply core_label_synced.
  - intros s. apply core_leaf_synced.
  - intros s i. apply core_path_synced.
  - intros s uuids Hs. apply generateEntryId_ext. intros i. by apply core_has_synced.
  - intros s io e r s' Hs [= <- <-]. simpl. split_and!; [by apply push_entry_synced|done|done].
  - intros s io leaf uuids now r s' Hs. unfold mem_setLeafId.
    pose proof (leaf_unknown_synced (core s) leaf Hs) as Hu.
    destruct (leaf_unknown leaf (core s)) as [i|].
    + destruct Hu as [-> Hi]. intros [= <- <-]. split_and!; [done| | |done].
      * intros _ Hin. destruct Hi. by apply Hin.
      * intros j [= <-] _. done.
    + rewrite push_made_leaf, core_leaf_entry by done. intros [= <- <-].
      simpl. split_and!; [by apply push_entry_synced|done| |done].
      intros i -> Hi. destruct Hi. by apply Hu.
Defined.
End CoreLaws.
