(* ===== verification/SessionContext.v ===== *)
(** * The context of a session

    [buildSessionContext] of packages/agent/src/harness/session/session.ts and
    the message constructors of packages/agent/src/harness/messages.ts it calls:
    from the entries of a branch, oldest first, to the messages, the thinking
    level, the model and the tools the agent continues with. [dateMs] is the
    language's [new Date(timestamp).getTime()]. *)

From Stdlib Require Import String ZArith Lia.
From stdpp Require Import base list option strings gmap sets.
From S2P Require Import Prelude JsString JsValue Json SessionLog.

Open Scope string_scope.

(** ** Messages *)

Inductive AgentMessage : Type :=
| Stored (message : json)
| CustomMessage (customType : string) (content : json) (display : bool) (details : option json)
    (timestamp : jsnum)
| BranchSummaryMessage (summary fromId : string) (timestamp : jsnum)
| CompactionSummaryMessage (summary : string) (tokensBefore : Z) (timestamp : jsnum).

Record SessionContext : Type := {
  messages : list AgentMessage;
  thinkingLevel : string;
  model : option (string * string);
  activeToolNames : option (list string);
}.

(** Provider and model of an assistant message. *)
Definition assistant_model (message : json) : option (string * string) :=
  match jstr "role" message, jstr "provider" message, jstr "model" message with
  | Some role, Some provider, Some modelId =>
      if String.eqb role "assistant" then Some (provider, modelId) else None
  | _, _, _ => None
  end.

(** What the first loop collects. *)
Record Scan : Type := {
  sc_thinking : string;
  sc_model : option (string * string);
  sc_tools : option (list string);
  sc_compaction : option SessionTreeEntry;
}.

Definition scan_entry (st : Scan) (entry : SessionTreeEntry) : Scan :=
  match body entry with
  | ThinkingLevelChangeEntry level =>
      {| sc_thinking := level; sc_model := sc_model st; sc_tools := sc_tools st;
         sc_compaction := sc_compaction st |}
  | ModelChangeEntry provider modelId =>
      {| sc_thinking := sc_thinking st; sc_model := Some (provider, modelId);
         sc_tools := sc_tools st; sc_compaction := sc_compaction st |}
  | MessageEntry message =>
      {| sc_thinking := sc_thinking st;
         sc_model := match assistant_model message with Some m => Some m | None => sc_model st end;
         sc_tools := sc_tools st; sc_compaction := sc_compaction st |}
  | ActiveToolsChangeEntry names =>
      {| sc_thinking := sc_thinking st; sc_model := sc_model st; sc_tools := Some names;
         sc_compaction := sc_compaction st |}
  | CompactionEntry _ _ _ _ _ =>
      {| sc_thinking := sc_thinking st; sc_model := sc_model st; sc_tools := sc_tools st;
         sc_compaction := Some entry |}
  | _ => st
  end.

Definition initial_scan : Scan :=
  {| sc_thinking := "off"; sc_model := None; sc_tools := None; sc_compaction := None |}.

Definition scan (pathEntries : list SessionTreeEntry) : Scan := foldl scan_entry initial_scan pathEntries.

Definition is_compaction (e : SessionTreeEntry) : bool := String.eqb (body_type (body e)) "compaction".

(** [findIndex]; -1 is [None]. *)
Fixpoint find_index {A} (p : A -> bool) (l : list A) : option nat :=
  match l with
  | [] => None
  | x :: l' => if p x then Some 0 else S <$> find_index p l'
  end.

Section BuildContext.
Context (dateMs : string -> jsnum).

Definition createCustomMessage (customType : string) (content : json) (display : bool)
    (details : option json) (ts : string) : AgentMessage :=
  CustomMessage customType content display details (dateMs ts).

Definition createBranchSummaryMessage (summary fromId ts : string) : AgentMessage :=
  BranchSummaryMessage summary fromId (dateMs ts).

Definition createCompactionSummaryMessage (summary : string) (tokensBefore : Z) (ts : string) : AgentMessage :=
  CompactionSummaryMessage summary tokensBefore (dateMs ts).

(** What [appendMessage] pushes for one entry. *)
Definition render (entry : SessionTreeEntry) : list AgentMessage :=
  match body entry with
  | MessageEntry m => [Stored m]
  | CustomMessageEntry customType content display details =>
      [createCustomMessage customType content display details (timestamp entry)]
  | BranchSummaryEntry fromId summary _ _ =>
      if is_empty summary then [] else [createBranchSummaryMessage summary fromId (timestamp entry)]
  | _ => []
  end.

(** The loop before the compaction entry: nothing until the first kept one. *)
Fixpoint kept_messages (firstKeptEntryId : string) (foundFirstKept : bool)
    (l : list SessionTreeEntry) : list AgentMessage :=
  match l with
  | [] => []
  | entry :: rest =>
      let found := foundFirstKept || String.eqb (id entry) firstKeptEntryId in
      ((if found then render entry else []) ++ kept_messages firstKeptEntryId found rest)%list
  end.

(** The messages once a compaction entry was found. [findIndex] finds it, as
    it is an entry of the path; -1 would make the second loop start at 0. *)
Definition compacted_messages (pathEntries : list SessionTreeEntry) (c : SessionTreeEntry)
    : list AgentMessage :=
  match body c with
  | CompactionEntry summary firstKeptEntryId tokensBefore _ _ =>
      let compactionIdx := find_index (fun e => is_compaction e && String.eqb (id e) (id c)) pathEntries in
      let before := match compactionIdx with Some i => take i pathEntries | None => [] end in
      let after := match compactionIdx with Some i => drop (S i) pathEntries | None => pathEntries end in
      (createCompactionSummaryMessage summary tokensBefore (timestamp c)
       :: kept_messages firstKeptEntryId false before ++ concat (map render after))%list
  | _ => []
  end.

Definition buildSessionContext (pathEntries : list SessionTreeEntry) : SessionContext :=
  let st := scan pathEntries in
  {| messages := match sc_compaction st with
                 | Some c => compacted_messages pathEntries c
                 | None => concat (map render pathEntries)
                 end;
     thinkingLevel := sc_thinking st; model := sc_model st; activeToolNames := sc_tools st |}.

(** ** Lemmas *)

Definition path_ids (l : list SessionTreeEntry) : list string := map id l.

(** The entries from the one with id [i] on. *)
Fixpoint from_id (i : string) (l : list SessionTreeEntry) : list SessionTreeEntry :=
  match l with
  | [] => []
  | e :: rest => if String.eqb (id e) i then l else from_id i rest
  end.

Lemma kept_found (i : string) (l : list SessionTreeEntry) :
  kept_messages i true l = concat (map render l).
Proof. induction l as [|e l IH]; simpl; [done|]. by rewrite IH. Qed.

Lemma kept_from (i : string) (l : list SessionTreeEntry) :
  kept_messages i false l = concat (map render (from_id i l)).
Proof.
  induction l as [|e l IH]; simpl; [done|]. destruct (String.eqb (id e) i); simpl; [|done].
  by rewrite kept_found.
Qed.

Lemma scan_snoc (l : list SessionTreeEntry) (e : SessionTreeEntry) : scan (l ++ [e]) = scan_entry (scan l) e.
Proof. unfold scan. by rewrite foldl_app. Qed.

Lemma scan_entry_compaction (st : Scan) (e : SessionTreeEntry) :
  sc_compaction (scan_entry st e) = if is_compaction e then Some e else sc_compaction st.
Proof. by destruct e as [i p ts []]. Qed.

Lemma scan_compaction_app (l l' : list SessionTreeEntry) :
  (forall e, e ∈ l' -> is_compaction e = false) -> sc_compaction (scan (l ++ l')) = sc_compaction (scan l).
Proof.
  induction l' as [|e l' IH] using rev_ind; intros Hl'; [by rewrite app_nil_r|].
  rewrite app_assoc, scan_snoc, scan_entry_compaction, (Hl' e) by (apply elem_of_app; right; left).
  apply IH. intros x Hx. apply Hl', elem_of_app. by left.
Qed.

Lemma scan_no_compaction (l : list SessionTreeEntry) :
  (forall e, e ∈ l -> is_compaction e = false) -> sc_compaction (scan l) = None.
Proof. apply (scan_compaction_app []). Qed.

Lemma find_index_middle {A} (p : A -> bool) (l l' : list A) (x : A) :
  (forall y, y ∈ l -> p y = false) -> p x = true -> find_index p (l ++ x :: l') = Some (length l).
Proof.
  intros Hl Hx. induction l as [|y l IH]; simpl; [by rewrite Hx|].
  rewrite (Hl y) by left. rewrite IH; [done|]. intros z Hz. apply Hl. by right.
Qed.

(** The last compaction entry of a path, the entries before and after it. *)
Lemma compacted_split (before after : list SessionTreeEntry) (c : SessionTreeEntry) :
  is_compaction c = true -> (forall e, e ∈ after -> is_compaction e = false) ->
  id c ∉ path_ids before ->
  messages (buildSessionContext (before ++ c :: after))
    = match body c with
      | CompactionEntry summary firstKeptEntryId tokensBefore _ _ =>
          (createCompactionSummaryMessage summary tokensBefore (timestamp c)
           :: concat (map render (from_id firstKeptEntryId before ++ after)))%list
      | _ => []
      end.
Proof.
  intros Hc Hafter Hid. unfold buildSessionContext. cbn [messages].
  assert (Hs : sc_compaction (scan (before ++ c :: after)) = Some c).
  { change (c :: after) with ([c] ++ after)%list. rewrite app_assoc, scan_compaction_app by done.
    by rewrite scan_snoc, scan_entry_compaction, Hc. }
  rewrite Hs. unfold compacted_messages. destruct (body c); try done.
  rewrite find_index_middle.
  - rewrite take_app_length. rewrite (cons_middle c before after), app_assoc.
    replace (S (length before)) with (length (before ++ [c])%list) by (rewrite length_app; simpl; lia).
    rewrite drop_app_length. by rewrite kept_from, map_app, concat_app.
  - intros e He. apply andb_false_iff. right. apply String.eqb_neq. intros Heq. apply Hid.
    rewrite <- Heq. apply list_elem_of_fmap. eauto.
  - by rewrite Hc, String.eqb_refl.
Qed.

(** The last compaction entry, when there is one. *)
Lemma last_compaction (l : list SessionTreeEntry) :
  (forall e, e ∈ l -> is_compaction e = false) \/
  exists before c after, l = (before ++ c :: after)%list /\ is_compaction c = true /\
    (forall e, e ∈ after -> is_compaction e = false).
Proof.
  induction l as [|e l IH]; [left; by intros ? ?%elem_of_nil|].
  destruct IH as [Hno|(b & c & a & -> & Hc & Ha)].
  - destruct (is_compaction e) eqn:He.
    + right. exists [], e, l. by split_and!.
    + left. intros x [->|Hx]%elem_of_cons; auto.
  - right. exists (e :: b), c, a. by split_and!.
Qed.

(** Entries are added one by one: whatever is not a compaction only adds its
    own message. *)
Lemma context_snoc (l : list SessionTreeEntry) (e : SessionTreeEntry) :
  NoDup (path_ids l) -> is_compaction e = false ->
  messages (buildSessionContext (l ++ [e])) = (messages (buildSessionContext l) ++ render e)%list.
Proof.
  intros Hnd He. destruct (last_compaction l) as [Hno|(b & c & a & -> & Hc & Ha)].
  - unfold buildSessionContext. cbn [messages].
    rewrite !scan_no_compaction; [|done|].
    + rewrite map_app, concat_app. cbn [map concat]. by rewrite app_nil_r.
    + intros x [Hx| ->%list_elem_of_singleton]%elem_of_app; auto.
  - assert (Hid : id c ∉ path_ids b).
    { unfold path_ids in *. rewrite map_app in Hnd. apply NoDup_app in Hnd as (_ & Hd & _).
      intros Hin. apply (Hd _ Hin). left. }
    rewrite <- app_assoc. cbn [app].
    rewrite !compacted_split; [|done|done|done|done| |done].
    + clear -Hc. revert Hc. unfold is_compaction. destruct (body c); intros Hc; try done.
      rewrite !map_app, !concat_app. cbn [map concat app]. by rewrite app_nil_r, <- app_assoc.
    + intros x [Hx| ->%list_elem_of_singleton]%elem_of_app; auto.
Qed.
End BuildContext.

(** ** Properties *)

(** The settings an entry makes. *)
Definition thinking_of (e : SessionTreeEntry) : option string :=
  match body e with
  | ThinkingLevelChangeEntry level => Some level
  | _ => None
  end.

Definition model_of (e : SessionTreeEntry) : option (string * string) :=
  match body e with
  | ModelChangeEntry provider modelId => Some (provider, modelId)
  | MessageEntry message => assistant_model message
  | _ => None
  end.

Definition tools_of (e : SessionTreeEntry) : option (list string) :=
  match body e with
  | ActiveToolsChangeEntry names => Some names
  | _ => None
  end.

Lemma last_omap_snoc {A B} (f : A -> option B) (l : list A) (x : A) :
  last (omap f (l ++ [x])%list) = match f x with Some y => Some y | None => last (omap f l) end.
Proof. rewrite omap_app. cbn. destruct (f x); [by rewrite last_snoc|by rewrite app_nil_r]. Qed.

Lemma scan_settings (l : list SessionTreeEntry) :
  sc_thinking (scan l) = default "off" (last (omap thinking_of l)) /\
  sc_model (scan l) = last (omap model_of l) /\ sc_tools (scan l) = last (omap tools_of l).
Proof.
  induction l as [|e l (IH1 & IH2 & IH3)] using rev_ind; [done|].
  rewrite scan_snoc, !last_omap_snoc. unfold scan_entry, thinking_of, model_of, tools_of.
  destruct (body e); try (split_and!; done). by destruct (assistant_model message).
Qed.

(** The context of a branch, for entries with distinct ids. Without
    a compaction it is every message of the branch in order. With one, it is
    the summary of the last compaction, then the messages from the first kept
    entry up to the compaction, then those after it: no message is repeated or
    reordered, and what was compacted away does not come back. The thinking
    level, the model and the tools are the last ones set anywhere on the branch,
    compacted or not. *)
Theorem context_of_branch (dateMs : string -> jsnum) (path : list SessionTreeEntry) :
  NoDup (path_ids path) ->
  let ctx := buildSessionContext dateMs path in
  ((forall e, e ∈ path -> is_compaction e = false) ->
     messages ctx = concat (map (render dateMs) path)) /\
  (forall before c after summary firstKept tokens details hook,
     path = (before ++ c :: after)%list -> body c = CompactionEntry summary firstKept tokens details hook ->
     (forall e, e ∈ after -> is_compaction e = false) ->
     messages ctx = (CompactionSummaryMessage summary tokens (dateMs (timestamp c))
                     :: concat (map (render dateMs) (from_id firstKept before ++ after)%list))) /\
  thinkingLevel ctx = default "off" (last (omap thinking_of path)) /\
  model ctx = last (omap model_of path) /\ activeToolNames ctx = last (omap tools_of path).
Proof.
  intros Hnd ctx. destruct (scan_settings path) as (H1 & H2 & H3). split_and!; [| |done|done|done].
  - intros Hno. unfold ctx, buildSessionContext. cbn [messages]. by rewrite scan_no_compaction.
  - intros before c after summary firstKept tokens details hook -> Hb Ha.
    unfold ctx. rewrite compacted_split; [by rewrite Hb| |done|].
    + unfold is_compaction. by rewrite Hb.
    + unfold path_ids in *. rewrite map_app in Hnd. apply NoDup_app in Hnd as (_ & Hd & _).
      intros Hin. apply (Hd _ Hin). left.
Qed.

Section Sample.
Open Scope list_scope.
Definition sample_entry (i : string) (p : option string) (b : EntryBody) : SessionTreeEntry :=
  {| id := i; parentId := p; timestamp := "2026-01-01T00:00:00.000Z"; body := b |}.

Definition user_message (text : string) : json :=
  JsObj [("role", JsStr "user"); ("content", JsStr text)].

Definition assistant_message (text : string) : json :=
  JsObj [("role", JsStr "assistant"); ("content", JsStr text); ("provider", JsStr "acme");
         ("model", JsStr "m1")].

(** Two messages, the second one kept by a compaction, one message after it. *)
Definition compacted_branch : list SessionTreeEntry :=
  [sample_entry "a" None (MessageEntry (user_message "first"));
   sample_entry "b" (Some "a") (MessageEntry (assistant_message "second"));
   sample_entry "c" (Some "b") (CompactionEntry "sum" "b" 1200 None None);
   sample_entry "d" (Some "c") (MessageEntry (user_message "third"))].
End Sample.

Lemma context_of_branch_witness :
  NoDup (path_ids compacted_branch) /\
  messages (buildSessionContext (fun _ => NumNaN) compacted_branch)
    = [CompactionSummaryMessage "sum" 1200 NumNaN;
       Stored (assistant_message "second"); Stored (user_message "third")] /\
  model (buildSessionContext (fun _ => NumNaN) compacted_branch) = Some ("acme", "m1").
Proof.
  assert (Hnd : NoDup (path_ids compacted_branch))
    by (apply (bool_decide_eq_true_1 _); vm_compute; reflexivity).
  destruct (context_of_branch (fun _ => NumNaN) compacted_branch Hnd) as (_ & Hc & _ & Hm & _).
  split; [exact Hnd|]. split; [|exact Hm].
  refine (Hc (take 2 compacted_branch) (sample_entry "c" (Some "b") (CompactionEntry "sum" "b" 1200 None None))
    (drop 3 compacted_branch) "sum" "b" 1200%Z None None eq_refl eq_refl _).
  intros e ->%list_elem_of_singleton. reflexivity.
Defined.
