(* ===== verification/Session.v ===== *)
(** * Sessions

    The [Session] class of packages/agent/src/harness/session/session.ts over
    any storage that keeps the contract of [StorageLaws]. One operation is given
    the inputs it takes from the outside: how its write ends, the uuids drawn
    during it and the time. *)

From Stdlib Require Import String ZArith Lia.
From stdpp Require Import base list option strings gmap sets relations.
From S2P Require Import Prelude JsString JsValue Json SessionLog SessionStorage SessionContext.

Open Scope string_scope.

Record Inputs : Type := {
  in_io : IoOutcome;
  in_uuids : nat -> string;
  in_now : string;
}.

(** The optional argument of [moveTo]. *)
Record MoveSummary : Type := {
  ms_summary : string;
  ms_details : option json;
  ms_fromHook : option bool;
}.

Section Operations.
Context {S E : Type} `{SessionStorage S E}.

Definition getBranch (fromId : option string) (s : S) : option (result SessionError (list E)) :=
  match fromId with
  | Some i => getPathToRoot (Some i) s
  | None =>
      match getLeafId s with
      | Ok leaf => getPathToRoot leaf s
      | Err e => Some (Err e)
      end
  end.

Definition appendTypedEntry (io : IoOutcome) (entry : E) (s : S) : result SessionError string * S :=
  let '(r, s') := appendEntry io entry s in
  (u <-? r ;; Ok (entry_id entry), s').

(** The entry every append makes: a new id, the current leaf as parent, the
    current time. *)
Definition append_body (inp : Inputs) (b : EntryBody) (s : S) : result SessionError string * S :=
  let i := createEntryId (in_uuids inp) s in
  match getLeafId s with
  | Err e => (Err e, s)
  | Ok leaf => appendTypedEntry (in_io inp) (entry_make i leaf (in_now inp) b) s
  end.

Definition appendMessage (inp : Inputs) (message : json) : S -> result SessionError string * S :=
  append_body inp (MessageEntry message).

Definition appendThinkingLevelChange (inp : Inputs) (level : string) : S -> result SessionError string * S :=
  append_body inp (ThinkingLevelChangeEntry level).

Definition appendModelChange (inp : Inputs) (provider modelId : string)
    : S -> result SessionError string * S := append_body inp (ModelChangeEntry provider modelId).

Definition appendActiveToolsChange (inp : Inputs) (names : list string)
    : S -> result SessionError string * S := append_body inp (ActiveToolsChangeEntry names).

Definition appendCompaction (inp : Inputs) (summary firstKeptEntryId : string) (tokensBefore : Z)
    (details : option json) (fromHook : option bool) : S -> result SessionError string * S :=
  append_body inp (CompactionEntry summary firstKeptEntryId tokensBefore details fromHook).

Definition appendCustomEntry (inp : Inputs) (customType : string) (data : option json)
    : S -> result SessionError string * S := append_body inp (CustomEntry customType data).

Definition appendCustomMessageEntry (inp : Inputs) (customType : string) (content : json)
    (display : bool) (details : option json) : S -> result SessionError string * S :=
  append_body inp (CustomMessageEntry customType content display details).

Definition appendLabel (inp : Inputs) (targetId : string) (label : option string) (s : S)
    : result SessionError string * S :=
  match getEntry targetId s with
  | None => (Err (entry_missing not_found targetId), s)
  | Some _ => append_body inp (LabelEntry targetId label) s
  end.

Definition appendSessionName (inp : Inputs) (name : string) : S -> result SessionError string * S :=
  append_body inp (SessionInfoEntry (Some (trim name))).

(** [moveTo]; [inp] serves the leaf entry, [inp'] the summary entry. *)
Definition moveTo (inp inp' : Inputs) (entryId : option string) (summary : option MoveSummary) (s : S)
    : result SessionError (option string) * S :=
  let unknown := match entryId with
                 | Some i => match getEntry i s with Some _ => None | None => Some i end
                 | None => None
                 end in
  match unknown with
  | Some i => (Err (entry_missing not_found i), s)
  | None =>
      match setLeafId (in_io inp) entryId (in_uuids inp) (in_now inp) s with
      | (Err e, s1) => (Err e, s1)
      | (Ok _, s1) =>
          match summary with
          | None => (Ok None, s1)
          | Some m =>
              let i := createEntryId (in_uuids inp') s1 in
              let '(r, s2) := appendTypedEntry (in_io inp')
                (entry_make i entryId (in_now inp')
                   (BranchSummaryEntry (default "root" entryId) (ms_summary m) (ms_details m) (ms_fromHook m)))
                s1 in
              (i <-? r ;; Ok (Some i), s2)
          end
      end
  end.

(** ** Steps *)

(** The uuids of one operation: their prefixes are non-empty and the whole
    uuid of the last resort is not in use. *)
Definition fresh_uuids (uuids : nat -> string) (l : list E) : Prop :=
  (forall i, slice_to 8 (uuids i) <> EmptyString) /\ uuids 100 ∉ ids l.

(** No operation takes a leaf entry as its body; those come from [moveTo]. *)
Definition not_leaf (b : EntryBody) : Prop := forall t, b <> LeafEntry t.

Inductive session_step (s : S) : S -> Prop :=
| step_append inp b r s' :
    not_leaf b -> fresh_uuids (in_uuids inp) (storage_log s) -> append_body inp b s = (r, s') ->
    session_step s s'
| step_label inp target label r s' :
    fresh_uuids (in_uuids inp) (storage_log s) -> appendLabel inp target label s = (r, s') ->
    session_step s s'
| step_move inp inp' target summary r s' :
    fresh_uuids (in_uuids inp) (storage_log s) ->
    (forall r1 s1, setLeafId (in_io inp) target (in_uuids inp) (in_now inp) s = (r1, s1) ->
       fresh_uuids (in_uuids inp') (storage_log s1)) ->
    moveTo inp inp' target summary s = (r, s') ->
    session_step s s'.
End Operations.

Definition buildContext {S} `{!SessionStorage S SessionTreeEntry} (dateMs : string -> jsnum) (s : S)
    : option (result SessionError SessionContext) :=
  (fun r => path <-? r ;; Ok (buildSessionContext dateMs path)) <$> getBranch None s.

Definition entry_name (e : SessionTreeEntry) : option string :=
  match body e with
  | SessionInfoEntry name => name
  | _ => None
  end.

(** [entries[entries.length - 1]?.name?.trim() || undefined] *)
Definition getSessionName {S} `{!SessionStorage S SessionTreeEntry} (s : S) : option string :=
  trimmed_label (last (findEntries "session_info" s) ≫= entry_name).

(** ** Lemmas *)

Section Laws.
Context {S E : Type} `{StorageLaws S E} `{!EntryLaws E}.

Lemma generate_fresh (has : string -> bool) (uuids : nat -> string) :
  (forall i, slice_to 8 (uuids i) <> EmptyString) -> has (uuids 100) = false ->
  generateEntryId has uuids <> EmptyString /\ has (generateEntryId has uuids) = false.
Proof.
  intros Hne Hlast. unfold generateEntryId.
  assert (Hgen : forall n i, (i + n = 100)%nat ->
    generate_loop has uuids i n <> EmptyString /\ has (generate_loop has uuids i n) = false).
  { induction n as [|n IH]; intros i Hi; cbn [generate_loop].
    - replace i with 100 by lia. split; [|done]. intros E0. apply (Hne 100). by rewrite E0.
    - destruct (has (slice_to 8 (uuids i))) eqn:Eh; cbn [negb]; [apply IH; lia|done]. }
  by apply (Hgen 100 0).
Qed.

(** What a new id and the current leaf give is a well-formed extension. *)
Lemma wf_make (l : list E) (uuids : nat -> string) (p : option string) (now : string) (b : EntryBody) :
  wf_log l -> fresh_uuids uuids l -> (forall i, p = Some i -> i ∈ ids l) ->
  (forall t, b = LeafEntry (Some t) -> t ∈ ids l) ->
  wf_log (l ++ [entry_make (generateEntryId (fun i => bool_decide (i ∈ ids l)) uuids) p now b]).
Proof.
  intros Hwf [Hne Hf] Hp Hb.
  destruct (generate_fresh (fun i => bool_decide (i ∈ ids l)) uuids Hne) as [Hg1 Hg2].
  { by apply bool_decide_eq_false. }
  apply bool_decide_eq_false in Hg2.
  apply wf_snoc; rewrite ?make_id, ?make_parent, ?make_leaf_target; try done.
  intros t Ht. apply Hb. destruct b; naive_solver.
Qed.

(** An append makes one entry at the leaf, or fails and adds nothing. *)
Lemma append_body_spec (inp : Inputs) (b : EntryBody) (s s' : S) (r : result SessionError string) :
  storage_ok s -> wf_log (storage_log s) -> fresh_uuids (in_uuids inp) (storage_log s) -> not_leaf b ->
  append_body inp b s = (r, s') ->
  storage_ok s' /\ wf_log (storage_log s') /\ (in_io inp = IoOk -> is_ok r = true) /\
  match r with
  | Ok i =>
      exists e, e = entry_make i (leaf_after_all (storage_log s)) (in_now inp) b /\
        storage_log s' = (storage_log s ++ [e])%list /\ i ∉ ids (storage_log s)
  | Err _ => storage_log s' = storage_log s
  end.
Proof.
  intros Hok Hwf Hf Hb. unfold append_body.
  rewrite law_getLeafId, law_createEntryId, checked_leaf_wf by done. unfold appendTypedEntry.
  set (e := entry_make _ _ _ _). destruct (appendEntry _ e s) as [r1 s1] eqn:Ea.
  intros [= <- <-]. destruct (law_appendEntry _ _ _ _ _ Hok Ea) as (Hok1 & Hio & Hlog).
  assert (Hw : wf_log (storage_log s ++ [e])).
  { apply wf_make; [done|done|by intros i Hi; apply wf_leaf|]. intros t ->. by destruct (Hb (Some t)). }
  destruct r1 as [[]|err]; simpl.
  - split_and!; [done|by rewrite Hlog|done|]. exists e.
    assert (Hid : entry_id e = generateEntryId (fun i => bool_decide (i ∈ ids (storage_log s))) (in_uuids inp))
      by apply make_id.
    split_and!; [by rewrite Hid|done|]. by apply wf_snoc_inv in Hw as (_ & _ & Hn & _).
  - split_and!; [done|by rewrite Hlog|by intros ?%Hio|done].
Qed.

Lemma append_label_inv (inp : Inputs) (target : string) (label : option string) (s s' : S)
    (r : result SessionError string) :
  appendLabel inp target label s = (r, s') ->
  s' = s \/ append_body inp (LabelEntry target label) s = (r, s').
Proof. unfold appendLabel. destruct (getEntry target s); [by right|]. intros [= _ <-]. by left. Qed.

(** Moving the leaf: not_found for an unknown target and nothing changes; else
    a leaf entry is recorded and, with a summary, a summary entry under the
    target. *)
Lemma moveTo_spec (inp inp' : Inputs) (target : option string) (summary : option MoveSummary)
    (s s' : S) (r : result SessionError (option string)) :
  storage_ok s -> wf_log (storage_log s) -> fresh_uuids (in_uuids inp) (storage_log s) ->
  (forall r1 s1, setLeafId (in_io inp) target (in_uuids inp) (in_now inp) s = (r1, s1) ->
     fresh_uuids (in_uuids inp') (storage_log s1)) ->
  moveTo inp inp' target summary s = (r, s') ->
  storage_ok s' /\ wf_log (storage_log s') /\
  match r with
  | Ok None =>
      summary = None /\
      storage_log s' = (storage_log s ++ [leaf_entry (storage_log s) (in_uuids inp) (in_now inp) target])%list
  | Ok (Some i) =>
      exists m e, summary = Some m /\ e = entry_make i target (in_now inp')
        (BranchSummaryEntry (default "root" target) (ms_summary m) (ms_details m) (ms_fromHook m)) /\
      storage_log s' = (storage_log s ++ [leaf_entry (storage_log s) (in_uuids inp) (in_now inp) target] ++ [e])%list
  | Err _ => exists more, storage_log s' = (storage_log s ++ more)%list
  end.
Proof.
  intros Hok Hwf Hf Hf'. unfold moveTo.
  assert (Hfind : forall i, getEntry i s = None -> i ∉ ids (storage_log s)).
  { intros i. rewrite law_getEntry by done. intros Hn Hi. apply get_in_ids in Hi as [x Hx]. congruence. }
  set (unk := match target with Some i => _ | None => None end).
  destruct unk as [i|] eqn:Eu.
  { intros [= <- <-]. split_and!; [done|done|]. exists []. by rewrite app_nil_r. }
  assert (Ht : forall i, target = Some i -> i ∈ ids (storage_log s)).
  { intros i ->. unfold unk in Eu. destruct (getEntry i s) as [x|] eqn:Eg; [|done].
    rewrite law_getEntry in Eg by done. apply get_in_ids. eauto. }
  clear unk Eu. destruct (setLeafId _ target _ _ s) as [r1 s1] eqn:Es. specialize (Hf' _ _ eq_refl).
  destruct (law_setLeafId _ _ _ _ _ _ _ Hok Es) as (Hok1 & _ & _ & Hlog1).
  destruct r1 as [[]|err]; cycle 1.
  { intros [= <- <-]. split_and!; [done|by rewrite Hlog1|]. exists []. by rewrite app_nil_r. }
  assert (Hw1 : wf_log (storage_log s1)).
  { rewrite Hlog1. apply wf_make; [done|done|by intros i Hi; apply wf_leaf|]. by intros t [= ->]; auto. }
  destruct summary as [m|]; [|intros [= <- <-]; split_and!; done].
  unfold appendTypedEntry. rewrite law_createEntryId by done. set (e := entry_make _ _ _ _).
  destruct (appendEntry _ e s1) as [r2 s2] eqn:Ea. intros [= <- <-].
  destruct (law_appendEntry _ _ _ _ _ Hok1 Ea) as (Hok2 & _ & Hlog2).
  assert (Hw2 : wf_log (storage_log s1 ++ [e])).
  { apply wf_make; [done|done| |done]. intros i Hi. rewrite Hlog1, elem_of_ids_snoc. left. auto. }
  destruct r2 as [[]|err]; simpl; (split; [done|]; split; [by rewrite Hlog2|]).
  - exists m, e. split_and!; [done| |by rewrite Hlog2, Hlog1, <- app_assoc]. unfold e. by rewrite make_id.
  - rewrite Hlog2, Hlog1. eauto.
Qed.

Lemma step_extends (s s' : S) :
  storage_ok s -> wf_log (storage_log s) -> session_step s s' ->
  storage_ok s' /\ wf_log (storage_log s') /\ exists more, storage_log s' = (storage_log s ++ more)%list.
Proof.
  assert (Happ : forall inp b r s', storage_ok s -> wf_log (storage_log s) ->
    fresh_uuids (in_uuids inp) (storage_log s) -> not_leaf b -> append_body inp b s = (r, s') ->
    storage_ok s' /\ wf_log (storage_log s') /\ exists more, storage_log s' = (storage_log s ++ more)%list).
  { intros inp b r s1 Hok Hwf Hf Hb Ha.
    destruct (append_body_spec _ _ _ _ _ Hok Hwf Hf Hb Ha) as (Hx1 & Hx2 & _ & Hx3). split_and!; [done|done|].
    destruct r; [destruct Hx3 as (e & _ & -> & _); eauto|]. exists []. by rewrite Hx3, app_nil_r. }
  intros Hok Hwf Hstep. destruct Hstep as [inp b r s' Hb Hf Ha|inp t lbl r s' Hf Ha|inp inp' t sm r s' Hf Hf' Ha].
  - eauto.
  - apply append_label_inv in Ha as [->|Ha]; [split_and!; [done|done|]; exists []; by rewrite app_nil_r|].
    eapply Happ; eauto. intros t'. discriminate.
  - destruct (moveTo_spec _ _ _ _ _ _ _ Hok Hwf Hf Hf' Ha) as (Hx1 & Hx2 & Hx3). split_and!; [done|done|].
    destruct r as [[i|]|err]; [destruct Hx3 as (m & e & _ & _ & ->)|destruct Hx3 as [_ ->]|done]; eauto.
Qed.

Lemma getBranch_log (s : S) (from : option string) :
  storage_ok s -> wf_log (storage_log s) ->
  getBranch from s = log_path (storage_log s) (match from with Some i => Some i | None => leaf_after_all (storage_log s) end).
Proof.
  intros Hok Hwf. unfold getBranch. rewrite law_getLeafId, checked_leaf_wf by done.
  by destruct from; rewrite law_getPathToRoot.
Qed.

(** The branch of the leaf, always there. *)
Lemma branch_total (s : S) :
  storage_ok s -> wf_log (storage_log s) ->
  exists p, getBranch None s = Some (Ok p) /\ (forall i, leaf_after_all (storage_log s) = Some i -> rooted (get_in (storage_log s)) p i).
Proof.
  intros Hok Hwf. rewrite getBranch_log by done. destruct (leaf_after_all _) as [i|] eqn:Hi.
  - destruct (log_path_total _ i Hwf) as (p & Hp & Hr & _); [by apply wf_leaf|].
    exists p. split; [done|]. by intros j [= <-].
  - exists []. done.
Qed.
End Laws.

Section Runs.
Context {S E : Type} `{StorageLaws S E} `{!EntryLaws E}.

Lemma log_path_app_old (l more : list E) (i : string) :
  wf_log (l ++ more) -> i ∈ ids l -> log_path (l ++ more) (Some i) = log_path l (Some i).
Proof.
  induction more as [|e more IH] using rev_ind; [by rewrite app_nil_r|].
  rewrite app_assoc. intros Hwf Hi. rewrite log_path_snoc_old; [|done|].
  - apply IH; [|done]. by eapply wf_prefix.
  - unfold ids. rewrite map_app. apply elem_of_app. by left.
Qed.

Lemma steps_extend (s s' : S) :
  storage_ok s -> wf_log (storage_log s) -> rtc session_step s s' ->
  storage_ok s' /\ wf_log (storage_log s') /\ exists more, storage_log s' = (storage_log s ++ more)%list.
Proof.
  intros Hok Hwf Hr. induction Hr as [s|s s1 s2 Hs Hr IH].
  - split_and!; [done|done|]. exists []. by rewrite app_nil_r.
  - destruct (step_extends s s1 Hok Hwf Hs) as (Hok1 & Hwf1 & more & Hm).
    destruct (IH Hok1 Hwf1) as (Hok2 & Hwf2 & more' & Hm'). split_and!; [done|done|].
    exists (more ++ more')%list. by rewrite Hm', Hm, app_assoc.
Qed.
End Runs.

(** ** Properties *)

(** Whatever the sequence of session operations (appends of any
    entry, labels, moves with or without summary, writes that fail half-way),
    over any storage that keeps its contract and from any well-formed session:
    the session stays well-formed, no recorded entry is ever lost, reordered or
    changed, the active branch can always be read, and the branch of every
    earlier entry stays what it was, so returning to it finds it again. *)
Theorem session_runs_preserve {S E : Type} `{StorageLaws S E} `{!EntryLaws E} (s s' : S) :
  storage_ok s -> wf_log (storage_log s) -> rtc session_step s s' ->
  wf_log (storage_log s') /\ storage_log s `prefix_of` storage_log s' /\
  (exists branch, getBranch None s' = Some (Ok branch)) /\
  (forall i, i ∈ ids (storage_log s) -> getBranch (Some i) s' = getBranch (Some i) s).
Proof.
  intros Hok Hwf Hr. destruct (steps_extend s s' Hok Hwf Hr) as (Hok' & Hwf' & more & Hm).
  split_and!; [done|by exists more| |].
  - destruct (branch_total s' Hok' Hwf') as (p & Hp & _). eauto.
  - intros i Hi. rewrite !getBranch_log by done. rewrite Hm. apply log_path_app_old; [|done].
    by rewrite <- Hm.
Qed.

(** An append that succeeds puts its entry at the end of the active
    branch and makes it the new leaf, under an id no other entry has; one whose
    write fails leaves the session as it was; without a write failure it
    succeeds. *)
Theorem append_extends_branch {S E : Type} `{StorageLaws S E} `{!EntryLaws E} (inp : Inputs)
    (b : EntryBody) (s s' : S) (r : result SessionError string) (branch : list E) :
  storage_ok s -> wf_log (storage_log s) -> fresh_uuids (in_uuids inp) (storage_log s) -> not_leaf b ->
  getBranch None s = Some (Ok branch) -> append_body inp b s = (r, s') ->
  (in_io inp = IoOk -> is_ok r = true) /\
  match r with
  | Ok i =>
      let e := entry_make i (leaf_after_all (storage_log s)) (in_now inp) b in
      (i ∉ ids (storage_log s)) /\ getLeafId s' = Ok (Some i) /\ getEntry i s' = Some e /\
      getBranch None s' = Some (Ok (branch ++ [e])%list)
  | Err _ => getBranch None s' = Some (Ok branch) /\ getEntries s' = getEntries s
  end.
Proof.
  intros Hok Hwf Hf Hb Hbr Ha.
  destruct (append_body_spec _ _ _ _ _ Hok Hwf Hf Hb Ha) as (Hok' & Hwf' & Hio & Hr).
  split; [done|]. rewrite getBranch_log in Hbr by done. destruct r as [i|err].
  - destruct Hr as (e & -> & Hlog & Hi). cbv zeta. set (e := entry_make _ _ _ _) in *.
    assert (Hid : entry_id e = i) by apply make_id.
    assert (Hleaf : leaf_after_all (storage_log s') = Some i).
    { rewrite Hlog, leaf_after_snoc. unfold leafIdAfterEntry, e. rewrite make_leaf_target, make_id.
      destruct b; try done. by destruct (Hb target). }
    split_and!; [done| | |].
    + rewrite law_getLeafId, checked_leaf_wf by done. by rewrite Hleaf.
    + rewrite law_getEntry, Hlog, get_in_snoc by done. by rewrite decide_True.
    + rewrite getBranch_log, Hleaf, Hlog by done. rewrite <- Hid.
      apply log_path_snoc_new; [by rewrite <- Hlog|]. unfold e. by rewrite make_parent.
  - split; [|by rewrite !law_getEntries by done]. by rewrite getBranch_log, Hr by done.
Qed.

(** Moving to an entry that does not exist is refused and changes
    nothing. A move that succeeds makes the branch of the target the active
    one, and with a summary adds the summary entry under the target; the branch
    that was left keeps its entries, so the move can be undone. *)
Theorem moveTo_switches_branch {S E : Type} `{StorageLaws S E} `{!EntryLaws E} (inp inp' : Inputs)
    (target : option string) (summary : option MoveSummary) (s s' : S)
    (r : result SessionError (option string)) :
  storage_ok s -> wf_log (storage_log s) -> fresh_uuids (in_uuids inp) (storage_log s) ->
  (forall r1 s1, setLeafId (in_io inp) target (in_uuids inp) (in_now inp) s = (r1, s1) ->
     fresh_uuids (in_uuids inp') (storage_log s1)) ->
  moveTo inp inp' target summary s = (r, s') ->
  (forall i, target = Some i -> i ∉ ids (storage_log s) ->
     r = Err (entry_missing not_found i) /\ s' = s) /\
  (forall made, r = Ok made ->
     exists branch, log_path (storage_log s) target = Some (Ok branch) /\
       getBranch None s' = Some (Ok match made, summary with
         | Some i, Some m =>
             (branch ++ [entry_make i target (in_now inp')
                (BranchSummaryEntry (default "root" target) (ms_summary m) (ms_details m) (ms_fromHook m))])%list
         | _, _ => branch
         end)).
Proof.
  intros Hok Hwf Hf Hf' Hmove. split.
  { intros i -> Hi. revert Hmove. unfold moveTo. rewrite law_getEntry by done.
    destruct (get_in _ i) eqn:Eg; [|by intros [= <- <-]]. destruct Hi. apply get_in_ids. eauto. }
  intros made ->. destruct (moveTo_spec _ _ _ _ _ _ _ Hok Hwf Hf Hf' Hmove) as (Hok' & Hwf' & Hr).
  assert (Hleaf : forall l, leaf_after_all (l ++ [leaf_entry (storage_log s) (in_uuids inp) (in_now inp) target])
                            = target).
  { intros l. rewrite leaf_after_snoc. unfold leafIdAfterEntry, leaf_entry. by rewrite make_leaf_target. }
  set (le := leaf_entry _ _ _ _) in *.
  assert (Hw1 : wf_log (storage_log s ++ [le])).
  { destruct made as [i|]; [|by destruct Hr as [_ <-]]. destruct Hr as (m & e & _ & _ & Hlog).
    apply (wf_prefix _ [e]). by rewrite <- app_assoc, <- Hlog. }
  assert (Hp : exists branch, log_path (storage_log s) target = Some (Ok branch) /\
                 log_path (storage_log s ++ [le]) target = Some (Ok branch)).
  { destruct target as [i|]; [|exists []; done].
    assert (Hi : i ∈ ids (storage_log s)).
    { apply wf_snoc_inv in Hw1 as (_ & _ & _ & _ & Ht). apply Ht. unfold le, leaf_entry. by rewrite make_leaf_target. }
    destruct (log_path_total _ i Hwf Hi) as (p & Hp & _). exists p. split; [done|].
    by rewrite log_path_snoc_old. }
  destruct Hp as (branch & Hp1 & Hp2). exists branch. split; [done|].
  rewrite getBranch_log by done. destruct made as [i|].
  - destruct Hr as (m & e & -> & -> & Hlog). set (e := entry_make _ _ _ _) in *.
    assert (Hid : entry_id e = i) by apply make_id. rewrite app_assoc in Hlog.
    assert (Hl : leaf_after_all (storage_log s') = Some (entry_id e)).
    { rewrite Hlog, leaf_after_snoc. unfold leafIdAfterEntry, e. by rewrite make_leaf_target, make_id. }
    rewrite Hl, Hlog. apply log_path_snoc_new; [by rewrite <- Hlog|]. unfold e. by rewrite make_parent.
  - destruct Hr as [_ Hlog]. by rewrite Hlog, Hleaf, Hp2.
Qed.

(** On a session of typed entries the context grows with the
    branch: a successful append of anything but a compaction adds its message,
    if it has one, at the end of the context and leaves the earlier messages;
    a successful compaction replaces the messages before the first kept entry
    by its summary and keeps the rest of the branch. *)
Theorem context_grows {S : Type} `{!SessionStorage S SessionTreeEntry, !StorageLaws S SessionTreeEntry} (dateMs : string -> jsnum)
    (inp : Inputs) (b : EntryBody) (s s' : S) (i : string) (branch : list SessionTreeEntry) :
  storage_ok s -> wf_log (storage_log s) -> fresh_uuids (in_uuids inp) (storage_log s) -> not_leaf b ->
  getBranch None s = Some (Ok branch) -> append_body inp b s = (Ok i, s') ->
  exists ctx', buildContext dateMs s' = Some (Ok ctx') /\
    messages ctx' =
      match b with
      | CompactionEntry summary firstKept tokens _ _ =>
          (CompactionSummaryMessage summary tokens (dateMs (in_now inp))
           :: concat (map (render dateMs) (from_id firstKept branch)))%list
      | _ => (messages (buildSessionContext dateMs branch)
              ++ render dateMs {| id := i; parentId := leaf_after_all (storage_log s);
                                  timestamp := in_now inp; body := b |})%list
      end.
Proof.
  intros Hok Hwf Hf Hb Hbr Ha.
  destruct (append_body_spec _ _ _ _ _ Hok Hwf Hf Hb Ha) as (Hok' & Hwf' & _ & e & He & Hlog & Hi).
  assert (Hb' : getBranch None s' = Some (Ok (branch ++ [e])%list)).
  { rewrite getBranch_log in Hbr |- * by done. rewrite Hlog.
    assert (Hl : leaf_after_all (storage_log s ++ [e]) = Some (entry_id e)).
    { rewrite leaf_after_snoc, He. unfold leafIdAfterEntry. rewrite make_leaf_target.
      destruct b; try done. by destruct (Hb target). }
    rewrite Hl. apply log_path_snoc_new; [by rewrite <- Hlog|]. by rewrite He, make_parent. }
  assert (Hnd : NoDup (path_ids (branch ++ [e]))).
  { rewrite getBranch_log in Hb' by done. by apply (log_path_NoDup (E := SessionTreeEntry)) in Hb'. }
  unfold buildContext. rewrite Hb'. eexists. split; [done|]. rewrite He in *.
  destruct b; try (rewrite context_snoc; [done| |done];
    unfold path_ids in *; rewrite map_app in Hnd; by apply NoDup_app in Hnd as [? _]).
  rewrite (compacted_split dateMs branch []); [|done|by intros ? ?%elem_of_nil|].
  - cbn [body entry_make typed_entry_view timestamp]. by rewrite app_nil_r.
  - unfold path_ids in *. rewrite map_app in Hnd. apply NoDup_app in Hnd as (_ & Hd & _).
    intros Hin. apply (Hd _ Hin). left.
Qed.

(** The last label entry for [i]. *)
Definition last_label {E} `{EntryView E} (l : list E) (i : string) : option (option string) :=
  last (omap (fun e => match entry_label e with
                       | Some (t, lbl) => if String.eqb t i then Some lbl else None
                       | None => None
                       end) l).

Lemma labels_last {E} `{EntryView E} (l : list E) (i : string) :
  buildLabelsById l !! i = last_label l i ≫= trimmed_label.
Proof.
  induction l as [|e l IH] using rev_ind; [done|]. rewrite labels_snoc. unfold last_label.
  rewrite last_omap_snoc. unfold updateLabelCache. destruct (entry_label e) as [[t lbl]|]; [|done].
  destruct (String.eqb_spec t i) as [->|Hne]; cbn [mbind option_bind];
    destruct (trimmed_label lbl) as [x|]; simplify_map_eq; done.
Qed.

(** The label cache is exact. After any run of session operations the
    label of an id is the trimmed text of the last label entry recorded for it,
    on whatever branch, and there is none when that text is missing or blank;
    labelling an unknown entry is refused. *)
Theorem getLabel_last {S E : Type} `{StorageLaws S E} `{!EntryLaws E} (s s' : S) (i : string) :
  storage_ok s -> wf_log (storage_log s) -> rtc session_step s s' ->
  getLabel i s' = last_label (storage_log s') i ≫= trimmed_label /\
  (i ∉ ids (storage_log s') -> forall inp label,
     appendLabel inp i label s' = (Err (entry_missing not_found i), s')).
Proof.
  intros Hok Hwf Hr. destruct (steps_extend s s' Hok Hwf Hr) as (Hok' & Hwf' & _).
  rewrite law_getLabel, labels_last by done. split; [done|]. intros Hi inp label.
  unfold appendLabel. rewrite law_getEntry by done.
  destruct (get_in _ i) eqn:Eg; [|done]. destruct Hi. apply get_in_ids. eauto.
Qed.

(** [getPathToRoot] walks parents until a root. On any entries,
    well-formed or not (a loaded file may hold a cycle): if the walk ends at
    all, it ends within one step per entry, and when it returns a path, the path
    ends in the requested entry and starts at one without a parent. *)
Theorem getPathToRoot_ends {S E : Type} `{StorageLaws S E} (s : S) (i : string) :
  storage_ok s ->
  (forall n, path_to_root (get_in (storage_log s)) n (Some i) <> None -> getPathToRoot (Some i) s <> None) /\
  (forall path, getPathToRoot (Some i) s = Some (Ok path) ->
     (exists e, last path = Some e /\ get_in (storage_log s) i = Some e) /\
     exists root, head path = Some root /\
       (entry_parent root = None \/ entry_parent root = Some EmptyString)).
Proof.
  intros Hok. rewrite law_getPathToRoot by done. split; [intros n; apply log_path_fuel|].
  intros path. unfold log_path, path_to_root. destruct (get_in _ i) as [e|]; [|done].
  assert (Hloop : forall n x acc p, path_loop (get_in (storage_log s)) n x acc = Some (Ok p) ->
    last p = last (x :: acc) /\ exists root, head p = Some root /\
      (entry_parent root = None \/ entry_parent root = Some EmptyString)).
  { induction n as [|n IH]; intros x acc p; [done|]. cbn [path_loop].
    destruct (entry_parent x) as [q|] eqn:Eq; [|intros [= <-]; eauto].
    destruct q as [|a q]; [intros [= <-]; eauto|]. cbn [is_empty].
    destruct (get_in _ _) as [y|]; [|done]. intros Hp. by destruct (IH _ _ _ Hp) as [-> ?]. }
  intros (Hlast & Hroot)%Hloop. split; [|done]. exists e. by rewrite Hlast.
Qed.

(** ** A concrete session *)

Section Demo.
Open Scope list_scope.

(** A distinct uuid for every call. *)
Definition demo_uuids (k : nat) (i : nat) : string :=
  (if (i <? 100)%nat then "u" ++ nat_str k else "full-" ++ nat_str k)%string.

Definition demo_inputs (k : nat) : Inputs :=
  {| in_io := IoOk; in_uuids := demo_uuids k; in_now := "2026-01-01T00:00:00.000Z" |}.

Abbreviation store := (InMemorySessionStorage SessionTreeEntry).

Definition demo_empty : store :=
  {| metadata := {| md_id := "s"; md_createdAt := "t" |}; core := core_of [] |}.

Definition demo_user (k : nat) (text : string) (s : store) : store :=
  snd (appendMessage (demo_inputs k) (user_message text) s).

Definition demo_session : store := demo_user 2 "two" (demo_user 1 "one" demo_empty).

Lemma demo_fresh (k : nat) (l : list SessionTreeEntry) :
  bool_decide (demo_uuids k 100 ∈ ids l) = false -> fresh_uuids (demo_uuids k) l.
Proof.
  intros Hb. split; [|by apply bool_decide_eq_false in Hb].
  intros i. unfold demo_uuids. by destruct (i <? 100)%nat.
Qed.

Lemma demo_not_leaf (text : string) : not_leaf (MessageEntry (user_message text)).
Proof. intros t. discriminate. Qed.

Lemma demo_step (k : nat) (text : string) (s : store) :
  bool_decide (demo_uuids k 100 ∈ ids (storage_log s)) = false -> session_step s (demo_user k text s).
Proof.
  intros Hb. eapply (step_append s (demo_inputs k) (MessageEntry (user_message text)));
    [apply demo_not_leaf|by apply demo_fresh|]. unfold demo_user. apply surjective_pairing.
Qed.

Lemma demo_run : rtc session_step demo_empty demo_session.
Proof.
  eapply rtc_l; [apply (demo_step 1 "one"); reflexivity|].
  eapply rtc_l; [apply (demo_step 2 "two"); reflexivity|]. apply rtc_refl.
Qed.

Lemma demo_empty_ok : storage_ok demo_empty.
Proof. reflexivity. Qed.

Lemma demo_ok : storage_ok demo_session /\ wf_log (storage_log demo_session).
Proof. by destruct (steps_extend demo_empty demo_session demo_empty_ok wf_nil demo_run) as (? & ? & _). Qed.

Lemma session_runs_preserve_witness :
  map id (storage_log demo_session) = ["u1"; "u2"]%string /\ wf_log (storage_log demo_session).
Proof.
  split; [vm_compute; reflexivity|].
  exact (proj1 (session_runs_preserve demo_empty demo_session demo_empty_ok wf_nil demo_run)).
Defined.

Lemma append_extends_branch_witness :
  getBranch None (demo_user 3 "three" demo_session)
    = Some (Ok (storage_log (demo_user 3 "three" demo_session))).
Proof.
  destruct (append_extends_branch (demo_inputs 3) (MessageEntry (user_message "three")) demo_session
    (demo_user 3 "three" demo_session) (Ok "u3"%string) (storage_log demo_session)) as (_ & _ & _ & _ & Hb).
  - apply demo_ok.
  - apply demo_ok.
  - apply demo_fresh. reflexivity.
  - apply demo_not_leaf.
  - vm_compute. reflexivity.
  - vm_compute. reflexivity.
  - exact Hb.
Defined.

Lemma moveTo_switches_branch_witness :
  exists s', moveTo (demo_inputs 3) (demo_inputs 4) (Some "u1"%string) None demo_session = (Ok None, s') /\
    getBranch None s' = Some (Ok (take 1 (storage_log demo_session))).
Proof.
  eexists. split; [vm_compute; reflexivity|].
  edestruct (moveTo_switches_branch (demo_inputs 3) (demo_inputs 4) (Some "u1"%string) None demo_session)
    as [_ Hm].
  - apply demo_ok.
  - apply demo_ok.
  - apply demo_fresh. reflexivity.
  - intros r1 s1 Hs. vm_compute in Hs. injection Hs as <- <-. apply demo_fresh. reflexivity.
  - vm_compute. reflexivity.
  - destruct (Hm None eq_refl) as (branch & Hp & Hb). etransitivity; [exact Hb|].
    vm_compute in Hp. injection Hp as <-. reflexivity.
Defined.

Lemma context_grows_witness :
  exists ctx', buildContext (fun _ => NumNaN) (demo_user 3 "three" demo_session) = Some (Ok ctx') /\
    messages ctx' = map Stored [user_message "one"; user_message "two"; user_message "three"].
Proof.
  edestruct (context_grows (fun _ => NumNaN) (demo_inputs 3) (MessageEntry (user_message "three")) demo_session
    (demo_user 3 "three" demo_session) "u3"%string (storage_log demo_session))
    as (ctx' & Hc & Hm).
  - apply demo_ok.
  - apply demo_ok.
  - apply demo_fresh. reflexivity.
  - apply demo_not_leaf.
  - vm_compute. reflexivity.
  - vm_compute. reflexivity.
  - exists ctx'. split; [exact Hc|]. etransitivity; [exact Hm|]. vm_compute. reflexivity.
Defined.

Lemma getLabel_last_witness :
  getLabel "u1" demo_session = last_label (storage_log demo_session) "u1" ≫= trimmed_label.
Proof. exact (proj1 (getLabel_last demo_empty demo_session "u1" demo_empty_ok wf_nil demo_run)). Defined.

Lemma getPathToRoot_ends_witness : getPathToRoot (Some "u2"%string) demo_session <> None.
Proof.
  apply (proj1 (getPathToRoot_ends demo_session "u2" (proj1 demo_ok)) 2). vm_compute. discriminate.
Defined.
End Demo.
