(* ===== verification/JsonlStorage.v ===== *)
(** * The JSONL session storage

    packages/agent/src/harness/session/jsonl-storage.ts: a session as a file
    of one JSON object per line, a header first. The state holds the content of
    the file next to the in-memory caches, so that what a crash or a failed
    write leaves behind is a state of the model. Entries are parsed JSON
    objects, read through the fields the storage looks at. *)

From Stdlib Require Import Ascii String ZArith Lia.
From stdpp Require Import base list option strings gmap sets pretty relations.
From S2P Require Import Prelude JsString JsValue Json SessionLog SessionStorage Session.

Open Scope string_scope.

Inductive JsonlTailRepair : Type :=
| tail_none
| missing_newline
| torn_tail.

#[export] Instance JsonlTailRepair_eq_dec : EqDecision JsonlTailRepair.
Proof. solve_decision. Defined.

Record SessionHeader : Type := {
  hd_id : string;
  hd_timestamp : string;
  hd_cwd : string;
  hd_parentSession : option string;
}.

Record JsonlSessionMetadata : Type := {
  jm_id : string;
  jm_createdAt : string;
  jm_cwd : string;
  jm_path : string;
  jm_parentSessionPath : option string;
}.

(** ** Entries as JSON objects *)

Definition opt_field (key : string) (v : option json) : list (string * json) :=
  match v with
  | Some x => [(key, x)]
  | None => []
  end.

Definition null_or_str (s : option string) : json :=
  match s with
  | Some x => JsStr x
  | None => JsNull
  end.

(** The fields of an entry literal after [timestamp]; [JSON.stringify] skips
    the undefined ones. *)
Definition body_fields (b : EntryBody) : list (string * json) :=
  match b with
  | MessageEntry m => [("message", m)]
  | ThinkingLevelChangeEntry level => [("thinkingLevel", JsStr level)]
  | ModelChangeEntry provider modelId => [("provider", JsStr provider); ("modelId", JsStr modelId)]
  | ActiveToolsChangeEntry names => [("activeToolNames", JsArr (map JsStr names))]
  | CompactionEntry summary firstKept tokens details hook =>
      [("summary", JsStr summary); ("firstKeptEntryId", JsStr firstKept);
       ("tokensBefore", JsNum (pretty tokens))]
      ++ opt_field "details" details ++ opt_field "fromHook" (JsBool <$> hook)
  | BranchSummaryEntry fromId summary details hook =>
      [("fromId", JsStr fromId); ("summary", JsStr summary)]
      ++ opt_field "details" details ++ opt_field "fromHook" (JsBool <$> hook)
  | CustomEntry customType data => ("customType", JsStr customType) :: opt_field "data" data
  | CustomMessageEntry customType content display details =>
      [("customType", JsStr customType); ("content", content); ("display", JsBool display)]
      ++ opt_field "details" details
  | LabelEntry targetId label => ("targetId", JsStr targetId) :: opt_field "label" (JsStr <$> label)
  | SessionInfoEntry name => opt_field "name" (JsStr <$> name)
  | LeafEntry target => [("targetId", null_or_str target)]
  end%list.

#[export] Instance json_entry_view : EntryView json := {|
  entry_id v := default EmptyString (jstr "id" v);
  entry_parent v := jstr "parentId" v;
  entry_type v := default EmptyString (jstr "type" v);
  entry_leaf_target v :=
    if String.eqb (default EmptyString (jstr "type" v)) "leaf" then Some (jstr "targetId" v) else None;
  entry_label v :=
    if String.eqb (default EmptyString (jstr "type" v)) "label"
    then (fun t => (t, jstr "label" v)) <$> jstr "targetId" v else None;
  entry_make i p ts b :=
    JsObj ([("type", JsStr (body_type b)); ("id", JsStr i); ("parentId", null_or_str p);
            ("timestamp", JsStr ts)] ++ body_fields b);
|}%list.

#[export] Instance json_entry_laws : EntryLaws json.
Proof.
  split; intros i p ts b; try done.
  - by destruct p.
  - destruct b; try done. by destruct target.
  - destruct b; try done. by destruct label.
Qed.

(** ** Loading *)

Section Paths.
Context (filePath : string).

Definition invalidSession (message : string) : SessionError :=
  session_error invalid_session ("Invalid JSONL session file " ++ filePath ++ ": " ++ message).

Definition invalidEntry (lineNumber : nat) (message : string) : SessionError :=
  session_error invalid_entry
    ("Invalid JSONL session file " ++ filePath ++ ": line " ++ nat_str lineNumber ++ " " ++ message).

Definition isRecord (v : json) : bool :=
  match v with
  | JsObj _ | JsArr _ => true
  | _ => false
  end.

(** A non-empty string field. *)
Definition has_text (key : string) (v : json) : option string :=
  match jstr key v with
  | Some s => if is_empty s then None else Some s
  | None => None
  end.

Definition require {A} (x : option A) (e : SessionError) : result SessionError A :=
  match x with
  | Some a => Ok a
  | None => Err e
  end.

Definition guard_that (b : bool) (e : SessionError) : result SessionError unit :=
  if b then Ok tt else Err e.

Definition not_a_header : SessionError := invalidSession "first line is not a valid session header".

Definition parseHeaderLine (line : string) : result SessionError SessionHeader :=
  parsed <-? require (json_parse line) not_a_header ;;
  _ <-? guard_that (isRecord parsed) not_a_header ;;
  _ <-? guard_that (bool_decide (jstr "type" parsed = Some "session")) not_a_header ;;
  _ <-? guard_that (match jget "version" parsed with
                    | Some (JsNum lit) => String.eqb lit "3"
                    | _ => false
                    end) (invalidSession "unsupported session version") ;;
  i <-? require (has_text "id" parsed) (invalidSession "session header is missing id") ;;
  ts <-? require (has_text "timestamp" parsed) (invalidSession "session header is missing timestamp") ;;
  cwd <-? require (has_text "cwd" parsed) (invalidSession "session header is missing cwd") ;;
  _ <-? guard_that (match jget "parentSession" parsed with
                    | None | Some (JsStr _) => true
                    | _ => false
                    end) (invalidSession "session header parentSession must be a string") ;;
  Ok {| hd_id := i; hd_timestamp := ts; hd_cwd := cwd; hd_parentSession := jstr "parentSession" parsed |}.

(** [value[key] === null || typeof value[key] === "string"] *)
Definition null_or_string (key : string) (v : json) : bool :=
  match jget key v with
  | Some JsNull | Some (JsStr _) => true
  | _ => false
  end.

(** The checks of [parseEntryLine] on a parsed line: the message of the first
    that fails. *)
Definition entry_problem (parsed : json) : option string :=
  if negb (isRecord parsed) then Some "is not a valid session entry"
  else match jstr "type" parsed with
  | None => Some "is missing entry type"
  | Some type =>
      match has_text "id" parsed with
      | None => Some "is missing entry id"
      | Some _ =>
          if negb (null_or_string "parentId" parsed) then Some "has invalid parentId"
          else match has_text "timestamp" parsed with
          | None => Some "is missing timestamp"
          | Some _ =>
              if String.eqb type "leaf" && negb (null_or_string "targetId" parsed)
              then Some "has invalid targetId" else None
          end
      end
  end.

Definition parseEntryLine (line : string) (lineNumber : nat) : result SessionError json :=
  match json_parse line with
  | None => Err (invalidEntry lineNumber "is not valid JSON")
  | Some parsed =>
      match entry_problem parsed with
      | Some message => Err (invalidEntry lineNumber message)
      | None => Ok parsed
      end
  end.

Definition ends_with_newline (content : string) : bool := endsWith (String line_feed EmptyString) content.

(** [content.split("\n").filter((line) => line.trim())] *)
Definition content_lines (content : string) : list string :=
  List.filter (fun line => negb (is_empty (trim line))) (split line_feed content).

(** The entry loop from line [i + 1] on: the entries, and whether the last line
    was dropped as torn. *)
Fixpoint load_entries (newline : bool) (lines : list string) (i : nat)
    : result SessionError (list json * bool) :=
  match lines with
  | [] => Ok ([], false)
  | line :: rest =>
      match parseEntryLine line (S i) with
      | Err e =>
          let isIncompleteFinalLine := (length rest =? 0)%nat && negb newline in
          if isIncompleteFinalLine && bool_decide (err_code e = invalid_entry) then Ok ([], true) else Err e
      | Ok entry =>
          more <-? load_entries newline rest (S i) ;;
          Ok (entry :: fst more, snd more)
      end
  end.

Record Loaded : Type := {
  ld_header : SessionHeader;
  ld_entries : list json;
  ld_tailRepair : JsonlTailRepair;
}.

Definition loadJsonlStorage (content : string) : result SessionError Loaded :=
  match content_lines content with
  | [] => Err (invalidSession "missing session header")
  | first :: rest =>
      header <-? parseHeaderLine first ;;
      loaded <-? load_entries (ends_with_newline content) rest 1 ;;
      Ok {| ld_header := header; ld_entries := fst loaded;
            ld_tailRepair := if snd loaded then torn_tail
                             else if negb (ends_with_newline content) then missing_newline
                             else tail_none |}
  end.
End Paths.

Definition headerToSessionMetadata (h : SessionHeader) (path : string) : JsonlSessionMetadata :=
  {| jm_id := hd_id h; jm_createdAt := hd_timestamp h; jm_cwd := hd_cwd h; jm_path := path;
     jm_parentSessionPath := hd_parentSession h |}.

(** [loadJsonlSessionMetadata]: the first line alone. *)
Definition loadJsonlSessionMetadata (filePath : string) (lines : result FileError (list string))
    : result SessionError JsonlSessionMetadata :=
  ls <-? getFileSystemResultOrThrow lines ("Failed to read session header " ++ filePath) ;;
  match ls with
  | line :: _ =>
      if negb (is_empty (trim line))
      then h <-? parseHeaderLine filePath line ;; Ok (headerToSessionMetadata h filePath)
      else Err (invalidSession filePath "missing session header")
  | [] => Err (invalidSession filePath "missing session header")
  end.

(** ** The storage *)

Record JsonlSessionStorage : Type := {
  jl_path : string;
  jl_header : SessionHeader;
  jl_core : StoreCore json;
  jl_tailRepair : JsonlTailRepair;
  (** The content of the file, outside the object. *)
  jl_file : string;
}.

(** [open] throws what loading throws, or a [TypeError] when the label of a
    loaded label entry has no [trim]. *)
Inductive OpenError : Type :=
| Thrown (e : SessionError)
| LabelTypeError.

Definition label_readable (v : json) : bool :=
  if String.eqb (entry_type v) "label"
  then match jget "label" v with
       | None | Some JsNull | Some (JsStr _) => true
       | _ => false
       end
  else true.

Definition openStorage (filePath : string) (content : result FileError string)
    : result OpenError JsonlSessionStorage :=
  match getFileSystemResultOrThrow content ("Failed to read session " ++ filePath) with
  | Err e => Err (Thrown e)
  | Ok text =>
      match loadJsonlStorage filePath text with
      | Err e => Err (Thrown e)
      | Ok ld =>
          if forallb label_readable (ld_entries ld)
          then Ok {| jl_path := filePath; jl_header := ld_header ld; jl_core := core_of (ld_entries ld);
                     jl_tailRepair := ld_tailRepair ld; jl_file := text |}
          else Err LabelTypeError
      end
  end.

(** [writeFile] replaces the content, [appendFile] adds to it. *)
Definition io_result (io : IoOutcome) : result FileError unit :=
  match io with
  | IoOk => Ok tt
  | IoFail e _ => Err e
  end.

Definition write_file (io : IoOutcome) (old data : string) : string :=
  match io with
  | IoOk => data
  | IoFail _ None => old
  | IoFail _ (Some n) => slice_to n data
  end.

Definition append_file (io : IoOutcome) (old data : string) : string :=
  match io with
  | IoOk => old ++ data
  | IoFail _ None => old
  | IoFail _ (Some n) => old ++ slice_to n data
  end.

Definition newline : string := String line_feed EmptyString.

Definition header_json (h : SessionHeader) : json :=
  JsObj ([("type", JsStr "session"); ("version", JsNum "3"); ("id", JsStr (hd_id h));
          ("timestamp", JsStr (hd_timestamp h)); ("cwd", JsStr (hd_cwd h))]
         ++ opt_field "parentSession" (JsStr <$> hd_parentSession h))%list.

Definition createStorage (io : IoOutcome) (filePath cwd sessionId now : string)
    (parentSessionPath : option string) : result SessionError JsonlSessionStorage :=
  let header := {| hd_id := sessionId; hd_timestamp := now; hd_cwd := cwd;
                   hd_parentSession := parentSessionPath |} in
  let data := json_print (header_json header) ++ newline in
  _ <-? getFileSystemResultOrThrow (io_result io) ("Failed to create session " ++ filePath) ;;
  Ok {| jl_path := filePath; jl_header := header; jl_core := core_of []; jl_tailRepair := tail_none;
        jl_file := data |}.

Definition with_file (s : JsonlSessionStorage) (tail : JsonlTailRepair) (file : string) : JsonlSessionStorage :=
  {| jl_path := jl_path s; jl_header := jl_header s; jl_core := jl_core s; jl_tailRepair := tail;
     jl_file := file |}.

Definition jl_with_core (s : JsonlSessionStorage) (c : StoreCore json) : JsonlSessionStorage :=
  {| jl_path := jl_path s; jl_header := jl_header s; jl_core := c; jl_tailRepair := jl_tailRepair s;
     jl_file := jl_file s |}.

(** The text one append adds to a file that is not torn. *)
Definition append_text (tail : JsonlTailRepair) (entry : json) : string :=
  let line := json_print entry ++ newline in
  match tail with
  | missing_newline => newline ++ line
  | _ => line
  end.

(** The whole file a torn one is replaced with. *)
Definition rewrite_text (h : SessionHeader) (es : list json) (entry : json) : string :=
  join newline (map json_print (header_json h :: es)) ++ newline ++ json_print entry ++ newline.

Definition persistEntry (io : IoOutcome) (entry : json) (errorContext : string) (s : JsonlSessionStorage)
    : result SessionError unit * JsonlSessionStorage :=
  let file :=
    match jl_tailRepair s with
    | torn_tail => write_file io (jl_file s) (rewrite_text (jl_header s) (entries (jl_core s)) entry)
    | tail => append_file io (jl_file s) (append_text tail entry)
    end in
  match getFileSystemResultOrThrow (io_result io) errorContext with
  | Err e => (Err e, with_file s (jl_tailRepair s) file)
  | Ok _ => (Ok tt, with_file s tail_none file)
  end.

Definition jsonl_createEntryId (uuids : nat -> string) (s : JsonlSessionStorage) : string :=
  generateEntryId (core_has (jl_core s)) uuids.

Definition jsonl_setLeafId (io : IoOutcome) (leaf : option string) (uuids : nat -> string) (now : string)
    (s : JsonlSessionStorage) : result SessionError unit * JsonlSessionStorage :=
  match leaf_unknown leaf (jl_core s) with
  | Some i => (Err (entry_missing not_found i), s)
  | None =>
      let i := generateEntryId (core_has (jl_core s)) uuids in
      let entry := entry_make i (leafId (jl_core s)) now (LeafEntry leaf) in
      match persistEntry io entry ("Failed to append session leaf " ++ i) s with
      | (Err e, s1) => (Err e, s1)
      | (Ok _, s1) => (Ok tt, jl_with_core s1 (push_leaf entry leaf (jl_core s1)))
      end
  end.

Definition jsonl_appendEntry (io : IoOutcome) (entry : json) (s : JsonlSessionStorage)
    : result SessionError unit * JsonlSessionStorage :=
  match persistEntry io entry ("Failed to append session entry " ++ entry_id entry) s with
  | (Err e, s1) => (Err e, s1)
  | (Ok _, s1) => (Ok tt, jl_with_core s1 (push_entry entry (jl_core s1)))
  end.

Definition jsonl_getMetadata (s : JsonlSessionStorage) : JsonlSessionMetadata :=
  headerToSessionMetadata (jl_header s) (jl_path s).
Definition jsonl_getLeafId (s : JsonlSessionStorage) := core_getLeafId (jl_core s).
Definition jsonl_getEntry (i : string) (s : JsonlSessionStorage) : option json := core_get (jl_core s) i.
Definition jsonl_findEntries (type : string) (s : JsonlSessionStorage) : list json :=
  core_findEntries type (jl_core s).
Definition jsonl_getLabel (i : string) (s : JsonlSessionStorage) : option string :=
  labelsById (jl_core s) !! i.
Definition jsonl_getPathToRoot (leaf : option string) (s : JsonlSessionStorage) :=
  core_getPathToRoot leaf (jl_core s).
Definition jsonl_getEntries (s : JsonlSessionStorage) : list json := entries (jl_core s).

#[export] Instance jsonl_storage : SessionStorage JsonlSessionStorage json := {|
  storage_log s := entries (jl_core s);
  getLeafId := jsonl_getLeafId;
  setLeafId := jsonl_setLeafId;
  createEntryId := jsonl_createEntryId;
  appendEntry := jsonl_appendEntry;
  getEntry := jsonl_getEntry;
  findEntries := jsonl_findEntries;
  getLabel := jsonl_getLabel;
  getPathToRoot := jsonl_getPathToRoot;
  getEntries := jsonl_getEntries;
|}.

(** ** The interface is kept *)

Lemma persistEntry_spec (io : IoOutcome) (e : json) (ctx : string) (s s' : JsonlSessionStorage)
    (r : result SessionError unit) :
  persistEntry io e ctx s = (r, s') -> jl_core s' = jl_core s /\ (io = IoOk -> r = Ok tt).
Proof. unfold persistEntry. destruct io; simpl; by intros [= <- <-]. Qed.

#[export] Instance jsonl_laws : StorageLaws JsonlSessionStorage json.
Proof.
  refine {| storage_ok s := synced (jl_core s) |}; simpl; try done.
  - intros s i. apply core_get_synced.
  - intros s i. apply core_label_synced.
  - intros s. apply core_leaf_synced.
  - intros s i. apply core_path_synced.
  - intros s uuids Hs. apply generateEntryId_ext. intros i. by apply core_has_synced.
  - intros s io e r s' Hs. unfold jsonl_appendEntry.
    destruct (persistEntry io e _ s) as [r1 s1] eqn:Hp. apply persistEntry_spec in Hp as [Hc Hio].
    destruct r1 as [[]|err]; intros [= <- <-]; simpl.
    + rewrite Hc. split_and!; [by apply push_entry_synced|done|done].
    + rewrite Hc. split_and!; [done|by intros ?%Hio|done].
  - intros s io leaf uuids now r s' Hs. unfold jsonl_setLeafId.
    pose proof (leaf_unknown_synced (jl_core s) leaf Hs) as Hu.
    destruct (leaf_unknown leaf (jl_core s)) as [i|].
    + destruct Hu as [-> Hi]. intros [= <- <-]. split_and!; [done| | |done].
      * intros _ Hin. destruct Hi. by apply Hin.
      * intros j [= <-] _. done.
    + cbv zeta. rewrite (core_leaf_entry (jl_core s) uuids now leaf Hs).
      destruct (persistEntry io _ _ s) as [r1 s1] eqn:Hp. apply persistEntry_spec in Hp as [Hc Hio].
      destruct r1 as [[]|err]; intros [= <- <-]; simpl; rewrite Hc.
      * rewrite push_leaf_entry by (by destruct leaf).
        split_and!; [by apply push_entry_synced|done| |done].
        intros i -> Hi. destruct Hi. by apply Hu.
      * split_and!; [done|by intros ?%Hio| |done]. intros i -> Hi. destruct Hi. by apply Hu.
Defined.

(** ** Lines *)

Lemma split_app_sep_any (c : ascii) (a b : string) :
  split c (a ++ String c b) = (split c a ++ split c b)%list.
Proof.
  induction a as [|x a IH]; simpl; [by rewrite Ascii.eqb_refl|].
  destruct (Ascii.eqb x c); [by rewrite IH|]. rewrite IH.
  destruct (split c a) as [|w ws] eqn:Ea; [by apply split_nonnil in Ea|done].
Qed.

Lemma content_lines_sep (a b : string) :
  content_lines (a ++ String line_feed b) = (content_lines a ++ content_lines b)%list.
Proof. unfold content_lines. by rewrite split_app_sep_any, List.filter_app. Qed.

Lemma content_lines_one (s : string) :
  sforall no_lf s = true -> content_lines s = if is_empty (trim s) then [] else [s].
Proof.
  intros H. unfold content_lines. rewrite split_free by (by apply no_lf_free). simpl.
  by destruct (is_empty (trim s)).
Qed.

(** ** Ends of the file *)

Lemma ends_with_app_newline (s : string) : ends_with_newline (s ++ newline) = true.
Proof. induction s as [|a s IH]; [done|]. cbn. unfold ends_with_newline in IH. rewrite IH. apply orb_true_r. Qed.

Lemma ends_with_split (s : string) : ends_with_newline s = true -> exists a, s = a ++ newline.
Proof.
  unfold ends_with_newline. induction s as [|a s IH]; [done|]. cbn [endsWith].
  intros [H|H]%orb_true_iff.
  - apply String.eqb_eq in H. injection H as <- <-. by exists EmptyString.
  - destruct (IH H) as [b ->]. by exists (String a b).
Qed.

Lemma ends_with_no_lf (s p : string) :
  sforall no_lf p = true -> p <> EmptyString -> ends_with_newline (s ++ p) = false.
Proof.
  intros Hp Hne. destruct (ends_with_newline (s ++ p)) eqn:E; [|done]. exfalso.
  apply ends_with_split in E as [a Ha]. revert a Ha. induction s as [|x s IH]; intros a Ha.
  - cbn [String.append] in Ha. subst p. rewrite sforall_app in Hp. breflect. done.
  - destruct a as [|y a]; cbn [String.append] in Ha.
    + injection Ha as _ Ha. by destruct s, p.
    + injection Ha as _ Ha. by apply (IH a).
Qed.

(** A file that ends in a line feed and one that does not, with a text added. *)
Lemma lines_after_newline (file text : string) :
  ends_with_newline file = true ->
  content_lines (file ++ text) = (content_lines file ++ content_lines text)%list.
Proof.
  intros [a ->]%ends_with_split. unfold newline. rewrite app_assoc_str. cbn [String.append].
  rewrite !content_lines_sep. change (content_lines EmptyString) with (@nil string).
  by rewrite app_nil_r.
Qed.

(** ** Entries and their lines *)

(** What [parseEntryLine] accepts and [JSON.stringify] can write. *)
Definition valid_entry (e : json) : Prop := json_ok e = true /\ entry_problem e = None.

Lemma valid_entry_object (e : json) : valid_entry e -> exists fields, e = JsObj fields.
Proof. intros [_ H]. destruct e; try done. eauto. Qed.

Section Load.
Context (path : string).

Lemma parse_valid (e : json) (i : nat) : valid_entry e -> parseEntryLine path (json_print e) i = Ok e.
Proof. intros [Hok Hp]. unfold parseEntryLine. by rewrite json_parse_print, Hp. Qed.

Lemma parse_entry_valid (line : string) (i : nat) (e : json) :
  parseEntryLine path line i = Ok e -> valid_entry e.
Proof.
  unfold parseEntryLine. destruct (json_parse line) as [v|] eqn:E; [|done].
  destruct (entry_problem v) eqn:Ep; [done|]. intros [= <-]. split; [by eapply json_parse_ok|done].
Qed.

Lemma load_entries_valid (nl : bool) (ls : list string) (i : nat) (es : list json) (torn : bool) :
  load_entries path nl ls i = Ok (es, torn) -> Forall valid_entry es.
Proof.
  revert i es torn. induction ls as [|l ls IH]; intros i es torn; cbn [load_entries].
  - intros [= <- <-]. constructor.
  - destruct (parseEntryLine path l (S i)) as [e|err] eqn:Ep.
    + destruct (load_entries path nl ls (S i)) as [[es' t']|] eqn:El; [|done]. intros [= <- <-].
      constructor; [by eapply parse_entry_valid|by eapply IH].
    + case_match; [|done]. intros [= <- <-]. constructor.
Qed.

(** Complete lines load whatever follows them. *)
Lemma load_entries_app (nl nl' : bool) (ls more : list string) (i : nat) (es : list json) :
  load_entries path nl ls i = Ok (es, false) ->
  load_entries path nl' (ls ++ more) i
    = (m <-? load_entries path nl' more (i + length ls)%nat ;; Ok ((es ++ fst m)%list, snd m)).
Proof.
  revert i es. induction ls as [|l ls IH]; intros i es; cbn [load_entries app].
  - intros [= <-]. cbn [length]. rewrite Nat.add_0_r. by destruct (load_entries path nl' more i) as [[]|].
  - destruct (parseEntryLine path l (S i)) as [e|err] eqn:Ep; [|by case_match].
    destruct (load_entries path nl ls (S i)) as [[es' t']|] eqn:El; [|done]. intros [= <- ->].
    rewrite (IH _ _ El). cbn [length]. rewrite Nat.add_succ_r. cbn [Nat.add].
    by destruct (load_entries path nl' more _) as [[]|].
Qed.

Lemma load_valid_lines (nl : bool) (es : list json) (i : nat) :
  Forall valid_entry es -> load_entries path nl (map json_print es) i = Ok (es, false).
Proof.
  intros H. revert i. induction H as [|e es He Hes IH]; intros i; [done|].
  cbn [load_entries map]. by rewrite parse_valid, IH.
Qed.

(** A torn last line is dropped when no line feed ends the file. *)
Lemma load_torn_line (line : string) (i : nat) :
  json_parse line = None -> load_entries path false [line] i = Ok ([], true).
Proof. intros H. cbn [load_entries]. unfold parseEntryLine. by rewrite H. Qed.

Lemma has_text_Some (key : string) (v : json) (s : string) :
  has_text key v = Some s <-> jstr key v = Some s /\ s <> EmptyString.
Proof.
  unfold has_text. destruct (jstr key v) as [[|a t]|]; simpl; naive_solver.
Qed.

(** A header this code writes reads back, when its id, time and directory are
    not empty. *)
Definition valid_header (h : SessionHeader) : Prop :=
  hd_id h <> EmptyString /\ hd_timestamp h <> EmptyString /\ hd_cwd h <> EmptyString.

Lemma header_json_ok (h : SessionHeader) : json_ok (header_json h) = true.
Proof. destruct h as [i ts cwd [p|]]; reflexivity. Qed.

Lemma parse_header (h : SessionHeader) :
  valid_header h -> parseHeaderLine path (json_print (header_json h)) = Ok h.
Proof.
  intros (Hi & Ht & Hc). unfold parseHeaderLine. rewrite json_parse_print by apply header_json_ok.
  destruct h as [[|] [|] [|] [p|]]; try done.
Qed.

Lemma parsed_header_valid (line : string) (h : SessionHeader) :
  parseHeaderLine path line = Ok h -> valid_header h.
Proof.
  unfold parseHeaderLine. intros H.
  repeat match type of H with
  | result_bind _ _ = Ok _ => apply result_bind_Ok in H as (? & ? & H)
  end.
  injection H as <-. unfold require in *.
  repeat match goal with
  | H : match has_text ?k ?v with _ => _ end = Ok _ |- _ =>
      let E := fresh in destruct (has_text k v) eqn:E; [|done]; apply has_text_Some in E as [_ ?]
  end.
  simplify_eq. done.
Qed.
End Load.

(** ** The file and the memory agree *)

(** Reading the file back gives the state of the object. *)
Definition durable (s : JsonlSessionStorage) : Prop :=
  loadJsonlStorage (jl_path s) (jl_file s)
    = Ok {| ld_header := jl_header s; ld_entries := entries (jl_core s); ld_tailRepair := jl_tailRepair s |}.

Definition separator (tail : JsonlTailRepair) : string :=
  match tail with
  | missing_newline => newline
  | _ => EmptyString
  end.

Section Durable.
Context (path : string).

Lemma load_inv (file : string) (ld : Loaded) :
  loadJsonlStorage path file = Ok ld ->
  exists first rest torn, content_lines file = first :: rest /\
    parseHeaderLine path first = Ok (ld_header ld) /\
    load_entries path (ends_with_newline file) rest 1 = Ok (ld_entries ld, torn) /\
    ld_tailRepair ld = (if torn then torn_tail
                        else if negb (ends_with_newline file) then missing_newline else tail_none).
Proof.
  unfold loadJsonlStorage. destruct (content_lines file) as [|first rest]; [done|].
  destruct (parseHeaderLine path first) as [h|] eqn:Eh; [|done]. simpl.
  destruct (load_entries _ _ rest 1) as [[es torn]|] eqn:Ee; [|done]. intros [= <-].
  exists first, rest, torn. split_and!; done.
Qed.

Lemma lines_after (file text : string) (tail : JsonlTailRepair) :
  tail = (if negb (ends_with_newline file) then missing_newline else tail_none) ->
  content_lines (file ++ separator tail ++ text) = (content_lines file ++ content_lines text)%list.
Proof.
  intros ->. destruct (ends_with_newline file) eqn:E; simpl.
  - by apply lines_after_newline.
  - apply content_lines_sep.
Qed.

(** Loading a file with a text after it. *)
Lemma load_after (file text : string) (ld : Loaded) (more : list json) (torn : bool) :
  loadJsonlStorage path file = Ok ld -> ld_tailRepair ld <> torn_tail ->
  let file' := file ++ separator (ld_tailRepair ld) ++ text in
  (forall i, load_entries path (ends_with_newline file') (content_lines text) i = Ok (more, torn)) ->
  loadJsonlStorage path file'
    = Ok {| ld_header := ld_header ld; ld_entries := (ld_entries ld ++ more)%list;
            ld_tailRepair := if torn then torn_tail
                             else if negb (ends_with_newline file') then missing_newline else tail_none |}.
Proof.
  intros Hld Hnt file' Hmore. destruct (load_inv _ _ Hld) as (first & rest & t & Hl & Hh & He & Ht).
  destruct t; [by rewrite Ht in Hnt|]. cbv iota in Ht.
  unfold loadJsonlStorage, file'. rewrite lines_after by done. rewrite Hl. cbn [app].
  rewrite Hh. cbn [result_bind]. rewrite (load_entries_app _ _ _ _ _ _ _ He). fold file'.
  rewrite Hmore. done.
Qed.

Lemma entry_line (e : json) :
  valid_entry e -> sforall no_lf (json_print e) = true /\ content_lines (json_print e) = [json_print e].
Proof.
  intros He. destruct (valid_entry_object e He) as [fields ->].
  assert (Hn : sforall no_lf (json_print (JsObj fields)) = true) by (apply json_print_no_lf, He).
  split; [done|]. rewrite content_lines_one by done. cbn [json_print String.append].
  by rewrite trim_nonempty.
Qed.

Lemma content_lines_line (e : json) :
  valid_entry e -> content_lines (json_print e ++ newline) = [json_print e].
Proof.
  intros He. unfold newline. rewrite content_lines_sep. destruct (entry_line e He) as [_ ->]. done.
Qed.

(** A whole line appended. *)
Lemma load_appended (file : string) (ld : Loaded) (e : json) :
  loadJsonlStorage path file = Ok ld -> ld_tailRepair ld <> torn_tail -> valid_entry e ->
  loadJsonlStorage path (file ++ append_text (ld_tailRepair ld) e)
    = Ok {| ld_header := ld_header ld; ld_entries := (ld_entries ld ++ [e])%list; ld_tailRepair := tail_none |}.
Proof.
  intros Hld Hnt He.
  assert (Htext : append_text (ld_tailRepair ld) e = separator (ld_tailRepair ld) ++ json_print e ++ newline)
    by (by destruct (ld_tailRepair ld)).
  rewrite Htext. rewrite (load_after _ _ _ [e] false Hld Hnt).
  - rewrite <- !app_assoc_str, ends_with_app_newline. done.
  - intros i. rewrite content_lines_line by done. by apply (load_valid_lines path _ [e]); constructor.
Qed.

(** A torn file replaced. *)
Lemma content_lines_join (h : SessionHeader) (es : list json) (e : json) :
  Forall valid_entry es -> valid_entry e ->
  content_lines (rewrite_text h es e) = json_print (header_json h) :: map json_print (es ++ [e]).
Proof.
  intros Hes He. unfold rewrite_text. change (newline ++ json_print e ++ newline)
    with (String line_feed (json_print e ++ newline)).
  rewrite content_lines_sep, content_lines_line by done. rewrite map_app, app_comm_cons. f_equal.
  assert (Hh : sforall no_lf (json_print (header_json h)) = true)
    by apply json_print_no_lf, header_json_ok.
  assert (Hall : forall w, w ∈ map json_print (header_json h :: es) ->
    sforall no_lf w = true /\ is_empty (trim w) = false).
  { cbn [map]. intros w [->|Hw]%elem_of_cons.
    - split; [done|]. unfold header_json. cbn [json_print String.append]. by rewrite trim_nonempty.
    - apply list_elem_of_fmap in Hw as (x & -> & Hx). rewrite Forall_forall in Hes.
      specialize (Hes x Hx). destruct (valid_entry_object x Hes) as [fields ->].
      split; [apply json_print_no_lf, Hes|]. cbn [json_print String.append]. by rewrite trim_nonempty. }
  unfold content_lines, newline. rewrite split_join; [|done|].
  - cbn [map] in *. revert Hall. generalize (json_print (header_json h) :: map json_print es).
    intros ls Hls. induction ls as [|l ls IH]; [done|]. simpl. destruct (Hls l) as [_ ->]; [left|].
    simpl. f_equal. apply IH. intros w Hw. apply Hls. by right.
  - intros w Hw. by apply no_lf_free, Hall.
Qed.

Lemma load_rewritten (h : SessionHeader) (es : list json) (e : json) :
  valid_header h -> Forall valid_entry es -> valid_entry e ->
  loadJsonlStorage path (rewrite_text h es e)
    = Ok {| ld_header := h; ld_entries := (es ++ [e])%list; ld_tailRepair := tail_none |}.
Proof.
  intros Hh Hes He. unfold loadJsonlStorage. rewrite content_lines_join by done.
  rewrite parse_header by done. cbn [result_bind].
  rewrite load_valid_lines by (apply Forall_app; split; [done|by constructor]).
  cbn [result_bind fst snd]. unfold rewrite_text. rewrite <- !app_assoc_str, ends_with_app_newline. done.
Qed.
End Durable.

Lemma durable_parts (s : JsonlSessionStorage) :
  durable s -> valid_header (jl_header s) /\ Forall valid_entry (entries (jl_core s)).
Proof.
  intros Hd. destruct (load_inv _ _ _ Hd) as (first & rest & torn & _ & Hh & He & _).
  split; [by eapply parsed_header_valid|by eapply load_entries_valid].
Qed.

(** A successful write of a valid entry keeps file and memory in agreement,
    whatever the state of the file's tail was. *)
Lemma persist_durable (e : json) (ctx : string) (s s' : JsonlSessionStorage) (r : result SessionError unit) :
  durable s -> valid_entry e -> persistEntry IoOk e ctx s = (r, s') ->
  r = Ok tt /\ jl_path s' = jl_path s /\ jl_header s' = jl_header s /\ jl_core s' = jl_core s /\
  jl_tailRepair s' = tail_none /\
  loadJsonlStorage (jl_path s) (jl_file s')
    = Ok {| ld_header := jl_header s; ld_entries := (entries (jl_core s) ++ [e])%list; ld_tailRepair := tail_none |}.
Proof.
  intros Hd He [= <- <-]. split_and!; try done. cbn [jl_file with_file write_file append_file].
  destruct (durable_parts s Hd) as [Hh Hes].
  destruct (jl_tailRepair s) eqn:Et; [| |by apply load_rewritten];
    unfold durable in Hd; rewrite Et in Hd; by apply (load_appended _ _ _ e Hd).
Qed.

Lemma append_durable (e : json) (s s' : JsonlSessionStorage) (r : result SessionError unit) :
  durable s -> valid_entry e -> jsonl_appendEntry IoOk e s = (r, s') ->
  r = Ok tt /\ durable s' /\ entries (jl_core s') = (entries (jl_core s) ++ [e])%list.
Proof.
  intros Hd He. unfold jsonl_appendEntry. destruct (persistEntry IoOk e _ s) as [r1 s1] eqn:Ep.
  destruct (persist_durable _ _ _ _ _ Hd He Ep) as (-> & Hp & Hh & Hc & Ht & Hl).
  intros [= <- <-]. split_and!; [done| |cbn; by rewrite Hc].
  unfold durable. cbn. by rewrite Hp, Hl, Hh, Hc, Ht.
Qed.

(** ** Interrupted writes *)

Lemma slice_to_no_lf (n : nat) (s : string) : sforall no_lf s = true -> sforall no_lf (slice_to n s) = true.
Proof.
  revert n. induction s as [|a s IH]; intros [|n]; simpl; try done. intros [-> Hs]%andb_true_iff. by apply IH.
Qed.

Section Crash.
Context (path : string).

(** What a file holds after the first [m] characters of a line reached it. *)
Lemma load_partial (file : string) (ld : Loaded) (e : json) (m : nat) :
  loadJsonlStorage path file = Ok ld -> ld_tailRepair ld <> torn_tail -> valid_entry e ->
  exists tail, loadJsonlStorage path
      (file ++ separator (ld_tailRepair ld) ++ slice_to m (json_print e ++ newline))
    = Ok {| ld_header := ld_header ld;
            ld_entries := if (String.length (json_print e) <=? m)%nat
                          then (ld_entries ld ++ [e])%list else ld_entries ld;
            ld_tailRepair := tail |}.
Proof.
  intros Hld Hnt He. destruct (entry_line e He) as [Hlf Hlines].
  destruct (Nat.leb_spec (String.length (json_print e)) m) as [Hm|Hm]; rewrite slice_to_app.
  - rewrite slice_to_all by done. eexists.
    refine (load_after path _ _ _ [e] false Hld Hnt (fun i => _)).
    replace (content_lines _) with [json_print e];
      [by apply (load_valid_lines path _ [e]); constructor|].
    destruct (m - String.length (json_print e))%nat as [|k]; cbn [slice_to newline].
    + by rewrite app_nil_str.
    + replace (slice_to k EmptyString) with EmptyString by (by destruct k).
      by rewrite content_lines_line.
  - replace (m - String.length (json_print e))%nat with 0 by lia.
    change (slice_to 0 newline) with EmptyString. rewrite app_nil_str.
    destruct (valid_entry_object e He) as [fields ->].
    destruct m as [|m].
    { eexists. rewrite (load_after path _ _ _ [] false Hld Hnt); [|done]. by rewrite app_nil_r. }
    set (p := slice_to (S m) (json_print (JsObj fields))) in *.
    assert (Hp : sforall no_lf p = true) by by apply slice_to_no_lf.
    assert (Hbad : json_parse p = None).
    { apply (json_truncated fields p (slice (S m) (json_print (JsObj fields)))).
      - apply He.
      - apply slice_split.
      - by apply slice_nonempty. }
    eexists. rewrite (load_after path _ _ _ [] true Hld Hnt); [by rewrite app_nil_r|].
    intros i. rewrite <- app_assoc_str, ends_with_no_lf by done.
    rewrite content_lines_one by done. unfold p at 1. cbn [json_print String.append slice_to].
    rewrite trim_nonempty by done. by apply load_torn_line.
Qed.
End Crash.

(** The text that an interrupted append leaves, and where its entry is whole. *)
Definition interrupted (tail : JsonlTailRepair) (e : json) (n : nat) : string :=
  slice_to n (append_text tail e).

Definition entry_written (tail : JsonlTailRepair) (e : json) (n : nat) : bool :=
  (String.length (separator tail ++ json_print e) <=? n)%nat.

Lemma load_interrupted (path file : string) (ld : Loaded) (e : json) (n : nat) :
  loadJsonlStorage path file = Ok ld -> ld_tailRepair ld <> torn_tail -> valid_entry e ->
  exists tail, loadJsonlStorage path (file ++ interrupted (ld_tailRepair ld) e n)
    = Ok {| ld_header := ld_header ld;
            ld_entries := if entry_written (ld_tailRepair ld) e n
                          then (ld_entries ld ++ [e])%list else ld_entries ld;
            ld_tailRepair := tail |}.
Proof.
  intros Hld Hnt He. unfold interrupted, entry_written. destruct (ld_tailRepair ld) eqn:Et; [| |done].
  - pose proof (load_partial path file ld e n Hld) as Hl. rewrite Et in Hl. by apply Hl.
  - destruct n as [|n]; cbn [append_text newline String.append slice_to].
    + exists missing_newline. rewrite app_nil_str, Hld. cbn. destruct ld. simpl in *. by subst.
    + pose proof (load_partial path file ld e n Hld) as Hl. rewrite Et in Hl. by apply Hl.
Qed.

(** ** Properties *)

(** One write by the running program: an append of a valid entry with a
    readable label, or a move of the leaf. *)
Inductive jsonl_write (s : JsonlSessionStorage) : JsonlSessionStorage -> Prop :=
| write_append e r s' :
    valid_entry e -> label_readable e = true -> jsonl_appendEntry IoOk e s = (r, s') -> jsonl_write s s'
| write_leaf leaf uuids now r s' :
    fresh_uuids uuids (entries (jl_core s)) -> now <> EmptyString ->
    jsonl_setLeafId IoOk leaf uuids now s = (r, s') -> jsonl_write s s'.

Definition agrees (s : JsonlSessionStorage) : Prop :=
  durable s /\ synced (jl_core s) /\ forallb label_readable (entries (jl_core s)) = true.

Lemma made_leaf_valid (i : string) (p leaf : option string) (now : string) :
  i <> EmptyString -> now <> EmptyString ->
  valid_entry (entry_make i p now (LeafEntry leaf)) /\ label_readable (entry_make i p now (LeafEntry leaf)) = true.
Proof.
  intros Hi Hn. split; [|done]. destruct i as [|a i]; [done|]. destruct now as [|b now]; [done|].
  split; destruct p, leaf; done.
Qed.

Lemma write_agrees (s s' : JsonlSessionStorage) : agrees s -> jsonl_write s s' -> agrees s'.
Proof.
  intros (Hd & Hs & Hl) Hw. destruct Hw as [e r s' He Hle Ha|leaf uuids now r s' Hf Hn Ha].
  - pose proof (append_durable e s s' r Hd He Ha) as (-> & Hd' & Hes).
    assert (Hok : storage_ok s) by exact Hs.
    destruct (law_appendEntry s IoOk e (Ok tt) s' Hok Ha) as (Hok' & _).
    split_and!; [done|exact Hok'|]. rewrite Hes, forallb_app, Hl. simpl. by rewrite Hle.
  - revert Ha. unfold jsonl_setLeafId. destruct (leaf_unknown leaf (jl_core s)) as [i|]; [by intros [= _ <-]|].
    cbv zeta. set (i := generateEntryId _ _).
    assert (Hi : i <> EmptyString).
    { destruct Hf as [Hne Hf]. apply generate_fresh; [done|]. rewrite core_has_synced by done.
      by apply bool_decide_eq_false. }
    destruct (made_leaf_valid i (leafId (jl_core s)) leaf now Hi Hn) as [Hv Hr].
    set (e := entry_make _ _ _ _) in *. destruct (persistEntry IoOk e _ s) as [r1 s1] eqn:Ep.
    destruct (persist_durable _ _ _ _ _ Hd Hv Ep) as (-> & Hp & Hh & Hc & Ht & Hld). intros [= _ <-].
    split_and!.
    + unfold durable. cbn. by rewrite Hp, Hld, Hh, Hc, Ht.
    + cbn. rewrite push_leaf_entry by (by destruct leaf). apply push_entry_synced. by rewrite Hc.
    + cbn. rewrite Hc, forallb_app, Hl. done.
Qed.

Lemma runs_agree (s s' : JsonlSessionStorage) : agrees s -> rtc jsonl_write s s' -> agrees s'.
Proof. intros Ha Hr. induction Hr as [|s s1 s2 Hw _ IH]; [done|]. apply IH. by eapply write_agrees. Qed.

Lemma agrees_open (s : JsonlSessionStorage) : agrees s -> openStorage (jl_path s) (Ok (jl_file s)) = Ok s.
Proof.
  intros (Hd & Hs & Hl). unfold openStorage. cbn [getFileSystemResultOrThrow]. rewrite Hd.
  cbn [ld_entries ld_header ld_tailRepair]. rewrite Hl. destruct s as [pa h c t f]. simpl in *.
  unfold synced in Hs. by rewrite <- Hs.
Qed.

Lemma Ok_inj {Err_ A : Type} (a b : A) : @Ok Err_ A a = Ok b -> a = b.
Proof. congruence. Qed.

Lemma created_agrees (path cwd sid now : string) (parent : option string) (s : JsonlSessionStorage) :
  sid <> EmptyString -> now <> EmptyString -> cwd <> EmptyString ->
  createStorage IoOk path cwd sid now parent = Ok s -> agrees s.
Proof.
  intros Hsid Hnow Hcwd Hs.
  set (h := {| hd_id := sid; hd_timestamp := now; hd_cwd := cwd; hd_parentSession := parent |}).
  assert (Hs' : s = {| jl_path := path; jl_header := h; jl_core := core_of []; jl_tailRepair := tail_none;
                       jl_file := json_print (header_json h) ++ newline |}).
  { symmetry. revert Hs. unfold createStorage. cbn [io_result getFileSystemResultOrThrow result_bind].
    intros Hs. by apply Ok_inj in Hs. }
  rewrite Hs'. split_and!; [|done|done]. unfold durable.
  cbn [jl_path jl_file jl_header jl_core jl_tailRepair].
  unfold loadJsonlStorage, newline. rewrite content_lines_sep.
  assert (Hc : content_lines (json_print (header_json h)) = [json_print (header_json h)]).
  { rewrite content_lines_one by apply json_print_no_lf, header_json_ok.
    unfold header_json. cbn [json_print String.append]. by rewrite trim_nonempty. }
  rewrite Hc. change (content_lines EmptyString) with (@nil string). cbn [app].
  rewrite parse_header by done. cbn [result_bind load_entries fst snd].
  change (String line_feed EmptyString) with newline. by rewrite ends_with_app_newline.
Qed.

(** C32: A session file is a faithful record. After a session is created
    and any sequence of its writes succeeded (valid entries appended, the leaf
    moved), reading the file from scratch gives back the very state the program
    holds: header, entries in order, index, label cache and active leaf. *)
Theorem reopen_restores (path cwd sid now : string) (parent : option string)
    (s0 s : JsonlSessionStorage) :
  sid <> EmptyString -> now <> EmptyString -> cwd <> EmptyString ->
  createStorage IoOk path cwd sid now parent = Ok s0 -> rtc jsonl_write s0 s ->
  openStorage (jl_path s) (Ok (jl_file s)) = Ok s.
Proof.
  intros Hsid Hnow Hcwd Hc Hr. apply agrees_open. refine (runs_agree s0 s _ Hr).
  exact (created_agrees path cwd sid now parent s0 Hsid Hnow Hcwd Hc).
Qed.


(** ** A concrete file *)

Section Demo.
Open Scope list_scope.

Definition jl_entry (i : string) (p : option string) (text : string) : json :=
  entry_make i p "2026-01-01T00:00:00.000Z" (MessageEntry (JsObj [("role", JsStr "user"); ("content", JsStr text)])).

Definition demo_header : SessionHeader :=
  {| hd_id := "s1"; hd_timestamp := "2026-01-01T00:00:00.000Z"; hd_cwd := "/work"; hd_parentSession := None |}.

Definition demo_new : JsonlSessionStorage :=
  {| jl_path := "/s.jsonl"; jl_header := demo_header; jl_core := core_of []; jl_tailRepair := tail_none;
     jl_file := (json_print (header_json demo_header) ++ newline)%string |}.

Definition demo_one : JsonlSessionStorage := snd (jsonl_appendEntry IoOk (jl_entry "a" None "hello") demo_new).

Lemma demo_created :
  createStorage IoOk "/s.jsonl" "/work" "s1" "2026-01-01T00:00:00.000Z" None = Ok demo_new.
Proof. vm_compute. reflexivity. Qed.

Lemma demo_entry_valid (i text : string) (p : option string) :
  i <> EmptyString -> valid_entry (jl_entry i p text) /\ label_readable (jl_entry i p text) = true.
Proof. intros Hi. destruct i as [|a i]; [done|]. split; [|done]. split; destruct p; done. Qed.

Lemma demo_writes : rtc jsonl_write demo_new demo_one.
Proof.
  eapply rtc_l; [|apply rtc_refl].
  eapply (write_append demo_new (jl_entry "a" None "hello") (Ok tt)); [| |vm_compute; reflexivity];
    by apply demo_entry_valid.
Qed.

Lemma demo_agrees : agrees demo_one.
Proof.
  refine (runs_agree demo_new demo_one _ demo_writes).
  apply (created_agrees "/s.jsonl" "/work" "s1" "2026-01-01T00:00:00.000Z" None); [done|done|done|].
  exact demo_created.
Qed.

Lemma reopen_restores_witness :
  map entry_id (entries (jl_core demo_one)) = ["a"]%string /\
  openStorage "/s.jsonl" (Ok (jl_file demo_one)) = Ok demo_one.
Proof.
  split; [vm_compute; reflexivity|].
  apply (reopen_restores "/s.jsonl" "/work" "s1" "2026-01-01T00:00:00.000Z" None demo_new demo_one);
    [discriminate|discriminate|discriminate|exact demo_created|exact demo_writes].
Defined.


(** A write that fails half-way in a program that goes on: the object does not
    know that the tail of the file is torn, its next append is written right
    behind the broken text, and the file can no longer be opened. *)
Lemma failed_append_breaks_the_next :
  let '(r1, s1) := jsonl_appendEntry (IoFail {| fe_not_found := false; fe_message := "ENOSPC" |} (Some 25))
                     (jl_entry "b" (Some "a"%string) "lost") demo_one in
  let '(r2, s2) := jsonl_appendEntry IoOk (jl_entry "b" (Some "a"%string) "kept") s1 in
  is_ok r1 = false /\ r2 = Ok tt /\
  match openStorage "/s.jsonl" (Ok (jl_file s2)) with
  | Err (Thrown e) => err_code e = invalid_entry
  | _ => False
  end.
Proof. vm_compute. repeat split. Qed.
End Demo.
