(* ===== verification/CutPoint.v ===== *)
(** * When and where to compact

    packages/agent/src/harness/compaction/compaction.ts, first half: the token
    estimate of a context, the threshold that triggers a compaction and the
    choice of the cut point in a branch. Messages are the parsed objects of a
    session, whose fields have the types the source declares (a field of
    another type reads as absent); [literalValue] is the value of a number
    literal, token counts being integers. *)

From Stdlib Require Import Ascii String ZArith QArith Qround Lia.
From stdpp Require Import base list option strings gmap sets.
From S2P Require Import Prelude JsString JsValue Json SessionLog SessionContext.

Open Scope string_scope.
Open Scope list_scope.

(** ** Settings *)

Record CompactionSettings : Type := {
  enabled : bool;
  reserveTokens : jsnum;
  keepRecentTokens : jsnum;
  maxUsageRatio : option jsnum;
}.

(** The double nearest to 0.9. *)
Definition DEFAULT_COMPACTION_MAX_USAGE_RATIO : Q := 8106479329266893 # 9007199254740992.

Definition DEFAULT_COMPACTION_SETTINGS : CompactionSettings := {|
  enabled := true; reserveTokens := num_of_nat (Z.to_nat 16384);
  keepRecentTokens := num_of_nat (Z.to_nat 20000);
  maxUsageRatio := Some (NumFin DEFAULT_COMPACTION_MAX_USAGE_RATIO);
|}.

(** ** Roles and contents of messages *)

Definition message_role (m : AgentMessage) : string :=
  match m with
  | Stored message => default "" (jstr "role" message)
  | CustomMessage _ _ _ _ _ => "custom"
  | BranchSummaryMessage _ _ _ => "branchSummary"
  | CompactionSummaryMessage _ _ _ => "compactionSummary"
  end.

Definition message_content (m : AgentMessage) : option json :=
  match m with
  | Stored message => jget "content" message
  | CustomMessage _ content _ _ _ => Some content
  | _ => None
  end.

Definition message_field (key : string) (m : AgentMessage) : option string :=
  match m with
  | Stored message => jstr key message
  | BranchSummaryMessage summary _ _ | CompactionSummaryMessage summary _ _ =>
      if String.eqb key "summary" then Some summary else None
  | CustomMessage _ _ _ _ _ => None
  end.

(** The blocks of an array content. *)
Definition content_blocks (content : option json) : list json :=
  match content with
  | Some (JsArr blocks) => blocks
  | _ => []
  end.

Definition block_type (block : json) : string := default "" (jstr "type" block).

Definition text_length (s : option string) : nat := String.length (default "" s).

(** ** Token estimate of a message *)

Definition ESTIMATED_IMAGE_CHARS : nat := Z.to_nat 4800.
Definition ESTIMATED_MESSAGE_OVERHEAD_TOKENS : nat := 4.
Definition ESTIMATED_UNKNOWN_MESSAGE_TOKENS : nat := 4.

(** [JSON.stringify(value) ?? "undefined"]; plain data is always serialisable. *)
Definition safeJsonStringify (value : option json) : string :=
  match value with
  | Some v => json_print v
  | None => "undefined"
  end.

Definition text_or_image_chars (block : json) : nat :=
  if String.eqb (block_type block) "text" && negb (is_empty (default "" (jstr "text" block)))
  then text_length (jstr "text" block)
  else if String.eqb (block_type block) "image" then ESTIMATED_IMAGE_CHARS
  else 0.

Definition estimateTextAndImageContentChars (content : option json) : nat :=
  match content with
  | Some (JsStr text) => String.length text
  | _ => list_sum (map text_or_image_chars (content_blocks content))
  end.

Definition assistant_block_chars (block : json) : nat :=
  if String.eqb (block_type block) "text" then text_length (jstr "text" block)
  else if String.eqb (block_type block) "thinking" then text_length (jstr "thinking" block)
  else if String.eqb (block_type block) "toolCall"
  then text_length (jstr "name" block) + String.length (safeJsonStringify (jget "arguments" block))
  else 0.

(** [ESTIMATED_MESSAGE_OVERHEAD_TOKENS + Math.ceil(chars / 4)] *)
Definition chars_to_tokens (chars : nat) : nat :=
  ESTIMATED_MESSAGE_OVERHEAD_TOKENS + Nat.div (chars + 3) 4.

Definition estimateTokens (message : AgentMessage) : nat :=
  let role := message_role message in
  if String.eqb role "user" then
    chars_to_tokens (estimateTextAndImageContentChars (message_content message))
  else if String.eqb role "assistant" then
    chars_to_tokens (list_sum (map assistant_block_chars (content_blocks (message_content message))))
  else if String.eqb role "custom" || String.eqb role "toolResult" then
    chars_to_tokens (estimateTextAndImageContentChars (message_content message))
  else if String.eqb role "bashExecution" then
    chars_to_tokens (text_length (message_field "command" message) + text_length (message_field "output" message))
  else if String.eqb role "branchSummary" || String.eqb role "compactionSummary" then
    chars_to_tokens (text_length (message_field "summary" message))
  else ESTIMATED_UNKNOWN_MESSAGE_TOKENS.

(** ** Token estimate of a context *)

Record ContextUsageEstimate : Type := {
  tokens : Z;
  usageTokens : Z;
  trailingTokens : Z;
  lastUsageIndex : option nat;
}.

Section Usage.
Context (literalValue : string -> Z).

Definition usage_count (key : string) (usage : json) : Z :=
  match jget key usage with
  | Some (JsNum lit) => literalValue lit
  | _ => 0
  end.

Definition calculateContextTokens (usage : json) : Z :=
  if (usage_count "totalTokens" usage =? 0)%Z
  then (usage_count "input" usage + usage_count "output" usage + usage_count "cacheRead" usage
        + usage_count "cacheWrite" usage)%Z
  else usage_count "totalTokens" usage.

Definition getAssistantUsage (msg : AgentMessage) : option json :=
  match msg with
  | Stored message =>
      if String.eqb (message_role msg) "assistant" then
        match jstr "stopReason" message, jget "usage" message with
        | Some "aborted", _ | Some "error", _ => None
        | _, Some (JsObj fields) => Some (JsObj fields)
        | _, _ => None
        end
      else None
  | _ => None
  end.

(** The downward loops that stop at the first hit: value and index. *)
Fixpoint last_hit {A B} (f : A -> option B) (l : list A) : option (B * nat) :=
  match l with
  | [] => None
  | x :: l' =>
      match last_hit f l' with
      | Some (b, i) => Some (b, S i)
      | None => (fun b => (b, 0)) <$> f x
      end
  end.

Definition entry_usage (entry : SessionTreeEntry) : option json :=
  match body entry with
  | MessageEntry message => getAssistantUsage (Stored message)
  | _ => None
  end.

Definition getLastAssistantUsage (entries : list SessionTreeEntry) : option json :=
  fst <$> last_hit entry_usage entries.

Definition getLastAssistantUsageInfo (messages : list AgentMessage) : option (json * nat) :=
  last_hit getAssistantUsage messages.

Definition total_estimate (messages : list AgentMessage) : nat := list_sum (map estimateTokens messages).

Definition estimateContextTokens (messages : list AgentMessage) : ContextUsageEstimate :=
  match getLastAssistantUsageInfo messages with
  | None =>
      let estimated := Z.of_nat (total_estimate messages) in
      {| tokens := estimated; usageTokens := 0; trailingTokens := estimated; lastUsageIndex := None |}
  | Some (usage, index) =>
      let usageTokens := calculateContextTokens usage in
      let trailingTokens := Z.of_nat (total_estimate (drop (S index) messages)) in
      {| tokens := usageTokens + trailingTokens; usageTokens := usageTokens;
         trailingTokens := trailingTokens; lastUsageIndex := Some index |}
  end.

Definition estimateProjectedContextTokens (messages pendingMessages : list AgentMessage)
    : ContextUsageEstimate :=
  estimateContextTokens (messages ++ pendingMessages).
End Usage.

(** ** The threshold *)

Inductive CompactionHeadroomLimit : Type :=
| max_usage_ratio
| reserve_tokens.

Record CompactionHeadroomThreshold : Type := {
  triggerTokens : Z;
  headroomTokens : Z;
  maxUsageRatioTokens : Z;
  reserveBoundaryTokens : Z;
  limitedBy : CompactionHeadroomLimit;
}.

Definition reserve_of (settings : CompactionSettings) : Z :=
  match reserveTokens settings with
  | NumFin r => Z.max 0 (num_floor r)
  | _ => 0
  end.

Definition ratio_of (settings : CompactionSettings) : Q :=
  match maxUsageRatio settings with
  | Some (NumFin r) =>
      if num_lt (NumFin 0) (NumFin r) && num_lt (NumFin r) (NumFin 1) then r
      else DEFAULT_COMPACTION_MAX_USAGE_RATIO
  | _ => DEFAULT_COMPACTION_MAX_USAGE_RATIO
  end.

(** The arithmetic of doubles: a difference of integers is rounded as well. *)
Definition getCompactionHeadroomThreshold (contextWindow : jsnum) (settings : CompactionSettings)
    : option CompactionHeadroomThreshold :=
  match contextWindow with
  | NumFin w =>
      if negb (enabled settings) || num_le (NumFin w) (NumFin 0) then None
      else
        let windowTokens := num_floor w in
        let reserveTokens := reserve_of settings in
        let maxUsageRatioTokens := Z.max 1 (mul_floor (inject_Z windowTokens) (ratio_of settings)) in
        let reserveBoundaryTokens :=
          if (windowTokens <=? reserveTokens)%Z then maxUsageRatioTokens
          else Z.max 1 (round53 (windowTokens - reserveTokens)) in
        let triggerTokens := Z.min maxUsageRatioTokens reserveBoundaryTokens in
        Some {| triggerTokens := triggerTokens;
                headroomTokens := round53 (windowTokens - triggerTokens);
                maxUsageRatioTokens := maxUsageRatioTokens;
                reserveBoundaryTokens := reserveBoundaryTokens;
                limitedBy := if (reserveBoundaryTokens <=? maxUsageRatioTokens)%Z
                             then reserve_tokens else max_usage_ratio |}
  | _ => None
  end.

Definition shouldCompact (contextTokens contextWindow : jsnum) (settings : CompactionSettings) : bool :=
  match getCompactionHeadroomThreshold contextWindow settings with
  | Some threshold =>
      num_isFinite contextTokens && num_le (NumFin (inject_Z (triggerTokens threshold))) contextTokens
  | None => false
  end.

(** ** Cut points *)

Definition cut_roles : list string :=
  ["bashExecution"; "custom"; "branchSummary"; "compactionSummary"; "user"; "assistant"].

Definition is_cut_point (entry : SessionTreeEntry) : bool :=
  match body entry with
  | MessageEntry message => existsb (String.eqb (message_role (Stored message))) cut_roles
  | BranchSummaryEntry _ _ _ _ | CustomMessageEntry _ _ _ _ => true
  | _ => false
  end.

(** [entries[i]] tested by [p]. *)
Definition at_index (p : SessionTreeEntry -> bool) (entries : list SessionTreeEntry) (i : nat) : bool :=
  match entries !! i with
  | Some entry => p entry
  | None => false
  end.

Definition findValidCutPoints (entries : list SessionTreeEntry) (startIndex endIndex : nat) : list nat :=
  List.filter (at_index is_cut_point entries) (seq startIndex (endIndex - startIndex)).

Definition starts_turn (entry : SessionTreeEntry) : bool :=
  match body entry with
  | BranchSummaryEntry _ _ _ _ | CustomMessageEntry _ _ _ _ => true
  | MessageEntry message =>
      let role := message_role (Stored message) in
      String.eqb role "user" || String.eqb role "bashExecution"
  | _ => false
  end.

(** -1 is [None]. *)
Fixpoint findTurnStartIndex (entries : list SessionTreeEntry) (entryIndex startIndex : nat) : option nat :=
  if (entryIndex <? startIndex)%nat then None
  else if at_index starts_turn entries entryIndex then Some entryIndex
  else match entryIndex with
       | O => None
       | S i => findTurnStartIndex entries i startIndex
       end.

Record CutPointResult : Type := {
  firstKeptEntryIndex : nat;
  turnStartIndex : option nat;
  isSplitTurn : bool;
}.

(** Tokens an entry counts for; only messages count. *)
Definition entry_tokens (entry : SessionTreeEntry) : option nat :=
  match body entry with
  | MessageEntry message => Some (estimateTokens (Stored message))
  | _ => None
  end.

(** The downward loop over the indices [l]: where the budget is reached. *)
Fixpoint reach (keepRecentTokens : jsnum) (entries : list SessionTreeEntry) (l : list nat)
    (accumulatedTokens : nat) : option nat :=
  match l with
  | [] => None
  | i :: rest =>
      match entries !! i ≫= entry_tokens with
      | None => reach keepRecentTokens entries rest accumulatedTokens
      | Some messageTokens =>
          let accumulated := (accumulatedTokens + messageTokens)%nat in
          if num_le keepRecentTokens (num_of_nat accumulated) then Some i
          else reach keepRecentTokens entries rest accumulated
      end
  end.

Definition is_message (entry : SessionTreeEntry) : bool :=
  match body entry with
  | MessageEntry _ => true
  | _ => false
  end.

(** The loop that takes in the entries before the cut that are no messages. *)
Fixpoint walk_back (entries : list SessionTreeEntry) (startIndex cutIndex : nat) : nat :=
  match cutIndex with
  | O => O
  | S prev =>
      if (cutIndex <=? startIndex)%nat then cutIndex
      else if at_index (fun e => is_compaction e || is_message e) entries prev then cutIndex
      else walk_back entries startIndex prev
  end.

Definition is_user_message (entry : SessionTreeEntry) : bool :=
  match body entry with
  | MessageEntry message => String.eqb (message_role (Stored message)) "user"
  | _ => false
  end.

Definition chosen_cut (entries : list SessionTreeEntry) (startIndex endIndex : nat)
    (keepRecentTokens : jsnum) (first : nat) (cutPoints : list nat) : nat :=
  match reach keepRecentTokens entries (rev (seq startIndex (endIndex - startIndex))) 0 with
  | Some i => default first (List.find (fun c => i <=? c)%nat cutPoints)
  | None => first
  end.

Definition findCutPoint (entries : list SessionTreeEntry) (startIndex endIndex : nat)
    (keepRecentTokens : jsnum) : CutPointResult :=
  match findValidCutPoints entries startIndex endIndex with
  | [] => {| firstKeptEntryIndex := startIndex; turnStartIndex := None; isSplitTurn := false |}
  | (first :: _) as cutPoints =>
      let cutIndex := walk_back entries startIndex
                        (chosen_cut entries startIndex endIndex keepRecentTokens first cutPoints) in
      let isUserMessage := at_index is_user_message entries cutIndex in
      let turnStartIndex := if isUserMessage then None
                            else findTurnStartIndex entries cutIndex startIndex in
      {| firstKeptEntryIndex := cutIndex; turnStartIndex := turnStartIndex;
         isSplitTurn := negb isUserMessage && bool_decide (turnStartIndex <> None) |}
  end.

(** ** Lemmas: tokens from an index on *)

(** The tokens of the messages from index [k] up to [endIndex]. *)
Definition tokens_from (entries : list SessionTreeEntry) (endIndex k : nat) : nat :=
  list_sum (map (fun e => default 0 (entry_tokens e)) (drop k (take endIndex entries))).

Lemma tokens_from_step (entries : list SessionTreeEntry) (endIndex k : nat) :
  (k < endIndex)%nat -> (endIndex <= length entries)%nat ->
  tokens_from entries endIndex k
    = (default 0 (entries !! k ≫= entry_tokens) + tokens_from entries endIndex (S k))%nat.
Proof.
  intros Hk He. destruct (lookup_lt_is_Some_2 entries k) as [e Hlk]; [lia|].
  unfold tokens_from. rewrite (drop_S (take endIndex entries) e) by (by rewrite lookup_take_lt by lia).
  by rewrite Hlk.
Qed.

Lemma tokens_from_end (entries : list SessionTreeEntry) (endIndex : nat) :
  tokens_from entries endIndex endIndex = 0%nat.
Proof. unfold tokens_from. rewrite drop_ge; [done|]. rewrite length_take. lia. Qed.

Lemma tokens_from_le (entries : list SessionTreeEntry) (endIndex j k : nat) :
  (j <= k)%nat -> (tokens_from entries endIndex k <= tokens_from entries endIndex j)%nat.
Proof.
  intros Hjk. unfold tokens_from.
  rewrite <- (take_drop (k - j) (drop j (take endIndex entries))), drop_drop, map_app, list_sum_app.
  replace (j + (k - j))%nat with k by lia. lia.
Qed.

Lemma num_le_nat (keep : jsnum) (a b : nat) :
  (a <= b)%nat -> num_le keep (num_of_nat a) = true -> num_le keep (num_of_nat b) = true.
Proof.
  intros Hab. destruct keep as [|[]|q]; simpl; try done. rewrite !Qle_bool_iff. intros H.
  eapply Qle_trans; [exact H|]. rewrite <- Zle_Qle. lia.
Qed.

(** ** Lemmas: the three loops *)

Section Reach.
Context (keep : jsnum) (entries : list SessionTreeEntry) (endIndex : nat).
Context (Hend : (endIndex <= length entries)%nat).

(** Less than the budget remains from [k] on. *)
Definition below (k : nat) : bool := negb (num_le keep (num_of_nat (tokens_from entries endIndex k))).

Lemma below_mono (j k : nat) : (j <= k)%nat -> below j = true -> below k = true.
Proof.
  unfold below. intros Hjk. rewrite !negb_true_iff, <- !not_true_iff_false. intros Hj Hk. apply Hj.
  eapply num_le_nat, Hk. by apply tokens_from_le.
Qed.

Lemma reach_spec (startIndex n : nat) :
  (startIndex + n <= endIndex)%nat -> below (startIndex + n) = true ->
  match reach keep entries (rev (seq startIndex n)) (tokens_from entries endIndex (startIndex + n)) with
  | Some i => (startIndex <= i < startIndex + n)%nat /\ below i = false /\ below (S i) = true
  | None => below startIndex = true
  end.
Proof.
  induction n as [|n IH]; intros Hn Hb; [by rewrite Nat.add_0_r in Hb|].
  rewrite seq_S, rev_app_distr. cbn [rev app reach].
  pose proof (tokens_from_step entries endIndex (startIndex + n) ltac:(lia) Hend) as Hstep.
  replace (startIndex + S n)%nat with (S (startIndex + n)) in * by lia.
  destruct (entries !! (startIndex + n)%nat ≫= entry_tokens) as [t|] eqn:Et.
  - change (default 0 (Some t)) with t in Hstep. rewrite Nat.add_comm, <- Hstep.
    destruct (num_le keep (num_of_nat (tokens_from entries endIndex (startIndex + n)))) eqn:E.
    + split_and!; [lia|lia| |done]. unfold below. by rewrite E.
    + assert (Hb' : below (startIndex + n) = true) by (unfold below; by rewrite E).
      specialize (IH ltac:(lia) Hb'). destruct (reach _ _ _ _) as [i|]; [|done].
      destruct IH as (Hi & H1 & H2). split_and!; [lia|lia|done|done].
  - change (default 0 (@None nat)) with 0 in Hstep. rewrite Nat.add_0_l in Hstep. rewrite <- Hstep.
    assert (Hb' : below (startIndex + n) = true) by (unfold below in *; by rewrite Hstep).
    specialize (IH ltac:(lia) Hb'). destruct (reach _ _ _ _) as [i|]; [|done].
    destruct IH as (Hi & H1 & H2). split_and!; [lia|lia|done|done].
Qed.

Lemma find_ext_in {A} (p q : A -> bool) (l : list A) :
  (forall x, x ∈ l -> p x = q x) -> List.find p l = List.find q l.
Proof.
  induction l as [|x l IH]; intros H; simpl; [done|]. rewrite (H x) by left.
  destruct (q x); [done|]. apply IH. intros y Hy. apply H. by right.
Qed.

(** The chosen cut is the first one after which less than the budget remains. *)
Lemma chosen_cut_spec (startIndex first : nat) (cutPoints : list nat) :
  (startIndex <= endIndex)%nat -> num_le keep (num_of_nat 0) = false ->
  head cutPoints = Some first -> (forall c, c ∈ cutPoints -> startIndex <= c < endIndex)%nat ->
  chosen_cut entries startIndex endIndex keep first cutPoints
    = default first (List.find (fun c => below (S c)) cutPoints).
Proof.
  intros Hs H0 Hh Hc. unfold chosen_cut.
  pose proof (reach_spec startIndex (endIndex - startIndex)) as H.
  replace (startIndex + (endIndex - startIndex))%nat with endIndex in H by lia.
  assert (Hb : below endIndex = true) by (unfold below; by rewrite tokens_from_end, H0).
  specialize (H ltac:(lia) Hb). rewrite tokens_from_end in H.
  destruct (reach _ _ _ _) as [i|].
  - destruct H as (_ & H1 & H2). f_equal. apply find_ext_in. intros c _.
    destruct (Nat.leb_spec i c) as [Hle|Hlt].
    + symmetry. by apply (below_mono (S i)); [lia|].
    + symmetry. apply not_true_iff_false. intros Hbc. rewrite (below_mono (S c) i) in H1; [done|lia|done].
  - destruct cutPoints as [|c cs]; [done|]. injection Hh as ->. simpl.
    destruct (Hc first) as [Hlo _]; [left|].
    by rewrite (below_mono startIndex (S first)) by (done || lia).
Qed.
End Reach.

(** The walk stops right after a message or a compaction, and passes neither. *)
Lemma walk_back_spec (entries : list SessionTreeEntry) (startIndex c : nat) :
  (startIndex <= c)%nat ->
  let k := walk_back entries startIndex c in
  (startIndex <= k <= c)%nat /\
  (forall j e, (k <= j < c)%nat -> entries !! j = Some e -> is_compaction e || is_message e = false) /\
  (k = startIndex \/ at_index (fun e => is_compaction e || is_message e) entries (pred k) = true).
Proof.
  induction c as [|c IH]; intros Hs; cbn [walk_back]; [split_and!; try lia|].
  destruct (Nat.leb_spec (S c) startIndex); [split_and!; try lia|].
  destruct (at_index _ entries c) eqn:E; [split_and!; try lia; by right|].
  destruct IH as (H1 & H2 & H3); [lia|]. split_and!; [lia|lia| |done].
  intros j e Hj He. destruct (decide (j = c)) as [->|]; [|by apply (H2 j); [lia|]].
  unfold at_index in E. by rewrite He in E.
Qed.

Lemma elem_of_cut_points (entries : list SessionTreeEntry) (startIndex endIndex c : nat) :
  c ∈ findValidCutPoints entries startIndex endIndex <->
  (startIndex <= c < endIndex)%nat /\ at_index is_cut_point entries c = true.
Proof.
  unfold findValidCutPoints. rewrite elem_of_filter_list, elem_of_seq.
  destruct (at_index _ _ _); naive_solver lia.
Qed.

(** Where the turn of an entry starts: the last turn start up to it. *)
Lemma findTurnStartIndex_spec (entries : list SessionTreeEntry) (entryIndex startIndex : nat) :
  match findTurnStartIndex entries entryIndex startIndex with
  | Some t => (startIndex <= t <= entryIndex)%nat /\ at_index starts_turn entries t = true /\
      (forall j, (t < j <= entryIndex)%nat -> at_index starts_turn entries j = false)
  | None => forall j, (startIndex <= j <= entryIndex)%nat -> at_index starts_turn entries j = false
  end.
Proof.
  induction entryIndex as [|i IH]; cbn [findTurnStartIndex].
  - destruct (Nat.ltb_spec 0 startIndex); [intros; lia|].
    destruct (at_index starts_turn entries 0) eqn:E; [split_and!; [lia|lia|done|intros; lia]|].
    intros j Hj. by replace j with 0%nat by lia.
  - destruct (Nat.ltb_spec (S i) startIndex); [intros; lia|].
    destruct (at_index starts_turn entries (S i)) eqn:E; [split_and!; [lia|lia|done|intros; lia]|].
    destruct (findTurnStartIndex entries i startIndex) as [t|].
    + destruct IH as (H1 & H2 & H3). split_and!; [lia|lia|done|].
      intros j Hj. destruct (decide (j = S i)) as [->|]; [done|]. apply H3. lia.
    + intros j Hj. destruct (decide (j = S i)) as [->|]; [done|]. apply IH. lia.
Qed.

(** The first hit of a search among the increasing indices of a filter. *)
Lemma hd_filter_least (p : nat -> bool) (a n d x : nat) :
  x ∈ List.filter p (seq a n) -> (hd d (List.filter p (seq a n)) <= x)%nat.
Proof.
  revert a. induction n as [|n IH]; intros a; simpl; [by intros ?%elem_of_nil|].
  destruct (p a); [|apply IH]. simpl. intros [->|Hx]%elem_of_cons; [done|].
  apply elem_of_filter_list in Hx as [Hx%elem_of_seq _]. lia.
Qed.

Lemma filter_find_first (p q : nat -> bool) (a n c : nat) :
  List.find q (List.filter p (seq a n)) = Some c ->
  q c = true /\ forall x, x ∈ List.filter p (seq a n) -> (x < c)%nat -> q x <> true.
Proof.
  revert a. induction n as [|n IH]; intros a; simpl; [done|].
  destruct (p a); [|apply IH]. simpl. destruct (q a) eqn:Eq.
  - intros [= ->]. split; [done|]. intros x [->|Hx]%elem_of_cons Hlt; [lia|].
    apply elem_of_filter_list in Hx as [Hx%elem_of_seq _]. lia.
  - intros H. destruct (IH _ H) as [H1 H2]. split; [done|].
    intros x [->|Hx]%elem_of_cons Hlt; [congruence|by apply H2].
Qed.

Lemma chosen_cut_in (entries : list SessionTreeEntry) (startIndex endIndex first : nat) (keep : jsnum)
    (rest : list nat) : chosen_cut entries startIndex endIndex keep first (first :: rest) ∈ first :: rest.
Proof.
  unfold chosen_cut. destruct (reach _ _ _ _) as [i|]; [|left].
  destruct (List.find _ (first :: rest)) as [c|] eqn:E; [|left].
  apply find_some in E as [E _]. by apply list_elem_of_In.
Qed.

(** The shape of a result, whatever the budget is. *)
Lemma findCutPoint_shape (entries : list SessionTreeEntry) (startIndex endIndex : nat) (keep : jsnum) :
  let r := findCutPoint entries startIndex endIndex keep in
  (firstKeptEntryIndex r = startIndex /\ isSplitTurn r = false) \/
  exists c, (startIndex <= c < endIndex)%nat /\ at_index is_cut_point entries c = true /\
    firstKeptEntryIndex r = walk_back entries startIndex c /\
    (isSplitTurn r = true ->
       exists t, turnStartIndex r = Some t /\ findTurnStartIndex entries (firstKeptEntryIndex r) startIndex = Some t).
Proof.
  cbv zeta. unfold findCutPoint.
  pose proof (fun c => proj1 (elem_of_cut_points entries startIndex endIndex c)) as Hin.
  destruct (findValidCutPoints entries startIndex endIndex) as [|first rest]; [by left|right].
  cbn [firstKeptEntryIndex turnStartIndex isSplitTurn].
  pose proof (chosen_cut_in entries startIndex endIndex first keep rest) as Hc.
  exists (chosen_cut entries startIndex endIndex keep first (first :: rest)).
  destruct (Hin _ Hc) as [? ?]. split_and!; [lia|lia|done|done|].
  destruct (at_index is_user_message entries _); [done|].
  destruct (findTurnStartIndex _ _ _) as [t|]; [|done]. intros _. by exists t.
Qed.

(** The parts of a result with cut points and a positive budget. *)
Lemma findCutPoint_cases (entries : list SessionTreeEntry) (startIndex endIndex : nat) (keep : jsnum) :
  (startIndex <= endIndex <= length entries)%nat -> num_le keep (num_of_nat 0) = false ->
  findValidCutPoints entries startIndex endIndex <> [] ->
  let cutPoints := findValidCutPoints entries startIndex endIndex in
  let k := firstKeptEntryIndex (findCutPoint entries startIndex endIndex keep) in
  exists c, c ∈ cutPoints /\ k = walk_back entries startIndex c /\
    c = default (hd 0%nat cutPoints) (List.find (fun c => below keep entries endIndex (S c)) cutPoints).
Proof.
  intros Hse H0 Hne. cbv zeta. unfold findCutPoint.
  pose proof (fun c => proj1 (elem_of_cut_points entries startIndex endIndex c)) as Hin.
  destruct (findValidCutPoints entries startIndex endIndex) as [|first rest]; [done|].
  rewrite chosen_cut_spec; [|lia|lia|done|done|by intros c [? _]%Hin].
  cbn [firstKeptEntryIndex hd]. eexists. split_and!; [|reflexivity|reflexivity].
  destruct (List.find _ (first :: rest)) as [c|] eqn:E; [|left].
  apply find_some in E as [E _]. by apply list_elem_of_In.
Qed.

(** ** Properties *)

(** What a compaction keeps. The kept part of the branch starts at the
    earliest cut point after which less than the budget of recent tokens
    remains, or at the first cut point when no cut point does, together with
    the entries directly before it that are no messages and no compaction. *)
Theorem findCutPoint_keeps (entries : list SessionTreeEntry) (startIndex endIndex : nat) (keep : jsnum) :
  (startIndex <= endIndex <= length entries)%nat -> num_le keep (num_of_nat 0) = false ->
  findValidCutPoints entries startIndex endIndex <> [] ->
  let k := firstKeptEntryIndex (findCutPoint entries startIndex endIndex keep) in
  let fits c := num_le keep (num_of_nat (tokens_from entries endIndex (S c))) = false in
  let cut c := (startIndex <= c < endIndex)%nat /\ at_index is_cut_point entries c = true in
  exists c, cut c /\
    ((fits c /\ forall c', cut c' -> (c' < c)%nat -> ~ fits c') \/
     ((forall c', cut c' -> ~ fits c') /\ forall c', cut c' -> (c <= c')%nat)) /\
    (startIndex <= k <= c)%nat /\
    (forall j e, (k <= j < c)%nat -> entries !! j = Some e -> is_compaction e = false /\ is_message e = false) /\
    (k = startIndex \/ exists e, entries !! pred k = Some e /\ (is_compaction e = true \/ is_message e = true)).
Proof.
  intros Hse H0 Hne k fits cut.
  destruct (findCutPoint_cases entries startIndex endIndex keep Hse H0 Hne) as (c & Hc & Hk & Hdef).
  assert (Hfits : forall x, below keep entries endIndex (S x) = true <-> fits x).
  { intros x. unfold below, fits. by rewrite negb_true_iff. }
  apply elem_of_cut_points in Hc. exists c. split; [done|].
  destruct (walk_back_spec entries startIndex c) as (H1 & H2 & H3); [lia|]. rewrite <- Hk in H1, H2, H3.
  fold k in H1, H2, H3. split; [|split_and!; [lia|lia| |]].
  - destruct (List.find _ _) as [c0|] eqn:E; simpl in Hdef; subst c.
    + left. destruct (filter_find_first _ _ _ _ _ E) as [Hf Hmin]. split; [by apply Hfits|].
      intros c' Hc' Hlt Hx%Hfits. apply (Hmin c'); [by apply elem_of_cut_points|done|done].
    + right. split.
      * intros c' Hc' Hx%Hfits. rewrite (find_none _ _ E c') in Hx; [done|].
        by apply list_elem_of_In, elem_of_cut_points.
      * intros c' Hc'. apply (hd_filter_least _ _ _ 0%nat). by apply elem_of_cut_points.
  - intros j e Hj He. specialize (H2 j e Hj He). by apply orb_false_iff in H2.
  - destruct H3 as [H3|H3]; [by left|right]. unfold at_index in H3.
    destruct (entries !! pred k) as [e|]; [|done]. exists e. by rewrite <- orb_true_iff.
Qed.

(** When a compaction is due. For a context window of [w] tokens, compaction is
    due exactly from [triggerTokens] on, which lies between 1 and [w] and leaves
    at least the reserve free whenever the reserve is smaller than the window;
    more tokens never make it less due. *)
Theorem threshold_bounds (w : Z) (settings : CompactionSettings) :
  (1 <= w < 2 ^ 53)%Z -> enabled settings = true -> dyadic (ratio_of settings) ->
  exists t, getCompactionHeadroomThreshold (NumFin (inject_Z w)) settings = Some t /\
    (1 <= triggerTokens t <= w)%Z /\ headroomTokens t = (w - triggerTokens t)%Z /\
    ((reserve_of settings < w)%Z -> (reserve_of settings <= headroomTokens t)%Z) /\
    forall n, shouldCompact (NumFin (inject_Z n)) (NumFin (inject_Z w)) settings = true
              <-> (triggerTokens t <= n)%Z.
Proof.
  intros Hw He Hd.
  assert (Hr : (0 < ratio_of settings)%Q /\ (ratio_of settings < 1)%Q).
  { unfold ratio_of. destruct (maxUsageRatio settings) as [[|?|r]|]; try done.
    destruct (num_lt (NumFin 0) (NumFin r) && num_lt (NumFin r) (NumFin 1)) eqn:E; [|done].
    simpl in E. breflect. split; apply Qnot_le_lt; rewrite <- Qle_bool_iff; congruence. }
  destruct Hr as [Hr0 Hr1].
  pose proof (mul_floor_ratio w (ratio_of settings) ltac:(lia) Hd Hr0 Hr1) as Hm.
  assert (H0 : (0 <= reserve_of settings)%Z) by (unfold reserve_of; destruct (reserveTokens settings); lia).
  unfold shouldCompact, getCompactionHeadroomThreshold. rewrite He. cbn [negb orb].
  destruct (num_le (NumFin (inject_Z w)) (NumFin 0)) eqn:E.
  { exfalso. simpl in E. apply Qle_bool_iff in E. unfold Qle in E. simpl in E. lia. }
  unfold num_floor. rewrite Qfloor_Z. eexists. split; [reflexivity|].
  cbn [triggerTokens headroomTokens num_isFinite andb].
  set (u := mul_floor (inject_Z w) (ratio_of settings)) in *.
  destruct (Z.leb_spec w (reserve_of settings)) as [Hle|Hlt].
  - set (g := Z.min _ _). assert (Hg : (1 <= g <= w)%Z) by lia.
    rewrite round53_small by lia. split_and!; [lia|lia|done|lia|].
    intros n. simpl. by rewrite Qle_bool_iff, <- Zle_Qle.
  - rewrite (round53_small (w - reserve_of settings)) by lia.
    set (g := Z.min _ _). assert (Hg : (1 <= g <= w)%Z /\ (g <= w - reserve_of settings)%Z) by lia.
    rewrite round53_small by lia. split_and!; [lia|lia|done|lia|].
    intros n. simpl. by rewrite Qle_bool_iff, <- Zle_Qle.
Qed.

Lemma threshold_bounds_witness :
  exists t, getCompactionHeadroomThreshold (NumFin (inject_Z 200000)) DEFAULT_COMPACTION_SETTINGS = Some t /\
    triggerTokens t = 180000%Z /\ (1 <= triggerTokens t <= 200000)%Z.
Proof.
  destruct (threshold_bounds 200000 DEFAULT_COMPACTION_SETTINGS ltac:(lia) eq_refl) as (t & Ht & Hb & _).
  { exists 53%Z. split; [lia|reflexivity]. }
  exists t. split; [exact Ht|]. split; [|exact Hb].
  vm_compute in Ht. by injection Ht as <-.
Defined.

Section SampleTurn.
Definition tool_call_message (call : string) : json :=
  JsObj [("role", JsStr "assistant");
         ("content", JsArr [JsObj [("type", JsStr "toolCall"); ("id", JsStr call); ("name", JsStr "read");
                                   ("arguments", JsObj [("path", JsStr "a.ts")])]])].

Definition tool_result_message (call text : string) : json :=
  JsObj [("role", JsStr "toolResult"); ("toolCallId", JsStr call); ("toolName", JsStr "read");
         ("content", JsArr [JsObj [("type", JsStr "text"); ("text", JsStr text)]])].

(** A turn with a tool call, a change of the thinking level and a second call. *)
Definition long_turn : list SessionTreeEntry :=
  [sample_entry "a" None (MessageEntry (user_message "read both files"));
   sample_entry "b" (Some "a") (MessageEntry (tool_call_message "t1"));
   sample_entry "c" (Some "b") (MessageEntry (tool_result_message "t1" "the text of the first file"));
   sample_entry "d" (Some "c") (ThinkingLevelChangeEntry "high");
   sample_entry "e" (Some "d") (MessageEntry (tool_call_message "t2"));
   sample_entry "f" (Some "e") (MessageEntry (tool_result_message "t2" "the text of the second file"))].
End SampleTurn.

Lemma findCutPoint_keeps_witness :
  findCutPoint long_turn 0 6 (num_of_nat 20)
    = {| firstKeptEntryIndex := 3; turnStartIndex := Some 0; isSplitTurn := true |} /\
  exists c, (3 <= c)%nat /\ (0 <= c < 6)%nat /\ at_index is_cut_point long_turn c = true.
Proof.
  split; [reflexivity|].
  destruct (findCutPoint_keeps long_turn 0 6 (num_of_nat 20)) as (c & [H1 H2] & _ & H3 & _).
  - split; [lia|]. apply Nat.leb_le. reflexivity.
  - reflexivity.
  - vm_compute. discriminate.
  - exists c. split; [exact (proj2 H3)|]. by split.
Defined.
