(* ===== verification/Compaction.v ===== *)
(** * Compaction

    packages/agent/src/harness/compaction/compaction.ts, second half, with
    compaction/utils.ts and the conversion of messages.ts: the preparation of a
    compaction from a branch, the files it reports, the requests for the
    summaries and the entry that results. [complete] is the request to a model
    over an arbitrary state of the world; it may fail. *)

From Stdlib Require Import Ascii String ZArith QArith Qround Sorted Lia.
From stdpp Require Import base list option strings gmap sets.
From S2P Require Import Prelude JsString JsValue Json SessionLog SessionContext CutPoint.
From S2P Require TranscriptIntegrity.

Open Scope string_scope.
Open Scope list_scope.

Definition lf : string := String "010" EmptyString.

(** ** Files touched (utils.ts)

    A set of strings is the list of its elements in insertion order. *)

Record FileOperations : Type := {
  read : list string;
  written : list string;
  edited : list string;
}.

Definition createFileOps : FileOperations := {| read := []; written := []; edited := [] |}.

Definition set_add (x : string) (s : list string) : list string :=
  if existsb (String.eqb x) s then s else s ++ [x].

Definition add_read (path : string) (ops : FileOperations) : FileOperations :=
  {| read := set_add path (read ops); written := written ops; edited := edited ops |}.

Definition add_written (path : string) (ops : FileOperations) : FileOperations :=
  {| read := read ops; written := set_add path (written ops); edited := edited ops |}.

Definition add_edited (path : string) (ops : FileOperations) : FileOperations :=
  {| read := read ops; written := written ops; edited := set_add path (edited ops) |}.

(** The name and the path of a tool call block; its arguments are an object, so
    they are truthy when present. *)
Definition block_call (block : json) : option (string * string) :=
  if String.eqb (block_type block) "toolCall" then
    match jget "arguments" block, jstr "name" block with
    | Some args, Some name =>
        match jstr "path" args with
        | Some path => if is_empty path then None else Some (name, path)
        | None => None
        end
    | _, _ => None
    end
  else None.

Definition add_call (ops : FileOperations) (call : string * string) : FileOperations :=
  let (name, path) := call in
  if String.eqb name "read" then add_read path ops
  else if String.eqb name "write" then add_written path ops
  else if String.eqb name "edit" then add_edited path ops
  else ops.

Definition message_file_calls (message : AgentMessage) : list (string * string) :=
  if String.eqb (message_role message) "assistant"
  then omap block_call (content_blocks (message_content message)) else [].

Definition extractFileOpsFromMessage (fileOps : FileOperations) (message : AgentMessage) : FileOperations :=
  foldl add_call fileOps (message_file_calls message).

Definition computeFileLists (fileOps : FileOperations) : list string * list string :=
  let modified := foldl (fun s f => set_add f s) [] (edited fileOps ++ written fileOps) in
  let readOnly := stable_sort str_compare
                    (List.filter (fun f => negb (existsb (String.eqb f) modified)) (read fileOps)) in
  (readOnly, stable_sort str_compare modified).

Definition formatFileOperations (readFiles modifiedFiles : list string) : string :=
  let sections :=
    (match readFiles with
     | [] => []
     | _ => ["<read-files>" +:+ lf +:+ join lf readFiles +:+ lf +:+ "</read-files>"]
     end)
    ++ (match modifiedFiles with
        | [] => []
        | _ => ["<modified-files>" +:+ lf +:+ join lf modifiedFiles +:+ lf +:+ "</modified-files>"]
        end) in
  match sections with
  | [] => EmptyString
  | _ => lf +:+ lf +:+ join (lf +:+ lf) sections
  end.

(** ** Messages for the model (messages.ts) *)

(** The time of a message made here is a number, that of a stored one is
    copied. *)
Inductive MessageTime : Type :=
| MadeAt (t : jsnum)
| CopiedFrom (t : option json).

Inductive Message : Type :=
| UserMessage (content : json) (time : MessageTime)
| Unchanged (message : json).

Definition text_block (text : string) : json := JsObj [("type", JsStr "text"); ("text", JsStr text)].

Definition COMPACTION_SUMMARY_PREFIX : string :=
  "The conversation history before this point was compacted into the following summary:"
  +:+ lf +:+ lf +:+ "<summary>" +:+ lf.
Definition COMPACTION_SUMMARY_SUFFIX : string := lf +:+ "</summary>".
Definition BRANCH_SUMMARY_PREFIX : string :=
  "The following is a summary of a branch that this conversation came back from:"
  +:+ lf +:+ lf +:+ "<summary>" +:+ lf.
Definition BRANCH_SUMMARY_SUFFIX : string := "</summary>".

Definition is_set (flag : option json) : bool :=
  match flag with
  | Some (JsBool true) => true
  | _ => false
  end.

(** A number is rendered as its literal; zero has the literal [0]. *)
Definition exit_code_text (exitCode : option json) : option string :=
  match exitCode with
  | Some (JsNum lit) => if String.eqb lit "0" then None else Some lit
  | _ => None
  end.

Definition bashExecutionToText (msg : json) : string :=
  let output := default "" (jstr "output" msg) in
  let fullOutputPath := default "" (jstr "fullOutputPath" msg) in
  "Ran `" +:+ default "" (jstr "command" msg) +:+ "`" +:+ lf
  +:+ (if is_empty output then "(no output)" else "```" +:+ lf +:+ output +:+ lf +:+ "```")
  +:+ (if is_set (jget "cancelled" msg) then lf +:+ lf +:+ "(command cancelled)"
       else match exit_code_text (jget "exitCode" msg) with
            | Some code => lf +:+ lf +:+ "Command exited with code " +:+ code
            | None => ""
            end)
  +:+ (if is_set (jget "truncated" msg) && negb (is_empty fullOutputPath)
       then lf +:+ lf +:+ "[Output truncated. Full output: " +:+ fullOutputPath +:+ "]" else "").

Definition as_blocks (content : option json) : json :=
  match content with
  | Some (JsStr text) => JsArr [text_block text]
  | Some content => content
  | None => JsNull
  end.

Definition summary_of (m : AgentMessage) : string := default "" (message_field "summary" m).

Definition message_time (m : AgentMessage) : MessageTime :=
  match m with
  | Stored message => CopiedFrom (jget "timestamp" message)
  | CustomMessage _ _ _ _ t | BranchSummaryMessage _ _ t | CompactionSummaryMessage _ _ t => MadeAt t
  end.

Definition user_text (m : AgentMessage) (text : string) : Message :=
  UserMessage (JsArr [text_block text]) (message_time m).

Definition toLlm (m : AgentMessage) : option Message :=
  let role := message_role m in
  match m with
  | Stored message =>
      if String.eqb role "bashExecution" then
        if is_set (jget "excludeFromContext" message) then None
        else Some (user_text m (bashExecutionToText message))
      else if String.eqb role "custom" then Some (UserMessage (as_blocks (message_content m)) (message_time m))
      else if String.eqb role "branchSummary"
      then Some (user_text m (BRANCH_SUMMARY_PREFIX +:+ summary_of m +:+ BRANCH_SUMMARY_SUFFIX))
      else if String.eqb role "compactionSummary"
      then Some (user_text m (COMPACTION_SUMMARY_PREFIX +:+ summary_of m +:+ COMPACTION_SUMMARY_SUFFIX))
      else if String.eqb role "user" || String.eqb role "assistant" || String.eqb role "toolResult"
      then Some (Unchanged message)
      else None
  | CustomMessage _ content _ _ _ => Some (UserMessage (as_blocks (Some content)) (message_time m))
  | BranchSummaryMessage summary _ _ =>
      Some (user_text m (BRANCH_SUMMARY_PREFIX +:+ summary +:+ BRANCH_SUMMARY_SUFFIX))
  | CompactionSummaryMessage summary _ _ =>
      Some (user_text m (COMPACTION_SUMMARY_PREFIX +:+ summary +:+ COMPACTION_SUMMARY_SUFFIX))
  end.

Definition convertToLlm (messages : list AgentMessage) : list Message := omap toLlm messages.

(** ** The text of a conversation (utils.ts) *)

Definition TOOL_RESULT_MAX_CHARS : nat := Z.to_nat 2000.

Definition truncateForSummary (text : string) (maxChars : nat) : string :=
  if (String.length text <=? maxChars)%nat then text
  else slice_to maxChars text +:+ lf +:+ lf +:+ "[... " +:+ nat_str (String.length text - maxChars)
       +:+ " more characters truncated]".

Definition block_texts (blocks : list json) : list string :=
  omap (fun b => if String.eqb (block_type b) "text" then Some (default "" (jstr "text" b)) else None) blocks.

Definition llm_role (m : Message) : string :=
  match m with
  | UserMessage _ _ => "user"
  | Unchanged message => default "" (jstr "role" message)
  end.

Definition llm_content (m : Message) : option json :=
  match m with
  | UserMessage content _ => Some content
  | Unchanged message => jget "content" message
  end.

Definition content_text (content : option json) : string :=
  match content with
  | Some (JsStr text) => text
  | _ => join "" (block_texts (content_blocks content))
  end.

Definition call_text (block : json) : string :=
  let args := match jget "arguments" block with
              | Some (JsObj fields) => fields
              | _ => []
              end in
  default "" (jstr "name" block) +:+ "("
  +:+ join ", " (map (fun kv => fst kv +:+ "=" +:+ safeJsonStringify (Some (snd kv))) args) +:+ ")".

Definition blocks_of_type (type : string) (blocks : list json) : list json :=
  List.filter (fun b => String.eqb (block_type b) type) blocks.

Definition labelled (label sep : string) (texts : list string) : list string :=
  match texts with
  | [] => []
  | _ => [label +:+ join sep texts]
  end.

Definition message_parts (m : Message) : list string :=
  if String.eqb (llm_role m) "user" then
    let content := content_text (llm_content m) in
    if is_empty content then [] else ["[User]: " +:+ content]
  else if String.eqb (llm_role m) "assistant" then
    let blocks := content_blocks (llm_content m) in
    labelled "[Assistant thinking]: " lf
      (map (fun b => default "" (jstr "thinking" b)) (blocks_of_type "thinking" blocks))
    ++ labelled "[Assistant]: " lf (block_texts blocks)
    ++ labelled "[Assistant tool calls]: " "; " (map call_text (blocks_of_type "toolCall" blocks))
  else if String.eqb (llm_role m) "toolResult" then
    let content := join "" (block_texts (content_blocks (llm_content m))) in
    if is_empty content then []
    else ["[Tool result]: " +:+ truncateForSummary content TOOL_RESULT_MAX_CHARS]
  else [].

Definition serializeConversation (messages : list Message) : string :=
  join (lf +:+ lf) (concat (map message_parts messages)).

(** ** Preparing a compaction (compaction.ts) *)

Inductive CompactionErrorCode : Type :=
| aborted
| summarization_failed
| invalid_session_error
| unknown_error.

Record CompactionError : Type := {
  ce_code : CompactionErrorCode;
  ce_message : string;
}.

Section Prepare.
Context (dateMs : string -> jsnum) (literalValue : string -> Z).

Definition getMessageFromEntry (entry : SessionTreeEntry) : option AgentMessage :=
  match body entry with
  | MessageEntry message => Some (Stored message)
  | CustomMessageEntry customType content display details =>
      Some (createCustomMessage dateMs customType content display details (timestamp entry))
  | BranchSummaryEntry fromId summary _ _ =>
      Some (createBranchSummaryMessage dateMs summary fromId (timestamp entry))
  | CompactionEntry summary _ tokensBefore _ _ =>
      Some (createCompactionSummaryMessage dateMs summary tokensBefore (timestamp entry))
  | _ => None
  end.

Definition getMessageFromEntryForCompaction (entry : SessionTreeEntry) : option AgentMessage :=
  if is_compaction entry then None else getMessageFromEntry entry.

Definition string_elements (v : option json) : list string :=
  omap (fun x => match x with JsStr s => Some s | _ => None end) (content_blocks v).

(** The files of the previous compaction, unless an extension wrote it. *)
Definition previous_file_ops (prevCompaction : option SessionTreeEntry) : FileOperations :=
  match prevCompaction with
  | Some entry =>
      match body entry with
      | CompactionEntry _ _ _ (Some details) fromHook =>
          if default false fromHook then createFileOps
          else
            let ops := foldl (fun ops f => add_read f ops) createFileOps
                         (string_elements (jget "readFiles" details)) in
            foldl (fun ops f => add_edited f ops) ops (string_elements (jget "modifiedFiles" details))
      | _ => createFileOps
      end
  | None => createFileOps
  end.

Definition extractFileOperations (messages : list AgentMessage) (entries : list SessionTreeEntry)
    (prevCompactionIndex : option nat) : FileOperations :=
  foldl extractFileOpsFromMessage (previous_file_ops (prevCompactionIndex ≫= fun i => entries !! i)) messages.

Record CompactionPreparation : Type := {
  firstKeptEntryId : string;
  messagesToSummarize : list AgentMessage;
  turnPrefixMessages : list AgentMessage;
  prep_isSplitTurn : bool;
  tokensBefore : Z;
  previousSummary : option string;
  fileOps : FileOperations;
  prep_settings : CompactionSettings;
}.

(** The last compaction entry and its index. *)
Definition find_compaction (pathEntries : list SessionTreeEntry) : option (SessionTreeEntry * nat) :=
  last_hit (fun e => if is_compaction e then Some e else None) pathEntries.

Definition compaction_summary (entry : SessionTreeEntry) : option (string * string) :=
  match body entry with
  | CompactionEntry summary firstKept _ _ _ => Some (summary, firstKept)
  | _ => None
  end.

Definition boundary_start (pathEntries : list SessionTreeEntry) : nat :=
  match find_compaction pathEntries with
  | Some (prev, prevCompactionIndex) =>
      match compaction_summary prev with
      | Some (_, firstKept) =>
          default (S prevCompactionIndex) (find_index (fun e => String.eqb (id e) firstKept) pathEntries)
      | None => S prevCompactionIndex
      end
  | None => 0
  end.

(** The messages of the entries from index [a] up to [b]. *)
Definition messages_between (pathEntries : list SessionTreeEntry) (a b : nat) : list AgentMessage :=
  omap getMessageFromEntryForCompaction (drop a (take b pathEntries)).

Definition prepareCompaction (pathEntries : list SessionTreeEntry) (settings : CompactionSettings)
    : result CompactionError (option CompactionPreparation) :=
  if (length pathEntries =? 0)%nat || at_index is_compaction pathEntries (pred (length pathEntries))
  then Ok None
  else
    let prevCompaction := find_compaction pathEntries in
    let previousSummary := prevCompaction ≫= fun p => fst <$> compaction_summary (fst p) in
    let boundaryStart := boundary_start pathEntries in
    let boundaryEnd := length pathEntries in
    let tokensBefore :=
      tokens (estimateContextTokens literalValue (messages (buildSessionContext dateMs pathEntries))) in
    let cutPoint := findCutPoint pathEntries boundaryStart boundaryEnd (keepRecentTokens settings) in
    let firstKept := firstKeptEntryIndex cutPoint in
    let dropsHistoryEntries := (boundaryStart <? firstKept)%nat in
    let turnStart := default 0 (turnStartIndex cutPoint) in
    let summarizesSplitTurnPrefix := isSplitTurn cutPoint && (turnStart <? firstKept)%nat in
    if negb dropsHistoryEntries && negb summarizesSplitTurnPrefix then Ok None
    else
      match id <$> pathEntries !! firstKept with
      | None | Some EmptyString =>
          Err {| ce_code := invalid_session_error;
                 ce_message := "First kept entry has no UUID - session may need migration" |}
      | Some firstKeptEntryId =>
          let historyEnd := if isSplitTurn cutPoint then turnStart else firstKept in
          let messagesToSummarize := messages_between pathEntries boundaryStart historyEnd in
          let turnPrefixMessages :=
            if isSplitTurn cutPoint then messages_between pathEntries turnStart firstKept else [] in
          let fileOps0 := extractFileOperations messagesToSummarize pathEntries (snd <$> prevCompaction) in
          Ok (Some {| firstKeptEntryId := firstKeptEntryId; messagesToSummarize := messagesToSummarize;
                      turnPrefixMessages := turnPrefixMessages; prep_isSplitTurn := isSplitTurn cutPoint;
                      tokensBefore := tokensBefore; previousSummary := previousSummary;
                      fileOps := if isSplitTurn cutPoint
                                 then foldl extractFileOpsFromMessage fileOps0 turnPrefixMessages
                                 else fileOps0;
                      prep_settings := settings |})
      end.
End Prepare.

(** ** Summaries *)

(** The lines of a prompt; a double quote is written [dq]. *)
Definition dq : string := String quote_char EmptyString.

Definition SUMMARIZATION_SYSTEM_PROMPT : string := join lf
  ["You are a context summarization assistant. Your task is to read a conversation between a user and an AI coding assistant, then produce a structured summary following the exact format specified.";
   "";
   "Do NOT continue the conversation. Do NOT respond to any questions in the conversation. ONLY output the structured summary."].

Definition SUMMARIZATION_PROMPT : string := join lf
  ["The messages above are a conversation to summarize. Create a structured context checkpoint summary that another LLM will use to continue the work.";
   ""; "Use this EXACT format:"; "";
   "## Goal";
   "[What is the user trying to accomplish? Can be multiple items if the session covers different tasks.]"; "";
   "## Constraints & Preferences";
   "- [Any constraints, preferences, or requirements mentioned by user]";
   "- [Or " +:+ dq +:+ "(none)" +:+ dq +:+ " if none were mentioned]"; "";
   "## Progress"; "### Done"; "- [x] [Completed tasks/changes]"; "";
   "### In Progress"; "- [ ] [Current work]"; "";
   "### Blocked"; "- [Issues preventing progress, if any]"; "";
   "## Key Decisions"; "- **[Decision]**: [Brief rationale]"; "";
   "## Next Steps"; "1. [Ordered list of what should happen next]"; "";
   "## Critical Context";
   "- [Any data, examples, or references needed to continue]";
   "- [Or " +:+ dq +:+ "(none)" +:+ dq +:+ " if not applicable]"; "";
   "Keep each section concise. Preserve exact file paths, function names, and error messages."].

Definition UPDATE_SUMMARIZATION_PROMPT : string := join lf
  ["The messages above are NEW conversation messages to incorporate into the existing summary provided in <previous-summary> tags.";
   ""; "Update the existing structured summary with new information. RULES:";
   "- PRESERVE all existing information from the previous summary";
   "- ADD new progress, decisions, and context from the new messages";
   "- UPDATE the Progress section: move items from " +:+ dq +:+ "In Progress" +:+ dq +:+ " to "
     +:+ dq +:+ "Done" +:+ dq +:+ " when completed";
   "- UPDATE " +:+ dq +:+ "Next Steps" +:+ dq +:+ " based on what was accomplished";
   "- PRESERVE exact file paths, function names, and error messages";
   "- If something is no longer relevant, you may remove it"; "";
   "Use this EXACT format:"; "";
   "## Goal"; "[Preserve existing goals, add new ones if the task expanded]"; "";
   "## Constraints & Preferences"; "- [Preserve existing, add new ones discovered]"; "";
   "## Progress"; "### Done"; "- [x] [Include previously done items AND newly completed items]"; "";
   "### In Progress"; "- [ ] [Current work - update based on progress]"; "";
   "### Blocked"; "- [Current blockers - remove if resolved]"; "";
   "## Key Decisions"; "- **[Decision]**: [Brief rationale] (preserve all previous, add new)"; "";
   "## Next Steps"; "1. [Update based on current state]"; "";
   "## Critical Context"; "- [Preserve important context, add new if needed]"; "";
   "Keep each section concise. Preserve exact file paths, function names, and error messages."].

Definition TURN_PREFIX_SUMMARIZATION_PROMPT : string := join lf
  ["This is the PREFIX of a turn that was too large to keep. The SUFFIX (recent work) is retained."; "";
   "Summarize the prefix to provide context for the retained suffix:"; "";
   "## Original Request"; "[What did the user ask for in this turn?]"; "";
   "## Early Progress"; "- [Key decisions and work done in the prefix]"; "";
   "## Context for Suffix"; "- [Information needed to understand the retained recent work]"; "";
   "Be concise. Focus on what's needed to understand the kept suffix."].

(** What of the model and of its answer is used. *)
Record Model : Type := {
  maxTokens : jsnum;
  reasoning : bool;
}.

Record CompletionRequest : Type := {
  systemPrompt : string;
  promptText : string;
  req_maxTokens : jsnum;
  req_reasoning : option string;
}.

Record CompletionResponse : Type := {
  stopReason : string;
  errorMessage : option string;
  resp_content : list json;
}.

Record CompactionResult : Type := {
  summary : string;
  res_firstKeptEntryId : string;
  res_tokensBefore : Z;
  readFiles : list string;
  modifiedFiles : list string;
}.

(** [details] of the entry a result is saved as. *)
Definition details_json (r : CompactionResult) : json :=
  JsObj [("readFiles", JsArr (map JsStr (readFiles r))); ("modifiedFiles", JsArr (map JsStr (modifiedFiles r)))].

Definition nonempty (s : option string) : option string :=
  match s with
  | Some EmptyString | None => None
  | Some s => Some s
  end.

(** The doubles nearest to 0.8 and 0.5. *)
Definition SUMMARY_SHARE : Q := 3602879701896397 # 4503599627370496.
Definition PREFIX_SHARE : Q := 1 # 2.

(** [Math.min(Math.floor(share * reserveTokens), ...)] *)
Definition request_tokens (share : Q) (reserveTokens : jsnum) (model : Model) : jsnum :=
  num_min (match reserveTokens with
           | NumFin r => NumFin (inject_Z (mul_floor share r))
           | other => other
           end)
    (if num_lt (NumFin 0) (maxTokens model) then maxTokens model else NumInf false).

Definition request_reasoning (model : Model) (thinkingLevel : option string) : option string :=
  match nonempty thinkingLevel with
  | Some level => if reasoning model && negb (String.eqb level "off") then Some level else None
  | None => None
  end.

Definition conversation_text (messages : list AgentMessage) : string :=
  "<conversation>" +:+ lf +:+ serializeConversation (convertToLlm messages) +:+ lf +:+ "</conversation>"
  +:+ lf +:+ lf.

Definition response_error (what : string) (response : CompletionResponse) : option CompactionError :=
  if String.eqb (stopReason response) "aborted" then
    Some {| ce_code := aborted;
            ce_message := default (what +:+ " aborted") (nonempty (errorMessage response)) |}
  else if String.eqb (stopReason response) "error" then
    Some {| ce_code := summarization_failed;
            ce_message := what +:+ " failed: " +:+ default "Unknown error" (nonempty (errorMessage response)) |}
  else None.

Definition response_text (what : string) (response : CompletionResponse) : result CompactionError string :=
  match response_error what response with
  | Some e => Err e
  | None => Ok (join lf (block_texts (resp_content response)))
  end.

Section Compact.
Context {W : Type} (complete : CompletionRequest -> W -> result string CompletionResponse * W).
Context (model : Model) (thinkingLevel : option string).

Definition summary_prompt (customInstructions previousSummary : option string) (currentMessages : list AgentMessage)
    : string :=
  let basePrompt := match nonempty previousSummary with
                    | Some _ => UPDATE_SUMMARIZATION_PROMPT
                    | None => SUMMARIZATION_PROMPT
                    end in
  let basePrompt := match nonempty customInstructions with
                    | Some focus => basePrompt +:+ lf +:+ lf +:+ "Additional focus: " +:+ focus
                    | None => basePrompt
                    end in
  conversation_text currentMessages
  +:+ (match nonempty previousSummary with
       | Some previous => "<previous-summary>" +:+ lf +:+ previous +:+ lf +:+ "</previous-summary>" +:+ lf +:+ lf
       | None => ""
       end)
  +:+ basePrompt.

(** A request that rejects makes the whole call reject: the outer [result]. *)
Definition ask (what : string) (request : CompletionRequest) (w : W)
    : result string (result CompactionError string) * W :=
  let (response, w) := complete request w in
  (match response with
   | Ok response => Ok (response_text what response)
   | Err e => Err e
   end, w).

Definition generateSummary (currentMessages : list AgentMessage) (reserveTokens : jsnum)
    (customInstructions previousSummary : option string) : W -> result string (result CompactionError string) * W :=
  ask "Summarization"
    {| systemPrompt := SUMMARIZATION_SYSTEM_PROMPT;
       promptText := summary_prompt customInstructions previousSummary currentMessages;
       req_maxTokens := request_tokens SUMMARY_SHARE reserveTokens model;
       req_reasoning := request_reasoning model thinkingLevel |}.

Definition generateTurnPrefixSummary (messages : list AgentMessage) (reserveTokens : jsnum)
    : W -> result string (result CompactionError string) * W :=
  ask "Turn prefix summarization"
    {| systemPrompt := SUMMARIZATION_SYSTEM_PROMPT;
       promptText := conversation_text messages +:+ TURN_PREFIX_SUMMARIZATION_PROMPT;
       req_maxTokens := request_tokens PREFIX_SHARE reserveTokens model;
       req_reasoning := request_reasoning model thinkingLevel |}.

Definition split_summary (history prefix : string) : string :=
  history +:+ lf +:+ lf +:+ "---" +:+ lf +:+ lf +:+ "**Turn Context (split turn):**" +:+ lf +:+ lf +:+ prefix.

(** Both requests of a split turn are started, the history's first, whatever
    becomes of the other; of two rejections the history's is reported. *)
Definition summary_text (preparation : CompactionPreparation) (customInstructions : option string) (w : W)
    : result string (result CompactionError string) * W :=
  let reserve := reserveTokens (prep_settings preparation) in
  if prep_isSplitTurn preparation && negb (length (turnPrefixMessages preparation) =? 0)%nat then
    let (historyResult, w) :=
      if negb (length (messagesToSummarize preparation) =? 0)%nat
      then generateSummary (messagesToSummarize preparation) reserve customInstructions
             (previousSummary preparation) w
      else (Ok (Ok "No prior history."), w) in
    let (turnPrefixResult, w) := generateTurnPrefixSummary (turnPrefixMessages preparation) reserve w in
    (match historyResult, turnPrefixResult with
     | Err e, _ | _, Err e => Err e
     | Ok historyResult, Ok turnPrefixResult =>
         Ok (history <-? historyResult ;; prefix <-? turnPrefixResult ;; Ok (split_summary history prefix))
     end, w)
  else generateSummary (messagesToSummarize preparation) reserve customInstructions
         (previousSummary preparation) w.

Definition compact (preparation : CompactionPreparation) (customInstructions : option string) (w : W)
    : result string (result CompactionError CompactionResult) * W :=
  if is_empty (firstKeptEntryId preparation) then
    (Ok (Err {| ce_code := invalid_session_error;
                ce_message := "First kept entry has no UUID - session may need migration" |}), w)
  else
    let (text, w) := summary_text preparation customInstructions w in
    (match text with
     | Err e => Err e
     | Ok text =>
         let (readFiles, modifiedFiles) := computeFileLists (fileOps preparation) in
         Ok (text <-? text ;;
             Ok {| summary := text +:+ formatFileOperations readFiles modifiedFiles;
                   res_firstKeptEntryId := firstKeptEntryId preparation;
                   res_tokensBefore := tokensBefore preparation;
                   readFiles := readFiles; modifiedFiles := modifiedFiles |})
     end, w).
End Compact.

(** ** Lemmas: messages of a branch *)

(** What the session guarantees of a branch: distinct entry ids, no empty branch
    summary, and compactions that keep from an entry before them. *)
Definition no_empty_summary (e : SessionTreeEntry) : Prop :=
  match body e with
  | BranchSummaryEntry _ summary _ _ => summary <> EmptyString
  | _ => True
  end.

Definition keeps_backwards (path : list SessionTreeEntry) : Prop :=
  forall before c after summary firstKept tokens details hook,
    path = before ++ c :: after -> body c = CompactionEntry summary firstKept tokens details hook ->
    firstKept ∉ path_ids after.

Record branch_ok (path : list SessionTreeEntry) : Prop := {
  branch_ids : NoDup (path_ids path);
  branch_summaries : Forall no_empty_summary path;
  branch_backwards : keeps_backwards path;
}.

Section BranchLemmas.
Context (dateMs : string -> jsnum).

Lemma render_message (e : SessionTreeEntry) :
  no_empty_summary e -> render dateMs e = option_list (getMessageFromEntryForCompaction dateMs e).
Proof.
  unfold no_empty_summary, render, getMessageFromEntryForCompaction, getMessageFromEntry, is_compaction.
  destruct (body e); try done. by destruct summary0.
Qed.

Lemma render_all (l : list SessionTreeEntry) :
  Forall no_empty_summary l -> concat (map (render dateMs) l) = omap (getMessageFromEntryForCompaction dateMs) l.
Proof.
  induction 1 as [|e l He _ IH]; [done|]. cbn [map concat]. rewrite IH, render_message by done.
  cbn. by destruct (getMessageFromEntryForCompaction dateMs e).
Qed.

Lemma messages_between_split (path : list SessionTreeEntry) (a b c : nat) :
  (a <= b <= c)%nat ->
  messages_between dateMs path a c = messages_between dateMs path a b ++ messages_between dateMs path b c.
Proof.
  intros H. unfold messages_between. rewrite <- omap_app. f_equal.
  replace (take b path) with (take b (take c path)) by (rewrite take_take; f_equal; lia).
  generalize (take c path) as l. clear -H. intros l.
  rewrite <- (take_drop (b - a) (drop a l)) at 1. rewrite drop_drop, take_drop_commute.
  by replace (a + (b - a))%nat with b by lia.
Qed.

Lemma messages_to_end (path : list SessionTreeEntry) (a : nat) :
  messages_between dateMs path a (length path) = omap (getMessageFromEntryForCompaction dateMs) (drop a path).
Proof. unfold messages_between. by rewrite take_ge. Qed.

End BranchLemmas.

Lemma from_id_index (i : string) (l : list SessionTreeEntry) :
  from_id i l = match find_index (fun e => String.eqb (id e) i) l with
                | Some k => drop k l
                | None => []
                end.
Proof.
  induction l as [|e l IH]; [done|]. simpl. destruct (String.eqb (id e) i); [done|].
  rewrite IH. by destruct (find_index _ l).
Qed.

Lemma find_index_app {A} (p : A -> bool) (l l' : list A) :
  find_index p (l ++ l') = match find_index p l with
                           | Some k => Some k
                           | None => (fun k => (length l + k)%nat) <$> find_index p l'
                           end.
Proof.
  induction l as [|x l IH]; simpl; [by destruct (find_index p l')|]. destruct (p x); [done|].
  rewrite IH. destruct (find_index p l); [done|]. by destruct (find_index p l').
Qed.

Lemma find_index_none (i : string) (l : list SessionTreeEntry) :
  i ∉ path_ids l -> find_index (fun e => String.eqb (id e) i) l = None.
Proof.
  induction l as [|e l IH]; intros H; [done|]. simpl in *.
  destruct (String.eqb_spec (id e) i) as [<-|]; [set_solver|]. rewrite IH; [done|set_solver].
Qed.

Lemma find_index_id (l : list SessionTreeEntry) (k : nat) (e : SessionTreeEntry) :
  NoDup (path_ids l) -> l !! k = Some e -> find_index (fun x => String.eqb (id x) (id e)) l = Some k.
Proof.
  intros Hnd Hk. rewrite <- (take_drop_middle l k e Hk). rewrite (find_index_middle _ (take k l)).
  - rewrite length_take_le; [done|]. apply lookup_lt_Some in Hk. lia.
  - intros y Hy. apply String.eqb_neq. intros Heq.
    rewrite <- (take_drop_middle l k e Hk) in Hnd. unfold path_ids in Hnd. rewrite map_app in Hnd.
    apply NoDup_app in Hnd as (_ & Hd & _). apply (Hd (id y)); [by apply list_elem_of_fmap_2|].
    rewrite Heq. left.
  - apply String.eqb_refl.
Qed.

Lemma last_hit_middle {A B} (f : A -> option B) (l l' : list A) (x : A) (b : B) :
  f x = Some b -> (forall y, y ∈ l' -> f y = None) -> last_hit f (l ++ x :: l') = Some (b, length l).
Proof.
  intros Hx Hl'. induction l as [|y l IH]; simpl; [|by rewrite IH].
  assert (last_hit f l' = None) as ->; [|by rewrite Hx].
  clear -Hl'. induction l' as [|y l' IH]; [done|]. simpl. rewrite IH, (Hl' y); [done|left|].
  intros z Hz. apply Hl'. by right.
Qed.

Lemma last_hit_none {A B} (f : A -> option B) (l : list A) :
  (forall y, y ∈ l -> f y = None) -> last_hit f l = None.
Proof.
  induction l as [|y l IH]; intros H; [done|]. simpl. rewrite IH, (H y); [done|left|].
  intros z Hz. apply H. by right.
Qed.


(** The summary a context starts with. *)
Definition previous_messages (dateMs : string -> jsnum) (path : list SessionTreeEntry) : list AgentMessage :=
  match find_compaction path with
  | Some (c, _) =>
      match body c with
      | CompactionEntry summary _ tokens _ _ =>
          [createCompactionSummaryMessage dateMs summary tokens (timestamp c)]
      | _ => []
      end
  | None => []
  end.

Lemma find_compaction_cases (path : list SessionTreeEntry) :
  (find_compaction path = None /\ (forall e, e ∈ path -> is_compaction e = false)) \/
  exists before c after, path = before ++ c :: after /\ is_compaction c = true /\
    (forall e, e ∈ after -> is_compaction e = false) /\ find_compaction path = Some (c, length before).
Proof.
  unfold find_compaction. destruct (last_compaction path) as [Hno|(before & c & after & -> & Hc & Ha)].
  - left. split; [|done]. apply last_hit_none. intros e He. by rewrite Hno.
  - right. exists before, c, after. split_and!; [done..|]. apply last_hit_middle; [by rewrite Hc|].
    intros e He. by rewrite Ha.
Qed.

Section BranchContext.
Context (dateMs : string -> jsnum).

Lemma drop_compaction (c : SessionTreeEntry) (l : list SessionTreeEntry) :
  is_compaction c = true ->
  omap (getMessageFromEntryForCompaction dateMs) (c :: l) = omap (getMessageFromEntryForCompaction dateMs) l.
Proof. intros Hc. cbn. unfold getMessageFromEntryForCompaction at 1. by rewrite Hc. Qed.

(** A context is the previous summary followed by the messages from the
    boundary on. *)
Lemma context_between (path : list SessionTreeEntry) :
  branch_ok path ->
  messages (buildSessionContext dateMs path)
    = previous_messages dateMs path ++ messages_between dateMs path (boundary_start path) (length path).
Proof.
  intros [Hnd Hsum Hback]. rewrite messages_to_end. unfold previous_messages, boundary_start.
  destruct (find_compaction_cases path) as [[-> Hno]|(before & c & after & -> & Hc & Ha & ->)].
  - unfold buildSessionContext. cbn [messages]. rewrite scan_no_compaction by done.
    by rewrite render_all.
  - assert (Hid : id c ∉ path_ids before).
    { unfold path_ids in *. rewrite map_app in Hnd. apply NoDup_app in Hnd as (_ & Hd & _).
      intros Hin. apply (Hd _ Hin). left. }
    rewrite compacted_split by done. unfold compaction_summary.
    assert (Hb : exists s f t d h, body c = CompactionEntry s f t d h).
    { unfold is_compaction in Hc. destruct (body c); try done. eauto 6. }
    destruct Hb as (s & f & t & d & h & Hb). rewrite Hb. cbn [app]. f_equal.
    rewrite from_id_index, find_index_app.
    assert (Hsb : Forall no_empty_summary (drop (length before) (before ++ c :: after))) by by apply Forall_drop.
    rewrite drop_app_length in Hsb. inversion Hsb as [|? ? _ Hsa]; subst.
    destruct (find_index _ before) as [k|] eqn:Ek; cbn [default].
    + assert (Hk : (k <= length before)%nat).
      { clear -Ek. revert k Ek. induction before as [|e l IH]; intros k; simpl; [done|].
        destruct (String.eqb (id e) f); [intros [= <-]; lia|].
        destruct (find_index _ l) as [j|] eqn:Ej; [|done]. intros [= <-]. specialize (IH j eq_refl). lia. }
      change (default (S (length before)) (Some k)) with k. rewrite drop_app_le by done.
      rewrite render_all.
      * by rewrite !omap_app, drop_compaction.
      * apply Forall_app. split; [|done]. apply Forall_drop. by apply Forall_app in Hsum as [? _].
    + simpl. rewrite render_all by done. destruct (String.eqb (id c) f) eqn:Ef.
      * change (default _ _) with (length before + 0)%nat. rewrite Nat.add_0_r, drop_app_length.
        by rewrite drop_compaction.
      * rewrite find_index_none by exact (Hback before c after s f t d h eq_refl Hb). simpl.
        rewrite (cons_middle c before after), app_assoc.
        replace (S (length before)) with (length (before ++ [c])) by (rewrite length_app; simpl; lia).
        by rewrite drop_app_length.
Qed.

(** The context once a compaction that keeps from entry [k] on is appended. *)
Lemma context_after_compaction (path : list SessionTreeEntry) (k : nat) (e c : SessionTreeEntry)
    (summary : string) (tokens : Z) (details : option json) (hook : option bool) :
  branch_ok path -> path !! k = Some e -> id c ∉ path_ids path ->
  body c = CompactionEntry summary (id e) tokens details hook ->
  messages (buildSessionContext dateMs (path ++ [c]))
    = createCompactionSummaryMessage dateMs summary tokens (timestamp c)
      :: messages_between dateMs path k (length path).
Proof.
  intros [Hnd Hsum Hback] He Hc Hb.
  rewrite compacted_split; [|unfold is_compaction; by rewrite Hb|by intros ? ?%elem_of_nil|done].
  rewrite Hb, app_nil_r, from_id_index, (find_index_id path k e) by done.
  rewrite render_all, messages_to_end; [done|]. by apply Forall_drop.
Qed.
End BranchContext.

(** A preparation, in terms of the indices it was cut at. *)
Lemma prepare_shape (dateMs : string -> jsnum) (literalValue : string -> Z) (path : list SessionTreeEntry)
    (settings : CompactionSettings) (p : CompactionPreparation) :
  prepareCompaction dateMs literalValue path settings = Ok (Some p) ->
  let s := boundary_start path in
  exists c e, (s <= c < length path)%nat /\ at_index is_cut_point path c = true /\
    let k := walk_back path s c in
    path !! k = Some e /\ id e = firstKeptEntryId p /\
    messages_between dateMs path s k = messagesToSummarize p ++ turnPrefixMessages p /\
    previousSummary p = (find_compaction path ≫= fun q => fst <$> compaction_summary (fst q)) /\
    tokensBefore p = tokens (estimateContextTokens literalValue (messages (buildSessionContext dateMs path))).
Proof.
  unfold prepareCompaction. destruct (_ || _); [done|]. cbv zeta.
  set (s := boundary_start path). set (r := findCutPoint path s (length path) (keepRecentTokens settings)).
  pose proof (findCutPoint_shape path s (length path) (keepRecentTokens settings)) as Hs.
  cbv zeta in Hs. fold r in Hs.
  destruct (negb _ && negb _) eqn:Eb; [done|].
  destruct Hs as [[Hk Hsp]|(c & Hc & Hcut & Hk & Ht)].
  { exfalso. rewrite Hk, Hsp, Nat.ltb_irrefl in Eb. done. }
  destruct (walk_back_spec path s c) as (Hw & _ & _); [lia|]. rewrite <- Hk in Hw.
  destruct (path !! firstKeptEntryIndex r) as [e|] eqn:Ee; [|done]. cbn [fmap option_fmap option_map].
  destruct (id e) as [|a i] eqn:Ei; [done|]. intros [= <-]. cbn.
  exists c, e. split_and!; try done; try lia; rewrite <- Hk; try done.
  destruct (isSplitTurn r) eqn:Es; [|by rewrite app_nil_r].
  destruct (Ht eq_refl) as (t & -> & Hf).
  pose proof (findTurnStartIndex_spec path (firstKeptEntryIndex r) s) as Hts. rewrite Hf in Hts.
  apply messages_between_split. simpl. lia.
Qed.

(** ** What the transcript inspector reads of a context *)

Definition as_block (block : json) : TranscriptIntegrity.Block :=
  if String.eqb (block_type block) "toolCall"
  then TranscriptIntegrity.ToolCallBlock
         {| TranscriptIntegrity.tc_id := default "" (jstr "id" block);
            TranscriptIntegrity.tc_name := default "" (jstr "name" block) |}
  else TranscriptIntegrity.OtherBlock JNull.

Definition as_transcript (m : AgentMessage) : TranscriptIntegrity.AgentMessage :=
  let role := message_role m in
  if String.eqb role "assistant"
  then TranscriptIntegrity.AssistantMsg (map as_block (content_blocks (message_content m)))
  else if String.eqb role "toolResult"
  then TranscriptIntegrity.ToolResultMsg
         {| TranscriptIntegrity.toolCallId := default "" (message_field "toolCallId" m);
            TranscriptIntegrity.toolName := default "" (message_field "toolName" m);
            TranscriptIntegrity.tr_content := JNull; TranscriptIntegrity.details := JNull;
            TranscriptIntegrity.isError := false; TranscriptIntegrity.timestamp := NumNaN |}
  else TranscriptIntegrity.OtherMsg role JNull.

Lemma cut_role_no_result (m : AgentMessage) :
  existsb (String.eqb (message_role m)) cut_roles = true -> TranscriptIntegrity.is_result (as_transcript m) = false.
Proof.
  unfold as_transcript. simpl. intros H.
  repeat (apply orb_true_iff in H as [H|H]; [apply String.eqb_eq in H; by rewrite H|]). done.
Qed.

Lemma head_omap_app {A B} (f : A -> option B) (l : list A) (x : A) (l' : list A) (b : B) :
  f x = Some b -> head (omap f (l ++ x :: l')) = head (omap f l ++ [b]).
Proof.
  intros Hx. rewrite omap_app. cbn. rewrite Hx. by destruct (omap f l).
Qed.

(** The kept messages never begin with the result of a call. *)
Lemma kept_head (dateMs : string -> jsnum) (path : list SessionTreeEntry) (s c : nat) (m : AgentMessage) :
  (s <= c < length path)%nat -> at_index is_cut_point path c = true ->
  head (messages_between dateMs path (walk_back path s c) (length path)) = Some m ->
  TranscriptIntegrity.is_result (as_transcript m) = false.
Proof.
  intros Hc Hcut. rewrite messages_to_end. destruct (walk_back_spec path s c) as (Hw & Hno & _); [lia|].
  set (k := walk_back path s c) in *. unfold at_index in Hcut.
  destruct (path !! c) as [e|] eqn:Ee; [|done].
  assert (Hd : drop k path = take (c - k) (drop k path) ++ e :: drop (S c) path).
  { rewrite <- (take_drop (c - k) (drop k path)) at 1. f_equal. rewrite drop_drop.
    replace (k + (c - k))%nat with c by lia. by apply drop_S. }
  assert (Hm : exists m, getMessageFromEntryForCompaction dateMs e = Some m /\
            TranscriptIntegrity.is_result (as_transcript m) = false).
  { revert Hcut. unfold is_cut_point, getMessageFromEntryForCompaction, getMessageFromEntry, is_compaction.
    destruct (body e); try done; intros H; eexists; split; try done. by apply cut_role_no_result. }
  destruct Hm as (m0 & Hm0 & Hr0). rewrite Hd, (head_omap_app _ _ _ _ m0) by done.
  assert (Hall : forall x, x ∈ take (c - k) (drop k path) -> is_compaction x || is_message x = false).
  { intros x (j & Hj)%list_elem_of_lookup. apply lookup_take_Some in Hj as [Hj Hlt].
    rewrite lookup_drop in Hj. apply (Hno (k + j)%nat); [lia|done]. }
  revert Hall. generalize (take (c - k) (drop k path)). intros l Hall.
  induction l as [|x l IH]; [by intros [= <-]|]. cbn.
  destruct (getMessageFromEntryForCompaction dateMs x) as [mx|] eqn:Ex.
  - intros [= <-]. specialize (Hall x ltac:(left)). revert Ex Hall.
    unfold getMessageFromEntryForCompaction, getMessageFromEntry, is_compaction, is_message.
    by destruct (body x); intros [= <-].
  - apply IH. intros y Hy. apply Hall. by right.
Qed.

(** ** Lemmas: the files *)

Lemma elem_of_set_add (x y : string) (s : list string) : y ∈ set_add x s <-> y ∈ s \/ y = x.
Proof.
  unfold set_add. destruct (existsb (String.eqb x) s) eqn:E.
  - apply existsb_true_iff in E as (z & Hz & ->%String.eqb_eq). naive_solver.
  - rewrite elem_of_app, list_elem_of_singleton. done.
Qed.

Lemma set_add_NoDup (x : string) (s : list string) : NoDup s -> NoDup (set_add x s).
Proof.
  unfold set_add. intros H. destruct (existsb (String.eqb x) s) eqn:E; [done|].
  apply NoDup_app. split_and!; [done| |by apply NoDup_singleton].
  intros y Hy ->%list_elem_of_singleton. rewrite existsb_false_iff in E.
  specialize (E x Hy). by rewrite String.eqb_refl in E.
Qed.

Lemma foldl_set_add (l s : list string) :
  (forall y, y ∈ foldl (fun s f => set_add f s) s l <-> y ∈ s \/ y ∈ l) /\
  (NoDup s -> NoDup (foldl (fun s f => set_add f s) s l)).
Proof.
  revert s. induction l as [|x l IH]; intros s; simpl.
  - split; [|done]. intros y. rewrite elem_of_nil. naive_solver.
  - destruct (IH (set_add x s)) as [H1 H2]. split; [|intros Hs; by apply H2, set_add_NoDup].
    intros y. rewrite H1, elem_of_set_add, elem_of_cons. naive_solver.
Qed.

Lemma fold_messages (ms : list AgentMessage) (ops : FileOperations) :
  foldl extractFileOpsFromMessage ops ms = foldl add_call ops (concat (map message_file_calls ms)).
Proof.
  revert ops. induction ms as [|m ms IH]; intros ops; [done|]. cbn [map concat foldl].
  by rewrite IH, foldl_app.
Qed.

(** What a list of calls adds to the three sets. *)
Lemma fold_calls (calls : list (string * string)) (ops : FileOperations) :
  let ops' := foldl add_call ops calls in
  (forall f, f ∈ read ops' <-> f ∈ read ops \/ ("read", f) ∈ calls) /\
  (forall f, f ∈ written ops' <-> f ∈ written ops \/ ("write", f) ∈ calls) /\
  (forall f, f ∈ edited ops' <-> f ∈ edited ops \/ ("edit", f) ∈ calls) /\
  (NoDup (read ops) -> NoDup (read ops')).
Proof.
  revert ops. induction calls as [|[name path] calls IH]; intros ops; cbn [foldl].
  - split_and!; try done; intros f; rewrite elem_of_nil; naive_solver.
  - destruct (IH (add_call ops (name, path))) as (H1 & H2 & H3 & H4).
    unfold add_call in *.
    destruct (String.eqb_spec name "read") as [->|Hr];
      [|destruct (String.eqb_spec name "write") as [->|Hw];
        [|destruct (String.eqb_spec name "edit") as [->|He]]]; cbn [read written edited add_read add_written add_edited] in *;
      (split_and!; [intros f; rewrite H1|intros f; rewrite H2|intros f; rewrite H3|
        intros Hn; apply H4; try apply set_add_NoDup; done]);
      rewrite ?elem_of_set_add, elem_of_cons; naive_solver.
Qed.

(** The file lists a compaction entry stores, unless an extension wrote it. *)
Definition stored_files (key : string) (entry : option SessionTreeEntry) : list string :=
  match entry with
  | Some e =>
      match body e with
      | CompactionEntry _ _ _ (Some details) fromHook =>
          if default false fromHook then [] else string_elements (jget key details)
      | _ => []
      end
  | None => []
  end.

Lemma previous_file_ops_spec (prev : option SessionTreeEntry) :
  let ops := previous_file_ops prev in
  (forall f, f ∈ read ops <-> f ∈ stored_files "readFiles" prev) /\ written ops = [] /\
  (forall f, f ∈ edited ops <-> f ∈ stored_files "modifiedFiles" prev) /\ NoDup (read ops).
Proof.
  assert (Hr : forall l ops, let ops' := foldl (fun ops f => add_read f ops) ops l in
            read ops' = foldl (fun s f => set_add f s) (read ops) l /\ written ops' = written ops /\ edited ops' = edited ops).
  { induction l as [|x l IH]; intros ops; [done|]. cbn [foldl]. by apply (IH (add_read x ops)). }
  assert (He : forall l ops, let ops' := foldl (fun ops f => add_edited f ops) ops l in
            edited ops' = foldl (fun s f => set_add f s) (edited ops) l /\ written ops' = written ops /\ read ops' = read ops).
  { induction l as [|x l IH]; intros ops; [done|]. cbn [foldl]. by apply (IH (add_edited x ops)). }
  unfold previous_file_ops, stored_files.
  destruct prev as [e|]; [|split_and!; [done|done|done|constructor]].
  destruct (body e); try (split_and!; [done|done|done|constructor]).
  destruct details as [details|]; [|split_and!; [done|done|done|constructor]].
  destruct (default false fromHook); [split_and!; [done|done|done|constructor]|]. cbv zeta.
  destruct (He (string_elements (jget "modifiedFiles" details))
              (foldl (fun ops f => add_read f ops) createFileOps (string_elements (jget "readFiles" details))))
    as (-> & -> & ->).
  destruct (Hr (string_elements (jget "readFiles" details)) createFileOps) as (-> & -> & ->).
  destruct (foldl_set_add (string_elements (jget "readFiles" details)) []) as [H1 H2].
  destruct (foldl_set_add (string_elements (jget "modifiedFiles" details)) []) as [H3 _].
  cbn [read written edited createFileOps].
  split_and!; [|done| |apply H2; constructor]; intros f; rewrite ?H1, ?H3, elem_of_nil; naive_solver.
Qed.

Lemma computeFileLists_spec (ops : FileOperations) :
  NoDup (read ops) ->
  let (readOnly, modified) := computeFileLists ops in
  (forall f, f ∈ modified <-> f ∈ edited ops \/ f ∈ written ops) /\
  (forall f, f ∈ readOnly <-> f ∈ read ops /\ f ∉ modified) /\
  NoDup readOnly /\ NoDup modified /\
  StronglySorted (cmp_le str_compare) readOnly /\ StronglySorted (cmp_le str_compare) modified.
Proof.
  intros Hnd. unfold computeFileLists.
  destruct (foldl_set_add (edited ops ++ written ops) []) as [Hin Hdup].
  set (modified := foldl _ [] _) in *.
  assert (Hm : forall f, f ∈ stable_sort str_compare modified <-> f ∈ edited ops \/ f ∈ written ops).
  { intros f. rewrite elem_of_stable_sort, Hin, elem_of_nil, elem_of_app. naive_solver. }
  split_and!; [done| | | | |].
  - intros f. rewrite elem_of_stable_sort, elem_of_filter_list, negb_true_iff, elem_of_stable_sort.
    rewrite <- not_true_iff_false, existsb_eqb_elem. done.
  - rewrite stable_sort_perm. by apply NoDup_filter_list.
  - rewrite stable_sort_perm. apply Hdup. constructor.
  - apply sort_strings_sorted.
  - apply sort_strings_sorted.
Qed.

Lemma find_compaction_lookup (path : list SessionTreeEntry) :
  ((snd <$> find_compaction path) ≫= fun i => path !! i) = (fst <$> find_compaction path).
Proof.
  destruct (find_compaction_cases path) as [[-> _]|(before & c & after & Hpath & _ & _ & ->)]; [done|].
  cbn. by rewrite Hpath, list_lookup_middle.
Qed.

(** [branch_ok] as a test. *)
Fixpoint keeps_backwards_b (path : list SessionTreeEntry) : bool :=
  match path with
  | [] => true
  | e :: rest =>
      match compaction_summary e with
      | Some (_, firstKept) => negb (existsb (String.eqb firstKept) (path_ids rest))
      | None => true
      end && keeps_backwards_b rest
  end.

Lemma keeps_backwards_b_ok (path : list SessionTreeEntry) : keeps_backwards_b path = true -> keeps_backwards path.
Proof.
  intros H before c after summary firstKept tokens details hook -> Hb.
  induction before as [|e before IH]; simpl in H; breflect; [|by apply IH].
  unfold compaction_summary in H. rewrite Hb in H. breflect.
  by rewrite <- existsb_eqb_elem, H.
Qed.

Definition branch_ok_b (path : list SessionTreeEntry) : bool :=
  bool_decide (NoDup (path_ids path))
  && forallb (fun e => match body e with
                       | BranchSummaryEntry _ summary _ _ => negb (is_empty summary)
                       | _ => true
                       end) path
  && keeps_backwards_b path.

Lemma branch_ok_test (path : list SessionTreeEntry) : branch_ok_b path = true -> branch_ok path.
Proof.
  unfold branch_ok_b. intros H. breflect. split; [done| |by apply keeps_backwards_b_ok].
  apply Forall_forall. intros e He. rewrite forallb_true_iff in H1. specialize (H1 e He).
  unfold no_empty_summary. destruct (body e); try done. by destruct summary0.
Qed.

(** ** Properties *)


(** Compaction keeps transcripts well formed. If the messages of a branch pass
    the transcript inspection, so does the context after a compaction: it never
    starts in the middle of the results of a message with tool calls. *)
Theorem compaction_keeps_transcript (dateMs : string -> jsnum) (literalValue : string -> Z)
    (path : list SessionTreeEntry) (settings : CompactionSettings) (p : CompactionPreparation)
    (c : SessionTreeEntry) (summary : string) (tokens : Z) (details : option json) (hook : option bool) :
  branch_ok path -> prepareCompaction dateMs literalValue path settings = Ok (Some p) ->
  id c ∉ path_ids path -> body c = CompactionEntry summary (firstKeptEntryId p) tokens details hook ->
  let ok_context ctx :=
    TranscriptIntegrity.ok (TranscriptIntegrity.inspectTranscriptIntegrity (map as_transcript (messages ctx))) = true in
  ok_context (buildSessionContext dateMs path) -> ok_context (buildSessionContext dateMs (path ++ [c])).
Proof.
  intros Hok Hp Hc Hb okc. unfold okc. rewrite !TranscriptIntegrity.inspect_balanced.
  destruct (prepare_shape _ _ _ _ _ Hp) as (x & e & Hx & Hcut & He & Hid & Hm & _).
  set (k := walk_back path (boundary_start path) x) in *.
  destruct (walk_back_spec path (boundary_start path) x) as (Hw & _ & _); [lia|]. fold k in Hw.
  rewrite <- Hid in Hb. rewrite (context_after_compaction dateMs path k e c summary tokens details hook) by done.
  rewrite context_between, (messages_between_split dateMs path (boundary_start path) k) by (done || lia).
  set (kept := messages_between dateMs path k (length path)). rewrite app_assoc, map_app.
  intros [Hnd Hbal]. cbn [map]. split.
  - unfold TranscriptIntegrity.call_ids in *. rewrite map_app, concat_app in Hnd.
    apply NoDup_app in Hnd as (_ & _ & Hnd). done.
  - constructor; [done|done|]. eapply TranscriptIntegrity.balanced_app_r; [exact Hbal|].
    intros m Hh. pose proof (kept_head dateMs path (boundary_start path) x) as Hkh.
    fold k in Hkh. fold kept in Hkh. clearbody kept. destruct kept as [|m0 rest]; [done|].
    injection Hh as <-. by apply (Hkh m0).
Qed.

(** The files a compaction reports. The modified files are exactly those the
    previous compaction reported (unless an extension wrote it) and those some
    summarised call edits or writes; the read files those read and not
    modified; both lists are sorted and without duplicates. *)
Theorem compaction_files (dateMs : string -> jsnum) (literalValue : string -> Z)
    (path : list SessionTreeEntry) (settings : CompactionSettings) (p : CompactionPreparation) :
  prepareCompaction dateMs literalValue path settings = Ok (Some p) ->
  let previous := fst <$> find_compaction path in
  let calls := concat (map message_file_calls (messagesToSummarize p ++ turnPrefixMessages p)) in
  let (readOnly, modified) := computeFileLists (fileOps p) in
  (forall f, f ∈ modified <-> f ∈ stored_files "modifiedFiles" previous \/ ("edit", f) ∈ calls \/ ("write", f) ∈ calls) /\
  (forall f, f ∈ readOnly <-> (f ∈ stored_files "readFiles" previous \/ ("read", f) ∈ calls) /\ f ∉ modified) /\
  NoDup readOnly /\ NoDup modified /\
  StronglySorted (cmp_le str_compare) readOnly /\ StronglySorted (cmp_le str_compare) modified.
Proof.
  intros Hp previous calls. assert (Hops : fileOps p = foldl add_call (previous_file_ops previous) calls).
  { revert Hp. unfold calls, previous. clear. unfold prepareCompaction. destruct (_ || _); [done|]. cbv zeta.
    destruct (negb _ && negb _); [done|]. destruct (id <$> _) as [[|a i]|]; try done. intros [= <-]. cbn.
    rewrite map_app, concat_app, foldl_app. unfold extractFileOperations.
    rewrite (find_compaction_lookup path). destruct (isSplitTurn _); [by rewrite !fold_messages|].
    by rewrite fold_messages. }
  destruct (previous_file_ops_spec previous) as (H1 & H2 & H3 & H4).
  destruct (fold_calls calls (previous_file_ops previous)) as (F1 & F2 & F3 & F4). rewrite <- Hops in F1, F2, F3, F4.
  pose proof (computeFileLists_spec (fileOps p) (F4 H4)) as Hs. destruct (computeFileLists _) as [ro md].
  destruct Hs as (S1 & S2 & S3). split_and!; [| |apply S3..].
  - intros f. rewrite S1, F3, F2, H2, H3, elem_of_nil. naive_solver.
  - intros f. rewrite S2, F1, H1. done.
Qed.

Definition default_settings (keep : nat) : CompactionSettings :=
  {| enabled := true; reserveTokens := num_of_nat 100; keepRecentTokens := num_of_nat keep; maxUsageRatio := None |}.

(** The entries after the kept cut [d] of [long_turn]; the entry appended. *)
Definition sample_compaction (firstKept : string) : SessionTreeEntry :=
  sample_entry "z" (Some "f") (CompactionEntry "the sum" firstKept 57 None None).


Lemma compaction_keeps_transcript_witness :
  exists p, prepareCompaction (fun _ => NumNaN) (fun _ => 0%Z) long_turn (default_settings 20) = Ok (Some p) /\
    TranscriptIntegrity.ok (TranscriptIntegrity.inspectTranscriptIntegrity (map as_transcript
      (messages (buildSessionContext (fun _ => NumNaN) (long_turn ++ [sample_compaction (firstKeptEntryId p)]))))) = true.
Proof.
  eexists. split; [vm_compute; reflexivity|].
  match goal with |- context [firstKeptEntryId ?q] => set (p := q) end.
  refine (compaction_keeps_transcript (fun _ => NumNaN) (fun _ => 0%Z) long_turn (default_settings 20) p
    (sample_compaction (firstKeptEntryId p)) "the sum" 57%Z None None _ _ _ eq_refl _).
  - apply branch_ok_test. vm_compute. reflexivity.
  - vm_compute. reflexivity.
  - apply (bool_decide_eq_true_1 _). vm_compute. reflexivity.
  - vm_compute. reflexivity.
Defined.

Lemma compaction_files_witness :
  exists p, prepareCompaction (fun _ => NumNaN) (fun _ => 0%Z) long_turn (default_settings 20) = Ok (Some p) /\
    computeFileLists (fileOps p) = (["a.ts"], []) /\
    ("a.ts" ∈ ["a.ts"] <-> ("a.ts" ∈ @nil string \/
       ("read", "a.ts") ∈ concat (map message_file_calls (messagesToSummarize p ++ turnPrefixMessages p)))
       /\ "a.ts" ∉ @nil string).
Proof.
  eexists. split; [vm_compute; reflexivity|]. split; [reflexivity|].
  match goal with |- context [messagesToSummarize ?q] => set (p := q) end.
  destruct (compaction_files (fun _ => NumNaN) (fun _ => 0%Z) long_turn (default_settings 20) p) as (_ & H & _).
  - vm_compute. reflexivity.
  - exact (H "a.ts").
Defined.

(** ** A counterexample

    When the same turn is split a second time there is no history to summarise,
    and the summary of the first split, which [preparation] carries, takes part
    in no request: whatever it was, the result is the same. *)

Definition with_previous (previous : option string) (p : CompactionPreparation) : CompactionPreparation :=
  {| firstKeptEntryId := firstKeptEntryId p; messagesToSummarize := messagesToSummarize p;
     turnPrefixMessages := turnPrefixMessages p; prep_isSplitTurn := prep_isSplitTurn p;
     tokensBefore := tokensBefore p; previousSummary := previous; fileOps := fileOps p;
     prep_settings := prep_settings p |}.

(** A long turn whose beginning was compacted away, and went on. *)
Definition resplit_turn : list SessionTreeEntry :=
  [sample_entry "u" None (MessageEntry (user_message "an earlier question"));
   sample_entry "a" (Some "u") (MessageEntry (user_message "read both files"));
   sample_entry "b" (Some "a") (MessageEntry (tool_call_message "t1"));
   sample_entry "c" (Some "b") (MessageEntry (tool_result_message "t1" "the text of the first file"));
   sample_entry "k" (Some "c") (CompactionEntry "what the earlier question was" "a" 60 None None);
   sample_entry "e" (Some "k") (MessageEntry (tool_call_message "t2"));
   sample_entry "f" (Some "e") (MessageEntry (tool_result_message "t2" "the text of the second file"))].

Lemma split_turn_drops_previous_summary :
  branch_ok resplit_turn /\
  exists p, prepareCompaction (fun _ => NumNaN) (fun _ => 0%Z) resplit_turn (default_settings 20) = Ok (Some p) /\
    previousSummary p = Some "what the earlier question was" /\
    forall (W : Type) (complete : CompletionRequest -> W -> result string CompletionResponse * W) model thinking
           custom previous w,
      compact complete model thinking p custom w = compact complete model thinking (with_previous previous p) custom w.
Proof.
  split; [apply branch_ok_test; vm_compute; reflexivity|].
  eexists. split; [vm_compute; reflexivity|]. split; [reflexivity|]. done.
Qed.
