(* ===== verification/Program.v ===== *)
(** * Programs with state and exceptions

    Asynchronous code that the sources await one step at a time: a computation
    over a state that ends with a value or throws a message, keeping the state
    it had reached. [holds] is the Hoare triple of such a computation with a
    postcondition for each way to end. *)

From Stdlib Require Import String Lia.
From stdpp Require Import base list option strings.
From S2P Require Import Prelude.

Definition prog (S A : Type) : Type := S -> result string A * S.

Section Program.
Context {S : Type}.

Definition ret {A} (a : A) : prog S A := fun s => (Ok a, s).
Definition throw {A} (e : string) : prog S A := fun s => (Err e, s).
Definition get : prog S S := fun s => (Ok s, s).

Definition bind {A B} (c : prog S A) (k : A -> prog S B) : prog S B := fun s =>
  match c s with
  | (Ok a, s') => k a s'
  | (Err e, s') => (Err e, s')
  end.

(** [try { c } catch (error) { h(error) }] *)
Definition catch {A} (c : prog S A) (h : string -> prog S A) : prog S A := fun s =>
  match c s with
  | (Ok a, s') => (Ok a, s')
  | (Err e, s') => h e s'
  end.

(** A call that may throw but does not touch the state. *)
Definition pure_result {A} (r : result string A) : prog S A := fun s => (r, s).

Fixpoint for_each {A} (f : A -> prog S unit) (l : list A) : prog S unit :=
  match l with
  | [] => ret tt
  | x :: l' => bind (f x) (fun _ => for_each f l')
  end.
End Program.

Declare Scope prog_scope.
Delimit Scope prog_scope with prog.

Notation "x <-! c ;; k" := (bind c (fun x => k))
  (at level 100, c at next level, right associativity) : prog_scope.
Notation "'do!' c ;; k" := (bind c (fun _ => k))
  (at level 100, c at next level, right associativity) : prog_scope.

Open Scope prog_scope.

(** ** Triples *)

Definition holds {S A} (P : S -> Prop) (c : prog S A) (Q : A -> S -> Prop) (E : string -> S -> Prop) : Prop :=
  forall s, P s ->
  match c s with
  | (Ok a, s') => Q a s'
  | (Err e, s') => E e s'
  end.

Section Rules.
Context {S : Type}.
Implicit Types P : S -> Prop.

Lemma holds_ret {A} P (a : A) (Q : A -> S -> Prop) E : (forall s, P s -> Q a s) -> holds P (ret a) Q E.
Proof. intros H s Hs. by apply H. Qed.

Lemma holds_throw {A} P (e : string) (Q : A -> S -> Prop) E : (forall s, P s -> E e s) -> holds P (throw e) Q E.
Proof. intros H s Hs. by apply H. Qed.

Lemma holds_get P (Q : S -> S -> Prop) E : (forall s, P s -> Q s s) -> holds P get Q E.
Proof. intros H s Hs. by apply H. Qed.

Lemma holds_bind {A B} P (c : prog S A) (k : A -> prog S B) (R : A -> S -> Prop) Q E :
  holds P c R E -> (forall a, holds (R a) (k a) Q E) -> holds P (bind c k) Q E.
Proof.
  intros Hc Hk s Hs. unfold bind. specialize (Hc s Hs). destruct (c s) as [[a|e] s']; [|done].
  by apply Hk.
Qed.

Lemma holds_catch {A} P (c : prog S A) (h : string -> prog S A) Q (R E : string -> S -> Prop) :
  holds P c Q R -> (forall e, holds (R e) (h e) Q E) -> holds P (catch c h) Q E.
Proof.
  intros Hc Hh s Hs. unfold catch. specialize (Hc s Hs). destruct (c s) as [[a|e] s']; [done|].
  by apply Hh.
Qed.

Lemma holds_pure {A} P (r : result string A) Q E :
  (forall s a, P s -> r = Ok a -> Q a s) -> (forall s e, P s -> r = Err e -> E e s) ->
  holds P (pure_result r) Q E.
Proof. intros H1 H2 s Hs. unfold pure_result. destruct r; auto. Qed.

Lemma holds_conseq {A} P P' (c : prog S A) (Q Q' : A -> S -> Prop) (E E' : string -> S -> Prop) :
  holds P' c Q' E' -> (forall s, P s -> P' s) -> (forall a s, Q' a s -> Q a s) ->
  (forall e s, E' e s -> E e s) -> holds P c Q E.
Proof.
  intros H HP HQ HE s Hs. specialize (H s (HP s Hs)). destruct (c s) as [[a|e] s']; auto.
Qed.

(** What holds whatever the state is may be used to prove a triple. *)
Lemma holds_assume {A} P (X : Prop) (c : prog S A) Q E :
  (X -> holds P c Q E) -> holds (fun s => X /\ P s) c Q E.
Proof. intros H s [Hx Hs]. by apply H. Qed.

Lemma holds_at {A} P (c : prog S A) Q E :
  (forall s0, P s0 -> holds (fun s => s = s0) c Q E) -> holds P c Q E.
Proof. intros H s Hs. by apply (H s Hs s). Qed.

Lemma holds_run {A} P (c : prog S A) Q E s a s' :
  holds P c Q E -> P s -> c s = (Ok a, s') -> Q a s'.
Proof. intros H Hs Hc. specialize (H s Hs). by rewrite Hc in H. Qed.
End Rules.

(** ** What a computation keeps and returns *)

(** A triple about the value alone: [yields] also says that it throws nothing. *)
Definition returns {S A} (c : prog S A) (Q : A -> Prop) : Prop :=
  holds (fun _ => True) c (fun a _ => Q a) (fun _ _ => True).

Definition yields {S A} (c : prog S A) (Q : A -> Prop) : Prop :=
  holds (fun _ => True) c (fun a _ => Q a) (fun _ _ => False).

Section Values.
Context {S : Type}.

Lemma returns_ret {A} (a : A) (Q : A -> Prop) : Q a -> returns (S := S) (ret a) Q.
Proof. intros H s _. exact H. Qed.

Lemma returns_any {A} (c : prog S A) : returns c (fun _ => True).
Proof. intros s _. by destruct (c s) as [[] ?]. Qed.

Lemma returns_pure {A} (r : result string A) (Q : A -> Prop) :
  (forall a, r = Ok a -> Q a) -> returns (S := S) (pure_result r) Q.
Proof. intros H s _. unfold pure_result. destruct r; auto. Qed.

Lemma returns_bind {A B} (c : prog S A) (k : A -> prog S B) (R : A -> Prop) (Q : B -> Prop) :
  returns c R -> (forall a, R a -> returns (k a) Q) -> returns (bind c k) Q.
Proof.
  intros Hc Hk s _. unfold bind. specialize (Hc s I). destruct (c s) as [[a|e] s']; [|done].
  by apply (Hk a Hc).
Qed.

Lemma returns_catch {A} (c : prog S A) (h : string -> prog S A) (Q : A -> Prop) :
  returns c Q -> (forall e, returns (h e) Q) -> returns (catch c h) Q.
Proof.
  intros Hc Hh s _. unfold catch. specialize (Hc s I). destruct (c s) as [[a|e] s']; [done|].
  by apply Hh.
Qed.

Lemma yields_ret {A} (a : A) (Q : A -> Prop) : Q a -> yields (S := S) (ret a) Q.
Proof. intros H s _. exact H. Qed.

Lemma yields_pure {A} (r : result string A) (a : A) (Q : A -> Prop) :
  r = Ok a -> Q a -> yields (S := S) (pure_result r) Q.
Proof. intros -> H s _. exact H. Qed.

Lemma yields_bind {A B} (c : prog S A) (k : A -> prog S B) (R : A -> Prop) (Q : B -> Prop) :
  yields c R -> (forall a, R a -> yields (k a) Q) -> yields (bind c k) Q.
Proof.
  intros Hc Hk s _. unfold bind. specialize (Hc s I). destruct (c s) as [[a|e] s']; [|done].
  by apply (Hk a Hc).
Qed.

(** A handler that throws nothing covers whatever is thrown. *)
Lemma yields_catch {A} (c : prog S A) (h : string -> prog S A) (Q : A -> Prop) :
  returns c Q -> (forall e, yields (h e) Q) -> yields (catch c h) Q.
Proof.
  intros Hc Hh s _. unfold catch. specialize (Hc s I). destruct (c s) as [[a|e] s']; [done|].
  by apply Hh.
Qed.

Lemma yields_returns {A} (c : prog S A) (Q : A -> Prop) : yields c Q -> returns c Q.
Proof. intros H s Hs. specialize (H s Hs). by destruct (c s) as [[]]. Qed.

Lemma returns_conseq {A} (c : prog S A) (Q Q' : A -> Prop) :
  returns c Q' -> (forall a, Q' a -> Q a) -> returns c Q.
Proof. intros H HQ s Hs. specialize (H s Hs). destruct (c s) as [[]]; auto. Qed.

(** Facts about the value join what a triple says of the state. *)
Lemma holds_returns {A} (P : S -> Prop) (c : prog S A) (Q : A -> S -> Prop) (R : A -> Prop) E :
  holds P c Q E -> returns c R -> holds P c (fun a s => R a /\ Q a s) E.
Proof.
  intros H HR s Hs. specialize (H s Hs). specialize (HR s I). destruct (c s) as [[]]; auto.
Qed.

Lemma holds_yields {A} (P : S -> Prop) (c : prog S A) (Q : A -> S -> Prop) (R : A -> Prop) E E' :
  holds P c Q E -> yields c R -> holds P c (fun a s => R a /\ Q a s) E'.
Proof.
  intros H HR s Hs. specialize (H s Hs). specialize (HR s I). by destruct (c s) as [[]].
Qed.
End Values.

(** ** Tasks that run concurrently

    [Promise.all] of asynchronous functions: whenever one of them waits,
    another goes on. A step runs a task up to where it waits next; [pick]
    chooses among the unfinished tasks. A task that throws ends them all. *)
Section Concurrent.
Context {S T A : Type} (step : T -> prog S (T + A)) (steps : T -> nat) (pick : list nat -> S -> nat).

Definition task_outcome (x : T + A) : option A :=
  match x with
  | inl _ => None
  | inr a => Some a
  end.

Definition unfinished (ts : list (T + A)) : list nat :=
  omap (fun ix => match snd ix with
                  | inl _ => Some (fst ix)
                  | inr _ => None
                  end) (imap pair ts).

(** What [pick] answers, or the first one. *)
Definition choose (first : nat) (rest : list nat) (s : S) : nat :=
  default first (List.find (Nat.eqb (pick (first :: rest) s)) (first :: rest)).

Fixpoint run_tasks (fuel : nat) (ts : list (T + A)) : prog S (list A) :=
  match fuel, unfinished ts with
  | Datatypes.S fuel, first :: rest =>
      s <-! get ;;
      match ts !! choose first rest s with
      | Some (inl t) => x <-! step t ;; run_tasks fuel (<[choose first rest s := x]> ts)
      | _ => ret (omap task_outcome ts)
      end
  | _, _ => ret (omap task_outcome ts)
  end.

(** Enough steps for every task to finish ([Promise_all_rule]). *)
Definition task_cost (x : T + A) : nat :=
  match x with
  | inl t => Datatypes.S (steps t)
  | inr _ => 0
  end.

Definition Promise_all (ts : list (T + A)) : prog S (list A) :=
  run_tasks (sum_list (map task_cost ts)) ts.
End Concurrent.

Section PromiseAll.
Context {S T A : Type} (step : T -> prog S (T + A)) (steps : T -> nat) (pick : list nat -> S -> nat).
Context (P : S -> Prop) (V : nat -> T -> Prop) (Q : nat -> A -> Prop) (E : string -> S -> Prop).

Definition task_ok (i : nat) (x : T + A) : Prop :=
  match x with
  | inl t => V i t
  | inr a => Q i a
  end.

Lemma elem_of_unfinished (ts : list (T + A)) (i : nat) :
  i ∈ unfinished ts <-> exists t, ts !! i = Some (inl t).
Proof.
  unfold unfinished. rewrite list_elem_of_omap. split.
  - intros ([j x] & Hj & Hx). apply elem_of_lookup_imap in Hj as (j' & x' & [= -> ->] & Hj).
    destruct x' as [t|a]; simplify_eq/=. eauto.
  - intros [t Ht]. exists (i, inl t). split; [|done]. apply elem_of_lookup_imap. eauto.
Qed.

Lemma choose_unfinished (first : nat) (rest : list nat) (s : S) :
  choose pick first rest s ∈ first :: rest.
Proof.
  unfold choose. destruct (List.find _ _) as [k|] eqn:Hk; [|left].
  apply List.find_some in Hk as [Hk _]. by apply list_elem_of_In.
Qed.

Lemma finished_outcomes (ts : list (T + A)) :
  unfinished ts = [] -> (forall i x, ts !! i = Some x -> task_ok i x) ->
  length (omap (task_outcome (T := T)) ts) = length ts /\
  forall i a, omap (task_outcome (T := T)) ts !! i = Some a -> Q i a.
Proof.
  intros Hu Hok.
  assert (Hts : exists l, ts = map inr l).
  { assert (Hall : Forall (fun x => exists a, x = inr a) ts).
    { apply Forall_lookup. intros i [t|a] Hi; [|eauto].
      assert (Hin : i ∈ unfinished ts) by (apply elem_of_unfinished; eauto).
      rewrite Hu in Hin. by apply elem_of_nil in Hin. }
    clear Hu Hok. induction Hall as [|x ts [a ->] _ [l ->]]; [by exists []|by exists (a :: l)]. }
  destruct Hts as [l ->].
  assert (Ho : forall l : list A, omap (task_outcome (T := T)) (map inr l) = l).
  { clear. intros l. induction l as [|a l IH]; simpl; [done|by f_equal]. }
  rewrite Ho, length_map. split; [done|]. intros i a Hi. apply (Hok i (inr a)).
  by rewrite list_lookup_fmap, Hi.
Qed.

Lemma sum_insert (f : T + A -> nat) (ts : list (T + A)) (i : nat) (x y : T + A) :
  ts !! i = Some x -> f y < f x -> sum_list (map f (<[i := y]> ts)) < sum_list (map f ts).
Proof.
  revert i; induction ts as [|z ts IH]; intros [|i] Hi Hf; simplify_eq/=; [lia|].
  specialize (IH i Hi Hf). lia.
Qed.

(** The rule of [Promise_all]: when a step of a task keeps [P] and brings the
    task nearer to its end, every task ends, and its outcome is at its place. *)
Lemma Promise_all_rule (ts : list (T + A)) :
  (forall i t, V i t -> holds P (step t)
     (fun x s => match x with
                 | inl t' => V i t' /\ steps t' < steps t
                 | inr a => Q i a
                 end /\ P s) E) ->
  (forall i x, ts !! i = Some x -> task_ok i x) ->
  holds P (Promise_all step steps pick ts)
    (fun l s => (length l = length ts /\ forall i a, l !! i = Some a -> Q i a) /\ P s) E.
Proof.
  intros Hstep Hok. unfold Promise_all.
  assert (Hfuel : sum_list (map (task_cost steps) ts) <= sum_list (map (task_cost steps) ts)) by lia.
  revert Hfuel. generalize (sum_list (map (task_cost steps) ts)) at 2 3 as fuel. intros fuel.
  revert ts Hok. induction fuel as [|fuel IH]; intros ts Hok Hfuel; simpl.
  - apply holds_ret. intros s Hs. split; [|done]. apply finished_outcomes; [|done].
    destruct (unfinished ts) as [|i rest] eqn:Hu; [done|]. exfalso.
    destruct (proj1 (elem_of_unfinished ts i)) as [t Ht]; [rewrite Hu; left|].
    clear -Ht Hfuel. revert i Ht; induction ts as [|x ts IH]; intros [|i] Ht; simplify_eq/=; [lia|].
    apply (IH ltac:(lia) i Ht).
  - destruct (unfinished ts) as [|first rest] eqn:Hu.
    { apply holds_ret. intros s Hs. split; [|done]. by apply finished_outcomes. }
    eapply (holds_bind P get _ (fun _ => P)); [by apply holds_get|]. intros s0.
    destruct (proj1 (elem_of_unfinished ts (choose pick first rest s0))) as [t Ht];
      [rewrite Hu; apply choose_unfinished|].
    rewrite Ht. eapply holds_bind; [apply (Hstep (choose pick first rest s0)), (Hok _ (inl t)), Ht|].
    intros x. apply holds_assume. intros Hx.
    eapply holds_conseq; [apply (IH (<[choose pick first rest s0 := x]> ts))|done| |done].
    + intros i y Hi. apply list_lookup_insert_Some in Hi as [(<- & <- & _)|[_ Hi]]; [|by apply Hok].
      destruct x as [t'|a]; simpl; [apply Hx|done].
    + assert (task_cost (A := A) steps x < task_cost (A := A) steps (inl t)); [|pose proof (sum_insert (task_cost steps) ts _ _ x Ht); lia].
      destruct x as [t'|a]; simpl; [destruct Hx; lia|lia].
    + intros l s. by rewrite length_insert.
Qed.
End PromiseAll.
