(* ===== verification/PlainData.v ===== *)
(** * Plain data

    packages/agent/src/plain-data.ts: what may cross the boundary between the
    agent loop and its tools. The values of [JsValue] have no prototypes,
    accessors or cycles, so of the rejected shapes non-finite numbers and, in
    the JSON domain, [undefined] remain; cloning and freezing are the identity
    on values. *)

From Stdlib Require Import String.
From stdpp Require Import base list option strings.
From S2P Require Import Prelude JsString JsValue.

Open Scope string_scope.

Section First.
Context {A : Type} (check : A -> result string unit).

(** A loop over checks that stops at the first one that throws. *)
Fixpoint check_all (l : list A) : result string unit :=
  match l with
  | [] => Ok tt
  | x :: l' => _ <-? check x ;; check_all l'
  end.
End First.

Fixpoint assertPlainData (jsonOnly : bool) (value : jsval) : result string unit :=
  match value with
  | JNull | JString _ | JBool _ | JNumber (NumFin _) => Ok tt
  | JNumber _ => Err "Non-finite numbers are not supported data values"
  | JUndefined => if jsonOnly then Err "Unsupported non-data value" else Ok tt
  | JArray l => check_all (assertPlainData jsonOnly) l
  | JObject fields => check_all (fun kv => assertPlainData jsonOnly (snd kv)) fields
  end.

Definition parseJsonValue (value : jsval) : result string jsval :=
  _ <-? assertPlainData true value ;; Ok value.

Definition createImmutableSnapshot (value : jsval) : result string jsval :=
  _ <-? assertPlainData false value ;; Ok value.

Definition createImmutableJsonSnapshot (value : jsval) : result string jsval := parseJsonValue value.

(** ** Lemmas *)

Lemma check_all_ok {A} (check : A -> result string unit) (l : list A) :
  check_all check l = Ok tt <-> Forall (fun x => check x = Ok tt) l.
Proof.
  induction l as [|x l IH]; simpl; [done|]. rewrite Forall_cons, <- IH, result_bind_Ok.
  split; [intros ([] & ? & ?)|intros [? ?]; exists tt]; done.
Qed.

Lemma snapshot_ok (value v : jsval) :
  createImmutableSnapshot value = Ok v <-> assertPlainData false value = Ok tt /\ v = value.
Proof.
  unfold createImmutableSnapshot. rewrite result_bind_Ok. split.
  - intros ([] & ? & [= ->]). done.
  - intros [? ->]. by exists tt.
Qed.

Lemma json_snapshot_ok (value v : jsval) :
  createImmutableJsonSnapshot value = Ok v <-> assertPlainData true value = Ok tt /\ v = value.
Proof.
  unfold createImmutableJsonSnapshot, parseJsonValue. rewrite result_bind_Ok. split.
  - intros ([] & ? & [= ->]). done.
  - intros [? ->]. by exists tt.
Qed.
