(* ===== verification/AgentTypes.v ===== *)
(** * The agent loop: messages, tools, events and callbacks

    The types of packages/agent/src/types.ts the agent loop works on. What the
    host application, the provider and the tools do is the record [Host] of
    callbacks over an arbitrary state of the world [W]; a callback may throw.
    The state of a run is that world with the events published so far. *)

From Stdlib Require Import String ZArith QArith.
From stdpp Require Import base list option strings.
From S2P Require Import Prelude JsString JsValue PlainData Program ToolBatchWaves ResourceClaims.
From S2P Require Import TranscriptIntegrity.

Open Scope string_scope.
Open Scope list_scope.
Open Scope prog_scope.

(** ** Messages *)

Record AgentToolCall : Type := {
  atc_id : string;
  atc_name : string;
  atc_arguments : jsval;
}.

Inductive LoopBlock : Type :=
| CallBlock (call : AgentToolCall)
| PlainBlock (value : jsval).

(** [am_rest]: the fields of an assistant message the loop does not look at. *)
Record AssistantMessage : Type := {
  am_content : list LoopBlock;
  am_stopReason : string;
  am_rest : jsval;
}.

Inductive LoopMessage : Type :=
| Assistant (m : AssistantMessage)
| Result (r : ToolResultMessage)
| Other (role : string) (payload : jsval).

(** What the transcript inspection reads of a message. *)
Definition view_call (c : AgentToolCall) : ToolCall := {| tc_id := atc_id c; tc_name := atc_name c |}.

Definition view_block (b : LoopBlock) : Block :=
  match b with
  | CallBlock c => ToolCallBlock (view_call c)
  | PlainBlock v => OtherBlock v
  end.

Definition view (m : LoopMessage) : AgentMessage :=
  match m with
  | Assistant m => AssistantMsg (map view_block (am_content m))
  | Result r => ToolResultMsg r
  | Other role payload => OtherMsg role payload
  end.

Definition toolCalls_of (m : AssistantMessage) : list AgentToolCall :=
  omap (fun b => match b with CallBlock c => Some c | PlainBlock _ => None end) (am_content m).

(** ** Tools and their results *)

Record AgentToolResult : Type := {
  r_content : jsval;
  r_details : jsval;
  r_terminate : jsval;
}.

Record AgentTool : Type := {
  definition : RegisteredToolClaimDefinition;
  tool_timeoutMs : option jsnum;
  prepareArguments : option (jsval -> result string jsval);
}.

Record AgentContext : Type := {
  systemPrompt : string;
  messages : list LoopMessage;
  tools : list AgentTool;
}.

Definition with_messages (ctx : AgentContext) (ms : list LoopMessage) : AgentContext :=
  {| systemPrompt := systemPrompt ctx; messages := ms; tools := tools ctx |}.

(** ** Events *)

Inductive AgentEvent : Type :=
| agent_start
| agent_end (newMessages : list LoopMessage)
| turn_start
| turn_end (message : LoopMessage) (toolResults : list ToolResultMessage)
| message_start (message : LoopMessage)
| message_update (message : LoopMessage) (assistantMessageEvent : jsval)
| message_end (message : LoopMessage)
| tool_execution_start (id name : string) (args : jsval)
| tool_execution_update (id name : string) (args : jsval) (partialResult : AgentToolResult)
| tool_execution_end (id name : string) (toolResult : AgentToolResult) (isError : bool).

(** The data inside a message and inside an event. *)
Definition message_values (m : LoopMessage) : list jsval :=
  match m with
  | Assistant m =>
      map (fun b => match b with CallBlock c => atc_arguments c | PlainBlock v => v end) (am_content m)
      ++ [am_rest m]
  | Result r => [tr_content r; details r; JNumber (timestamp r)]
  | Other _ payload => [payload]
  end.

Definition result_values (r : AgentToolResult) : list jsval := [r_content r; r_details r; r_terminate r].

Definition event_values (e : AgentEvent) : list jsval :=
  match e with
  | agent_start | turn_start => []
  | agent_end ms => concat (map message_values ms)
  | turn_end m rs => message_values m ++ concat (map (fun r => message_values (Result r)) rs)
  | message_start m | message_end m => message_values m
  | message_update m event => message_values m ++ [event]
  | tool_execution_start _ _ args => [args]
  | tool_execution_update _ _ args partialResult => args :: result_values partialResult
  | tool_execution_end _ _ r _ => result_values r
  end.

(** ** Callbacks *)

(** The race of a tool's promise against its timer and the parent's abort. *)
Inductive ToolRace : Type :=
| Settled (settlement : result string AgentToolResult)
| TimerWon
| AbortWon.

Record BeforeToolCallResult : Type := {
  block : bool;
  block_reason : option string;
}.

(** [ac_details] is [None] when the result has no own [details]. *)
Record AfterToolCallResult : Type := {
  ac_content : jsval;
  ac_details : option jsval;
  ac_isError : option bool;
  ac_terminate : jsval;
}.

(** The provider events the loop tells apart: [start]; the text, thinking and
    tool-call events; [done] and [error]; what it ignores. *)
Inductive AssistantMessageEvent : Type :=
| ev_start (partial : AssistantMessage)
| ev_update (event : jsval) (partial : AssistantMessage)
| ev_done
| ev_other.

(** A provider stream is the pulls of its events, each of which may take time
    and fail, and [result()]. *)
Record StreamResponse (W : Type) : Type := {
  stream_events : list (W -> result string AssistantMessageEvent * W);
  stream_result : W -> result string AssistantMessage * W;
}.
Arguments stream_events {W} s.
Arguments stream_result {W} s.

Record TurnContext : Type := {
  tc_message : AssistantMessage;
  tc_toolResults : list ToolResultMessage;
  tc_context : AgentContext;
  tc_newMessages : list LoopMessage;
}.

Record AgentLoopTurnUpdate : Type := {
  tu_context : option AgentContext;
  tu_model : option jsval;
  tu_thinkingLevel : option string;
}.

Record CompletionRequest : Type := {
  rq_systemPrompt : string;
  rq_messages : jsval;
  rq_tools : list AgentTool;
  rq_model : jsval;
  rq_reasoning : option string;
  rq_apiKey : option string;
}.

Record Host (W : Type) : Type := {
  (** [signal?.aborted], and whether the abort came before the promise a
      callback returned was settled. *)
  aborted_now : W -> bool;
  abort_first : W -> bool;
  date_now : W -> Q * W;
  num_str : jsnum -> string;
  sink : AgentEvent -> W -> result string unit * W;
  (** A tool's [execute] is called, and later its promise, its timer or the
      abort comes first, after the updates it had reported. *)
  tool_start : AgentTool -> string -> jsval -> W -> W;
  tool_settle : string -> jsnum -> W -> list AgentToolResult * ToolRace * W;
  promise_settled : string -> W -> bool;
  validateToolArguments : AgentTool -> AgentToolCall -> result string jsval;
  (** The hook may change the arguments it is given: they come back with its
      answer. *)
  beforeToolCall : option (AssistantMessage -> AgentToolCall -> jsval -> AgentContext -> W ->
                           result string (option BeforeToolCallResult * jsval) * W);
  afterToolCall : option (AssistantMessage -> AgentToolCall -> jsval -> AgentToolResult -> bool ->
                          AgentContext -> W -> result string (option AfterToolCallResult) * W);
  transformContext : option (list LoopMessage -> W -> result string (list LoopMessage) * W);
  convertToLlm : list LoopMessage -> W -> result string jsval * W;
  getApiKey : option (jsval -> W -> result string (option string) * W);
  streamFunction : CompletionRequest -> W -> result string (StreamResponse W) * W;
  getSteeringMessages : option (W -> result string (list LoopMessage) * W);
  getFollowUpMessages : option (W -> result string (list LoopMessage) * W);
  prepareNextTurn : option (TurnContext -> W -> result string (option AgentLoopTurnUpdate) * W);
  shouldStopAfterTurn : option (TurnContext -> W -> result string bool * W);
  (** Which of the unfinished calls of a concurrent batch goes on next. *)
  pick : list nat -> W -> nat;
}.
Arguments aborted_now {W} h w.
Arguments abort_first {W} h w.
Arguments date_now {W} h w.
Arguments num_str {W} h n.
Arguments sink {W} h e w.
Arguments tool_start {W} h t id args w.
Arguments tool_settle {W} h id timeoutMs w.
Arguments promise_settled {W} h id w.
Arguments validateToolArguments {W} h t c.
Arguments beforeToolCall {W} h.
Arguments afterToolCall {W} h.
Arguments transformContext {W} h.
Arguments convertToLlm {W} h ms w.
Arguments getApiKey {W} h.
Arguments streamFunction {W} h r w.
Arguments getSteeringMessages {W} h.
Arguments getFollowUpMessages {W} h.
Arguments prepareNextTurn {W} h.
Arguments shouldStopAfterTurn {W} h.
Arguments pick {W} h l w.

(** The options of the loop that are data. *)
Inductive ToolSchedulerKind : Type :=
| waves_v1
| dag_v2.

Record AgentLoopConfig : Type := {
  model : jsval;
  reasoning : option string;
  apiKey : option string;
  toolExecution : option ToolParallelPolicy;
  toolTimeoutMs : option jsnum;
  toolTimeouts : option (list (string * jsnum));
  toolScheduler : option ToolSchedulerKind;
  maxToolConcurrency : option jsnum;
  cfg_strictExtensionClaims : bool;
  cfg_cwd : option string;
  cfg_resourceKeyResolver : option (string -> string -> option jsval);
  process_cwd : string;
  HOME : option string;
}.

(** ** The state of a run

    [run_context] is [currentContext] and [newMessages] the array of the run,
    both of which the loop extends in place; [published] and [requested] record
    the events and the provider requests so far. *)

Record RunState (W : Type) : Type := {
  world : W;
  run_context : AgentContext;
  newMessages : list LoopMessage;
  published : list AgentEvent;
  requested : list (list LoopMessage);
}.
Arguments world {W} r.
Arguments run_context {W} r.
Arguments newMessages {W} r.
Arguments published {W} r.
Arguments requested {W} r.

Section Effects.
Context {W : Type} (host : Host W).

Abbreviation run := (prog (RunState W)).

Definition set_world (w : W) (st : RunState W) : RunState W :=
  {| world := w; run_context := run_context st; newMessages := newMessages st;
     published := published st; requested := requested st |}.

Definition set_context (ctx : AgentContext) (st : RunState W) : RunState W :=
  {| world := world st; run_context := ctx; newMessages := newMessages st;
     published := published st; requested := requested st |}.

Definition set_new (ms : list LoopMessage) (st : RunState W) : RunState W :=
  {| world := world st; run_context := run_context st; newMessages := ms;
     published := published st; requested := requested st |}.

Definition add_event (e : AgentEvent) (st : RunState W) : RunState W :=
  {| world := world st; run_context := run_context st; newMessages := newMessages st;
     published := published st ++ [e]; requested := requested st |}.

Definition add_request (ms : list LoopMessage) (st : RunState W) : RunState W :=
  {| world := world st; run_context := run_context st; newMessages := newMessages st;
     published := published st; requested := requested st ++ [ms] |}.

Definition modify (f : RunState W -> RunState W) : run unit := fun st => (Ok tt, f st).

(** A callback: it changes the world only. *)
Definition lift {A} (c : W -> result string A * W) : run A := fun st =>
  let (r, w) := c (world st) in (r, set_world w st).

Definition lift_value {A} (c : W -> A * W) : run A := lift (fun w => let (a, w) := c w in (Ok a, w)).

Definition is_aborted : run bool := fun st => (Ok (aborted_now host (world st)), st).

Definition Date_now : run Q := lift_value (date_now host).

(** [currentContext.messages.push(message)] and [newMessages.push(message)]. *)
Definition push_context (m : LoopMessage) : run unit := modify (fun st =>
  set_context (with_messages (run_context st) (messages (run_context st) ++ [m])) st).

Definition push_new (m : LoopMessage) : run unit := modify (fun st => set_new (newMessages st ++ [m]) st).

(** [publish(event)]: a snapshot of the event goes to the sink. *)
Definition publish (e : AgentEvent) : run unit :=
  do! pure_result (check_all (assertPlainData false) (event_values e)) ;;
  do! modify (add_event e) ;;
  lift (sink host e).

(** [.then(() => emitUpdate(...)).catch(() => undefined)] *)
Definition publish_quietly (e : AgentEvent) : run unit := catch (publish e) (fun _ => ret tt).

(** [None] is [{ kind: aborted }]. *)
Definition awaitWithAbort {A} (start : W -> result string A * W) : run (option A) := fun st =>
  if aborted_now host (world st) then (Ok None, st)
  else
    let (r, w) := start (world st) in
    let st := set_world w st in
    if abort_first host w then (Ok None, st)
    else match r with
         | Ok a => (Ok (Some a), st)
         | Err e => (Err e, st)
         end.
End Effects.
