(* ===== verification/AgentEffects.v ===== *)
(** * What the steps of a run change

    [progress] relates two states of a run: which messages were appended to the
    context and to the new messages, which [message_end] events were published,
    and that an abort is final. The effects of AgentTypes are specified by it;
    [keeps] is a computation that appends nothing. *)

From Stdlib Require Import String ZArith QArith.
From stdpp Require Import base list option strings.
From S2P Require Import Prelude JsString JsValue PlainData Program ToolBatchWaves ResourceClaims.
From S2P Require Import TranscriptIntegrity AgentTypes.

Open Scope string_scope.
Open Scope list_scope.
Open Scope prog_scope.

(** The messages the [message_end] events carry. *)
Definition ended (e : AgentEvent) : option LoopMessage :=
  match e with
  | message_end m => Some m
  | _ => None
  end.

(** The event that ends a run. *)
Definition is_agent_end (e : AgentEvent) : bool :=
  match e with
  | agent_end _ => true
  | _ => false
  end.

(** Neither of them. *)
Definition quiet (e : AgentEvent) : bool :=
  match e with
  | message_end _ | agent_end _ => false
  | _ => true
  end.

Definition committed (es : list AgentEvent) : list LoopMessage := omap ended es.

Section Progress.
Context {W : Type} (host : Host W).

Abbreviation run := (prog (RunState W)).

Definition run_aborted (st : RunState W) : bool := aborted_now host (world st).

(** ** What the loop relies on

    An [AbortSignal] stays aborted; the race is lost to an abort that happened,
    or to a timer that was set. *)

Definition keeps_abort {A} (c : W -> A * W) : Prop :=
  forall w, aborted_now host w = true -> aborted_now host (snd (c w)) = true.

Record signal_laws : Prop := {
  law_first : forall w, abort_first host w = true -> aborted_now host w = true;
  law_timer : forall id ms w updates w',
    tool_settle host id ms w = (updates, TimerWon, w') -> exists q, ms = NumFin q /\ Qle_bool q 0 = false;
  law_date : keeps_abort (date_now host);
  law_sink : forall e, keeps_abort (sink host e);
  law_start : forall t id args, keeps_abort (fun w => (tt, tool_start host t id args w));
  law_settle : forall id ms, keeps_abort (tool_settle host id ms);
  law_before : forall hook, beforeToolCall host = Some hook ->
    forall m c args ctx, keeps_abort (hook m c args ctx);
  law_after : forall hook, afterToolCall host = Some hook ->
    forall m c args r isErr ctx, keeps_abort (hook m c args r isErr ctx);
}.

(** ** Progress *)

(** Events were published, none of which ends the run. *)
Definition open_events (s0 s : RunState W) : Prop :=
  exists es, published s = published s0 ++ es /\ Forall (fun e => is_agent_end e = false) es.

Lemma open_refl (s0 s : RunState W) : published s = published s0 -> open_events s0 s.
Proof. intros H. exists []. by rewrite app_nil_r. Qed.

Lemma open_trans (s0 s1 s2 : RunState W) : open_events s0 s1 -> open_events s1 s2 -> open_events s0 s2.
Proof.
  intros (es & H & O) (es' & H' & O'). exists (es ++ es'). rewrite H', H, app_assoc.
  split; [done|]. by apply Forall_app.
Qed.

Record progress (s0 : RunState W) (cs ns es : list LoopMessage) (s : RunState W) : Prop := {
  pg_context : run_context s = with_messages (run_context s0) (messages (run_context s0) ++ cs);
  pg_new : newMessages s = newMessages s0 ++ ns;
  pg_committed : committed (published s) = committed (published s0) ++ es;
  pg_requested : requested s = requested s0;
  pg_aborted : run_aborted s0 = true -> run_aborted s = true;
  pg_open : open_events s0 s;
}.

Lemma progress_refl (s : RunState W) : progress s [] [] [] s.
Proof. split; rewrite ?app_nil_r; try done; [by destruct (run_context s)|by apply open_refl]. Qed.

Lemma progress_trans (s0 s1 s2 : RunState W) (cs ns es cs' ns' es' : list LoopMessage) :
  progress s0 cs ns es s1 -> progress s1 cs' ns' es' s2 ->
  progress s0 (cs ++ cs') (ns ++ ns') (es ++ es') s2.
Proof.
  intros [C1 N1 E1 R1 A1 O1] [C2 N2 E2 R2 A2 O2]. split.
  - rewrite C2, C1. simpl. unfold with_messages. simpl. by rewrite app_assoc.
  - by rewrite N2, N1, app_assoc.
  - by rewrite E2, E1, app_assoc.
  - by rewrite R2.
  - auto.
  - by eapply open_trans.
Qed.

(** A computation that appends nothing, whether it returns or throws. *)
Definition keeps {A} (c : run A) : Prop := forall s, progress s [] [] [] (snd (c s)).

Lemma holds_keeps {A} (c : run A) (s0 : RunState W) (cs ns es : list LoopMessage) :
  keeps c -> holds (progress s0 cs ns es) c (fun _ => progress s0 cs ns es) (fun _ => progress s0 cs ns es).
Proof.
  intros Hc s Hs. specialize (Hc s). destruct (c s) as [[a|e] s']; simpl in Hc;
    pose proof (progress_trans _ _ _ _ _ _ _ _ _ Hs Hc) as H; by rewrite !app_nil_r in H.
Qed.

Lemma keeps_ret {A} (a : A) : keeps (ret a).
Proof. intros s. apply progress_refl. Qed.

Lemma keeps_get : keeps get.
Proof. intros s. apply progress_refl. Qed.

Lemma keeps_pure {A} (r : result string A) : keeps (pure_result r).
Proof. intros s. apply progress_refl. Qed.

Lemma keeps_aborted : keeps (is_aborted host).
Proof. intros s. apply progress_refl. Qed.

Lemma keeps_bind {A B} (c : run A) (k : A -> run B) :
  keeps c -> (forall a, keeps (k a)) -> keeps (bind c k).
Proof.
  intros Hc Hk s. unfold bind. specialize (Hc s). destruct (c s) as [[a|e] s']; [|done].
  apply (progress_trans _ _ _ _ _ _ _ _ _ Hc (Hk a s')).
Qed.

Lemma keeps_catch {A} (c : run A) (h : string -> run A) :
  keeps c -> (forall e, keeps (h e)) -> keeps (catch c h).
Proof.
  intros Hc Hh s. unfold catch. specialize (Hc s). destruct (c s) as [[a|e] s']; [done|].
  apply (progress_trans _ _ _ _ _ _ _ _ _ Hc (Hh e s')).
Qed.

Lemma keeps_for_each {A} (f : A -> run unit) (l : list A) :
  (forall a, keeps (f a)) -> keeps (for_each f l).
Proof. intros Hf. induction l; simpl; [apply keeps_ret|by apply keeps_bind]. Qed.

Lemma progress_world (s : RunState W) (w : W) :
  (run_aborted s = true -> aborted_now host w = true) -> progress s [] [] [] (set_world w s).
Proof.
  intros H. split; rewrite ?app_nil_r; try done; [by destruct s as [? []]|by apply open_refl].
Qed.

Lemma keeps_lift {A} (c : W -> result string A * W) : keeps_abort c -> keeps (lift c).
Proof.
  intros Hc s. unfold lift. pose proof (Hc (world s)) as H. destruct (c (world s)) as [r w].
  by apply progress_world.
Qed.

Lemma keeps_lift_value {A} (c : W -> A * W) : keeps_abort c -> keeps (lift_value c).
Proof.
  intros Hc. apply keeps_lift. intros w Hw. specialize (Hc w Hw). by destruct (c w).
Qed.

Lemma keeps_awaitWithAbort {A} (start : W -> result string A * W) :
  keeps_abort start -> keeps (awaitWithAbort host start).
Proof.
  intros Hc s. unfold awaitWithAbort. destruct (aborted_now host (world s)) eqn:Ha; [apply progress_refl|].
  pose proof (Hc (world s)) as H. destruct (start (world s)) as [r w].
  assert (progress s [] [] [] (set_world w s)) by (by apply progress_world).
  destruct (abort_first host w); [done|]. by destruct r.
Qed.

(** [awaitWithAbort] answers [aborted] only in a run that is aborted. *)
Lemma awaitWithAbort_aborted {A} (start : W -> result string A * W) (s s' : RunState W) :
  signal_laws -> awaitWithAbort host start s = (Ok None, s') -> run_aborted s' = true.
Proof.
  intros laws H. unfold awaitWithAbort in H. destruct (aborted_now host (world s)) eqn:Ha.
  - by simplify_eq.
  - destruct (start (world s)) as [r w]. destruct (abort_first host w) eqn:Hf; [|by destruct r; simplify_eq].
    simplify_eq. by apply (law_first laws).
Qed.

(** ** Published events and committed messages *)

Context (laws : signal_laws).

Lemma publish_step (e : AgentEvent) (s : RunState W) :
  is_agent_end e = false ->
  match publish host e s with
  | (Ok _, s') => progress s [] [] (option_list (ended e)) s'
  | (Err _, s') => progress s [] [] (option_list (ended e)) s' \/ progress s [] [] [] s'
  end.
Proof.
  intros Hopen. unfold publish, bind, pure_result, modify, lift.
  destruct (check_all _ _); simpl; [|right; apply progress_refl].
  pose proof (law_sink laws e (world s)) as Hsink.
  destruct (sink host e (world s)) as [[] w] eqn:Hw; [|left];
    (split; simpl; rewrite ?app_nil_r; [by destruct (run_context s)|done| |done|auto|exists [e]; by repeat constructor]);
    unfold committed; rewrite omap_app; simpl; by destruct e.
Qed.

Lemma keeps_publish (e : AgentEvent) : quiet e = true -> keeps (publish host e).
Proof.
  intros He s. assert (ended e = None /\ is_agent_end e = false) as [Hn Ho] by (by destruct e).
  pose proof (publish_step e s Ho) as H. rewrite Hn in H. simpl in H.
  by destruct (publish host e s) as [[] ?]; [|destruct H].
Qed.

Lemma keeps_publish_quietly (e : AgentEvent) : quiet e = true -> keeps (publish_quietly host e).
Proof. intros He. apply keeps_catch; [by apply keeps_publish|intros; apply keeps_ret]. Qed.

Lemma holds_message_end (m : LoopMessage) (s0 : RunState W) (cs ns es : list LoopMessage) :
  holds (progress s0 cs ns es) (publish host (message_end m))
    (fun _ => progress s0 cs ns (es ++ [m])) (fun _ s => requested s = requested s0 /\ open_events s0 s).
Proof.
  intros s Hs. pose proof (publish_step (message_end m) s eq_refl) as H.
  destruct (publish host (message_end m) s) as [[] s']; simpl in H.
  2: { rewrite <- (pg_requested _ _ _ _ _ Hs). pose proof (pg_open _ _ _ _ _ Hs) as Ho.
       destruct H as [H|H]; (split; [apply H|]); eapply open_trans; [exact Ho|apply H|exact Ho|apply H]. }
  pose proof (progress_trans _ _ _ _ _ _ _ _ _ Hs H) as H'. by rewrite !app_nil_r in H'.
Qed.

Lemma holds_push_context (m : LoopMessage) (s0 : RunState W) (cs ns es : list LoopMessage) E :
  holds (progress s0 cs ns es) (push_context m) (fun _ => progress s0 (cs ++ [m]) ns es) E.
Proof.
  intros s [C N Ev R A O]. split; try done. simpl. rewrite C. simpl. unfold with_messages. simpl.
  by rewrite app_assoc.
Qed.

Lemma keeps_date : keeps (Date_now host).
Proof. apply keeps_lift_value, (law_date laws). Qed.
End Progress.

Create HintDb keeps.
#[export] Hint Resolve keeps_ret keeps_get keeps_pure keeps_aborted keeps_date : keeps.
#[export] Hint Resolve keeps_bind keeps_catch keeps_for_each keeps_lift keeps_lift_value : keeps.
#[export] Hint Resolve keeps_publish keeps_publish_quietly keeps_awaitWithAbort : keeps.
