(* ===== verification/ToolExecution.v ===== *)
(** * One tool call, from the model's request to its result message

    packages/agent/src/tool-execution-boundary.ts and tool-timeout.ts, with the
    part of packages/agent/src/agent-loop.ts that handles a single call:
    planning, authorization, execution against the timer and the abort, the
    after hook, and the committed result. An execution is a task of stages, so
    that calls of a concurrent batch interleave between the stages. *)

From Stdlib Require Import String ZArith QArith Lia.
From stdpp Require Import base list option strings sets.
From S2P Require Import Prelude JsString JsValue PlainData Program ToolBatchWaves ResourceClaims.
From S2P Require Import TranscriptIntegrity AgentTypes AgentEffects.

Open Scope nat_scope.
Open Scope string_scope.
Open Scope list_scope.
Open Scope prog_scope.

(** ** Timeouts *)

(** The properties every object inherits. *)
Definition Object_prototype : list string :=
  ["constructor"; "__defineGetter__"; "__defineSetter__"; "hasOwnProperty"; "__lookupGetter__";
   "__lookupSetter__"; "isPrototypeOf"; "propertyIsEnumerable"; "toString"; "valueOf"; "__proto__";
   "toLocaleString"].

(** [config.toolTimeouts?.[toolName]]: an inherited property is there too, and
    it is not a number. *)
Definition timeout_by_name (timeouts : list (string * jsnum)) (toolName : string) : option (option jsnum) :=
  match map_get toolName timeouts with
  | Some ms => Some (Some ms)
  | None => if existsb (String.eqb toolName) Object_prototype then Some None else None
  end.

Definition timer_runs (ms : jsnum) : bool :=
  match ms with
  | NumFin q => negb (Qle_bool q 0)
  | _ => false
  end.

Definition resolveToolTimeoutMs (tool : AgentTool) (config : AgentLoopConfig) (toolName : string) : jsnum :=
  let chosen :=
    match tool_timeoutMs tool with
    | Some ms => Some ms
    | None =>
        match toolTimeouts config with
        | Some timeouts =>
            match timeout_by_name timeouts toolName with
            | Some found => found
            | None => toolTimeoutMs config
            end
        | None => toolTimeoutMs config
        end
    end in
  match chosen with
  | Some ms => if timer_runs ms then ms else NumFin 0
  | None => NumFin 0
  end.

(** ** Results *)

Definition snapshot_result (r : AgentToolResult) : result string AgentToolResult :=
  _ <-? check_all (assertPlainData false) (result_values r) ;; Ok r.

Definition text_content (text : string) : jsval :=
  JArray [JObject [("type", JString "text"); ("text", JString text)]].

Definition is_string (v : jsval) : bool :=
  match v with
  | JString _ => true
  | _ => false
  end.

(** One block of the loop over [snapshot.content]. *)
Definition content_block_ok (block : jsval) : bool :=
  match block with
  | JObject _ =>
      is_str (get_prop "type" block) "text" && is_string (get_prop "text" block)
      || is_str (get_prop "type" block) "image" && is_string (get_prop "data" block)
         && is_string (get_prop "mimeType" block)
  | _ => false
  end.

Definition createValidatedToolResultSnapshot (r : AgentToolResult) : result string AgentToolResult :=
  snapshot <-? snapshot_result r ;;
  match r_content snapshot with
  | JArray blocks =>
      if negb (forallb content_block_ok blocks) then Err "Invalid tool result content block"
      else match r_terminate snapshot with
           | JUndefined | JBool _ => Ok snapshot
           | _ => Err "Tool result terminate must be a boolean"
           end
  | _ => Err "Tool result content must be an array"
  end.

Inductive ToolTimeoutDisposition : Type :=
| by_timeout
| by_abort.

Definition terminal_disposition (d : ToolTimeoutDisposition) : ToolCallDisposition :=
  match d with
  | by_timeout => timeout
  | by_abort => aborted
  end.

Definition dquote : string := String quote_char EmptyString.

Section Results.
(** [String(number)] *)
Context (num_str : jsnum -> string).

Definition timeout_reason (toolName : string) (ms : jsnum) : string :=
  ("Tool " ++ dquote ++ toolName ++ dquote ++ " timed out after " ++ num_str ms ++ "ms")%string.

Definition createTimeoutToolResult (toolName : string) (ms : jsnum) : result string AgentToolResult :=
  envelope <-? createToolResultEnvelope
    {| synthetic := true; disposition := timeout; env_reason := Some (timeout_reason toolName ms);
       timeoutMs := Some ms; executionStarted := true |} ;;
  snapshot_result {| r_content := text_content (timeout_reason toolName ms ++ " and was terminated.")%string;
                     r_details := JObject [("omk", envelope)]; r_terminate := JUndefined |}.

Definition createAbortedToolResult (started : bool) : result string AgentToolResult :=
  envelope <-? createToolResultEnvelope
    {| synthetic := true; disposition := aborted; env_reason := Some "Operation aborted";
       timeoutMs := None; executionStarted := started |} ;;
  snapshot_result {| r_content := text_content "Operation aborted";
                     r_details := JObject [("omk", envelope)]; r_terminate := JUndefined |}.

Definition createErrorToolResult (message : string) : result string AgentToolResult :=
  snapshot_result {| r_content := text_content message; r_details := JObject []; r_terminate := JUndefined |}.
End Results.

(** Replaces any [omk] field the details came with. *)
Definition stampToolResultEnvelope (v envelope : jsval) : result string jsval :=
  if negb (isToolResultEnvelope envelope) then Err "Refusing to persist an invalid tool-result/v2 envelope"
  else Ok match v with
          | JUndefined => JObject [("omk", envelope)]
          | JObject fields =>
              JObject (List.filter (fun kv => negb (String.eqb (fst kv) "omk")) fields ++ [("omk", envelope)])
          | _ => JObject [("originalDetails", v); ("omk", envelope)]
          end.

(** ** Planning *)

Record PlannedToolCall : Type := {
  pl_toolCall : AgentToolCall;
  pl_preparedToolCall : AgentToolCall;
  pl_tool : AgentTool;
  pl_args : jsval;
}.

Record PreparedToolCall : Type := {
  pr_toolCall : AgentToolCall;
  pr_tool : AgentTool;
  pr_args : jsval;
  pr_eventArgs : jsval;
  pr_timeoutMs : jsnum;
}.

Record ImmediateToolCallOutcome : Type := {
  im_result : AgentToolResult;
  im_isError : bool;
  im_envelope : jsval;
}.

(** [sum]: an immediate outcome, or what lets the call go on. *)
Definition immediateOutcome (d : ToolCallDisposition) (reason : string)
    : result string ImmediateToolCallOutcome :=
  r <-? createErrorToolResult reason ;;
  envelope <-? createToolResultEnvelope
    {| synthetic := true; disposition := d; env_reason := Some reason; timeoutMs := None;
       executionStarted := false |} ;;
  Ok {| im_result := r; im_isError := true; im_envelope := envelope |}.

(** A JSON snapshot of a tool call. *)
Definition snapshot_call (c : AgentToolCall) : result string AgentToolCall :=
  args <-? createImmutableJsonSnapshot (atc_arguments c) ;;
  Ok {| atc_id := atc_id c; atc_name := atc_name c; atc_arguments := args |}.

Definition with_arguments (c : AgentToolCall) (args : jsval) : AgentToolCall :=
  {| atc_id := atc_id c; atc_name := atc_name c; atc_arguments := args |}.

Definition tool_named (name : string) (ts : list AgentTool) : option AgentTool :=
  List.find (fun tool => String.eqb (tool_name (definition tool)) name) ts.

Definition bindToolIdentity (candidate : AgentTool) (name : string) : AgentTool :=
  {| definition := {| tool_name := name; executionMode := executionMode (definition candidate);
                      resourceClaims := resourceClaims (definition candidate) |};
     tool_timeoutMs := tool_timeoutMs candidate; prepareArguments := prepareArguments candidate |}.

Definition prepareToolCallArguments (tool : AgentTool) (c : AgentToolCall) : result string AgentToolCall :=
  match prepareArguments tool with
  | None => Ok c
  | Some prepare => args <-? prepare (atc_arguments c) ;; Ok (with_arguments c args)
  end.

(** The body of the [try] block. *)
Definition plan_attempt (ctx : AgentContext) (untrusted : AgentToolCall)
    : result string (ImmediateToolCallOutcome + PlannedToolCall) :=
  toolCall <-? snapshot_call untrusted ;;
  if is_empty (atc_id toolCall) || is_empty (atc_name toolCall) then Err "Invalid empty tool identity"
  else match tool_named (atc_name toolCall) (tools ctx) with
       | None =>
           r <-? immediateOutcome failed ("Tool " ++ atc_name toolCall ++ " not found")%string ;;
           Ok (inl r)
       | Some candidate =>
           let tool := bindToolIdentity candidate (atc_name toolCall) in
           prepared <-? prepareToolCallArguments tool toolCall ;;
           args <-? createImmutableJsonSnapshot (atc_arguments prepared) ;;
           prepared_args <-? createImmutableSnapshot args ;;
           Ok (inr {| pl_toolCall := toolCall;
                      pl_preparedToolCall := with_arguments toolCall prepared_args;
                      pl_tool := tool; pl_args := args |})
       end.

Definition planToolCall (ctx : AgentContext) (untrusted : AgentToolCall)
    : result string (ImmediateToolCallOutcome + PlannedToolCall) :=
  match plan_attempt ctx untrusted with
  | Ok plan => Ok plan
  | Err e => r <-? immediateOutcome failed e ;; Ok (inl r)
  end.

(** ** Authorization *)

Section Call.
Context {W : Type} (host : Host W) (config : AgentLoopConfig).

Abbreviation run := (prog (RunState W)).

(** The promise handed to [awaitWithAbort]: the arguments of the hook are
    built first. *)
Definition call_beforeToolCall (hook : AssistantMessage -> AgentToolCall -> jsval -> AgentContext -> W ->
                                       result string (option BeforeToolCallResult * jsval) * W)
    (message : AssistantMessage) (plan : PlannedToolCall) (args : jsval) (ctx : AgentContext)
    : W -> result string (option BeforeToolCallResult * jsval) * W := fun w =>
  match check_all (assertPlainData false) (message_values (Assistant message)) with
  | Ok _ => hook message (pl_toolCall plan) args ctx w
  | Err e => (Err e, w)
  end.

Definition is_blocked (r : option BeforeToolCallResult) : option string :=
  match r with
  | Some b =>
      if block b then
        Some (match block_reason b with
              | Some reason => if is_empty reason then "Tool execution was blocked" else reason
              | None => "Tool execution was blocked"
              end)
      else None
  | None => None
  end.

(** What the hook leaves of the call: an immediate outcome, or the arguments. *)
Definition run_beforeToolCall (message : AssistantMessage) (plan : PlannedToolCall) (hookArgs : jsval)
    : run (ImmediateToolCallOutcome + jsval) :=
  match beforeToolCall host with
  | None => ret (inr hookArgs)
  | Some hook =>
      st <-! get ;;
      bounded <-! awaitWithAbort host (call_beforeToolCall hook message plan hookArgs (run_context st)) ;;
      stop <-! is_aborted host ;;
      match bounded with
      | None => r <-! pure_result (immediateOutcome aborted "Operation aborted") ;; ret (inl r)
      | Some (answer, args) =>
          if stop then r <-! pure_result (immediateOutcome aborted "Operation aborted") ;; ret (inl r)
          else match is_blocked answer with
               | Some reason => r <-! pure_result (immediateOutcome blocked reason) ;; ret (inl r)
               | None => ret (inr args)
               end
      end
  end.

Definition authorize_attempt (message : AssistantMessage) (plan : PlannedToolCall)
    : run (ImmediateToolCallOutcome + PreparedToolCall) :=
  validated <-! pure_result (validateToolArguments host (pl_tool plan) (pl_preparedToolCall plan)) ;;
  hookArgs <-! pure_result (parseJsonValue validated) ;;
  hooked <-! run_beforeToolCall message plan hookArgs ;;
  match hooked with
  | inl r => ret (inl r)
  | inr hookArgs =>
      stop <-! is_aborted host ;;
      if stop then r <-! pure_result (immediateOutcome aborted "Operation aborted") ;; ret (inl r)
      else
        args <-! pure_result (createImmutableJsonSnapshot hookArgs) ;;
        eventArgs <-! pure_result (createImmutableSnapshot args) ;;
        ret (inr {| pr_toolCall := pl_toolCall plan; pr_tool := pl_tool plan; pr_args := args;
                    pr_eventArgs := eventArgs;
                    pr_timeoutMs := resolveToolTimeoutMs (pl_tool plan) config
                                      (atc_name (pl_toolCall plan)) |})
  end.

Definition authorizePlannedToolCall (message : AssistantMessage) (plan : PlannedToolCall)
    : run (ImmediateToolCallOutcome + PreparedToolCall) :=
  catch (authorize_attempt message plan)
        (fun e => r <-! pure_result (immediateOutcome failed e) ;; ret (inl r)).

Definition prepareToolCall (message : AssistantMessage) (toolCall : AgentToolCall)
    : run (ImmediateToolCallOutcome + PreparedToolCall) :=
  st <-! get ;;
  plan <-! pure_result (planToolCall (run_context st) toolCall) ;;
  match plan with
  | inl r => ret (inl r)
  | inr plan => authorizePlannedToolCall message plan
  end.

(** ** Execution *)

Record ExecutedToolCallOutcome : Type := {
  ex_result : AgentToolResult;
  ex_isError : bool;
  ex_executionStarted : bool;
  ex_terminalDisposition : option ToolTimeoutDisposition;
}.

Definition emitToolExecutionStart (p : PreparedToolCall) : run unit :=
  publish host (tool_execution_start (atc_id (pr_toolCall p)) (atc_name (pr_toolCall p)) (pr_eventArgs p)).

(** [runToolCallWithTimeout] up to the call of the tool: the outcome of a run
    that is aborted already, or the tool has started. *)
Definition runToolCall_start (p : PreparedToolCall) : run (option ExecutedToolCallOutcome) :=
  stop <-! is_aborted host ;;
  if stop then
    r <-! pure_result (createAbortedToolResult false) ;;
    ret (Some {| ex_result := r; ex_isError := true; ex_executionStarted := false;
                 ex_terminalDisposition := Some by_abort |})
  else
    do! lift_value (fun w => (tt, tool_start host (pr_tool p) (atc_id (pr_toolCall p)) (pr_args p) w)) ;;
    ret None.

Definition emit_update (p : PreparedToolCall) (partialResult : AgentToolResult) : run unit :=
  publish_quietly host (tool_execution_update (atc_id (pr_toolCall p)) (atc_name (pr_toolCall p))
                          (pr_eventArgs p) partialResult).

(** The race, once one side has won. *)
Definition runToolCall_settle (p : PreparedToolCall) : run ExecutedToolCallOutcome :=
  settled <-! lift_value (fun w =>
    let '(updates, race, w) := tool_settle host (atc_id (pr_toolCall p)) (pr_timeoutMs p) w in
    ((updates, race), w)) ;;
  do! for_each (emit_update p) (fst settled) ;;
  match snd settled with
  | Settled (Ok r) =>
      ret {| ex_result := r; ex_isError := false; ex_executionStarted := true;
             ex_terminalDisposition := None |}
  | Settled (Err e) =>
      r <-! pure_result (createErrorToolResult e) ;;
      ret {| ex_result := r; ex_isError := true; ex_executionStarted := true;
             ex_terminalDisposition := None |}
  | TimerWon =>
      r <-! pure_result (createTimeoutToolResult (num_str host) (atc_name (pr_toolCall p)) (pr_timeoutMs p)) ;;
      ret {| ex_result := r; ex_isError := true; ex_executionStarted := true;
             ex_terminalDisposition := Some by_timeout |}
  | AbortWon =>
      r <-! pure_result (createAbortedToolResult true) ;;
      ret {| ex_result := r; ex_isError := true; ex_executionStarted := true;
             ex_terminalDisposition := Some by_abort |}
  end.
End Call.

(** ** Finalization *)

(** [fz_executed]: the call was executed, so that its real promise can be
    asked for. *)
Record FinalizedToolCallOutcome : Type := {
  fz_toolCall : AgentToolCall;
  fz_result : AgentToolResult;
  fz_isError : bool;
  fz_envelope : jsval;
  fz_executed : bool;
}.

Definition finalize_immediate (c : AgentToolCall) (o : ImmediateToolCallOutcome) : FinalizedToolCallOutcome :=
  {| fz_toolCall := c; fz_result := im_result o; fz_isError := im_isError o;
     fz_envelope := im_envelope o; fz_executed := false |}.

(** The local variables of [finalizeExecutedToolCall]. *)
Record FinalizeState : Type := {
  fs_result : AgentToolResult;
  fs_isError : bool;
  fs_syntheticFailure : bool;
  fs_terminal : option ToolTimeoutDisposition;
}.

(** [try { result = createValidatedToolResultSnapshot(result) } catch ...] *)
Definition validate_state (s : FinalizeState) : result string FinalizeState :=
  match createValidatedToolResultSnapshot (fs_result s) with
  | Ok r =>
      Ok {| fs_result := r; fs_isError := fs_isError s; fs_syntheticFailure := fs_syntheticFailure s;
            fs_terminal := fs_terminal s |}
  | Err e =>
      r <-? createErrorToolResult ("Invalid tool result: " ++ e)%string ;;
      Ok {| fs_result := r; fs_isError := true; fs_syntheticFailure := true; fs_terminal := fs_terminal s |}
  end.

Definition abort_state (started : bool) (s : FinalizeState) : result string FinalizeState :=
  r <-? createAbortedToolResult started ;;
  Ok {| fs_result := r; fs_isError := true; fs_syntheticFailure := fs_syntheticFailure s;
        fs_terminal := Some by_abort |}.

Definition nullish (v fallback : jsval) : jsval :=
  match v with
  | JUndefined | JNull => fallback
  | _ => v
  end.

Definition after_state (v : AfterToolCallResult) (s : FinalizeState) : FinalizeState :=
  {| fs_result := {| r_content := nullish (ac_content v) (r_content (fs_result s));
                     r_details := default (r_details (fs_result s)) (ac_details v);
                     r_terminate := nullish (ac_terminate v) (r_terminate (fs_result s)) |};
     fs_isError := default (fs_isError s) (ac_isError v);
     fs_syntheticFailure := fs_syntheticFailure s; fs_terminal := fs_terminal s |}.

Definition failed_state (e : string) (s : FinalizeState) : result string FinalizeState :=
  r <-? createErrorToolResult e ;;
  Ok {| fs_result := r; fs_isError := true; fs_syntheticFailure := true; fs_terminal := fs_terminal s |}.

Definition final_envelope (num_str : jsnum -> string) (p : PreparedToolCall) (started : bool)
    (s : FinalizeState) : result string jsval :=
  createToolResultEnvelope
    match fs_terminal s with
    | Some d =>
        {| synthetic := true; disposition := terminal_disposition d;
           env_reason := Some match d with
                              | by_timeout =>
                                  timeout_reason num_str (atc_name (pr_toolCall p)) (pr_timeoutMs p)
                              | by_abort => "Operation aborted"
                              end;
           timeoutMs := match d with
                        | by_timeout => Some (pr_timeoutMs p)
                        | by_abort => None
                        end;
           executionStarted := started |}
    | None =>
        {| synthetic := fs_syntheticFailure s;
           disposition := if fs_isError s then failed else completed; env_reason := None;
           timeoutMs := None; executionStarted := started |}
    end.

Section Finalize.
Context {W : Type} (host : Host W).

Abbreviation run := (prog (RunState W)).

Definition run_afterToolCall (message : AssistantMessage) (p : PreparedToolCall) (started : bool)
    (s : FinalizeState) : run FinalizeState :=
  match fs_terminal s, afterToolCall host, fs_syntheticFailure s with
  | None, Some hook, false =>
      catch
        (st <-! get ;;
         bounded <-! awaitWithAbort host (hook message (pr_toolCall p) (pr_args p) (fs_result s)
                                            (fs_isError s) (run_context st)) ;;
         stop <-! is_aborted host ;;
         match bounded with
         | None => pure_result (abort_state started s)
         | Some answer =>
             if stop then pure_result (abort_state started s)
             else match answer with
                  | Some v => ret (after_state v s)
                  | None => ret s
                  end
         end)
        (fun e => pure_result (failed_state e s))
  | _, _, _ => ret s
  end.

Definition recheck_state (s : FinalizeState) : result string FinalizeState :=
  match fs_terminal s with
  | None => validate_state s
  | Some _ => Ok {| fs_result := fs_result s; fs_isError := true;
                    fs_syntheticFailure := fs_syntheticFailure s; fs_terminal := fs_terminal s |}
  end.

Definition finalizeExecutedToolCall (message : AssistantMessage) (p : PreparedToolCall)
    (executed : ExecutedToolCallOutcome) : run FinalizedToolCallOutcome :=
  let started := ex_executionStarted executed in
  s <-! pure_result (validate_state
          {| fs_result := ex_result executed; fs_isError := ex_isError executed;
             fs_syntheticFailure := false; fs_terminal := ex_terminalDisposition executed |}) ;;
  stop <-! is_aborted host ;;
  s <-! match fs_terminal s with
        | None => if stop then pure_result (abort_state started s) else ret s
        | Some _ => ret s
        end ;;
  s <-! run_afterToolCall message p started s ;;
  s <-! pure_result (recheck_state s) ;;
  envelope <-! pure_result (final_envelope (num_str host) p started s) ;;
  ret {| fz_toolCall := pr_toolCall p; fz_result := fs_result s; fz_isError := fs_isError s;
         fz_envelope := envelope; fz_executed := true |}.

Definition emitToolExecutionEnd (f : FinalizedToolCallOutcome) : run unit :=
  r <-! pure_result (snapshot_result (fz_result f)) ;;
  publish host (tool_execution_end (atc_id (fz_toolCall f)) (atc_name (fz_toolCall f)) r (fz_isError f)).

(** A snapshot of a result message. *)
Definition snapshot_message (m : ToolResultMessage) : result string ToolResultMessage :=
  _ <-? check_all (assertPlainData false) (message_values (Result m)) ;; Ok m.

Definition createToolResultMessage (f : FinalizedToolCallOutcome) : run ToolResultMessage :=
  stamped <-! pure_result (stampToolResultEnvelope (r_details (fz_result f)) (fz_envelope f)) ;;
  now <-! Date_now host ;;
  pure_result (snapshot_message
    {| toolCallId := atc_id (fz_toolCall f); toolName := atc_name (fz_toolCall f);
       tr_content := r_content (fz_result f); details := stamped; isError := fz_isError f;
       timestamp := NumFin now |}).

(** ** One execution as a task

    [execution_step] runs a task up to its next suspension; a concurrent batch
    interleaves the steps of its tasks. *)
Inductive ExecutionStage : Type :=
| ToStart (p : PreparedToolCall)
| ToCall (p : PreparedToolCall)
| ToSettle (p : PreparedToolCall)
| ToFinalize (p : PreparedToolCall) (executed : ExecutedToolCallOutcome)
| ToEnd (f : FinalizedToolCallOutcome).

Definition execution_step (message : AssistantMessage) (stage : ExecutionStage)
    : run (ExecutionStage + FinalizedToolCallOutcome) :=
  match stage with
  | ToStart p => do! emitToolExecutionStart host p ;; ret (inl (ToCall p))
  | ToCall p =>
      started <-! runToolCall_start host p ;;
      match started with
      | Some executed => ret (inl (ToFinalize p executed))
      | None => ret (inl (ToSettle p))
      end
  | ToSettle p => executed <-! runToolCall_settle host p ;; ret (inl (ToFinalize p executed))
  | ToFinalize p executed => f <-! finalizeExecutedToolCall message p executed ;; ret (inl (ToEnd f))
  | ToEnd f => do! emitToolExecutionEnd f ;; ret (inr f)
  end.

(** The steps a task has left. *)
Definition stage_steps (stage : ExecutionStage) : nat :=
  match stage with
  | ToStart _ => 5
  | ToCall _ => 4
  | ToSettle _ => 3
  | ToFinalize _ _ => 2
  | ToEnd _ => 1
  end.

(** [executePreparedToolCall] of a call that runs alone. *)
Definition executePreparedToolCall (p : PreparedToolCall) : run ExecutedToolCallOutcome :=
  started <-! runToolCall_start host p ;;
  match started with
  | Some executed => ret executed
  | None => runToolCall_settle host p
  end.
End Finalize.

(** ** Nothing is appended *)

Ltac keeps_step :=
  first
    [ simple apply keeps_ret | simple apply keeps_get | simple apply keeps_pure | simple apply keeps_aborted
    | simple apply keeps_date; assumption | simple apply keeps_publish; [assumption|reflexivity]
    | simple apply keeps_publish_quietly; [assumption|reflexivity]
    | simple apply keeps_awaitWithAbort | simple apply keeps_lift_value
    | simple apply keeps_for_each; intros ? | simple apply keeps_catch; [|intros ?] | simple apply keeps_bind; [|intros ?]
    | case_match ].

Ltac keeps := repeat keeps_step; try (eassumption || (intros ?; assumption)).

Section Keeps.
Context {W : Type} (host : Host W) (config : AgentLoopConfig) (laws : signal_laws host).

Lemma keeps_authorize (message : AssistantMessage) (plan : PlannedToolCall) :
  keeps host (authorizePlannedToolCall host config message plan).
Proof.
  unfold authorizePlannedToolCall, authorize_attempt, run_beforeToolCall. keeps.
  intros w Hw. unfold call_beforeToolCall. case_match; [|done]. by eapply (law_before host laws).
Qed.

Lemma keeps_prepareToolCall (message : AssistantMessage) (c : AgentToolCall) :
  keeps host (prepareToolCall host config message c).
Proof. unfold prepareToolCall. keeps. apply keeps_authorize. Qed.

Lemma keeps_start (p : PreparedToolCall) : keeps host (emitToolExecutionStart host p).
Proof. unfold emitToolExecutionStart. keeps. Qed.

Lemma keeps_runToolCall_start (p : PreparedToolCall) : keeps host (runToolCall_start host p).
Proof. unfold runToolCall_start. keeps. apply (law_start host laws). Qed.

Lemma keeps_runToolCall_settle (p : PreparedToolCall) : keeps host (runToolCall_settle host p).
Proof.
  unfold runToolCall_settle, emit_update. keeps. intros w Hw.
  pose proof (law_settle host laws (atc_id (pr_toolCall p)) (pr_timeoutMs p) w Hw) as H.
  by destruct (tool_settle host _ _ w) as [[] ?].
Qed.

Lemma keeps_finalize (message : AssistantMessage) (p : PreparedToolCall) (ex : ExecutedToolCallOutcome) :
  keeps host (finalizeExecutedToolCall host message p ex).
Proof.
  unfold finalizeExecutedToolCall, run_afterToolCall. keeps. by apply (law_after host laws).
Qed.

Lemma keeps_end (f : FinalizedToolCallOutcome) : keeps host (emitToolExecutionEnd host f).
Proof. unfold emitToolExecutionEnd. keeps. Qed.

Lemma keeps_createToolResultMessage (f : FinalizedToolCallOutcome) :
  keeps host (createToolResultMessage host f).
Proof. unfold createToolResultMessage. keeps. Qed.

Lemma keeps_execute (p : PreparedToolCall) : keeps host (executePreparedToolCall host p).
Proof.
  unfold executePreparedToolCall. keeps; [apply keeps_runToolCall_start|apply keeps_runToolCall_settle].
Qed.

Lemma keeps_execution_step (message : AssistantMessage) (stage : ExecutionStage) :
  keeps host (execution_step host message stage).
Proof.
  unfold execution_step. keeps;
    [apply keeps_start|apply keeps_runToolCall_start|apply keeps_runToolCall_settle|apply keeps_finalize
    |apply keeps_end].
Qed.
End Keeps.

(** ** Committed results *)

Definition plain (v : jsval) : Prop := assertPlainData false v = Ok tt.

Definition plain_result (r : AgentToolResult) : Prop := Forall plain (result_values r).

Lemma snapshot_result_ok (r : AgentToolResult) : plain_result r -> snapshot_result r = Ok r.
Proof. intros H. unfold snapshot_result. by rewrite (proj2 (check_all_ok _ _) H). Qed.

Lemma snapshot_result_inv (r r' : AgentToolResult) : snapshot_result r = Ok r' -> r' = r /\ plain_result r.
Proof.
  unfold snapshot_result. rewrite result_bind_Ok. intros ([] & H & [= <-]).
  split; [done|]. by apply check_all_ok in H.
Qed.

Lemma validated_inv (r r' : AgentToolResult) :
  createValidatedToolResultSnapshot r = Ok r' -> r' = r /\ plain_result r.
Proof.
  unfold createValidatedToolResultSnapshot. rewrite result_bind_Ok.
  intros (s & [-> H]%snapshot_result_inv & Hr). split_in Hr; by simplify_eq.
Qed.

Lemma envelope_plain (i : ToolResultEnvelopeInput) (envelope : jsval) :
  createToolResultEnvelope i = Ok envelope ->
  envelope = envelope_value i /\ isToolResultEnvelope envelope = true /\ plain envelope.
Proof.
  unfold createToolResultEnvelope. destruct (isToolResultEnvelope (envelope_value i)) eqn:E; [|done].
  intros [= <-]. split_and!; [done..|].
  destruct i as [s d [r|] [[|b|q]|] e]; try reflexivity; exfalso; by destruct s, d.
Qed.

Lemma createErrorToolResult_ok (message : string) :
  exists r, createErrorToolResult message = Ok r /\ plain_result r.
Proof. eexists. split; [reflexivity|]. by repeat constructor. Qed.

Lemma createAbortedToolResult_ok (started : bool) :
  exists r, createAbortedToolResult started = Ok r /\ plain_result r.
Proof. destruct started; (eexists; split; [reflexivity|by repeat constructor]). Qed.

Lemma timeout_envelope_ok (reason : string) (q : Q) :
  Qle_bool q 0 = false ->
  let i := {| synthetic := true; disposition := timeout; env_reason := Some reason;
              timeoutMs := Some (NumFin q); executionStarted := true |} in
  createToolResultEnvelope i = Ok (envelope_value i).
Proof.
  intros Hq i. unfold createToolResultEnvelope.
  assert (isToolResultEnvelope (envelope_value i) = true) as ->; [|done].
  unfold isToolResultEnvelope, i. simpl. by rewrite Hq.
Qed.

Lemma createTimeoutToolResult_ok (num_str : jsnum -> string) (toolName : string) (q : Q) :
  Qle_bool q 0 = false ->
  exists r, createTimeoutToolResult num_str toolName (NumFin q) = Ok r /\ plain_result r /\
    r_content r = text_content (timeout_reason num_str toolName (NumFin q) ++ " and was terminated.")%string.
Proof.
  intros Hq. unfold createTimeoutToolResult. rewrite timeout_envelope_ok by done. simpl.
  eexists. split; [reflexivity|]. split; [by repeat constructor|done].
Qed.

Definition no_timer (d : ToolCallDisposition) : bool :=
  match d with
  | failed | blocked | aborted | skipped => true
  | completed | timeout => false
  end.

Lemma immediateOutcome_ok (d : ToolCallDisposition) (reason : string) :
  no_timer d = true ->
  exists o, immediateOutcome d reason = Ok o /\ plain_result (im_result o) /\ im_isError o = true /\
    isToolResultEnvelope (im_envelope o) = true /\ plain (im_envelope o) /\
    get_prop "executionStarted" (im_envelope o) = JBool false /\
    get_prop "disposition" (im_envelope o) = JString (disposition_str d).
Proof. destruct d; try done; intros _; (eexists; split; [reflexivity|by repeat constructor]). Qed.

Lemma assoc_lookup_last (key : string) (v : jsval) (fields : list (string * jsval)) :
  key ∉ map fst fields -> assoc_lookup key (fields ++ [(key, v)]) = v.
Proof.
  induction fields as [|[k u] fields IH]; simpl; intros Hk; [by rewrite String.eqb_refl|].
  destruct (String.eqb_spec k key); [set_solver|]. apply IH. set_solver.
Qed.

Lemma stamp_ok (v envelope : jsval) :
  isToolResultEnvelope envelope = true -> plain envelope -> plain v ->
  exists s, stampToolResultEnvelope v envelope = Ok s /\ plain s /\ get_prop "omk" s = envelope.
Proof.
  intros He Hp Hv. unfold stampToolResultEnvelope. rewrite He. simpl. eexists. split; [reflexivity|].
  destruct v as [| |b|n|s|l|fields]; try (split; [|reflexivity]); unfold plain in *; simpl in *;
    rewrite ?Hp; try done.
  - by rewrite Hv.
  - by rewrite Hv.
  - split.
    + apply check_all_ok, Forall_app. split; [|by repeat constructor].
      apply check_all_ok in Hv. rewrite Forall_forall in Hv |- *. intros kv Hkv.
      apply Hv. apply list_elem_of_In, filter_In in Hkv as [Hkv _]. by apply list_elem_of_In.
    + apply assoc_lookup_last. intros ([k u] & Hk & Hkv)%list_elem_of_fmap. simpl in Hk. subst k.
      apply list_elem_of_In, filter_In in Hkv as [_ Hkv]. done.
Qed.

(** What the loop needs of a finalized call to write its result message. *)
Record finalized_ok (f : FinalizedToolCallOutcome) : Prop := {
  fin_result : plain_result (fz_result f);
  fin_envelope : isToolResultEnvelope (fz_envelope f) = true;
  fin_plain : plain (fz_envelope f);
}.

Lemma yields_lift_value {W A} (c : W -> A * W) : yields (S := RunState W) (lift_value c) (fun _ => True).
Proof. intros s _. unfold lift_value, lift. by destruct (c (world s)). Qed.

Lemma yields_get {S} : yields (S := S) get (fun _ => True).
Proof. by intros s _. Qed.

Lemma createToolResultMessage_yields {W} (host : Host W) (f : FinalizedToolCallOutcome) :
  finalized_ok f ->
  yields (createToolResultMessage host f) (fun m =>
    toolCallId m = atc_id (fz_toolCall f) /\ toolName m = atc_name (fz_toolCall f) /\
    tr_content m = r_content (fz_result f) /\ isError m = fz_isError f /\
    get_prop "omk" (details m) = fz_envelope f).
Proof.
  intros [Hr He Hp]. inversion_clear Hr as [|? ? Hc Hr']. inversion_clear Hr' as [|? ? Hd Ht].
  destruct (stamp_ok _ _ He Hp Hd) as (s & Hs & Hsp & Homk). unfold createToolResultMessage.
  eapply (yields_bind _ _ (fun v => v = s)); [by eapply yields_pure|]. intros ? ->.
  eapply yields_bind; [apply yields_lift_value|]. intros now _.
  eapply yields_pure.
  - unfold snapshot_message. rewrite (proj2 (check_all_ok _ _)); [done|]. by repeat constructor.
  - by split_and!.
Qed.

(** ** Finalization, step by step *)

Definition final_disposition (s : FinalizeState) : ToolCallDisposition :=
  match fs_terminal s with
  | Some d => terminal_disposition d
  | None => if fs_isError s then failed else completed
  end.

(** What an execution hands to the finalization: a timeout ended a call that
    ran against a timer, a call without terminal cause did run, and the result
    of a terminal cause is a valid one. *)
Record executed_ok (p : PreparedToolCall) (ex : ExecutedToolCallOutcome) : Prop := {
  eo_started : ex_terminalDisposition ex <> Some by_abort -> ex_executionStarted ex = true;
  eo_timer : ex_terminalDisposition ex = Some by_timeout ->
    exists q, pr_timeoutMs p = NumFin q /\ Qle_bool q 0 = false;
  eo_valid : ex_terminalDisposition ex <> None ->
    createValidatedToolResultSnapshot (ex_result ex) = Ok (ex_result ex);
}.

(** The states between the steps. *)
Record finalizing {W} (host : Host W) (ex : ExecutedToolCallOutcome) (s : FinalizeState) : Prop := {
  fo_terminal : match ex_terminalDisposition ex with
                | Some d => fs_terminal s = Some d /\ fs_result s = ex_result ex
                | None => fs_terminal s <> Some by_timeout
                end;
  fo_synthetic : fs_syntheticFailure s = true -> fs_isError s = true;
  fo_plain : fs_terminal s <> None -> plain_result (fs_result s);
  fo_through : afterToolCall host = None -> fs_isError s = false ->
    ex_isError ex = false /\ fs_result s = ex_result ex;
}.

Section FinalizeSteps.
Context {W : Type} (host : Host W) (p : PreparedToolCall) (ex : ExecutedToolCallOutcome).
Context (Hex : executed_ok p ex).

Lemma validate_finalizing (s : FinalizeState) :
  finalizing host ex s \/ s = {| fs_result := ex_result ex; fs_isError := ex_isError ex;
                                 fs_syntheticFailure := false;
                                 fs_terminal := ex_terminalDisposition ex |} ->
  exists s', validate_state s = Ok s' /\ finalizing host ex s' /\ plain_result (fs_result s').
Proof.
  intros Hs.
  assert (Hpre : match ex_terminalDisposition ex with
                 | Some d => fs_terminal s = Some d /\ fs_result s = ex_result ex
                 | None => fs_terminal s <> Some by_timeout
                 end /\ (fs_syntheticFailure s = true -> fs_isError s = true) /\
                 (afterToolCall host = None -> fs_isError s = false ->
                  ex_isError ex = false /\ fs_result s = ex_result ex)).
  { destruct Hs as [[]| ->]; [done|]. simpl. by destruct (ex_terminalDisposition ex). }
  destruct Hpre as (Ht & Hsy & Hth). unfold validate_state.
  destruct (createValidatedToolResultSnapshot (fs_result s)) as [r|e] eqn:Hv.
  - apply validated_inv in Hv as [-> Hp]. eexists. split; [reflexivity|]. by split; [split|].
  - destruct (createErrorToolResult_ok ("Invalid tool result: " ++ e)) as (r & -> & Hp).
    eexists. split; [reflexivity|]. split; [split; simpl; try done|done].
    destruct (ex_terminalDisposition ex) as [d|] eqn:Hd; [|done]. destruct Ht as [_ Hr].
    pose proof (eo_valid p ex Hex ltac:(by rewrite Hd)). congruence.
Qed.

Lemma abort_finalizing (s : FinalizeState) :
  finalizing host ex s -> fs_terminal s = None ->
  exists s', abort_state (ex_executionStarted ex) s = Ok s' /\ finalizing host ex s'.
Proof.
  intros [Ht Hsy Hp Hth] Hn. unfold abort_state.
  destruct (createAbortedToolResult_ok (ex_executionStarted ex)) as (r & -> & Hr).
  eexists. split; [reflexivity|]. split; simpl; try done.
  destruct (ex_terminalDisposition ex); [destruct Ht; congruence|done].
Qed.

Lemma after_finalizing (v : AfterToolCallResult) (s : FinalizeState) :
  finalizing host ex s -> fs_terminal s = None -> fs_syntheticFailure s = false ->
  afterToolCall host <> None -> finalizing host ex (after_state v s).
Proof.
  intros [Ht Hsy Hp Hth] Hn Hf Hh. split; simpl; rewrite ?Hn, ?Hf in *; try done.
  destruct (ex_terminalDisposition ex); [by destruct Ht|done].
Qed.

Lemma failed_finalizing (e : string) (s : FinalizeState) :
  finalizing host ex s -> fs_terminal s = None ->
  exists s', failed_state e s = Ok s' /\ finalizing host ex s'.
Proof.
  intros [Ht Hsy Hp Hth] Hn. unfold failed_state.
  destruct (createErrorToolResult_ok e) as (r & -> & Hr).
  eexists. split; [reflexivity|]. split; simpl; rewrite ?Hn; try done.
  destruct (ex_terminalDisposition ex); [destruct Ht; congruence|done].
Qed.

Lemma run_afterToolCall_yields (message : AssistantMessage) (s : FinalizeState) :
  finalizing host ex s ->
  yields (run_afterToolCall host message p (ex_executionStarted ex) s) (finalizing host ex).
Proof.
  intros Hs. unfold run_afterToolCall.
  destruct (fs_terminal s) eqn:Ht, (afterToolCall host) eqn:Hh, (fs_syntheticFailure s) eqn:Hf;
    try by apply yields_ret.
  destruct (abort_finalizing s Hs Ht) as (sa & Ha & Hsa).
  apply yields_catch.
  - eapply returns_bind; [apply returns_any|]. intros st _.
    eapply returns_bind; [apply returns_any|]. intros bounded _.
    eapply returns_bind; [apply returns_any|]. intros stop _.
    destruct bounded as [answer|]; [destruct stop|]; try (apply returns_pure; intros; congruence).
    destruct answer as [v|]; apply returns_ret; [|done]. apply after_finalizing; [done..|]. by rewrite Hh.
  - intros e. destruct (failed_finalizing e s Hs Ht) as (sf & Hsf & ?). by eapply yields_pure.
Qed.

Lemma recheck_finalizing (s : FinalizeState) :
  finalizing host ex s ->
  exists s', recheck_state s = Ok s' /\ finalizing host ex s' /\ plain_result (fs_result s') /\
    (fs_terminal s' <> None -> fs_isError s' = true).
Proof.
  intros Hs. unfold recheck_state. destruct (fs_terminal s) as [d|] eqn:Ht.
  - eexists. split; [reflexivity|]. destruct Hs as [H1 H2 H3 H4].
    assert (plain_result (fs_result s)) by (apply H3; by rewrite Ht).
    rewrite Ht in H1. by split_and!; [split| |].
  - destruct (validate_finalizing s (or_introl Hs)) as (s' & Hv & Hs' & Hp). rewrite Hv.
    eexists. split_and!; [reflexivity|done..|].
    unfold validate_state in Hv. destruct (createValidatedToolResultSnapshot (fs_result s)).
    + injection Hv as <-. simpl. by rewrite Ht.
    + apply result_bind_Ok in Hv as (r & _ & [= <-]). done.
Qed.

Lemma final_envelope_ok (num_str : jsnum -> string) (s : FinalizeState) :
  finalizing host ex s -> (fs_terminal s <> None -> fs_isError s = true) ->
  exists envelope, final_envelope num_str p (ex_executionStarted ex) s = Ok envelope /\
    isToolResultEnvelope envelope = true /\ plain envelope /\
    get_prop "executionStarted" envelope = JBool (ex_executionStarted ex) /\
    get_prop "disposition" envelope = JString (disposition_str (final_disposition s)) /\
    (ex_terminalDisposition ex = Some by_timeout -> get_prop "timeoutMs" envelope = JNumber (pr_timeoutMs p)).
Proof.
  intros [Ht Hsy _ _] Herr. destruct Hex as [Hst Htm _].
  assert (Hok : exists envelope, final_envelope num_str p (ex_executionStarted ex) s = Ok envelope).
  { unfold final_envelope. destruct (fs_terminal s) as [[]|] eqn:Hfs.
    - destruct (ex_terminalDisposition ex) as [d|] eqn:Hd; [|done]. destruct Ht as [[= <-] _].
      rewrite (Hst ltac:(done)). destruct (Htm eq_refl) as (q & Hq & Hle). rewrite Hq.
      eexists. by apply timeout_envelope_ok.
    - destruct (ex_executionStarted ex); by eexists.
    - destruct (ex_terminalDisposition ex) eqn:Hd; [by destruct Ht|]. rewrite (Hst ltac:(done)).
      destruct (fs_syntheticFailure s), (fs_isError s); try by eexists. by discriminate Hsy. }
  destruct Hok as [envelope Hok]. exists envelope. split; [done|].
  apply envelope_plain in Hok as (-> & Hi & Hp). split_and!; [done..| | |];
    unfold final_disposition; destruct (fs_terminal s) as [[]|] eqn:Hfs; try done;
    destruct (ex_terminalDisposition ex) as [[]|]; naive_solver.
Qed.
End FinalizeSteps.

Lemma finalize_yields {W} (host : Host W) (message : AssistantMessage) (p : PreparedToolCall)
    (ex : ExecutedToolCallOutcome) :
  executed_ok p ex ->
  yields (finalizeExecutedToolCall host message p ex) (fun f =>
    fz_toolCall f = pr_toolCall p /\ fz_executed f = true /\ finalized_ok f /\
    exists s, finalizing host ex s /\ (fs_terminal s <> None -> fs_isError s = true) /\
      fz_result f = fs_result s /\ fz_isError f = fs_isError s /\
      get_prop "executionStarted" (fz_envelope f) = JBool (ex_executionStarted ex) /\
      get_prop "disposition" (fz_envelope f) = JString (disposition_str (final_disposition s)) /\
      (ex_terminalDisposition ex = Some by_timeout ->
       get_prop "timeoutMs" (fz_envelope f) = JNumber (pr_timeoutMs p))).
Proof.
  intros Hex. unfold finalizeExecutedToolCall.
  destruct (validate_finalizing host p ex Hex _ (or_intror eq_refl)) as (s1 & Hv & Hs1 & _).
  eapply (yields_bind _ _ (finalizing host ex)); [by eapply yields_pure|]. clear s1 Hv Hs1. intros s1 Hs1.
  eapply (yields_bind _ _ (fun _ => True)); [by intros st|]. intros stop _.
  eapply (yields_bind _ _ (finalizing host ex)).
  { destruct (fs_terminal s1) eqn:Ht; [by apply yields_ret|]. destruct stop; [|by apply yields_ret].
    destruct (abort_finalizing host ex s1 Hs1 Ht) as (s2 & Ha & Hs2). by eapply yields_pure. }
  intros s2 Hs2. eapply yields_bind; [by apply (run_afterToolCall_yields host p ex)|]. intros s3 Hs3.
  destruct (recheck_finalizing host p ex Hex s3 Hs3) as (s4 & Hr & Hs4 & Hp4 & He4).
  eapply (yields_bind _ _ (fun s => s = s4)); [by eapply yields_pure|]. intros ? ->.
  destruct (final_envelope_ok host p ex Hex (num_str host) s4 Hs4 He4)
    as (envelope & He & Hv & Hp & Hst & Hd & Htm).
  eapply (yields_bind _ _ (fun v => v = envelope)); [by eapply yields_pure|]. intros ? ->.
  apply yields_ret. simpl. split_and!; [done..|by split|]. exists s4. by split_and!.
Qed.

(** ** Execution *)

Lemma yields_for_each {S A} (f : A -> prog S unit) (l : list A) :
  (forall a, yields (f a) (fun _ => True)) -> yields (for_each f l) (fun _ => True).
Proof.
  intros Hf. induction l as [|a l IH]; simpl; [by apply yields_ret|].
  eapply yields_bind; [apply Hf|done].
Qed.

Lemma publish_quietly_yields {W} (host : Host W) (e : AgentEvent) :
  yields (publish_quietly host e) (fun _ => True).
Proof. apply yields_catch; [apply returns_any|]. intros. by apply yields_ret. Qed.

(** The outcome of the race, and the result a terminal cause commits. *)
Definition executed_as {W} (host : Host W) (p : PreparedToolCall) (ex : ExecutedToolCallOutcome) : Prop :=
  executed_ok p ex /\
  (ex_terminalDisposition ex = Some by_timeout ->
   createTimeoutToolResult (num_str host) (atc_name (pr_toolCall p)) (pr_timeoutMs p) = Ok (ex_result ex)).

Lemma aborted_executed {W} (host : Host W) (p : PreparedToolCall) (started : bool) (r : AgentToolResult) :
  createAbortedToolResult started = Ok r ->
  executed_as host p {| ex_result := r; ex_isError := true; ex_executionStarted := started;
                        ex_terminalDisposition := Some by_abort |}.
Proof.
  intros Hr. split; [|done]. split; simpl; [done..|]. intros _. by destruct started; injection Hr as <-.
Qed.

Lemma runToolCall_start_yields {W} (host : Host W) (p : PreparedToolCall) :
  yields (runToolCall_start host p) (fun o => forall ex, o = Some ex -> executed_as host p ex).
Proof.
  unfold runToolCall_start. eapply (yields_bind _ _ (fun _ => True)); [by intros st|]. intros [] _.
  - destruct (createAbortedToolResult_ok false) as (r & Hr & _).
    eapply (yields_bind _ _ (fun v => v = r)); [by eapply yields_pure|]. intros ? ->.
    apply yields_ret. intros ex [= <-]. by apply aborted_executed.
  - eapply yields_bind; [apply yields_lift_value|]. intros _ _. by apply yields_ret.
Qed.

Lemma runToolCall_settle_yields {W} (host : Host W) (p : PreparedToolCall) :
  signal_laws host -> yields (runToolCall_settle host p) (executed_as host p).
Proof.
  intros laws. unfold runToolCall_settle.
  eapply (yields_bind _ _ (fun s => snd s = TimerWon ->
    exists q, pr_timeoutMs p = NumFin q /\ Qle_bool q 0 = false)).
  { intros st _. unfold lift_value, lift.
    destruct (tool_settle host (atc_id (pr_toolCall p)) (pr_timeoutMs p) (world st)) as [[updates race] w] eqn:Hw.
    simpl. intros ->. by eapply (law_timer host laws). }
  intros [updates race] Hrace. simpl in *.
  eapply yields_bind; [apply yields_for_each; intros; apply publish_quietly_yields|]. intros _ _.
  destruct race as [[r|e]| |].
  - by apply yields_ret.
  - destruct (createErrorToolResult_ok e) as (r & Hr & _).
    eapply (yields_bind _ _ (fun v => v = r)); [by eapply yields_pure|]. intros ? ->. by apply yields_ret.
  - destruct (Hrace eq_refl) as (q & Hq & Hle). rewrite Hq.
    destruct (createTimeoutToolResult_ok (num_str host) (atc_name (pr_toolCall p)) q Hle) as (r & Hr & Hp & Hc).
    eapply (yields_bind _ _ (fun v => v = r)); [by eapply yields_pure|]. intros ? ->.
    apply yields_ret. split; [|by rewrite Hq]. split; simpl; [done|by exists q|]. intros _.
    unfold createTimeoutToolResult in Hr. rewrite timeout_envelope_ok in Hr by done. simpl in Hr.
    by injection Hr as <-.
  - destruct (createAbortedToolResult_ok true) as (r & Hr & _).
    eapply (yields_bind _ _ (fun v => v = r)); [by eapply yields_pure|]. intros ? ->.
    apply yields_ret. by apply aborted_executed.
Qed.

Lemma executePreparedToolCall_yields {W} (host : Host W) (p : PreparedToolCall) :
  signal_laws host -> yields (executePreparedToolCall host p) (executed_as host p).
Proof.
  intros laws. unfold executePreparedToolCall.
  eapply yields_bind; [apply runToolCall_start_yields|]. intros [ex|] Hex.
  - apply yields_ret. by apply Hex.
  - by apply runToolCall_settle_yields.
Qed.

(** ** Planning and authorization *)

Definition json (v : jsval) : Prop := assertPlainData true v = Ok tt.

(** An outcome without execution: an error marked as never started. *)
Record immediate_ok (o : ImmediateToolCallOutcome) : Prop := {
  io_plain : plain_result (im_result o);
  io_error : im_isError o = true;
  io_envelope : isToolResultEnvelope (im_envelope o) = true;
  io_envelope_plain : plain (im_envelope o);
  io_started : get_prop "executionStarted" (im_envelope o) = JBool false;
}.

Lemma immediate_outcome (d : ToolCallDisposition) (reason : string) :
  no_timer d = true -> exists o, immediateOutcome d reason = Ok o /\ immediate_ok o.
Proof.
  intros Hd. destruct (immediateOutcome_ok d reason Hd) as (o & Ho & ? & ? & ? & ? & ? & ?).
  exists o. by split; [|split].
Qed.

Lemma immediate_finalized (c : AgentToolCall) (o : ImmediateToolCallOutcome) :
  immediate_ok o -> finalized_ok (finalize_immediate c o).
Proof. by intros [? ? ? ? ?]. Qed.

(** The call a plan stands for. *)
Record planned_for (ctx : AgentContext) (c : AgentToolCall) (plan : PlannedToolCall) : Prop := {
  pf_call : pl_toolCall plan = c;
  pf_id : atc_id c <> "";
  pf_name : atc_name c <> "";
  pf_tool : exists t, t ∈ tools ctx /\ tool_name (definition t) = atc_name c /\
              pl_tool plan = bindToolIdentity t (atc_name c);
  pf_args : json (pl_args plan);
}.

Lemma is_empty_false (s : string) : is_empty s = false -> s <> "".
Proof. by destruct s. Qed.

Lemma planToolCall_ok (ctx : AgentContext) (c : AgentToolCall) :
  exists plan, planToolCall ctx c = Ok plan /\
    match plan with
    | inl o => immediate_ok o
    | inr plan => planned_for ctx c plan
    end.
Proof.
  unfold planToolCall. destruct (plan_attempt ctx c) as [plan|e] eqn:Hp.
  2: { destruct (immediate_outcome failed e eq_refl) as (o & -> & Ho). by exists (inl o). }
  exists plan. split; [done|]. unfold plan_attempt in Hp.
  apply result_bind_Ok in Hp as (call & Hc & Hp).
  apply result_bind_Ok in Hc as (args & [_ ->]%json_snapshot_ok & [= <-]). cbn [atc_id atc_name] in Hp.
  destruct (is_empty (atc_id c)) eqn:Hid; [done|]. destruct (is_empty (atc_name c)) eqn:Hname; [done|].
  cbn [orb] in Hp. destruct (tool_named (atc_name c) (tools ctx)) as [t|] eqn:Ht.
  - apply result_bind_Ok in Hp as (prepared & _ & Hp).
    apply result_bind_Ok in Hp as (args & [Hargs ->]%json_snapshot_ok & Hp).
    apply result_bind_Ok in Hp as (args' & [_ ->]%snapshot_ok & [= <-]).
    apply List.find_some in Ht as [Hin Heq]. apply String.eqb_eq in Heq.
    split; simpl; [by destruct c|by apply is_empty_false..| |done].
    exists t. split_and!; [by apply list_elem_of_In|done..].
  - apply result_bind_Ok in Hp as (o & Ho & [= <-]).
    destruct (immediate_outcome failed ("Tool " ++ atc_name c ++ " not found")%string eq_refl)
      as (o' & Ho' & ?). congruence.
Qed.

(** The call a prepared call executes. *)
Record prepared_for (config : AgentLoopConfig) (plan : PlannedToolCall) (p : PreparedToolCall) : Prop := {
  pp_call : pr_toolCall p = pl_toolCall plan;
  pp_tool : pr_tool p = pl_tool plan;
  pp_args : json (pr_args p);
  pp_eventArgs : pr_eventArgs p = pr_args p;
  pp_timeout : pr_timeoutMs p = resolveToolTimeoutMs (pl_tool plan) config (atc_name (pl_toolCall plan));
}.

Section Authorize.
Context {W : Type} (host : Host W) (config : AgentLoopConfig).

Lemma returns_immediate (d : ToolCallDisposition) (reason : string) {B} (Q : ImmediateToolCallOutcome + B -> Prop) :
  no_timer d = true -> (forall o, immediate_ok o -> Q (inl o)) ->
  yields (S := RunState W) (r <-! pure_result (immediateOutcome d reason) ;; ret (inl r)) Q.
Proof.
  intros Hd HQ. destruct (immediate_outcome d reason Hd) as (o & Ho & Hok).
  eapply (yields_bind _ _ (fun v => v = o)); [by eapply yields_pure|]. intros ? ->.
  by apply yields_ret, HQ.
Qed.

Lemma authorize_yields (message : AssistantMessage) (plan : PlannedToolCall) :
  yields (authorizePlannedToolCall host config message plan) (fun r =>
    match r with
    | inl o => immediate_ok o
    | inr p => prepared_for config plan p
    end).
Proof.
  apply yields_catch; [|intros e; by apply returns_immediate]. unfold authorize_attempt.
  eapply returns_bind; [apply returns_any|]. intros validated _.
  eapply returns_bind; [apply returns_any|]. intros hookArgs _.
  eapply (returns_bind _ _ (fun r => match r with
                                     | inl o => immediate_ok o
                                     | inr _ => True
                                     end)).
  { unfold run_beforeToolCall. destruct (beforeToolCall host) as [hook|]; [|by apply returns_ret].
    eapply returns_bind; [apply returns_any|]. intros st _.
    eapply returns_bind; [apply returns_any|]. intros bounded _.
    eapply returns_bind; [apply returns_any|]. intros stop _.
    repeat case_match; try (by apply returns_ret); apply yields_returns; by apply returns_immediate. }
  intros [o|args] Ho; [by apply returns_ret|].
  eapply returns_bind; [apply returns_any|]. intros [] _.
  { apply yields_returns. by apply returns_immediate. }
  eapply (returns_bind _ _ json); [apply returns_pure; intros a; by intros [? ->]%json_snapshot_ok|].
  intros a Ha. eapply (returns_bind _ _ (fun v => v = a)); [apply returns_pure; by intros v [_ ->]%snapshot_ok|].
  intros ? ->. by apply returns_ret.
Qed.

Lemma prepareToolCall_yields (message : AssistantMessage) (c : AgentToolCall) :
  yields (prepareToolCall host config message c) (fun r =>
    match r with
    | inl o => immediate_ok o
    | inr p => exists plan, (exists ctx, planned_for ctx c plan) /\ prepared_for config plan p
    end).
Proof.
  unfold prepareToolCall. eapply yields_bind; [apply yields_get|]. intros st _.
  destruct (planToolCall_ok (run_context st) c) as (plan & Hp & Hok).
  eapply (yields_bind _ _ (fun v => v = plan)); [by eapply yields_pure|]. intros ? ->.
  destruct plan as [o|plan]; [by apply yields_ret|].
  intros s Hs. pose proof (authorize_yields message plan s Hs) as H.
  destruct (authorizePlannedToolCall host config message plan s) as [[[o|p]|e] s']; naive_solver.
Qed.
End Authorize.

(** ** Properties *)


(** A tool only ever sees arguments that are JSON data, whatever the model
    sent and whatever the tool's argument shim, the validation and the before
    hook made of it: a call either ends at once, as an error marked as never
    started, or is prepared for the registered tool of its name. *)
Theorem prepared_arguments_are_json {W} (host : Host W) (config : AgentLoopConfig)
    (message : AssistantMessage) (c : AgentToolCall) :
  yields (st <-! get ;; r <-! prepareToolCall host config message c ;; ret (run_context st, r))
    (fun ctx_r =>
       match snd ctx_r with
       | inl o =>
           im_isError o = true /\ isToolResultEnvelope (im_envelope o) = true /\
           get_prop "executionStarted" (im_envelope o) = JBool false
       | inr p =>
           assertPlainData true (pr_args p) = Ok tt /\ pr_eventArgs p = pr_args p /\
           pr_toolCall p = c /\ atc_id c <> "" /\ tool_name (definition (pr_tool p)) = atc_name c /\
           (exists t, t ∈ tools (fst ctx_r) /\ pr_tool p = bindToolIdentity t (atc_name c)) /\
           pr_timeoutMs p = resolveToolTimeoutMs (pr_tool p) config (atc_name c)
       end).
Proof.
  intros st _. unfold prepareToolCall, bind, get. simpl.
  destruct (planToolCall_ok (run_context st) c) as (plan & -> & Hok). simpl.
  destruct plan as [o|plan]; simpl; [by destruct Hok|].
  pose proof (authorize_yields host config message plan st I) as H.
  destruct (authorizePlannedToolCall host config message plan st) as [[[o|p]|e] s']; simpl in *; [by destruct H| |done].
  destruct Hok as [Hc Hid Hn (t & Hin & Ht & Htool) Ha], H as [Pc Pt Pa Pe Pm].
  rewrite Pc, Pt, Pm, Hc, Htool. split_and!; try done. exists t. done.
Qed.

(** The timeout of a call is the first level that is present - the tool's
    own, the one configured for the name, the global one - and is disabled when
    that level is not a positive finite number, even when a later level is. *)
Theorem resolveToolTimeoutMs_precedence (tool : AgentTool) (config : AgentLoopConfig) (toolName : string) :
  toolName ∉ Object_prototype ->
  resolveToolTimeoutMs tool config toolName
  = match List.find timer_runs
            (take 1 (omap id [tool_timeoutMs tool; toolTimeouts config ≫= map_get toolName;
                              toolTimeoutMs config])) with
    | Some ms => ms
    | None => NumFin 0
    end.
Proof.
  intros Hn. assert (existsb (String.eqb toolName) Object_prototype = false) as He.
  { apply not_true_iff_false. by rewrite existsb_eqb_elem. }
  unfold resolveToolTimeoutMs, timeout_by_name. rewrite He.
  destruct (tool_timeoutMs tool) as [ms|]; simpl; [by destruct (timer_runs ms)|].
  destruct (toolTimeouts config) as [l|]; simpl.
  - destruct (map_get toolName l) as [ms|]; simpl; [by destruct (timer_runs ms)|].
    destruct (toolTimeoutMs config) as [ms|]; simpl; [by destruct (timer_runs ms)|done].
  - destruct (toolTimeoutMs config) as [ms|]; simpl; [by destruct (timer_runs ms)|done].
Qed.

(** A tool named like an inherited property of objects loses the global
    timeout as soon as any timeout is configured by name. *)
Lemma inherited_name_disables_timeout (config : AgentLoopConfig) (timeouts : list (string * jsnum))
    (tool : AgentTool) :
  tool_timeoutMs tool = None -> toolTimeouts config = Some timeouts -> map_get "constructor" timeouts = None ->
  resolveToolTimeoutMs tool config "constructor" = NumFin 0.
Proof. intros Ht Hl Hg. unfold resolveToolTimeoutMs, timeout_by_name. by rewrite Ht, Hl, Hg. Qed.

(** ** A host

    The state of its world is whether the run is aborted. The tool call [slow]
    never settles, so that its timer wins; [stop] aborts the run while it runs. *)
Definition text_result (text : string) : AgentToolResult :=
  {| r_content := text_content text; r_details := JUndefined; r_terminate := JUndefined |}.

Definition sample_settle (callId : string) (ms : jsnum) (w : bool) : list AgentToolResult * ToolRace * bool :=
  if timer_runs ms && String.eqb callId "slow" then ([text_result "waiting"], TimerWon, w)
  else if String.eqb callId "stop" then ([], AbortWon, true)
  else ([], Settled (if String.eqb callId "bad" then Err "no such file" else Ok (text_result "done")), w).

Definition sample_host : Host bool :=
  {| aborted_now := fun w => w; abort_first := fun _ => false; date_now := fun w => (0%Q, w);
     num_str := fun _ => "50"; sink := fun _ w => (Ok tt, w); tool_start := fun _ _ _ w => w;
     tool_settle := sample_settle; promise_settled := fun _ _ => false;
     validateToolArguments := fun _ c => Ok (atc_arguments c); beforeToolCall := None; afterToolCall := None;
     transformContext := None; convertToLlm := fun _ w => (Ok JNull, w); getApiKey := None;
     streamFunction := fun _ w => (Err "offline", w); getSteeringMessages := None;
     getFollowUpMessages := None; prepareNextTurn := None; shouldStopAfterTurn := None;
     pick := fun l _ => default 0 (last l) |}.

Lemma sample_laws : signal_laws sample_host.
Proof.
  split; simpl; try done.
  - intros id ms w u w'. unfold sample_settle. destruct ms as [| |q]; simpl; repeat case_match; try done.
    intros _. exists q. split; [done|]. by destruct (Qle_bool q 0).
  - by intros w.
  - by intros e w.
  - by intros t callId args w.
  - intros id ms w Hw. simpl in *. subst w. unfold sample_settle. by repeat case_match.
Qed.

Definition sample_tool (name : string) : AgentTool :=
  {| definition := {| tool_name := name; executionMode := None; resourceClaims := None |};
     tool_timeoutMs := Some (NumFin 50); prepareArguments := None |}.

Definition sample_prepared (callId : string) : PreparedToolCall :=
  {| pr_toolCall := {| atc_id := callId; atc_name := "fetch"; atc_arguments := JObject [] |};
     pr_tool := sample_tool "fetch"; pr_args := JObject []; pr_eventArgs := JObject [];
     pr_timeoutMs := NumFin 50 |}.

Definition sample_message (calls : list LoopBlock) : AssistantMessage :=
  {| am_content := calls; am_stopReason := "toolUse"; am_rest := JObject [] |}.


Lemma resolveToolTimeoutMs_precedence_witness :
  ("fetch" ∉ Object_prototype) /\
  (forall config, resolveToolTimeoutMs (sample_tool "fetch") config "fetch" = NumFin 50).
Proof.
  assert (H : "fetch" ∉ Object_prototype) by (apply (bool_decide_unpack _); vm_compute; exact I).
  split; [exact H|]. intros config. rewrite (resolveToolTimeoutMs_precedence _ config "fetch" H). reflexivity.
Defined.
