(* ===== verification/ToolBatch.v ===== *)
(** * The tool calls of one assistant message

    The [executeToolCalls] family of packages/agent/src/agent-loop.ts: one call
    after another, all at once, in waves, or by the levels of the claim DAG.
    Concurrent calls interleave between the stages of ToolExecution, in any
    order. *)

From Stdlib Require Import String ZArith QArith Lia.
From stdpp Require Import base list option strings gmap sets.
From S2P Require Import Prelude JsString JsValue PlainData Program ToolBatchWaves ResourceClaims DagScheduler.
From S2P Require Import TranscriptIntegrity AgentTypes AgentEffects ToolExecution.

Open Scope nat_scope.
Open Scope string_scope.
Open Scope list_scope.
Open Scope prog_scope.

Record ExecutedToolCallBatch : Type := {
  batch_messages : list ToolResultMessage;
  batch_terminate : bool;
  batch_stopRun : bool;
}.

Definition shouldTerminateToolBatch (finalizedCalls : list FinalizedToolCallOutcome) : bool :=
  negb (length finalizedCalls =? 0)%nat
  && forallb (fun f => is_true (r_terminate (fz_result f))) finalizedCalls.

Section Batch.
Context {W : Type} (host : Host W) (config : AgentLoopConfig) (message : AssistantMessage).

Abbreviation run := (prog (RunState W)).

Definition emitToolResultMessage (m : ToolResultMessage) : run unit :=
  do! publish host (message_start (Result m)) ;;
  publish host (message_end (Result m)).

(** [currentContext.messages.push(m)], and its notification. *)
Definition commit_message (m : ToolResultMessage) : run unit :=
  do! push_context (Result m) ;;
  emitToolResultMessage m.

(** [array[index]], where a property of the element is read at once. *)
Definition element_at {A} (l : list A) (i : nat) : run A :=
  pure_result match l !! i with
              | Some a => Ok a
              | None => Err "Cannot read properties of undefined"
              end.

(** ** Sequential *)

Definition run_one (c : AgentToolCall) (preparation : ImmediateToolCallOutcome + PreparedToolCall)
    : run FinalizedToolCallOutcome :=
  match preparation with
  | inl o => ret (finalize_immediate c o)
  | inr p =>
      do! emitToolExecutionStart host p ;;
      executed <-! executePreparedToolCall host p ;;
      finalizeExecutedToolCall host message p executed
  end.

Fixpoint sequential_loop (toolCalls : list AgentToolCall) (finalizedCalls : list FinalizedToolCallOutcome)
    (ms : list ToolResultMessage) : run (list FinalizedToolCallOutcome * list ToolResultMessage) :=
  match toolCalls with
  | [] => ret (finalizedCalls, ms)
  | c :: rest =>
      preparation <-! prepareToolCall host config message c ;;
      finalized <-! run_one c preparation ;;
      m <-! createToolResultMessage host finalized ;;
      do! push_context (Result m) ;;
      do! match preparation with
          | inl _ => ret tt
          | inr _ => emitToolExecutionEnd host finalized
          end ;;
      do! emitToolResultMessage m ;;
      stop <-! is_aborted host ;;
      if stop then ret (finalizedCalls ++ [finalized], ms ++ [m])
      else sequential_loop rest (finalizedCalls ++ [finalized]) (ms ++ [m])
  end.

Definition executeToolCallsSequential (toolCalls : list AgentToolCall) : run ExecutedToolCallBatch :=
  outcome <-! sequential_loop toolCalls [] [] ;;
  ret {| batch_messages := snd outcome; batch_terminate := shouldTerminateToolBatch (fst outcome);
         batch_stopRun := false |}.

(** ** Parallel *)

Fixpoint prepare_loop (toolCalls : list AgentToolCall)
    (entries : list (ExecutionStage + FinalizedToolCallOutcome))
    : run (list (ExecutionStage + FinalizedToolCallOutcome)) :=
  match toolCalls with
  | [] => ret entries
  | c :: rest =>
      preparation <-! prepareToolCall host config message c ;;
      let entry := match preparation with
                   | inl o => inr (finalize_immediate c o)
                   | inr p => inl (ToStart p)
                   end in
      stop <-! is_aborted host ;;
      if stop then ret (entries ++ [entry]) else prepare_loop rest (entries ++ [entry])
  end.

(** [Promise.all] of executions. *)
Definition run_executions (entries : list (ExecutionStage + FinalizedToolCallOutcome))
    : run (list FinalizedToolCallOutcome) :=
  Promise_all (execution_step host message) stage_steps (fun l st => pick host l (world st)) entries.

Fixpoint commit_loop (finalizedCalls : list FinalizedToolCallOutcome) (ms : list ToolResultMessage)
    : run (list ToolResultMessage) :=
  match finalizedCalls with
  | [] => ret ms
  | f :: rest =>
      m <-! createToolResultMessage host f ;;
      do! commit_message m ;;
      commit_loop rest (ms ++ [m])
  end.

Definition executeToolCallsParallel (toolCalls : list AgentToolCall) : run ExecutedToolCallBatch :=
  entries <-! prepare_loop toolCalls [] ;;
  ordered <-! run_executions entries ;;
  ms <-! commit_loop ordered [] ;;
  ret {| batch_messages := ms; batch_terminate := shouldTerminateToolBatch ordered; batch_stopRun := false |}.

(** ** Waves *)

Fixpoint map_prog {A B} (f : A -> run B) (l : list A) : run (list B) :=
  match l with
  | [] => ret []
  | a :: l' => b <-! f a ;; bs <-! map_prog f l' ;; ret (b :: bs)
  end.

Fixpoint waves_loop (toolCalls : list AgentToolCall) (waves : list (list nat)) (ms : list ToolResultMessage)
    (waveTerminates : list bool) : run (list ToolResultMessage * list bool) :=
  match waves with
  | [] => ret (ms, waveTerminates)
  | wave :: rest =>
      waveCalls <-! map_prog (element_at toolCalls) wave ;;
      executedWave <-! (if (length waveCalls =? 1)%nat then executeToolCallsSequential waveCalls
                        else executeToolCallsParallel waveCalls) ;;
      let ms := ms ++ batch_messages executedWave in
      let waveTerminates := waveTerminates ++ [batch_terminate executedWave] in
      stop <-! is_aborted host ;;
      if stop then ret (ms, waveTerminates) else waves_loop toolCalls rest ms waveTerminates
  end.

Definition executeToolCallsInWaves (toolCalls : list AgentToolCall) (waves : list (list nat))
    : run ExecutedToolCallBatch :=
  outcome <-! waves_loop toolCalls waves [] [] ;;
  ret {| batch_messages := fst outcome;
         batch_terminate := negb (length (snd outcome) =? 0)%nat && forallb id (snd outcome);
         batch_stopRun := false |}.

(** ** Levels of the claim DAG *)

(** The collected calls, none of them when one is missing. *)
Definition all_or_none {A} (l : list (option A)) : list A := default [] (mapM id l).

Definition claimable_plan (plan : ImmediateToolCallOutcome + PlannedToolCall) : option ClaimableToolCall :=
  match plan with
  | inl _ => None
  | inr p =>
      if isPlainArguments (pl_args p)
      then Some {| call_id := Some (atc_id (pl_toolCall p)); call_name := atc_name (pl_toolCall p);
                   call_arguments := pl_args p |}
      else None
  end.

Definition claimable_prepared (p : PreparedToolCall) : option ClaimableToolCall :=
  if isPlainArguments (pr_args p)
  then Some {| call_id := Some (atc_id (pr_toolCall p)); call_name := atc_name (pr_toolCall p);
               call_arguments := pr_args p |}
  else None.

Definition schedule_options (policies : gmap string ToolParallelPolicy) (boundTools : list AgentTool)
    : ScheduleDagLevelsOptions :=
  {| claim_options :=
       {| cwd := default (process_cwd config) (cfg_cwd config); policies := policies;
          registeredTools := map definition boundTools;
          strictExtensionClaims := cfg_strictExtensionClaims config;
          resourceKeyResolver := cfg_resourceKeyResolver config |};
     maxConcurrency := maxToolConcurrency config |}.

(** [awaitWithAbort(() => scheduleDagLevels(...))] *)
Definition schedule (calls : list ClaimableToolCall) (options : ScheduleDagLevelsOptions)
    : run (option (list (list nat))) :=
  awaitWithAbort host (fun w => (Ok (levels (scheduleDagLevels calls options)), w)).

(** The loop that authorizes the calls of a level: what is finalized, what can
    run, and whether the loop was left by an abort. *)
Fixpoint authorize_loop (toolCalls : list AgentToolCall) (plans : list (ImmediateToolCallOutcome + PlannedToolCall))
    (level : list nat) (outcomes : list (nat * FinalizedToolCallOutcome)) (runnable : list (nat * PreparedToolCall))
    : run (list (nat * FinalizedToolCallOutcome) * list (nat * PreparedToolCall) * bool) :=
  match level with
  | [] => ret (outcomes, runnable, false)
  | i :: rest =>
      plan <-! element_at plans i ;;
      c <-! element_at toolCalls i ;;
      preparation <-! match plan with
                      | inl o => ret (inl o)
                      | inr plan => authorizePlannedToolCall host config message plan
                      end ;;
      let outcomes := match preparation with
                      | inl o => outcomes ++ [(i, finalize_immediate c o)]
                      | inr _ => outcomes
                      end in
      let runnable := match preparation with
                      | inl _ => runnable
                      | inr p => runnable ++ [(i, p)]
                      end in
      stop <-! is_aborted host ;;
      if stop then ret (outcomes, runnable, true)
      else authorize_loop toolCalls plans rest outcomes runnable
  end.

(** [disposition === "timeout" && isRealPromiseSettled?.() === false] *)
Definition timed_out_unsettled (f : FinalizedToolCallOutcome) (w : W) : bool :=
  is_str (get_prop "disposition" (fz_envelope f)) "timeout" && fz_executed f
  && negb (promise_settled host (atc_id (fz_toolCall f)) w).

(** The loop over the execution levels; the second component is
    [stoppedByUnsettledTimeout]. *)
Fixpoint execution_levels (runnable : list (nat * PreparedToolCall)) (ls : list (list nat))
    (outcomes : list (nat * FinalizedToolCallOutcome)) : run (list (nat * FinalizedToolCallOutcome) * bool) :=
  match ls with
  | [] => ret (outcomes, false)
  | level :: rest =>
      stop <-! is_aborted host ;;
      if stop then ret (outcomes, false)
      else
        entries <-! map_prog (element_at runnable) level ;;
        do! for_each (fun entry => emitToolExecutionStart host (snd entry)) entries ;;
        finalizedLevel <-! run_executions (map (fun entry => inl (ToCall (snd entry))) entries) ;;
        let outcomes := outcomes ++ zip (map fst entries) finalizedLevel in
        stop <-! is_aborted host ;;
        if stop then ret (outcomes, false)
        else
          st <-! get ;;
          if existsb (fun f => timed_out_unsettled f (world st)) finalizedLevel then ret (outcomes, true)
          else execution_levels runnable rest outcomes
  end.

Definition runDagLevelCalls (level : list nat) (toolCalls : list AgentToolCall)
    (plans : list (ImmediateToolCallOutcome + PlannedToolCall)) (policies : gmap string ToolParallelPolicy)
    : run (list (nat * FinalizedToolCallOutcome) * bool) :=
  authorized <-! authorize_loop toolCalls plans level [] [] ;;
  let '(outcomes, runnable, stopped) := authorized in
  if stopped then ret (outcomes, false)
  else
    let claimable := all_or_none (map (fun entry => claimable_prepared (snd entry)) runnable) in
    if (length claimable =? length runnable)%nat then
      scheduled <-! schedule claimable (schedule_options policies (map (fun entry => pr_tool (snd entry)) runnable)) ;;
      match scheduled with
      | None => ret (outcomes, false)
      | Some ls => execution_levels runnable ls outcomes
      end
    else execution_levels runnable (imap (fun i _ => [i]) runnable) outcomes.

(** The loop over the levels: [finalizedByIndex], [skippedReason] and
    [stoppedByUnsettledTimeout]. *)
Fixpoint levels_loop (toolCalls : list AgentToolCall) (plans : list (ImmediateToolCallOutcome + PlannedToolCall))
    (policies : gmap string ToolParallelPolicy) (ls : list (list nat))
    (finalizedByIndex : list (option FinalizedToolCallOutcome))
    : run (list (option FinalizedToolCallOutcome) * option string * bool) :=
  match ls with
  | [] => ret (finalizedByIndex, None, false)
  | level :: rest =>
      stop <-! is_aborted host ;;
      if stop then ret (finalizedByIndex, None, false)
      else
        executedLevel <-! runDagLevelCalls level toolCalls plans policies ;;
        let finalizedByIndex :=
          foldl (fun slots o => <[fst o := Some (snd o)]> slots) finalizedByIndex (fst executedLevel) in
        stop <-! is_aborted host ;;
        if stop then ret (finalizedByIndex, None, false)
        else if snd executedLevel
        then ret (finalizedByIndex,
                  Some "Skipped because a preceding DAG tool timed out before its execution promise settled",
                  true)
        else if shouldTerminateToolBatch (map snd (fst executedLevel))
        then ret (finalizedByIndex,
                  Some "Skipped because the preceding DAG level requested termination", false)
        else levels_loop toolCalls plans policies rest finalizedByIndex
  end.

(** The message of one index, if it gets one. *)
Definition message_for (skippedReason : option string) (c : AgentToolCall)
    (slot : option FinalizedToolCallOutcome) : run (option ToolResultMessage) :=
  match slot with
  | Some f => m <-! createToolResultMessage host f ;; ret (Some m)
  | None =>
      stop <-! is_aborted host ;;
      if stop then
        now <-! Date_now host ;;
        m <-! pure_result (createSyntheticToolResult (atc_id c) (atc_name c) "Operation aborted" now aborted) ;;
        ret (Some m)
      else match skippedReason with
           | Some reason =>
               now <-! Date_now host ;;
               m <-! pure_result (createSyntheticToolResult (atc_id c) (atc_name c) reason now skipped) ;;
               ret (Some m)
           | None => ret None
           end
  end.

Definition executeToolCallsDagLevels (toolCalls : list AgentToolCall) : run ExecutedToolCallBatch :=
  st <-! get ;;
  plans <-! map_prog (fun c => pure_result (planToolCall (run_context st) c)) toolCalls ;;
  let boundTools := omap (fun plan => match plan with
                                      | inl _ => None
                                      | inr p => Some (pl_tool p)
                                      end) plans in
  let policies :=
    foldl (fun policies tool =>
             match executionMode (definition tool), policies !! tool_name (definition tool) with
             | Some mode, None => <[tool_name (definition tool) := mode]> policies
             | _, _ => policies
             end) (∅ : gmap string ToolParallelPolicy) boundTools in
  let claimable := all_or_none (map claimable_plan plans) in
  ls <-! (if (length claimable =? length toolCalls)%nat then
            scheduled <-! schedule claimable (schedule_options policies boundTools) ;;
            ret (default [] scheduled)
          else ret (imap (fun i _ => [i]) toolCalls)) ;;
  executed <-! levels_loop toolCalls plans policies ls (replicate (length toolCalls) None) ;;
  let '(finalizedByIndex, skippedReason, stopped) := executed in
  slots <-! map_prog (fun cs => message_for skippedReason (fst cs) (snd cs)) (zip toolCalls finalizedByIndex) ;;
  let ms := omap id slots in
  do! for_each commit_message ms ;;
  ret {| batch_messages := ms;
         batch_terminate := bool_decide (is_Some skippedReason)
                            || shouldTerminateToolBatch (omap id finalizedByIndex);
         batch_stopRun := stopped |}.

(** ** The choice between them *)

Definition waves_options (ctx : AgentContext) : ShouldParallelizeToolBatchOptions :=
  let toolPolicies :=
    foldl (fun policies tool =>
             match executionMode (definition tool) with
             | Some mode => <[tool_name (definition tool) := mode]> policies
             | None => policies
             end) (∅ : gmap string ToolParallelPolicy) (tools ctx) in
  {| opt_cwd := Some (default (process_cwd config) (cfg_cwd config)); toolPolicies := toolPolicies;
     allowUnknownParallel := Some (fun toolName => bool_decide (toolPolicies !! toolName = Some Parallel)) |}.

Definition batch_waves (ctx : AgentContext) (toolCalls : list AgentToolCall) : list (list nat) :=
  partitionToolBatchWaves (process_cwd config) (HOME config)
    (map (fun tc => {| name := atc_name tc; arguments := atc_arguments tc |}) toolCalls) (waves_options ctx).

Definition executeToolCalls : run ExecutedToolCallBatch :=
  let toolCalls := toolCalls_of message in
  let sequential := is_sequential (toolExecution config) in
  if match toolScheduler config with
     | Some dag_v2 => negb sequential
     | _ => false
     end then executeToolCallsDagLevels toolCalls
  else
    st <-! get ;;
    let hasSequentialToolCall :=
      existsb (fun tc => is_sequential (t ← tool_named (atc_name tc) (tools (run_context st));
                                        executionMode (definition t))) toolCalls in
    let waves := batch_waves (run_context st) toolCalls in
    if sequential || hasSequentialToolCall || forallb (fun wave => (length wave =? 1)%nat) waves
    then executeToolCallsSequential toolCalls
    else if (length waves =? 1)%nat then executeToolCallsParallel toolCalls
    else executeToolCallsInWaves toolCalls waves.

(** ** Calls an abort left unresolved *)

Fixpoint close_loop (toolCalls : list AgentToolCall) (resolvedIds : list string) (synthesized : list ToolResultMessage)
    : run (list ToolResultMessage) :=
  match toolCalls with
  | [] => ret synthesized
  | c :: rest =>
      if existsb (String.eqb (atc_id c)) resolvedIds then close_loop rest resolvedIds synthesized
      else
        now <-! Date_now host ;;
        m <-! pure_result (createSyntheticToolResult (atc_id c) (atc_name c) "Operation aborted" now aborted) ;;
        do! commit_message m ;;
        close_loop rest (resolvedIds ++ [atc_id c]) (synthesized ++ [m])
  end.

Definition closeAbortedToolBatch (toolCalls : list AgentToolCall) (existingResults : list ToolResultMessage)
    : run (list ToolResultMessage) :=
  close_loop toolCalls (map toolCallId existingResults) [].
End Batch.

(** ** What a batch commits

    [commits s c Q]: when [c] returns from [s], the messages it committed were
    appended to the context and ended by their events, in this order, nothing
    else was, and [Q] holds of the value, the messages and the state; when it
    throws, no provider request was made. The run is not ended. *)

Definition commits {W A} (host : Host W) (s : RunState W) (c : prog (RunState W) A)
    (Q : A -> list ToolResultMessage -> RunState W -> Prop) : Prop :=
  match c s with
  | (Ok a, s') => exists ms, progress host s (map Result ms) [] (map Result ms) s' /\ Q a ms s'
  | (Err _, s') => requested s' = requested s /\ open_events s s'
  end.

Section Commits.
Context {W : Type} (host : Host W).

Lemma commits_ret {A} (s : RunState W) (a : A) Q : Q a [] s -> commits host s (ret a) Q.
Proof. intros H. exists []. split; [apply progress_refl|done]. Qed.

Lemma commits_bind {A B} (s : RunState W) (c : prog (RunState W) A) (k : A -> prog (RunState W) B) R Q :
  commits host s c R ->
  (forall a ms s1, R a ms s1 -> (run_aborted host s = true -> run_aborted host s1 = true) ->
     commits host s1 (k a) (fun b ms' s' => Q b (ms ++ ms') s')) ->
  commits host s (bind c k) Q.
Proof.
  intros Hc Hk. unfold commits, bind in *. destruct (c s) as [[a|e] s1]; [|done].
  destruct Hc as (ms & Hp & HR). specialize (Hk a ms s1 HR (pg_aborted _ _ _ _ _ _ Hp)).
  destruct (k a s1) as [[b|e] s2].
  2: { destruct Hk as [-> Hk]. split; [apply Hp|]. by eapply open_trans; [apply Hp|]. } destruct Hk as (ms' & Hp' & HQ).
  exists (ms ++ ms'). rewrite map_app. split; [|done]. by apply (progress_trans host s s1 s2 _ [] _ _ [] _).
Qed.

(** A computation that appends nothing; its value satisfies [R]. *)
Lemma commits_keeps {A B} (s : RunState W) (c : prog (RunState W) A) (k : A -> prog (RunState W) B) R Q :
  keeps host c -> returns c R ->
  (forall a s1, R a -> (run_aborted host s = true -> run_aborted host s1 = true) ->
     commits host s1 (k a) Q) ->
  commits host s (bind c k) Q.
Proof.
  intros Hc Hr Hk. eapply (commits_bind _ _ _ (fun a ms _ => ms = [] /\ R a)).
  - unfold commits. specialize (Hc s). specialize (Hr s I). destruct (c s) as [[a|e] s1].
    2: { split; apply Hc. }
    exists []. done.
  - intros a ms s1 [-> HR] Hab. by apply Hk.
Qed.

Lemma commits_aborted {B} (s : RunState W) (k : bool -> prog (RunState W) B) Q :
  commits host s (k (run_aborted host s)) Q -> commits host s (bind (is_aborted host) k) Q.
Proof. done. Qed.

Lemma commits_get {B} (s : RunState W) (k : RunState W -> prog (RunState W) B) Q :
  commits host s (k s) Q -> commits host s (bind get k) Q.
Proof. done. Qed.

Lemma commits_conseq {A} (s : RunState W) (c : prog (RunState W) A) (Q Q' : A -> _ -> _ -> Prop) :
  commits host s c Q' -> (forall a ms s', Q' a ms s' -> Q a ms s') -> commits host s c Q.
Proof.
  intros H HQ. unfold commits in *. destruct (c s) as [[a|e] s']; [|done].
  destruct H as (ms & Hp & H). eauto.
Qed.

Context (laws : signal_laws host).

(** A result is appended, and notified after whatever happens in between. *)
Lemma commits_message {A} (s : RunState W) (m : ToolResultMessage) (c : prog (RunState W) A) :
  keeps host c ->
  commits host s (do! push_context (Result m) ;; do! c ;; emitToolResultMessage host m)
    (fun _ ms _ => ms = [m]).
Proof.
  intros Hc.
  assert (H : holds (progress host s [] [] [])
    (do! push_context (Result m) ;; do! c ;; emitToolResultMessage host m)
    (fun _ => progress host s [Result m] [] [Result m]) (fun _ s' => requested s' = requested s /\ open_events s s')).
  { eapply holds_bind; [by apply (holds_push_context host)|]. intros ?.
    eapply holds_bind.
    { eapply holds_conseq; [apply (holds_keeps host c s), Hc|done|done|]. by intros e s' H; split; apply H. }
    intros ?. unfold emitToolResultMessage. eapply holds_bind.
    { eapply holds_conseq; [apply (holds_keeps host _ s), keeps_publish; done|done|done|].
      by intros e s' H; split; apply H. }
    intros ?. by apply (holds_message_end host laws (Result m)). }
  specialize (H s (progress_refl host s)). unfold commits.
  destruct (bind _ _ s) as [[[]|e] s']; [|done]. by exists [m].
Qed.

Lemma commits_message_then {A B} (s : RunState W) (m : ToolResultMessage) (c : prog (RunState W) A)
    (k : prog (RunState W) B) Q :
  keeps host c ->
  (forall s1, (run_aborted host s = true -> run_aborted host s1 = true) ->
     commits host s1 k (fun b ms s' => Q b (m :: ms) s')) ->
  commits host s (do! push_context (Result m) ;; do! c ;; do! emitToolResultMessage host m ;; k) Q.
Proof.
  intros Hc Hk.
  assert (E : (do! push_context (Result m) ;; do! c ;; do! emitToolResultMessage host m ;; k) s
              = (do! (do! push_context (Result m) ;; do! c ;; emitToolResultMessage host m) ;; k) s).
  { unfold bind. destruct (push_context (Result m) s) as [[]]; [|done]. by destruct (c r) as [[]]. }
  unfold commits. rewrite E.
  apply (commits_bind s _ (fun _ => k) (fun _ ms _ => ms = [m])); [by apply commits_message|].
  intros _ ms s1 -> Hab. by apply Hk.
Qed.

Lemma commits_commit_message (s : RunState W) (m : ToolResultMessage) :
  commits host s (commit_message host m) (fun _ ms _ => ms = [m]).
Proof.
  pose proof (commits_message s m (ret tt) (keeps_ret host tt)) as H.
  unfold commits, commit_message, bind in *. exact H.
Qed.
End Commits.

(** ** The calls of a batch and what becomes of them *)

Definition result_call_ids (ms : list ToolResultMessage) : list string := map toolCallId ms.

(** The results of some of the calls, in order; of all of them unless the run
    is aborted. *)
Definition answers {W} (host : Host W) (calls : list AgentToolCall) (ms : list ToolResultMessage)
    (s : RunState W) : Prop :=
  sublist (map toolCallId ms) (map atc_id calls) /\
  (run_aborted host s = false -> map toolCallId ms = map atc_id calls).

Definition finalized_for (c : AgentToolCall) (f : FinalizedToolCallOutcome) : Prop :=
  atc_id (fz_toolCall f) = atc_id c /\ finalized_ok f.

Definition stage_for (c : AgentToolCall) (stage : ExecutionStage) : Prop :=
  match stage with
  | ToStart p | ToCall p | ToSettle p => atc_id (pr_toolCall p) = atc_id c
  | ToFinalize p ex => atc_id (pr_toolCall p) = atc_id c /\ executed_ok p ex
  | ToEnd f => finalized_for c f
  end.

Definition prepared_call (c : AgentToolCall) (r : ImmediateToolCallOutcome + PreparedToolCall) : Prop :=
  match r with
  | inl o => immediate_ok o
  | inr p => atc_id (pr_toolCall p) = atc_id c
  end.

Section Calls.
Context {W : Type} (host : Host W) (config : AgentLoopConfig) (message : AssistantMessage).
Context (laws : signal_laws host).

Lemma prepare_returns (c : AgentToolCall) :
  returns (prepareToolCall host config message c) (prepared_call c).
Proof.
  eapply returns_conseq; [apply yields_returns, prepareToolCall_yields|].
  intros [o|p]; [done|]. intros (plan & (ctx & Hpl) & Hp). unfold prepared_call.
  by rewrite (pp_call _ _ _ Hp), (pf_call _ _ _ Hpl).
Qed.

Lemma finalize_returns (c : AgentToolCall) (p : PreparedToolCall) (ex : ExecutedToolCallOutcome) :
  atc_id (pr_toolCall p) = atc_id c -> executed_ok p ex ->
  returns (finalizeExecutedToolCall host message p ex) (finalized_for c).
Proof.
  intros Hc Hex. eapply returns_conseq; [by apply yields_returns, finalize_yields|].
  intros f (Hf & _ & Hok & _). split; [by rewrite Hf|done].
Qed.

Lemma run_one_returns (c : AgentToolCall) (r : ImmediateToolCallOutcome + PreparedToolCall) :
  prepared_call c r -> returns (run_one host message c r) (finalized_for c).
Proof.
  intros Hr. destruct r as [o|p]; simpl in *.
  - apply returns_ret. split; [done|]. by apply immediate_finalized.
  - eapply returns_bind; [apply returns_any|]. intros _ _.
    eapply returns_bind; [by apply yields_returns, executePreparedToolCall_yields|]. intros ex [Hex _].
    by apply finalize_returns.
Qed.

Lemma keeps_run_one (c : AgentToolCall) (r : ImmediateToolCallOutcome + PreparedToolCall) :
  keeps host (run_one host message c r).
Proof.
  unfold run_one. keeps; [by apply keeps_start|by apply keeps_execute|by apply keeps_finalize].
Qed.

Lemma message_returns (c : AgentToolCall) (f : FinalizedToolCallOutcome) :
  finalized_for c f -> returns (createToolResultMessage host f) (fun m => toolCallId m = atc_id c).
Proof.
  intros [Hc Hf]. eapply returns_conseq; [by apply yields_returns, createToolResultMessage_yields|].
  intros m (Hid & _). by rewrite Hid, Hc.
Qed.

Lemma execution_step_returns (c : AgentToolCall) (stage : ExecutionStage) :
  stage_for c stage ->
  returns (execution_step host message stage) (fun x =>
    match x with
    | inl stage' => stage_for c stage' /\ stage_steps stage' < stage_steps stage
    | inr f => finalized_for c f
    end).
Proof.
  destruct stage as [p|p|p|p ex|f]; intros Hs; simpl in *.
  - eapply returns_bind; [apply returns_any|]. intros _ _. apply returns_ret. simpl. split; [done|lia].
  - eapply returns_bind; [apply yields_returns, runToolCall_start_yields|]. intros [ex|] Hex; apply returns_ret; simpl.
    + split; [|lia]. split; [done|]. by apply Hex.
    + split; [done|lia].
  - eapply returns_bind; [by apply yields_returns, runToolCall_settle_yields|]. intros ex [Hex _].
    apply returns_ret. simpl. split; [done|lia].
  - destruct Hs as [Hc Hex]. eapply returns_bind; [by apply finalize_returns|]. intros f Hf.
    apply returns_ret. simpl. split; [done|lia].
  - eapply returns_bind; [apply returns_any|]. intros _ _. by apply returns_ret.
Qed.
End Calls.

(** ** Every call is answered *)

Lemma answers_nil {W} (host : Host W) (s : RunState W) : answers host [] [] s.
Proof. by split. Qed.

Lemma answers_app {W} (host : Host W) (calls calls' : list AgentToolCall) (ms ms' : list ToolResultMessage)
    (s s' : RunState W) :
  answers host calls ms s -> (run_aborted host s = true -> run_aborted host s' = true) ->
  answers host calls' ms' s' -> answers host (calls ++ calls') (ms ++ ms') s'.
Proof.
  intros [Hs He] Hab [Hs' He']. split; rewrite !map_app; [by apply sublist_app|].
  intros Ha. rewrite He' by done. rewrite He; [done|]. destruct (run_aborted host s); [|done]. by rewrite Hab in Ha.
Qed.

(** An abort excuses the calls that were not answered. *)
Lemma answers_aborted {W} (host : Host W) (calls calls' : list AgentToolCall) (ms : list ToolResultMessage)
    (s : RunState W) :
  answers host calls ms s -> run_aborted host s = true -> answers host (calls ++ calls') ms s.
Proof.
  intros [Hs _] Ha. split; [rewrite map_app; by apply sublist_inserts_r|]. by rewrite Ha.
Qed.

Section Answers.
Context {W : Type} (host : Host W) (config : AgentLoopConfig) (message : AssistantMessage).
Context (laws : signal_laws host).

Lemma sequential_answers (calls : list AgentToolCall) (fin : list FinalizedToolCallOutcome)
    (ms0 : list ToolResultMessage) (s : RunState W) :
  commits host s (sequential_loop host config message calls fin ms0)
    (fun r ms s' => snd r = ms0 ++ ms /\ answers host calls ms s').
Proof.
  revert fin ms0 s; induction calls as [|c calls IH]; intros fin ms0 s; simpl.
  { apply commits_ret. split; [by rewrite app_nil_r|apply answers_nil]. }
  eapply commits_keeps; [by apply keeps_prepareToolCall|by apply prepare_returns|].
  intros r s1 Hr _. eapply commits_keeps; [by apply keeps_run_one|by apply run_one_returns|].
  intros f s2 Hf _. eapply commits_keeps; [by apply keeps_createToolResultMessage|by apply message_returns|].
  intros m s3 Hm _. apply commits_message_then; [done|destruct r; [apply keeps_ret|by apply keeps_end]|].
  intros s4 _. apply commits_aborted.
  assert (Hone : answers host [c] [m] s4) by (split; simpl; by rewrite Hm).
  destruct (run_aborted host s4) eqn:Ha.
  - apply commits_ret. split; [done|]. by apply (answers_aborted host [c] calls [m]).
  - eapply commits_conseq; [apply IH|]. intros [fin' ms'] ms s' [Hms Hans]. simpl in *.
    split; [by rewrite Hms, <- app_assoc|].
    apply (answers_app host [c] calls [m] ms s4 s'); [done| |done]. by rewrite Ha.
Qed.

(** The calls [prepare_loop] got to. *)
Lemma prepare_loop_returns (calls : list AgentToolCall)
    (entries : list (ExecutionStage + FinalizedToolCallOutcome)) (done_calls : list AgentToolCall)
    (s : RunState W) :
  Forall2 (fun c e => task_ok (fun _ => stage_for c) (fun _ => finalized_for c) 0 e) done_calls entries ->
  commits host s (prepare_loop host config message calls entries)
    (fun entries' ms s' => ms = [] /\ exists seen rest, calls = seen ++ rest /\
       (rest <> [] -> run_aborted host s' = true) /\
       Forall2 (fun c e => task_ok (fun _ => stage_for c) (fun _ => finalized_for c) 0 e)
               (done_calls ++ seen) entries').
Proof.
  revert entries done_calls s; induction calls as [|c calls IH]; intros entries done_calls s He; simpl.
  { apply commits_ret. split; [done|]. exists [], [].
    split_and!; [done|done|by rewrite app_nil_r]. }
  eapply commits_keeps; [by apply keeps_prepareToolCall|by apply prepare_returns|].
  intros r s1 Hr _. apply commits_aborted.
  set (entry := match r with
                | inl o => inr (finalize_immediate c o)
                | inr p => inl (ToStart p)
                end : ExecutionStage + FinalizedToolCallOutcome).
  assert (Hentry : task_ok (fun _ => stage_for c) (fun _ => finalized_for c) 0 entry).
  { destruct r as [o|p]; simpl; [|done]. split; [done|]. by apply immediate_finalized. }
  assert (Hnext : Forall2 (fun c e => task_ok (fun _ => stage_for c) (fun _ => finalized_for c) 0 e)
                    (done_calls ++ [c]) (entries ++ [entry])).
  { apply Forall2_app; [done|]. by repeat constructor. }
  destruct (run_aborted host s1) eqn:Ha.
  - apply commits_ret. split; [done|]. by exists [c], calls.
  - eapply commits_conseq; [by apply (IH _ (done_calls ++ [c]))|].
    intros entries' ms s' (-> & seen & rest & -> & Hab & HF). split; [done|].
    exists (c :: seen), rest. rewrite <- app_assoc in HF. done.
Qed.

(** A concurrent batch ends, under every interleaving, with one outcome per
    call, at the call's place. *)
Lemma run_executions_answers (calls : list AgentToolCall)
    (entries : list (ExecutionStage + FinalizedToolCallOutcome)) (s : RunState W) :
  Forall2 (fun c e => task_ok (fun _ => stage_for c) (fun _ => finalized_for c) 0 e) calls entries ->
  commits host s (run_executions host message entries)
    (fun fs ms _ => ms = [] /\ Forall2 finalized_for calls fs).
Proof.
  intros He.
  pose proof (Promise_all_rule (execution_step host message) stage_steps (fun l st => pick host l (world st))
    (progress host s [] [] []) (fun i t => exists c, calls !! i = Some c /\ stage_for c t)
    (fun i f => exists c, calls !! i = Some c /\ finalized_for c f) (fun _ s' => requested s' = requested s /\ open_events s s') entries) as H.
  assert (Hend : holds (progress host s [] [] []) (run_executions host message entries)
    (fun l s' => (length l = length entries /\
       forall i f, l !! i = Some f -> exists c, calls !! i = Some c /\ finalized_for c f) /\
       progress host s [] [] [] s') (fun _ s' => requested s' = requested s /\ open_events s s')).
  { apply H.
    - intros i t (c & Hc & Ht). eapply holds_conseq.
      + apply holds_returns; [apply (holds_keeps host _ s), keeps_execution_step, laws|].
        apply (execution_step_returns host message laws c t Ht).
      + done.
      + intros [t'|f] s' [Hv Hp]; simpl in *; naive_solver.
      + by intros e s' Hp; split; apply Hp.
    - intros i x Hx. destruct (Forall2_lookup_r _ _ _ _ _ He Hx) as (c & Hc & Hok).
      destruct x; exists c; done. }
  clear H. specialize (Hend s (progress_refl host s)).
  unfold commits. destruct (run_executions host message entries s) as [[fs|e] s']; [|done].
  destruct Hend as [[Hlen HQ] Hp]. exists []. split; [done|]. split; [done|].
  apply Forall2_same_length_lookup. split; [by rewrite Hlen; eapply Forall2_length|].
  intros i c f Hi Hf. destruct (HQ i f Hf) as (c' & Hc' & ?). congruence.
Qed.

Lemma commit_loop_answers (calls : list AgentToolCall) (fs : list FinalizedToolCallOutcome)
    (ms0 : list ToolResultMessage) (s : RunState W) :
  Forall2 finalized_for calls fs ->
  commits host s (commit_loop host fs ms0)
    (fun r ms _ => r = ms0 ++ ms /\ map toolCallId ms = map atc_id calls).
Proof.
  intros HF. revert ms0 s; induction HF as [|c f calls fs Hf HF IH]; intros ms0 s; simpl.
  { apply commits_ret. by rewrite app_nil_r. }
  eapply commits_keeps; [by apply keeps_createToolResultMessage|by apply message_returns|].
  intros m s1 Hm _. eapply commits_bind; [by apply commits_commit_message|].
  intros ? ms s2 -> _. eapply commits_conseq; [apply IH|].
  intros r ms s' [-> Hms]. rewrite <- app_assoc. split; [done|]. simpl. by rewrite Hm, Hms.
Qed.

Lemma parallel_answers (calls : list AgentToolCall) (s : RunState W) :
  commits host s (executeToolCallsParallel host config message calls)
    (fun b ms s' => batch_messages b = ms /\ answers host calls ms s').
Proof.
  unfold executeToolCallsParallel.
  eapply commits_bind; [apply (prepare_loop_returns calls [] []); constructor|].
  intros entries ms s1 (-> & seen & rest & -> & Hrest & HF) _.
  eapply commits_bind; [by apply run_executions_answers|]. intros fs ms s2 [-> HF'] Hab.
  eapply commits_bind; [by apply commit_loop_answers|]. intros r ms s3 [-> Hms] Hab'.
  apply commits_ret. simpl. rewrite app_nil_r. split; [done|].
  assert (Hseen : answers host seen ms s3) by (split; [by rewrite Hms|done]).
  destruct rest as [|c rest]; [by rewrite app_nil_r|].
  apply answers_aborted; [done|]. by apply Hab', Hab, Hrest.
Qed.
End Answers.

(** ** Waves *)

Section Elements.
Context {W : Type} (host : Host W).

Lemma element_at_returns {A} (l : list A) (i : nat) :
  returns (S := RunState W) (element_at l i) (fun a => l !! i = Some a).
Proof. apply returns_pure. intros a. by destruct (l !! i); intros; simplify_eq. Qed.

Lemma keeps_element_at {A} (l : list A) (i : nat) : keeps host (element_at l i).
Proof. apply keeps_pure. Qed.

Lemma map_prog_returns {A B} (f : A -> prog (RunState W) B) (R : A -> B -> Prop) (l : list A) :
  (forall a, a ∈ l -> returns (f a) (R a)) -> returns (map_prog f l) (Forall2 R l).
Proof.
  induction l as [|a l IH]; intros Hf; simpl; [by apply returns_ret|].
  eapply returns_bind; [apply Hf; left|]. intros b Hb.
  eapply returns_bind; [apply IH; intros; apply Hf; by right|]. intros bs Hbs.
  apply returns_ret. by constructor.
Qed.

Lemma keeps_map_prog {A B} (f : A -> prog (RunState W) B) (l : list A) :
  (forall a, keeps host (f a)) -> keeps host (map_prog f l).
Proof.
  intros Hf. induction l as [|a l IH]; simpl; [apply keeps_ret|].
  apply keeps_bind; [done|]. intros b. apply keeps_bind; [done|]. intros bs. apply keeps_ret.
Qed.
End Elements.

Lemma elements_seq {A} (l xs : list A) (k n : nat) :
  Forall2 (fun i x => l !! i = Some x) (seq k n) xs -> drop k l = xs ++ drop (k + n) l.
Proof.
  revert k l xs; induction n as [|n IH]; intros k l xs H.
  - inversion H. by rewrite Nat.add_0_r.
  - simpl in H. inversion H as [|? x ? xs' Hx H']; subst. rewrite (drop_S l x k Hx). simpl.
    rewrite (IH (S k) l xs' H'). by rewrite Nat.add_succ_r.
Qed.

Lemma seq_app_inv (k n : nat) (l l' : list nat) :
  l ++ l' = seq k n -> l = seq k (length l) /\ l' = seq (k + length l) (length l') /\ n = length l + length l'.
Proof.
  intros H. assert (Hn : n = length l + length l').
  { rewrite <- length_app, H, length_seq. done. }
  subst n. rewrite seq_app in H. apply app_inj_1 in H as [-> ->]; [|by rewrite length_seq].
  by rewrite !length_seq.
Qed.

Section Waves.
Context {W : Type} (host : Host W) (config : AgentLoopConfig) (message : AssistantMessage).
Context (laws : signal_laws host).

Lemma sequential_batch (calls : list AgentToolCall) (s : RunState W) :
  commits host s (executeToolCallsSequential host config message calls)
    (fun b ms s' => batch_messages b = ms /\ answers host calls ms s').
Proof.
  eapply commits_bind; [by apply sequential_answers|]. intros r ms s1 [Hr Ha] _.
  apply commits_ret. simpl. by rewrite app_nil_r.
Qed.

Lemma waves_answers (calls : list AgentToolCall) (waves : list (list nat)) (ms0 : list ToolResultMessage)
    (ts : list bool) (k : nat) (s : RunState W) :
  concat waves = seq k (length calls - k) -> k <= length calls ->
  commits host s (waves_loop host config message calls waves ms0 ts)
    (fun r ms s' => fst r = ms0 ++ ms /\ answers host (drop k calls) ms s').
Proof.
  revert ms0 ts k s; induction waves as [|wave waves IH]; intros ms0 ts k s Hw Hk; simpl.
  { apply commits_ret. rewrite app_nil_r. split; [done|]. simpl in Hw.
    assert (length (seq k (length calls - k)) = 0) as Hl by (by rewrite <- Hw).
    rewrite length_seq in Hl. rewrite drop_ge by lia. apply answers_nil. }
  simpl in Hw. apply seq_app_inv in Hw as (Hwave & Hrest & Hlen).
  eapply commits_keeps; [apply keeps_map_prog; intros; apply keeps_element_at
                        |apply map_prog_returns; intros; apply element_at_returns|].
  intros waveCalls s1 Hcalls _. rewrite Hwave in Hcalls. apply elements_seq in Hcalls as ->.
  eapply (commits_bind _ _ _ _ (fun b ms s' => batch_messages b = ms /\ answers host waveCalls ms s')).
  { destruct (_ =? 1)%nat; [by apply sequential_batch|by apply parallel_answers]. }
  intros b ms s2 [Hb Ha] _. apply commits_aborted. destruct (run_aborted host s2) eqn:Hab.
  - apply commits_ret. simpl. rewrite app_nil_r, Hb. split; [done|]. by apply answers_aborted.
  - eapply commits_conseq; [apply (IH _ _ (k + length wave))|].
    + by replace (length calls - (k + length wave)) with (length (concat waves)) by lia.
    + lia.
    + intros r ms' s' [Hr Ha']. split; [by rewrite Hr, Hb, app_assoc|].
      eapply answers_app; [done| |done]. by rewrite Hab.
Qed.
End Waves.

(** ** Levels *)

Section Levels.
Context {W : Type} (host : Host W) (config : AgentLoopConfig) (message : AssistantMessage).
Context (laws : signal_laws host) (calls : list AgentToolCall).

Definition plan_for (c : AgentToolCall) (plan : ImmediateToolCallOutcome + PlannedToolCall) : Prop :=
  match plan with
  | inl o => immediate_ok o
  | inr p => pl_toolCall p = c
  end.

(** An outcome, or a prepared call, that belongs to the call of its index. *)
Definition outcome_ok (o : nat * FinalizedToolCallOutcome) : Prop :=
  exists c, calls !! fst o = Some c /\ finalized_for c (snd o).

Definition runnable_ok (o : nat * PreparedToolCall) : Prop :=
  exists c, calls !! fst o = Some c /\ atc_id (pr_toolCall (snd o)) = atc_id c.

Lemma authorize_prepared (c : AgentToolCall) (plan : ImmediateToolCallOutcome + PlannedToolCall) :
  plan_for c plan ->
  returns (match plan with
           | inl o => ret (inl o)
           | inr plan => authorizePlannedToolCall host config message plan
           end) (prepared_call c).
Proof.
  destruct plan as [o|plan]; intros Hp; [by apply returns_ret|].
  eapply returns_conseq; [apply yields_returns, authorize_yields|]. intros [o|p]; [done|].
  intros Hpp. simpl. by rewrite (pp_call _ _ _ Hpp), Hp.
Qed.

Lemma authorize_loop_answers (plans : list (ImmediateToolCallOutcome + PlannedToolCall)) (level : list nat)
    (outcomes : list (nat * FinalizedToolCallOutcome)) (runnable : list (nat * PreparedToolCall)) (s : RunState W) :
  Forall2 plan_for calls plans -> Forall outcome_ok outcomes -> Forall runnable_ok runnable ->
  commits host s (authorize_loop host config message calls plans level outcomes runnable)
    (fun r ms s' => ms = [] /\
       let '(outcomes', runnable', stopped) := r in
       Forall outcome_ok outcomes' /\ Forall runnable_ok runnable' /\
       (stopped = true -> run_aborted host s' = true) /\
       (stopped = false -> forall i, i ∈ level \/ i ∈ map fst outcomes \/ i ∈ map fst runnable ->
          i ∈ map fst outcomes' \/ i ∈ map fst runnable')).
Proof.
  intros Hplans. revert outcomes runnable s; induction level as [|i level IH]; intros outcomes runnable s Ho Hr; simpl.
  { apply commits_ret. split_and!; [done..|]. intros _ i [Hi|?]; [by apply elem_of_nil in Hi|done]. }
  eapply commits_keeps; [apply keeps_element_at|apply element_at_returns|]. intros plan s1 Hplan _.
  eapply commits_keeps; [apply keeps_element_at|apply element_at_returns|]. intros c s2 Hc _.
  pose proof (Forall2_lookup_lr _ _ _ _ _ _ Hplans Hc Hplan) as Hpf.
  eapply commits_keeps; [destruct plan; [apply keeps_ret|by apply keeps_authorize]|by apply authorize_prepared|].
  intros prep s3 Hprep _.
  assert (Hacc : Forall outcome_ok (match prep with
                                    | inl o => outcomes ++ [(i, finalize_immediate c o)]
                                    | inr _ => outcomes
                                    end) /\
                 Forall runnable_ok (match prep with
                                     | inl _ => runnable
                                     | inr p => runnable ++ [(i, p)]
                                     end)).
  { destruct prep as [o|p]; split; try done; apply Forall_app; (split; [done|]);
      apply Forall_singleton; exists c; (split; [done|]); [|done]. split; [done|]. by apply immediate_finalized. }
  destruct Hacc as [Ho' Hr']. apply commits_aborted. destruct (run_aborted host s3) eqn:Hab.
  - apply commits_ret. by split_and!.
  - eapply commits_conseq; [by apply IH|].
    intros [[outcomes' runnable'] stopped] ms s' (-> & H1 & H2 & H3 & H4). split_and!; [done..|].
    intros Hst j Hj. apply H4; [done|]. rewrite elem_of_cons in Hj.
    destruct prep; rewrite map_app, elem_of_app; simpl; rewrite list_elem_of_singleton; naive_solver.
Qed.

Lemma execution_levels_answers (runnable : list (nat * PreparedToolCall)) (ls : list (list nat))
    (outcomes : list (nat * FinalizedToolCallOutcome)) (s : RunState W) :
  Forall runnable_ok runnable -> Forall outcome_ok outcomes ->
  commits host s (execution_levels host message runnable ls outcomes)
    (fun r ms s' => ms = [] /\ Forall outcome_ok (fst r) /\
       (run_aborted host s' = false -> snd r = false ->
        forall i, i ∈ map fst outcomes \/ (exists k o, k ∈ concat ls /\ runnable !! k = Some o /\ fst o = i) ->
          i ∈ map fst (fst r))).
Proof.
  intros Hrun. revert outcomes s; induction ls as [|level ls IH]; intros outcomes s Ho; simpl.
  { apply commits_ret. split_and!; [done..|]. intros _ _ i [?|(k & o & Hk & _)]; [done|by apply elem_of_nil in Hk]. }
  apply commits_aborted. destruct (run_aborted host s) eqn:Hab.
  { apply commits_ret. split_and!; [done..|]. by rewrite Hab. }
  eapply commits_keeps; [apply keeps_map_prog; intros; apply keeps_element_at
                        |apply map_prog_returns; intros; apply element_at_returns|].
  intros entries s1 Hentries _.
  eapply commits_keeps; [apply keeps_for_each; intros; by apply keeps_start|apply returns_any|]. intros _ s2 _ _.
  assert (Hcs : exists cs, Forall2 (fun o c => calls !! fst o = Some c /\ atc_id (pr_toolCall (snd o)) = atc_id c)
                             entries cs).
  { clear -Hrun Hentries. induction Hentries as [|k o level entries Hk _ [cs IH]]; [by exists []|].
    destruct (Forall_lookup_1 _ _ _ _ Hrun Hk) as (c & ? & ?). exists (c :: cs). by constructor. }
  destruct Hcs as [cs Hcs].
  eapply commits_bind.
  { apply (run_executions_answers host message laws cs).
    clear -Hcs. induction Hcs as [|o c entries cs [_ Hid] _ IH]; simpl; constructor; done. }
  intros fs ms s3 [-> Hfs] _.
  assert (Ho' : Forall outcome_ok (outcomes ++ zip (map fst entries) fs)).
  { apply Forall_app. split; [done|]. clear -Hcs Hfs. revert fs Hfs.
    induction Hcs as [|o c entries cs [Hc _] _ IH]; intros fs Hfs; inversion_clear Hfs; simpl; constructor; [|by apply IH].
    by exists c. }
  assert (Hin : forall i, i ∈ map fst outcomes \/ (exists k o, k ∈ level /\ runnable !! k = Some o /\ fst o = i) ->
                  i ∈ map fst (outcomes ++ zip (map fst entries) fs)).
  { intros i Hi. rewrite map_app, elem_of_app. destruct Hi as [?|(k & o & Hk & Hr & <-)]; [by left|right].
    assert (map fst (zip (map fst entries) fs) = map fst entries) as ->.
    { apply fst_zip. rewrite length_map. apply Nat.eq_le_incl.
      rewrite (Forall2_length _ _ _ Hcs), (Forall2_length _ _ _ Hfs). done. }
    apply list_elem_of_lookup in Hk as [j Hj]. destruct (Forall2_lookup_l _ _ _ _ _ Hentries Hj) as (o' & Hj' & Ho'').
    assert (o' = o) as -> by congruence. apply list_elem_of_lookup. exists j. by rewrite list_lookup_fmap, Hj'. }
  apply commits_aborted. destruct (run_aborted host s3) eqn:Hab3.
  { apply commits_ret. split_and!; [done..|]. by rewrite Hab3. }
  apply commits_get. destruct (existsb _ fs).
  { apply commits_ret. by split_and!. }
  eapply commits_conseq; [by apply IH|]. intros r ms s' (-> & Hr & Hall). split_and!; [done..|].
  intros Ha Hst i Hi. apply Hall; [done..|]. destruct Hi as [?|(k & o & Hk & Hro & Hio)].
  - left. apply Hin. by left.
  - apply elem_of_app in Hk as [Hk|Hk]; [left; apply Hin; right|right]; by exists k, o.
Qed.

Lemma schedule_answers (claimable : list ClaimableToolCall) (options : ScheduleDagLevelsOptions) (s : RunState W) :
  commits host s (schedule host claimable options)
    (fun r ms s' => ms = [] /\
       match r with
       | None => run_aborted host s' = true
       | Some ls => concat ls ≡ₚ seq 0 (length claimable)
       end).
Proof.
  unfold commits, schedule. pose proof (keeps_awaitWithAbort host
    (fun w => (Ok (levels (scheduleDagLevels claimable options)), w)) (fun w H => H) s) as Hp.
  destruct (awaitWithAbort _ _ s) as [[r|e] s'] eqn:E; [|split; apply Hp]. exists []. split; [done|].
  split; [done|].
  destruct r as [ls|]; [|by eapply awaitWithAbort_aborted].
  unfold awaitWithAbort in E. repeat case_match; simplify_eq. apply scheduled_levels.
Qed.

Lemma concat_singles {A} (l : list A) : concat (imap (fun i _ => [i]) l) = seq 0 (length l).
Proof.
  assert (H : forall k, concat (imap (fun i _ => [k + i]) l) = seq k (length l)).
  { induction l as [|a l IH]; intros k; simpl; [done|]. rewrite Nat.add_0_r. f_equal. rewrite <- IH.
    f_equal. apply imap_ext. intros i x _. simpl. by rewrite Nat.add_succ_r. }
  apply (H 0).
Qed.

Lemma levels_cover (runnable : list (nat * PreparedToolCall)) (ls : list (list nat)) (i : nat) :
  concat ls ≡ₚ seq 0 (length runnable) -> i ∈ map fst runnable ->
  exists k o, k ∈ concat ls /\ runnable !! k = Some o /\ fst o = i.
Proof.
  intros Hls (o & -> & Ho)%list_elem_of_fmap. apply list_elem_of_lookup in Ho as [k Hk].
  exists k, o. split; [|done]. rewrite Hls, elem_of_seq. apply lookup_lt_Some in Hk. lia.
Qed.

Lemma runDagLevel_answers (plans : list (ImmediateToolCallOutcome + PlannedToolCall)) (level : list nat)
    (policies : gmap string ToolParallelPolicy) (s : RunState W) :
  Forall2 plan_for calls plans ->
  commits host s (runDagLevelCalls host config message level calls plans policies)
    (fun r ms s' => ms = [] /\ Forall outcome_ok (fst r) /\
       (run_aborted host s' = false -> snd r = false -> forall i, i ∈ level -> i ∈ map fst (fst r))).
Proof.
  intros Hplans. unfold runDagLevelCalls.
  eapply commits_bind; [by apply (authorize_loop_answers _ _ [] [])|].
  intros [[outcomes runnable] stopped] ms s1 (-> & Ho & Hr & Hstop & Hall) _. simpl. destruct stopped.
  { apply commits_ret. split_and!; [done..|]. rewrite Hstop by done. done. }
  assert (Hexec : forall ls s2, concat ls ≡ₚ seq 0 (length runnable) ->
    commits host s2 (execution_levels host message runnable ls outcomes)
      (fun r ms s' => ms = [] /\ Forall outcome_ok (fst r) /\
         (run_aborted host s' = false -> snd r = false -> forall i, i ∈ level -> i ∈ map fst (fst r)))).
  { intros ls s2 Hls. eapply commits_conseq; [by apply execution_levels_answers|].
    intros r ms s' (-> & Hr' & Hcov). split_and!; [done..|]. intros Hab Hst i Hi. apply Hcov; [done..|].
    destruct (Hall eq_refl i (or_introl Hi)) as [?|Hin]; [by left|right]. by apply levels_cover. }
  destruct (_ =? _)%nat eqn:Hlen.
  - eapply commits_bind; [apply schedule_answers|]. intros [ls|] ms s2 [-> Hls] _.
    + apply Hexec. apply Nat.eqb_eq in Hlen. by rewrite <- Hlen.
    + apply commits_ret. split_and!; [done..|]. by rewrite Hls.
  - apply Hexec. by rewrite concat_singles.
Qed.

(** The table of outcomes: what is there belongs to its call. *)
Definition slots_ok (slots : list (option FinalizedToolCallOutcome)) : Prop :=
  Forall2 (fun c slot => forall f, slot = Some f -> finalized_for c f) calls slots.

Definition filled (slots : list (option FinalizedToolCallOutcome)) (i : nat) : Prop :=
  exists f, slots !! i = Some (Some f).

Lemma fill_slots (os : list (nat * FinalizedToolCallOutcome)) (slots : list (option FinalizedToolCallOutcome)) :
  Forall outcome_ok os -> slots_ok slots ->
  let slots' := foldl (fun slots o => <[fst o := Some (snd o)]> slots) slots os in
  slots_ok slots' /\ forall i, filled slots i \/ i ∈ map fst os -> filled slots' i.
Proof.
  revert slots; induction os as [|[i f] os IH]; intros slots Ho Hs; simpl.
  { split; [done|]. intros i [?|Hi]; [done|by apply elem_of_nil in Hi]. }
  apply Forall_cons in Ho as [(c & Hc & Hf) Ho]. simpl in Hc, Hf.
  assert (Hi : i < length slots).
  { rewrite <- (Forall2_length _ _ _ Hs). by eapply lookup_lt_Some. }
  destruct (IH (<[i := Some f]> slots) Ho) as [Hok Hfill].
  { unfold slots_ok in *. apply Forall2_same_length_lookup. rewrite length_insert.
    split; [by eapply Forall2_length|]. intros j c' slot Hc' Hslot f' ->.
    apply list_lookup_insert_Some in Hslot as [(<- & Heq & _)|[_ Hslot]].
    - by simplify_eq.
    - by eapply (Forall2_lookup_lr _ _ _ _ _ _ Hs Hc' Hslot). }
  split; [done|]. intros j Hj. apply Hfill. rewrite elem_of_cons in Hj.
  destruct (decide (j = i)) as [->|Hne].
  - left. exists f. by apply list_lookup_insert_eq.
  - destruct Hj as [[f' Hf']|[?|?]]; [left|done|by right].
    exists f'. by rewrite list_lookup_insert_ne.
Qed.

Lemma levels_loop_answers (plans : list (ImmediateToolCallOutcome + PlannedToolCall))
    (policies : gmap string ToolParallelPolicy) (ls : list (list nat))
    (slots : list (option FinalizedToolCallOutcome)) (s : RunState W) :
  Forall2 plan_for calls plans -> slots_ok slots ->
  commits host s (levels_loop host config message calls plans policies ls slots)
    (fun r ms s' => ms = [] /\
       let '(slots', skippedReason, _) := r in
       slots_ok slots' /\
       (run_aborted host s' = false -> skippedReason = None ->
        forall i, filled slots i \/ i ∈ concat ls -> filled slots' i)).
Proof.
  intros Hplans. revert slots s; induction ls as [|level ls IH]; intros slots s Hs; simpl.
  { apply commits_ret. split_and!; [done..|]. intros _ _ i [?|Hi]; [done|by apply elem_of_nil in Hi]. }
  apply commits_aborted. destruct (run_aborted host s) eqn:Hab.
  { apply commits_ret. split_and!; [done..|]. by rewrite Hab. }
  eapply commits_bind; [by apply runDagLevel_answers|]. intros [os stopped] ms s1 (-> & Ho & Hcov) _.
  destruct (fill_slots os slots Ho Hs) as [Hs' Hfill]. simpl in *.
  apply commits_aborted. destruct (run_aborted host s1) eqn:Hab1.
  { apply commits_ret. split_and!; [done..|]. by rewrite Hab1. }
  destruct stopped; [by apply commits_ret|]. destruct (shouldTerminateToolBatch _); [by apply commits_ret|].
  eapply commits_conseq; [by apply IH|].
  intros [[slots' reason] stopped] ms s' (-> & Hok & Hfill'). split_and!; [done..|].
  intros Ha Hreason i Hi. apply Hfill'; [done..|]. destruct Hi as [Hi|Hi].
  - left. apply Hfill. by left.
  - apply elem_of_app in Hi as [Hi|Hi]; [left|by right]. apply Hfill. right. by apply Hcov.
Qed.
End Levels.

(** ** The whole batch *)

Lemma synthetic_result (id name reason : string) (ts : Q) (d : ToolCallDisposition) :
  d = aborted \/ d = skipped ->
  exists m, createSyntheticToolResult id name reason ts d = Ok m /\ toolCallId m = id.
Proof. by intros [-> | ->]; eexists. Qed.

Section Whole.
Context {W : Type} (host : Host W) (config : AgentLoopConfig) (message : AssistantMessage).
Context (laws : signal_laws host).

Lemma commits_synthetic {A} (s : RunState W) (c : AgentToolCall) (reason : string) (d : ToolCallDisposition)
    (k : ToolResultMessage -> prog (RunState W) A) Q :
  d = aborted \/ d = skipped ->
  (forall m s1, toolCallId m = atc_id c -> (run_aborted host s = true -> run_aborted host s1 = true) ->
     commits host s1 (k m) Q) ->
  commits host s (now <-! Date_now host ;;
                  m <-! pure_result (createSyntheticToolResult (atc_id c) (atc_name c) reason now d) ;;
                  k m) Q.
Proof.
  intros Hd Hk. eapply commits_keeps; [by apply keeps_date|apply returns_any|]. intros now s1 _ Hab.
  destruct (synthetic_result (atc_id c) (atc_name c) reason now d Hd) as (m & Hm & Hid).
  eapply (commits_keeps _ _ _ _ (fun m' => m' = m)); [apply keeps_pure|apply returns_pure; congruence|].
  intros ? s2 -> Hab'. apply Hk; auto.
Qed.

Lemma message_for_answers (reason : option string) (c : AgentToolCall) (slot : option FinalizedToolCallOutcome)
    (s : RunState W) :
  (forall f, slot = Some f -> finalized_for c f) ->
  (slot = None -> reason = None -> run_aborted host s = true) ->
  commits host s (message_for host reason c slot)
    (fun r ms _ => ms = [] /\ exists m, r = Some m /\ toolCallId m = atc_id c).
Proof.
  intros Hslot Hnone. destruct slot as [f|]; simpl.
  { eapply commits_keeps; [by apply keeps_createToolResultMessage|by apply message_returns, Hslot|].
    intros m s1 Hm _. apply commits_ret. eauto. }
  apply commits_aborted. destruct (run_aborted host s) eqn:Hab.
  { apply commits_synthetic; [by left|]. intros m s1 Hm _. apply commits_ret. eauto. }
  destruct reason as [reason|]; [|by specialize (Hnone eq_refl eq_refl)].
  apply commits_synthetic; [by right|]. intros m s1 Hm _. apply commits_ret. eauto.
Qed.

Lemma messages_for_answers (reason : option string) (calls : list AgentToolCall)
    (slots : list (option FinalizedToolCallOutcome)) (s : RunState W) :
  slots_ok calls slots ->
  (reason = None -> run_aborted host s = false -> Forall is_Some slots) ->
  commits host s (map_prog (fun cs => message_for host reason (fst cs) (snd cs)) (zip calls slots))
    (fun rs ms _ => ms = [] /\ map toolCallId (omap id rs) = map atc_id calls).
Proof.
  intros Hs. revert s; induction Hs as [|c slot calls slots Hslot Hs IH]; intros s Hall; simpl.
  { by apply commits_ret. }
  eapply commits_bind.
  { apply message_for_answers; [done|]. intros -> Hr. destruct (run_aborted host s) eqn:Hab; [done|].
    specialize (Hall Hr eq_refl). inversion_clear Hall as [|? ? [? Hn] ?]. done. }
  intros r ms s1 (-> & m & -> & Hm) Hab. eapply commits_bind.
  { apply IH. intros Hr Ha. destruct (run_aborted host s) eqn:Hab0; [by rewrite Hab in Ha|].
    specialize (Hall Hr eq_refl). by inversion_clear Hall. }
  intros rs ms s2 [-> Hrs] _. apply commits_ret. split; [done|]. simpl. rewrite Hm.
  f_equal. exact Hrs.
Qed.

Lemma for_each_commits (ms0 : list ToolResultMessage) (s : RunState W) :
  commits host s (for_each (commit_message host) ms0) (fun _ ms _ => ms = ms0).
Proof.
  revert s; induction ms0 as [|m ms0 IH]; intros s; simpl; [by apply commits_ret|].
  eapply commits_bind; [by apply commits_commit_message|]. intros ? ms s1 -> _.
  eapply commits_conseq; [apply IH|]. by intros ? ms s' ->.
Qed.

Lemma dag_answers (calls : list AgentToolCall) (s : RunState W) :
  commits host s (executeToolCallsDagLevels host config message calls)
    (fun b ms s' => batch_messages b = ms /\ answers host calls ms s').
Proof.
  unfold executeToolCallsDagLevels. apply commits_get.
  eapply commits_keeps; [apply keeps_map_prog; intros; apply keeps_pure| |].
  { apply (map_prog_returns _ plan_for). intros c _. apply returns_pure. intros plan Hp.
    destruct (planToolCall_ok (run_context s) c) as (plan' & Hp' & Hok). assert (plan = plan') as -> by congruence.
    destruct plan' as [o|p]; [done|]. apply (pf_call _ _ _ Hok). }
  intros plans s1 Hplans _. cbv zeta. set (policies := foldl _ _ _).
  eapply (commits_bind _ _ _ _ (fun ls ms s' => ms = [] /\
    (run_aborted host s' = false -> concat ls ≡ₚ seq 0 (length calls)))).
  { destruct (_ =? _)%nat eqn:Hlen.
    - eapply commits_bind; [by apply schedule_answers|]. intros [ls|] ms s2 [-> Hls] _; apply commits_ret; simpl.
      + split; [done|]. intros _. apply Nat.eqb_eq in Hlen. by rewrite <- Hlen.
      + split; [done|]. by rewrite Hls.
    - apply commits_ret. split; [done|]. intros _. by rewrite concat_singles. }
  intros ls ms s2 [-> Hls] Hab2.
  eapply commits_bind.
  { apply (levels_loop_answers host config message laws calls plans policies ls
             (replicate (length calls) None)); [done|].
    clear. induction calls as [|c calls IH]; simpl; constructor; done. }
  intros [[slots reason] stopped] ms s3 (-> & Hslots & Hfill) Hab3.
  eapply commits_bind.
  { apply (messages_for_answers reason calls slots); [done|]. intros -> Ha.
    assert (Ha2 : run_aborted host s2 = false) by (destruct (run_aborted host s2); [by rewrite Hab3 in Ha|done]).
    apply Forall_lookup. intros i slot Hi.
    destruct (Hfill Ha eq_refl i) as [f Hf]; [|rewrite Hf in Hi; by simplify_eq].
    right. rewrite (Hls Ha2), elem_of_seq. apply lookup_lt_Some in Hi.
    rewrite <- (Forall2_length _ _ _ Hslots) in Hi. lia. }
  intros rs ms s4 [-> Hrs] _. eapply commits_bind; [apply for_each_commits|]. intros ? ms s5 -> _.
  apply commits_ret. simpl. rewrite app_nil_r. split; [done|]. split; [by rewrite Hrs|done].
Qed.

(** Whatever path the batch takes, its calls are answered in their order: all
    of them, unless the run is aborted. *)
Lemma executeToolCalls_answers (s : RunState W) :
  commits host s (executeToolCalls host config message)
    (fun b ms s' => batch_messages b = ms /\ answers host (toolCalls_of message) ms s').
Proof.
  unfold executeToolCalls. destruct (match toolScheduler config with Some dag_v2 => _ | _ => false end).
  { apply dag_answers. }
  apply commits_get. destruct (_ || _ || _)%bool; [by apply sequential_batch|].
  destruct (_ =? 1)%nat; [by apply parallel_answers|].
  unfold executeToolCallsInWaves. eapply commits_bind.
  { apply (waves_answers host config message laws (toolCalls_of message) _ [] [] 0); [|lia].
    destruct (partition_inv (process_cwd config) (HOME config) (waves_options config (run_context s))
      (map (fun tc => {| name := atc_name tc; arguments := atc_arguments tc |}) (toolCalls_of message)))
      as [Hinv Hw].
    apply inv_order in Hinv. rewrite Hw, app_nil_r, length_map in Hinv. by rewrite Nat.sub_0_r. }
  intros r ms s' [Hr Ha] _. apply commits_ret. simpl in *. by rewrite app_nil_r.
Qed.

Lemma close_loop_answers (calls : list AgentToolCall) (resolved : list string) (ms0 : list ToolResultMessage)
    (s : RunState W) :
  NoDup (map atc_id calls) ->
  commits host s (close_loop host calls resolved ms0)
    (fun r ms _ => r = ms0 ++ ms /\
       map toolCallId ms
       = List.filter (fun i => negb (existsb (String.eqb i) resolved)) (map atc_id calls)).
Proof.
  revert resolved ms0 s; induction calls as [|c calls IH]; intros resolved ms0 s Hnd; simpl.
  { apply commits_ret. by rewrite app_nil_r. }
  simpl in Hnd. apply NoDup_cons in Hnd as [Hc Hnd]. destruct (existsb _ resolved) eqn:Hin; simpl.
  { by apply IH. }
  apply commits_synthetic; [by left|]. intros m s1 Hm _.
  eapply commits_bind; [by apply commits_commit_message|]. intros ? ms s2 -> _.
  eapply commits_conseq; [by apply IH|]. intros r ms s' [-> Hms]. rewrite <- app_assoc. split; [done|].
  simpl. rewrite Hm, Hms. f_equal. clear -Hc. revert Hc. generalize (map atc_id calls) as l.
  induction l as [|i l IH]; intros Hc; simpl; [done|]. apply not_elem_of_cons in Hc as [Hne Hc].
  rewrite existsb_app. simpl. assert (String.eqb i (atc_id c) = false) as -> by (by apply String.eqb_neq).
  rewrite !orb_false_r. destruct (existsb _ resolved); simpl; [|f_equal]; by apply IH.
Qed.

(** The results and the closure together answer every call. *)
Lemma closeAborted_answers (calls : list AgentToolCall) (existing : list ToolResultMessage) (s : RunState W) :
  NoDup (map atc_id calls) -> sublist (map toolCallId existing) (map atc_id calls) ->
  commits host s (closeAbortedToolBatch host calls existing)
    (fun r ms _ => r = ms /\ map toolCallId (existing ++ ms) ≡ₚ map atc_id calls).
Proof.
  intros Hnd Hsub. eapply commits_conseq; [by apply close_loop_answers|].
  intros r ms s' [-> Hms]. split; [done|]. rewrite map_app, Hms. symmetry.
  assert (Hnde : NoDup (map toolCallId existing)) by (by eapply sublist_NoDup).
  apply NoDup_Permutation; [done| |].
  - apply NoDup_app. split; [done|]. split; [|by apply NoDup_filter_list].
    intros i Hi [_ Hn]%elem_of_filter_list. apply negb_true_iff, not_true_iff_false in Hn.
    by apply Hn, existsb_eqb_elem.
  - intros i. rewrite elem_of_app, elem_of_filter_list, negb_true_iff. split.
    + intros Hi. destruct (existsb (String.eqb i) (map toolCallId existing)) eqn:E; [left|by right].
      by apply existsb_eqb_elem.
    + intros [Hi|[? _]]; [|done]. apply (elem_of_submseteq _ _ _ Hi). by apply sublist_submseteq.
Qed.
End Whole.

(** ** Properties *)

(** The results of a batch are committed in the order of its calls, one
    per call, unless the run is aborted - whichever scheduler is chosen, however
    the concurrent calls interleave, and whatever they answer; an abort only
    leaves calls out. Nothing else is appended to the context, and each result
    is announced once. *)
Theorem batch_is_answered_in_order {W} (host : Host W) (config : AgentLoopConfig) (message : AssistantMessage)
    (s : RunState W) :
  signal_laws host ->
  match executeToolCalls host config message s with
  | (Ok batch, s') =>
      let ms := batch_messages batch in
      let calls := toolCalls_of message in
      sublist (map toolCallId ms) (map atc_id calls) /\
      (run_aborted host s' = false -> map toolCallId ms = map atc_id calls) /\
      messages (run_context s') = messages (run_context s) ++ map Result ms /\
      committed (published s') = committed (published s) ++ map Result ms
  | (Err _, s') => requested s' = requested s
  end.
Proof.
  intros laws. pose proof (executeToolCalls_answers host config message laws s) as H. unfold commits in H.
  destruct (executeToolCalls host config message s) as [[b|e] s']; [|by destruct H].
  destruct H as (ms & [Hc _ He _ _ _] & -> & Hs & Ha). split_and!; [done|done|by rewrite Hc|done].
Qed.

Definition sample_batch_config (scheduler : ToolSchedulerKind) : AgentLoopConfig :=
  {| model := JObject []; reasoning := None; apiKey := None; toolExecution := None;
     AgentTypes.toolTimeoutMs := None; toolTimeouts := None; toolScheduler := Some scheduler;
     maxToolConcurrency := None; cfg_strictExtensionClaims := false; cfg_cwd := None;
     cfg_resourceKeyResolver := None; process_cwd := "/work"; HOME := None |}.

Definition sample_read (callId path : string) : LoopBlock :=
  CallBlock {| atc_id := callId; atc_name := "read"; atc_arguments := JObject [("path", JString path)] |}.

Definition sample_start : RunState bool :=
  {| world := false; run_context := {| systemPrompt := ""; messages := []; tools := [sample_tool "read"] |};
     newMessages := []; published := []; requested := [] |}.

Definition answered_ids (r : result string ExecutedToolCallBatch * RunState bool) : option (list string) :=
  match fst r with
  | Ok b => Some (map toolCallId (batch_messages b))
  | Err _ => None
  end.

(** Concurrent reads that end out of order, on both schedulers; a read that
    aborts the run. *)
Example both_schedulers :
  map (fun k => answered_ids (executeToolCalls sample_host (sample_batch_config k)
         (sample_message [sample_read "r1" "a"; sample_read "slow" "b"; sample_read "bad" "c"]) sample_start))
      [waves_v1; dag_v2]
  = [Some ["r1"; "slow"; "bad"]; Some ["r1"; "slow"; "bad"]].
Proof. by vm_compute. Qed.

Example abort_leaves_out :
  answered_ids (executeToolCalls sample_host (sample_batch_config waves_v1)
    (sample_message [sample_read "stop" "a"; sample_read "r2" "a"]) sample_start) = Some ["stop"].
Proof. by vm_compute. Qed.

Lemma batch_is_answered_in_order_witness :
  signal_laws sample_host /\
  match executeToolCalls sample_host (sample_batch_config dag_v2)
          (sample_message [sample_read "r1" "a"; sample_read "slow" "b"]) sample_start with
  | (Ok batch, s') => messages (run_context s') = map Result (batch_messages batch)
  | (Err _, _) => True
  end.
Proof.
  split; [apply sample_laws|].
  pose proof (batch_is_answered_in_order sample_host (sample_batch_config dag_v2)
    (sample_message [sample_read "r1" "a"; sample_read "slow" "b"]) sample_start sample_laws) as H.
  destruct (executeToolCalls _ _ _ _) as [[b|e] s']; [apply H|exact I].
Defined.
