(* ===== verification/AgentLoop.v ===== *)
(** * The agent loop (packages/agent/src/agent-loop.ts)

    Turns of a provider request, the tool calls of its answer and the queues of
    the host; the stream of events; and how a run that failed is ended. The
    loop has no bound of its own: [runLoop] takes fuel, one unit per turn or
    check of the follow-up queue, and answers [None] without. *)

From Stdlib Require Import String ZArith QArith Lia.
From stdpp Require Import base list option strings sets.
From S2P Require Import Prelude JsString JsValue PlainData Program ToolBatchWaves ResourceClaims.
From S2P Require Import TranscriptIntegrity AgentTypes AgentEffects ToolExecution ToolBatch.

Open Scope nat_scope.
Open Scope string_scope.
Open Scope list_scope.
Open Scope prog_scope.

Definition inspect_messages (ms : list LoopMessage) : TranscriptIntegrityReport :=
  inspectTranscriptIntegrity (map view ms).

Definition issue_summary (found : list TranscriptIntegrityIssue) : string :=
  join ", " (map (fun i => issue_kind_str (issue_kind i) ++ ":" ++ issue_id i)%string found).

(** ** The failure of a run *)

Record FailureTerminationPlan : Type := {
  plan_messages : list LoopMessage;
  plan_failureMessage : option LoopMessage;
  plan_closureResults : list ToolResultMessage;
}.

Definition EMPTY_USAGE : jsval :=
  let zero := JNumber (NumFin 0) in
  JObject [("input", zero); ("output", zero); ("cacheRead", zero); ("cacheWrite", zero);
           ("totalTokens", zero);
           ("cost", JObject [("input", zero); ("output", zero); ("cacheRead", zero); ("cacheWrite", zero);
                             ("total", zero)])].

Definition failure_message (model : jsval) (error : string) (aborted : bool) (now : Q) : LoopMessage :=
  Assistant
    {| am_content := [PlainBlock (JObject [("type", JString "text"); ("text", JString "")])];
       am_stopReason := if aborted then "aborted" else "error";
       am_rest := JObject [("api", get_prop "api" model); ("provider", get_prop "provider" model);
                           ("model", get_prop "id" model); ("usage", EMPTY_USAGE);
                           ("errorMessage", JString error); ("timestamp", JNumber (NumFin now))] |}.

(** The tool results among what the repair appended. *)
Definition appended_results (n : nat) (repaired : list AgentMessage) : list ToolResultMessage :=
  omap (fun m => match m with
                 | ToolResultMsg r => Some r
                 | _ => None
                 end) (drop n repaired).

(** The [try] block: the results that were pushed, and whether it was left by
    an exception. *)
Fixpoint closure_loop (results : list ToolResultMessage) : list ToolResultMessage * bool :=
  match results with
  | [] => ([], false)
  | r :: rest =>
      match snapshot_message r with
      | Ok r => let (pushed, thrown) := closure_loop rest in (r :: pushed, thrown)
      | Err _ => ([], true)
      end
  end.

Definition closure_of (now : nat -> Q) (completedMessages : list LoopMessage)
    : list ToolResultMessage * bool :=
  if ok (inspect_messages completedMessages) then ([], false)
  else match repairTranscriptIntegrity now (map view completedMessages)
               (Some "Tool result missing; run terminated by error") with
       | Ok repaired => closure_loop (appended_results (length completedMessages) repaired)
       | Err _ => ([], true)
       end.

Definition planFailureTermination (now : nat -> Q) (completedMessages : list LoopMessage) (model : jsval)
    (error : string) (aborted : bool) : result string FailureTerminationPlan :=
  let (closure, thrown) := closure_of now completedMessages in
  let messages := completedMessages ++ map Result closure in
  if thrown then
    Ok {| plan_messages := messages; plan_failureMessage := None; plan_closureResults := [] |}
  else
    let failure := failure_message model error aborted (now (length closure)) in
    _ <-? check_all (assertPlainData false) (message_values failure) ;;
    Ok {| plan_messages := messages ++ [failure]; plan_failureMessage := Some failure;
          plan_closureResults := closure |}.

(** ** The event stream (packages/ai/src/utils/event-stream.ts)

    What consumers are delivered, and the result, which is settled once. *)

Record EventStream (T R : Type) : Type := {
  delivered : list T;
  stream_done : bool;
  finalResult : option R;
}.
Arguments delivered {T R} e.
Arguments stream_done {T R} e.
Arguments finalResult {T R} e.

Section Stream.
Context {T R : Type} (isComplete : T -> bool) (extractResult : T -> R).

Definition new_stream : EventStream T R := {| delivered := []; stream_done := false; finalResult := None |}.

Definition resolveFinalResult (r : R) (s : option R) : option R :=
  match s with
  | Some r' => Some r'
  | None => Some r
  end.

Definition stream_push (s : EventStream T R) (event : T) : EventStream T R :=
  if stream_done s then s
  else {| delivered := delivered s ++ [event]; stream_done := isComplete event;
          finalResult := if isComplete event then resolveFinalResult (extractResult event) (finalResult s)
                         else finalResult s |}.

Definition stream_end (s : EventStream T R) (r : R) : EventStream T R :=
  {| delivered := delivered s; stream_done := true; finalResult := resolveFinalResult r (finalResult s) |}.
End Stream.

Definition agent_end_messages (e : AgentEvent) : list LoopMessage :=
  match e with
  | agent_end ms => ms
  | _ => []
  end.

(** [createAgentStream()] *)
Abbreviation AgentStream := (EventStream AgentEvent (list LoopMessage)).

Definition agent_push : AgentStream -> AgentEvent -> AgentStream := stream_push is_agent_end agent_end_messages.

Definition closure_events (r : ToolResultMessage) : list AgentEvent :=
  [message_start (Result r); message_end (Result r)].

Definition failure_events (plan : FailureTerminationPlan) : list AgentEvent :=
  concat (map closure_events (plan_closureResults plan))
  ++ match plan_failureMessage plan with
     | Some m => [message_start m; message_end m; turn_end m []]
     | None => []
     end
  ++ [agent_end (plan_messages plan)].

Definition endStreamWithFailure (now : nat -> Q) (stream : AgentStream) (model : jsval)
    (completedMessages : list LoopMessage) (error : string) (aborted : bool) : result string AgentStream :=
  plan <-? planFailureTermination now completedMessages model error aborted ;;
  Ok (stream_end (foldl agent_push stream (failure_events plan)) (plan_messages plan)).

Definition has_tool_call (m : LoopMessage) : bool :=
  match m with
  | Assistant m => negb (length (toolCalls_of m) =? 0)%nat
  | _ => false
  end.

Definition assertContinuableTranscript (messages : list LoopMessage) : result string unit :=
  let report := inspect_messages messages in
  if ok report then Ok tt
  else if match last messages with
          | Some m => has_tool_call m
          | None => false
          end
  then Err ("Cannot continue: the last assistant message has pending tool calls without matching results. "
            ++ "Add tool results or a new user message before continuing.")%string
  else Err ("Cannot continue: invalid tool transcript (" ++ issue_summary (issues report) ++ "). "
            ++ "Append terminal tool results or repair the transcript before continuing.")%string.

(** ** The assistant's response *)

Section Loop.
Context {W : Type} (host : Host W).

Abbreviation run := (prog (RunState W)).

(** [context.messages[context.messages.length - 1] = m] *)
Definition replace_context (m : LoopMessage) : run unit := modify (fun st =>
  set_context (with_messages (run_context st) (removelast (messages (run_context st)) ++ [m])) st).

Definition finish_response (addedPartial : bool) (final : W -> result string AssistantMessage * W)
    : run AssistantMessage :=
  finalMessage <-! lift final ;;
  do! (if addedPartial then replace_context (Assistant finalMessage)
       else do! push_context (Assistant finalMessage) ;;
            publish host (message_start (Assistant finalMessage))) ;;
  do! publish host (message_end (Assistant finalMessage)) ;;
  ret finalMessage.

Fixpoint stream_loop (pulls : list (W -> result string AssistantMessageEvent * W))
    (final : W -> result string AssistantMessage * W) (addedPartial : bool) : run AssistantMessage :=
  match pulls with
  | [] => finish_response addedPartial final
  | pull :: rest =>
      event <-! lift pull ;;
      match event with
      | ev_start partial =>
          do! push_context (Assistant partial) ;;
          do! publish host (message_start (Assistant partial)) ;;
          stream_loop rest final true
      | ev_update payload partial =>
          if addedPartial then
            do! replace_context (Assistant partial) ;;
            do! publish host (message_update (Assistant partial) payload) ;;
            stream_loop rest final true
          else stream_loop rest final false
      | ev_done => finish_response addedPartial final
      | ev_other => stream_loop rest final addedPartial
      end
  end.

Definition transformed_messages (ms : list LoopMessage) : run (list LoopMessage) :=
  match transformContext host with
  | None => ret ms
  | Some transform =>
      ms <-! lift (transform ms) ;;
      let report := inspect_messages ms in
      if ok report then ret ms
      else throw ("Refusing provider request: transformed context has an invalid tool transcript ("
                  ++ issue_summary (issues report) ++ ").")%string
  end.

Definition resolvedApiKey (config : AgentLoopConfig) : run (option string) :=
  key <-! match getApiKey host with
          | None => ret None
          | Some get_key => lift (get_key (get_prop "provider" (model config)))
          end ;;
  ret match key with
      | Some k => if is_empty k then apiKey config else Some k
      | None => apiKey config
      end.

Definition streamAssistantResponse (config : AgentLoopConfig) : run AssistantMessage :=
  st <-! get ;;
  let context := run_context st in
  let integrityReport := inspect_messages (messages context) in
  if negb (ok integrityReport) then
    throw ("Refusing provider request: invalid tool transcript (" ++ issue_summary (issues integrityReport)
           ++ "). Append terminal tool results or repair the transcript before retrying.")%string
  else
    ms <-! transformed_messages (messages context) ;;
    llmMessages <-! lift (convertToLlm host ms) ;;
    key <-! resolvedApiKey config ;;
    do! modify (add_request ms) ;;
    response <-! lift (streamFunction host
      {| rq_systemPrompt := systemPrompt context; rq_messages := llmMessages; rq_tools := tools context;
         rq_model := model config; rq_reasoning := reasoning config; rq_apiKey := key |}) ;;
    stream_loop (stream_events response) (stream_result response) false.

(** ** A turn *)

(** Injection of the pending messages. *)
Definition inject (m : LoopMessage) : run unit :=
  do! publish host (message_start m) ;;
  do! publish host (message_end m) ;;
  do! push_context m ;;
  push_new m.

(** The provider's answer, refused when it makes the transcript ambiguous. *)
Definition assistant_phase (config : AgentLoopConfig) : run AssistantMessage :=
  message <-! streamAssistantResponse config ;;
  do! push_new (Assistant message) ;;
  st <-! get ;;
  let emittedAmbiguities := List.filter not_missing (issues (inspect_messages (messages (run_context st)))) in
  if negb (length emittedAmbiguities =? 0)%nat then
    throw ("Refusing tool execution: invalid emitted tool transcript (" ++ issue_summary emittedAmbiguities
           ++ ").")%string
  else ret message.

Inductive ToolPhase : Type :=
| Terminated (toolResults : list ToolResultMessage)
| Aborted (toolResults : list ToolResultMessage)
| Executed (toolResults : list ToolResultMessage) (hasMoreToolCalls stopAfterToolBatch : bool).

Definition phase_results (p : ToolPhase) : list ToolResultMessage :=
  match p with
  | Terminated rs | Aborted rs => rs
  | Executed rs _ _ => rs
  end.

(** The calls of an answer the provider ended with an error or an abort. *)
Fixpoint terminate_loop (reason : string) (d : ToolCallDisposition) (toolCalls : list AgentToolCall)
    (toolResults : list ToolResultMessage) : run (list ToolResultMessage) :=
  match toolCalls with
  | [] => ret toolResults
  | c :: rest =>
      now <-! Date_now host ;;
      r <-! pure_result (createSyntheticToolResult (atc_id c) (atc_name c) reason now d) ;;
      do! push_context (Result r) ;;
      do! push_new (Result r) ;;
      do! emitToolResultMessage host r ;;
      terminate_loop reason d rest (toolResults ++ [r])
  end.

(** What is done about the calls of the answer, up to [turn_end]. *)
Definition tool_phase (config : AgentLoopConfig) (message : AssistantMessage) : run ToolPhase :=
  let toolCalls := toolCalls_of message in
  let was_aborted := String.eqb (am_stopReason message) "aborted" in
  if String.eqb (am_stopReason message) "error" || was_aborted then
    toolResults <-! terminate_loop
      (if was_aborted then "Operation aborted" else "Skipped because the provider terminated before tool execution")
      (if was_aborted then aborted else skipped) toolCalls [] ;;
    ret (Terminated toolResults)
  else if (length toolCalls =? 0)%nat then ret (Executed [] false false)
  else
    batch <-! executeToolCalls host config message ;;
    stop <-! is_aborted host ;;
    if stop then
      synthesized <-! closeAbortedToolBatch host toolCalls (batch_messages batch) ;;
      let toolResults := batch_messages batch ++ synthesized in
      do! for_each (fun r => push_new (Result r)) toolResults ;;
      ret (Aborted toolResults)
    else
      do! for_each (fun r => push_new (Result r)) (batch_messages batch) ;;
      ret (Executed (batch_messages batch) (negb (batch_terminate batch)) (batch_stopRun batch)).

Definition end_run : run unit :=
  st <-! get ;;
  publish host (agent_end (newMessages st)).

Definition callback_list (c : option (W -> result string (list LoopMessage) * W)) : run (list LoopMessage) :=
  match c with
  | None => ret []
  | Some c => lift c
  end.

Definition turn_context (message : AssistantMessage) (toolResults : list ToolResultMessage) : run TurnContext :=
  st <-! get ;;
  ret {| tc_message := message; tc_toolResults := toolResults; tc_context := run_context st;
         tc_newMessages := newMessages st |}.

Definition updated_config (config : AgentLoopConfig) (u : AgentLoopTurnUpdate) : AgentLoopConfig :=
  {| model := default (model config) (tu_model u);
     reasoning := match tu_thinkingLevel u with
                  | None => reasoning config
                  | Some level => if String.eqb level "off" then None else Some level
                  end;
     apiKey := apiKey config; toolExecution := toolExecution config;
     AgentTypes.toolTimeoutMs := AgentTypes.toolTimeoutMs config; toolTimeouts := toolTimeouts config;
     toolScheduler := toolScheduler config; maxToolConcurrency := maxToolConcurrency config;
     cfg_strictExtensionClaims := cfg_strictExtensionClaims config; cfg_cwd := cfg_cwd config;
     cfg_resourceKeyResolver := cfg_resourceKeyResolver config; process_cwd := process_cwd config;
     HOME := HOME config |}.

(** [prepareNextTurn]: the host may replace the context, the model and the
    thinking level. *)
Definition next_turn (config : AgentLoopConfig) (message : AssistantMessage)
    (toolResults : list ToolResultMessage) : run AgentLoopConfig :=
  match prepareNextTurn host with
  | None => ret config
  | Some hook =>
      tc <-! turn_context message toolResults ;;
      snapshot <-! lift (hook tc) ;;
      match snapshot with
      | None => ret config
      | Some u =>
          do! match tu_context u with
              | Some context => modify (set_context context)
              | None => ret tt
              end ;;
          ret (updated_config config u)
      end
  end.

(** [None] when the run has ended. *)
Record NextTurn : Type := {
  nt_config : AgentLoopConfig;
  nt_hasMoreToolCalls : bool;
  nt_pendingMessages : list LoopMessage;
}.

Definition after_turn (config : AgentLoopConfig) (message : AssistantMessage)
    (toolResults : list ToolResultMessage) (hasMoreToolCalls : bool) : run (option NextTurn) :=
  config <-! next_turn config message toolResults ;;
  stop <-! match shouldStopAfterTurn host with
           | None => ret false
           | Some hook => tc <-! turn_context message toolResults ;; lift (hook tc)
           end ;;
  if stop : bool then do! end_run ;; ret None
  else
    pendingMessages <-! callback_list (getSteeringMessages host) ;;
    ret (Some {| nt_config := config; nt_hasMoreToolCalls := hasMoreToolCalls;
                 nt_pendingMessages := pendingMessages |}).

(** The body of the inner loop. *)
Definition run_turn (config : AgentLoopConfig) (firstTurn : bool) (pendingMessages : list LoopMessage)
    : run (option NextTurn) :=
  do! (if firstTurn then ret tt else publish host turn_start) ;;
  do! for_each inject pendingMessages ;;
  message <-! assistant_phase config ;;
  phase <-! tool_phase config message ;;
  do! publish host (turn_end (Assistant message) (phase_results phase)) ;;
  match phase with
  | Terminated _ | Aborted _ => do! end_run ;; ret None
  | Executed toolResults hasMoreToolCalls stopAfterToolBatch =>
      if stopAfterToolBatch then do! end_run ;; ret None
      else after_turn config message toolResults hasMoreToolCalls
  end.

(** Both loops: the inner one while there are tool calls or pending messages,
    the outer one while there are follow-up messages. [None] without fuel. *)
Fixpoint loop_from (fuel : nat) (config : AgentLoopConfig) (firstTurn hasMoreToolCalls : bool)
    (pendingMessages : list LoopMessage) : run (option unit) :=
  match fuel with
  | O => ret None
  | S fuel =>
      if hasMoreToolCalls || negb (length pendingMessages =? 0)%nat then
        next <-! run_turn config firstTurn pendingMessages ;;
        match next with
        | None => ret (Some tt)
        | Some n => loop_from fuel (nt_config n) false (nt_hasMoreToolCalls n) (nt_pendingMessages n)
        end
      else
        followUpMessages <-! callback_list (getFollowUpMessages host) ;;
        if (length followUpMessages =? 0)%nat then do! end_run ;; ret (Some tt)
        else loop_from fuel config firstTurn true followUpMessages
  end.

Definition runLoop (fuel : nat) (config : AgentLoopConfig) : run (option unit) :=
  pendingMessages <-! callback_list (getSteeringMessages host) ;;
  loop_from fuel config true true pendingMessages.

(** ** Entry points *)

Definition emit_prompt (m : LoopMessage) : run unit :=
  do! publish host (message_start m) ;;
  publish host (message_end m).

Definition returned (o : option unit) : run (option (list LoopMessage)) :=
  st <-! get ;;
  ret match o with
      | Some _ => Some (newMessages st)
      | None => None
      end.

Definition runAgentLoop (fuel : nat) (prompts : list LoopMessage) (context : AgentContext)
    (config : AgentLoopConfig) : run (option (list LoopMessage)) :=
  do! modify (set_new prompts) ;;
  do! modify (set_context (with_messages context (messages context ++ prompts))) ;;
  do! publish host agent_start ;;
  do! publish host turn_start ;;
  do! for_each emit_prompt prompts ;;
  o <-! runLoop fuel config ;;
  returned o.

Definition runAgentLoopContinue (fuel : nat) (context : AgentContext) (config : AgentLoopConfig)
    : run (option (list LoopMessage)) :=
  if (length (messages context) =? 0)%nat then throw "Cannot continue: no messages in context"
  else
    do! pure_result (assertContinuableTranscript (messages context)) ;;
    do! modify (set_new []) ;;
    do! modify (set_context context) ;;
    do! publish host agent_start ;;
    do! publish host turn_start ;;
    o <-! runLoop fuel config ;;
    returned o.
End Loop.

(** The stream an entry point returns: its sink pushes each event, and keeps
    the messages of the [message_end] events for [endStreamWithFailure]. *)
Definition settle_stream (now : nat -> Q) (config : AgentLoopConfig) {W} (host : Host W)
    (outcome : result string (option (list LoopMessage)) * RunState W) : result string (option AgentStream) :=
  let (r, st) := outcome in
  let stream := foldl agent_push new_stream (published st) in
  match r with
  | Ok (Some ms) => Ok (Some (stream_end stream ms))
  | Ok None => Ok None
  | Err e =>
      s <-? endStreamWithFailure now stream (model config) (committed (published st)) e
              (aborted_now host (world st)) ;;
      Ok (Some s)
  end.

Definition initial_run {W} (w : W) (context : AgentContext) : RunState W :=
  {| world := w; run_context := context; newMessages := []; published := []; requested := [] |}.

(** The host with that sink: time may pass, but it does not throw. *)
Definition streaming_host {W} (host : Host W) : Host W :=
  {| aborted_now := aborted_now host; abort_first := abort_first host; date_now := date_now host;
     num_str := num_str host; sink := fun e w => (Ok tt, snd (sink host e w));
     tool_start := tool_start host; tool_settle := tool_settle host; promise_settled := promise_settled host;
     validateToolArguments := validateToolArguments host; beforeToolCall := beforeToolCall host;
     afterToolCall := afterToolCall host; transformContext := transformContext host;
     convertToLlm := convertToLlm host; getApiKey := getApiKey host; streamFunction := streamFunction host;
     getSteeringMessages := getSteeringMessages host; getFollowUpMessages := getFollowUpMessages host;
     prepareNextTurn := prepareNextTurn host; shouldStopAfterTurn := shouldStopAfterTurn host;
     pick := pick host |}.

Definition agentLoop {W} (host : Host W) (now : nat -> Q) (fuel : nat) (prompts : list LoopMessage)
    (context : AgentContext) (config : AgentLoopConfig) (w : W) : result string (option AgentStream) :=
  settle_stream now config host
    (runAgentLoop (streaming_host host) fuel prompts context config (initial_run w context)).

Definition agentLoopContinue {W} (host : Host W) (now : nat -> Q) (fuel : nat) (context : AgentContext)
    (config : AgentLoopConfig) (w : W) : result string (option AgentStream) :=
  if (length (messages context) =? 0)%nat then Err "Cannot continue: no messages in context"
  else
    _ <-? assertContinuableTranscript (messages context) ;;
    settle_stream now config host
      (runAgentLoopContinue (streaming_host host) fuel context config (initial_run w context)).

(** ** What a part of a run records

    [logs s c Q]: from [s], [c] appends [ns] to the new messages and [es] to
    the committed ones, and [Q] holds of the value, both and the state; whether
    it returns or throws, it does not end the run, and each provider request it
    makes carries a well-formed transcript. *)

Definition sound_requests (ms : list (list LoopMessage)) : Prop :=
  Forall (fun m => ok (inspect_messages m) = true) ms.

Section Logs.
Context {W : Type} (host : Host W).

Abbreviation run := (prog (RunState W)).

Definition requests_from (s s' : RunState W) : Prop :=
  exists rq, requested s' = requested s ++ rq /\ sound_requests rq.

Definition logs {A} (s : RunState W) (c : run A)
    (Q : A -> list LoopMessage -> list LoopMessage -> RunState W -> Prop) : Prop :=
  match c s with
  | (Ok a, s') =>
      (requests_from s s' /\ open_events s s') /\
      exists ns es, newMessages s' = newMessages s ++ ns /\
        committed (published s') = committed (published s) ++ es /\ Q a ns es s'
  | (Err _, s') => requests_from s s' /\ open_events s s'
  end.

(** Appends nothing, and leaves the context as it is. *)
Definition silent {A} (s : RunState W) (Q : A -> Prop) : A -> list LoopMessage -> list LoopMessage -> RunState W -> Prop :=
  fun a ns es s' => ns = [] /\ es = [] /\ run_context s' = run_context s /\ Q a.

Lemma requests_refl (s s' : RunState W) : requested s' = requested s -> requests_from s s'.
Proof. intros H. exists []. rewrite app_nil_r. by repeat constructor. Qed.

Lemma requests_trans (s0 s1 s2 : RunState W) :
  requests_from s0 s1 -> requests_from s1 s2 -> requests_from s0 s2.
Proof.
  intros (r1 & H1 & S1) (r2 & H2 & S2). exists (r1 ++ r2). rewrite H2, H1, app_assoc.
  split; [done|]. by apply Forall_app.
Qed.

Lemma steady_refl (s s' : RunState W) :
  requested s' = requested s -> published s' = published s -> requests_from s s' /\ open_events s s'.
Proof. intros. split; [by apply requests_refl|by apply open_refl]. Qed.

Lemma steady_trans (s0 s1 s2 : RunState W) :
  requests_from s0 s1 /\ open_events s0 s1 -> requests_from s1 s2 /\ open_events s1 s2 ->
  requests_from s0 s2 /\ open_events s0 s2.
Proof. intros [] []. split; [by eapply requests_trans|by eapply open_trans]. Qed.

Lemma logs_ret {A} (s : RunState W) (a : A) Q : Q a [] [] s -> logs s (ret a) Q.
Proof. intros H. split; [by apply steady_refl|]. exists [], []. by rewrite !app_nil_r. Qed.

Lemma logs_throw {A} (s : RunState W) (e : string) Q : logs s (throw (A := A) e) Q.
Proof. by apply steady_refl. Qed.

Lemma logs_bind {A B} (s : RunState W) (c : run A) (k : A -> run B) R Q :
  logs s c R ->
  (forall a ns es s1, R a ns es s1 -> logs s1 (k a) (fun b ns' es' s' => Q b (ns ++ ns') (es ++ es') s')) ->
  logs s (bind c k) Q.
Proof.
  intros Hc Hk. unfold logs, bind in *. destruct (c s) as [[a|e] s1]; [|done].
  destruct Hc as (Hr & ns & es & Hn & He & HR). specialize (Hk a ns es s1 HR).
  destruct (k a s1) as [[b|e] s2]; [|by eapply steady_trans].
  destruct Hk as (Hr' & ns' & es' & Hn' & He' & HQ). split; [by eapply steady_trans|].
  exists (ns ++ ns'), (es ++ es'). by rewrite Hn', Hn, He', He, !app_assoc.
Qed.

Lemma logs_conseq {A} (s : RunState W) (c : run A) (Q Q' : A -> _ -> _ -> _ -> Prop) :
  logs s c Q' -> (forall a ns es s', Q' a ns es s' -> Q a ns es s') -> logs s c Q.
Proof.
  intros H HQ. unfold logs in *. destruct (c s) as [[a|e] s']; [|done].
  destruct H as (Hr & ns & es & ? & ? & ?). split; [done|]. exists ns, es. auto.
Qed.

Lemma logs_get {B} (s : RunState W) (k : RunState W -> run B) Q : logs s (k s) Q -> logs s (bind get k) Q.
Proof. done. Qed.

Lemma logs_pure {A} (s : RunState W) (r : result string A) : logs s (pure_result r) (silent s (fun _ => True)).
Proof.
  unfold logs, pure_result. destruct r; [|by apply steady_refl]. split; [by apply steady_refl|].
  exists [], []. by rewrite !app_nil_r.
Qed.

Lemma logs_lift {A} (s : RunState W) (c : W -> result string A * W) : logs s (lift c) (silent s (fun _ => True)).
Proof.
  unfold logs, lift. destruct (c (world s)) as [[a|e] w]; [|by apply steady_refl].
  split; [by apply steady_refl|]. exists [], []. by rewrite !app_nil_r.
Qed.

Lemma logs_publish (e : AgentEvent) (s : RunState W) :
  is_agent_end e = false ->
  logs s (publish host e)
    (fun _ ns es s' => ns = [] /\ es = option_list (ended e) /\ run_context s' = run_context s).
Proof.
  intros Hopen.
  assert (Hstep : forall w, requests_from s (set_world w (add_event e s)) /\ open_events s (set_world w (add_event e s))).
  { intros w. split; [by apply requests_refl|]. exists [e]. by repeat constructor. }
  unfold logs, publish, bind, pure_result, modify, lift. destruct (check_all _ _); [|by apply steady_refl].
  simpl. destruct (sink host e (world s)) as [[[]|err] w]; [|apply Hstep]. split; [apply Hstep|]. exists [], (option_list (ended e)). rewrite app_nil_r.
  split_and!; try done. simpl. unfold committed. rewrite omap_app. simpl. by destruct e.
Qed.

(** Nothing is published that would commit a message. *)
Lemma logs_publish_silent (e : AgentEvent) (s : RunState W) :
  quiet e = true -> logs s (publish host e) (silent s (fun _ => True)).
Proof.
  intros Hq. assert (ended e = None /\ is_agent_end e = false) as [He Ho] by (by destruct e).
  eapply logs_conseq; [by apply logs_publish|]. intros a ns es s' (-> & -> & Hc). by rewrite He.
Qed.

Lemma logs_push_new (m : LoopMessage) (s : RunState W) :
  logs s (push_new m) (fun _ ns es s' => ns = [m] /\ es = [] /\ run_context s' = run_context s).
Proof. split; [by apply steady_refl|]. exists [m], []. by rewrite app_nil_r. Qed.

Lemma logs_modify_context (f : RunState W -> AgentContext) (s : RunState W) :
  logs s (modify (fun st => set_context (f st) st))
    (fun _ ns es s' => ns = [] /\ es = [] /\ run_context s' = f s).
Proof. split; [by apply steady_refl|]. exists [], []. by rewrite !app_nil_r. Qed.

Lemma logs_commits {A} (s : RunState W) (c : run A) Q :
  commits host s c Q ->
  logs s c (fun a ns es s' => exists ms, ns = [] /\ es = map Result ms /\
    messages (run_context s') = messages (run_context s) ++ map Result ms /\ Q a ms s').
Proof.
  unfold commits, logs. destruct (c s) as [[a|e] s'].
  2: { intros [Hr Ho]. split; [by apply requests_refl|done]. }
  intros (ms & [Hc Hn He Hr Ha Ho] & HQ). split; [split; [by apply requests_refl|done]|].
  exists [], (map Result ms). rewrite Hc, app_nil_r. split_and!; [by rewrite Hn, app_nil_r|done|].
  by exists ms.
Qed.

Lemma logs_for_each_new (rs : list ToolResultMessage) (s : RunState W) :
  logs s (for_each (fun r => push_new (Result r)) rs)
    (fun _ ns es s' => ns = map Result rs /\ es = [] /\ run_context s' = run_context s).
Proof.
  revert s; induction rs as [|r rs IH]; intros s; simpl; [by apply logs_ret|].
  eapply logs_bind; [apply logs_push_new|]. intros _ ns es s1 (-> & -> & Hc).
  eapply logs_conseq; [apply IH|]. intros _ ns es s' (-> & -> & Hc'). by rewrite Hc'.
Qed.
End Logs.

(** ** The phases of a turn *)

Section Turns.
Context {W : Type} (host : Host W).

Abbreviation run := (prog (RunState W)).

(** The assistant message is committed, and ends the context. *)
Definition answered (m : AssistantMessage) (ns es : list LoopMessage) (s' : RunState W) : Prop :=
  ns = [] /\ es = [Assistant m] /\ exists pre, messages (run_context s') = pre ++ [Assistant m].

Lemma finish_response_logs (added : bool) (final : W -> result string AssistantMessage * W) (s : RunState W) :
  logs s (finish_response host added final) answered.
Proof.
  unfold finish_response. eapply logs_bind; [apply logs_lift|]. intros m ns es s1 (-> & -> & _ & _).
  eapply (logs_bind _ _ _ (fun _ ns es s' => ns = [] /\ es = [] /\
    exists pre, messages (run_context s') = pre ++ [Assistant m])).
  { destruct added.
    - eapply logs_conseq; [apply logs_modify_context|]. intros _ ns es s' (-> & -> & Hc). rewrite Hc. simpl. eauto.
    - eapply logs_bind; [apply logs_modify_context|]. intros _ ns es s2 (-> & -> & Hc).
      eapply logs_conseq; [by apply logs_publish_silent|]. intros _ ns es s' (-> & -> & Hc' & _).
      rewrite Hc', Hc. simpl. eauto. }
  intros _ ns es s2 (-> & -> & pre & Hpre).
  eapply logs_bind; [by apply logs_publish|]. intros _ ns es s3 (-> & -> & Hc).
  apply logs_ret. split_and!; [done..|]. exists pre. by rewrite Hc.
Qed.

Lemma stream_loop_logs (pulls : list (W -> result string AssistantMessageEvent * W))
    (final : W -> result string AssistantMessage * W) (added : bool) (s : RunState W) :
  logs s (stream_loop host pulls final added) answered.
Proof.
  revert added s; induction pulls as [|pull pulls IH]; intros added s; simpl; [apply finish_response_logs|].
  eapply logs_bind; [apply logs_lift|]. intros event ns es s1 (-> & -> & _ & _).
  destruct event as [partial|payload partial| |]; [|destruct added|apply finish_response_logs|apply IH]; [| |apply IH];
    (eapply logs_bind; [apply logs_modify_context|]); intros _ ns es s2 (-> & -> & _);
    (eapply logs_bind; [by apply logs_publish_silent|]); intros _ ns es s3 (-> & -> & _ & _); apply IH.
Qed.

Lemma transformed_logs (ms : list LoopMessage) (s : RunState W) :
  ok (inspect_messages ms) = true ->
  logs s (transformed_messages host ms) (silent s (fun ms' => ok (inspect_messages ms') = true)).
Proof.
  intros Hok. unfold transformed_messages. destruct (transformContext host) as [transform|].
  - eapply logs_bind; [apply logs_lift|]. intros ms' ns es s1 (-> & -> & Hc & _).
    destruct (ok (inspect_messages ms')) eqn:E; [by apply logs_ret|apply logs_throw].
  - by apply logs_ret.
Qed.

(** A request is made on a well-formed transcript or not at all. *)
Lemma streamAssistantResponse_logs (config : AgentLoopConfig) (s : RunState W) :
  logs s (streamAssistantResponse host config) answered.
Proof.
  unfold streamAssistantResponse. apply logs_get.
  destruct (ok (inspect_messages (messages (run_context s)))) eqn:Hok; [|apply logs_throw]. cbn [negb].
  eapply logs_bind; [by apply transformed_logs|]. intros ms ns es s1 (-> & -> & _ & Hms).
  eapply logs_bind; [apply logs_lift|]. intros llm ns es s2 (-> & -> & _ & _).
  eapply (logs_bind _ _ _ (fun _ ns es _ => ns = [] /\ es = [])).
  { unfold resolvedApiKey. eapply (logs_bind _ _ _ (fun _ ns es _ => ns = [] /\ es = [])).
    - destruct (getApiKey host); [|by apply logs_ret].
      eapply logs_conseq; [apply logs_lift|]. intros ? ns es s' (-> & -> & _). done.
    - intros key ns es s3 [-> ->]. by apply logs_ret. }
  intros key ns es s3 [-> ->].
  eapply (logs_bind _ _ _ (fun _ ns es _ => ns = [] /\ es = [])).
  { split; [split; [exists [ms]; by repeat constructor|by apply open_refl]|]. exists [], [].
    by rewrite !app_nil_r. }
  intros _ ns es s4 [-> ->]. eapply logs_bind; [apply logs_lift|]. intros response ns es s5 (-> & -> & _ & _).
  apply stream_loop_logs.
Qed.

(** The answer is accepted: nothing but the results of its calls is missing. *)
Definition accepted (m : AssistantMessage) (ctx : AgentContext) : Prop :=
  exists pre, messages ctx = pre ++ [Assistant m] /\
    List.find not_missing (issues (inspect_messages (messages ctx))) = None.

Lemma filter_nil_find {A} (p : A -> bool) (l : list A) : List.filter p l = [] -> List.find p l = None.
Proof. induction l as [|a l IH]; simpl; [done|]. by destruct (p a). Qed.

Lemma assistant_phase_logs (config : AgentLoopConfig) (s : RunState W) :
  logs s (assistant_phase host config)
    (fun m ns es s' => ns = [Assistant m] /\ es = [Assistant m] /\ accepted m (run_context s')).
Proof.
  unfold assistant_phase. eapply logs_bind; [apply streamAssistantResponse_logs|].
  intros m ns es s1 (-> & -> & pre & Hpre).
  eapply logs_bind; [apply logs_push_new|]. intros _ ns es s2 (-> & -> & Hc). apply logs_get.
  destruct (List.filter not_missing _) eqn:E; [|apply logs_throw]. apply logs_ret.
  split_and!; [done..|]. exists pre. rewrite Hc. split; [done|]. apply filter_nil_find. by rewrite <- Hc.
Qed.

Lemma view_calls (m : AssistantMessage) :
  message_calls (map view_block (am_content m)) = map view_call (toolCalls_of m).
Proof.
  unfold toolCalls_of. induction (am_content m) as [|[c|v] l IH]; simpl; [done| |done]. by f_equal.
Qed.

Lemma view_ids (m : AssistantMessage) :
  map tc_id (message_calls (map view_block (am_content m))) = map atc_id (toolCalls_of m).
Proof. rewrite view_calls, map_map. done. Qed.

Lemma view_results (ms : list ToolResultMessage) :
  forallb is_result (map view (map Result ms)) = true /\
  result_ids (map view (map Result ms)) = map toolCallId ms.
Proof.
  induction ms as [|m ms [IH1 IH2]]; [done|]. split; [done|]. simpl. by rewrite result_ids_cons, IH2.
Qed.

(** One result per call makes an accepted context well formed again. *)
Lemma accepted_closed (m : AssistantMessage) (ctx : AgentContext) (rs : list ToolResultMessage)
    (ms : list LoopMessage) :
  accepted m ctx -> map toolCallId rs ≡ₚ map atc_id (toolCalls_of m) ->
  ms = messages ctx ++ map Result rs -> ok (inspect_messages ms) = true.
Proof.
  intros (pre & Hpre & Hfind) Hp ->. unfold inspect_messages in *. rewrite Hpre in *. rewrite map_app in Hfind.
  rewrite !map_app. apply accepted_turn in Hfind as [_ Hclose].
  destruct (view_results rs) as [Hr Hids]. apply Hclose; [done|]. by rewrite Hids, view_ids.
Qed.

Lemma accepted_nodup (m : AssistantMessage) (ctx : AgentContext) :
  accepted m ctx -> NoDup (map atc_id (toolCalls_of m)).
Proof.
  intros (pre & Hpre & Hfind). unfold inspect_messages in Hfind. rewrite Hpre, map_app in Hfind.
  apply accepted_turn in Hfind as [Hnd _]. by rewrite view_ids in Hnd.
Qed.

Context (laws : signal_laws host).

Lemma terminate_loop_logs (reason : string) (d : ToolCallDisposition) (calls : list AgentToolCall)
    (rs0 : list ToolResultMessage) (s : RunState W) :
  d = TranscriptIntegrity.aborted \/ d = skipped ->
  logs s (terminate_loop host reason d calls rs0)
    (fun rs ns es s' => exists added, rs = rs0 ++ added /\ ns = map Result added /\ es = map Result added /\
       messages (run_context s') = messages (run_context s) ++ map Result added /\
       map toolCallId added = map atc_id calls).
Proof.
  intros Hd. revert rs0 s; induction calls as [|c calls IH]; intros rs0 s; simpl.
  { apply logs_ret. exists []. by rewrite !app_nil_r. }
  eapply logs_bind; [apply logs_lift|]. intros now ns es s1 (-> & -> & Hc1 & _).
  destruct (synthetic_result (atc_id c) (atc_name c) reason now d Hd) as (r & -> & Hid).
  eapply (logs_bind _ _ _ (fun v ns es s' => v = r /\ silent s1 (fun _ => True) v ns es s')).
  { split; [by apply steady_refl|]. exists [], []. by rewrite !app_nil_r. }
  intros ? ns es s2 (-> & -> & -> & Hc2 & _).
  eapply logs_bind; [apply logs_modify_context|]. intros _ ns es s3 (-> & -> & Hc3).
  eapply logs_bind; [apply logs_push_new|]. intros _ ns es s4 (-> & -> & Hc4).
  eapply (logs_bind _ _ _ (fun _ ns es s' => ns = [] /\ es = [Result r] /\ run_context s' = run_context s4)).
  { unfold emitToolResultMessage. eapply logs_bind; [by apply logs_publish_silent|].
    intros _ ns es s5 (-> & -> & Hc5 & _). eapply logs_conseq; [by apply logs_publish|].
    intros _ ns es s' (-> & -> & Hc'). by rewrite Hc'. }
  intros _ ns es s5 (-> & -> & Hc5). eapply logs_conseq; [apply IH|].
  intros rs ns es s' (added & -> & -> & -> & Hm & Hids). exists (r :: added).
  rewrite Hm, Hc5, Hc4, Hc3, Hc2, Hc1. simpl. rewrite <- !app_assoc. simpl. by rewrite Hid, Hids.
Qed.

(** However the calls of an accepted answer end, each gets exactly one result
    and the context is well formed again; the results are recorded alike as
    new messages and as events. *)
Lemma tool_phase_logs (config : AgentLoopConfig) (m : AssistantMessage) (s : RunState W) :
  accepted m (run_context s) ->
  logs s (tool_phase host config m)
    (fun phase ns es s' => ns = es /\ ns = map Result (phase_results phase) /\
       map toolCallId (phase_results phase) ≡ₚ map atc_id (toolCalls_of m) /\
       messages (run_context s') = messages (run_context s) ++ map Result (phase_results phase)).
Proof.
  intros Hacc. unfold tool_phase. destruct (_ || _)%bool.
  { eapply logs_bind.
    - apply terminate_loop_logs. destruct (String.eqb _ _); [by left|by right].
    - intros rs ns es s1 (added & -> & -> & -> & Hm & Hids). apply logs_ret. simpl. by rewrite app_nil_r, Hids. }
  destruct (length (toolCalls_of m) =? 0)%nat eqn:Hlen.
  { apply Nat.eqb_eq, length_zero_iff_nil in Hlen. apply logs_ret. simpl. by rewrite Hlen, app_nil_r. }
  eapply logs_bind; [by apply (logs_commits host), executeToolCalls_answers|].
  intros batch ns es s1 (ms & -> & -> & Hc1 & Hb & Ha). rewrite Hb.
  eapply (logs_bind _ _ _ (fun b ns es s' => ns = [] /\ es = [] /\ s' = s1 /\ b = run_aborted host s1)).
  { split; [by apply steady_refl|]. exists [], []. by rewrite !app_nil_r. }
  intros stop ns es s2 (-> & -> & -> & ->). destruct (run_aborted host s1) eqn:Hab.
  - eapply logs_bind.
    { apply (logs_commits host), closeAborted_answers; [done|by eapply accepted_nodup|apply Ha]. }
    intros synthesized ns es s3 (ms' & -> & -> & Hc3 & -> & Hp).
    eapply logs_bind; [apply logs_for_each_new|]. intros _ ns es s4 (-> & -> & Hc4). apply logs_ret. simpl.
    rewrite !app_nil_r, Hc4, Hc3, Hc1, !map_app, <- app_assoc. by rewrite map_app in Hp.
  - eapply logs_bind; [apply logs_for_each_new|]. intros _ ns es s3 (-> & -> & Hc3). apply logs_ret. simpl.
    rewrite !app_nil_r, Hc3, Hc1. destruct Ha as [_ Ha]. by rewrite (Ha Hab).
Qed.
End Turns.

(** ** The loop *)

Section Runs.
Context {W : Type} (host : Host W) (laws : signal_laws host).

Abbreviation run := (prog (RunState W)).

(** The new messages are the committed ones. *)
Definition in_step {A} : A -> list LoopMessage -> list LoopMessage -> RunState W -> Prop :=
  fun _ ns es _ => ns = es.

Lemma silent_in_step {A} (s : RunState W) (c : run A) (Q : A -> Prop) :
  logs s c (silent s Q) -> logs s c in_step.
Proof. intros H. eapply logs_conseq; [exact H|]. by intros a ns es s' (-> & -> & _). Qed.

Lemma bind_in_step {A B} (s : RunState W) (c : run A) (k : A -> run B) :
  logs s c in_step -> (forall a s1, logs s1 (k a) in_step) -> logs s (bind c k) in_step.
Proof.
  intros Hc Hk. eapply logs_bind; [exact Hc|]. intros a ns es s1 ->.
  eapply logs_conseq; [apply Hk|]. intros b ns' es' s' ->. done.
Qed.

Lemma lift_in_step {A} (c : W -> result string A * W) (s : RunState W) : logs s (lift c) in_step.
Proof. eapply silent_in_step, logs_lift. Qed.

Lemma publish_in_step (e : AgentEvent) (s : RunState W) : quiet e = true -> logs s (publish host e) in_step.
Proof. intros He. by eapply silent_in_step, logs_publish_silent. Qed.

Lemma callback_in_step (c : option (W -> result string (list LoopMessage) * W)) (s : RunState W) :
  logs s (callback_list c) in_step.
Proof. destruct c; [apply lift_in_step|by apply logs_ret]. Qed.

Lemma next_turn_in_step (config : AgentLoopConfig) (m : AssistantMessage) (rs : list ToolResultMessage)
    (s : RunState W) : logs s (next_turn host config m rs) in_step.
Proof.
  unfold next_turn, turn_context. destruct (prepareNextTurn host); [|by apply logs_ret].
  apply bind_in_step; [apply logs_get; by apply logs_ret|]. intros tc s1.
  apply bind_in_step; [apply lift_in_step|]. intros [u|] s2; [|by apply logs_ret].
  apply bind_in_step; [|intros; by apply logs_ret]. destruct (tu_context u); [|by apply logs_ret].
  eapply logs_conseq; [apply (logs_modify_context (fun _ => a))|]. by intros ? ns es s' (-> & -> & _).
Qed.

Lemma inject_in_step (m : LoopMessage) (s : RunState W) : logs s (inject host m) in_step.
Proof.
  unfold inject. apply bind_in_step; [by apply publish_in_step|]. intros _ s1.
  eapply logs_bind; [by apply logs_publish|]. intros _ ns es s2 (-> & -> & _).
  eapply logs_bind; [apply logs_modify_context|]. intros _ ns es s3 (-> & -> & _).
  eapply logs_conseq; [apply logs_push_new|]. by intros ? ns es s' (-> & -> & _).
Qed.

Lemma for_each_in_step {A} (f : A -> run unit) (l : list A) (s : RunState W) :
  (forall a s, logs s (f a) in_step) -> logs s (for_each f l) in_step.
Proof.
  intros Hf. revert s; induction l as [|a l IH]; intros s; simpl; [by apply logs_ret|].
  apply bind_in_step; [apply Hf|intros _ s1; apply IH].
Qed.

(** [turns fin s c]: like [logs] with the new messages in step, except that
    [c] ends the run, with the [agent_end] event of its messages, when it
    returns a value that [fin] holds of. *)
Definition ends_run (s s' : RunState W) : Prop :=
  exists es, published s' = published s ++ es ++ [agent_end (newMessages s')] /\
    Forall (fun e => is_agent_end e = false) es.

Definition sink_total : Prop := forall e w, fst (sink host e w) = Ok tt.

Definition turns {A} (fin : A -> bool) (s : RunState W) (c : run A) : Prop :=
  match c s with
  | (Ok a, s') =>
      requests_from s s' /\
      (exists ns, newMessages s' = newMessages s ++ ns /\
         committed (published s') = committed (published s) ++ ns) /\
      if fin a then ends_run s s' else open_events s s'
  | (Err _, s') => requests_from s s' /\ (sink_total -> open_events s s')
  end.

Lemma turns_logs {A} (fin : A -> bool) (s : RunState W) (c : run A) :
  logs s c (fun a ns es _ => ns = es /\ fin a = false) -> turns fin s c.
Proof.
  unfold logs, turns. destruct (c s) as [[a|e] s'].
  - intros ([Hr Ho] & ns & es & Hn & He & -> & ->). split_and!; [done| |done]. eauto.
  - intros [Hr Ho]. by split.
Qed.

Lemma turns_ret {A} (fin : A -> bool) (s : RunState W) (a : A) : fin a = false -> turns fin s (ret a).
Proof. intros Hf. apply turns_logs. by apply logs_ret. Qed.

Lemma ends_after (s s1 s2 : RunState W) : open_events s s1 -> ends_run s1 s2 -> ends_run s s2.
Proof.
  intros (es & H & O) (es' & H' & O'). exists (es ++ es'). rewrite H', H, <- !app_assoc.
  split; [done|]. by apply Forall_app.
Qed.

Lemma turns_after {A B} (fin : A -> bool) (fin' : B -> bool) (s : RunState W) (c : run A) (k : A -> run B) :
  turns fin s c ->
  (forall a s1, if fin a then exists b, k a = ret b /\ fin' b = true else turns fin' s1 (k a)) ->
  turns fin' s (bind c k).
Proof.
  intros Hc Hk. unfold turns, bind in *. destruct (c s) as [[a|e] s1]; [|done].
  destruct Hc as (Hr & (ns & Hn & He) & Hf). specialize (Hk a s1). destruct (fin a).
  - destruct Hk as (b & -> & Hb). simpl. rewrite Hb. split_and!; [done|eauto|done].
  - destruct (k a s1) as [[b|e] s2].
    + destruct Hk as (Hr' & (ns' & Hn' & He') & Hf'). split_and!; [by eapply requests_trans| |].
      * exists (ns ++ ns'). by rewrite Hn', Hn, He', He, !app_assoc.
      * destruct (fin' b); [by eapply ends_after|by eapply open_trans].
    + destruct Hk as [Hr' Ho]. split; [by eapply requests_trans|]. intros Ht. eapply open_trans; [done|auto].
Qed.

Lemma turns_bind {A B} (fin : B -> bool) (s : RunState W) (c : run A) (k : A -> run B) :
  logs s c in_step -> (forall a s1, turns fin s1 (k a)) -> turns fin s (bind c k).
Proof.
  intros Hc Hk. apply (turns_after (fun _ => false) fin).
  - apply turns_logs. eapply logs_conseq; [exact Hc|]. by intros a ns es s' ->.
  - intros a s1. apply Hk.
Qed.

Lemma end_run_turns {A} (fin : A -> bool) (a : A) (s : RunState W) :
  fin a = true -> turns fin s (do! end_run host ;; ret a).
Proof.
  intros Hf. unfold turns, end_run, publish, get, pure_result, modify, lift, ret, bind.
  destruct (check_all _ _); simpl.
  2: { split; [by apply requests_refl|]. intros _. by apply open_refl. }
  destruct (sink host (agent_end (newMessages s)) (world s)) as [[[]|e] w] eqn:Hw; simpl.
  - rewrite Hf. split_and!; [by apply requests_refl| |].
    + exists []. rewrite !app_nil_r. split; [done|]. unfold committed. rewrite omap_app. simpl. by rewrite app_nil_r.
    + by exists [].
  - split; [by apply requests_refl|]. intros Ht. specialize (Ht (agent_end (newMessages s)) (world s)).
    by rewrite Hw in Ht.
Qed.

(** A turn answers [None] exactly when it ended the run. *)
Definition no_next (o : option NextTurn) : bool :=
  match o with
  | Some _ => false
  | None => true
  end.

Lemma run_turn_turns (config : AgentLoopConfig) (first : bool) (pendingMessages : list LoopMessage)
    (s : RunState W) : turns no_next s (run_turn host config first pendingMessages).
Proof.
  unfold run_turn. apply turns_bind.
  { destruct first; [by apply logs_ret|by apply publish_in_step]. }
  intros _ s1. apply turns_bind; [apply for_each_in_step, inject_in_step|]. intros _ s2.
  assert (Hphase : logs s2 (m <-! assistant_phase host config ;; phase <-! tool_phase host config m ;; ret (m, phase))
                     in_step).
  { eapply logs_bind; [apply assistant_phase_logs|]. intros m ns es s3 (-> & -> & Hacc).
    eapply logs_bind; [by apply tool_phase_logs|]. intros phase ns es s4 (<- & _). by apply logs_ret. }
  set (rest := fun mp : AssistantMessage * ToolPhase =>
    do! publish host (turn_end (Assistant (fst mp)) (phase_results (snd mp))) ;;
    match snd mp with
    | Terminated _ | Aborted _ => do! end_run host ;; ret None
    | Executed toolResults more stop =>
        if stop then do! end_run host ;; ret None else after_turn host config (fst mp) toolResults more
    end).
  assert (Hrest : forall mp s, turns no_next s (rest mp)).
  { intros [m phase] s3. unfold rest. apply turns_bind; [by apply publish_in_step|]. intros _ s4. simpl.
    destruct phase as [rs|rs|rs more stop]; try by apply end_run_turns.
    destruct stop; [by apply end_run_turns|]. unfold after_turn, turn_context.
    apply turns_bind; [apply next_turn_in_step|]. intros config' s5. apply turns_bind.
    { destruct (shouldStopAfterTurn host); [|by apply logs_ret].
      apply bind_in_step; [apply logs_get; by apply logs_ret|intros; apply lift_in_step]. }
    intros [] s6; [by apply end_run_turns|]. apply turns_bind; [apply callback_in_step|].
    intros ms s7. by apply turns_ret. }
  pose proof (turns_bind no_next s2 _ rest Hphase Hrest) as H. unfold turns, rest, bind in H |- *.
  destruct (assistant_phase host config s2) as [[m|e] s3]; [|exact H].
  by destruct (tool_phase host config m s3) as [[phase|e] s4].
Qed.

Definition has_ended (o : option unit) : bool :=
  match o with
  | Some _ => true
  | None => false
  end.

Lemma loop_turns (fuel : nat) (config : AgentLoopConfig) (first more : bool) (pendingMessages : list LoopMessage)
    (s : RunState W) : turns has_ended s (loop_from host fuel config first more pendingMessages).
Proof.
  revert config first more pendingMessages s; induction fuel as [|fuel IH];
    intros config first more pendingMessages s; simpl; [by apply turns_ret|].
  destruct (_ || _)%bool.
  - eapply turns_after; [apply run_turn_turns|]. intros [n|] s1; simpl; [apply IH|by exists (Some tt)].
  - apply turns_bind; [apply callback_in_step|]. intros ms s1.
    destruct (_ =? _)%nat; [by apply end_run_turns|apply IH].
Qed.

Lemma runLoop_turns (fuel : nat) (config : AgentLoopConfig) (s : RunState W) :
  turns has_ended s (runLoop host fuel config).
Proof. apply turns_bind; [apply callback_in_step|intros; apply loop_turns]. Qed.

Lemma emit_prompts_logs (prompts : list LoopMessage) (s : RunState W) :
  logs s (for_each (emit_prompt host) prompts) (fun _ ns es _ => ns = [] /\ es = prompts).
Proof.
  revert s; induction prompts as [|m prompts IH]; intros s; simpl; [by apply logs_ret|].
  eapply (logs_bind _ _ _ (fun _ ns es _ => ns = [] /\ es = [m])).
  { unfold emit_prompt. eapply logs_bind; [by apply logs_publish_silent|]. intros _ ns es s1 (-> & -> & _).
    eapply logs_conseq; [by apply logs_publish|]. by intros ? ns es s' (-> & -> & _). }
  intros _ ns es s1 [-> ->]. eapply logs_conseq; [apply IH|]. by intros ? ns es s' [-> ->].
Qed.

(** What a run started from nothing records: the returned messages are those
    announced, and [agent_end] is the last event. *)
Definition run_recorded (r : result string (option (list LoopMessage))) (s : RunState W) : Prop :=
  sound_requests (requested s) /\
  match r with
  | Ok o =>
      newMessages s = committed (published s) /\
      match o with
      | Some ms =>
          ms = newMessages s /\
          exists es, published s = es ++ [agent_end ms] /\ Forall (fun e => is_agent_end e = false) es
      | None => Forall (fun e => is_agent_end e = false) (published s)
      end
  | Err _ => sink_total -> Forall (fun e => is_agent_end e = false) (published s)
  end.

(** The common end of the entry points. *)
Lemma run_from_recorded (fuel : nat) (config : AgentLoopConfig) (s0 s : RunState W) :
  requested s0 = [] -> published s0 = [] -> requests_from s0 s -> open_events s0 s ->
  newMessages s = committed (published s) ->
  let (r, s') := (o <-! runLoop host fuel config ;; returned o) s in run_recorded r s'.
Proof.
  intros Hq Hp [rq [Hrq Hsound]] (es & Hes & Hopen) Hstep. rewrite Hq in Hrq. rewrite Hp in Hes. simpl in *.
  pose proof (runLoop_turns fuel config s) as H. unfold turns, bind in *.
  destruct (runLoop host fuel config s) as [[o|e] s'].
  - destruct H as ((rq' & Hrq' & Hsound') & (ns & Hn & Hc) & Hend). unfold returned, bind, get, ret.
    split; [rewrite Hrq', Hrq; by apply Forall_app|]. split; [by rewrite Hn, Hc, Hstep|].
    destruct o as [[]|]; simpl in Hend.
    + split; [done|]. destruct Hend as (es' & Hes' & Hopen'). exists (es ++ es').
      rewrite Hes', Hes, <- app_assoc. split; [done|]. by apply Forall_app.
    + destruct Hend as (es' & Hes' & Hopen'). rewrite Hes', Hes. by apply Forall_app.
  - destruct H as ((rq' & Hrq' & Hsound') & Hend). split; [rewrite Hrq', Hrq; by apply Forall_app|].
    intros Ht. destruct (Hend Ht) as (es' & Hes' & Hopen'). rewrite Hes', Hes. by apply Forall_app.
Qed.

Lemma bind_assoc {S A B C} (c : prog S A) (k : A -> prog S B) (h : B -> prog S C) (s : S) :
  bind (bind c k) h s = bind c (fun a => bind (k a) h) s.
Proof. unfold bind. by destruct (c s) as [[a|e] s']. Qed.

(** A prefix that only logs, and the run behind it. *)
Lemma prefix_recorded (s0 s : RunState W) (c : run unit) (fuel : nat) (config : AgentLoopConfig)
    (ms : list LoopMessage) :
  requested s0 = [] -> published s0 = [] -> requested s = [] -> published s = [] -> newMessages s = ms ->
  logs s c (fun _ ns es _ => ns = [] /\ es = ms) ->
  let (r, s') := (do! c ;; o <-! runLoop host fuel config ;; returned o) s in run_recorded r s'.
Proof.
  intros Hq0 Hp0 Hq Hp Hn Hc. unfold logs in Hc. unfold bind at 1. destruct (c s) as [[[]|e] s1].
  - destruct Hc as ([Hr Ho] & ns & es & Hn' & Hc' & -> & ->).
    apply (run_from_recorded fuel config s); [done|done|done|done|].
    rewrite Hn', Hc', Hp, Hn, app_nil_r. done.
  - destruct Hc as [(rq & Hrq & Hs) (es & Hes & Ho)]. split; [by rewrite Hrq, Hq|].
    intros _. by rewrite Hes, Hp.
Qed.

Lemma runAgentLoop_recorded (fuel : nat) (prompts : list LoopMessage) (context : AgentContext)
    (config : AgentLoopConfig) (w : W) :
  let (r, s) := runAgentLoop host fuel prompts context config (initial_run w context) in run_recorded r s.
Proof.
  set (s0 := initial_run w context).
  set (s1 := set_context (with_messages context (messages context ++ prompts)) (set_new prompts s0)).
  pose proof (prefix_recorded s0 s1
    (do! publish host agent_start ;; do! publish host turn_start ;; for_each (emit_prompt host) prompts)
    fuel config prompts eq_refl eq_refl eq_refl eq_refl eq_refl) as H.
  assert (E : runAgentLoop host fuel prompts context config s0
    = (do! (do! publish host agent_start ;; do! publish host turn_start ;; for_each (emit_prompt host) prompts) ;;
       o <-! runLoop host fuel config ;; returned o) s1).
  { unfold runAgentLoop. unfold bind at 1 2, modify at 1 2. fold s1. rewrite bind_assoc. unfold bind at 1 5.
    destruct (publish host agent_start s1) as [[[]|e] s2]; [|done]. by rewrite bind_assoc. }
  rewrite E. apply H.
  eapply logs_bind; [by apply logs_publish_silent|]. intros _ ns es s2 (-> & -> & _).
  eapply logs_bind; [by apply logs_publish_silent|]. intros _ ns es s3 (-> & -> & _). apply emit_prompts_logs.
Qed.

Lemma runAgentLoopContinue_recorded (fuel : nat) (context : AgentContext) (config : AgentLoopConfig) (w : W) :
  let (r, s) := runAgentLoopContinue host fuel context config (initial_run w context) in run_recorded r s.
Proof.
  unfold runAgentLoopContinue. destruct (_ =? _)%nat; [by repeat constructor|].
  unfold bind at 1, pure_result. destruct (assertContinuableTranscript _) as [[]|e]; [|by repeat constructor].
  set (s0 := initial_run w context). set (s1 := set_context context (set_new [] s0)).
  pose proof (prefix_recorded s0 s1 (do! publish host agent_start ;; publish host turn_start)
    fuel config [] eq_refl eq_refl eq_refl eq_refl eq_refl) as H.
  assert (E : (do! modify (set_new []) ;; do! modify (set_context context) ;; do! publish host agent_start ;;
               do! publish host turn_start ;; o <-! runLoop host fuel config ;; returned o) s0
    = (do! (do! publish host agent_start ;; publish host turn_start) ;;
       o <-! runLoop host fuel config ;; returned o) s1).
  { unfold bind at 1 2, modify at 1 2. fold s1. by rewrite bind_assoc. }
  rewrite E. apply H.
  eapply logs_bind; [by apply logs_publish_silent|]. intros _ ns es s2 (-> & -> & _).
  eapply logs_conseq; [by apply logs_publish_silent|]. by intros _ ns es s3 (-> & -> & _).
Qed.

(** ** Fuel *)

(** A run that has ended does not depend on the fuel it had left. *)
Lemma loop_fuel (fuel fuel' : nat) (config : AgentLoopConfig) (first more : bool)
    (pendingMessages : list LoopMessage) (s : RunState W) :
  fuel <= fuel' ->
  fst (loop_from host fuel config first more pendingMessages s) <> Ok None ->
  loop_from host fuel' config first more pendingMessages s
  = loop_from host fuel config first more pendingMessages s.
Proof.
  revert fuel' config first more pendingMessages s; induction fuel as [|fuel IH];
    intros [|fuel'] config first more pendingMessages s Hle Hs; simpl in *; try done; try lia.
  unfold bind in *. destruct (_ || _)%bool.
  - destruct (run_turn host config first pendingMessages s) as [[[n|]|e] s1]; [|done..].
    apply IH; [lia|done].
  - destruct (callback_list _ s) as [[ms|e] s1]; [|done]. destruct (_ =? _)%nat; [done|].
    apply IH; [lia|done].
Qed.
End Runs.

(** ** Ending a run that failed *)

(** The results the repair appends, as messages of the loop. *)
Lemma appended_synthetic (text : string) (ms added : list AgentMessage) (n : nat) :
  length ms = n -> Forall (is_synthetic text) added ->
  let rs := appended_results n (ms ++ added) in
  map ToolResultMsg rs = added /\ closure_loop rs = (rs, false) /\
  Forall (fun r => is_synthetic text (ToolResultMsg r)) rs.
Proof.
  intros Hn Hs. unfold appended_results. rewrite drop_app_length' by done. clear Hn ms n.
  induction Hs as [|m added (r & -> & He & Hd & Hc & now & Ht) Hs (IH1 & IH2 & IH3)]; [by repeat constructor|].
  cbn [omap list_omap]. split; [simpl; by f_equal|]. split; [|constructor; [|done]; exists r; by eauto 10].
  simpl. assert (snapshot_message r = Ok r) as ->.
  { unfold snapshot_message. simpl. rewrite Hc, Hd, Ht. done. }
  by rewrite IH2.
Qed.

Lemma view_appended (ms : list LoopMessage) (rs : list ToolResultMessage) :
  map view (ms ++ map Result rs) = map view ms ++ map ToolResultMsg rs.
Proof. by rewrite map_app, map_map. Qed.

(** The closure of the open turn, or nothing could close it. *)
Lemma closure_of_spec (now : nat -> Q) (ms : list LoopMessage) :
  let (closure, thrown) := closure_of now ms in
  if thrown then closure = [] /\
    forall extra : list ToolResultMessage, ok (inspect_messages (ms ++ map Result extra)) = false
  else ok (inspect_messages (ms ++ map Result closure)) = true /\
    Forall (fun r => is_synthetic "Tool result missing; run terminated by error" (ToolResultMsg r)) closure.
Proof.
  unfold closure_of. destruct (ok (inspect_messages ms)) eqn:Hok.
  { by rewrite app_nil_r. }
  pose proof (repair_outcome now (map view ms) (Some "Tool result missing; run terminated by error")) as H.
  destruct (repairTranscriptIntegrity _ _ _) as [repaired|e].
  - destruct H as (added & -> & _ & Hs & Hr).
    destruct (appended_synthetic _ (map view ms) added (length ms) ltac:(by rewrite length_map) Hs)
      as (Hm & -> & Hsyn).
    split; [|done]. unfold inspect_messages. by rewrite view_appended, Hm.
  - split; [done|]. intros extra. apply not_true_iff_false. intros Hx. unfold inspect_messages in Hx.
    rewrite view_appended in Hx. eapply H; [|exact Hx]. clear. by induction extra.
Qed.

Definition model_plain (m : jsval) : Prop :=
  Forall plain [get_prop "api" m; get_prop "provider" m; get_prop "id" m].

Lemma failure_message_plain (m : jsval) (error : string) (ab : bool) (now : Q) :
  model_plain m ->
  check_all (assertPlainData false) (message_values (failure_message m error ab now)) = Ok tt.
Proof.
  unfold model_plain. rewrite !Forall_cons. intros (H1 & H2 & H3 & _). unfold plain in *. simpl.
  by rewrite H1, H2, H3.
Qed.

Lemma plan_ok (now : nat -> Q) (completedMessages : list LoopMessage) (m : jsval) (error : string) (ab : bool) :
  model_plain m ->
  exists plan, planFailureTermination now completedMessages m error ab = Ok plan /\
    match plan_failureMessage plan with
    | Some f =>
        has_tool_call f = false /\
        plan_messages plan = completedMessages ++ map Result (plan_closureResults plan) ++ [f] /\
        ok (inspect_messages (plan_messages plan)) = true /\
        Forall (fun r => is_synthetic "Tool result missing; run terminated by error" (ToolResultMsg r))
               (plan_closureResults plan)
    | None =>
        plan_messages plan = completedMessages /\ plan_closureResults plan = [] /\
        forall extra : list ToolResultMessage,
          ok (inspect_messages (completedMessages ++ map Result extra)) = false
    end.
Proof.
  intros Hm. unfold planFailureTermination. pose proof (closure_of_spec now completedMessages) as H.
  destruct (closure_of now completedMessages) as [closure []].
  - destruct H as [-> H]. eexists. split; [reflexivity|]. simpl. by rewrite app_nil_r.
  - destruct H as [Hok Hs]. rewrite failure_message_plain by done. eexists. split; [reflexivity|].
    simpl. split_and!; [done|by rewrite <- app_assoc| |done].
    unfold inspect_messages in *. rewrite (map_app view (completedMessages ++ map Result closure)). simpl.
    by apply inspect_ok_plain.
Qed.

(** ** Streams *)

Lemma delivered_until (es : list AgentEvent) (s : AgentStream) :
  stream_done s = true -> foldl agent_push s es = s.
Proof.
  intros Hd. revert s Hd; induction es as [|e es IH]; intros s Hd; simpl; [done|].
  assert (agent_push s e = s) as -> by (unfold agent_push, stream_push; by rewrite Hd). by apply IH.
Qed.

(** Pushing events none of which ends the run delivers them all. *)
Lemma delivered_all (es : list AgentEvent) (s : AgentStream) :
  stream_done s = false -> Forall (fun e => is_agent_end e = false) es ->
  foldl agent_push s es
  = {| delivered := delivered s ++ es; stream_done := false; finalResult := finalResult s |}.
Proof.
  intros Hd He. revert s Hd; induction He as [|e es He _ IH]; intros s Hd; simpl.
  { destruct s; simpl in *. by rewrite Hd, app_nil_r. }
  unfold agent_push at 2, stream_push. rewrite Hd, He. rewrite IH by done. simpl. by rewrite <- app_assoc.
Qed.

Lemma failure_events_split (plan : FailureTerminationPlan) :
  exists es, failure_events plan = es ++ [agent_end (plan_messages plan)] /\
    Forall (fun e => is_agent_end e = false) es /\
    committed es = map Result (plan_closureResults plan) ++ option_list (plan_failureMessage plan).
Proof.
  unfold failure_events. eexists. split; [by rewrite app_assoc|]. split; [apply Forall_app; split|].
  - apply Forall_concat, Forall_fmap, Forall_forall. intros r _. by repeat constructor.
  - destruct (plan_failureMessage plan); by repeat constructor.
  - unfold committed. rewrite omap_app. f_equal; [|by destruct (plan_failureMessage plan)].
    generalize (plan_closureResults plan) as rs. induction rs as [|r rs IH]; simpl; [done|]. f_equal. exact IH.
Qed.

Lemma streaming_laws {W} (host : Host W) : signal_laws host -> signal_laws (streaming_host host).
Proof. intros [H1 H2 H3 H4 H5 H6 H7 H8]. split; try done. Qed.

(** ** Properties *)

(** C2: Every tool call of an accepted answer is closed before anything else
    happens: when the tool phase of a turn ends - calls run one by one, in
    waves, by DAG levels, concurrently in any interleaving, skipped, blocked,
    timed out, or cut short by an abort at any point - the context holds exactly
    one result for each call, next to the answer, and is a well-formed
    transcript again; the same results are recorded as new messages and as
    events. *)
Theorem turn_leaves_no_call_open {W} (host : Host W) (config : AgentLoopConfig) (s : RunState W) :
  signal_laws host ->
  match (m <-! assistant_phase host config ;; phase <-! tool_phase host config m ;; ret (m, phase)) s with
  | (Ok (m, phase), s') =>
      ok (inspect_messages (messages (run_context s'))) = true /\
      map toolCallId (phase_results phase) ≡ₚ map atc_id (toolCalls_of m) /\
      (exists pre, messages (run_context s') = pre ++ Assistant m :: map Result (phase_results phase)) /\
      newMessages s' = newMessages s ++ Assistant m :: map Result (phase_results phase) /\
      committed (published s') = committed (published s) ++ Assistant m :: map Result (phase_results phase)
  | (Err _, _) => True
  end.
Proof.
  intros laws.
  assert (H : logs s (m <-! assistant_phase host config ;; phase <-! tool_phase host config m ;; ret (m, phase))
    (fun mp ns es s' => ok (inspect_messages (messages (run_context s'))) = true /\
       map toolCallId (phase_results (snd mp)) ≡ₚ map atc_id (toolCalls_of (fst mp)) /\
       (exists pre, messages (run_context s') = pre ++ Assistant (fst mp) :: map Result (phase_results (snd mp))) /\
       ns = Assistant (fst mp) :: map Result (phase_results (snd mp)) /\ es = ns)).
  { eapply logs_bind; [apply assistant_phase_logs|]. intros m ns es s1 (-> & -> & Hacc).
    eapply logs_bind; [by apply tool_phase_logs|]. intros phase ns es s2 (<- & -> & Hp & Hc).
    apply logs_ret. simpl. rewrite !app_nil_r. split; [by eapply accepted_closed|]. split; [done|].
    split; [|done]. destruct Hacc as (pre & Hpre & _). exists pre. by rewrite Hc, Hpre, <- app_assoc. }
  unfold logs in H. destruct (bind _ _ s) as [[[m phase]|e] s']; [|done].
  destruct H as (_ & ns & es & Hn & He & Hok & Hp & Hpre & -> & ->). done.
Qed.

(** C7: The loop never sends a provider a broken transcript: whatever the
    host, the providers and the tools do, and wherever a run fails, each
    provider request of the run is made on messages that the inspection
    accepts. *)
Theorem requests_are_well_formed {W} (host : Host W) (fuel : nat) (prompts : list LoopMessage)
    (context : AgentContext) (config : AgentLoopConfig) (w : W) :
  signal_laws host ->
  Forall (fun ms => NoDup (call_ids (map view ms)) /\ balanced (map view ms))
    (requested (snd (runAgentLoop host fuel prompts context config (initial_run w context)))).
Proof.
  intros laws. pose proof (runAgentLoop_recorded host laws fuel prompts context config w) as H.
  assert (Hs : sound_requests (requested (snd (runAgentLoop host fuel prompts context config (initial_run w context))))).
  { destruct (runAgentLoop _ _ _ _ _ _) as [r s]. apply H. }
  eapply Forall_impl; [exact Hs|]. intros ms Hok. by apply inspect_balanced.
Qed.

(** A run that ends returns exactly the messages its event stream
    announced: the prompts, injected messages, answers and tool results of the
    [message_end] events, each once and in their order. *)
Theorem run_returns_what_it_announced {W} (host : Host W) (fuel : nat) (prompts : list LoopMessage)
    (context : AgentContext) (config : AgentLoopConfig) (w : W) (ms : list LoopMessage) (s : RunState W) :
  signal_laws host ->
  runAgentLoop host fuel prompts context config (initial_run w context) = (Ok (Some ms), s) ->
  ms = committed (published s) /\ ms = newMessages s.
Proof.
  intros laws Hrun. pose proof (runAgentLoop_recorded host laws fuel prompts context config w) as H.
  rewrite Hrun in H. destruct H as (_ & Hc & Hms & _). by rewrite Hms.
Qed.

(** The plan for a failed run is sound and fails closed: the failure
    message is appended only when some results could close the messages that
    were completed; these results are then synthetic ones, and the whole is a
    well-formed transcript. Otherwise nothing is appended. *)
Theorem planFailureTermination_sound (now : nat -> Q) (completedMessages : list LoopMessage) (m : jsval)
    (error : string) (ab : bool) :
  model_plain m ->
  exists plan, planFailureTermination now completedMessages m error ab = Ok plan /\
    match plan_failureMessage plan with
    | Some f =>
        has_tool_call f = false /\
        plan_messages plan = completedMessages ++ map Result (plan_closureResults plan) ++ [f] /\
        ok (inspect_messages (plan_messages plan)) = true /\
        Forall (fun r => is_synthetic "Tool result missing; run terminated by error" (ToolResultMsg r))
               (plan_closureResults plan)
    | None =>
        plan_messages plan = completedMessages /\ plan_closureResults plan = [] /\
        forall extra : list ToolResultMessage,
          ok (inspect_messages (completedMessages ++ map Result extra)) = false
    end.
Proof. apply plan_ok. Qed.

(** C40: The stream of a run that ends always settles, however it ends:
    consumers see it end with one [agent_end] event, the result they await is
    the list of messages it carries, and these are the messages the stream
    announced before - for a failed run, those completed, the synthetic results
    and the failure message that close them. *)
Theorem agentLoop_settles {W} (host : Host W) (now : nat -> Q) (fuel : nat) (prompts : list LoopMessage)
    (context : AgentContext) (config : AgentLoopConfig) (w : W) :
  signal_laws host -> model_plain (model config) ->
  match agentLoop host now fuel prompts context config w with
  | Ok (Some stream) =>
      stream_done stream = true /\
      exists ms es, finalResult stream = Some ms /\ delivered stream = es ++ [agent_end ms] /\
        Forall (fun e => is_agent_end e = false) es /\ committed es = ms
  | Ok None => fst (runAgentLoop (streaming_host host) fuel prompts context config (initial_run w context)) = Ok None
  | Err _ => False
  end.
Proof.
  intros laws Hm. unfold agentLoop, settle_stream.
  pose proof (runAgentLoop_recorded (streaming_host host) (streaming_laws host laws) fuel prompts context config w) as H.
  destruct (runAgentLoop (streaming_host host) fuel prompts context config (initial_run w context)) as [[[ms|]|e] s].
  - destruct H as (_ & Hc & -> & es & Hes & Hopen). rewrite Hes in *. rewrite foldl_app, (delivered_all es) by done.
    split; [done|]. exists (newMessages s), es. split_and!; [done..|]. rewrite Hc. unfold committed.
    rewrite omap_app. simpl. by rewrite app_nil_r.
  - done.
  - destruct H as (_ & Hopen). specialize (Hopen ltac:(done)).
    destruct (plan_ok now (committed (published s)) (model config) e (aborted_now host (world s)) Hm)
      as (plan & Hp & Hplan).
    unfold endStreamWithFailure. rewrite Hp. cbn [result_bind]. rewrite (delivered_all (published s)) by done.
    destruct (failure_events_split plan) as (es & Hes & He & Hc).
    rewrite Hes, foldl_app, (delivered_all es) by done. split; [done|].
    exists (plan_messages plan), (published s ++ es). simpl. split_and!; [done|by rewrite <- app_assoc|by apply Forall_app|].
    unfold committed in *. rewrite omap_app, Hc. destruct (plan_failureMessage plan); simpl.
    + by destruct Hplan as (_ & -> & _).
    + destruct Hplan as (-> & -> & _). by rewrite app_nil_r.
Qed.

(** Fuel only bounds the search: a run that has ended, by returning or by
    failing, ends alike under any larger bound, in the same state. *)
Theorem runLoop_fuel {W} (host : Host W) (fuel fuel' : nat) (config : AgentLoopConfig) (s : RunState W) :
  fuel <= fuel' -> fst (runLoop host fuel config s) <> Ok None ->
  runLoop host fuel' config s = runLoop host fuel config s.
Proof.
  intros Hle. unfold runLoop, bind. destruct (callback_list _ s) as [[ms|e] s1]; [|done].
  by apply loop_fuel.
Qed.

(** ** A scripted run

    The provider answers the prompt with two concurrent reads, the second of
    which never settles, and then with a text. *)

Definition read_call (callId path : string) : LoopBlock :=
  CallBlock {| atc_id := callId; atc_name := "read"; atc_arguments := JObject [("path", JString path)] |}.

Definition scripted_answer (turn : nat) : AssistantMessage :=
  match turn with
  | O => sample_message [read_call "r1" "src/a.ts"; read_call "slow" "src/b.ts"]
  | _ => {| am_content := [PlainBlock (JObject [("type", JString "text"); ("text", JString "done")])];
            am_stopReason := "stop"; am_rest := JObject [] |}
  end.

Definition scripted_response (turn : nat) : StreamResponse (bool * nat) :=
  {| stream_events := [fun w => (Ok (ev_start (sample_message [])), w); fun w => (Ok ev_done, w)];
     stream_result := fun w => (Ok (scripted_answer turn), w) |}.

(** The world: whether the run is aborted, and the requests so far. *)
Definition scripted_host : Host (bool * nat) :=
  {| aborted_now := fst; abort_first := fun _ => false; date_now := fun w => (0%Q, w);
     num_str := fun _ => "50"; sink := fun _ w => (Ok tt, w); tool_start := fun _ _ _ w => w;
     tool_settle := fun callId ms w =>
       let '(updates, race, b) := sample_settle callId ms (fst w) in (updates, race, (b, snd w));
     promise_settled := fun _ _ => false; validateToolArguments := fun _ c => Ok (atc_arguments c);
     beforeToolCall := None; afterToolCall := None; transformContext := None;
     convertToLlm := fun _ w => (Ok JNull, w); getApiKey := None;
     streamFunction := fun _ w => (Ok (scripted_response (snd w)), (fst w, S (snd w)));
     getSteeringMessages := None; getFollowUpMessages := None; prepareNextTurn := None;
     shouldStopAfterTurn := None; pick := fun l _ => default 0 (last l) |}.

Lemma scripted_laws : signal_laws scripted_host.
Proof.
  split; simpl; try done.
  - intros callId ms w u w'. unfold sample_settle. destruct ms as [| |q]; simpl; repeat case_match; try done;
      simplify_eq; try done. intros _. exists q. split; [done|]. by destruct (Qle_bool q 0).
  - by intros w.
  - by intros e w.
  - by intros t callId args w.
  - intros callId ms [b n] Hw. simpl in *. subst b. unfold sample_settle. by repeat case_match; simplify_eq.
Qed.

Definition scripted_config : AgentLoopConfig :=
  {| model := JObject [("api", JString "messages"); ("provider", JString "local"); ("id", JString "m")];
     reasoning := None; apiKey := None; toolExecution := None; AgentTypes.toolTimeoutMs := None;
     toolTimeouts := None; toolScheduler := None; maxToolConcurrency := None;
     cfg_strictExtensionClaims := false; cfg_cwd := None; cfg_resourceKeyResolver := None;
     process_cwd := "/work"; HOME := None |}.

Definition scripted_context : AgentContext :=
  {| systemPrompt := "You are an agent."; messages := []; tools := [sample_tool "read"] |}.

Definition prompt (text : string) : LoopMessage := Other "user" (JString text).

Abbreviation scripted_run :=
  (runAgentLoop scripted_host 5 [prompt "read both"] scripted_context scripted_config
    (initial_run (false, 0) scripted_context)).

Lemma turn_leaves_no_call_open_witness :
  signal_laws scripted_host /\
  match (m <-! assistant_phase scripted_host scripted_config ;;
         phase <-! tool_phase scripted_host scripted_config m ;; ret (m, phase))
        (initial_run (false, 0) scripted_context) with
  | (Ok (m, phase), s') => length (phase_results phase) = 2 /\
      map toolCallId (phase_results phase) ≡ₚ map atc_id (toolCalls_of m)
  | (Err _, _) => False
  end.
Proof.
  split; [apply scripted_laws|].
  pose proof (turn_leaves_no_call_open scripted_host scripted_config (initial_run (false, 0) scripted_context)
    scripted_laws) as H.
  destruct (bind _ _ _) as [[[m phase]|e] s'] eqn:E; [|by vm_compute in E].
  destruct H as (_ & Hp & _). split; [|exact Hp]. vm_compute in E. by simplify_eq.
Defined.

Lemma requests_are_well_formed_witness :
  signal_laws scripted_host /\ length (requested (snd scripted_run)) = 2 /\
  Forall (fun ms => NoDup (call_ids (map view ms)) /\ balanced (map view ms)) (requested (snd scripted_run)).
Proof.
  split; [apply scripted_laws|]. split; [by vm_compute|].
  apply (requests_are_well_formed scripted_host 5), scripted_laws.
Defined.

Lemma run_returns_what_it_announced_witness :
  exists ms s, scripted_run = (Ok (Some ms), s) /\ length ms = 5 /\ ms = committed (published s) /\
    ms = newMessages s.
Proof.
  destruct scripted_run as [[[ms|]|e] s] eqn:E; [|by vm_compute in E..].
  exists ms, s. split; [reflexivity|]. split; [vm_compute in E; by simplify_eq|].
  apply (run_returns_what_it_announced scripted_host 5 [prompt "read both"] scripted_context scripted_config
           (false, 0)); [apply scripted_laws|]. exact E.
Defined.

Lemma planFailureTermination_sound_witness :
  model_plain (model scripted_config) /\
  exists plan, planFailureTermination (fun _ => 0%Q) [Assistant (scripted_answer 0)] (model scripted_config) "offline" false
    = Ok plan /\ length (plan_closureResults plan) = 2 /\ ok (inspect_messages (plan_messages plan)) = true.
Proof.
  assert (Hm : model_plain (model scripted_config)) by (by repeat constructor). split; [exact Hm|].
  destruct (planFailureTermination_sound (fun _ => 0%Q) [Assistant (scripted_answer 0)] (model scripted_config)
              "offline" false Hm) as (plan & Hp & H).
  exists plan. split; [exact Hp|]. vm_compute in Hp. injection Hp as <-. by vm_compute in H |- *.
Defined.

Lemma agentLoop_settles_witness :
  signal_laws scripted_host /\ model_plain (model scripted_config) /\
  match agentLoop scripted_host (fun _ => 0%Q) 5 [prompt "read both"] scripted_context scripted_config (false, 0) with
  | Ok (Some stream) => stream_done stream = true
  | _ => False
  end.
Proof.
  assert (Hm : model_plain (model scripted_config)) by (by repeat constructor).
  split; [apply scripted_laws|]. split; [exact Hm|].
  pose proof (agentLoop_settles scripted_host (fun _ => 0%Q) 5 [prompt "read both"] scripted_context scripted_config
    (false, 0) scripted_laws Hm) as H.
  set (outcome := agentLoop _ _ _ _ _ _ _) in H |- *.
  assert (E : match outcome with
              | Ok (Some _) => true
              | _ => false
              end = true) by (vm_compute; reflexivity).
  destruct outcome as [[stream|]|e]; [apply H|discriminate E|discriminate E].
Defined.

Lemma runLoop_fuel_witness :
  3 <= 10 /\
  runLoop scripted_host 10 scripted_config (initial_run (false, 0) scripted_context)
  = runLoop scripted_host 3 scripted_config (initial_run (false, 0) scripted_context).
Proof.
  split; [lia|]. apply runLoop_fuel; [lia|]. by vm_compute.
Defined.
