(* ===== verification/RunInvariant.v ===== *)
(** * Invariants of a run

    A relation between the world and the events published so far that every
    callback keeps, and that the sink extends by the event it is given, holds
    throughout a run: the loop reaches the world through its callbacks only.
    [kept] is the frame condition of a callback, [invariant] the conclusion for
    a part of the loop, whether it returns or throws. *)

From Stdlib Require Import String ZArith QArith.
From stdpp Require Import base list option strings.
From S2P Require Import Prelude JsString JsValue PlainData Program ToolBatchWaves ResourceClaims DagScheduler.
From S2P Require Import TranscriptIntegrity AgentTypes AgentEffects ToolExecution ToolBatch AgentLoop.

Open Scope nat_scope.
Open Scope string_scope.
Open Scope list_scope.
Open Scope prog_scope.

(** ** Every callback *)

Definition on_option {X : Type} (Q : X -> Prop) (o : option X) : Prop :=
  match o with
  | Some x => Q x
  | None => True
  end.

Lemma on_option_inv {X} (Q : X -> Prop) (o : option X) (x : X) : on_option Q o -> o = Some x -> Q x.
Proof. by intros H ->. Qed.

Lemma on_option_impl {X} (Q Q' : X -> Prop) (o : option X) :
  (forall x, Q x -> Q' x) -> on_option Q o -> on_option Q' o.
Proof. destruct o; simpl; auto. Qed.

(** The callbacks of a host but its sink have the property [Q]. *)
Record each_callback {W : Type} (Q : forall A, (W -> A * W) -> Prop) (host : Host W) : Prop := {
  ec_date : Q _ (date_now host);
  ec_start : forall t id args, Q _ (fun w => (tt, tool_start host t id args w));
  ec_settle : forall id ms, Q _ (tool_settle host id ms);
  ec_before : on_option (fun hook => forall m c args ctx, Q _ (hook m c args ctx)) (beforeToolCall host);
  ec_after : on_option (fun hook => forall m c args r isErr ctx, Q _ (hook m c args r isErr ctx))
               (afterToolCall host);
  ec_transform : on_option (fun f => forall ms, Q _ (f ms)) (transformContext host);
  ec_convert : forall ms, Q _ (convertToLlm host ms);
  ec_key : on_option (fun f => forall provider, Q _ (f provider)) (getApiKey host);
  ec_request : forall r, Q _ (streamFunction host r);
  ec_stream : forall r w response, fst (streamFunction host r w) = Ok response ->
    Forall (Q _) (stream_events response) /\ Q _ (stream_result response);
  ec_steering : on_option (Q _) (getSteeringMessages host);
  ec_followUp : on_option (Q _) (getFollowUpMessages host);
  ec_prepare : on_option (fun f => forall tc, Q _ (f tc)) (prepareNextTurn host);
  ec_stop : on_option (fun f => forall tc, Q _ (f tc)) (shouldStopAfterTurn host);
}.

Section Invariant.
Context {W : Type} (host : Host W) (P : W -> list AgentEvent -> Prop).

Abbreviation run := (prog (RunState W)).

Definition kept {A} (c : W -> A * W) : Prop := forall w es, P w es -> P (snd (c w)) es.

(** What the host keeps. The sink is only given events made of plain data. *)
Record host_keeps : Prop := {
  hk_each : each_callback (@kept) host;
  hk_sink : forall e w es, check_all (assertPlainData false) (event_values e) = Ok tt ->
    P w es -> P (snd (sink host e w)) (es ++ [e]);
}.

Definition state_ok (s : RunState W) : Prop := P (world s) (published s).

Definition invariant {A} (c : run A) : Prop := forall s, state_ok s -> state_ok (snd (c s)).

(** ** Rules *)

Lemma inv_ret {A} (a : A) : invariant (ret a).
Proof. by intros s Hs. Qed.

Lemma inv_get : invariant get.
Proof. by intros s Hs. Qed.

Lemma inv_throw {A} (e : string) : invariant (throw (A := A) e).
Proof. by intros s Hs. Qed.

Lemma inv_pure {A} (r : result string A) : invariant (pure_result r).
Proof. by intros s Hs. Qed.

Lemma inv_aborted : invariant (is_aborted host).
Proof. by intros s Hs. Qed.

Lemma inv_modify (f : RunState W -> RunState W) :
  (forall s, world (f s) = world s) -> (forall s, published (f s) = published s) -> invariant (modify f).
Proof. intros Hw Hp s Hs. unfold state_ok. simpl. by rewrite Hw, Hp. Qed.

Lemma inv_bind {A B} (c : run A) (k : A -> run B) :
  invariant c -> (forall a, invariant (k a)) -> invariant (bind c k).
Proof.
  intros Hc Hk s Hs. unfold bind. specialize (Hc s Hs). destruct (c s) as [[a|e] s']; [|done]. by apply Hk.
Qed.

Lemma inv_catch {A} (c : run A) (h : string -> run A) :
  invariant c -> (forall e, invariant (h e)) -> invariant (catch c h).
Proof.
  intros Hc Hh s Hs. unfold catch. specialize (Hc s Hs). destruct (c s) as [[a|e] s']; [done|]. by apply Hh.
Qed.

Lemma inv_for_each {A} (f : A -> run unit) (l : list A) :
  (forall a, invariant (f a)) -> invariant (for_each f l).
Proof. intros Hf. induction l; simpl; [apply inv_ret|by apply inv_bind]. Qed.

Lemma inv_map_prog {A B} (f : A -> run B) (l : list A) :
  (forall a, invariant (f a)) -> invariant (map_prog f l).
Proof.
  intros Hf. induction l as [|a l IH]; simpl; [apply inv_ret|].
  apply inv_bind; [done|]. intros b. apply inv_bind; [done|]. intros bs. apply inv_ret.
Qed.

Lemma inv_lift {A} (c : W -> result string A * W) : kept c -> invariant (lift c).
Proof.
  intros Hc s Hs. unfold lift. specialize (Hc _ _ Hs). by destruct (c (world s)).
Qed.

Lemma inv_lift_value {A} (c : W -> A * W) : kept c -> invariant (lift_value c).
Proof. intros Hc. apply inv_lift. intros w es Hw. specialize (Hc w es Hw). by destruct (c w). Qed.

Lemma inv_awaitWithAbort {A} (start : W -> result string A * W) :
  kept start -> invariant (awaitWithAbort host start).
Proof.
  intros Hc s Hs. unfold awaitWithAbort. destruct (aborted_now host (world s)); [done|].
  specialize (Hc _ _ Hs). destruct (start (world s)) as [r w].
  destruct (abort_first host w); [done|]. by destruct r.
Qed.

Lemma inv_promise_all {T A} (step : T -> run (T + A)) (steps : T -> nat) pick (ts : list (T + A)) :
  (forall t, invariant (step t)) -> invariant (Promise_all step steps pick ts).
Proof.
  intros Hstep. unfold Promise_all. generalize (sum_list (map (task_cost steps) ts)) as fuel.
  intros fuel. revert ts. induction fuel as [|fuel IH]; intros ts; simpl; [apply inv_ret|].
  destruct (unfinished ts) as [|first rest]; [apply inv_ret|].
  apply inv_bind; [apply inv_get|]. intros s. destruct (ts !! _) as [[t|a]|]; try apply inv_ret.
  apply inv_bind; [apply Hstep|]. intros x. apply IH.
Qed.

Context (hk : host_keeps).

Lemma inv_publish (e : AgentEvent) : invariant (publish host e).
Proof.
  intros s Hs. unfold publish, bind, pure_result, modify, lift.
  destruct (check_all _ _) as [[]|err] eqn:Hcheck; [|done]. simpl.
  pose proof (hk_sink hk e (world s) _ Hcheck Hs) as H. by destruct (sink host e (world s)).
Qed.

Lemma inv_date : invariant (Date_now host).
Proof. apply inv_lift_value, (ec_date _ _ (hk_each hk)). Qed.

Lemma inv_callback (c : option (W -> result string (list LoopMessage) * W)) :
  on_option kept c -> invariant (callback_list c).
Proof. destruct c; simpl; [apply inv_lift|intros; apply inv_ret]. Qed.

(** ** Every part of the loop *)

Ltac inv_step :=
  first
    [ simple apply inv_ret | simple apply inv_get | simple apply inv_throw | simple apply inv_pure
    | simple apply inv_aborted | simple apply inv_date | simple apply inv_publish
    | solve [auto 2 with run_inv]
    | simple apply inv_for_each; intros ? | simple apply inv_map_prog; intros ?
    | simple apply inv_catch; [|intros ?] | simple apply inv_bind; [|intros ?]
    | simple apply inv_promise_all; intros ?
    | simple apply inv_modify; [done|done]
    | simple apply inv_lift_value | simple apply inv_awaitWithAbort | simple apply inv_lift
    | case_match ].

Ltac run_keeps := repeat inv_step.

Create HintDb run_inv.

Lemma inv_authorize (config : AgentLoopConfig) (message : AssistantMessage) (plan : PlannedToolCall) :
  invariant (authorizePlannedToolCall host config message plan).
Proof.
  unfold authorizePlannedToolCall, authorize_attempt, run_beforeToolCall. run_keeps.
  intros w es Hw. unfold call_beforeToolCall. case_match; [|done].
  by apply (on_option_inv _ _ _ (ec_before _ _ (hk_each hk)) ltac:(eassumption)).
Qed.
#[local] Hint Resolve inv_authorize : run_inv.

Lemma inv_prepare (config : AgentLoopConfig) (message : AssistantMessage) (c : AgentToolCall) :
  invariant (prepareToolCall host config message c).
Proof. unfold prepareToolCall. run_keeps. Qed.
#[local] Hint Resolve inv_prepare : run_inv.

Lemma inv_emit_start (p : PreparedToolCall) : invariant (emitToolExecutionStart host p).
Proof. unfold emitToolExecutionStart. run_keeps. Qed.
#[local] Hint Resolve inv_emit_start : run_inv.

Lemma inv_run_start (p : PreparedToolCall) : invariant (runToolCall_start host p).
Proof. unfold runToolCall_start. run_keeps. apply (ec_start _ _ (hk_each hk)). Qed.
#[local] Hint Resolve inv_run_start : run_inv.

Lemma inv_run_settle (p : PreparedToolCall) : invariant (runToolCall_settle host p).
Proof.
  unfold runToolCall_settle, emit_update, publish_quietly. run_keeps. intros w es Hw.
  pose proof (ec_settle _ _ (hk_each hk) (atc_id (pr_toolCall p)) (pr_timeoutMs p) w es Hw) as H.
  by destruct (tool_settle host _ _ w) as [[] ?].
Qed.
#[local] Hint Resolve inv_run_settle : run_inv.

Lemma inv_finalize (message : AssistantMessage) (p : PreparedToolCall) (ex : ExecutedToolCallOutcome) :
  invariant (finalizeExecutedToolCall host message p ex).
Proof.
  unfold finalizeExecutedToolCall, run_afterToolCall. run_keeps.
  by apply (on_option_inv _ _ _ (ec_after _ _ (hk_each hk)) ltac:(eassumption)).
Qed.
#[local] Hint Resolve inv_finalize : run_inv.

Lemma inv_end (f : FinalizedToolCallOutcome) : invariant (emitToolExecutionEnd host f).
Proof. unfold emitToolExecutionEnd. run_keeps. Qed.
#[local] Hint Resolve inv_end : run_inv.

Lemma inv_result_message (f : FinalizedToolCallOutcome) : invariant (createToolResultMessage host f).
Proof. unfold createToolResultMessage. run_keeps. Qed.
#[local] Hint Resolve inv_result_message : run_inv.

Lemma inv_execute (p : PreparedToolCall) : invariant (executePreparedToolCall host p).
Proof. unfold executePreparedToolCall. run_keeps. Qed.
#[local] Hint Resolve inv_execute : run_inv.

Lemma inv_execution_step (message : AssistantMessage) (stage : ExecutionStage) :
  invariant (execution_step host message stage).
Proof. unfold execution_step. run_keeps. Qed.
#[local] Hint Resolve inv_execution_step : run_inv.

Lemma inv_emit_result (m : ToolResultMessage) : invariant (emitToolResultMessage host m).
Proof. unfold emitToolResultMessage. run_keeps. Qed.
#[local] Hint Resolve inv_emit_result : run_inv.

Lemma inv_push_context (m : LoopMessage) : invariant (push_context (W := W) m).
Proof. unfold push_context. run_keeps. Qed.

Lemma inv_push_new (m : LoopMessage) : invariant (push_new (W := W) m).
Proof. unfold push_new. run_keeps. Qed.
#[local] Hint Resolve inv_push_context inv_push_new : run_inv.

Lemma inv_commit_message (m : ToolResultMessage) : invariant (commit_message host m).
Proof. unfold commit_message. run_keeps. Qed.
#[local] Hint Resolve inv_commit_message : run_inv.

Lemma inv_element_at {A} (l : list A) (i : nat) : invariant (element_at (W := W) l i).
Proof. unfold element_at. run_keeps. Qed.
#[local] Hint Resolve inv_element_at : run_inv.

Section Batches.
Context (message : AssistantMessage).

Lemma inv_run_one (c : AgentToolCall) (r : ImmediateToolCallOutcome + PreparedToolCall) :
  invariant (run_one host message c r).
Proof. unfold run_one. run_keeps. Qed.
#[local] Hint Resolve inv_run_one : run_inv.

Lemma inv_sequential (config : AgentLoopConfig) (calls : list AgentToolCall) :
  invariant (executeToolCallsSequential host config message calls).
Proof.
  unfold executeToolCallsSequential.
  assert (forall fs ms, invariant (sequential_loop host config message calls fs ms)); [|run_keeps].
  induction calls as [|c calls IH]; intros fs ms; simpl; run_keeps.
Qed.
#[local] Hint Resolve inv_sequential : run_inv.

Lemma inv_parallel (config : AgentLoopConfig) (calls : list AgentToolCall) :
  invariant (executeToolCallsParallel host config message calls).
Proof.
  unfold executeToolCallsParallel, run_executions.
  assert (forall entries, invariant (prepare_loop host config message calls entries)).
  { induction calls as [|c calls' IH]; intros entries; simpl; run_keeps. }
  assert (forall fs ms, invariant (commit_loop host fs ms)); [|run_keeps].
  intros fs; induction fs as [|f fs IH]; intros ms; simpl; run_keeps.
Qed.
#[local] Hint Resolve inv_parallel : run_inv.

Lemma inv_waves (config : AgentLoopConfig) (calls : list AgentToolCall) (waves : list (list nat)) :
  invariant (executeToolCallsInWaves host config message calls waves).
Proof.
  unfold executeToolCallsInWaves.
  assert (forall ms ts, invariant (waves_loop host config message calls waves ms ts)); [|run_keeps].
  induction waves as [|wave waves IH]; intros ms ts; simpl; run_keeps.
Qed.
#[local] Hint Resolve inv_waves : run_inv.

Lemma inv_schedule (calls : list ClaimableToolCall) (options : ScheduleDagLevelsOptions) :
  invariant (schedule host calls options).
Proof. unfold schedule. apply inv_awaitWithAbort. by intros w es Hw. Qed.
#[local] Hint Resolve inv_schedule : run_inv.

Lemma inv_level (config : AgentLoopConfig) (level : list nat) (calls : list AgentToolCall)
    (plans : list (ImmediateToolCallOutcome + PlannedToolCall)) policies :
  invariant (runDagLevelCalls host config message level calls plans policies).
Proof.
  assert (forall os rs, invariant (authorize_loop host config message calls plans level os rs)).
  { induction level as [|i level' IH]; intros os rs; simpl; run_keeps. }
  assert (forall rs ls os, invariant (execution_levels host message rs ls os)).
  { intros rs ls; induction ls as [|l ls IH]; intros os; simpl; unfold run_executions; run_keeps. }
  unfold runDagLevelCalls. run_keeps.
Qed.
#[local] Hint Resolve inv_level : run_inv.

Lemma inv_dag (config : AgentLoopConfig) (calls : list AgentToolCall) :
  invariant (executeToolCallsDagLevels host config message calls).
Proof.
  assert (forall plans policies ls slots, invariant (levels_loop host config message calls plans policies ls slots)).
  { intros plans policies ls; induction ls as [|l ls IH]; intros slots; simpl; run_keeps. }
  assert (forall reason c slot, invariant (message_for host reason c slot)) by (intros; unfold message_for; run_keeps).
  unfold executeToolCallsDagLevels. run_keeps.
Qed.
#[local] Hint Resolve inv_dag : run_inv.

Lemma inv_execute_calls (config : AgentLoopConfig) : invariant (executeToolCalls host config message).
Proof. unfold executeToolCalls. run_keeps. Qed.

Lemma inv_close_batch (calls : list AgentToolCall) (existing : list ToolResultMessage) :
  invariant (closeAbortedToolBatch host calls existing).
Proof.
  unfold closeAbortedToolBatch. generalize (map toolCallId existing) as ids, (@nil ToolResultMessage) as ms.
  induction calls as [|c calls IH]; intros ids ms; simpl; run_keeps.
Qed.
End Batches.
#[local] Hint Resolve inv_execute_calls inv_close_batch : run_inv.

Lemma inv_finish_response (added : bool) (final : W -> result string AssistantMessage * W) :
  kept final -> invariant (finish_response host added final).
Proof. intros Hf. unfold finish_response, replace_context. run_keeps. Qed.

Lemma inv_stream_loop (pulls : list (W -> result string AssistantMessageEvent * W))
    (final : W -> result string AssistantMessage * W) (added : bool) :
  Forall kept pulls -> kept final -> invariant (stream_loop host pulls final added).
Proof.
  intros Hp Hf. revert added; induction Hp as [|pull pulls Hpull _ IH]; intros added; simpl.
  { by apply inv_finish_response. }
  unfold replace_context. apply inv_bind; [by apply inv_lift|]. intros event.
  pose proof (fun added => inv_finish_response added final Hf). run_keeps.
Qed.

Lemma inv_stream_response (config : AgentLoopConfig) : invariant (streamAssistantResponse host config).
Proof.
  assert (forall r, invariant (bind (lift (streamFunction host r))
            (fun response => stream_loop host (stream_events response) (stream_result response) false))).
  { intros r s Hs. unfold bind, lift. pose proof (ec_request _ _ (hk_each hk) r _ _ Hs) as Hw.
    pose proof (ec_stream _ _ (hk_each hk) r (world s)) as Hr.
    destruct (streamFunction host r (world s)) as [[response|e] w]; [|done].
    destruct (Hr response eq_refl). by apply inv_stream_loop. }
  unfold streamAssistantResponse, transformed_messages, resolvedApiKey, add_request. run_keeps.
  - by apply (on_option_inv _ _ _ (ec_transform _ _ (hk_each hk)) ltac:(eassumption)).
  - apply (ec_convert _ _ (hk_each hk)).
  - by apply (on_option_inv _ _ _ (ec_key _ _ (hk_each hk)) ltac:(eassumption)).
Qed.
#[local] Hint Resolve inv_stream_response : run_inv.

Lemma inv_assistant_phase (config : AgentLoopConfig) : invariant (assistant_phase host config).
Proof. unfold assistant_phase. run_keeps. Qed.
#[local] Hint Resolve inv_assistant_phase : run_inv.

Lemma inv_tool_phase (config : AgentLoopConfig) (message : AssistantMessage) :
  invariant (tool_phase host config message).
Proof.
  assert (forall reason d calls rs, invariant (terminate_loop host reason d calls rs)).
  { intros reason d calls; induction calls as [|c calls IH]; intros rs; simpl; run_keeps. }
  unfold tool_phase. run_keeps.
Qed.
#[local] Hint Resolve inv_tool_phase : run_inv.

Lemma inv_end_run : invariant (end_run host).
Proof. unfold end_run. run_keeps. Qed.
#[local] Hint Resolve inv_end_run : run_inv.

Lemma inv_turn_context (message : AssistantMessage) (rs : list ToolResultMessage) :
  invariant (turn_context (W := W) message rs).
Proof. unfold turn_context. run_keeps. Qed.
#[local] Hint Resolve inv_turn_context : run_inv.

Lemma inv_next_turn (config : AgentLoopConfig) (message : AssistantMessage) (rs : list ToolResultMessage) :
  invariant (next_turn host config message rs).
Proof.
  unfold next_turn. run_keeps. by apply (on_option_inv _ _ _ (ec_prepare _ _ (hk_each hk)) ltac:(eassumption)).
Qed.
#[local] Hint Resolve inv_next_turn : run_inv.

Lemma inv_steering : invariant (callback_list (getSteeringMessages host)).
Proof. apply inv_callback, (ec_steering _ _ (hk_each hk)). Qed.

Lemma inv_followUp : invariant (callback_list (getFollowUpMessages host)).
Proof. apply inv_callback, (ec_followUp _ _ (hk_each hk)). Qed.
#[local] Hint Resolve inv_steering inv_followUp : run_inv.

Lemma inv_run_turn (config : AgentLoopConfig) (first : bool) (pendingMessages : list LoopMessage) :
  invariant (run_turn host config first pendingMessages).
Proof.
  unfold run_turn, inject, after_turn. run_keeps.
  by apply (on_option_inv _ _ _ (ec_stop _ _ (hk_each hk)) ltac:(eassumption)).
Qed.
#[local] Hint Resolve inv_run_turn : run_inv.

Lemma inv_loop (fuel : nat) (config : AgentLoopConfig) (first more : bool) (pendingMessages : list LoopMessage) :
  invariant (loop_from host fuel config first more pendingMessages).
Proof.
  revert config first more pendingMessages; induction fuel as [|fuel IH];
    intros config first more pendingMessages; simpl; run_keeps.
Qed.
#[local] Hint Resolve inv_loop : run_inv.

(** An invariant of the callbacks is an invariant of a run. *)
Lemma runAgentLoop_invariant (fuel : nat) (prompts : list LoopMessage) (context : AgentContext)
    (config : AgentLoopConfig) : invariant (runAgentLoop host fuel prompts context config).
Proof. unfold runAgentLoop, emit_prompt, runLoop, returned. run_keeps. Qed.

Lemma runAgentLoopContinue_invariant (fuel : nat) (context : AgentContext) (config : AgentLoopConfig) :
  invariant (runAgentLoopContinue host fuel context config).
Proof. unfold runAgentLoopContinue, runLoop, returned. run_keeps. Qed.
End Invariant.
