(* ===== verification/Agent.v ===== *)
(** * The agent (packages/agent/src/agent.ts)

    The stateful class around the agent loop: the transcript and the run state
    that applications observe, the steering and follow-up queues, listeners,
    and the lifecycle of a run. The loop is AgentLoop's, over a world that holds
    the agent: its sink is [processEvents]. *)

From Stdlib Require Import String ZArith QArith.
From stdpp Require Import base list option strings gmap sets.
From S2P Require Import Prelude JsString JsValue PlainData Program ToolBatchWaves ResourceClaims.
From S2P Require Import TranscriptIntegrity AgentTypes AgentEffects ToolExecution AgentLoop RunInvariant.

Open Scope nat_scope.
Open Scope string_scope.
Open Scope list_scope.
Open Scope prog_scope.

(** ** Queues *)

Inductive QueueMode : Type :=
| drain_all
| one_at_a_time.

Record PendingMessageQueue : Type := {
  queued : list LoopMessage;
  mode : QueueMode;
}.

Definition new_queue (m : QueueMode) : PendingMessageQueue := {| queued := []; mode := m |}.

Definition enqueue (message : LoopMessage) (q : PendingMessageQueue) : PendingMessageQueue :=
  {| queued := queued q ++ [message]; mode := mode q |}.

Definition hasItems (q : PendingMessageQueue) : bool := negb (length (queued q) =? 0)%nat.

Definition drain (q : PendingMessageQueue) : list LoopMessage * PendingMessageQueue :=
  match mode q with
  | drain_all => (queued q, {| queued := []; mode := mode q |})
  | one_at_a_time =>
      match queued q with
      | [] => ([], q)
      | first :: rest => ([first], {| queued := rest; mode := mode q |})
      end
  end.

Definition clear (q : PendingMessageQueue) : PendingMessageQueue := {| queued := []; mode := mode q |}.

Definition set_mode (m : QueueMode) (q : PendingMessageQueue) : PendingMessageQueue :=
  {| queued := queued q; mode := m |}.

(** ** State *)

Record AgentState : Type := {
  st_systemPrompt : string;
  st_model : jsval;
  st_thinkingLevel : string;
  st_tools : list AgentTool;
  st_messages : list LoopMessage;
  isStreaming : bool;
  streamingMessage : option LoopMessage;
  pendingToolCalls : gset string;
  errorMessage : option string;
}.

(** The mutable part of the state, as one value. *)
Definition update_state (st : AgentState) (ms : list LoopMessage) (streaming : bool)
    (partial : option LoopMessage) (pendingIds : gset string) (error : option string) : AgentState :=
  {| st_systemPrompt := st_systemPrompt st; st_model := st_model st; st_thinkingLevel := st_thinkingLevel st;
     st_tools := st_tools st; st_messages := ms; isStreaming := streaming; streamingMessage := partial;
     pendingToolCalls := pendingIds; errorMessage := error |}.

(** The options of the loop the agent keeps. *)
Record AgentSettings : Type := {
  s_toolExecution : ToolParallelPolicy;
  s_toolTimeoutMs : option jsnum;
  s_toolTimeouts : option (list (string * jsnum));
  s_toolScheduler : ToolSchedulerKind;
  s_maxToolConcurrency : option jsnum;
  s_strictExtensionClaims : bool;
  s_cwd : option string;
  s_resourceKeyResolver : option (string -> string -> option jsval);
}.

(** [activeRun]: whether the signal of the run is aborted. Listeners are
    functions, told apart by a number. *)
Record Agent : Type := {
  state : AgentState;
  steeringQueue : PendingMessageQueue;
  followUpQueue : PendingMessageQueue;
  activeRun : option bool;
  listeners : list nat;
  settings : AgentSettings;
}.

Definition with_state (st : AgentState) (a : Agent) : Agent :=
  {| state := st; steeringQueue := steeringQueue a; followUpQueue := followUpQueue a;
     activeRun := activeRun a; listeners := listeners a; settings := settings a |}.

Definition with_queues (steering followUp : PendingMessageQueue) (a : Agent) : Agent :=
  {| state := state a; steeringQueue := steering; followUpQueue := followUp;
     activeRun := activeRun a; listeners := listeners a; settings := settings a |}.

Definition with_active (r : option bool) (a : Agent) : Agent :=
  {| state := state a; steeringQueue := steeringQueue a; followUpQueue := followUpQueue a;
     activeRun := r; listeners := listeners a; settings := settings a |}.

Definition with_listeners (ls : list nat) (a : Agent) : Agent :=
  {| state := state a; steeringQueue := steeringQueue a; followUpQueue := followUpQueue a;
     activeRun := activeRun a; listeners := ls; settings := settings a |}.

Definition DEFAULT_MODEL : jsval :=
  let zero := JNumber (NumFin 0) in
  JObject [("id", JString "unknown"); ("name", JString "unknown"); ("api", JString "unknown");
           ("provider", JString "unknown"); ("baseUrl", JString ""); ("reasoning", JBool false);
           ("input", JArray []);
           ("cost", JObject [("input", zero); ("output", zero); ("cacheRead", zero); ("cacheWrite", zero)]);
           ("contextWindow", zero); ("maxTokens", zero)].

Record AgentOptions : Type := {
  init_systemPrompt : option string;
  init_model : option jsval;
  init_thinkingLevel : option string;
  init_tools : option (list AgentTool);
  init_messages : option (list LoopMessage);
  o_steeringMode : option QueueMode;
  o_followUpMode : option QueueMode;
  o_toolExecution : option ToolParallelPolicy;
  o_toolTimeoutMs : option jsnum;
  o_toolTimeouts : option (list (string * jsnum));
  o_toolScheduler : option ToolSchedulerKind;
  o_maxToolConcurrency : option jsnum;
  o_strictExtensionClaims : option bool;
  o_cwd : option string;
  o_resourceKeyResolver : option (string -> string -> option jsval);
}.

Definition createMutableAgentState (o : AgentOptions) : AgentState :=
  {| st_systemPrompt := default "" (init_systemPrompt o); st_model := default DEFAULT_MODEL (init_model o);
     st_thinkingLevel := default "off" (init_thinkingLevel o); st_tools := default [] (init_tools o);
     st_messages := default [] (init_messages o); isStreaming := false; streamingMessage := None;
     pendingToolCalls := ∅; errorMessage := None |}.

Definition new_agent (o : AgentOptions) : Agent :=
  {| state := createMutableAgentState o;
     steeringQueue := new_queue (default one_at_a_time (o_steeringMode o));
     followUpQueue := new_queue (default one_at_a_time (o_followUpMode o));
     activeRun := None; listeners := [];
     settings :=
       {| s_toolExecution := default Parallel (o_toolExecution o); s_toolTimeoutMs := o_toolTimeoutMs o;
          s_toolTimeouts := o_toolTimeouts o; s_toolScheduler := default waves_v1 (o_toolScheduler o);
          s_maxToolConcurrency := o_maxToolConcurrency o;
          s_strictExtensionClaims := default false (o_strictExtensionClaims o); s_cwd := o_cwd o;
          s_resourceKeyResolver := o_resourceKeyResolver o |} |}.

(** ** What an application may do at any time *)

Definition subscribe (l : nat) (a : Agent) : Agent :=
  if bool_decide (l ∈ listeners a) then a else with_listeners (listeners a ++ [l]) a.

Definition unsubscribe (l : nat) (a : Agent) : Agent :=
  with_listeners (List.filter (fun l' => negb (l' =? l)%nat) (listeners a)) a.

Definition steer (m : LoopMessage) (a : Agent) : Agent :=
  with_queues (enqueue m (steeringQueue a)) (followUpQueue a) a.

Definition followUp (m : LoopMessage) (a : Agent) : Agent :=
  with_queues (steeringQueue a) (enqueue m (followUpQueue a)) a.

Definition clearSteeringQueue (a : Agent) : Agent := with_queues (clear (steeringQueue a)) (followUpQueue a) a.

Definition clearFollowUpQueue (a : Agent) : Agent := with_queues (steeringQueue a) (clear (followUpQueue a)) a.

Definition clearAllQueues (a : Agent) : Agent := clearFollowUpQueue (clearSteeringQueue a).

Definition hasQueuedMessages (a : Agent) : bool := hasItems (steeringQueue a) || hasItems (followUpQueue a).

Definition set_steeringMode (m : QueueMode) (a : Agent) : Agent :=
  with_queues (set_mode m (steeringQueue a)) (followUpQueue a) a.

Definition set_followUpMode (m : QueueMode) (a : Agent) : Agent :=
  with_queues (steeringQueue a) (set_mode m (followUpQueue a)) a.

Definition abort (a : Agent) : Agent :=
  with_active match activeRun a with
              | Some _ => Some true
              | None => None
              end a.

Definition reset (a : Agent) : Agent :=
  let st := state a in
  clearSteeringQueue (clearFollowUpQueue (with_state (update_state st [] false None ∅ None) a)).

(** ** Events *)

(** [event.message.errorMessage], when truthy. *)
Definition failure_text (m : LoopMessage) : option string :=
  match m with
  | Assistant m =>
      match get_prop "errorMessage" (am_rest m) with
      | JString s => if is_empty s then None else Some s
      | _ => None
      end
  | _ => None
  end.

(** The [switch] of [processEvents]. *)
Definition reduce_event (e : AgentEvent) (st : AgentState) : AgentState :=
  let keep := update_state st (st_messages st) (isStreaming st) in
  match e with
  | message_start m | message_update m _ => keep (Some m) (pendingToolCalls st) (errorMessage st)
  | message_end m =>
      update_state st (st_messages st ++ [m]) (isStreaming st) None (pendingToolCalls st) (errorMessage st)
  | tool_execution_start id _ _ =>
      keep (streamingMessage st) (pendingToolCalls st ∪ {[ id ]}) (errorMessage st)
  | tool_execution_end id _ _ _ =>
      keep (streamingMessage st) (pendingToolCalls st ∖ {[ id ]}) (errorMessage st)
  | turn_end m _ =>
      match failure_text m with
      | Some text => keep (streamingMessage st) (pendingToolCalls st) (Some text)
      | None => st
      end
  | agent_end _ => keep None (pendingToolCalls st) (errorMessage st)
  | _ => st
  end.

(** ** The world of a run

    [skipInitialSteeringPoll] is the variable [createLoopConfig] closes over;
    [processed] records the events the agent has processed. *)

Record AgentWorld (W : Type) : Type := {
  self : Agent;
  skipInitialSteeringPoll : bool;
  processed : list AgentEvent;
  outer : W;
}.
Arguments self {W} a.
Arguments skipInitialSteeringPoll {W} a.
Arguments processed {W} a.
Arguments outer {W} a.

Definition set_self {W} (a : Agent) (w : AgentWorld W) : AgentWorld W :=
  {| self := a; skipInitialSteeringPoll := skipInitialSteeringPoll w; processed := processed w; outer := outer w |}.

Definition set_skip {W} (b : bool) (w : AgentWorld W) : AgentWorld W :=
  {| self := self w; skipInitialSteeringPoll := b; processed := processed w; outer := outer w |}.

Definition add_processed {W} (e : AgentEvent) (w : AgentWorld W) : AgentWorld W :=
  {| self := self w; skipInitialSteeringPoll := skipInitialSteeringPoll w; processed := processed w ++ [e];
     outer := outer w |}.

(** What surrounds the agent: time, provider, tools and hooks ([base], whose
    sink, queues and turn hooks the agent replaces), what each listener does,
    the hook [prepareNextTurn], and the process. *)
Record AgentEnvironment (W : Type) : Type := {
  base : Host (AgentWorld W);
  listen : nat -> AgentEvent -> AgentWorld W -> result string unit * AgentWorld W;
  hook_prepareNextTurn : option (AgentWorld W -> result string (option AgentLoopTurnUpdate) * AgentWorld W);
  env_cwd : string;
  env_HOME : option string;
}.
Arguments base {W} a.
Arguments listen {W} a l e w.
Arguments hook_prepareNextTurn {W} a.
Arguments env_cwd {W} a.
Arguments env_HOME {W} a.

Section Agent.
Context {W : Type} (env : AgentEnvironment W).

Abbreviation world := (AgentWorld W).

Definition change (f : Agent -> Agent) : prog world unit := fun w => (Ok tt, set_self (f (self w)) w).

(** Listeners are awaited one by one; those of an update are detached, and
    what they throw is dropped. *)
Definition deliver (e : AgentEvent) : prog world unit :=
  w <-! get ;;
  for_each (fun l => listen env l e) (listeners (self w)).

Definition deliver_detached (e : AgentEvent) : prog world unit :=
  w <-! get ;;
  for_each (fun l => catch (listen env l e) (fun _ => ret tt)) (listeners (self w)).

Definition processEvents (e : AgentEvent) : prog world unit :=
  do! pure_result (check_all (assertPlainData false) (event_values e)) ;;
  do! change (fun a => with_state (reduce_event e (state a)) a) ;;
  do! (fun w => (Ok tt, add_processed e w)) ;;
  w <-! get ;;
  match activeRun (self w) with
  | None => throw "Agent listener invoked outside active run"
  | Some _ =>
      match e with
      | tool_execution_update _ _ _ _ => deliver_detached e
      | _ => deliver e
      end
  end.

(** ** The configuration of a run *)

Definition createContextSnapshot (a : Agent) : AgentContext :=
  {| systemPrompt := st_systemPrompt (state a); messages := st_messages (state a); tools := st_tools (state a) |}.

Definition createLoopConfig (a : Agent) : AgentLoopConfig :=
  let s := settings a in
  {| model := st_model (state a);
     reasoning := if String.eqb (st_thinkingLevel (state a)) "off" then None
                  else Some (st_thinkingLevel (state a));
     apiKey := None; toolExecution := Some (s_toolExecution s); AgentTypes.toolTimeoutMs := s_toolTimeoutMs s;
     toolTimeouts := s_toolTimeouts s; toolScheduler := Some (s_toolScheduler s);
     maxToolConcurrency := s_maxToolConcurrency s; cfg_strictExtensionClaims := s_strictExtensionClaims s;
     cfg_cwd := s_cwd s; cfg_resourceKeyResolver := s_resourceKeyResolver s;
     process_cwd := env_cwd env; HOME := env_HOME env |}.

(** [getSteeringMessages] and [getFollowUpMessages] *)
Definition poll_steering (w : world) : result string (list LoopMessage) * world :=
  if skipInitialSteeringPoll w then (Ok [], set_skip false w)
  else let (ms, q) := drain (steeringQueue (self w)) in
       (Ok ms, set_self (with_queues q (followUpQueue (self w)) (self w)) w).

Definition poll_followUp (w : world) : result string (list LoopMessage) * world :=
  let (ms, q) := drain (followUpQueue (self w)) in
  (Ok ms, set_self (with_queues (steeringQueue (self w)) q (self w)) w).

Definition signal_aborted (w : world) : bool := default false (activeRun (self w)).

Definition agent_host : Host world :=
  {| aborted_now := signal_aborted; abort_first := fun w => signal_aborted w && abort_first (base env) w;
     date_now := date_now (base env); num_str := num_str (base env); sink := processEvents;
     tool_start := tool_start (base env); tool_settle := tool_settle (base env);
     promise_settled := promise_settled (base env); validateToolArguments := validateToolArguments (base env);
     beforeToolCall := beforeToolCall (base env); afterToolCall := afterToolCall (base env);
     transformContext := transformContext (base env); convertToLlm := convertToLlm (base env);
     getApiKey := getApiKey (base env); streamFunction := streamFunction (base env);
     getSteeringMessages := Some poll_steering; getFollowUpMessages := Some poll_followUp;
     prepareNextTurn := match hook_prepareNextTurn env with
                        | Some hook => Some (fun _ => hook)
                        | None => None
                        end;
     shouldStopAfterTurn := None; pick := pick (base env) |}.

(** ** The lifecycle of a run *)

Definition start_run (a : Agent) : Agent :=
  let st := state a in
  with_active (Some false)
    (with_state (update_state st (st_messages st) true None (pendingToolCalls st) None) a).

Definition finishRun (a : Agent) : Agent :=
  let st := state a in
  with_active None (with_state (update_state st (st_messages st) false None ∅ (errorMessage st)) a).

Definition handleRunFailure (now : nat -> Q) (error : string) (aborted : bool) : prog world unit :=
  w <-! get ;;
  plan <-! pure_result (planFailureTermination now (st_messages (state (self w))) (st_model (state (self w)))
                          error aborted) ;;
  for_each processEvents (failure_events plan).

(** A run that is still going on answers [None], and keeps the agent. *)
Definition finally {A} (c : prog world (option A)) (cleanup : Agent -> Agent) : prog world (option A) := fun w =>
  match c w with
  | (Ok None, w') => (Ok None, w')
  | (r, w') => (r, set_self (cleanup (self w')) w')
  end.

Definition runWithLifecycle (now : nat -> Q) (executor : prog world (option (list LoopMessage)))
    : prog world (option unit) :=
  w <-! get ;;
  match activeRun (self w) with
  | Some _ => throw "Agent is already processing."
  | None =>
      do! change start_run ;;
      finally
        (catch
          (o <-! executor ;;
           ret match o with
               | Some _ => Some tt
               | None => None
               end)
          (fun e =>
             w <-! get ;;
             do! handleRunFailure now e (signal_aborted w) ;;
             ret (Some tt)))
        finishRun
  end.

Definition in_world {A} (c : prog (RunState world) A) (context : AgentContext) : prog world A := fun w =>
  let (r, s) := c (initial_run w context) in (r, AgentTypes.world s).

Definition runPromptMessages (fuel : nat) (now : nat -> Q) (ms : list LoopMessage) (skip : bool)
    : prog world (option unit) :=
  runWithLifecycle now (
    w <-! get ;;
    do! (fun w => (Ok tt, set_skip skip w)) ;;
    let context := createContextSnapshot (self w) in
    in_world (runAgentLoop agent_host fuel ms context (createLoopConfig (self w))) context).

Definition runContinuation (fuel : nat) (now : nat -> Q) : prog world (option unit) :=
  runWithLifecycle now (
    w <-! get ;;
    do! (fun w => (Ok tt, set_skip false w)) ;;
    let context := createContextSnapshot (self w) in
    in_world (runAgentLoopContinue agent_host fuel context (createLoopConfig (self w))) context).

(** ** Entry points *)

Inductive PromptInput : Type :=
| TextPrompt (input : string) (images : list jsval)
| MessagePrompt (message : LoopMessage)
| BatchPrompt (ms : list LoopMessage).

Definition user_message (content : list jsval) (timestamp : Q) : LoopMessage :=
  Other "user" (JObject [("content", JArray content); ("timestamp", JNumber (NumFin timestamp))]).

Definition text_block (text : string) : jsval := JObject [("type", JString "text"); ("text", JString text)].

(** [Date.now()] *)
Definition time_now : prog world Q := fun w => let (q, w) := date_now (base env) w in (Ok q, w).

Definition normalizePromptInput (input : PromptInput) : prog world (list LoopMessage) :=
  match input with
  | BatchPrompt ms => ret ms
  | MessagePrompt m => ret [m]
  | TextPrompt text images =>
      timestamp <-! time_now ;;
      ret [user_message (text_block text :: images) timestamp]
  end.

Definition prompt (fuel : nat) (now : nat -> Q) (input : PromptInput) : prog world (option unit) :=
  w <-! get ;;
  match activeRun (self w) with
  | Some _ =>
      throw ("Agent is already processing a prompt. Use steer() or followUp() to queue messages, "
             ++ "or wait for completion.")%string
  | None =>
      ms <-! normalizePromptInput input ;;
      runPromptMessages fuel now ms false
  end.

Definition take_steering : prog world (list LoopMessage) := fun w =>
  let (ms, q) := drain (steeringQueue (self w)) in
  (Ok ms, set_self (with_queues q (followUpQueue (self w)) (self w)) w).

Definition take_followUps : prog world (list LoopMessage) := poll_followUp.

Definition continue (fuel : nat) (now : nat -> Q) : prog world (option unit) :=
  w <-! get ;;
  match activeRun (self w), last (st_messages (state (self w))) with
  | Some _, _ => throw "Agent is already processing. Wait for completion before continuing."
  | None, None => throw "No messages to continue from"
  | None, Some (Assistant m) =>
      queuedSteering <-! take_steering ;;
      if negb (length queuedSteering =? 0)%nat then runPromptMessages fuel now queuedSteering true
      else
        queuedFollowUps <-! take_followUps ;;
        if negb (length queuedFollowUps =? 0)%nat then runPromptMessages fuel now queuedFollowUps false
        else if has_tool_call (Assistant m) then
          throw ("Cannot continue: the last assistant message has pending tool calls without results. "
                 ++ "Provide tool results (or a new user message) before continuing.")%string
        else
          timestamp <-! time_now ;;
          runPromptMessages fuel now [user_message [text_block ""] timestamp] false
  | None, Some _ => runContinuation fuel now
  end.

Inductive Entry : Type :=
| Prompt (input : PromptInput)
| Continue.

Definition enter (fuel : nat) (now : nat -> Q) (entry : Entry) : prog world (option unit) :=
  match entry with
  | Prompt input => prompt fuel now input
  | Continue => continue fuel now
  end.
End Agent.

(** ** What callbacks may do to the agent

    During a run, listeners, hooks and tools may queue messages, empty the
    queues, change how they are drained and abort; the fields of the class that
    record a run are private. *)

Inductive Command : Type :=
| Steer (m : LoopMessage)
| FollowUp (m : LoopMessage)
| ClearSteering
| ClearFollowUp
| SteeringMode (m : QueueMode)
| FollowUpMode (m : QueueMode)
| Abort.

Definition run_command (a : Agent) (c : Command) : Agent :=
  match c with
  | Steer m => steer m a
  | FollowUp m => followUp m a
  | ClearSteering => clearSteeringQueue a
  | ClearFollowUp => clearFollowUpQueue a
  | SteeringMode m => set_steeringMode m a
  | FollowUpMode m => set_followUpMode m a
  | Abort => abort a
  end.

Definition polite {W} (A : Type) (c : AgentWorld W -> A * AgentWorld W) : Prop :=
  forall w, processed (snd (c w)) = processed w /\
    exists commands, self (snd (c w)) = foldl run_command (self w) commands.

Record environment_laws {W} (env : AgentEnvironment W) : Prop := {
  el_each : each_callback polite (base env);
  el_listen : forall l e, polite _ (listen env l e);
  el_prepare : on_option (polite _) (hook_prepareNextTurn env);
  el_timer : forall id ms w updates w',
    tool_settle (base env) id ms w = (updates, TimerWon, w') -> exists q, ms = NumFin q /\ Qle_bool q 0 = false;
}.

(** Listeners that never throw. *)
Definition reliable {W} (env : AgentEnvironment W) : Prop := forall l e w, fst (listen env l e w) = Ok tt.

(** What a command leaves alone: all of the state, and that a run is active or
    aborted. *)
Record same_run (a a' : Agent) : Prop := {
  sr_state : state a' = state a;
  sr_active : is_Some (activeRun a') <-> is_Some (activeRun a);
  sr_aborted : activeRun a = Some true -> activeRun a' = Some true;
}.

Lemma same_run_refl (a : Agent) : same_run a a.
Proof. done. Qed.

Lemma same_run_trans (a b c : Agent) : same_run a b -> same_run b c -> same_run a c.
Proof.
  intros [S1 A1 B1] [S2 A2 B2]. split; [by rewrite S2|by rewrite A2|auto].
Qed.

Lemma commands_same_run (a : Agent) (commands : list Command) : same_run a (foldl run_command a commands).
Proof.
  revert a; induction commands as [|c commands IH]; intros a; simpl; [done|].
  eapply same_run_trans; [|apply IH]. destruct c; try done. unfold abort; split; simpl; [done| |].
  - by destruct (activeRun a).
  - by intros ->.
Qed.

(** The same of worlds: nothing is processed either. *)
Definition same_world {W} (w w' : AgentWorld W) : Prop :=
  processed w' = processed w /\ same_run (self w) (self w').

Lemma same_world_trans {W} (w w1 w2 : AgentWorld W) : same_world w w1 -> same_world w1 w2 -> same_world w w2.
Proof. intros [P1 R1] [P2 R2]. split; [by rewrite P2|by eapply same_run_trans]. Qed.

Lemma polite_same {W A} (c : AgentWorld W -> A * AgentWorld W) (w : AgentWorld W) :
  polite A c -> same_world w (snd (c w)).
Proof. intros Hc. destruct (Hc w) as (Hp & cs & Hs). split; [done|]. rewrite Hs. apply commands_same_run. Qed.

Section Laws.
Context {W : Type} (env : AgentEnvironment W) (laws : environment_laws env).

Abbreviation world := (AgentWorld W).

Lemma deliver_same (e : AgentEvent) (w : world) : same_world w (snd (deliver env e w)).
Proof.
  unfold deliver, bind, get. generalize (listeners (self w)) as ls. intros ls.
  revert w; induction ls as [|l ls IH]; intros w; simpl; [done|]. unfold bind.
  pose proof (polite_same _ w (el_listen env laws l e)) as H.
  destruct (listen env l e w) as [[[]|err] w']; [|done]. eapply same_world_trans; [exact H|apply IH].
Qed.

Lemma deliver_detached_same (e : AgentEvent) (w : world) :
  same_world w (snd (deliver_detached env e w)) /\ fst (deliver_detached env e w) = Ok tt.
Proof.
  unfold deliver_detached. unfold bind at 1 2, get. generalize (listeners (self w)) as ls. intros ls.
  revert w; induction ls as [|l ls IH]; intros w; simpl; [done|]. unfold bind, catch, ret.
  pose proof (polite_same _ w (el_listen env laws l e)) as H.
  destruct (listen env l e w) as [[[]|err] w']; (split; [eapply same_world_trans; [exact H|]|]); apply IH.
Qed.

(** ** An event, processed *)

Definition reduced (e : AgentEvent) (w : world) : world :=
  add_processed e (set_self (with_state (reduce_event e (state (self w))) (self w)) w).

Lemma processEvents_same (e : AgentEvent) (w : world) :
  check_all (assertPlainData false) (event_values e) = Ok tt ->
  same_world (reduced e w) (snd (processEvents env e w)).
Proof.
  intros Hcheck. unfold processEvents. rewrite Hcheck. unfold bind, pure_result, change, get, throw.
  fold (reduced e w). destruct (activeRun (self (reduced e w))); [|done].
  destruct e; try apply deliver_same; apply deliver_detached_same.
Qed.

Lemma processEvents_reliable (e : AgentEvent) (w : world) :
  reliable env -> is_Some (activeRun (self w)) ->
  check_all (assertPlainData false) (event_values e) = Ok tt -> fst (processEvents env e w) = Ok tt.
Proof.
  intros Hr [b Hb] Hcheck. unfold processEvents. rewrite Hcheck. unfold bind, pure_result, change, get. simpl.
  rewrite Hb.
  assert (Hd : forall w, fst (deliver env e w) = Ok tt).
  { clear -Hr. intros w. unfold deliver, bind, get. generalize (listeners (self w)) as ls. intros ls.
    revert w; induction ls as [|l ls IH]; intros w; simpl; [done|]. unfold bind.
    specialize (Hr l e w). destruct (listen env l e w) as [[[]|err] w']; [|done]. apply IH. }
  destruct e; try apply Hd; apply deliver_detached_same.
Qed.
End Laws.

(** ** The state reflects the events *)

Definition starts_call (id : string) (e : AgentEvent) : bool :=
  match e with
  | tool_execution_start id' _ _ => String.eqb id id'
  | _ => false
  end.

Definition ends_call (id : string) (e : AgentEvent) : bool :=
  match e with
  | tool_execution_end id' _ _ _ => String.eqb id id'
  | _ => false
  end.

(** The call was started and has not ended since. *)
Definition open_call (id : string) (es : list AgentEvent) : Prop :=
  exists before e after, es = before ++ e :: after /\ starts_call id e = true /\
    Forall (fun e => ends_call id e = false) after.

Lemma open_call_nil (id : string) : ~ open_call id [].
Proof. intros (before & e & after & H & _). by destruct before. Qed.

Lemma open_call_snoc (id : string) (es : list AgentEvent) (e : AgentEvent) :
  open_call id (es ++ [e]) <-> starts_call id e = true \/ (open_call id es /\ ends_call id e = false).
Proof.
  split.
  - intros (before & e0 & after & H & Hs & Hn).
    destruct after as [|e' after' _] using rev_ind.
    + apply app_inj_tail in H as [-> ->]. by left.
    + rewrite app_comm_cons, app_assoc in H. apply app_inj_tail in H as [-> ->].
      apply Forall_app in Hn as [Hn He]. right. split; [by exists before, e0, after'|]. by inversion He.
  - intros [Hs|[(before & e0 & after & -> & Hs & Hn) He]].
    + exists es, e, []. by repeat constructor.
    + exists before, e0, (after ++ [e]). rewrite <- app_assoc. split_and!; [done..|].
      apply Forall_app. by repeat constructor.
Qed.

Definition message_plain (m : LoopMessage) : Prop :=
  check_all (assertPlainData false) (message_values m) = Ok tt.

(** [w] is reached from [w0] by the events [es], in an active run. *)
Record reflects {W} (w0 w : AgentWorld W) (es : list AgentEvent) : Prop := {
  rf_processed : processed w = processed w0 ++ es;
  rf_messages : st_messages (state (self w)) = st_messages (state (self w0)) ++ committed es;
  rf_pending : forall id, id ∈ pendingToolCalls (state (self w)) <-> open_call id es;
  rf_streaming : isStreaming (state (self w)) = true;
  rf_active : is_Some (activeRun (self w));
  rf_model : st_model (state (self w)) = st_model (state (self w0));
  rf_plain : Forall message_plain (committed es);
}.

Lemma reflects_same {W} (w0 w w' : AgentWorld W) (es : list AgentEvent) :
  reflects w0 w es -> same_world w w' -> reflects w0 w' es.
Proof.
  intros [H1 H2 H3 H4 H5 H6 H7] [Hp [Hs Ha _]].
  split; rewrite ?Hp, ?Hs; try done. by apply Ha.
Qed.

Lemma ended_plain (e : AgentEvent) :
  check_all (assertPlainData false) (event_values e) = Ok tt -> Forall message_plain (option_list (ended e)).
Proof. destruct e; simpl; try done. intros H. by repeat constructor. Qed.

Lemma reflects_reduced {W} (w0 w : AgentWorld W) (es : list AgentEvent) (e : AgentEvent) :
  check_all (assertPlainData false) (event_values e) = Ok tt ->
  reflects w0 w es -> reflects w0 (reduced e w) (es ++ [e]).
Proof.
  intros Hcheck [H1 H2 H3 H4 H5 H6 H7].
  assert (Hc : committed (es ++ [e]) = committed es ++ option_list (ended e)).
  { unfold committed. rewrite omap_app. simpl. by destruct (ended e). }
  split; simpl; rewrite ?Hc.
  - by rewrite H1, app_assoc.
  - destruct e; simpl; rewrite ?app_nil_r, ?H2, ?app_assoc; try done; case_match; simpl; by rewrite ?app_nil_r.
  - intros callId. rewrite open_call_snoc, <- H3.
    destruct e; simpl; try (naive_solver congruence); [case_match; simpl; naive_solver congruence|..].
    + destruct (String.eqb_spec callId id); set_solver.
    + destruct (String.eqb_spec callId id); set_solver.
  - destruct e; simpl; try done. by case_match.
  - done.
  - destruct e; simpl; try done. by case_match.
  - apply Forall_app. split; [done|]. by apply ended_plain.
Qed.

(** ** The host of the agent's loop *)

Section Host.
Context {W : Type} (env : AgentEnvironment W) (laws : environment_laws env).

Abbreviation world := (AgentWorld W).
Abbreviation host := (agent_host env).

Lemma keeps_abort_active {A} (c : world -> A * world) :
  (forall w, activeRun (self w) = Some true -> activeRun (self (snd (c w))) = Some true) -> keeps_abort host c.
Proof.
  intros Hc w. simpl. unfold signal_aborted. intros Ha. rewrite (Hc w); [done|].
  by destruct (activeRun (self w)) as [[]|].
Qed.

Lemma keeps_abort_polite {A} (c : world -> A * world) : polite A c -> keeps_abort host c.
Proof. intros Hc. apply keeps_abort_active. intros w. apply (polite_same _ _ Hc). Qed.

Lemma agent_host_laws : signal_laws host.
Proof.
  pose proof (el_each env laws) as each. split; simpl.
  - by intros w [? _]%andb_true_iff.
  - apply (el_timer env laws).
  - apply keeps_abort_polite, (ec_date _ _ each).
  - intros e. apply keeps_abort_active. intros w Ha.
    destruct (check_all (assertPlainData false) (event_values e)) as [[]|err] eqn:Hcheck.
    + by apply (processEvents_same env laws e w Hcheck).
    + unfold processEvents. by rewrite Hcheck.
  - intros t id args. apply keeps_abort_polite, (ec_start _ _ each).
  - intros id ms. apply keeps_abort_polite, (ec_settle _ _ each).
  - intros hook Hhook m c args ctx. apply keeps_abort_polite.
    by apply (on_option_inv _ _ _ (ec_before _ _ each) Hhook).
  - intros hook Hhook m c args r isErr ctx. apply keeps_abort_polite.
    by apply (on_option_inv _ _ _ (ec_after _ _ each) Hhook).
Qed.

Lemma poll_steering_same (w : world) : same_world w (snd (poll_steering w)).
Proof. unfold poll_steering. destruct (skipInitialSteeringPoll w); [done|]. by destruct (drain _). Qed.

Lemma poll_followUp_same (w : world) : same_world w (snd (poll_followUp w)).
Proof. unfold poll_followUp. by destruct (drain _). Qed.

Lemma agent_host_keeps (w0 : world) : host_keeps host (reflects w0).
Proof.
  assert (Hp : forall A (c : world -> A * world), polite A c -> kept (reflects w0) c).
  { intros A c Hc w es Hw. eapply reflects_same; [exact Hw|by apply polite_same]. }
  pose proof (el_each env laws) as each. split; [split|]; simpl.
  - apply Hp, (ec_date _ _ each).
  - intros. apply Hp, (ec_start _ _ each).
  - intros. apply Hp, (ec_settle _ _ each).
  - eapply on_option_impl; [|apply (ec_before _ _ each)]. auto.
  - eapply on_option_impl; [|apply (ec_after _ _ each)]. auto.
  - eapply on_option_impl; [|apply (ec_transform _ _ each)]. auto.
  - intros. apply Hp, (ec_convert _ _ each).
  - eapply on_option_impl; [|apply (ec_key _ _ each)]. auto.
  - intros. apply Hp, (ec_request _ _ each).
  - intros r w response Hr. destruct (ec_stream _ _ each r w response Hr) as [H1 H2].
    split; [|by apply Hp]. eapply Forall_impl; [exact H1|]. auto.
  - intros w es Hw. eapply reflects_same; [exact Hw|apply poll_steering_same].
  - intros w es Hw. eapply reflects_same; [exact Hw|apply poll_followUp_same].
  - pose proof (el_prepare env laws) as H. destruct (hook_prepareNextTurn env); [|done]. intros _. by apply Hp.
  - done.
  - intros e w es Hcheck Hw. eapply reflects_same; [by apply reflects_reduced|by apply processEvents_same].
Qed.

(** ** Events processed in order *)

Lemma process_reflects (w0 w : world) (es : list AgentEvent) (events : list AgentEvent) :
  reflects w0 w es ->
  exists es', reflects w0 (snd (for_each (processEvents env) events w)) (es ++ es').
Proof.
  revert w es; induction events as [|e events IH]; intros w es Hw; simpl.
  { exists []. by rewrite app_nil_r. }
  unfold bind. destruct (check_all (assertPlainData false) (event_values e)) as [[]|err] eqn:Hcheck.
  - assert (H : reflects w0 (snd (processEvents env e w)) (es ++ [e])).
    { eapply reflects_same; [by apply reflects_reduced|by apply processEvents_same]. }
    destruct (processEvents env e w) as [[[]|err] w']; [|by exists [e]].
    destruct (IH w' _ H) as [es' H']. exists (e :: es'). by rewrite <- app_assoc in H'.
  - exists []. rewrite app_nil_r. unfold processEvents. by rewrite Hcheck.
Qed.

(** With reliable listeners and plain events, all of them are processed. *)
Lemma process_all (w0 w : world) (es : list AgentEvent) (events : list AgentEvent) :
  reliable env -> Forall (fun e => check_all (assertPlainData false) (event_values e) = Ok tt) events ->
  reflects w0 w es ->
  exists w', for_each (processEvents env) events w = (Ok tt, w') /\ reflects w0 w' (es ++ events).
Proof.
  intros Hr He. revert w es; induction He as [|e events Hcheck _ IH]; intros w es Hw; simpl.
  { exists w. by rewrite app_nil_r. }
  unfold bind. pose proof (processEvents_reliable env laws e w Hr (rf_active _ _ _ Hw) Hcheck) as Hok.
  assert (H : reflects w0 (snd (processEvents env e w)) (es ++ [e])).
  { eapply reflects_same; [by apply reflects_reduced|by apply processEvents_same]. }
  destruct (processEvents env e w) as [[[]|err] w']; [|done].
  destruct (IH w' _ H) as (w'' & Hw'' & H'). exists w''. by rewrite <- app_assoc in H'.
Qed.
End Host.

(** ** Runs *)

Record idle (a : Agent) : Prop := {
  idle_active : activeRun a = None;
  idle_streaming : isStreaming (state a) = false;
  idle_partial : streamingMessage (state a) = None;
  idle_pending : pendingToolCalls (state a) = ∅;
}.

Lemma finishRun_idle (a : Agent) : idle (finishRun a).
Proof. done. Qed.

Section Runs.
Context {W : Type} (env : AgentEnvironment W) (laws : environment_laws env).

Abbreviation world := (AgentWorld W).

(** An executor of the lifecycle: its events are reflected, and a run that
    succeeds ends with the messages it announced. *)
Definition executes (w0 : world) (c : prog world (option (list LoopMessage))) : Prop := forall w,
  reflects w0 w [] ->
  let (r, w') := c w in
  exists es, reflects w0 w' es /\
    match r with
    | Ok (Some ms) =>
        exists es', es = es' ++ [agent_end ms] /\ Forall (fun e => is_agent_end e = false) es' /\ ms = committed es'
    | _ => True
    end.

Lemma recorded_executes (w0 : world) (run : prog (RunState world) (option (list LoopMessage)))
    (context : AgentContext) (w : world) :
  invariant (reflects w0) run ->
  (let (r, s) := run (initial_run w context) in run_recorded (agent_host env) r s) ->
  reflects w0 w [] ->
  let (r, w') := in_world run context w in
  exists es, reflects w0 w' es /\
    match r with
    | Ok (Some ms) =>
        exists es', es = es' ++ [agent_end ms] /\ Forall (fun e => is_agent_end e = false) es' /\ ms = committed es'
    | _ => True
    end.
Proof.
  intros Hinv Hrec Hw. unfold in_world. specialize (Hinv (initial_run w context) Hw).
  destruct (run (initial_run w context)) as [r s]. exists (published s). split; [exact Hinv|].
  destruct r as [[ms|]|e]; [|done..]. destruct Hrec as (_ & Hc & Hms & es & Hes & Ho).
  exists es. split_and!; [done..|]. rewrite Hms, Hc, Hes. unfold committed. rewrite omap_app.
  simpl. by rewrite app_nil_r.
Qed.

Lemma skip_reflects (w0 w : world) (es : list AgentEvent) (b : bool) :
  reflects w0 w es -> reflects w0 (set_skip b w) es.
Proof. intros []. by split. Qed.

Lemma prompt_executes (w0 : world) (fuel : nat) (ms : list LoopMessage) (skip : bool) :
  executes w0 (w <-! get ;;
    do! (fun w => (Ok tt, set_skip skip w)) ;;
    let context := createContextSnapshot (self w) in
    in_world (runAgentLoop (agent_host env) fuel ms context (createLoopConfig env (self w))) context).
Proof.
  intros w Hw. unfold bind, get. apply recorded_executes; [|apply runAgentLoop_recorded, agent_host_laws, laws|].
  - by apply runAgentLoop_invariant, agent_host_keeps.
  - by apply skip_reflects.
Qed.

Lemma continuation_executes (w0 : world) (fuel : nat) :
  executes w0 (w <-! get ;;
    do! (fun w => (Ok tt, set_skip false w)) ;;
    let context := createContextSnapshot (self w) in
    in_world (runAgentLoopContinue (agent_host env) fuel context (createLoopConfig env (self w))) context).
Proof.
  intros w Hw. unfold bind, get.
  apply recorded_executes; [|apply runAgentLoopContinue_recorded, agent_host_laws, laws|].
  - by apply runAgentLoopContinue_invariant, agent_host_keeps.
  - by apply skip_reflects.
Qed.

Lemma start_reflects (w : world) : idle (self w) -> reflects w (set_self (start_run (self w)) w) [].
Proof.
  clear laws env.
  intros [Ha Hs Hp Hi]. split; simpl; rewrite ?app_nil_r; try done.
  intros callId. rewrite Hi. split; [set_solver|]. by intros ?%open_call_nil.
Qed.

(** What an entry point leaves behind, whatever happens in the run. *)
Definition leaves (w : world) (r : result string (option unit)) (w' : world) : Prop :=
  exists es, processed w' = processed w ++ es /\
    st_messages (state (self w')) = st_messages (state (self w)) ++ committed es /\
    match r with
    | Ok None =>
        isStreaming (state (self w')) = true /\
        forall id, id ∈ pendingToolCalls (state (self w')) <-> open_call id es
    | _ => idle (self w')
    end.

Lemma finished_leaves (w w' : world) (es : list AgentEvent) (r : result string (option unit)) :
  reflects w w' es -> r <> Ok None -> leaves w r (set_self (finishRun (self w')) w').
Proof.
  intros [H1 H2 _ _ _ _ _] Hr. exists es. split; [exact H1|]. split; [exact H2|].
  destruct r as [[[]|]|e]; [|done|]; apply finishRun_idle.
Qed.

Lemma handleRunFailure_reflects (now : nat -> Q) (error : string) (ab : bool) (w0 w : world) (es : list AgentEvent) :
  reflects w0 w es ->
  exists es', reflects w0 (snd (handleRunFailure env now error ab w)) (es ++ es').
Proof.
  intros Hw. unfold handleRunFailure. unfold bind at 1 2, get, pure_result.
  destruct (planFailureTermination _ _ _ _ _) as [plan|e]; [by apply process_reflects|].
  exists []. by rewrite app_nil_r.
Qed.

Lemma lifecycle_leaves (now : nat -> Q) (executor : prog world (option (list LoopMessage))) (w : world) :
  executes w executor -> idle (self w) ->
  let (r, w') := runWithLifecycle env now executor w in leaves w r w'.
Proof.
  intros Hex Hidle. unfold runWithLifecycle. unfold bind at 1, get at 1. rewrite (idle_active _ Hidle).
  unfold bind at 1, change. set (w1 := set_self (start_run (self w)) w).
  specialize (Hex w1 (start_reflects w Hidle)). unfold finally, catch. unfold bind at 1.
  destruct (executor w1) as [[[ms|]|e] w2].
  - destruct Hex as (es & Hes & _). by eapply finished_leaves.
  - destruct Hex as (es & [H1 H2 H3 H4 _ _ _] & _). exists es. done.
  - destruct Hex as (es & Hes & _). unfold bind at 1 2, get at 1.
    destruct (handleRunFailure_reflects now e (signal_aborted w2) w w2 es Hes) as [es' H].
    destruct (handleRunFailure env now e (signal_aborted w2) w2) as [[[]|err] w3]; by eapply finished_leaves.
Qed.
End Runs.

(** ** The entry points

    What the lifecycle establishes for any executor, and a refusal trivially,
    holds of both entry points, if what callbacks may do to the agent before
    does not matter to it. *)

Lemma idle_same (a a' : Agent) : same_run a a' -> idle a -> idle a'.
Proof.
  intros [Hs Ha _] [H1 H2 H3 H4]. split; rewrite ?Hs; try done.
  destruct (activeRun a') eqn:E; [|done]. rewrite H1 in Ha. destruct Ha as [Ha _]. by destruct Ha.
Qed.

Section Entries.
Context {W : Type} (env : AgentEnvironment W) (laws : environment_laws env) (now : nat -> Q).

Abbreviation world := (AgentWorld W).

Context (L : world -> result string (option unit) -> world -> Prop).
Context (L_after : forall w w1 r w', same_world w w1 -> L w1 r w' -> L w r w').
Context (L_refused : forall w w' e, same_world w w' -> idle (self w) -> L w (Err e) w').
Context (L_lifecycle : forall executor w, executes w executor -> idle (self w) ->
  let (r, w') := runWithLifecycle env now executor w in L w r w').

Lemma time_now_same (w : world) :
  same_world w (snd (time_now env w)) /\ exists q, fst (time_now env w) = Ok q.
Proof.
  unfold time_now. pose proof (polite_same _ w (ec_date _ _ (el_each env laws))) as H.
  destruct (date_now (base env) w) as [q w']. eauto.
Qed.

Lemma normalize_same (input : PromptInput) (w : world) :
  same_world w (snd (normalizePromptInput env input w)) /\
  exists ms, fst (normalizePromptInput env input w) = Ok ms.
Proof.
  destruct input as [text images|m|ms]; simpl; [|by split; [|eexists]..]. unfold bind, ret.
  destruct (time_now_same w) as [H [q Hq]]. destruct (time_now env w) as [[q'|e] w']; simplify_eq/=. eauto.
Qed.

Lemma take_steering_same (w : world) :
  same_world w (snd (take_steering w)) /\ exists ms, fst (take_steering w) = Ok ms.
Proof. unfold take_steering. destruct (drain _). by split; [|eexists]. Qed.

Lemma take_followUps_same (w : world) :
  same_world w (snd (take_followUps w)) /\ exists ms, fst (take_followUps w) = Ok ms.
Proof. unfold take_followUps, poll_followUp. destruct (drain _). by split; [|eexists]. Qed.

Lemma runPromptMessages_rule (fuel : nat) (ms : list LoopMessage) (skip : bool) (w w1 : world) :
  same_world w w1 -> idle (self w) ->
  let (r, w') := runPromptMessages env fuel now ms skip w1 in L w r w'.
Proof.
  intros Hs Hidle. pose proof (L_lifecycle _ w1 (prompt_executes env laws w1 fuel ms skip)
    (idle_same _ _ (proj2 Hs) Hidle)) as H.
  unfold runPromptMessages. destruct (runWithLifecycle env now _ w1) as [r w']. by eapply L_after.
Qed.

(** A step before the run that does not throw. *)
Lemma entry_step {A} (c : prog world A) (k : A -> prog world (option unit)) (w w1 : world) :
  same_world w w1 -> (same_world w1 (snd (c w1)) /\ exists a, fst (c w1) = Ok a) ->
  (forall a w2, same_world w w2 -> let (r, w') := k a w2 in L w r w') ->
  let (r, w') := (bind c k) w1 in L w r w'.
Proof.
  intros Hw [Hs [a Ha]] Hk. unfold bind. destruct (c w1) as [r w2]. simpl in *. subst r.
  apply Hk. by eapply same_world_trans.
Qed.

Lemma continue_rule (fuel : nat) (w : world) :
  idle (self w) -> let (r, w') := continue env fuel now w in L w r w'.
Proof.
  intros Hidle. unfold continue. unfold bind at 1, get at 1. rewrite (idle_active _ Hidle).
  assert (Hw : same_world w w) by done.
  destruct (last (st_messages (state (self w)))) as [[m|m|role payload]|].
  2, 3: by apply (L_lifecycle _ w (continuation_executes env laws w fuel)).
  2: by apply L_refused.
  eapply entry_step; [exact Hw|apply take_steering_same|]. intros steering w1 H1.
  destruct (negb _); [by apply runPromptMessages_rule|].
  eapply entry_step; [exact H1|apply take_followUps_same|]. intros followUps w2 H2.
  destruct (negb _); [by apply runPromptMessages_rule|].
  destruct (has_tool_call _); [by apply L_refused|].
  eapply entry_step; [exact H2|apply time_now_same|]. intros q w3 H3. by apply runPromptMessages_rule.
Qed.

Lemma enter_rule (fuel : nat) (entry : Entry) (w : world) :
  idle (self w) -> let (r, w') := enter env fuel now entry w in L w r w'.
Proof.
  intros Hidle. destruct entry as [input|]; simpl; [|by apply continue_rule].
  unfold prompt. unfold bind at 1, get at 1. rewrite (idle_active _ Hidle).
  eapply entry_step; [done|apply normalize_same|]. intros ms w1 H1. by apply runPromptMessages_rule.
Qed.
End Entries.

Lemma leaves_after {W} (w w1 w' : AgentWorld W) (r : result string (option unit)) :
  same_world w w1 -> leaves w1 r w' -> leaves w r w'.
Proof.
  intros [Hp [Hs _ _]] (es & H1 & H2 & H3). exists es. rewrite H1, H2, Hp, Hs. done.
Qed.

Lemma leaves_refused {W} (w w' : AgentWorld W) (e : string) :
  same_world w w' -> idle (self w) -> leaves w (Err e) w'.
Proof.
  intros [Hp Hr] Hidle. exists []. rewrite Hp, (sr_state _ _ Hr), !app_nil_r.
  split_and!; [done..|]. by eapply idle_same.
Qed.

(** ** A run with reliable listeners *)

(** Well formed, or beyond repair. *)
Definition closed_if_possible (ms : list LoopMessage) : Prop :=
  ok (inspect_messages ms) = true \/
  forall extra : list ToolResultMessage, ok (inspect_messages (ms ++ map Result extra)) = false.

Definition event_plain (e : AgentEvent) : Prop := check_all (assertPlainData false) (event_values e) = Ok tt.

Lemma check_all_concat {A B} (check : B -> result string unit) (f : A -> list B) (l : list A) :
  Forall (fun a => check_all check (f a) = Ok tt) l -> check_all check (concat (map f l)) = Ok tt.
Proof.
  intros H. apply check_all_ok, Forall_concat, Forall_fmap. eapply Forall_impl; [exact H|].
  intros a Ha. by apply check_all_ok.
Qed.

Lemma synthetic_plain (text : string) (r : ToolResultMessage) :
  is_synthetic text (ToolResultMsg r) -> message_plain (Result r).
Proof. intros (r' & [= <-] & _ & Hd & Hc & now & Ht). unfold message_plain. simpl. by rewrite Hc, Hd, Ht. Qed.

Lemma plan_failure_plain (now : nat -> Q) (ms : list LoopMessage) (m : jsval) (error : string) (ab : bool)
    (plan : FailureTerminationPlan) :
  planFailureTermination now ms m error ab = Ok plan -> Forall message_plain (option_list (plan_failureMessage plan)).
Proof.
  unfold planFailureTermination. destruct (closure_of now ms) as [closure []]; [by intros [= <-]|].
  rewrite result_bind_Ok. intros ([] & Hf & [= <-]). by repeat constructor.
Qed.

(** The events of a plan are plain when the transcript is. *)
Lemma failure_events_plain (now : nat -> Q) (ms : list LoopMessage) (m : jsval) (error : string) (ab : bool)
    (plan : FailureTerminationPlan) :
  Forall message_plain ms -> model_plain m -> planFailureTermination now ms m error ab = Ok plan ->
  Forall event_plain (failure_events plan).
Proof.
  intros Hms Hm Hplan. pose proof (plan_failure_plain _ _ _ _ _ _ Hplan) as Hf.
  destruct (plan_ok now ms m error ab Hm) as (plan' & Hplan' & H). assert (plan' = plan) as -> by congruence.
  assert (Hc : Forall (fun r => message_plain (Result r)) (plan_closureResults plan)).
  { destruct (plan_failureMessage plan).
    - destruct H as (_ & _ & _ & H). eapply Forall_impl; [exact H|]. intros r. apply synthetic_plain.
    - destruct H as (_ & -> & _). done. }
  unfold failure_events. apply Forall_app; split; [|apply Forall_app; split].
  - apply Forall_concat, Forall_fmap. eapply Forall_impl; [exact Hc|]. intros r Hr. by repeat constructor.
  - destruct (plan_failureMessage plan) as [f|]; [|done]. simpl in Hf. inversion Hf as [|? ? Hf' _].
    repeat constructor; try done. unfold event_plain. simpl. by rewrite app_nil_r.
  - repeat constructor. apply check_all_concat. destruct (plan_failureMessage plan) as [f|].
    + destruct H as (_ & -> & _). apply Forall_app. split; [done|]. apply Forall_app. split; [|done].
      by apply Forall_fmap.
    + by destruct H as (-> & _).
Qed.


(** How a run ends: it succeeds, with the messages it announced, or it is
    ended as a failure, with the whole transcript, closed if possible. *)
Definition settles {W} (w : AgentWorld W) (r : result string (option unit)) (w' : AgentWorld W) : Prop :=
  Forall message_plain (st_messages (state (self w))) -> model_plain (st_model (state (self w))) ->
  match r with
  | Ok None => True
  | Err _ => processed w' = processed w
  | Ok (Some _) =>
      exists es ms, processed w' = processed w ++ es ++ [agent_end ms] /\
        st_messages (state (self w')) = st_messages (state (self w)) ++ committed es /\
        (ms = committed es /\ Forall (fun e => is_agent_end e = false) es
         \/ ms = st_messages (state (self w')) /\ closed_if_possible ms)
  end.

Section Settling.
Context {W : Type} (env : AgentEnvironment W) (laws : environment_laws env).
Context (listeners_return : reliable env).

Lemma handleRunFailure_settles (now : nat -> Q) (error : string) (ab : bool) (w0 w : AgentWorld W)
    (es : list AgentEvent) :
  Forall message_plain (st_messages (state (self w0))) -> model_plain (st_model (state (self w0))) ->
  reflects w0 w es ->
  exists w' es' ms, handleRunFailure env now error ab w = (Ok tt, w') /\
    reflects w0 w' ((es ++ es') ++ [agent_end ms]) /\
    ms = st_messages (state (self w')) /\ closed_if_possible ms.
Proof.
  intros Hms Hm Hw. unfold handleRunFailure. unfold bind at 1, get. rewrite (rf_model _ _ _ Hw), (rf_messages _ _ _ Hw).
  set (completed := st_messages (state (self w0)) ++ committed es).
  assert (Hcompleted : Forall message_plain completed).
  { apply Forall_app. split; [done|apply Hw]. }
  destruct (plan_ok now completed (st_model (state (self w0))) error ab Hm) as (plan & Hplan & H).
  unfold bind, pure_result. rewrite Hplan.
  destruct (process_all env laws w0 w es (failure_events plan) listeners_return) as (w' & -> & Hw'); [|done|].
  { by eapply failure_events_plain. }
  destruct (failure_events_split plan) as (es' & Hes' & _ & Hc).
  exists w', es', (plan_messages plan). split; [done|]. rewrite Hes', app_assoc in Hw'. split; [done|].
  assert (Hsplit : committed ((es ++ es') ++ [agent_end (plan_messages plan)]) = committed es ++ committed es').
  { unfold committed. rewrite !omap_app. simpl. by rewrite app_nil_r. }
  rewrite (rf_messages _ _ _ Hw'), Hsplit, app_assoc. fold completed. rewrite Hc.
  unfold closed_if_possible. destruct (plan_failureMessage plan); simpl.
  - destruct H as (_ & Hp & Hok & _). rewrite Hp in *. auto.
  - destruct H as (-> & -> & Hun). simpl. rewrite app_nil_r. auto.
Qed.

Lemma lifecycle_settles (now : nat -> Q) (executor : prog (AgentWorld W) (option (list LoopMessage)))
    (w : AgentWorld W) :
  executes w executor -> idle (self w) ->
  let (r, w') := runWithLifecycle env now executor w in settles w r w'.
Proof.
  intros Hex Hidle. unfold runWithLifecycle. unfold bind at 1, get at 1. rewrite (idle_active _ Hidle).
  unfold bind at 1, change. set (w1 := set_self (start_run (self w)) w).
  specialize (Hex w1 (start_reflects w Hidle)). unfold finally, catch. unfold bind at 1.
  destruct (executor w1) as [[[ms|]|e] w2]; [|done|].
  - destruct Hex as (es & [H1 H2 _ _ _ _ _] & es' & -> & Ho & ->). simpl. intros _ _.
    exists es', (committed es'). simpl. split; [done|]. rewrite H2. unfold committed. rewrite omap_app. simpl.
    rewrite app_nil_r. auto.
  - destruct Hex as (es & Hes & _). unfold bind at 1 2, get at 1. unfold settles.
    destruct (handleRunFailure env now e (signal_aborted w2) w2) as [r w3] eqn:Hf.
    destruct r as [[]|err]; intros Hms Hm;
      destruct (handleRunFailure_settles now e (signal_aborted w2) w w2 es Hms Hm Hes)
        as (w' & es' & ms & Hf' & Hw' & -> & Hc); rewrite Hf in Hf'; [|done].
    injection Hf' as ->. exists (es ++ es'), (st_messages (state (self w'))). simpl.
    rewrite (rf_processed _ _ _ Hw'). split; [by rewrite <- app_assoc|]. split; [|by right].
    rewrite (rf_messages _ _ _ Hw') at 1. unfold committed. rewrite !omap_app. simpl. by rewrite app_nil_r.
Qed.
End Settling.

Lemma settles_after {W} (w w1 w' : AgentWorld W) (r : result string (option unit)) :
  same_world w w1 -> settles w1 r w' -> settles w r w'.
Proof. intros [Hp [Hs _ _]]. unfold settles. by rewrite Hp, Hs. Qed.

Lemma settles_refused {W} (w w' : AgentWorld W) (e : string) : same_world w w' -> settles w (Err e) w'.
Proof. intros [Hp _] _ _. exact Hp. Qed.

(** ** Properties *)

(** A new agent is idle, and so is one an idle agent becomes by what an
    application may do to it. *)
Lemma new_agent_idle (o : AgentOptions) : idle (new_agent o).
Proof. done. Qed.

Lemma reset_idle (a : Agent) : idle a -> idle (reset a).
Proof. intros [H _ _ _]. by split. Qed.

(** C5: The transcript the agent shows is the record of what it announced,
    and the agent never gets stuck. Whatever listeners, hooks, tools and
    providers do - they may queue messages and abort at any time, and throw -
    after a prompt or a continuation the transcript is the earlier one followed
    by the messages of the [message_end] events, each once and in order. However
    the run ended, the agent is idle again; while it goes on, the pending tool
    calls are those that were started and have not ended. *)
Theorem transcript_is_what_was_announced {W} (env : AgentEnvironment W) (fuel : nat) (now : nat -> Q)
    (entry : Entry) (w : AgentWorld W) :
  environment_laws env -> idle (self w) ->
  let (r, w') := enter env fuel now entry w in
  exists es, processed w' = processed w ++ es /\
    st_messages (state (self w')) = st_messages (state (self w)) ++ committed es /\
    match r with
    | Ok None =>
        isStreaming (state (self w')) = true /\
        forall id, id ∈ pendingToolCalls (state (self w')) <-> open_call id es
    | _ => idle (self w')
    end.
Proof.
  intros laws. apply (enter_rule env laws now leaves).
  - intros w1 w2 r w'. apply leaves_after.
  - intros w1 w2 e. apply leaves_refused.
  - intros executor w0. by apply lifecycle_leaves.
Qed.


(** ** A scripted agent

    The provider answers with two concurrent reads and then with a text, or
    fails at the second request; a listener steers when the run starts. *)

Definition agent_base (online : bool) : Host (AgentWorld nat) :=
  {| aborted_now := fun _ => false; abort_first := fun _ => false; date_now := fun w => (0%Q, w);
     num_str := fun _ => "50"; sink := fun _ w => (Ok tt, w); tool_start := fun _ _ _ w => w;
     tool_settle := fun callId _ w => ([], Settled (Ok (text_result callId)), w);
     promise_settled := fun _ _ => true; validateToolArguments := fun _ c => Ok (atc_arguments c);
     beforeToolCall := None; afterToolCall := None; transformContext := None;
     convertToLlm := fun _ w => (Ok JNull, w); getApiKey := None;
     streamFunction := fun _ w =>
       let turn := outer w in
       let w := {| self := self w; skipInitialSteeringPoll := skipInitialSteeringPoll w;
                   processed := processed w; outer := S turn |} in
       if online || (turn =? 0)%nat then
         (Ok {| stream_events := [fun w => (Ok (ev_start (scripted_answer turn)), w); fun w => (Ok ev_done, w)];
                stream_result := fun w => (Ok (scripted_answer turn), w) |}, w)
       else (Err "offline", w);
     getSteeringMessages := None; getFollowUpMessages := None; prepareNextTurn := None;
     shouldStopAfterTurn := None; pick := fun l _ => default 0 (last l) |}.

Definition agent_env (online : bool) : AgentEnvironment nat :=
  {| base := agent_base online;
     listen := fun _ e w =>
       match e with
       | agent_start => (Ok tt, set_self (steer (Other "user" (JString "briefly")) (self w)) w)
       | _ => (Ok tt, w)
       end;
     hook_prepareNextTurn := None; env_cwd := "/work"; env_HOME := None |}.

Definition agent_world : AgentWorld nat :=
  {| self := subscribe 1 (new_agent
       {| init_systemPrompt := None; init_model := None; init_thinkingLevel := None;
          init_tools := Some [sample_tool "read"]; init_messages := None; o_steeringMode := None;
          o_followUpMode := None; o_toolExecution := None; o_toolTimeoutMs := None; o_toolTimeouts := None;
          o_toolScheduler := None; o_maxToolConcurrency := None; o_strictExtensionClaims := None;
          o_cwd := None; o_resourceKeyResolver := None |});
     skipInitialSteeringPoll := false; processed := []; outer := 0 |}.

Abbreviation agent_run online :=
  (enter (agent_env online) 5 (fun _ => 0%Q) (Prompt (TextPrompt "read both" [])) agent_world).

Lemma agent_env_laws (online : bool) : environment_laws (agent_env online).
Proof.
  assert (Hid : forall A (f : AgentWorld nat -> A), polite A (fun w => (f w, w))).
  { intros A f w. split; [done|]. by exists []. }
  split; [split|..]; simpl; try done; intros; try apply Hid.
  - intros w. destruct (_ || _)%bool; (split; [done|]); by exists [].
  - destruct (_ || _)%bool in H; simplify_eq/=. split; [|apply Hid].
    apply Forall_cons; split; [apply Hid|]. apply Forall_singleton, Hid.
  - destruct e; try apply Hid. intros w. split; [done|]. by exists [Steer (Other "user" (JString "briefly"))].
Qed.

Lemma transcript_is_what_was_announced_witness :
  environment_laws (agent_env true) /\ idle (self agent_world) /\
  match agent_run true with
  | (Ok (Some _), w') =>
      idle (self w') /\ exists es, st_messages (state (self w')) = committed es /\ length (committed es) = 6
  | _ => False
  end.
Proof.
  pose proof (agent_env_laws true) as laws. assert (Hidle : idle (self agent_world)) by done.
  split; [exact laws|]. split; [exact Hidle|].
  pose proof (transcript_is_what_was_announced (agent_env true) 5 (fun _ => 0%Q)
    (Prompt (TextPrompt "read both" [])) agent_world laws Hidle) as H.
  set (outcome := agent_run true) in H |- *.
  assert (E : match outcome with
              | (Ok (Some _), w') => (length (st_messages (state (self w'))) =? 6)%nat
              | _ => false
              end = true) by (vm_compute; reflexivity).
  destruct outcome as [[[[]|]|e] w']; [|discriminate E..].
  destruct H as (es & _ & Hm & Hi). split; [exact Hi|]. exists es. rewrite Hm in E |- *.
  split; [reflexivity|]. by apply Nat.eqb_eq in E.
Defined.


(** ** Against the documentation *)

Definition with_history (ms : list LoopMessage) (turn : nat) : AgentWorld nat :=
  let st := state (self agent_world) in
  {| self := with_state (update_state st ms false None ∅ None) (self agent_world);
     skipInitialSteeringPoll := false; processed := []; outer := turn |}.

(** The [agent_end] event of a failed run carries the earlier transcript too,
    not only the messages of the run. *)
Lemma failed_run_reports_history :
  let old := [Other "user" (JString "before"); Assistant (scripted_answer 1)] in
  match enter (agent_env false) 5 (fun _ => 0%Q) (Prompt (MessagePrompt (Other "user" (JString "again"))))
          (with_history old 1) with
  | (Ok (Some _), w') =>
      exists new, last (processed w') = Some (agent_end (old ++ new)) /\ length new = 3
  | _ => False
  end.
Proof. vm_compute. by eexists. Qed.

(** [continue] accepts a transcript that ends with an answer of the model. *)
Lemma continue_after_answer :
  match enter (agent_env true) 5 (fun _ => 0%Q) Continue
          (with_history [Other "user" (JString "before"); Assistant (scripted_answer 1)] 1) with
  | (Ok (Some _), w') => length (st_messages (state (self w'))) = 5
  | _ => False
  end.
Proof. by vm_compute. Qed.
