(* ===== verification/Uuid.v ===== *)
(** * Session identifiers (packages/agent/src/harness/session/uuid.ts)

    Version 7 identifiers: 48 bits of time, 32 bits of a sequence that a random
    number starts and each further identifier of the same millisecond
    increments, the rest random. The clock and the random bytes are inputs. *)

From Stdlib Require Import Ascii String ZArith Lia.
From stdpp Require Import base list option strings.
From S2P Require Import Prelude JsString.

Open Scope string_scope.
Open Scope list_scope.
Open Scope Z_scope.

(** The module's variables; [None] is minus infinity. *)
Record UuidState : Type := {
  lastTimestamp : option Z;
  sequence : Z;
}.

Definition initial_uuid_state : UuidState := {| lastTimestamp := None; sequence := 0 |}.

(** [random[6] * 0x1000000 + ...] *)
Definition random_sequence (random : nat -> Z) : Z :=
  random 6%nat * 16777216 + random 7%nat * 65536 + random 8%nat * 256 + random 9%nat.

Definition advance (random : nat -> Z) (timestamp : Z) (s : UuidState) : UuidState :=
  let fresh := {| lastTimestamp := Some timestamp; sequence := random_sequence random |} in
  match lastTimestamp s with
  | None => fresh
  | Some last =>
      if timestamp >? last then fresh
      else
        let next := (sequence s + 1) mod 2 ^ 32 in
        {| lastTimestamp := Some (if next =? 0 then last + 1 else last); sequence := next |}
  end.

Definition uuid_bytes (random : nat -> Z) (last seq : Z) : list Z :=
  [ Z.land (last / 1099511627776) 255;
    Z.land (last / 4294967296) 255;
    Z.land (last / 16777216) 255;
    Z.land (last / 65536) 255;
    Z.land (last / 256) 255;
    Z.land last 255;
    Z.lor 112 (Z.land (Z.shiftr seq 28) 15);
    Z.land (Z.shiftr seq 20) 255;
    Z.lor 128 (Z.land (Z.shiftr seq 14) 63);
    Z.land (Z.shiftr seq 6) 255;
    Z.lor (Z.shiftl (Z.land seq 63) 2) (Z.land (random 10%nat) 3);
    random 11%nat; random 12%nat; random 13%nat; random 14%nat; random 15%nat ].

(** [byte.toString(16).padStart(2, "0")] *)
Definition hex2 (byte : Z) : string :=
  String (hex_digit (Z.to_nat (byte / 16))) (String (hex_digit (Z.to_nat (byte mod 16))) EmptyString).

(** [hex.slice(from, to).join(EmptyString)] *)
Definition hex_group (from to : nat) (hex : list string) : string :=
  join EmptyString (take (to - from) (drop from hex)).

Definition formatUuid (bytes : list Z) : string :=
  let hex := map hex2 bytes in
  (hex_group 0 4 hex ++ "-" ++ hex_group 4 6 hex ++ "-" ++ hex_group 6 8 hex ++ "-" ++ hex_group 8 10 hex
   ++ "-" ++ hex_group 10 16 hex)%string.

Definition uuidv7 (random : nat -> Z) (timestamp : Z) (s : UuidState) : string * UuidState :=
  let s := advance random timestamp s in
  (formatUuid (uuid_bytes random (default 0 (lastTimestamp s)) (sequence s)), s).

(** Successive calls. *)
Fixpoint uuids (calls : list ((nat -> Z) * Z)) (s : UuidState) : list string * UuidState :=
  match calls with
  | [] => ([], s)
  | (random, timestamp) :: calls =>
      let (u, s) := uuidv7 random timestamp s in
      let (us, s) := uuids calls s in
      (u :: us, s)
  end.

(** ** Digits of mixed radix *)

Definition radices_product (rs : list Z) : Z := foldr Z.mul 1 rs.

Fixpoint digits (rs : list Z) (v : Z) : list Z :=
  match rs with
  | [] => []
  | r :: rs' => (v / radices_product rs') mod r :: digits rs' v
  end.

(** The first difference decides. *)
Inductive lex_lt : list Z -> list Z -> Prop :=
| lex_here (a b : Z) (l m : list Z) : a < b -> lex_lt (a :: l) (b :: m)
| lex_next (a : Z) (l m : list Z) : lex_lt l m -> lex_lt (a :: l) (a :: m).

Lemma radices_positive (rs : list Z) : Forall (fun r => 0 < r) rs -> 0 < radices_product rs.
Proof. induction 1; simpl; [lia|]. by apply Z.mul_pos_pos. Qed.

Lemma digits_mod (rs : list Z) (v k : Z) :
  Forall (fun r => 0 < r) rs -> digits rs (v + k * radices_product rs) = digits rs v.
Proof.
  intros Hr. revert k; induction Hr as [|r rs Hr Hrs IH]; intros k; simpl; [done|].
  pose proof (radices_positive rs Hrs). f_equal.
  - replace (v + k * (r * radices_product rs)) with (v + (k * r) * radices_product rs) by ring.
    rewrite Z.div_add by lia. rewrite Z_mod_plus_full. done.
  - replace (v + k * (r * radices_product rs)) with (v + (k * r) * radices_product rs) by ring. apply IH.
Qed.

(** Digits order numbers. *)
Lemma digits_lt (rs : list Z) (v w : Z) :
  Forall (fun r => 0 < r) rs -> 0 <= v -> v < w -> w < radices_product rs -> lex_lt (digits rs v) (digits rs w).
Proof.
  intros Hr. revert v w; induction Hr as [|r rs Hr Hrs IH]; intros v w Hv Hvw Hw; simpl in *; [lia|].
  pose proof (radices_positive rs Hrs) as Hp. set (p := radices_product rs) in *.
  assert (Hlt : forall x, 0 <= x < r * p -> (x / p) mod r = x / p).
  { intros x [Hx1 Hx2]. apply Z.mod_small. split; [by apply Z.div_pos|].
    apply Z.div_lt_upper_bound; lia. }
  rewrite !Hlt by lia. destruct (Z.eq_dec (v / p) (w / p)) as [He|Hn].
  - rewrite He. apply lex_next.
    rewrite (Z.div_mod v p), (Z.div_mod w p) by lia.
    rewrite (Z.add_comm (p * (v / p))), (Z.add_comm (p * (w / p))), !(Z.mul_comm p).
    unfold p. rewrite !digits_mod by done. fold p.
    pose proof (Z.mod_pos_bound v p Hp). pose proof (Z.mod_pos_bound w p Hp).
    apply IH; [lia| |lia]. pose proof (Z.div_mod v p). pose proof (Z.div_mod w p). nia.
  - apply lex_here. pose proof (Z.div_le_mono v w p). lia.
Qed.

(** ** The fields of an identifier *)

Definition field_radices : list Z := [256; 256; 256; 256; 256; 256; 16; 256; 64; 256; 64].

Definition uuid_key (last seq : Z) : Z := last * 2 ^ 32 + seq.

Lemma key_high (last seq w : Z) :
  0 <= seq < 2 ^ 32 -> 0 < w -> uuid_key last seq / (w * 2 ^ 32) = last / w.
Proof.
  intros Hs Hw. rewrite (Z.mul_comm w), <- Z.div_div by lia. f_equal. unfold uuid_key.
  rewrite Z.add_comm, Z.div_add, Z.div_small by lia. lia.
Qed.

Lemma key_low (last seq w r k : Z) :
  0 < w -> 0 < r -> 2 ^ 32 = k * (r * w) -> (uuid_key last seq / w) mod r = (seq / w) mod r.
Proof.
  intros Hw Hr Hk. unfold uuid_key. rewrite Hk.
  replace (last * (k * (r * w)) + seq) with (seq + (last * k * r) * w) by ring.
  rewrite Z.div_add by lia. apply Z_mod_plus_full.
Qed.

Lemma field_digits (last seq : Z) :
  0 <= seq < 2 ^ 32 ->
  digits field_radices (uuid_key last seq)
  = [ (last / 1099511627776) mod 256; (last / 4294967296) mod 256; (last / 16777216) mod 256;
      (last / 65536) mod 256; (last / 256) mod 256; last mod 256;
      (seq / 2 ^ 28) mod 16; (seq / 2 ^ 20) mod 256; (seq / 2 ^ 14) mod 64; (seq / 2 ^ 6) mod 256;
      seq mod 64 ].
Proof.
  intros Hs. cbn [digits field_radices].
  repeat match goal with |- context [radices_product ?l] =>
    let v := eval vm_compute in (radices_product l) in change (radices_product l) with v end.
  do 5 (f_equal; [rewrite <- (key_high last seq) by lia; f_equal; lia|]).
  f_equal; [rewrite <- (Z.div_1_r last) at 2; rewrite <- (key_high last seq) by lia; f_equal; lia|].
  f_equal; [apply (key_low last seq (2 ^ 28) 16 1); lia|].
  f_equal; [apply (key_low last seq (2 ^ 20) 256 16); lia|].
  f_equal; [apply (key_low last seq (2 ^ 14) 64 4096); lia|].
  f_equal; [apply (key_low last seq (2 ^ 6) 256 262144); lia|].
  f_equal. rewrite (key_low _ _ 1 64 67108864) by lia. by rewrite Z.div_1_r.
Qed.

(** The bytes of the digits. *)
Definition field_byte (random10 : Z) (i : nat) (d : Z) : Z :=
  match i with
  | 6%nat => 112 + d
  | 8%nat => 128 + d
  | 10%nat => 4 * d + random10
  | _ => d
  end.

Lemma land_mask (x n : Z) : 0 <= n -> Z.land x (Z.ones n) = x mod 2 ^ n.
Proof. apply Z.land_ones. Qed.

(** Or of numbers without a common bit. *)
Lemma lor_add (a d n : Z) : 0 <= n -> 0 <= d < 2 ^ n -> a mod 2 ^ n = 0 -> Z.lor a d = a + d.
Proof.
  intros Hn Hd Ha. symmetry. apply Z.add_nocarry_lor, Z.bits_inj'. intros i Hi. rewrite Z.land_spec, Z.bits_0.
  destruct (Z.lt_ge_cases i n).
  - assert (Z.testbit (a mod 2 ^ n) i = false) as H' by (by rewrite Ha, Z.bits_0).
    rewrite Z.mod_pow2_bits_low in H' by lia. by rewrite H'.
  - destruct (Z.eq_dec d 0) as [->|]; [by rewrite Z.bits_0, andb_false_r|].
    rewrite (Z.bits_above_log2 d), andb_false_r; [done|lia|].
    assert (Z.log2 d < n); [|lia]. apply Z.log2_lt_pow2; lia.
Qed.

Lemma uuid_bytes_fields (random : nat -> Z) (last seq : Z) :
  0 <= seq < 2 ^ 32 ->
  uuid_bytes random last seq
  = imap (field_byte (random 10%nat mod 4)) (digits field_radices (uuid_key last seq))
    ++ [random 11%nat; random 12%nat; random 13%nat; random 14%nat; random 15%nat].
Proof.
  intros Hs. rewrite field_digits by done. unfold uuid_bytes. cbn [imap app field_byte].
  change 255 with (Z.ones 8). change 63 with (Z.ones 6). change 15 with (Z.ones 4). change 3 with (Z.ones 2).
  rewrite !land_mask, !Z.shiftr_div_pow2, Z.shiftl_mul_pow2 by lia.
  change (2 ^ 8) with 256. change (2 ^ 6) with 64. change (2 ^ 4) with 16. change (2 ^ 2) with 4.
  rewrite (lor_add 112 _ 4), (lor_add 128 _ 6), (lor_add _ _ 2); try done; try lia;
    try (apply Z.mod_pos_bound; lia).
  2: { change (2 ^ 2) with 4. apply Z_mod_mult. }
  by rewrite (Z.mul_comm _ 4).
Qed.

(** ** The text orders identifiers as their bytes do *)

Fixpoint render (i : nat) (bytes : list Z) : string :=
  match bytes with
  | [] => EmptyString
  | b :: bytes => ((if existsb (Nat.eqb i) [4; 6; 8; 10]%nat then "-" else "") ++ hex2 b ++ render (S i) bytes)%string
  end.

Lemma formatUuid_render (bytes : list Z) : length bytes = 16%nat -> formatUuid bytes = render 0 bytes.
Proof. intros H. do 16 (destruct bytes as [|? bytes]; [done|]). by destruct bytes. Qed.

Lemma str_compare_app (p s t : string) : str_compare (p ++ s)%string (p ++ t)%string = str_compare s t.
Proof.
  unfold str_compare. induction p as [|a p IH]; simpl; [done|].
  by rewrite (proj2 (ascii_compare_eq a a) eq_refl).
Qed.

Lemma hex_digit_lt (n m : nat) : (n < m < 16)%nat -> Ascii.compare (hex_digit n) (hex_digit m) = Lt.
Proof.
  assert (H : forallb (fun m => forallb (fun n => match Ascii.compare (hex_digit n) (hex_digit m) with
                                                   | Lt => true
                                                   | _ => false
                                                   end) (seq 0 m)) (seq 0 16) = true) by (by vm_compute).
  intros [Hn Hm]. rewrite forallb_forall in H. specialize (H m). rewrite forallb_forall in H.
  specialize (H ltac:(apply in_seq; lia) n ltac:(apply in_seq; lia)). by destruct (Ascii.compare _ _).
Qed.

Lemma hex2_lt (a b : Z) (s t : string) :
  0 <= a -> a < b -> b < 256 -> str_compare (hex2 a ++ s)%string (hex2 b ++ t)%string = Lt.
Proof.
  intros Ha Hab Hb. unfold str_compare, hex2. simpl. destruct (Z.eq_dec (a / 16) (b / 16)) as [He|Hn].
  - rewrite He, (proj2 (ascii_compare_eq _ _) eq_refl), hex_digit_lt; [done|].
    pose proof (Z.div_mod a 16). pose proof (Z.div_mod b 16).
    pose proof (Z.mod_pos_bound a 16). pose proof (Z.mod_pos_bound b 16). lia.
  - rewrite hex_digit_lt; [done|]. pose proof (Z.div_le_mono a b 16). pose proof (Z.div_pos a 16).
    assert (b / 16 < 16) by (apply Z.div_lt_upper_bound; lia). lia.
Qed.

Lemma render_lt (i : nat) (pre : list Z) (a b : Z) (l m : list Z) :
  0 <= a -> a < b -> b < 256 -> str_compare (render i (pre ++ a :: l)) (render i (pre ++ b :: m)) = Lt.
Proof.
  intros Ha Hab Hb. revert i; induction pre as [|c pre IH]; intros i; cbn [render app]; rewrite str_compare_app.
  - by apply hex2_lt.
  - rewrite str_compare_app. apply IH.
Qed.

(** ** Order of the fields *)

Lemma field_byte_lt (r1 r2 : Z) (i : nat) (a b : Z) :
  0 <= r1 < 4 -> 0 <= r2 < 4 -> a < b -> field_byte r1 i a < field_byte r2 i b.
Proof. intros H1 H2 H. do 11 (destruct i as [|i]; simpl; [lia|]). simpl. lia. Qed.

Lemma lex_split (l m : list Z) :
  lex_lt l m -> exists pre a b l' m', l = pre ++ a :: l' /\ m = pre ++ b :: m' /\ a < b.
Proof.
  induction 1 as [a b l m H|a l m _ (pre & x & y & l' & m' & -> & -> & H)].
  - exists [], a, b, l, m. done.
  - exists (a :: pre), x, y, l', m'. done.
Qed.

Lemma field_digits_bounds (last seq : Z) (i : nat) (d : Z) :
  digits field_radices (uuid_key last seq) !! i = Some d -> 0 <= d /\ field_byte 3 i d < 256 /\ (i <= 10)%nat.
Proof.
  cbn [digits field_radices]. intros H.
  do 11 (destruct i as [|i]; [simpl in *; injection H as <-;
    match goal with |- context [?x mod ?r] => pose proof (Z.mod_pos_bound x r) end; lia|]). done.
Qed.

Lemma uuid_bytes_lt (r1 r2 : nat -> Z) (last1 seq1 last2 seq2 : Z) :
  0 <= seq1 < 2 ^ 32 -> 0 <= seq2 < 2 ^ 32 -> 0 <= last1 -> last2 < 2 ^ 48 ->
  uuid_key last1 seq1 < uuid_key last2 seq2 ->
  str_compare (formatUuid (uuid_bytes r1 last1 seq1)) (formatUuid (uuid_bytes r2 last2 seq2)) = Lt.
Proof.
  intros Hs1 Hs2 H1 H2 Hk. rewrite !formatUuid_render by done. rewrite !uuid_bytes_fields by done.
  assert (Hlex : lex_lt (digits field_radices (uuid_key last1 seq1)) (digits field_radices (uuid_key last2 seq2))).
  { apply digits_lt; [by repeat constructor|unfold uuid_key; nia|exact Hk|].
    change (radices_product field_radices) with (2 ^ 80). unfold uuid_key. nia. }
  apply lex_split in Hlex as (pre & a & b & l & m & E1 & E2 & Hab).
  assert (Ha : digits field_radices (uuid_key last1 seq1) !! length pre = Some a) by (by rewrite E1, list_lookup_middle).
  assert (Hb : digits field_radices (uuid_key last2 seq2) !! length pre = Some b) by (by rewrite E2, list_lookup_middle).
  apply field_digits_bounds in Ha as (Ha & _ & Hlen), Hb as (_ & Hb & _). rewrite E1, E2, !imap_app.
  pose proof (Z.mod_pos_bound (r1 10%nat) 4 ltac:(lia)) as Hr1.
  pose proof (Z.mod_pos_bound (r2 10%nat) 4 ltac:(lia)) as Hr2.
  assert (Hpre : imap (field_byte (r1 10%nat mod 4)) pre = imap (field_byte (r2 10%nat mod 4)) pre).
  { apply imap_ext. intros i d Hi. apply lookup_lt_Some in Hi. assert (i < 10)%nat by lia.
    do 10 (destruct i as [|i]; [done|]). lia. }
  rewrite Hpre, <- !app_assoc. cbn [imap app]. rewrite !Nat.add_0_r. apply render_lt.
  - clear - Ha Hr1 Hlen. revert Hlen. generalize (length pre) as i. intros i Hlen.
    do 11 (destruct i as [|i]; simpl; [lia|]). lia.
  - apply field_byte_lt; lia.
  - assert (field_byte (r2 10%nat mod 4) (length pre) b <= field_byte 3 (length pre) b); [|lia].
    clear - Hr2. generalize (length pre) as i. intros i. do 11 (destruct i as [|i]; simpl; [lia|]). simpl. lia.
Qed.

(** ** Successive calls *)

Definition uuid_state_ok (s : UuidState) : Prop :=
  0 <= sequence s < 2 ^ 32 /\ forall last, lastTimestamp s = Some last -> 0 <= last.

Definition call_ok (c : (nat -> Z) * Z) : Prop := (forall i, 0 <= fst c i < 256) /\ 0 <= snd c.

Definition state_key (s : UuidState) : Z := uuid_key (default (-1) (lastTimestamp s)) (sequence s).

Lemma advance_ok (c : (nat -> Z) * Z) (s : UuidState) :
  call_ok c -> uuid_state_ok s ->
  uuid_state_ok (advance (fst c) (snd c) s) /\ is_Some (lastTimestamp (advance (fst c) (snd c) s)) /\
  (is_Some (lastTimestamp s) -> state_key s < state_key (advance (fst c) (snd c) s)).
Proof.
  destruct c as [random timestamp]. intros [Hr Ht] [Hs Hl]. simpl in *.
  assert (Hf : 0 <= random_sequence random < 2 ^ 32).
  { unfold random_sequence. pose proof (Hr 6%nat). pose proof (Hr 7%nat). pose proof (Hr 8%nat).
    pose proof (Hr 9%nat). lia. }
  unfold advance, uuid_state_ok, state_key, uuid_key. destruct (lastTimestamp s) as [last|]; simpl.
  2: { split_and!; [lia|lia|by intros ? [= <-]|by eexists|by intros [? ?]]. }
  specialize (Hl last eq_refl). destruct (timestamp >? last) eqn:E; simpl.
  - split_and!; [lia|lia|by intros ? [= <-]|by eexists|]. intros _. lia.
  - pose proof (Z.mod_pos_bound (sequence s + 1) (2 ^ 32)).
    assert (Hm : (sequence s + 1) mod 2 ^ 32 = 0 /\ sequence s + 1 = 2 ^ 32
                 \/ (sequence s + 1) mod 2 ^ 32 = sequence s + 1).
    { destruct (Z.eq_dec (sequence s + 1) (2 ^ 32)) as [->|]; [by left|]. right. apply Z.mod_small. lia. }
    split_and!; [lia|lia| |by eexists|].
    + intros ? [= <-]. destruct (_ =? 0); lia.
    + intros _. destruct (_ =? 0) eqn:E0; lia.
Qed.

#[local] Arguments formatUuid : simpl never.
#[local] Arguments uuid_bytes : simpl never.
#[local] Arguments advance : simpl never.
#[local] Arguments Z.pow : simpl never.

Lemma advance_time (c : (nat -> Z) * Z) (s : UuidState) :
  default 0 (lastTimestamp s) <= default 0 (lastTimestamp (advance (fst c) (snd c) s)) \/ lastTimestamp s = None.
Proof.
  unfold advance. destruct (lastTimestamp s) as [last|]; [left|by right]. destruct (snd c >? last) eqn:E; simpl; [lia|].
  destruct (_ =? 0); lia.
Qed.

Definition state_uuid (random : nat -> Z) (s : UuidState) : string :=
  formatUuid (uuid_bytes random (default 0 (lastTimestamp s)) (sequence s)).

Lemma uuids_cons (c : (nat -> Z) * Z) (calls : list ((nat -> Z) * Z)) (s : UuidState) :
  let s' := advance (fst c) (snd c) s in
  uuids (c :: calls) s = (state_uuid (fst c) s' :: fst (uuids calls s'), snd (uuids calls s')).
Proof. destruct c as [random timestamp]. cbn [uuids uuidv7 fst snd]. by destruct (uuids calls _). Qed.

#[local] Opaque state_uuid.

Lemma state_uuid_lt (r1 r2 : nat -> Z) (s1 s2 : UuidState) :
  uuid_state_ok s1 -> uuid_state_ok s2 -> is_Some (lastTimestamp s1) -> is_Some (lastTimestamp s2) ->
  default 0 (lastTimestamp s2) < 2 ^ 48 -> state_key s1 < state_key s2 ->
  str_compare (state_uuid r1 s1) (state_uuid r2 s2) = Lt.
Proof.
  intros [H1 Hl1] [H2 _] [l1 E1] [l2 E2]. unfold state_key. rewrite E1, E2. cbn [default from_option id].
  intros Hmax Hk. with_strategy transparent [state_uuid] unfold state_uuid. rewrite E1, E2.
  apply uuid_bytes_lt; [exact H1|exact H2|by apply Hl1|exact Hmax|exact Hk].
Qed.

(** The identifiers of further calls, against one of an earlier state. *)
Lemma uuids_above (calls : list ((nat -> Z) * Z)) (s0 s : UuidState) (random : nat -> Z) :
  uuid_state_ok s0 -> is_Some (lastTimestamp s0) -> uuid_state_ok s -> is_Some (lastTimestamp s) ->
  state_key s0 <= state_key s -> Forall call_ok calls ->
  default 0 (lastTimestamp (snd (uuids calls s))) < 2 ^ 48 ->
  default 0 (lastTimestamp s) < 2 ^ 48 /\
  Forall (fun u => str_compare (state_uuid random s0) u = Lt) (fst (uuids calls s)).
Proof.
  intros H0 Hl0 Hs Hl Hk Hc. revert s Hs Hl Hk; induction Hc as [|c calls Hc _ IH]; intros s Hs Hl Hk Hmax.
  { split; [exact Hmax|constructor]. }
  destruct (advance_ok c s Hc Hs) as (Hs' & Hl' & Hkey). pose proof (advance_time c s) as Htime.
  rewrite uuids_cons in *. cbn [fst snd] in *. set (s' := advance (fst c) (snd c) s) in *. specialize (Hkey Hl).
  destruct (IH s' Hs' Hl' ltac:(lia) Hmax) as [Hmax' Hus].
  split; [destruct Htime as [Htime|Htime]; [lia|destruct Hl; congruence]|].
  constructor; [|exact Hus]. apply state_uuid_lt; try assumption. lia.
Qed.

(** Identifiers only grow. The identifiers of successive calls, as the
    strings they are, are strictly increasing, hence distinct, whatever the
    clock does - standing still, jumping back - and whatever the random bytes
    are, also across an overflow of the 32-bit sequence, as long as the time
    fits in its 48 bits. *)
Theorem uuids_increase (calls : list ((nat -> Z) * Z)) (s : UuidState) (i j : nat) (u v : string) :
  uuid_state_ok s -> Forall call_ok calls ->
  default 0 (lastTimestamp (snd (uuids calls s))) < 2 ^ 48 ->
  (i < j)%nat -> fst (uuids calls s) !! i = Some u -> fst (uuids calls s) !! j = Some v ->
  str_compare u v = Lt.
Proof.
  intros Hs Hc. revert s i j Hs; induction Hc as [|c calls Hc Hcs IH]; intros s i j Hs Hmax Hij; [done|].
  destruct (advance_ok c s Hc Hs) as (Hs' & Hl' & _). rewrite uuids_cons in *. cbn [fst snd] in *.
  set (s' := advance (fst c) (snd c) s) in *. destruct i as [|i], j as [|j]; [lia| |lia|].
  - intros Hu Hv. injection Hu as <-.
    destruct (uuids_above calls s' s' (fst c) Hs' Hl' Hs' Hl' ltac:(lia) Hcs Hmax) as [_ Hus].
    apply (Forall_lookup_1 _ _ _ _ Hus Hv).
  - intros Hu Hv. apply (IH s' i j Hs' Hmax ltac:(lia) Hu Hv).
Qed.

(** Two calls in a millisecond in which the sequence overflows, and one after
    the clock went back. *)
Definition uuid_calls : list ((nat -> Z) * Z) :=
  [(fun _ => 255, 1700000000000); (fun _ => 7, 1700000000000); (fun _ => 1, 1600000000000)].

Lemma uuids_increase_witness :
  uuid_state_ok initial_uuid_state /\ Forall call_ok uuid_calls /\
  exists u v w, fst (uuids uuid_calls initial_uuid_state) = [u; v; w] /\
    str_compare u v = Lt /\ str_compare v w = Lt.
Proof.
  assert (Hs : uuid_state_ok initial_uuid_state) by (split; [done|by intros ? [=]]).
  assert (Hc : Forall call_ok uuid_calls).
  { repeat (apply Forall_cons; split; [split; [intros i; simpl; lia|simpl; lia]|]). constructor. }
  split; [exact Hs|]. split; [exact Hc|].
  destruct (uuids uuid_calls initial_uuid_state) as [us s'] eqn:E.
  assert (Hlen : length us = 3%nat) by (vm_compute in E; by injection E as <- _).
  destruct us as [|u [|v [|w [|x us]]]]; try discriminate Hlen. exists u, v, w. split; [reflexivity|].
  assert (Hmax : default 0 (lastTimestamp (snd (uuids uuid_calls initial_uuid_state))) < 2 ^ 48) by (vm_compute; reflexivity).
  split.
  - apply (uuids_increase uuid_calls initial_uuid_state 0 1 u v Hs Hc Hmax); [lia|by rewrite E|by rewrite E].
  - apply (uuids_increase uuid_calls initial_uuid_state 1 2 v w Hs Hc Hmax); [lia|by rewrite E|by rewrite E].
Defined.
