(* ===== verification/SessionRepo.v ===== *)
(** * Session repositories

    packages/agent/src/harness/session: repo-utils.ts, memory-repo.ts and
    jsonl-repo.ts. A repository creates, opens, lists, deletes and forks
    sessions; a fork takes the branch of one entry into a new session. What the
    file system answers is an argument of an operation. *)

From Stdlib Require Import Ascii String ZArith Lia.
From stdpp Require Import base list option strings gmap sets.
From S2P Require Import Prelude JsString JsValue Json SessionLog SessionStorage SessionContext Session JsonlStorage.

Open Scope string_scope.
Open Scope list_scope.

(** ** The entries of a fork *)

Inductive ForkPosition : Type :=
| fork_before
| fork_at.

Record ForkOptions : Type := {
  fo_entryId : option string;
  fo_position : option ForkPosition;
  fo_id : option string;
}.

Definition fork_error (i what : string) : SessionError :=
  session_error invalid_fork_target ("Entry " ++ i ++ " " ++ what).

Section Fork.
Context {S E : Type} `{SessionStorage S E}.
(** [target.type === "message" && target.message.role === "user"] *)
Context (is_user_message : E -> bool).

Definition getEntriesToFork (options : ForkOptions) (s : S) : option (result SessionError (list E)) :=
  match fo_entryId options with
  | None | Some EmptyString => Some (Ok (getEntries s))
  | Some i =>
      match getEntry i s with
      | None => Some (Err (fork_error i "not found"))
      | Some target =>
          match default fork_before (fo_position options) with
          | fork_at => getPathToRoot (Some (entry_id target)) s
          | fork_before =>
              if is_user_message target then getPathToRoot (entry_parent target) s
              else Some (Err (fork_error i "is not a user message"))
          end
      end
  end.

(** [for (const entry of forkedEntries) await storage.appendEntry(entry)];
    [ios] is how the writes end. *)
Fixpoint append_all (ios : nat -> IoOutcome) (forkedEntries : list E) (s : S) : result SessionError unit * S :=
  match forkedEntries with
  | [] => (Ok tt, s)
  | entry :: rest =>
      match appendEntry (ios 0) entry s with
      | (Err e, s) => (Err e, s)
      | (Ok _, s) => append_all (fun n => ios (n + 1)) rest s
      end
  end.
End Fork.

Definition typed_user_message (e : SessionTreeEntry) : bool :=
  match body e with
  | MessageEntry m => bool_decide (jstr "role" m = Some "user")
  | _ => false
  end.

Definition json_user_message (e : json) : bool :=
  bool_decide (jstr "type" e = Some "message") && bool_decide (jget "message" e ≫= jstr "role" = Some "user").

(** ** memory-repo.ts

    [sessions]: a Map, in insertion order; a session is its storage. *)

Section MemoryRepo.
Context {E : Type} `{EntryView E} (is_user_message : E -> bool).

Abbreviation Stored := (InMemorySessionStorage E).

Definition InMemorySessionRepo : Type := list (string * Stored).

(** [fresh] and [now] are [createSessionId()] and [createTimestamp()]. *)
Definition new_metadata (given : option string) (fresh now : string) : SessionMetadata :=
  {| md_id := default fresh given; md_createdAt := now |}.

Definition mem_add (md : SessionMetadata) (given : option (list E)) (sessions : InMemorySessionRepo)
    : result SessionError (Stored * InMemorySessionRepo) :=
  s <-? newInMemoryStorage given (Some md) md ;;
  Ok (s, map_set (md_id md) s sessions).

Definition mem_create (given : option string) (fresh now : string) (sessions : InMemorySessionRepo)
    : result SessionError (Stored * InMemorySessionRepo) :=
  mem_add (new_metadata given fresh now) None sessions.

Definition mem_open (md : SessionMetadata) (sessions : InMemorySessionRepo) : result SessionError Stored :=
  match map_get (md_id md) sessions with
  | Some s => Ok s
  | None => Err (session_error not_found ("Session not found: " ++ md_id md))
  end.

Definition mem_list (sessions : InMemorySessionRepo) : list SessionMetadata :=
  map (fun js => metadata (snd js)) sessions.

Definition mem_delete (md : SessionMetadata) (sessions : InMemorySessionRepo) : InMemorySessionRepo :=
  map_delete (md_id md) sessions.

(** [None] when the walk to the root does not end. *)
Definition mem_fork (source : SessionMetadata) (options : ForkOptions) (fresh now : string)
    (sessions : InMemorySessionRepo) : option (result SessionError (Stored * InMemorySessionRepo)) :=
  match mem_open source sessions with
  | Err e => Some (Err e)
  | Ok s =>
      forked ← getEntriesToFork is_user_message options s;
      Some (es <-? forked ;; mem_add (new_metadata (fo_id options) fresh now) (Some es) sessions)
  end.
End MemoryRepo.

(** ** jsonl-repo.ts *)

Definition is_slash (a : ascii) : bool := Ascii.eqb a "/"%char || Ascii.eqb a backslash_char.

Definition encodeCwd (cwd : string) : string :=
  let stripped := match cwd with
                  | String a rest => if is_slash a then rest else cwd
                  | EmptyString => cwd
                  end in
  ("--" ++ smap (fun a => if is_slash a || Ascii.eqb a ":"%char then "-"%char else a) stripped ++ "--")%string.

(** [`${timestamp.replace(/[:.]/g, "-")}_${sessionId}.jsonl`] *)
Definition session_file_name (sessionId timestamp : string) : string :=
  (smap (fun a => if Ascii.eqb a ":"%char || Ascii.eqb a "."%char then "-"%char else a) timestamp
   ++ "_" ++ sessionId ++ ".jsonl")%string.

Record FileInfo : Type := {
  file_is_directory : bool;
  file_name : string;
  file_path : string;
}.

Record JsonlCreateOptions : Type := {
  co_cwd : string;
  co_id : option string;
  co_parentSessionPath : option string;
}.

Section JsonlRepo.
(** The file system: names, and what it answers when it is asked. *)
Context (absolutePath : string -> result FileError string) (joinPath : list string -> result FileError string).
Context (exists_ : string -> result FileError bool) (listDir : string -> result FileError (list FileInfo)).
Context (readTextLines : string -> result FileError (list string)).
Context (readTextFile : string -> result FileError string).
(** [new Date(createdAt).getTime()] *)
Context (dateMs : string -> Z).
Context (sessionsRootInput : string).

Definition getSessionsRoot : result SessionError string :=
  getFileSystemResultOrThrow (absolutePath sessionsRootInput)
    ("Failed to resolve sessions root " ++ sessionsRootInput).

Definition getSessionDir (cwd : string) : result SessionError string :=
  root <-? getSessionsRoot ;;
  getFileSystemResultOrThrow (joinPath [root; encodeCwd cwd])
    ("Failed to resolve session directory for " ++ cwd).

Definition createSessionFilePath (cwd sessionId timestamp : string) : result SessionError string :=
  dir <-? getSessionDir cwd ;;
  getFileSystemResultOrThrow (joinPath [dir; session_file_name sessionId timestamp])
    ("Failed to resolve session file path for " ++ sessionId).

(** [dir_io] and [write_io]: how [createDir] and the write of the header end;
    [fresh], [createdAt] and [now]: the identifier and the two times drawn. *)
Definition jsonl_create (dir_io : result FileError unit) (write_io : IoOutcome) (fresh createdAt now : string)
    (options : JsonlCreateOptions) : result SessionError JsonlSessionStorage :=
  let i := default fresh (co_id options) in
  sessionDir <-? getSessionDir (co_cwd options) ;;
  _ <-? getFileSystemResultOrThrow dir_io ("Failed to create session directory " ++ sessionDir) ;;
  filePath <-? createSessionFilePath (co_cwd options) i createdAt ;;
  createStorage write_io filePath (co_cwd options) i now (co_parentSessionPath options).

Definition jsonl_open (md : JsonlSessionMetadata) : result OpenError JsonlSessionStorage :=
  match getFileSystemResultOrThrow (exists_ (jm_path md)) ("Failed to check session " ++ jm_path md) with
  | Err e => Err (Thrown e)
  | Ok false => Err (Thrown (session_error not_found ("Session not found: " ++ jm_path md)))
  | Ok true => openStorage (jm_path md) (readTextFile (jm_path md))
  end.

Definition listSessionDirs : result SessionError (list string) :=
  sessionsRoot <-? getSessionsRoot ;;
  present <-? getFileSystemResultOrThrow (exists_ sessionsRoot) ("Failed to check sessions root " ++ sessionsRoot) ;;
  if negb present then Ok []
  else
    es <-? getFileSystemResultOrThrow (listDir sessionsRoot) ("Failed to list sessions root " ++ sessionsRoot) ;;
    Ok (map file_path (List.filter file_is_directory es)).

Definition is_session_file (f : FileInfo) : bool := negb (file_is_directory f) && endsWith ".jsonl" (file_name f).

(** The sessions of the files of a directory; a file that is no session is
    skipped, any other failure is thrown. *)
Fixpoint load_metadata (files : list FileInfo) : result SessionError (list JsonlSessionMetadata) :=
  match files with
  | [] => Ok []
  | f :: rest =>
      match loadJsonlSessionMetadata (file_path f) (readTextLines (file_path f)) with
      | Ok md => mds <-? load_metadata rest ;; Ok (md :: mds)
      | Err e => if bool_decide (err_code e = invalid_session) then load_metadata rest else Err e
      end
  end.

Fixpoint list_dirs (dirs : list string) : result SessionError (list JsonlSessionMetadata) :=
  match dirs with
  | [] => Ok []
  | dir :: rest =>
      present <-? getFileSystemResultOrThrow (exists_ dir) ("Failed to check session directory " ++ dir) ;;
      if negb present then list_dirs rest
      else
        files <-? getFileSystemResultOrThrow (listDir dir) ("Failed to list sessions in " ++ dir) ;;
        mds <-? load_metadata (List.filter is_session_file files) ;;
        more <-? list_dirs rest ;;
        Ok (mds ++ more)
  end.

(** [(a, b) => getTime(b) - getTime(a)] *)
Definition newest_first (a b : JsonlSessionMetadata) : comparison :=
  Z.compare (dateMs (jm_createdAt b)) (dateMs (jm_createdAt a)).

Definition jsonl_list (cwd : option string) : result SessionError (list JsonlSessionMetadata) :=
  dirs <-? match cwd with
           | None | Some EmptyString => listSessionDirs
           | Some cwd => dir <-? getSessionDir cwd ;; Ok [dir]
           end ;;
  sessions <-? list_dirs dirs ;;
  Ok (stable_sort newest_first sessions).

Definition jsonl_delete (remove_io : result FileError unit) (md : JsonlSessionMetadata) : result SessionError unit :=
  getFileSystemResultOrThrow remove_io ("Failed to delete session " ++ jm_path md).

(** What the call answers; [None] when the walk to the root does not end. The
    file of a fork whose appends failed stays. *)
Definition jsonl_fork (dir_io : result FileError unit) (write_io : IoOutcome) (ios : nat -> IoOutcome)
    (fresh createdAt now : string) (source : JsonlSessionMetadata) (create : JsonlCreateOptions)
    (options : ForkOptions) : option (result OpenError JsonlSessionStorage) :=
  match jsonl_open source with
  | Err e => Some (Err e)
  | Ok s =>
      forked ← getEntriesToFork json_user_message options s;
      Some match forked with
           | Err e => Err (Thrown e)
           | Ok es =>
               match jsonl_create dir_io write_io fresh createdAt now
                       {| co_cwd := co_cwd create; co_id := co_id create;
                          co_parentSessionPath := Some (default (jm_path source) (co_parentSessionPath create)) |} with
               | Err e => Err (Thrown e)
               | Ok fork =>
                   match append_all ios es fork with
                   | (Ok _, fork) => Ok fork
                   | (Err e, _) => Err (Thrown e)
                   end
               end
           end
  end.
End JsonlRepo.

(** ** A branch is a log *)

Section Branch.
Context {E : Type} `{EntryView E}.

Lemma rooted_last (get : string -> option E) (p : list E) (i : string) :
  rooted get p i -> exists p' e, p = p' ++ [e] /\ entry_id e = i /\ get i = Some e.
Proof. destruct 1 as [e He _|p e q _ _ He _]; [by exists [], e|by exists p, e]. Qed.

Lemma rooted_prefix (get : string -> option E) (p : list E) (i j : string) :
  rooted get p i -> j ∈ ids p -> exists p1 p2, p = p1 ++ p2 /\ rooted get p1 j.
Proof.
  induction 1 as [e He Hp|p e q Hr IH Hq He Hp]; intros Hj.
  - apply list_elem_of_singleton in Hj as ->. exists [e], []. split; [done|]. by apply rooted_root.
  - apply elem_of_ids_snoc in Hj as [Hj| ->].
    + destruct (IH Hj) as (p1 & p2 & -> & Hr1). exists p1, (p2 ++ [e]). by rewrite app_assoc.
    + exists (p ++ [e]), []. rewrite app_nil_r. split; [done|]. by eapply rooted_step.
Qed.

(** The path is rooted in itself as it was in the log. *)
Lemma rooted_self (get : string -> option E) (p : list E) (i : string) :
  rooted get p i -> NoDup (ids p) -> rooted (get_in p) p i.
Proof.
  induction 1 as [e He Hp|p e q Hr IH Hq He Hp]; intros Hnd.
  - apply rooted_root; [|done]. change [e] with ([] ++ [e]). rewrite get_in_snoc. by rewrite decide_True.
  - rewrite ids_snoc in Hnd. apply NoDup_app in Hnd as (Hnd & Hf & _).
    assert (Hn : entry_id e ∉ ids p) by (intros Hin; by apply (Hf _ Hin), list_elem_of_singleton).
    eapply rooted_step; [apply rooted_ext; [done|by apply IH]|done| |done].
    rewrite get_in_snoc. by rewrite decide_True.
Qed.

Lemma rooted_app (p more : list E) (i : string) :
  rooted (get_in p) p i -> NoDup (ids (p ++ more)) -> rooted (get_in (p ++ more)) p i.
Proof.
  intros Hr. induction more as [|e more IH] using rev_ind; [by rewrite app_nil_r|]. intros Hnd.
  rewrite app_assoc in *. rewrite ids_snoc in Hnd. apply NoDup_app in Hnd as (Hnd & Hf & _).
  apply rooted_ext; [|by apply IH]. intros Hin. by apply (Hf _ Hin), list_elem_of_singleton.
Qed.

Lemma rooted_wf (l p : list E) (i : string) :
  wf_log l -> rooted (get_in l) p i -> NoDup (ids p) -> Forall (fun e => entry_leaf_target e = None) p -> wf_log p.
Proof.
  intros Hwf. assert (Hne : forall e, get_in l (entry_id e) = Some e -> entry_id e <> EmptyString).
  { intros e He. eapply wf_nonempty; [done|]. apply get_in_ids. eauto. }
  induction 1 as [e He Hp|p e q Hr IH Hq He Hp]; intros Hnd Hl.
  - change [e] with ([] ++ [e]). inversion Hl as [|? ? Ht _]. apply wf_snoc; try constructor; try congruence; auto.
    by intros ?%elem_of_nil.
  - rewrite ids_snoc in Hnd. apply NoDup_app in Hnd as (Hnd & Hf & _).
    apply Forall_app in Hl as [Hl Ht]. inversion Ht as [|? ? Ht' _].
    apply wf_snoc; [by apply IH|by apply Hne| | |congruence].
    + intros Hin. by apply (Hf _ Hin), list_elem_of_singleton.
    + intros q'. rewrite Hp. intros [= <-]. destruct (rooted_last _ _ _ Hr) as (p' & z & -> & <- & _).
      apply elem_of_ids_snoc. by right.
Qed.

(** What [log_path] gives for an entry is rooted at it. *)
Lemma log_path_inv (l p : list E) (i : string) :
  wf_log l -> log_path l (Some i) = Some (Ok p) ->
  rooted (get_in l) p i /\ NoDup (ids p) /\ (length p <= length l)%nat.
Proof.
  intros Hwf Hp. assert (Hi : i ∈ ids l).
  { unfold log_path, path_to_root in Hp. apply get_in_ids. destruct (get_in l i); [by eexists|done]. }
  destruct (log_path_total l i Hwf Hi) as (p' & Hp' & Hr & Hlen). rewrite Hp in Hp'. injection Hp' as <-.
  split_and!; [done| |done]. by eapply log_path_NoDup.
Qed.

(** The branches of a branch are those of the log. *)
Lemma branch_paths (l p : list E) (i j : string) :
  wf_log l -> log_path l (Some i) = Some (Ok p) -> j ∈ ids p -> log_path p (Some j) = log_path l (Some j).
Proof.
  intros Hwf Hp Hj. destruct (log_path_inv l p i Hwf Hp) as (Hr & Hnd & Hlen).
  destruct (rooted_prefix _ _ _ _ Hr Hj) as (p1 & p2 & -> & Hr1). rewrite length_app in Hlen.
  rewrite (log_path_rooted l p1 j Hr1) by lia. apply log_path_rooted; [|rewrite length_app; lia].
  apply rooted_app; [|done]. eapply rooted_self; [exact Hr1|].
  unfold ids in *. rewrite map_app in Hnd. by apply NoDup_app in Hnd as [? _].
Qed.

Lemma branch_leaf (l p : list E) (leaf : option string) :
  wf_log l -> log_path l leaf = Some (Ok p) -> Forall (fun e => entry_leaf_target e = None) p ->
  wf_log p /\ leaf_after_all p = leaf /\ log_path p leaf = Some (Ok p).
Proof.
  intros Hwf Hp Hl. destruct leaf as [i|]; [|by injection Hp as <-; repeat constructor].
  destruct (log_path_inv l p i Hwf Hp) as (Hr & Hnd & _).
  split_and!; [by eapply rooted_wf| |].
  - destruct (rooted_last _ _ _ Hr) as (p' & e & -> & <- & _). rewrite leaf_after_snoc.
    apply Forall_app in Hl as [_ Ht]. inversion Ht as [|? ? Ht' _]. unfold leafIdAfterEntry. by rewrite Ht'.
  - rewrite (branch_paths l p i i Hwf Hp); [done|].
    destruct (rooted_last _ _ _ Hr) as (p' & e & -> & <- & _). apply elem_of_ids_snoc. by right.
Qed.
End Branch.

(** ** What a fork holds *)

(** The fork is the branch [p] of the source: active, with every branch of the
    source that it contains. *)
Definition holds_branch {S1 S2 E} `{SessionStorage S1 E, !SessionStorage S2 E} (s : S1) (f : S2)
    (leaf : option string) (p : list E) : Prop :=
  storage_log f = p /\ getBranch None f = Some (Ok p) /\ getPathToRoot leaf s = Some (Ok p) /\
  forall j, j ∈ ids p -> getBranch (Some j) f = getBranch (Some j) s.

Lemma fork_holds {S1 S2 E} `{EntryView E, !SessionStorage S1 E, !StorageLaws S1 E, !SessionStorage S2 E,
    !StorageLaws S2 E} (s : S1) (f : S2) (leaf : option string) (p : list E) :
  storage_ok s -> wf_log (storage_log s) -> storage_ok f -> storage_log f = p ->
  log_path (storage_log s) leaf = Some (Ok p) -> Forall (fun e => entry_leaf_target e = None) p ->
  wf_log p /\ holds_branch s f leaf p.
Proof.
  intros Hok Hwf Hokf Hf Hp Hl. destruct (branch_leaf _ _ _ Hwf Hp Hl) as (Hwfp & Hleaf & Hpp).
  split; [done|]. split_and!; [done| |by rewrite law_getPathToRoot|].
  - rewrite getBranch_log, Hf, Hleaf by (rewrite ?Hf; done). by destruct leaf.
  - intros j Hj. rewrite !getBranch_log by (rewrite ?Hf; done). rewrite Hf.
    destruct leaf as [i|]; [by eapply branch_paths|]. injection Hp as <-. by apply elem_of_nil in Hj.
Qed.

(** Where the options fork: at the entry, or before it when it is a user message. *)
Definition fork_leaf {E} `{EntryView E} (is_user_message : E -> bool) (options : ForkOptions) (e : E)
    (leaf : option string) : Prop :=
  match default fork_before (fo_position options) with
  | fork_at => leaf = Some (entry_id e)
  | fork_before => is_user_message e = true /\ leaf = entry_parent e
  end.

Definition no_leaf_entries {E} `{EntryView E} (p : list E) : Prop :=
  Forall (fun e => entry_leaf_target e = None) p.

Section ForkEntries.
Context {S E : Type} `{StorageLaws S E} `{!EntryLaws E} (is_user_message : E -> bool).

Lemma wf_parent (l : list E) (e : E) (q : string) :
  wf_log l -> e ∈ l -> entry_parent e = Some q -> q ∈ ids l.
Proof.
  intros Hwf. induction Hwf as [|l x Hl IH _ _ Hp _]; intros He Hq; [by apply elem_of_nil in He|].
  apply elem_of_ids_snoc. left. apply elem_of_app in He as [He|He]; [by apply IH|].
  apply list_elem_of_singleton in He as ->. by apply Hp.
Qed.

Lemma fork_entries (s : S) (options : ForkOptions) (i : string) (e : E) (leaf : option string) :
  storage_ok s -> wf_log (storage_log s) -> fo_entryId options = Some i ->
  get_in (storage_log s) i = Some e -> fork_leaf is_user_message options e leaf ->
  exists p, getEntriesToFork is_user_message options s = Some (Ok p) /\
            log_path (storage_log s) leaf = Some (Ok p).
Proof.
  intros Hok Hwf Hi He Hleaf. destruct (get_in_id _ _ _ He) as [<- Hin].
  assert (Hne : entry_id e <> EmptyString) by (eapply wf_nonempty; [done|]; apply get_in_ids; eauto).
  assert (Hpath : exists p, log_path (storage_log s) leaf = Some (Ok p)).
  { assert (Hids : forall j, leaf = Some j -> j ∈ ids (storage_log s)).
    { intros j ->. unfold fork_leaf in Hleaf. destruct (default _ _).
      - destruct Hleaf as [_ Hq]. by eapply wf_parent.
      - injection Hleaf as ->. apply get_in_ids. eauto. }
    destruct leaf as [j|]; [|by exists []].
    destruct (log_path_total _ j Hwf (Hids j eq_refl)) as (p & Hp & _). eauto. }
  destruct Hpath as [p Hp]. exists p. split; [|exact Hp]. unfold getEntriesToFork. rewrite Hi.
  destruct (entry_id e) as [|a b] eqn:Eid; [done|]. rewrite law_getEntry, He by done.
  unfold fork_leaf in Hleaf. destruct (default _ _).
  - destruct Hleaf as [-> ->]. by rewrite law_getPathToRoot.
  - rewrite law_getPathToRoot by done. by rewrite <- Hleaf.
Qed.
End ForkEntries.

(** ** Forks of the in-memory repository *)

Section MemoryFork.
Context {E : Type} `{EntryLaws E} (is_user_message : E -> bool).

(** The constructor accepts a well-formed log. *)
Lemma new_storage_ok (es : list E) (md md0 : SessionMetadata) :
  wf_log es -> newInMemoryStorage (Some es) (Some md) md0 = Ok {| metadata := md; core := core_of es |}.
Proof.
  intros Hwf. unfold newInMemoryStorage. cbn [default].
  pose proof (leaf_unknown_synced (core_of es) (leafId (core_of es)) (core_of_synced es)) as Hu.
  destruct (leaf_unknown _ _) as [i|]; [|done]. exfalso. destruct Hu as [Hi Hn]. apply Hn. by eapply wf_leaf.
Qed.

(** A fork is the branch it was asked for. Forking at an entry, or before
    a user message, of a stored session whose log is well formed gives a new
    session, stored under its own id with every other session left as it was;
    the active branch of the new session is the path to that point in the source,
    and any branch of the source inside that path is a branch of the fork. *)
Theorem memory_fork_is_branch (source : SessionMetadata) (options : ForkOptions) (fresh now i : string)
    (sessions : InMemorySessionRepo) (s : InMemorySessionStorage E) (e : E) (leaf : option string) :
  mem_open source sessions = Ok s -> storage_ok s -> wf_log (storage_log s) ->
  fo_entryId options = Some i -> get_in (storage_log s) i = Some e ->
  fork_leaf is_user_message options e leaf ->
  exists p, getPathToRoot leaf s = Some (Ok p) /\
    (no_leaf_entries p ->
     exists f sessions', mem_fork is_user_message source options fresh now sessions = Some (Ok (f, sessions')) /\
       storage_ok f /\ wf_log (storage_log f) /\ holds_branch s f leaf p /\
       metadata f = {| md_id := default fresh (fo_id options); md_createdAt := now |} /\
       mem_open (metadata f) sessions' = Ok f /\
       forall md, md_id md <> md_id (metadata f) -> mem_open md sessions' = mem_open md sessions).
Proof.
  intros Hs Hok Hwf Hi He Hleaf.
  destruct (fork_entries is_user_message s options i e leaf Hok Hwf Hi He Hleaf) as (p & Hf & Hp).
  exists p. split; [by rewrite law_getPathToRoot|]. intros Hl.
  set (md := new_metadata (fo_id options) fresh now).
  set (f := {| metadata := md; core := core_of p |}). exists f, (map_set (md_id md) f sessions).
  assert (Hokf : storage_ok f) by exact (core_of_synced p).
  destruct (fork_holds s f leaf p Hok Hwf Hokf eq_refl Hp Hl) as [Hwfp Hb].
  split_and!; [|done|done|done|done| |].
  - unfold mem_fork. rewrite Hs, Hf. cbn. unfold mem_add. by rewrite new_storage_ok.
  - unfold mem_open. by rewrite map_get_set, String.eqb_refl.
  - intros md' Hne. unfold mem_open. rewrite map_get_set, (proj2 (String.eqb_neq _ _)); done.
Qed.
End MemoryFork.

(** ** Forks of the file repository *)

Lemma append_all_ok {S E} `{StorageLaws S E} (ios : nat -> IoOutcome) (es : list E) (s : S) :
  storage_ok s -> (forall n, ios n = IoOk) ->
  exists s', append_all ios es s = (Ok tt, s') /\ storage_ok s' /\ storage_log s' = (storage_log s ++ es)%list.
Proof.
  revert ios s. induction es as [|e es IH]; intros ios s Hok Hio; [exists s; by rewrite app_nil_r|].
  cbn [append_all]. rewrite Hio. destruct (appendEntry IoOk e s) as [r s1] eqn:Ea.
  destruct (law_appendEntry s IoOk e r s1 Hok Ea) as (Hok1 & Hr & Hl). rewrite (Hr eq_refl) in *.
  destruct (IH (fun n => ios (n + 1)%nat) s1 Hok1) as (s' & -> & Hok' & Hl'); [done|].
  exists s'. split_and!; [done|done|]. rewrite Hl', Hl. by rewrite <- app_assoc.
Qed.

(** Valid entries written one by one leave file and memory in agreement. *)
Lemma append_all_writes (ios : nat -> IoOutcome) (es : list json) (s s' : JsonlSessionStorage) (r : result SessionError unit) :
  (forall n, ios n = IoOk) -> Forall valid_entry es -> forallb label_readable es = true ->
  append_all ios es s = (r, s') -> storage_ok s -> rtc jsonl_write s s'.
Proof.
  intros Hio Hv. revert ios s Hio. induction Hv as [|e es He Hes IH]; intros ios s Hio Hl; [intros [= _ <-] _; apply rtc_refl|].
  cbn [append_all forallb] in *. rewrite Hio. apply andb_true_iff in Hl as [Hle Hl].
  destruct (appendEntry IoOk e s) as [r1 s1] eqn:Ea. intros Happ Hok.
  destruct (law_appendEntry s IoOk e r1 s1 Hok Ea) as (Hok1 & Hr & _). rewrite (Hr eq_refl) in *.
  eapply rtc_l; [by eapply (write_append s e (Ok tt))|]. exact (IH (fun n => ios (n + 1)%nat) s1 (fun n => Hio _) Hl Happ Hok1).
Qed.

Lemma open_agrees (path : string) (content : result FileError string) (s : JsonlSessionStorage) :
  openStorage path content = Ok s -> agrees s.
Proof.
  unfold openStorage. destruct content as [text|e]; cbn [getFileSystemResultOrThrow]; [|done].
  destruct (loadJsonlStorage path text) as [ld|e] eqn:El; [|done].
  destruct (forallb label_readable (ld_entries ld)) eqn:Hl; [|done]. intros [= <-].
  split_and!; [|done|exact Hl]. unfold durable. cbn. rewrite El. by destruct ld.
Qed.

Lemma path_entries (s : JsonlSessionStorage) (leaf : option string) (p : list json) :
  agrees s -> wf_log (storage_log s) -> log_path (storage_log s) leaf = Some (Ok p) ->
  Forall valid_entry p /\ forallb label_readable p = true.
Proof.
  intros (Hd & _ & Hl) Hwf Hp. destruct leaf as [i|]; [|by injection Hp as <-].
  assert (Hsub : forall e, e ∈ p -> e ∈ entries (jl_core s)).
  { intros e He. eapply elem_of_submseteq; [exact He|]. apply sublist_submseteq. by apply (log_path_sublist _ i). }
  destruct (durable_parts s Hd) as [_ Hv]. split.
  - apply Forall_forall. intros e He. rewrite Forall_forall in Hv. auto.
  - apply forallb_forall. intros e He. rewrite forallb_forall in Hl. apply Hl. apply list_elem_of_In, Hsub. by apply list_elem_of_In.
Qed.

Section JsonlFork.
Context (absolutePath : string -> result FileError string) (joinPath : list string -> result FileError string).
Context (exists_ : string -> result FileError bool) (readTextFile : string -> result FileError string).
Context (root_input : string).

Abbreviation create := (jsonl_create absolutePath joinPath root_input).
Abbreviation fork := (jsonl_fork absolutePath joinPath exists_ readTextFile root_input).

Lemma create_inv (fresh createdAt now : string) (options : JsonlCreateOptions) (f : JsonlSessionStorage) :
  create (Ok tt) IoOk fresh createdAt now options = Ok f ->
  exists path, createStorage IoOk path (co_cwd options) (default fresh (co_id options)) now
                 (co_parentSessionPath options) = Ok f.
Proof.
  unfold jsonl_create. destruct (getSessionDir _ _ _ _) as [dir|]; [|done]. cbn [result_bind getFileSystemResultOrThrow].
  destruct (createSessionFilePath _ _ _ _ _ _) as [path|]; [|done]. cbn [result_bind]. by exists path.
Qed.

(** What the fork is created with. *)
Definition fork_create (source : JsonlSessionMetadata) (create : JsonlCreateOptions) : JsonlCreateOptions :=
  {| co_cwd := co_cwd create; co_id := co_id create;
     co_parentSessionPath := Some (default (jm_path source) (co_parentSessionPath create)) |}.

(** A fork of a session file is a session file of the branch. When the
    source opens with a well-formed log, the new file can be created and its
    writes succeed, the fork at an entry, or before a user message, holds exactly
    the branch up to there, names the source as its parent session unless another
    is given, and reading its file from scratch gives back the very state the
    program holds. *)
Theorem jsonl_fork_is_branch (source : JsonlSessionMetadata) (options : ForkOptions) (copts : JsonlCreateOptions)
    (ios : nat -> IoOutcome) (fresh createdAt now i : string) (s f0 : JsonlSessionStorage) (e : json)
    (leaf : option string) :
  jsonl_open exists_ readTextFile source = Ok s -> wf_log (storage_log s) ->
  fo_entryId options = Some i -> get_in (storage_log s) i = Some e -> fork_leaf json_user_message options e leaf ->
  create (Ok tt) IoOk fresh createdAt now (fork_create source copts) = Ok f0 -> (forall n, ios n = IoOk) ->
  default fresh (co_id copts) <> EmptyString -> now <> EmptyString -> co_cwd copts <> EmptyString ->
  exists p, getPathToRoot leaf s = Some (Ok p) /\
    (no_leaf_entries p ->
     exists f, fork (Ok tt) IoOk ios fresh createdAt now source copts options = Some (Ok f) /\
       holds_branch s f leaf p /\
       hd_parentSession (jl_header f) = Some (default (jm_path source) (co_parentSessionPath copts)) /\
       openStorage (jl_path f) (Ok (jl_file f)) = Ok f).
Proof.
  intros Hs Hwf Hi He Hleaf Hf0 Hio Hid Hnow Hcwd.
  assert (Has : agrees s).
  { revert Hs. unfold jsonl_open. destruct (getFileSystemResultOrThrow _ _) as [[]|]; [|done|done]. apply open_agrees. }
  assert (Hok : storage_ok s) by apply Has.
  destruct (fork_entries json_user_message s options i e leaf Hok Hwf Hi He Hleaf) as (p & Hg & Hp).
  exists p. split; [by rewrite law_getPathToRoot|]. intros Hl.
  destruct (create_inv _ _ _ _ _ Hf0) as [path Hc].
  pose proof (created_agrees _ _ _ _ _ _ Hid Hnow Hcwd Hc) as Ha0.
  assert (Hok0 : storage_ok f0) by apply Ha0. apply Ok_inj in Hc.
  destruct (append_all_ok ios p f0 Hok0 Hio) as (f & Happ & Hokf & Hlog).
  destruct (path_entries s leaf p Has Hwf Hp) as [Hv Hr].
  pose proof (append_all_writes ios p f0 f _ Hio Hv Hr Happ Hok0) as Hruns.
  assert (Hlogf : storage_log f = p) by (rewrite Hlog, <- Hc; done).
  exists f. split_and!.
  - unfold jsonl_fork. rewrite Hs, Hg. cbn. unfold fork_create in Hf0. by rewrite Hf0, Happ.
  - by destruct (fork_holds s f leaf p Hok Hwf Hokf Hlogf Hp Hl) as [_ ?].
  - transitivity (hd_parentSession (jl_header f0)); [|by rewrite <- Hc]. clear -Hruns.
    induction Hruns as [|a b c Hw _ IH]; [done|]. rewrite IH. clear IH. destruct Hw as [x r s' _ _ Ha|l uuids now' r s' _ _ Ha].
    + by injection Ha as _ <-.
    + revert Ha. unfold jsonl_setLeafId. destruct (leaf_unknown _ _); [by intros [= _ <-]|]. by intros [= _ <-].
  - by apply agrees_open, (runs_agree f0).
Qed.
End JsonlFork.

(** ** Concrete forks *)

(** The sessions of two directories are in one: listing the sessions of either
    lists those of both. *)
Lemma directories_collide :
  encodeCwd "/work/app" = encodeCwd "/work-app" /\ encodeCwd "/work/app" = encodeCwd "work/app".
Proof. split; reflexivity. Qed.

Section Demo.
Definition fork_source : InMemorySessionStorage SessionTreeEntry :=
  snd (appendMessage (demo_inputs 3) (user_message "three") demo_session).

Definition fork_before_second : ForkOptions :=
  {| fo_entryId := Some "u3"; fo_position := None; fo_id := Some "copy" |}.

Lemma fork_source_ok : storage_ok fork_source /\ wf_log (storage_log fork_source).
Proof.
  assert (Hr : rtc session_step demo_empty fork_source).
  { eapply rtc_trans; [exact demo_run|]. eapply rtc_l; [apply (demo_step 3 "three"); reflexivity|apply rtc_refl]. }
  by destruct (steps_extend demo_empty fork_source demo_empty_ok wf_nil Hr) as (? & ? & _).
Qed.

Lemma memory_fork_is_branch_witness :
  exists f sessions' p,
    mem_fork typed_user_message (metadata fork_source) fork_before_second "fresh" "now" [("s", fork_source)]
      = Some (Ok (f, sessions')) /\
    holds_branch fork_source f (Some "u2") p /\ map id p = ["u1"; "u2"].
Proof.
  destruct fork_source_ok as [Hok Hwf].
  destruct (memory_fork_is_branch typed_user_message (metadata fork_source) fork_before_second "fresh" "now" "u3"
              [("s", fork_source)] fork_source (List.nth 2 (storage_log fork_source) (entry_make "" None "" (LeafEntry None)))
              (Some "u2")) as (p & Hp & Hf).
  - reflexivity.
  - exact Hok.
  - exact Hwf.
  - reflexivity.
  - vm_compute. reflexivity.
  - vm_compute. split; reflexivity.
  - assert (Hids : p = firstn 2 (storage_log fork_source)) by (vm_compute in Hp |- *; by injection Hp as <-).
    destruct Hf as (f & sessions' & Hm & _ & _ & Hb & _).
    { rewrite Hids. vm_compute. repeat constructor. }
    exists f, sessions', p. split; [exact Hm|]. split; [exact Hb|]. rewrite Hids. vm_compute. reflexivity.
Defined.

Definition demo_two : JsonlSessionStorage := snd (jsonl_appendEntry IoOk (jl_entry "b" (Some "a") "again") demo_one).

Definition demo_md : JsonlSessionMetadata :=
  {| jm_id := "s1"; jm_createdAt := "2026-01-01T00:00:00.000Z"; jm_cwd := "/work"; jm_path := "/s.jsonl";
     jm_parentSessionPath := None |}.

Definition demo_join (parts : list string) : result FileError string := Ok (String.concat "/" parts).

Definition demo_copts : JsonlCreateOptions :=
  {| co_cwd := "/work"; co_id := None; co_parentSessionPath := None |}.

Lemma jsonl_fork_is_branch_witness :
  exists f p,
    jsonl_fork (fun p => Ok p) demo_join (fun _ => Ok true) (fun _ => Ok (jl_file demo_two)) "/root"
      (Ok tt) IoOk (fun _ => IoOk) "s2" "2026-01-02" "2026-01-02" demo_md demo_copts
      {| fo_entryId := Some "a"; fo_position := Some fork_at; fo_id := None |} = Some (Ok f) /\
    holds_branch demo_two f (Some "a") p /\ openStorage (jl_path f) (Ok (jl_file f)) = Ok f.
Proof.
  assert (Hopen : jsonl_open (fun _ => Ok true) (fun _ => Ok (jl_file demo_two)) demo_md = Ok demo_two)
    by (vm_compute; reflexivity).
  assert (Hwf : wf_log (storage_log demo_two)).
  { change (wf_log (([] ++ [jl_entry "a" None "hello"]) ++ [jl_entry "b" (Some "a") "again"])).
    apply wf_snoc; [apply wf_snoc; [apply wf_nil|..]|..]; try discriminate.
    - intros ?%elem_of_nil. done.
    - intros ?%list_elem_of_singleton. discriminate.
    - intros q [= <-]. by apply list_elem_of_singleton. }
  destruct (jsonl_create (fun p => Ok p) demo_join "/root" (Ok tt) IoOk "s2" "2026-01-02" "2026-01-02"
              (fork_create demo_md demo_copts)) as [f0|] eqn:Hf0; [|vm_compute in Hf0; discriminate Hf0].
  destruct (jsonl_fork_is_branch (fun p => Ok p) demo_join (fun _ => Ok true) (fun _ => Ok (jl_file demo_two)) "/root"
              demo_md {| fo_entryId := Some "a"; fo_position := Some fork_at; fo_id := None |} demo_copts
              (fun _ => IoOk) "s2" "2026-01-02" "2026-01-02" "a" demo_two f0 (jl_entry "a" None "hello") (Some "a"))
    as (p & Hp & Hf); try first [exact Hopen|exact Hwf|exact Hf0|discriminate|reflexivity].
  assert (Hids : p = firstn 1 (storage_log demo_two)) by (vm_compute in Hp |- *; by injection Hp as <-).
  destruct Hf as (f & Hm & Hb & _ & Ho).
  { rewrite Hids. vm_compute. repeat constructor. }
  exists f, p. split; [exact Hm|]. split; [exact Hb|exact Ho].
Defined.
End Demo.
