(* ===== verification/LoopGates.v ===== *)
(** * Safety gates of the automation loops (packages/coding-agent/src/core/loop-gates.ts)

    Before a loop may act on a work item, the gates check the loop's state, the
    write scope it asks for, the files it changed, worktree, durable state,
    human approval and verification. Paths are compared lexically after
    [normalizePath]; a scope with a star is a pattern. *)

From Stdlib Require Import Ascii String ZArith Lia.
From stdpp Require Import base list option strings.
From S2P Require Import Prelude JsString JsValue Regex PathSegments.

Open Scope string_scope.
Open Scope list_scope.

(** ** Paths and scopes *)

(** [s.replace(/\/+/g, "/")] *)
Fixpoint squeeze (s : string) : string :=
  match s with
  | String a s' =>
      let r := squeeze s' in
      if Ascii.eqb a slash
      then match r with
           | String b _ => if Ascii.eqb b slash then r else String a r
           | EmptyString => String a r
           end
      else String a r
  | EmptyString => EmptyString
  end.

(** [s.replace(/^\.\//, EmptyString)] *)
Definition drop_dot_slash (s : string) : string := if startsWith "./" s then slice 2 s else s.

(** [s.replace(/\/$/, EmptyString)] *)
Fixpoint drop_last_slash (s : string) : string :=
  match s with
  | EmptyString => EmptyString
  | String a EmptyString => if Ascii.eqb a slash then EmptyString else s
  | String a s' => String a (drop_last_slash s')
  end.

Definition clean_path (path : string) : string :=
  drop_last_slash (drop_dot_slash (squeeze (normalizePathSlashes (trim path)))).

(** [/(^|\/)\.\.?(\/|$)/.test(cleaned)] *)
Definition has_dot_segment (cleaned : string) : bool :=
  existsb (fun segment => String.eqb segment "." || String.eqb segment "..") (split slash cleaned).

(** The loop over the segments: what is left and how often it climbed out. *)
Fixpoint collapse_segments (isAbsolute : bool) (segments collapsed : list string) (escapes : nat)
    : list string * nat :=
  match segments with
  | [] => (collapsed, escapes)
  | segment :: rest =>
      if is_empty segment || String.eqb segment "." then collapse_segments isAbsolute rest collapsed escapes
      else if String.eqb segment ".."
      then match collapsed with
           | _ :: _ => collapse_segments isAbsolute rest (removelast collapsed) escapes
           | [] => collapse_segments isAbsolute rest [] (if isAbsolute then escapes else S escapes)
           end
      else collapse_segments isAbsolute rest (collapsed ++ [segment]) escapes
  end.

(** [text.repeat(n)] *)
Fixpoint repeat_text (n : nat) (text : string) : string :=
  match n with
  | O => EmptyString
  | S n => (text ++ repeat_text n text)%string
  end.

Definition normalizePath (path : string) : string :=
  let cleaned := clean_path path in
  if negb (has_dot_segment cleaned) then cleaned
  else
    let isAbsolute := startsWith "/" cleaned in
    let (collapsed, escapes) := collapse_segments isAbsolute (split slash cleaned) [] 0 in
    let joined := ((if isAbsolute then "/" else repeat_text escapes "../") ++ join "/" collapsed)%string in
    if String.eqb joined "/" then joined else drop_last_slash joined.

Definition pathHasScopePrefix (path scope : string) : bool :=
  String.eqb path scope || startsWith (scope ++ "/") path.

(** The pattern of [globToRegExp] after [^]; any other character is escaped. *)
Fixpoint glob_pattern (glob : string) : regex :=
  match glob with
  | EmptyString => REnd
  | String "*" (String "*" rest) =>
      RSeq (RStar (RChar (fun a => negb (is_line_terminator a)))) (glob_pattern rest)
  | String "*" rest => RSeq (RStar (RChar (fun a => negb (Ascii.eqb a slash)))) (glob_pattern rest)
  | String char rest => RSeq (RChar (Ascii.eqb char)) (glob_pattern rest)
  end.

Definition globToRegExp (glob : string) : regex := RSeq RBegin (glob_pattern glob).

Definition scopeMatchesPath (path scope : string) : bool :=
  let normalizedPath := normalizePath path in
  let normalizedScope := normalizePath scope in
  if is_empty normalizedPath || is_empty normalizedScope then false
  else if includes "*" normalizedScope then rx_test (globToRegExp normalizedScope) normalizedPath
  else pathHasScopePrefix normalizedPath normalizedScope.

Definition scopesOverlap (first second : string) : bool :=
  scopeMatchesPath first second || scopeMatchesPath second first.

Definition matchesAnyScope (path : string) (scopes : list string) : bool :=
  existsb (scopeMatchesPath path) scopes.

(** ** Definitions, state and evidence: the fields the gates read *)

Inductive LoopLevel : Type := L1 | L2 | L3.

Definition level_str (level : LoopLevel) : string :=
  match level with
  | L1 => "L1"
  | L2 => "L2"
  | L3 => "L3"
  end.

Inductive LoopStatus : Type := ready | active | paused | retired.

Definition status_str (status : LoopStatus) : string :=
  match status with
  | ready => "ready"
  | active => "active"
  | paused => "paused"
  | retired => "retired"
  end.

Inductive LoopWorktreeIsolationMode : Type := mode_none | per_run | per_item.

Inductive LoopWorkItemRisk : Type := risk_low | risk_medium | risk_high.

#[export] Instance LoopWorkItemRisk_eq_dec : EqDecision LoopWorkItemRisk.
Proof. solve_decision. Defined.

Inductive LoopRunOutcome : Type :=
| report_only | fix_proposed | no_op | escalated | budget_blocked | collision_skipped | verifier_failed | killed.

Record LoopSafetyPolicy : Type := {
  requireIndependentVerifier : bool;
  requireHumanGateForHighRisk : bool;
  allowedWriteScopes : list string;
  deniedWriteScopes : option (list string);
  maxWriteScopeCount : option nat;
}.

Record LoopWorktreeIsolationPolicy : Type := {
  wt_mode : LoopWorktreeIsolationMode;
  branchPrefix : option string;
  requireCleanCheckout : bool;
}.

Record LoopHumanGatePolicy : Type := {
  requiredForRisks : list LoopWorkItemRisk;
  approvalRefsRequired : bool;
}.

Record LoopDefinition : Type := {
  level : LoopLevel;
  maxAttemptsPerItem : nat;
  safety : LoopSafetyPolicy;
  worktree : option LoopWorktreeIsolationPolicy;
  requireReplayableEvidence : option bool;
  humanGates : option LoopHumanGatePolicy;
}.

Record LoopState : Type := {
  status : LoopStatus;
  killSwitch : option bool;
}.

Record LoopWorkItem : Type := {
  item_id : string;
  risk : LoopWorkItemRisk;
  attemptCount : nat;
}.

Inductive LoopVerifierStatus : Type := pass | fail | blocked.

Definition verifier_status_str (status : LoopVerifierStatus) : string :=
  match status with
  | pass => "pass"
  | fail => "fail"
  | blocked => "blocked"
  end.

Record LoopVerifierEvidence : Type := {
  independent : bool;
  verifier_status : option LoopVerifierStatus;
  verifier_evidenceRefs : option (list string);
  verifierId : option string;
  implementerId : option string;
}.

Record LoopHumanGateEvidence : Type := {
  approved : bool;
  approvalRef : option string;
}.

Record LoopWorktreeEvidence : Type := {
  isolated : bool;
  worktreeId : option string;
  branch : option string;
  cleanCheckout : option bool;
}.

Record LoopDurableStateEvidence : Type := {
  stateRevision : option string;
  runLogRef : option string;
  budgetReservationId : option string;
}.

Record LoopGateEvidence : Type := {
  writeScope : option (list string);
  changedFiles : option (list string);
  evidenceRefs : option (list string);
  verifier : option LoopVerifierEvidence;
  humanGate : option LoopHumanGateEvidence;
  ev_worktree : option LoopWorktreeEvidence;
  durableState : option LoopDurableStateEvidence;
}.

Inductive LoopGateAction : Type := allow | block | human_gate | escalate.

Record LoopValidationDiagnostic : Type := {
  diag_code : string;
  diag_message : string;
  diag_path : option string;
}.

Record LoopSafetyGateResult : Type := {
  passed : bool;
  action : LoopGateAction;
  outcome : option LoopRunOutcome;
  diagnostics : list LoopValidationDiagnostic;
}.

Definition diagnostic (code message : string) : LoopValidationDiagnostic :=
  {| diag_code := code; diag_message := message; diag_path := None |}.

Definition diagnostic_at (code message path : string) : LoopValidationDiagnostic :=
  {| diag_code := code; diag_message := message; diag_path := Some path |}.

(** [!value?.trim()] *)
Definition blank (value : option string) : bool :=
  match value with
  | Some s => is_empty (trim s)
  | None => true
  end.

Definition hasEvidenceRefs (refs : option (list string)) : bool :=
  match refs with
  | Some refs => existsb (fun ref => (0 <? String.length (trim ref))%nat) refs
  | None => false
  end.

(** ** The checks *)

Definition checkWritePath (definition : LoopDefinition) (path : string) : list LoopValidationDiagnostic :=
  let normalizedPath := normalizePath path in
  if is_empty normalizedPath then [diagnostic "write-scope-empty-path" "Write scope contains an empty path."]
  else
    (if negb (matchesAnyScope normalizedPath (allowedWriteScopes (safety definition)))
     then [diagnostic_at "write-scope-outside-allowed"
             ("Path " ++ normalizedPath ++ " is outside allowedWriteScopes.") normalizedPath]
     else [])
    ++ (if matchesAnyScope normalizedPath (default [] (deniedWriteScopes (safety definition)))
        then [diagnostic_at "write-scope-denied"
                ("Path " ++ normalizedPath ++ " is inside deniedWriteScopes.") normalizedPath]
        else []).

Definition acts (level : LoopLevel) : bool :=
  match level with
  | L1 => false
  | L2 | L3 => true
  end.

Definition validateLoopWriteScope (definition : LoopDefinition) (paths : list string)
    : list LoopValidationDiagnostic :=
  (if (length paths =? 0)%nat && acts (level definition)
   then [diagnostic "write-scope-empty" (level_str (level definition) ++ " loops require explicit write paths.")]
   else [])
  ++ match maxWriteScopeCount (safety definition) with
     | Some max =>
         if (max <? length paths)%nat
         then [diagnostic "write-scope-count-exceeded"
                 ("Write scope count " ++ nat_str (length paths) ++ " exceeds maxWriteScopeCount="
                  ++ nat_str max ++ ".")]
         else []
     | None => []
     end
  ++ concat (map (checkWritePath definition) paths).

(** A requested scope and a denied one. *)
Definition deniedOverlap (normalizedRequested deniedScope : string) : list LoopValidationDiagnostic :=
  let normalizedDenied := normalizePath deniedScope in
  if negb (is_empty normalizedDenied) && scopesOverlap normalizedRequested normalizedDenied
  then [diagnostic_at "write-scope-denied-overlap"
          ("Requested writeScope " ++ normalizedRequested ++ " overlaps deniedWriteScope "
           ++ normalizedDenied ++ ".") normalizedRequested]
  else [].

Definition validateRequestedWriteScopeDoesNotOverlapDenied (definition : LoopDefinition)
    (requestedScopes : list string) : list LoopValidationDiagnostic :=
  concat (map (fun requestedScope =>
                 let normalizedRequested := normalizePath requestedScope in
                 if is_empty normalizedRequested then []
                 else concat (map (deniedOverlap normalizedRequested)
                                (default [] (deniedWriteScopes (safety definition)))))
            requestedScopes).

Definition checkChangedFile (writeScope : list string) (changedFile : string) : list LoopValidationDiagnostic :=
  let normalizedFile := normalizePath changedFile in
  if is_empty normalizedFile then []
  else if negb (matchesAnyScope normalizedFile writeScope)
  then [diagnostic_at "changed-file-outside-write-scope"
          ("Changed file " ++ normalizedFile ++ " is outside the requested writeScope.") normalizedFile]
  else [].

Definition validateChangedFilesWithinRequestedScope (writeScope changedFiles : list string)
    : list LoopValidationDiagnostic :=
  concat (map (checkChangedFile writeScope) changedFiles).

Definition requiresWorktreeIsolation (definition : LoopDefinition) : bool :=
  match worktree definition with
  | Some policy =>
      match wt_mode policy with
      | mode_none => false
      | per_run | per_item => true
      end
  | None => false
  end.

Definition branch_mismatch (definition : LoopDefinition) (evidence : LoopWorktreeEvidence) : list LoopValidationDiagnostic :=
  match worktree definition ≫= branchPrefix, branch evidence with
  | Some prefix, Some name =>
      if negb (is_empty prefix) && negb (is_empty name)
         && negb (pathHasScopePrefix (normalizePath name) (normalizePath prefix))
      then [diagnostic_at "worktree-branch-prefix-mismatch"
              ("Loop worktree branch must use prefix " ++ prefix ++ ".") name]
      else []
  | _, _ => []
  end.

Definition validateWorktreeEvidence (definition : LoopDefinition) (evidence : option LoopWorktreeEvidence)
    : list LoopValidationDiagnostic :=
  match evidence with
  | None => [diagnostic "worktree-isolation-required" "Isolated loop actions require worktree evidence."]
  | Some evidence =>
      (if negb (isolated evidence)
       then [diagnostic "worktree-isolation-required" "Loop worktree evidence must confirm isolation."] else [])
      ++ (if blank (worktreeId evidence)
          then [diagnostic "worktree-id-required" "Loop worktree evidence must include a worktreeId."] else [])
      ++ (if bool_decide (requireCleanCheckout <$> worktree definition = Some true)
             && negb (bool_decide (cleanCheckout evidence = Some true))
          then [diagnostic "worktree-clean-checkout-required" "Loop worktree must start from a clean checkout."]
          else [])
      ++ branch_mismatch definition evidence
  end.

Definition validateDurableStateEvidence (evidence : option LoopDurableStateEvidence)
    : list LoopValidationDiagnostic :=
  (if blank (evidence ≫= stateRevision)
   then [diagnostic "state-revision-missing" "Replayable loop actions require a stateRevision."] else [])
  ++ (if blank (evidence ≫= runLogRef)
      then [diagnostic "run-log-ref-missing" "Replayable loop actions require a runLogRef."] else [])
  ++ (if blank (evidence ≫= budgetReservationId)
      then [diagnostic "budget-reservation-missing" "Replayable loop actions require a budgetReservationId."]
      else []).

Definition requiresHumanApproval (definition : LoopDefinition) (item : LoopWorkItem) : bool :=
  match humanGates definition with
  | Some policy => existsb (fun gated => bool_decide (gated = risk item)) (requiredForRisks policy)
  | None => requireHumanGateForHighRisk (safety definition) && bool_decide (risk item = risk_high)
  end.

Definition human_approval (definition : LoopDefinition) (evidence : LoopGateEvidence) : bool :=
  bool_decide (approved <$> humanGate evidence = Some true)
  && (bool_decide (approvalRefsRequired <$> humanGates definition = Some false)
      || negb (blank (humanGate evidence ≫= approvalRef))).

Definition requiresIndependentVerifier (definition : LoopDefinition) : bool :=
  acts (level definition) || requireIndependentVerifier (safety definition).

Definition sameActor (evidence : LoopVerifierEvidence) : bool :=
  match verifierId evidence, implementerId evidence with
  | Some checker, Some maker =>
      negb (is_empty checker) && negb (is_empty maker) && String.eqb (trim checker) (trim maker)
  | _, _ => false
  end.

Definition validateIndependentVerifier (evidence : option LoopVerifierEvidence)
    : list LoopValidationDiagnostic :=
  match evidence with
  | None => [diagnostic "independent-verifier-required" "L2/L3 actions require an independent verifier."]
  | Some evidence =>
      (if negb (independent evidence) || sameActor evidence
       then [diagnostic "independent-verifier-required" "Verifier must be independent."] else [])
      ++ match verifier_status evidence with
         | Some pass | None => []
         | Some status => [diagnostic "verifier-failed" ("Verifier status is " ++ verifier_status_str status ++ ".")]
         end
      ++ (if negb (hasEvidenceRefs (verifier_evidenceRefs evidence))
          then [diagnostic "verifier-evidence-missing" "Verifier evidenceRefs are required."] else [])
  end.

Definition hasDiagnostic (diagnostics : list LoopValidationDiagnostic) (code : string) : bool :=
  existsb (fun diagnostic => String.eqb (diag_code diagnostic) code) diagnostics.

Definition safetyGateResult (diagnostics : list LoopValidationDiagnostic) : LoopSafetyGateResult :=
  let failed action outcome :=
    {| passed := false; action := action; outcome := Some outcome; diagnostics := diagnostics |} in
  match diagnostics with
  | [] => {| passed := true; action := allow; outcome := None; diagnostics := [] |}
  | _ =>
      if hasDiagnostic diagnostics "loop-kill-switch" then failed block killed
      else if hasDiagnostic diagnostics "max-attempts-exceeded" then failed escalate escalated
      else if hasDiagnostic diagnostics "human-gate-required" then failed human_gate escalated
      else failed block verifier_failed
  end.

(** ** The gates, each with what it finds *)

Section Gates.
Context (definition : LoopDefinition) (state : LoopState) (item : LoopWorkItem) (evidence : LoopGateEvidence).

Definition gate_killSwitch : list LoopValidationDiagnostic :=
  if default false (killSwitch state) then [diagnostic "loop-kill-switch" "Loop kill switch is active."] else [].

Definition gate_status : list LoopValidationDiagnostic :=
  match status state with
  | paused | retired =>
      [diagnostic "loop-not-active" ("Loop status " ++ status_str (status state) ++ " cannot take action.")]
  | ready | active => []
  end.

Definition gate_attempts : list LoopValidationDiagnostic :=
  if (maxAttemptsPerItem definition <=? attemptCount item)%nat
  then [diagnostic "max-attempts-exceeded"
          ("Item " ++ item_id item ++ " reached maxAttemptsPerItem=" ++ nat_str (maxAttemptsPerItem definition) ++ ".")]
  else [].

Definition gate_writeScope : list LoopValidationDiagnostic :=
  match writeScope evidence with
  | None => [diagnostic "write-scope-missing" "Exact writeScope evidence is required."]
  | Some scope => validateLoopWriteScope definition scope
                  ++ validateRequestedWriteScopeDoesNotOverlapDenied definition scope
  end.

Definition gate_changedFiles : list LoopValidationDiagnostic :=
  match writeScope evidence, changedFiles evidence with
  | Some scope, Some files => validateChangedFilesWithinRequestedScope scope files
  | _, _ => []
  end.

Definition gate_worktree : list LoopValidationDiagnostic :=
  if requiresWorktreeIsolation definition then validateWorktreeEvidence definition (ev_worktree evidence) else [].

Definition gate_durableState : list LoopValidationDiagnostic :=
  if bool_decide (requireReplayableEvidence definition = Some true)
  then validateDurableStateEvidence (durableState evidence) else [].

Definition gate_human : list LoopValidationDiagnostic :=
  if requiresHumanApproval definition item && negb (human_approval definition evidence)
  then [diagnostic "human-gate-required" "High-risk work item requires human approval evidence."] else [].

Definition gate_evidenceRefs : list LoopValidationDiagnostic :=
  if negb (hasEvidenceRefs (evidenceRefs evidence))
  then [diagnostic "evidence-refs-missing" "Completion evidenceRefs are required."] else [].

Definition gate_verifier : list LoopValidationDiagnostic :=
  if requiresIndependentVerifier definition then validateIndependentVerifier (verifier evidence) else [].

Definition evaluateLoopSafetyGates : LoopSafetyGateResult :=
  safetyGateResult
    (gate_killSwitch ++ gate_status ++ gate_attempts ++ gate_writeScope ++ gate_changedFiles ++ gate_worktree
     ++ gate_durableState ++ gate_human ++ gate_evidenceRefs ++ gate_verifier).
End Gates.

(** ** Normal forms of paths *)

Definition slash_free (s : string) : bool := sforall (fun a => negb (Ascii.eqb a slash)) s.

(** Neither two slashes in a row nor one at the end. *)
Fixpoint single_slashes (s : string) : bool :=
  match s with
  | String a s' =>
      negb (Ascii.eqb a slash && match s' with
                                 | String b _ => Ascii.eqb b slash
                                 | EmptyString => false
                                 end) && single_slashes s'
  | EmptyString => true
  end.

Fixpoint ends_in_slash (s : string) : bool :=
  match s with
  | EmptyString => false
  | String a EmptyString => Ascii.eqb a slash
  | String a s' => ends_in_slash s'
  end.

Lemma squeeze_single (s : string) : single_slashes (squeeze s) = true.
Proof.
  induction s as [|a s IH]; [done|]. cbn [squeeze]. destruct (Ascii.eqb a slash) eqn:Ea.
  - destruct (squeeze s) as [|b r] eqn:Er; [cbn; by rewrite andb_false_r|].
    destruct (Ascii.eqb b slash) eqn:Eb; [done|]. apply andb_true_iff. split; [by rewrite Ea, Eb|exact IH].
  - cbn [single_slashes]. by rewrite Ea, IH.
Qed.

Lemma squeeze_id (s : string) : single_slashes s = true -> squeeze s = s.
Proof.
  induction s as [|a s IH]; [done|]. cbn [squeeze single_slashes]. intros [Ha Hs]%andb_true_iff.
  rewrite (IH Hs). destruct (Ascii.eqb a slash); [|done]. destruct s as [|b s]; [done|].
  by destruct (Ascii.eqb b slash).
Qed.

Lemma single_tail (a : ascii) (s : string) : single_slashes (String a s) = true -> single_slashes s = true.
Proof. cbn [single_slashes]. by intros [_ ?]%andb_true_iff. Qed.

Lemma drop_dot_single (s : string) : single_slashes s = true -> single_slashes (drop_dot_slash s) = true.
Proof.
  unfold drop_dot_slash. destruct (startsWith "./" s); [|done]. destruct s as [|a [|b s]]; try done.
  intros H. by apply single_tail, single_tail in H.
Qed.

Lemma drop_last_single (s : string) :
  single_slashes s = true -> single_slashes (drop_last_slash s) = true /\ ends_in_slash (drop_last_slash s) = false.
Proof.
  induction s as [|a s IH]; [done|]. intros Hs. destruct s as [|b s].
  - cbn. destruct (Ascii.eqb a slash) eqn:Ea; [done|]. cbn. by rewrite Ea.
  - destruct (IH (single_tail _ _ Hs)) as [H1 H2]. cbn [single_slashes] in Hs. apply andb_true_iff in Hs as [Ha _].
    change (drop_last_slash (String a (String b s))) with (String a (drop_last_slash (String b s))).
    assert (Hb : forall c r, drop_last_slash (String b s) = String c r -> c = b).
    { intros c r. destruct s; cbn; [destruct (Ascii.eqb b slash)|]; by intros [= <-]. }
    destruct (drop_last_slash (String b s)) as [|c r] eqn:E.
    + assert (Eb : Ascii.eqb b slash = true) by (destruct s; cbn in E; [by destruct (Ascii.eqb b slash)|done]).
      rewrite Eb, andb_true_r in Ha. cbn. by destruct (Ascii.eqb a slash).
    + rewrite (Hb c r eq_refl) in *. split; [|exact H2]. apply andb_true_iff. by split; [exact Ha|exact H1].
Qed.

Lemma drop_last_id (s : string) : ends_in_slash s = false -> drop_last_slash s = s.
Proof.
  induction s as [|a s IH]; [done|]. destruct s as [|b s]; [cbn; by intros ->|].
  intros H. change (drop_last_slash (String a (String b s))) with (String a (drop_last_slash (String b s))).
  by rewrite IH.
Qed.

Lemma sforall_squeeze (p : ascii -> bool) (s : string) : sforall p s = true -> sforall p (squeeze s) = true.
Proof.
  induction s as [|a s IH]; [done|]. cbn [squeeze sforall]. intros [Ha Hs]%andb_true_iff.
  specialize (IH Hs). destruct (Ascii.eqb a slash); [|cbn; by rewrite Ha, IH].
  destruct (squeeze s) as [|b r]; [cbn; by rewrite Ha|]. destruct (Ascii.eqb b slash); [done|].
  cbn [sforall] in *. by rewrite Ha.
Qed.

Lemma sforall_drop_dot (p : ascii -> bool) (s : string) : sforall p s = true -> sforall p (drop_dot_slash s) = true.
Proof.
  unfold drop_dot_slash. destruct (startsWith "./" s); [|done]. destruct s as [|a [|b s]]; try done.
  cbn [sforall slice]. by intros [_ [_ H]%andb_true_iff]%andb_true_iff.
Qed.

Lemma sforall_drop_last (p : ascii -> bool) (s : string) : sforall p s = true -> sforall p (drop_last_slash s) = true.
Proof.
  induction s as [|a s IH]; [done|]. destruct s as [|b s].
  - cbn. by destruct (Ascii.eqb a slash).
  - intros H. change (drop_last_slash (String a (String b s))) with (String a (drop_last_slash (String b s))).
    cbn [sforall]. apply andb_true_iff in H as [-> H]. by rewrite IH.
Qed.

(** Only the first segment of a clean path can be empty. *)
Lemma split_inner (s : string) :
  single_slashes s = true -> ends_in_slash s = false -> Forall (fun w => w <> EmptyString) (tail (split slash s)).
Proof.
  induction s as [|a s IH]; [constructor|]. intros Hs He. destruct s as [|b s].
  - cbn in He |- *. rewrite He. constructor.
  - specialize (IH (single_tail _ _ Hs) He). cbn [single_slashes] in Hs. apply andb_true_iff in Hs as [Ha _].
    change (split slash (String a (String b s))) with
      (if Ascii.eqb a slash then EmptyString :: split slash (String b s)
       else match split slash (String b s) with w :: ws => String a w :: ws | [] => [String a EmptyString] end).
    destruct (Ascii.eqb a slash); cbn [andb negb tail] in *.
    + cbn [split] in *. destruct (Ascii.eqb b slash); [done|]. destruct (split slash s) as [|w ws]; [by repeat constructor|].
      constructor; [done|exact IH].
    + destruct (split slash (String b s)); [constructor|exact IH].
Qed.

(** A segment, and one that is neither [.] nor [..]. *)
Definition word (w : string) : Prop := w <> EmptyString /\ slash_free w = true /\ no_backslash w = true.

Definition proper (w : string) : Prop := word w /\ w <> "." /\ w <> "..".

Lemma dots_word : word "..".
Proof. done. Qed.

Lemma words_of (k : nat) (l : list string) : Forall proper l -> Forall word (repeat ".." k ++ l).
Proof.
  intros Hl. apply Forall_app. split; [by apply Forall_forall; intros w ->%list_elem_of_In%repeat_spec|].
  eapply Forall_impl; [exact Hl|]. by intros w [? _].
Qed.

Inductive normal : string -> Prop :=
| normal_relative k l : Forall proper l -> normal (join "/" (repeat ".." k ++ l))
| normal_absolute l : l <> [] -> Forall proper l -> normal (String slash (join "/" l)).

Lemma join_slash_cons (w w' : string) (l : list string) :
  join "/" (w :: w' :: l) = (w ++ String slash (join "/" (w' :: l)))%string.
Proof. done. Qed.

Lemma join_head (l : list string) (w : string) : join "/" (w :: l) = EmptyString -> w = EmptyString.
Proof. destruct l; [done|]. rewrite join_slash_cons. by destruct w. Qed.

Lemma single_word (w t : string) :
  slash_free w = true -> w <> EmptyString ->
  single_slashes (w ++ t) = single_slashes t.
Proof.
  induction w as [|a w IH]; [done|]. cbn [slash_free sforall]. intros [Ha Hw]%andb_true_iff _.
  cbn [append single_slashes]. apply negb_true_iff in Ha. rewrite Ha. cbn [andb negb].
  destruct w as [|b w]; [done|]. by apply IH.
Qed.

Lemma ends_word (w t : string) : t <> EmptyString -> ends_in_slash (w ++ t) = ends_in_slash t.
Proof.
  intros Ht. induction w as [|a w IH]; [done|]. cbn [append]. destruct (w ++ t)%string as [|b r] eqn:E; [|exact IH].
  destruct w; [by destruct t|done].
Qed.

Lemma slash_free_ends (w : string) : slash_free w = true -> ends_in_slash w = false.
Proof.
  induction w as [|a w IH]; [done|]. cbn [slash_free sforall]. intros [Ha Hw]%andb_true_iff.
  apply negb_true_iff in Ha. destruct w; [exact Ha|by apply IH].
Qed.

Lemma join_word_head (l : list string) : Forall word l -> l <> [] -> exists a r, join "/" l = String a r /\ Ascii.eqb a slash = false.
Proof.
  destruct 1 as [|w l [Hne [Hw _]] _]; [done|]. intros _. destruct w as [|a w]; [done|].
  cbn [slash_free sforall] in Hw. apply andb_true_iff in Hw as [Ha%negb_true_iff _].
  destruct l; [by exists a, w|]. rewrite join_slash_cons. by eexists a, _.
Qed.

Lemma join_words (l : list string) :
  Forall word l -> single_slashes (join "/" l) = true /\ ends_in_slash (join "/" l) = false /\ no_backslash (join "/" l) = true.
Proof.
  induction 1 as [|w l [Hne [Hw Hb]] Hl (IH1 & IH2 & IH3)]; [done|]. destruct l as [|w' l].
  - cbn [join]. rewrite <- (app_nil_str w) at 1. rewrite single_word by done.
    split_and!; [done|by apply slash_free_ends|done].
  - rewrite join_slash_cons. destruct (join_word_head (w' :: l) Hl ltac:(done)) as (a & r & E & Ha).
    rewrite single_word, ends_word by done. rewrite E in *. split_and!.
    + apply andb_true_iff. by split; [cbn; rewrite Ha|exact IH1].
    + exact IH2.
    + unfold no_backslash in *. rewrite sforall_app, Hb. exact IH3.
Qed.

Lemma words_slash_free (l : list string) (w : string) : Forall word l -> w ∈ l -> slash_free w = true.
Proof. rewrite Forall_forall. intros Hl Hw. by destruct (Hl w Hw) as (_ & ? & _). Qed.

(** *** [normalizePath] gives normal forms *)

Lemma clean_shape (path : string) :
  let c := clean_path path in
  single_slashes c = true /\ ends_in_slash c = false /\ no_backslash c = true.
Proof.
  unfold clean_path. set (s := normalizePathSlashes (trim path)).
  assert (Hb : no_backslash s = true) by apply normalizePathSlashes_no_backslash.
  destruct (drop_last_single (drop_dot_slash (squeeze s))) as [H1 H2]; [by apply drop_dot_single, squeeze_single|].
  split_and!; [done|done|]. by apply sforall_drop_last, sforall_drop_dot, sforall_squeeze.
Qed.

Lemma join_split (s : string) : join "/" (split slash s) = s.
Proof.
  induction s as [|a s IH]; [done|]. cbn [split].
  destruct (split slash s) as [|w l] eqn:E; [by apply split_nonnil in E|].
  destruct (Ascii.eqb_spec a slash) as [->|Ha]; [by rewrite join_slash_cons, IH|].
  rewrite <- IH. by destruct l.
Qed.

Lemma segments_ok (s w : string) :
  no_backslash s = true -> w ∈ split slash s -> slash_free w = true /\ no_backslash w = true.
Proof. intros Hb Hw. split; [by eapply split_segment_free|by eapply split_sforall]. Qed.

Lemma collapse_proper (isAbsolute : bool) (segs acc out : list string) (n k : nat) :
  (forall w, w ∈ segs -> slash_free w = true /\ no_backslash w = true) -> Forall proper acc ->
  collapse_segments isAbsolute segs acc n = (out, k) -> Forall proper out.
Proof.
  revert acc n. induction segs as [|w segs IH]; intros acc n Hs Hacc; cbn [collapse_segments]; [by intros [= <- _]|].
  assert (Hs' : forall v, v ∈ segs -> slash_free v = true /\ no_backslash v = true) by (intros; apply Hs; by right).
  destruct (is_empty w) eqn:E; [by apply IH|]. destruct (String.eqb_spec w "."); [by apply IH|].
  cbn [orb]. destruct (String.eqb_spec w ".."); [|apply IH; [done|]].
  - destruct acc as [|a acc]; [by apply IH|]. apply IH; [done|]. rewrite Forall_forall in *.
    intros x Hx. by apply Hacc, elem_of_removelast.
  - apply Forall_app. split; [done|]. apply Forall_singleton. split; [|done].
    destruct (Hs w ltac:(left)) as [? ?]. split; [by destruct w|done].
Qed.

Lemma collapse_words (isAbsolute : bool) (l acc : list string) (n : nat) :
  Forall proper l -> collapse_segments isAbsolute l acc n = ((acc ++ l)%list, n).
Proof.
  intros Hl. revert acc. induction Hl as [|w l ((Hne & _) & Hd & Hdd) Hl IH]; intros acc; cbn [collapse_segments].
  - by rewrite app_nil_r.
  - destruct w as [|a w]; [done|]. cbn [is_empty orb].
    rewrite (proj2 (String.eqb_neq _ _) Hd), (proj2 (String.eqb_neq _ _) Hdd), IH. by rewrite <- app_assoc.
Qed.

Lemma collapse_climbs (l : list string) (n m : nat) :
  Forall proper l -> collapse_segments false (repeat ".." m ++ l) [] n = (l, (m + n)%nat).
Proof.
  intros Hl. revert n. induction m as [|m IH]; intros n; [apply (collapse_words false l [] n Hl)|].
  change (collapse_segments false (repeat ".." m ++ l) [] (S n) = (l, (S m + n)%nat)).
  by rewrite IH, Nat.add_succ_r.
Qed.

Lemma climbs_join (k : nat) (l : list string) :
  l <> [] -> (repeat_text k "../" ++ join "/" l)%string = join "/" (repeat ".." k ++ l).
Proof.
  intros Hl. induction k as [|k IH]; [done|]. cbn [repeat_text repeat app].
  destruct (repeat ".." k ++ l) as [|w r] eqn:E; [by destruct k, l|]. rewrite join_slash_cons, <- IH.
  done.
Qed.

Lemma climbs_only (k : nat) : drop_last_slash (repeat_text k "../") = join "/" (repeat ".." k).
Proof.
  induction k as [|k IH]; [done|]. destruct k as [|k]; [done|]. revert IH.
  cbn [repeat_text repeat]. rewrite join_slash_cons. intros <-. done.
Qed.

Lemma normalize_normal (path : string) : normalizePath path = "/" \/ normal (normalizePath path).
Proof.
  destruct (clean_shape path) as (H1 & H2 & H3). unfold normalizePath. set (c := clean_path path) in *.
  assert (Hsegs : forall w, w ∈ split slash c -> slash_free w = true /\ no_backslash w = true)
    by (intros w; by apply segments_ok).
  destruct (negb (has_dot_segment c)) eqn:Hd.
  - right. pose proof (split_inner c H1 H2) as Hin. apply negb_true_iff in Hd. unfold has_dot_segment in Hd.
    rewrite existsb_false_iff in Hd.
    assert (Hp : forall w, w ∈ split slash c -> w <> EmptyString -> proper w).
    { intros w Hw Hne. destruct (Hsegs w Hw). specialize (Hd w Hw). apply orb_false_iff in Hd as [?%String.eqb_neq ?%String.eqb_neq].
      done. }
    rewrite <- (join_split c). destruct (split slash c) as [|w l] eqn:Ec; [by apply split_nonnil in Ec|].
    cbn [tail] in Hin. assert (Hl : Forall proper l).
    { apply Forall_forall. intros v Hv. apply Hp; [by right|]. rewrite Forall_forall in Hin. by apply Hin. }
    destruct w as [|a w].
    + destruct l as [|v l]; [apply (normal_relative 0 []); constructor|]. rewrite join_slash_cons. by apply normal_absolute.
    + apply (normal_relative 0). constructor; [|done]. apply Hp; [left|done].
  - destruct (collapse_segments (startsWith "/" c) (split slash c) [] 0) as [out k] eqn:Ek.
    apply collapse_proper in Ek; [|done|constructor].
    destruct (String.eqb_spec ((if startsWith "/" c then "/" else repeat_text k "../") ++ join "/" out)%string "/") as [->|Hne];
      [by left|]. right.
    assert (Hw : Forall word out) by (eapply Forall_impl; [exact Ek|]; by intros w [? _]).
    destruct (join_words out Hw) as (_ & He & _). destruct (startsWith "/" c).
    + destruct out as [|w out]; [done|]. rewrite drop_last_id; [by apply normal_absolute|].
      by rewrite ends_word by (intros H0%join_head; inversion Hw as [|? ? [? _]]; done).
    + destruct out as [|w out].
      * cbn [join]. rewrite app_nil_str, climbs_only. rewrite <- (app_nil_r (repeat ".." k)).
        apply normal_relative. constructor.
      * rewrite climbs_join by done. destruct (join_words (repeat ".." k ++ w :: out)) as (_ & He' & _); [by apply words_of|].
        rewrite drop_last_id by done. by apply normal_relative.
Qed.

(** *** Normal forms stay *)

Lemma word_no_dot_slash (w t : string) : word w -> w <> "." -> startsWith "./" (w ++ t) = false.
Proof.
  intros (Hne & Hw & _) Hd. destruct w as [|a w]; [done|]. cbn [append]. rewrite startsWith_cons.
  destruct (Ascii.eqb_spec "." a) as [<-|]; [|done]. destruct w as [|b w]; [done|].
  cbn [append]. rewrite startsWith_cons. cbn [slash_free sforall] in Hw. breflect.
  destruct (Ascii.eqb_spec "/" b) as [<-|]; done.
Qed.

Lemma join_no_dot_slash (l : list string) :
  Forall word l -> Forall (fun w => w <> ".") l -> startsWith "./" (join "/" l) = false.
Proof.
  intros Hl Hd. destruct Hl as [|w l Hw Hl]; [done|]. inversion Hd as [|? ? Hd1 Hd2].
  destruct l; [cbn; rewrite <- (app_nil_str w)|rewrite join_slash_cons]; by apply word_no_dot_slash.
Qed.

Lemma parts_no_dot (k : nat) (l : list string) : Forall proper l -> Forall (fun w => w <> ".") (repeat ".." k ++ l).
Proof.
  intros Hl. apply Forall_app. split; [by apply Forall_forall; intros w ->%list_elem_of_In%repeat_spec|].
  eapply Forall_impl; [exact Hl|]. by intros w [_ [? _]].
Qed.

Lemma clean_id (p : string) :
  trim p = p -> no_backslash p = true -> single_slashes p = true -> startsWith "./" p = false ->
  ends_in_slash p = false -> clean_path p = p.
Proof.
  intros Ht Hb Hs Hd He. unfold clean_path. rewrite Ht, normalizePathSlashes_id, squeeze_id by done.
  unfold drop_dot_slash. by rewrite Hd, drop_last_id.
Qed.

Lemma no_dot_segment (l : list string) : Forall proper l -> l <> [] -> has_dot_segment (join "/" l) = false.
Proof.
  intros Hl Hne. unfold has_dot_segment. rewrite (split_join slash); [|done|].
  - rewrite existsb_false_iff. intros w Hw. rewrite Forall_forall in Hl. destruct (Hl w Hw) as (_ & ? & ?).
    by rewrite !(proj2 (String.eqb_neq _ _)).
  - intros w Hw. rewrite Forall_forall in Hl. by destruct (Hl w Hw) as ((_ & ? & _) & _).
Qed.

Lemma normal_settled (p : string) : normal p -> trim p = p -> normalizePath p = p.
Proof.
  intros Hn Ht. destruct Hn as [k l Hl|l Hne Hl].
  - pose proof (words_of k l Hl) as Hw. destruct (join_words _ Hw) as (Hs & He & Hb).
    unfold normalizePath. rewrite clean_id by first [done|apply join_no_dot_slash; [done|by apply parts_no_dot]].
    destruct k as [|k].
    + destruct l as [|w l]; [done|]. cbn [repeat app]. by rewrite no_dot_segment.
    + assert (Hd : has_dot_segment (join "/" (repeat ".." (S k) ++ l)) = true).
      { unfold has_dot_segment. rewrite (split_join slash); [done|done|]. intros w. by apply words_slash_free. }
      rewrite Hd. cbn [negb]. rewrite (split_join slash); [|done|by intros w; apply words_slash_free].
      assert (Ha : startsWith "/" (join "/" (repeat ".." (S k) ++ l)) = false).
      { cbn [repeat app]. by destruct (repeat ".." k ++ l). }
      rewrite Ha, collapse_climbs by done. rewrite Nat.add_0_r. destruct l as [|w l].
      * cbn [join]. rewrite app_nil_str, app_nil_r, climbs_only. by destruct k.
      * rewrite climbs_join, drop_last_id by done.
        destruct (String.eqb_spec (join "/" (repeat ".." (S k) ++ w :: l)) "/") as [E|]; done.
  - assert (Hw : Forall word l) by (eapply Forall_impl; [exact Hl|]; by intros w [? _]).
    destruct (join_words l Hw) as (Hs & He & Hb). destruct (join_word_head l Hw Hne) as (a & r & E & Ha).
    unfold normalizePath. rewrite clean_id; try done.
    + assert (Hd : has_dot_segment (String slash (join "/" l)) = false); [|by rewrite Hd].
      unfold has_dot_segment. cbn [split]. rewrite Ascii.eqb_refl. cbn [existsb]. by apply (no_dot_segment l).
    + apply andb_true_iff. split; [by rewrite E, Ha|done].
    + by rewrite E in *.
Qed.

(** ** Scopes contain what is below them *)

Definition below (path scope : string) : Prop := path = scope \/ exists rest, path = (scope ++ "/" ++ rest)%string.

Lemma pathHasScopePrefix_iff (path scope : string) : pathHasScopePrefix path scope = true <-> below path scope.
Proof.
  unfold pathHasScopePrefix, below. rewrite orb_true_iff, String.eqb_eq, startsWith_iff.
  split; (intros [?|[rest ->]]; [by left|right; exists rest]); by rewrite app_assoc_str.
Qed.

Lemma below_trans (a b c : string) : below a b -> below b c -> below a c.
Proof.
  intros [->|[r ->]] [->|[t ->]]; [by left|right; eauto|right; eauto|].
  right. exists (t ++ "/" ++ r)%string. by rewrite !app_assoc_str.
Qed.

(** Two scopes of one path are nested. *)
Lemma below_nested (p a b : string) : below p a -> below p b -> below a b \/ below b a.
Proof.
  assert (H : forall a b t u, (a ++ String slash t = b ++ String slash u)%string -> below a b \/ below b a).
  { clear. induction a as [|c a IH]; intros [|d b] t u; [by left; left|..]; cbn [append].
    - intros [= <- E]. right. right. by exists b.
    - intros [= -> E]. left. right. by exists a.
    - intros [= -> E]. destruct (IH b t u E) as [[->|[r ->]]|[->|[r ->]]]; unfold below; eauto. }
  intros [->|[t ->]] [E|[u E]]; unfold below in *; [subst; eauto..|].
  eapply H. exact E.
Qed.

(** ** What a pass means *)

Lemma gate_passed (diagnostics : list LoopValidationDiagnostic) :
  passed (safetyGateResult diagnostics) = true <-> diagnostics = [].
Proof. destruct diagnostics; [done|]. unfold safetyGateResult. repeat destruct (hasDiagnostic _ _); done. Qed.

Lemma app_nil_iff {A} (a b : list A) : a ++ b = [] <-> a = [] /\ b = [].
Proof. destruct a; naive_solver. Qed.

Lemma concat_nil_iff {A B} (f : A -> list B) (l : list A) : concat (map f l) = [] <-> Forall (fun a => f a = []) l.
Proof. induction l as [|a l IH]; cbn; [done|]. by rewrite app_nil_iff, IH, Forall_cons. Qed.

Lemma if_nil {A} (b : bool) (l : list A) : l <> [] -> (if b then l else []) = [] <-> b = false.
Proof. by destruct b. Qed.

Definition requested (path : string) (definition : LoopDefinition) : Prop :=
  normalizePath path <> EmptyString /\
  matchesAnyScope (normalizePath path) (allowedWriteScopes (safety definition)) = true /\
  matchesAnyScope (normalizePath path) (default [] (deniedWriteScopes (safety definition))) = false.

Lemma checkWritePath_nil (definition : LoopDefinition) (path : string) :
  checkWritePath definition path = [] <-> requested path definition.
Proof.
  unfold checkWritePath, requested. destruct (normalizePath path) as [|a p]; cbn [is_empty]; [naive_solver|].
  rewrite app_nil_iff, !if_nil, negb_false_iff by done. naive_solver.
Qed.

Definition overlaps_denied (path : string) (definition : LoopDefinition) : Prop :=
  exists d, d ∈ default [] (deniedWriteScopes (safety definition)) /\ normalizePath d <> EmptyString /\
    scopesOverlap (normalizePath path) (normalizePath d) = true.

Lemma denied_nil (definition : LoopDefinition) (paths : list string) :
  validateRequestedWriteScopeDoesNotOverlapDenied definition paths = [] <->
  Forall (fun path => normalizePath path <> EmptyString -> ~ overlaps_denied path definition) paths.
Proof.
  unfold validateRequestedWriteScopeDoesNotOverlapDenied, overlaps_denied. rewrite concat_nil_iff.
  apply Forall_iff. intros path. destruct (normalizePath path) as [|a p]; cbn [is_empty]; [naive_solver|].
  rewrite concat_nil_iff, Forall_forall. unfold deniedOverlap.
  split; [intros H _ (d & Hd & Hne & Ho)|intros H d Hd].
  - specialize (H d Hd). rewrite Ho, andb_true_r in H. by destruct (normalizePath d).
  - apply if_nil; [done|]. destruct (scopesOverlap _ _) eqn:E; [|by rewrite andb_false_r].
    destruct (normalizePath d) eqn:Ed; [done|]. exfalso. apply H; [done|]. exists d. by rewrite Ed.
Qed.

Lemma changed_nil (scope files : list string) :
  validateChangedFilesWithinRequestedScope scope files = [] <->
  Forall (fun file => normalizePath file = EmptyString \/ matchesAnyScope (normalizePath file) scope = true) files.
Proof.
  unfold validateChangedFilesWithinRequestedScope. rewrite concat_nil_iff. apply Forall_iff. intros file.
  unfold checkChangedFile. destruct (normalizePath file) as [|a p]; cbn [is_empty]; [naive_solver|].
  rewrite if_nil, negb_false_iff by done. naive_solver.
Qed.

(** The write scope the definition admits. *)
Definition scope_admitted (definition : LoopDefinition) (scope : list string) : Prop :=
  (level definition <> L1 -> scope <> []) /\
  (forall max, maxWriteScopeCount (safety definition) = Some max -> (length scope <= max)%nat) /\
  Forall (fun path => requested path definition) scope /\
  Forall (fun path => normalizePath path <> EmptyString -> ~ overlaps_denied path definition) scope.

Lemma scope_nil (definition : LoopDefinition) (scope : list string) :
  validateLoopWriteScope definition scope ++ validateRequestedWriteScopeDoesNotOverlapDenied definition scope = []
  <-> scope_admitted definition scope.
Proof.
  unfold scope_admitted, validateLoopWriteScope. rewrite !app_nil_iff, denied_nil, concat_nil_iff, if_nil by done.
  rewrite (Forall_iff _ _ _ (checkWritePath_nil definition)).
  assert (Hmax : match maxWriteScopeCount (safety definition) with
                 | Some max => if (max <? length scope)%nat
                     then [diagnostic "write-scope-count-exceeded"
                             ("Write scope count " ++ nat_str (length scope) ++ " exceeds maxWriteScopeCount="
                              ++ nat_str max ++ ".")] else []
                 | None => [] end = []
                 <-> forall max, maxWriteScopeCount (safety definition) = Some max -> (length scope <= max)%nat).
  { destruct (maxWriteScopeCount _) as [max|]; [|naive_solver]. rewrite if_nil, Nat.ltb_ge by done. naive_solver. }
  rewrite Hmax. assert (Hlen : ((length scope =? 0)%nat && acts (level definition))%bool = false <->
    (level definition <> L1 -> scope <> [])).
  { destruct scope as [|p scope]; cbn; [|naive_solver]. destruct (level definition); cbn; naive_solver. }
  rewrite Hlen. naive_solver.
Qed.

(** ** Evidence *)

Definition is_given (value : option string) : Prop := exists s, value = Some s /\ trim s <> EmptyString.

Lemma blank_false (value : option string) : blank value = false <-> is_given value.
Proof.
  unfold is_given. destruct value as [s|]; cbn; [|naive_solver].
  split; [intros H; exists s; by destruct (trim s)|intros (? & [= <-] & ?)]. by destruct (trim s).
Qed.

Definition some_given (refs : option (list string)) : Prop :=
  exists l, refs = Some l /\ Exists (fun ref => trim ref <> EmptyString) l.

Lemma hasEvidenceRefs_iff (refs : option (list string)) : hasEvidenceRefs refs = true <-> some_given refs.
Proof.
  unfold hasEvidenceRefs, some_given. destruct refs as [l|]; [|naive_solver].
  rewrite existsb_true_iff. setoid_rewrite Nat.ltb_lt. split.
  - intros (r & Hr & Hl). exists l. split; [done|]. apply Exists_exists. exists r. split; [done|].
    by destruct (trim r); cbn in Hl; [lia|].
  - intros (? & [= <-] & (r & Hr & Hl)%Exists_exists). exists r. split; [done|].
    destruct (trim r); [done|cbn; lia].
Qed.

Definition worktree_evidenced (definition : LoopDefinition) (evidence : option LoopWorktreeEvidence) : Prop :=
  exists w, evidence = Some w /\ isolated w = true /\ is_given (worktreeId w) /\
    (requireCleanCheckout <$> worktree definition = Some true -> cleanCheckout w = Some true) /\
    (forall prefix name, worktree definition ≫= branchPrefix = Some prefix -> prefix <> EmptyString ->
       branch w = Some name -> name <> EmptyString ->
       below (normalizePath name) (normalizePath prefix)).

Definition durable_evidenced (evidence : option LoopDurableStateEvidence) : Prop :=
  is_given (evidence ≫= stateRevision) /\ is_given (evidence ≫= runLogRef) /\
  is_given (evidence ≫= budgetReservationId).

Definition verified_independently (evidence : option LoopVerifierEvidence) : Prop :=
  exists v, evidence = Some v /\ independent v = true /\ sameActor v = false /\
    (verifier_status v = Some pass \/ verifier_status v = None) /\ some_given (verifier_evidenceRefs v).

Lemma worktree_nil (definition : LoopDefinition) (evidence : option LoopWorktreeEvidence) :
  validateWorktreeEvidence definition evidence = [] <-> worktree_evidenced definition evidence.
Proof.
  unfold worktree_evidenced, validateWorktreeEvidence. destruct evidence as [w|]; [|naive_solver].
  rewrite !app_nil_iff, !if_nil, blank_false, negb_false_iff by done.
  assert (Hb : branch_mismatch definition w = [] <->
    forall prefix name, worktree definition ≫= branchPrefix = Some prefix -> prefix <> EmptyString ->
      branch w = Some name -> name <> EmptyString -> below (normalizePath name) (normalizePath prefix)).
  { unfold branch_mismatch. destruct (worktree definition ≫= branchPrefix) as [p|]; [|naive_solver].
    destruct (branch w) as [n|]; [|naive_solver]. rewrite if_nil by done.
    rewrite !andb_false_iff, !negb_false_iff, pathHasScopePrefix_iff. destruct p, n; cbn; naive_solver. }
  rewrite Hb. rewrite andb_false_iff, negb_false_iff, bool_decide_eq_false, bool_decide_eq_true.
  split.
  - intros (? & ? & Hc & ?). exists w. split_and!; try done. intros ?. by destruct Hc.
  - intros (? & [= <-] & ? & ? & Hc & ?). split_and!; try done.
    destruct (decide (requireCleanCheckout <$> worktree definition = Some true)); [right; auto|by left].
Qed.

Lemma durable_nil (evidence : option LoopDurableStateEvidence) :
  validateDurableStateEvidence evidence = [] <-> durable_evidenced evidence.
Proof.
  unfold validateDurableStateEvidence, durable_evidenced. by rewrite !app_nil_iff, !if_nil, !blank_false by done.
Qed.

Lemma verifier_nil (evidence : option LoopVerifierEvidence) :
  validateIndependentVerifier evidence = [] <-> verified_independently evidence.
Proof.
  unfold verified_independently, validateIndependentVerifier. destruct evidence as [v|]; [|naive_solver].
  rewrite !app_nil_iff, !if_nil, orb_false_iff, !negb_false_iff, hasEvidenceRefs_iff by done.
  split.
  - intros ((? & ?) & Hs & ?). exists v. split_and!; try done. destruct (verifier_status v) as [[]|]; auto; done.
  - intros (? & [= <-] & ? & ? & Hs & ?). split_and!; try done. by destruct Hs as [-> | ->].
Qed.

(** Every condition a loop has to meet to act. *)
Record may_act (definition : LoopDefinition) (state : LoopState) (item : LoopWorkItem)
    (evidence : LoopGateEvidence) : Prop := {
  act_killSwitch : killSwitch state <> Some true;
  act_status : status state = ready \/ status state = active;
  act_attempts : (attemptCount item < maxAttemptsPerItem definition)%nat;
  act_scope : exists scope, writeScope evidence = Some scope /\ scope_admitted definition scope /\
    forall files, changedFiles evidence = Some files ->
      Forall (fun file => normalizePath file = EmptyString \/ matchesAnyScope (normalizePath file) scope = true) files;
  act_worktree : requiresWorktreeIsolation definition = true -> worktree_evidenced definition (ev_worktree evidence);
  act_durable : requireReplayableEvidence definition = Some true -> durable_evidenced (durableState evidence);
  act_human : requiresHumanApproval definition item = true -> human_approval definition evidence = true;
  act_evidence : some_given (evidenceRefs evidence);
  act_verifier : requiresIndependentVerifier definition = true -> verified_independently (verifier evidence);
}.

Section Pass.
Context (definition : LoopDefinition) (state : LoopState) (item : LoopWorkItem) (evidence : LoopGateEvidence).

Lemma killSwitch_nil : gate_killSwitch state = [] <-> killSwitch state <> Some true.
Proof. unfold gate_killSwitch. rewrite if_nil by done. destruct (killSwitch state) as [[]|]; naive_solver. Qed.

Lemma status_nil : gate_status state = [] <-> status state = ready \/ status state = active.
Proof. unfold gate_status. destruct (status state); naive_solver. Qed.

Lemma attempts_nil : gate_attempts definition item = [] <-> (attemptCount item < maxAttemptsPerItem definition)%nat.
Proof. unfold gate_attempts. rewrite if_nil by done. apply Nat.leb_gt. Qed.

Lemma human_nil :
  gate_human definition item evidence = [] <->
  (requiresHumanApproval definition item = true -> human_approval definition evidence = true).
Proof.
  unfold gate_human. rewrite if_nil by done. destruct (requiresHumanApproval _ _), (human_approval _ _); naive_solver.
Qed.

Lemma guarded_nil {A} (b : bool) (l : list A) : (if b then l else []) = [] <-> (b = true -> l = []).
Proof. destruct b; naive_solver. Qed.

Lemma files_nil (scope : list string) :
  writeScope evidence = Some scope ->
  gate_changedFiles evidence = [] <->
  forall files, changedFiles evidence = Some files ->
    Forall (fun file => normalizePath file = EmptyString \/ matchesAnyScope (normalizePath file) scope = true) files.
Proof.
  intros Hs. unfold gate_changedFiles. rewrite Hs. destruct (changedFiles evidence) as [files|]; [|naive_solver].
  rewrite changed_nil. naive_solver.
Qed.

(** The gates let a loop act exactly when it may: the kill switch is off,
    the loop is ready or active, attempts are left, the write scope is given and
    admitted - present for an acting loop, within the count, every path inside
    the allowed and outside the denied scopes and overlapping none of them -, the
    changed files match it, and worktree, durable state, human approval,
    evidence and independent verification are there where they are required. *)
Theorem gates_pass_iff :
  passed (evaluateLoopSafetyGates definition state item evidence) = true <-> may_act definition state item evidence.
Proof.
  unfold evaluateLoopSafetyGates. rewrite gate_passed, !app_nil_iff.
  rewrite killSwitch_nil, status_nil, attempts_nil, human_nil.
  unfold gate_worktree, gate_durableState, gate_evidenceRefs, gate_verifier.
  rewrite !guarded_nil, worktree_nil, durable_nil, verifier_nil, bool_decide_eq_true.
  destruct (hasEvidenceRefs (evidenceRefs evidence)) eqn:He.
  - apply hasEvidenceRefs_iff in He. unfold gate_writeScope. split.
    + intros (? & ? & ? & Hs & Hf & ? & ? & ? & _ & ?). split; try done.
      destruct (writeScope evidence) as [scope|] eqn:Ew; [|done]. exists scope.
      split_and!; [done|by apply scope_nil|by apply files_nil].
    + intros [? ? ? (scope & Ew & Hs & Hf) ? ? ? ? ?]. split_and!; try done; [|by eapply files_nil].
      rewrite Ew. by apply scope_nil.
  - split; [intros (_ & _ & _ & _ & _ & _ & _ & _ & H & _); by specialize (H eq_refl)|].
    intros [_ _ _ _ _ _ _ H%hasEvidenceRefs_iff _]. congruence.
Qed.
End Pass.

(** ** Containment *)

(** A path or scope whose normal form has no white space at its ends, and a
    scope without a star. *)
Definition tidy (path : string) : bool := String.eqb (trim (normalizePath path)) (normalizePath path).
Definition star_free (scope : string) : bool := negb (includes "*" (normalizePath scope)).

Lemma root_matches_nothing (scope : string) : scopeMatchesPath "/" scope = false.
Proof. done. Qed.

Lemma tidy_settled (path : string) :
  tidy path = true -> normalizePath path <> "/" -> normalizePath (normalizePath path) = normalizePath path.
Proof.
  intros Ht%String.eqb_eq Hne. destruct (normalize_normal path) as [|Hn]; [done|]. by apply normal_settled.
Qed.

Lemma scope_match (path scope : string) :
  star_free scope = true ->
  scopeMatchesPath path scope = true <->
  normalizePath path <> EmptyString /\ normalizePath scope <> EmptyString /\ below (normalizePath path) (normalizePath scope).
Proof.
  intros Hs%negb_true_iff. unfold scopeMatchesPath. rewrite Hs, <- pathHasScopePrefix_iff.
  destruct (normalizePath path), (normalizePath scope); cbn [is_empty orb]; naive_solver.
Qed.

(** A matched path with a tidy name lies below one of the scopes. *)
Lemma match_below (path : string) (scopes : list string) :
  tidy path = true -> Forall (fun s => star_free s = true) scopes ->
  matchesAnyScope (normalizePath path) scopes = true ->
  normalizePath path <> "/" /\
  exists s, s ∈ scopes /\ normalizePath s <> EmptyString /\ below (normalizePath path) (normalizePath s).
Proof.
  intros Ht Hs. unfold matchesAnyScope. rewrite existsb_true_iff. intros (s & Hin & Hm).
  assert (Hne : normalizePath path <> "/") by (intros E; rewrite E in Hm; done). split; [done|].
  rewrite Forall_forall in Hs. apply scope_match in Hm as (_ & ? & Hb); [|by apply Hs].
  rewrite tidy_settled in Hb by done. eauto.
Qed.

Lemma not_below_root (p : string) : normal p -> ~ below p "/".
Proof.
  intros Hn. assert (H : forall q, p = ("/" ++ q)%string -> q <> EmptyString /\ (forall t, q <> ("/" ++ t)%string)).
  { intros q ->. inversion Hn as [k l Hl E|l Hne Hl E].
    - pose proof (words_of k l Hl) as Hw. destruct (repeat ".." k ++ l) as [|w r] eqn:Er; [done|].
      destruct (join_word_head (w :: r) Hw ltac:(done)) as (a & t & E' & Ha). rewrite E' in E.
      injection E as -> _. done.
    - assert (Hw : Forall word l) by (eapply Forall_impl; [exact Hl|]; by intros w [? _]).
      destruct (join_word_head l Hw Hne) as (a & t & E' & Ha). subst q. rewrite E'.
      split; [done|]. intros u [= -> _]. done. }
  intros [->|[t ->]]; [by destruct (H EmptyString eq_refl)|].
  destruct (H ("/" ++ t)%string) as [_ H']; [by rewrite <- app_assoc_str|]. by apply (H' t).
Qed.


(** ** How a refusal is handled *)

Lemma has_diagnostic_app (a b : list LoopValidationDiagnostic) (c : string) :
  hasDiagnostic (a ++ b) c = hasDiagnostic a c || hasDiagnostic b c.
Proof. apply existsb_app. Qed.

(** The codes three gates report are reported by no other. *)
Definition own_code (c : string) : bool :=
  String.eqb c "loop-kill-switch" || String.eqb c "max-attempts-exceeded" || String.eqb c "human-gate-required".

Definition codes_apart (diagnostics : list LoopValidationDiagnostic) : Prop :=
  Forall (fun d => own_code (diag_code d) = false) diagnostics.

Lemma apart_none (diagnostics : list LoopValidationDiagnostic) (c : string) :
  codes_apart diagnostics -> own_code c = true -> hasDiagnostic diagnostics c = false.
Proof.
  intros Ha Hc. apply existsb_false_iff. intros d Hd. unfold codes_apart in Ha. rewrite Forall_forall in Ha.
  destruct (String.eqb_spec (diag_code d) c) as [<-|]; [|done]. by rewrite (Ha d Hd) in Hc.
Qed.

Lemma apart_app (a b : list LoopValidationDiagnostic) : codes_apart a -> codes_apart b -> codes_apart (a ++ b).
Proof. intros. by apply Forall_app. Qed.

Lemma apart_concat {A} (f : A -> list LoopValidationDiagnostic) (l : list A) :
  (forall a, codes_apart (f a)) -> codes_apart (concat (map f l)).
Proof. intros Hf. induction l as [|a l IH]; [constructor|]. by apply apart_app. Qed.

Lemma apart_if (b : bool) (d : LoopValidationDiagnostic) :
  own_code (diag_code d) = false -> codes_apart (if b then [d] else []).
Proof. destruct b; repeat constructor; done. Qed.

Lemma apart_one (d : LoopValidationDiagnostic) : own_code (diag_code d) = false -> codes_apart [d].
Proof. by repeat constructor. Qed.

Ltac apart :=
  repeat first [ apply apart_app | by apply apart_if | by apply apart_one | apply apart_concat; intros ?
               | apply Forall_nil; exact I | case_match ].

Lemma scope_apart (definition : LoopDefinition) (evidence : LoopGateEvidence) : codes_apart (gate_writeScope definition evidence).
Proof.
  unfold gate_writeScope, validateLoopWriteScope, validateRequestedWriteScopeDoesNotOverlapDenied, checkWritePath,
    deniedOverlap. apart; by repeat constructor.
Qed.

Lemma rest_apart (definition : LoopDefinition) (evidence : LoopGateEvidence) :
  codes_apart (gate_changedFiles evidence) /\ codes_apart (gate_worktree definition evidence) /\
  codes_apart (gate_durableState definition evidence) /\ codes_apart (gate_evidenceRefs evidence) /\
  codes_apart (gate_verifier definition evidence).
Proof.
  unfold gate_changedFiles, validateChangedFilesWithinRequestedScope, checkChangedFile, gate_worktree,
    validateWorktreeEvidence, branch_mismatch, gate_durableState, validateDurableStateEvidence, gate_evidenceRefs,
    gate_verifier, validateIndependentVerifier.
  split_and!; apart; by repeat constructor.
Qed.

(** A refusal says what to do. The kill switch ends the loop; without it,
    exhausted attempts escalate; without those, a missing human approval asks a
    human; everything else blocks the action as unverified. *)
Theorem refusal_action (definition : LoopDefinition) (state : LoopState) (item : LoopWorkItem) (evidence : LoopGateEvidence) :
  let result := evaluateLoopSafetyGates definition state item evidence in
  (action result, outcome result) =
    if passed result then (allow, None)
    else if bool_decide (killSwitch state = Some true) then (block, Some killed)
    else if (maxAttemptsPerItem definition <=? attemptCount item)%nat then (escalate, Some escalated)
    else if requiresHumanApproval definition item && negb (human_approval definition evidence)
         then (human_gate, Some escalated)
         else (block, Some verifier_failed).
Proof.
  intros result. unfold result, evaluateLoopSafetyGates. set (all := gate_killSwitch state ++ _).
  destruct (rest_apart definition evidence) as (H1 & H2 & H3 & H4 & H5).
  pose proof (scope_apart definition evidence) as H6.
  assert (H7 : codes_apart (gate_status state)) by (unfold gate_status; destruct (status state); apart; by repeat constructor).
  assert (Hall : forall c, own_code c = true -> hasDiagnostic all c =
    hasDiagnostic (gate_killSwitch state) c || hasDiagnostic (gate_attempts definition item) c
    || hasDiagnostic (gate_human definition item evidence) c).
  { intros c Hc. unfold all. rewrite !has_diagnostic_app, !(apart_none _ _ H1), !(apart_none _ _ H2), !(apart_none _ _ H3),
      !(apart_none _ _ H4), !(apart_none _ _ H5), !(apart_none _ _ H6), !(apart_none _ _ H7) by done.
    cbn [orb]. by rewrite !orb_false_r, orb_assoc. }
  assert (Hk : hasDiagnostic all "loop-kill-switch" = bool_decide (killSwitch state = Some true)).
  { rewrite Hall by done. unfold gate_killSwitch, gate_attempts, gate_human.
    by destruct (killSwitch state) as [[]|], (_ <=? _)%nat, (_ && _). }
  assert (Ha : hasDiagnostic all "max-attempts-exceeded" = (maxAttemptsPerItem definition <=? attemptCount item)%nat).
  { rewrite Hall by done. unfold gate_killSwitch, gate_attempts, gate_human.
    by destruct (default _ _), (_ <=? _)%nat, (_ && _). }
  assert (Hh : hasDiagnostic all "human-gate-required" = requiresHumanApproval definition item && negb (human_approval definition evidence)).
  { rewrite Hall by done. unfold gate_killSwitch, gate_attempts, gate_human.
    by destruct (default _ _), (_ <=? _)%nat, (_ && _). }
  clearbody all. unfold safetyGateResult. destruct all as [|d all]; [done|]. rewrite Hk, Ha, Hh.
  by destruct (bool_decide _), (_ <=? _)%nat, (_ && _).
Qed.

(** ** Concrete loops *)

Definition sample_definition (allowed denied : list string) : LoopDefinition := {|
  level := L2;
  maxAttemptsPerItem := 2;
  safety := {| requireIndependentVerifier := true; requireHumanGateForHighRisk := true;
               allowedWriteScopes := allowed; deniedWriteScopes := Some denied;
               maxWriteScopeCount := Some (length allowed) |};
  worktree := Some {| wt_mode := per_item; branchPrefix := Some "omk/loops/fix/"; requireCleanCheckout := true |};
  requireReplayableEvidence := Some true;
  humanGates := Some {| requiredForRisks := [risk_high]; approvalRefsRequired := true |};
|}.

Definition sample_state : LoopState := {| status := active; killSwitch := None |}.

Definition sample_item : LoopWorkItem := {| item_id := "item-1"; risk := risk_medium; attemptCount := 1 |}.

Definition sample_evidence (scope files : list string) : LoopGateEvidence := {|
  writeScope := Some scope;
  changedFiles := Some files;
  evidenceRefs := Some ["log:1"];
  verifier := Some {| independent := true; verifier_status := Some pass; verifier_evidenceRefs := Some ["log:2"];
                      verifierId := Some "checker"; implementerId := Some "maker" |};
  humanGate := None;
  ev_worktree := Some {| isolated := true; worktreeId := Some "wt-1"; branch := Some "omk/loops/fix/item-1";
                         cleanCheckout := Some true |};
  durableState := Some {| stateRevision := Some "r1"; runLogRef := Some "run-log"; budgetReservationId := Some "b1" |};
|}.

Definition sample_run (allowed denied scope files : list string) : LoopSafetyGateResult :=
  evaluateLoopSafetyGates (sample_definition allowed denied) sample_state sample_item (sample_evidence scope files).


(** Patterns are compared with patterns as if they were paths: a request for
    everything below a directory is inside the scope of the files directly in
    it, and lets a change through that the allowed scope does not match. *)
Lemma pattern_request_widens :
  passed (sample_run ["src/*"] [] ["src/**"] ["src/deep/secret.ts"]) = true /\
  scopeMatchesPath "src/deep/secret.ts" "src/*" = false.
Proof. split; vm_compute; reflexivity. Qed.

(** A denied pattern guards the requested scopes, not the changed files: with
    the default denied scopes, a loop that may write to a directory changes a
    key file in it. *)
Lemma denied_file_changed :
  passed (sample_run ["src"] ["**/.env*"; "**/*secret*"; "**/*key*"] ["src"] ["src/.env.local"]) = true /\
  scopeMatchesPath "src/.env.local" "**/.env*" = true.
Proof. split; vm_compute; reflexivity. Qed.
