(* ===== verification/JsNumber.v ===== *)
(** * Integers in JSON texts

    What the sources rely on of the numbers they read: the text of an integer,
    and whether a decimal literal denotes, after the rounding to a double that
    [JSON.parse] performs, a safe integer ([Number.isSafeInteger]), and which. *)

From Stdlib Require Import Ascii String ZArith Lia.
From stdpp Require Import base list option strings pretty.
From S2P Require Import Prelude JsString JsValue Json.

Open Scope string_scope.
Open Scope Z_scope.

(** ** [JSON.stringify] of a non-negative integer *)

Definition int_text (z : Z) : string := pretty (Z.to_N z).

(** ** The value of a literal *)

Definition digit_value (a : ascii) : Z := Z.of_nat (code a) - 48.

Fixpoint digits_value (acc : Z) (s : string) : Z :=
  match s with
  | EmptyString => acc
  | String a s' => digits_value (10 * acc + digit_value a) s'
  end.

(** [e+n], [E-n] or nothing. *)
Definition exponent_value (s : string) : Z :=
  match s with
  | String _ (String a s') =>
      if Ascii.eqb a "-" then - digits_value 0 s'
      else if Ascii.eqb a "+" then digits_value 0 s'
      else digits_value 0 (String a s')
  | _ => 0
  end.

(** Mantissa and decimal exponent of an unsigned literal. *)
Definition unsigned_value (s : string) : Z * Z :=
  let (int, rest) := span is_digit s in
  let m := digits_value 0 int in
  match rest with
  | String p rest' =>
      if Ascii.eqb p "."
      then let (frac, rest'') := span is_digit rest' in
           (digits_value m frac, exponent_value rest'' - Z.of_nat (String.length frac))
      else (m, exponent_value rest)
  | EmptyString => (m, 0)
  end.

(** The nearest integer of a quotient, ties to even. *)
Definition round_half_even (num den : Z) : Z :=
  let q := num / den in
  let r := num mod den in
  if 2 * r <? den then q else if den <? 2 * r then q + 1 else q + q mod 2.

Definition MAX_SAFE_INTEGER : Z := 2 ^ 53 - 1.

(** The safe integer a positive quotient rounds to as a double, if it rounds to
    one: below a half it does so only by underflow to zero, from 2^53 on the
    result is not safe, and in between a double with binary exponent [k] is a
    multiple of 2^(k-52). *)
Definition nearest_safe (num den : Z) : option Z :=
  if num * 2 ^ 1075 <=? den then Some 0
  else if 2 * num <? den then None
  else
    let k := if num <? den then -1 else Z.log2 (num / den) in
    if 52 <? k then None
    else
      let scale := 2 ^ (52 - k) in
      let r := round_half_even (num * scale) den in
      if (r mod scale =? 0) && (r / scale <=? MAX_SAFE_INTEGER) then Some (r / scale) else None.

(** The value of the literal when it is a safe integer; minus zero is zero. *)
Definition safe_integer (literal : string) : option Z :=
  let '(negative, unsigned) := match literal with
                               | String a s => if Ascii.eqb a "-" then (true, s) else (false, literal)
                               | EmptyString => (false, literal)
                               end in
  let (m, e) := unsigned_value unsigned in
  z ← (if e <? 0 then nearest_safe m (10 ^ (- e)) else nearest_safe (m * 10 ^ e) 1);
  Some (if negative : bool then - z else z).

(** Is the value of the literal a finite number, not below zero? A quotient from
    2^1024 - 2^970 on rounds to infinity, one up to 2^-1075 to zero. *)
Definition finite_non_negative (literal : string) : bool :=
  let '(negative, unsigned) := match literal with
                               | String a s => if Ascii.eqb a "-" then (true, s) else (false, literal)
                               | EmptyString => (false, literal)
                               end in
  let (m, e) := unsigned_value unsigned in
  let '(num, den) := if e <? 0 then (m, 10 ^ (- e)) else (m * 10 ^ e, 1) in
  if negative : bool then num * 2 ^ 1075 <=? den else num <? (2 ^ 1024 - 2 ^ 970) * den.

(** ** Integers and their texts *)

Definition char_value (x : N) : Z := digit_value (pretty_N_char x).

Lemma char_value_small (x : N) : (x < 10)%N -> char_value x = Z.of_N x /\ is_digit (pretty_N_char x) = true.
Proof.
  intros Hx. assert (x = 0 \/ x = 1 \/ x = 2 \/ x = 3 \/ x = 4 \/ x = 5 \/ x = 6 \/ x = 7 \/ x = 8 \/ x = 9)%N by lia.
  naive_solver.
Qed.

Lemma digits_pretty_go (x : N) (s : string) : digits_value 0 (pretty_N_go x s) = digits_value (Z.of_N x) s.
Proof.
  revert s. induction (N.lt_wf_0 x) as [x _ IH]; intros s. destruct (decide (x = 0)%N) as [->|Hx]; [done|].
  rewrite pretty_N_go_step by lia. rewrite IH by (apply N.div_lt; lia). cbn [digits_value]. f_equal.
  destruct (char_value_small (x mod 10)) as [Hc _]; [by apply N.mod_lt|]. unfold char_value in Hc. rewrite Hc.
  rewrite N2Z.inj_div, N2Z.inj_mod. change (Z.of_N 10) with 10.
  pose proof (Z.div_mod (Z.of_N x) 10 ltac:(lia)). lia.
Qed.

Lemma pretty_go_digits (x : N) (s : string) :
  sforall is_digit s = true -> sforall is_digit (pretty_N_go x s) = true.
Proof.
  revert s. induction (N.lt_wf_0 x) as [x _ IH]; intros s Hs. destruct (decide (x = 0)%N) as [->|Hx]; [done|].
  rewrite pretty_N_go_step by lia. apply IH; [apply N.div_lt; lia|]. cbn [sforall].
  destruct (char_value_small (x mod 10)) as [_ ->]; [by apply N.mod_lt|done].
Qed.

Lemma int_text_digits (z : Z) : sforall is_digit (int_text z) = true.
Proof.
  unfold int_text, pretty, pretty_N. case_decide; [done|]. by apply pretty_go_digits.
Qed.

Lemma int_text_value (z : Z) : 0 <= z -> digits_value 0 (int_text z) = z.
Proof.
  intros Hz. unfold int_text, pretty, pretty_N. case_decide as E; [change (0 = z); lia|].
  rewrite digits_pretty_go. cbn. lia.
Qed.

(** The first digit of a positive number is not zero. *)
Lemma pretty_go_head (x : N) (s : string) :
  (0 < x)%N -> exists a r, pretty_N_go x s = String a r /\ a <> "0"%char.
Proof.
  revert s. induction (N.lt_wf_0 x) as [x _ IH]; intros s Hx. rewrite pretty_N_go_step by done.
  destruct (decide (x / 10 = 0)%N) as [E|E].
  - rewrite E, pretty_N_go_0. eexists _, _. split; [done|]. assert (x < 10)%N by (apply N.div_small_iff in E; lia).
    rewrite N.mod_small by done.
    assert (x = 1 \/ x = 2 \/ x = 3 \/ x = 4 \/ x = 5 \/ x = 6 \/ x = 7 \/ x = 8 \/ x = 9)%N by lia. naive_solver.
  - apply IH; [by apply N.div_lt|by apply N.neq_0_lt_0].
Qed.

Lemma span_all (p : ascii -> bool) (s : string) : sforall p s = true -> span p s = (s, EmptyString).
Proof. intros H. rewrite <- (app_nil_str s) at 1. by apply span_app. Qed.

Lemma int_text_number (z : Z) : number_ok (int_text z) = true.
Proof.
  pose proof (int_text_digits z) as Hd. unfold int_text, pretty, pretty_N in *. case_decide as E; [done|].
  destruct (pretty_go_head (Z.to_N z) EmptyString ltac:(lia)) as (a & r & Hr & Ha). rewrite Hr in *.
  assert (Hm : Ascii.eqb a "-" = false) by (destruct (Ascii.eqb_spec a "-") as [->|]; [by cbn in Hd|done]).
  cbn [number_ok]. rewrite Hm. cbn [unsigned_ok]. rewrite (proj2 (Ascii.eqb_neq _ _) Ha).
  unfold digits1. by rewrite span_all.
Qed.

Lemma nearest_safe_int (z : Z) : 0 <= z <= MAX_SAFE_INTEGER -> nearest_safe z 1 = Some z.
Proof.
  intros [H0 H1]. unfold nearest_safe. destruct (decide (z = 0)) as [->|Hz]; [done|].
  rewrite (proj2 (Z.leb_gt _ _)) by (assert (1 < 2 ^ 1075) by (apply (Z.pow_lt_mono_r 2 0); lia); nia).
  rewrite (proj2 (Z.ltb_ge _ _)) by lia. rewrite (proj2 (Z.ltb_ge z 1)) by lia. rewrite Z.div_1_r.
  assert (Hk : 0 <= Z.log2 z <= 52).
  { split; [apply Z.log2_nonneg|]. apply Z.lt_succ_r, Z.log2_lt_pow2; [lia|]. unfold MAX_SAFE_INTEGER in H1. lia. }
  rewrite (proj2 (Z.ltb_ge 52 _)) by lia.
  set (scale := 2 ^ (52 - Z.log2 z)). assert (0 < scale) by (apply Z.pow_pos_nonneg; lia).
  assert (Hr : round_half_even (z * scale) 1 = z * scale).
  { unfold round_half_even. by rewrite Z.mod_1_r, Z.div_1_r. }
  rewrite Hr, Z.mod_mul, Z.div_mul by lia. cbn [Z.eqb andb]. by rewrite (proj2 (Z.leb_le _ _) H1).
Qed.

Lemma safe_integer_text (z : Z) : 0 <= z <= MAX_SAFE_INTEGER -> safe_integer (int_text z) = Some z.
Proof.
  intros Hz. pose proof (int_text_digits z) as Hd. pose proof (int_text_number z) as Hn.
  assert (Hv : unsigned_value (int_text z) = (z, 0)).
  { unfold unsigned_value. rewrite span_all by done. by rewrite int_text_value by lia. }
  unfold safe_integer. destruct (int_text z) as [|a r] eqn:E; [done|].
  assert (Hm : Ascii.eqb a "-" = false) by (destruct (Ascii.eqb_spec a "-") as [->|]; [by cbn in Hd|done]).
  rewrite Hm, Hv. cbn [Z.ltb Z.compare]. rewrite Z.mul_1_r. by rewrite nearest_safe_int.
Qed.

Example literals :
  map safe_integer ["0"; "-0"; "7"; "1.0"; "1e3"; "10e-1"; "1.5"; "9007199254740991"; "9007199254740992";
                    "9007199254740990.4"; "0.99999999999999999"; "1e-400"; "-12"]
  = [Some 0; Some 0; Some 7; Some 1; Some 1000; Some 1; None; Some 9007199254740991; None;
     Some 9007199254740990; Some 1; Some 0; Some (-12)].
Proof. vm_compute. reflexivity. Qed.

(** ** What a safe integer can be *)

Lemma round_half_even_nonneg (num den : Z) : 0 <= num -> 0 < den -> 0 <= round_half_even num den.
Proof.
  intros Hn Hd. unfold round_half_even. pose proof (Z.div_pos num den Hn Hd).
  pose proof (Z.mod_pos_bound (num / den) 2 ltac:(lia)). repeat case_match; lia.
Qed.

Lemma nearest_safe_bounds (num den z : Z) :
  0 <= num -> 0 < den -> nearest_safe num den = Some z -> 0 <= z <= MAX_SAFE_INTEGER.
Proof.
  intros Hn Hd. unfold nearest_safe. destruct (_ <=? _); [intros [= <-]; done|]. destruct (_ <? _); [done|].
  set (k := if num <? den then -1 else Z.log2 (num / den)). destruct (52 <? k) eqn:Ek; [done|]. apply Z.ltb_ge in Ek.
  cbv zeta. set (scale := 2 ^ (52 - k)). assert (0 < scale) by (apply Z.pow_pos_nonneg; lia).
  destruct (_ && _) eqn:E; [|done]. apply andb_true_iff in E as [_ Hle%Z.leb_le]. intros [= <-].
  split; [|done]. apply Z.div_pos; [|done]. apply round_half_even_nonneg; [|done]. apply Z.mul_nonneg_nonneg; lia.
Qed.

Lemma digit_value_nonneg (a : ascii) : is_digit a = true -> 0 <= digit_value a.
Proof. unfold is_digit, in_range, digit_value. intros [H _]%andb_true_iff. apply Nat.leb_le in H. lia. Qed.

Lemma digits_value_nonneg (s : string) (acc : Z) : 0 <= acc -> sforall is_digit s = true -> 0 <= digits_value acc s.
Proof.
  revert acc. induction s as [|a s IH]; intros acc Ha; [done|]. cbn [sforall digits_value].
  intros [Hd%digit_value_nonneg Hs]%andb_true_iff. apply IH; [lia|done].
Qed.

Lemma unsigned_nonneg (s : string) : 0 <= fst (unsigned_value s).
Proof.
  unfold unsigned_value. destruct (span is_digit s) as [int rest] eqn:E.
  assert (Hi : sforall is_digit int = true) by (replace int with (fst (span is_digit s)) by (by rewrite E); apply span_eq).
  pose proof (digits_value_nonneg int 0 ltac:(lia) Hi). destruct rest as [|p rest]; [done|].
  destruct (Ascii.eqb p "."); [|done]. destruct (span is_digit rest) as [frac r] eqn:F. cbn [fst].
  apply digits_value_nonneg; [done|]. replace frac with (fst (span is_digit rest)) by (by rewrite F). apply span_eq.
Qed.

Lemma safe_integer_bounds (literal : string) (z : Z) : safe_integer literal = Some z -> Z.abs z <= MAX_SAFE_INTEGER.
Proof.
  unfold safe_integer. destruct (match literal with EmptyString => _ | String a s => _ end) as [negative unsigned].
  pose proof (unsigned_nonneg unsigned) as Hm. destruct (unsigned_value unsigned) as [m e]. cbn [fst] in Hm.
  intros (n & Hn & [= <-])%bind_Some.
  assert (Hb : 0 <= n <= MAX_SAFE_INTEGER).
  { destruct (Z.ltb_spec e 0); apply nearest_safe_bounds in Hn; try done.
    - by apply Z.pow_pos_nonneg; lia.
    - apply Z.mul_nonneg_nonneg; [done|]. by apply Z.pow_nonneg. }
  destruct negative; lia.
Qed.

Lemma safe_integer_minus (z : Z) : 0 <= z <= MAX_SAFE_INTEGER -> safe_integer (String "-" (int_text z)) = Some (- z).
Proof.
  intros Hz. pose proof (int_text_digits z) as Hd. unfold safe_integer. cbn [Ascii.eqb Bool.eqb].
  assert (Hv : unsigned_value (int_text z) = (z, 0)).
  { unfold unsigned_value. rewrite span_all by done. by rewrite int_text_value by lia. }
  rewrite Hv. cbn [Z.ltb Z.compare]. rewrite Z.mul_1_r. by rewrite nearest_safe_int.
Qed.
