(* ===== verification/CanonicalJson.v ===== *)
(** * Canonical JSON texts

    [canonicalJson] of packages/coding-agent/src/core/run-journal.ts: the keys
    of an object sorted by code units, numbers as [JSON.stringify] prints them.
    It is the printer of [Json] after [canon], which sorts the keys and
    normalizes the literals of safe integers, the only numbers the journal
    holds. *)

From Stdlib Require Import Ascii String ZArith Lia Sorting.
From stdpp Require Import base list option strings sorting.
From S2P Require Import Prelude JsString JsValue Json JsNumber.

Open Scope string_scope.
Open Scope list_scope.

(** ** Definitions *)

Definition by_key {A} (a b : string * A) : comparison := str_compare (fst a) (fst b).

(** [JSON.stringify] of a parsed number. *)
Definition number_text (literal : string) : string :=
  match safe_integer literal with
  | Some z => if (z <? 0)%Z then String "-" (int_text (- z)) else int_text z
  | None => literal
  end.

Fixpoint canonicalJson (v : json) : string :=
  match v with
  | JsNull => "null"
  | JsArr l => ("[" ++ join "," (map canonicalJson l) ++ "]")%string
  | JsObj fields =>
      ("{" ++ join "," (map (fun kt => json_string (fst kt) ++ ":" ++ snd kt)%string
                        (stable_sort by_key (map (fun kv => (fst kv, canonicalJson (snd kv))) fields))) ++ "}")%string
  | JsNum literal => number_text literal
  | JsBool _ | JsStr _ => json_print v
  end.

Fixpoint canon (v : json) : json :=
  match v with
  | JsArr l => JsArr (map canon l)
  | JsObj fields => JsObj (stable_sort by_key (map (fun kv => (fst kv, canon (snd kv))) fields))
  | JsNum literal => JsNum (number_text literal)
  | JsNull | JsBool _ | JsStr _ => v
  end.

(** ** Sorting by key *)

Lemma by_key_antisym {A} (a b : string * A) : by_key b a = CompOpp (by_key a b).
Proof. apply str_compare_antisym. Qed.

Lemma by_key_trans {A} (a b c : string * A) : cmp_le by_key a b -> cmp_le by_key b c -> cmp_le by_key a c.
Proof. apply str_le_trans. Qed.

Lemma keys_distinct {A} (l : list (string * A)) (a b : string * A) :
  NoDup (map fst l) -> a ∈ l -> b ∈ l -> by_key a b = Eq -> a = b.
Proof.
  intros Hnd Ha Hb Hk%str_compare_eq. destruct a as [k v], b as [k' w]. cbn in Hk. subst k'. f_equal.
  apply (map_get_elem k v l Hnd) in Ha. apply (map_get_elem k w l Hnd) in Hb. congruence.
Qed.

(** Sorting again changes nothing. *)
Lemma sort_keys_idem {A} (l : list (string * A)) :
  NoDup (map fst l) -> stable_sort by_key (stable_sort by_key l) = stable_sort by_key l.
Proof.
  intros Hnd. apply stable_sort_perm_eq; [apply by_key_antisym|apply by_key_trans| |apply stable_sort_perm].
  intros a b. rewrite !elem_of_stable_sort. by apply keys_distinct.
Qed.

Lemma sort_keys_map {A B} (f : A -> B) (l : list (string * A)) :
  stable_sort by_key (map (fun kv => (fst kv, f (snd kv))) l)
  = map (fun kv => (fst kv, f (snd kv))) (stable_sort by_key l).
Proof.
  assert (Hi : forall x (m : list (string * A)), sort_insert by_key (fst x, f (snd x)) (map (fun kv => (fst kv, f (snd kv))) m)
    = map (fun kv => (fst kv, f (snd kv))) (sort_insert by_key x m)).
  { intros x m. induction m as [|y m IH]; [done|]. cbn [map sort_insert].
    change (by_key (fst x, f (snd x)) (fst y, f (snd y))) with (by_key x y).
    destruct (by_key x y); cbn [map]; [done|done|by rewrite IH]. }
  unfold stable_sort. induction l as [|x l IH]; [done|]. cbn [map foldr]. by rewrite IH, Hi.
Qed.

Lemma keys_map {A B} (f : A -> B) (l : list (string * A)) : map fst (map (fun kv => (fst kv, f (snd kv))) l) = map fst l.
Proof. rewrite map_map. by apply map_ext. Qed.

Lemma sort_keys_perm {A} (l : list (string * A)) : map fst (stable_sort by_key l) ≡ₚ map fst l.
Proof. apply Permutation_map, stable_sort_perm. Qed.

(** ** [canonicalJson] prints the canonical form *)

Lemma number_text_ok (literal : string) : number_ok literal = true -> number_ok (number_text literal) = true.
Proof.
  intros H. unfold number_text. destruct (safe_integer literal) as [z|]; [|done].
  destruct (z <? 0)%Z; [|apply int_text_number]. pose proof (int_text_number (- z)) as Hn.
  cbn [number_ok Ascii.eqb Bool.eqb]. destruct (int_text (- z)) as [|a r] eqn:E; [done|]. cbn [number_ok] in Hn.
  pose proof (int_text_digits (- z)) as Hd. rewrite E in Hd.
  destruct (Ascii.eqb_spec a "-") as [->|]; [by cbn in Hd|done].
Qed.

Lemma safe_integer_number_text (literal : string) : safe_integer (number_text literal) = safe_integer literal.
Proof.
  unfold number_text. destruct (safe_integer literal) as [z|] eqn:E; [|done].
  pose proof (safe_integer_bounds _ _ E) as Hb. destruct (Z.ltb_spec z 0).
  - rewrite safe_integer_minus by lia. f_equal. lia.
  - apply safe_integer_text. lia.
Qed.

Lemma number_text_idem (literal : string) : number_text (number_text literal) = number_text literal.
Proof. unfold number_text at 1. rewrite safe_integer_number_text. unfold number_text. by destruct (safe_integer literal). Qed.

Lemma canonicalJson_print (v : json) : canonicalJson v = json_print (canon v).
Proof.
  induction v as [| | | |l IH|fields IH] using json_ind_nested; cbn [canonicalJson canon json_print]; try done.
  - do 2 f_equal. f_equal. rewrite map_map. apply map_ext_Forall. exact IH.
  - do 2 f_equal. f_equal.
    assert (E : map (fun kv => (fst kv, canonicalJson (snd kv))) fields
                = map (fun kv => (fst kv, json_print (snd kv))) (map (fun kv => (fst kv, canon (snd kv))) fields)).
    { rewrite map_map. apply map_ext_Forall. eapply Forall_impl; [exact IH|]. intros kv Hkv. cbn. by rewrite Hkv. }
    rewrite E, sort_keys_map, map_map. done.
Qed.

Lemma json_ok_fields (fields : list (string * json)) :
  json_ok (JsObj fields) = true <-> Forall (fun kv => json_ok (snd kv) = true) fields /\ NoDup (map fst fields).
Proof. cbn [json_ok]. rewrite andb_true_iff, bool_decide_eq_true, forallb_forall, Forall_forall. setoid_rewrite list_elem_of_In. done. Qed.

Lemma canon_keys (fields : list (string * json)) :
  map fst (stable_sort by_key (map (fun kv => (fst kv, canon (snd kv))) fields)) ≡ₚ map fst fields.
Proof. rewrite sort_keys_perm. by rewrite keys_map. Qed.

Lemma canon_ok (v : json) : json_ok v = true -> json_ok (canon v) = true.
Proof.
  induction v as [| | | |l IH|fields IH] using json_ind_nested; try done.
  - apply number_text_ok.
  - cbn [canon json_ok]. rewrite !forallb_forall. intros H x (y & <- & Hy)%in_map_iff.
    rewrite Forall_forall in IH. apply IH; [by apply list_elem_of_In|by apply H].
  - cbn [canon]. rewrite !json_ok_fields. intros [Hf Hnd]. split; [|by rewrite canon_keys].
    rewrite Forall_forall in *. intros kv. rewrite elem_of_stable_sort.
    intros (y & -> & Hy)%list_elem_of_fmap. cbn. by apply IH, Hf.
Qed.

Lemma canon_idem (v : json) : json_ok v = true -> canon (canon v) = canon v.
Proof.
  induction v as [| | | |l IH|fields IH] using json_ind_nested; try done; cbn [canon].
  - intros _. by rewrite number_text_idem.
  - cbn [json_ok]. rewrite forallb_forall. intros H. f_equal. rewrite map_map. apply map_ext_Forall.
    rewrite Forall_forall in *. intros x Hx. apply IH; [done|]. apply H. by apply list_elem_of_In.
  - rewrite json_ok_fields. intros [Hf Hnd]. f_equal. rewrite <- sort_keys_map, map_map. cbn [fst snd].
    assert (E : map (fun kv => (fst kv, canon (canon (snd kv)))) fields = map (fun kv => (fst kv, canon (snd kv))) fields).
    { apply map_ext_Forall. rewrite Forall_forall in *. intros kv Hkv. rewrite IH; [done|done|by apply Hf]. }
    rewrite E. apply sort_keys_idem. by rewrite keys_map.
Qed.

(** Reading a canonical text gives the canonical form. *)
Lemma parse_canonical (v : json) : json_ok v = true -> json_parse (canonicalJson v) = Some (canon v).
Proof. intros H. rewrite canonicalJson_print. by apply json_parse_print, canon_ok. Qed.

Lemma canonicalJson_inj (v w : json) :
  json_ok v = true -> json_ok w = true -> canonicalJson v = canonicalJson w -> canon v = canon w.
Proof.
  intros Hv Hw E. apply parse_canonical in Hv. apply parse_canonical in Hw. congruence.
Qed.

Lemma canonical_canon (v : json) : json_ok v = true -> canonicalJson (canon v) = canonicalJson v.
Proof. intros H. by rewrite !canonicalJson_print, canon_idem. Qed.

Lemma canonical_no_lf (v : json) : json_ok v = true -> sforall no_lf (canonicalJson v) = true.
Proof. intros H. rewrite canonicalJson_print. by apply json_print_no_lf, canon_ok. Qed.

(** ** Fields of the canonical form *)

Lemma map_get_map {A B} (f : A -> B) (k : string) (l : list (string * A)) :
  map_get k (map (fun kv => (fst kv, f (snd kv))) l) = f <$> map_get k l.
Proof. induction l as [|[q v] l IH]; [done|]. cbn. by destruct (String.eqb q k). Qed.

Lemma map_get_perm {A} (k : string) (l l' : list (string * A)) :
  NoDup (map fst l) -> l ≡ₚ l' -> map_get k l = map_get k l'.
Proof.
  intros Hnd Hp. assert (Hnd' : NoDup (map fst l')) by by rewrite <- (Permutation_map fst Hp).
  apply option_eq. intros v. rewrite <- !map_get_elem by done. by rewrite Hp.
Qed.

Lemma jget_canon (k : string) (v : json) : json_ok v = true -> jget k (canon v) = canon <$> jget k v.
Proof.
  destruct v as [| | | | |fields]; try done. rewrite json_ok_fields. intros [_ Hnd]. cbn [canon jget].
  rewrite <- map_get_map. symmetry. apply map_get_perm; [by rewrite keys_map|]. symmetry. apply stable_sort_perm.
Qed.

Lemma jget_ok (k : string) (v w : json) : json_ok v = true -> jget k v = Some w -> json_ok w = true.
Proof.
  destruct v as [| | | | |fields]; try done. rewrite json_ok_fields. intros [Hf Hnd]. cbn [jget].
  intros Hw%map_get_elem; [|done]. rewrite Forall_forall in Hf. exact (Hf _ Hw).
Qed.

Lemma jstr_canon (k : string) (v : json) : json_ok v = true -> jstr k (canon v) = jstr k v.
Proof. intros H. unfold jstr. rewrite jget_canon by done. by destruct (jget k v) as [[]|]. Qed.
