(* ===== verification/SessionTermination.v ===== *)
(** * Why a session ended (packages/coding-agent/src/core/session-termination.ts)

    A structured cause is classified into a termination record: kind, phase,
    cause code, whether a retry is possible and whether it is safe to do
    automatically. Texts that look like credentials are refused. Inputs have the
    types of the source, so the checks that an untyped value has them are met. *)

From Stdlib Require Import Ascii String ZArith QArith Lia.
From stdpp Require Import base list option strings.
From S2P Require Import Prelude JsString JsValue Regex Json JsNumber.

Open Scope string_scope.
Open Scope list_scope.

(** ** Types *)

Inductive SessionTerminationKind : Type :=
| kind_completed | kind_user_abort | kind_provider_abort | kind_provider_auth | kind_provider_rate_limit
| kind_provider_network | kind_provider_protocol | kind_provider_refusal | kind_context_overflow
| kind_transcript_invalid | kind_tool_timeout | kind_tool_fatal | kind_compaction | kind_persistence
| kind_process_signal | kind_process_crash | kind_configuration | kind_internal_error.

#[export] Instance kind_eq_dec : EqDecision SessionTerminationKind.
Proof. solve_decision. Defined.

Definition kind_str (kind : SessionTerminationKind) : string :=
  match kind with
  | kind_completed => "completed"
  | kind_user_abort => "user_abort"
  | kind_provider_abort => "provider_abort"
  | kind_provider_auth => "provider_auth"
  | kind_provider_rate_limit => "provider_rate_limit"
  | kind_provider_network => "provider_network"
  | kind_provider_protocol => "provider_protocol"
  | kind_provider_refusal => "provider_refusal"
  | kind_context_overflow => "context_overflow"
  | kind_transcript_invalid => "transcript_invalid"
  | kind_tool_timeout => "tool_timeout"
  | kind_tool_fatal => "tool_fatal"
  | kind_compaction => "compaction"
  | kind_persistence => "persistence"
  | kind_process_signal => "process_signal"
  | kind_process_crash => "process_crash"
  | kind_configuration => "configuration"
  | kind_internal_error => "internal_error"
  end.

Definition SESSION_TERMINATION_KIND_VALUES : list string :=
  map kind_str
    [kind_completed; kind_user_abort; kind_provider_abort; kind_provider_auth; kind_provider_rate_limit;
     kind_provider_network; kind_provider_protocol; kind_provider_refusal; kind_context_overflow;
     kind_transcript_invalid; kind_tool_timeout; kind_tool_fatal; kind_compaction; kind_persistence;
     kind_process_signal; kind_process_crash; kind_configuration; kind_internal_error].

Inductive SessionTerminationPhase : Type :=
| phase_completed | phase_control | phase_preflight | phase_provider | phase_tool | phase_compaction
| phase_persistence | phase_process | phase_resume.

Definition phase_str (phase : SessionTerminationPhase) : string :=
  match phase with
  | phase_completed => "completed"
  | phase_control => "control"
  | phase_preflight => "preflight"
  | phase_provider => "provider"
  | phase_tool => "tool"
  | phase_compaction => "compaction"
  | phase_persistence => "persistence"
  | phase_process => "process"
  | phase_resume => "resume"
  end.

Inductive SessionTerminationSource : Type := observed | inferred_on_resume.

Definition source_str (source : SessionTerminationSource) : string :=
  match source with
  | observed => "observed"
  | inferred_on_resume => "inferred_on_resume"
  end.

Inductive SessionSideEffects : Type := effects_none | effects_possible | effects_confirmed.

Definition effects_str (effects : SessionSideEffects) : string :=
  match effects with
  | effects_none => "none"
  | effects_possible => "possible"
  | effects_confirmed => "confirmed"
  end.

Inductive SessionProcessSignal : Type := SIGINT | SIGTERM | SIGHUP | SIGQUIT.

Definition signal_str (signal : SessionProcessSignal) : string :=
  match signal with
  | SIGINT => "SIGINT"
  | SIGTERM => "SIGTERM"
  | SIGHUP => "SIGHUP"
  | SIGQUIT => "SIGQUIT"
  end.

Inductive ProviderTerminationCauseCode : Type :=
| provider_abort | provider_auth | provider_rate_limit | provider_network | provider_protocol
| provider_refusal | provider_context_overflow.

Inductive ToolTerminationCauseCode : Type := tool_timeout | tool_fatal.

Inductive CompactionTerminationCauseCode : Type := compaction_aborted | compaction_failed | compaction_stale.

Definition compaction_code_str (code : CompactionTerminationCauseCode) : string :=
  match code with
  | compaction_aborted => "aborted"
  | compaction_failed => "failed"
  | compaction_stale => "stale"
  end.

Inductive PersistenceTerminationCauseCode : Type :=
| read_failed | append_failed | replace_failed | fsync_failed | lock_failed.

Definition persistence_code_str (code : PersistenceTerminationCauseCode) : string :=
  match code with
  | read_failed => "read_failed"
  | append_failed => "append_failed"
  | replace_failed => "replace_failed"
  | fsync_failed => "fsync_failed"
  | lock_failed => "lock_failed"
  end.

Inductive TranscriptTerminationCauseCode : Type :=
| issue_missing_result | issue_duplicate_result | issue_orphan_result | issue_duplicate_call_id
| issue_interleaved_non_result | issue_invalid_jsonl | issue_invalid_tree | issue_unsupported_version
| issue_trailing_fragment.

Definition issue_str (code : TranscriptTerminationCauseCode) : string :=
  match code with
  | issue_missing_result => "missing_result"
  | issue_duplicate_result => "duplicate_result"
  | issue_orphan_result => "orphan_result"
  | issue_duplicate_call_id => "duplicate_call_id"
  | issue_interleaved_non_result => "interleaved_non_result"
  | issue_invalid_jsonl => "invalid_jsonl"
  | issue_invalid_tree => "invalid_tree"
  | issue_unsupported_version => "unsupported_version"
  | issue_trailing_fragment => "trailing_fragment"
  end.

Inductive SessionTerminationCause : Type :=
| cause_completed
| cause_user_abort
| cause_provider (code : ProviderTerminationCauseCode)
| cause_tool (code : ToolTerminationCauseCode)
| cause_compaction (code : CompactionTerminationCauseCode)
| cause_persistence (code : PersistenceTerminationCauseCode)
| cause_signal (signal : SessionProcessSignal)
| cause_crash
| cause_transcript (code : TranscriptTerminationCauseCode)
| cause_configuration
| cause_internal.

Record ClassifySessionTerminationInput : Type := {
  in_sessionId : string;
  in_runId : string;
  in_timestamp : string;
  in_source : SessionTerminationSource;
  in_message : string;
  in_cause : SessionTerminationCause;
  in_sideEffects : SessionSideEffects;
  in_retryAfterMs : option jsnum;
  in_provider : option string;
  in_model : option string;
  in_toolCallId : option string;
  in_toolName : option string;
}.

Record SessionTermination : Type := {
  tm_sessionId : string;
  tm_runId : string;
  tm_kind : SessionTerminationKind;
  tm_phase : SessionTerminationPhase;
  tm_source : SessionTerminationSource;
  tm_message : string;
  tm_causeCode : string;
  tm_nextAction : string;
  tm_retryable : bool;
  tm_safeToAutoRetry : bool;
  tm_sideEffects : SessionSideEffects;
  tm_timestamp : string;
  tm_retryAfterMs : option Z;
  tm_provider : option string;
  tm_model : option string;
  tm_toolCallId : option string;
  tm_toolName : option string;
  tm_processSignal : option SessionProcessSignal;
  tm_transcriptIssue : option TranscriptTerminationCauseCode;
}.

Record Classification : Type := {
  cl_kind : SessionTerminationKind;
  cl_phase : SessionTerminationPhase;
  cl_causeCode : string;
  cl_retryable : bool;
  cl_processSignal : option SessionProcessSignal;
  cl_transcriptIssue : option TranscriptTerminationCauseCode;
}.

(** ** Shapes of credentials *)

Definition alnum (a : ascii) : bool := is_alpha a || in_range 48 57 a.

(** [r{n}] *)
Fixpoint RTimes (n : nat) (r : regex) : regex :=
  match n with
  | O => REps
  | S n => RSeq r (RTimes n r)
  end.

Definition private_key_shape : regex :=
  RSeqs [RLitI "-----BEGIN "; RStar (RChar (fun a => is_alpha a || Ascii.eqb a " ")); RLitI "PRIVATE KEY-----"].

Definition sk_token : regex := RSeq (RLit "sk-") (RAtLeast 16 (RChar (fun a => alnum a || one_of "_-" a))).
Definition github_pat : regex := RSeq (RLit "github_pat_") (RAtLeast 16 (RChar (fun a => alnum a || Ascii.eqb a "_"))).
Definition gh_token : regex := RSeqs [RLit "gh"; RChar (one_of "pousr"); RLit "_"; RAtLeast 16 (RChar alnum)].
Definition xox_token : regex :=
  RSeqs [RLit "xox"; RChar (one_of "baprs"); RLit "-"; RAtLeast 16 (RChar (fun a => alnum a || Ascii.eqb a "-"))].
Definition akia_key : regex := RSeq (RLit "AKIA") (RTimes 16 (RChar (fun a => in_range 65 90 a || in_range 48 57 a))).

(** [\b(?:...)\b] *)
Definition between_boundaries (r : regex) : regex := RSeqs [RWordB; r; RWordB].

Definition bearer_shape : regex :=
  RSeqs [RWordB; RLitI "Bearer"; RPlus RSpace; RAtLeast 8 (RChar (fun a => alnum a || one_of "._~+/-" a));
         ROpt (RSeq (RLit "=") (ROpt (RLit "="))); RWordB].

Definition jwt_part : regex := RAtLeast 8 (RChar (fun a => alnum a || one_of "_-" a)).
Definition jwt_shape : regex :=
  RSeqs [RWordB; RLit "eyJ"; jwt_part; RLit "."; jwt_part; RLit "."; jwt_part; RWordB].

(** [a[-_ ]?b] *)
Definition two_words (a b : string) : regex := RSeqs [RLitI a; ROpt (RChar (one_of "-_ ")); RLitI b].

Definition assignment_shape : regex :=
  RSeqs [RAlt RBegin (RChar (fun a => negb (alnum a)));
         RStar (RSeq (RPlus (RChar alnum)) (RChar (one_of "_-")));
         RAlts [RLitI "authorization"; two_words "api" "key"; two_words "access" "token"; RLitI "token";
                RLitI "password"; RSeq (RLitI "secret") (ROpt (RSeq (ROpt (RChar (one_of "-_ "))) (RLitI "key")));
                two_words "private" "key"; RLitI "cookie"];
         ROpt (RChar (fun a => Ascii.eqb a quote_char || Ascii.eqb a "'"));
         RStar RSpace; RChar (one_of ":=")].

Definition CREDENTIAL_SHAPES : list regex :=
  [private_key_shape;
   between_boundaries (RAlts [sk_token; github_pat; gh_token; xox_token; akia_key]);
   bearer_shape; jwt_shape; assignment_shape].

(** ** Checks *)

Definition MAX_SESSION_TERMINATION_MESSAGE_LENGTH : nat := 512.

(** [/[\u0000-\u001f\u007f]/] *)
Definition is_control (a : ascii) : bool := in_range 0 31 a || (code a =? 127)%nat.

Definition check (ok : bool) (message : string) : result string unit := if ok then Ok tt else Err message.

Definition assertIdentifier (value name : string) (maxLength : nat) : result string unit :=
  check (negb (is_empty value) && (String.length value <=? maxLength)%nat && negb (sexists is_control value))
    (name ++ " must be non-empty bounded text without C0 or DEL control characters").

Definition assertPreRedactedTerminationMessage (message : string) : result string unit :=
  _ <-? check (negb (is_empty message) && (String.length message <=? MAX_SESSION_TERMINATION_MESSAGE_LENGTH)%nat)
          ("message must contain 1-" ++ nat_str MAX_SESSION_TERMINATION_MESSAGE_LENGTH
           ++ " characters of pre-redacted text") ;;
  _ <-? check (negb (includes (String (ascii_of_nat 0) EmptyString) message)) "message must not contain NUL" ;;
  check (negb (existsb (fun pattern => rx_test pattern message) CREDENTIAL_SHAPES))
    "message contains a credential-shaped literal; redact it before classification".

(** [new Date(s).toISOString() === s]: four digits of a year, or a sign and six
    outside that range, up to a hundred million days from the epoch. *)
Section Instant.
Open Scope nat_scope.

Definition digits_at (from len : nat) (s : string) : option nat :=
  let w := slice_to len (slice from s) in
  if (String.length w =? len) && sforall is_digit w then Some (Z.to_nat (digits_value 0 w)) else None.

Definition leap_year (year : Z) : bool :=
  ((year mod 4 =? 0) && (negb (year mod 100 =? 0) || (year mod 400 =? 0)))%Z.

Definition days_in_month (year : Z) (month : nat) : nat :=
  match month with
  | 2 => if leap_year year then 29 else 28
  | 4 | 6 | 9 | 11 => 30
  | _ => 31
  end.

(** [-MM-DDTHH:mm:ss.sssZ] of a year. *)
Definition instant_rest (year : Z) (s : string) : bool :=
  (String.length s =? 20)
  && startsWith "-" s && startsWith "-" (slice 3 s) && startsWith "T" (slice 6 s) && startsWith ":" (slice 9 s)
  && startsWith ":" (slice 12 s) && startsWith "." (slice 15 s) && startsWith "Z" (slice 19 s)
  && match digits_at 1 2 s, digits_at 4 2 s, digits_at 7 2 s, digits_at 10 2 s, digits_at 13 2 s, digits_at 16 3 s with
     | Some month, Some day, Some hour, Some minute, Some second, Some _ =>
         (1 <=? month) && (month <=? 12) && (1 <=? day) && (day <=? days_in_month year month)
         && (hour <? 24) && (minute <? 60) && (second <? 60)
     | _, _, _, _, _, _ => false
     end.

(** [at most] by code units. *)
Definition text_le (s t : string) : bool :=
  match str_compare s t with
  | Gt => false
  | _ => true
  end.

Definition canonical_instant (s : string) : bool :=
  match digits_at 0 4 s with
  | Some year => instant_rest (Z.of_nat year) (slice 4 s)
  | None =>
      match digits_at 1 6 s with
      | Some year =>
          let y := Z.of_nat year in
          let rest := slice 7 s in
          if startsWith "+" s
          then instant_rest y rest
               && ((9999 <? y) && ((y <? 275760) || ((y =? 275760) && text_le rest "-09-13T00:00:00.000Z")))%Z
          else if startsWith "-" s
          then instant_rest (- y) rest
               && ((0 <? y) && ((y <? 271821) || ((y =? 271821) && text_le "-04-20T00:00:00.000Z" rest)))%Z
          else false
      | None => false
      end
  end.
End Instant.

Definition assertTimestamp (timestamp : string) : result string unit :=
  check (canonical_instant timestamp) "timestamp must be a canonical ISO-8601 UTC instant".

(** [Number.isSafeInteger(n)], with the integer. *)
Definition jsnum_safe (n : jsnum) : option Z :=
  match n with
  | NumFin q =>
      let r := Qred q in
      if (Zpos (Qden r) =? 1)%Z && (Z.abs (Qnum r) <=? MAX_SAFE_INTEGER)%Z then Some (Qnum r) else None
  | NumNaN | NumInf _ => None
  end.

(** ** Classification *)

Definition classified (kind : SessionTerminationKind) (phase : SessionTerminationPhase) (causeCode : string)
    (retryable : bool) : Classification :=
  {| cl_kind := kind; cl_phase := phase; cl_causeCode := causeCode; cl_retryable := retryable;
     cl_processSignal := None; cl_transcriptIssue := None |}.

Definition classifyProvider (code : ProviderTerminationCauseCode) : Classification :=
  match code with
  | provider_abort => classified kind_provider_abort phase_provider "provider.abort" true
  | provider_auth => classified kind_provider_auth phase_provider "provider.auth" false
  | provider_rate_limit => classified kind_provider_rate_limit phase_provider "provider.rate_limit" true
  | provider_network => classified kind_provider_network phase_provider "provider.network" true
  | provider_protocol => classified kind_provider_protocol phase_provider "provider.protocol" true
  | provider_context_overflow => classified kind_context_overflow phase_provider "provider.context_overflow" true
  | provider_refusal => classified kind_provider_refusal phase_provider "provider.refusal" true
  end.

Definition classifyCause (cause : SessionTerminationCause) (source : SessionTerminationSource) : Classification :=
  match cause with
  | cause_completed => classified kind_completed phase_completed "session.completed" false
  | cause_user_abort => classified kind_user_abort phase_control "session.user_abort" false
  | cause_provider code => classifyProvider code
  | cause_tool tool_timeout => classified kind_tool_timeout phase_tool "tool.timeout" true
  | cause_tool tool_fatal => classified kind_tool_fatal phase_tool "tool.fatal" false
  | cause_compaction code =>
      classified kind_compaction phase_compaction ("compaction." ++ compaction_code_str code) true
  | cause_persistence code =>
      classified kind_persistence phase_persistence ("persistence." ++ persistence_code_str code) true
  | cause_signal signal =>
      {| cl_kind := kind_process_signal; cl_phase := phase_process; cl_causeCode := "process.signal";
         cl_retryable := false; cl_processSignal := Some signal; cl_transcriptIssue := None |}
  | cause_crash => classified kind_process_crash phase_resume "process.crash" true
  | cause_transcript code =>
      {| cl_kind := kind_transcript_invalid;
         cl_phase := match source with
                     | inferred_on_resume => phase_resume
                     | observed => phase_preflight
                     end;
         cl_causeCode := ("transcript." ++ issue_str code)%string; cl_retryable := false;
         cl_processSignal := None; cl_transcriptIssue := Some code |}
  | cause_configuration => classified kind_configuration phase_preflight "configuration.invalid" false
  | cause_internal => classified kind_internal_error phase_preflight "internal.unclassified" false
  end.

Definition auto_retry_kind (kind : SessionTerminationKind) : bool :=
  match kind with
  | kind_provider_rate_limit | kind_provider_network | kind_provider_refusal => true
  | _ => false
  end.

Definition isSafeToAutoRetry (classification : Classification) (input : ClassifySessionTerminationInput) : bool :=
  cl_retryable classification
  && match in_source input with
     | observed => true
     | inferred_on_resume => false
     end
  && match in_sideEffects input with
     | effects_none => true
     | _ => false
     end
  && auto_retry_kind (cl_kind classification).

(** The long dash of two texts, which is beyond the strings of this
    development, is written as a hyphen; no check tells the two apart. *)
Definition nextActionFor (classification : Classification) (input : ClassifySessionTerminationInput) : string :=
  match cl_kind classification with
  | kind_completed => "No recovery action is required; continue with the next prompt."
  | kind_user_abort => "Review possible partial side effects, then retry only if intended."
  | kind_provider_abort => "Confirm provider availability, then retry the request."
  | kind_provider_auth =>
      "Run /login" ++ match in_provider input with
                      | Some provider => if is_empty provider then EmptyString else " " ++ provider
                      | None => EmptyString
                      end ++ " or configure valid credentials, then retry."
  | kind_provider_rate_limit => "Wait for the provider retry window or choose another model, then retry."
  | kind_provider_network => "Check network and provider connectivity, then retry."
  | kind_provider_protocol =>
      "Often an orphan tool_call_id / sticky transcript after a dropped error turn - auto-retry after sanitize, or /new session if it persists."
  | kind_provider_refusal =>
      "Model declined this turn (content/safety stop). Usually a false positive on Fable/Claude - auto-retry once, or switch model (k3/grok-4.5/deepseek) / rephrase as a pure coding task."
  | kind_context_overflow => "Compact or reduce context, or switch to a larger-context model."
  | kind_tool_timeout => "Inspect possible tool side effects and increase the tool timeout only if safe."
  | kind_tool_fatal => "Inspect the failed tool result and repair its configuration before retrying."
  | kind_compaction => "Retry compaction after resolving the reported barrier or stale transaction."
  | kind_persistence => "Run omk session doctor --session " ++ in_sessionId input ++ " before resuming."
  | kind_process_signal => "Review possible partial side effects before resuming the session."
  | kind_process_crash =>
      "Run omk session doctor --session " ++ in_sessionId input ++ " and review partial side effects."
  | kind_transcript_invalid =>
      "Run omk session doctor --session " ++ in_sessionId input ++ "; do not resume until integrity passes."
  | kind_configuration => "Correct the provider, model, tool, or session configuration and retry."
  | kind_internal_error =>
      "Inspect run " ++ in_runId input ++ " diagnostics and the run journal before retrying."
  end%string.

Definition formatSessionTermination (termination : SessionTermination) : string :=
  let given o := match o with
                 | Some s => negb (is_empty s)
                 | None => false
                 end in
  let route :=
    if given (tm_provider termination) || given (tm_model termination)
    then (default "unknown" (tm_provider termination) ++ "/" ++ default "unknown" (tm_model termination))%string
    else "n/a" in
  join " "
    [("kind=" ++ kind_str (tm_kind termination))%string;
     ("provider/model=" ++ route)%string;
     ("retryable=" ++ (if tm_retryable termination then "true" else "false"))%string;
     ("cause=" ++ tm_causeCode termination)%string;
     ("message=" ++ tm_message termination)%string;
     ("run=" ++ tm_runId termination)%string;
     ("next=" ++ tm_nextAction termination)%string].

Definition assertOptional (value : option string) (name : string) (maxLength : nat) : result string unit :=
  match value with
  | Some s => assertIdentifier s name maxLength
  | None => Ok tt
  end.

Definition assertRetryAfter (retryAfterMs : option jsnum) : result string (option Z) :=
  match retryAfterMs with
  | None => Ok None
  | Some n =>
      match jsnum_safe n with
      | Some z => if (z <? 0)%Z then Err "retryAfterMs must be a non-negative safe integer" else Ok (Some z)
      | None => Err "retryAfterMs must be a non-negative safe integer"
      end
  end.

(** A crash is only ever inferred, a signal only observed. *)
Definition assertProcessSource (cause : SessionTerminationCause) (source : SessionTerminationSource) : result string unit :=
  match cause, source with
  | cause_crash, observed => Err "process crashes may only be classified as inferred_on_resume"
  | cause_signal _, inferred_on_resume => Err "process signals must be observed"
  | _, _ => Ok tt
  end.

Definition classifySessionTermination (input : ClassifySessionTerminationInput) : result string SessionTermination :=
  _ <-? assertIdentifier (in_sessionId input) "sessionId" 128 ;;
  _ <-? assertIdentifier (in_runId input) "runId" 128 ;;
  _ <-? assertTimestamp (in_timestamp input) ;;
  _ <-? assertPreRedactedTerminationMessage (in_message input) ;;
  _ <-? assertOptional (in_provider input) "provider" 128 ;;
  _ <-? assertOptional (in_model input) "model" 256 ;;
  _ <-? assertOptional (in_toolCallId input) "toolCallId" 512 ;;
  _ <-? assertOptional (in_toolName input) "toolName" 128 ;;
  retryAfterMs <-? assertRetryAfter (in_retryAfterMs input) ;;
  _ <-? assertProcessSource (in_cause input) (in_source input) ;;
  let classification := classifyCause (in_cause input) (in_source input) in
  Ok {| tm_sessionId := in_sessionId input;
        tm_runId := in_runId input;
        tm_kind := cl_kind classification;
        tm_phase := cl_phase classification;
        tm_source := in_source input;
        tm_message := in_message input;
        tm_causeCode := cl_causeCode classification;
        tm_nextAction := nextActionFor classification input;
        tm_retryable := cl_retryable classification;
        tm_safeToAutoRetry := isSafeToAutoRetry classification input;
        tm_sideEffects := in_sideEffects input;
        tm_timestamp := in_timestamp input;
        tm_retryAfterMs := retryAfterMs;
        tm_provider := in_provider input;
        tm_model := in_model input;
        tm_toolCallId := in_toolCallId input;
        tm_toolName := in_toolName input;
        tm_processSignal := cl_processSignal classification;
        tm_transcriptIssue := cl_transcriptIssue classification |}.

(** ** Examples *)

Example instants :
  map canonical_instant
    ["2026-01-31T23:59:59.999Z"; "2026-02-29T00:00:00.000Z"; "2024-02-29T00:00:00.000Z"; "2026-01-31T24:00:00.000Z";
     "2026-1-31T23:59:59.999Z"; "+275760-09-13T00:00:00.000Z"; "+275760-09-13T00:00:00.001Z"; "-000001-01-01T00:00:00.000Z";
     "-000000-01-01T00:00:00.000Z"; "+002026-01-31T23:59:59.999Z"; "2026-01-31T23:59:59Z"]
  = [true; false; true; false; false; true; false; true; false; false; false].
Proof. vm_compute. reflexivity. Qed.

Example shapes :
  map (fun s => existsb (fun p => rx_test p s) CREDENTIAL_SHAPES)
    ["the provider closed the connection"; "Authorization: Basic"; "my_secret-key = 3"; "key sk-abcdefghijklmnop";
     "key sk-abcdefghijklmno"; "bearer abcdefgh"; "task-token usage"; "-----begin rsa private key-----"]
  = [false; true; true; true; false; true; false; true].
Proof. vm_compute. reflexivity. Qed.
