(* ===== verification/Utf8.v ===== *)
(** * UTF-8

    [TextEncoder] and the fatal [TextDecoder] on byte strings. The strings of
    this development have code units below 256, so a valid text with another
    character is told apart from an invalid one. *)

From Stdlib Require Import Ascii String Lia.
From stdpp Require Import base list option strings.
From S2P Require Import Prelude JsString.

Open Scope string_scope.

Fixpoint utf8_encode (s : string) : string :=
  match s with
  | EmptyString => EmptyString
  | String a s' =>
      if (code a <? 128)%nat then String a (utf8_encode s')
      else String (ascii_of_nat (192 + code a / 64)) (String (ascii_of_nat (128 + code a mod 64)) (utf8_encode s'))
  end.

Inductive Decoded : Type :=
| utf8_invalid
| utf8_beyond
| utf8_text (s : string).

Definition push_point (point : nat) (rest : Decoded) : Decoded :=
  match rest with
  | utf8_text s => if (point <? 256)%nat then utf8_text (String (ascii_of_nat point) s) else utf8_beyond
  | _ => rest
  end.

Definition continuation (a : ascii) : bool := in_range 128 191 a.

(** The second byte a three- or four-byte sequence may have. *)
Definition second_byte (first second : ascii) : bool :=
  match code first with
  | 224 => in_range 160 191 second
  | 237 => in_range 128 159 second
  | 240 => in_range 144 191 second
  | 244 => in_range 128 143 second
  | _ => continuation second
  end%nat.

Fixpoint decode_bytes (bytes : string) : Decoded :=
  match bytes with
  | EmptyString => utf8_text EmptyString
  | String a r =>
      if (code a <? 128)%nat then push_point (code a) (decode_bytes r)
      else if in_range 194 223 a then
        match r with
        | String b r' =>
            if continuation b then push_point ((code a - 192) * 64 + (code b - 128)) (decode_bytes r')
            else utf8_invalid
        | EmptyString => utf8_invalid
        end
      else if in_range 224 239 a then
        match r with
        | String b (String c r') =>
            if second_byte a b && continuation c then push_point 256 (decode_bytes r') else utf8_invalid
        | _ => utf8_invalid
        end
      else if in_range 240 244 a then
        match r with
        | String b (String c (String d r')) =>
            if second_byte a b && continuation c && continuation d then push_point 256 (decode_bytes r')
            else utf8_invalid
        | _ => utf8_invalid
        end
      else utf8_invalid
  end.

Definition byte_order_mark : string :=
  String (ascii_of_nat 239) (String (ascii_of_nat 187) (String (ascii_of_nat 191) EmptyString)).

(** The decoder drops a leading byte order mark. *)
Definition utf8_decode (bytes : string) : Decoded :=
  decode_bytes (if startsWith byte_order_mark bytes then slice 3 bytes else bytes).

(** ** Decoding inverts encoding *)

Lemma decode_wide (a : ascii) (r : string) :
  (128 <= code a)%nat ->
  decode_bytes (String (ascii_of_nat (192 + code a / 64)) (String (ascii_of_nat (128 + code a mod 64)) r))
  = push_point (code a) (decode_bytes r).
Proof.
  intros Ha. pose proof (nat_ascii_bounded a) as Hb. fold (code a) in Hb.
  assert (Hq : (2 <= code a / 64 <= 3)%nat)
    by (split; [apply Nat.div_le_lower_bound; lia|apply Nat.lt_succ_r, Nat.Div0.div_lt_upper_bound; lia]).
  pose proof (Nat.mod_upper_bound (code a) 64 ltac:(lia)) as Hm. pose proof (Nat.div_mod (code a) 64 ltac:(lia)) as Hd.
  assert (H1 : code (ascii_of_nat (192 + code a / 64)) = (192 + code a / 64)%nat) by (apply nat_ascii_embedding; lia).
  assert (H2 : code (ascii_of_nat (128 + code a mod 64)) = (128 + code a mod 64)%nat) by (apply nat_ascii_embedding; lia).
  cbn [decode_bytes]. unfold in_range, continuation, in_range. rewrite H1, H2.
  rewrite (proj2 (Nat.ltb_ge _ _)), !(proj2 (Nat.leb_le _ _)) by lia. cbn [andb]. f_equal. lia.
Qed.

Lemma decode_encode_bytes (s : string) : decode_bytes (utf8_encode s) = utf8_text s.
Proof.
  induction s as [|a s IH]; [done|]. pose proof (nat_ascii_bounded a) as Hb. fold (code a) in Hb.
  assert (Hp : push_point (code a) (utf8_text s) = utf8_text (String a s)).
  { unfold push_point. rewrite (proj2 (Nat.ltb_lt _ _)) by lia. unfold code. by rewrite ascii_nat_embedding. }
  cbn [utf8_encode]. destruct (Nat.ltb_spec (code a) 128).
  - cbn [decode_bytes]. rewrite (proj2 (Nat.ltb_lt _ _)) by lia. by rewrite IH.
  - rewrite decode_wide by lia. by rewrite IH.
Qed.

Lemma encode_no_mark (s : string) : startsWith byte_order_mark (utf8_encode s) = false.
Proof.
  destruct s as [|a s]; [done|]. pose proof (nat_ascii_bounded a) as Hb. fold (code a) in Hb.
  cbn [utf8_encode]. unfold byte_order_mark. destruct (Nat.ltb_spec (code a) 128); rewrite startsWith_cons.
  - destruct (Ascii.eqb_spec (ascii_of_nat 239) a) as [<-|]; [|done]. cbv in H. lia.
  - destruct (Ascii.eqb_spec (ascii_of_nat 239) (ascii_of_nat (192 + code a / 64))) as [E|]; [|done].
    apply (f_equal code) in E. unfold code in E. rewrite !nat_ascii_embedding in E; [|
      apply Nat.le_lt_trans with 195%nat; [|lia]; assert (code a / 64 < 4)%nat by (apply Nat.Div0.div_lt_upper_bound; lia);
      unfold code in *; lia|lia].
    assert (code a / 64 < 4)%nat by (apply Nat.Div0.div_lt_upper_bound; lia). unfold code in *. lia.
Qed.

Lemma utf8_round_trip (s : string) : utf8_decode (utf8_encode s) = utf8_text s.
Proof. unfold utf8_decode. rewrite encode_no_mark. apply decode_encode_bytes. Qed.

Lemma utf8_encode_app (s t : string) : utf8_encode (s ++ t) = utf8_encode s ++ utf8_encode t.
Proof.
  induction s as [|a s IH]; [done|]. cbn [String.append utf8_encode]. destruct (code a <? 128)%nat; cbn [String.append]; by rewrite IH.
Qed.
