(* ===== verification/JournalChecks.v ===== *)
(** * What a run-journal record may hold
    (packages/coding-agent/src/core/run-journal.ts, the assertions)

    A terminal record carries a termination and an audit record carries details;
    both are untyped data, refused with the message of the error thrown unless
    every field is bounded and the termination is coherent with its cause. Data
    is [json]: a property that is [undefined] is an absent one, and accessors and
    prototypes do not arise. *)

From Stdlib Require Import Ascii String ZArith Lia.
From stdpp Require Import base list option strings.
From S2P Require Import Prelude JsString JsValue Regex Json JsNumber CanonicalJson SessionTermination.

Open Scope string_scope.
Open Scope list_scope.

Definition GENESIS_HASH : string := string_of_list_ascii (repeat "0"%char 64).
Definition MAX_RUN_JOURNAL_ID_LENGTH : nat := 128.
Definition MAX_AUDIT_INSERTED_IDS : nat := 64.
Definition MAX_AUDIT_REASON_LENGTH : nat := 512.

(** ** Events *)

Inductive RunJournalEvent : Type :=
| run_started | run_finished | run_recovered | run_abandoned
| ev_tool_timeout | ev_tool_late_settlement | ev_transcript_repaired.

#[export] Instance event_eq_dec : EqDecision RunJournalEvent.
Proof. solve_decision. Defined.

Definition event_str (event : RunJournalEvent) : string :=
  match event with
  | run_started => "run_started"
  | run_finished => "run_finished"
  | run_recovered => "run_recovered"
  | run_abandoned => "run_abandoned"
  | ev_tool_timeout => "tool_timeout"
  | ev_tool_late_settlement => "tool_late_settlement"
  | ev_transcript_repaired => "transcript_repaired"
  end.

Definition RUN_JOURNAL_EVENTS : list RunJournalEvent :=
  [run_started; run_finished; run_recovered; run_abandoned; ev_tool_timeout; ev_tool_late_settlement;
   ev_transcript_repaired].

(** [RUN_JOURNAL_EVENTS.has(s)], with the event. *)
Definition event_of (s : string) : option RunJournalEvent :=
  List.find (fun event => String.eqb (event_str event) s) RUN_JOURNAL_EVENTS.

Definition is_terminal (event : RunJournalEvent) : bool :=
  match event with
  | run_finished | run_recovered | run_abandoned => true
  | _ => false
  end.

Definition is_audit (event : RunJournalEvent) : bool :=
  match event with
  | ev_tool_timeout | ev_tool_late_settlement | ev_transcript_repaired => true
  | _ => false
  end.

(** ** Bounded values *)

Definition SESSION_TERMINATION_PHASES : list string :=
  map phase_str
    [phase_completed; phase_control; phase_preflight; phase_provider; phase_tool; phase_compaction;
     phase_persistence; phase_process; phase_resume].
Definition SESSION_TERMINATION_SOURCES : list string := map source_str [observed; inferred_on_resume].
Definition SESSION_SIDE_EFFECTS : list string := map effects_str [effects_none; effects_possible; effects_confirmed].
Definition SESSION_PROCESS_SIGNALS : list string := map signal_str [SIGINT; SIGTERM; SIGHUP; SIGQUIT].
Definition SESSION_TRANSCRIPT_ISSUES : list string :=
  map issue_str
    [issue_missing_result; issue_duplicate_result; issue_orphan_result; issue_duplicate_call_id;
     issue_interleaved_non_result; issue_invalid_jsonl; issue_invalid_tree; issue_unsupported_version;
     issue_trailing_fragment].
Definition AUDIT_DISPOSITIONS : list string := ["completed"; "failed"; "blocked"; "aborted"; "timeout"; "skipped"].
Definition AUDIT_OUTCOMES : list string := ["resolved"; "rejected"].

Definition TERMINATION_ALLOWED_KEYS : list string :=
  ["schemaVersion"; "sessionId"; "runId"; "kind"; "phase"; "source"; "message"; "causeCode"; "nextAction"; "retryable";
   "safeToAutoRetry"; "sideEffects"; "timestamp"; "retryAfterMs"; "provider"; "model"; "toolCallId"; "toolName";
   "processSignal"; "transcriptIssue"].

Definition AUDIT_DETAIL_KEYS : list string :=
  ["toolCallId"; "toolName"; "disposition"; "outcome"; "timeoutMs"; "executionStarted"; "insertedToolCallIds"; "reason";
   "sessionRisk"].

(** The shapes one by one; [SessionTermination] tests five of them as one. *)
Definition CREDENTIAL_SHAPES : list regex :=
  [private_key_shape; between_boundaries sk_token; between_boundaries gh_token; between_boundaries github_pat;
   between_boundaries xox_token; between_boundaries akia_key; jwt_shape; bearer_shape; assignment_shape].

Definition looksLikeCredential (value : string) : bool := existsb (fun pattern => rx_test pattern value) CREDENTIAL_SHAPES.

Definition one_of_strings (values : list string) (s : string) : bool := existsb (String.eqb s) values.

Definition assertPlainDataRecord (value : json) (name : string) (allowedKeys : list string) : result string unit :=
  match value with
  | JsObj fields =>
      check (forallb (fun kv => one_of_strings allowedKeys (fst kv)) fields) (name ++ " must contain only bounded fields")
  | _ => Err (name ++ " must be a plain object")%string
  end.

Definition isBoundedIdentifier (s : string) : bool :=
  negb (is_empty s) && (String.length s <=? MAX_RUN_JOURNAL_ID_LENGTH)%nat && negb (sexists is_control s).

Definition assertIdentifier (value : json) (name : string) (maxLength : nat) : result string string :=
  match value with
  | JsStr s =>
      if negb (is_empty s) && (String.length s <=? maxLength)%nat then
        if sexists is_control s then Err (name ++ " must not contain C0 or DEL control characters")%string else Ok s
      else Err (name ++ " must be 1-" ++ nat_str maxLength ++ " characters of bounded text")%string
  | _ => Err (name ++ " must be 1-" ++ nat_str maxLength ++ " characters of bounded text")%string
  end.

Definition rejectCredential (value name : string) : result string unit :=
  check (negb (looksLikeCredential value)) (name ++ " contains a credential-shaped literal").

Definition assertCanonicalTimestamp (value : option json) (name : string) : result string string :=
  match value with
  | Some (JsStr s) =>
      if canonical_instant s then Ok s else Err (name ++ " must be a canonical ISO-8601 UTC instant")%string
  | _ => Err (name ++ " must be a canonical ISO-8601 UTC instant")%string
  end.

Definition assertSafeNonNegativeInt (value : json) (name : string) : result string Z :=
  match value with
  | JsNum literal =>
      match safe_integer literal with
      | Some z => if (z <? 0)%Z then Err (name ++ " must be a non-negative safe integer")%string else Ok z
      | None => Err (name ++ " must be a non-negative safe integer")%string
      end
  | _ => Err (name ++ " must be a non-negative safe integer")%string
  end.

Definition is_hex_lower (a : ascii) : bool := in_range 48 57 a || in_range 97 102 a.

Definition isValidHashShape (value : string) : bool := (String.length value =? 64)%nat && sforall is_hex_lower value.

(** An optional field: absent, or as [f] wants it. *)
Definition optionally {A} (value : option json) (f : json -> result string A) : result string unit :=
  match value with
  | Some v => _ <-? f v ;; Ok tt
  | None => Ok tt
  end.

(** An identifier that is not a credential. *)
Definition assertClean (name : string) (maxLength : nat) (value : json) : result string unit :=
  s <-? assertIdentifier value name maxLength ;;
  rejectCredential s name.

(** A string of a set. *)
Definition assertMember (values : list string) (message : string) (value : option json) : result string string :=
  match value with
  | Some (JsStr s) => if one_of_strings values s then Ok s else Err message
  | _ => Err message
  end.

(** ** Coherence of a termination with its cause *)

(** The locals [expectedKind] ... [transcriptSuffix] of the source. *)
Record Expected : Type := {
  ex_kind : SessionTerminationKind;
  ex_phase : SessionTerminationPhase;
  ex_retryable : bool;
  ex_signal : bool;
  ex_issue : option string;
}.

Definition expects (kind : SessionTerminationKind) (phase : SessionTerminationPhase) (retryable : bool) : option Expected :=
  Some {| ex_kind := kind; ex_phase := phase; ex_retryable := retryable; ex_signal := false; ex_issue := None |}.

Definition expected_provider (suffix : string) : option Expected :=
  if String.eqb suffix "abort" then expects kind_provider_abort phase_provider true
  else if String.eqb suffix "auth" then expects kind_provider_auth phase_provider false
  else if String.eqb suffix "rate_limit" then expects kind_provider_rate_limit phase_provider true
  else if String.eqb suffix "network" then expects kind_provider_network phase_provider true
  else if String.eqb suffix "protocol" then expects kind_provider_protocol phase_provider true
  else if String.eqb suffix "refusal" then expects kind_provider_refusal phase_provider true
  else if String.eqb suffix "context_overflow" then expects kind_context_overflow phase_provider true
  else None.

Definition expected_for (area suffix source : string) : option Expected :=
  if String.eqb area "session" then
    if String.eqb suffix "completed" then expects kind_completed phase_completed false
    else if String.eqb suffix "user_abort" then expects kind_user_abort phase_control false
    else None
  else if String.eqb area "provider" then expected_provider suffix
  else if String.eqb area "tool" then
    if String.eqb suffix "timeout" then expects kind_tool_timeout phase_tool true
    else if String.eqb suffix "fatal" then expects kind_tool_fatal phase_tool false
    else None
  else if String.eqb area "compaction" then
    if one_of_strings ["aborted"; "failed"; "stale"] suffix then expects kind_compaction phase_compaction true else None
  else if String.eqb area "persistence" then
    if one_of_strings ["read_failed"; "append_failed"; "replace_failed"; "fsync_failed"; "lock_failed"] suffix
    then expects kind_persistence phase_persistence true
    else None
  else if String.eqb area "process" then
    if String.eqb suffix "signal" then
      Some {| ex_kind := kind_process_signal; ex_phase := phase_process; ex_retryable := false; ex_signal := true;
              ex_issue := None |}
    else if String.eqb suffix "crash" then expects kind_process_crash phase_resume true
    else None
  else if String.eqb area "transcript" then
    if one_of_strings SESSION_TRANSCRIPT_ISSUES suffix then
      Some {| ex_kind := kind_transcript_invalid;
              ex_phase := if String.eqb source "inferred_on_resume" then phase_resume else phase_preflight;
              ex_retryable := false; ex_signal := false; ex_issue := Some suffix |}
    else None
  else if String.eqb area "configuration" then
    if String.eqb suffix "invalid" then expects kind_configuration phase_preflight false else None
  else if String.eqb area "internal" then
    if String.eqb suffix "unclassified" then expects kind_internal_error phase_preflight false else None
  else None.

(** The cause code at its first dot; no dot leaves both parts empty. *)
Definition cause_parts (causeCode : string) : string * string :=
  match span (fun a => negb (Ascii.eqb a ".")) causeCode with
  | (area, String _ suffix) => (area, suffix)
  | (_, EmptyString) => (EmptyString, EmptyString)
  end.

Definition text_of (key : string) (v : json) : string := default EmptyString (jstr key v).

Definition flag_of (key : string) (v : json) : bool :=
  match jget key v with
  | Some (JsBool b) => b
  | _ => false
  end.

Definition assertTerminationCoherence (termination : json) : result string unit :=
  let (area, suffix) := cause_parts (text_of "causeCode" termination) in
  match expected_for area suffix (text_of "source" termination) with
  | None => Err "termination causeCode is incoherent"
  | Some ex =>
      _ <-? check (String.eqb (text_of "kind" termination) (kind_str (ex_kind ex)))
              "termination kind is incoherent with causeCode" ;;
      _ <-? check (String.eqb (text_of "phase" termination) (phase_str (ex_phase ex)))
              "termination phase is incoherent with causeCode" ;;
      _ <-? check (Bool.eqb (flag_of "retryable" termination) (ex_retryable ex))
              "termination retryable flag is incoherent with causeCode" ;;
      _ <-? (match jget "processSignal" termination with
             | None => check (negb (ex_signal ex)) "termination processSignal is required for signal causes"
             | Some _ => check (ex_signal ex) "termination processSignal is only valid for signal causes"
             end) ;;
      _ <-? (match ex_issue ex, jget "transcriptIssue" termination with
             | Some _, None => Err "termination transcriptIssue is required for transcript causes"
             | Some issue, Some _ =>
                 check (String.eqb (text_of "transcriptIssue" termination) issue)
                   "termination transcriptIssue must match the transcript cause"
             | None, Some _ => Err "termination transcriptIssue is only valid for transcript causes"
             | None, None => Ok tt
             end) ;;
      check (Bool.eqb (flag_of "safeToAutoRetry" termination)
               (flag_of "retryable" termination
                && String.eqb (text_of "source" termination) "observed"
                && String.eqb (text_of "sideEffects" termination) "none"
                && one_of_strings ["provider_rate_limit"; "provider_network"; "provider_refusal"]
                     (text_of "kind" termination)))
        "termination safeToAutoRetry flag is incoherent"
  end.

(** ** Terminations *)

(** [/^[a-z_]+\.[a-z_]+$/] *)
Definition cause_code_shape (causeCode : string) : bool :=
  let letters a := in_range 97 122 a || Ascii.eqb a "_" in
  match span letters causeCode with
  | (area, String dot suffix) =>
      negb (is_empty area) && Ascii.eqb dot "." && negb (is_empty suffix) && sforall letters suffix
  | (_, EmptyString) => false
  end.

Definition assertText (value : option json) (message : string) : result string string :=
  match value with
  | Some (JsStr s) => Ok s
  | _ => Err message
  end.

Definition assertBoundedSessionTermination (value : json) (expectedRunId expectedSessionId : string)
    : result string unit :=
  _ <-? assertPlainDataRecord value "termination" TERMINATION_ALLOWED_KEYS ;;
  _ <-? check (match jget "schemaVersion" value with
               | Some (JsNum literal) => bool_decide (safe_integer literal = Some 1%Z)
               | _ => false
               end) "termination schemaVersion must match the supported version" ;;
  _ <-? assertMember [expectedRunId] "termination runId must match the record runId" (jget "runId" value) ;;
  _ <-? assertMember [expectedSessionId] "termination sessionId must match the record sessionId" (jget "sessionId" value) ;;
  _ <-? assertMember SESSION_TERMINATION_KIND_VALUES "termination kind is out of bounds" (jget "kind" value) ;;
  _ <-? assertMember SESSION_TERMINATION_PHASES "termination phase is out of bounds" (jget "phase" value) ;;
  _ <-? assertMember SESSION_TERMINATION_SOURCES "termination source is out of bounds" (jget "source" value) ;;
  message <-? assertText (jget "message" value) "termination message must be a string" ;;
  _ <-? assertPreRedactedTerminationMessage message ;;
  causeCode <-? assertText (jget "causeCode" value) "termination causeCode is out of bounds" ;;
  _ <-? check (cause_code_shape causeCode) "termination causeCode is out of bounds" ;;
  nextAction <-? assertText (jget "nextAction" value) "termination nextAction must be a string" ;;
  _ <-? assertPreRedactedTerminationMessage nextAction ;;
  _ <-? check (match jget "retryable" value, jget "safeToAutoRetry" value with
               | Some (JsBool _), Some (JsBool _) => true
               | _, _ => false
               end) "termination retry flags must be booleans" ;;
  _ <-? assertMember SESSION_SIDE_EFFECTS "termination sideEffects is out of bounds" (jget "sideEffects" value) ;;
  _ <-? assertCanonicalTimestamp (jget "timestamp" value) "termination.timestamp" ;;
  _ <-? optionally (jget "retryAfterMs" value) (fun v => assertSafeNonNegativeInt v "termination.retryAfterMs") ;;
  _ <-? optionally (jget "provider" value) (assertClean "termination.provider" 128) ;;
  _ <-? optionally (jget "model" value) (assertClean "termination.model" 256) ;;
  _ <-? optionally (jget "toolCallId" value) (assertClean "termination.toolCallId" 512) ;;
  _ <-? optionally (jget "toolName" value) (assertClean "termination.toolName" 128) ;;
  _ <-? optionally (jget "processSignal" value)
          (fun v => assertMember SESSION_PROCESS_SIGNALS "termination processSignal is out of bounds" (Some v)) ;;
  _ <-? optionally (jget "transcriptIssue" value)
          (fun v => assertMember SESSION_TRANSCRIPT_ISSUES "termination transcriptIssue is out of bounds" (Some v)) ;;
  assertTerminationCoherence value.

(** ** Audit details *)

Fixpoint assertInserted (ids : list json) : result string unit :=
  match ids with
  | [] => Ok tt
  | id :: rest =>
      _ <-? assertClean "details.insertedToolCallIds[]" 512 id ;;
      assertInserted rest
  end.

Definition assertBoundedAuditDetails (value : json) : result string unit :=
  _ <-? assertPlainDataRecord value "audit details" AUDIT_DETAIL_KEYS ;;
  _ <-? optionally (jget "toolCallId" value) (assertClean "details.toolCallId" 512) ;;
  _ <-? optionally (jget "toolName" value) (assertClean "details.toolName" 128) ;;
  _ <-? optionally (jget "disposition" value)
          (fun v => assertMember AUDIT_DISPOSITIONS "details.disposition is out of bounds" (Some v)) ;;
  _ <-? optionally (jget "outcome" value)
          (fun v => assertMember AUDIT_OUTCOMES "details.outcome is out of bounds" (Some v)) ;;
  _ <-? optionally (jget "timeoutMs" value) (fun v => assertSafeNonNegativeInt v "details.timeoutMs") ;;
  _ <-? optionally (jget "executionStarted" value)
          (fun v => match v with
                    | JsBool _ => Ok tt
                    | _ => Err "details.executionStarted must be a boolean"
                    end) ;;
  _ <-? optionally (jget "insertedToolCallIds" value)
          (fun v => match v with
                    | JsArr ids =>
                        if (length ids <=? MAX_AUDIT_INSERTED_IDS)%nat then assertInserted ids
                        else Err "details.insertedToolCallIds must be a bounded array"
                    | _ => Err "details.insertedToolCallIds must be a bounded array"
                    end) ;;
  _ <-? optionally (jget "reason" value) (assertClean "details.reason" MAX_AUDIT_REASON_LENGTH) ;;
  optionally (jget "sessionRisk" value)
    (fun v => assertMember ["elevated"] "details.sessionRisk is out of bounds" (Some v)).

(** ** Terminations and events *)

Definition isTerminalCoherentWithEvent (event : RunJournalEvent) (termination : json) : bool :=
  let source := text_of "source" termination in
  let kind := text_of "kind" termination in
  match event with
  | run_recovered =>
      String.eqb source "inferred_on_resume" && String.eqb kind "process_crash"
      && String.eqb (text_of "phase" termination) "resume"
  | _ => String.eqb source "observed" && negb (String.eqb kind "process_crash")
  end.

Definition assertTerminalCoherentWithEvent (event : RunJournalEvent) (termination : json) : result string unit :=
  if isTerminalCoherentWithEvent event termination then Ok tt
  else
    match event with
    | run_recovered =>
        Err "run_recovered requires a coherent process_crash termination (source inferred_on_resume, phase resume)"
    | _ =>
        if String.eqb (text_of "kind" termination) "process_crash"
        then Err "process_crash terminations may only appear on run_recovered events"
        else Err "run_finished and run_abandoned require a termination source of observed"
    end.
