(* ===== verification/JournalTermination.v ===== *)
(** * What is classified can be recorded

    The journal (packages/coding-agent/src/core/run-journal.ts) checks again
    what [classifySessionTermination] of session-termination.ts built, from its
    own table of causes and its own list of credential shapes. The two lists
    denote the same test, and the two tables are in lockstep. *)

From Stdlib Require Import Ascii String ZArith Btauto Lia.
From stdpp Require Import base list option strings.
From S2P Require Import Prelude JsString JsValue Regex Json JsNumber CanonicalJson SessionTermination JournalChecks.

Open Scope string_scope.
Open Scope list_scope.

(** ** One list of shapes, split differently *)

Lemma test_alts_between (r : regex) (rs : list regex) (s : string) :
  rx_test (between_boundaries (RAlts (r :: rs))) s = existsb (fun r => rx_test (between_boundaries r) s) (r :: rs).
Proof.
  apply eq_true_iff_eq. rewrite existsb_true_iff. setoid_rewrite rx_test_iff. split.
  - intros (i & j & Hi & H). unfold between_boundaries, RSeqs in H.
    inversion H as [| |? ? ? k ? H1 H2| | | | | | |]; subst. inversion H2 as [| |? ? ? k2 ? H3 H4| | | | | | |]; subst.
    assert (E : exists r', r' ∈ r :: rs /\ rx_matches (list_ascii_of_string s) r' k k2).
    { clear -H3. revert r H3. induction rs as [|r' rs IH]; intros r H3.
      - exists r. split; [left|done].
      - change (rx_matches (list_ascii_of_string s) (RAlt r (RAlts (r' :: rs))) k k2) in H3.
        inversion H3; subst; [exists r; split; [left|done]|].
        destruct (IH r') as (r'' & Hin & Hr); [done|]. exists r''. split; [by right|done]. }
    destruct E as (r' & Hin & Hr). exists r'. split; [done|]. exists i, j. split; [done|].
    eapply m_seq; [exact H1|]. eapply m_seq; [exact Hr|exact H4].
  - intros (r' & Hin & i & j & Hi & H). exists i, j. split; [done|]. unfold between_boundaries, RSeqs in *.
    inversion H as [| |? ? ? k ? H1 H2| | | | | | |]; subst. inversion H2 as [| |? ? ? k2 ? H3 H4| | | | | | |]; subst.
    eapply m_seq; [exact H1|]. eapply m_seq; [by eapply RAlts_matches|exact H4].
Qed.

(** The journal's nine credential shapes and the classifier's five, which
    bracket the token formats into one alternation, refuse the same texts. *)
Theorem credential_lists_agree (s : string) :
  looksLikeCredential s = existsb (fun pattern => rx_test pattern s) SessionTermination.CREDENTIAL_SHAPES.
Proof.
  unfold looksLikeCredential, CREDENTIAL_SHAPES, SessionTermination.CREDENTIAL_SHAPES. cbn [existsb].
  rewrite test_alts_between. cbn [existsb]. btauto.
Qed.

(** ** The record as data *)

Definition optional_field (key : string) (value : option json) : list (string * json) :=
  match value with
  | Some v => [(key, v)]
  | None => []
  end.

(** The object [classifySessionTermination] returns; absent options are absent
    keys. *)
Definition termination_json (t : SessionTermination) : json :=
  JsObj ([("schemaVersion", JsNum "1"); ("sessionId", JsStr (tm_sessionId t)); ("runId", JsStr (tm_runId t));
          ("kind", JsStr (kind_str (tm_kind t))); ("phase", JsStr (phase_str (tm_phase t)));
          ("source", JsStr (source_str (tm_source t))); ("message", JsStr (tm_message t));
          ("causeCode", JsStr (tm_causeCode t)); ("nextAction", JsStr (tm_nextAction t));
          ("retryable", JsBool (tm_retryable t)); ("safeToAutoRetry", JsBool (tm_safeToAutoRetry t));
          ("sideEffects", JsStr (effects_str (tm_sideEffects t))); ("timestamp", JsStr (tm_timestamp t))]
         ++ optional_field "retryAfterMs" ((fun z => JsNum (int_text z)) <$> tm_retryAfterMs t)
         ++ optional_field "provider" (JsStr <$> tm_provider t)
         ++ optional_field "model" (JsStr <$> tm_model t)
         ++ optional_field "toolCallId" (JsStr <$> tm_toolCallId t)
         ++ optional_field "toolName" (JsStr <$> tm_toolName t)
         ++ optional_field "processSignal" ((fun signal => JsStr (signal_str signal)) <$> tm_processSignal t)
         ++ optional_field "transcriptIssue" ((fun issue => JsStr (issue_str issue)) <$> tm_transcriptIssue t)).

Lemma map_get_optional (k key : string) (value : option json) (rest : list (string * json)) :
  map_get k (optional_field key value ++ rest)
  = match value with
    | Some v => if String.eqb key k then Some v else map_get k rest
    | None => map_get k rest
    end.
Proof. by destruct value. Qed.

(** The optional fields are read back. *)
Lemma termination_options (t : SessionTermination) :
  jget "retryAfterMs" (termination_json t) = (fun z => JsNum (int_text z)) <$> tm_retryAfterMs t /\
  jget "provider" (termination_json t) = JsStr <$> tm_provider t /\
  jget "model" (termination_json t) = JsStr <$> tm_model t /\
  jget "toolCallId" (termination_json t) = JsStr <$> tm_toolCallId t /\
  jget "toolName" (termination_json t) = JsStr <$> tm_toolName t /\
  jget "processSignal" (termination_json t) = (fun signal => JsStr (signal_str signal)) <$> tm_processSignal t /\
  jget "transcriptIssue" (termination_json t) = (fun issue => JsStr (issue_str issue)) <$> tm_transcriptIssue t.
Proof.
  unfold termination_json, jget. split_and!; cbn [map_get app String.eqb Ascii.eqb Bool.eqb];
    rewrite <- (app_nil_r (optional_field "transcriptIssue" _)), !map_get_optional;
    cbn [String.eqb Ascii.eqb Bool.eqb map_get]; by repeat case_match.
Qed.

Lemma termination_keys (t : SessionTermination) :
  assertPlainDataRecord (termination_json t) "termination" TERMINATION_ALLOWED_KEYS = Ok tt.
Proof.
  unfold termination_json, assertPlainDataRecord. rewrite !forallb_app.
  assert (E : forall key value, one_of_strings TERMINATION_ALLOWED_KEYS key = true ->
    forallb (fun kv : string * json => one_of_strings TERMINATION_ALLOWED_KEYS (fst kv)) (optional_field key value) = true).
  { intros key [v|] H; [|done]. cbn [optional_field forallb fst]. by rewrite H. }
  rewrite !E by done. done.
Qed.

(** ** Reading a successful classification *)

Definition clean (value : option string) : bool := negb (from_option looksLikeCredential false value).

Lemma check_Ok (b : bool) (message : string) : check b message = Ok tt <-> b = true.
Proof. by destruct b. Qed.

Lemma bind_Ok {A B} (c : result string A) (k : A -> result string B) (a : A) (r : result string B) :
  c = Ok a -> k a = r -> result_bind c k = r.
Proof. by intros ->. Qed.

(** An identifier the classifier took passes the journal's check, unless it is
    a credential. *)
Lemma optional_identifier (value : option string) (name name' : string) (n : nat) :
  assertOptional value name n = Ok tt ->
  is_ok (optionally (JsStr <$> value) (assertClean name' n)) = clean value.
Proof.
  destruct value as [s|]; [|done]. cbn [assertOptional fmap option_fmap option_map optionally].
  unfold SessionTermination.assertIdentifier. rewrite check_Ok, !andb_true_iff, !negb_true_iff. intros [[H1 H2] H3].
  unfold assertClean, assertIdentifier. rewrite H1, H2, H3. cbn [andb result_bind].
  unfold rejectCredential, check, clean. cbn [negb andb result_bind from_option]. by destruct (looksLikeCredential s).
Qed.

Lemma message_shape (message : string) :
  assertPreRedactedTerminationMessage message = Ok tt <->
  message <> EmptyString /\ (String.length message <= 512)%nat /\
  includes (String (ascii_of_nat 0) EmptyString) message = false /\ looksLikeCredential message = false.
Proof.
  unfold assertPreRedactedTerminationMessage. rewrite credential_lists_agree.
  destruct message as [|a message]; [by split; [|intros [? _]]|]. cbn [is_empty negb andb].
  change MAX_SESSION_TERMINATION_MESSAGE_LENGTH with 512%nat.
  destruct (Nat.leb_spec (String.length (String a message)) 512) as [Hl|Hl]; cbn [check result_bind].
  2: { split; [done|]. intros (_ & H & _). lia. }
  destruct (includes _ _) eqn:Hi; cbn [check result_bind negb].
  1: { split; [done|]. by intros (_ & _ & H & _). }
  rewrite check_Ok, negb_true_iff. naive_solver.
Qed.

(** ** Lockstep *)

Lemma is_ok_bind {A B} (c : result string A) (k : A -> result string B) :
  is_ok (result_bind c k) = match c with
                            | Ok a => is_ok (k a)
                            | Err _ => false
                            end.
Proof. by destruct c. Qed.

Lemma is_ok_then {B} (c : result string unit) (k : result string B) :
  is_ok (result_bind c (fun _ => k)) = is_ok c && is_ok k.
Proof. by destruct c. Qed.

(** What a successful classification checked, and what it returns. *)
Lemma classified_fields (input : ClassifySessionTerminationInput) (t : SessionTermination) :
  classifySessionTermination input = Ok t ->
  let c := classifyCause (in_cause input) (in_source input) in
  SessionTermination.assertIdentifier (in_sessionId input) "sessionId" 128 = Ok tt /\
  SessionTermination.assertIdentifier (in_runId input) "runId" 128 = Ok tt /\
  assertTimestamp (in_timestamp input) = Ok tt /\
  assertPreRedactedTerminationMessage (in_message input) = Ok tt /\
  assertOptional (in_provider input) "provider" 128 = Ok tt /\
  assertOptional (in_model input) "model" 256 = Ok tt /\
  assertOptional (in_toolCallId input) "toolCallId" 512 = Ok tt /\
  assertOptional (in_toolName input) "toolName" 128 = Ok tt /\
  assertRetryAfter (in_retryAfterMs input) = Ok (tm_retryAfterMs t) /\
  assertProcessSource (in_cause input) (in_source input) = Ok tt /\
  t = {| tm_sessionId := in_sessionId input; tm_runId := in_runId input; tm_kind := cl_kind c; tm_phase := cl_phase c;
         tm_source := in_source input; tm_message := in_message input; tm_causeCode := cl_causeCode c;
         tm_nextAction := nextActionFor c input; tm_retryable := cl_retryable c;
         tm_safeToAutoRetry := isSafeToAutoRetry c input; tm_sideEffects := in_sideEffects input;
         tm_timestamp := in_timestamp input; tm_retryAfterMs := tm_retryAfterMs t; tm_provider := in_provider input;
         tm_model := in_model input; tm_toolCallId := in_toolCallId input; tm_toolName := in_toolName input;
         tm_processSignal := cl_processSignal c; tm_transcriptIssue := cl_transcriptIssue c |}.
Proof.
  unfold classifySessionTermination. intros H. do 8 (apply result_bind_Ok in H as ([] & ? & H)).
  apply result_bind_Ok in H as (z & ? & H). apply result_bind_Ok in H as ([] & ? & H). injection H as <-.
  by split_and!.
Qed.

(** The coherence check, on the fields. *)
Lemma coherence_fields (t : SessionTermination) :
  assertTerminationCoherence (termination_json t)
  = let (area, suffix) := cause_parts (tm_causeCode t) in
    match expected_for area suffix (source_str (tm_source t)) with
    | None => Err "termination causeCode is incoherent"
    | Some ex =>
        _ <-? check (String.eqb (kind_str (tm_kind t)) (kind_str (ex_kind ex)))
                "termination kind is incoherent with causeCode" ;;
        _ <-? check (String.eqb (phase_str (tm_phase t)) (phase_str (ex_phase ex)))
                "termination phase is incoherent with causeCode" ;;
        _ <-? check (Bool.eqb (tm_retryable t) (ex_retryable ex))
                "termination retryable flag is incoherent with causeCode" ;;
        _ <-? (match tm_processSignal t with
               | None => check (negb (ex_signal ex)) "termination processSignal is required for signal causes"
               | Some _ => check (ex_signal ex) "termination processSignal is only valid for signal causes"
               end) ;;
        _ <-? (match ex_issue ex, tm_transcriptIssue t with
               | Some _, None => Err "termination transcriptIssue is required for transcript causes"
               | Some issue, Some issue' =>
                   check (String.eqb (issue_str issue') issue) "termination transcriptIssue must match the transcript cause"
               | None, Some _ => Err "termination transcriptIssue is only valid for transcript causes"
               | None, None => Ok tt
               end) ;;
        check (Bool.eqb (tm_safeToAutoRetry t)
                 (tm_retryable t && String.eqb (source_str (tm_source t)) "observed"
                  && String.eqb (effects_str (tm_sideEffects t)) "none"
                  && one_of_strings ["provider_rate_limit"; "provider_network"; "provider_refusal"] (kind_str (tm_kind t))))
          "termination safeToAutoRetry flag is incoherent"
    end.
Proof.
  destruct (termination_options t) as (_ & _ & _ & _ & _ & Hs & Hi).
  unfold assertTerminationCoherence, text_of, jstr. rewrite Hs, Hi.
  destruct (tm_processSignal t), (tm_transcriptIssue t); reflexivity.
Qed.

(** What the journal expects of a cause code is what the classifier made of it. *)
Lemma classified_coherent (input : ClassifySessionTerminationInput) (t : SessionTermination) :
  classifySessionTermination input = Ok t -> assertTerminationCoherence (termination_json t) = Ok tt.
Proof.
  intros (_ & _ & _ & _ & _ & _ & _ & _ & _ & _ & ->)%classified_fields. rewrite coherence_fields.
  cbn [tm_causeCode tm_source tm_kind tm_phase tm_retryable tm_processSignal tm_transcriptIssue tm_safeToAutoRetry
       tm_sideEffects]. unfold isSafeToAutoRetry.
  destruct (in_cause input) as [| |[]|[]|[]|[]|[]| |[]| |], (in_source input), (in_sideEffects input); vm_compute; reflexivity.
Qed.

(** ** The next action is a bounded text *)

Definition not_nul (a : ascii) : bool := negb (Ascii.eqb a (ascii_of_nat 0)).

Lemma includes_nul (s : string) : includes (String (ascii_of_nat 0) EmptyString) s = negb (sforall not_nul s).
Proof.
  induction s as [|a s IH]; [done|]. cbn [includes sforall]. rewrite IH. rewrite startsWith_cons, startsWith_nil.
  unfold not_nul at 2. rewrite Ascii.eqb_sym. by destruct (Ascii.eqb a _).
Qed.

Lemma identifier_shape (value name : string) (n : nat) :
  SessionTermination.assertIdentifier value name n = Ok tt ->
  value <> EmptyString /\ (String.length value <= n)%nat /\ sexists is_control value = false /\ sforall not_nul value = true.
Proof.
  unfold SessionTermination.assertIdentifier. rewrite check_Ok, !andb_true_iff, !negb_true_iff, Nat.leb_le.
  intros [[H1 H2] H3]. split_and!; [by destruct value|done|done|].
  unfold sexists in H3. apply negb_false_iff in H3. clear -H3. induction value as [|a value IH]; [done|].
  cbn [sforall] in *. apply andb_true_iff in H3 as [Ha Hv]. rewrite IH by done. rewrite andb_true_r.
  unfold not_nul. by destruct (Ascii.eqb_spec a (ascii_of_nat 0)) as [->|].
Qed.

Lemma next_action_bounded (c : Classification) (input : ClassifySessionTerminationInput) :
  SessionTermination.assertIdentifier (in_sessionId input) "sessionId" 128 = Ok tt ->
  SessionTermination.assertIdentifier (in_runId input) "runId" 128 = Ok tt ->
  assertOptional (in_provider input) "provider" 128 = Ok tt ->
  nextActionFor c input <> EmptyString /\ (String.length (nextActionFor c input) <= 512)%nat /\
  sforall not_nul (nextActionFor c input) = true.
Proof.
  intros (_ & Hs & _ & Hsn)%identifier_shape (_ & Hr & _ & Hrn)%identifier_shape Hp.
  assert (Hpn : forall s, in_provider input = Some s -> (String.length s <= 128)%nat /\ sforall not_nul s = true).
  { intros s E. rewrite E in Hp. apply identifier_shape in Hp as (_ & ? & _ & ?). done. }
  unfold nextActionFor. destruct (cl_kind c);
    try (split_and!; [done|apply Nat.leb_le; vm_compute; reflexivity|vm_compute; reflexivity]).
  - destruct (in_provider input) as [s|]; [|split_and!; [done|apply Nat.leb_le; vm_compute; reflexivity|vm_compute; reflexivity]].
    destruct (Hpn s eq_refl) as [Hl Hn]. destruct (is_empty s);
      [split_and!; [done|apply Nat.leb_le; vm_compute; reflexivity|vm_compute; reflexivity]|].
    split_and!; [done| |].
    + rewrite !length_append. cbn [String.length]. lia.
    + rewrite !sforall_app, Hn. reflexivity.
  - split_and!; [done| |]; [rewrite !length_append; cbn [String.length]; lia|rewrite !sforall_app, Hsn; reflexivity].
  - split_and!; [done| |]; [rewrite !length_append; cbn [String.length]; lia|rewrite !sforall_app, Hsn; reflexivity].
  - split_and!; [done| |]; [rewrite !length_append; cbn [String.length]; lia|rewrite !sforall_app, Hsn; reflexivity].
  - split_and!; [done| |]; [rewrite !length_append; cbn [String.length]; lia|rewrite !sforall_app, Hrn; reflexivity].
Qed.

(** ** The classified sets are the journal's *)

Lemma kind_known (kind : SessionTerminationKind) : one_of_strings SESSION_TERMINATION_KIND_VALUES (kind_str kind) = true.
Proof. by destruct kind. Qed.

Lemma phase_known (phase : SessionTerminationPhase) : one_of_strings SESSION_TERMINATION_PHASES (phase_str phase) = true.
Proof. by destruct phase. Qed.

Lemma source_known (source : SessionTerminationSource) : one_of_strings SESSION_TERMINATION_SOURCES (source_str source) = true.
Proof. by destruct source. Qed.

Lemma effects_known (effects : SessionSideEffects) : one_of_strings SESSION_SIDE_EFFECTS (effects_str effects) = true.
Proof. by destruct effects. Qed.

Lemma signal_known (signal : SessionProcessSignal) : one_of_strings SESSION_PROCESS_SIGNALS (signal_str signal) = true.
Proof. by destruct signal. Qed.

Lemma issue_known (issue : TranscriptTerminationCauseCode) :
  one_of_strings SESSION_TRANSCRIPT_ISSUES (issue_str issue) = true.
Proof. by destruct issue. Qed.

Lemma cause_code_known (cause : SessionTerminationCause) (source : SessionTerminationSource) :
  cause_code_shape (cl_causeCode (classifyCause cause source)) = true.
Proof. destruct cause as [| |[]|[]|[]|[]|[]| |[]| |], source; reflexivity. Qed.

Lemma member_Ok (values : list string) (message s : string) :
  one_of_strings values s = true -> assertMember values message (Some (JsStr s)) = Ok s.
Proof. intros H. cbn [assertMember]. by rewrite H. Qed.

Lemma retry_after_recorded (input : option jsnum) (value : option Z) (name : string) :
  assertRetryAfter input = Ok value ->
  optionally ((fun z => JsNum (int_text z)) <$> value) (fun v => assertSafeNonNegativeInt v name) = Ok tt.
Proof.
  unfold assertRetryAfter. destruct input as [n|]; [|by intros [= <-]]. destruct (jsnum_safe n) as [z|] eqn:En; [|done].
  destruct (Z.ltb_spec z 0); [done|]. intros [= <-]. cbn [fmap option_fmap option_map optionally assertSafeNonNegativeInt].
  assert (Hz : (0 <= z <= MAX_SAFE_INTEGER)%Z).
  { unfold jsnum_safe in En. destruct n as [| |q]; try done. cbv zeta in En. destruct (_ && _)%bool eqn:E; [|done].
    injection En as <-. apply andb_true_iff in E as [_ E%Z.leb_le]. lia. }
  rewrite safe_integer_text by done. rewrite (proj2 (Z.ltb_ge _ _)) by lia. done.
Qed.

Lemma bounded_message (message : string) :
  message <> EmptyString -> (String.length message <= 512)%nat -> sforall not_nul message = true ->
  is_ok (assertPreRedactedTerminationMessage message) = clean (Some message).
Proof.
  intros H1 H2 H3. apply eq_true_iff_eq. unfold clean. cbn [from_option]. rewrite negb_true_iff.
  transitivity (assertPreRedactedTerminationMessage message = Ok tt).
  - by destruct (assertPreRedactedTerminationMessage message) as [[]|].
  - rewrite message_shape, includes_nul, H3. naive_solver.
Qed.

Lemma signal_recorded (signal : option SessionProcessSignal) (message : string) :
  is_ok (optionally ((fun signal => JsStr (signal_str signal)) <$> signal)
           (fun v => assertMember SESSION_PROCESS_SIGNALS message (Some v))) = true.
Proof. by destruct signal as [[]|]. Qed.

Lemma issue_recorded (issue : option TranscriptTerminationCauseCode) (message : string) :
  is_ok (optionally ((fun issue => JsStr (issue_str issue)) <$> issue)
           (fun v => assertMember SESSION_TRANSCRIPT_ISSUES message (Some v))) = true.
Proof. by destruct issue as [[]|]. Qed.

(** The part of the check that the classifier does not leave open. *)
Lemma classified_accepted (input : ClassifySessionTerminationInput) (t : SessionTermination) :
  classifySessionTermination input = Ok t ->
  is_ok (assertBoundedSessionTermination (termination_json t) (in_runId input) (in_sessionId input))
  = is_ok (assertPreRedactedTerminationMessage (tm_nextAction t))
    && is_ok (optionally (JsStr <$> in_provider input) (assertClean "termination.provider" 128))
    && is_ok (optionally (JsStr <$> in_model input) (assertClean "termination.model" 256))
    && is_ok (optionally (JsStr <$> in_toolCallId input) (assertClean "termination.toolCallId" 512))
    && is_ok (optionally (JsStr <$> in_toolName input) (assertClean "termination.toolName" 128)).
Proof.
  intros Hc. pose proof (classified_coherent _ _ Hc) as Hco. pose proof (termination_keys t) as Hk.
  destruct (termination_options t) as (Hra & Hp & Hm & Htc & Htn & Hs & Hi).
  unfold assertBoundedSessionTermination. rewrite Hk, Hra, Hp, Hm, Htc, Htn, Hs, Hi, Hco. cbn [result_bind].
  apply classified_fields in Hc as (_ & _ & Hts & Hmsg & _ & _ & _ & _ & Hr & _ & ->).
  unfold termination_json. cbn [jget map_get app String.eqb Ascii.eqb Bool.eqb tm_sessionId tm_runId tm_kind tm_phase
    tm_source tm_message tm_causeCode tm_nextAction tm_retryable tm_safeToAutoRetry tm_sideEffects tm_timestamp
    tm_provider tm_model tm_toolCallId tm_toolName tm_processSignal tm_transcriptIssue tm_retryAfterMs] in *.
  rewrite !member_Ok by first [apply kind_known|apply phase_known|apply source_known|apply effects_known|
    unfold one_of_strings; cbn [existsb]; by rewrite String.eqb_refl].
  cbn [result_bind assertText]. rewrite Hmsg, cause_code_known.
  assert (Hi1 : canonical_instant (in_timestamp input) = true)
    by (unfold assertTimestamp in Hts; by destruct (canonical_instant _)).
  unfold assertCanonicalTimestamp. rewrite Hi1, (retry_after_recorded _ _ _ Hr). cbn [result_bind check].
  replace (bool_decide (safe_integer "1" = Some 1%Z)) with true by reflexivity. cbn [check result_bind].
  rewrite !is_ok_then, signal_recorded, issue_recorded. cbn [is_ok]. btauto.
Qed.

(** The classifier and the journal are in lockstep. A termination the
    classifier returns is refused by the journal only for a text that is shaped
    like a credential: an optional identifier, or the next action; and the
    journal takes it as the end of a recovered run exactly when its cause is a
    crash, as the end of another run exactly when it was observed. *)
Theorem classified_is_recordable (input : ClassifySessionTerminationInput) (t : SessionTermination)
    (Hc : classifySessionTermination input = Ok t) :
  is_ok (assertBoundedSessionTermination (termination_json t) (in_runId input) (in_sessionId input))
  = clean (Some (tm_nextAction t)) && clean (in_provider input) && clean (in_model input)
    && clean (in_toolCallId input) && clean (in_toolName input)
  /\ (forall event, is_terminal event = true ->
      isTerminalCoherentWithEvent event (termination_json t) = true <->
      match event with
      | run_recovered => in_cause input = cause_crash
      | _ => in_source input = observed
      end).
Proof.
  rewrite (classified_accepted _ _ Hc). apply classified_fields in Hc as (Hs & Hr & _ & _ & Hp & Hm & Htc & Htn & _ & Hsrc & ->).
  split.
  - rewrite !(optional_identifier _ _ _ _ Hp), (optional_identifier _ _ _ _ Hm), (optional_identifier _ _ _ _ Htc),
      (optional_identifier _ _ _ _ Htn).
    destruct (next_action_bounded (classifyCause (in_cause input) (in_source input)) input Hs Hr Hp) as (? & ? & ?).
    by rewrite bounded_message.
  - intros event He. destruct event; try done; unfold isTerminalCoherentWithEvent, text_of, jstr, termination_json;
      cbn [jget map_get app String.eqb Ascii.eqb Bool.eqb tm_kind tm_phase tm_source default];
      destruct (in_cause input) as [| |[]|[]|[]|[]|[]| |[]| |], (in_source input); vm_compute; naive_solver.
Qed.

(** ** Concrete terminations *)

Definition sample_input (runId : string) (cause : SessionTerminationCause) (source : SessionTerminationSource)
    (provider : option string) : ClassifySessionTerminationInput :=
  {| in_sessionId := "session-1"; in_runId := runId; in_timestamp := "2026-01-31T23:59:59.999Z"; in_source := source;
     in_message := "the run ended"; in_cause := cause; in_sideEffects := effects_none; in_retryAfterMs := None;
     in_provider := provider; in_model := None; in_toolCallId := None; in_toolName := None |}.

Definition sample_termination (runId : string) (cause : SessionTerminationCause) (source : SessionTerminationSource)
    (provider : option string) : option SessionTermination :=
  match classifySessionTermination (sample_input runId cause source provider) with
  | Ok t => Some t
  | Err _ => None
  end.

Definition sample_recorded (runId : string) (cause : SessionTerminationCause) (source : SessionTerminationSource)
    (provider : option string) : option bool :=
  t ← sample_termination runId cause source provider;
  Some (is_ok (assertBoundedSessionTermination (termination_json t) runId "session-1")).

Lemma classified_is_recordable_witness : sample_recorded "run-1" cause_crash inferred_on_resume (Some "openai") = Some true.
Proof.
  assert (Hn : match classifySessionTermination (sample_input "run-1" cause_crash inferred_on_resume (Some "openai")) with
               | Ok t => clean (Some (tm_nextAction t))
               | Err _ => false
               end = true) by (vm_compute; reflexivity).
  unfold sample_recorded, sample_termination.
  destruct (classifySessionTermination _) as [t|] eqn:E; [|discriminate Hn]. cbn [mbind option_bind].
  destruct (classified_is_recordable _ t E) as [H _]. cbn [in_runId in_sessionId sample_input] in H. rewrite H, Hn.
  vm_compute. reflexivity.
Defined.

(** The identifiers a termination embeds in its next action can make it look
    like a credential: the classifier takes the run, the journal does not. *)
Lemma bearer_run_not_recorded :
  sample_recorded "run-1" cause_internal observed None = Some true /\
  sample_recorded "bearer" cause_internal observed None = Some false.
Proof. split; vm_compute; reflexivity. Qed.

(** A provider name with the shape of a credential, too. *)
Lemma credential_provider_not_recorded :
  sample_recorded "run-1" cause_completed observed (Some "my-token:") = Some false.
Proof. vm_compute. reflexivity. Qed.
