(* ===== verification/RunJournal.v ===== *)
(** * The run-journal writer (packages/coding-agent/src/core/run-journal.ts, RunJournal)

    An append-only journal of the runs of a session. Each record carries the
    hash of the one before it and its own, computed by a hash function the
    caller injects; at most one run is open at a time. An operation either
    throws and leaves the journal as it was, or appends one record. Inputs have
    the types of the source except where a check reads untyped data. *)

From Stdlib Require Import Ascii String ZArith QArith Lia.
From stdpp Require Import base list option strings.
From S2P Require Import Prelude JsString JsValue Json JsNumber CanonicalJson Utf8 SessionTermination JournalChecks.

Open Scope string_scope.
Open Scope list_scope.
Open Scope Z_scope.

(** ** Records *)

(** A record without its hash; [rj_payload] is the [termination] of a terminal
    event, the [details] of an audit event, and absent in [run_started]. *)
Record RunJournalMaterial : Type := {
  rj_seq : Z;
  rj_event : RunJournalEvent;
  rj_runId : string;
  rj_sessionId : string;
  rj_sessionRevision : Z;
  rj_timestamp : string;
  rj_prevHash : string;
  rj_payload : option json;
}.

Record RunJournalRecord : Type := {
  rj_material : RunJournalMaterial;
  rj_hash : string;
}.

Definition payload_key (event : RunJournalEvent) : string := if is_terminal event then "termination" else "details".

Definition material_json (m : RunJournalMaterial) : json :=
  JsObj ([("schemaVersion", JsNum "1"); ("seq", JsNum (int_text (rj_seq m))); ("event", JsStr (event_str (rj_event m)));
          ("runId", JsStr (rj_runId m)); ("sessionId", JsStr (rj_sessionId m));
          ("sessionRevision", JsNum (int_text (rj_sessionRevision m))); ("timestamp", JsStr (rj_timestamp m));
          ("prevHash", JsStr (rj_prevHash m))]
         ++ match rj_payload m with
            | Some payload => [(payload_key (rj_event m), payload)]
            | None => []
            end).

Definition record_json (r : RunJournalRecord) : json :=
  match material_json (rj_material r) with
  | JsObj fields => JsObj (fields ++ [("hash", JsStr (rj_hash r))])
  | v => v
  end.

Definition stripHashKey (record : json) : json :=
  match record with
  | JsObj fields => JsObj (List.filter (fun kv => negb (String.eqb (fst kv) "hash")) fields)
  | _ => JsObj []
  end.

Definition serializeRunJournalMaterial (record : json) : string := canonicalJson (stripHashKey record).
Definition serializeRunJournalLine (record : json) : string := canonicalJson record.

(** ** State *)

Record OpenRun : Type := { or_runId : string; or_sessionId : string }.

Record RunJournal : Type := {
  jn_sessionId : string;
  jn_startedRunIds : list string;
  jn_terminatedRunIds : list string;
  jn_mutableRecords : list RunJournalRecord;
  jn_lastSessionRevision : Z;
  jn_prevHash : string;
  jn_nextSeq : Z;
  jn_openRun : option OpenRun;
}.

Record RunJournalConstructorInit : Type := {
  init_sessionId : string;
  init_runId : string;
  init_sessionRevision : jsnum;
  init_timestamp : string;
  init_openInitialRun : option bool;
  init_prevHash : option string;
  init_seq : option jsnum;
}.

Record RunJournalStartInput : Type := {
  start_runId : string;
  start_sessionRevision : jsnum;
  start_timestamp : string;
}.

Record RunJournalTerminalInput : Type := {
  term_termination : json;
  term_sessionRevision : jsnum;
  term_timestamp : string;
}.

Record RunJournalAuditInput : Type := {
  audit_event : RunJournalEvent;
  audit_details : json;
  audit_sessionRevision : jsnum;
  audit_timestamp : string;
}.

(** [assertSafeNonNegativeInt] of a typed number. *)
Definition assertSafeNumber (value : jsnum) (name : string) : result string Z :=
  match jsnum_safe value with
  | Some z => if z <? 0 then Err (name ++ " must be a non-negative safe integer")%string else Ok z
  | None => Err (name ++ " must be a non-negative safe integer")%string
  end.

Definition assertHashShape (value name : string) : result string unit :=
  check (isValidHashShape value) (name ++ " must be 64 lowercase hex characters").

(** ** Operations *)

Section Operations.
(** The injected hash of bytes; [None] is a call that throws. *)
Context (hashFn : string -> option string).

Definition seal (base : RunJournalMaterial) : result string RunJournalRecord :=
  let material := serializeRunJournalMaterial (material_json base) in
  match hashFn (utf8_encode material) with
  | None => Err "hashFn threw while sealing a record; failing closed"
  | Some hash =>
      if isValidHashShape hash then Ok {| rj_material := base; rj_hash := hash |}
      else Err "hashFn must return 64 lowercase hex characters"
  end.

(** Append a sealed record: the chain head, the sequence number (a double) and
    the revision move with it. *)
Definition append_record (record : RunJournalRecord) (revision : Z) (started terminated : list string)
    (openRun : option OpenRun) (j : RunJournal) : RunJournal :=
  {| jn_sessionId := jn_sessionId j;
     jn_startedRunIds := started;
     jn_terminatedRunIds := terminated;
     jn_mutableRecords := jn_mutableRecords j ++ [record];
     jn_lastSessionRevision := revision;
     jn_prevHash := rj_hash record;
     jn_nextSeq := round53 (jn_nextSeq j + 1);
     jn_openRun := openRun |}.

Definition base_record (j : RunJournal) (event : RunJournalEvent) (runId : string) (revision : Z) (timestamp : string)
    (payload : option json) : RunJournalMaterial :=
  {| rj_seq := jn_nextSeq j; rj_event := event; rj_runId := runId; rj_sessionId := jn_sessionId j;
     rj_sessionRevision := revision; rj_timestamp := timestamp; rj_prevHash := jn_prevHash j; rj_payload := payload |}.

Definition assertRevision (j : RunJournal) (sessionRevision : jsnum) : result string Z :=
  revision <-? assertSafeNumber sessionRevision "sessionRevision" ;;
  if revision <? jn_lastSessionRevision j then Err "sessionRevision must not regress across the journal" else Ok revision.

Definition appendStarted (j : RunJournal) (input : RunJournalStartInput) : result string (RunJournalRecord * RunJournal) :=
  runId <-? assertIdentifier (JsStr (start_runId input)) "runId" MAX_RUN_JOURNAL_ID_LENGTH ;;
  _ <-? rejectCredential runId "runId" ;;
  revision <-? assertRevision j (start_sessionRevision input) ;;
  timestamp <-? assertCanonicalTimestamp (Some (JsStr (start_timestamp input))) "timestamp" ;;
  match jn_openRun j with
  | Some _ => Err "a run is already open; terminate it before starting another"
  | None =>
      if one_of_strings (jn_startedRunIds j) runId then Err "runId was already started earlier in this journal"
      else
        record <-? seal (base_record j run_started runId revision timestamp None) ;;
        Ok (record, append_record record revision (jn_startedRunIds j ++ [runId]) (jn_terminatedRunIds j)
                      (Some {| or_runId := runId; or_sessionId := jn_sessionId j |}) j)
  end.

Definition appendTerminal (j : RunJournal) (event : RunJournalEvent) (input : RunJournalTerminalInput)
    : result string (RunJournalRecord * RunJournal) :=
  match jn_openRun j with
  | None => Err "no run is open; start a run before terminating it"
  | Some run =>
      revision <-? assertRevision j (term_sessionRevision input) ;;
      timestamp <-? assertCanonicalTimestamp (Some (JsStr (term_timestamp input))) "timestamp" ;;
      _ <-? assertBoundedSessionTermination (term_termination input) (or_runId run) (jn_sessionId j) ;;
      _ <-? assertTerminalCoherentWithEvent event (term_termination input) ;;
      _ <-? check (String.eqb timestamp (text_of "timestamp" (term_termination input)))
              "terminal event timestamp must equal termination timestamp" ;;
      _ <-? check (negb (one_of_strings (jn_terminatedRunIds j) (or_runId run))) "the open run was already terminated" ;;
      record <-? seal (base_record j event (or_runId run) revision timestamp (Some (term_termination input))) ;;
      Ok (record, append_record record revision (jn_startedRunIds j) (jn_terminatedRunIds j ++ [or_runId run]) None j)
  end.

Definition start (j : RunJournal) (input : RunJournalStartInput) := appendStarted j input.
Definition finish (j : RunJournal) (input : RunJournalTerminalInput) := appendTerminal j run_finished input.
Definition abandon (j : RunJournal) (input : RunJournalTerminalInput) := appendTerminal j run_abandoned input.
Definition recover (j : RunJournal) (input : RunJournalTerminalInput) := appendTerminal j run_recovered input.

Definition audit (j : RunJournal) (input : RunJournalAuditInput) : result string (RunJournalRecord * RunJournal) :=
  _ <-? check (is_audit (audit_event input)) "audit event is out of bounds" ;;
  revision <-? assertRevision j (audit_sessionRevision input) ;;
  timestamp <-? assertCanonicalTimestamp (Some (JsStr (audit_timestamp input))) "timestamp" ;;
  _ <-? assertBoundedAuditDetails (audit_details input) ;;
  record <-? seal (base_record j (audit_event input) (from_option or_runId "none" (jn_openRun j)) revision timestamp
                     (Some (audit_details input))) ;;
  Ok (record, append_record record revision (jn_startedRunIds j) (jn_terminatedRunIds j) (jn_openRun j) j).

Definition new_RunJournal (init : RunJournalConstructorInit) : result string RunJournal :=
  sessionId <-? assertIdentifier (JsStr (init_sessionId init)) "sessionId" MAX_RUN_JOURNAL_ID_LENGTH ;;
  _ <-? rejectCredential sessionId "sessionId" ;;
  startSeq <-? assertSafeNumber (default (NumFin 0) (init_seq init)) "seq" ;;
  let startPrevHash := default GENESIS_HASH (init_prevHash init) in
  _ <-? assertHashShape startPrevHash "prevHash" ;;
  let j := {| jn_sessionId := sessionId; jn_startedRunIds := []; jn_terminatedRunIds := []; jn_mutableRecords := [];
              jn_lastSessionRevision := 0; jn_prevHash := startPrevHash; jn_nextSeq := startSeq; jn_openRun := None |} in
  match init_openInitialRun init with
  | Some false =>
      runId <-? assertIdentifier (JsStr (init_runId init)) "runId" MAX_RUN_JOURNAL_ID_LENGTH ;;
      _ <-? rejectCredential runId "runId" ;;
      Ok j
  | _ =>
      rj <-? appendStarted j {| start_runId := init_runId init; start_sessionRevision := init_sessionRevision init;
                                start_timestamp := init_timestamp init |} ;;
      Ok (snd rj)
  end.

Definition serialize (j : RunJournal) : string :=
  match jn_mutableRecords j with
  | [] => EmptyString
  | records =>
      (join (String line_feed EmptyString) (map (fun r => serializeRunJournalLine (record_json r)) records)
       ++ String line_feed EmptyString)%string
  end.

Definition toBytes (j : RunJournal) : string := utf8_encode (serialize j).
Definition openRunId (j : RunJournal) : option string := or_runId <$> jn_openRun j.

(** ** Histories *)

Inductive RunJournalOp : Type :=
| op_start (input : RunJournalStartInput)
| op_finish (input : RunJournalTerminalInput)
| op_abandon (input : RunJournalTerminalInput)
| op_recover (input : RunJournalTerminalInput)
| op_audit (input : RunJournalAuditInput).

Definition apply_op (j : RunJournal) (op : RunJournalOp) : result string (RunJournalRecord * RunJournal) :=
  match op with
  | op_start input => start j input
  | op_finish input => finish j input
  | op_abandon input => abandon j input
  | op_recover input => recover j input
  | op_audit input => audit j input
  end.

(** The data of an operation is JSON. *)
Definition op_data (op : RunJournalOp) : bool :=
  match op with
  | op_start _ => true
  | op_finish input | op_abandon input | op_recover input => json_ok (term_termination input)
  | op_audit input => json_ok (audit_details input)
  end.

(** The journals that start empty and unchained. *)
Inductive written : RunJournal -> Prop :=
| written_new (init : RunJournalConstructorInit) (j : RunJournal) :
    jsnum_safe (default (NumFin 0) (init_seq init)) = Some 0 ->
    default GENESIS_HASH (init_prevHash init) = GENESIS_HASH ->
    new_RunJournal init = Ok j -> written j
| written_op (j j' : RunJournal) (op : RunJournalOp) (record : RunJournalRecord) :
    written j -> op_data op = true -> apply_op j op = Ok (record, j') -> written j'.
End Operations.
