(* ===== verification/JournalInspector.v ===== *)
(** * The run-journal inspector
    (packages/coding-agent/src/core/run-journal.ts, inspectRunJournal)

    Bytes are read up to their last newline; what follows is a fragment that is
    reported and never parsed. Each line is checked alone, then against the
    lines before it: sequence, hashes, session, revision and the bracketing of
    runs. Bytes and texts are strings of code units below 256: valid UTF-8 with
    another character is left out ([None]), and so is an escape of one, which
    the parser of [Json] does not read. *)

From Stdlib Require Import Ascii String ZArith Lia.
From stdpp Require Import base list option strings.
From S2P Require Import Prelude JsString JsValue Json JsNumber CanonicalJson Utf8 SessionTermination JournalChecks RunJournal.

Open Scope string_scope.
Open Scope list_scope.
Open Scope Z_scope.

(** ** Reports *)

Inductive RunJournalFindingCode : Type :=
| trailing_fragment | invalid_utf8 | malformed_json | schema | seq_gap | seq_regression | hash_shape | hash_mismatch
| hash_chain_break | orphan_terminal | duplicate_terminal | duplicate_start | interleaved_run | run_unclosed
| recovered_source_invalid | termination_mismatch | session_mismatch | session_revision_regression.

#[export] Instance finding_code_eq_dec : EqDecision RunJournalFindingCode.
Proof. solve_decision. Defined.

Record RunJournalFinding : Type := {
  fd_code : RunJournalFindingCode;
  fd_line : option nat;
  fd_runId : option string;
}.

#[export] Instance finding_eq_dec : EqDecision RunJournalFinding.
Proof. solve_decision. Defined.

Definition bare (code : RunJournalFindingCode) : RunJournalFinding :=
  {| fd_code := code; fd_line := None; fd_runId := None |}.
Definition at_line (code : RunJournalFindingCode) (line : nat) : RunJournalFinding :=
  {| fd_code := code; fd_line := Some line; fd_runId := None |}.
Definition at_run (code : RunJournalFindingCode) (line : nat) (runId : string) : RunJournalFinding :=
  {| fd_code := code; fd_line := Some line; fd_runId := Some runId |}.

Record RunJournalReport : Type := {
  rp_ok : bool;
  rp_byteCount : nat;
  rp_lineCount : nat;
  rp_trailingByteCount : nat;
  rp_records : list RunJournalRecord;
  rp_openRunId : option string;
  rp_findings : list RunJournalFinding;
}.

(** ** One line alone *)

Definition COMMON_RECORD_KEYS : list string :=
  ["schemaVersion"; "seq"; "event"; "runId"; "sessionId"; "sessionRevision"; "timestamp"; "prevHash"; "hash"].

Record CommonShape : Type := {
  cs_seq : Z;
  cs_event : RunJournalEvent;
  cs_runId : string;
  cs_sessionId : string;
  cs_sessionRevision : Z;
  cs_timestamp : string;
  cs_prevHash : string;
  cs_hash : string;
}.

Definition guard_opt (b : bool) : option unit := if b then Some tt else None.

(** A number property that is a non-negative safe integer. *)
Definition safe_field (key : string) (value : json) : option Z :=
  match jget key value with
  | Some (JsNum literal) =>
      match safe_integer literal with
      | Some z => if z <? 0 then None else Some z
      | None => None
      end
  | _ => None
  end.

Definition bounded_field (key : string) (value : json) : option string :=
  s ← jstr key value;
  if isBoundedIdentifier s && negb (looksLikeCredential s) then Some s else None.

Definition has_key (key : string) (value : json) : bool :=
  match jget key value with
  | Some _ => true
  | None => false
  end.

Definition allowed_keys (isTerminal isAudit : bool) : list string :=
  if isTerminal then COMMON_RECORD_KEYS ++ ["termination"]
  else if isAudit then COMMON_RECORD_KEYS ++ ["details"]
  else COMMON_RECORD_KEYS.

Definition validateCommonShape (value : json) : option CommonShape :=
  match value with
  | JsObj fields =>
      let event := jstr "event" value ≫= event_of in
      let isTerminal := from_option is_terminal false event in
      let isAudit := from_option is_audit false event in
      _ ← guard_opt (forallb (fun kv => one_of_strings (allowed_keys isTerminal isAudit) (fst kv)) fields);
      _ ← guard_opt (Bool.eqb isTerminal (has_key "termination" value));
      _ ← guard_opt (Bool.eqb isAudit (has_key "details" value));
      _ ← guard_opt (match jget "schemaVersion" value with
                     | Some (JsNum literal) => bool_decide (safe_integer literal = Some 1)
                     | _ => false
                     end);
      event ← event;
      seq ← safe_field "seq" value;
      runId ← bounded_field "runId" value;
      sessionId ← bounded_field "sessionId" value;
      sessionRevision ← safe_field "sessionRevision" value;
      timestamp ← jstr "timestamp" value;
      _ ← guard_opt (canonical_instant timestamp);
      prevHash ← jstr "prevHash" value;
      hash ← jstr "hash" value;
      Some {| cs_seq := seq; cs_event := event; cs_runId := runId; cs_sessionId := sessionId;
              cs_sessionRevision := sessionRevision; cs_timestamp := timestamp; cs_prevHash := prevHash; cs_hash := hash |}
  | _ => None
  end.

Inductive TerminationProbe : Type := probe_ok | probe_mismatch | probe_source.

Definition probeTermination (rawTermination : json) (runId sessionId : string) (event : RunJournalEvent) : TerminationProbe :=
  match assertBoundedSessionTermination rawTermination runId sessionId with
  | Err _ => probe_mismatch
  | Ok _ => if isTerminalCoherentWithEvent event rawTermination then probe_ok else probe_source
  end.

(** The record of a line, or the finding that drops it. *)
Definition read_line (line : nat) (value : json) : result RunJournalFinding RunJournalRecord :=
  match validateCommonShape value with
  | None => Err (at_line schema line)
  | Some common =>
      let record payload :=
        {| rj_material := {| rj_seq := cs_seq common; rj_event := cs_event common; rj_runId := cs_runId common;
                             rj_sessionId := cs_sessionId common; rj_sessionRevision := cs_sessionRevision common;
                             rj_timestamp := cs_timestamp common; rj_prevHash := cs_prevHash common; rj_payload := payload |};
           rj_hash := cs_hash common |} in
      if is_audit (cs_event common) then
        match jget "details" value with
        | Some details =>
            match assertBoundedAuditDetails details with
            | Ok _ => Ok (record (Some details))
            | Err _ => Err (at_line schema line)
            end
        | None => Err (at_line schema line)
        end
      else if is_terminal (cs_event common) then
        match jget "termination" value with
        | Some termination =>
            match probeTermination termination (cs_runId common) (cs_sessionId common) (cs_event common) with
            | probe_mismatch => Err (at_run termination_mismatch line (cs_runId common))
            | probe_source => Err (at_run recovered_source_invalid line (cs_runId common))
            | probe_ok =>
                if String.eqb (cs_timestamp common) (text_of "timestamp" termination)
                then Ok (record (Some termination))
                else Err (at_run termination_mismatch line (cs_runId common))
            end
        | None => Err (at_run termination_mismatch line (cs_runId common))
        end
      else Ok (record None)
  end.

(** ** A line after the others *)

Record Inspection : Type := {
  is_openRun : option OpenRun;
  is_seenStarts : list string;
  is_terminatedRuns : list string;
  is_expectedSeq : Z;
  is_lastHash : string;
  is_journalSessionId : option string;
  is_lastRevision : Z;
  is_validRecords : list RunJournalRecord;
  is_findings : list RunJournalFinding;
}.

Definition addFinding (finding : RunJournalFinding) (i : Inspection) : Inspection :=
  {| is_openRun := is_openRun i; is_seenStarts := is_seenStarts i; is_terminatedRuns := is_terminatedRuns i;
     is_expectedSeq := is_expectedSeq i; is_lastHash := is_lastHash i; is_journalSessionId := is_journalSessionId i;
     is_lastRevision := is_lastRevision i; is_validRecords := is_validRecords i;
     is_findings := is_findings i ++ [finding] |}.

(** The run machine: the open run, the starts and ends seen, and the findings. *)
Definition run_event (line : nat) (m : RunJournalMaterial) (openRun : option OpenRun) (starts ends : list string)
    : option OpenRun * list string * list string * list RunJournalFinding :=
  let runId := rj_runId m in
  if is_audit (rj_event m) then (openRun, starts, ends, [])
  else if bool_decide (rj_event m = run_started) then
    let duplicate := if one_of_strings starts runId then [at_run duplicate_start line runId] else [] in
    let seen := if one_of_strings starts runId then starts else starts ++ [runId] in
    match openRun with
    | Some run =>
        (openRun, seen, ends,
         duplicate ++ (if String.eqb (or_runId run) runId then [] else [at_run interleaved_run line runId]))
    | None => (Some {| or_runId := runId; or_sessionId := rj_sessionId m |}, seen, ends, duplicate)
    end
  else if one_of_strings ends runId then (openRun, starts, ends, [at_run duplicate_terminal line runId])
  else
    match openRun with
    | Some run =>
        if String.eqb (or_runId run) runId then (None, starts, ends ++ [runId], [])
        else (openRun, starts, ends, [at_run orphan_terminal line runId])
    | None => (openRun, starts, ends, [at_run orphan_terminal line runId])
    end.

Section Inspector.
Context (hashFn : string -> option string).

(** Is the hash of the record the one recomputed? *)
Definition recomputeOk (r : RunJournalRecord) : bool :=
  match hashFn (utf8_encode (serializeRunJournalMaterial (material_json (rj_material r)))) with
  | Some recomputed => isValidHashShape recomputed && String.eqb recomputed (rj_hash r)
  | None => false
  end.

(** Sequence, hash shapes, recomputed hash and chain. *)
Definition chain_findings (line : nat) (r : RunJournalRecord) (i : Inspection) : list RunJournalFinding :=
  let m := rj_material r in
  (if is_expectedSeq i <? rj_seq m then [at_line seq_gap line]
   else if rj_seq m <? is_expectedSeq i then [at_line seq_regression line] else [])
  ++ (if isValidHashShape (rj_hash r) && isValidHashShape (rj_prevHash m) then [] else [at_line hash_shape line])
  ++ (if recomputeOk r then [] else [at_line hash_mismatch line])
  ++ (if String.eqb (rj_prevHash m) (is_lastHash i) then [] else [at_line hash_chain_break line]).

Definition inspect_record (line : nat) (r : RunJournalRecord) (i : Inspection) : Inspection :=
  let m := rj_material r in
  let session := default (rj_sessionId m) (is_journalSessionId i) in
  let i := {| is_openRun := is_openRun i; is_seenStarts := is_seenStarts i; is_terminatedRuns := is_terminatedRuns i;
              is_expectedSeq := is_expectedSeq i; is_lastHash := is_lastHash i; is_journalSessionId := Some session;
              is_lastRevision := is_lastRevision i; is_validRecords := is_validRecords i; is_findings := is_findings i |} in
  if negb (String.eqb (rj_sessionId m) session) then addFinding (at_run session_mismatch line (rj_runId m)) i
  else if rj_sessionRevision m <? is_lastRevision i
  then addFinding (at_run session_revision_regression line (rj_runId m)) i
  else
    let '(openRun, starts, ends, run_findings) :=
      run_event line m (is_openRun i) (is_seenStarts i) (is_terminatedRuns i) in
    {| is_openRun := openRun;
       is_seenStarts := starts;
       is_terminatedRuns := ends;
       is_expectedSeq := rj_seq m + 1;
       is_lastHash := if isValidHashShape (rj_hash r) then rj_hash r else is_lastHash i;
       is_journalSessionId := is_journalSessionId i;
       is_lastRevision := rj_sessionRevision m;
       is_validRecords := is_validRecords i ++ [r];
       is_findings := is_findings i ++ chain_findings line r i ++ run_findings |}.

Definition inspect_line (i : Inspection) (parsed : nat * json) : Inspection :=
  match read_line (fst parsed) (snd parsed) with
  | Err finding => addFinding finding i
  | Ok r => inspect_record (fst parsed) r i
  end.

(** ** The bytes *)

(** The bytes up to the last newline, and the rest. *)
Fixpoint split_complete (bytes : string) : string * string :=
  match bytes with
  | EmptyString => (EmptyString, EmptyString)
  | String a r =>
      let (complete, trailing) := split_complete r in
      if (code a =? 10)%nat || negb (is_empty complete) then (String a complete, trailing)
      else (EmptyString, String a trailing)
  end.

(** [body.split("\n")], with no line in an empty body. *)
Definition body_lines (body : string) : list string :=
  if is_empty body then [] else split line_feed body.

(** The values of the lines from a number on, and the findings of the others. *)
Fixpoint parse_lines (line : nat) (lines : list string) : list (nat * json) * list RunJournalFinding :=
  match lines with
  | [] => ([], [])
  | text :: rest =>
      let (values, findings) := parse_lines (S line) rest in
      match (if is_empty (trim text) then None else json_parse text) with
      | Some value => ((line, value) :: values, findings)
      | None => (values, at_line malformed_json line :: findings)
      end
  end.

Definition initial (findings : list RunJournalFinding) : Inspection :=
  {| is_openRun := None; is_seenStarts := []; is_terminatedRuns := []; is_expectedSeq := 0; is_lastHash := GENESIS_HASH;
     is_journalSessionId := None; is_lastRevision := 0; is_validRecords := []; is_findings := findings |}.

Definition inspect_text (complete trailing : string) (lines : list string) (findings : list RunJournalFinding)
    : RunJournalReport :=
  let (values, malformed) := parse_lines 1 lines in
  let i := foldl inspect_line (initial (findings ++ malformed)) values in
  let findings := is_findings i ++ match is_openRun i with
                                   | Some run =>
                                       [{| fd_code := run_unclosed; fd_line := None; fd_runId := Some (or_runId run) |}]
                                   | None => []
                                   end in
  {| rp_ok := bool_decide (findings = []);
     rp_byteCount := String.length complete;
     rp_lineCount := length lines;
     rp_trailingByteCount := String.length trailing;
     rp_records := is_validRecords i;
     rp_openRunId := or_runId <$> is_openRun i;
     rp_findings := findings |}.

Definition inspectRunJournal (bytes : string) : option RunJournalReport :=
  let (complete, trailing) := split_complete bytes in
  let fragment := if is_empty trailing then [] else [bare trailing_fragment] in
  if is_empty complete then Some (inspect_text complete trailing [] fragment)
  else
    match utf8_decode complete with
    | utf8_beyond => None
    | utf8_invalid => Some (inspect_text complete trailing [] (fragment ++ [bare invalid_utf8]))
    | utf8_text text =>
        let body := slice_to (String.length text - 1) text in
        Some (inspect_text complete trailing (body_lines body) fragment)
    end.
End Inspector.
