(* ===== verification/JournalReading.v ===== *)
(** * Reading back a journal line

    The checks of the inspector do not tell a value from its canonical form,
    and the line of a record the writer sealed reads back as that record. *)

From Stdlib Require Import Ascii String ZArith Btauto Lia.
From stdpp Require Import base list option strings.
From S2P Require Import Prelude JsString JsValue Json JsNumber CanonicalJson Utf8 SessionTermination JournalChecks RunJournal.
From S2P Require Import JournalInspector.

Open Scope string_scope.
Open Scope list_scope.
Open Scope Z_scope.

(** ** The checks see the canonical form as the value *)

Lemma canon_keys_forallb (p : string -> bool) (v : json) :
  match canon v with
  | JsObj fields => forallb (fun kv => p (fst kv)) fields
  | _ => true
  end = match v with
        | JsObj fields => forallb (fun kv => p (fst kv)) fields
        | _ => true
        end.
Proof.
  destruct v as [| | | | |fields]; try done. cbn [canon].
  assert (E : forall l : list (string * json), forallb (fun kv => p (fst kv)) l = forallb p (map fst l)).
  { induction l as [|kv l IH]; [done|]. cbn. by rewrite IH. }
  rewrite !E. apply eq_true_iff_eq. rewrite !forallb_true_iff. by setoid_rewrite canon_keys.
Qed.

Lemma plain_canon (v : json) (name : string) (keys : list string) :
  assertPlainDataRecord (canon v) name keys = assertPlainDataRecord v name keys.
Proof.
  pose proof (canon_keys_forallb (one_of_strings keys) v) as E. destruct v; try done.
  unfold assertPlainDataRecord. cbn [canon] in *. by rewrite E.
Qed.

Lemma identifier_canon (v : json) (name : string) (n : nat) : assertIdentifier (canon v) name n = assertIdentifier v name n.
Proof. by destruct v. Qed.

Lemma clean_canon (v : json) (name : string) (n : nat) : assertClean name n (canon v) = assertClean name n v.
Proof. unfold assertClean. by rewrite identifier_canon. Qed.

Lemma safe_int_canon (v : json) (name : string) : assertSafeNonNegativeInt (canon v) name = assertSafeNonNegativeInt v name.
Proof. destruct v; try done. cbn [canon assertSafeNonNegativeInt]. by rewrite safe_integer_number_text. Qed.

Lemma member_canon (values : list string) (message : string) (o : option json) :
  assertMember values message (canon <$> o) = assertMember values message o.
Proof. by destruct o as [[]|]. Qed.

Lemma text_canon (o : option json) (message : string) : assertText (canon <$> o) message = assertText o message.
Proof. by destruct o as [[]|]. Qed.

Lemma instant_canon (o : option json) (name : string) :
  assertCanonicalTimestamp (canon <$> o) name = assertCanonicalTimestamp o name.
Proof. by destruct o as [[]|]. Qed.

Lemma optionally_canon {A} (o : option json) (f : json -> result string A) :
  (forall v, f (canon v) = f v) -> optionally (canon <$> o) f = optionally o f.
Proof. intros H. destruct o as [v|]; [|done]. cbn [fmap option_fmap option_map optionally]. by rewrite H. Qed.

Lemma version_canon (o : option json) :
  match canon <$> o with
  | Some (JsNum literal) => bool_decide (safe_integer literal = Some 1%Z)
  | _ => false
  end = match o with
        | Some (JsNum literal) => bool_decide (safe_integer literal = Some 1%Z)
        | _ => false
        end.
Proof. destruct o as [[]|]; try done. cbn [fmap option_fmap option_map canon]. by rewrite safe_integer_number_text. Qed.

Lemma flags_canon (a b : option json) :
  match canon <$> a, canon <$> b with
  | Some (JsBool _), Some (JsBool _) => true
  | _, _ => false
  end = match a, b with
        | Some (JsBool _), Some (JsBool _) => true
        | _, _ => false
        end.
Proof. by destruct a as [[]|], b as [[]|]. Qed.

Lemma text_of_canon (key : string) (v : json) : json_ok v = true -> text_of key (canon v) = text_of key v.
Proof. intros H. unfold text_of. by rewrite jstr_canon. Qed.

Lemma flag_of_canon (key : string) (v : json) : json_ok v = true -> flag_of key (canon v) = flag_of key v.
Proof. intros H. unfold flag_of. rewrite jget_canon by done. by destruct (jget key v) as [[]|]. Qed.

Lemma coherence_canon (v : json) : json_ok v = true -> assertTerminationCoherence (canon v) = assertTerminationCoherence v.
Proof.
  intros H. unfold assertTerminationCoherence. rewrite !text_of_canon, !flag_of_canon, !jget_canon by done.
  destruct (cause_parts _) as [area suffix]. destruct (expected_for _ _ _) as [ex|]; [|done].
  by destruct (jget "processSignal" v), (jget "transcriptIssue" v).
Qed.

Lemma coherent_event_canon (event : RunJournalEvent) (v : json) :
  json_ok v = true -> isTerminalCoherentWithEvent event (canon v) = isTerminalCoherentWithEvent event v.
Proof. intros H. unfold isTerminalCoherentWithEvent. by rewrite !text_of_canon. Qed.

Ltac canon_checks :=
  rewrite ?plain_canon, ?jget_canon, ?version_canon, ?flags_canon, ?member_canon, ?text_canon, ?instant_canon by done;
  rewrite ?optionally_canon by
    (intros; first [apply clean_canon|apply safe_int_canon|apply (member_canon _ _ (Some _))]).

Lemma termination_canon (v : json) (runId sessionId : string) :
  json_ok v = true ->
  assertBoundedSessionTermination (canon v) runId sessionId = assertBoundedSessionTermination v runId sessionId.
Proof. intros H. unfold assertBoundedSessionTermination. canon_checks. by rewrite coherence_canon. Qed.

Lemma inserted_canon (ids : list json) : assertInserted (map canon ids) = assertInserted ids.
Proof. induction ids as [|id ids IH]; [done|]. cbn [map assertInserted]. by rewrite clean_canon, IH. Qed.

Lemma details_canon (v : json) :
  json_ok v = true -> assertBoundedAuditDetails (canon v) = assertBoundedAuditDetails v.
Proof.
  intros H. unfold assertBoundedAuditDetails. canon_checks.
  rewrite (optionally_canon (jget "executionStarted" v)) by (by intros []).
  rewrite (optionally_canon (jget "insertedToolCallIds" v)); [by canon_checks|].
  intros []; try done. cbn [canon]. by rewrite length_map, inserted_canon.
Qed.

(** ** A line as a whole *)

(** What is read back: the payload in its canonical form. *)
Definition stored (r : RunJournalRecord) : RunJournalRecord :=
  let m := rj_material r in
  {| rj_material := {| rj_seq := rj_seq m; rj_event := rj_event m; rj_runId := rj_runId m; rj_sessionId := rj_sessionId m;
                       rj_sessionRevision := rj_sessionRevision m; rj_timestamp := rj_timestamp m;
                       rj_prevHash := rj_prevHash m; rj_payload := canon <$> rj_payload m |};
     rj_hash := rj_hash r |}.

Lemma has_key_canon (key : string) (v : json) : json_ok v = true -> has_key key (canon v) = has_key key v.
Proof. intros H. unfold has_key. rewrite jget_canon by done. by destruct (jget key v). Qed.

Lemma safe_field_canon (key : string) (v : json) : json_ok v = true -> safe_field key (canon v) = safe_field key v.
Proof.
  intros H. unfold safe_field. rewrite jget_canon by done. destruct (jget key v) as [[]|]; try done.
  cbn [fmap option_fmap option_map canon]. by rewrite safe_integer_number_text.
Qed.

Lemma bounded_field_canon (key : string) (v : json) : json_ok v = true -> bounded_field key (canon v) = bounded_field key v.
Proof. intros H. unfold bounded_field. by rewrite jstr_canon. Qed.

Lemma validate_canon (v : json) : json_ok v = true -> validateCommonShape (canon v) = validateCommonShape v.
Proof.
  intros H. destruct v as [| | | | |fields]; try done. pose proof (fun p => canon_keys_forallb p (JsObj fields)) as E.
  assert (Hc : exists l, JsObj l = canon (JsObj fields)) by (by eexists). destruct Hc as [l Hl]. rewrite <- Hl in E |- *.
  unfold validateCommonShape. rewrite Hl, E, !has_key_canon, !safe_field_canon, !bounded_field_canon, !jstr_canon, jget_canon by done.
  by rewrite version_canon.
Qed.

Lemma read_line_canon (line : nat) (v : json) :
  json_ok v = true ->
  read_line line (canon v) = match read_line line v with
                             | Ok r => Ok (stored r)
                             | Err e => Err e
                             end.
Proof.
  intros H. unfold read_line. rewrite validate_canon by done. destruct (validateCommonShape v) as [common|]; [|done].
  rewrite !jget_canon by done.
  destruct (is_audit _).
  - destruct (jget "details" v) as [details|] eqn:Ed; [|done]. cbn [fmap option_fmap option_map].
    rewrite details_canon by (by eapply jget_ok). by destruct (assertBoundedAuditDetails details).
  - destruct (is_terminal _); [|done].
    destruct (jget "termination" v) as [termination|] eqn:Et; [|done]. cbn [fmap option_fmap option_map].
    assert (Ht : json_ok termination = true) by (by eapply jget_ok).
    unfold probeTermination. rewrite termination_canon, coherent_event_canon, text_of_canon by done.
    destruct (assertBoundedSessionTermination _ _ _); [|done]. destruct (isTerminalCoherentWithEvent _ _); [|done].
    by destruct (String.eqb _ _).
Qed.

(** ** The records the writer seals *)

Definition bounded_id (s : string) : bool := isBoundedIdentifier s && negb (looksLikeCredential s).

(** The payload of an event. *)
Definition payload_valid (m : RunJournalMaterial) : Prop :=
  match rj_payload m with
  | None => rj_event m = run_started
  | Some payload =>
      json_ok payload = true /\
      if is_audit (rj_event m) then assertBoundedAuditDetails payload = Ok tt
      else is_terminal (rj_event m) = true /\
           assertBoundedSessionTermination payload (rj_runId m) (rj_sessionId m) = Ok tt /\
           isTerminalCoherentWithEvent (rj_event m) payload = true /\ rj_timestamp m = text_of "timestamp" payload
  end.

Record record_valid (r : RunJournalRecord) : Prop := {
  rv_seq : 0 <= rj_seq (rj_material r) <= MAX_SAFE_INTEGER;
  rv_runId : bounded_id (rj_runId (rj_material r)) = true;
  rv_sessionId : bounded_id (rj_sessionId (rj_material r)) = true;
  rv_revision : 0 <= rj_sessionRevision (rj_material r) <= MAX_SAFE_INTEGER;
  rv_timestamp : canonical_instant (rj_timestamp (rj_material r)) = true;
  rv_payload : payload_valid (rj_material r);
}.

Lemma record_json_ok (r : RunJournalRecord) : record_valid r -> json_ok (record_json r) = true.
Proof.
  intros [_ _ _ _ _ H]. unfold record_json, material_json. unfold payload_valid in H.
  destruct (rj_payload _) as [payload|].
  - destruct H as [H _]. cbn [app json_ok forallb snd]. rewrite !int_text_number, H.
    cbn [andb number_ok]. unfold payload_key. by destruct (is_terminal _).
  - cbn [app json_ok forallb snd]. by rewrite !int_text_number.
Qed.

Lemma event_of_str (event : RunJournalEvent) : event_of (event_str event) = Some event.
Proof. by destruct event. Qed.

Lemma started_not_other (event : RunJournalEvent) : is_audit event = false -> is_terminal event = false -> event = run_started.
Proof. by destruct event. Qed.

Lemma payload_jget (r : RunJournalRecord) (payload : json) :
  rj_payload (rj_material r) = Some payload -> jget (payload_key (rj_event (rj_material r))) (record_json r) = Some payload.
Proof.
  unfold record_json, material_json. intros ->. unfold payload_key. by destruct (is_terminal _).
Qed.

Lemma validate_record (r : RunJournalRecord) :
  record_valid r ->
  validateCommonShape (record_json r)
  = Some {| cs_seq := rj_seq (rj_material r); cs_event := rj_event (rj_material r); cs_runId := rj_runId (rj_material r);
            cs_sessionId := rj_sessionId (rj_material r); cs_sessionRevision := rj_sessionRevision (rj_material r);
            cs_timestamp := rj_timestamp (rj_material r); cs_prevHash := rj_prevHash (rj_material r);
            cs_hash := rj_hash r |}.
Proof.
  intros [Hseq Hrun Hses Hrev Hts Hpl]. unfold bounded_id in Hrun, Hses. unfold record_json, material_json, payload_valid in *.
  destruct r as [[seq event runId sessionId revision timestamp prevHash payload] hash].
  cbn [rj_material rj_hash rj_seq rj_event rj_runId rj_sessionId rj_sessionRevision rj_timestamp rj_prevHash rj_payload] in *.
  assert (Hn : forall z, 0 <= z -> (z <? 0) = false) by (intros; by apply Z.ltb_ge).
  destruct event, payload as [payload|]; try (by destruct Hpl as (_ & Hd & _)); try done;
    cbn [app]; unfold validateCommonShape, safe_field, bounded_field, jstr;
    cbn [jget map_get String.eqb Ascii.eqb Bool.eqb payload_key is_terminal]; rewrite !safe_integer_text by done;
    rewrite !Hn by lia; cbn [mbind option_bind]; rewrite event_of_str;
    cbn [mbind option_bind from_option is_terminal is_audit has_key jget map_get String.eqb Ascii.eqb Bool.eqb guard_opt forallb fst];
    rewrite Hrun, Hses; cbn [mbind option_bind]; rewrite Hts; reflexivity.
Qed.

Lemma read_record (line : nat) (r : RunJournalRecord) : record_valid r -> read_line line (record_json r) = Ok r.
Proof.
  intros Hr. unfold read_line. rewrite (validate_record _ Hr). destruct Hr as [_ _ _ _ _ Hpl]. pose proof (payload_jget r) as Hj.
  cbn [cs_seq cs_event cs_runId cs_sessionId cs_sessionRevision cs_timestamp cs_prevHash cs_hash].
  destruct r as [[seq event runId sessionId revision timestamp prevHash payload] hash]. unfold payload_valid in Hpl.
  cbn [rj_material rj_hash rj_seq rj_event rj_runId rj_sessionId rj_sessionRevision rj_timestamp rj_prevHash rj_payload] in *.
  destruct payload as [payload|]; [|by rewrite Hpl]. specialize (Hj payload eq_refl). destruct Hpl as [Hok Hpl].
  unfold payload_key in Hj. destruct (is_audit event) eqn:Ea.
  - assert (Ht : is_terminal event = false) by by destruct event. rewrite Ht in Hj. by rewrite Hj, Hpl.
  - destruct Hpl as (Ht & Hb & Hc & Hs). rewrite Ht in Hj |- *. rewrite Hj. unfold probeTermination.
    by rewrite Hb, Hc, Hs, String.eqb_refl.
Qed.

(** The line of a sealed record: one line, read back as the record. *)
Lemma line_reads_back (line : nat) (r : RunJournalRecord) :
  record_valid r ->
  let text := serializeRunJournalLine (record_json r) in
  sforall no_lf text = true /\ is_empty (trim text) = false /\
  exists v, json_parse text = Some v /\ read_line line v = Ok (stored r).
Proof.
  intros Hr. cbv zeta. unfold serializeRunJournalLine. pose proof (record_json_ok r Hr) as Hok. split_and!.
  - by apply canonical_no_lf.
  - unfold record_json, material_json. cbn [canonicalJson String.append]. by rewrite trim_nonempty.
  - exists (canon (record_json r)). split; [by apply parse_canonical|]. rewrite read_line_canon by done. by rewrite read_record.
Qed.

(** ** The hash of what is read back *)

Lemma strip_material (m : RunJournalMaterial) : stripHashKey (material_json m) = material_json m.
Proof. unfold material_json, stripHashKey. destruct (rj_payload m) as [payload|]; [|done]. unfold payload_key. by destruct (is_terminal _). Qed.

Lemma stored_material (r : RunJournalRecord) :
  record_valid r ->
  serializeRunJournalMaterial (material_json (rj_material (stored r)))
  = serializeRunJournalMaterial (material_json (rj_material r)).
Proof.
  intros [_ _ _ _ _ H]. unfold serializeRunJournalMaterial. rewrite !strip_material, !canonicalJson_print. f_equal.
  unfold payload_valid in H. unfold material_json, stored. cbn [rj_material rj_payload rj_seq rj_event rj_runId rj_sessionId
    rj_sessionRevision rj_timestamp rj_prevHash].
  destruct (rj_payload (rj_material r)) as [payload|]; [|done]. destruct H as [H _]. cbn [fmap option_fmap option_map canon map app fst snd].
  by rewrite canon_idem.
Qed.

(** Its line, too, is the line that was written. *)
Lemma stored_line (r : RunJournalRecord) :
  record_valid r -> serializeRunJournalLine (record_json (stored r)) = serializeRunJournalLine (record_json r).
Proof.
  intros [_ _ _ _ _ H]. unfold serializeRunJournalLine. rewrite !canonicalJson_print. f_equal.
  unfold payload_valid in H. unfold record_json, material_json, stored. cbn [rj_material rj_payload rj_seq rj_event rj_runId rj_sessionId
    rj_sessionRevision rj_timestamp rj_prevHash rj_hash].
  destruct (rj_payload (rj_material r)) as [payload|]; [|done]. destruct H as [H _]. cbn [fmap option_fmap option_map canon map app fst snd].
  by rewrite canon_idem.
Qed.
