(* ===== verification/JournalTheory.v ===== *)
(** * The journal reads back as it was written

    Every journal the writer of run-journal.ts can build is inspected without a
    finding, except for the run left open; and after a crash that cut its bytes
    anywhere, the inspector recovers the journal as it was at the last complete
    record. *)

From Stdlib Require Import Ascii String ZArith QArith Lia.
From stdpp Require Import base list option strings.
From S2P Require Import Prelude JsString JsValue Json JsNumber CanonicalJson Utf8 SessionTermination JournalChecks RunJournal.
From S2P Require Import JournalInspector JournalReading JournalTermination.

Open Scope string_scope.
Open Scope list_scope.
Open Scope Z_scope.

(** ** One operation appends one valid record *)

Section Writer.
Context (hashFn : string -> option string).

Record tidy (j : RunJournal) : Prop := {
  td_session : bounded_id (jn_sessionId j) = true;
  td_prev : isValidHashShape (jn_prevHash j) = true;
  td_revision : 0 <= jn_lastSessionRevision j;
  td_open : forall run, jn_openRun j = Some run ->
    bounded_id (or_runId run) = true /\ or_sessionId run = jn_sessionId j;
}.

(** [j'] is [j] with a record that continues its chain, and that the run machine
    of the inspector takes without a finding. *)
Record appends (j : RunJournal) (record : RunJournalRecord) (j' : RunJournal) : Prop := {
  ap_valid : 0 <= jn_nextSeq j <= MAX_SAFE_INTEGER -> record_valid record;
  ap_seq : rj_seq (rj_material record) = jn_nextSeq j;
  ap_prev : rj_prevHash (rj_material record) = jn_prevHash j;
  ap_session : rj_sessionId (rj_material record) = jn_sessionId j;
  ap_revision : jn_lastSessionRevision j <= rj_sessionRevision (rj_material record);
  ap_shape : isValidHashShape (rj_hash record) = true;
  ap_hash : recomputeOk hashFn record = true;
  ap_state : exists started terminated openRun,
    j' = append_record record (rj_sessionRevision (rj_material record)) started terminated openRun j /\
    (forall line, run_event line (rj_material record) (jn_openRun j) (jn_startedRunIds j) (jn_terminatedRunIds j)
       = (openRun, started, terminated, [])) /\
    (forall run, openRun = Some run -> bounded_id (or_runId run) = true /\ or_sessionId run = jn_sessionId j);
}.

Lemma seal_Ok (base : RunJournalMaterial) (record : RunJournalRecord) :
  seal hashFn base = Ok record ->
  rj_material record = base /\ isValidHashShape (rj_hash record) = true /\ recomputeOk hashFn record = true.
Proof.
  unfold seal, recomputeOk. destruct (hashFn _) as [hash|] eqn:E; [|done]. destruct (isValidHashShape hash) eqn:Eh; [|done].
  intros [= <-]. cbn [rj_material rj_hash]. rewrite E. by rewrite Eh, String.eqb_refl.
Qed.

Lemma identifier_Ok (s name r : string) (n : nat) :
  assertIdentifier (JsStr s) name n = Ok r ->
  r = s /\ is_empty s = false /\ (String.length s <=? n)%nat = true /\ sexists is_control s = false.
Proof.
  unfold assertIdentifier. destruct (is_empty s); [done|]. destruct (String.length s <=? n)%nat; [|done]. cbn [negb andb].
  destruct (sexists is_control s); [done|]. by intros [= <-].
Qed.

Lemma bounded_id_Ok (s name name' r : string) :
  assertIdentifier (JsStr s) name MAX_RUN_JOURNAL_ID_LENGTH = Ok r -> rejectCredential r name' = Ok tt ->
  r = s /\ bounded_id s = true.
Proof.
  intros (-> & H1 & H2 & H3)%identifier_Ok H4. split; [done|]. unfold bounded_id, isBoundedIdentifier. rewrite H1, H2, H3.
  unfold rejectCredential, check in H4. by destruct (looksLikeCredential s).
Qed.

Lemma safe_number_Ok (n : jsnum) (name : string) (z : Z) : assertSafeNumber n name = Ok z -> 0 <= z <= MAX_SAFE_INTEGER.
Proof.
  unfold assertSafeNumber. destruct (jsnum_safe n) as [y|] eqn:E; [|done]. destruct (Z.ltb_spec y 0); [done|]. intros [= <-].
  unfold jsnum_safe in E. destruct n as [| |q]; try done. cbv zeta in E. destruct (_ && _)%bool eqn:Eb; [|done].
  injection E as <-. apply andb_true_iff in Eb as [_ Eb%Z.leb_le]. lia.
Qed.

Lemma revision_Ok (j : RunJournal) (n : jsnum) (z : Z) :
  assertRevision j n = Ok z -> 0 <= z <= MAX_SAFE_INTEGER /\ jn_lastSessionRevision j <= z.
Proof.
  unfold assertRevision. intros (y & H1%safe_number_Ok & H2)%result_bind_Ok. destruct (Z.ltb_spec y (jn_lastSessionRevision j)); [done|].
  by injection H2 as <-.
Qed.

Lemma instant_Ok (s name r : string) : assertCanonicalTimestamp (Some (JsStr s)) name = Ok r -> r = s /\ canonical_instant s = true.
Proof. unfold assertCanonicalTimestamp. destruct (canonical_instant s) eqn:E; [|done]. by intros [= <-]. Qed.

Lemma check_true (b : bool) (message : string) : check b message = Ok tt -> b = true.
Proof. by destruct b. Qed.

Lemma appends_started (j j' : RunJournal) (input : RunJournalStartInput) (record : RunJournalRecord) :
  tidy j -> appendStarted hashFn j input = Ok (record, j') -> appends j record j'.
Proof.
  intros Hj H. unfold appendStarted in H. apply result_bind_Ok in H as (runId & H1 & H).
  apply result_bind_Ok in H as ([] & H2 & H). apply result_bind_Ok in H as (revision & H3%revision_Ok & H).
  apply result_bind_Ok in H as (timestamp & [-> H4]%instant_Ok & H). destruct (bounded_id_Ok _ _ _ _ H1 H2) as [-> Hid].
  destruct (jn_openRun j) eqn:Eo; [done|]. destruct (one_of_strings _ _) eqn:Es; [done|].
  apply result_bind_Ok in H as (r & (Hm & Hs & Hh)%seal_Ok & H). injection H as -> <-.
  split; try (rewrite Hm; cbn; naive_solver); try done.
  - intros Hseq. split; rewrite Hm; cbn; try done; [apply Hj|naive_solver].
  - rewrite Hm. cbn [base_record rj_sessionRevision]. do 3 eexists. split_and!; [done| |].
    + intros line. unfold run_event. cbn [base_record rj_runId rj_event rj_sessionId is_audit]. rewrite Eo, Es. done.
    + by intros run [= <-].
Qed.

Lemma appends_terminal (j j' : RunJournal) (event : RunJournalEvent) (input : RunJournalTerminalInput)
    (record : RunJournalRecord) :
  tidy j -> is_terminal event = true -> json_ok (term_termination input) = true ->
  appendTerminal hashFn j event input = Ok (record, j') -> appends j record j'.
Proof.
  intros Hj He Hok H. unfold appendTerminal in H. destruct (jn_openRun j) as [run|] eqn:Eo; [|done].
  destruct (td_open _ Hj run Eo) as [Hid Hsid].
  apply result_bind_Ok in H as (revision & H3%revision_Ok & H).
  apply result_bind_Ok in H as (timestamp & [-> H4]%instant_Ok & H).
  apply result_bind_Ok in H as ([] & H5 & H). apply result_bind_Ok in H as ([] & H6 & H).
  apply result_bind_Ok in H as ([] & H7%check_true & H). apply result_bind_Ok in H as ([] & H8%check_true & H).
  apply result_bind_Ok in H as (r & (Hm & Hs & Hh)%seal_Ok & H). injection H as -> <-.
  assert (Hc : isTerminalCoherentWithEvent event (term_termination input) = true).
  { unfold assertTerminalCoherentWithEvent in H6. destruct (isTerminalCoherentWithEvent _ _); [done|].
    destruct event; try done; by destruct (String.eqb _ _). }
  split; try (rewrite Hm; cbn; naive_solver); try done.
  - intros Hseq. split; rewrite Hm; cbn; try done; [apply Hj|naive_solver|]. split; [done|].
    destruct (is_audit event) eqn:Ea; [by destruct event|]. cbn. split_and!; try done. by apply String.eqb_eq.
  - rewrite Hm. cbn [base_record rj_sessionRevision]. do 3 eexists. split_and!; [done| |done].
    intros line. unfold run_event. cbn [base_record rj_runId rj_event rj_sessionId]. apply negb_true_iff in H8.
    rewrite H8, Eo, String.eqb_refl. by destruct event.
Qed.

Lemma appends_audit (j j' : RunJournal) (input : RunJournalAuditInput) (record : RunJournalRecord) :
  tidy j -> json_ok (audit_details input) = true -> audit hashFn j input = Ok (record, j') -> appends j record j'.
Proof.
  intros Hj Hok H. unfold audit in H. apply result_bind_Ok in H as ([] & Ha%check_true & H).
  apply result_bind_Ok in H as (revision & H3%revision_Ok & H).
  apply result_bind_Ok in H as (timestamp & [-> H4]%instant_Ok & H). apply result_bind_Ok in H as ([] & H5 & H).
  apply result_bind_Ok in H as (r & (Hm & Hs & Hh)%seal_Ok & H). injection H as -> <-.
  split; try (rewrite Hm; cbn; naive_solver); try done.
  - intros Hseq. split; rewrite Hm; cbn [base_record rj_seq rj_runId rj_sessionId rj_sessionRevision rj_timestamp]; try done.
    + destruct (jn_openRun j) as [run|] eqn:Eo; [by apply (td_open _ Hj run)|by vm_compute].
    + apply Hj.
    + naive_solver.
    + unfold payload_valid. cbn [base_record rj_payload rj_event]. by rewrite Ha.
  - rewrite Hm. cbn [base_record rj_sessionRevision]. exists (jn_startedRunIds j), (jn_terminatedRunIds j), (jn_openRun j).
    split_and!; [done| |apply Hj]. intros line. unfold run_event. cbn [base_record rj_event]. by rewrite Ha.
Qed.

Lemma appends_op (j j' : RunJournal) (op : RunJournalOp) (record : RunJournalRecord) :
  tidy j -> op_data op = true -> apply_op hashFn j op = Ok (record, j') -> appends j record j'.
Proof.
  intros Hj Hd H. destruct op; cbn [apply_op op_data] in *.
  - by eapply appends_started.
  - exact (appends_terminal j j' run_finished input record Hj eq_refl Hd H).
  - exact (appends_terminal j j' run_abandoned input record Hj eq_refl Hd H).
  - exact (appends_terminal j j' run_recovered input record Hj eq_refl Hd H).
  - by eapply appends_audit.
Qed.

Lemma appends_tidy (j j' : RunJournal) (record : RunJournalRecord) : tidy j -> appends j record j' -> tidy j'.
Proof.
  intros Hj H. destruct (ap_state _ _ _ H) as (started & terminated & openRun & -> & _ & Ho).
  split; cbn; [apply Hj|apply H| |done]. pose proof (ap_revision _ _ _ H). pose proof (td_revision _ Hj). lia.
Qed.
End Writer.

(** ** The inspector follows the writer *)

Section Simulation.
Context (hashFn : string -> option string).

(** The state the inspector reaches on the lines of a journal. *)
Definition state_of (j : RunJournal) (findings : list RunJournalFinding) : Inspection :=
  {| is_openRun := jn_openRun j;
     is_seenStarts := jn_startedRunIds j;
     is_terminatedRuns := jn_terminatedRunIds j;
     is_expectedSeq := jn_nextSeq j;
     is_lastHash := jn_prevHash j;
     is_journalSessionId := match jn_mutableRecords j with
                            | [] => None
                            | _ => Some (jn_sessionId j)
                            end;
     is_lastRevision := jn_lastSessionRevision j;
     is_validRecords := map stored (jn_mutableRecords j);
     is_findings := findings |}.

Lemma recompute_stored (r : RunJournalRecord) : record_valid r -> recomputeOk hashFn (stored r) = recomputeOk hashFn r.
Proof. intros H. unfold recomputeOk. by rewrite stored_material. Qed.

Lemma chain_clean (line : nat) (r : RunJournalRecord) (i : Inspection) :
  rj_seq (rj_material r) = is_expectedSeq i -> isValidHashShape (rj_hash r) = true ->
  isValidHashShape (rj_prevHash (rj_material r)) = true -> recomputeOk hashFn r = true ->
  rj_prevHash (rj_material r) = is_lastHash i -> chain_findings hashFn line r i = [].
Proof.
  intros H1 H2 H3 H4 H5. unfold chain_findings. rewrite H1, Z.ltb_irrefl, H2, H3, H4, H5, String.eqb_refl. done.
Qed.

Lemma inspect_clean (line : nat) (r : RunJournalRecord) (i : Inspection) (openRun : option OpenRun) (starts ends : list string) :
  let m := rj_material r in
  default (rj_sessionId m) (is_journalSessionId i) = rj_sessionId m ->
  is_lastRevision i <= rj_sessionRevision m ->
  isValidHashShape (rj_hash r) = true ->
  chain_findings hashFn line r i = [] ->
  run_event line m (is_openRun i) (is_seenStarts i) (is_terminatedRuns i) = (openRun, starts, ends, []) ->
  inspect_record hashFn line r i
  = {| is_openRun := openRun; is_seenStarts := starts; is_terminatedRuns := ends; is_expectedSeq := rj_seq m + 1;
       is_lastHash := rj_hash r; is_journalSessionId := Some (rj_sessionId m); is_lastRevision := rj_sessionRevision m;
       is_validRecords := is_validRecords i ++ [r]; is_findings := is_findings i |}.
Proof.
  cbv zeta. intros H1 H2 H3 H4 H5. unfold inspect_record. rewrite H1, String.eqb_refl. cbn [negb is_lastRevision].
  rewrite (proj2 (Z.ltb_ge _ _)) by done. cbn [is_openRun is_seenStarts is_terminatedRuns]. rewrite H5, H3.
  unfold chain_findings in *. cbn [is_expectedSeq is_lastHash is_findings is_validRecords is_journalSessionId] in *.
  by rewrite H4, app_nil_r.
Qed.

Lemma inspect_appended (j j' : RunJournal) (r : RunJournalRecord) (line : nat) (fs : list RunJournalFinding) :
  tidy j -> 0 <= jn_nextSeq j < MAX_SAFE_INTEGER -> appends hashFn j r j' ->
  inspect_line hashFn (state_of j fs) (line, canon (record_json r)) = state_of j' fs.
Proof.
  intros Hj Hseq Ha. assert (Hv : record_valid r) by (apply (ap_valid _ _ _ _ Ha); lia).
  destruct (ap_state _ _ _ _ Ha) as (started & terminated & openRun & E & Hrun & _).
  unfold inspect_line. cbn [fst snd]. rewrite read_line_canon, read_record by (try apply record_json_ok; done).
  rewrite (inspect_clean line (stored r) (state_of j fs) openRun started terminated).
  - rewrite E. unfold state_of, append_record.
    cbn [stored rj_material rj_hash rj_seq rj_sessionId rj_sessionRevision jn_openRun jn_startedRunIds jn_terminatedRunIds
         jn_nextSeq jn_prevHash jn_mutableRecords jn_sessionId jn_lastSessionRevision is_validRecords is_findings].
    rewrite (ap_seq _ _ _ _ Ha), (ap_session _ _ _ _ Ha), map_app.
    rewrite round53_small by (unfold MAX_SAFE_INTEGER in Hseq; lia). by destruct (jn_mutableRecords j).
  - cbn [state_of is_journalSessionId stored rj_material rj_sessionId]. rewrite (ap_session _ _ _ _ Ha).
    by destruct (jn_mutableRecords j).
  - exact (ap_revision _ _ _ _ Ha).
  - exact (ap_shape _ _ _ _ Ha).
  - apply chain_clean.
    + exact (ap_seq _ _ _ _ Ha).
    + exact (ap_shape _ _ _ _ Ha).
    + cbn [stored rj_material rj_prevHash]. rewrite (ap_prev _ _ _ _ Ha). apply Hj.
    + rewrite recompute_stored by done. apply Ha.
    + exact (ap_prev _ _ _ _ Ha).
  - apply Hrun.
Qed.

(** ** Histories *)

Definition numbered (rs : list RunJournalRecord) : list (nat * json) :=
  zip_with pair (seq 1 (length rs)) (map (fun r => canon (record_json r)) rs).

Lemma numbered_snoc (rs : list RunJournalRecord) (r : RunJournalRecord) :
  numbered (rs ++ [r]) = numbered rs ++ [(S (length rs), canon (record_json r))].
Proof.
  unfold numbered. rewrite length_app, Nat.add_1_r, seq_S, map_app, zip_with_app by (by rewrite length_seq, length_map). done.
Qed.

(** What is known of a journal that was written, as long as its sequence numbers
    are safe integers. *)
Record followed (j : RunJournal) : Prop := {
  fo_tidy : tidy j;
  fo_seq : jn_nextSeq j = Z.of_nat (length (jn_mutableRecords j));
  fo_records : Forall record_valid (jn_mutableRecords j);
  fo_state : forall fs, foldl (inspect_line hashFn) (initial fs) (numbered (jn_mutableRecords j)) = state_of j fs;
}.

Definition short (j : RunJournal) : Prop := Z.of_nat (length (jn_mutableRecords j)) <= MAX_SAFE_INTEGER.

Lemma followed_append (j j' : RunJournal) (r : RunJournalRecord) :
  followed j -> appends hashFn j r j' -> short j' -> followed j'.
Proof.
  intros [Ht Hq Hr Hs] Ha Hlen. unfold short in Hlen. pose proof (appends_tidy _ _ _ _ Ht Ha) as Ht'.
  destruct (ap_state _ _ _ _ Ha) as (started & terminated & openRun & E & _).
  assert (Hrs : jn_mutableRecords j' = jn_mutableRecords j ++ [r]) by (by rewrite E).
  rewrite Hrs, length_app in Hlen. cbn [length] in Hlen.
  split; [done| | |]; rewrite ?Hrs.
  - rewrite E. cbn [append_record jn_nextSeq jn_mutableRecords]. rewrite Hq, length_app.
    cbn [length]. rewrite round53_small by (unfold MAX_SAFE_INTEGER in Hlen; lia). lia.
  - apply Forall_app. split; [done|]. apply Forall_singleton, (ap_valid _ _ _ _ Ha). lia.
  - intros fs. rewrite numbered_snoc, foldl_app, Hs. cbn [foldl]. apply inspect_appended; [done|lia|done].
Qed.

(** The journal before its first record. *)
Definition empty_journal (sessionId : string) : RunJournal :=
  {| jn_sessionId := sessionId; jn_startedRunIds := []; jn_terminatedRunIds := []; jn_mutableRecords := [];
     jn_lastSessionRevision := 0; jn_prevHash := GENESIS_HASH; jn_nextSeq := 0; jn_openRun := None |}.

Lemma followed_empty (sessionId : string) : bounded_id sessionId = true -> followed (empty_journal sessionId).
Proof. intros H. split; [|done|by constructor|done]. split; try done. Qed.

Lemma new_journal (init : RunJournalConstructorInit) (j : RunJournal) :
  jsnum_safe (default (NumFin 0) (init_seq init)) = Some 0 ->
  default GENESIS_HASH (init_prevHash init) = GENESIS_HASH ->
  new_RunJournal hashFn init = Ok j ->
  let j0 := empty_journal (init_sessionId init) in
  bounded_id (init_sessionId init) = true /\
  (j = j0 \/ exists input record, appendStarted hashFn j0 input = Ok (record, j) /\ start_runId input = init_runId init).
Proof.
  intros Hseq Hprev H. unfold new_RunJournal in H. apply result_bind_Ok in H as (sid & H1 & H).
  apply result_bind_Ok in H as ([] & H2 & H). destruct (bounded_id_Ok _ _ _ _ H1 H2) as [-> Hid]. split; [done|].
  apply result_bind_Ok in H as (startSeq & H3 & H). unfold assertSafeNumber in H3. rewrite Hseq in H3. injection H3 as <-.
  rewrite Hprev in H. apply result_bind_Ok in H as ([] & _ & H).
  destruct (init_openInitialRun init) as [[|]|].
  - right. apply result_bind_Ok in H as ([r j'] & H & E). injection E as <-. by eexists _, r.
  - left. apply result_bind_Ok in H as (runId & _ & H). apply result_bind_Ok in H as ([] & _ & H). by injection H as <-.
  - right. apply result_bind_Ok in H as ([r j'] & H & E). injection E as <-. by eexists _, r.
Qed.

Lemma tidy_empty (sessionId : string) : bounded_id sessionId = true -> tidy (empty_journal sessionId).
Proof. intros H. by apply followed_empty. Qed.

Lemma written_tidy (j : RunJournal) : written hashFn j -> tidy j.
Proof.
  induction 1 as [init j Hseq Hprev H|j j' op record Hw IH Hd H].
  - destruct (new_journal init j Hseq Hprev H) as [Hid [->|(input & record & Hi & _)]]; [by apply tidy_empty|].
    eapply appends_tidy; [apply (tidy_empty _ Hid)|]. eapply appends_started; [by apply tidy_empty|exact Hi].
  - eapply appends_tidy; [exact IH|]. by eapply appends_op.
Qed.

Lemma appends_records (j j' : RunJournal) (r : RunJournalRecord) :
  appends hashFn j r j' -> jn_mutableRecords j' = jn_mutableRecords j ++ [r].
Proof. intros Ha. by destruct (ap_state _ _ _ _ Ha) as (? & ? & ? & -> & _). Qed.

Lemma short_before (j j' : RunJournal) (r : RunJournalRecord) : appends hashFn j r j' -> short j' -> short j.
Proof. unfold short. intros Ha%appends_records. rewrite Ha, length_app. cbn [length]. lia. Qed.

Lemma written_followed (j : RunJournal) : written hashFn j -> short j -> followed j.
Proof.
  induction 1 as [init j Hseq Hprev H|j j' op record Hw IH Hd H]; intros Hs.
  - destruct (new_journal init j Hseq Hprev H) as [Hid [->|(input & record & Hi & _)]]; [by apply followed_empty|].
    pose proof (followed_empty _ Hid) as Hf. eapply followed_append; [exact Hf| |done].
    eapply appends_started; [apply Hf|exact Hi].
  - pose proof (appends_op _ _ _ _ _ (written_tidy _ Hw) Hd H) as Ha.
    eapply followed_append; [|exact Ha|done]. apply IH. by eapply short_before.
Qed.

(** ** The bytes *)

Definition line_of (r : RunJournalRecord) : string := serializeRunJournalLine (record_json r).

Fixpoint text_lines (lines : list string) : string :=
  match lines with
  | [] => EmptyString
  | line :: rest => (line ++ String line_feed (text_lines rest))%string
  end.

Lemma serialize_lines (j : RunJournal) : serialize j = text_lines (map line_of (jn_mutableRecords j)).
Proof.
  unfold serialize. destruct (jn_mutableRecords j) as [|r rs]; [done|]. change (fun r => serializeRunJournalLine (record_json r)) with line_of.
  revert r. induction rs as [|r' rs IH]; intros r; [done|].
  change (map line_of (r :: r' :: rs)) with (line_of r :: line_of r' :: map line_of rs).
  change (join (String line_feed EmptyString) (line_of r :: line_of r' :: map line_of rs))
    with (line_of r ++ String line_feed EmptyString ++ join (String line_feed EmptyString) (map line_of (r' :: rs)))%string.
  cbn [text_lines]. rewrite app_assoc_str. f_equal. cbn [String.append]. f_equal. apply IH.
Qed.

Lemma text_lines_app (a b : list string) : text_lines (a ++ b) = (text_lines a ++ text_lines b)%string.
Proof. induction a as [|w a IH]; [done|]. cbn [app text_lines]. rewrite IH, app_assoc_str. done. Qed.

Lemma parse_numbered (rs : list RunJournalRecord) (line : nat) :
  Forall record_valid rs ->
  parse_lines line (map line_of rs) = (zip_with pair (seq line (length rs)) (map (fun r => canon (record_json r)) rs), []).
Proof.
  revert line. induction rs as [|r rs IH]; intros line Hrs; [done|]. apply Forall_cons in Hrs as [Hr Hrs].
  cbn [map parse_lines length seq zip_with]. rewrite IH by done. destruct (line_reads_back line r Hr) as (_ & Ht & _).
  unfold line_of at 1 2. rewrite Ht. unfold serializeRunJournalLine. by rewrite parse_canonical by by apply record_json_ok.
Qed.

(** A text of whole lines, and what follows it on the last line. *)
Definition whole (s : string) : Prop := s = EmptyString \/ exists t, s = (t ++ String line_feed EmptyString)%string.

Lemma is_empty_append (s t : string) : is_empty (s ++ t) = is_empty s && is_empty t.
Proof. by destruct s. Qed.

Lemma split_fragment (frag : string) : sforall no_lf frag = true -> split_complete frag = (EmptyString, frag).
Proof.
  induction frag as [|a frag IH]; [done|]. cbn [sforall split_complete]. intros [Ha Hf]%andb_true_iff. rewrite IH by done.
  unfold no_lf in Ha. apply negb_true_iff in Ha. by rewrite Ha.
Qed.

Lemma split_whole (s frag : string) : whole s -> sforall no_lf frag = true -> split_complete (s ++ frag) = (s, frag).
Proof.
  intros [->|(t & ->)] Hf; [by apply split_fragment|]. rewrite app_assoc_str. cbn [String.append].
  induction t as [|a t IH]; cbn [String.append split_complete].
  - rewrite split_fragment by done. done.
  - rewrite IH. rewrite is_empty_append. cbn [is_empty]. rewrite andb_false_r, orb_true_r. done.
Qed.
Lemma slice_to_prefix (s t : string) : slice_to (String.length s) (s ++ t) = s.
Proof. rewrite slice_to_app, Nat.sub_diag, slice_to_all by done. destruct t; apply app_nil_str. Qed.

Lemma encode_no_lf (s : string) : sforall no_lf s = true -> sforall no_lf (utf8_encode s) = true.
Proof.
  induction s as [|a s IH]; [done|]. cbn [sforall utf8_encode]. intros [Ha Hs]%andb_true_iff.
  destruct (Nat.ltb_spec (code a) 128); cbn [sforall]; rewrite IH, ?Ha by done; [done|]. rewrite andb_true_r. revert a Ha H.
  assert (E : forall a, (code a <? 128)%nat || (no_lf (ascii_of_nat (192 + code a / 64)) && no_lf (ascii_of_nat (128 + code a mod 64))) = true)
    by (apply ascii_all; vm_compute; reflexivity).
  intros a _ H. specialize (E a). by rewrite (proj2 (Nat.ltb_ge _ _) H) in E.
Qed.

Lemma whole_encode (s : string) : whole s -> whole (utf8_encode s).
Proof. intros [->|(t & ->)]; [by left|]. right. exists (utf8_encode t). by rewrite utf8_encode_app. Qed.

Lemma text_lines_whole (lines : list string) : whole (text_lines lines).
Proof.
  induction lines as [|w lines IH]; [by left|]. right. cbn [text_lines].
  destruct IH as [->|(t & ->)]; [by exists w|]. exists (w ++ String line_feed t)%string. by rewrite app_assoc_str.
Qed.

Lemma body_of_lines (lines : list string) :
  lines <> [] -> Forall (fun w => w <> EmptyString /\ sforall no_lf w = true) lines ->
  exists body, text_lines lines = (body ++ String line_feed EmptyString)%string /\ body_lines body = lines.
Proof.
  intros Hne Hl. exists (join (String line_feed EmptyString) lines). split.
  - clear Hl. induction lines as [|w [|w' lines] IH]; [done|done|].
    change (join (String line_feed EmptyString) (w :: w' :: lines))
      with (w ++ String line_feed EmptyString ++ join (String line_feed EmptyString) (w' :: lines))%string.
    change (text_lines (w :: w' :: lines)) with (w ++ String line_feed (text_lines (w' :: lines)))%string.
    rewrite IH by done. rewrite !app_assoc_str. done.
  - unfold body_lines. rewrite split_join; [|done|].
    + destruct lines as [|w lines]; [done|]. apply Forall_cons in Hl as [[Hw _] _].
      destruct w as [|a w]; [done|]. by destruct lines.
    + intros w Hw. rewrite Forall_forall in Hl. by apply no_lf_free, Hl.
Qed.

(** The report on a journal followed by a fragment of a line. *)
Definition report_of (j : RunJournal) (frag : string) : RunJournalReport :=
  let findings := (if is_empty frag then [] else [bare trailing_fragment])
                  ++ match jn_openRun j with
                     | Some run => [{| fd_code := run_unclosed; fd_line := None; fd_runId := Some (or_runId run) |}]
                     | None => []
                     end in
  {| rp_ok := bool_decide (findings = []);
     rp_byteCount := String.length (toBytes j);
     rp_lineCount := length (jn_mutableRecords j);
     rp_trailingByteCount := String.length frag;
     rp_records := map stored (jn_mutableRecords j);
     rp_openRunId := openRunId j;
     rp_findings := findings |}.

(** The bytes of records' lines, and a fragment, are inspected line by line. *)
Lemma inspect_bytes (rs : list RunJournalRecord) (frag : string) :
  Forall record_valid rs -> sforall no_lf frag = true ->
  inspectRunJournal hashFn (utf8_encode (text_lines (map line_of rs)) ++ frag)
  = Some (inspect_text hashFn (utf8_encode (text_lines (map line_of rs))) frag (map line_of rs)
            (if is_empty frag then [] else [bare trailing_fragment])).
Proof.
  intros Hrs Hf. unfold inspectRunJournal.
  rewrite split_whole by (try apply whole_encode, text_lines_whole; done). destruct rs as [|r rs]; [done|].
  assert (Hl : Forall (fun w => w <> EmptyString /\ sforall no_lf w = true) (map line_of (r :: rs))).
  { apply Forall_map. eapply Forall_impl; [exact Hrs|]. intros x Hx.
    destruct (line_reads_back 0 x Hx) as (? & Ht & _). split; [|done]. unfold line_of. by destruct (serializeRunJournalLine _). }
  destruct (body_of_lines (map line_of (r :: rs)) ltac:(done) Hl) as (body & Ht & Hb).
  rewrite Ht, utf8_encode_app, is_empty_append. cbn [utf8_encode]. replace (code line_feed <? 128)%nat with true by reflexivity.
  rewrite andb_false_r. replace (String line_feed EmptyString) with (utf8_encode (String line_feed EmptyString)) by reflexivity.
  rewrite <- utf8_encode_app, utf8_round_trip, <- Hb. do 2 f_equal. rewrite length_append. cbn [String.length]. rewrite Nat.add_sub.
  apply f_equal, slice_to_prefix.
Qed.

Lemma inspect_followed (j : RunJournal) (frag : string) :
  followed j -> sforall no_lf frag = true ->
  inspectRunJournal hashFn (toBytes j ++ frag) = Some (report_of j frag).
Proof.
  intros [_ _ Hr Hs] Hf. unfold toBytes. rewrite serialize_lines, inspect_bytes by done. f_equal. unfold inspect_text.
  rewrite parse_numbered by done. rewrite app_nil_r. fold (numbered (jn_mutableRecords j)).
  rewrite Hs, length_map. unfold report_of, toBytes. by rewrite serialize_lines.
Qed.

(** ** A journal cut anywhere *)

Lemma append_cut (p t a b : string) :
  (p ++ t = a ++ b)%string ->
  (exists u, a = (p ++ u)%string) \/ (exists u, p = (a ++ u)%string /\ b = (u ++ t)%string).
Proof.
  revert a. induction p as [|c p IH]; intros a H; [left; by exists a|]. destruct a as [|c' a].
  - right. exists (String c p). done.
  - cbn [String.append] in H. injection H as -> H. destruct (IH a H) as [[u ->]|(u & -> & ->)]; [left|right]; by exists u.
Qed.

(** Cutting a line and its end leaves the whole line or a fragment. *)
Lemma line_cut (line u t : string) :
  sforall no_lf line = true -> (line ++ String line_feed EmptyString = u ++ t)%string ->
  (u = line ++ String line_feed EmptyString)%string \/ sforall no_lf u = true.
Proof.
  revert u. induction line as [|a line IH]; intros u Hl H.
  - destruct u as [|c u]; [by right|]. left. cbn [String.append] in *. injection H as <- H. by destruct u.
  - cbn [sforall] in Hl. apply andb_true_iff in Hl as [Ha Hl]. destruct u as [|c u]; [by right|].
    cbn [String.append] in H. injection H as <- H. destruct (IH u Hl H) as [->|Hu]; [by left|]. right. cbn [sforall]. by rewrite Ha.
Qed.

Lemma bytes_append (j j' : RunJournal) (r : RunJournalRecord) :
  appends hashFn j r j' -> toBytes j' = (toBytes j ++ utf8_encode (line_of r) ++ String line_feed EmptyString)%string.
Proof.
  intros Ha%appends_records. unfold toBytes. rewrite !serialize_lines, Ha, map_app, text_lines_app, utf8_encode_app.
  cbn [map text_lines]. rewrite utf8_encode_app. done.
Qed.

Lemma new_closed (init : RunJournalConstructorInit) (j : RunJournal) :
  jsnum_safe (default (NumFin 0) (init_seq init)) = Some 0 ->
  default GENESIS_HASH (init_prevHash init) = GENESIS_HASH ->
  new_RunJournal hashFn init = Ok j -> written hashFn (empty_journal (init_sessionId init)).
Proof.
  intros Hseq Hprev H.
  apply (written_new hashFn {| init_sessionId := init_sessionId init; init_runId := init_runId init;
    init_sessionRevision := init_sessionRevision init; init_timestamp := init_timestamp init;
    init_openInitialRun := Some false; init_prevHash := init_prevHash init; init_seq := init_seq init |}); [done|done|].
  unfold new_RunJournal in H |- *. cbn [init_sessionId init_runId init_openInitialRun init_prevHash init_seq].
  apply result_bind_Ok in H as (sid & H1 & H). rewrite H1. cbn [result_bind]. pose proof (identifier_Ok _ _ _ _ H1) as [-> _].
  apply result_bind_Ok in H as ([] & H2 & H). rewrite H2. cbn [result_bind].
  unfold assertSafeNumber in H |- *. rewrite Hseq, Hprev in *. cbn [Z.ltb Z.compare result_bind] in *.
  apply result_bind_Ok in H as ([] & H3 & H). rewrite H3. cbn [result_bind].
  assert (E : exists runId, assertIdentifier (JsStr (init_runId init)) "runId" MAX_RUN_JOURNAL_ID_LENGTH = Ok runId /\
    rejectCredential runId "runId" = Ok tt).
  { destruct (init_openInitialRun init) as [[|]|].
    1, 3: apply result_bind_Ok in H as (rj & H & _); apply result_bind_Ok in H as (runId & H4 & H);
      apply result_bind_Ok in H as ([] & H5 & _); by exists runId.
    apply result_bind_Ok in H as (runId & H4 & H). apply result_bind_Ok in H as ([] & H5 & _). by exists runId. }
  destruct E as (runId & -> & E). cbn [result_bind]. by rewrite E.
Qed.

(** The journal whose complete records a cut of the bytes keeps. *)
Definition kept (j j0 : RunJournal) (p frag : string) : Prop :=
  written hashFn j0 /\ p = (toBytes j0 ++ frag)%string /\ sforall no_lf frag = true /\
  exists k, jn_mutableRecords j0 = take k (jn_mutableRecords j).

Lemma kept_later (j j' j0 : RunJournal) (r : RunJournalRecord) (p frag : string) :
  appends hashFn j r j' -> kept j j0 p frag -> kept j' j0 p frag.
Proof.
  intros Ha%appends_records (Hw & Hp & Hf & k & Hk). split_and!; try done.
  exists (k `min` length (jn_mutableRecords j))%nat. rewrite Ha, take_app_le by lia. rewrite Hk.
  destruct (Nat.le_ge_cases k (length (jn_mutableRecords j))); [by rewrite Nat.min_l|].
  by rewrite Nat.min_r, !take_ge by lia.
Qed.

Lemma kept_cut (j j' : RunJournal) (r : RunJournalRecord) (p t : string) :
  written hashFn j -> written hashFn j' -> record_valid r -> appends hashFn j r j' ->
  (forall t', (p ++ t')%string = toBytes j -> exists j0 frag, kept j j0 p frag) ->
  (p ++ t)%string = toBytes j' -> exists j0 frag, kept j' j0 p frag.
Proof.
  intros Hw Hw' Hr Ha IH H. rewrite (bytes_append _ _ _ Ha) in H. destruct (append_cut _ _ _ _ H) as [[u Hu]|(u & -> & Hu)].
  - destruct (IH u) as (j0 & frag & Hk); [done|]. exists j0, frag. by eapply kept_later.
  - destruct (line_cut (utf8_encode (line_of r)) u t) as [->|Hf].
    + apply encode_no_lf. by destruct (line_reads_back 0 r Hr).
    + exact Hu.
    + exists j', EmptyString. split_and!; [done| |done|].
      * by rewrite app_nil_str, (bytes_append _ _ _ Ha).
      * exists (length (jn_mutableRecords j')). by rewrite take_ge.
    + exists j, u. split_and!; [done|done|done|]. exists (length (jn_mutableRecords j)). rewrite (appends_records _ _ _ Ha).
      by rewrite take_app_length.
Qed.

Lemma written_cut (j : RunJournal) (p t : string) :
  written hashFn j -> short j -> (p ++ t)%string = toBytes j -> exists j0 frag, kept j j0 p frag.
Proof.
  intros Hw. revert p t. induction Hw as [init j Hseq Hprev H|j j' op record Hw IH Hd H]; intros p t Hs Hp.
  - pose proof (new_closed init j Hseq Hprev H) as Hc.
    assert (Hempty : forall t', (p ++ t')%string = toBytes (empty_journal (init_sessionId init)) ->
      exists j0 frag, kept (empty_journal (init_sessionId init)) j0 p frag).
    { intros t' E. destruct p; [|done]. exists (empty_journal (init_sessionId init)), EmptyString. split_and!; try done. by exists 0%nat. }
    destruct (new_journal init j Hseq Hprev H) as [Hid [->|(input & record & Hi & _)]]; [by eapply Hempty|].
    pose proof (appends_started _ _ _ _ _ (tidy_empty _ Hid) Hi) as Ha.
    eapply (kept_cut _ _ record p t Hc); [by eapply written_new| |exact Ha|exact Hempty|done].
    apply Ha. cbn. done.
  - pose proof (written_tidy _ Hw) as Ht. pose proof (appends_op _ _ _ _ _ Ht Hd H) as Ha.
    pose proof (short_before _ _ _ Ha Hs) as Hs'. pose proof (written_followed _ Hw Hs') as Hfo.
    eapply (kept_cut _ _ record p t Hw); [by eapply written_op| |exact Ha|intros t' E; by eapply IH|done].
    apply Ha. rewrite (fo_seq _ Hfo). unfold short in Hs'. lia.
Qed.
End Simulation.

(** ** The journal reads back *)



(** ** A concrete journal *)

(** A hash of the right shape: the length of the bytes. *)
Definition length_hash (bytes : string) : option string :=
  let digits := int_text (Z.of_nat (String.length bytes)) in
  Some (string_of_list_ascii (repeat "0"%char (64 - String.length digits)) ++ digits)%string.

Definition sample_init : RunJournalConstructorInit :=
  {| init_sessionId := "session-1"; init_runId := "run-1"; init_sessionRevision := NumFin 1;
     init_timestamp := "2026-01-31T23:59:59.000Z"; init_openInitialRun := None; init_prevHash := None; init_seq := None |}.

Definition sample_audit : RunJournalAuditInput :=
  {| audit_event := ev_tool_timeout; audit_details := JsObj [("toolName", JsStr "bash"); ("timeoutMs", JsNum "1e3")];
     audit_sessionRevision := NumFin 2; audit_timestamp := "2026-01-31T23:59:59.500Z" |}.

Definition sample_terminal (t : SessionTermination) : RunJournalTerminalInput :=
  {| term_termination := termination_json t; term_sessionRevision := NumFin 2; term_timestamp := tm_timestamp t |}.

Definition then_op (op : RunJournalOp) (j : RunJournal) : option RunJournal :=
  match apply_op length_hash j op with
  | Ok (_, j') => if op_data op then Some j' else None
  | Err _ => None
  end.

Definition sample_journal (closed : bool) : option RunJournal :=
  match new_RunJournal length_hash sample_init with
  | Err _ => None
  | Ok j =>
      j ← then_op (op_audit sample_audit) j;
      t ← sample_termination "run-1" cause_completed observed None;
      if closed then then_op (op_finish (sample_terminal t)) j else Some j
  end.

Lemma then_op_written (op : RunJournalOp) (j j' : RunJournal) :
  written length_hash j -> then_op op j = Some j' -> written length_hash j'.
Proof.
  unfold then_op. intros Hw H. destruct (apply_op length_hash j op) as [[r j1]|] eqn:E; [|done].
  destruct (op_data op) eqn:Hd; [|done]. injection H as <-. by eapply written_op.
Qed.

Lemma sample_written (closed : bool) (j : RunJournal) : sample_journal closed = Some j -> written length_hash j.
Proof.
  unfold sample_journal. destruct (new_RunJournal length_hash sample_init) as [j0|] eqn:E; [|done].
  assert (H0 : written length_hash j0) by by eapply written_new, E.
  destruct (then_op _ j0) as [j1|] eqn:E1; [|done]. pose proof (then_op_written _ _ _ H0 E1) as H1. cbn [mbind option_bind].
  destruct (sample_termination _ _ _ _) as [t|]; [|done]. cbn [mbind option_bind]. destruct closed; [|by intros [= <-]].
  by apply then_op_written.
Qed.

Definition sample_ok (closed : bool) : option bool :=
  j ← sample_journal closed;
  report ← inspectRunJournal length_hash (toBytes j);
  Some (rp_ok report).

Lemma sample_short (closed : bool) :
  match sample_journal closed with
  | Some j => (Z.of_nat (length (jn_mutableRecords j)) <=? MAX_SAFE_INTEGER)
              && bool_decide (openRunId j = if closed then None else Some "run-1")
  | None => false
  end = true.
Proof. by destruct closed; vm_compute. Qed.


Definition sample_cut (n : nat) : option (bool * nat * nat) :=
  j ← sample_journal true;
  report ← inspectRunJournal length_hash (slice_to n (toBytes j));
  Some (rp_ok report, rp_lineCount report, rp_trailingByteCount report).


(** The sequence number is a double that is not checked after the first record:
    from the last safe integer the writer goes on to a record that the inspector
    drops. *)
Lemma sequence_overruns :
  match new_RunJournal length_hash
          {| init_sessionId := "session-1"; init_runId := "run-1"; init_sessionRevision := NumFin 1;
             init_timestamp := "2026-01-31T23:59:59.000Z"; init_openInitialRun := None; init_prevHash := None;
             init_seq := Some (NumFin (inject_Z MAX_SAFE_INTEGER)) |} with
  | Ok j =>
      match audit length_hash j sample_audit with
      | Ok (record, _) => bool_decide (rj_seq (rj_material record) = MAX_SAFE_INTEGER + 1)
                          && negb (is_ok (read_line 2 (record_json record)))
      | Err _ => false
      end
  | Err _ => false
  end = true.
Proof. vm_compute. reflexivity. Qed.
