(* ===== verification/JournalSafety.v ===== *)
(** * What an accepted journal guarantees

    A report of run-journal.ts without findings certifies the records it
    returns, whoever wrote the bytes: they form one hash chain from the genesis
    hash, numbered from zero, of one session, and their lifecycle events are
    whole runs one after the other. Two such journals with the same head are the
    same journal, or exhibit a collision of the hash function. *)

From Stdlib Require Import Ascii String ZArith Sorting Lia.
From stdpp Require Import base list option strings sorting.
From S2P Require Import Prelude JsString JsValue Json JsNumber CanonicalJson Utf8 SessionTermination JournalChecks RunJournal.
From S2P Require Import JournalInspector JournalReading JournalTermination JournalTheory.

Open Scope string_scope.
Open Scope list_scope.
Open Scope Z_scope.

(** ** Well-formed journals *)

Section Safety.
Context (hashFn : string -> option string).

(** Each record names the hash before it and the next number, and its hash is
    the one of its material, of the right shape. *)
Fixpoint chained (prev : string) (seq : Z) (rs : list RunJournalRecord) : Prop :=
  match rs with
  | [] => True
  | r :: rest =>
      rj_prevHash (rj_material r) = prev /\ rj_seq (rj_material r) = seq /\
      hashFn (utf8_encode (serializeRunJournalMaterial (material_json (rj_material r)))) = Some (rj_hash r) /\
      isValidHashShape (rj_hash r) = true /\ chained (rj_hash r) (seq + 1) rest
  end.

Definition head_hash (rs : list RunJournalRecord) : string := from_option rj_hash GENESIS_HASH (last rs).

Definition lifecycle (rs : list RunJournalRecord) : list RunJournalRecord :=
  List.filter (fun r => negb (is_audit (rj_event (rj_material r)))) rs.

Definition is_start (r : RunJournalRecord) : bool := bool_decide (rj_event (rj_material r) = run_started).

(** Runs, each a start and an end of the same id, one after the other. *)
Inductive bracketed : list RunJournalRecord -> Prop :=
| bracketed_nil : bracketed []
| bracketed_run (s t : RunJournalRecord) (rest : list RunJournalRecord) :
    is_start s = true -> is_terminal (rj_event (rj_material t)) = true ->
    rj_runId (rj_material t) = rj_runId (rj_material s) -> bracketed rest -> bracketed (s :: t :: rest).

Definition run_ids (rs : list RunJournalRecord) : list string :=
  map (fun r => rj_runId (rj_material r)) (List.filter is_start rs).

Record well_formed (rs : list RunJournalRecord) : Prop := {
  wf_valid : Forall record_valid rs;
  wf_chain : chained GENESIS_HASH 0 rs;
  wf_session : exists sessionId, Forall (fun r => rj_sessionId (rj_material r) = sessionId) rs;
  wf_revision : StronglySorted Z.le (map (fun r => rj_sessionRevision (rj_material r)) rs);
  wf_runs : bracketed (lifecycle rs);
  wf_distinct : NoDup (run_ids rs);
}.

(** ** A line that adds no finding *)

Lemma field_safe (key : string) (v : json) (z : Z) : safe_field key v = Some z -> 0 <= z <= MAX_SAFE_INTEGER.
Proof.
  unfold safe_field. destruct (jget key v) as [[]|]; try done. destruct (safe_integer literal) as [y|] eqn:E; [|done].
  apply safe_integer_bounds in E. destruct (Z.ltb_spec y 0); [done|]. intros [= <-]. lia.
Qed.

Lemma field_bounded (key s : string) (v : json) : bounded_field key v = Some s -> bounded_id s = true.
Proof.
  unfold bounded_field, bounded_id. destruct (jstr key v) as [w|]; [|done]. cbn. destruct (_ && _)%bool eqn:E; [|done].
  by intros [= <-].
Qed.

Lemma guard_Some {B} (b : bool) (k : unit -> option B) (x : B) : guard_opt b ≫= k = Some x -> b = true /\ k tt = Some x.
Proof. by destruct b. Qed.

Lemma shape_valid (v : json) (common : CommonShape) :
  validateCommonShape v = Some common ->
  0 <= cs_seq common <= MAX_SAFE_INTEGER /\ bounded_id (cs_runId common) = true /\
  bounded_id (cs_sessionId common) = true /\ 0 <= cs_sessionRevision common <= MAX_SAFE_INTEGER /\
  canonical_instant (cs_timestamp common) = true.
Proof.
  unfold validateCommonShape. destruct v as [| | | | |fields]; try done. cbv zeta.
  intros H. do 4 apply guard_Some in H as [_ H].
  apply bind_Some in H as (event & _ & H). apply bind_Some in H as (seq & Hseq%field_safe & H).
  apply bind_Some in H as (runId & Hrun%field_bounded & H). apply bind_Some in H as (sessionId & Hses%field_bounded & H).
  apply bind_Some in H as (revision & Hrev%field_safe & H). apply bind_Some in H as (timestamp & _ & H).
  apply guard_Some in H as [Hts H]. apply bind_Some in H as (prevHash & _ & H). apply bind_Some in H as (hash & _ & H).
  by injection H as <-.
Qed.

Lemma read_line_valid (line : nat) (v : json) (r : RunJournalRecord) :
  json_ok v = true -> read_line line v = Ok r -> record_valid r.
Proof.
  intros Hok H. unfold read_line in H. destruct (validateCommonShape v) as [common|] eqn:E; [|done].
  destruct (shape_valid v common E) as (? & ? & ? & ? & ?). cbv zeta in H.
  assert (Hp : payload_valid (rj_material r) /\ rj_seq (rj_material r) = cs_seq common /\
    rj_runId (rj_material r) = cs_runId common /\ rj_sessionId (rj_material r) = cs_sessionId common /\
    rj_sessionRevision (rj_material r) = cs_sessionRevision common /\ rj_timestamp (rj_material r) = cs_timestamp common).
  { destruct (is_audit (cs_event common)) eqn:Ea.
    - destruct (jget "details" v) as [details|] eqn:Ed; [|done].
      destruct (assertBoundedAuditDetails details) as [[]|] eqn:Eb; [|done]. injection H as <-. split_and!; try done.
      unfold payload_valid. cbn. rewrite Ea. split; [by eapply jget_ok|done].
    - destruct (is_terminal (cs_event common)) eqn:Et; [|injection H as <-; split_and!; try done; by apply started_not_other].
      destruct (jget "termination" v) as [termination|] eqn:Ed; [|done]. unfold probeTermination in H.
      destruct (assertBoundedSessionTermination _ _ _) as [[]|] eqn:Eb; [|done].
      destruct (isTerminalCoherentWithEvent _ _) eqn:Ec; [|done]. destruct (String.eqb_spec (cs_timestamp common) (text_of "timestamp" termination)); [|done].
      injection H as <-. split_and!; try done. unfold payload_valid. cbn. rewrite Ea. split; [by eapply jget_ok|done]. }
  destruct Hp as (Hp & E1 & E2 & E3 & E4 & E5). split; rewrite ?E1, ?E2, ?E3, ?E4, ?E5; done.
Qed.
Lemma if_nil_inv {A} (b : bool) (x : A) : (if b then [] else [x]) = [] -> b = true.
Proof. by destruct b. Qed.

Lemma chain_quiet (line : nat) (r : RunJournalRecord) (i : Inspection) :
  chain_findings hashFn line r i = [] ->
  rj_seq (rj_material r) = is_expectedSeq i /\ rj_prevHash (rj_material r) = is_lastHash i /\
  isValidHashShape (rj_hash r) = true /\
  hashFn (utf8_encode (serializeRunJournalMaterial (material_json (rj_material r)))) = Some (rj_hash r).
Proof.
  unfold chain_findings. cbv zeta. intros (H1 & (H2 & (H3 & H4)%app_eq_nil)%app_eq_nil)%app_eq_nil.
  apply if_nil_inv in H2, H3, H4. apply andb_true_iff in H2 as [H2 _]. apply String.eqb_eq in H4.
  destruct (Z.ltb_spec (is_expectedSeq i) (rj_seq (rj_material r))); [done|].
  destruct (Z.ltb_spec (rj_seq (rj_material r)) (is_expectedSeq i)); [done|].
  unfold recomputeOk in H3. destruct (hashFn _) as [h|]; [|done]. apply andb_true_iff in H3 as [_ ->%String.eqb_eq].
  split_and!; try done. lia.
Qed.

Lemma snoc_not_nil {A} (l : list A) (x : A) : l ++ [x] <> [].
Proof. by destruct l. Qed.

(** A step that ends without findings had none before and took a record. *)
Lemma step_quiet (i : Inspection) (line : nat) (v : json) :
  is_findings (inspect_line hashFn i (line, v)) = [] ->
  is_findings i = [] /\ exists r openRun starts ends,
    read_line line v = Ok r /\
    default (rj_sessionId (rj_material r)) (is_journalSessionId i) = rj_sessionId (rj_material r) /\
    is_lastRevision i <= rj_sessionRevision (rj_material r) /\ chain_findings hashFn line r i = [] /\
    run_event line (rj_material r) (is_openRun i) (is_seenStarts i) (is_terminatedRuns i) = (openRun, starts, ends, []) /\
    inspect_line hashFn i (line, v)
    = {| is_openRun := openRun; is_seenStarts := starts; is_terminatedRuns := ends; is_expectedSeq := rj_seq (rj_material r) + 1;
         is_lastHash := rj_hash r; is_journalSessionId := Some (rj_sessionId (rj_material r));
         is_lastRevision := rj_sessionRevision (rj_material r); is_validRecords := is_validRecords i ++ [r];
         is_findings := is_findings i |}.
Proof.
  unfold inspect_line. cbn [fst snd]. destruct (read_line line v) as [r|finding] eqn:Er; [|by intros ?%snoc_not_nil].
  intros H. pose proof H as Hq. unfold inspect_record in H. cbv zeta in H.
  destruct (String.eqb_spec (rj_sessionId (rj_material r)) (default (rj_sessionId (rj_material r)) (is_journalSessionId i))) as [Es|];
    [|by apply snoc_not_nil in H].
  cbn [negb is_lastRevision] in H. destruct (Z.ltb_spec (rj_sessionRevision (rj_material r)) (is_lastRevision i)); [by apply snoc_not_nil in H|].
  cbn [is_openRun is_seenStarts is_terminatedRuns] in H.
  destruct (run_event line (rj_material r) _ _ _) as [[[openRun starts] ends] fs] eqn:Ev. cbn [is_findings] in H.
  apply app_eq_nil in H as [Hf [Hc ->]%app_eq_nil]. split; [done|]. exists r, openRun, starts, ends.
  assert (Hc' : chain_findings hashFn line r i = []) by exact Hc. split_and!; try done.
  apply inspect_clean; try done. by apply (chain_quiet line r i).
Qed.

(** ** Extending a well-formed journal *)

Lemma head_snoc (rs : list RunJournalRecord) (r : RunJournalRecord) : head_hash (rs ++ [r]) = rj_hash r.
Proof. unfold head_hash. by rewrite last_snoc. Qed.

Lemma chained_snoc (rs : list RunJournalRecord) (r : RunJournalRecord) (prev : string) (seq : Z) :
  chained prev seq (rs ++ [r]) <->
  chained prev seq rs /\ chained (from_option rj_hash prev (last rs)) (seq + Z.of_nat (length rs)) [r].
Proof.
  revert prev seq. induction rs as [|x rs IH]; intros prev seq.
  - cbn [app chained last from_option length]. rewrite Z.add_0_r. tauto.
  - cbn [app]. change (chained prev seq (x :: rs ++ [r])) with
      (rj_prevHash (rj_material x) = prev /\ rj_seq (rj_material x) = seq /\
       hashFn (utf8_encode (serializeRunJournalMaterial (material_json (rj_material x)))) = Some (rj_hash x) /\
       isValidHashShape (rj_hash x) = true /\ chained (rj_hash x) (seq + 1) (rs ++ [r])).
    rewrite IH. replace (seq + 1 + Z.of_nat (length rs)) with (seq + Z.of_nat (length (x :: rs))) by (cbn [length]; lia).
    assert (E : from_option rj_hash (rj_hash x) (last rs) = from_option rj_hash prev (last (x :: rs))) by by destruct rs as [|y rs] using rev_ind;
      [|rewrite last_snoc, app_comm_cons, last_snoc].
    rewrite E. cbn [chained]. tauto.
Qed.

Lemma sorted_snoc (l : list Z) (z : Z) : StronglySorted Z.le l -> (forall x, x ∈ l -> x <= z) -> StronglySorted Z.le (l ++ [z]).
Proof.
  induction 1 as [|x l Hl IH Hx]; intros Hz; [by constructor; constructor|]. cbn [app]. constructor.
  - apply IH. intros y Hy. apply Hz. by right.
  - apply Forall_app. split; [done|]. apply Forall_singleton, Hz. left.
Qed.

Lemma bracketed_snoc (rs : list RunJournalRecord) (s t : RunJournalRecord) :
  bracketed rs -> is_start s = true -> is_terminal (rj_event (rj_material t)) = true ->
  rj_runId (rj_material t) = rj_runId (rj_material s) -> bracketed (rs ++ [s; t]).
Proof. intros H Hs Ht Hid. induction H; cbn [app]; constructor; try done. by constructor. Qed.

Lemma lifecycle_app (a b : list RunJournalRecord) : lifecycle (a ++ b) = lifecycle a ++ lifecycle b.
Proof. apply List.filter_app. Qed.

Lemma run_ids_app (a b : list RunJournalRecord) : run_ids (a ++ b) = run_ids a ++ run_ids b.
Proof. unfold run_ids. by rewrite List.filter_app, map_app. Qed.
Lemma run_ids_one (r : RunJournalRecord) : run_ids [r] = if is_start r then [rj_runId (rj_material r)] else [].
Proof. unfold run_ids. cbn [List.filter]. by destruct (is_start r). Qed.

Lemma lifecycle_one (r : RunJournalRecord) : lifecycle [r] = if is_audit (rj_event (rj_material r)) then [] else [r].
Proof. unfold lifecycle. cbn [List.filter]. by destruct (is_audit _). Qed.

(** ** The invariant of an inspection without findings *)

(** The lifecycle records are whole runs, or whole runs and the start of the
    open one. *)
Definition runs_state (rs : list RunJournalRecord) (openRun : option OpenRun) : Prop :=
  match openRun with
  | None => bracketed (lifecycle rs)
  | Some run =>
      exists closed s, lifecycle rs = closed ++ [s] /\ bracketed closed /\ is_start s = true /\
        rj_runId (rj_material s) = or_runId run
  end.

Record good (i : Inspection) : Prop := {
  gd_valid : Forall record_valid (is_validRecords i);
  gd_chain : chained GENESIS_HASH 0 (is_validRecords i);
  gd_head : is_lastHash i = head_hash (is_validRecords i);
  gd_seq : is_expectedSeq i = Z.of_nat (length (is_validRecords i));
  gd_session : Forall (fun r => is_journalSessionId i = Some (rj_sessionId (rj_material r))) (is_validRecords i);
  gd_sorted : StronglySorted Z.le (map (fun r => rj_sessionRevision (rj_material r)) (is_validRecords i));
  gd_revision : Forall (fun r => rj_sessionRevision (rj_material r) <= is_lastRevision i) (is_validRecords i);
  gd_runs : runs_state (is_validRecords i) (is_openRun i);
  gd_starts : is_seenStarts i = run_ids (is_validRecords i);
  gd_distinct : NoDup (run_ids (is_validRecords i));
}.

Lemma open_run_started (rs : list RunJournalRecord) (run : OpenRun) :
  runs_state rs (Some run) -> or_runId run ∈ run_ids rs.
Proof.
  intros (closed & s & Hl & _ & Hs & <-). apply list_elem_of_fmap. exists s. split; [done|].
  apply elem_of_filter_list. split; [|done].
  assert (H : s ∈ lifecycle rs) by (rewrite Hl; apply elem_of_app; right; left).
  by apply elem_of_filter_list in H as [? _].
Qed.

Lemma one_of_strings_iff (l : list string) (s : string) : one_of_strings l s = true <-> s ∈ l.
Proof. apply existsb_eqb_elem. Qed.

(** A quiet step of the run machine extends the bracketing. *)
Lemma run_quiet (line : nat) (r : RunJournalRecord) (rs : list RunJournalRecord) (o o' : option OpenRun)
    (starts ends : list string) (e : list string) :
  runs_state rs o -> NoDup (run_ids rs) ->
  run_event line (rj_material r) o (run_ids rs) e = (o', starts, ends, []) ->
  runs_state (rs ++ [r]) o' /\ starts = run_ids (rs ++ [r]) /\ NoDup (run_ids (rs ++ [r])).
Proof.
  intros Hs Hnd. unfold run_event. cbv zeta. rewrite run_ids_app, run_ids_one.
  destruct (is_audit (rj_event (rj_material r))) eqn:Ea.
  { intros [= <- <- <-]. assert (Hst : is_start r = false) by (unfold is_start; by destruct (rj_event (rj_material r))).
    rewrite Hst, !app_nil_r. split_and!; try done. unfold runs_state in *. by rewrite lifecycle_app, lifecycle_one, Ea, app_nil_r. }
  fold (is_start r). assert (Hl : lifecycle (rs ++ [r]) = lifecycle rs ++ [r]).
  { by rewrite lifecycle_app, lifecycle_one, Ea. }
  destruct (is_start r) eqn:Est.
  - destruct (one_of_strings (run_ids rs) _) eqn:Eo; [by destruct o|].
    assert (Hn : rj_runId (rj_material r) ∉ run_ids rs) by (by rewrite <- one_of_strings_iff, Eo).
    destruct o as [run|]; cbn [app].
    + destruct (String.eqb_spec (or_runId run) (rj_runId (rj_material r))) as [E|]; [|done].
      exfalso. apply Hn. rewrite <- E. by apply open_run_started.
    + intros [= <- <- <-]. split_and!; [|done|].
      * exists (lifecycle rs), r. by rewrite Hl.
      * apply NoDup_app. split_and!; [done|by intros x Hx ->%list_elem_of_singleton|by apply NoDup_singleton].
  - rewrite app_nil_r. destruct (one_of_strings e _); [done|]. destruct o as [run|]; [|done].
    destruct (String.eqb_spec (or_runId run) (rj_runId (rj_material r))) as [E|]; [|done]. intros [= <- <- <-].
    split_and!; try done. destruct Hs as (closed & s & Hc & Hb & Hst & Hid). cbn [runs_state]. rewrite Hl, Hc, <- app_assoc.
    apply bracketed_snoc; try done; [|congruence]. unfold is_start in Est. by destruct (rj_event (rj_material r)).
Qed.

Lemma good_initial (fs : list RunJournalFinding) : good (initial fs).
Proof. split; cbn; try done; constructor. Qed.

Lemma good_step (i : Inspection) (line : nat) (v : json) :
  json_ok v = true -> good i -> is_findings (inspect_line hashFn i (line, v)) = [] -> good (inspect_line hashFn i (line, v)).
Proof.
  intros Hok Hg H. destruct (step_quiet i line v H) as (_ & r & o & starts & ends & Hr & Hsid & Hrev & Hc & Hrun & ->).
  destruct (chain_quiet _ _ _ Hc) as (Hseq & Hprev & Hshape & Hhash). pose proof (read_line_valid _ _ _ Hok Hr) as Hv.
  rewrite (gd_starts _ Hg) in Hrun. destruct (run_quiet _ _ _ _ _ _ _ _ (gd_runs _ Hg) (gd_distinct _ Hg) Hrun) as (H1 & H2 & H3).
  split; cbn [is_validRecords is_lastHash is_expectedSeq is_journalSessionId is_lastRevision is_openRun is_seenStarts]; try done.
  - apply Forall_app. split; [apply Hg|by apply Forall_singleton].
  - apply chained_snoc. split; [apply Hg|]. cbn [chained]. rewrite Hseq, Hprev, (gd_seq _ Hg), (gd_head _ Hg). split_and!; try done.
  - by rewrite head_snoc.
  - rewrite Hseq, (gd_seq _ Hg), length_app. cbn [length]. lia.
  - apply Forall_app. split; [|by apply Forall_singleton]. eapply Forall_impl; [apply (gd_session _ Hg)|].
    intros x Hx. cbn beta in Hx. rewrite Hx in Hsid. cbn in Hsid. by rewrite Hsid.
  - rewrite map_app. apply sorted_snoc; [apply Hg|]. intros z (x & -> & Hx)%list_elem_of_fmap.
    pose proof (gd_revision _ Hg) as Hle. rewrite Forall_forall in Hle. specialize (Hle x Hx). cbn beta in Hle. lia.
  - apply Forall_app. split; [|apply Forall_singleton; lia]. eapply Forall_impl; [apply (gd_revision _ Hg)|]. cbn beta. lia.
Qed.

Lemma findings_grow (vs : list (nat * json)) (i : Inspection) :
  is_findings (foldl (inspect_line hashFn) i vs) = [] -> is_findings i = [].
Proof.
  revert i. induction vs as [|[line v] vs IH]; intros i H; [done|]. cbn [foldl] in H. apply IH in H. by apply step_quiet in H as [? _].
Qed.

Lemma good_fold (vs : list (nat * json)) (i : Inspection) :
  Forall (fun nv => json_ok (snd nv) = true) vs -> good i -> is_findings (foldl (inspect_line hashFn) i vs) = [] ->
  good (foldl (inspect_line hashFn) i vs) /\
  length (is_validRecords (foldl (inspect_line hashFn) i vs)) = (length (is_validRecords i) + length vs)%nat.
Proof.
  revert i. induction vs as [|[line v] vs IH]; intros i Hok Hg H; [by rewrite Nat.add_0_r|]. cbn [foldl] in H |- *.
  apply Forall_cons in Hok as [Hv Hok]. cbn [snd] in Hv. pose proof (findings_grow _ _ H) as Hq.
  destruct (IH _ Hok (good_step _ _ _ Hv Hg Hq) H) as [H1 H2]. split; [done|]. rewrite H2.
  destruct (step_quiet i line v Hq) as (_ & r & o & starts & ends & _ & _ & _ & _ & _ & ->). cbn [is_validRecords length].
  rewrite length_app. cbn [length]. lia.
Qed.
End Safety.

(** ** Reports without findings *)

Lemma parse_lines_clean (lines : list string) (line : nat) (values : list (nat * json)) :
  parse_lines line lines = (values, []) ->
  length values = length lines /\ Forall (fun nv => json_ok (snd nv) = true) values.
Proof.
  revert line values. induction lines as [|text lines IH]; intros line values; cbn [parse_lines]; [by intros [= <-]|].
  destruct (parse_lines (S line) lines) as [vs fs] eqn:E.
  destruct (if is_empty (trim text) then None else json_parse text) as [v|] eqn:Ev; [|done]. intros [= <- ->].
  destruct (IH _ _ E) as [Hl Hok]. cbn [length]. rewrite Hl. split; [done|]. apply Forall_cons. split; [|done].
  cbn [snd]. destruct (is_empty (trim text)); [done|]. by eapply json_parse_ok.
Qed.

Lemma text_ok (hashFn : string -> option string) (complete trailing : string) (lines : list string)
    (fs : list RunJournalFinding) :
  rp_ok (inspect_text hashFn complete trailing lines fs) = true ->
  let report := inspect_text hashFn complete trailing lines fs in
  fs = [] /\ rp_openRunId report = None /\ length (rp_records report) = rp_lineCount report /\
  well_formed hashFn (rp_records report).
Proof.
  unfold inspect_text. destruct (parse_lines 1 lines) as [values malformed] eqn:E. cbn [rp_ok rp_openRunId rp_records rp_lineCount].
  rewrite bool_decide_eq_true. intros [Hf Ho]%app_eq_nil. pose proof (findings_grow _ _ _ Hf) as H0. cbn [initial is_findings] in H0.
  apply app_eq_nil in H0 as [-> ->]. destruct (parse_lines_clean _ _ _ E) as [Hl Hok].
  destruct (good_fold hashFn values (initial ([] ++ [])) Hok (good_initial _ _) Hf) as [Hg Hlen].
  destruct (is_openRun _) as [run|] eqn:Er; [done|]. split_and!; [done|done|by rewrite Hlen, Hl|].
  split; try apply Hg.
  - destruct (is_journalSessionId (foldl (inspect_line hashFn) (initial ([] ++ [])) values)) as [sid|] eqn:Es.
    + exists sid. eapply Forall_impl; [apply (gd_session _ _ Hg)|]. cbn beta. intros r Hr. congruence.
    + exists EmptyString. eapply Forall_impl; [apply (gd_session _ _ Hg)|]. cbn beta. intros r Hr. congruence.
  - pose proof (gd_runs _ _ Hg) as Hr. by rewrite Er in Hr.
Qed.

Lemma accepted_facts (hashFn : string -> option string) (bytes : string) (report : RunJournalReport) :
  inspectRunJournal hashFn bytes = Some report -> rp_ok report = true ->
  rp_findings report = [] /\ rp_trailingByteCount report = 0%nat /\ rp_openRunId report = None /\
  length (rp_records report) = rp_lineCount report /\ well_formed hashFn (rp_records report).
Proof.
  intros Hr Hok. assert (Hfs : rp_findings report = []).
  { revert Hok. unfold inspectRunJournal in Hr. destruct (split_complete bytes) as [complete trailing].
    destruct (is_empty complete); [|destruct (utf8_decode complete); [|done|]]; injection Hr as <-; unfold inspect_text;
      destruct (parse_lines _ _); cbn [rp_ok rp_findings]; by rewrite bool_decide_eq_true. }
  unfold inspectRunJournal in Hr. destruct (split_complete bytes) as [complete trailing].
  assert (Ht : forall lines fs, report = inspect_text hashFn complete trailing lines
      ((if is_empty trailing then [] else [bare trailing_fragment]) ++ fs) ->
    rp_trailingByteCount report = 0%nat /\ rp_openRunId report = None /\
    length (rp_records report) = rp_lineCount report /\ well_formed hashFn (rp_records report)).
  { intros lines fs ->. destruct (text_ok _ _ _ _ _ Hok) as ((Hf & ->)%app_eq_nil & Ho & Hl & Hw). split_and!; try done.
    unfold inspect_text. destruct (parse_lines _ _). cbn [rp_trailingByteCount]. by destruct trailing. }
  split; [done|]. destruct (is_empty complete).
  - injection Hr as <-. eapply (Ht _ []). by rewrite app_nil_r.
  - destruct (utf8_decode complete); [|done|]; injection Hr as <-; [by eapply Ht|]. eapply (Ht _ []). by rewrite app_nil_r.
Qed.

(** An accepted journal is a well-formed one. Whatever the bytes, a report
    without findings means that every line gave a record, nothing follows the
    last line and no run is open, and that the records are valid, chained by
    their recomputed hashes from the genesis hash and numbered from zero, of one
    session with revisions that do not regress, and that their lifecycle events
    are whole runs, one after the other and of distinct ids. *)
Theorem accepted_is_well_formed (hashFn : string -> option string) (bytes : string) (report : RunJournalReport)
    (Hr : inspectRunJournal hashFn bytes = Some report) (Hok : rp_ok report = true) :
  rp_findings report = [] /\ rp_trailingByteCount report = 0%nat /\ rp_openRunId report = None /\
  length (rp_records report) = rp_lineCount report /\ well_formed hashFn (rp_records report).
Proof. by apply (accepted_facts hashFn bytes). Qed.

(** ** Well-formed journals are accepted *)

Section Complete.
Context (hashFn : string -> option string).

Lemma stored_lifecycle (rs : list RunJournalRecord) : lifecycle (map stored rs) = map stored (lifecycle rs).
Proof.
  induction rs as [|r rs IH]; [done|]. unfold lifecycle in *. cbn [map List.filter stored rj_material rj_event].
  destruct (negb (is_audit (rj_event (rj_material r)))); cbn [map]; by rewrite IH.
Qed.

Lemma stored_run_ids (rs : list RunJournalRecord) : run_ids (map stored rs) = run_ids rs.
Proof.
  induction rs as [|r rs IH]; [done|]. unfold run_ids in *. cbn [map List.filter]. change (is_start (stored r)) with (is_start r).
  destruct (is_start r); cbn [map]; by rewrite IH.
Qed.

Lemma stored_bracketed (rs : list RunJournalRecord) : bracketed (map stored rs) -> bracketed rs.
Proof.
  intros H. remember (map stored rs) as l eqn:E. revert rs E. induction H as [|s t rest Hs Ht Hid H IH]; intros rs E.
  - destruct rs; [constructor|done].
  - destruct rs as [|s' [|t' rs]]; try done. injection E as -> -> ->. constructor; try done. by apply IH.
Qed.

Lemma stored_chained (rs : list RunJournalRecord) (prev : string) (seq : Z) :
  Forall record_valid rs -> chained hashFn prev seq (map stored rs) -> chained hashFn prev seq rs.
Proof.
  intros Hv. revert prev seq. induction Hv as [|r rs Hr Hv IH]; intros prev seq; [done|]. cbn [map chained].
  rewrite stored_material by done. intros (H1 & H2 & H3 & H4 & H5). split_and!; try done. by apply IH.
Qed.

Lemma stored_well_formed (rs : list RunJournalRecord) :
  Forall record_valid rs -> well_formed hashFn (map stored rs) -> well_formed hashFn rs.
Proof.
  intros Hv [_ Hc (sid & Hs) Hr Hb Hd]. split; [done| | | | |].
  - by apply stored_chained.
  - exists sid. rewrite Forall_map in Hs. exact Hs.
  - rewrite map_map in Hr. exact Hr.
  - rewrite stored_lifecycle in Hb. by apply stored_bracketed.
  - by rewrite stored_run_ids in Hd.
Qed.

(** The lifecycle records still to come, from the open run on. *)
Definition bracketed_from (o : option OpenRun) (rs : list RunJournalRecord) : Prop :=
  match o with
  | None => bracketed rs
  | Some run =>
      exists t rest, rs = t :: rest /\ is_terminal (rj_event (rj_material t)) = true /\
        rj_runId (rj_material t) = or_runId run /\ bracketed rest
  end.

(** The ends seen are of runs started and closed. *)
Definition ends_started (o : option OpenRun) (starts ends : list string) : Prop :=
  (forall x, x ∈ ends -> x ∈ starts) /\
  match o with
  | Some run => or_runId run ∈ starts /\ or_runId run ∉ ends
  | None => True
  end.

Lemma run_accepts (line : nat) (r : RunJournalRecord) (o : option OpenRun) (starts ends : list string)
    (rest : list RunJournalRecord) :
  bracketed_from o (lifecycle (r :: rest)) -> ends_started o starts ends -> NoDup (starts ++ run_ids (r :: rest)) ->
  exists o' starts' ends', run_event line (rj_material r) o starts ends = (o', starts', ends', []) /\
    bracketed_from o' (lifecycle rest) /\ ends_started o' starts' ends' /\ NoDup (starts' ++ run_ids rest).
Proof.
  intros Hb [He Ho] Hnd. change (r :: rest) with ([r] ++ rest) in Hb, Hnd. rewrite lifecycle_app, lifecycle_one in Hb.
  rewrite run_ids_app, run_ids_one in Hnd. unfold run_event. cbv zeta.
  destruct (is_audit (rj_event (rj_material r))) eqn:Ea.
  { assert (Hst : is_start r = false) by (unfold is_start; by destruct (rj_event (rj_material r))). rewrite Hst in Hnd.
    by exists o, starts, ends. }
  fold (is_start r). destruct (is_start r) eqn:Est.
  - assert (Hn : rj_runId (rj_material r) ∉ starts).
    { apply NoDup_app in Hnd as (_ & Hd & _). intros Hin. apply (Hd _ Hin). left. }
    assert (Hof : one_of_strings starts (rj_runId (rj_material r)) = false)
      by (apply not_true_iff_false; by rewrite one_of_strings_iff).
    rewrite Hof. destruct o as [run|].
    + destruct Hb as (t & rest' & [= <- _] & Ht & _). unfold is_start in Est. by destruct (rj_event (rj_material r)).
    + do 3 eexists. split_and!; [done| |split|by rewrite <- app_assoc].
      * cbn in Hb. inversion Hb as [|s t rest' Hs Ht Hid Hrest]; subst. by exists t, rest'.
      * intros x Hx. apply elem_of_app. left. by apply He.
      * cbn [or_runId]. split; [apply elem_of_app; right; left|]. intros Hx. by apply Hn, He.
  - cbn [app] in Hnd. destruct o as [run|].
    + destruct Hb as (t & rest' & [= <- ->] & Ht & Hid & Hb). destruct Ho as [Ho1 Ho2]. rewrite Hid.
      assert (Hof : one_of_strings ends (or_runId run) = false) by (apply not_true_iff_false; by rewrite one_of_strings_iff).
      rewrite Hof, String.eqb_refl. do 3 eexists. split_and!; [done|done|split; [|done]|done].
      intros x [Hx| ->%list_elem_of_singleton]%elem_of_app; [by apply He|done].
    + cbn in Hb. inversion Hb as [|s t rest' Hs Ht Hid Hrest]; subst. by rewrite Hs in Est.
Qed.

Lemma fold_accepts (rs : list RunJournalRecord) (line : nat) (i : Inspection) (sid : string) :
  Forall record_valid rs ->
  chained hashFn (is_lastHash i) (is_expectedSeq i) rs -> isValidHashShape (is_lastHash i) = true ->
  default sid (is_journalSessionId i) = sid -> Forall (fun r => rj_sessionId (rj_material r) = sid) rs ->
  StronglySorted Z.le (is_lastRevision i :: map (fun r => rj_sessionRevision (rj_material r)) rs) ->
  bracketed_from (is_openRun i) (lifecycle rs) -> ends_started (is_openRun i) (is_seenStarts i) (is_terminatedRuns i) ->
  NoDup (is_seenStarts i ++ run_ids rs) ->
  let i' := foldl (inspect_line hashFn) i (zip_with pair (seq line (length rs)) (map (fun r => canon (record_json r)) rs)) in
  is_findings i' = is_findings i /\ is_openRun i' = None.
Proof.
  revert line i. induction rs as [|r rs IH]; intros line i Hv Hc Hsh Hsid Hs Hrev Hb He Hnd; cbv zeta.
  - split; [done|]. cbn. destruct (is_openRun i); [|done]. by destruct Hb as (t & rest & [=] & _).
  - apply Forall_cons in Hv as [Hr Hv], Hs as [Hs1 Hs]. destruct Hc as (Hp & Hq & Hh & Hshape & Hc).
    destruct (run_accepts line r _ _ _ _ Hb He Hnd) as (o & starts & ends & Hrun & Hb' & He' & Hnd').
    inversion Hrev as [|x l Hrev' Hle]; subst x l. cbn [map] in Hle, Hrev'. apply Forall_cons in Hle as [Hle Hall].
    cbn [map length seq zip_with foldl].
    assert (E : inspect_line hashFn i (line, canon (record_json r))
      = {| is_openRun := o; is_seenStarts := starts; is_terminatedRuns := ends; is_expectedSeq := rj_seq (rj_material r) + 1;
           is_lastHash := rj_hash r; is_journalSessionId := Some (rj_sessionId (rj_material r));
           is_lastRevision := rj_sessionRevision (rj_material r); is_validRecords := is_validRecords i ++ [stored r];
           is_findings := is_findings i |}).
    { unfold inspect_line. cbn [fst snd]. rewrite read_line_canon, read_record by (try apply record_json_ok; done).
      apply (inspect_clean hashFn line (stored r) i o starts ends).
      - cbn [stored rj_material rj_sessionId]. destruct (is_journalSessionId i); [by rewrite Hs1|done].
      - done.
      - done.
      - apply chain_clean; [exact Hq|exact Hshape| | |exact Hp].
        + change (isValidHashShape (rj_prevHash (rj_material r)) = true). by rewrite Hp.
        + rewrite recompute_stored by done. unfold recomputeOk. by rewrite Hh, Hshape, String.eqb_refl.
      - exact Hrun. }
    rewrite E. clear E. match goal with |- context [foldl _ ?x _] => set (i2 := x) end.
    change (is_findings i) with (is_findings i2). apply (IH (S line) i2); try done. cbn [i2 is_lastHash is_expectedSeq]. by rewrite Hq.
Qed.
End Complete.

(** ** The two directions *)

Section Exact.
Context (hashFn : string -> option string).

Lemma quiet_records (rs : list RunJournalRecord) (line : nat) (i : Inspection) :
  Forall record_valid rs ->
  let i' := foldl (inspect_line hashFn) i (zip_with pair (seq line (length rs)) (map (fun r => canon (record_json r)) rs)) in
  is_findings i' = [] -> is_validRecords i' = is_validRecords i ++ map stored rs.
Proof.
  intros Hv. revert line i. induction Hv as [|r rs Hr Hv IH]; intros line i; cbv zeta; [by rewrite app_nil_r|].
  cbn [map length seq zip_with foldl]. intros H. rewrite (IH (S line) _ H). pose proof (findings_grow _ _ _ H) as Hq.
  destruct (step_quiet hashFn i line _ Hq) as (_ & r' & o & starts & ends & Hread & _ & _ & _ & _ & ->).
  rewrite read_line_canon, read_record in Hread by (try apply record_json_ok; done). injection Hread as <-.
  cbn [is_validRecords]. by rewrite <- app_assoc.
Qed.

Lemma genesis_shape : isValidHashShape GENESIS_HASH = true.
Proof. vm_compute. reflexivity. Qed.

Lemma well_formed_quiet (rs : list RunJournalRecord) :
  well_formed hashFn rs ->
  rp_ok (inspect_text hashFn (utf8_encode (text_lines (map line_of rs))) EmptyString (map line_of rs) []) = true.
Proof.
  intros [Hv Hc (sid & Hs) Hr Hb Hd]. unfold inspect_text. rewrite parse_numbered by done. cbn [rp_ok app].
  destruct (fold_accepts hashFn rs 1 (initial []) sid) as [H1 H2]; cbn [initial is_lastHash is_expectedSeq is_journalSessionId
    is_lastRevision is_openRun is_seenStarts is_terminatedRuns default bracketed_from]; try done.
  - constructor; [done|]. apply Forall_map. eapply Forall_impl; [exact Hv|]. intros r [_ _ _ H _ _]. lia.
  - by rewrite H1, H2.
Qed.
End Exact.

(** The inspector decides well-formedness. The lines of valid records are
    accepted if and only if they form one chain and one session of whole runs. *)
Theorem inspector_decides (hashFn : string -> option string) (rs : list RunJournalRecord)
    (Hv : Forall record_valid rs) :
  from_option rp_ok false (inspectRunJournal hashFn (utf8_encode (text_lines (map line_of rs)))) = true
  <-> well_formed hashFn rs.
Proof.
  rewrite <- (app_nil_str (utf8_encode _)), inspect_bytes by done. cbn [from_option is_empty]. split.
  - intros H. apply stored_well_formed; [done|]. destruct (text_ok _ _ _ _ _ H) as (_ & _ & _ & Hw). revert H Hw.
    unfold inspect_text. rewrite parse_numbered by done. cbn [rp_ok rp_records app]. rewrite bool_decide_eq_true.
    intros [Hf _]%app_eq_nil. by rewrite quiet_records.
  - apply well_formed_quiet.
Qed.

(** ** Tamper evidence *)

Lemma utf8_encode_inj (s t : string) : utf8_encode s = utf8_encode t -> s = t.
Proof. intros H. apply (f_equal utf8_decode) in H. rewrite !utf8_round_trip in H. by injection H. Qed.

Lemma material_json_ok (r : RunJournalRecord) : record_valid r -> json_ok (material_json (rj_material r)) = true.
Proof.
  intros [_ _ _ _ _ H]. unfold material_json. unfold payload_valid in H. destruct (rj_payload _) as [payload|].
  - destruct H as [H _]. cbn [app json_ok forallb snd]. rewrite !int_text_number, H.
    cbn [andb number_ok]. unfold payload_key. by destruct (is_terminal _).
  - cbn [app json_ok forallb snd]. by rewrite !int_text_number.
Qed.

(** Objects with the same canonical form keep it under a further field. *)
Lemma canon_extend (a b : list (string * json)) (kv : string * json) :
  json_ok (JsObj (a ++ [kv])) = true -> canon (JsObj a) = canon (JsObj b) ->
  canon (JsObj (a ++ [kv])) = canon (JsObj (b ++ [kv])).
Proof.
  rewrite json_ok_fields. intros [_ Hnd]. cbn [canon]. intros [= E]. f_equal. rewrite !map_app.
  assert (Hp : map (fun kv => (fst kv, canon (snd kv))) a ≡ₚ map (fun kv => (fst kv, canon (snd kv))) b).
  { rewrite <- (stable_sort_perm by_key (map _ a)), <- (stable_sort_perm by_key (map _ b)). by rewrite E. }
  apply stable_sort_perm_eq; [apply by_key_antisym|apply by_key_trans| |by rewrite Hp].
  intros x y. apply keys_distinct. rewrite <- map_app. by rewrite keys_map.
Qed.

Lemma number_text_safe (a b : string) : number_text a = number_text b -> safe_integer a = safe_integer b.
Proof. intros H. by rewrite <- (safe_integer_number_text a), H, safe_integer_number_text. Qed.

(** The material determines the number, the hash before, and with the hash the
    line. *)
Lemma same_material (x y : RunJournalRecord) :
  record_valid x -> record_valid y ->
  serializeRunJournalMaterial (material_json (rj_material x)) = serializeRunJournalMaterial (material_json (rj_material y)) ->
  rj_seq (rj_material x) = rj_seq (rj_material y) /\ rj_prevHash (rj_material x) = rj_prevHash (rj_material y) /\
  (rj_hash x = rj_hash y -> line_of x = line_of y).
Proof.
  intros Hx Hy. unfold serializeRunJournalMaterial. rewrite !strip_material.
  intros H%canonicalJson_inj; [|by apply material_json_ok..].
  assert (Hget : forall k, canon <$> jget k (material_json (rj_material x)) = canon <$> jget k (material_json (rj_material y)))
    by (intros k; rewrite <- !jget_canon, H by (by apply material_json_ok); done).
  split_and!.
  - pose proof (Hget "seq") as Hs. unfold material_json in Hs. cbn in Hs. injection Hs as Hs%number_text_safe.
    rewrite !safe_integer_text in Hs by (apply Hx || apply Hy). by injection Hs.
  - pose proof (Hget "prevHash") as Hs. unfold material_json in Hs. cbn in Hs. by injection Hs.
  - intros Hh. unfold line_of, serializeRunJournalLine. rewrite !canonicalJson_print. f_equal.
    pose proof (record_json_ok x Hx) as Hok. unfold record_json in *. rewrite <- Hh.
    destruct (material_json (rj_material x)) as [| | | | |a] eqn:Ea; try done.
    destruct (material_json (rj_material y)) as [| | | | |b] eqn:Eb; try done. by apply canon_extend.
Qed.

(** Two different texts among the materials of the journals, with one hash. *)
Definition collision (hashFn : string -> option string) (xs ys : list RunJournalRecord) : Prop :=
  exists x y, x ∈ xs /\ y ∈ ys /\
    let text r := utf8_encode (serializeRunJournalMaterial (material_json (rj_material r))) in
    text x <> text y /\ hashFn (text x) = hashFn (text y) /\ hashFn (text x) <> None.

Lemma chained_last (hashFn : string -> option string) (rs : list RunJournalRecord) (r : RunJournalRecord) :
  chained hashFn GENESIS_HASH 0 (rs ++ [r]) ->
  chained hashFn GENESIS_HASH 0 rs /\ rj_prevHash (rj_material r) = head_hash rs /\
  rj_seq (rj_material r) = Z.of_nat (length rs) /\
  hashFn (utf8_encode (serializeRunJournalMaterial (material_json (rj_material r)))) = Some (rj_hash r).
Proof. intros (H & Hp & Hq & Hh & _)%chained_snoc. rewrite Z.add_0_l in Hq. done. Qed.

Lemma collision_app (hashFn : string -> option string) (xs ys xs' ys' : list RunJournalRecord) :
  collision hashFn xs ys -> collision hashFn (xs ++ xs') (ys ++ ys').
Proof.
  intros (x & y & Hx & Hy & H). exists x, y. rewrite !elem_of_app. split_and!; [by left|by left|..]; apply H.
Qed.

Lemma heads_agree (hashFn : string -> option string) (xs ys : list RunJournalRecord) :
  Forall record_valid xs -> Forall record_valid ys -> chained hashFn GENESIS_HASH 0 xs -> chained hashFn GENESIS_HASH 0 ys ->
  length xs = length ys -> head_hash xs = head_hash ys ->
  map line_of xs = map line_of ys \/ collision hashFn xs ys.
Proof.
  revert ys. induction xs as [|x xs IH] using rev_ind; intros ys Hvx Hvy Hcx Hcy Hl Hh; [left; by destruct ys|].
  destruct ys as [|y ys _] using rev_ind; [rewrite length_app in Hl; cbn in Hl; lia|].
  rewrite !length_app in Hl. cbn [length] in Hl. rewrite !head_snoc in Hh.
  apply Forall_app in Hvx as [Hvx Hx], Hvy as [Hvy Hy]. rewrite Forall_singleton in Hx, Hy.
  apply chained_last in Hcx as (Hcx & Hpx & _ & Hhx), Hcy as (Hcy & Hpy & _ & Hhy).
  destruct (decide (utf8_encode (serializeRunJournalMaterial (material_json (rj_material x)))
                    = utf8_encode (serializeRunJournalMaterial (material_json (rj_material y))))) as [E|E].
  - apply utf8_encode_inj in E. destruct (same_material x y Hx Hy E) as (_ & Hp & Hline).
    destruct (IH ys Hvx Hvy Hcx Hcy ltac:(lia) ltac:(congruence)) as [H|H]; [left|right; by apply collision_app].
    rewrite !map_app, H. cbn [map]. by rewrite Hline.
  - right. exists x, y. cbv zeta. rewrite !elem_of_app. split_and!; [right; left|right; left|exact E|congruence|congruence].
Qed.

(** The head pins the journal. Two accepted journals with records and with
    the same last hash hold the same records, line by line, unless they exhibit
    a collision of the hash function. *)
Theorem head_pins_journal (hashFn : string -> option string) (bytes bytes' : string) (report report' : RunJournalReport)
    (Hr : inspectRunJournal hashFn bytes = Some report) (Hok : rp_ok report = true)
    (Hr' : inspectRunJournal hashFn bytes' = Some report') (Hok' : rp_ok report' = true)
    (Hne : rp_records report <> []) (Hne' : rp_records report' <> [])
    (Hhead : head_hash (rp_records report) = head_hash (rp_records report')) :
  map line_of (rp_records report) = map line_of (rp_records report')
  \/ collision hashFn (rp_records report) (rp_records report').
Proof.
  destruct (accepted_facts _ _ _ Hr Hok) as (_ & _ & _ & _ & [Hv Hc _ _ _ _]).
  destruct (accepted_facts _ _ _ Hr' Hok') as (_ & _ & _ & _ & [Hv' Hc' _ _ _ _]).
  clear Hr Hr' Hok Hok'. remember (rp_records report) as xs eqn:Exs. remember (rp_records report') as ys eqn:Eys. clear Exs Eys.
  destruct xs as [|x xs _] using rev_ind; [done|]. destruct ys as [|y ys _] using rev_ind; [done|].
  pose proof (chained_last _ _ _ Hc) as (_ & _ & Hqx & Hhx). pose proof (chained_last _ _ _ Hc') as (_ & _ & Hqy & Hhy).
  pose proof Hhead as Hh. rewrite !head_snoc in Hh.
  destruct (decide (utf8_encode (serializeRunJournalMaterial (material_json (rj_material x)))
                    = utf8_encode (serializeRunJournalMaterial (material_json (rj_material y))))) as [E|E].
  - apply utf8_encode_inj in E. apply heads_agree; try done. rewrite Forall_app in Hv, Hv'.
    rewrite !Forall_singleton in Hv, Hv'. destruct (same_material x y ltac:(apply Hv) ltac:(apply Hv') E) as (Hq & _).
    rewrite !length_app. cbn [length]. lia.
  - right. exists x, y. cbv zeta. rewrite !elem_of_app. split_and!; [right; left|right; left|exact E|congruence|congruence].
Qed.

(** ** The concrete journal *)

(** The report on the sample journal's bytes after some leading space. *)
Definition sample_report (space : string) : option RunJournalReport :=
  j ← sample_journal true;
  inspectRunJournal length_hash (space ++ toBytes j)%string.

Lemma sample_report_ok (space : string) (report : RunJournalReport) :
  sample_report space = Some report ->
  exists bytes, inspectRunJournal length_hash bytes = Some report.
Proof. unfold sample_report. destruct (sample_journal true) as [j|]; [|done]. cbn [mbind option_bind]. intros H. by eexists. Qed.

Lemma sample_accepted (space : string) :
  space = EmptyString \/ space = " " ->
  match sample_report space with
  | Some report => rp_ok report && (rp_lineCount report =? 3)%nat && (length (rp_records report) =? 3)%nat
                   && String.eqb (head_hash (rp_records report)) (head_hash (from_option rp_records [] (sample_report EmptyString)))
  | None => false
  end = true.
Proof. intros [->| ->]; vm_compute; reflexivity. Qed.

Lemma accepted_is_well_formed_witness :
  match sample_report EmptyString with
  | Some report => length (rp_records report) = 3%nat /\ well_formed length_hash (rp_records report)
  | None => False
  end.
Proof.
  pose proof (sample_accepted EmptyString ltac:(by left)) as H. destruct (sample_report EmptyString) as [report|] eqn:E; [|discriminate H].
  destruct (sample_report_ok _ _ E) as [bytes Hb]. rewrite !andb_true_iff, !Nat.eqb_eq in H. destruct H as [[[Hok Hl] Hn] _].
  split; [done|]. apply (accepted_is_well_formed length_hash bytes report Hb Hok).
Defined.

Lemma inspector_decides_witness :
  match sample_report EmptyString with
  | Some report =>
      from_option rp_ok false (inspectRunJournal length_hash (utf8_encode (text_lines (map line_of (rp_records report))))) = true
  | None => False
  end.
Proof.
  pose proof (sample_accepted EmptyString ltac:(by left)) as H. destruct (sample_report EmptyString) as [report|] eqn:E; [|discriminate H].
  destruct (sample_report_ok _ _ E) as [bytes Hb]. rewrite !andb_true_iff in H. destruct H as [[[Hok _] _] _].
  destruct (accepted_facts _ _ _ Hb Hok) as (_ & _ & _ & _ & Hw). apply inspector_decides; [apply Hw|exact Hw].
Defined.

Lemma head_pins_journal_witness :
  match sample_report EmptyString, sample_report " " with
  | Some report, Some report' =>
      map line_of (rp_records report) = map line_of (rp_records report')
      \/ collision length_hash (rp_records report) (rp_records report')
  | _, _ => False
  end.
Proof.
  pose proof (sample_accepted EmptyString ltac:(by left)) as H. pose proof (sample_accepted " " ltac:(by right)) as H'.
  destruct (sample_report EmptyString) as [report|] eqn:E; [|discriminate H].
  destruct (sample_report " ") as [report'|] eqn:E'; [|discriminate H'].
  destruct (sample_report_ok _ _ E) as [bytes Hb], (sample_report_ok _ _ E') as [bytes' Hb'].
  rewrite !andb_true_iff, !Nat.eqb_eq, ?String.eqb_eq in H, H'. destruct H as [[[Hok _] Hn] _], H' as [[[Hok' _] Hn'] Hh].
  apply (head_pins_journal length_hash bytes bytes' report report' Hb Hok Hb' Hok').
  - intros En. rewrite En in Hn. discriminate Hn.
  - intros En. rewrite En in Hn'. discriminate Hn'.
  - symmetry. exact Hh.
Defined.
