(* ===== verification/SessionReport.v ===== *)
(** * Reports on a session file
    (packages/coding-agent/src/core/session-integrity.ts, the types)

    What the inspection of the bytes of a session found, as the compaction
    barrier reads it. Entries are the identifier and parent that the readers of
    a report look at; messages are the transcript model's. *)

From Stdlib Require Import Ascii String ZArith Lia.
From stdpp Require Import base list option strings.
From S2P Require Import Prelude JsString JsValue TranscriptIntegrity.

Open Scope string_scope.
Open Scope list_scope.

Inductive SessionIntegrityReasonCode : Type :=
| fr_trailing_fragment | fr_invalid_utf8 | fr_malformed_json | fr_missing_header | fr_invalid_header
| fr_unsupported_header | fr_multiple_header | fr_late_header | fr_invalid_entry | fr_unsupported_entry
| fr_duplicate_entry_id | fr_missing_parent | fr_self_cycle | fr_parent_cycle | fr_active_leaf_missing
| fr_compaction_first_kept_not_ancestor | fr_active_branch_context_invalid
| fr_transcript (kind : TranscriptIntegrityIssueKind).

#[export] Instance issue_kind_eq_dec : EqDecision TranscriptIntegrityIssueKind.
Proof. solve_decision. Defined.

#[export] Instance reason_eq_dec : EqDecision SessionIntegrityReasonCode.
Proof. solve_decision. Defined.

Definition reason_str (reason : SessionIntegrityReasonCode) : string :=
  match reason with
  | fr_trailing_fragment => "trailing_fragment"
  | fr_invalid_utf8 => "invalid_utf8"
  | fr_malformed_json => "malformed_json"
  | fr_missing_header => "missing_header"
  | fr_invalid_header => "invalid_header"
  | fr_unsupported_header => "unsupported_header"
  | fr_multiple_header => "multiple_header"
  | fr_late_header => "late_header"
  | fr_invalid_entry => "invalid_entry"
  | fr_unsupported_entry => "unsupported_entry"
  | fr_duplicate_entry_id => "duplicate_entry_id"
  | fr_missing_parent => "missing_parent"
  | fr_self_cycle => "self_cycle"
  | fr_parent_cycle => "parent_cycle"
  | fr_active_leaf_missing => "active_leaf_missing"
  | fr_compaction_first_kept_not_ancestor => "compaction_first_kept_not_ancestor"
  | fr_active_branch_context_invalid => "active_branch_context_invalid"
  | fr_transcript kind => ("transcript_" ++ issue_kind_str kind)%string
  end.

Record SessionIntegrityFinding : Type := {
  fi_reason : SessionIntegrityReasonCode;
  fi_line : option Z;
  fi_entryId : option string;
  fi_parentId : option string;
  fi_cycleEntryIds : option (list string);
  fi_toolCallId : option string;
  fi_toolName : option string;
}.

(** A finding that only has a reason. *)
Definition finding_of (reason : SessionIntegrityReasonCode) : SessionIntegrityFinding :=
  {| fi_reason := reason; fi_line := None; fi_entryId := None; fi_parentId := None; fi_cycleEntryIds := None;
     fi_toolCallId := None; fi_toolName := None |}.

Record SessionByteDigest : Type := {
  bd_byteCount : Z;
  bd_sha256 : string;
}.

Record ReportEntry : Type := {
  re_id : string;
  re_parentId : option string;
}.

Record SessionIntegrityReport : Type := {
  sr_ok : bool;
  sr_source : SessionByteDigest;
  sr_completePrefix : SessionByteDigest;
  sr_lineCount : Z;
  sr_trailingFragment : option SessionByteDigest;
  sr_headerId : option string;
  sr_entries : list ReportEntry;
  sr_activeLeafId : option string;
  sr_activeBranch : list ReportEntry;
  sr_activeMessages : list AgentMessage;
  sr_transcript : option TranscriptIntegrityReport;
  sr_findings : list SessionIntegrityFinding;
}.
