(* ===== verification/CompactionTransaction.v ===== *)
(** * Compaction transactions (packages/coding-agent/src/core/compaction/transaction.ts)

    A compaction runs against a snapshot of the session: the transaction names
    the revision and the source entries it summarises. A barrier says whether
    the transcript is closed, and the commit goes ahead only when nothing moved
    in between. Everything is copied out of untyped data with its bounds
    checked; an error is the message thrown. *)

From Stdlib Require Import Ascii String ZArith Lia.
From stdpp Require Import base list option strings.
From S2P Require Import Prelude JsString JsValue Regex Json JsNumber SessionTermination JournalChecks TranscriptIntegrity.
From S2P Require Import SessionReport.

Open Scope string_scope.
Open Scope list_scope.

(** ** Bounds and shapes *)

Definition MAX_METADATA_LENGTH : Z := 256.
Definition MAX_FILE_IDENTITY_LENGTH : Z := 32.
Definition MAX_SOURCE_ENTRIES : Z := 4096.
Definition MAX_PROVENANCE_IDS : Z := 1024.
Definition MAX_LATEST_INTENT_LENGTH : Z := 16384.
Definition MAX_SUMMARY_LENGTH : Z := 262144.
Definition MAX_PROVENANCE_TEXT_LENGTH : Z := 4096.
Definition MAX_NEXT_ACTION_LENGTH : Z := 4096.
Definition MAX_MODEL_HISTORY_ENTRIES : Z := 256.
Definition EMPTY_SHA256 : string := "e3b0c44298fc1c149afbf4c8996fb92427ae41e4649b934ca495991b7852b855".

(** [/[\u0000-\u0008\u000b\u000c\u000e-\u001f\u007f]/u] *)
Definition content_control (a : ascii) : bool :=
  in_range 0 8 a || in_range 11 12 a || in_range 14 31 a || (code a =? 127)%nat.

(** A class of letters under the [i] flag is closed under case. *)
Definition token_char (a : ascii) : bool := alnum a || one_of "_-" a.
Definition quote_or (chars : string) (a : ascii) : bool := Ascii.eqb a quote_char || one_of chars a.

Definition bearer_alternative : regex :=
  RSeqs [RAlt RBegin (RChar (fun a => is_ws a || quote_or "'`:" a)); RLitI "bearer"; RPlus RSpace;
         RAtLeast 8 (RChar (fun a => alnum a || one_of "._~+/-" a))].

Definition assignment_alternative : regex :=
  RSeqs [RAlts [two_words "api" "key"; two_words "access" "token"; two_words "refresh" "token"; RLitI "password";
                RLitI "passwd"; two_words "client" "secret";
                RSeqs [RLitI "secret"; ROpt (RChar (one_of "-_ ")); RAlt (RLitI "key") (RLitI "token")]];
         RStar RSpace; RChar (one_of ":="); RStar RSpace; ROpt (RChar (quote_or "'"));
         RAtLeast 3 (RChar (fun a => negb (is_ws a || quote_or "',;" a)))].

Definition key_alternative : regex :=
  RSeqs [RAlts [RLitI "sk"; RLitI "ghp"; RLitI "gho"; RLitI "ghu"; RLitI "ghs"; RLitI "github_pat";
                RSeq (RLitI "xox") (RChar (fun a => one_of "baprs" (lower_ascii a)))];
         RChar (one_of "-_"); RAtLeast 8 (RChar token_char)].

Definition CREDENTIAL_SHAPE_PATTERN : regex :=
  RAlts [private_key_shape; bearer_alternative; assignment_alternative; key_alternative].

(** Does the text not go on with a character of the class? *)
Definition not_before (p : ascii -> bool) (s : string) : bool :=
  match s with
  | String a _ => negb (p a)
  | EmptyString => true
  end.

(** The text after a prefix, letters of any case. *)
Fixpoint after_prefix (pre s : string) : option string :=
  match pre, s with
  | EmptyString, _ => Some s
  | String c pre', String a s' => if Ascii.eqb (lower_ascii a) (lower_ascii c) then after_prefix pre' s' else None
  | String _ _, EmptyString => None
  end.

Definition redacted_in (q : string) (forbidden : ascii -> bool) (s : string) : option string :=
  rest ← after_prefix (q ++ "[REDACTED]" ++ q)%string s;
  if not_before forbidden rest then Some rest else None.

(** The text after a match of [REDACTED_ASSIGNMENT_PATTERN] at the front; its
    parts start with disjoint characters, so there is one way to match. *)
Definition redacted_at (s : string) : option string :=
  match trimStart s with
  | String a s' =>
      if one_of ":=" a then
        let value := trimStart s' in
        let word a := alnum a || one_of "_+/-" a in
        match redacted_in (String quote_char EmptyString) word value with
        | Some rest => Some rest
        | None =>
            match redacted_in "'" word value with
            | Some rest => Some rest
            | None => redacted_in EmptyString (fun a => alnum a || one_of "._~+/-" a) value
            end
        end
      else None
  | EmptyString => None
  end.

(** [value.replace(REDACTED_ASSIGNMENT_PATTERN, "")]; a step takes at least one
    character. *)
Fixpoint strip_redacted (fuel : nat) (s : string) : string :=
  match fuel with
  | O => s
  | S fuel =>
      match redacted_at s with
      | Some rest => strip_redacted fuel rest
      | None =>
          match s with
          | EmptyString => EmptyString
          | String a s' => String a (strip_redacted fuel s')
          end
      end
  end.

Definition containsCredentialShape (value : string) : bool :=
  rx_test CREDENTIAL_SHAPE_PATTERN (strip_redacted (S (String.length value)) value).

(** ** Data *)

Record SessionFileIdentity : Type := { dev : string; ino : string }.

Record SessionRevisionToken : Type := {
  rt_sessionId : string;
  rt_completeBytes : Z;
  rt_recordCount : Z;
  rt_leafId : option string;
  rt_lastEntryId : option string;
  rt_completePrefixSha256 : string;
  rt_fileIdentity : option SessionFileIdentity;
}.

Record CompactionSourceIdentity : Type := {
  si_sessionId : string;
  si_entryIds : list string;
  si_firstEntryId : string;
  si_lastEntryId : string;
  si_sourceSha256 : string;
  si_activeLeafId : string;
  si_messageCount : Z;
}.

Record CompactionModelIdentity : Type := { mi_provider : string; mi_id : string }.

Record CompactionModelHistoryEntry : Type := {
  mh_entryId : string;
  mh_provider : string;
  mh_modelId : string;
}.

Record CompactionPreservedProvenance : Type := {
  pp_latestIntent : string;
  pp_openTasks : list string;
  pp_laneIds : list string;
  pp_acceptancePredicateIds : list string;
  pp_evidenceReceiptIds : list string;
  pp_blockerReasons : list string;
  pp_repairEventIds : list string;
  pp_branch : option string;
  pp_worktree : option string;
  pp_modelHistory : list CompactionModelHistoryEntry;
  pp_nextAction : string;
}.

Record CompactionTransaction : Type := {
  ct_transactionId : string;
  ct_baseRevision : SessionRevisionToken;
  ct_source : CompactionSourceIdentity;
  ct_createdAt : string;
  ct_model : CompactionModelIdentity;
  ct_preserved : CompactionPreservedProvenance;
}.

Inductive CompactionBarrierStatus : Type := barrier_ready | barrier_defer | barrier_fail_closed.

Inductive CompactionBarrierReason : Type :=
| closed_active_branch | pending_tool_calls | missing_active_tail_results | invalid_pending_tool_ids
| inconsistent_integrity_report | structural_integrity_failure | unsafe_missing_tool_results.

#[export] Instance barrier_status_eq_dec : EqDecision CompactionBarrierStatus.
Proof. solve_decision. Defined.

#[export] Instance barrier_reason_eq_dec : EqDecision CompactionBarrierReason.
Proof. solve_decision. Defined.

Record CompactionBarrierResult : Type := {
  br_status : CompactionBarrierStatus;
  br_reason : CompactionBarrierReason;
  br_pendingToolCallIds : list string;
  br_missingToolCallIds : list string;
}.

Inductive CompactionCommitDecision : Type :=
| decide_commit (transactionId : string) (revision : SessionRevisionToken) (source : CompactionSourceIdentity)
| decide_stale_revision (transactionId : string)
| decide_stale_source (transactionId : string)
| decide_duplicate (transactionId : string)
| decide_defer (transactionId : string) (barrierReason : CompactionBarrierReason)
| decide_barrier_fail_closed (transactionId : string) (barrierReason : CompactionBarrierReason)
| decide_invalid_transaction
| decide_invalid_commit_input (transactionId : string).

Record CompactionEnvelope : Type := {
  ce_transactionId : string;
  ce_baseRevision : SessionRevisionToken;
  ce_source : CompactionSourceIdentity;
  ce_createdAt : string;
  ce_model : CompactionModelIdentity;
  ce_summary : string;
  ce_summarySha256 : string;
  ce_preserved : CompactionPreservedProvenance;
}.

(** ** Checks *)

Definition length_le (s : string) (n : Z) : bool := (Z.of_nat (String.length s) <=? n)%Z.
Definition size_le {A} (l : list A) (n : Z) : bool := (Z.of_nat (length l) <=? n)%Z.

Definition assertOnlyKeys (value : json) (allowed : list string) (field : string) : result string unit :=
  match value with
  | JsObj fields => check (forallb (fun kv => one_of_strings allowed (fst kv)) fields) (field ++ " contains unsupported metadata")
  | _ => Ok tt
  end.

(** [isRecord], then [assertOnlyKeys]. *)
Definition assertRecord (value : json) (allowed : list string) (message field : string) : result string unit :=
  match value with
  | JsObj _ => assertOnlyKeys value allowed field
  | _ => Err message
  end.

Definition assertSafeInteger (value : option json) (field : string) : result string Z :=
  match value with
  | Some v => match assertSafeNonNegativeInt v field with
              | Ok z => Ok z
              | Err _ => Err (field ++ " must be a non-negative safe integer")%string
              end
  | None => Err (field ++ " must be a non-negative safe integer")%string
  end.

(** Bounded text without the characters of a class or a credential shape. *)
Definition assertBoundedText (control : ascii -> bool) (message credential : string) (value : option json) (field : string)
    (maxLength : Z) : result string string :=
  match value with
  | Some (JsStr s) =>
      if negb (is_empty s) && length_le s maxLength && negb (sexists control s) then
        if containsCredentialShape s then Err (field ++ credential)%string else Ok s
      else Err (field ++ message)%string
  | _ => Err (field ++ message)%string
  end.

Definition assertMetadataText (value : option json) (field : string) (maxLength : Z) : result string string :=
  assertBoundedText is_control " must be non-empty bounded metadata without control characters"
    " must not contain credential-shaped metadata" value field maxLength.

Definition assertContentText (value : option json) (field : string) (maxLength : Z) : result string string :=
  assertBoundedText content_control " must be non-empty bounded text without unsafe control characters"
    " must not contain credential-shaped content" value field maxLength.

Definition assertProvenanceText (value : option json) (field : string) (maxLength : Z) : result string string :=
  assertContentText value field maxLength.

(** [/^[a-f0-9]{64}$/u] *)
Definition assertSha256 (value : option json) (field : string) : result string string :=
  match value with
  | Some (JsStr s) => if isValidHashShape s then Ok s else Err (field ++ " must be a lowercase 64-hex SHA-256 digest")%string
  | _ => Err (field ++ " must be a lowercase 64-hex SHA-256 digest")%string
  end.

(** A canonical instant whose year has four digits. *)
Definition assertCreatedAt (value : option json) : result string string :=
  s <-? assertMetadataText value "createdAt" MAX_METADATA_LENGTH ;;
  if (String.length s =? 24)%nat && canonical_instant s then Ok s
  else Err "createdAt must be a canonical UTC ISO-8601 timestamp".

(** [null], or a text. *)
Definition assertNullableMetadataText (value : option json) (field : string) (maxLength : Z) : result string (option string) :=
  match value with
  | Some JsNull => Ok None
  | _ => s <-? assertMetadataText value field maxLength ;; Ok (Some s)
  end.

Definition copyFileIdentityPart (value : option json) (field : string) : result string string :=
  match value with
  | Some (JsStr s) =>
      if negb (is_empty s) && length_le s MAX_FILE_IDENTITY_LENGTH && sforall is_digit s then Ok s
      else Err ("fileIdentity." ++ field ++ " must be a bounded decimal string")%string
  | _ => Err ("fileIdentity." ++ field ++ " must be a bounded decimal string")%string
  end.

Definition copyFileIdentity (value : option json) : result string (option SessionFileIdentity) :=
  match value with
  | None => Ok None
  | Some v =>
      _ <-? assertRecord v ["dev"; "ino"] "fileIdentity must be an object" "fileIdentity" ;;
      dev <-? copyFileIdentityPart (jget "dev" v) "dev" ;;
      ino <-? copyFileIdentityPart (jget "ino" v) "ino" ;;
      Ok (Some {| dev := dev; ino := ino |})
  end.

(** [value.map((item, index) => ...)] that may throw. *)
Fixpoint map_checked {A} (f : nat -> json -> result string A) (index : nat) (items : list json) : result string (list A) :=
  match items with
  | [] => Ok []
  | item :: rest =>
      x <-? f index item ;;
      xs <-? map_checked f (S index) rest ;;
      Ok (x :: xs)
  end.

Definition item_field (field : string) (index : nat) : string := (field ++ "[" ++ nat_str index ++ "]")%string.

Definition copyIdArray (value : option json) (field : string) (maxItems : Z) : result string (list string) :=
  match value with
  | Some (JsArr items) =>
      if size_le items maxItems then
        copy <-? map_checked (fun index item => assertMetadataText (Some item) (item_field field index) MAX_METADATA_LENGTH) 0 items ;;
        if bool_decide (NoDup copy) then Ok copy else Err (field ++ " must contain unique IDs")%string
      else Err (field ++ " must be a bounded array")%string
  | _ => Err (field ++ " must be a bounded array")%string
  end.

Definition copyTextArray (value : option json) (field : string) (maxItems maxLength : Z) (requireUnique : bool)
    : result string (list string) :=
  match value with
  | Some (JsArr items) =>
      if size_le items maxItems then
        copy <-? map_checked (fun index item => assertProvenanceText (Some item) (item_field field index) maxLength) 0 items ;;
        if requireUnique && negb (bool_decide (NoDup copy)) then Err (field ++ " must contain unique entries")%string
        else Ok copy
      else Err (field ++ " must be a bounded array")%string
  | _ => Err (field ++ " must be a bounded array")%string
  end.

Definition copyHistoryItem (index : nat) (item : json) : result string CompactionModelHistoryEntry :=
  let field := item_field "preserved.modelHistory" index in
  _ <-? assertRecord item ["entryId"; "provider"; "modelId"] (field ++ " must be an object") field ;;
  entryId <-? assertMetadataText (jget "entryId" item) (field ++ ".entryId") MAX_METADATA_LENGTH ;;
  provider <-? assertMetadataText (jget "provider" item) (field ++ ".provider") MAX_METADATA_LENGTH ;;
  modelId <-? assertMetadataText (jget "modelId" item) (field ++ ".modelId") MAX_METADATA_LENGTH ;;
  Ok {| mh_entryId := entryId; mh_provider := provider; mh_modelId := modelId |}.

(** An identifier seen before throws as soon as its entry has been read. *)
Fixpoint copyHistoryItems (seenEntryIds : list string) (index : nat) (items : list json)
    : result string (list CompactionModelHistoryEntry) :=
  match items with
  | [] => Ok []
  | item :: rest =>
      x <-? copyHistoryItem index item ;;
      if one_of_strings seenEntryIds (mh_entryId x)
      then Err "preserved.modelHistory must contain unique entryId values"
      else
        xs <-? copyHistoryItems (seenEntryIds ++ [mh_entryId x]) (S index) rest ;;
        Ok (x :: xs)
  end.

Definition copyModelHistory (value : option json) : result string (list CompactionModelHistoryEntry) :=
  match value with
  | Some (JsArr items) =>
      if size_le items MAX_MODEL_HISTORY_ENTRIES then copyHistoryItems [] 0 items
      else Err "preserved.modelHistory must be a bounded array"
  | _ => Err "preserved.modelHistory must be a bounded array"
  end.

Definition PRESERVED_KEYS : list string :=
  ["latestIntent"; "openTasks"; "laneIds"; "acceptancePredicateIds"; "evidenceReceiptIds"; "blockerReasons";
   "repairEventIds"; "branch"; "worktree"; "modelHistory"; "nextAction"].

Definition copyPreservedProvenance (value : option json) : result string CompactionPreservedProvenance :=
  match value with
  | None => Err "preserved must be an object"
  | Some input =>
      _ <-? assertRecord input PRESERVED_KEYS "preserved must be an object" "preserved" ;;
      latestIntent <-? assertProvenanceText (jget "latestIntent" input) "preserved.latestIntent" MAX_LATEST_INTENT_LENGTH ;;
      openTasks <-? copyTextArray (jget "openTasks" input) "preserved.openTasks" MAX_PROVENANCE_IDS MAX_PROVENANCE_TEXT_LENGTH false ;;
      laneIds <-? copyTextArray (jget "laneIds" input) "preserved.laneIds" MAX_PROVENANCE_IDS MAX_METADATA_LENGTH true ;;
      acceptancePredicateIds <-? copyTextArray (jget "acceptancePredicateIds" input) "preserved.acceptancePredicateIds"
        MAX_PROVENANCE_IDS MAX_METADATA_LENGTH true ;;
      evidenceReceiptIds <-? copyTextArray (jget "evidenceReceiptIds" input) "preserved.evidenceReceiptIds"
        MAX_PROVENANCE_IDS MAX_METADATA_LENGTH true ;;
      blockerReasons <-? copyTextArray (jget "blockerReasons" input) "preserved.blockerReasons"
        MAX_PROVENANCE_IDS MAX_PROVENANCE_TEXT_LENGTH false ;;
      repairEventIds <-? copyTextArray (jget "repairEventIds" input) "preserved.repairEventIds"
        MAX_PROVENANCE_IDS MAX_METADATA_LENGTH true ;;
      branch <-? assertNullableMetadataText (jget "branch" input) "preserved.branch" MAX_PROVENANCE_TEXT_LENGTH ;;
      worktree <-? assertNullableMetadataText (jget "worktree" input) "preserved.worktree" MAX_PROVENANCE_TEXT_LENGTH ;;
      modelHistory <-? copyModelHistory (jget "modelHistory" input) ;;
      nextAction <-? assertProvenanceText (jget "nextAction" input) "preserved.nextAction" MAX_NEXT_ACTION_LENGTH ;;
      Ok {| pp_latestIntent := latestIntent; pp_openTasks := openTasks; pp_laneIds := laneIds;
            pp_acceptancePredicateIds := acceptancePredicateIds; pp_evidenceReceiptIds := evidenceReceiptIds;
            pp_blockerReasons := blockerReasons; pp_repairEventIds := repairEventIds; pp_branch := branch;
            pp_worktree := worktree; pp_modelHistory := modelHistory; pp_nextAction := nextAction |}
  end.

(** ** Revisions, sources and transactions *)

Definition REVISION_KEYS : list string :=
  ["schemaVersion"; "sessionId"; "completeBytes"; "recordCount"; "leafId"; "lastEntryId"; "completePrefixSha256";
   "fileIdentity"].

(** [input.schemaVersion !== undefined && input.schemaVersion !== version] *)
Definition version_is (version : Z) (value : option json) : bool :=
  match value with
  | Some (JsNum literal) => bool_decide (safe_integer literal = Some version)
  | _ => false
  end.

Definition assertOptionalVersion (value : option json) (message : string) : result string unit :=
  match value with
  | None => Ok tt
  | Some _ => check (version_is 1 value) message
  end.

Definition is_some {A} (o : option A) : bool :=
  match o with
  | Some _ => true
  | None => false
  end.

Definition createSessionRevisionToken (value : option json) : result string SessionRevisionToken :=
  match value with
  | None => Err "session revision token must be an object"
  | Some input =>
      _ <-? assertRecord input REVISION_KEYS "session revision token must be an object" "session revision token" ;;
      _ <-? assertOptionalVersion (jget "schemaVersion" input) "unsupported session revision token schema version" ;;
      sessionId <-? assertMetadataText (jget "sessionId" input) "sessionId" MAX_METADATA_LENGTH ;;
      completeBytes <-? assertSafeInteger (jget "completeBytes" input) "completeBytes" ;;
      recordCount <-? assertSafeInteger (jget "recordCount" input) "recordCount" ;;
      leafId <-? assertNullableMetadataText (jget "leafId" input) "leafId" MAX_METADATA_LENGTH ;;
      lastEntryId <-? assertNullableMetadataText (jget "lastEntryId" input) "lastEntryId" MAX_METADATA_LENGTH ;;
      completePrefixSha256 <-? assertSha256 (jget "completePrefixSha256" input) "completePrefixSha256" ;;
      _ <-? check (Bool.eqb (completeBytes =? 0)%Z (recordCount =? 0)%Z)
              "completeBytes and recordCount must both be empty or both be non-empty" ;;
      _ <-? check (negb ((recordCount =? 0)%Z && (is_some leafId || is_some lastEntryId)))
              "an empty revision cannot identify entries" ;;
      _ <-? check (negb (is_some leafId && negb (is_some lastEntryId))) "leafId requires a lastEntryId" ;;
      _ <-? check (negb ((completeBytes =? 0)%Z && negb (String.eqb completePrefixSha256 EMPTY_SHA256)))
              "an empty revision must use the SHA-256 digest of empty bytes" ;;
      fileIdentity <-? copyFileIdentity (jget "fileIdentity" input) ;;
      Ok {| rt_sessionId := sessionId; rt_completeBytes := completeBytes; rt_recordCount := recordCount; rt_leafId := leafId;
            rt_lastEntryId := lastEntryId; rt_completePrefixSha256 := completePrefixSha256; rt_fileIdentity := fileIdentity |}
  end.

Definition SOURCE_KEYS : list string :=
  ["sessionId"; "entryIds"; "firstEntryId"; "lastEntryId"; "sourceSha256"; "activeLeafId"; "messageCount"].

Definition createCompactionSourceIdentity (value : option json) : result string CompactionSourceIdentity :=
  match value with
  | None => Err "compaction source identity must be an object"
  | Some input =>
      _ <-? assertRecord input SOURCE_KEYS "compaction source identity must be an object" "compaction source identity" ;;
      sessionId <-? assertMetadataText (jget "sessionId" input) "source.sessionId" MAX_METADATA_LENGTH ;;
      entryIds <-? copyIdArray (jget "entryIds" input) "source.entryIds" MAX_SOURCE_ENTRIES ;;
      _ <-? check (negb (length entryIds =? 0)%nat) "source.entryIds must be non-empty" ;;
      firstEntryId <-? assertMetadataText (jget "firstEntryId" input) "source.firstEntryId" MAX_METADATA_LENGTH ;;
      lastEntryId <-? assertMetadataText (jget "lastEntryId" input) "source.lastEntryId" MAX_METADATA_LENGTH ;;
      activeLeafId <-? assertMetadataText (jget "activeLeafId" input) "source.activeLeafId" MAX_METADATA_LENGTH ;;
      sourceSha256 <-? assertSha256 (jget "sourceSha256" input) "source.sourceSha256" ;;
      messageCount <-? assertSafeInteger (jget "messageCount" input) "source.messageCount" ;;
      _ <-? check (messageCount <=? Z.of_nat (length entryIds))%Z "source.messageCount cannot exceed source.entryIds length" ;;
      _ <-? check (bool_decide (head entryIds = Some firstEntryId) && bool_decide (last entryIds = Some lastEntryId))
              "source first/last IDs must match the ordered entry IDs" ;;
      _ <-? check (String.eqb activeLeafId lastEntryId) "source.activeLeafId must match source.lastEntryId" ;;
      Ok {| si_sessionId := sessionId; si_entryIds := entryIds; si_firstEntryId := firstEntryId; si_lastEntryId := lastEntryId;
            si_sourceSha256 := sourceSha256; si_activeLeafId := activeLeafId; si_messageCount := messageCount |}
  end.

Definition copyModelIdentity (value : option json) : result string CompactionModelIdentity :=
  match value with
  | None => Err "model must be an object"
  | Some v =>
      _ <-? assertRecord v ["provider"; "id"] "model must be an object" "model" ;;
      provider <-? assertMetadataText (jget "provider" v) "model.provider" MAX_METADATA_LENGTH ;;
      id <-? assertMetadataText (jget "id" v) "model.id" MAX_METADATA_LENGTH ;;
      Ok {| mi_provider := provider; mi_id := id |}
  end.

(** The revision and the source of a transaction are of one session, at its
    active leaf. *)
Definition same_leaf (revision : SessionRevisionToken) (source : CompactionSourceIdentity) : bool :=
  String.eqb (rt_sessionId revision) (si_sessionId source)
  && bool_decide (rt_leafId revision = Some (si_activeLeafId source)).

Definition TRANSACTION_KEYS : list string :=
  ["schemaVersion"; "transactionId"; "baseRevision"; "source"; "createdAt"; "model"; "preserved"].

Definition createCompactionTransaction (input : json) : result string CompactionTransaction :=
  _ <-? assertRecord input TRANSACTION_KEYS "compaction transaction must be an object" "compaction transaction" ;;
  _ <-? assertOptionalVersion (jget "schemaVersion" input) "unsupported compaction transaction schema version" ;;
  transactionId <-? assertMetadataText (jget "transactionId" input) "transactionId" MAX_METADATA_LENGTH ;;
  createdAt <-? assertCreatedAt (jget "createdAt" input) ;;
  baseRevision <-? createSessionRevisionToken (jget "baseRevision" input) ;;
  source <-? createCompactionSourceIdentity (jget "source" input) ;;
  _ <-? check (same_leaf baseRevision source) "transaction revision and source must identify the same session and active leaf" ;;
  model <-? copyModelIdentity (jget "model" input) ;;
  preserved <-? copyPreservedProvenance (jget "preserved" input) ;;
  Ok {| ct_transactionId := transactionId; ct_baseRevision := baseRevision; ct_source := source; ct_createdAt := createdAt;
        ct_model := model; ct_preserved := preserved |}.

(** ** The objects as data *)

Definition nullable (o : option string) : json := from_option JsStr JsNull o.
Definition texts (l : list string) : json := JsArr (map JsStr l).

Definition revision_json (t : SessionRevisionToken) : json :=
  JsObj ([("schemaVersion", JsNum "1"); ("sessionId", JsStr (rt_sessionId t));
          ("completeBytes", JsNum (int_text (rt_completeBytes t))); ("recordCount", JsNum (int_text (rt_recordCount t)));
          ("leafId", nullable (rt_leafId t)); ("lastEntryId", nullable (rt_lastEntryId t));
          ("completePrefixSha256", JsStr (rt_completePrefixSha256 t))]
         ++ match rt_fileIdentity t with
            | Some identity => [("fileIdentity", JsObj [("dev", JsStr (dev identity)); ("ino", JsStr (ino identity))])]
            | None => []
            end).

Definition source_json (s : CompactionSourceIdentity) : json :=
  JsObj [("sessionId", JsStr (si_sessionId s)); ("entryIds", texts (si_entryIds s)); ("firstEntryId", JsStr (si_firstEntryId s));
         ("lastEntryId", JsStr (si_lastEntryId s)); ("sourceSha256", JsStr (si_sourceSha256 s));
         ("activeLeafId", JsStr (si_activeLeafId s)); ("messageCount", JsNum (int_text (si_messageCount s)))].

Definition model_json (m : CompactionModelIdentity) : json :=
  JsObj [("provider", JsStr (mi_provider m)); ("id", JsStr (mi_id m))].

Definition history_json (h : CompactionModelHistoryEntry) : json :=
  JsObj [("entryId", JsStr (mh_entryId h)); ("provider", JsStr (mh_provider h)); ("modelId", JsStr (mh_modelId h))].

Definition preserved_json (p : CompactionPreservedProvenance) : json :=
  JsObj [("latestIntent", JsStr (pp_latestIntent p)); ("openTasks", texts (pp_openTasks p)); ("laneIds", texts (pp_laneIds p));
         ("acceptancePredicateIds", texts (pp_acceptancePredicateIds p));
         ("evidenceReceiptIds", texts (pp_evidenceReceiptIds p)); ("blockerReasons", texts (pp_blockerReasons p));
         ("repairEventIds", texts (pp_repairEventIds p)); ("branch", nullable (pp_branch p));
         ("worktree", nullable (pp_worktree p)); ("modelHistory", JsArr (map history_json (pp_modelHistory p)));
         ("nextAction", JsStr (pp_nextAction p))].

Definition transaction_json (t : CompactionTransaction) : json :=
  JsObj [("schemaVersion", JsNum "1"); ("transactionId", JsStr (ct_transactionId t));
         ("baseRevision", revision_json (ct_baseRevision t)); ("source", source_json (ct_source t));
         ("createdAt", JsStr (ct_createdAt t)); ("model", model_json (ct_model t));
         ("preserved", preserved_json (ct_preserved t))].

Definition envelope_json (e : CompactionEnvelope) : json :=
  JsObj [("schemaVersion", JsNum "2"); ("transactionId", JsStr (ce_transactionId e));
         ("baseRevision", revision_json (ce_baseRevision e)); ("source", source_json (ce_source e));
         ("createdAt", JsStr (ce_createdAt e)); ("model", model_json (ce_model e)); ("summary", JsStr (ce_summary e));
         ("summarySha256", JsStr (ce_summarySha256 e)); ("preserved", preserved_json (ce_preserved e))].

(** ** The barrier *)

Definition issueIdentity (issue : TranscriptIntegrityIssue) : string :=
  json_print (JsArr [JsStr (issue_kind_str (issue_kind issue)); JsStr (issue_id issue); nullable (issue_name issue)]).

Definition findingIdentity (finding : SessionIntegrityFinding) : string :=
  json_print (JsArr [JsStr (reason_str (fi_reason finding));
                     from_option (fun z => JsNum (int_text z)) JsNull (fi_line finding); nullable (fi_entryId finding);
                     nullable (fi_parentId finding); from_option texts JsNull (fi_cycleEntryIds finding);
                     nullable (fi_toolCallId finding); nullable (fi_toolName finding)]).

(** One occurrence of [item] less, or nothing when there is none. *)
Definition take_count (counts : list (string * nat)) (item : string) : option (list (string * nat)) :=
  count ← map_get item counts;
  Some (if (count =? 1)%nat then map_delete item counts else map_set item (count - 1)%nat counts).

Fixpoint take_counts (counts : list (string * nat)) (items : list string) : option (list (string * nat)) :=
  match items with
  | [] => Some counts
  | item :: rest => counts ← take_count counts item; take_counts counts rest
  end.

Definition sameMultiset (left right : list string) : bool :=
  if negb (length left =? length right)%nat then false
  else
    match take_counts (foldl (fun counts item => increment item counts) [] left) right with
    | Some counts => (length counts =? 0)%nat
    | None => false
    end.

Definition safe_count (n : Z) : bool := (0 <=? n)%Z && (n <=? MAX_SAFE_INTEGER)%Z.

Definition validByteDigest (d : SessionByteDigest) : bool :=
  safe_count (bd_byteCount d) && isValidHashShape (bd_sha256 d).

Definition validFinding (finding : SessionIntegrityFinding) : bool :=
  from_option (fun line => (1 <=? line)%Z && (line <=? MAX_SAFE_INTEGER)%Z) true (fi_line finding).

Definition validTranscriptIssue (issue : TranscriptIntegrityIssue) : bool := negb (is_empty (issue_id issue)).

Definition is_transcript_reason (reason : SessionIntegrityReasonCode) : bool :=
  match reason with
  | fr_transcript _ => true
  | _ => false
  end.

Definition is_header_reason (reason : SessionIntegrityReasonCode) : bool :=
  match reason with
  | fr_missing_header | fr_invalid_header | fr_unsupported_header | fr_multiple_header | fr_late_header => true
  | _ => false
  end.

(** [Object.keys(finding).length === 1] *)
Definition only_reason (finding : SessionIntegrityFinding) : bool :=
  negb (is_some (fi_line finding)) && negb (is_some (fi_entryId finding)) && negb (is_some (fi_parentId finding))
  && negb (is_some (fi_cycleEntryIds finding)) && negb (is_some (fi_toolCallId finding)) && negb (is_some (fi_toolName finding)).

(** The entries of a branch, each with the one before it as its parent. *)
Fixpoint branch_linked (entryIds seen : list string) (parent : option string) (branch : list ReportEntry) : bool :=
  match branch with
  | [] => true
  | entry :: rest =>
      negb (one_of_strings seen (re_id entry)) && one_of_strings entryIds (re_id entry)
      && bool_decide (re_parentId entry = parent)
      && branch_linked entryIds (seen ++ [re_id entry]) (Some (re_id entry)) rest
  end.

Definition activeBranchIsConsistent (report : SessionIntegrityReport) : bool :=
  forallb (fun entry => negb (is_empty (re_id entry))) (sr_entries report)
  && match sr_activeLeafId report with
     | None => (length (sr_activeBranch report) =? 0)%nat
     | Some leaf =>
         negb (length (sr_activeBranch report) =? 0)%nat
         && branch_linked (map re_id (sr_entries report)) [] None (sr_activeBranch report)
         && bool_decide (re_id <$> last (sr_activeBranch report) = Some leaf)
     end.

(** A finding that is neither a trailing fragment nor about the transcript. *)
Definition is_structural (finding : SessionIntegrityFinding) : bool :=
  negb (bool_decide (fi_reason finding = fr_trailing_fragment)) && negb (is_transcript_reason (fi_reason finding)).

Definition transcript_finding (issue : TranscriptIntegrityIssue) : SessionIntegrityFinding :=
  {| fi_reason := fr_transcript (issue_kind issue); fi_line := None; fi_entryId := None; fi_parentId := None;
     fi_cycleEntryIds := None; fi_toolCallId := Some (issue_id issue); fi_toolName := issue_name issue |}.

Definition bytes_consistent (report : SessionIntegrityReport) : bool :=
  let prefix := sr_completePrefix report in
  let source := sr_source report in
  validByteDigest source && validByteDigest prefix && safe_count (sr_lineCount report)
  && from_option validByteDigest true (sr_trailingFragment report)
  && (bd_byteCount source =? bd_byteCount prefix + from_option bd_byteCount 0 (sr_trailingFragment report))%Z
  && (sr_lineCount report <=? bd_byteCount prefix)%Z
  && (negb (bd_byteCount prefix =? 0)%Z || String.eqb (bd_sha256 prefix) EMPTY_SHA256)
  && (is_some (sr_trailingFragment report) || String.eqb (bd_sha256 source) (bd_sha256 prefix)).

Definition findings_consistent (report : SessionIntegrityReport) : bool :=
  let findings := sr_findings report in
  let trailing := List.filter (fun f => bool_decide (fi_reason f = fr_trailing_fragment)) findings in
  forallb validFinding findings && Bool.eqb (sr_ok report) (length findings =? 0)%nat
  && (length trailing =? if is_some (sr_trailingFragment report) then 1 else 0)%nat && forallb only_reason trailing
  && match sr_headerId report with
     | None => existsb (fun f => is_header_reason (fi_reason f)) findings
     | Some id => negb (is_empty id)
     end.

Definition transcript_consistent (report : SessionIntegrityReport) : bool :=
  let findings := sr_findings report in
  let transcriptFindings := List.filter (fun f => is_transcript_reason (fi_reason f)) findings in
  match sr_transcript report with
  | None =>
      (length (sr_activeMessages report) =? 0)%nat && (length transcriptFindings =? 0)%nat && existsb is_structural findings
  | Some transcript =>
      forallb validTranscriptIssue (issues transcript) && Bool.eqb (ok transcript) (length (issues transcript) =? 0)%nat
      && negb (existsb is_structural findings)
      && (let inspected := inspectTranscriptIntegrity (sr_activeMessages report) in
          Bool.eqb (ok inspected) (ok transcript)
          && sameMultiset (map issueIdentity (issues inspected)) (map issueIdentity (issues transcript))
          && sameMultiset (map findingIdentity transcriptFindings)
               (map (fun issue => findingIdentity (transcript_finding issue)) (issues inspected)))
  end.

Definition reportIsConsistent (report : SessionIntegrityReport) : bool :=
  bytes_consistent report && findings_consistent report && activeBranchIsConsistent report && transcript_consistent report.

Definition missingCallsAreAtActiveTail (report : SessionIntegrityReport) (missingIds : list string) : bool :=
  match last_assistant (sr_activeMessages report) with
  | None => false
  | Some (content, rest) =>
      let tailCallIds := map tc_id (message_calls content) in
      forallb (one_of_strings tailCallIds) missingIds && forallb (result_for tailCallIds) rest
  end.

Definition barrierResult (status : CompactionBarrierStatus) (reason : CompactionBarrierReason) (pending missing : list string)
    : CompactionBarrierResult :=
  {| br_status := status; br_reason := reason; br_pendingToolCallIds := pending; br_missingToolCallIds := missing |}.

Definition is_missing (issue : TranscriptIntegrityIssue) : bool := bool_decide (issue_kind issue = missing_result).

Definition evaluateCompactionBarrier (report : SessionIntegrityReport) (pendingToolCallIds : json) : CompactionBarrierResult :=
  match copyIdArray (Some pendingToolCallIds) "pendingToolCallIds" MAX_PROVENANCE_IDS with
  | Err _ => barrierResult barrier_fail_closed invalid_pending_tool_ids [] []
  | Ok pending =>
      let found := from_option issues [] (sr_transcript report) in
      if negb (reportIsConsistent report) then barrierResult barrier_fail_closed inconsistent_integrity_report pending []
      else if existsb (fun f => negb (bool_decide (fi_reason f = fr_transcript missing_result))) (sr_findings report)
              || existsb (fun issue => negb (is_missing issue)) found
      then barrierResult barrier_fail_closed structural_integrity_failure pending []
      else
        let missing := map issue_id (List.filter is_missing found) in
        if (0 <? length missing)%nat
           && (negb (missingCallsAreAtActiveTail report missing) || existsb (fun id => negb (one_of_strings pending id)) missing)
        then barrierResult barrier_fail_closed unsafe_missing_tool_results pending missing
        else if (0 <? length missing)%nat then barrierResult barrier_defer missing_active_tail_results pending missing
        else if (0 <? length pending)%nat then barrierResult barrier_defer pending_tool_calls pending []
        else barrierResult barrier_ready closed_active_branch [] []
  end.

(** ** The commit *)

Definition sameRevision (left right : SessionRevisionToken) : bool :=
  String.eqb (rt_sessionId left) (rt_sessionId right) && (rt_completeBytes left =? rt_completeBytes right)%Z
  && (rt_recordCount left =? rt_recordCount right)%Z && bool_decide (rt_leafId left = rt_leafId right)
  && bool_decide (rt_lastEntryId left = rt_lastEntryId right)
  && String.eqb (rt_completePrefixSha256 left) (rt_completePrefixSha256 right)
  && bool_decide (dev <$> rt_fileIdentity left = dev <$> rt_fileIdentity right)
  && bool_decide (ino <$> rt_fileIdentity left = ino <$> rt_fileIdentity right).

Definition sameSource (left right : CompactionSourceIdentity) : bool :=
  String.eqb (si_sessionId left) (si_sessionId right) && String.eqb (si_firstEntryId left) (si_firstEntryId right)
  && String.eqb (si_lastEntryId left) (si_lastEntryId right) && String.eqb (si_sourceSha256 left) (si_sourceSha256 right)
  && String.eqb (si_activeLeafId left) (si_activeLeafId right) && (si_messageCount left =? si_messageCount right)%Z
  && bool_decide (si_entryIds left = si_entryIds right).

Definition valid_barrier_ids (ids : list string) : bool :=
  size_le ids MAX_PROVENANCE_IDS && bool_decide (NoDup ids)
  && forallb (fun id => is_ok (assertMetadataText (Some (JsStr id)) "barrier toolCallId" MAX_METADATA_LENGTH)) ids.

Definition validBarrierResult (barrier : CompactionBarrierResult) : bool :=
  let pending := br_pendingToolCallIds barrier in
  let missing := br_missingToolCallIds barrier in
  valid_barrier_ids pending && valid_barrier_ids missing
  && match br_status barrier with
     | barrier_ready =>
         bool_decide (br_reason barrier = closed_active_branch) && (length pending =? 0)%nat && (length missing =? 0)%nat
     | barrier_defer =>
         match br_reason barrier with
         | pending_tool_calls => (0 <? length pending)%nat && (length missing =? 0)%nat
         | missing_active_tail_results => (0 <? length missing)%nat && forallb (one_of_strings pending) missing
         | _ => false
         end
     | barrier_fail_closed =>
         match br_reason barrier with
         | invalid_pending_tool_ids | inconsistent_integrity_report | structural_integrity_failure
         | unsafe_missing_tool_results => true
         | _ => false
         end
     end.

Record DecideCompactionCommitInput : Type := {
  dc_transaction : json;
  dc_currentRevision : json;
  dc_currentSource : json;
  dc_barrier : CompactionBarrierResult;
  dc_priorCommittedSourceDigests : json;
}.

Definition copyDigests (value : json) : result string (list string) :=
  match value with
  | JsArr items =>
      if size_le items MAX_SOURCE_ENTRIES
      then map_checked (fun index item => assertSha256 (Some item) (item_field "priorCommittedSourceDigests" index)) 0 items
      else Err "priorCommittedSourceDigests must be a bounded array"
  | _ => Err "priorCommittedSourceDigests must be a bounded array"
  end.

Definition current_state (input : DecideCompactionCommitInput)
    : result string (SessionRevisionToken * CompactionSourceIdentity * list string) :=
  currentRevision <-? createSessionRevisionToken (Some (dc_currentRevision input)) ;;
  currentSource <-? createCompactionSourceIdentity (Some (dc_currentSource input)) ;;
  priorDigests <-? copyDigests (dc_priorCommittedSourceDigests input) ;;
  Ok (currentRevision, currentSource, priorDigests).

Definition decideCompactionCommit (input : DecideCompactionCommitInput) : CompactionCommitDecision :=
  match createCompactionTransaction (dc_transaction input) with
  | Err _ => decide_invalid_transaction
  | Ok transaction =>
      let id := ct_transactionId transaction in
      if negb (validBarrierResult (dc_barrier input)) then decide_invalid_commit_input id
      else
        match br_status (dc_barrier input) with
        | barrier_fail_closed => decide_barrier_fail_closed id (br_reason (dc_barrier input))
        | barrier_defer => decide_defer id (br_reason (dc_barrier input))
        | barrier_ready =>
            match current_state input with
            | Err _ => decide_invalid_commit_input id
            | Ok (currentRevision, currentSource, priorDigests) =>
                if one_of_strings priorDigests (si_sourceSha256 (ct_source transaction)) then decide_duplicate id
                else if negb (sameRevision (ct_baseRevision transaction) currentRevision) then decide_stale_revision id
                else if negb (sameSource (ct_source transaction) currentSource) then decide_stale_source id
                else decide_commit id currentRevision currentSource
            end
        end
  end.

(** ** Envelopes *)

Definition COMPACTION_ENVELOPE_KEYS : list string :=
  ["schemaVersion"; "transactionId"; "baseRevision"; "source"; "createdAt"; "model"; "summary"; "summarySha256"; "preserved"].

Definition validateCompactionEnvelope (input : json) : result string CompactionEnvelope :=
  _ <-? assertRecord input COMPACTION_ENVELOPE_KEYS "compaction envelope must be an object" "compaction envelope" ;;
  _ <-? check (version_is 2 (jget "schemaVersion" input)) "unsupported compaction envelope schema version" ;;
  transactionId <-? assertMetadataText (jget "transactionId" input) "transactionId" MAX_METADATA_LENGTH ;;
  createdAt <-? assertCreatedAt (jget "createdAt" input) ;;
  summary <-? assertContentText (jget "summary" input) "summary" MAX_SUMMARY_LENGTH ;;
  summarySha256 <-? assertSha256 (jget "summarySha256" input) "summarySha256" ;;
  baseRevision <-? createSessionRevisionToken (jget "baseRevision" input) ;;
  source <-? createCompactionSourceIdentity (jget "source" input) ;;
  _ <-? check (same_leaf baseRevision source) "envelope revision and source must identify the same session and active leaf" ;;
  model <-? copyModelIdentity (jget "model" input) ;;
  preserved <-? copyPreservedProvenance (jget "preserved" input) ;;
  Ok {| ce_transactionId := transactionId; ce_baseRevision := baseRevision; ce_source := source; ce_createdAt := createdAt;
        ce_model := model; ce_summary := summary; ce_summarySha256 := summarySha256; ce_preserved := preserved |}.

Record CreateCompactionEnvelopeInput : Type := {
  en_transaction : json;
  en_decision : CompactionCommitDecision;
  en_summary : string;
  en_summarySha256 : string;
}.

Definition createCompactionEnvelope (input : CreateCompactionEnvelopeInput) : result string CompactionEnvelope :=
  _ <-? assertContentText (Some (JsStr (en_summary input))) "summary" MAX_SUMMARY_LENGTH ;;
  _ <-? assertSha256 (Some (JsStr (en_summarySha256 input))) "summarySha256" ;;
  match en_decision input with
  | decide_commit transactionId revision source =>
      transaction <-? createCompactionTransaction (en_transaction input) ;;
      decisionRevision <-? createSessionRevisionToken (Some (revision_json revision)) ;;
      decisionSource <-? createCompactionSourceIdentity (Some (source_json source)) ;;
      if String.eqb transactionId (ct_transactionId transaction)
         && sameRevision (ct_baseRevision transaction) decisionRevision
         && sameSource (ct_source transaction) decisionSource
      then
        validateCompactionEnvelope
          (envelope_json {| ce_transactionId := ct_transactionId transaction; ce_baseRevision := ct_baseRevision transaction;
                            ce_source := ct_source transaction; ce_createdAt := ct_createdAt transaction;
                            ce_model := ct_model transaction; ce_summary := en_summary input;
                            ce_summarySha256 := en_summarySha256 input; ce_preserved := ct_preserved transaction |})
      else Err "commit decision does not match the compaction transaction"
  | _ => Err "a commit decision is required to create a compaction envelope"
  end.
