(* ===== verification/CompactionCommit.v ===== *)
(** * Compaction commits

    Theorems on packages/coding-agent/src/core/compaction/transaction.ts: what
    was validated once validates again to the same value, a commit is decided
    exactly when nothing moved since the snapshot, and the barrier only opens
    over a closed transcript. *)

From Stdlib Require Import Ascii String ZArith Lia Permutation.
From stdpp Require Import base list option strings.
From S2P Require Import Prelude JsString JsValue Regex Json JsNumber CanonicalJson SessionTermination JournalChecks TranscriptIntegrity.
From S2P Require Import SessionReport CompactionTransaction.

Open Scope string_scope.
Open Scope list_scope.

(** ** Checking again *)

Lemma bounded_again (control : ascii -> bool) (m c field s : string) (value : option json) (n : Z) :
  assertBoundedText control m c value field n = Ok s -> assertBoundedText control m c (Some (JsStr s)) field n = Ok s.
Proof.
  unfold assertBoundedText. destruct value as [[| | |v| |]|]; try done.
  destruct (negb (is_empty v) && length_le v n && negb (sexists control v)) eqn:E; [|done].
  destruct (containsCredentialShape v) eqn:Ec; [done|]. intros [= <-]. by rewrite E, Ec.
Qed.

Lemma metadata_again (field s : string) (value : option json) (n : Z) :
  assertMetadataText value field n = Ok s -> assertMetadataText (Some (JsStr s)) field n = Ok s.
Proof. apply bounded_again. Qed.

Lemma content_again (field s : string) (value : option json) (n : Z) :
  assertContentText value field n = Ok s -> assertContentText (Some (JsStr s)) field n = Ok s.
Proof. apply bounded_again. Qed.

Lemma provenance_again (field s : string) (value : option json) (n : Z) :
  assertProvenanceText value field n = Ok s -> assertProvenanceText (Some (JsStr s)) field n = Ok s.
Proof. apply bounded_again. Qed.

Lemma sha_again (field s : string) (value : option json) :
  assertSha256 value field = Ok s -> assertSha256 (Some (JsStr s)) field = Ok s.
Proof. unfold assertSha256. destruct value as [[| | |v| |]|]; try done. destruct (isValidHashShape v) eqn:E; [|done]. intros [= <-]. by rewrite E. Qed.

Lemma created_again (value : option json) (s : string) : assertCreatedAt value = Ok s -> assertCreatedAt (Some (JsStr s)) = Ok s.
Proof.
  unfold assertCreatedAt. intros (v & Hv & H)%result_bind_Ok. destruct (_ && _) eqn:E; [|done]. injection H as ->.
  rewrite (metadata_again _ _ _ _ Hv). cbn [result_bind]. by rewrite E.
Qed.

Lemma integer_range (value : option json) (field : string) (z : Z) :
  assertSafeInteger value field = Ok z -> (0 <= z <= MAX_SAFE_INTEGER)%Z.
Proof.
  unfold assertSafeInteger, assertSafeNonNegativeInt. destruct value as [[| |l| | |]|]; try done.
  destruct (safe_integer l) as [y|] eqn:E; [|done]. apply safe_integer_bounds in E.
  destruct (Z.ltb_spec y 0); [done|]. intros [= <-]. lia.
Qed.

Lemma integer_again (value : option json) (field : string) (z : Z) :
  assertSafeInteger value field = Ok z -> assertSafeInteger (Some (JsNum (int_text z))) field = Ok z.
Proof.
  intros H%integer_range. unfold assertSafeInteger, assertSafeNonNegativeInt. rewrite safe_integer_text by done.
  by rewrite (proj2 (Z.ltb_ge _ _)) by lia.
Qed.

Lemma nullable_again (value : option json) (field : string) (n : Z) (o : option string) :
  assertNullableMetadataText value field n = Ok o -> assertNullableMetadataText (Some (nullable o)) field n = Ok o.
Proof.
  intros H. assert (E : o = None \/ exists s, o = Some s /\ assertMetadataText value field n = Ok s).
  { unfold assertNullableMetadataText in H. destruct value as [[]|]; try (by injection H as <-; left);
      apply result_bind_Ok in H as (w & Hw & H); injection H as <-; right; by exists w. }
  destruct E as [->|(s & -> & Hs)]; [done|]. unfold assertNullableMetadataText. cbn [nullable from_option].
  by rewrite (metadata_again _ _ _ _ Hs).
Qed.

Lemma identity_part_again (value : option json) (field s : string) :
  copyFileIdentityPart value field = Ok s -> copyFileIdentityPart (Some (JsStr s)) field = Ok s.
Proof. unfold copyFileIdentityPart. destruct value as [[| | |v| |]|]; try done. destruct (_ && _) eqn:E; [|done]. intros [= <-]. by rewrite E. Qed.

Lemma map_again {A} (f : nat -> json -> result string A) (g : A -> json) (index : nat) (items : list json) (xs : list A) :
  (forall i v x, f i v = Ok x -> f i (g x) = Ok x) ->
  map_checked f index items = Ok xs -> map_checked f index (map g xs) = Ok xs /\ length xs = length items.
Proof.
  intros Hf. revert index xs. induction items as [|v items IH]; intros index xs; cbn [map_checked]; [by intros [= <-]|].
  intros (x & Hx & H)%result_bind_Ok. apply result_bind_Ok in H as (ys & Hys & H). injection H as <-.
  destruct (IH _ _ Hys) as [H1 H2]. cbn [map map_checked length]. by rewrite (Hf _ _ _ Hx), H1, H2.
Qed.

Lemma ids_again (value : option json) (field : string) (n : Z) (xs : list string) :
  copyIdArray value field n = Ok xs -> copyIdArray (Some (texts xs)) field n = Ok xs.
Proof.
  unfold copyIdArray. destruct value as [[| | | |items|]|]; try done. destruct (size_le items n) eqn:Es; [|done].
  intros (ys & Hm & H)%result_bind_Ok. destruct (bool_decide (NoDup ys)) eqn:E; [|done]. injection H as ->.
  apply (map_again _ JsStr) in Hm as [H1 H2]; [|intros ???; apply metadata_again].
  unfold texts, size_le in *. rewrite length_map, H2, Es, H1. cbn [result_bind]. by rewrite E.
Qed.

Lemma text_array_again (value : option json) (field : string) (n len : Z) (unique : bool) (xs : list string) :
  copyTextArray value field n len unique = Ok xs -> copyTextArray (Some (texts xs)) field n len unique = Ok xs.
Proof.
  unfold copyTextArray. destruct value as [[| | | |items|]|]; try done. destruct (size_le items n) eqn:Es; [|done].
  intros (ys & Hm & H)%result_bind_Ok. destruct (unique && negb (bool_decide (NoDup ys))) eqn:E; [done|]. injection H as ->.
  apply (map_again _ JsStr) in Hm as [H1 H2]; [|intros ???; apply provenance_again].
  unfold texts, size_le in *. rewrite length_map, H2, Es, H1. cbn [result_bind]. by rewrite E.
Qed.

(** Run the steps of a checked copy, each on what it returned before. *)
Ltac again H :=
  lazymatch type of H with
  | result_bind _ _ = Ok _ =>
      let x := fresh "x" in let Hx := fresh "Hx" in
      apply result_bind_Ok in H as (x & Hx & H); again H
  | _ => idtac
  end.

Lemma history_item_again (i : nat) (v : json) (x : CompactionModelHistoryEntry) :
  copyHistoryItem i v = Ok x -> copyHistoryItem i (history_json x) = Ok x.
Proof.
  unfold copyHistoryItem. cbv zeta. intros H. again H. injection H as <-.
  unfold history_json, jget. cbn [assertRecord assertOnlyKeys map_get String.eqb Ascii.eqb Bool.eqb mh_entryId mh_provider mh_modelId].
  by rewrite (metadata_again _ _ _ _ Hx0), (metadata_again _ _ _ _ Hx1), (metadata_again _ _ _ _ Hx2).
Qed.

Lemma history_items_again (items : list json) (seen : list string) (i : nat) (xs : list CompactionModelHistoryEntry) :
  copyHistoryItems seen i items = Ok xs -> copyHistoryItems seen i (map history_json xs) = Ok xs /\ length xs = length items.
Proof.
  revert seen i xs. induction items as [|v items IH]; intros seen i xs; cbn [copyHistoryItems]; [by intros [= <-]|].
  intros (x & Hx & H)%result_bind_Ok. destruct (one_of_strings seen (mh_entryId x)) eqn:E; [done|].
  apply result_bind_Ok in H as (ys & Hys & H). injection H as <-. destruct (IH _ _ _ Hys) as [H1 H2].
  cbn [map copyHistoryItems length]. by rewrite (history_item_again _ _ _ Hx), H2; cbn [result_bind]; rewrite E, H1.
Qed.

Lemma history_again (value : option json) (xs : list CompactionModelHistoryEntry) :
  copyModelHistory value = Ok xs -> copyModelHistory (Some (JsArr (map history_json xs))) = Ok xs.
Proof.
  unfold copyModelHistory. destruct value as [[| | | |items|]|]; try done. destruct (size_le items _) eqn:Es; [|done].
  intros H. destruct (history_items_again _ _ _ _ H) as [H1 H2]. unfold size_le in *. by rewrite length_map, H2, Es.
Qed.

(** Fields of an object literal. *)
Ltac fields := unfold jget; cbn [assertRecord assertOnlyKeys map_get String.eqb Ascii.eqb Bool.eqb app].

Lemma preserved_again (value : option json) (p : CompactionPreservedProvenance) :
  copyPreservedProvenance value = Ok p -> copyPreservedProvenance (Some (preserved_json p)) = Ok p.
Proof.
  unfold copyPreservedProvenance. destruct value as [v|]; [|done]. intros H. again H. injection H as <-.
  unfold preserved_json. fields. cbn [pp_latestIntent pp_openTasks pp_laneIds pp_acceptancePredicateIds pp_evidenceReceiptIds
    pp_blockerReasons pp_repairEventIds pp_branch pp_worktree pp_modelHistory pp_nextAction].
  rewrite (provenance_again _ _ _ _ Hx0), (text_array_again _ _ _ _ _ _ Hx1), (text_array_again _ _ _ _ _ _ Hx2),
    (text_array_again _ _ _ _ _ _ Hx3), (text_array_again _ _ _ _ _ _ Hx4), (text_array_again _ _ _ _ _ _ Hx5),
    (text_array_again _ _ _ _ _ _ Hx6), (nullable_again _ _ _ _ Hx7), (nullable_again _ _ _ _ Hx8),
    (history_again _ _ Hx9), (provenance_again _ _ _ _ Hx10). reflexivity.
Qed.

Lemma identity_again (value : option json) (o : option SessionFileIdentity) :
  copyFileIdentity value = Ok o ->
  copyFileIdentity ((fun identity => JsObj [("dev", JsStr (dev identity)); ("ino", JsStr (ino identity))]) <$> o) = Ok o.
Proof.
  unfold copyFileIdentity. destruct value as [v|]; [|by intros [= <-]]. intros H. again H. injection H as <-.
  cbn [fmap option_fmap option_map]. fields. cbn [dev ino].
  rewrite (identity_part_again _ _ _ Hx0), (identity_part_again _ _ _ Hx1). reflexivity.
Qed.

Lemma revision_again (value : option json) (t : SessionRevisionToken) :
  createSessionRevisionToken value = Ok t -> createSessionRevisionToken (Some (revision_json t)) = Ok t.
Proof.
  unfold createSessionRevisionToken. destruct value as [v|]; [|done]. intros H. again H. injection H as <-.
  unfold revision_json. cbn [rt_sessionId rt_completeBytes rt_recordCount rt_leafId rt_lastEntryId rt_completePrefixSha256 rt_fileIdentity].
  apply identity_again in Hx11. set (extra := match x11 with Some _ => _ | None => _ end).
  assert (Hr : assertRecord (JsObj ([("schemaVersion", JsNum "1"); ("sessionId", JsStr x1); ("completeBytes", JsNum (int_text x2));
      ("recordCount", JsNum (int_text x3)); ("leafId", nullable x4); ("lastEntryId", nullable x5);
      ("completePrefixSha256", JsStr x6)] ++ extra)) REVISION_KEYS "session revision token must be an object"
      "session revision token" = Ok tt) by (unfold extra; by destruct x11).
  assert (Hf : jget "fileIdentity" (JsObj ([("schemaVersion", JsNum "1"); ("sessionId", JsStr x1); ("completeBytes", JsNum (int_text x2));
      ("recordCount", JsNum (int_text x3)); ("leafId", nullable x4); ("lastEntryId", nullable x5);
      ("completePrefixSha256", JsStr x6)] ++ extra))
      = (fun identity => JsObj [("dev", JsStr (dev identity)); ("ino", JsStr (ino identity))]) <$> x11)
    by (unfold extra; by destruct x11).
  rewrite Hr, Hf, Hx11. clear Hr Hf. cbn [result_bind]. fields.
  rewrite (metadata_again _ _ _ _ Hx1), (integer_again _ _ _ Hx2), (integer_again _ _ _ Hx3), (nullable_again _ _ _ _ Hx4),
    (nullable_again _ _ _ _ Hx5), (sha_again _ _ _ Hx6). cbn [result_bind]. rewrite Hx7, Hx8, Hx9, Hx10. reflexivity.
Qed.

Lemma source_again (value : option json) (s : CompactionSourceIdentity) :
  createCompactionSourceIdentity value = Ok s -> createCompactionSourceIdentity (Some (source_json s)) = Ok s.
Proof.
  unfold createCompactionSourceIdentity. destruct value as [v|]; [|done]. intros H. again H. injection H as <-.
  unfold source_json. fields. cbn [si_sessionId si_entryIds si_firstEntryId si_lastEntryId si_sourceSha256 si_activeLeafId si_messageCount].
  rewrite (metadata_again _ _ _ _ Hx0), (ids_again _ _ _ _ Hx1). cbn [result_bind]. rewrite Hx2. cbn [result_bind].
  rewrite (metadata_again _ _ _ _ Hx3), (metadata_again _ _ _ _ Hx4), (metadata_again _ _ _ _ Hx5), (sha_again _ _ _ Hx6),
    (integer_again _ _ _ Hx7). cbn [result_bind]. rewrite Hx8, Hx9, Hx10. reflexivity.
Qed.

Lemma model_again (value : option json) (m : CompactionModelIdentity) :
  copyModelIdentity value = Ok m -> copyModelIdentity (Some (model_json m)) = Ok m.
Proof.
  unfold copyModelIdentity. destruct value as [v|]; [|done]. intros H. again H. injection H as <-.
  unfold model_json. fields. cbn [mi_provider mi_id]. rewrite (metadata_again _ _ _ _ Hx0), (metadata_again _ _ _ _ Hx1). reflexivity.
Qed.

Lemma transaction_again (input : json) (t : CompactionTransaction) :
  createCompactionTransaction input = Ok t -> createCompactionTransaction (transaction_json t) = Ok t.
Proof.
  unfold createCompactionTransaction. intros H. again H. injection H as <-.
  unfold transaction_json. fields. cbn [ct_transactionId ct_baseRevision ct_source ct_createdAt ct_model ct_preserved].
  rewrite (metadata_again _ _ _ _ Hx1), (created_again _ _ Hx2), (revision_again _ _ Hx3), (source_again _ _ Hx4).
  cbn [result_bind]. rewrite Hx5. cbn [result_bind]. rewrite (model_again _ _ Hx6), (preserved_again _ _ Hx7). reflexivity.
Qed.

Lemma envelope_again (input : json) (e : CompactionEnvelope) :
  validateCompactionEnvelope input = Ok e -> validateCompactionEnvelope (envelope_json e) = Ok e.
Proof.
  unfold validateCompactionEnvelope. intros H. again H. injection H as <-.
  unfold envelope_json. fields. cbn [ce_transactionId ce_baseRevision ce_source ce_createdAt ce_model ce_summary ce_summarySha256 ce_preserved].
  rewrite (metadata_again _ _ _ _ Hx1), (created_again _ _ Hx2), (content_again _ _ _ _ Hx3), (sha_again _ _ _ Hx4),
    (revision_again _ _ Hx5), (source_again _ _ Hx6). cbn [result_bind]. rewrite Hx7. cbn [result_bind].
  rewrite (model_again _ _ Hx8), (preserved_again _ _ Hx9). reflexivity.
Qed.

(** ** The comparison of snapshots *)

Lemma sameRevision_iff (a b : SessionRevisionToken) : sameRevision a b = true <-> a = b.
Proof.
  unfold sameRevision. rewrite !andb_true_iff, !String.eqb_eq, !Z.eqb_eq, !bool_decide_eq_true. split; [|by intros ->].
  intros [[[[[[[H1 H2] H3] H4] H5] H6] H7] H8]. destruct a as [? ? ? ? ? ? fa], b as [? ? ? ? ? ? fb]. cbn in *.
  destruct fa as [[]|], fb as [[]|]; cbn in *; congruence.
Qed.

Lemma sameSource_iff (a b : CompactionSourceIdentity) : sameSource a b = true <-> a = b.
Proof.
  unfold sameSource. rewrite !andb_true_iff, !String.eqb_eq, !Z.eqb_eq, bool_decide_eq_true. split; [|by intros ->].
  intros [[[[[[H1 H2] H3] H4] H5] H6] H7]. destruct a, b. cbn in *. congruence.
Qed.

(** ** The decision *)

(** What a commit is decided on: a valid transaction, an open barrier, and the
    snapshot of the transaction still being current and not summarised yet. *)
Record may_commit (input : DecideCompactionCommitInput) (t : CompactionTransaction) : Prop := {
  mc_transaction : createCompactionTransaction (dc_transaction input) = Ok t;
  mc_barrier : dc_barrier input = barrierResult barrier_ready closed_active_branch [] [];
  mc_revision : createSessionRevisionToken (Some (dc_currentRevision input)) = Ok (ct_baseRevision t);
  mc_source : createCompactionSourceIdentity (Some (dc_currentSource input)) = Ok (ct_source t);
  mc_digests : exists digests, copyDigests (dc_priorCommittedSourceDigests input) = Ok digests /\
    si_sourceSha256 (ct_source t) ∉ digests;
}.

Lemma ready_barrier (b : CompactionBarrierResult) :
  validBarrierResult b = true -> br_status b = barrier_ready -> b = barrierResult barrier_ready closed_active_branch [] [].
Proof.
  unfold validBarrierResult. cbv zeta. destruct b as [status reason pending missing]. cbn. intros H ->.
  rewrite !andb_true_iff, bool_decide_eq_true in H. destruct H as [_ [[-> Hp] Hm]]. by destruct pending, missing.
Qed.

Lemma one_of_false (l : list string) (s : string) : one_of_strings l s = false <-> s ∉ l.
Proof. rewrite <- not_true_iff_false. unfold one_of_strings. by rewrite existsb_eqb_elem. Qed.

Lemma commit_decided (input : DecideCompactionCommitInput) (id : string) (revision : SessionRevisionToken)
    (source : CompactionSourceIdentity) :
  decideCompactionCommit input = decide_commit id revision source <->
  exists t, may_commit input t /\ id = ct_transactionId t /\ revision = ct_baseRevision t /\ source = ct_source t.
Proof.
  unfold decideCompactionCommit. destruct (createCompactionTransaction (dc_transaction input)) as [t|e] eqn:Et.
  2: { split; [done|]. intros (t & [H _ _ _ _] & _). congruence. }
  split.
  - destruct (validBarrierResult (dc_barrier input)) eqn:Eb; [|done]. cbn [negb].
    destruct (br_status (dc_barrier input)) eqn:Es; try done. pose proof (ready_barrier _ Eb Es) as Hb.
    destruct (current_state input) as [[[r s] digests]|] eqn:Ec; [|done].
    unfold current_state in Ec. again Ec. injection Ec as -> -> ->.
    destruct (one_of_strings digests _) eqn:Ed; [done|]. apply one_of_false in Ed.
    destruct (sameRevision (ct_baseRevision t) r) eqn:Er; [|done]. destruct (sameSource (ct_source t) s) eqn:Ess; [|done].
    apply sameRevision_iff in Er as <-. apply sameSource_iff in Ess as <-. cbn [negb]. intros [= <- <- <-].
    exists t. split; [|done]. split; try done. by exists digests.
  - intros (t' & [Ht Hb Hr Hs (digests & Hd & Hn)] & -> & -> & ->). rewrite Et in Ht. injection Ht as <-. rewrite Hb.
    change (validBarrierResult (barrierResult barrier_ready closed_active_branch [] [])) with true. cbn [negb br_status barrierResult].
    unfold current_state. rewrite Hr, Hs, Hd. cbn [result_bind]. apply one_of_false in Hn. rewrite Hn.
    rewrite (proj2 (sameRevision_iff _ _) eq_refl), (proj2 (sameSource_iff _ _) eq_refl). done.
Qed.

(** The envelope of a transaction. *)
Definition envelope_of (t : CompactionTransaction) (summary sha : string) : CompactionEnvelope :=
  {| ce_transactionId := ct_transactionId t; ce_baseRevision := ct_baseRevision t; ce_source := ct_source t;
     ce_createdAt := ct_createdAt t; ce_model := ct_model t; ce_summary := summary; ce_summarySha256 := sha;
     ce_preserved := ct_preserved t |}.

Lemma envelope_valid (input : json) (t : CompactionTransaction) (summary sha : string) :
  createCompactionTransaction input = Ok t ->
  assertContentText (Some (JsStr summary)) "summary" MAX_SUMMARY_LENGTH = Ok summary ->
  assertSha256 (Some (JsStr sha)) "summarySha256" = Ok sha ->
  validateCompactionEnvelope (envelope_json (envelope_of t summary sha)) = Ok (envelope_of t summary sha).
Proof.
  intros H Hs Hsha. unfold createCompactionTransaction in H. again H. injection H as <-.
  assert (Hl : same_leaf x3 x4 = true) by (unfold check in Hx5; by destruct (same_leaf x3 x4)).
  unfold validateCompactionEnvelope, envelope_json, envelope_of. fields.
  cbn [ct_transactionId ct_baseRevision ct_source ct_createdAt ct_model ct_preserved ce_transactionId ce_baseRevision ce_source
    ce_createdAt ce_model ce_summary ce_summarySha256 ce_preserved].
  rewrite (metadata_again _ _ _ _ Hx1), (created_again _ _ Hx2), Hs, Hsha, (revision_again _ _ Hx3), (source_again _ _ Hx4).
  cbn [result_bind]. rewrite Hl. cbn [check result_bind]. by rewrite (model_again _ _ Hx6), (preserved_again _ _ Hx7).
Qed.

Lemma text_Ok (control : ascii -> bool) (m c field s r : string) (n : Z) :
  assertBoundedText control m c (Some (JsStr s)) field n = Ok r -> r = s.
Proof. unfold assertBoundedText. destruct (_ && _ && _); [|done]. destruct (containsCredentialShape s); [done|]. by intros [= <-]. Qed.

Lemma sha_Ok (s r field : string) : assertSha256 (Some (JsStr s)) field = Ok r -> r = s.
Proof. unfold assertSha256. destruct (isValidHashShape s); [|done]. by intros [= <-]. Qed.

(** The envelope asked for after a decision. *)
Definition envelope_input (input : DecideCompactionCommitInput) (summary sha : string) : CreateCompactionEnvelopeInput :=
  {| en_transaction := dc_transaction input; en_decision := decideCompactionCommit input; en_summary := summary;
     en_summarySha256 := sha |}.

Lemma envelope_created (input : DecideCompactionCommitInput) (summary sha : string) (e : CompactionEnvelope) :
  createCompactionEnvelope (envelope_input input summary sha) = Ok e <->
  exists t, may_commit input t /\
    assertContentText (Some (JsStr summary)) "summary" MAX_SUMMARY_LENGTH = Ok summary /\
    assertSha256 (Some (JsStr sha)) "summarySha256" = Ok sha /\ e = envelope_of t summary sha.
Proof.
  assert (Hgo : forall t, may_commit input t ->
    assertContentText (Some (JsStr summary)) "summary" MAX_SUMMARY_LENGTH = Ok summary ->
    assertSha256 (Some (JsStr sha)) "summarySha256" = Ok sha ->
    createCompactionEnvelope (envelope_input input summary sha) = Ok (envelope_of t summary sha)).
  { intros t Hm Hs Hh. assert (Hd : decideCompactionCommit input = decide_commit (ct_transactionId t) (ct_baseRevision t) (ct_source t))
      by (apply commit_decided; by exists t).
    unfold createCompactionEnvelope, envelope_input. cbn [en_summary en_summarySha256 en_decision en_transaction].
    rewrite Hs, Hh, Hd, (mc_transaction _ _ Hm), (revision_again _ _ (mc_revision _ _ Hm)), (source_again _ _ (mc_source _ _ Hm)).
    cbn [result_bind]. rewrite String.eqb_refl, (proj2 (sameRevision_iff _ _) eq_refl), (proj2 (sameSource_iff _ _) eq_refl).
    apply (envelope_valid _ _ _ _ (mc_transaction _ _ Hm) Hs Hh). }
  split; [|intros (t & Hm & Hs & Hh & ->); by apply Hgo].
  intros H. pose proof H as Hc. unfold createCompactionEnvelope, envelope_input in Hc.
  cbn [en_summary en_summarySha256 en_decision en_transaction] in Hc.
  apply result_bind_Ok in Hc as (s & Hs & Hc). apply result_bind_Ok in Hc as (h & Hh & Hc).
  pose proof (text_Ok _ _ _ _ _ _ _ Hs) as ->. pose proof (sha_Ok _ _ _ Hh) as ->.
  destruct (decideCompactionCommit input) as [id revision source| | | | | | |] eqn:Ed; try done.
  apply commit_decided in Ed as (t & Hm & -> & -> & ->). exists t. split_and!; try done.
  rewrite (Hgo t Hm Hs Hh) in H. by injection H.
Qed.

(** ** Persistence *)

Lemma texts_ok (l : list string) : json_ok (texts l) = true.
Proof. unfold texts. cbn [json_ok]. induction l; [done|]. cbn. by rewrite IHl. Qed.

Lemma nullable_ok (o : option string) : json_ok (nullable o) = true.
Proof. by destruct o. Qed.

Lemma envelope_json_ok (e : CompactionEnvelope) : json_ok (envelope_json e) = true.
Proof.
  assert (Hr : json_ok (revision_json (ce_baseRevision e)) = true).
  { unfold revision_json. destruct (rt_fileIdentity _); cbn [app json_ok forallb snd]; by rewrite !int_text_number, !nullable_ok. }
  assert (Hs : json_ok (source_json (ce_source e)) = true)
    by (unfold source_json; cbn [json_ok forallb snd]; by rewrite texts_ok, int_text_number).
  assert (Hh : json_ok (JsArr (map history_json (pp_modelHistory (ce_preserved e)))) = true)
    by (cbn [json_ok]; induction (pp_modelHistory (ce_preserved e)); done).
  assert (Hp : json_ok (preserved_json (ce_preserved e)) = true).
  { unfold preserved_json. apply json_ok_fields. split; [|cbn [map fst]; refine (bool_decide_unpack _ _); vm_compute; exact I].
    repeat (apply Forall_cons; split; [first [apply texts_ok|apply nullable_ok|exact Hh|reflexivity]|]). by apply Forall_nil. }
  unfold envelope_json. apply json_ok_fields. split; [|cbn [map fst]; refine (bool_decide_unpack _ _); vm_compute; exact I].
  repeat (apply Forall_cons; split; [first [exact Hr|exact Hs|exact Hp|reflexivity]|]). by apply Forall_nil.
Qed.

(** ** Properties *)

(** A commit is decided exactly when the transaction is valid, the barrier is
    open, the revision and the source of the session validate to those of the
    transaction, and the source digest is not among those committed before; it
    then carries that transaction, revision and source. *)
Theorem commit_iff_current (input : DecideCompactionCommitInput) (id : string) (revision : SessionRevisionToken)
    (source : CompactionSourceIdentity) :
  decideCompactionCommit input = decide_commit id revision source <->
  exists t, may_commit input t /\ id = ct_transactionId t /\ revision = ct_baseRevision t /\ source = ct_source t.
Proof. apply commit_decided. Qed.


(** ** A concrete commit *)

Definition sample_revision : SessionRevisionToken :=
  {| rt_sessionId := "session-1"; rt_completeBytes := 300; rt_recordCount := 3; rt_leafId := Some "e2"; rt_lastEntryId := Some "e2";
     rt_completePrefixSha256 := EMPTY_SHA256; rt_fileIdentity := Some {| dev := "66"; ino := "1024" |} |}.

Definition sample_source : CompactionSourceIdentity :=
  {| si_sessionId := "session-1"; si_entryIds := ["e1"; "e2"]; si_firstEntryId := "e1"; si_lastEntryId := "e2";
     si_sourceSha256 := EMPTY_SHA256; si_activeLeafId := "e2"; si_messageCount := 2 |}.

Definition sample_transaction : CompactionTransaction :=
  {| ct_transactionId := "compaction-1"; ct_baseRevision := sample_revision; ct_source := sample_source;
     ct_createdAt := "2025-01-02T03:04:05.678Z"; ct_model := {| mi_provider := "anthropic"; mi_id := "claude" |};
     ct_preserved := {| pp_latestIntent := "fix the parser"; pp_openTasks := ["tests"]; pp_laneIds := []; pp_acceptancePredicateIds := [];
       pp_evidenceReceiptIds := []; pp_blockerReasons := []; pp_repairEventIds := []; pp_branch := Some "main"; pp_worktree := None;
       pp_modelHistory := [{| mh_entryId := "e1"; mh_provider := "anthropic"; mh_modelId := "claude" |}];
       pp_nextAction := "run the tests" |} |}.

(** A commit of the sample transaction on a barrier. *)
Definition sample_input (barrier : CompactionBarrierResult) : DecideCompactionCommitInput :=
  {| dc_transaction := transaction_json sample_transaction; dc_currentRevision := revision_json sample_revision;
     dc_currentSource := source_json sample_source; dc_barrier := barrier; dc_priorCommittedSourceDigests := JsArr [] |}.

Definition sample_open : DecideCompactionCommitInput := sample_input (barrierResult barrier_ready closed_active_branch [] []).

Lemma sample_envelope :
  createCompactionEnvelope (envelope_input sample_open "the parser was fixed" EMPTY_SHA256)
  = Ok (envelope_of sample_transaction "the parser was fixed" EMPTY_SHA256).
Proof. vm_compute. reflexivity. Qed.

