(* ===== verification/CompactionBarrier.v ===== *)
(** * The compaction barrier

    Theorems on [evaluateCompactionBarrier] and the consistency check of
    packages/coding-agent/src/core/compaction/transaction.ts: identities are
    compared as multisets, and the barrier opens exactly over a consistent
    report without findings, whose transcript is closed. *)

From Stdlib Require Import Ascii String ZArith QArith Lia Permutation.
From stdpp Require Import base list option strings sets.
From S2P Require Import Prelude JsString JsValue Json JsNumber CanonicalJson SessionTermination JournalChecks TranscriptIntegrity.
From S2P Require Import SessionReport CompactionTransaction CompactionCommit.

Open Scope nat_scope.
Open Scope string_scope.
Open Scope list_scope.

(** ** Multisets of texts *)

(** A map that counts the items of a list, the absent ones having no entry. *)
Record counting (m : list (string * nat)) (l : list string) : Prop := {
  cg_keys : NoDup (map fst m);
  cg_get : forall k, map_get k m = if decide (k ∈ l) then Some (count_occ String.string_dec l k) else None;
}.

Lemma counting_of (l : list string) : counting (counts_of l) l.
Proof. split; [apply counts_of_NoDup|apply counts_of_get]. Qed.

Lemma counting_perm (m : list (string * nat)) (l r : list string) : l ≡ₚ r -> counting m l -> counting m r.
Proof.
  intros Hp [Hk Hg]. split; [done|]. intros k. rewrite Hg, (proj1 (Permutation_count_occ String.string_dec l r) Hp k).
  by rewrite (decide_ext (k ∈ l) (k ∈ r)) by by rewrite Hp.
Qed.

Lemma map_get_delete {V} (k k' : string) (m : list (string * V)) :
  map_get k' (map_delete k m) = if String.eqb k k' then None else map_get k' m.
Proof.
  unfold map_delete. induction m as [|[q w] m IH]; cbn; [by destruct (String.eqb k k')|].
  destruct (String.eqb_spec q k) as [->|Hq]; cbn; rewrite IH.
  - by destruct (String.eqb k k').
  - destruct (String.eqb_spec q k'), (String.eqb_spec k k'); congruence.
Qed.

Lemma take_count_cons (m : list (string * nat)) (x : string) (l : list string) :
  counting m (x :: l) -> exists m', take_count m x = Some m' /\ counting m' l.
Proof.
  intros [Hk Hg]. pose proof (Hg x) as Hx. rewrite decide_True in Hx by left. unfold take_count. rewrite Hx.
  assert (Hn : count_occ String.string_dec (x :: l) x = S (count_occ String.string_dec l x))
    by (cbn; by destruct (String.string_dec x x)).
  assert (Ho : forall k, k <> x -> map_get k m = if decide (k ∈ l) then Some (count_occ String.string_dec l k) else None).
  { intros k Hne. rewrite Hg. cbn. destruct (String.string_dec x k) as [->|_]; [done|].
    by rewrite (decide_ext (k ∈ x :: l) (k ∈ l)) by set_solver. }
  cbn [mbind option_bind]. rewrite Hn. eexists. split; [reflexivity|]. cbn [Nat.eqb].
  destruct (count_occ String.string_dec l x) as [|n] eqn:En; cbn [Nat.eqb]; split.
  - rewrite map_delete_keys. by apply NoDup_filter_list.
  - intros k. rewrite map_get_delete. destruct (String.eqb_spec x k) as [<-|Hne]; [|by apply Ho].
    apply count_occ_not_In in En. by rewrite decide_False by by rewrite list_elem_of_In.
  - by apply map_set_NoDup.
  - intros k. rewrite map_get_set. destruct (String.eqb_spec x k) as [<-|Hne]; [|by apply Ho].
    rewrite decide_True; [by rewrite En|]. rewrite list_elem_of_In. apply (count_occ_In String.string_dec). lia.
Qed.

Lemma take_count_absent (m : list (string * nat)) (x : string) (l : list string) :
  counting m l -> x ∉ l -> take_count m x = None.
Proof. intros [_ Hg] Hx. unfold take_count. by rewrite Hg, decide_False. Qed.

Lemma take_counts_iff (m : list (string * nat)) (l r : list string) :
  counting m l ->
  match take_counts m r with
  | Some m' => exists rest, l ≡ₚ r ++ rest /\ counting m' rest
  | None => ~ exists rest, l ≡ₚ r ++ rest
  end.
Proof.
  revert m l. induction r as [|x r IH]; intros m l Hm; cbn [take_counts]; [by exists l|].
  destruct (decide (x ∈ l)) as [[l' Hl]%elem_of_Permutation|Hx].
  - destruct (take_count_cons m x l') as (m1 & -> & H1); [by apply (counting_perm _ l)|].
    cbn [mbind option_bind]. specialize (IH m1 l' H1). destruct (take_counts m1 r) as [m'|].
    + destruct IH as (rest & Hp & Hr). exists rest. by rewrite Hl, Hp.
    + intros [rest Hp]. apply IH. exists rest. rewrite Hl in Hp. by apply Permutation_cons_inv in Hp.
  - rewrite (take_count_absent m x l) by done. cbn [mbind option_bind]. intros [rest Hp]. apply Hx. rewrite Hp. left.
Qed.

Lemma counting_empty (m : list (string * nat)) (l : list string) : counting m l -> length m = 0 <-> l = [].
Proof.
  intros [Hk Hg]. split.
  - intros H%length_zero_iff_nil. subst m. destruct l as [|x l]; [done|]. specialize (Hg x).
    by rewrite decide_True in Hg by left.
  - intros ->. destruct m as [|[k n] m]; [done|]. specialize (Hg k). cbn in Hg. by rewrite String.eqb_refl in Hg.
Qed.

Lemma same_items (l r : list string) : sameMultiset l r = true <-> l ≡ₚ r.
Proof.
  unfold sameMultiset. destruct (Nat.eqb_spec (length l) (length r)) as [Hl|Hl]; cbn [negb].
  2: { split; [done|]. by intros H%Permutation_length. }
  fold (counts_of l). pose proof (take_counts_iff (counts_of l) l r (counting_of l)) as H.
  destruct (take_counts _ r) as [m|].
  - destruct H as (rest & Hp & Hm). rewrite Nat.eqb_eq, (counting_empty _ _ Hm). split.
    + intros ->. by rewrite app_nil_r in Hp.
    + intros Hp'. apply Permutation_length in Hp. rewrite length_app in Hp. destruct rest; [done|cbn in Hp; lia].
  - split; [done|]. intros Hp. destruct H. exists []. by rewrite app_nil_r.
Qed.

Lemma map_inj_perm {A B} (f : A -> B) (l r : list A) :
  (forall x y, f x = f y -> x = y) -> map f l ≡ₚ map f r -> l ≡ₚ r.
Proof.
  intros Hf. revert r. induction l as [|x l IH]; intros r H; cbn [map] in H.
  - apply Permutation_nil in H. by destruct r.
  - assert (Hx : f x ∈ map f r) by (rewrite <- H; left). apply list_elem_of_fmap in Hx as (y & Hy & Hin).
    apply Hf in Hy as <-. apply elem_of_Permutation in Hin as [r' Hr]. rewrite Hr in H |- *. cbn [map] in H.
    apply Permutation_cons_inv in H. by rewrite (IH r' H).
Qed.

(** ** Identities *)

Lemma issueIdentity_inj (i j : TranscriptIntegrityIssue) : issueIdentity i = issueIdentity j -> i = j.
Proof.
  unfold issueIdentity. intros H. apply (f_equal json_parse) in H.
  rewrite !json_parse_print in H by (cbn; by rewrite !nullable_ok). injection H as Hk Hi Hn.
  destruct i as [k id n], j as [k' id' n']. cbn in *. assert (n = n') as -> by (by destruct n, n'; simplify_eq/=).
  by destruct k, k'; simplify_eq/=.
Qed.

(** The issues of a transcript that lacks nothing but results are of different
    calls. *)
Lemma missing_ids_unique (ms : list AgentMessage) :
  accounted ms -> NoDup (map issue_id (issues (inspectTranscriptIntegrity ms))).
Proof.
  intros Ha. pose proof Ha as (Hc & Hr & Hs & Ho). apply only_missing_iff in Ha. revert Ha.
  unfold inspectTranscriptIntegrity. cbn [issues]. rewrite (proj2 (order_pass_initial ms Hc Hs) Ho), app_nil_r.
  unfold count_issues. destruct (count_ids_spec ms) as [-> ->]. intros _.
  rewrite (proj2 (no_duplicates_iff _ (fun id => mk_issue duplicate_call_id id (map_get id (callToolName (count_ids ms))))) Hc),
    (proj2 (no_duplicates_iff _ (fun id => mk_issue duplicate_result id None)) Hr),
    (proj2 (no_absent_iff _ _ (fun id => mk_issue orphan_result id None)) Hs). cbn [app].
  generalize (counts_of_NoDup (call_ids ms)). induction (counts_of (call_ids ms)) as [|[k n] l IH]; [constructor|].
  cbn [map omap list_omap fst]. intros [Hk Hl]%NoDup_cons. specialize (IH Hl).
  destruct (negb (map_has k (counts_of (result_ids ms)))); [|done]. cbn [map issue_id mk_issue]. apply NoDup_cons. split; [|done].
  intros Hin. apply Hk. clear -Hin. induction l as [|[q w] l IH]; [by apply elem_of_nil in Hin|].
  cbn in Hin |- *. apply elem_of_cons. destruct (negb _); [|right; by apply IH].
  cbn in Hin. apply elem_of_cons in Hin as [->|Hin]; [by left|right; by apply IH].
Qed.

(** ** Consistent reports *)

(** What a consistent report with a transcript promises. *)
Record reports (report : SessionIntegrityReport) (t : TranscriptIntegrityReport) : Prop := {
  rs_ok : ok t = ok (inspectTranscriptIntegrity (sr_activeMessages report));
  rs_issues : issues (inspectTranscriptIntegrity (sr_activeMessages report)) ≡ₚ issues t;
  rs_structural : existsb is_structural (sr_findings report) = false;
  rs_findings : map findingIdentity (List.filter (fun f => is_transcript_reason (fi_reason f)) (sr_findings report))
    ≡ₚ map (fun issue => findingIdentity (transcript_finding issue)) (issues (inspectTranscriptIntegrity (sr_activeMessages report)));
}.

Lemma consistent_transcript (report : SessionIntegrityReport) (t : TranscriptIntegrityReport) :
  transcript_consistent report = true -> sr_transcript report = Some t -> reports report t.
Proof.
  unfold transcript_consistent. intros H Ht. rewrite Ht in H.
  rewrite !andb_true_iff, negb_true_iff, !same_items, !Bool.eqb_true_iff in H.
  destruct H as [[_ Hs] [[Hok Hi] Hf]]. split; [done| |done|done]. apply (map_inj_perm issueIdentity); [apply issueIdentity_inj|done].
Qed.

Lemma consistent_absent (report : SessionIntegrityReport) :
  transcript_consistent report = true -> sr_transcript report = None ->
  sr_activeMessages report = [] /\ existsb is_structural (sr_findings report) = true.
Proof.
  unfold transcript_consistent. intros H Ht. rewrite Ht in H. rewrite !andb_true_iff, !Nat.eqb_eq in H.
  destruct H as [[Hm _] Hs]. split; [|done]. by apply length_zero_iff_nil.
Qed.

Lemma inspected_ok (ms : list AgentMessage) :
  ok (inspectTranscriptIntegrity ms) = true <-> issues (inspectTranscriptIntegrity ms) = [].
Proof. unfold inspectTranscriptIntegrity. cbn [ok issues]. by rewrite Nat.eqb_eq, length_zero_iff_nil. Qed.

(** A consistent report has no findings exactly when it says so, and its
    transcript is then closed. *)
Lemma consistent_ok (report : SessionIntegrityReport) :
  reportIsConsistent report = true -> sr_ok report = true <-> sr_findings report = [].
Proof.
  unfold reportIsConsistent, findings_consistent. cbv zeta. rewrite !andb_true_iff, Bool.eqb_true_iff.
  intros H. destruct H as [[[_ [[[[_ H] _] _] _]] _] _]. by rewrite H, Nat.eqb_eq, length_zero_iff_nil.
Qed.

Lemma consistent_parts (report : SessionIntegrityReport) :
  reportIsConsistent report = true -> transcript_consistent report = true.
Proof. unfold reportIsConsistent. intros H. apply andb_true_iff in H. apply H. Qed.

Lemma no_findings_closed (report : SessionIntegrityReport) :
  transcript_consistent report = true -> sr_findings report = [] ->
  exists t, sr_transcript report = Some t /\ issues t = [] /\ ok (inspectTranscriptIntegrity (sr_activeMessages report)) = true.
Proof.
  intros Hc Hf. destruct (sr_transcript report) as [t|] eqn:Et.
  2: { destruct (consistent_absent _ Hc Et) as [_ H]. by rewrite Hf in H. }
  destruct (consistent_transcript _ _ Hc Et) as [Hok Hi _ Hfs]. rewrite Hf in Hfs. cbn [List.filter map] in Hfs.
  apply Permutation_nil, map_eq_nil in Hfs. exists t. split_and!; [done| |by apply inspected_ok].
  rewrite Hfs in Hi. by apply Permutation_nil in Hi.
Qed.

(** ** The barrier's answers *)

Lemma map_checked_length {A} (f : nat -> json -> result string A) (index : nat) (items : list json) (xs : list A) :
  map_checked f index items = Ok xs -> length xs = length items.
Proof.
  revert index xs. induction items as [|v items IH]; intros index xs; cbn [map_checked]; [by intros [= <-]|].
  intros (x & Hx & H)%result_bind_Ok. apply result_bind_Ok in H as (ys & Hys & H). injection H as <-. cbn. by rewrite (IH _ _ Hys).
Qed.

Lemma copied_ids (value : json) (field : string) (n : Z) (ids : list string) :
  copyIdArray (Some value) field n = Ok ids ->
  exists items, value = JsArr items /\ length ids = length items /\ size_le ids n = true /\ NoDup ids /\
    map_checked (fun index item => assertMetadataText (Some item) (item_field field index) MAX_METADATA_LENGTH) 0 items = Ok ids.
Proof.
  unfold copyIdArray. destruct value as [| | | |items|]; try done. destruct (size_le items n) eqn:Es; [|done].
  intros (ys & Hm & H)%result_bind_Ok. destruct (bool_decide_reflect (NoDup ys)); [|done]. injection H as ->.
  pose proof (map_checked_length _ _ _ _ Hm) as Hl. exists items. split_and!; try done. unfold size_le in *. by rewrite Hl.
Qed.

Lemma empty_ids (value : json) (field : string) (n : Z) : copyIdArray (Some value) field n = Ok [] -> value = JsArr [].
Proof. intros (items & -> & Hl & _)%copied_ids. by destruct items. Qed.

Lemma all_missing_filter (l : list TranscriptIntegrityIssue) :
  existsb (fun issue => negb (is_missing issue)) l = false -> List.filter is_missing l = l.
Proof.
  induction l as [|i l IH]; cbn; [done|]. rewrite orb_false_iff, negb_false_iff. intros [-> H]. by rewrite IH.
Qed.

Lemma existsb_false_Forall {A} (p : A -> bool) (l : list A) : existsb p l = false <-> Forall (fun x => p x = false) l.
Proof.
  induction l as [|x l IH]; cbn; [split; [constructor|done]|]. by rewrite orb_false_iff, Forall_cons, IH.
Qed.

(** The barrier after its two first exits: the pending calls are copied, the
    report is consistent and nothing blocks but missing results. *)
Record past_structure (report : SessionIntegrityReport) (pendingToolCallIds : json) (pending : list string)
    (t : TranscriptIntegrityReport) : Prop := {
  pa_pending : copyIdArray (Some pendingToolCallIds) "pendingToolCallIds" MAX_PROVENANCE_IDS = Ok pending;
  pa_consistent : reportIsConsistent report = true;
  pa_transcript : sr_transcript report = Some t;
  pa_findings : Forall (fun f => fi_reason f = fr_transcript missing_result) (sr_findings report);
  pa_issues : Forall (fun issue => issue_kind issue = missing_result) (issues t);
  pa_permuted : issues (inspectTranscriptIntegrity (sr_activeMessages report)) ≡ₚ issues t;
  pa_accounted : accounted (sr_activeMessages report);
}.

(** What the barrier answers past its two first exits. *)
Definition barrier_on (report : SessionIntegrityReport) (pending : list string) (t : TranscriptIntegrityReport)
    : CompactionBarrierResult :=
  let missing := map issue_id (issues t) in
  if (0 <? length missing)%nat
     && (negb (missingCallsAreAtActiveTail report missing) || existsb (fun id => negb (one_of_strings pending id)) missing)
  then barrierResult barrier_fail_closed unsafe_missing_tool_results pending missing
  else if (0 <? length missing)%nat then barrierResult barrier_defer missing_active_tail_results pending missing
  else if (0 <? length pending)%nat then barrierResult barrier_defer pending_tool_calls pending []
  else barrierResult barrier_ready closed_active_branch [] [].

(** The exits of the barrier. *)
Lemma barrier_cases (report : SessionIntegrityReport) (value : json) :
  (exists e, copyIdArray (Some value) "pendingToolCallIds" MAX_PROVENANCE_IDS = Err e /\
     evaluateCompactionBarrier report value = barrierResult barrier_fail_closed invalid_pending_tool_ids [] [])
  \/ (exists pending reason, copyIdArray (Some value) "pendingToolCallIds" MAX_PROVENANCE_IDS = Ok pending /\
     (reason = inconsistent_integrity_report \/ reason = structural_integrity_failure) /\
     (reason = structural_integrity_failure -> reportIsConsistent report = true) /\
     (sr_findings report = [] -> reportIsConsistent report = false) /\
     evaluateCompactionBarrier report value = barrierResult barrier_fail_closed reason pending [])
  \/ (exists pending t, past_structure report value pending t /\
     evaluateCompactionBarrier report value = barrier_on report pending t).
Proof.
  unfold evaluateCompactionBarrier. destruct (copyIdArray _ _ _) as [pending|e] eqn:Ep; [right|left; by exists e].
  cbv zeta. destruct (reportIsConsistent report) eqn:Ec; cbn [negb].
  2: { left. exists pending, inconsistent_integrity_report. split_and!; try done. by left. }
  pose proof (consistent_parts _ Ec) as Hc.
  destruct (existsb (fun f => negb (bool_decide (fi_reason f = fr_transcript missing_result))) (sr_findings report)
            || existsb (fun issue => negb (is_missing issue)) (from_option issues [] (sr_transcript report))) eqn:Eb.
  - left. exists pending, structural_integrity_failure. split_and!; try done; [by right|]. intros Hf. exfalso.
    destruct (no_findings_closed _ Hc Hf) as (t & Ht & Hi & _). rewrite Hf, Ht in Eb. cbn in Eb. by rewrite Hi in Eb.
  - right. apply orb_false_iff in Eb as [Hf Hi].
    assert (HF : Forall (fun f => fi_reason f = fr_transcript missing_result) (sr_findings report)).
    { apply existsb_false_Forall in Hf. eapply Forall_impl; [exact Hf|]. intros f H. by apply negb_false_iff, bool_decide_eq_true in H. }
    destruct (sr_transcript report) as [t|] eqn:Et.
    2: { destruct (consistent_absent _ Hc Et) as [_ H]. exfalso. clear -HF H.
         induction HF as [|f l Hf _ IH]; cbn in H; [done|]. unfold is_structural at 1 in H. rewrite Hf in H. by apply IH. }
    cbn [from_option] in Hi |- *. exists pending, t. rewrite (all_missing_filter _ Hi).
    assert (HI : Forall (fun issue => issue_kind issue = missing_result) (issues t)).
    { apply existsb_false_Forall in Hi. eapply Forall_impl; [exact Hi|]. intros i H. by apply negb_false_iff, bool_decide_eq_true in H. }
    pose proof (consistent_transcript _ _ Hc Et) as [_ Hp _ _]. split; [|done]. split; try done.
    apply only_missing_iff. destruct (List.find not_missing _) as [i|] eqn:Ef; [|done].
    apply List.find_some in Ef as [Hin Hn]. apply list_elem_of_In in Hin. rewrite Hp in Hin.
    rewrite Forall_forall in HI. unfold not_missing in Hn. by rewrite (HI _ Hin) in Hn.
Qed.

Lemma past_no_findings (report : SessionIntegrityReport) (value : json) (pending : list string) (t : TranscriptIntegrityReport) :
  past_structure report value pending t -> issues t = [] -> sr_findings report = [].
Proof.
  intros [_ Hc Ht HF _ Hp _] Hi. destruct (consistent_transcript _ _ (consistent_parts _ Hc) Ht) as [_ _ _ Hf].
  rewrite Hi in Hp. apply Permutation_sym, Permutation_nil in Hp. rewrite Hp in Hf. cbn [map] in Hf.
  apply Permutation_sym, Permutation_nil, map_eq_nil in Hf. clear -HF Hf.
  destruct HF as [|f l H _]; [done|]. cbn in Hf. by rewrite H in Hf.
Qed.

(** The barrier opens exactly on a consistent report that found nothing, while
    no call is pending. *)
Lemma barrier_opens (report : SessionIntegrityReport) (value : json) :
  br_status (evaluateCompactionBarrier report value) = barrier_ready <->
  value = JsArr [] /\ reportIsConsistent report = true /\ sr_findings report = [].
Proof.
  destruct (barrier_cases report value) as [(e & He & ->)|[(pending & reason & Hp & Hr & Hs & Hf & ->)|(pending & t & Hpa & ->)]].
  - split; [done|]. intros (-> & _). discriminate He.
  - split; [done|]. intros (_ & Hc & H). by rewrite Hf in Hc.
  - unfold barrier_on. cbv zeta. rewrite length_map. pose proof Hpa as [Hp Hc Ht _ _ _ _]. split.
    + destruct (issues t) as [|i l] eqn:Ei; cbn [length Nat.ltb Nat.leb andb].
      2: { destruct (_ || _); done. }
      destruct pending as [|]; cbn [length Nat.ltb Nat.leb]; [|done]. intros _.
      split_and!; [by apply empty_ids in Hp|done|by apply (past_no_findings _ _ _ _ Hpa)].
    + intros (-> & _ & H). injection Hp as <-. destruct (no_findings_closed _ (consistent_parts _ Hc) H) as (t' & Ht' & Hi & _).
      rewrite Ht in Ht'. injection Ht' as <-. by rewrite Hi.
Qed.

Lemma open_is_balanced (report : SessionIntegrityReport) (value : json) :
  br_status (evaluateCompactionBarrier report value) = barrier_ready ->
  NoDup (call_ids (sr_activeMessages report)) /\ balanced (sr_activeMessages report).
Proof.
  intros (_ & Hc & Hf)%barrier_opens. apply inspect_balanced. by destruct (no_findings_closed _ (consistent_parts _ Hc) Hf) as (t & _ & _ & H).
Qed.

(** ** Answers as input of a commit *)

Lemma valid_ids_iff (ids : list string) :
  valid_barrier_ids ids = true <->
  size_le ids MAX_PROVENANCE_IDS = true /\ NoDup ids /\
  Forall (fun id => is_ok (assertMetadataText (Some (JsStr id)) "barrier toolCallId" MAX_METADATA_LENGTH) = true) ids.
Proof. unfold valid_barrier_ids. rewrite !andb_true_iff, bool_decide_eq_true, forallb_forall, Forall_forall. setoid_rewrite list_elem_of_In. tauto. Qed.

Lemma metadata_field (field field' s : string) (value : option json) (n : Z) :
  assertMetadataText value field n = Ok s -> is_ok (assertMetadataText (Some (JsStr s)) field' n) = true.
Proof.
  intros H%metadata_again. unfold assertMetadataText, assertBoundedText in *.
  destruct (_ && _ && _); [|done]. by destruct (containsCredentialShape s).
Qed.

Lemma copied_valid (value : json) (field : string) (ids : list string) :
  copyIdArray (Some value) field MAX_PROVENANCE_IDS = Ok ids -> valid_barrier_ids ids = true.
Proof.
  intros (items & _ & _ & Hs & Hnd & Hm)%copied_ids. apply valid_ids_iff. split_and!; [done..|].
  clear -Hm. revert Hm. generalize 0%nat. revert ids. induction items as [|v items IH]; intros ids i; cbn [map_checked].
  - by intros [= <-].
  - intros (x & Hx & H)%result_bind_Ok. apply result_bind_Ok in H as (ys & Hys & H). injection H as <-.
    apply Forall_cons. split; [exact (metadata_field _ _ _ _ _ Hx)|by apply (IH _ (S i))].
Qed.

Lemma valid_ids_subset (ids pending : list string) :
  NoDup ids -> ids ⊆ pending -> valid_barrier_ids pending = true -> valid_barrier_ids ids = true.
Proof.
  rewrite !valid_ids_iff. intros Hn Hs (Hsize & Hnd & HF). split_and!; [|done|].
  - apply NoDup_submseteq in Hs; [|done]. apply submseteq_length in Hs. unfold size_le in *. breflect. lia.
  - apply Forall_forall. intros x Hx. rewrite Forall_forall in HF. by apply HF, Hs.
Qed.

Lemma fail_closed_valid (reason : CompactionBarrierReason) (pending : list string) :
  reason = invalid_pending_tool_ids \/ reason = inconsistent_integrity_report \/ reason = structural_integrity_failure ->
  valid_barrier_ids pending = true -> validBarrierResult (barrierResult barrier_fail_closed reason pending []) = true.
Proof. unfold validBarrierResult. cbn. intros Hr ->. by destruct Hr as [->|[->| ->]]. Qed.

Lemma missing_unique (report : SessionIntegrityReport) (value : json) (pending : list string) (t : TranscriptIntegrityReport) :
  past_structure report value pending t -> NoDup (map issue_id (issues t)).
Proof. intros H. rewrite <- (pa_permuted _ _ _ _ H). apply missing_ids_unique, (pa_accounted _ _ _ _ H). Qed.

(** Every answer of the barrier but one is accepted as the input of a commit:
    the missing calls of the last one need not be metadata. *)
Lemma answer_valid (report : SessionIntegrityReport) (value : json) :
  br_reason (evaluateCompactionBarrier report value) <> unsafe_missing_tool_results ->
  validBarrierResult (evaluateCompactionBarrier report value) = true.
Proof.
  destruct (barrier_cases report value) as [(e & He & ->)|[(pending & reason & Hp & Hr & _ & _ & ->)|(pending & t & Hpa & ->)]].
  - intros _. apply fail_closed_valid; [by left|done].
  - intros _. apply fail_closed_valid; [by right|by apply copied_valid in Hp].
  - pose proof (copied_valid _ _ _ (pa_pending _ _ _ _ Hpa)) as Hv. pose proof (missing_unique _ _ _ _ Hpa) as Hn.
    unfold barrier_on. cbv zeta. set (missing := map issue_id (issues t)) in *.
    destruct (0 <? length missing)%nat eqn:El; cbn [andb].
    + destruct (negb (missingCallsAreAtActiveTail report missing)
        || existsb (fun id => negb (one_of_strings pending id)) missing) eqn:Eu; [done|]. intros _.
      apply orb_false_iff in Eu as [_ Hsub%existsb_false_Forall].
      assert (HP : forallb (one_of_strings pending) missing = true).
      { apply forallb_forall. intros x Hx. rewrite Forall_forall in Hsub. by apply negb_false_iff, Hsub, list_elem_of_In. }
      unfold validBarrierResult. cbn [barrierResult br_pendingToolCallIds br_missingToolCallIds br_status br_reason].
      rewrite Hv, El, HP, (valid_ids_subset missing pending Hn); [done| |done].
      intros x Hx. apply existsb_eqb_elem. rewrite forallb_forall in HP. by apply HP, list_elem_of_In.
    + destruct (0 <? length pending)%nat eqn:Epl; intros _; [|done].
      unfold validBarrierResult. cbn [barrierResult br_pendingToolCallIds br_missingToolCallIds br_status br_reason].
      by rewrite Hv, Epl.
Qed.

(** ** Properties *)

(** The comparison of identities by counting decides whether the two lists
    are permutations of each other. *)
Theorem sameMultiset_iff (left right : list string) : sameMultiset left right = true <-> left ≡ₚ right.
Proof. apply same_items. Qed.

(** The barrier opens exactly when no call is pending and the report is
    consistent and found nothing. *)
Theorem barrier_ready_iff (report : SessionIntegrityReport) (pendingToolCallIds : json) :
  br_status (evaluateCompactionBarrier report pendingToolCallIds) = barrier_ready <->
  pendingToolCallIds = JsArr [] /\ reportIsConsistent report = true /\ sr_ok report = true.
Proof.
  rewrite barrier_opens. split; intros (Hp & Hc & H); split_and!; try done; by apply (consistent_ok _ Hc).
Qed.

(** C29: No compaction commits over an open turn. When the barrier of a commit was
    evaluated on a report, then the commit is only decided if no call is
    pending, the report found nothing, and every tool call of its active
    messages, whose identifiers are all different, is directly followed by its
    result. *)
Theorem commit_over_closed_turn (input : DecideCompactionCommitInput) (report : SessionIntegrityReport)
    (pendingToolCallIds : json) (id : string) (revision : SessionRevisionToken) (source : CompactionSourceIdentity)
    (Hb : dc_barrier input = evaluateCompactionBarrier report pendingToolCallIds)
    (Hd : decideCompactionCommit input = decide_commit id revision source) :
  pendingToolCallIds = JsArr [] /\ sr_findings report = [] /\
  NoDup (call_ids (sr_activeMessages report)) /\ balanced (sr_activeMessages report).
Proof.
  apply commit_decided in Hd as (t & Hm & _). pose proof (mc_barrier _ _ Hm) as Ho. rewrite Hb in Ho.
  assert (Hs : br_status (evaluateCompactionBarrier report pendingToolCallIds) = barrier_ready) by by rewrite Ho.
  pose proof (open_is_balanced _ _ Hs) as Hbal. apply barrier_opens in Hs as (Hp & _ & Hf). done.
Qed.

(** What the barrier answers is valid as the input of a commit, its calls
    bounded and unique, except where it reports unsafe missing results. *)
Theorem barrier_answers_commit (report : SessionIntegrityReport) (pendingToolCallIds : json)
    (H : br_reason (evaluateCompactionBarrier report pendingToolCallIds) <> unsafe_missing_tool_results) :
  validBarrierResult (evaluateCompactionBarrier report pendingToolCallIds) = true.
Proof. by apply answer_valid. Qed.

(** ** Concrete reports *)

(** A report on active messages, with the findings their inspection gives. *)
Definition sample_report_on (messages : list AgentMessage) : SessionIntegrityReport :=
  let transcript := inspectTranscriptIntegrity messages in
  let digest := {| bd_byteCount := 300; bd_sha256 := EMPTY_SHA256 |} in
  let entries := [{| re_id := "e1"; re_parentId := None |}; {| re_id := "e2"; re_parentId := Some "e1" |}] in
  {| sr_ok := ok transcript; sr_source := digest; sr_completePrefix := digest; sr_lineCount := 3; sr_trailingFragment := None;
     sr_headerId := Some "session-1"; sr_entries := entries; sr_activeLeafId := Some "e2"; sr_activeBranch := entries;
     sr_activeMessages := messages; sr_transcript := Some transcript; sr_findings := map transcript_finding (issues transcript) |}.

Definition closed_messages : list AgentMessage :=
  [OtherMsg "user" JNull; AssistantMsg [sample_call "a"; sample_call "b"]; sample_result "b"; sample_result "a"].

Lemma commit_over_closed_turn_witness : balanced closed_messages.
Proof.
  apply (commit_over_closed_turn (sample_input (evaluateCompactionBarrier (sample_report_on closed_messages) (JsArr [])))
           (sample_report_on closed_messages) (JsArr []) "compaction-1" sample_revision sample_source eq_refl).
  vm_compute. reflexivity.
Defined.

Lemma barrier_answers_commit_witness :
  evaluateCompactionBarrier (sample_report_on interrupted) (JsArr [JsStr "b"])
    = barrierResult barrier_defer missing_active_tail_results ["b"] ["b"] /\
  validBarrierResult (evaluateCompactionBarrier (sample_report_on interrupted) (JsArr [JsStr "b"])) = true.
Proof.
  split; [vm_compute; reflexivity|]. apply barrier_answers_commit. vm_compute. discriminate.
Defined.

(** The exception: a missing call whose identifier holds a control character
    makes the commit report an invalid input instead of the unsafe results. *)
Lemma unsafe_missing_misreported :
  let messages := [AssistantMsg [sample_call (String (Ascii.ascii_of_nat 10) "call")]] in
  let barrier := evaluateCompactionBarrier (sample_report_on messages) (JsArr []) in
  br_reason barrier = unsafe_missing_tool_results /\
  decideCompactionCommit (sample_input barrier) = decide_invalid_commit_input "compaction-1".
Proof. split; vm_compute; reflexivity. Qed.
