(* ===== verification/CompactionPolicy.v ===== *)
(** * When and with what to compact
    (packages/coding-agent/src/core/compaction: hysteresis.ts, model-policy.ts and
    resume-policy.ts)

    A commit disarms compaction at the normal threshold until the context has
    shrunk to the low watermark; the emergency threshold is always in force. An
    image model never summarises. Inputs are untyped values, an error is the
    message thrown. *)

From Stdlib Require Import String ZArith QArith Lia.
From stdpp Require Import base list option strings sorting.
From S2P Require Import Prelude JsString JsValue TranscriptIntegrity.

Open Scope string_scope.
Open Scope list_scope.

(** ** Hysteresis *)

Record CompactionHysteresisConfig : Type := { rearmRatio : Q; triggerRatio : Q; emergencyRatio : Q }.

Inductive CompactionHysteresisAction : Type := action_compact | action_wait.

Inductive CompactionHysteresisReason : Type :=
| emergency_threshold_reached | trigger_threshold_reached | below_trigger_threshold | commit_disarmed | disarmed_until_rearm
| rearmed_at_low_watermark.

Record CompactionHysteresisResult : Type := {
  hr_action : CompactionHysteresisAction;
  hr_reason : CompactionHysteresisReason;
  hr_armed : bool;
}.

Definition COMPACTION_OUTCOMES : list string := ["none"; "commit"; "abort"; "stale"; "defer"].

Definition keys_among (allowed : list string) (value : jsval) : bool :=
  match value with
  | JObject fields => forallb (fun kv => existsb (String.eqb (fst kv)) allowed) fields
  | _ => true
  end.

Definition assertRatio (value : jsval) (field : string) : result string Q :=
  match value with
  | JNumber (NumFin q) =>
      if Qle_bool 0 q && Qle_bool q 1 then Ok q else Err (field ++ " must be a finite ratio in [0, 1]")%string
  | _ => Err (field ++ " must be a finite ratio in [0, 1]")%string
  end.

Definition createCompactionHysteresisConfig (config : jsval) : result string CompactionHysteresisConfig :=
  if negb (is_record config) then Err "compaction hysteresis config must be an object"
  else if negb (keys_among ["rearmRatio"; "triggerRatio"; "emergencyRatio"] config)
  then Err "compaction hysteresis config contains unsupported keys"
  else
    rearm <-? assertRatio (get_prop "rearmRatio" config) "rearmRatio" ;;
    trigger <-? assertRatio (get_prop "triggerRatio" config) "triggerRatio" ;;
    emergency <-? assertRatio (get_prop "emergencyRatio" config) "emergencyRatio" ;;
    if negb (Qle_bool trigger rearm) && Qle_bool trigger emergency
    then Ok {| rearmRatio := rearm; triggerRatio := trigger; emergencyRatio := emergency |}
    else Err "config must satisfy 0 <= rearmRatio < triggerRatio <= emergencyRatio <= 1".

Definition createCompactionHysteresisState (input : jsval) : result string bool :=
  if is_undefined input then Ok true
  else if negb (is_record input) then Err "compaction hysteresis state must be an object"
  else if negb (keys_among ["armed"] input) then Err "compaction hysteresis state contains unsupported keys"
  else
    match get_prop "armed" input with
    | JUndefined => Ok true
    | JBool armed => Ok armed
    | _ => Err "compaction hysteresis state armed must be a boolean"
    end.

Definition hysteresis_result (action : CompactionHysteresisAction) (reason : CompactionHysteresisReason) (armed : bool)
    : CompactionHysteresisResult :=
  {| hr_action := action; hr_reason := reason; hr_armed := armed |}.

(** The transition on checked inputs. *)
Definition hysteresis_step (config : CompactionHysteresisConfig) (wasArmed : bool) (ratio : Q) (outcome : string)
    : CompactionHysteresisResult :=
  let committed := String.eqb outcome "commit" in
  let armed := if committed then false else wasArmed in
  let rearmed := negb committed && negb armed && Qle_bool ratio (rearmRatio config) in
  let armed := if rearmed then true else armed in
  if Qle_bool (emergencyRatio config) ratio then hysteresis_result action_compact emergency_threshold_reached armed
  else if armed && Qle_bool (triggerRatio config) ratio then hysteresis_result action_compact trigger_threshold_reached armed
  else if committed then hysteresis_result action_wait commit_disarmed false
  else if rearmed then hysteresis_result action_wait rearmed_at_low_watermark true
  else if negb armed then hysteresis_result action_wait disarmed_until_rearm false
  else hysteresis_result action_wait below_trigger_threshold true.

(** [input.outcome ?? "none"], when it is an outcome. *)
Definition outcome_of (value : jsval) : result string string :=
  match value with
  | JUndefined | JNull => Ok "none"
  | JString s =>
      if existsb (String.eqb s) COMPACTION_OUTCOMES then Ok s else Err "outcome must be none, commit, abort, stale, or defer"
  | _ => Err "outcome must be none, commit, abort, stale, or defer"
  end.

Definition stepCompactionHysteresis (input : jsval) : result string CompactionHysteresisResult :=
  if negb (is_record input) then Err "compaction hysteresis input must be an object"
  else if negb (keys_among ["config"; "state"; "ratio"; "outcome"] input)
  then Err "compaction hysteresis input contains unsupported keys"
  else
    config <-? createCompactionHysteresisConfig (get_prop "config" input) ;;
    let stateObj := get_prop "state" input in
    if negb (is_record stateObj) then Err "compaction hysteresis state must be an object"
    else if negb (keys_among ["armed"] stateObj) then Err "compaction hysteresis state contains unsupported keys"
    else
      match get_prop "armed" stateObj with
      | JBool armed =>
          ratio <-? assertRatio (get_prop "ratio" input) "ratio" ;;
          outcome <-? outcome_of (get_prop "outcome" input) ;;
          Ok (hysteresis_step config armed ratio outcome)
      | _ => Err "compaction hysteresis state must contain an armed boolean"
      end.

(** ** The model that summarises *)

Record Model : Type := {
  model_id : string;
  model_provider : string;
  (** The other fields, carried along. *)
  model_fields : list (string * jsval);
}.

Definition IMAGINE_MODEL_ID_PREFIX : string := "grok-imagine-".
Definition COMPACTION_PREFERRED_CHAT_IDS : list string := ["grok-4.5"; "grok-4.3"].
Definition COMPACTION_FALLBACK_MODEL_ID : string := "grok-4.5".

Definition isImagineOrGenerationModel (model : Model) : bool := startsWith IMAGINE_MODEL_ID_PREFIX (model_id model).
Definition isChatCompactionCandidate (model : Model) : bool := negb (startsWith IMAGINE_MODEL_ID_PREFIX (model_id model)).

(** The place of an identifier among the preferred ones, or after them. *)
Fixpoint preferred_rank (ids : list string) (modelId : string) : nat :=
  match ids with
  | [] => 0
  | id :: rest => if String.eqb id modelId then 0 else S (preferred_rank rest modelId)
  end.

Definition preferredChatRank (modelId : string) : nat := preferred_rank COMPACTION_PREFERRED_CHAT_IDS modelId.

Definition compare_rank (a b : Model) : comparison := Nat.compare (preferredChatRank (model_id a)) (preferredChatRank (model_id b)).

Definition resolveCompactionModel (sessionModel : Model) (availableModels : option (list Model)) : Model :=
  if negb (isImagineOrGenerationModel sessionModel) then sessionModel
  else
    let fallback := {| model_id := COMPACTION_FALLBACK_MODEL_ID; model_provider := model_provider sessionModel;
                       model_fields := model_fields sessionModel |} in
    match availableModels with
    | Some models =>
        default fallback (head (stable_sort compare_rank
          (List.filter (fun m => String.eqb (model_provider m) (model_provider sessionModel) && isChatCompactionCandidate m) models)))
    | None => fallback
    end.

(** ** After a compaction (resume-policy.ts) *)

Definition compactionEmitWillRetry (willRetry hasQueuedAgentMessages : bool) : bool := willRetry || hasQueuedAgentMessages.

(** ** Runs of the hysteresis *)

Definition step_input (config : jsval) (armed : bool) (ratio : jsnum) (outcome : string) : jsval :=
  JObject [("config", config); ("state", JObject [("armed", JBool armed)]); ("ratio", JNumber ratio); ("outcome", JString outcome)].

(** The state fed back from step to step. *)
Fixpoint hysteresis_run (config : jsval) (armed : bool) (steps : list (jsnum * string)) : result string bool :=
  match steps with
  | [] => Ok armed
  | (ratio, outcome) :: rest =>
      stepped <-? stepCompactionHysteresis (step_input config armed ratio outcome) ;;
      hysteresis_run config (hr_armed stepped) rest
  end.

Lemma step_checked (config : jsval) (armed : bool) (ratio : jsnum) (outcome : string) (r : CompactionHysteresisResult) :
  stepCompactionHysteresis (step_input config armed ratio outcome) = Ok r ->
  exists c q, createCompactionHysteresisConfig config = Ok c /\ ratio = NumFin q /\ r = hysteresis_step c armed q outcome.
Proof.
  unfold stepCompactionHysteresis, step_input. cbn [is_record negb keys_among forallb existsb fst String.eqb Ascii.eqb Bool.eqb andb orb get_prop assoc_lookup].
  intros (c & Hc & H)%result_bind_Ok. apply result_bind_Ok in H as (q & Hq & H). apply result_bind_Ok in H as (o & Ho & H).
  injection H as <-. exists c, q. split; [done|]. unfold assertRatio in Hq. destruct ratio as [| |p]; try done.
  destruct (_ && _); [|done]. injection Hq as ->. split; [done|]. unfold outcome_of in Ho. destruct (existsb _ _); [|done].
  by injection Ho as ->.
Qed.

Lemma config_ordered (config : jsval) (c : CompactionHysteresisConfig) :
  createCompactionHysteresisConfig config = Ok c ->
  (0 <= rearmRatio c /\ rearmRatio c < triggerRatio c /\ triggerRatio c <= emergencyRatio c /\ emergencyRatio c <= 1)%Q.
Proof.
  assert (Hr : forall v f q, assertRatio v f = Ok q -> (0 <= q /\ q <= 1)%Q).
  { intros v f q. unfold assertRatio. destruct v as [| | |[| |p]| | |]; try done. destruct (_ && _) eqn:E; [|done].
    intros [= <-]. apply andb_true_iff in E. by rewrite !Qle_bool_iff in E. }
  unfold createCompactionHysteresisConfig. destruct (negb (is_record config)); [done|]. destruct (negb (keys_among _ _)); [done|].
  intros (a & Ha & H)%result_bind_Ok. apply result_bind_Ok in H as (b & Hb & H). apply result_bind_Ok in H as (e & He & H).
  destruct (_ && _) eqn:E; [|done]. injection H as <-. cbn. apply andb_true_iff in E as [E1 E2].
  apply Hr in Ha, Hb, He. rewrite Qle_bool_iff in E2. apply negb_true_iff in E1.
  split_and!; [apply Ha| |done|apply He]. apply Qnot_le_lt. intros H. apply Qle_bool_iff in H. congruence.
Qed.

(** A disarmed hysteresis only arms at the low watermark. *)
Lemma step_disarmed (c : CompactionHysteresisConfig) (q : Q) (outcome : string) :
  hr_armed (hysteresis_step c false q outcome) = true -> (q <= rearmRatio c)%Q /\ outcome <> "commit".
Proof.
  unfold hysteresis_step. destruct (String.eqb_spec outcome "commit") as [->|Hne]; cbn [negb andb].
  - by destruct (Qle_bool (emergencyRatio c) q).
  - destruct (Qle_bool q (rearmRatio c)) eqn:E; [intros _; split; [by apply Qle_bool_iff|done]|].
    cbn. by destruct (Qle_bool (emergencyRatio c) q).
Qed.

Lemma step_committed (c : CompactionHysteresisConfig) (armed : bool) (q : Q) : hr_armed (hysteresis_step c armed q "commit") = false.
Proof. unfold hysteresis_step. cbn. by destruct (Qle_bool (emergencyRatio c) q). Qed.

(** Compaction at the normal threshold starts from an armed state. *)
Lemma trigger_armed (c : CompactionHysteresisConfig) (armed : bool) (q : Q) (outcome : string) :
  (rearmRatio c < triggerRatio c)%Q -> hr_reason (hysteresis_step c armed q outcome) = trigger_threshold_reached -> armed = true.
Proof.
  intros Hlt. destruct armed; [done|]. unfold hysteresis_step. destruct (String.eqb outcome "commit"); cbn [negb andb].
  - by destruct (Qle_bool (emergencyRatio c) q).
  - destruct (Qle_bool q (rearmRatio c)) eqn:E; cbn; destruct (Qle_bool (emergencyRatio c) q); cbn; try done.
    destruct (Qle_bool (triggerRatio c) q) eqn:Et; [|done]. apply Qle_bool_iff in E, Et. intros _. exfalso.
    apply (Qlt_irrefl (rearmRatio c)). apply (Qlt_le_trans _ (triggerRatio c)); [done|]. by apply (Qle_trans _ q).
Qed.

(** The ratio of a step at which a disarmed state may arm. *)
Definition rearms (rearm : Q) (step : jsnum * string) : Prop :=
  snd step <> "commit" /\ exists q, fst step = NumFin q /\ (q <= rearm)%Q.

Lemma run_disarmed (config : jsval) (c : CompactionHysteresisConfig) (steps : list (jsnum * string)) :
  createCompactionHysteresisConfig config = Ok c -> hysteresis_run config false steps = Ok true -> Exists (rearms (rearmRatio c)) steps.
Proof.
  intros Hc. induction steps as [|[ratio outcome] steps IH]; cbn [hysteresis_run]; [done|].
  intros (r & Hr & H)%result_bind_Ok. apply step_checked in Hr as (c' & q & Hc' & -> & ->). rewrite Hc in Hc'. injection Hc' as <-.
  destruct (hr_armed (hysteresis_step c false q outcome)) eqn:E; [|apply Exists_cons_tl; by apply IH].
  apply step_disarmed in E as [Hq Ho]. apply Exists_cons_hd. split; [done|]. by exists q.
Qed.

Lemma run_app (config : jsval) (armed : bool) (a b : list (jsnum * string)) (final : bool) :
  hysteresis_run config armed (a ++ b) = Ok final ->
  exists middle, hysteresis_run config armed a = Ok middle /\ hysteresis_run config middle b = Ok final.
Proof.
  revert armed. induction a as [|[ratio outcome] a IH]; intros armed; cbn [hysteresis_run app]; [by exists armed|].
  intros (r & Hr & H)%result_bind_Ok. destruct (IH _ H) as (m & H1 & H2). exists m. by rewrite Hr.
Qed.

(** ** Properties *)

(** Compactions do not follow each other without need. After a committed
    compaction the normal threshold does not compact again before some step
    without a commit has seen the context at or below the low watermark,
    whatever happened before the commit. *)
Theorem hysteresis_rearms (config : jsval) (c : CompactionHysteresisConfig) (armed final : bool)
    (before after : list (jsnum * string)) (ratio0 ratio : jsnum) (outcome : string) (r : CompactionHysteresisResult)
    (Hc : createCompactionHysteresisConfig config = Ok c)
    (Hrun : hysteresis_run config armed (before ++ (ratio0, "commit") :: after) = Ok final)
    (Hstep : stepCompactionHysteresis (step_input config final ratio outcome) = Ok r)
    (Hr : hr_reason r = trigger_threshold_reached) :
  Exists (rearms (rearmRatio c)) after.
Proof.
  apply run_app in Hrun as (middle & _ & H). cbn [hysteresis_run] in H. apply result_bind_Ok in H as (r0 & Hr0 & H).
  apply step_checked in Hr0 as (c0 & q0 & _ & _ & ->). rewrite step_committed in H.
  apply step_checked in Hstep as (c' & q & Hc' & _ & ->). rewrite Hc in Hc'. injection Hc' as <-.
  pose proof (config_ordered _ _ Hc) as (_ & Hlt & _). apply trigger_armed in Hr as ->; [|done]. by apply (run_disarmed config).
Qed.

(** The summary is never asked of an image model, and never of another
    provider; a chat model of the session is kept, and the best preferred one
    that is available is taken otherwise. *)
Theorem resolved_model_chats (sessionModel : Model) (availableModels : option (list Model)) :
  isImagineOrGenerationModel (resolveCompactionModel sessionModel availableModels) = false /\
  model_provider (resolveCompactionModel sessionModel availableModels) = model_provider sessionModel.
Proof.
  unfold resolveCompactionModel. destruct (isImagineOrGenerationModel sessionModel) eqn:E; cbn [negb]; [|by split].
  destruct availableModels as [models|]; [|by split]. set (candidates := List.filter _ models).
  destruct (stable_sort compare_rank candidates) as [|m rest] eqn:Es; [by split|]. cbn [head default from_option].
  assert (Hm : m ∈ candidates) by (apply (elem_of_stable_sort compare_rank); rewrite Es; left).
  apply elem_of_filter_list in Hm as [_ [Hp Hc]%andb_true_iff]. apply String.eqb_eq in Hp.
  unfold isChatCompactionCandidate in Hc. apply negb_true_iff in Hc. by split.
Qed.

(** A candidate that ranks before another is not passed over for it. *)
Theorem resolved_model_is_preferred (sessionModel m : Model) (models : list Model)
    (Hi : isImagineOrGenerationModel sessionModel = true) (Hm : m ∈ models)
    (Hp : model_provider m = model_provider sessionModel) (Hc : isChatCompactionCandidate m = true) :
  (preferredChatRank (model_id (resolveCompactionModel sessionModel (Some models))) <= preferredChatRank (model_id m))%nat.
Proof.
  unfold resolveCompactionModel. rewrite Hi. cbn [negb]. set (candidates := List.filter _ models).
  assert (Hin : m ∈ stable_sort compare_rank candidates).
  { apply elem_of_stable_sort, elem_of_filter_list. split; [done|]. by rewrite Hp, String.eqb_refl, Hc. }
  assert (Hs : StronglySorted (cmp_le compare_rank) (stable_sort compare_rank candidates)).
  { apply stable_sort_sorted; [intros x y; unfold compare_rank; apply Nat.compare_antisym|].
    intros x y z. unfold cmp_le, compare_rank. rewrite !Nat.compare_gt_iff. lia. }
  destruct Hs as [|x l _ Hx]; [by apply elem_of_nil in Hin|]. cbn [head default from_option].
  apply elem_of_cons in Hin as [->|Hin]; [done|]. rewrite Forall_forall in Hx. specialize (Hx m Hin).
  unfold cmp_le, compare_rank in Hx. rewrite Nat.compare_gt_iff in Hx. change (id x) with x. lia.
Qed.

(** ** A concrete run *)

Definition sample_config : jsval :=
  JObject [("rearmRatio", JNumber (NumFin (6 # 10))); ("triggerRatio", JNumber (NumFin (8 # 10)));
           ("emergencyRatio", JNumber (NumFin (98 # 100)))].

Lemma hysteresis_rearms_witness :
  Exists (rearms (6 # 10)) [(NumFin (9 # 10), "none"); (NumFin (1 # 2), "none")].
Proof.
  apply (hysteresis_rearms sample_config {| rearmRatio := 6 # 10; triggerRatio := 8 # 10; emergencyRatio := 98 # 100 |} true true
           [(NumFin (85 # 100), "none")] [(NumFin (9 # 10), "none"); (NumFin (1 # 2), "none")] (NumFin 0) (NumFin (85 # 100)) "none"
           (hysteresis_result action_compact trigger_threshold_reached true)); vm_compute; reflexivity.
Defined.
