(* ===== verification/SessionShapes.v ===== *)
(** * The shapes of session records
    (packages/coding-agent/src/core/session-integrity.ts, the validators)

    Predicates on the parsed value of a line: the header of a session, the
    messages of the agent and the nine kinds of entries. [dateMs] is the
    language's [new Date(text).getTime()]. *)

From Stdlib Require Import Ascii String ZArith QArith Lia.
From stdpp Require Import base list option strings.
From S2P Require Import Prelude JsString JsValue Json JsNumber SessionTermination JournalChecks.

Open Scope string_scope.
Open Scope list_scope.

Definition CURRENT_SESSION_VERSION : Z := 3.

Definition SUPPORTED_ENTRY_TYPES : list string :=
  ["message"; "thinking_level_change"; "model_change"; "compaction"; "branch_summary"; "custom"; "custom_message"; "label";
   "session_info"].

(** ** Values *)

Definition isRecord (value : json) : bool :=
  match value with
  | JsObj _ => true
  | _ => false
  end.

Definition is_string (value : option json) : bool :=
  match value with
  | Some (JsStr _) => true
  | _ => false
  end.

Definition is_boolean (value : option json) : bool :=
  match value with
  | Some (JsBool _) => true
  | _ => false
  end.

(** [value === undefined || test(value)] *)
Definition absent_or (test : option json -> bool) (value : option json) : bool :=
  match value with
  | None => true
  | Some _ => test value
  end.

(** [value === text] *)
Definition is_text (text : string) (value : option json) : bool :=
  match value with
  | Some (JsStr s) => String.eqb s text
  | _ => false
  end.

Definition is_array_of (test : json -> bool) (value : option json) : bool :=
  match value with
  | Some (JsArr items) => forallb test items
  | _ => false
  end.

Definition is_record_with (test : json -> bool) (value : option json) : bool :=
  match value with
  | Some v => isRecord v && test v
  | None => false
  end.

Definition nonEmptyString (value : option json) : bool :=
  match value with
  | Some (JsStr s) => negb (is_empty s)
  | _ => false
  end.

Definition finiteNonNegativeNumber (value : option json) : bool :=
  match value with
  | Some (JsNum literal) => finite_non_negative literal
  | _ => false
  end.

(** ** Content *)

Definition validTextContent (value : json) : bool :=
  isRecord value && is_text "text" (jget "type" value) && is_string (jget "text" value)
  && absent_or is_string (jget "textSignature" value).

Definition validImageContent (value : json) : bool :=
  isRecord value && is_text "image" (jget "type" value) && is_string (jget "data" value) && is_string (jget "mimeType" value).

Definition validThinkingContent (value : json) : bool :=
  isRecord value && is_text "thinking" (jget "type" value) && is_string (jget "thinking" value)
  && absent_or is_string (jget "thinkingSignature" value) && absent_or is_boolean (jget "redacted" value).

Definition validToolCall (value : json) : bool :=
  isRecord value && is_text "toolCall" (jget "type" value) && nonEmptyString (jget "id" value)
  && nonEmptyString (jget "name" value) && is_record_with (fun _ => true) (jget "arguments" value)
  && absent_or is_string (jget "thoughtSignature" value).

Definition text_or_image (block : json) : bool := validTextContent block || validImageContent block.

Definition validUserContent (value : option json) : bool := is_string value || is_array_of text_or_image value.

Definition validUsage (value : option json) : bool :=
  is_record_with (fun usage =>
    is_record_with (fun cost =>
      forallb (fun key => finiteNonNegativeNumber (jget key usage)) ["input"; "output"; "cacheRead"; "cacheWrite"; "totalTokens"]
      && forallb (fun key => finiteNonNegativeNumber (jget key cost)) ["input"; "output"; "cacheRead"; "cacheWrite"; "total"])
      (jget "cost" usage)) value.

Definition is_code (value : option json) : bool :=
  match value with
  | Some (JsStr _) | Some (JsNum _) => true
  | _ => false
  end.

Definition validDiagnostic (value : json) : bool :=
  isRecord value && is_string (jget "type" value) && finiteNonNegativeNumber (jget "timestamp" value)
  && absent_or (is_record_with (fun _ => true)) (jget "details" value)
  && absent_or (is_record_with (fun error =>
       is_string (jget "message" error) && absent_or is_string (jget "name" error)
       && absent_or is_string (jget "stack" error) && absent_or is_code (jget "code" error))) (jget "error" value).

(** ** Messages *)

Definition stopReasons : list string := ["stop"; "length"; "toolUse"; "error"; "aborted"].

Definition validAssistant (value : json) : bool :=
  is_array_of (fun block => validTextContent block || validThinkingContent block || validToolCall block) (jget "content" value)
  && nonEmptyString (jget "api" value) && nonEmptyString (jget "provider" value) && nonEmptyString (jget "model" value)
  && absent_or is_string (jget "responseModel" value) && absent_or is_string (jget "responseId" value)
  && absent_or (is_array_of validDiagnostic) (jget "diagnostics" value) && validUsage (jget "usage" value)
  && existsb (fun reason => is_text reason (jget "stopReason" value)) stopReasons
  && absent_or is_string (jget "errorMessage" value).

Definition validToolResult (value : json) : bool :=
  nonEmptyString (jget "toolCallId" value) && nonEmptyString (jget "toolName" value)
  && is_array_of text_or_image (jget "content" value) && is_boolean (jget "isError" value).

Definition validBashExecution (value : json) : bool :=
  is_string (jget "command" value) && is_string (jget "output" value)
  && absent_or finiteNonNegativeNumber (jget "exitCode" value) && is_boolean (jget "cancelled" value)
  && is_boolean (jget "truncated" value) && absent_or is_string (jget "fullOutputPath" value)
  && absent_or is_boolean (jget "excludeFromContext" value).

(** Of a custom message, and of the entry that stands for one. *)
Definition validCustom (value : json) : bool :=
  nonEmptyString (jget "customType" value) && validUserContent (jget "content" value) && is_boolean (jget "display" value).

Definition validAgentMessage (value : json) : bool :=
  isRecord value && finiteNonNegativeNumber (jget "timestamp" value)
  && match jstr "role" value with
     | Some role =>
         if String.eqb role "user" then validUserContent (jget "content" value)
         else if String.eqb role "assistant" then validAssistant value
         else if String.eqb role "toolResult" then validToolResult value
         else if String.eqb role "bashExecution" then validBashExecution value
         else if String.eqb role "custom" then validCustom value
         else if String.eqb role "branchSummary" then is_string (jget "summary" value) && nonEmptyString (jget "fromId" value)
         else if String.eqb role "compactionSummary"
         then is_string (jget "summary" value) && finiteNonNegativeNumber (jget "tokensBefore" value)
         else false
     | None => false
     end.

(** ** Entries and headers *)

Section Entries.
Context (dateMs : string -> jsnum).

Definition validEntryTimestamp (value : option json) : bool :=
  match value with
  | Some (JsStr s) =>
      negb (is_empty s) && match dateMs s with
                           | NumFin q => Qle_bool 0 q
                           | _ => false
                           end
  | _ => false
  end.

(** The fields of an entry of a type; [type] is one of the supported. *)
Definition validBody (type : string) (value : json) : bool :=
  if String.eqb type "message" then from_option validAgentMessage false (jget "message" value)
  else if String.eqb type "thinking_level_change" then is_string (jget "thinkingLevel" value)
  else if String.eqb type "model_change" then nonEmptyString (jget "provider" value) && nonEmptyString (jget "modelId" value)
  else if String.eqb type "compaction" then
    is_string (jget "summary" value) && nonEmptyString (jget "firstKeptEntryId" value)
    && finiteNonNegativeNumber (jget "tokensBefore" value)
  else if String.eqb type "branch_summary" then nonEmptyString (jget "fromId" value) && is_string (jget "summary" value)
  else if String.eqb type "custom" then nonEmptyString (jget "customType" value)
  else if String.eqb type "custom_message" then validCustom value
  else if String.eqb type "label" then nonEmptyString (jget "targetId" value) && absent_or is_string (jget "label" value)
  else if String.eqb type "session_info" then absent_or is_string (jget "name" value)
  else false.

Definition valid_parent (value : option json) : bool :=
  match value with
  | Some JsNull => true
  | _ => nonEmptyString value
  end.

Definition validEntryShape (value : json) : bool :=
  match jstr "type" value with
  | Some type =>
      negb (is_empty type) && one_of_strings SUPPORTED_ENTRY_TYPES type && nonEmptyString (jget "id" value)
      && valid_parent (jget "parentId" value) && validEntryTimestamp (jget "timestamp" value) && validBody type value
  | None => false
  end.
End Entries.
