(* ===== verification/SessionInspection.v ===== *)
(** * Session inspection
    (packages/coding-agent/src/core/session-integrity.ts, and buildSessionContext
    of packages/coding-agent/src/core/session-manager.ts)

    The bytes of a session file are read up to their last newline, line by line;
    entries are linked by their parents, and the messages of the active branch
    are inspected as a transcript. SHA-256 is the parameter [sha256], in hex.
    [None] is a text with a character beyond those of this development, or a
    loop out of fuel, which the theorems exclude. *)

From Stdlib Require Import Ascii String ZArith QArith Lia.
From stdpp Require Import base list option strings.
From S2P Require Import Prelude JsString JsValue Regex Json JsNumber Utf8 SessionTermination JournalChecks JournalInspector.
From S2P Require Import TranscriptIntegrity SessionReport CompactionTransaction SessionShapes.

Open Scope nat_scope.
Open Scope string_scope.
Open Scope list_scope.

(** ** Findings *)

Definition line_finding (reason : SessionIntegrityReasonCode) (line : nat) : SessionIntegrityFinding :=
  {| fi_reason := reason; fi_line := Some (Z.of_nat line); fi_entryId := None; fi_parentId := None; fi_cycleEntryIds := None;
     fi_toolCallId := None; fi_toolName := None |}.

Definition entry_finding (reason : SessionIntegrityReasonCode) (line : option nat) (entryId parentId : option string)
    : SessionIntegrityFinding :=
  {| fi_reason := reason; fi_line := Z.of_nat <$> line; fi_entryId := entryId; fi_parentId := parentId; fi_cycleEntryIds := None;
     fi_toolCallId := None; fi_toolName := None |}.

Definition cycle_finding (cycleEntryIds : list string) : SessionIntegrityFinding :=
  {| fi_reason := if (length cycleEntryIds =? 1)%nat then fr_self_cycle else fr_parent_cycle; fi_line := None;
     fi_entryId := head cycleEntryIds; fi_parentId := None; fi_cycleEntryIds := Some cycleEntryIds; fi_toolCallId := None;
     fi_toolName := None |}.

(** ** Lines *)

(** The values of the lines from a number on, and the findings of the others. *)
Fixpoint read_lines (line : nat) (lines : list string) : list (nat * json) * list SessionIntegrityFinding :=
  match lines with
  | [] => ([], [])
  | text :: rest =>
      let (records, findings) := read_lines (S line) rest in
      match (if is_empty (trim text) then None else json_parse text) with
      | Some value => ((line, value) :: records, findings)
      | None => (records, line_finding fr_malformed_json line :: findings)
      end
  end.

Definition is_session (value : json) : bool := isRecord value && is_text "session" (jget "type" value).

Definition validHeader (value : json) (line : nat) : result SessionIntegrityFinding unit :=
  if negb (version_is CURRENT_SESSION_VERSION (jget "version" value)) then Err (line_finding fr_unsupported_header line)
  else if nonEmptyString (jget "id" value) && nonEmptyString (jget "timestamp" value) && nonEmptyString (jget "cwd" value)
          && absent_or is_string (jget "parentSession" value)
  then Ok tt
  else Err (line_finding fr_invalid_header line).

(** The header of the first line, and the findings on all headers. *)
Definition inspect_headers (records : list (nat * json)) : option json * list SessionIntegrityFinding :=
  let headerRecords := List.filter (fun record => is_session (snd record)) records in
  let (header, first) := match List.find (fun record => (fst record =? 1)%nat) records with
                         | Some (_, value) =>
                             if is_session value then
                               match validHeader value 1 with
                               | Ok _ => (Some value, [])
                               | Err finding => (None, [finding])
                               end
                             else (None, [line_finding fr_missing_header 1])
                         | None => (None, [line_finding fr_missing_header 1])
                         end in
  let multiple := match headerRecords with
                  | _ :: second :: _ => [line_finding fr_multiple_header (fst second)]
                  | _ => []
                  end in
  let late := concat (map (fun record : nat * json =>
                if (fst record =? 1)%nat then []
                else line_finding fr_late_header (fst record)
                       :: (if version_is CURRENT_SESSION_VERSION (jget "version" (snd record)) then []
                           else [line_finding fr_unsupported_header (fst record)])) headerRecords) in
  (header, first ++ multiple ++ late).

Section Inspection.
Context (dateMs : string -> jsnum) (sha256 : string -> string).

(** An entry, or the finding that drops it; a header is neither. *)
Definition inspect_entry (record : nat * json) : option (result SessionIntegrityFinding (nat * json)) :=
  let (line, value) := record in
  if is_session value then None
  else if negb (isRecord value) then Some (Err (line_finding fr_invalid_entry line))
  else if match jstr "type" value with
          | Some type => negb (one_of_strings SUPPORTED_ENTRY_TYPES type)
          | None => false
          end
  then Some (Err (line_finding fr_unsupported_entry line))
  else if negb (validEntryShape dateMs value) then
    Some (Err (entry_finding fr_invalid_entry (Some line) (jstr "id" value) None))
  else Some (Ok (line, value)).

Definition parsed_entries (records : list (nat * json)) : list (nat * json) :=
  omap (fun record => match inspect_entry record with
                      | Some (Ok parsed) => Some parsed
                      | _ => None
                      end) records.

Definition entry_findings (records : list (nat * json)) : list SessionIntegrityFinding :=
  omap (fun record => match inspect_entry record with
                      | Some (Err finding) => Some finding
                      | _ => None
                      end) records.

(** ** Links *)

Definition ref_id (entry : json) : string := text_of "id" entry.
Definition ref_parent (entry : json) : option string := jstr "parentId" entry.

(** The index keeps the first entry of an identifier. *)
Fixpoint index_entries (byId : list (string * json)) (entries : list (nat * json))
    : list (string * json) * list SessionIntegrityFinding :=
  match entries with
  | [] => (byId, [])
  | (line, entry) :: rest =>
      if map_has (ref_id entry) byId then
        let (index, findings) := index_entries byId rest in
        (index, entry_finding fr_duplicate_entry_id (Some line) (Some (ref_id entry)) None :: findings)
      else index_entries (map_set (ref_id entry) entry byId) rest
  end.

Definition missing_parents (byId : list (string * json)) (entries : list (nat * json)) : list SessionIntegrityFinding :=
  omap (fun parsed : nat * json =>
    parent ← ref_parent (snd parsed);
    if map_has parent byId then None
    else Some (entry_finding fr_missing_parent (Some (fst parsed)) (Some (ref_id (snd parsed))) (Some parent))) entries.

Definition parent_entry (byId : list (string * json)) (entry : json) : option json :=
  parent ← ref_parent entry; map_get parent byId.

Fixpoint index_of (x : string) (l : list string) : option nat :=
  match l with
  | [] => None
  | y :: rest => if String.eqb y x then Some 0 else S <$> index_of x rest
  end.

(** From an entry to its ancestors, until there is none, one is finished or one
    is met again: the path walked, and the cycle. *)
Fixpoint walk (byId : list (string * json)) (finished : list string) (fuel : nat) (path : list string) (current : option json)
    : option (list string * option (list string)) :=
  match fuel with
  | O => None
  | S fuel =>
      match current with
      | None => Some (path, None)
      | Some entry =>
          if one_of_strings finished (ref_id entry) then Some (path, None)
          else
            match index_of (ref_id entry) path with
            | Some seenAt => Some (path, Some (drop seenAt path))
            | None => walk byId finished fuel (path ++ [ref_id entry]) (parent_entry byId entry)
            end
      end
  end.

Fixpoint cycles_from (byId : list (string * json)) (finished : list string) (entries : list (nat * json))
    : option (list (list string)) :=
  match entries with
  | [] => Some []
  | (_, entry) :: rest =>
      if one_of_strings finished (ref_id entry) then cycles_from byId finished rest
      else
        '(path, cycle) ← walk byId finished (S (length byId)) [] (map_get (ref_id entry) byId);
        cycles ← cycles_from byId (finished ++ path) rest;
        Some (match cycle with Some ids => [ids] | None => [] end ++ cycles)
  end.

Definition findCycles (entries : list (nat * json)) (byId : list (string * json)) : option (list SessionIntegrityFinding) :=
  cycles ← cycles_from byId [] entries; Some (map cycle_finding cycles).

(** ** The context of a branch (session-manager.ts, messages.ts) *)

Inductive ContextMessage : Type :=
| ctx_stored (message : json)
| ctx_custom (customType : string) (content : json) (display : bool) (details : option json) (timestamp : jsnum)
| ctx_branch_summary (summary fromId : string) (timestamp : jsnum)
| ctx_compaction_summary (summary tokensBefore : string) (timestamp : jsnum).

Definition createCustomMessage (entry : json) : ContextMessage :=
  ctx_custom (text_of "customType" entry) (default JsNull (jget "content" entry)) (flag_of "display" entry) (jget "details" entry)
    (dateMs (text_of "timestamp" entry)).

Definition createBranchSummaryMessage (entry : json) : ContextMessage :=
  ctx_branch_summary (text_of "summary" entry) (text_of "fromId" entry) (dateMs (text_of "timestamp" entry)).

(** The literal of the number [tokensBefore]. *)
Definition createCompactionSummaryMessage (entry : json) : ContextMessage :=
  ctx_compaction_summary (text_of "summary" entry)
    (match jget "tokensBefore" entry with Some (JsNum literal) => literal | _ => EmptyString end)
    (dateMs (text_of "timestamp" entry)).

Definition has_type (type : string) (entry : json) : bool := is_text type (jget "type" entry).

Definition appendMessage (entry : json) : list ContextMessage :=
  if has_type "message" entry then [ctx_stored (default JsNull (jget "message" entry))]
  else if has_type "custom_message" entry then [createCustomMessage entry]
  else if has_type "branch_summary" entry && negb (is_empty (text_of "summary" entry)) then [createBranchSummaryMessage entry]
  else [].

(** The entries from the first of an identifier on. *)
Fixpoint from_kept (firstKeptEntryId : string) (path : list json) : list json :=
  match path with
  | [] => []
  | entry :: rest => if String.eqb (ref_id entry) firstKeptEntryId then path else from_kept firstKeptEntryId rest
  end.

(** The path before the entry of the compaction, and after it. *)
Fixpoint around (compactionId : string) (path : list json) : list json * list json :=
  match path with
  | [] => ([], [])
  | entry :: rest =>
      if has_type "compaction" entry && String.eqb (ref_id entry) compactionId then ([], rest)
      else let (before, after) := around compactionId rest in (entry :: before, after)
  end.

Record SessionContext : Type := {
  sx_messages : list ContextMessage;
  sx_thinkingLevel : string;
  sx_model : option (string * string);
}.

Definition no_context : SessionContext := {| sx_messages := []; sx_thinkingLevel := "off"; sx_model := None |}.

Definition entry_model (entry : json) : option (string * string) :=
  if has_type "model_change" entry then Some (text_of "provider" entry, text_of "modelId" entry)
  else if has_type "message" entry then
    message ← jget "message" entry;
    if is_text "assistant" (jget "role" message) then Some (text_of "provider" message, text_of "model" message) else None
  else None.

Definition context_of_path (path : list json) : SessionContext :=
  {| sx_messages := match last (List.filter (has_type "compaction") path) with
                    | Some compaction =>
                        let (before, after) := around (ref_id compaction) path in
                        createCompactionSummaryMessage compaction
                          :: concat (map appendMessage (from_kept (text_of "firstKeptEntryId" compaction) before))
                          ++ concat (map appendMessage after)
                    | None => concat (map appendMessage path)
                    end;
     sx_thinkingLevel := default "off" (last (omap (fun entry =>
       if has_type "thinking_level_change" entry then Some (text_of "thinkingLevel" entry) else None) path));
     sx_model := last (omap entry_model path) |}.

(** From an entry up to the root, the root first. *)
Fixpoint path_up (parent : json -> option json) (fuel : nat) (current : option json) (path : list json) : option (list json) :=
  match fuel with
  | O => None
  | S fuel =>
      match current with
      | None => Some path
      | Some entry => path_up parent fuel (parent entry) (entry :: path)
      end
  end.

(** [entry.parentId ? byId.get(entry.parentId) : undefined] *)
Definition truthy_parent (byId : list (string * json)) (entry : json) : option json :=
  parent ← ref_parent entry; if is_empty parent then None else map_get parent byId.

(** [leafId] is [None] when undefined, [Some None] when null. *)
Definition buildSessionContext (entries : list json) (leafId : option (option string)) (byId : option (list (string * json)))
    : option SessionContext :=
  let byId := default (foldl (fun index entry => map_set (ref_id entry) entry index) [] entries) byId in
  match leafId with
  | Some None => Some no_context
  | _ =>
      let found := match leafId with
                   | Some (Some id) => if is_empty id then None else map_get id byId
                   | _ => None
                   end in
      match (match found with Some leaf => Some leaf | None => last entries end) with
      | None => Some no_context
      | Some leaf =>
          path ← path_up (truthy_parent byId) (S (length byId)) (Some leaf) [];
          Some (context_of_path path)
      end
  end.

(** What the transcript inspection reads of a message: the role, the calls and
    the call of a result. *)
Definition transcript_block (block : json) : Block :=
  if is_text "toolCall" (jget "type" block)
  then ToolCallBlock {| tc_id := text_of "id" block; tc_name := text_of "name" block |}
  else OtherBlock JUndefined.

Definition transcript_message (message : ContextMessage) : AgentMessage :=
  match message with
  | ctx_stored value =>
      let role := text_of "role" value in
      if String.eqb role "assistant" then
        AssistantMsg (match jget "content" value with Some (JsArr blocks) => map transcript_block blocks | _ => [] end)
      else if String.eqb role "toolResult" then
        ToolResultMsg {| toolCallId := text_of "toolCallId" value; toolName := text_of "toolName" value; tr_content := JUndefined;
                         details := JUndefined; isError := flag_of "isError" value; timestamp := NumNaN |}
      else OtherMsg role JUndefined
  | ctx_custom _ _ _ _ _ => OtherMsg "custom" JUndefined
  | ctx_branch_summary _ _ _ => OtherMsg "branchSummary" JUndefined
  | ctx_compaction_summary _ _ _ => OtherMsg "compactionSummary" JUndefined
  end.

(** ** The inspection *)

Definition digest (bytes : string) : SessionByteDigest :=
  {| bd_byteCount := Z.of_nat (String.length bytes); bd_sha256 := sha256 bytes |}.

Definition report_entry (entry : json) : ReportEntry := {| re_id := ref_id entry; re_parentId := ref_parent entry |}.

(** The compactions whose first kept entry is not one of their ancestors. *)
Fixpoint stray_compactions (ancestorIds : list string) (branch : list json) : list SessionIntegrityFinding :=
  match branch with
  | [] => []
  | entry :: rest =>
      (if has_type "compaction" entry && negb (one_of_strings ancestorIds (text_of "firstKeptEntryId" entry))
       then [entry_finding fr_compaction_first_kept_not_ancestor None (Some (ref_id entry)) None] else [])
      ++ stray_compactions (ancestorIds ++ [ref_id entry]) rest
  end.

(** The active branch, its messages, their transcript and the findings on them. *)
Record ActiveBranch : Type := {
  ab_branch : list json;
  ab_messages : list AgentMessage;
  ab_transcript : option TranscriptIntegrityReport;
  ab_findings : list SessionIntegrityFinding;
}.

Definition no_branch (findings : list SessionIntegrityFinding) : ActiveBranch :=
  {| ab_branch := []; ab_messages := []; ab_transcript := None; ab_findings := findings |}.

(** Nothing on the way to the transcript throws on entries that were validated,
    so that the source's last resort is not reached. *)
Definition inspect_branch (entries : list json) (byId : list (string * json)) (selectedLeaf : option string) (blocked : bool)
    : option ActiveBranch :=
  if match selectedLeaf with Some leaf => negb (map_has leaf byId) | None => false end
  then Some (no_branch [entry_finding fr_active_leaf_missing None selectedLeaf None])
  else if blocked then Some (no_branch [])
  else
    branch ← match selectedLeaf with
             | Some leaf => path_up (parent_entry byId) (S (length byId)) (map_get leaf byId) []
             | None => Some []
             end;
    match stray_compactions [] branch with
    | [] =>
        context ← buildSessionContext entries (Some selectedLeaf) (Some byId);
        let messages := map transcript_message (sx_messages context) in
        let transcript := inspectTranscriptIntegrity messages in
        Some {| ab_branch := branch; ab_messages := messages; ab_transcript := Some transcript;
                ab_findings := map transcript_finding (issues transcript) |}
    | stray => Some {| ab_branch := branch; ab_messages := []; ab_transcript := None; ab_findings := stray |}
    end.

(** The complete lines of the bytes, and the findings on the bytes. *)
Definition session_lines (complete : string) : option (list string * list SessionIntegrityFinding) :=
  if is_empty complete then Some ([], [])
  else
    match utf8_decode complete with
    | utf8_beyond => None
    | utf8_invalid => Some ([], [finding_of fr_invalid_utf8])
    | utf8_text text => Some (split line_feed (slice_to (String.length text - 1) text), [])
    end.

(** What the records say before a leaf is selected. *)
Record ParsedSession : Type := {
  ps_lines : list string;
  ps_header : option json;
  ps_entries : list (nat * json);
  ps_byId : list (string * json);
  ps_findings : list SessionIntegrityFinding;
}.

Definition parse_session (complete : string) : option ParsedSession :=
  '(lines, undecoded) ← session_lines complete;
  let (records, malformed) := read_lines 1 lines in
  let (header, headers) := inspect_headers records in
  let parsedEntries := parsed_entries records in
  let (byId, duplicates) := index_entries [] parsedEntries in
  cycles ← findCycles parsedEntries byId;
  Some {| ps_lines := lines; ps_header := header; ps_entries := parsedEntries; ps_byId := byId;
          ps_findings := undecoded ++ malformed ++ headers ++ entry_findings records ++ duplicates
                         ++ missing_parents byId parsedEntries ++ cycles |}.

Definition not_trailing (finding : SessionIntegrityFinding) : bool :=
  negb (bool_decide (fi_reason finding = fr_trailing_fragment)).

(** [activeLeafId] is [None] when the option is not given. *)
Definition inspectSessionIntegrity (bytes : string) (activeLeafId : option (option string)) : option SessionIntegrityReport :=
  let (complete, trailing) := split_complete bytes in
  let fragment := if is_empty trailing then None else Some (digest trailing) in
  parsed ← parse_session complete;
  let findings := (if is_some fragment then [finding_of fr_trailing_fragment] else []) ++ ps_findings parsed in
  let entries := map snd (ps_entries parsed) in
  let selectedLeaf := default (ref_id <$> last entries) activeLeafId in
  active ← inspect_branch entries (ps_byId parsed) selectedLeaf (existsb not_trailing findings);
  let findings := findings ++ ab_findings active in
  Some {| sr_ok := (length findings =? 0)%nat; sr_source := digest bytes; sr_completePrefix := digest complete;
          sr_lineCount := Z.of_nat (length (ps_lines parsed)); sr_trailingFragment := fragment;
          sr_headerId := ref_id <$> ps_header parsed; sr_entries := map report_entry entries; sr_activeLeafId := selectedLeaf;
          sr_activeBranch := map report_entry (ab_branch active); sr_activeMessages := ab_messages active;
          sr_transcript := ab_transcript active; sr_findings := findings |}.
End Inspection.
