(* ===== verification/SessionGraph.v ===== *)
(** * Parent links

    Walking up the parents of session entries: the loops of a partial function
    on identifiers, the cycles [findCycles] reports, and why no walk of
    packages/coding-agent/src/core/session-integrity.ts runs out of fuel. *)

From Stdlib Require Import Ascii String ZArith Lia.
From stdpp Require Import base list option strings sets relations.
From S2P Require Import Prelude JsString JsValue Json SessionTermination JournalChecks TranscriptIntegrity SessionReport.
From S2P Require Import CompactionTransaction SessionShapes SessionInspection.

Open Scope nat_scope.
Open Scope list_scope.

(** ** Loops of a partial function *)

Section Loops.
Context (up : string -> option string).

Definition above (a b : string) : Prop := up a = Some b.

(** Each element is below the next one. *)
Fixpoint climbs (l : list string) : Prop :=
  match l with
  | a :: (b :: _) as rest => up a = Some b /\ climbs rest
  | _ => True
  end.

Definition on_loop (a : string) : Prop := exists b, up a = Some b /\ rtc above b a.

(** Distinct elements, each below the next, the last one below the first. *)
Definition is_loop (ids : list string) : Prop := exists h t, ids = h :: t /\ NoDup ids /\ climbs (ids ++ [h]).

Definition closed (s : list string) : Prop := forall a b, a ∈ s -> up a = Some b -> b ∈ s.

Lemma climbs_cons (a b : string) (l : list string) : climbs (a :: b :: l) <-> up a = Some b /\ climbs (b :: l).
Proof. done. Qed.

Lemma climbs_app_r (l r : list string) : climbs (l ++ r) -> climbs r.
Proof.
  induction l as [|a l IH]; [done|]. cbn [app]. intros H. apply IH. destruct (l ++ r); [done|]. by apply climbs_cons in H as [_ H].
Qed.

Lemma climbs_app_l (l r : list string) : climbs (l ++ r) -> climbs l.
Proof.
  induction l as [|a [|b l] IH]; [done..|]. cbn [app]. rewrite !climbs_cons. intros [H1 H2]. split; [done|]. by apply IH.
Qed.

Lemma climbs_glue (l r : list string) (x : string) : climbs (l ++ [x]) -> climbs (x :: r) -> climbs (l ++ x :: r).
Proof.
  induction l as [|a [|b l] IH]; [done| |].
  - cbn [app]. rewrite !climbs_cons. by intros [H _].
  - cbn [app] in *. rewrite !climbs_cons. intros [H1 H2] H. split; [done|]. by apply IH.
Qed.

Lemma climbs_rtc (a : string) (l : list string) (b : string) : climbs (a :: l ++ [b]) -> exists c, up a = Some c /\ rtc above c b.
Proof.
  revert a. induction l as [|x l IH]; intros a; cbn [app]; rewrite climbs_cons; intros [H Hc]; [by exists b|].
  exists x. split; [done|]. destruct (IH x Hc) as (c & Hx & Hr). by apply (rtc_l _ _ c).
Qed.

Lemma closed_reach (s : list string) (a b : string) : closed s -> a ∈ s -> rtc above a b -> b ∈ s.
Proof. intros Hs Ha Hr. induction Hr as [|a c b Hac _ IH]; [done|]. by apply IH, (Hs a). Qed.

(** What is outside of a closed set that holds everything above it is on no
    loop. *)
Lemma not_on_loop (s : list string) (a : string) :
  closed s -> a ∉ s -> (forall b, up a = Some b -> b ∈ s) -> ~ on_loop a.
Proof. intros Hs Ha Hup (b & Hb & Hr). by apply Ha, (closed_reach s b); [|apply Hup|]. Qed.

(** A path of new elements that ends in a closed set. *)
Lemma path_closed (s l : list string) :
  closed s -> climbs l -> (forall x b, last l = Some x -> up x = Some b -> b ∈ s) -> closed (l ++ s).
Proof.
  intros Hs. induction l as [|a [|b l] IH]; [done| |].
  - intros _ Hl x c [->|Hx]%elem_of_cons Hc; apply elem_of_app; right; [by apply (Hl a)|by apply (Hs x)].
  - intros [Hab Hc]%climbs_cons Hl x c Hx Hxc. specialize (IH Hc Hl). cbn [app] in *.
    apply elem_of_cons. right. apply elem_of_cons in Hx as [->|Hx]; [|by apply (IH x)].
    rewrite Hab in Hxc. injection Hxc as <-. left.
Qed.

Lemma path_off_loops (s l : list string) (x : string) :
  closed s -> NoDup l -> (forall y, y ∈ l -> y ∉ s) -> climbs l ->
  (forall y b, last l = Some y -> up y = Some b -> b ∈ s) -> x ∈ l -> ~ on_loop x.
Proof.
  intros Hs Hn Hd Hc Hl (l1 & l2 & ->)%list_elem_of_split.
  assert (Hl2 : forall y b, last l2 = Some y -> up y = Some b -> b ∈ s).
  { intros y b Hy. apply Hl. destruct l2 as [|z l2]; [done|]. by rewrite last_app_cons, last_cons_cons. }
  apply climbs_app_r in Hc. apply NoDup_app in Hn as (_ & _ & [Hx Hn]%NoDup_cons).
  assert (Hc2 : climbs l2) by (destruct l2; [done|apply climbs_cons in Hc; apply Hc]).
  apply (not_on_loop (l2 ++ s)); [by apply path_closed| |].
  - rewrite elem_of_app. intros [H|H]; [done|]. apply (Hd x); [set_solver|done].
  - intros b Hb. destruct l2 as [|z l2]; [apply (Hl x); [by rewrite last_snoc|done]|].
    apply climbs_cons in Hc as [Hz _]. rewrite Hb in Hz. injection Hz as ->. set_solver.
Qed.

Lemma loop_closed (ids : list string) : is_loop ids -> closed ids.
Proof.
  intros (h & t & -> & _ & Hc) a b Ha Hb. apply list_elem_of_split in Ha as (l1 & l2 & E). rewrite E in Hc |- *.
  rewrite <- app_assoc in Hc. apply climbs_app_r in Hc. cbn [app] in Hc. destruct l2 as [|c l2]; cbn [app] in Hc.
  - apply climbs_cons in Hc as [Hc _]. rewrite Hb in Hc. injection Hc as ->. rewrite <- E. left.
  - apply climbs_cons in Hc as [Hc _]. rewrite Hb in Hc. injection Hc as ->. set_solver.
Qed.

Lemma loop_on_loop (ids : list string) (x : string) : is_loop ids -> x ∈ ids -> on_loop x.
Proof.
  intros (h & t & -> & _ & Hc) Hx. apply list_elem_of_split in Hx as (l1 & l2 & E). rewrite E in Hc. unfold on_loop.
  destruct l1 as [|y l1]; cbn [app] in E; injection E as E1 E2.
  - subst. cbn [app] in Hc. by apply (climbs_rtc _ l2).
  - subst. pose proof Hc as Hc'. rewrite <- app_assoc in Hc. cbn [app] in Hc.
    change (y :: l1 ++ x :: l2 ++ [y]) with ((y :: l1) ++ x :: l2 ++ [y]) in Hc.
    assert (H1 : climbs (x :: l2 ++ [y])) by by apply climbs_app_r in Hc.
    assert (H2 : climbs (y :: l1 ++ [x])).
    { replace ((y :: l1) ++ x :: l2 ++ [y]) with ((y :: l1 ++ [x]) ++ l2 ++ [y]) in Hc by (cbn; by rewrite <- app_assoc).
      by apply climbs_app_l in Hc. }
    apply (climbs_rtc x (l2 ++ y :: l1)). rewrite <- app_assoc. cbn [app].
    apply (climbs_glue (x :: l2) (l1 ++ [x]) y); done.
Qed.

Lemma repeated_on_loop (l : list string) : climbs l -> ~ NoDup l -> exists x, x ∈ l /\ on_loop x.
Proof.
  induction l as [|a l IH]; intros Hc Hn; [destruct Hn; constructor|].
  destruct (decide (a ∈ l)) as [Ha|Ha].
  - exists a. split; [left|]. apply list_elem_of_split in Ha as (l1 & l2 & ->).
    apply (climbs_rtc a l1). apply (climbs_app_l _ l2). cbn [app] in *. by rewrite <- app_assoc.
  - destruct IH as (x & Hx & Hl).
    + destruct l; [done|]. by apply climbs_cons in Hc as [_ Hc].
    + intros H. apply Hn. by constructor.
    + exists x. split; [by right|done].
Qed.
End Loops.

(** ** Walking up an index *)

Definition up (byId : list (string * json)) (a : string) : option string :=
  entry ← map_get a byId; parent ← ref_parent entry; if map_has parent byId then Some parent else None.

(** Every entry is under its own identifier. *)
Record indexed (byId : list (string * json)) : Prop := {
  ix_keys : NoDup (map fst byId);
  ix_id : forall k entry, map_get k byId = Some entry -> ref_id entry = k;
}.

Section Walk.
Context (byId : list (string * json)) (Hix : indexed byId).

Abbreviation above := (above (up byId)).
Abbreviation climbs := (climbs (up byId)).
Abbreviation is_loop := (is_loop (up byId)).
Abbreviation on_loop := (on_loop (up byId)).
Abbreviation closed := (closed (up byId)).

Definition stored (entry : json) : Prop := map_get (ref_id entry) byId = Some entry.

Lemma stored_get (k : string) (entry : json) : map_get k byId = Some entry -> stored entry /\ ref_id entry = k.
Proof. intros H. pose proof (ix_id _ Hix _ _ H) as E. unfold stored. by rewrite E. Qed.

Lemma stored_key (entry : json) : stored entry -> ref_id entry ∈ map fst byId.
Proof. intros H. apply map_has_keys. unfold map_has. by rewrite H. Qed.

Lemma up_parent (entry : json) : stored entry -> up byId (ref_id entry) = ref_id <$> parent_entry byId entry.
Proof.
  unfold stored, up, parent_entry. intros ->. cbn. destruct (ref_parent entry) as [p|]; [|done]. cbn. unfold map_has.
  destruct (map_get p byId) as [e|] eqn:E; [|done]. cbn. by rewrite (ix_id _ Hix _ _ E).
Qed.

Lemma parent_stored (entry parent : json) : parent_entry byId entry = Some parent -> stored parent.
Proof. unfold parent_entry. destruct (ref_parent entry) as [p|]; [|done]. cbn. intros H. by apply stored_get in H as [H _]. Qed.

Lemma index_of_Some (x : string) (l : list string) (i : nat) :
  index_of x l = Some i -> exists l1 l2, l = l1 ++ x :: l2 /\ drop i l = x :: l2.
Proof.
  revert i. induction l as [|y l IH]; intros i; cbn [index_of]; [done|]. destruct (String.eqb_spec y x) as [->|Hne].
  - intros [= <-]. by exists [], l.
  - destruct (index_of x l) as [j|] eqn:E; [|done]. intros [= <-]. destruct (IH j eq_refl) as (l1 & l2 & -> & Hd).
    by exists (y :: l1), l2.
Qed.

Lemma index_of_None (x : string) (l : list string) : index_of x l = None -> x ∉ l.
Proof.
  induction l as [|y l IH]; cbn [index_of]; [set_solver|]. destruct (String.eqb_spec y x) as [->|Hne]; [done|].
  destruct (index_of x l); [done|]. intros _. specialize (IH eq_refl). set_solver.
Qed.

(** What a walk returns, from a path and on. *)
Record walked (finished path : list string) (cycle : option (list string)) : Prop := {
  wk_NoDup : NoDup path;
  wk_climbs : climbs path;
  wk_fresh : forall x, x ∈ path -> x ∉ finished;
  wk_keys : path ⊆ map fst byId;
  wk_end : match cycle with
           | None => forall y b, last path = Some y -> up byId y = Some b -> b ∈ finished
           | Some ids => exists pre, path = pre ++ ids /\ is_loop ids
           end;
}.

Lemma walk_spec (finished : list string) (fuel : nat) (path : list string) (current : option json) :
  NoDup path -> climbs path -> (forall x, x ∈ path -> x ∉ finished) -> path ⊆ map fst byId ->
  match current with
  | Some entry => stored entry /\ climbs (path ++ [ref_id entry])
  | None => forall y, last path = Some y -> up byId y = None
  end ->
  length byId < fuel + length path ->
  exists path' cycle, walk byId finished fuel path current = Some (path', cycle) /\ (exists ext, path' = path ++ ext) /\
    match current with Some entry => ref_id entry ∈ finished \/ ref_id entry ∈ path' | None => True end /\
    walked finished path' cycle.
Proof.
  assert (Hlen : forall l, NoDup l -> l ⊆ map fst byId -> length l <= length byId).
  { intros l Hn Hs. rewrite <- (length_map fst byId). by apply submseteq_length, NoDup_submseteq. }
  revert path current. induction fuel as [|fuel IH]; intros path current Hn Hc Hd Hk Hcur Hf.
  { specialize (Hlen path Hn Hk). lia. }
  cbn [walk]. destruct current as [entry|].
  2: { exists path, None. split_and!; [done|by exists []; rewrite app_nil_r|done|]. split; try done.
       intros y b Hy Hb. by rewrite (Hcur y Hy) in Hb. }
  destruct Hcur as [Hs Hce]. destruct (one_of_strings finished (ref_id entry)) eqn:Ef.
  { unfold one_of_strings in Ef. rewrite existsb_eqb_elem in Ef. exists path, None.
    split_and!; [done|by exists []; rewrite app_nil_r|by left|]. split; try done.
    intros y b Hy Hb. apply last_Some in Hy as [l' ->]. rewrite <- app_assoc in Hce. apply climbs_app_r in Hce.
    cbn [app] in Hce. apply climbs_cons in Hce as [Hce _]. rewrite Hb in Hce. by injection Hce as ->. }
  assert (Hff : ref_id entry ∉ finished) by (intros H; apply existsb_eqb_elem in H; unfold one_of_strings in Ef; congruence).
  destruct (index_of (ref_id entry) path) as [i|] eqn:Ei.
  - apply index_of_Some in Ei as (l1 & l2 & E & ->). exists path, (Some (ref_id entry :: l2)).
    split_and!; [done|by exists []; rewrite app_nil_r|right; set_solver|]. split; try done. exists l1. split; [done|].
    exists (ref_id entry), l2. split_and!; [done|by rewrite E in Hn; apply NoDup_app in Hn as (_ & _ & Hn)|].
    rewrite E, <- app_assoc in Hce. by apply climbs_app_r in Hce.
  - apply index_of_None in Ei.
    assert (Hn' : NoDup (path ++ [ref_id entry])) by (apply NoDup_app; split_and!; [done|set_solver|apply NoDup_singleton]).
    assert (Hk' : path ++ [ref_id entry] ⊆ map fst byId) by (pose proof (stored_key _ Hs); set_solver).
    destruct (IH (path ++ [ref_id entry]) (parent_entry byId entry)) as (path' & cycle & -> & [ext ->] & _ & Hw);
      [done|done|set_solver|done| |rewrite length_app; cbn [length]; lia|].
    { pose proof (up_parent entry Hs) as Hu. destruct (parent_entry byId entry) as [parent|] eqn:Ep.
      - split; [by apply (parent_stored entry)|]. rewrite <- app_assoc. cbn [app]. apply climbs_glue; [done|by split].
      - intros y Hy. rewrite last_snoc in Hy. by injection Hy as <-. }
    eexists _, cycle. split_and!; [reflexivity|exists (ref_id entry :: ext); by rewrite <- app_assoc|right; set_solver|done].
Qed.

(** The identifiers of a walk and those finished before are closed, and the
    loops among the new ones are the cycle. *)
Lemma walked_closed (finished path : list string) (cycle : option (list string)) :
  closed finished -> walked finished path cycle ->
  closed (finished ++ path) /\ (forall x, x ∈ path -> on_loop x -> x ∈ from_option id [] cycle).
Proof.
  intros HF [Hn Hc Hd _ He].
  assert (Hperm : closed (path ++ finished) -> closed (finished ++ path)).
  { intros H a b Ha Hb. assert (b ∈ path ++ finished) by (apply (H a); [set_solver|done]). set_solver. }
  destruct cycle as [ids|]; cbn [from_option].
  - destruct He as (pre & -> & Hl). pose proof (loop_closed _ _ Hl) as Hlc.
    assert (Hcl : closed (ids ++ finished)).
    { intros a b [Ha|Ha]%elem_of_app Hb; apply elem_of_app; [left; by apply (Hlc a)|right; by apply (HF a)]. }
    assert (Hend : forall y b, last pre = Some y -> up byId y = Some b -> b ∈ ids ++ finished).
    { intros y b Hy Hb. apply last_Some in Hy as [l' ->]. rewrite <- app_assoc in Hc. apply climbs_app_r in Hc.
      destruct Hl as (h & t & -> & _). cbn [app] in Hc. apply climbs_cons in Hc as [Hc _]. rewrite Hb in Hc.
      injection Hc as ->. left. }
    pose proof (climbs_app_l _ _ _ Hc) as Hcp. apply NoDup_app in Hn as (Hnp & Hdis & _). split.
    + apply Hperm. rewrite <- app_assoc. by apply path_closed.
    + intros x Hx Hon. cbn. destruct (decide (x ∈ ids)) as [|Hxi]; [done|]. exfalso.
      apply (path_off_loops (up byId) (ids ++ finished) pre x); try done; [|set_solver].
      intros y Hy [Hi|Hi]%elem_of_app; [by apply (Hdis y)|]. by apply (Hd y); [set_solver|].
  - split; [apply Hperm; by apply path_closed|]. intros x Hx Hon. exfalso. by apply (path_off_loops (up byId) finished path x).
Qed.

(** The cycles reported from the entries on, after some identifiers. *)
Record reported (finished : list string) (entries : list (nat * json)) (cycles : list (list string)) : Prop := {
  rd_loops : Forall is_loop cycles;
  rd_NoDup : NoDup (concat cycles);
  rd_fresh : forall x, x ∈ concat cycles -> x ∉ finished;
  rd_complete : forall x, x ∈ map (fun parsed => ref_id (snd parsed)) entries -> x ∉ finished -> on_loop x -> x ∈ concat cycles;
}.

Lemma cycles_from_spec (finished : list string) (entries : list (nat * json)) :
  closed finished -> (forall parsed, parsed ∈ entries -> map_has (ref_id (snd parsed)) byId = true) ->
  exists cycles, cycles_from byId finished entries = Some cycles /\ reported finished entries cycles.
Proof.
  revert finished. induction entries as [|[line entry] entries IH]; intros finished HF Hin; cbn [cycles_from].
  { exists []. split; [done|]. split; [constructor|constructor|set_solver|set_solver]. }
  assert (Hin' : forall parsed, parsed ∈ entries -> map_has (ref_id (snd parsed)) byId = true) by (intros; apply Hin; by right).
  destruct (one_of_strings finished (ref_id entry)) eqn:Ef.
  { unfold one_of_strings in Ef. rewrite existsb_eqb_elem in Ef. destruct (IH finished HF Hin') as (cycles & -> & [Hl Hn Hf Hc]).
    exists cycles. split; [done|]. split; try done. cbn [map snd]. intros x [->|Hx]%elem_of_cons Hxf; [done|by apply Hc]. }
  specialize (Hin (line, entry) ltac:(left)). unfold map_has in Hin. cbn [snd] in Hin.
  destruct (map_get (ref_id entry) byId) as [first|] eqn:Eg; [|done]. apply stored_get in Eg as [Hs He].
  destruct (walk_spec finished (S (length byId)) [] (Some first)) as (path & cycle & -> & _ & Hr & Hw);
    [constructor|done|set_solver|set_solver|done|cbn; lia|].
  destruct (walked_closed _ _ _ HF Hw) as [Hcl Hloops]. cbn [mbind option_bind].
  destruct (IH _ Hcl Hin') as (cycles & -> & [Hl Hn Hf Hc]). cbn [mbind option_bind]. eexists. split; [reflexivity|].
  assert (Hcy : concat (match cycle with Some ids => [ids] | None => [] end) = from_option id [] cycle)
    by (destruct cycle; cbn; [apply app_nil_r|done]).
  assert (Hsub : from_option id [] cycle ⊆ path).
  { pose proof (wk_end _ _ _ Hw) as H. destruct cycle as [ids|]; cbn; [|set_solver]. destruct H as (pre & -> & _). set_solver. }
  split.
  - apply Forall_app. split; [|done]. pose proof (wk_end _ _ _ Hw) as H. destruct cycle as [ids|]; [|constructor].
    apply Forall_singleton. by destruct H as (pre & _ & H).
  - rewrite concat_app, Hcy. apply NoDup_app. split_and!; [|set_solver|done].
    pose proof (wk_end _ _ _ Hw) as H. pose proof (wk_NoDup _ _ _ Hw) as Hnd. destruct cycle as [ids|]; cbn; [|constructor].
    destruct H as (pre & -> & _). by apply NoDup_app in Hnd as (_ & _ & ?).
  - intros x. rewrite concat_app, Hcy. intros [Hx|Hx]%elem_of_app; [by apply (wk_fresh _ _ _ Hw), Hsub|].
    apply Hf in Hx. set_solver.
  - intros x Hx Hxf Hon. rewrite concat_app, Hcy. apply elem_of_app.
    destruct (decide (x ∈ path)) as [Hp|Hp]; [left; by apply Hloops|]. right. apply Hc; [|set_solver|done].
    cbn [map snd] in Hx. apply elem_of_cons in Hx as [->|Hx]; [|done]. rewrite He in Hr. set_solver.
Qed.

(** ** The way up ends when there are no loops *)

(** A path of entries, each with the one before it as its parent. *)
Fixpoint linked (parent : option json) (path : list json) : Prop :=
  match path with
  | [] => True
  | entry :: rest => parent_entry byId entry = parent /\ stored entry /\ linked (Some entry) rest
  end.

Lemma path_up_linked (fuel : nat) (current : option json) (acc path : list json) :
  match current with Some entry => stored entry | None => True end -> linked current acc ->
  path_up (parent_entry byId) fuel current acc = Some path -> linked None path /\ exists pre, path = pre ++ acc.
Proof.
  revert current acc. induction fuel as [|fuel IH]; intros current acc Hs Hl; cbn [path_up]; [done|].
  destruct current as [entry|].
  - intros H. destruct (IH (parent_entry byId entry) (entry :: acc)) as [H1 [pre ->]]; [|by split|done|].
    + destruct (parent_entry byId entry) eqn:E; [by apply parent_stored in E|done].
    + split; [done|]. exists (pre ++ [entry]). by rewrite <- app_assoc.
  - intros [= <-]. split; [done|by exists []].
Qed.

Lemma linked_climbs (parent : option json) (path : list json) :
  linked parent path -> climbs (reverse (map ref_id path)) /\
  (forall entry rest, path = entry :: rest -> up byId (ref_id entry) = ref_id <$> parent).
Proof.
  revert parent. induction path as [|entry path IH]; intros parent; [done|]. cbn [linked map]. intros (Hp & Hs & Hl).
  destruct (IH _ Hl) as [Hc Hh]. split.
  - rewrite reverse_cons. destruct path as [|next path]; [done|]. cbn [map] in *. rewrite reverse_cons in *.
    rewrite <- app_assoc. cbn [app]. apply climbs_glue; [done|]. split; [|done]. by rewrite (Hh next path).
  - intros entry' rest [= <- <-]. rewrite up_parent by done. by rewrite Hp.
Qed.

Lemma linked_stored (parent : option json) (path : list json) : linked parent path -> Forall stored path.
Proof. revert parent. induction path as [|e path IH]; intros parent; [constructor|]. intros (_ & Hs & Hl). constructor; [done|by apply (IH (Some e))]. Qed.

(** A path that is as long as the fuel, should that run out. *)
Lemma path_up_short (fuel : nat) (current : option json) (acc : list json) :
  match current with Some entry => stored entry | None => True end -> linked current acc ->
  path_up (parent_entry byId) fuel current acc = None ->
  exists path parent, linked parent path /\ length path = fuel + length acc.
Proof.
  revert current acc. induction fuel as [|fuel IH]; intros current acc Hs Hl; cbn [path_up]; [by exists acc, current|].
  destruct current as [entry|]; [|done]. intros H.
  destruct (IH (parent_entry byId entry) (entry :: acc)) as (path & parent & Hp & Hlen); [|by split|done|].
  - destruct (parent_entry byId entry) eqn:E; [by apply parent_stored in E|done].
  - exists path, parent. cbn [length] in Hlen. split; [done|lia].
Qed.

Lemma linked_NoDup (parent : option json) (path : list json) :
  (forall x, x ∈ map fst byId -> ~ on_loop x) -> linked parent path -> NoDup (map ref_id path).
Proof.
  intros Hno Hl. destruct (linked_climbs _ _ Hl) as [Hc _]. apply linked_stored in Hl as Hs.
  destruct (decide (NoDup (reverse (map ref_id path)))) as [Hn|Hn]; [by rewrite reverse_Permutation in Hn|].
  destruct (repeated_on_loop _ _ Hc Hn) as (x & Hx & Hon). exfalso. apply (Hno x); [|done].
  rewrite elem_of_reverse in Hx. apply list_elem_of_fmap in Hx as (entry & -> & He). rewrite Forall_forall in Hs.
  by apply stored_key, Hs.
Qed.

Lemma path_up_total (entry : json) :
  (forall x, x ∈ map fst byId -> ~ on_loop x) -> stored entry ->
  is_Some (path_up (parent_entry byId) (S (length byId)) (Some entry) []).
Proof.
  intros Hno Hs. destruct (path_up (parent_entry byId) (S (length byId)) (Some entry) []) as [path|] eqn:E; [by exists path|].
  exfalso. destruct (path_up_short _ (Some entry) [] Hs I E) as (path & parent & Hl & Hlen). pose proof (linked_NoDup _ _ Hno Hl) as Hn.
  assert (Hsub : map ref_id path ⊆ map fst byId).
  { intros x (e & -> & He)%list_elem_of_fmap. apply linked_stored in Hl. rewrite Forall_forall in Hl. by apply stored_key, Hl. }
  apply NoDup_submseteq in Hsub; [|done]. apply submseteq_length in Hsub. rewrite !length_map in Hsub. cbn in Hlen. lia.
Qed.
End Walk.

(** ** The index of the entries *)

Definition entry_ids (entries : list (nat * json)) : list string := map (fun parsed => ref_id (snd parsed)) entries.

Lemma indexed_set (byId : list (string * json)) (entry : json) :
  indexed byId -> indexed (map_set (ref_id entry) entry byId).
Proof.
  intros [Hk Hi]. split; [by apply map_set_NoDup|]. intros k e. rewrite map_get_set.
  destruct (String.eqb_spec (ref_id entry) k); [by intros [= <-]|apply Hi].
Qed.

Lemma map_has_set (byId : list (string * json)) (k x : string) (entry : json) :
  map_has x (map_set k entry byId) = String.eqb k x || map_has x byId.
Proof. unfold map_has. rewrite map_get_set. by destruct (String.eqb k x). Qed.

Lemma index_spec (byId : list (string * json)) (entries : list (nat * json)) :
  indexed byId ->
  indexed (fst (index_entries byId entries)) /\
  (forall x, map_has x (fst (index_entries byId entries)) = true <-> map_has x byId = true \/ x ∈ entry_ids entries) /\
  (forall k entry, map_get k (fst (index_entries byId entries)) = Some entry ->
     map_get k byId = Some entry \/ entry ∈ map snd entries).
Proof.
  revert byId. induction entries as [|[line entry] entries IH]; intros byId H; cbn [index_entries fst].
  { split_and!; [done|intros x; set_solver|intros k e He; by left]. }
  destruct (map_has (ref_id entry) byId) eqn:E.
  - destruct (IH byId H) as (H1 & H2 & H3). destruct (index_entries byId entries) as [index dups]. cbn [fst] in *.
    split_and!; [done| |].
    + intros x. rewrite H2. cbn [entry_ids map snd]. rewrite elem_of_cons. split; [naive_solver|].
      intros [?|[->|?]]; [by left|by left|by right].
    + intros k e He. destruct (H3 k e He); [by left|right; by right].
  - destruct (IH _ (indexed_set byId entry H)) as (H1 & H2 & H3). split_and!; [done| |].
    + intros x. rewrite H2, map_has_set, orb_true_iff, String.eqb_eq. cbn [entry_ids map snd]. rewrite elem_of_cons. naive_solver.
    + intros k e He. destruct (H3 k e He) as [Hm|Hm]; [|right; by right]. rewrite map_get_set in Hm.
      destruct (String.eqb_spec (ref_id entry) k); [injection Hm as <-; right; left|by left].
Qed.

Lemma indexed_nil : indexed [].
Proof. split; [constructor|done]. Qed.

Lemma index_fresh (entries : list (nat * json)) :
  indexed (fst (index_entries [] entries)) /\
  (forall x, map_has x (fst (index_entries [] entries)) = true <-> x ∈ entry_ids entries) /\
  (forall k entry, map_get k (fst (index_entries [] entries)) = Some entry -> entry ∈ map snd entries).
Proof.
  destruct (index_spec [] entries indexed_nil) as (H1 & H2 & H3). split_and!; [done| |].
  - intros x. rewrite H2. naive_solver.
  - intros k e He. by destruct (H3 k e He).
Qed.

(** What the cycle search finds in the index of the entries. *)
Lemma cycles_found (entries : list (nat * json)) :
  let byId := fst (index_entries [] entries) in
  exists cycles, findCycles entries byId = Some (map cycle_finding cycles) /\ Forall (is_loop (up byId)) cycles /\
    NoDup (concat cycles) /\ forall x, x ∈ concat cycles <-> x ∈ map fst byId /\ on_loop (up byId) x.
Proof.
  intros byId. destruct (index_fresh entries) as (Hix & Hin & _). fold byId in Hix, Hin.
  destruct (cycles_from_spec byId Hix [] entries) as (cycles & Hc & [Hl Hn _ Hcomp]).
  { intros a b Ha. by apply elem_of_nil in Ha. }
  { intros parsed Hp. apply Hin. apply list_elem_of_fmap. by exists parsed. }
  exists cycles. unfold findCycles. rewrite Hc. split_and!; try done. intros x. split.
  - intros Hx. apply list_elem_of_In, in_concat in Hx as (ids & Hids & Hx). rewrite <- !list_elem_of_In in *. rewrite Forall_forall in Hl. specialize (Hl _ Hids). split.
    + pose proof (loop_on_loop _ _ _ Hl Hx) as (b & Hb & _). unfold up in Hb. apply map_has_keys. unfold map_has.
      by destruct (map_get x byId).
    + by apply (loop_on_loop _ ids).
  - intros [Hx Hon]. apply Hcomp; [|set_solver|done]. apply map_has_keys, Hin in Hx. done.
Qed.
