(* ===== verification/SessionTheory.v ===== *)
(** * What a session report promises

    Theorems on packages/coding-agent/src/core/session-integrity.ts: the
    inspection returns a report on every text, its cycles are the loops of the
    parents, a torn append costs nothing but a finding, and the report is one
    the compaction barrier accepts as consistent unless a leaf was selected in a
    file whose branches could not be followed. *)

From Stdlib Require Import Ascii String ZArith QArith Lia Permutation.
From stdpp Require Import base list option strings sets relations.
From S2P Require Import Prelude JsString JsValue Regex Json JsNumber CanonicalJson Utf8 SessionTermination JournalChecks.
From S2P Require Import JournalInspector TranscriptIntegrity SessionReport CompactionTransaction CompactionCommit CompactionBarrier.
From S2P Require Import SessionShapes SessionInspection SessionGraph.

Open Scope nat_scope.
Open Scope string_scope.
Open Scope list_scope.

(** ** The issues of a transcript are about its calls and results *)

Lemma count_issue_ids (ms : list AgentMessage) (i : TranscriptIntegrityIssue) :
  i ∈ count_issues (count_ids ms) -> issue_id i ∈ call_ids ms \/ issue_id i ∈ result_ids ms.
Proof.
  unfold count_issues. destruct (count_ids_spec ms) as [-> ->].
  rewrite !elem_of_app, !list_elem_of_omap.
  intros [(ic & Hin & Hi)|[(ic & Hin & Hi)|[(ic & Hin & Hi)|(ic & Hin & Hi)]]]; destruct ic as [k n];
    apply counts_of_elem in Hin as [Hk _]; cbn [fst snd] in Hi; case_match; simplify_eq; (by left) || by right.
Qed.

Definition known_keys (known : string -> bool) (p : list (string * string)) : Prop := forall k, k ∈ map fst p -> known k = true.

Lemma known_calls (known : string -> bool) (cs : list ToolCall) (p : list (string * string)) :
  known_keys known p -> (forall c, c ∈ cs -> known (tc_id c) = true) ->
  known_keys known (foldl (fun p c => map_set (tc_id c) (tc_name c) p) p cs).
Proof.
  revert p. induction cs as [|c cs IH]; intros p Hp Hcs; cbn [foldl]; [done|]. apply IH; [|intros; apply Hcs; by right].
  intros k Hk%map_has_keys. unfold map_has in Hk. rewrite map_get_set in Hk. destruct (String.eqb_spec (tc_id c) k) as [E|_].
  - rewrite <- E. apply Hcs. left.
  - apply Hp, map_has_keys. exact Hk.
Qed.

Lemma pending_known (known : string -> bool) (p : list (string * string)) (i : TranscriptIntegrityIssue) :
  known_keys known p -> i ∈ pending_issues p -> known (issue_id i) = true.
Proof. intros Hp (kv & -> & Hin)%list_elem_of_fmap. apply Hp, list_elem_of_fmap. by exists kv. Qed.

Lemma order_issue_ids (known : string -> bool) (ms : list AgentMessage) (st : OrderState) (i : TranscriptIntegrityIssue) :
  known_keys known (pending st) -> (forall id, id ∈ call_ids ms -> known id = true) ->
  i ∈ order_pass known st ms -> known (issue_id i) = true.
Proof.
  revert st. induction ms as [|m ms IH]; intros st Hp Hc; cbn [order_pass]; [set_solver|].
  assert (Hc' : forall id, id ∈ call_ids ms -> known id = true)
    by (intros id Hid; apply Hc; rewrite call_ids_cons; set_solver).
  unfold order_step. destruct m as [content|r|role payload].
  - destruct (message_calls content) as [|c cs] eqn:E.
    + destruct (_ && _); [by apply pending_known|by apply IH].
    + destruct (0 <? length (pending st))%nat; [by apply pending_known|]. apply IH; [|done]. cbn [pending].
      apply known_calls; [done|]. intros c' Hc2. apply Hc. rewrite call_ids_cons. cbn [calls_of]. rewrite E.
      apply elem_of_app. left. apply list_elem_of_fmap. by exists c'.
  - destruct (_ && _).
    + apply IH; [|done]. cbn [pending]. intros k. rewrite map_delete_keys, elem_of_filter_list. intros [Hk _]. by apply Hp.
    + destruct (known (toolCallId r)) eqn:Ek; [|by apply IH]. by intros ->%list_elem_of_singleton.
  - destruct (_ && _); [by apply pending_known|by apply IH].
Qed.

Lemma issue_ids_known (ms : list AgentMessage) (i : TranscriptIntegrityIssue) :
  i ∈ issues (inspectTranscriptIntegrity ms) -> issue_id i ∈ call_ids ms \/ issue_id i ∈ result_ids ms.
Proof.
  unfold inspectTranscriptIntegrity. cbn [issues]. intros [H|H]%elem_of_app; [by apply count_issue_ids|]. left.
  apply order_issue_ids in H; [|intros k Hk; by apply elem_of_nil in Hk|].
  - destruct (count_ids_spec ms) as [Hcc _]. rewrite Hcc, counts_of_has in H. by apply bool_decide_eq_true in H.
  - intros id Hid. destruct (count_ids_spec ms) as [Hcc _]. rewrite Hcc, counts_of_has. by apply bool_decide_eq_true.
Qed.

(** ** Validated entries *)

Lemma nonempty_text (value : option json) : nonEmptyString value = true -> exists s, value = Some (JsStr s) /\ s <> EmptyString.
Proof. destruct value as [[| | |s| |]|]; try done. cbn. intros H. exists s. split; [done|]. by intros ->. Qed.

Lemma nonempty_text_of (key : string) (value : json) : nonEmptyString (jget key value) = true -> text_of key value <> EmptyString.
Proof. intros (s & E & Hs)%nonempty_text. unfold text_of, jstr. by rewrite E. Qed.

Section Valid.
Context (dateMs : string -> jsnum).

Definition valid_entry (entry : json) : Prop := validEntryShape dateMs entry = true.

Lemma valid_parts (entry : json) :
  valid_entry entry -> exists type, jstr "type" entry = Some type /\ nonEmptyString (jget "id" entry) = true /\
    valid_parent (jget "parentId" entry) = true /\ validBody type entry = true.
Proof.
  unfold valid_entry, validEntryShape. destruct (jstr "type" entry) as [type|]; [|done]. rewrite !andb_true_iff.
  intros [[[[[_ _] Hi] Hp] _] Hb]. by exists type.
Qed.

Lemma valid_id (entry : json) : valid_entry entry -> ref_id entry <> EmptyString.
Proof. intros (type & _ & Hi & _)%valid_parts. by apply nonempty_text_of. Qed.

Lemma valid_parent_id (entry : json) : valid_entry entry -> ref_parent entry <> Some EmptyString.
Proof.
  intros (type & _ & _ & Hp & _)%valid_parts. unfold ref_parent, jstr. destruct (jget "parentId" entry) as [[| | |s| |]|]; try done.
  cbn in Hp. intros [= ->]. done.
Qed.

Lemma has_type_jstr (type : string) (entry : json) : has_type type entry = true <-> jstr "type" entry = Some type.
Proof.
  unfold has_type, is_text, jstr. destruct (jget "type" entry) as [[| | |s| |]|]; try done. rewrite String.eqb_eq. split; [by intros ->|by intros [= ->]].
Qed.

Lemma valid_message (entry : json) :
  valid_entry entry -> has_type "message" entry = true -> validAgentMessage (default JsNull (jget "message" entry)) = true.
Proof.
  intros (type & Ht & _ & _ & Hb)%valid_parts Hm. apply has_type_jstr in Hm. rewrite Hm in Ht. injection Ht as <-.
  unfold validBody in Hb. cbn [String.eqb Ascii.eqb Bool.eqb] in Hb. by destruct (jget "message" entry).
Qed.

(** A message from a session: stored and validated, or made from an entry. *)
Definition sound_message (m : ContextMessage) : Prop :=
  match m with
  | ctx_stored value => validAgentMessage value = true
  | _ => True
  end.

Lemma append_sound (path : list json) : Forall valid_entry path -> Forall sound_message (concat (map (appendMessage dateMs) path)).
Proof.
  induction 1 as [|entry path He _ IH]; cbn [map concat]; [constructor|]. apply Forall_app. split; [|done]. unfold appendMessage.
  destruct (has_type "message" entry) eqn:Em; [apply Forall_singleton; by apply valid_message|].
  destruct (has_type "custom_message" entry); [by apply Forall_singleton|]. destruct (_ && _); [by apply Forall_singleton|constructor].
Qed.

Lemma from_kept_Forall (P : json -> Prop) (id : string) (path : list json) : Forall P path -> Forall P (from_kept id path).
Proof. induction 1 as [|entry path He Hp IH]; cbn [from_kept]; [constructor|]. destruct (String.eqb _ _); [by constructor|done]. Qed.

Lemma around_Forall (P : json -> Prop) (id : string) (path : list json) :
  Forall P path -> Forall P (fst (around id path)) /\ Forall P (snd (around id path)).
Proof.
  induction 1 as [|entry path He Hp IH]; cbn [around]; [by split|]. destruct (_ && _); [by split; [constructor|]|].
  destruct (around id path) as [before after]. destruct IH as [H1 H2]. split; [by constructor|done].
Qed.

Lemma context_sound (path : list json) : Forall valid_entry path -> Forall sound_message (sx_messages (context_of_path dateMs path)).
Proof.
  intros H. unfold context_of_path. cbn [sx_messages]. destruct (last _) as [compaction|]; [|by apply append_sound].
  destruct (around_Forall _ (ref_id compaction) _ H) as [H1 H2]. destruct (around _ path) as [before after]. constructor; [done|].
  apply Forall_app. split; apply append_sound; [by apply from_kept_Forall|done].
Qed.

Lemma block_calls (blocks : list json) :
  forallb (fun block => validTextContent block || validThinkingContent block || validToolCall block) blocks = true ->
  Forall (fun id => id <> EmptyString) (map tc_id (message_calls (map transcript_block blocks))).
Proof.
  induction blocks as [|block blocks IH]; cbn [forallb map]; [constructor|]. rewrite andb_true_iff. intros [Hb H]. specialize (IH H).
  unfold message_calls in *. cbn [omap list_omap]. unfold transcript_block at 1.
  destruct (is_text "toolCall" (jget "type" block)) eqn:Et; [|done]. cbn [map tc_id]. constructor; [|done].
  assert (Ht : jget "type" block = Some (JsStr "toolCall")).
  { unfold is_text in Et. destruct (jget "type" block) as [[| | |s| |]|]; try done. by apply String.eqb_eq in Et as ->. }
  unfold validTextContent, validThinkingContent, validToolCall in Hb. rewrite Ht in Hb. cbn in Hb.
  rewrite !andb_false_r, !orb_false_l, !andb_true_iff in Hb. apply nonempty_text_of. apply Hb.
Qed.

Lemma message_ids (m : ContextMessage) :
  sound_message m ->
  Forall (fun id => id <> EmptyString) (map tc_id (calls_of (transcript_message m)) ++ result_ids_of (transcript_message m)).
Proof.
  destruct m as [value| | |]; try (intros; constructor). cbn [sound_message transcript_message]. unfold validAgentMessage.
  rewrite !andb_true_iff. intros [_ H]. destruct (jstr "role" value) as [role|] eqn:Er; [|done].
  assert (Ht : text_of "role" value = role) by (unfold text_of; by rewrite Er). rewrite Ht.
  destruct (String.eqb_spec role "assistant") as [->|_].
  - cbn [String.eqb Ascii.eqb Bool.eqb] in H. cbn [calls_of result_ids_of]. rewrite app_nil_r.
    unfold validAssistant in H. rewrite !andb_true_iff in H. destruct H as [[[[[[[[[H _] _] _] _] _] _] _] _] _].
    destruct (jget "content" value) as [[| | | |blocks|]|]; try done. by apply block_calls.
  - destruct (String.eqb_spec role "toolResult") as [->|_]; [|constructor].
    cbn [String.eqb Ascii.eqb Bool.eqb] in H. cbn [calls_of result_ids_of map app toolCallId]. apply Forall_singleton.
    unfold validToolResult in H. rewrite !andb_true_iff in H. apply nonempty_text_of. apply H.
Qed.

(** The issues found on messages of a session are about named calls. *)
Lemma session_issue_ids (ms : list ContextMessage) :
  Forall sound_message ms ->
  forallb validTranscriptIssue (issues (inspectTranscriptIntegrity (map transcript_message ms))) = true.
Proof.
  intros H. apply forallb_forall. intros i Hi%list_elem_of_In%issue_ids_known.
  assert (Hne : issue_id i <> EmptyString).
  { induction H as [|m ms Hm _ IH]; [destruct Hi as [Hi|Hi]; by apply elem_of_nil in Hi|].
    cbn [map] in Hi. rewrite call_ids_cons, result_ids_cons, !elem_of_app in Hi. apply message_ids in Hm.
    rewrite Forall_app, !Forall_forall in Hm. destruct Hm as [H1 H2]. destruct Hi as [[Hi|Hi]|[Hi|Hi]]; auto. }
  unfold validTranscriptIssue. by destruct (issue_id i).
Qed.
End Valid.

(** ** Lines *)

Lemma decode_shorter (n : nat) (bytes s : string) :
  String.length bytes <= n -> decode_bytes bytes = utf8_text s -> String.length s <= String.length bytes.
Proof.
  assert (Hpush : forall point d s n, push_point point d = utf8_text s ->
    (forall s', d = utf8_text s' -> String.length s' <= n) -> String.length s <= S n).
  { intros point d s' m H Hd. destruct d as [| |t]; try done. unfold push_point in H. destruct (point <? 256)%nat; [|done].
    injection H as <-. cbn. specialize (Hd t eq_refl). lia. }
  revert bytes s. induction n as [|n IH]; intros bytes s; (destruct bytes as [|a r]; [intros _ [= <-]; cbn; lia|]); intros Hn; cbn [String.length] in Hn; [lia|].
  cbn [decode_bytes String.length]. intros H. repeat (case_match; try done);
    (eapply Nat.le_trans; [eapply Hpush; [exact H|intros s' Hs'; apply IH in Hs'; [exact Hs'|cbn in *; lia]]|cbn; lia]).
Qed.

Lemma decoded_shorter (bytes s : string) : utf8_decode bytes = utf8_text s -> String.length s <= String.length bytes.
Proof.
  unfold utf8_decode. intros H. apply (decode_shorter _ _ _ (Nat.le_refl _)) in H.
  destruct (startsWith byte_order_mark bytes); [|done].
  enough (String.length (slice 3 bytes) <= String.length bytes) by lia.
  clear. destruct bytes as [|? [|? [|? bytes]]]; cbn; lia.
Qed.

Lemma split_count (c : ascii) (s : string) : length (split c s) <= S (String.length s).
Proof.
  induction s as [|a s IH]; cbn [split]; [cbn; lia|]. destruct (Ascii.eqb a c); [cbn; lia|].
  destruct (split c s); cbn in *; lia.
Qed.

Lemma slice_to_length (n : nat) (s : string) : String.length (slice_to n s) <= n.
Proof. revert s. induction n as [|n IH]; intros [|a s]; cbn; try lia. specialize (IH s). lia. Qed.

Lemma lines_count (complete : string) (lines : list string) (findings : list SessionIntegrityFinding) :
  session_lines complete = Some (lines, findings) -> length lines <= String.length complete.
Proof.
  unfold session_lines. destruct complete as [|a r]; [by intros [= <- <-]|]. cbn [is_empty].
  destruct (utf8_decode (String a r)) as [| |text] eqn:E; [intros [= <- <-]; cbn; lia|done|]. intros [= <- <-].
  apply decoded_shorter in E. pose proof (split_count line_feed (slice_to (String.length text - 1) text)) as H.
  pose proof (slice_to_length (String.length text - 1) text). cbn in *. lia.
Qed.

(** ** Findings that block *)

Definition structural (f : SessionIntegrityFinding) : Prop := is_structural f = true /\ validFinding f = true.

(** A line number of a file of at most [n] lines. *)
Definition line_in (n line : nat) : Prop := 1 <= line <= n.

Lemma line_valid (n line : nat) :
  (Z.of_nat n <= MAX_SAFE_INTEGER)%Z -> line_in n line ->
  ((1 <=? Z.of_nat line)%Z && (Z.of_nat line <=? MAX_SAFE_INTEGER)%Z) = true.
Proof. intros Hn [H1 H2]. apply andb_true_iff. rewrite !Z.leb_le. lia. Qed.

Lemma line_structural (n line : nat) (reason : SessionIntegrityReasonCode) :
  (Z.of_nat n <= MAX_SAFE_INTEGER)%Z -> line_in n line -> is_structural (finding_of reason) = true ->
  structural (line_finding reason line).
Proof. intros Hn Hl Hr. split; [exact Hr|]. by apply (line_valid n). Qed.

Lemma first_line_structural (reason : SessionIntegrityReasonCode) :
  is_structural (finding_of reason) = true -> structural (line_finding reason 1).
Proof. intros Hr. split; [exact Hr|done]. Qed.

Lemma entry_structural (n line : nat) (reason : SessionIntegrityReasonCode) (entryId parentId : option string) :
  (Z.of_nat n <= MAX_SAFE_INTEGER)%Z -> line_in n line -> is_structural (finding_of reason) = true ->
  structural (entry_finding reason (Some line) entryId parentId).
Proof. intros Hn Hl Hr. split; [exact Hr|]. by apply (line_valid n). Qed.

Lemma read_lines_spec (n line : nat) (lines : list string) :
  (Z.of_nat n <= MAX_SAFE_INTEGER)%Z -> 1 <= line -> line + length lines <= S n ->
  Forall (fun record => line_in n (fst record)) (fst (read_lines line lines)) /\
  Forall structural (snd (read_lines line lines)).
Proof.
  intros Hn. revert line. induction lines as [|text lines IH]; intros line H1 H2; cbn [read_lines]; [by split|].
  cbn [length] in H2. destruct (IH (S line)) as [Hr Hf]; [lia|lia|]. destruct (read_lines (S line) lines) as [records findings].
  destruct (if is_empty (trim text) then None else json_parse text); cbn [fst snd] in *; (split; [|try done]); try done.
  - constructor; [|done]. cbn. unfold line_in. lia.
  - constructor; [|done]. apply (line_structural n); [done|unfold line_in; lia|done].
Qed.

Section Records.
Context (n : nat) (Hn : (Z.of_nat n <= MAX_SAFE_INTEGER)%Z).

Definition records_in (records : list (nat * json)) : Prop := Forall (fun record => line_in n (fst record)) records.

Lemma headers_spec (records : list (nat * json)) :
  records_in records -> Forall structural (snd (inspect_headers records)) /\
  match fst (inspect_headers records) with
  | Some header => ref_id header <> EmptyString
  | None => existsb (fun f => is_header_reason (fi_reason f)) (snd (inspect_headers records)) = true
  end.
Proof.
  intros Hr. unfold inspect_headers. set (sessions := List.filter _ records).
  assert (Hs : records_in sessions).
  { apply Forall_forall. intros record [H _]%elem_of_filter_list. unfold records_in in Hr. rewrite Forall_forall in Hr. by apply Hr. }
  clearbody sessions. set (multiple := match sessions with _ :: second :: _ => _ | _ => _ end). set (late := concat _).
  assert (Hmult : Forall structural multiple).
  { unfold multiple. destruct sessions as [|? [|second ?]]; [constructor..|]. apply Forall_singleton.
    apply (line_structural n); [done| |done]. unfold records_in in Hs. by apply Forall_cons in Hs as [_ [Hs _]%Forall_cons]. }
  assert (Hlate : Forall structural late).
  { unfold late. clear multiple late Hmult. induction Hs as [|record sessions Hl _ IH]; cbn [map concat]; [constructor|].
    apply Forall_app. split; [|done]. destruct (fst record =? 1)%nat; [constructor|].
    constructor; [by apply (line_structural n)|]. destruct (version_is _ _); [constructor|].
    apply Forall_singleton. by apply (line_structural n). }
  clearbody multiple late.
  assert (Hml : Forall structural (multiple ++ late)) by by apply Forall_app.
  assert (Hcons : forall reason, is_structural (finding_of reason) = true ->
    Forall structural ([line_finding reason 1] ++ multiple ++ late)).
  { intros reason H. constructor; [by apply first_line_structural|done]. }
  destruct (List.find _ records) as [[line value]|]; [|cbn [fst snd]; split; [by apply Hcons|done]].
  destruct (is_session value); [|cbn [fst snd]; split; [by apply Hcons|done]]. unfold validHeader.
  destruct (version_is _ _); cbn [negb].
  - destruct (nonEmptyString (jget "id" value)) eqn:Ei; cbn [andb].
    + destruct (_ && _ && _); cbn [fst snd].
      * split; [done|]. by apply nonempty_text_of.
      * split; [by apply Hcons|done].
    + cbn [fst snd]. split; [by apply Hcons|done].
  - cbn [fst snd]. split; [by apply Hcons|done].
Qed.

Lemma entry_spec (dateMs : string -> jsnum) (record : nat * json) (r : result SessionIntegrityFinding (nat * json)) :
  line_in n (fst record) -> inspect_entry dateMs record = Some r ->
  match r with
  | Ok parsed => line_in n (fst parsed) /\ valid_entry dateMs (snd parsed)
  | Err finding => structural finding
  end.
Proof.
  destruct record as [line value]. cbn [fst]. intros Hl. unfold inspect_entry. destruct (is_session value); [done|].
  destruct (negb (isRecord value)); [intros [= <-]; by apply (line_structural n)|].
  destruct (match jstr "type" value with Some _ => _ | None => _ end); [intros [= <-]; by apply (line_structural n)|].
  destruct (validEntryShape dateMs value) eqn:E; cbn [negb]; intros [= <-]; [by split|by apply (entry_structural n)].
Qed.

Lemma entries_spec (dateMs : string -> jsnum) (records : list (nat * json)) :
  records_in records ->
  Forall (fun parsed => line_in n (fst parsed) /\ valid_entry dateMs (snd parsed)) (parsed_entries dateMs records) /\
  Forall structural (entry_findings dateMs records).
Proof.
  unfold records_in. rewrite Forall_forall. intros Hr.
  split; apply Forall_forall; intros x (record & Hin & H)%list_elem_of_omap; specialize (Hr _ Hin);
    destruct (inspect_entry dateMs record) as [[parsed|finding]|] eqn:E; try done; injection H as <-;
    exact (entry_spec _ _ _ Hr E).
Qed.

Lemma duplicates_spec (byId : list (string * json)) (entries : list (nat * json)) :
  Forall (fun parsed => line_in n (fst parsed)) entries -> Forall structural (snd (index_entries byId entries)).
Proof.
  revert byId. induction entries as [|[line entry] entries IH]; intros byId; cbn [index_entries]; [constructor|].
  intros [Hl He]%Forall_cons. destruct (map_has (ref_id entry) byId); [|by apply IH].
  specialize (IH byId He). destruct (index_entries byId entries) as [index findings]. cbn [snd] in *.
  constructor; [by apply (entry_structural n)|done].
Qed.

Lemma missing_parents_spec (byId : list (string * json)) (entries : list (nat * json)) :
  Forall (fun parsed => line_in n (fst parsed)) entries -> Forall structural (missing_parents byId entries) /\
  (missing_parents byId entries = [] ->
   forall entry parent, entry ∈ map snd entries -> ref_parent entry = Some parent -> map_has parent byId = true).
Proof.
  intros He. split.
  - apply Forall_forall. intros f (parsed & Hin & H)%list_elem_of_omap. rewrite Forall_forall in He. specialize (He _ Hin).
    destruct (ref_parent (snd parsed)) as [parent|]; [|done]. cbn in H. destruct (map_has parent byId); [done|].
    injection H as <-. by apply (entry_structural n).
  - unfold missing_parents. rewrite omap_nil_iff. intros H entry parent (parsed & -> & Hin)%list_elem_of_fmap Hp.
    specialize (H _ Hin). rewrite Hp in H. cbn in H. by destruct (map_has parent byId).
Qed.
End Records.

(** ** The parsed session *)

Section Sessions.
Context (dateMs : string -> jsnum).

Abbreviation parse_session := (parse_session dateMs).
Abbreviation inspect_branch := (inspect_branch dateMs).

Record parse_ok (complete : string) (parsed : ParsedSession) : Prop := {
  po_lines : length (ps_lines parsed) <= String.length complete;
  po_entries : Forall (valid_entry dateMs) (map snd (ps_entries parsed));
  po_index : ps_byId parsed = fst (index_entries [] (ps_entries parsed));
  po_findings : Forall structural (ps_findings parsed);
  po_header : match ps_header parsed with
              | Some header => ref_id header <> EmptyString
              | None => existsb (fun f => is_header_reason (fi_reason f)) (ps_findings parsed) = true
              end;
  po_loops : ps_findings parsed = [] -> forall x, x ∈ map fst (ps_byId parsed) -> ~ on_loop (up (ps_byId parsed)) x;
  po_parents : ps_findings parsed = [] -> forall entry parent, entry ∈ map snd (ps_entries parsed) ->
    ref_parent entry = Some parent -> map_has parent (ps_byId parsed) = true;
}.

Lemma index_eta (entries : list (nat * json)) :
  exists byId dups, index_entries [] entries = (byId, dups) /\ byId = fst (index_entries [] entries) /\
    dups = snd (index_entries [] entries).
Proof. destruct (index_entries [] entries) as [byId dups]. by exists byId, dups. Qed.

Lemma parse_spec (complete : string) :
  (Z.of_nat (String.length complete) <= MAX_SAFE_INTEGER)%Z ->
  match session_lines complete with
  | Some _ => exists parsed, parse_session complete = Some parsed /\ parse_ok complete parsed
  | None => parse_session complete = None
  end.
Proof.
  intros Hsafe. unfold SessionInspection.parse_session. destruct (session_lines complete) as [[lines undecoded]|] eqn:El; [|done].
  cbn [mbind option_bind]. pose proof (lines_count _ _ _ El) as Hcount.
  assert (Hn : (Z.of_nat (length lines) <= MAX_SAFE_INTEGER)%Z) by lia.
  destruct (read_lines_spec (length lines) 1 lines Hn) as [Hrec Hmal]; [lia|lia|].
  destruct (read_lines 1 lines) as [records malformed]. cbn [fst snd] in Hrec, Hmal.
  destruct (headers_spec (length lines) Hn records Hrec) as [Hhf Hh]. destruct (inspect_headers records) as [header headers].
  cbn [fst snd] in Hhf, Hh. destruct (entries_spec (length lines) Hn dateMs records Hrec) as [Hent Hef].
  set (entries := parsed_entries dateMs records) in *. destruct (index_eta entries) as (byId & dups & Eix & Hby & Hdups). rewrite Eix.
  assert (Hlines : Forall (fun parsed => line_in (length lines) (fst parsed)) entries)
    by (eapply Forall_impl; [exact Hent|by intros parsed [H _]]).
  pose proof (duplicates_spec (length lines) Hn [] entries Hlines) as Hdf. rewrite <- Hdups in Hdf.
  destruct (missing_parents_spec (length lines) Hn byId entries Hlines) as [Hmf Hmp].
  destruct (cycles_found entries) as (cycles & Hc & Hloops & _ & Hon). rewrite <- Hby in Hc, Hloops, Hon. rewrite Hc.
  cbn [mbind option_bind]. eexists. split; [reflexivity|].
  assert (Hcyc : Forall structural (map cycle_finding cycles)).
  { apply Forall_map, Forall_true. intros ids. split; [|done]. unfold is_structural, cycle_finding. cbn. by destruct (_ =? 1)%nat. }
  assert (Hund : Forall structural undecoded).
  { unfold session_lines in El. destruct (is_empty complete); [by injection El as <- <-|].
    destruct (utf8_decode complete); try done; injection El as <- <-; [|constructor]. by apply Forall_singleton. }
  split; cbn [ps_lines ps_header ps_entries ps_byId ps_findings]; try done.
  - apply Forall_map. eapply Forall_impl; [exact Hent|by intros parsed [_ H]].
  - by repeat (apply Forall_app; split).
  - destruct header as [header|]; [done|]. rewrite !existsb_app, Hh. cbn [orb]. by rewrite !orb_true_r.
  - intros Hnil x Hx Hl. repeat (apply app_eq_nil in Hnil as [_ Hnil]). apply map_eq_nil in Hnil. subst cycles.
    assert (H : x ∈ concat ([] : list (list string))) by by apply Hon. by apply elem_of_nil in H.
  - intros Hnil. repeat (apply app_eq_nil in Hnil as [? Hnil]). by apply Hmp.
Qed.

(** ** The active branch *)

Lemma path_up_ext (byId : list (string * json)) (f g : json -> option json) (fuel : nat) (current : option json) (acc : list json) :
  (forall entry parent, f entry = Some parent -> stored byId parent) ->
  (forall entry, stored byId entry -> f entry = g entry) ->
  match current with Some entry => stored byId entry | None => True end ->
  path_up f fuel current acc = path_up g fuel current acc.
Proof.
  intros Hs Hfg. revert current acc. induction fuel as [|fuel IH]; intros current acc Hc; cbn [path_up]; [done|].
  destruct current as [entry|]; [|done]. rewrite <- (Hfg entry Hc). apply IH. destruct (f entry) eqn:E; [by apply (Hs entry)|done].
Qed.

(** The entries, indexed, without loops and with all their parents. *)
Record tree (entries : list (nat * json)) (byId : list (string * json)) : Prop := {
  tr_valid : Forall (valid_entry dateMs) (map snd entries);
  tr_index : byId = fst (index_entries [] entries);
  tr_loops : forall x, x ∈ map fst byId -> ~ on_loop (up byId) x;
  tr_parents : forall entry parent, entry ∈ map snd entries -> ref_parent entry = Some parent -> map_has parent byId = true;
}.

Lemma stored_valid (entries : list (nat * json)) (byId : list (string * json)) (entry : json) :
  Forall (valid_entry dateMs) (map snd entries) -> byId = fst (index_entries [] entries) -> stored byId entry ->
  entry ∈ map snd entries /\ valid_entry dateMs entry.
Proof.
  intros Hv -> Hs. destruct (index_fresh entries) as (_ & _ & H). apply H in Hs. split; [done|]. rewrite Forall_forall in Hv. by apply Hv.
Qed.

Lemma same_parent (entries : list (nat * json)) (byId : list (string * json)) (entry : json) :
  tree entries byId -> stored byId entry -> parent_entry byId entry = truthy_parent byId entry.
Proof.
  intros [Hv Hi _ _] Hs. destruct (stored_valid _ _ _ Hv Hi Hs) as [_ He]. pose proof (valid_parent_id _ _ He) as Hp.
  unfold parent_entry, truthy_parent. destruct (ref_parent entry) as [p|]; [|done]. cbn. by destruct p.
Qed.

Lemma tree_indexed (entries : list (nat * json)) (byId : list (string * json)) : tree entries byId -> indexed byId.
Proof. intros [_ -> _ _]. by destruct (index_fresh entries). Qed.

(** The branch of a leaf, the same for the inspection and the context. *)
Lemma branch_found (entries : list (nat * json)) (byId : list (string * json)) (leaf : string) :
  tree entries byId -> map_has leaf byId = true ->
  exists branch entry, map_get leaf byId = Some entry /\
    path_up (parent_entry byId) (S (length byId)) (map_get leaf byId) [] = Some branch /\
    linked byId None branch /\ (exists pre, branch = pre ++ [entry]) /\ ref_id entry = leaf /\
    buildSessionContext dateMs (map snd entries) (Some (Some leaf)) (Some byId) = Some (context_of_path dateMs branch).
Proof.
  intros Ht Hh. pose proof (tree_indexed _ _ Ht) as Hix. pose proof Ht as [Hv Hi Hno _]. unfold map_has in Hh.
  destruct (map_get leaf byId) as [entry|] eqn:Eg; [|done]. destruct (stored_get _ Hix _ _ Eg) as [Hs Hid].
  destruct (path_up_total _ Hix entry Hno Hs) as [branch Hb]. exists branch, entry.
  destruct (stored_valid _ _ _ Hv Hi Hs) as [_ He]. pose proof (valid_id _ _ He) as Hne.
  pose proof Hb as Hb'. cbn [path_up] in Hb'. apply (path_up_linked _ Hix) in Hb' as [Hl Hpre].
  - split_and!; try done. unfold buildSessionContext. cbv beta zeta iota delta [from_option id]. rewrite Eg.
    assert (El : is_empty leaf = false) by (rewrite <- Hid; by destruct (ref_id entry)). rewrite El.
    rewrite (path_up_ext byId (truthy_parent byId) (parent_entry byId)), Hb; [done| | |done].
    + intros e p. unfold truthy_parent. destruct (ref_parent e) as [q|]; [|done]. cbn. destruct (is_empty q); [done|].
      intros Hq. by apply (stored_get _ Hix) in Hq as [Hq _].
    + intros e Hse. symmetry. by apply (same_parent entries).
  - destruct (parent_entry byId entry) eqn:E; [by apply (parent_stored _ Hix) in E|done].
  - by split.
Qed.

Lemma linked_branch (entries : list (nat * json)) (byId : list (string * json)) (parent : option json) (path : list json)
    (seen : list string) :
  tree entries byId -> linked byId parent path -> NoDup (map ref_id path) -> (forall x, x ∈ map ref_id path -> x ∉ seen) ->
  branch_linked (map ref_id (map snd entries)) seen (ref_id <$> parent) (map report_entry path) = true.
Proof.
  intros Ht. pose proof (tree_indexed _ _ Ht) as Hix. pose proof Ht as [Hv Hi _ Hpar].
  revert parent seen. induction path as [|entry path IH]; intros parent seen; [done|]. cbn [linked map branch_linked report_entry re_id re_parentId].
  intros (Hp & Hs & Hl) [Hn Hnd]%NoDup_cons Hseen. destruct (stored_valid _ _ _ Hv Hi Hs) as [Hin _].
  rewrite !andb_true_iff. split_and!.
  - apply negb_true_iff, one_of_false, Hseen. left.
  - apply existsb_eqb_elem, list_elem_of_fmap. by exists entry.
  - apply bool_decide_eq_true. unfold parent_entry in Hp. destruct (ref_parent entry) as [q|] eqn:Eq; cbn in Hp; [|by subst].
    specialize (Hpar entry q Hin Eq). unfold map_has in Hpar. destruct (map_get q byId) as [e|] eqn:Eg; [|done].
    subst parent. cbn. by rewrite (ix_id _ Hix _ _ Eg).
  - apply (IH (Some entry)); [done|done|]. intros x Hx [H|H%list_elem_of_singleton]%elem_of_app; [|by subst].
    apply (Hseen x); [by right|done].
Qed.

(** What the active branch of a parsed session is. *)
Record active_ok (parsed : ParsedSession) (leaf : option string) (active : ActiveBranch) : Prop := {
  ao_branch : match leaf with
              | None => ab_branch active = []
              | Some leaf => ab_branch active = [] \/
                  branch_linked (map ref_id (map snd (ps_entries parsed))) [] None (map report_entry (ab_branch active)) = true /\
                  re_id <$> last (map report_entry (ab_branch active)) = Some leaf
              end;
  ao_transcript : match ab_transcript active with
                  | None => ab_messages active = [] /\ Forall structural (ab_findings active) /\
                      ps_findings parsed ++ ab_findings active <> []
                  | Some transcript => ps_findings parsed = [] /\ transcript = inspectTranscriptIntegrity (ab_messages active) /\
                      ab_findings active = map transcript_finding (issues transcript) /\
                      forallb validTranscriptIssue (issues transcript) = true /\
                      (is_some leaf = true -> ab_branch active <> [])
                  end;
}.

Lemma stray_structural (ancestorIds : list string) (branch : list json) : Forall structural (stray_compactions ancestorIds branch).
Proof.
  revert ancestorIds. induction branch as [|entry branch IH]; intros ancestorIds; cbn [stray_compactions]; [constructor|].
  apply Forall_app. split; [|apply IH]. destruct (_ && _); [|constructor]. by apply Forall_singleton.
Qed.

Lemma active_spec (complete : string) (parsed : ParsedSession) (leaf : option string) (blocked : bool) :
  parse_ok complete parsed -> (blocked = false <-> ps_findings parsed = []) ->
  exists active, inspect_branch (map snd (ps_entries parsed)) (ps_byId parsed) leaf blocked = Some active /\
    active_ok parsed leaf active.
Proof.
  intros Hp Hb. unfold SessionInspection.inspect_branch.
  destruct (match leaf with Some leaf => negb (map_has leaf (ps_byId parsed)) | None => false end) eqn:Em.
  { eexists. split; [reflexivity|]. split; cbn [ab_branch ab_transcript ab_messages ab_findings no_branch].
    - destruct leaf; [by left|done].
    - split_and!; [done|by apply Forall_singleton|]. intros H. by apply app_eq_nil in H as [_ H]. }
  destruct blocked.
  { eexists. split; [reflexivity|]. split; cbn [ab_branch ab_transcript ab_messages ab_findings no_branch].
    - destruct leaf; [by left|done].
    - split_and!; [done|constructor|]. rewrite app_nil_r. intros H. by apply Hb in H. }
  assert (Hnil : ps_findings parsed = []) by by apply Hb.
  assert (Ht : tree (ps_entries parsed) (ps_byId parsed)).
  { split; [apply (po_entries _ _ Hp)|apply (po_index _ _ Hp)|by apply (po_loops _ _ Hp)|by apply (po_parents _ _ Hp)]. }
  destruct leaf as [leaf|].
  - apply negb_false_iff in Em. destruct (branch_found _ _ _ Ht Em) as (branch & entry & _ & -> & Hl & [pre Hpre] & Hid & Hctx).
    cbn [mbind option_bind]. rewrite Hctx. cbn [mbind option_bind].
    assert (Hbr : branch_linked (map ref_id (map snd (ps_entries parsed))) [] None (map report_entry branch) = true /\
                  re_id <$> last (map report_entry branch) = Some leaf).
    { split.
      - apply (linked_branch _ _ None branch [] Ht Hl); [|set_solver].
        apply (linked_NoDup _ (tree_indexed _ _ Ht) None); [apply (tr_loops _ _ Ht)|done].
      - rewrite Hpre, map_app. cbn [map]. rewrite last_snoc. cbn. by rewrite Hid. }
    pose proof (stray_structural [] branch) as Hstray.
    destruct (stray_compactions [] branch) as [|stray strays] eqn:Es; (eexists; split; [reflexivity|]);
      (split; cbn [ab_branch ab_transcript ab_messages ab_findings]; [by right|]).
    + split_and!; try done.
      * apply (session_issue_ids), (context_sound dateMs). apply Forall_forall. intros e He. apply linked_stored in Hl.
        rewrite Forall_forall in Hl. by apply (stored_valid (ps_entries parsed) (ps_byId parsed) e (tr_valid _ _ Ht) (tr_index _ _ Ht)), Hl.
      * intros _. rewrite Hpre. by destruct pre.
    + split_and!; [done|done|]. intros H. by apply app_eq_nil in H as [_ H].
  - cbn [mbind option_bind stray_compactions buildSessionContext]. eexists. split; [reflexivity|].
    split; cbn [ab_branch ab_transcript ab_messages ab_findings]; [done|]. split_and!; done.
Qed.
End Sessions.

(** ** The report *)

Lemma split_complete_app (bytes : string) :
  (fst (split_complete bytes) ++ snd (split_complete bytes))%string = bytes.
Proof.
  induction bytes as [|a r IH]; [done|]. cbn [split_complete]. destruct (split_complete r) as [complete trailing].
  cbn [fst snd] in IH. destruct (code a =? 10)%nat; cbn [orb fst snd]; [by cbn; rewrite IH|].
  destruct complete; cbn [is_empty negb fst snd]; cbn in *; by rewrite IH.
Qed.

Lemma split_sizes (bytes : string) :
  String.length bytes = String.length (fst (split_complete bytes)) + String.length (snd (split_complete bytes)).
Proof. rewrite <- (split_complete_app bytes) at 1. apply length_append. Qed.

Lemma structural_filter (p : SessionIntegrityFinding -> bool) (l : list SessionIntegrityFinding) :
  Forall structural l -> (forall f, p f = true -> is_structural f = false) -> List.filter p l = [].
Proof.
  intros H Hp. induction H as [|f l [Hf _] _ IH]; cbn; [done|]. destruct (p f) eqn:E; [|done]. apply Hp in E. congruence.
Qed.

Lemma transcript_filter (p : SessionIntegrityFinding -> bool) (l : list TranscriptIntegrityIssue) (b : bool) :
  (forall i, p (transcript_finding i) = b) -> List.filter p (map transcript_finding l) = if b then map transcript_finding l else [].
Proof. intros Hp. induction l as [|i l IH]; cbn; [by destruct b|]. rewrite Hp, IH. by destruct b. Qed.

Section Reports.
Context (dateMs : string -> jsnum) (sha256 : string -> string).
(** SHA-256 in hex. *)
Context (sha256_hex : forall bytes, isValidHashShape (sha256 bytes) = true) (sha256_empty : sha256 EmptyString = EMPTY_SHA256).

Abbreviation inspect := (inspectSessionIntegrity dateMs sha256).

Definition fragment_findings (trailing : string) : list SessionIntegrityFinding :=
  if is_empty trailing then [] else [finding_of fr_trailing_fragment].

(** The parts a report is put together from. *)
Record assembled (bytes : string) (activeLeafId : option (option string)) (parsed : ParsedSession) (active : ActiveBranch)
    (report : SessionIntegrityReport) : Prop := {
  as_parsed : parse_session dateMs (fst (split_complete bytes)) = Some parsed;
  as_parse : parse_ok dateMs (fst (split_complete bytes)) parsed;
  as_leaf : sr_activeLeafId report = default (ref_id <$> last (map snd (ps_entries parsed))) activeLeafId;
  as_active : active_ok parsed (sr_activeLeafId report) active;
  as_source : sr_source report = digest sha256 bytes;
  as_prefix : sr_completePrefix report = digest sha256 (fst (split_complete bytes));
  as_lines : sr_lineCount report = Z.of_nat (length (ps_lines parsed));
  as_fragment : sr_trailingFragment report
    = if is_empty (snd (split_complete bytes)) then None else Some (digest sha256 (snd (split_complete bytes)));
  as_header : sr_headerId report = ref_id <$> ps_header parsed;
  as_entries : sr_entries report = map report_entry (map snd (ps_entries parsed));
  as_branch : sr_activeBranch report = map report_entry (ab_branch active);
  as_messages : sr_activeMessages report = ab_messages active;
  as_transcript : sr_transcript report = ab_transcript active;
  as_findings : sr_findings report
    = fragment_findings (snd (split_complete bytes)) ++ ps_findings parsed ++ ab_findings active;
  as_ok : sr_ok report = (length (sr_findings report) =? 0)%nat;
}.

Lemma blocked_findings_iff (fragment : option SessionByteDigest) (l : list SessionIntegrityFinding) :
  Forall structural l ->
  existsb not_trailing ((if is_some fragment then [finding_of fr_trailing_fragment] else []) ++ l) = false <-> l = [].
Proof.
  intros H. rewrite existsb_app. assert (E : existsb not_trailing (if is_some fragment then [finding_of fr_trailing_fragment] else []) = false)
    by (by destruct fragment). rewrite E. cbn [orb]. destruct H as [|f l [Hf _] _]; [done|]. cbn [existsb]. split; [|done].
  unfold is_structural in Hf. apply andb_true_iff in Hf as [Hf _]. unfold not_trailing at 1. by rewrite Hf.
Qed.

Lemma inspection_assembled (bytes : string) (activeLeafId : option (option string)) :
  (Z.of_nat (String.length bytes) <= MAX_SAFE_INTEGER)%Z ->
  match session_lines (fst (split_complete bytes)) with
  | None => inspect bytes activeLeafId = None
  | Some _ => exists parsed active report, inspect bytes activeLeafId = Some report /\ assembled bytes activeLeafId parsed active report
  end.
Proof.
  intros Hsafe. pose proof (split_sizes bytes) as Hsize.
  pose proof (parse_spec dateMs (fst (split_complete bytes)) ltac:(lia)) as Hp. unfold inspectSessionIntegrity.
  destruct (split_complete bytes) as [complete trailing] eqn:Es. cbn [fst snd] in *.
  destruct (session_lines complete) as [x|]; [|by rewrite Hp]. destruct Hp as (parsed & Hp & Hok). rewrite Hp. cbn [mbind option_bind].
  set (fragment := if is_empty trailing then None else Some (digest sha256 trailing)).
  set (leaf := default (ref_id <$> last (map snd (ps_entries parsed))) activeLeafId).
  destruct (active_spec dateMs complete parsed leaf _ Hok (blocked_findings_iff fragment _ (po_findings _ _ _ Hok))) as (active & -> & Ha).
  cbn [mbind option_bind]. eexists parsed, active, _. split; [reflexivity|].
  split; rewrite ?Es; cbn [fst snd sr_activeLeafId sr_source sr_completePrefix sr_lineCount sr_trailingFragment sr_headerId sr_entries sr_activeBranch
    sr_activeMessages sr_transcript sr_findings sr_ok]; try done.
  rewrite app_assoc. unfold fragment, fragment_findings. by destruct (is_empty trailing).
Qed.

Lemma report_assembled (bytes : string) (activeLeafId : option (option string)) (report : SessionIntegrityReport) :
  (Z.of_nat (String.length bytes) <= MAX_SAFE_INTEGER)%Z -> inspect bytes activeLeafId = Some report ->
  exists parsed active, assembled bytes activeLeafId parsed active report.
Proof.
  intros Hsafe H. pose proof (inspection_assembled bytes activeLeafId Hsafe) as Hi.
  destruct (session_lines _) as [x|]; [|congruence]. destruct Hi as (parsed & active & r & Hr & Ha). rewrite H in Hr.
  injection Hr as <-. by exists parsed, active.
Qed.

(** ** Consistency *)

Lemma digest_valid (bytes : string) :
  (Z.of_nat (String.length bytes) <= MAX_SAFE_INTEGER)%Z -> validByteDigest (digest sha256 bytes) = true.
Proof. intros H. unfold validByteDigest, safe_count. cbn. rewrite sha256_hex, andb_true_r, andb_true_iff, !Z.leb_le. lia. Qed.

Lemma length_zero (s : string) : String.length s = 0 -> s = EmptyString.
Proof. by destruct s. Qed.

Lemma report_bytes (bytes : string) (activeLeafId : option (option string)) (parsed : ParsedSession) (active : ActiveBranch)
    (report : SessionIntegrityReport) :
  (Z.of_nat (String.length bytes) <= MAX_SAFE_INTEGER)%Z -> assembled bytes activeLeafId parsed active report ->
  bytes_consistent report = true.
Proof.
  intros Hsafe H. pose proof (split_sizes bytes) as Hsize. pose proof (split_complete_app bytes) as Happ.
  pose proof (po_lines _ _ _ (as_parse _ _ _ _ _ H)) as Hl. unfold bytes_consistent. cbv zeta.
  rewrite (as_source _ _ _ _ _ H), (as_prefix _ _ _ _ _ H), (as_lines _ _ _ _ _ H), (as_fragment _ _ _ _ _ H).
  destruct (split_complete bytes) as [complete trailing]. cbn [fst snd] in *.
  rewrite !digest_valid by lia. cbn [andb digest bd_byteCount bd_sha256].
  assert (Hf : from_option validByteDigest true (if is_empty trailing then None else Some (digest sha256 trailing)) = true)
    by (destruct (is_empty trailing); [done|]; cbn [from_option]; apply digest_valid; lia).
  assert (Hc : (Z.of_nat (String.length bytes) =? Z.of_nat (String.length complete)
            + from_option bd_byteCount 0 (if is_empty trailing then None else Some (digest sha256 trailing)))%Z = true)
    by (apply Z.eqb_eq; destruct trailing; cbn [is_empty from_option digest bd_byteCount] in *; cbn [String.length] in *; lia).
  rewrite Hf, Hc. unfold safe_count. rewrite !(proj2 (Z.leb_le _ _)) by lia. cbn [andb]. apply andb_true_iff. split.
  - destruct (Z.eqb_spec (Z.of_nat (String.length complete)) 0) as [E|]; [|done]. cbn [negb orb]. apply String.eqb_eq.
    rewrite <- sha256_empty. f_equal. apply length_zero. lia.
  - destruct trailing as [|a r]; cbn [is_empty is_some orb]; [|done]. rewrite app_nil_str in Happ. subst complete. apply String.eqb_refl.
Qed.

(** The findings of a report: a fragment, then those that block, then those on
    the transcript. *)
Lemma findings_shape (bytes : string) (activeLeafId : option (option string)) (parsed : ParsedSession) (active : ActiveBranch)
    (report : SessionIntegrityReport) :
  assembled bytes activeLeafId parsed active report ->
  exists blocking found, Forall structural blocking /\
    sr_findings report = fragment_findings (snd (split_complete bytes)) ++ blocking ++ map transcript_finding found /\
    match sr_transcript report with
    | None => blocking <> [] /\ found = [] /\ sr_activeMessages report = []
    | Some transcript => blocking = [] /\ found = issues transcript /\
        transcript = inspectTranscriptIntegrity (sr_activeMessages report) /\ forallb validTranscriptIssue found = true
    end.
Proof.
  intros H. pose proof (ao_transcript _ _ _ (as_active _ _ _ _ _ H)) as Ht. pose proof (po_findings _ _ _ (as_parse _ _ _ _ _ H)) as Hf.
  rewrite (as_transcript _ _ _ _ _ H), (as_findings _ _ _ _ _ H), (as_messages _ _ _ _ _ H).
  destruct (ab_transcript active) as [transcript|].
  - destruct Ht as (Hn & -> & -> & Hv & _). rewrite Hn. by eexists [], _.
  - destruct Ht as (Hm & Hs & Hne). exists (ps_findings parsed ++ ab_findings active), []. split_and!; try done.
    + by apply Forall_app. + cbn [map]. by rewrite app_nil_r.
Qed.

Lemma fragment_trailing (trailing : string) :
  List.filter (fun f => bool_decide (fi_reason f = fr_trailing_fragment)) (fragment_findings trailing) = fragment_findings trailing.
Proof. unfold fragment_findings. by destruct (is_empty trailing). Qed.

Lemma structural_not_trailing (f : SessionIntegrityFinding) :
  bool_decide (fi_reason f = fr_trailing_fragment) = true -> is_structural f = false.
Proof. unfold is_structural. by intros ->. Qed.

Lemma structural_not_transcript (f : SessionIntegrityFinding) : is_transcript_reason (fi_reason f) = true -> is_structural f = false.
Proof. unfold is_structural. intros ->. by rewrite andb_false_r. Qed.

Lemma report_findings (bytes : string) (activeLeafId : option (option string)) (parsed : ParsedSession) (active : ActiveBranch)
    (report : SessionIntegrityReport) :
  assembled bytes activeLeafId parsed active report -> findings_consistent report = true.
Proof.
  intros H. destruct (findings_shape _ _ _ _ _ H) as (blocking & found & Hb & Hf & _).
  pose proof (po_header _ _ _ (as_parse _ _ _ _ _ H)) as Hh. unfold findings_consistent. cbv zeta.
  rewrite (as_ok _ _ _ _ _ H), Bool.eqb_reflx, andb_true_r, (as_fragment _ _ _ _ _ H), (as_header _ _ _ _ _ H).
  rewrite !andb_true_iff. split_and!.
  - rewrite Hf, !forallb_app, !andb_true_iff. split_and!.
    + unfold fragment_findings. by destruct (is_empty _).
    + apply forallb_forall. intros f Hin%list_elem_of_In. rewrite Forall_forall in Hb. by apply Hb.
    + apply forallb_forall. intros f (i & <- & _)%in_map_iff. done.
  - rewrite Hf, !List.filter_app, fragment_trailing, (structural_filter _ blocking Hb structural_not_trailing).
    rewrite (transcript_filter _ _ false) by done. rewrite !app_nil_r. unfold fragment_findings. by destruct (is_empty _).
  - rewrite Hf, !List.filter_app, fragment_trailing, (structural_filter _ blocking Hb structural_not_trailing).
    rewrite (transcript_filter _ _ false) by done. rewrite !app_nil_r. unfold fragment_findings. by destruct (is_empty _).
  - destruct (ps_header parsed) as [header|]; cbn [fmap option_fmap option_map]; [by destruct (ref_id header)|].
    rewrite (as_findings _ _ _ _ _ H), !existsb_app, Hh. by rewrite orb_true_r.
Qed.

Lemma report_transcript (bytes : string) (activeLeafId : option (option string)) (parsed : ParsedSession) (active : ActiveBranch)
    (report : SessionIntegrityReport) :
  assembled bytes activeLeafId parsed active report -> transcript_consistent report = true.
Proof.
  intros H. destruct (findings_shape _ _ _ _ _ H) as (blocking & found & Hb & Hf & Ht).
  assert (Hts : List.filter (fun f => is_transcript_reason (fi_reason f)) (sr_findings report) = map transcript_finding found).
  { rewrite Hf, !List.filter_app, (structural_filter _ blocking Hb structural_not_transcript).
    rewrite (transcript_filter _ _ true) by done. unfold fragment_findings. by destruct (is_empty _). }
  assert (Hst : existsb is_structural (sr_findings report) = existsb is_structural blocking).
  { rewrite Hf, !existsb_app. assert (E : existsb is_structural (map transcript_finding found) = false)
      by (clear; induction found as [|i found IH]; [done|exact IH]).
    rewrite E, orb_false_r. unfold fragment_findings. by destruct (is_empty _). }
  unfold transcript_consistent. cbv zeta. rewrite Hts, Hst. destruct (sr_transcript report) as [transcript|].
  - destruct Ht as (-> & -> & E & Hv). rewrite Hv. rewrite <- E, Bool.eqb_reflx. cbn [existsb negb andb].
    assert (Hok : ok transcript = (length (issues transcript) =? 0)%nat) by by rewrite E.
    rewrite Hok, Bool.eqb_reflx. cbn [andb]. rewrite map_map, !(proj2 (same_items _ _)); done.
  - destruct Ht as (Hne & -> & ->). cbn [length map Nat.eqb andb]. destruct Hb as [|f blocking [Hs _] _]; [done|]. cbn [existsb]. by rewrite Hs.
Qed.

Lemma report_branch (bytes : string) (activeLeafId : option (option string)) (parsed : ParsedSession) (active : ActiveBranch)
    (report : SessionIntegrityReport) :
  assembled bytes activeLeafId parsed active report ->
  activeBranchIsConsistent report = true <-> sr_activeLeafId report = None \/ sr_activeBranch report <> [].
Proof.
  intros H. pose proof (ao_branch _ _ _ (as_active _ _ _ _ _ H)) as Hb. unfold activeBranchIsConsistent.
  assert (He : forallb (fun entry => negb (is_empty (re_id entry))) (sr_entries report) = true).
  { rewrite (as_entries _ _ _ _ _ H). apply forallb_forall. intros e (v & <- & Hv%list_elem_of_In)%in_map_iff.
    pose proof (po_entries _ _ _ (as_parse _ _ _ _ _ H)) as Hvs. rewrite Forall_forall in Hvs. specialize (Hvs _ Hv).
    apply valid_id in Hvs. cbn. by destruct (ref_id v). }
  rewrite He, (as_branch _ _ _ _ _ H), (as_entries _ _ _ _ _ H). cbn [andb]. destruct (sr_activeLeafId report) as [leaf|].
  - rewrite map_map. change (fun x => re_id (report_entry x)) with ref_id. destruct Hb as [->|[Hl He']].
    + cbn. split; [done|]. intros [Hn|Hn]; done.
    + rewrite Hl, He', bool_decide_true by done. rewrite !andb_true_r, negb_true_iff, Nat.eqb_neq. split.
      * intros Hn. right. by destruct (map report_entry (ab_branch active)).
      * intros [Hn|Hn]; [done|]. by destruct (map report_entry (ab_branch active)).
  - rewrite Hb. cbn. split; [by left|done].
Qed.
End Reports.
