(* ===== verification/SessionSafety.v ===== *)
(** * Properties of the session inspection

    The theorems on packages/coding-agent/src/core/session-integrity.ts, alone
    and together with the compaction barrier of compaction/transaction.ts, and
    the concrete session they are tried on. *)

From Stdlib Require Import Ascii String ZArith QArith Lia.
From stdpp Require Import base list option strings sets relations.
From S2P Require Import Prelude JsString JsValue Regex Json JsNumber CanonicalJson Utf8 SessionTermination JournalChecks.
From S2P Require Import JournalInspector TranscriptIntegrity SessionReport CompactionTransaction CompactionCommit CompactionBarrier.
From S2P Require Import SessionShapes SessionInspection SessionGraph SessionTheory.

Open Scope nat_scope.
Open Scope string_scope.
Open Scope list_scope.

(** ** A concrete session *)

Definition sample_date (s : string) : jsnum := NumFin 0.
Definition sample_sha (bytes : string) : string := if is_empty bytes then EMPTY_SHA256 else GENESIS_HASH.

Definition entry_json (id : string) (parent : option string) (fields : list (string * json)) : json :=
  JsObj ([("id", JsStr id); ("parentId", nullable parent); ("timestamp", JsStr "2025-01-02T03:04:05.678Z")] ++ fields).

Definition message_fields (role : string) (fields : list (string * json)) : list (string * json) :=
  [("type", JsStr "message"); ("message", JsObj ([("role", JsStr role); ("timestamp", JsNum "0")] ++ fields))].

Definition zeros (keys : list string) : list (string * json) := map (fun key => (key, JsNum "0")) keys.

Definition assistant_fields (blocks : list json) : list (string * json) :=
  [("content", JsArr blocks); ("api", JsStr "messages"); ("provider", JsStr "anthropic"); ("model", JsStr "claude");
   ("usage", JsObj (zeros ["input"; "output"; "cacheRead"; "cacheWrite"; "totalTokens"]
                    ++ [("cost", JsObj (zeros ["input"; "output"; "cacheRead"; "cacheWrite"; "total"]))]));
   ("stopReason", JsStr "toolUse")].

Definition sample_values (parent : option string) : list json :=
  [JsObj [("type", JsStr "session"); ("version", JsNum "3"); ("id", JsStr "session-1"); ("timestamp", JsStr "2025-01-02");
          ("cwd", JsStr "/work")];
   entry_json "e1" parent (message_fields "user" [("content", JsStr "read the file")]);
   entry_json "e2" (Some "e1") (message_fields "assistant" (assistant_fields
     [JsObj [("type", JsStr "toolCall"); ("id", JsStr "a"); ("name", JsStr "read"); ("arguments", JsObj [])]]));
   entry_json "e3" (Some "e2") (message_fields "toolResult"
     [("toolCallId", JsStr "a"); ("toolName", JsStr "read"); ("content", JsArr []); ("isError", JsBool false)])].

Definition lines_text (lines : list string) : string :=
  fold_right (fun line text => line ++ String line_feed text)%string EmptyString lines.

Definition sample_session : string := lines_text (map json_print (sample_values None)).

Definition sample_inspect (bytes : string) : option SessionIntegrityReport :=
  inspectSessionIntegrity sample_date sample_sha bytes None.

Lemma sample_inspected :
  match sample_inspect sample_session with
  | Some report => sr_ok report && bool_decide (map re_id (sr_activeBranch report) = ["e1"; "e2"; "e3"])
                   && bool_decide (call_ids (sr_activeMessages report) = ["a"])
  | None => false
  end = true.
Proof. vm_compute. reflexivity. Qed.

Lemma sample_sha_hex (bytes : string) : isValidHashShape (sample_sha bytes) = true.
Proof. unfold sample_sha. destruct (is_empty bytes); vm_compute; reflexivity. Qed.

Lemma sample_size : (Z.of_nat (String.length sample_session) <= MAX_SAFE_INTEGER)%Z.
Proof. vm_compute. discriminate. Qed.

(** ** Torn appends *)

Lemma split_torn (bytes fragment : string) :
  snd (split_complete bytes) = EmptyString -> sforall no_lf fragment = true ->
  split_complete (bytes ++ fragment) = (bytes, fragment).
Proof.
  intros Hb Hf. pose proof (split_complete_app bytes) as E. rewrite Hb, app_nil_str in E. clear Hb.
  induction bytes as [|a r IH]; cbn [String.append].
  - clear E. induction fragment as [|a f IH]; [done|]. cbn [sforall split_complete] in *. apply andb_true_iff in Hf as [Ha Hf].
    rewrite (IH Hf). unfold no_lf in Ha. apply negb_true_iff in Ha. by rewrite Ha.
  - cbn [split_complete] in E |- *. destruct (split_complete r) as [complete trailing] eqn:Es. cbn [fst] in *.
    destruct ((code a =? 10)%nat || negb (is_empty complete)) eqn:Ec; cbn [fst] in E; [|done]. injection E as ->.
    rewrite (IH eq_refl). by rewrite Ec.
Qed.

(** The report of the bytes that end in a fragment. *)
Definition with_fragment (sha256 : string -> string) (bytes fragment : string) (report : SessionIntegrityReport)
    : SessionIntegrityReport :=
  {| sr_ok := false; sr_source := digest sha256 (bytes ++ fragment); sr_completePrefix := sr_completePrefix report;
     sr_lineCount := sr_lineCount report; sr_trailingFragment := Some (digest sha256 fragment);
     sr_headerId := sr_headerId report; sr_entries := sr_entries report; sr_activeLeafId := sr_activeLeafId report;
     sr_activeBranch := sr_activeBranch report; sr_activeMessages := sr_activeMessages report;
     sr_transcript := sr_transcript report; sr_findings := finding_of fr_trailing_fragment :: sr_findings report |}.

(** An append that was cut short costs nothing but a finding. When bytes that
    end with a complete line are followed by a fragment without a newline, the
    inspection reports the same header, entries, active branch, messages and
    transcript as without it, and one more finding. *)
Theorem torn_append (dateMs : string -> jsnum) (sha256 : string -> string) (bytes fragment : string)
    (activeLeafId : option (option string))
    (Hb : snd (split_complete bytes) = EmptyString) (Hf : sforall no_lf fragment = true) (Hne : fragment <> EmptyString) :
  inspectSessionIntegrity dateMs sha256 (bytes ++ fragment) activeLeafId
  = with_fragment sha256 bytes fragment <$> inspectSessionIntegrity dateMs sha256 bytes activeLeafId.
Proof.
  unfold inspectSessionIntegrity. pose proof (split_complete_app bytes) as E. rewrite Hb, app_nil_str in E.
  rewrite (split_torn bytes fragment Hb Hf). destruct (split_complete bytes) as [complete trailing]. cbn [fst snd] in Hb, E.
  subst complete trailing. assert (He : is_empty fragment = false) by by destruct fragment. rewrite He. cbn [is_empty is_some].
  destruct (parse_session dateMs bytes) as [parsed|]; [|done]. cbn [mbind option_bind].
  change (existsb not_trailing ([finding_of fr_trailing_fragment] ++ ps_findings parsed))
    with (existsb not_trailing ([] ++ ps_findings parsed)).
  by destruct (inspect_branch _ _ _ _ _).
Qed.

(** C30: The inspection returns a report on every file whose complete lines are
    text, whatever the leaf: the search for cycles, the walk up the active
    branch and the one of the context end within the number of entries. *)
Theorem inspection_returns (dateMs : string -> jsnum) (sha256 : string -> string) (bytes : string)
    (activeLeafId : option (option string))
    (Hsize : (Z.of_nat (String.length bytes) <= MAX_SAFE_INTEGER)%Z)
    (Htext : session_lines (fst (split_complete bytes)) <> None) :
  is_Some (inspectSessionIntegrity dateMs sha256 bytes activeLeafId).
Proof.
  pose proof (inspection_assembled dateMs sha256 bytes activeLeafId Hsize) as H. destruct (session_lines _) as [x|]; [|done].
  destruct H as (parsed & active & report & -> & _). by exists report.
Qed.

(** The cycles reported are exactly the loops of the parents. Each is a list of
    different entries, every one with the next as its parent and the last with
    the first; no entry is reported twice; and an indexed entry is in one of
    them exactly when following its parents leads back to it. *)
Theorem findCycles_exact (entries : list (nat * json)) :
  let byId := fst (index_entries [] entries) in
  exists cycles, findCycles entries byId = Some (map cycle_finding cycles) /\ Forall (is_loop (up byId)) cycles /\
    NoDup (concat cycles) /\ forall x, x ∈ concat cycles <-> x ∈ map fst byId /\ on_loop (up byId) x.
Proof. apply cycles_found. Qed.

(** ** Reports and the barrier *)

Section Barrier.
Context (dateMs : string -> jsnum) (sha256 : string -> string).
Context (sha256_hex : forall bytes, isValidHashShape (sha256 bytes) = true) (sha256_empty : sha256 EmptyString = EMPTY_SHA256).

Lemma report_consistency (bytes : string) (activeLeafId : option (option string)) (report : SessionIntegrityReport) :
  (Z.of_nat (String.length bytes) <= MAX_SAFE_INTEGER)%Z ->
  inspectSessionIntegrity dateMs sha256 bytes activeLeafId = Some report ->
  reportIsConsistent report = true <-> sr_activeLeafId report = None \/ sr_activeBranch report <> [].
Proof.
  intros Hs (parsed & active & H)%report_assembled; [|done]. unfold reportIsConsistent.
  rewrite (report_bytes dateMs sha256 sha256_hex sha256_empty _ _ _ _ _ Hs H), (report_findings dateMs sha256 _ _ _ _ _ H),
    (report_transcript dateMs sha256 _ _ _ _ _ H), andb_true_r. apply (report_branch dateMs sha256 _ _ _ _ _ H).
Qed.

Lemma clean_report (bytes : string) (activeLeafId : option (option string)) (report : SessionIntegrityReport) :
  (Z.of_nat (String.length bytes) <= MAX_SAFE_INTEGER)%Z ->
  inspectSessionIntegrity dateMs sha256 bytes activeLeafId = Some report -> sr_findings report = [] ->
  reportIsConsistent report = true.
Proof.
  intros Hs Hi Hf. apply (report_consistency _ _ _ Hs Hi). apply report_assembled in Hi as (parsed & active & H); [|done].
  pose proof (ao_transcript _ _ _ (as_active _ _ _ _ _ _ _ H)) as Ht. pose proof (as_findings _ _ _ _ _ _ _ H) as E. rewrite Hf in E.
  symmetry in E. apply app_eq_nil in E as [_ E]. rewrite (as_branch _ _ _ _ _ _ _ H).
  destruct (ab_transcript active) as [transcript|]; [|by destruct Ht as (_ & _ & Hn)]. destruct Ht as (_ & _ & _ & _ & Hb).
  destruct (sr_activeLeafId report) as [leaf|]; [|by left]. right. intros Hm%map_eq_nil. by apply Hb.
Qed.
End Barrier.

(** What the inspection reports is what the barrier checks. The report on a
    file is consistent exactly when no leaf is selected or the active branch
    was followed: every digest, finding, entry and issue in it agrees. *)
Theorem report_consistent_iff (dateMs : string -> jsnum) (sha256 : string -> string) (bytes : string)
    (activeLeafId : option (option string)) (report : SessionIntegrityReport)
    (Hhex : forall bytes, isValidHashShape (sha256 bytes) = true) (Hempty : sha256 EmptyString = EMPTY_SHA256)
    (Hsize : (Z.of_nat (String.length bytes) <= MAX_SAFE_INTEGER)%Z)
    (Hi : inspectSessionIntegrity dateMs sha256 bytes activeLeafId = Some report) :
  reportIsConsistent report = true <-> sr_activeLeafId report = None \/ sr_activeBranch report <> [].
Proof. by apply (report_consistency dateMs sha256 Hhex Hempty bytes activeLeafId). Qed.

(** A session may be compacted exactly when its file is clean: without pending
    calls the barrier opens on the report of the inspection if and only if the
    report found nothing. *)
Theorem clean_session_compacts (dateMs : string -> jsnum) (sha256 : string -> string) (bytes : string)
    (activeLeafId : option (option string)) (report : SessionIntegrityReport)
    (Hhex : forall bytes, isValidHashShape (sha256 bytes) = true) (Hempty : sha256 EmptyString = EMPTY_SHA256)
    (Hsize : (Z.of_nat (String.length bytes) <= MAX_SAFE_INTEGER)%Z)
    (Hi : inspectSessionIntegrity dateMs sha256 bytes activeLeafId = Some report) :
  evaluateCompactionBarrier report (JsArr []) = barrierResult barrier_ready closed_active_branch [] [] <-> sr_ok report = true.
Proof.
  assert (Hok : sr_ok report = true <-> sr_findings report = []).
  { destruct (report_assembled _ _ _ _ _ Hsize Hi) as (parsed & active & H).
    by rewrite (as_ok _ _ _ _ _ _ _ H), Nat.eqb_eq, length_zero_iff_nil. }
  rewrite Hok. split.
  - intros H. assert (Hs : br_status (evaluateCompactionBarrier report (JsArr [])) = barrier_ready) by by rewrite H.
    apply barrier_opens in Hs. apply Hs.
  - intros Hf. assert (Hs : br_status (evaluateCompactionBarrier report (JsArr [])) = barrier_ready)
      by (apply barrier_opens; split_and!; [done|by apply (clean_report dateMs sha256 Hhex Hempty bytes activeLeafId)|done]).
    apply ready_barrier; [|done]. apply answer_valid. intros Hr.
    destruct (barrier_cases report (JsArr [])) as [(e & _ & E)|[(p & r & _ & _ & _ & _ & E)|(p & t & _ & E)]]; rewrite E in Hs, Hr;
      try done. unfold barrier_on in Hs, Hr. repeat case_match; done.
Qed.

(** ** On the concrete session *)

Lemma torn_append_witness :
  sr_findings <$> sample_inspect (sample_session ++ "{") = Some [finding_of fr_trailing_fragment] /\
  sample_inspect (sample_session ++ "{") = with_fragment sample_sha sample_session "{" <$> sample_inspect sample_session.
Proof.
  split; [vm_compute; reflexivity|].
  apply (torn_append sample_date sample_sha sample_session "{" None); [vm_compute; reflexivity|reflexivity|discriminate].
Defined.

Lemma inspection_returns_witness : is_Some (sample_inspect sample_session).
Proof. apply (inspection_returns sample_date sample_sha sample_session None); [exact sample_size|vm_compute; discriminate]. Defined.

Lemma report_consistent_iff_witness :
  match sample_inspect sample_session with
  | Some report => reportIsConsistent report = true
  | None => False
  end.
Proof.
  pose proof sample_inspected as H. destruct (sample_inspect sample_session) as [report|] eqn:E; [|discriminate H].
  apply (report_consistent_iff sample_date sample_sha sample_session None report sample_sha_hex eq_refl sample_size E).
  right. intros Hn. rewrite Hn in H. cbn in H. rewrite andb_false_r in H. discriminate H.
Defined.

Lemma clean_session_compacts_witness :
  match sample_inspect sample_session with
  | Some report => evaluateCompactionBarrier report (JsArr []) = barrierResult barrier_ready closed_active_branch [] []
  | None => False
  end.
Proof.
  pose proof sample_inspected as H. destruct (sample_inspect sample_session) as [report|] eqn:E; [|discriminate H].
  apply (clean_session_compacts sample_date sample_sha sample_session None report sample_sha_hex eq_refl sample_size E).
  rewrite !andb_true_iff in H. apply H.
Defined.

(** A loop of the parents is one finding. *)
Example looped_session :
  (map fi_cycleEntryIds ∘ sr_findings) <$> sample_inspect (lines_text (map json_print (sample_values (Some "e3"))))
  = Some [Some ["e1"; "e3"; "e2"]].
Proof. vm_compute. reflexivity. Qed.

(** A damaged line leaves the selected leaf without a branch, and the barrier
    then names the report inconsistent, not the structure. *)
Lemma damaged_line_misnamed :
  match sample_inspect (sample_session ++ lines_text ["{"]) with
  | Some report => map fi_reason (sr_findings report) = [fr_malformed_json] /\
      br_reason (evaluateCompactionBarrier report (JsArr [])) = inconsistent_integrity_report
  | None => False
  end.
Proof. vm_compute. split; reflexivity. Qed.
