(* ===== verification/SessionRepair.v ===== *)
(** * Session repair plans
    (packages/coding-agent/src/core/session-repair-plan.ts)

    From the report on a session file, what a repair would do: set a trailing
    fragment aside, and append a synthetic result for every call of the last
    assistant message that lacks one. Everything else blocks. The plan writes
    nothing; an error is the message thrown on the options. *)

From Stdlib Require Import Ascii String ZArith QArith Lia Permutation.
From stdpp Require Import base list option strings sets.
From S2P Require Import Prelude JsString JsValue Json JsNumber SessionTermination JournalChecks JournalTermination TranscriptIntegrity.
From S2P Require Import SessionReport CompactionTransaction CompactionCommit CompactionBarrier SessionShapes SessionInspection.
From S2P Require Import SessionGraph SessionTheory SessionSafety.

Open Scope nat_scope.
Open Scope string_scope.
Open Scope list_scope.

Module Repair.

(** ** Plans *)

Inductive SessionRepairReason : Type := resume_recovery | doctor_repair.
Inductive SessionRepairPlanStatus : Type := not_needed | repairable | blocked.

#[export] Instance status_eq_dec : EqDecision SessionRepairPlanStatus.
Proof. solve_decision. Defined.

Inductive SessionRepairBlockerReason : Type :=
| integrity_finding | inspection_incomplete | ambiguous_transcript | inconsistent_report.

Record CreateSessionRepairPlanOptions : Type := {
  op_repairId : string;
  op_reason : SessionRepairReason;
  op_timestamp : jsnum;
}.

Record SessionRepairBlocker : Type := {
  bk_reason : SessionRepairBlockerReason;
  bk_findingReason : option SessionIntegrityReasonCode;
  bk_entryId : option string;
  bk_toolCallId : option string;
}.

Inductive SessionRepairAction : Type :=
| quarantine_trailing_fragment (fragment retainPrefix : SessionByteDigest) (retainLines : Z)
| append_synthetic_tool_result (sequence : nat) (id name : string) (message : ToolResultMessage).

Record SessionRepairPlan : Type := {
  pl_repairId : string;
  pl_reason : SessionRepairReason;
  pl_status : SessionRepairPlanStatus;
  pl_source : SessionByteDigest;
  pl_completePrefix : SessionByteDigest;
  pl_lineCount : Z;
  pl_activeLeafId : option string;
  pl_actions : list SessionRepairAction;
  pl_blockers : list SessionRepairBlocker;
}.

Definition bare_blocker (reason : SessionRepairBlockerReason) : SessionRepairBlocker :=
  {| bk_reason := reason; bk_findingReason := None; bk_entryId := None; bk_toolCallId := None |}.

Definition REPAIRABLE_FINDINGS : list SessionIntegrityReasonCode := [fr_trailing_fragment; fr_transcript missing_result].

Definition repairText (reason : SessionRepairReason) : string :=
  match reason with
  | resume_recovery => "Tool result missing; synthesized during session resume recovery"
  | doctor_repair => "Tool result missing; synthesized by session doctor repair"
  end.

(** ** Checks *)

Definition reportIsConsistent (report : SessionIntegrityReport) : bool :=
  let findings := sr_findings report in
  let trailing := List.filter (fun f => bool_decide (fi_reason f = fr_trailing_fragment)) findings in
  let transcriptFindings := List.filter (fun f => is_transcript_reason (fi_reason f)) findings in
  Bool.eqb (sr_ok report) (length findings =? 0)%nat
  && (length trailing =? if is_some (sr_trailingFragment report) then 1 else 0)%nat && forallb only_reason trailing
  && match sr_transcript report with
     | None => (length transcriptFindings =? 0)%nat
     | Some transcript =>
         negb (existsb is_structural findings)
         && (let inspected := inspectTranscriptIntegrity (sr_activeMessages report) in
             Bool.eqb (ok transcript) (ok inspected) && Bool.eqb (ok transcript) (length (issues transcript) =? 0)%nat
             && sameMultiset (map issueIdentity (issues transcript)) (map issueIdentity (issues inspected))
             && sameMultiset (map findingIdentity transcriptFindings)
                  (map (fun issue => findingIdentity (transcript_finding issue)) (issues inspected)))
     end.

Definition validateOptions (options : CreateSessionRepairPlanOptions) : result string Z :=
  let id := op_repairId options in
  if is_empty id || (128 <? String.length id)%nat || sexists is_control id
  then Err "repairId must be non-empty bounded text without C0 or DEL control characters"
  else
    match jsnum_safe (op_timestamp options) with
    | Some z => if (z <? 0)%Z then Err "timestamp must be a non-negative epoch-millisecond safe integer" else Ok z
    | None => Err "timestamp must be a non-negative epoch-millisecond safe integer"
    end.

Definition blockerForFinding (finding : SessionIntegrityFinding) : SessionRepairBlocker :=
  {| bk_reason := integrity_finding; bk_findingReason := Some (fi_reason finding); bk_entryId := fi_entryId finding;
     bk_toolCallId := fi_toolCallId finding |}.

Definition missingTailCalls (report : SessionIntegrityReport) : option (list ToolCall) :=
  match sr_transcript report with
  | None => Some []
  | Some transcript =>
      if (length (issues transcript) =? 0)%nat then Some []
      else if existsb (fun issue => negb (is_missing issue)) (issues transcript) then None
      else
        match last_assistant (sr_activeMessages report) with
        | None => None
        | Some (content, rest) =>
            let tailCalls := message_calls content in
            let tailCallIds := map tc_id tailCalls in
            let missingIds := map issue_id (issues transcript) in
            if existsb (fun id => negb (one_of_strings tailCallIds id)) missingIds then None
            else if negb (forallb (result_for tailCallIds) rest) then None
            else Some (List.filter (fun call => one_of_strings missingIds (tc_id call)) tailCalls)
        end
  end.

Definition basePlan (report : SessionIntegrityReport) (options : CreateSessionRepairPlanOptions) (status : SessionRepairPlanStatus)
    (actions : list SessionRepairAction) (blockers : list SessionRepairBlocker) : SessionRepairPlan :=
  {| pl_repairId := op_repairId options; pl_reason := op_reason options; pl_status := status; pl_source := sr_source report;
     pl_completePrefix := sr_completePrefix report; pl_lineCount := sr_lineCount report;
     pl_activeLeafId := sr_activeLeafId report; pl_actions := actions; pl_blockers := blockers |}.

(** The actions on the calls, numbered. *)
Fixpoint append_actions (text : string) (timestamp : Z) (index : nat) (calls : list ToolCall)
    : result string (list SessionRepairAction) :=
  match calls with
  | [] => Ok []
  | call :: rest =>
      message <-? createSyntheticToolResult (tc_id call) (tc_name call) text (inject_Z timestamp) aborted ;;
      actions <-? append_actions text timestamp (S index) rest ;;
      Ok (append_synthetic_tool_result index (tc_id call) (tc_name call) message :: actions)
  end.

Definition createSessionRepairPlan (report : SessionIntegrityReport) (options : CreateSessionRepairPlanOptions)
    : result string SessionRepairPlan :=
  timestamp <-? validateOptions options ;;
  if negb (reportIsConsistent report) then Ok (basePlan report options blocked [] [bare_blocker inconsistent_report])
  else
    let blockers := map blockerForFinding
                      (List.filter (fun f => negb (bool_decide (fi_reason f ∈ REPAIRABLE_FINDINGS))) (sr_findings report)) in
    if (0 <? length blockers)%nat then Ok (basePlan report options blocked [] blockers)
    else
      match sr_transcript report with
      | None => Ok (basePlan report options blocked [] [bare_blocker inspection_incomplete])
      | Some transcript =>
          let missingFindings := List.filter (fun f => bool_decide (fi_reason f = fr_transcript missing_result)) (sr_findings report) in
          let missingIssues := List.filter is_missing (issues transcript) in
          if negb (length missingFindings =? length missingIssues)%nat
             || existsb (fun issue => negb (is_missing issue)) (issues transcript)
          then Ok (basePlan report options blocked [] [bare_blocker inconsistent_report])
          else
            match missingTailCalls report with
            | None => Ok (basePlan report options blocked [] [bare_blocker ambiguous_transcript])
            | Some missingCalls =>
                appended <-? append_actions (repairText (op_reason options)) timestamp 0 missingCalls ;;
                let actions := match sr_trailingFragment report with
                               | Some fragment =>
                                   [quarantine_trailing_fragment fragment (sr_completePrefix report) (sr_lineCount report)]
                               | None => []
                               end ++ appended in
                Ok (basePlan report options (if (length actions =? 0)%nat then not_needed else repairable) actions [])
            end
      end.

(** ** The results of a plan *)

Definition plan_results (plan : SessionRepairPlan) : list AgentMessage :=
  omap (fun action => match action with
                      | append_synthetic_tool_result _ _ _ message => Some (ToolResultMsg message)
                      | _ => None
                      end) (pl_actions plan).

Definition synthetic_result (text : string) (timestamp : Z) (call : ToolCall) : ToolResultMessage :=
  {| toolCallId := tc_id call; toolName := tc_name call;
     tr_content := JArray [JObject [("type", JString "text"); ("text", JString text)]];
     details := JObject [("omk", synthetic_envelope text)]; isError := true; timestamp := NumFin (inject_Z timestamp) |}.

Lemma append_actions_spec (text : string) (timestamp : Z) (index : nat) (calls : list ToolCall) :
  exists actions, append_actions text timestamp index calls = Ok actions /\ length actions = length calls /\
    omap (fun action => match action with
                        | append_synthetic_tool_result _ _ _ message => Some (ToolResultMsg message)
                        | _ => None
                        end) actions = map (fun call => ToolResultMsg (synthetic_result text timestamp call)) calls.
Proof.
  revert index. induction calls as [|call calls IH]; intros index; [by exists []|]. cbn [append_actions].
  rewrite createSyntheticToolResult_ok. destruct (IH (S index)) as (actions & -> & Hl & Ho). cbn [result_bind].
  eexists. split; [reflexivity|]. cbn [length omap list_omap map]. split; [by rewrite Hl|]. by f_equal.
Qed.

Lemma append_missing_results (text : string) (timestamp : Z) (missing : list string) (calls : list ToolCall) (k : nat) :
  append_missing (fun _ => inject_Z timestamp) text missing calls k
  = Ok (map (fun call => ToolResultMsg (synthetic_result text timestamp call))
          (List.filter (fun call => one_of_strings missing (tc_id call)) calls)).
Proof.
  revert k. induction calls as [|call calls IH]; intros k; [done|]. cbn [append_missing List.filter].
  change (existsb (String.eqb (tc_id call)) missing) with (one_of_strings missing (tc_id call)).
  destruct (one_of_strings missing (tc_id call)); [|apply IH]. by rewrite createSyntheticToolResult_ok, IH.
Qed.

(** ** Reasons behind identities *)

Lemma reason_str_inj (a b : SessionIntegrityReasonCode) : reason_str a = reason_str b -> a = b.
Proof.
  destruct a as [| | | | | | | | | | | | | | | | |a], b as [| | | | | | | | | | | | | | | | |b]; try done;
    try (destruct a; done); try (destruct b; done). by destruct a, b.
Qed.

Lemma finding_identity_reason (f g : SessionIntegrityFinding) : findingIdentity f = findingIdentity g -> fi_reason f = fi_reason g.
Proof.
  assert (Hok : forall h, json_ok (JsArr [JsStr (reason_str (fi_reason h));
      from_option (fun z => JsNum (int_text z)) JsNull (fi_line h); nullable (fi_entryId h);
      nullable (fi_parentId h); from_option texts JsNull (fi_cycleEntryIds h);
      nullable (fi_toolCallId h); nullable (fi_toolName h)]) = true).
  { intros h. cbn [json_ok forallb]. rewrite !nullable_ok. destruct (fi_line h), (fi_cycleEntryIds h);
      cbn [from_option json_ok]; by rewrite ?int_text_number, ?texts_ok. }
  unfold findingIdentity. intros H. apply (f_equal json_parse) in H. rewrite !json_parse_print in H by apply Hok.
  injection H as H _. by apply reason_str_inj.
Qed.

(** ** Plans and transcript repair *)

Lemma one_of_perm (l r : list string) (x : string) : (forall y, y ∈ l <-> y ∈ r) -> one_of_strings l x = one_of_strings r x.
Proof. intros H. apply eq_true_iff_eq. unfold one_of_strings. rewrite !existsb_eqb_elem. apply H. Qed.

(** A report with a transcript whose findings a repair may address. *)
Record addressable (report : SessionIntegrityReport) (t : TranscriptIntegrityReport) : Prop := {
  ad_transcript : sr_transcript report = Some t;
  ad_issues : issues t ≡ₚ issues (inspectTranscriptIntegrity (sr_activeMessages report));
  ad_missing : Forall (fun issue => is_missing issue = true) (issues t);
  ad_count : length (List.filter (fun f => bool_decide (fi_reason f = fr_transcript missing_result)) (sr_findings report))
    = length (issues t);
}.

Lemma repairable_reason (f : SessionIntegrityFinding) :
  fi_reason f ∈ REPAIRABLE_FINDINGS ->
  is_transcript_reason (fi_reason f) = bool_decide (fi_reason f = fr_transcript missing_result).
Proof. intros [->|[->|H]%elem_of_cons]%elem_of_cons; [done|done|by apply elem_of_nil in H]. Qed.

Lemma consistent_addressable (report : SessionIntegrityReport) (t : TranscriptIntegrityReport) :
  reportIsConsistent report = true -> sr_transcript report = Some t ->
  Forall (fun f => fi_reason f ∈ REPAIRABLE_FINDINGS) (sr_findings report) -> addressable report t.
Proof.
  unfold reportIsConsistent. cbv zeta. intros H Ht Hr. rewrite Ht in H. rewrite !andb_true_iff, !same_items in H.
  destruct H as [_ [_ [[_ Hi] Hf]]]. apply map_inj_perm in Hi; [|apply issueIdentity_inj].
  assert (Hfilter : List.filter (fun f => bool_decide (fi_reason f = fr_transcript missing_result)) (sr_findings report)
                    = List.filter (fun f => is_transcript_reason (fi_reason f)) (sr_findings report)).
  { apply filter_ext_in. intros f Hin%list_elem_of_In. rewrite Forall_forall in Hr. symmetry. by apply repairable_reason, Hr. }
  split; try done.
  - apply Forall_forall. intros i Hin. rewrite Hi in Hin. unfold is_missing. apply bool_decide_eq_true.
    assert (Hid : findingIdentity (transcript_finding i) ∈ map findingIdentity
      (List.filter (fun f => is_transcript_reason (fi_reason f)) (sr_findings report))).
    { rewrite Hf. apply list_elem_of_fmap. by exists i. }
    apply list_elem_of_fmap in Hid as (f & Hid & [Hin' _]%elem_of_filter_list). apply finding_identity_reason in Hid.
    rewrite Forall_forall in Hr. specialize (Hr f Hin'). rewrite <- Hid in Hr. cbn [fi_reason transcript_finding] in Hr.
    apply elem_of_cons in Hr as [Hr|Hr]; [done|]. apply list_elem_of_singleton in Hr. by injection Hr.
  - rewrite Hfilter, Hi. apply Permutation_length in Hf. by rewrite !length_map in Hf.
Qed.

(** The missing calls are found exactly when the transcript can be repaired. *)
Lemma tail_calls_repair (report : SessionIntegrityReport) (t : TranscriptIntegrityReport) (text : string) (timestamp : Z) :
  addressable report t ->
  match repairTranscriptIntegrity (fun _ => inject_Z timestamp) (sr_activeMessages report) (Some text) with
  | Ok ms => exists calls, missingTailCalls report = Some calls /\
      ms = sr_activeMessages report ++ map (fun call => ToolResultMsg (synthetic_result text timestamp call)) calls
  | Err _ => missingTailCalls report = None
  end.
Proof.
  intros [Ht Hp Hm _]. unfold missingTailCalls, repairTranscriptIntegrity. rewrite Ht.
  set (found := issues (inspectTranscriptIntegrity (sr_activeMessages report))) in *.
  assert (Hf : List.find not_missing found = None).
  { destruct (List.find not_missing found) as [i|] eqn:E; [|done]. apply List.find_some in E as [Hin Hn].
    apply list_elem_of_In in Hin. rewrite <- Hp in Hin. rewrite Forall_forall in Hm. specialize (Hm i Hin).
    unfold is_missing in Hm. apply bool_decide_eq_true in Hm. unfold not_missing in Hn. by rewrite Hm in Hn. }
  rewrite Hf.
  assert (Hids : forall id, id ∈ dedup (map issue_id found) <-> id ∈ map issue_id (issues t))
    by (intros id; by rewrite elem_of_dedup, Hp).
  assert (Hex : existsb (fun issue => negb (is_missing issue)) (issues t) = false).
  { apply existsb_false_Forall. eapply Forall_impl; [exact Hm|]. by intros i ->. }
  rewrite Hex. destruct (dedup (map issue_id found)) as [|id0 ids] eqn:Ed.
  - destruct (issues t) as [|i l]; [|exfalso; apply (elem_of_nil (issue_id i)), Hids; left]. exists []. split; [done|]. cbn.
    by rewrite app_nil_r.
  - destruct (length (issues t) =? 0)%nat eqn:El.
    { apply Nat.eqb_eq, length_zero_iff_nil in El. pose proof (proj1 (Hids id0) ltac:(left)) as H. rewrite El in H. by apply elem_of_nil in H. }
    destruct (last_assistant (sr_activeMessages report)) as [[content rest]|]; [|done]. cbv zeta.
    set (tail := map tc_id (message_calls content)).
    assert (Habs : existsb (fun id => negb (one_of_strings tail id)) (map issue_id (issues t))
                   = match List.find (fun id => negb (existsb (String.eqb id) tail)) (id0 :: ids) with Some _ => true | None => false end).
    { apply eq_true_iff_eq. rewrite existsb_exists. destruct (List.find _ (id0 :: ids)) as [x|] eqn:E.
      - split; [done|]. intros _. apply List.find_some in E as [Hin Hx]. exists x. split; [|done].
        apply list_elem_of_In, Hids. by apply list_elem_of_In.
      - split; [|done]. intros (x & Hin & Hx). apply list_elem_of_In, Hids, list_elem_of_In in Hin.
        pose proof (List.find_none _ _ E x Hin) as Hn. cbn beta in Hn. unfold one_of_strings in Hx. congruence. }
    rewrite Habs. destruct (List.find _ (id0 :: ids)); [done|]. destruct (negb (forallb (result_for tail) rest)); [done|].
    rewrite append_missing_results. cbn [result_bind default from_option]. eexists. split; [reflexivity|]. f_equal. f_equal.
    apply filter_ext. intros call. by apply one_of_perm.
Qed.

Lemma no_missing_calls (report : SessionIntegrityReport) (t : TranscriptIntegrityReport) (calls : list ToolCall) :
  sr_transcript report = Some t -> missingTailCalls report = Some calls -> calls = [] <-> issues t = [].
Proof.
  intros Ht. unfold missingTailCalls. rewrite Ht. destruct (issues t) as [|i l]; cbn [length Nat.eqb]; [by intros [= <-]|].
  destruct (existsb _ (i :: l)); [done|]. destruct (last_assistant _) as [[content rest]|]; [|done]. cbv zeta.
  set (tail := message_calls content). set (ids := map issue_id (i :: l)).
  destruct (existsb (fun id => negb (one_of_strings (map tc_id tail) id)) ids) eqn:E; [done|].
  destruct (negb _); [done|]. intros [= <-]. split; [|done]. intros Hnil. exfalso.
  apply existsb_false_Forall in E. rewrite Forall_forall in E. specialize (E (issue_id i) ltac:(left)).
  apply negb_false_iff in E. unfold one_of_strings in E. apply existsb_eqb_elem, list_elem_of_fmap in E as (call & Hc & Hin).
  assert (H : call ∈ ([] : list ToolCall)); [|by apply elem_of_nil in H]. rewrite <- Hnil. apply elem_of_filter_list.
  split; [done|]. by rewrite <- Hc, String.eqb_refl.
Qed.

(** A report a repair may address found nothing when there is no fragment and no
    missing call. *)
Lemma consistent_empty (report : SessionIntegrityReport) (t : TranscriptIntegrityReport) (calls : list ToolCall) :
  reportIsConsistent report = true -> addressable report t ->
  Forall (fun f => fi_reason f ∈ REPAIRABLE_FINDINGS) (sr_findings report) -> missingTailCalls report = Some calls ->
  sr_ok report = true <-> sr_trailingFragment report = None /\ calls = [].
Proof.
  intros Hc Had Hr Hcalls. rewrite (no_missing_calls report t calls (ad_transcript _ _ Had) Hcalls).
  unfold reportIsConsistent in Hc. cbv zeta in Hc. rewrite !andb_true_iff, Bool.eqb_true_iff, Nat.eqb_eq in Hc.
  destruct Hc as [[[Hok Htr] _] _]. rewrite Hok, Nat.eqb_eq, length_zero_iff_nil. pose proof (ad_count _ _ Had) as Hcount. split.
  - intros Hn. rewrite Hn in Htr, Hcount. cbn in Htr, Hcount. split; [by destruct (sr_trailingFragment report)|].
    by apply length_zero_iff_nil.
  - intros [Hf Hi]. rewrite Hf in Htr. rewrite Hi in Hcount. cbn in Htr, Hcount.
    apply length_zero_iff_nil in Htr, Hcount. destruct Hr as [|f l Hfr _]; [done|]. exfalso.
    apply elem_of_cons in Hfr as [Hfr|Hfr%list_elem_of_singleton]; cbn [List.filter] in Htr, Hcount; rewrite Hfr in Htr, Hcount; done.
Qed.

(** What a plan on valid options is. *)
Lemma plan_cases (report : SessionIntegrityReport) (options : CreateSessionRepairPlanOptions) (z : Z) :
  validateOptions options = Ok z ->
  exists plan, createSessionRepairPlan report options = Ok plan /\
  ((pl_status plan = blocked /\ pl_actions plan = [] /\ pl_blockers plan <> [] /\
    (reportIsConsistent report = false \/ ~ Forall (fun f => fi_reason f ∈ REPAIRABLE_FINDINGS) (sr_findings report)
     \/ sr_transcript report = None
     \/ is_ok (repairTranscriptIntegrity (fun _ => inject_Z z) (sr_activeMessages report) (Some (repairText (op_reason options)))) = false))
   \/ (pl_status plan <> blocked /\ pl_blockers plan = [] /\ reportIsConsistent report = true /\
       Forall (fun f => fi_reason f ∈ REPAIRABLE_FINDINGS) (sr_findings report) /\
       (pl_status plan = not_needed <-> sr_ok report = true) /\
       repairTranscriptIntegrity (fun _ => inject_Z z) (sr_activeMessages report) (Some (repairText (op_reason options)))
       = Ok (sr_activeMessages report ++ plan_results plan))).
Proof.
  intros Ho. unfold createSessionRepairPlan. rewrite Ho. cbn [result_bind].
  destruct (reportIsConsistent report) eqn:Ec; cbn [negb].
  2: { eexists. split; [reflexivity|]. left. split_and!; [done|done|done|by left]. }
  set (bad := List.filter _ (sr_findings report)).
  assert (Hbad : bad = [] <-> Forall (fun f => fi_reason f ∈ REPAIRABLE_FINDINGS) (sr_findings report)).
  { unfold bad. clear. induction (sr_findings report) as [|f l IH]; cbn [List.filter]; [split; [constructor|done]|].
    rewrite Forall_cons, <- IH. case_bool_decide; cbn [negb]; [tauto|]. split; [done|]. by intros [? _]. }
  destruct bad as [|f bad]; cbn [map length Nat.ltb Nat.leb].
  2: { eexists. split; [reflexivity|]. left. split_and!; [done|done|done|]. right. left. intros H. by apply Hbad in H. }
  pose proof (proj1 Hbad eq_refl) as Hr. destruct (sr_transcript report) as [t|] eqn:Et.
  2: { eexists. split; [reflexivity|]. left. split_and!; [done|done|done|]. right. right. by left. }
  pose proof (consistent_addressable _ _ Ec Et Hr) as Had. pose proof Had as [_ Hp Hm Hcount].
  assert (Hall : List.filter is_missing (issues t) = issues t /\ existsb (fun issue => negb (is_missing issue)) (issues t) = false).
  { assert (E : existsb (fun issue => negb (is_missing issue)) (issues t) = false)
      by (apply existsb_false_Forall; eapply Forall_impl; [exact Hm|by intros i ->]). split; [by apply all_missing_filter|done]. }
  destruct Hall as [-> ->]. rewrite Hcount, Nat.eqb_refl. cbn [negb orb].
  pose proof (tail_calls_repair report t (repairText (op_reason options)) z Had) as Hrep.
  destruct (repairTranscriptIntegrity _ _ _) as [ms|e] eqn:Erep.
  2: { rewrite Hrep. eexists. split; [reflexivity|]. left. split_and!; [done|done|done|]. right. right. by right. }
  destruct Hrep as (calls & Ecalls & ->). rewrite Ecalls.
  destruct (append_actions_spec (repairText (op_reason options)) z 0 calls) as (actions & -> & Hl & Ho').
  cbn [result_bind]. eexists. split; [reflexivity|]. right.
  unfold plan_results. cbn [basePlan pl_status pl_blockers pl_actions].
  assert (Hstatus : length ((match sr_trailingFragment report with
      | Some fragment => [quarantine_trailing_fragment fragment (sr_completePrefix report) (sr_lineCount report)]
      | None => [] end) ++ actions) = 0 <-> sr_ok report = true).
  { rewrite (consistent_empty report t calls Ec Had Hr Ecalls), length_app, Hl. destruct (sr_trailingFragment report); cbn; [|].
    - split; [lia|]. by intros [? _].
    - split; [intros H; split; [done|]; apply length_zero_iff_nil; lia|by intros [_ ->]]. }
  revert Hstatus. set (all := _ ++ actions). intros Hstatus. split_and!; try done.
  - by destruct (length all =? 0)%nat.
  - rewrite <- Hstatus. destruct (Nat.eqb_spec (length all) 0); split; try done.
  - f_equal. f_equal. rewrite <- Ho'. unfold all. by destruct (sr_trailingFragment report).
Qed.

(** A report the barrier finds consistent is consistent for a repair. *)
Lemma barrier_consistent (report : SessionIntegrityReport) :
  findings_consistent report = true -> transcript_consistent report = true -> reportIsConsistent report = true.
Proof.
  unfold findings_consistent, transcript_consistent, reportIsConsistent. cbv zeta.
  rewrite !andb_true_iff. intros [[[[_ Hok] Htr] Hor] _] Ht. split_and!; try done.
  destruct (sr_transcript report) as [t|].
  - rewrite !andb_true_iff, !same_items, !Bool.eqb_true_iff in *. destruct Ht as [[[_ Hl] Hs] [[Ho Hi] Hf]]. split_and!; try done.
  - rewrite !andb_true_iff in Ht. apply Ht.
Qed.

(** ** Properties *)

(** C28: A repair that is planned closes the transcript. Unless the plan is blocked,
    appending the results of its actions to the active messages makes every
    tool call have its result right after it, and each result appended says
    that the call never ran; nothing is to do exactly when the report found
    nothing. *)
Theorem plan_closes_transcript (report : SessionIntegrityReport) (options : CreateSessionRepairPlanOptions) (plan : SessionRepairPlan)
    (Hp : createSessionRepairPlan report options = Ok plan) (Hs : pl_status plan <> blocked) :
  balanced (sr_activeMessages report ++ plan_results plan) /\
  Forall (is_synthetic (repairText (op_reason options))) (plan_results plan) /\
  (pl_status plan = not_needed <-> sr_ok report = true).
Proof.
  destruct (validateOptions options) as [z|e] eqn:Ho.
  2: { unfold createSessionRepairPlan in Hp. by rewrite Ho in Hp. }
  destruct (plan_cases report options z Ho) as (plan' & Hp' & Hcases). rewrite Hp in Hp'. injection Hp' as <-.
  destruct Hcases as [(Hb & _)|(_ & _ & _ & _ & Hn & Hr)]; [done|].
  pose proof (repair_outcome (fun _ => inject_Z z) (sr_activeMessages report) (Some (repairText (op_reason options)))) as H.
  rewrite Hr in H. destruct H as (added & Ha & _ & Hsyn & Hok). apply app_inv_head in Ha. subst added.
  split_and!; [|done|done]. by apply inspect_balanced in Hok as [_ Hok].
Qed.

(** Repair is refused only where it must be. The plan for a session file is not
    blocked exactly when its inspection found nothing but a trailing fragment
    and missing results, and some tool results appended to the active messages
    would make the transcript whole. *)
Theorem plan_blocks_exactly (dateMs : string -> jsnum) (sha256 : string -> string) (bytes : string)
    (activeLeafId : option (option string)) (report : SessionIntegrityReport) (options : CreateSessionRepairPlanOptions)
    (plan : SessionRepairPlan)
    (Hsize : (Z.of_nat (String.length bytes) <= MAX_SAFE_INTEGER)%Z)
    (Hi : inspectSessionIntegrity dateMs sha256 bytes activeLeafId = Some report)
    (Hp : createSessionRepairPlan report options = Ok plan) :
  pl_status plan <> blocked <->
  Forall (fun f => fi_reason f ∈ REPAIRABLE_FINDINGS) (sr_findings report) /\
  exists extra, forallb is_result extra = true /\ ok (inspectTranscriptIntegrity (sr_activeMessages report ++ extra)) = true.
Proof.
  destruct (validateOptions options) as [z|e] eqn:Ho.
  2: { unfold createSessionRepairPlan in Hp. by rewrite Ho in Hp. }
  destruct (plan_cases report options z Ho) as (plan' & Hp' & Hcases). rewrite Hp in Hp'. injection Hp' as <-.
  pose proof (repair_outcome (fun _ => inject_Z z) (sr_activeMessages report) (Some (repairText (op_reason options)))) as Hout.
  destruct (report_assembled _ _ _ _ _ Hsize Hi) as (parsed & active & H).
  assert (Hc : reportIsConsistent report = true)
    by (apply barrier_consistent; [apply (report_findings dateMs sha256 _ _ _ _ _ H)|apply (report_transcript dateMs sha256 _ _ _ _ _ H)]).
  destruct Hcases as [(Hb & _ & _ & Hwhy)|(Hb & _ & _ & Hr & _ & Hrep)].
  - rewrite Hb. split; [done|]. intros [Hr (extra & Hx & Hok)]. exfalso. destruct Hwhy as [E|[E|[E|E]]]; [congruence|done| |].
    + destruct (findings_shape dateMs sha256 _ _ _ _ _ H) as (blocking & found & Hbl & Hf & Ht). rewrite E in Ht.
      destruct Ht as (Hne & _). destruct Hbl as [|f blocking [Hst _] _]; [done|]. rewrite Hf, Forall_app in Hr.
      destruct Hr as [_ [Hfr _]%Forall_cons]. unfold is_structural in Hst.
      apply elem_of_cons in Hfr as [Hfr|Hfr%list_elem_of_singleton]; rewrite Hfr in Hst; done.
    + destruct (repairTranscriptIntegrity _ _ _) as [ms|e]; [done|]. by apply (Hout extra).
  - split; [intros _|done]. split; [done|]. rewrite Hrep in Hout. destruct Hout as (added & Ha & Hx & _ & Hok).
    exists added. split; [done|]. by rewrite <- Ha.
Qed.

(** ** On the concrete session *)

(** The session without its last line, the file torn after it. *)
Definition torn_session : string := (lines_text (map json_print (take 3 (sample_values None))) ++ "{")%string.

Definition sample_options : CreateSessionRepairPlanOptions :=
  {| op_repairId := "repair-1"; op_reason := resume_recovery; op_timestamp := NumFin 1700000000000 |}.

Definition torn_plan : option SessionRepairPlan :=
  report ← sample_inspect torn_session;
  match createSessionRepairPlan report sample_options with
  | Ok plan => Some plan
  | Err _ => None
  end.

Lemma torn_planned :
  match torn_plan with
  | Some plan => bool_decide (pl_status plan = repairable) && (length (pl_actions plan) =? 2)%nat
                 && bool_decide (result_ids (plan_results plan) = ["a"])
  | None => false
  end = true.
Proof. vm_compute. reflexivity. Qed.

Lemma plan_closes_transcript_witness :
  match sample_inspect torn_session, torn_plan with
  | Some report, Some plan => balanced (sr_activeMessages report ++ plan_results plan)
  | _, _ => False
  end.
Proof.
  pose proof torn_planned as H. unfold torn_plan in *. destruct (sample_inspect torn_session) as [report|] eqn:E; [|discriminate H].
  cbn [mbind option_bind] in *. destruct (createSessionRepairPlan report sample_options) as [plan|e] eqn:Ep; [|discriminate H].
  apply (plan_closes_transcript report sample_options plan Ep). rewrite !andb_true_iff, bool_decide_eq_true in H.
  destruct H as [[Hs _] _]. rewrite Hs. discriminate.
Defined.

Lemma torn_size : (Z.of_nat (String.length torn_session) <= MAX_SAFE_INTEGER)%Z.
Proof. vm_compute. discriminate. Qed.

Lemma plan_blocks_exactly_witness :
  match sample_inspect torn_session with
  | Some report => exists extra, forallb is_result extra = true /\
      ok (inspectTranscriptIntegrity (sr_activeMessages report ++ extra)) = true
  | None => False
  end.
Proof.
  pose proof torn_planned as H. unfold torn_plan in H. destruct (sample_inspect torn_session) as [report|] eqn:E; [|discriminate H].
  cbn [mbind option_bind] in H. destruct (createSessionRepairPlan report sample_options) as [plan|e] eqn:Ep; [|discriminate H].
  apply (plan_blocks_exactly sample_date sample_sha torn_session None report sample_options plan torn_size E Ep).
  rewrite !andb_true_iff, bool_decide_eq_true in H. destruct H as [[Hs _] _]. rewrite Hs. discriminate.
Defined.
End Repair.
