(* ===== verification/SessionPath.v ===== *)
(** * Access to session files
    (packages/coding-agent/src/core/session-path-policy.ts)

    Whether a session file may be read or repaired, decided from evidence the
    caller attests: the path is canonical and strictly inside of the trusted
    root, no link was followed on the way, the file did not change between the
    checks, and no other process holds its lock. Untyped inputs are plain data
    ([jsval] holds no accessors, prototypes or symbols); an error is the message
    thrown. *)

From Stdlib Require Import Ascii String ZArith QArith Lia.
From stdpp Require Import base list option strings.
From S2P Require Import Prelude JsString JsValue PathSegments Json SessionTermination TranscriptIntegrity.

Open Scope nat_scope.
Open Scope string_scope.
Open Scope list_scope.

Module PathPolicy.

Definition SESSION_PATH_MAX_LENGTH : nat := 4096.
Definition MAX_SESSION_PATH_CHAIN_ENTRIES : nat := 256.

(** ** Data *)

Inductive SessionPathPlatform : Type := posix | win32.
Inductive SessionPathIntent : Type := inspect_metadata | inspect_content | repair | repair_dry_run.
Inductive SessionPathLinkKind : Type := link_none | symlink | reparse.
Inductive SessionPathLockState : Type := lock_absent | lock_is_live | lock_is_stale | lock_is_foreign | lock_is_unknown.

Inductive SessionPathReason : Type :=
| reason_authorized | reason_metadata_only | lexical_invalid | evidence_mismatch | target_external | target_is_root
| identity_required | lock_required | symlink_in_chain | outside_realpath | nonregular | nlink_not_one | owner_mismatch
| stat_race | stat_after_mismatch | lock_live | lock_foreign | lock_unknown | lock_stale_ineligible.

Inductive SessionPathStatus : Type := authorized | metadata_only | rejected | blocked.
Inductive SessionPathClassification : Type := class_root | class_inside | class_external.

#[global] Instance platform_eq_dec : EqDecision SessionPathPlatform.
Proof. solve_decision. Defined.
#[global] Instance intent_eq_dec : EqDecision SessionPathIntent.
Proof. solve_decision. Defined.
#[global] Instance path_status_eq_dec : EqDecision SessionPathStatus.
Proof. solve_decision. Defined.

Record SessionPathStat : Type := {
  st_dev : string;
  st_ino : string;
  st_nlink : Z;
  st_size : Z;
  st_mtime : Z;
  st_regular : bool;
  st_owner : string;
}.

Record SessionPathChainEntry : Type := { ch_lexical : string; ch_realpath : string; ch_linkKind : SessionPathLinkKind }.

Record SessionPathEvidence : Type := {
  ev_platform : SessionPathPlatform;
  ev_trustedRootLexical : string;
  ev_trustedRootRealpath : string;
  ev_targetLexical : string;
  ev_targetRealpath : string;
  ev_chain : list SessionPathChainEntry;
  ev_statBefore : SessionPathStat;
  ev_statAfter : option SessionPathStat;
  ev_openedDev : string;
  ev_openedIno : string;
}.

Record SessionPathLockEvidence : Type := {
  lk_state : SessionPathLockState;
  lk_sameHost : bool;
  lk_pidDefinitelyAbsent : bool;
  lk_holderPid : option string;
}.

Record SessionPathDecision : Type := {
  pd_platform : SessionPathPlatform;
  pd_intent : SessionPathIntent;
  pd_status : SessionPathStatus;
  pd_reason : SessionPathReason;
  pd_dryRun : bool;
  pd_classification : SessionPathClassification;
  pd_targetLexical : string;
  pd_targetRealpath : string;
  pd_trustedRootLexical : string;
  pd_trustedRootRealpath : string;
  pd_canInspectMetadata : bool;
  pd_canReadContents : bool;
  pd_canRepair : bool;
  (** The holders of the stale locks to remove. *)
  pd_plannedActions : list (option string);
  pd_scheduledWrites : nat;
}.

(** The owner of the identity stands for it. *)
Record SessionPathAccessInput : Type := {
  in_platform : SessionPathPlatform;
  in_root : string;
  in_target : string;
  in_intent : SessionPathIntent;
  in_identity : option string;
  in_evidence : SessionPathEvidence;
  in_lock : option SessionPathLockEvidence;
}.

(** ** Guards *)

Definition own_keys (value : jsval) : list string :=
  match value with
  | JObject fields => map fst fields
  | _ => []
  end.

Definition hasOwn (key : string) (value : jsval) : bool := existsb (String.eqb key) (own_keys value).

Definition hasExactKeys (value : jsval) (keys : list string) : bool :=
  (length (own_keys value) =? length keys)%nat && forallb (fun key => hasOwn key value) keys.

(** [/^(0|[1-9]\d{0,19})$/] *)
Definition canonical_decimal (s : string) : bool :=
  match s with
  | EmptyString => false
  | String a rest =>
      if Ascii.eqb a "0" then is_empty rest
      else is_digit a && sforall is_digit rest && (String.length rest <=? 19)%nat
  end.

Definition assertPlainObject (value : jsval) (label : string) : result string unit :=
  check (is_record value) (label ++ " must be a plain data object without accessors or a foreign prototype").

Definition assertExactKeys (value : jsval) (keys : list string) (label : string) : result string unit :=
  check (hasExactKeys value keys) (label ++ " must have exactly the keys: " ++ join ", " keys).

Definition assertString (value : jsval) (label : string) : result string string :=
  match value with
  | JString s => Ok s
  | _ => Err (label ++ " must be a string")%string
  end.

Definition assertBoolean (value : jsval) (label : string) : result string bool :=
  match value with
  | JBool b => Ok b
  | _ => Err (label ++ " must be a boolean")%string
  end.

Definition decimal_message : string :=
  (" must be a canonical decimal string (" ++ String quote_char ("0" ++ String quote_char " or a nonzero decimal without leading zeros, up to 20 digits)"))%string.

Definition assertCanonicalDecimal (value : jsval) (label : string) : result string string :=
  match value with
  | JString s => if canonical_decimal s then Ok s else Err (label ++ decimal_message)%string
  | _ => Err (label ++ decimal_message)%string
  end.

Definition assertSafeNonNegInt (value : jsval) (label : string) : result string Z :=
  match value with
  | JNumber n =>
      match jsnum_safe n with
      | Some z => if (z <? 0)%Z then Err (label ++ " must be a finite safe non-negative integer")%string else Ok z
      | None => Err (label ++ " must be a finite safe non-negative integer")%string
      end
  | _ => Err (label ++ " must be a finite safe non-negative integer")%string
  end.

Definition assertPathString (value : jsval) (label : string) : result string string :=
  s <-? assertString value label ;;
  if (SESSION_PATH_MAX_LENGTH <? String.length s)%nat
  then Err (label ++ " exceeds the " ++ nat_str SESSION_PATH_MAX_LENGTH ++ " character cap")%string
  else if sexists is_control s then Err (label ++ " must not contain C0/DEL control characters")%string
  else Ok s.

(** ** Canonical paths *)

Definition canonicalizePosix (raw : string) : option string :=
  if startsWith "/" raw then
    collapsed ← collapsePathSegments (pathSegments raw);
    Some ("/" ++ join "/" collapsed)%string
  else None.

Definition numbered (name : string) : list string := map (fun n => (name ++ n)%string) ["1"; "2"; "3"; "4"; "5"; "6"; "7"; "8"; "9"].

Definition WIN_RESERVED_NAMES : list string := ["con"; "prn"; "aux"; "nul"] ++ numbered "com" ++ numbered "lpt".

Definition has_colon (s : string) : bool := sexists (fun a => Ascii.eqb a ":") s.

(** [segment.split(".", 1)[0].toLowerCase()] *)
Definition segment_stem (segment : string) : string := toLowerCase (default EmptyString (head (split "." segment))).

Definition win_hazard (segment : string) : bool :=
  has_colon segment || endsWith "." segment || endsWith " " segment
  || existsb (String.eqb (segment_stem segment)) WIN_RESERVED_NAMES.

Fixpoint collapse_win32 (segments collapsed : list string) : option (list string) :=
  match segments with
  | [] => Some collapsed
  | segment :: rest =>
      if String.eqb segment "." then collapse_win32 rest collapsed
      else if String.eqb segment ".." then
        match collapsed with
        | [] => None
        | _ => collapse_win32 rest (removelast collapsed)
        end
      else if win_hazard segment then None
      else collapse_win32 rest (collapsed ++ [segment])
  end.

Definition canonicalizeWin32 (raw : string) : option string :=
  let normalized := normalizePathSlashes raw in
  if startsWith "//" normalized then None
  else
    '(drive, rest) ← drive_absolute normalized;
    collapsed ← collapse_win32 (pathSegments rest) [];
    Some (toLowerCase drive ++ "/" ++ join "/" collapsed)%string.

Definition canonicalizeSessionPath (raw : string) (platform : SessionPathPlatform) : option string :=
  if is_empty raw || (SESSION_PATH_MAX_LENGTH <? String.length raw)%nat || sexists is_control raw then None
  else
    match platform with
    | posix => canonicalizePosix raw
    | win32 => canonicalizeWin32 raw
    end.

Record CanonicalParts : Type := { cp_drive : option string; cp_segments : list string }.

Definition is_lower (a : ascii) : bool := in_range 97 122 a.

(** The two groups of a canonical path of drive form: the drive letter without its colon and the
    text after the slash. *)
Definition win_canonical (canonical : string) : option (string * string) :=
  match canonical with
  | String d _ =>
      if is_lower d
      then '(_, rest) ← drive_slash canonical; Some (String d EmptyString, rest)
      else None
  | EmptyString => None
  end.

Definition parseCanonical (canonical : string) (platform : SessionPathPlatform) : option CanonicalParts :=
  match platform with
  | posix => if startsWith "/" canonical then Some {| cp_drive := None; cp_segments := pathSegments canonical |} else None
  | win32 =>
      '(drive, rest) ← win_canonical canonical;
      Some {| cp_drive := Some drive; cp_segments := pathSegments rest |}
  end.

Definition segmentEqual (left right : string) (platform : SessionPathPlatform) : bool :=
  match platform with
  | win32 => String.eqb (toLowerCase left) (toLowerCase right)
  | posix => String.eqb left right
  end.

(** Is the first list of segments a prefix of the second? *)
Fixpoint segments_prefix (left right : list string) (platform : SessionPathPlatform) : bool :=
  match left, right with
  | [], _ => true
  | _ :: _, [] => false
  | a :: left', b :: right' => segmentEqual a b platform && segments_prefix left' right' platform
  end.

Definition same_drive (a b : CanonicalParts) : bool := bool_decide (cp_drive a = cp_drive b).

Definition partsContain (root candidate : CanonicalParts) (platform : SessionPathPlatform) : bool :=
  same_drive root candidate && segments_prefix (cp_segments root) (cp_segments candidate) platform.

Definition canonicalPathEqual (a b : option string) (platform : SessionPathPlatform) : bool :=
  match (a ← a; parseCanonical a platform), (b ← b; parseCanonical b platform) with
  | Some aParts, Some bParts =>
      same_drive aParts bParts && (length (cp_segments aParts) =? length (cp_segments bParts))%nat
      && segments_prefix (cp_segments aParts) (cp_segments bParts) platform
  | _, _ => false
  end.

Definition sessionPathContains (root candidate : string) (platform : SessionPathPlatform) : bool :=
  match (r ← canonicalizeSessionPath root platform; parseCanonical r platform),
        (c ← canonicalizeSessionPath candidate platform; parseCanonical c platform) with
  | Some rootParts, Some candidateParts => partsContain rootParts candidateParts platform
  | _, _ => false
  end.

Definition classifyTarget (rootCanonical targetCanonical : string) (platform : SessionPathPlatform) : SessionPathClassification :=
  match parseCanonical rootCanonical platform, parseCanonical targetCanonical platform with
  | Some rootParts, Some targetParts =>
      if negb (partsContain rootParts targetParts platform) then class_external
      else if same_drive rootParts targetParts && (length (cp_segments rootParts) =? length (cp_segments targetParts))%nat
      then class_root
      else class_inside
  | _, _ => class_external
  end.

(** ** Validation *)

Definition STAT_KEYS : list string := ["dev"; "ino"; "nlink"; "size"; "mtime"; "regular"; "owner"].
Definition CHAIN_ENTRY_KEYS : list string := ["lexical"; "realpath"; "linkKind"].
Definition LOCK_KEYS : list string := ["state"; "sameHost"; "pidDefinitelyAbsent"; "holderPid"].
Definition EVIDENCE_KEYS : list string :=
  ["schemaVersion"; "platform"; "trustedRootLexical"; "trustedRootRealpath"; "target"; "chain"; "statBefore"; "statAfter";
   "opened"].
Definition INPUT_ALLOWED_KEYS : list string := ["platform"; "root"; "target"; "intent"; "identity"; "evidence"; "lock"].

Definition platform_of (value : jsval) : option SessionPathPlatform :=
  if is_str value "posix" then Some posix else if is_str value "win32" then Some win32 else None.

Definition intent_of (value : jsval) : option SessionPathIntent :=
  if is_str value "inspect_metadata" then Some inspect_metadata
  else if is_str value "inspect_content" then Some inspect_content
  else if is_str value "repair" then Some repair
  else if is_str value "repair_dry_run" then Some repair_dry_run
  else None.

Definition link_kind_of (value : jsval) : option SessionPathLinkKind :=
  if is_str value "none" then Some link_none
  else if is_str value "symlink" then Some symlink
  else if is_str value "reparse" then Some reparse
  else None.

Definition lock_state_of (value : jsval) : option SessionPathLockState :=
  if is_str value "absent" then Some lock_absent
  else if is_str value "live" then Some lock_is_live
  else if is_str value "stale" then Some lock_is_stale
  else if is_str value "foreign" then Some lock_is_foreign
  else if is_str value "unknown" then Some lock_is_unknown
  else None.

Definition required {A} (o : option A) (message : string) : result string A :=
  match o with
  | Some x => Ok x
  | None => Err message
  end.

Definition validateStat (value : jsval) (label : string) : result string SessionPathStat :=
  _ <-? assertPlainObject value label ;;
  _ <-? assertExactKeys value STAT_KEYS label ;;
  dev <-? assertCanonicalDecimal (get_prop "dev" value) (label ++ ".dev") ;;
  ino <-? assertCanonicalDecimal (get_prop "ino" value) (label ++ ".ino") ;;
  nlink <-? assertSafeNonNegInt (get_prop "nlink" value) (label ++ ".nlink") ;;
  size <-? assertSafeNonNegInt (get_prop "size" value) (label ++ ".size") ;;
  mtime <-? assertSafeNonNegInt (get_prop "mtime" value) (label ++ ".mtime") ;;
  regular <-? assertBoolean (get_prop "regular" value) (label ++ ".regular") ;;
  owner <-? assertCanonicalDecimal (get_prop "owner" value) (label ++ ".owner") ;;
  Ok {| st_dev := dev; st_ino := ino; st_nlink := nlink; st_size := size; st_mtime := mtime; st_regular := regular;
        st_owner := owner |}.

Definition validateChainEntry (value : jsval) (label : string) : result string SessionPathChainEntry :=
  _ <-? assertPlainObject value label ;;
  _ <-? assertExactKeys value CHAIN_ENTRY_KEYS label ;;
  lexical <-? assertPathString (get_prop "lexical" value) (label ++ ".lexical") ;;
  realpath <-? assertPathString (get_prop "realpath" value) (label ++ ".realpath") ;;
  kind <-? required (link_kind_of (get_prop "linkKind" value)) (label ++ ".linkKind must be none|symlink|reparse") ;;
  Ok {| ch_lexical := lexical; ch_realpath := realpath; ch_linkKind := kind |}.

Fixpoint validateChain (index : nat) (items : list jsval) : result string (list SessionPathChainEntry) :=
  match items with
  | [] => Ok []
  | item :: rest =>
      entry <-? validateChainEntry item ("evidence.chain[" ++ nat_str index ++ "]") ;;
      entries <-? validateChain (S index) rest ;;
      Ok (entry :: entries)
  end.

Definition validateEvidence (evidence : jsval) : result string SessionPathEvidence :=
  _ <-? assertPlainObject evidence "evidence" ;;
  _ <-? assertExactKeys evidence EVIDENCE_KEYS "evidence" ;;
  _ <-? check (match get_prop "schemaVersion" evidence with JNumber (NumFin q) => Qeq_bool q 1 | _ => false end)
          "evidence.schemaVersion must be 1" ;;
  platform <-? required (platform_of (get_prop "platform" evidence)) "evidence.platform must be posix|win32" ;;
  rootLexical <-? assertPathString (get_prop "trustedRootLexical" evidence) "evidence.trustedRootLexical" ;;
  rootRealpath <-? assertPathString (get_prop "trustedRootRealpath" evidence) "evidence.trustedRootRealpath" ;;
  let target := get_prop "target" evidence in
  _ <-? assertPlainObject target "evidence.target" ;;
  _ <-? assertExactKeys target ["lexical"; "realpath"] "evidence.target" ;;
  targetLexical <-? assertPathString (get_prop "lexical" target) "evidence.target.lexical" ;;
  targetRealpath <-? assertPathString (get_prop "realpath" target) "evidence.target.realpath" ;;
  items <-? required (as_array (get_prop "chain" evidence)) "evidence.chain must be an array" ;;
  _ <-? check (negb (length items =? 0)%nat) "evidence.chain must be non-empty" ;;
  _ <-? check (length items <=? MAX_SESSION_PATH_CHAIN_ENTRIES)%nat
          ("evidence.chain exceeds MAX_SESSION_PATH_CHAIN_ENTRIES (" ++ nat_str MAX_SESSION_PATH_CHAIN_ENTRIES ++ ")") ;;
  chain <-? validateChain 0 items ;;
  statBefore <-? validateStat (get_prop "statBefore" evidence) "evidence.statBefore" ;;
  statAfter <-? match get_prop "statAfter" evidence with
                | JNull => Ok None
                | value => stat <-? validateStat value "evidence.statAfter" ;; Ok (Some stat)
                end ;;
  let opened := get_prop "opened" evidence in
  _ <-? assertPlainObject opened "evidence.opened" ;;
  _ <-? assertExactKeys opened ["dev"; "ino"] "evidence.opened" ;;
  openedDev <-? assertCanonicalDecimal (get_prop "dev" opened) "evidence.opened.dev" ;;
  openedIno <-? assertCanonicalDecimal (get_prop "ino" opened) "evidence.opened.ino" ;;
  Ok {| ev_platform := platform; ev_trustedRootLexical := rootLexical; ev_trustedRootRealpath := rootRealpath;
        ev_targetLexical := targetLexical; ev_targetRealpath := targetRealpath; ev_chain := chain; ev_statBefore := statBefore;
        ev_statAfter := statAfter; ev_openedDev := openedDev; ev_openedIno := openedIno |}.

Definition validateLock (lock : jsval) : result string SessionPathLockEvidence :=
  _ <-? assertPlainObject lock "lock" ;;
  _ <-? assertExactKeys lock LOCK_KEYS "lock" ;;
  state <-? required (lock_state_of (get_prop "state" lock)) "lock.state must be absent|live|stale|foreign|unknown" ;;
  sameHost <-? assertBoolean (get_prop "sameHost" lock) "lock.sameHost" ;;
  pidDefinitelyAbsent <-? assertBoolean (get_prop "pidDefinitelyAbsent" lock) "lock.pidDefinitelyAbsent" ;;
  holderPid <-? match get_prop "holderPid" lock with
                | JNull => Ok None
                | value => pid <-? assertCanonicalDecimal value "lock.holderPid" ;; Ok (Some pid)
                end ;;
  Ok {| lk_state := state; lk_sameHost := sameHost; lk_pidDefinitelyAbsent := pidDefinitelyAbsent; lk_holderPid := holderPid |}.

(** An incomplete identity is no identity. *)
Definition normalizeIdentity (value : jsval) : option string :=
  if is_record value && hasExactKeys value ["owner"] then
    match get_prop "owner" value with
    | JString owner => if canonical_decimal owner then Some owner else None
    | _ => None
    end
  else None.

Definition validateInput (rawInput : jsval) : result string SessionPathAccessInput :=
  _ <-? assertPlainObject rawInput "input" ;;
  _ <-? match List.find (fun key => negb (existsb (String.eqb key) INPUT_ALLOWED_KEYS)) (own_keys rawInput) with
        | Some key => Err ("input has an unknown key: " ++ key)%string
        | None => Ok tt
        end ;;
  platform <-? required (platform_of (get_prop "platform" rawInput)) "input.platform must be posix|win32" ;;
  root <-? assertString (get_prop "root" rawInput) "input.root" ;;
  target <-? assertString (get_prop "target" rawInput) "input.target" ;;
  intent <-? required (intent_of (get_prop "intent" rawInput))
               "input.intent must be inspect_metadata|inspect_content|repair|repair_dry_run" ;;
  _ <-? check (hasOwn "evidence" rawInput) "input.evidence is required" ;;
  evidence <-? validateEvidence (get_prop "evidence" rawInput) ;;
  lock <-? match get_prop "lock" rawInput with
           | JUndefined => Ok None
           | value => lock <-? validateLock value ;; Ok (Some lock)
           end ;;
  Ok {| in_platform := platform; in_root := root; in_target := target; in_intent := intent;
        in_identity := normalizeIdentity (get_prop "identity" rawInput); in_evidence := evidence; in_lock := lock |}.

(** ** The decision *)

Definition statEqual (a b : SessionPathStat) : bool :=
  String.eqb (st_dev a) (st_dev b) && String.eqb (st_ino a) (st_ino b) && (st_nlink a =? st_nlink b)%Z
  && (st_size a =? st_size b)%Z && (st_mtime a =? st_mtime b)%Z && Bool.eqb (st_regular a) (st_regular b)
  && String.eqb (st_owner a) (st_owner b).

Definition buildDecision (input : SessionPathAccessInput) (status : SessionPathStatus) (reason : SessionPathReason)
    (classification : SessionPathClassification) (canInspectMetadata canReadContents canRepair : bool)
    (plannedActions : list (option string)) (scheduledWrites : nat) : SessionPathDecision :=
  let evidence := in_evidence input in
  {| pd_platform := in_platform input; pd_intent := in_intent input; pd_status := status; pd_reason := reason;
     pd_dryRun := bool_decide (in_intent input = repair_dry_run); pd_classification := classification;
     pd_targetLexical := ev_targetLexical evidence; pd_targetRealpath := ev_targetRealpath evidence;
     pd_trustedRootLexical := ev_trustedRootLexical evidence; pd_trustedRootRealpath := ev_trustedRootRealpath evidence;
     pd_canInspectMetadata := canInspectMetadata; pd_canReadContents := canReadContents; pd_canRepair := canRepair;
     pd_plannedActions := plannedActions; pd_scheduledWrites := scheduledWrites |}.

Definition reject (input : SessionPathAccessInput) (reason : SessionPathReason) (classification : SessionPathClassification)
    : SessionPathDecision := buildDecision input rejected reason classification false false false [] 0.

Definition block (input : SessionPathAccessInput) (reason : SessionPathReason) (classification : SessionPathClassification)
    : SessionPathDecision := buildDecision input blocked reason classification false false false [] 0.

Definition metadataOnly (input : SessionPathAccessInput) (classification : SessionPathClassification) : SessionPathDecision :=
  buildDecision input metadata_only reason_metadata_only classification true false false [] 0.

Definition authorize (input : SessionPathAccessInput) (canReadContents canRepair : bool) (plannedActions : list (option string))
    (scheduledWrites : nat) : SessionPathDecision :=
  buildDecision input authorized reason_authorized class_inside true canReadContents canRepair plannedActions scheduledWrites.

Definition isDirectChild (parentCanonical childCanonical : string) (platform : SessionPathPlatform) : bool :=
  match parseCanonical parentCanonical platform, parseCanonical childCanonical platform with
  | Some parentParts, Some childParts =>
      same_drive parentParts childParts
      && (length (cp_segments childParts) =? length (cp_segments parentParts) + 1)%nat
      && segments_prefix (cp_segments parentParts) (cp_segments childParts) platform
  | _, _ => false
  end.

Definition is_link (entry : SessionPathChainEntry) : bool :=
  match ch_linkKind entry with
  | link_none => false
  | _ => true
  end.

(** The loop over the chain; [prev] is [None] at its first entry. *)
Fixpoint bind_entries (rootParts : CanonicalParts) (platform : SessionPathPlatform) (prev : option (string * string))
    (chain : list SessionPathChainEntry) : option SessionPathReason :=
  match chain with
  | [] => None
  | entry :: rest =>
      if is_link entry then Some symlink_in_chain
      else
        match canonicalizeSessionPath (ch_lexical entry) platform, canonicalizeSessionPath (ch_realpath entry) platform with
        | Some entryLexical, Some entryReal =>
            match parseCanonical entryLexical platform, parseCanonical entryReal platform with
            | Some entryLexicalParts, Some entryRealParts =>
                if negb (partsContain rootParts entryLexicalParts platform) then Some evidence_mismatch
                else if negb (partsContain rootParts entryRealParts platform) then Some outside_realpath
                else if match prev with
                        | Some (prevLexical, prevReal) =>
                            negb (isDirectChild prevLexical entryLexical platform)
                            || negb (isDirectChild prevReal entryReal platform)
                        | None => false
                        end
                then Some evidence_mismatch
                else bind_entries rootParts platform (Some (entryLexical, entryReal)) rest
            | _, _ => Some evidence_mismatch
            end
        | _, _ => Some evidence_mismatch
        end
  end.

Definition entry_bound (entry : option SessionPathChainEntry) (lexical real : string) (platform : SessionPathPlatform) : bool :=
  match entry with
  | Some entry =>
      canonicalPathEqual (canonicalizeSessionPath (ch_lexical entry) platform) (Some lexical) platform
      && canonicalPathEqual (canonicalizeSessionPath (ch_realpath entry) platform) (Some real) platform
  | None => false
  end.

Definition bindChain (evidence : SessionPathEvidence) (rootCanonical rootRealpathCanonical targetCanonical targetRealpathCanonical : string)
    (platform : SessionPathPlatform) : option SessionPathReason :=
  if negb (canonicalPathEqual (Some rootCanonical) (Some rootRealpathCanonical) platform) then Some evidence_mismatch
  else
    match parseCanonical rootCanonical platform, parseCanonical targetCanonical platform with
    | Some rootParts, Some targetLexicalParts =>
        if negb (Z.of_nat (length (ev_chain evidence))
                 =? Z.of_nat (length (cp_segments targetLexicalParts)) - Z.of_nat (length (cp_segments rootParts)) + 1)%Z
        then Some evidence_mismatch
        else if negb (entry_bound (head (ev_chain evidence)) rootCanonical rootRealpathCanonical platform)
        then Some evidence_mismatch
        else if negb (entry_bound (last (ev_chain evidence)) targetCanonical targetRealpathCanonical platform)
        then Some evidence_mismatch
        else bind_entries rootParts platform None (ev_chain evidence)
    | _, _ => Some evidence_mismatch
    end.

Definition evaluateLock (lock : SessionPathLockEvidence) : option SessionPathReason :=
  let held := match lk_holderPid lock with Some _ => true | None => false end in
  match lk_state lock with
  | lock_absent => if negb held && lk_pidDefinitelyAbsent lock then None else Some lock_unknown
  | lock_is_live =>
      if lk_sameHost lock && held && negb (lk_pidDefinitelyAbsent lock) then Some lock_live else Some lock_unknown
  | lock_is_foreign => if negb (lk_sameHost lock) then Some lock_foreign else Some lock_unknown
  | lock_is_stale => if lk_sameHost lock && held && lk_pidDefinitelyAbsent lock then None else Some lock_stale_ineligible
  | lock_is_unknown => Some lock_unknown
  end.

Definition plannedActionsForLock (lock : SessionPathLockEvidence) : list (option string) :=
  match lk_state lock, lk_holderPid lock with
  | lock_is_stale, Some pid => [Some pid]
  | _, _ => []
  end.

(** The checks on a file inside of the root, after its paths. *)
Definition decide_inside (input : SessionPathAccessInput) (owner : string) (lock : SessionPathLockEvidence)
    (chainReason : option SessionPathReason) : SessionPathDecision :=
  let evidence := in_evidence input in
  let before := ev_statBefore evidence in
  match chainReason with
  | Some reason => block input reason class_inside
  | None =>
      if negb (st_regular before) then block input nonregular class_inside
      else if negb (st_nlink before =? 1)%Z then block input nlink_not_one class_inside
      else if negb (String.eqb owner (st_owner before)) then block input owner_mismatch class_inside
      else if negb (String.eqb (ev_openedDev evidence) (st_dev before)) || negb (String.eqb (ev_openedIno evidence) (st_ino before))
      then block input stat_race class_inside
      else if negb match ev_statAfter evidence with Some after => statEqual before after | None => false end
      then block input stat_after_mismatch class_inside
      else
        match evaluateLock lock with
        | Some reason => block input reason class_inside
        | None =>
            match in_intent input with
            | inspect_content => authorize input true false [] 0
            | intent =>
                let plannedActions := plannedActionsForLock lock in
                let isDryRun := bool_decide (intent = repair_dry_run) in
                authorize input false (negb isDryRun) plannedActions (if isDryRun then 0 else length plannedActions)
            end
        end
  end.

(** The decision on a validated input. *)
Definition decide_access (input : SessionPathAccessInput) : SessionPathDecision :=
  let platform := in_platform input in
  let evidence := in_evidence input in
  match canonicalizeSessionPath (in_root input) platform, canonicalizeSessionPath (in_target input) platform with
  | Some rootCanonical, Some targetCanonical =>
      if negb (bool_decide (ev_platform evidence = platform)) then block input evidence_mismatch class_external
      else
        match canonicalizeSessionPath (ev_trustedRootRealpath evidence) platform,
              canonicalizeSessionPath (ev_targetRealpath evidence) platform with
        | Some rootRealpathCanonical, Some targetRealpathCanonical =>
            if negb (canonicalPathEqual (canonicalizeSessionPath (ev_trustedRootLexical evidence) platform) (Some rootCanonical) platform)
               || negb (canonicalPathEqual (canonicalizeSessionPath (ev_targetLexical evidence) platform) (Some targetCanonical) platform)
            then block input evidence_mismatch class_external
            else
              let lexicalClassification := classifyTarget rootCanonical targetCanonical platform in
              match in_intent input with
              | inspect_metadata => metadataOnly input lexicalClassification
              | _ =>
                  match lexicalClassification with
                  | class_external => reject input target_external class_external
                  | class_root => reject input target_is_root class_root
                  | class_inside =>
                      match classifyTarget rootRealpathCanonical targetRealpathCanonical platform with
                      | class_inside =>
                          match in_identity input, in_lock input with
                          | None, _ => block input identity_required class_inside
                          | _, None => block input lock_required class_inside
                          | Some owner, Some lock =>
                              decide_inside input owner lock
                                (bindChain evidence rootCanonical rootRealpathCanonical targetCanonical targetRealpathCanonical platform)
                          end
                      | _ => block input outside_realpath class_inside
                      end
                  end
              end
        | _, _ => block input evidence_mismatch class_external
        end
  | _, _ => reject input lexical_invalid class_external
  end.

Definition decideSessionPathAccess (rawInput : jsval) : result string SessionPathDecision :=
  input <-? validateInput rawInput ;;
  Ok (decide_access input).
End PathPolicy.
