(* ===== verification/SessionCanonical.v ===== *)
(** * Canonical session paths are settled

    What [canonicalizeSessionPath] of [SessionPath] makes is its own canonical form: the segments that survive are
    proper and free of hazards, no character is forbidden and the text did not grow. *)

From Stdlib Require Import Ascii String Lia.
From stdpp Require Import base list option strings.
From S2P Require Import Prelude JsString PathSegments SessionTermination SessionPath.

Import PathPolicy.

Open Scope nat_scope.
Open Scope string_scope.
Open Scope list_scope.

(** ** Canonical paths are settled *)

(** The length of the segments, each with its slash. *)
Fixpoint weight (l : list string) : nat :=
  match l with
  | [] => 0
  | w :: l' => S (String.length w) + weight l'
  end.

Lemma weight_app (a b : list string) : weight (a ++ b) = weight a + weight b.
Proof. induction a as [|w a IH]; simpl; lia. Qed.

Lemma weight_split (c : ascii) (s : string) : weight (split c s) = S (String.length s).
Proof.
  induction s as [|a s IH]; [done|]. cbn [split]. destruct (Ascii.eqb a c); [simpl in *; lia|].
  destruct (split c s) as [|w l] eqn:E; [by apply split_nonnil in E|]. simpl in *. lia.
Qed.

Lemma weight_filter (p : string -> bool) (l : list string) : weight (List.filter p l) <= weight l.
Proof. induction l as [|w l IH]; simpl; [done|]. destruct (p w); simpl; lia. Qed.

Lemma weight_removelast (l : list string) : weight (removelast l) <= weight l.
Proof. induction l as [|w [|v l] IH]; simpl in *; lia. Qed.

Lemma weight_segments (s : string) : weight (pathSegments s) <= S (String.length s).
Proof. unfold pathSegments. etrans; [apply weight_filter|]. by rewrite weight_split. Qed.

Lemma length_app_str (a b : string) : String.length (a ++ b)%string = String.length a + String.length b.
Proof. induction a as [|x a IH]; simpl; [done|]. by rewrite IH. Qed.

Lemma length_join (l : list string) : String.length (join "/" l) <= pred (weight l).
Proof.
  induction l as [|w [|v l] IH]; [done|simpl; lia|].
  change (join "/" (w :: v :: l)) with (w ++ "/" ++ join "/" (v :: l))%string.
  rewrite !length_app_str. simpl in *. lia.
Qed.

Lemma collapse_weight (segs acc out : list string) :
  collapse_loop segs acc = Some out -> weight out <= weight acc + weight segs.
Proof.
  revert acc; induction segs as [|s segs IH]; intros acc; cbn [collapse_loop weight].
  - intros [= <-]. lia.
  - destruct (String.eqb s "."); [intros H%IH; lia|]. destruct (String.eqb s "..").
    + destruct acc as [|a acc]; [done|]. intros H%IH. pose proof (weight_removelast (a :: acc)). lia.
    + intros H%IH. rewrite weight_app in H. simpl in H. lia.
Qed.

(** Collapsing on Windows is collapsing, of segments without hazards. *)
Lemma collapse_win32_loop (segs acc out : list string) :
  collapse_win32 segs acc = Some out ->
  collapse_loop segs acc = Some out
  /\ (Forall (fun w => win_hazard w = false) acc -> Forall (fun w => win_hazard w = false) out).
Proof.
  revert acc; induction segs as [|s segs IH]; intros acc; cbn [collapse_win32 collapse_loop].
  - by intros [= <-].
  - destruct (String.eqb s "."); [apply IH|]. destruct (String.eqb s "..").
    + destruct acc as [|a acc]; [done|]. intros [-> Hf]%IH. split; [done|]. intros Ha. apply Hf.
      rewrite Forall_forall in *. intros w Hw. by apply Ha, elem_of_removelast.
    + destruct (win_hazard s) eqn:Eh; [done|]. intros [-> Hf]%IH. split; [done|]. intros Ha. apply Hf.
      apply Forall_app; split; [done|by repeat constructor].
Qed.

Lemma collapse_win32_id (segs acc : list string) :
  Forall proper_segment segs -> Forall (fun w => win_hazard w = false) segs ->
  collapse_win32 segs acc = Some (acc ++ segs).
Proof.
  intros Hp. revert acc; induction Hp as [|s segs (_ & Hd & Hdd & _) Hp IH]; intros acc; cbn [collapse_win32].
  - by rewrite app_nil_r.
  - intros [Hs Hh]%Forall_cons. rewrite (proj2 (String.eqb_neq s ".")), (proj2 (String.eqb_neq s "..")), Hs, IH by done.
    by rewrite <- (assoc (++)).
Qed.

(** What collapsing the segments of a text makes. *)
Lemma collapsed_segments (p : ascii -> bool) (s : string) (out : list string) :
  collapse_loop (pathSegments s) [] = Some out -> sforall p s = true -> p slash = true ->
  Forall proper_segment out /\ sforall p (join "/" out) = true /\ String.length (join "/" out) <= String.length s.
Proof.
  intros Hc Hp Hs. split; [|split].
  - eapply collapse_loop_proper; [|constructor|exact Hc]. apply pathSegments_elem.
  - apply join_sforall; [change (p slash && true = true); by rewrite Hs|].
    eapply collapse_loop_sforall; [| |exact Hc]; [|by intros ? ?%elem_of_nil].
    intros w Hw. unfold pathSegments in Hw. apply elem_of_filter_list in Hw as [Hw _]. by eapply split_sforall.
  - apply collapse_weight in Hc. cbn [weight] in Hc. pose proof (length_join out). pose proof (weight_segments s). lia.
Qed.

Lemma segments_strip (s : string) : pathSegments (stripLeading slash s) = pathSegments s.
Proof.
  induction s as [|a s IH]; [done|]. cbn [stripLeading]. destruct (Ascii.eqb a slash) eqn:Ea; [|done].
  apply Ascii.eqb_eq in Ea as ->. by rewrite pathSegments_slash.
Qed.

(** The characters of a canonical path of Windows. *)
Definition plain_char (a : ascii) : bool := negb (is_control a) && negb (Ascii.eqb a backslash_char).

Lemma plain_no_break (a : ascii) : plain_char a = true -> is_line_terminator a = false.
Proof.
  intros Ha. pose proof (ascii_all (fun a => implb (plain_char a) (negb (is_line_terminator a))) eq_refl a) as H.
  cbn beta in H. rewrite Ha in H. by apply negb_true_iff in H.
Qed.

Lemma sforall_impl (p q : ascii -> bool) (s : string) :
  (forall a, p a = true -> q a = true) -> sforall p s = true -> sforall q s = true.
Proof. intros Hpq. induction s as [|a s IH]; simpl; [done|]. intros [? ?]%andb_true_iff. rewrite Hpq, IH; done. Qed.

Lemma sforall_strip (p : ascii -> bool) (s : string) : sforall p s = true -> sforall p (stripLeading slash s) = true.
Proof. induction s as [|a s IH]; [done|]. cbn [stripLeading]. destruct (Ascii.eqb a slash); [|done]. intros [? ?]%andb_true_iff. auto. Qed.

Lemma plain_normalized (raw : string) : sexists is_control raw = false -> sforall plain_char (normalizePathSlashes raw) = true.
Proof.
  unfold sexists. rewrite negb_false_iff. induction raw as [|a raw IH]; [done|]. cbn [sforall normalizePathSlashes smap].
  intros [Ha Hr]%andb_true_iff. rewrite andb_true_iff. split; [|by apply IH].
  destruct (Ascii.eqb a backslash_char) eqn:Eb; [done|]. unfold plain_char. by rewrite Ha, Eb.
Qed.

Definition drive_letter (a : ascii) : bool :=
  implb (is_alpha a)
    (is_alpha (lower_ascii a) && plain_char (lower_ascii a) && negb (Ascii.eqb slash (lower_ascii a))
     && Ascii.eqb (lower_ascii (lower_ascii a)) (lower_ascii a)).

Lemma drive_letter_all (a : ascii) : drive_letter a = true.
Proof. by apply ascii_all. Qed.

Lemma canonicalizePosix_settled (raw canonical : string) :
  sexists is_control raw = false -> canonicalizePosix raw = Some canonical ->
  canonicalizePosix canonical = Some canonical /\ sexists is_control canonical = false
  /\ is_empty canonical = false /\ String.length canonical <= String.length raw.
Proof.
  unfold canonicalizePosix, collapsePathSegments, sexists. rewrite !negb_false_iff. intros Hc.
  destruct raw as [|a raw]; [done|]. destruct (startsWith "/" (String a raw)) eqn:Es; [|done].
  rewrite startsWith_char in Es. apply Ascii.eqb_eq in Es as <-. change "/"%char with slash. rewrite pathSegments_slash.
  intros (out & Hout & [= <-])%bind_Some. cbn [sforall] in Hc. apply andb_true_iff in Hc as [Hs Hc].
  destruct (collapsed_segments _ _ _ Hout Hc eq_refl) as (Hp & Hj & Hlen).
  change ("/" ++ join "/" out)%string with (String slash (join "/" out)).
  rewrite (startsWith_char slash slash), Ascii.eqb_refl, pathSegments_slash, pathSegments_join, (collapse_loop_id _ _ Hp) by done.
  split; [done|]. split; [exact Hj|]. split; [done|exact (le_n_S _ _ Hlen)].
Qed.

Lemma canonicalizeWin32_settled (raw canonical : string) :
  sexists is_control raw = false -> canonicalizeWin32 raw = Some canonical ->
  canonicalizeWin32 canonical = Some canonical /\ sexists is_control canonical = false
  /\ is_empty canonical = false /\ String.length canonical <= String.length raw.
Proof.
  intros Hc%plain_normalized. unfold canonicalizeWin32.
  assert (String.length raw = String.length (normalizePathSlashes raw)) as -> by (symmetry; apply length_smap).
  destruct (startsWith "//" _); [done|]. intros ([drive tail] & Hd & (out & Hout & [= <-])%bind_Some)%bind_Some.
  unfold drive_absolute in Hd. destruct (has_drive_slash _ && _) eqn:E; [|done]. injection Hd as <- <-.
  apply andb_true_iff in E as [E Hb]. unfold has_drive_slash in E. apply andb_true_iff in E as [E Es].
  destruct (normalizePathSlashes raw) as [|d [|colon [|s rest]]]; try done. cbn [has_drive] in E. 
  apply andb_true_iff in E as [Ea Ec]. apply Ascii.eqb_eq in Ec as ->.
  change (slice 2 (String d (String ":" (String s rest)))) with (String s rest) in *. rewrite startsWith_char in Es.
  apply Ascii.eqb_eq in Es as <-. change "/"%char with slash in Hc, Hout.
  change (slice_to 2 (String d (String ":" (String "/" rest)))) with (String d (String ":" EmptyString)).
  cbn [sforall] in Hc. apply andb_true_iff in Hc as [_ Hc]. apply andb_true_iff in Hc as [_ Hc].
  apply andb_true_iff in Hc as [_ Hc]. rewrite segments_strip, pathSegments_slash in Hout.
  destruct (collapse_win32_loop _ _ _ Hout) as [Hloop Hhaz]. specialize (Hhaz ltac:(constructor)).
  destruct (collapsed_segments _ _ _ Hloop Hc eq_refl) as (Hp & Hj & Hlen).
  pose proof (drive_letter_all d) as Hd. unfold drive_letter in Hd. rewrite Ea in Hd. cbn [implb] in Hd.
  rewrite !andb_true_iff, negb_true_iff in Hd. destruct Hd as [[[Hl1 Hl2] Hl3] Hl4]. apply Ascii.eqb_eq in Hl4.
  cbn [append]. change (toLowerCase (String d (String ":" EmptyString)) ++ String "/" (join "/" out))%string
    with (String (lower_ascii d) (String ":" (String slash (join "/" out)))).
  assert (sforall plain_char (String (lower_ascii d) (String ":" (String slash (join "/" out)))) = true) as Hplain
    by (cbn [sforall]; rewrite Hl2; exact Hj).
  rewrite normalizePathSlashes_id by
    (unfold no_backslash; eapply sforall_impl; [|exact Hplain]; intros a Ha; by apply andb_true_iff in Ha as [_ Ha]).
  rewrite startsWith_cons. change "/"%char with slash at 1. rewrite Hl3. cbn [andb]. split; [|split; [|split; [done|exact (le_n_S _ _ (le_n_S _ _ (le_n_S _ _ Hlen)))]]].
  - unfold drive_absolute, has_drive_slash. cbn [has_drive slice slice_to]. rewrite Hl1, startsWith_char, Ascii.eqb_refl. cbn [andb].
    change (Ascii.eqb "/" slash) with true. cbn [andb].
    assert (sforall (fun a => negb (is_line_terminator a)) (stripLeading slash (String slash (join "/" out))) = true) as ->.
    { apply sforall_strip, (sforall_impl plain_char); [|exact Hj]. intros a Ha. by rewrite plain_no_break. }
    cbn [mbind option_bind]. rewrite segments_strip, pathSegments_slash, pathSegments_join by done.
    rewrite (collapse_win32_id _ _ Hp Hhaz). cbn [mbind option_bind app toLowerCase smap append]. by rewrite Hl4.
  - unfold sexists. rewrite negb_false_iff. eapply sforall_impl; [|exact Hplain]. intros a Ha. by apply andb_true_iff in Ha as [Ha _].
Qed.


(** A canonical session path is settled: canonicalising it again changes nothing, on both platforms, whatever
    text it came from. *)
Theorem canonicalizeSessionPath_settled (raw canonical : string) (platform : SessionPathPlatform) :
  canonicalizeSessionPath raw platform = Some canonical ->
  canonicalizeSessionPath canonical platform = Some canonical.
Proof.
  unfold canonicalizeSessionPath. destruct (is_empty raw); [done|].
  destruct (_ <? String.length raw)%nat eqn:El; [done|]. apply Nat.ltb_ge in El.
  destruct (sexists is_control raw) eqn:Ec; [done|]. cbn [orb]. intros Hc.
  assert (match platform with posix => canonicalizePosix canonical | win32 => canonicalizeWin32 canonical end = Some canonical
          /\ sexists is_control canonical = false /\ is_empty canonical = false
          /\ String.length canonical <= String.length raw) as (-> & -> & -> & Hlen)
    by (destruct platform; [by apply canonicalizePosix_settled|by apply canonicalizeWin32_settled]).
  assert ((SESSION_PATH_MAX_LENGTH <? String.length canonical)%nat = false) as -> by (apply Nat.ltb_ge; lia). done.
Qed.

Lemma canonicalizeSessionPath_settled_witness :
  canonicalizeSessionPath "C:\\Users\.\Me\..\me" win32 = Some "c:/Users/me"
  /\ canonicalizeSessionPath "c:/Users/me" win32 = Some "c:/Users/me".
Proof.
  split; [vm_compute; reflexivity|].
  apply (canonicalizeSessionPath_settled "C:\\Users\.\Me\..\me"). vm_compute. reflexivity.
Defined.
