(* ===== verification/SessionAccess.v ===== *)
(** * What an authorised access to a session file is

    The policy of [SessionPath] compares canonical paths segment by segment.
    Here a canonical path is its place: the drive and the segments, folded to
    one case where the platform ignores case. Every comparison of the policy is
    a fact about places, and an access is authorised exactly when the places of
    the evidence form the walk from the trusted root down to the target and the
    file and its lock are as they must be. *)

From Stdlib Require Import Ascii String ZArith Lia.
From stdpp Require Import base list option strings.
From S2P Require Import Prelude JsString JsValue PathSegments Json SessionTermination SessionPath.

Import PathPolicy.

Open Scope nat_scope.
Open Scope string_scope.
Open Scope list_scope.

(** ** Places *)

Definition place : Type := option string * list string.

Definition fold_case (platform : SessionPathPlatform) (segment : string) : string :=
  match platform with
  | posix => segment
  | win32 => toLowerCase segment
  end.

Definition parts_place (platform : SessionPathPlatform) (parts : CanonicalParts) : place :=
  (cp_drive parts, map (fold_case platform) (cp_segments parts)).

Definition canonical_place (platform : SessionPathPlatform) (canonical : string) : option place :=
  parts_place platform <$> parseCanonical canonical platform.

Definition place_of (platform : SessionPathPlatform) (raw : string) : option place :=
  canonical ← canonicalizeSessionPath raw platform; canonical_place platform canonical.

(** The places below [base] along [way], the base left out. *)
Fixpoint steps (base way : list string) : list (list string) :=
  match way with
  | [] => []
  | segment :: way' => (base ++ [segment]) :: steps (base ++ [segment]) way'
  end.

(** The walk from [base] to its end. *)
Definition walk (drive : option string) (base way : list string) : list (option place) :=
  map (fun segments => Some (drive, segments)) (base :: steps base way).

Lemma length_steps (base way : list string) : length (steps base way) = length way.
Proof. revert base; induction way as [|s way IH]; intros base; simpl; [done|]. by rewrite IH. Qed.

Lemma last_walk (d : option string) (base way : list string) : last (walk d base way) = Some (Some (d, base ++ way)).
Proof.
  revert base; induction way as [|s way IH]; intros base.
  - unfold walk. cbn [map steps last]. by rewrite app_nil_r.
  - change (walk d base (s :: way)) with (Some (d, base) :: walk d (base ++ [s]) way).
    specialize (IH (base ++ [s])). rewrite <- (assoc (++)) in IH. etrans; [apply last_cons_cons|exact IH].
Qed.

(** ** Comparisons as facts about places *)

Lemma segmentEqual_iff (platform : SessionPathPlatform) (a b : string) :
  segmentEqual a b platform = true <-> fold_case platform a = fold_case platform b.
Proof. destruct platform; apply String.eqb_eq. Qed.

Lemma segments_prefix_iff (platform : SessionPathPlatform) (l r : list string) :
  segments_prefix l r platform = true <->
  exists way, map (fold_case platform) r = map (fold_case platform) l ++ way.
Proof.
  revert r; induction l as [|a l IH]; intros [|b r]; cbn [segments_prefix map app].
  - split; [by exists []|done].
  - split; [by eexists|done].
  - split; [done|intros (? & ?); done].
  - rewrite andb_true_iff, segmentEqual_iff, IH. split.
    + intros [-> (way & ->)]. by exists way.
    + intros (way & [= -> ->]). split; [done|by exists way].
Qed.

Lemma same_drive_iff (a b : CanonicalParts) : same_drive a b = true <-> cp_drive a = cp_drive b.
Proof. apply bool_decide_eq_true. Qed.

Lemma prefix_length_0 (platform : SessionPathPlatform) (l r : list string) :
  (length l =? length r)%nat && segments_prefix l r platform = true <->
  map (fold_case platform) l = map (fold_case platform) r.
Proof.
  rewrite andb_true_iff, Nat.eqb_eq, segments_prefix_iff. split.
  - intros [Hl (way & Hw)]. apply (f_equal length) in Hw as Hlen. rewrite length_app, !length_map in Hlen.
    destruct way; [|simpl in Hlen; lia]. by rewrite Hw, app_nil_r.
  - intros Hm. split.
    + apply (f_equal length) in Hm. by rewrite !length_map in Hm.
    + exists []. by rewrite app_nil_r.
Qed.

Lemma canonicalPathEqual_iff (platform : SessionPathPlatform) (a b : option string) :
  canonicalPathEqual a b platform = true <->
  exists p, (a ≫= canonical_place platform) = Some p /\ (b ≫= canonical_place platform) = Some p.
Proof.
  unfold canonicalPathEqual, canonical_place.
  destruct a as [a|]; cbn [mbind option_bind]; [|split; [done|by intros (p & ? & _)]].
  destruct (parseCanonical a platform) as [pa|]; cbn [fmap option_fmap option_map]; [|split; [done|by intros (p & ? & _)]].
  destruct b as [b|]; cbn [mbind option_bind]; [|split; [done|by intros (p & _ & ?)]].
  destruct (parseCanonical b platform) as [pb|]; cbn [fmap option_fmap option_map]; [|split; [done|by intros (p & _ & ?)]].
  rewrite <- andb_assoc, andb_true_iff, prefix_length_0, same_drive_iff. unfold parts_place. split.
  - intros [-> ->]. by eexists.
  - intros (p & [= <-] & [= -> ->]). done.
Qed.

Lemma partsContain_iff (platform : SessionPathPlatform) (root candidate : CanonicalParts) :
  partsContain root candidate platform = true <->
  exists way, parts_place platform candidate
              = ((parts_place platform root).1, (parts_place platform root).2 ++ way).
Proof.
  unfold partsContain, parts_place. rewrite andb_true_iff, same_drive_iff, segments_prefix_iff. cbn [fst snd]. split.
  - intros [-> (way & ->)]. by exists way.
  - intros (way & [= -> ->]). split; [done|by exists way].
Qed.

Lemma classify_inside_iff (platform : SessionPathPlatform) (root target : string) (d : option string) (base : list string) :
  canonical_place platform root = Some (d, base) ->
  classifyTarget root target platform = class_inside <->
  exists way, way <> [] /\ canonical_place platform target = Some (d, base ++ way).
Proof.
  unfold canonical_place, classifyTarget.
  destruct (parseCanonical root platform) as [rp|]; cbn [fmap option_fmap option_map]; [|done]. intros [= Hd Hb].
  destruct (parseCanonical target platform) as [tp|]; cbn [fmap option_fmap option_map];
    [|split; [done|by intros (way & _ & ?)]].
  pose proof (partsContain_iff platform rp tp) as Hc. cbn [parts_place fst snd] in Hc. rewrite Hd, Hb in Hc.
  destruct (partsContain rp tp platform) eqn:Ec; cbn [negb].
  - destruct (proj1 Hc eq_refl) as (way & Hw). rewrite Hw. injection Hw as Htd Htm.
    assert (same_drive rp tp = true) as -> by (apply same_drive_iff; congruence). cbn [andb].
    assert ((length (cp_segments rp) =? length (cp_segments tp))%nat = match way with [] => true | _ => false end) as ->.
    { apply (f_equal length) in Htm. rewrite <- Hb, length_app, !length_map in Htm.
      destruct way; cbn [length] in Htm; [apply Nat.eqb_eq|apply Nat.eqb_neq]; lia. }
    destruct way as [|s way]; split; try done.
    + intros (way & Hne & [= Hw]). apply (f_equal length) in Hw. rewrite !length_app in Hw. destruct way; [done|].
      simpl in Hw. lia.
    + intros _. by exists (s :: way).
  - split; [done|]. intros (way & _ & [= Hw]). assert (false = true) by (apply Hc; exists way; unfold parts_place; by f_equal). done.
Qed.

Lemma isDirectChild_iff (platform : SessionPathPlatform) (parent child : string) (d : option string) (base : list string) :
  canonical_place platform parent = Some (d, base) ->
  isDirectChild parent child platform = true <->
  exists segment, canonical_place platform child = Some (d, base ++ [segment]).
Proof.
  unfold canonical_place, isDirectChild.
  destruct (parseCanonical parent platform) as [rp|]; cbn [fmap option_fmap option_map]; [|done]. intros [= Hd Hb].
  destruct (parseCanonical child platform) as [tp|]; cbn [fmap option_fmap option_map]; [|split; [done|by intros (? & ?)]].
  rewrite !andb_true_iff, same_drive_iff, Nat.eqb_eq, segments_prefix_iff, Hb, Hd. unfold parts_place. split.
  - intros [[Hd' Hl] (way & Hw)]. apply (f_equal length) in Hw as Hlen. rewrite <- Hb, length_app, !length_map in Hlen.
    destruct way as [|s [|t way]]; cbn [length] in Hlen; try lia. exists s. by rewrite <- Hd', Hw.
  - intros (s & [= Hd' Hw]). split; [split; [done|]|by eexists].
    apply (f_equal length) in Hw. rewrite <- Hb, length_app, !length_map in Hw. cbn [length] in Hw. lia.
Qed.

(** ** The chain of evidence *)

Definition no_links (chain : list SessionPathChainEntry) : Prop := Forall (fun entry => ch_linkKind entry = link_none) chain.

Definition lexical_places (platform : SessionPathPlatform) (chain : list SessionPathChainEntry) : list (option place) :=
  map (fun entry => place_of platform (ch_lexical entry)) chain.

Definition real_places (platform : SessionPathPlatform) (chain : list SessionPathChainEntry) : list (option place) :=
  map (fun entry => place_of platform (ch_realpath entry)) chain.

Definition tails_walk (d : option string) (base way : list string) : list (option place) :=
  map (fun segments => Some (d, segments)) (steps base way).

Lemma is_link_iff (entry : SessionPathChainEntry) : is_link entry = false <-> ch_linkKind entry = link_none.
Proof. unfold is_link. by destruct (ch_linkKind entry). Qed.

Lemma place_of_Some (platform : SessionPathPlatform) (raw canonical : string) :
  canonicalizeSessionPath raw platform = Some canonical -> place_of platform raw = canonical_place platform canonical.
Proof. unfold place_of. by intros ->. Qed.

Lemma contains_below (platform : SessionPathPlatform) (root parts : CanonicalParts) (d : option string) (base more : list string) :
  parts_place platform root = (d, base) -> parts_place platform parts = (d, base ++ more) ->
  partsContain root parts platform = true.
Proof. intros Hr Hp. apply partsContain_iff. exists more. by rewrite Hr, Hp. Qed.

(** One entry of the loop. *)
Lemma bind_entry (platform : SessionPathPlatform) (root : CanonicalParts) (prev : option (string * string))
    (entry : SessionPathChainEntry) (rest : list SessionPathChainEntry) :
  bind_entries root platform prev (entry :: rest) = None <->
  ch_linkKind entry = link_none /\ exists el er lp rp, canonicalizeSessionPath (ch_lexical entry) platform = Some el
    /\ canonicalizeSessionPath (ch_realpath entry) platform = Some er
    /\ parseCanonical el platform = Some lp /\ parseCanonical er platform = Some rp
    /\ partsContain root lp platform = true /\ partsContain root rp platform = true
    /\ (forall pl pr, prev = Some (pl, pr) -> isDirectChild pl el platform = true /\ isDirectChild pr er platform = true)
    /\ bind_entries root platform (Some (el, er)) rest = None.
Proof.
  cbn [bind_entries]. rewrite <- is_link_iff. split.
  - destruct (is_link entry); [done|].
    destruct (canonicalizeSessionPath (ch_lexical entry) platform) as [el|]; [|done].
    destruct (canonicalizeSessionPath (ch_realpath entry) platform) as [er|]; [|done].
    destruct (parseCanonical el platform) as [lp|] eqn:El; [|done].
    destruct (parseCanonical er platform) as [rp|] eqn:Er; [|done].
    destruct (partsContain root lp platform) eqn:Cl; cbn [negb]; [|done].
    destruct (partsContain root rp platform) eqn:Cr; cbn [negb]; [|done].
    intros Hb. split; [done|]. exists el, er, lp, rp. repeat (split; [done|]).
    destruct prev as [[pl pr]|]; [|split; [done|exact Hb]].
    destruct (isDirectChild pl el platform) eqn:Dl; cbn [negb orb] in Hb; [|done].
    destruct (isDirectChild pr er platform) eqn:Dr; cbn [negb] in Hb; [|done].
    split; [by intros ? ? [= <- <-]|done].
  - intros (-> & el & er & lp & rp & -> & -> & -> & -> & -> & -> & Hd & Hb). cbn [negb].
    destruct prev as [[pl pr]|]; [|done]. by destruct (Hd pl pr eq_refl) as [-> ->].
Qed.

Lemma canonical_place_Some (platform : SessionPathPlatform) (canonical : string) (p : place) :
  canonical_place platform canonical = Some p <->
  exists parts, parseCanonical canonical platform = Some parts /\ parts_place platform parts = p.
Proof.
  unfold canonical_place. destruct (parseCanonical canonical platform) as [parts|]; cbn [fmap option_fmap option_map].
  - split; [intros [= <-]; by eexists|by intros (? & [= <-] & ->)].
  - by split; [|intros (? & ? & _)].
Qed.

(** The rest of the chain after an entry inside of the root. *)
Lemma bind_rest (platform : SessionPathPlatform) (root : CanonicalParts) (d : option string) (base : list string)
    (chain : list SessionPathChainEntry) (pl pr : string) (ls rs : list string) :
  parts_place platform root = (d, base) ->
  canonical_place platform pl = Some (d, base ++ ls) -> canonical_place platform pr = Some (d, base ++ rs) ->
  bind_entries root platform (Some (pl, pr)) chain = None <->
  no_links chain /\ exists lway rway, lexical_places platform chain = tails_walk d (base ++ ls) lway
                                     /\ real_places platform chain = tails_walk d (base ++ rs) rway.
Proof.
  intros Hroot. revert pl pr ls rs; induction chain as [|entry chain IH]; intros pl pr ls rs Hl Hr.
  - split; [|done]. intros _. split; [constructor|by exists [], []].
  - rewrite bind_entry. unfold no_links. rewrite Forall_cons. split.
    + intros (Hk & el & er & lp & rp & Hel & Her & Hlp & Hrp & _ & _ & Hd & Hb).
      destruct (Hd pl pr eq_refl) as [Dl Dr]. destruct (proj1 (isDirectChild_iff _ _ _ _ _ Hl) Dl) as (l & Hel').
      destruct (proj1 (isDirectChild_iff _ _ _ _ _ Hr) Dr) as (r & Her'). rewrite <- (assoc (++)) in Hel', Her'.
      destruct (proj1 (IH el er _ _ Hel' Her') Hb) as (Hn & lway & rway & HL & HR). split; [done|].
      exists (l :: lway), (r :: rway). unfold lexical_places, real_places, tails_walk in *. cbn [map steps].
      rewrite !(place_of_Some _ _ _ Hel), !(place_of_Some _ _ _ Her), Hel', Her', HL, HR. by rewrite <- !(assoc (++)).
    + intros ([Hk Hn] & [|l lway] & [|r rway] & HL & HR); try done.
      injection HL as Hel HL. injection HR as Her HR. rewrite <- (assoc (++)) in Hel, HL, Her, HR.
      apply bind_Some in Hel as (el & Hel & Hel'). apply bind_Some in Her as (er & Her & Her').
      split; [done|].
      pose proof (proj2 (isDirectChild_iff platform pl el d (base ++ ls) Hl)) as Dl.
      pose proof (proj2 (isDirectChild_iff platform pr er d (base ++ rs) Hr)) as Dr.
      apply canonical_place_Some in Hel' as Hlp. destruct Hlp as (lp & Hlp & Hlp').
      apply canonical_place_Some in Her' as Hrp. destruct Hrp as (rp & Hrp & Hrp').
      exists el, er, lp, rp. repeat (split; [done|]).
      split; [by eapply contains_below|]. split; [by eapply contains_below|]. split.
      * intros ? ? [= <- <-]. split; [apply Dl; exists l|apply Dr; exists r]; by rewrite <- (assoc (++)).
      * apply (IH el er _ _ Hel' Her'). split; [done|]. by exists lway, rway.
Qed.

(** Both places of an entry of the chain. *)
Lemma entry_bound_iff (platform : SessionPathPlatform) (entry : SessionPathChainEntry) (lexical real : string) (a b : place) :
  canonical_place platform lexical = Some a -> canonical_place platform real = Some b ->
  entry_bound (Some entry) lexical real platform = true <->
  place_of platform (ch_lexical entry) = Some a /\ place_of platform (ch_realpath entry) = Some b.
Proof.
  intros Ha Hb. cbn [entry_bound]. rewrite andb_true_iff, !canonicalPathEqual_iff.
  change (Some lexical ≫= canonical_place platform) with (canonical_place platform lexical).
  change (Some real ≫= canonical_place platform) with (canonical_place platform real).
  rewrite Ha, Hb.
  change (canonicalizeSessionPath (ch_lexical entry) platform ≫= canonical_place platform) with (place_of platform (ch_lexical entry)).
  change (canonicalizeSessionPath (ch_realpath entry) platform ≫= canonical_place platform) with (place_of platform (ch_realpath entry)).
  split.
  - intros [(? & -> & [= <-]) (? & -> & [= <-])]. done.
  - intros [-> ->]. split; by eexists.
Qed.

Lemma walk_end (A : Type) (f : A -> option place) (l : list A) (x : A) (d : option string) (base way : list string) :
  map f l = walk d base way -> last l = Some x -> f x = Some (d, base ++ way).
Proof.
  intros Hm Hx. pose proof (last_walk d base way) as Hl. rewrite <- Hm in Hl.
  change (map f l) with (f <$> l) in Hl. rewrite fmap_last, Hx in Hl. by injection Hl.
Qed.

(** The loop over a chain whose first entry is at the root. *)
Lemma bind_walk (platform : SessionPathPlatform) (root : CanonicalParts) (d : option string) (base : list string)
    (first : SessionPathChainEntry) (rest : list SessionPathChainEntry) :
  parts_place platform root = (d, base) ->
  place_of platform (ch_lexical first) = Some (d, base) -> place_of platform (ch_realpath first) = Some (d, base) ->
  bind_entries root platform None (first :: rest) = None <->
  no_links (first :: rest) /\
  exists lway rway, lexical_places platform (first :: rest) = walk d base lway
                    /\ real_places platform (first :: rest) = walk d base rway.
Proof.
  intros Hroot Hfl Hfr. rewrite bind_entry. unfold no_links, lexical_places, real_places, walk. cbn [map]. rewrite Forall_cons, Hfl, Hfr.
  apply bind_Some in Hfl as (el & Hel & Hel'). apply bind_Some in Hfr as (er & Her & Her').
  pose proof (bind_rest platform root d base rest el er [] []) as Hrest. rewrite app_nil_r in Hrest.
  specialize (Hrest Hroot Hel' Her'). unfold no_links, lexical_places, real_places, tails_walk in Hrest. split.
  - intros (Hk & el2 & er2 & _ & _ & Hel2 & Her2 & _ & _ & _ & _ & _ & Hb).
    rewrite Hel in Hel2. injection Hel2 as <-. rewrite Her in Her2. injection Her2 as <-.
    destruct (proj1 Hrest Hb) as (Hn & lway & rway & -> & ->). split; [done|]. by exists lway, rway.
  - intros ([Hk Hn] & lway & rway & [= HL] & [= HR]). split; [done|].
    apply canonical_place_Some in Hel' as (lp & Hlp & Hlp'). apply canonical_place_Some in Her' as (rp & Hrp & Hrp').
    exists el, er, lp, rp. repeat (split; [done|]).
    split; [apply (contains_below platform root lp d base []); by rewrite ?app_nil_r|].
    split; [apply (contains_below platform root rp d base []); by rewrite ?app_nil_r|]. split; [done|].
    apply Hrest. split; [done|]. by exists lway, rway.
Qed.

(** A bound chain is the walk from the root down to the target, in both path spaces. *)
Lemma bindChain_iff (evidence : SessionPathEvidence) (platform : SessionPathPlatform) (root rootReal target targetReal : string)
    (d : option string) (base way : list string) (real : place) :
  canonical_place platform root = Some (d, base) -> canonical_place platform target = Some (d, base ++ way) ->
  canonical_place platform targetReal = Some real ->
  bindChain evidence root rootReal target targetReal platform = None <->
  canonical_place platform rootReal = Some (d, base) /\ no_links (ev_chain evidence)
  /\ lexical_places platform (ev_chain evidence) = walk d base way
  /\ exists rway, real = (d, base ++ rway) /\ real_places platform (ev_chain evidence) = walk d base rway.
Proof.
  intros Hroot Htarget Hreal. unfold bindChain.
  pose proof (canonicalPathEqual_iff platform (Some root) (Some rootReal)) as Heq. cbn [mbind option_bind] in Heq.
  apply canonical_place_Some in Hroot as Hrp. destruct Hrp as (rp & -> & Hrp').
  apply canonical_place_Some in Htarget as Htp. destruct Htp as (tp & -> & Htp').
  destruct (canonicalPathEqual (Some root) (Some rootReal) platform) eqn:Er; cbn [negb].
  2: { split; [done|]. intros [HR _]. assert (false = true) as Hf; [apply Heq; by eexists|done]. }
  destruct (proj1 Heq eq_refl) as (p & Hp & HR). rewrite Hroot in Hp. injection Hp as <-.
  assert (Z.of_nat (length (cp_segments tp)) - Z.of_nat (length (cp_segments rp)) + 1 = Z.of_nat (S (length way)))%Z as ->.
  { injection Hrp' as _ Hb. injection Htp' as _ Ht. apply (f_equal length) in Hb, Ht.
    rewrite length_app, !length_map in *. lia. }
  destruct (ev_chain evidence) as [|first rest].
  { cbn [length head entry_bound negb]. destruct (negb _); (split; [done|]); intros (_ & _ & Hw & _); done. }
  destruct (proj2 (last_is_Some (first :: rest)) ltac:(done)) as [final Hfinal]. rewrite Hfinal. cbn [head].
  pose proof (entry_bound_iff platform first root rootReal _ _ Hroot HR) as Hfirst.
  pose proof (entry_bound_iff platform final target targetReal _ _ Htarget Hreal) as Hlast. split.
  - destruct (_ =? _)%Z; cbn [negb]; [|done].
    destruct (entry_bound (Some first) _ _ _); cbn [negb]; [|done].
    destruct (entry_bound (Some final) _ _ _); cbn [negb]; [|done].
    destruct (proj1 Hfirst eq_refl) as [Hfl Hfr]. destruct (proj1 Hlast eq_refl) as [Hll Hlr].
    intros Hb. apply (bind_walk _ _ _ _ _ _ Hrp' Hfl Hfr) in Hb. destruct Hb as (Hn & lway & rway & HL & HRw).
    pose proof (walk_end _ _ _ _ _ _ _ HL Hfinal) as He. pose proof (walk_end _ _ _ _ _ _ _ HRw Hfinal) as He'.
    cbn beta in He, He'. rewrite Hll in He. rewrite Hlr in He'. injection He as He. injection He' as ->.
    apply app_inv_head in He as <-. do 3 (split; [done|]). by exists rway.
  - intros (_ & Hn & HL & rway & -> & HRw).
    assert ((Z.of_nat (length (first :: rest)) =? Z.of_nat (S (length way)))%Z = true) as ->.
    { apply (f_equal length) in HL. unfold lexical_places, walk in HL. rewrite !length_map in HL. cbn [length] in HL |- *.
      rewrite length_steps in HL. by apply Z.eqb_eq; f_equal. }
    pose proof (walk_end _ _ _ _ _ _ _ HL Hfinal) as He. pose proof (walk_end _ _ _ _ _ _ _ HRw Hfinal) as He'.
    pose proof HL as [= Hfl _]. pose proof HRw as [= Hfr _]. rewrite (proj2 Hlast), (proj2 Hfirst) by done. cbn [negb].
    apply (bind_walk _ _ _ _ _ _ Hrp' Hfl Hfr). split; [done|]. by exists way, rway.
Qed.

(** ** What is attested *)

(** The evidence walks from the trusted root down to the requested target, without a link, the target being strictly
    below the root in the path given and on the disk. *)
Definition attested (input : SessionPathAccessInput) : Prop :=
  let platform := in_platform input in
  let evidence := in_evidence input in
  exists drive base way rway,
    place_of platform (in_root input) = Some (drive, base)
    /\ place_of platform (in_target input) = Some (drive, base ++ way) /\ way <> []
    /\ ev_platform evidence = platform
    /\ place_of platform (ev_trustedRootLexical evidence) = Some (drive, base)
    /\ place_of platform (ev_targetLexical evidence) = Some (drive, base ++ way)
    /\ place_of platform (ev_trustedRootRealpath evidence) = Some (drive, base)
    /\ place_of platform (ev_targetRealpath evidence) = Some (drive, base ++ rway)
    /\ no_links (ev_chain evidence)
    /\ lexical_places platform (ev_chain evidence) = walk drive base way
    /\ real_places platform (ev_chain evidence) = walk drive base rway.

(** One regular file of the owner with one name, opened and unchanged since. *)
Record untouched (evidence : SessionPathEvidence) (owner : string) : Prop := {
  file_regular : st_regular (ev_statBefore evidence) = true;
  file_single : st_nlink (ev_statBefore evidence) = 1%Z;
  file_owned : owner = st_owner (ev_statBefore evidence);
  file_device : ev_openedDev evidence = st_dev (ev_statBefore evidence);
  file_inode : ev_openedIno evidence = st_ino (ev_statBefore evidence);
  file_settled : ev_statAfter evidence = Some (ev_statBefore evidence);
}.

(** Nobody holds the lock, or a dead process of this host does. *)
Definition lock_permits (lock : SessionPathLockEvidence) : Prop :=
  lk_pidDefinitelyAbsent lock = true
  /\ ((lk_state lock = lock_absent /\ lk_holderPid lock = None)
      \/ (lk_state lock = lock_is_stale /\ lk_sameHost lock = true /\ is_Some (lk_holderPid lock))).

Lemma statEqual_iff (a b : SessionPathStat) : statEqual a b = true <-> a = b.
Proof.
  unfold statEqual. rewrite !andb_true_iff, !String.eqb_eq, !Z.eqb_eq, Bool.eqb_true_iff. split.
  - intros [[[[[[? ?] ?] ?] ?] ?] ?]. destruct a, b; cbn in *; congruence.
  - by intros ->.
Qed.

Lemma evaluateLock_iff (lock : SessionPathLockEvidence) : evaluateLock lock = None <-> lock_permits lock.
Proof.
  unfold evaluateLock, lock_permits.
  destruct lock as [[] [] [] [pid|]]; cbn; (split; [intros; try done|intros (? & [(? & ?)|(? & ? & ?)]); try done]);
    (split; [done|]; first [by left|by right; repeat split; eexists]).
Qed.

(** The checks on the file itself. *)
Lemma decide_inside_authorized (input : SessionPathAccessInput) (owner : string) (lock : SessionPathLockEvidence)
    (chainReason : option SessionPathReason) :
  pd_status (decide_inside input owner lock chainReason) = authorized <->
  chainReason = None /\ untouched (in_evidence input) owner /\ lock_permits lock.
Proof.
  rewrite <- evaluateLock_iff. unfold decide_inside. destruct chainReason; [by split; [|intros [? _]]|].
  destruct (st_regular _) eqn:Er; cbn [negb]; [|by split; [|intros (_ & [Hr _ _ _ _ _] & _); rewrite Er in Hr]].
  destruct (_ =? 1)%Z eqn:En; cbn [negb].
  2: { split; [done|]. intros (_ & [_ Hn _ _ _ _] & _). by rewrite Hn in En. }
  destruct (String.eqb_spec owner (st_owner (ev_statBefore (in_evidence input)))) as [Ho|Ho]; cbn [negb];
    [|by split; [|intros (_ & [_ _ ? _ _ _] & _)]].
  destruct (String.eqb_spec (ev_openedDev (in_evidence input)) (st_dev (ev_statBefore (in_evidence input)))) as [Hd|Hd]; cbn [negb orb];
    [|by split; [|intros (_ & [_ _ _ ? _ _] & _)]].
  destruct (String.eqb_spec (ev_openedIno (in_evidence input)) (st_ino (ev_statBefore (in_evidence input)))) as [Hi|Hi]; cbn [negb];
    [|by split; [|intros (_ & [_ _ _ _ ? _] & _)]].
  destruct (ev_statAfter (in_evidence input)) as [after|] eqn:Ea; cbn [negb];
    [|by split; [|intros (_ & [_ _ _ _ _ Hs] & _); rewrite Ea in Hs]].
  destruct (statEqual _ after) eqn:Es; cbn [negb].
  2: { split; [done|]. intros (_ & [_ _ _ _ _ Hs] & _). rewrite Ea in Hs. injection Hs as Hs.
       by rewrite Hs, (proj2 (statEqual_iff _ _) eq_refl) in Es. }
  apply statEqual_iff in Es as <-. apply Z.eqb_eq in En.
  destruct (evaluateLock lock); [by split; [|intros (_ & _ & ?)]|].
  split; [intros _; split; [done|]; by split|]. by destruct (in_intent input).
Qed.

Lemma classify_none (platform : SessionPathPlatform) (root target : string) :
  canonical_place platform target = None -> classifyTarget root target platform = class_external.
Proof.
  unfold canonical_place, classifyTarget. destruct (parseCanonical root platform); [|done].
  by destruct (parseCanonical target platform).
Qed.

Lemma authorized_attested (input : SessionPathAccessInput) :
  pd_status (decide_access input) = authorized ->
  in_intent input <> inspect_metadata /\ attested input
  /\ (exists owner lock, in_identity input = Some owner /\ in_lock input = Some lock
                         /\ untouched (in_evidence input) owner /\ lock_permits lock).
Proof.
  unfold attested, decide_access. set (platform := in_platform input). set (evidence := in_evidence input).
  destruct (canonicalizeSessionPath (in_root input) platform) as [rc|] eqn:Crc; [|done].
  destruct (canonicalizeSessionPath (in_target input) platform) as [tc|] eqn:Ctc; [|done].
  destruct (bool_decide _) eqn:Ep; cbn [negb]; [|done]. apply bool_decide_eq_true in Ep.
  destruct (canonicalizeSessionPath (ev_trustedRootRealpath evidence) platform) as [rr|] eqn:Crr; [|done].
  destruct (canonicalizeSessionPath (ev_targetRealpath evidence) platform) as [tr|] eqn:Ctr; [|done].
  destruct (canonicalPathEqual _ (Some rc) platform) eqn:El; cbn [negb orb]; [|done].
  destruct (canonicalPathEqual _ (Some tc) platform) eqn:Et; cbn [negb]; [|done].
  apply canonicalPathEqual_iff in El as ([d base] & El & Hrc). apply canonicalPathEqual_iff in Et as (t & Et & Htc).
  cbn [mbind option_bind] in Hrc, Htc.
  pose proof (classify_inside_iff platform rc tc d base Hrc) as Hin.
  destruct (classifyTarget rc tc platform); try by destruct (in_intent input).
  destruct (proj1 Hin eq_refl) as (way & Hway & Htw).
  destruct (classifyTarget rr tr platform) eqn:Ecr; try by destruct (in_intent input).
  destruct (in_identity input) as [owner|]; [|by destruct (in_intent input)].
  destruct (in_lock input) as [lock|]; [|by destruct (in_intent input)].
  intros Hauth. assert (in_intent input <> inspect_metadata) as Hint by (by intros Hi; rewrite Hi in Hauth).
  split; [done|].
  assert (pd_status (decide_inside input owner lock (bindChain evidence rc rr tc tr platform)) = authorized) as Hd
    by (by destruct (in_intent input)).
  apply decide_inside_authorized in Hd as (Hb & Hu & Hl).
  destruct (canonical_place platform tr) as [q|] eqn:Htr.
  2: by rewrite (classify_none _ _ _ Htr) in Ecr.
  apply (bindChain_iff _ _ _ _ _ _ _ _ _ _ Hrc Htw Htr) in Hb as (Hrr & Hn & HL & rway & -> & HR).
  split; [|by exists owner, lock]. exists d, base, way, rway.
  rewrite (place_of_Some _ _ _ Crc), (place_of_Some _ _ _ Ctc), (place_of_Some _ _ _ Crr), (place_of_Some _ _ _ Ctr).
  rewrite Htw in Htc. injection Htc as <-. done.
Qed.

Lemma attested_authorized (input : SessionPathAccessInput) :
  in_intent input <> inspect_metadata /\ attested input
  /\ (exists owner lock, in_identity input = Some owner /\ in_lock input = Some lock
                         /\ untouched (in_evidence input) owner /\ lock_permits lock)
  -> pd_status (decide_access input) = authorized.
Proof.
  unfold attested, decide_access. set (platform := in_platform input). set (evidence := in_evidence input).
  intros (Hint & (d & base & way & rway & Hr & Ht & Hway & Hp & Hr' & Ht' & Hrr & Htr & Hn & HL & HR) & owner & lock & Ho & Hl & Hu & Hp').
  unfold place_of in Hr, Ht, Hrr, Htr.
  apply bind_Some in Hr as (rc & -> & Hrc). apply bind_Some in Ht as (tc & -> & Htc).
  apply bind_Some in Hrr as (rr & -> & Hrrc). apply bind_Some in Htr as (tr & -> & Htrc).
  rewrite bool_decide_eq_true_2 by done. cbn [negb].
  rewrite (proj2 (canonicalPathEqual_iff platform _ (Some rc))) by (by exists (d, base)).
  rewrite (proj2 (canonicalPathEqual_iff platform _ (Some tc))) by (by exists (d, base ++ way)). cbn [negb orb].
  rewrite (proj2 (classify_inside_iff platform rc tc d base Hrc)) by (by exists way).
  rewrite (proj2 (classify_inside_iff platform rr tr d base Hrrc)).
  2: { exists rway. split; [|done]. intros ->. apply (f_equal length) in HL, HR. unfold lexical_places, real_places, walk in *.
       rewrite !length_map in *. cbn [length] in *. rewrite length_steps in *. by destruct way; cbn in *; congruence. }
  rewrite Ho, Hl.
  assert (pd_status (decide_inside input owner lock (bindChain evidence rc rr tc tr platform)) = authorized) as Hd.
  { apply decide_inside_authorized. split; [|done]. apply (bindChain_iff _ _ _ _ _ _ _ _ _ _ Hrc Htc Htrc).
    do 3 (split; [done|]). by exists rway. }
  by destruct (in_intent input).
Qed.

(** C27: Access to a session file is authorised exactly when its contents are asked for (to read or to repair),
    the evidence walks link-free from the trusted root down to the target, strictly below the root both as written
    and as resolved, the file is one regular file of the caller's owner that was opened and did not change
    between the two looks at it, and its lock is free or held by a dead process of this host. *)
Theorem authorized_iff (input : SessionPathAccessInput) :
  pd_status (decide_access input) = authorized <->
  in_intent input <> inspect_metadata /\ attested input
  /\ exists owner lock, in_identity input = Some owner /\ in_lock input = Some lock
                        /\ untouched (in_evidence input) owner /\ lock_permits lock.
Proof. split; [apply authorized_attested|apply attested_authorized]. Qed.

(** ** What a decision permits *)

Definition with_intent (intent : SessionPathIntent) (input : SessionPathAccessInput) : SessionPathAccessInput :=
  {| in_platform := in_platform input; in_root := in_root input; in_target := in_target input; in_intent := intent;
     in_identity := in_identity input; in_evidence := in_evidence input; in_lock := in_lock input |}.

(** What a decision says of a dry run, from what it says of the repair. *)
Definition as_dry_run (decision : SessionPathDecision) : SessionPathDecision :=
  {| pd_platform := pd_platform decision; pd_intent := repair_dry_run; pd_status := pd_status decision;
     pd_reason := pd_reason decision; pd_dryRun := true; pd_classification := pd_classification decision;
     pd_targetLexical := pd_targetLexical decision; pd_targetRealpath := pd_targetRealpath decision;
     pd_trustedRootLexical := pd_trustedRootLexical decision; pd_trustedRootRealpath := pd_trustedRootRealpath decision;
     pd_canInspectMetadata := pd_canInspectMetadata decision; pd_canReadContents := pd_canReadContents decision;
     pd_canRepair := false; pd_plannedActions := pd_plannedActions decision; pd_scheduledWrites := 0 |}.

(** A dry run decides what the repair would decide, on every branch: same status, reason, classification and
    planned actions; it only may not repair and schedules no write. *)
Theorem dry_run_predicts_repair (input : SessionPathAccessInput) :
  decide_access (with_intent repair_dry_run input) = as_dry_run (decide_access (with_intent repair input)).
Proof.
  unfold decide_access, decide_inside. destruct input as [platform root target intent identity evidence lock].
  cbn [with_intent in_platform in_root in_target in_intent in_identity in_evidence in_lock].
  repeat (case_match; try reflexivity).
Qed.

Definition powerless (decision : SessionPathDecision) : Prop :=
  pd_status decision <> authorized /\ pd_canReadContents decision = false /\ pd_canRepair decision = false
  /\ pd_scheduledWrites decision = 0.

(** Every branch of the decision but the last is powerless. *)
Lemma decision_shape (input : SessionPathAccessInput) :
  powerless (decide_access input) \/
  exists lock, in_lock input = Some lock /\ evaluateLock lock = None /\ in_intent input <> inspect_metadata
    /\ decide_access input
       = match in_intent input with
         | inspect_content => authorize input true false [] 0
         | intent =>
             let isDryRun := bool_decide (intent = repair_dry_run) in
             authorize input false (negb isDryRun) (plannedActionsForLock lock)
               (if isDryRun then 0 else length (plannedActionsForLock lock))
         end.
Proof.
  unfold decide_access, decide_inside. destruct input as [platform root target intent identity evidence lock].
  cbn [in_platform in_root in_target in_intent in_identity in_evidence in_lock].
  repeat (case_match; try (by left; repeat split)); right; subst; by eexists.
Qed.

(** A decision that is not authorised permits neither reading nor repairing and plans nothing; an authorised
    one permits exactly what was asked for, and the only write it can schedule is the removal of the stale lock of a
    dead process. *)
Theorem permits_what_is_asked (input : SessionPathAccessInput) :
  let decision := decide_access input in
  (pd_canReadContents decision = true <-> pd_status decision = authorized /\ in_intent input = inspect_content)
  /\ (pd_canRepair decision = true <-> pd_status decision = authorized /\ in_intent input = repair)
  /\ (pd_scheduledWrites decision <> 0 ->
      pd_status decision = authorized /\ in_intent input = repair
      /\ exists lock pid, in_lock input = Some lock /\ lk_state lock = lock_is_stale /\ lk_holderPid lock = Some pid
                         /\ lk_pidDefinitelyAbsent lock = true /\ pd_plannedActions decision = [Some pid]).
Proof.
  cbn zeta. destruct (decision_shape input) as [(Hs & -> & -> & ->)|(lock & Hl & He & Hi & ->)].
  - repeat split; try done; by intros [? _].
  - apply evaluateLock_iff in He as (Ha & Hk). unfold plannedActionsForLock.
    assert (length (match lk_state lock, lk_holderPid lock with lock_is_stale, Some pid => [Some pid] | _, _ => [] end) <> 0 ->
            exists pid, lk_state lock = lock_is_stale /\ lk_holderPid lock = Some pid) as Hplan.
    { destruct Hk as [[-> _]|(-> & _ & [pid ->])]; [done|]. by exists pid. }
    destruct (in_intent input); try done; cbn; (split; [by (split; [|intros [_ ?]])|]);
      (split; [by (split; [|intros [_ ?]])|]); try done.
    intros (pid & Hs & Hp)%Hplan. do 2 (split; [done|]). exists lock, pid. by rewrite Hs, Hp.
Qed.

(** ** Examples *)

Definition sample_stat (mtime : Z) : SessionPathStat :=
  {| st_dev := "66"; st_ino := "4021"; st_nlink := 1; st_size := 812; st_mtime := mtime; st_regular := true; st_owner := "1000" |}.

Definition sample_entry (path : string) : SessionPathChainEntry :=
  {| ch_lexical := path; ch_realpath := path; ch_linkKind := link_none |}.

Definition sample_access (intent : SessionPathIntent) (target : string) (after : Z) : SessionPathAccessInput :=
  {| in_platform := posix; in_root := "/home/u/sessions"; in_target := target; in_intent := intent;
     in_identity := Some "1000";
     in_evidence :=
       {| ev_platform := posix; ev_trustedRootLexical := "/home/u/sessions"; ev_trustedRootRealpath := "/home/u/sessions";
          ev_targetLexical := target; ev_targetRealpath := target;
          ev_chain := map sample_entry ["/home/u/sessions"; "/home/u/sessions/p"; "/home/u/sessions/p/s.jsonl"];
          ev_statBefore := sample_stat 17; ev_statAfter := Some (sample_stat after); ev_openedDev := "66";
          ev_openedIno := "4021" |};
     in_lock := Some {| lk_state := lock_is_stale; lk_sameHost := true; lk_pidDefinitelyAbsent := true;
                        lk_holderPid := Some "77" |} |}.

Example access_examples :
  map (fun input => (pd_status (decide_access input), pd_reason (decide_access input), pd_scheduledWrites (decide_access input)))
    [sample_access repair "/home/u/sessions/p/s.jsonl" 17; sample_access repair_dry_run "/home/u/sessions/p/../p/s.jsonl" 17;
     sample_access repair "/home/u/sessions/p/s.jsonl" 18; sample_access inspect_content "/home/u/other/s.jsonl" 17;
     sample_access inspect_metadata "/home/u/other/s.jsonl" 17; sample_access repair "/home/../../u" 17]
  = [(authorized, reason_authorized, 1); (authorized, reason_authorized, 0); (blocked, stat_after_mismatch, 0);
     (rejected, target_external, 0); (metadata_only, reason_metadata_only, 0); (rejected, lexical_invalid, 0)].
Proof. vm_compute. reflexivity. Qed.
