(* ===== verification/SessionDoctor.v ===== *)
(** * The session doctor
    (packages/coding-agent/src/core/session-doctor-plan.ts)

    One plan for a damaged session: the repair of its transcript, the recovery
    of its run journal, the removal of stale locks and the abandoning of a stale
    compaction, each derived by the component that owns it and gated by the path
    policy. The plan writes nothing; an error is the message thrown. The report
    and the compaction input have the types of their components; the hash
    function of the journal is an argument, and a journal with a character
    beyond the model's has no plan ([None]). *)

From Stdlib Require Import Ascii String ZArith QArith Lia.
From stdpp Require Import base list option strings.
From S2P Require Import Prelude JsString JsValue Json JsNumber CanonicalJson Utf8 SessionTermination JournalChecks TranscriptIntegrity.
From S2P Require Import RunJournal JournalInspector SessionReport CompactionTransaction SessionRepair SessionPath.

Open Scope nat_scope.
Open Scope string_scope.
Open Scope list_scope.

Module Doctor.

Definition MAX_IDENTIFIER_LENGTH : nat := 128.
Definition MAX_NORMALIZED_CHECKS : nat := 128.
Definition MAX_FINDING_IDS : nat := 64.
Definition MAX_PLAIN_DATA_DEPTH : nat := 64.
Definition MAX_PLAIN_DATA_NODES : Z := 200000.

(** ** Data *)

Inductive SessionDoctorMode : Type := mode_inspect | mode_repair_dry_run | mode_repair.
Inductive SessionDoctorStatus : Type := healthy | has_issues | refused.
Inductive SessionDoctorArtifact : Type := art_session | art_journal | art_path | art_compaction | art_normalized.
Inductive SessionDoctorFindingSeverity : Type := advisory | blocking.

Inductive SessionDoctorFindingReason : Type :=
| session_trailing_fragment | session_missing_tool_result | session_blocked | session_inspection_incomplete
| journal_trailing_fragment | journal_unclosed | journal_blocked | session_path_unauthorized | journal_path_unauthorized
| compaction_stale | compaction_deferred | compaction_failed | compaction_committed | compaction_duplicate
| normalized_check_unhealthy | contract_violation.

#[export] Instance mode_eq_dec : EqDecision SessionDoctorMode.
Proof. solve_decision. Defined.
#[export] Instance severity_eq_dec : EqDecision SessionDoctorFindingSeverity.
Proof. solve_decision. Defined.

Record SessionDoctorFinding : Type := {
  df_artifact : SessionDoctorArtifact;
  df_reason : SessionDoctorFindingReason;
  df_severity : SessionDoctorFindingSeverity;
  df_code : option string;
  df_ids : option (list string);
}.

Inductive SessionDoctorActionArtifact : Type := on_session | on_journal.

#[export] Instance action_artifact_eq_dec : EqDecision SessionDoctorActionArtifact.
Proof. solve_decision. Defined.

Record StaleLockActionSpec : Type := {
  sl_artifact : SessionDoctorActionArtifact;
  sl_platform : PathPolicy.SessionPathPlatform;
  sl_targetLexical : string;
  sl_targetRealpath : string;
  sl_holderPid : option string;
  sl_artifacts : list SessionDoctorActionArtifact;
}.

Inductive StaleReason : Type := revision_mismatch | source_mismatch.

Inductive SessionDoctorActionSpec : Type :=
| quarantine_session_trailing_fragment (retainPrefix : SessionByteDigest) (retainLines : Z) (fragment : SessionByteDigest)
| append_synthetic_tool_result (toolCallId toolName : string) (repairSequence : nat) (message : ToolResultMessage)
| quarantine_journal_trailing_fragment (prefixBytes prefixLines : nat) (lastCompleteHash : string)
| recover_run (runId : string) (terminalRecord : json) (prefixBytes prefixLines : nat) (lastCompleteHash : string)
| remove_stale_lock (spec : StaleLockActionSpec)
| abandon_stale_compaction (transactionId : string) (baseRevision : json) (sourceSha256 : string) (staleReason : StaleReason).

Record SessionDoctorPlan : Type := {
  dp_mode : SessionDoctorMode;
  dp_sessionId : string;
  dp_repairId : string;
  dp_status : SessionDoctorStatus;
  dp_exitCode : nat;
  dp_repairable : bool;
  dp_requiresReinspection : bool;
  dp_scheduledWrites : nat;
  dp_findings : list SessionDoctorFinding;
  (** Each with its sequence number. *)
  dp_actions : list (nat * SessionDoctorActionSpec);
}.

Record SessionDoctorNormalizedCheck : Type := {
  nc_artifact : string;
  nc_id : string;
  nc_status : string;
}.

Record SessionDoctorJournalObservation : Type := {
  jo_bytes : string;
  jo_terminalRecord : option json;
}.

(** The input as it comes: its keys, the fields the planner checks itself, and
    those that have the types of other components. *)
Record SessionDoctorPlanInput : Type := {
  di_keys : list string;
  di_schemaVersion : jsval;
  di_mode : jsval;
  di_sessionId : jsval;
  di_repairId : jsval;
  di_timestamp : jsval;
  di_report : SessionIntegrityReport;
  di_journal : option SessionDoctorJournalObservation;
  di_paths : jsval;
  di_compaction : option DecideCompactionCommitInput;
  di_normalizedChecks : jsval;
}.

(** ** Guards *)

(** Walk a tree from the top of a stack: the node, its label and its depth. *)
Fixpoint walk_tree {A} (children : A -> list (string * A)) (root : string) (budget : nat) (stack : list (A * string * nat))
    : result string unit :=
  match stack with
  | [] => Ok tt
  | (current, currentLabel, depth) :: rest =>
      match budget with
      | O => Err (root ++ ": plain-data tree exceeds the maximum node budget")%string
      | S budget =>
          if (MAX_PLAIN_DATA_DEPTH <? depth)%nat then Err (currentLabel ++ ": plain-data tree exceeds the maximum depth")%string
          else
            walk_tree children root budget
              (rev (map (fun child => (snd child, (currentLabel ++ fst child)%string, S depth)) (children current)) ++ rest)
      end
  end.

Definition indexed {A} (items : list A) : list (string * A) :=
  imap (fun index item => (("[" ++ nat_str index ++ "]")%string, item)) items.

Definition keyed {A} (fields : list (string * A)) : list (string * A) :=
  map (fun field => (("." ++ fst field)%string, snd field)) fields.

Definition value_children (value : jsval) : list (string * jsval) :=
  match value with
  | JArray items => indexed items
  | JObject fields => keyed fields
  | _ => []
  end.

Definition json_children (value : json) : list (string * json) :=
  match value with
  | JsArr items => indexed items
  | JsObj fields => keyed fields
  | _ => []
  end.

Definition assertPlainDataTree {A} (children : A -> list (string * A)) (value : A) (label : string) : result string unit :=
  walk_tree children label (Z.to_nat MAX_PLAIN_DATA_NODES) [(value, label, 0)].

Definition assertPlainData (value : jsval) (label : string) : result string unit :=
  check (is_record value) (label ++ " must be a plain data object without accessors or a foreign prototype").

Definition is_object_json (value : json) : bool :=
  match value with
  | JsObj _ => true
  | _ => false
  end.

Definition assertIdentifier (value : jsval) (label : string) : result string string :=
  match value with
  | JString s =>
      if is_empty s || (MAX_IDENTIFIER_LENGTH <? String.length s)%nat
      then Err (label ++ " must be 1-" ++ nat_str MAX_IDENTIFIER_LENGTH ++ " characters of bounded text")%string
      else if sexists is_control s then Err (label ++ " must not contain C0 or DEL control characters")%string
      else if looksLikeCredential s then Err (label ++ " must not contain a credential-shaped literal")%string
      else Ok s
  | _ => Err (label ++ " must be 1-" ++ nat_str MAX_IDENTIFIER_LENGTH ++ " characters of bounded text")%string
  end.

Definition assertSafeNonNegativeInt (value : jsval) (label : string) : result string Z :=
  match value with
  | JNumber n =>
      match jsnum_safe n with
      | Some z => if (z <? 0)%Z then Err (label ++ " must be a non-negative safe integer")%string else Ok z
      | None => Err (label ++ " must be a non-negative safe integer")%string
      end
  | _ => Err (label ++ " must be a non-negative safe integer")%string
  end.

Definition assertOnlyKeys (keys allowed : list string) (label : string) : result string unit :=
  match List.find (fun key => negb (one_of_strings allowed key)) keys with
  | Some key => Err (label ++ " contains an unsupported field: " ++ key)%string
  | None => Ok tt
  end.

(** ** Validation of the input *)

Definition INPUT_ALLOWED_KEYS : list string :=
  ["schemaVersion"; "mode"; "sessionId"; "repairId"; "timestamp"; "report"; "journal"; "paths"; "compaction"; "normalizedChecks"].
Definition PATHS_KEYS : list string := ["session"; "journal"].
Definition PATH_INPUT_KEYS : list string := ["platform"; "root"; "target"; "identity"; "evidence"; "lock"].
Definition NORMALIZED_KEYS : list string := ["artifact"; "id"; "status"].
Definition NORMALIZED_ARTIFACTS : list string := ["compaction_envelope"; "evidence_link"; "workspace"; "provider_model"].
Definition NORMALIZED_STATUSES : list string := ["ok"; "missing"; "invalid"; "unavailable"].

Definition mode_of (value : jsval) : option SessionDoctorMode :=
  if is_str value "inspect" then Some mode_inspect
  else if is_str value "repair_dry_run" then Some mode_repair_dry_run
  else if is_str value "repair" then Some mode_repair
  else None.

(** A string of a list. *)
Definition member_of (values : list string) (value : jsval) (message : string) : result string string :=
  match value with
  | JString s => if one_of_strings values s then Ok s else Err message
  | _ => Err message
  end.

Definition check_label (index : nat) : string := ("normalizedChecks[" ++ nat_str index ++ "]")%string.

Fixpoint validate_checks (index : nat) (entries : list jsval) : result string (list SessionDoctorNormalizedCheck) :=
  match entries with
  | [] => Ok []
  | entry :: rest =>
      _ <-? assertPlainData entry (check_label index) ;;
      _ <-? assertOnlyKeys (PathPolicy.own_keys entry) NORMALIZED_KEYS (check_label index) ;;
      artifact <-? member_of NORMALIZED_ARTIFACTS (get_prop "artifact" entry) (check_label index ++ ".artifact is out of bounds") ;;
      id <-? assertIdentifier (get_prop "id" entry) (check_label index ++ ".id") ;;
      status <-? member_of NORMALIZED_STATUSES (get_prop "status" entry) (check_label index ++ ".status is out of bounds") ;;
      checks <-? validate_checks (S index) rest ;;
      Ok ({| nc_artifact := artifact; nc_id := id; nc_status := status |} :: checks)
  end.

Definition validateNormalizedChecks (value : jsval) : result string (list SessionDoctorNormalizedCheck) :=
  match value with
  | JArray entries =>
      if (MAX_NORMALIZED_CHECKS <? length entries)%nat
      then Err ("normalizedChecks must contain at most " ++ nat_str MAX_NORMALIZED_CHECKS ++ " entries")%string
      else validate_checks 0 entries
  | _ => Err "normalizedChecks must be an array"
  end.

Definition validatePathSubject (value : jsval) (label : string) : result string jsval :=
  _ <-? assertPlainData value label ;;
  _ <-? assertOnlyKeys (PathPolicy.own_keys value) PATH_INPUT_KEYS label ;;
  _ <-? check (is_str (get_prop "platform" value) "posix" || is_str (get_prop "platform" value) "win32")
          (label ++ ".platform must be posix|win32") ;;
  _ <-? PathPolicy.assertString (get_prop "root" value) (label ++ ".root") ;;
  _ <-? PathPolicy.assertString (get_prop "target" value) (label ++ ".target") ;;
  _ <-? check (PathPolicy.hasOwn "evidence" value) (label ++ ".evidence is required") ;;
  Ok value.

Record ValidatedInput : Type := {
  vi_mode : SessionDoctorMode;
  vi_sessionId : string;
  vi_repairId : string;
  vi_timestamp : Z;
  vi_report : SessionIntegrityReport;
  vi_journal : option SessionDoctorJournalObservation;
  vi_sessionPath : option jsval;
  vi_journalPath : option jsval;
  vi_compaction : option DecideCompactionCommitInput;
  vi_normalizedChecks : list SessionDoctorNormalizedCheck;
}.

(** An optional field, absent or [undefined]. *)
Definition given {A} (value : jsval) (f : jsval -> result string A) : result string (option A) :=
  match value with
  | JUndefined => Ok None
  | _ => a <-? f value ;; Ok (Some a)
  end.

Definition validate_paths (paths : jsval) : result string (option jsval * option jsval) :=
  _ <-? assertPlainData paths "paths" ;;
  _ <-? assertOnlyKeys (PathPolicy.own_keys paths) PATHS_KEYS "paths" ;;
  session <-? given (get_prop "session" paths) (fun value => validatePathSubject value "paths.session") ;;
  journal <-? given (get_prop "journal" paths) (fun value => validatePathSubject value "paths.journal") ;;
  Ok (session, journal).

Definition validateInput (input : SessionDoctorPlanInput) : result string ValidatedInput :=
  _ <-? assertOnlyKeys (di_keys input) INPUT_ALLOWED_KEYS "input" ;;
  _ <-? check (is_undefined (di_schemaVersion input)
               || match di_schemaVersion input with
                  | JNumber n => bool_decide (jsnum_safe n = Some 1%Z)
                  | _ => false
                  end) "unsupported session doctor plan schema version" ;;
  mode <-? PathPolicy.required (mode_of (di_mode input)) "mode must be inspect|repair_dry_run|repair" ;;
  sessionId <-? assertIdentifier (di_sessionId input) "sessionId" ;;
  repairId <-? assertIdentifier (di_repairId input) "repairId" ;;
  timestamp <-? assertSafeNonNegativeInt (di_timestamp input) "timestamp" ;;
  _ <-? match di_journal input with
        | Some observation =>
            match jo_terminalRecord observation with
            | Some record =>
                _ <-? check (is_object_json record)
                        ("journal.terminalRecord" ++ " must be a plain data object without accessors or a foreign prototype") ;;
                assertPlainDataTree json_children record "journal.terminalRecord"
            | None => Ok tt
            end
        | None => Ok tt
        end ;;
  paths <-? given (di_paths input) validate_paths ;;
  checks <-? given (di_normalizedChecks input) validateNormalizedChecks ;;
  Ok {| vi_mode := mode; vi_sessionId := sessionId; vi_repairId := repairId; vi_timestamp := timestamp;
        vi_report := di_report input; vi_journal := di_journal input; vi_sessionPath := paths ≫= fst;
        vi_journalPath := paths ≫= snd; vi_compaction := di_compaction input;
        vi_normalizedChecks := default [] checks |}.

Definition option_list {A} (o : option A) : list A :=
  match o with
  | Some a => [a]
  | None => []
  end.

(** ** Findings *)

Definition intentForMode (mode : SessionDoctorMode) : PathPolicy.SessionPathIntent :=
  match mode with
  | mode_inspect => PathPolicy.inspect_content
  | mode_repair_dry_run => PathPolicy.repair_dry_run
  | mode_repair => PathPolicy.repair
  end.

Fixpoint assert_ids (ids : list string) : result string unit :=
  match ids with
  | [] => Ok tt
  | id :: rest => _ <-? assertIdentifier (JString id) "finding id" ;; assert_ids rest
  end.

Definition finding (artifact : SessionDoctorArtifact) (reason : SessionDoctorFindingReason)
    (severity : SessionDoctorFindingSeverity) (code : option string) (ids : option (list string))
    : result string SessionDoctorFinding :=
  code <-? match code with
           | Some c =>
               if is_empty c then Ok None
               else if (MAX_IDENTIFIER_LENGTH <? String.length c)%nat then Err "finding code exceeds the bounded length"
               else Ok (Some c)
           | None => Ok None
           end ;;
  ids <-? match ids with
          | Some (id :: rest) =>
              if (MAX_FINDING_IDS <? length (id :: rest))%nat
              then Err ("finding ids exceed the bounded limit of " ++ nat_str MAX_FINDING_IDS ++ "; failing closed")%string
              else _ <-? assert_ids (id :: rest) ;; Ok (Some (id :: rest))
          | _ => Ok None
          end ;;
  Ok {| df_artifact := artifact; df_reason := reason; df_severity := severity; df_code := code; df_ids := ids |}.

Record Accumulators : Type := {
  ac_findings : list SessionDoctorFinding;
  ac_sessionSpecs : list SessionDoctorActionSpec;
  ac_journalSpecs : list SessionDoctorActionSpec;
  ac_pathSpecs : list StaleLockActionSpec;
  ac_compactionSpecs : list SessionDoctorActionSpec;
  ac_refused : bool;
}.

Definition observe (artifact : SessionDoctorArtifact) (reason : SessionDoctorFindingReason)
    (severity : SessionDoctorFindingSeverity) (code : option string) (ids : option (list string)) (acc : Accumulators)
    : result string Accumulators :=
  f <-? finding artifact reason severity code ids ;;
  Ok {| ac_findings := ac_findings acc ++ [f]; ac_sessionSpecs := ac_sessionSpecs acc; ac_journalSpecs := ac_journalSpecs acc;
        ac_pathSpecs := ac_pathSpecs acc; ac_compactionSpecs := ac_compactionSpecs acc; ac_refused := ac_refused acc |}.

Definition refuse (acc : Accumulators) : Accumulators :=
  {| ac_findings := ac_findings acc; ac_sessionSpecs := ac_sessionSpecs acc; ac_journalSpecs := ac_journalSpecs acc;
     ac_pathSpecs := ac_pathSpecs acc; ac_compactionSpecs := ac_compactionSpecs acc; ac_refused := true |}.

(** A finding that refuses the plan. *)
Definition violate (artifact : SessionDoctorArtifact) (reason : SessionDoctorFindingReason) (code : string) (acc : Accumulators)
    : result string Accumulators :=
  acc <-? observe artifact reason blocking (Some code) None acc ;; Ok (refuse acc).

Definition add_session (specs : list SessionDoctorActionSpec) (acc : Accumulators) : Accumulators :=
  {| ac_findings := ac_findings acc; ac_sessionSpecs := ac_sessionSpecs acc ++ specs; ac_journalSpecs := ac_journalSpecs acc;
     ac_pathSpecs := ac_pathSpecs acc; ac_compactionSpecs := ac_compactionSpecs acc; ac_refused := ac_refused acc |}.

Definition add_journal (spec : SessionDoctorActionSpec) (acc : Accumulators) : Accumulators :=
  {| ac_findings := ac_findings acc; ac_sessionSpecs := ac_sessionSpecs acc; ac_journalSpecs := ac_journalSpecs acc ++ [spec];
     ac_pathSpecs := ac_pathSpecs acc; ac_compactionSpecs := ac_compactionSpecs acc; ac_refused := ac_refused acc |}.

Definition add_path (spec : StaleLockActionSpec) (acc : Accumulators) : Accumulators :=
  {| ac_findings := ac_findings acc; ac_sessionSpecs := ac_sessionSpecs acc; ac_journalSpecs := ac_journalSpecs acc;
     ac_pathSpecs := ac_pathSpecs acc ++ [spec]; ac_compactionSpecs := ac_compactionSpecs acc; ac_refused := ac_refused acc |}.

Definition add_compaction (spec : SessionDoctorActionSpec) (acc : Accumulators) : Accumulators :=
  {| ac_findings := ac_findings acc; ac_sessionSpecs := ac_sessionSpecs acc; ac_journalSpecs := ac_journalSpecs acc;
     ac_pathSpecs := ac_pathSpecs acc; ac_compactionSpecs := ac_compactionSpecs acc ++ [spec]; ac_refused := ac_refused acc |}.

(** ** The session *)

Definition message_value (m : ToolResultMessage) : jsval :=
  JObject [("role", JString "toolResult"); ("toolCallId", JString (toolCallId m)); ("toolName", JString (toolName m));
           ("content", tr_content m); ("details", details m); ("isError", JBool (isError m)); ("timestamp", JNumber (timestamp m))].

Definition quarantine_specs (actions : list Repair.SessionRepairAction) : list SessionDoctorActionSpec :=
  omap (fun action => match action with
                      | Repair.quarantine_trailing_fragment fragment retainPrefix retainLines =>
                          Some (quarantine_session_trailing_fragment retainPrefix retainLines fragment)
                      | _ => None
                      end) actions.

(** The synthetic results, each checked to be plain data, in the order of the repair. *)
Fixpoint append_specs (actions : list Repair.SessionRepairAction) : result string (list (nat * SessionDoctorActionSpec)) :=
  match actions with
  | [] => Ok []
  | Repair.append_synthetic_tool_result sequence id name message :: rest =>
      _ <-? assertPlainDataTree value_children (message_value message) "session synthetic tool result message" ;;
      specs <-? append_specs rest ;;
      Ok ((sequence, append_synthetic_tool_result id name sequence message) :: specs)
  | _ :: rest => append_specs rest
  end.

Definition by_sequence (a b : nat * SessionDoctorActionSpec) : comparison := Nat.compare (fst a) (fst b).

Definition missing_ids (actions : list Repair.SessionRepairAction) : list string :=
  omap (fun action => match action with
                      | Repair.append_synthetic_tool_result _ id _ _ => Some id
                      | _ => None
                      end) actions.

Definition derive_repairable (actions : list Repair.SessionRepairAction) (acc : Accumulators) : result string Accumulators :=
  appends <-? append_specs actions ;;
  let quarantines := quarantine_specs actions in
  let acc := add_session (quarantines ++ map snd (stable_sort by_sequence appends)) acc in
  acc <-? (if (0 <? length quarantines)%nat then observe art_session session_trailing_fragment blocking None None acc else Ok acc) ;;
  if (0 <? length (missing_ids actions))%nat
  then observe art_session session_missing_tool_result blocking None (Some (missing_ids actions)) acc
  else Ok acc.

Definition derive_blocker (blocker : Repair.SessionRepairBlocker) (acc : Accumulators) : result string Accumulators :=
  match Repair.bk_reason blocker with
  | Repair.inconsistent_report => violate art_session contract_violation "inconsistent_report" acc
  | Repair.inspection_incomplete => observe art_session session_inspection_incomplete blocking None None acc
  | Repair.ambiguous_transcript => observe art_session session_blocked blocking (Some "ambiguous_transcript") None acc
  | Repair.integrity_finding =>
      observe art_session session_blocked blocking (reason_str <$> Repair.bk_findingReason blocker)
        (Some (option_list (Repair.bk_entryId blocker) ++ option_list (Repair.bk_toolCallId blocker))) acc
  end.

Fixpoint derive_blockers (blockers : list Repair.SessionRepairBlocker) (acc : Accumulators) : result string Accumulators :=
  match blockers with
  | [] => Ok acc
  | blocker :: rest => acc <-? derive_blocker blocker acc ;; derive_blockers rest acc
  end.

Definition repair_options (input : ValidatedInput) : Repair.CreateSessionRepairPlanOptions :=
  {| Repair.op_repairId := vi_repairId input; Repair.op_reason := Repair.doctor_repair;
     Repair.op_timestamp := NumFin (inject_Z (vi_timestamp input)) |}.

Definition deriveSession (input : ValidatedInput) (acc : Accumulators) : result string Accumulators :=
  let report := vi_report input in
  acc <-? match sr_headerId report with
          | Some id =>
              if String.eqb id (vi_sessionId input) then Ok acc
              else violate art_session contract_violation "session_identity_mismatch" acc
          | None => Ok acc
          end ;;
  plan <-? Repair.createSessionRepairPlan report (repair_options input) ;;
  match Repair.pl_status plan with
  | Repair.repairable => derive_repairable (Repair.pl_actions plan) acc
  | Repair.blocked => derive_blockers (Repair.pl_blockers plan) acc
  | Repair.not_needed => Ok acc
  end.

(** ** The journal *)

Definition finding_code_str (code : RunJournalFindingCode) : string :=
  match code with
  | trailing_fragment => "trailing_fragment"
  | invalid_utf8 => "invalid_utf8"
  | malformed_json => "malformed_json"
  | schema => "schema"
  | seq_gap => "seq_gap"
  | seq_regression => "seq_regression"
  | hash_shape => "hash_shape"
  | hash_mismatch => "hash_mismatch"
  | hash_chain_break => "hash_chain_break"
  | orphan_terminal => "orphan_terminal"
  | duplicate_terminal => "duplicate_terminal"
  | duplicate_start => "duplicate_start"
  | interleaved_run => "interleaved_run"
  | run_unclosed => "run_unclosed"
  | recovered_source_invalid => "recovered_source_invalid"
  | termination_mismatch => "termination_mismatch"
  | session_mismatch => "session_mismatch"
  | session_revision_regression => "session_revision_regression"
  end.

Definition has_code (code : RunJournalFindingCode) (report : RunJournalReport) : bool :=
  existsb (fun f => bool_decide (fd_code f = code)) (rp_findings report).

(** A code the planner has no repair for. *)
Definition is_hard (code : RunJournalFindingCode) : bool :=
  negb (bool_decide (code = trailing_fragment)) && negb (bool_decide (code = run_unclosed))
  && negb (bool_decide (code = session_mismatch)).

Definition hard_codes (report : RunJournalReport) : list RunJournalFindingCode :=
  dedup (List.filter is_hard (map fd_code (rp_findings report))).

Fixpoint observe_codes (codes : list RunJournalFindingCode) (acc : Accumulators) : result string Accumulators :=
  match codes with
  | [] => Ok acc
  | code :: rest =>
      acc <-? observe art_journal journal_blocked blocking (Some (finding_code_str code)) None acc ;;
      observe_codes rest acc
  end.

Definition all_bound (input : ValidatedInput) (report : RunJournalReport) : bool :=
  forallb (fun r => String.eqb (rj_sessionId (rj_material r)) (vi_sessionId input)) (rp_records report).

Definition last_hash (report : RunJournalReport) : string :=
  match last (rp_records report) with
  | Some r => rj_hash r
  | None => GENESIS_HASH
  end.

Definition appendRecoveryRecord (bytes : string) (prefixBytes : nat) (record : json) : string :=
  (slice_to prefixBytes bytes ++ utf8_encode (serializeRunJournalLine record ++ String line_feed EmptyString))%string.

Section Journal.
Context (hashFn : string -> option string).

(** The record at the end of a journal that holds it, closed and sound. *)
Definition recovered_by (recheck : RunJournalReport) (supplied : json) : option RunJournalRecord :=
  match last (rp_records recheck) with
  | Some r =>
      if rp_ok recheck && match rp_openRunId recheck with None => true | Some _ => false end
         && bool_decide (rj_event (rj_material r) = run_recovered)
         && String.eqb (serializeRunJournalLine (record_json r)) (serializeRunJournalLine supplied)
      then Some r else None
  | None => None
  end.

(** The recovery of an unclosed run: whether it succeeded, and what it adds. *)
Definition derive_recovery (observation : SessionDoctorJournalObservation) (report : RunJournalReport) (recoverable : bool)
    (acc : Accumulators) : option (result string (bool * Accumulators)) :=
  match jo_terminalRecord observation with
  | None => Some (Ok (false, acc))
  | Some supplied =>
      if negb recoverable then
        Some (acc <-? violate art_journal contract_violation "spurious_terminal_record" acc ;; Ok (false, acc))
      else
        recheck ← inspectRunJournal hashFn (appendRecoveryRecord (jo_bytes observation) (rp_byteCount report) supplied);
        Some (match recovered_by recheck supplied with
              | Some r =>
                  Ok (true, add_journal (recover_run (rj_runId (rj_material r)) supplied (rp_byteCount report) (rp_lineCount report)
                                           (last_hash report)) acc)
              | None => acc <-? violate art_journal contract_violation "forged_terminal_record" acc ;; Ok (false, acc)
              end)
  end.

(** The quarantine of a trailing fragment, unless the recovery discards it. *)
Definition derive_trailing (report : RunJournalReport) (quarantines : bool) (recovery : bool * Accumulators)
    : result string Accumulators :=
  let (recovered, acc) := recovery in
  if quarantines && negb recovered then
    acc <-? observe art_journal journal_trailing_fragment blocking None None acc ;;
    Ok (add_journal (quarantine_journal_trailing_fragment (rp_byteCount report) (rp_lineCount report) (last_hash report)) acc)
  else Ok acc.

(** What a journal report and a recovery add. *)
Definition derive_journal_report (input : ValidatedInput) (observation : SessionDoctorJournalObservation)
    (report : RunJournalReport) (acc : Accumulators) : option (result string Accumulators) :=
  let hasSessionMismatch := has_code session_mismatch report in
  let bound := all_bound input report && negb hasSessionMismatch in
  let trailing := has_code trailing_fragment report in
  let unclosed := has_code run_unclosed report in
  let hardCodes := hard_codes report in
  let journalCanAct := (length hardCodes =? 0)%nat && bound in
  let before :=
    acc <-? (if bound then Ok acc else violate art_journal contract_violation "session_identity_mismatch" acc) ;;
    acc <-? observe_codes hardCodes acc ;;
    if unclosed then observe art_journal journal_unclosed blocking None ((fun id => [id]) <$> rp_openRunId report) acc
    else Ok acc in
  match before with
  | Err e => Some (Err e)
  | Ok acc =>
      recovery ← derive_recovery observation report (unclosed && journalCanAct) acc;
      Some (result_bind recovery (derive_trailing report (trailing && journalCanAct)))
  end.

Definition deriveJournal (input : ValidatedInput) (acc : Accumulators) : option (result string Accumulators) :=
  match vi_journal input with
  | None => Some (Ok acc)
  | Some observation =>
      report ← inspectRunJournal hashFn (jo_bytes observation);
      derive_journal_report input observation report acc
  end.
End Journal.

(** ** The compaction *)

Definition barrier_reason_str (reason : CompactionBarrierReason) : string :=
  match reason with
  | closed_active_branch => "closed_active_branch"
  | pending_tool_calls => "pending_tool_calls"
  | missing_active_tail_results => "missing_active_tail_results"
  | invalid_pending_tool_ids => "invalid_pending_tool_ids"
  | inconsistent_integrity_report => "inconsistent_integrity_report"
  | structural_integrity_failure => "structural_integrity_failure"
  | unsafe_missing_tool_results => "unsafe_missing_tool_results"
  end.

(** The session identifier of a part of the transaction. *)
Definition part_session (part : string) (transaction : json) : option string :=
  value ← jget part transaction; jstr "sessionId" value.

Definition abandon (transaction : json) (transactionId : string) (reason : StaleReason) (acc : Accumulators)
    : result string Accumulators :=
  acc <-? observe art_compaction compaction_stale blocking None None acc ;;
  Ok (add_compaction (abandon_stale_compaction transactionId (default JsNull (jget "baseRevision" transaction))
                        (text_of "sourceSha256" (default JsNull (jget "source" transaction))) reason) acc).

Definition deriveCompaction (input : ValidatedInput) (acc : Accumulators) : result string Accumulators :=
  match vi_compaction input with
  | None => Ok acc
  | Some observation =>
      let tx := dc_transaction observation in
      if negb (bool_decide (part_session "baseRevision" tx = Some (vi_sessionId input)))
         || negb (bool_decide (part_session "source" tx = Some (vi_sessionId input)))
      then violate art_compaction contract_violation "session_identity_mismatch" acc
      else
        match decideCompactionCommit observation with
        | decide_stale_revision id => abandon tx id revision_mismatch acc
        | decide_stale_source id => abandon tx id source_mismatch acc
        | decide_defer _ reason => observe art_compaction compaction_deferred blocking (Some (barrier_reason_str reason)) None acc
        | decide_barrier_fail_closed _ reason =>
            observe art_compaction compaction_failed blocking (Some (barrier_reason_str reason)) None acc
        | decide_invalid_transaction => violate art_compaction contract_violation "invalid_transaction" acc
        | decide_invalid_commit_input _ => violate art_compaction contract_violation "invalid_commit_input" acc
        | decide_commit _ _ _ => observe art_compaction compaction_committed advisory None None acc
        | decide_duplicate _ => observe art_compaction compaction_duplicate advisory None None acc
        end
  end.

(** ** The paths *)

Definition path_reason_str (reason : PathPolicy.SessionPathReason) : string :=
  match reason with
  | PathPolicy.reason_authorized => "authorized"
  | PathPolicy.reason_metadata_only => "metadata_only"
  | PathPolicy.lexical_invalid => "lexical_invalid"
  | PathPolicy.evidence_mismatch => "evidence_mismatch"
  | PathPolicy.target_external => "target_external"
  | PathPolicy.target_is_root => "target_is_root"
  | PathPolicy.identity_required => "identity_required"
  | PathPolicy.lock_required => "lock_required"
  | PathPolicy.symlink_in_chain => "symlink_in_chain"
  | PathPolicy.outside_realpath => "outside_realpath"
  | PathPolicy.nonregular => "nonregular"
  | PathPolicy.nlink_not_one => "nlink_not_one"
  | PathPolicy.owner_mismatch => "owner_mismatch"
  | PathPolicy.stat_race => "stat_race"
  | PathPolicy.stat_after_mismatch => "stat_after_mismatch"
  | PathPolicy.lock_live => "lock_live"
  | PathPolicy.lock_foreign => "lock_foreign"
  | PathPolicy.lock_unknown => "lock_unknown"
  | PathPolicy.lock_stale_ineligible => "lock_stale_ineligible"
  end.

Definition intent_str (intent : PathPolicy.SessionPathIntent) : string :=
  match intent with
  | PathPolicy.inspect_metadata => "inspect_metadata"
  | PathPolicy.inspect_content => "inspect_content"
  | PathPolicy.repair => "repair"
  | PathPolicy.repair_dry_run => "repair_dry_run"
  end.

(** [{ ...subject, intent }] *)
Definition subject_with_intent (subject : jsval) (intent : PathPolicy.SessionPathIntent) : jsval :=
  match subject with
  | JObject fields => JObject (fields ++ [("intent", JString (intent_str intent))])
  | _ => subject
  end.

(** The decision on a path, if there is one. *)
Definition evaluatePath (subject : option jsval) (intent : PathPolicy.SessionPathIntent)
    : result string (option PathPolicy.SessionPathDecision) :=
  match subject with
  | None => Ok None
  | Some value => decision <-? PathPolicy.decideSessionPathAccess (subject_with_intent value intent) ;; Ok (Some decision)
  end.

Definition stale_lock_spec (artifact : SessionDoctorActionArtifact) (decision : PathPolicy.SessionPathDecision)
    (holderPid : option string) : StaleLockActionSpec :=
  {| sl_artifact := artifact; sl_platform := PathPolicy.pd_platform decision;
     sl_targetLexical := PathPolicy.pd_targetLexical decision; sl_targetRealpath := PathPolicy.pd_targetRealpath decision;
     sl_holderPid := holderPid; sl_artifacts := [artifact] |}.

Definition authorizeArtifact (decision : option PathPolicy.SessionPathDecision) (needed : bool)
    (artifact : SessionDoctorActionArtifact) (reason : SessionDoctorFindingReason) (requiresAuthorized : bool)
    (acc : Accumulators) : result string Accumulators :=
  match decision with
  | Some d =>
      if bool_decide (PathPolicy.pd_status d = PathPolicy.authorized) then
        match head (PathPolicy.pd_plannedActions d) with
        | Some holderPid => Ok (add_path (stale_lock_spec artifact d holderPid) acc)
        | None => Ok acc
        end
      else if needed && requiresAuthorized then violate art_path reason (path_reason_str (PathPolicy.pd_reason d)) acc
      else observe art_path reason blocking (Some (path_reason_str (PathPolicy.pd_reason d))) None acc
  | None => if needed && requiresAuthorized then violate art_path reason "missing" acc else Ok acc
  end.

Definition derivePaths (input : ValidatedInput) (sessionPathNeeded journalPathNeeded : bool) (acc : Accumulators)
    : result string Accumulators :=
  let intent := intentForMode (vi_mode input) in
  let requiresAuthorized := negb (bool_decide (vi_mode input = mode_inspect)) in
  session <-? evaluatePath (vi_sessionPath input) intent ;;
  acc <-? authorizeArtifact session sessionPathNeeded on_session session_path_unauthorized requiresAuthorized acc ;;
  journal <-? evaluatePath (vi_journalPath input) intent ;;
  authorizeArtifact journal journalPathNeeded on_journal journal_path_unauthorized requiresAuthorized acc.

Definition canonicalStaleLockTargetKey (spec : StaleLockActionSpec) : string :=
  let fold text := match sl_platform spec with
                   | PathPolicy.win32 => toLowerCase text
                   | PathPolicy.posix => text
                   end in
  json_print (JsArr [JsStr (fold (sl_targetLexical spec)); JsStr (fold (sl_targetRealpath spec))]).

(** The groups in the order of their first members. *)
Fixpoint group_add (key : string) (spec : StaleLockActionSpec) (groups : list (string * list StaleLockActionSpec))
    : list (string * list StaleLockActionSpec) :=
  match groups with
  | [] => [(key, [spec])]
  | (k, group) :: rest =>
      if String.eqb k key then (k, group ++ [spec]) :: rest else (k, group) :: group_add key spec rest
  end.

Definition group_specs (specs : list StaleLockActionSpec) : list (string * list StaleLockActionSpec) :=
  foldl (fun groups spec => group_add (canonicalStaleLockTargetKey spec) spec groups) [] specs.

Definition artifact_rank (artifact : SessionDoctorActionArtifact) : nat :=
  match artifact with
  | on_session => 0
  | on_journal => 1
  end.

Definition by_rank (a b : SessionDoctorActionArtifact) : comparison := Nat.compare (artifact_rank a) (artifact_rank b).

(** Do the specs of a target contradict each other? *)
Definition conflicting (first : StaleLockActionSpec) (group : list StaleLockActionSpec) : bool :=
  existsb (fun spec => negb (bool_decide (sl_platform spec = sl_platform first))
                       || negb (bool_decide (sl_holderPid spec = sl_holderPid first))) group.

Definition merge_artifacts (first : StaleLockActionSpec) (group : list StaleLockActionSpec) : StaleLockActionSpec :=
  {| sl_artifact := sl_artifact first; sl_platform := sl_platform first; sl_targetLexical := sl_targetLexical first;
     sl_targetRealpath := sl_targetRealpath first; sl_holderPid := sl_holderPid first;
     sl_artifacts := stable_sort by_rank (dedup (concat (map sl_artifacts group))) |}.

Fixpoint merge_groups (groups : list (string * list StaleLockActionSpec)) (acc : Accumulators)
    : result string (list StaleLockActionSpec * Accumulators) :=
  match groups with
  | [] => Ok ([], acc)
  | (_, first :: ((_ :: _) as others)) :: rest =>
      if conflicting first others then
        acc <-? violate art_path contract_violation "stale_lock_target_conflict" acc ;;
        merge_groups rest acc
      else
        merged <-? merge_groups rest acc ;;
        let (specs, acc) := merged in
        Ok (merge_artifacts first (first :: others) :: specs, acc)
  | (_, group) :: rest =>
      merged <-? merge_groups rest acc ;;
      let (specs, acc) := merged in
      Ok (group ++ specs, acc)
  end.

Definition dedupStaleLockActions (specs : list StaleLockActionSpec) (acc : Accumulators)
    : result string (list StaleLockActionSpec * Accumulators) :=
  if (length specs <=? 1)%nat then Ok (specs, acc) else merge_groups (group_specs specs) acc.

(** ** Checks and assembly *)

Fixpoint derive_checks (checks : list SessionDoctorNormalizedCheck) (acc : Accumulators) : result string Accumulators :=
  match checks with
  | [] => Ok acc
  | check :: rest =>
      acc <-? (if String.eqb (nc_status check) "ok" then Ok acc
               else observe art_normalized normalized_check_unhealthy blocking
                      (Some (nc_artifact check ++ ":" ++ nc_status check)%string) None acc) ;;
      derive_checks rest acc
  end.

Definition deriveNormalizedChecks (input : ValidatedInput) (acc : Accumulators) : result string Accumulators :=
  derive_checks (vi_normalizedChecks input) acc.

Definition ARTIFACT_RANK (artifact : SessionDoctorArtifact) : nat :=
  match artifact with
  | art_session => 0
  | art_journal => 1
  | art_path => 2
  | art_compaction => 3
  | art_normalized => 4
  end.

Definition finding_reason_str (reason : SessionDoctorFindingReason) : string :=
  match reason with
  | session_trailing_fragment => "session_trailing_fragment"
  | session_missing_tool_result => "session_missing_tool_result"
  | session_blocked => "session_blocked"
  | session_inspection_incomplete => "session_inspection_incomplete"
  | journal_trailing_fragment => "journal_trailing_fragment"
  | journal_unclosed => "journal_unclosed"
  | journal_blocked => "journal_blocked"
  | session_path_unauthorized => "session_path_unauthorized"
  | journal_path_unauthorized => "journal_path_unauthorized"
  | compaction_stale => "compaction_stale"
  | compaction_deferred => "compaction_deferred"
  | compaction_failed => "compaction_failed"
  | compaction_committed => "compaction_committed"
  | compaction_duplicate => "compaction_duplicate"
  | normalized_check_unhealthy => "normalized_check_unhealthy"
  | contract_violation => "contract_violation"
  end.

Definition findingSortKey (f : SessionDoctorFinding) : string :=
  (nat_str (ARTIFACT_RANK (df_artifact f)) ++ "|" ++ finding_reason_str (df_reason f) ++ "|" ++ default EmptyString (df_code f)
   ++ "|" ++ join "," (default [] (df_ids f)))%string.

Definition by_key (a b : SessionDoctorFinding) : comparison := str_compare (findingSortKey a) (findingSortKey b).

Definition sortFindings (findings : list SessionDoctorFinding) : list SessionDoctorFinding := stable_sort by_key findings.

Definition no_accumulators : Accumulators :=
  {| ac_findings := []; ac_sessionSpecs := []; ac_journalSpecs := []; ac_pathSpecs := []; ac_compactionSpecs := [];
     ac_refused := false |}.

Definition is_blocking (f : SessionDoctorFinding) : bool := bool_decide (df_severity f = blocking).

(** The plan on what was derived and the locks to remove. *)
Definition assemble (input : ValidatedInput) (dedupedPathSpecs : list StaleLockActionSpec) (acc : Accumulators) : SessionDoctorPlan :=
  let orderedSpecs := ac_sessionSpecs acc ++ ac_journalSpecs acc ++ map remove_stale_lock dedupedPathSpecs ++ ac_compactionSpecs acc in
  let eligibleActions := imap (fun index spec => (index, spec)) orderedSpecs in
  let sortedFindings := sortFindings (ac_findings acc) in
  let isRefused := ac_refused acc in
  let reportedActions := if isRefused || bool_decide (vi_mode input = mode_inspect) then [] else eligibleActions in
  let scheduledWrites := if bool_decide (vi_mode input = mode_repair) && negb isRefused then length eligibleActions else 0 in
  let clean := negb (existsb is_blocking sortedFindings) && (length eligibleActions =? 0)%nat in
  {| dp_mode := vi_mode input; dp_sessionId := vi_sessionId input; dp_repairId := vi_repairId input;
     dp_status := if isRefused then refused else if clean then healthy else has_issues;
     dp_exitCode := if isRefused then 2 else if clean then 0 else 1;
     dp_repairable := negb isRefused && (0 <? length eligibleActions)%nat;
     dp_requiresReinspection := (0 <? scheduledWrites)%nat; dp_scheduledWrites := scheduledWrites;
     dp_findings := sortedFindings; dp_actions := reportedActions |}.

Section Plan.
Context (hashFn : string -> option string).

(** What the artifacts need of their paths, and the plan, after the derivations. *)
Definition gate_and_assemble (input : ValidatedInput) (acc : Accumulators) : result string SessionDoctorPlan :=
  let writesPlanned := negb (bool_decide (vi_mode input = mode_inspect)) in
  let sessionPathNeeded :=
    writesPlanned && ((0 <? length (ac_sessionSpecs acc))%nat || (0 <? length (ac_compactionSpecs acc))%nat) in
  let journalPathNeeded := writesPlanned && (0 <? length (ac_journalSpecs acc))%nat in
  acc <-? derivePaths input sessionPathNeeded journalPathNeeded acc ;;
  acc <-? deriveNormalizedChecks input acc ;;
  deduped <-? dedupStaleLockActions (ac_pathSpecs acc) acc ;;
  Ok (assemble input (fst deduped) (snd deduped)).

Definition plan_validated (input : ValidatedInput) : option (result string SessionDoctorPlan) :=
  match deriveSession input no_accumulators with
  | Err e => Some (Err e)
  | Ok acc =>
      journal ← deriveJournal hashFn input acc;
      Some (
        acc <-? journal ;;
        acc <-? deriveCompaction input acc ;;
        gate_and_assemble input acc)
  end.

Definition planSessionDoctor (rawInput : SessionDoctorPlanInput) : option (result string SessionDoctorPlan) :=
  match validateInput rawInput with
  | Err e => Some (Err e)
  | Ok input => plan_validated input
  end.
End Plan.
End Doctor.
