(* ===== verification/SessionDoctorSafety.v ===== *)
(** * What the plans of the session doctor promise

    A dry run shows the plan of the repair; nothing is planned on a path that
    was not authorised; a healthy session is one in which every component found
    nothing; and the actions of a plan close the transcript and the journal. *)

From Stdlib Require Import Ascii String ZArith QArith Lia Permutation.
From stdpp Require Import base list option strings.
From S2P Require Import Prelude JsString JsValue Json JsNumber CanonicalJson Utf8 SessionTermination JournalChecks TranscriptIntegrity.
From S2P Require Import RunJournal JournalInspector SessionReport CompactionTransaction CompactionBarrier SessionRepair SessionPath SessionAccess.
From S2P Require Import JournalTheory SessionInspection SessionSafety SessionDoctor.

Import Doctor.

Open Scope nat_scope.
Open Scope string_scope.
Open Scope list_scope.

(** ** The intent of a path subject *)

Definition result_map {E A B} (f : A -> B) (c : result E A) : result E B := a <-? c ;; Ok (f a).

Lemma assoc_lookup_app (key : string) (fields : list (string * jsval)) (x : jsval) (k : string) :
  assoc_lookup key (fields ++ [(k, x)])
  = if bool_decide (key ∈ map fst fields) then assoc_lookup key fields else if String.eqb k key then x else JUndefined.
Proof.
  induction fields as [|[k' v] fields IH]; cbn [app assoc_lookup map fst]; [done|].
  destruct (String.eqb_spec k' key) as [->|Hne].
  - rewrite bool_decide_eq_true_2; [done|left].
  - rewrite IH.
    case_bool_decide as H1; case_bool_decide as H2; try done.
    + exfalso. apply H2. by right.
    + exfalso. apply elem_of_cons in H2 as [->|H2]; done.
Qed.

Lemma assoc_lookup_absent (key : string) (fields : list (string * jsval)) :
  key ∉ map fst fields -> assoc_lookup key fields = JUndefined.
Proof.
  induction fields as [|[k v] fields IH]; cbn [assoc_lookup map fst]; [done|]. rewrite not_elem_of_cons. intros [Hne Hn].
  rewrite (proj2 (String.eqb_neq k key)) by done. by apply IH.
Qed.

Lemma subject_prop (key : string) (fields : list (string * jsval)) (x : jsval) :
  key <> "intent" -> get_prop key (JObject (fields ++ [("intent", x)])) = get_prop key (JObject fields).
Proof.
  intros Hne. cbn [get_prop]. rewrite assoc_lookup_app. case_bool_decide as Hin; [done|].
  by rewrite (proj2 (String.eqb_neq _ _)), assoc_lookup_absent.
Qed.

Lemma subject_intent (fields : list (string * jsval)) (intent : PathPolicy.SessionPathIntent) :
  "intent" ∉ map fst fields ->
  PathPolicy.intent_of (get_prop "intent" (JObject (fields ++ [("intent", JString (intent_str intent))]))) = Some intent.
Proof. intros Hn. cbn [get_prop]. rewrite assoc_lookup_app, bool_decide_eq_false_2 by done. by destruct intent. Qed.

(** The intent of a subject is only read as the intent. *)
Lemma validate_with_intent (fields : list (string * jsval)) (i j : PathPolicy.SessionPathIntent) :
  "intent" ∉ map fst fields ->
  PathPolicy.validateInput (subject_with_intent (JObject fields) j)
  = result_map (with_intent j) (PathPolicy.validateInput (subject_with_intent (JObject fields) i)).
Proof.
  intros Hn. unfold PathPolicy.validateInput, result_map, subject_with_intent. rewrite !subject_intent by done.
  rewrite !subject_prop by done. unfold PathPolicy.hasOwn, PathPolicy.assertPlainObject. cbn [PathPolicy.own_keys is_record].
  rewrite !map_app. cbn [map fst check result_bind].
  destruct (List.find _ _); cbn [result_bind]; [done|].
  destruct (PathPolicy.required (PathPolicy.platform_of _) _) as [p|]; cbn [result_bind]; [|done].
  destruct (PathPolicy.assertString (get_prop "root" _) _) as [r|]; cbn [result_bind]; [|done].
  destruct (PathPolicy.assertString (get_prop "target" _) _) as [t|]; cbn [result_bind]; [|done].
  cbn [PathPolicy.required result_bind]. destruct (check _ _); cbn [result_bind]; [|done].
  destruct (PathPolicy.validateEvidence _); cbn [result_bind]; [|done].
  destruct (get_prop "lock" _); cbn [result_bind]; try done; destruct (PathPolicy.validateLock _); done.
Qed.

(** What the planner reads of a decision is the same in a dry run. *)
Lemma evaluate_dry_run (value : jsval) (fields : list (string * jsval)) :
  value = JObject fields -> "intent" ∉ map fst fields ->
  evaluatePath (Some value) PathPolicy.repair_dry_run
  = result_map (option_map as_dry_run) (evaluatePath (Some value) PathPolicy.repair).
Proof.
  intros -> Hn. unfold evaluatePath, result_map, PathPolicy.decideSessionPathAccess.
  rewrite (validate_with_intent fields PathPolicy.repair PathPolicy.repair_dry_run Hn).
  pose proof (validate_with_intent fields PathPolicy.repair PathPolicy.repair Hn) as Hsame. unfold result_map in *.
  destruct (PathPolicy.validateInput _) as [input|e]; cbn [result_bind] in *; [|done].
  injection Hsame as Hsame. rewrite dry_run_predicts_repair. by rewrite <- Hsame.
Qed.

Lemma authorize_dry_run (decision : option PathPolicy.SessionPathDecision) (needed : bool)
    (artifact : SessionDoctorActionArtifact) (reason : SessionDoctorFindingReason) (acc : Accumulators) :
  authorizeArtifact (option_map as_dry_run decision) needed artifact reason true acc
  = authorizeArtifact decision needed artifact reason true acc.
Proof. by destruct decision. Qed.

(** ** Validated inputs *)

Definition intent_free (subject : option jsval) : Prop :=
  forall value, subject = Some value -> exists fields, value = JObject fields /\ "intent" ∉ map fst fields.

Lemma only_keys_Ok (keys allowed : list string) (label : string) :
  assertOnlyKeys keys allowed label = Ok tt -> forall key, key ∈ keys -> key ∈ allowed.
Proof.
  unfold assertOnlyKeys. destruct (List.find _ _) eqn:E; [done|]. intros _ key Hk. apply list_elem_of_In in Hk.
  apply (List.find_none _ _ E) in Hk. apply negb_false_iff in Hk. by apply existsb_eqb_elem in Hk.
Qed.

Lemma subject_free (value value' : jsval) (label : string) :
  validatePathSubject value label = Ok value' -> value' = value /\ intent_free (Some value).
Proof.
  unfold validatePathSubject, assertPlainData. destruct value as [| | | | | |fields]; try done. cbn [is_record check result_bind].
  destruct (assertOnlyKeys _ _ _) as [[]|] eqn:Ek; cbn [result_bind]; [|done].
  intros H. repeat (apply result_bind_Ok in H as (? & _ & H)). injection H as <-. split; [done|].
  intros ? [= <-]. exists fields. split; [done|]. intros Hin. apply (only_keys_Ok _ _ _ Ek) in Hin.
  by apply existsb_eqb_elem in Hin.
Qed.

Lemma given_free (value : jsval) (label : string) (subject : option jsval) :
  given value (fun value => validatePathSubject value label) = Ok subject -> intent_free subject.
Proof.
  unfold given. destruct value eqn:E; [by intros [= <-]|..]; intros (a & Ha & [= <-])%result_bind_Ok;
    by apply subject_free in Ha as [-> Ha].
Qed.

Lemma paths_free (paths : jsval) (p : option jsval * option jsval) :
  validate_paths paths = Ok p -> intent_free (fst p) /\ intent_free (snd p).
Proof.
  unfold validate_paths. intros (_ & _ & H)%result_bind_Ok. apply result_bind_Ok in H as (_ & _ & H).
  apply result_bind_Ok in H as (session & Hs & H). apply result_bind_Ok in H as (journal & Hj & [= <-]).
  split; by eapply given_free.
Qed.

Definition free_paths (input : ValidatedInput) : Prop := intent_free (vi_sessionPath input) /\ intent_free (vi_journalPath input).

Definition with_mode (mode : SessionDoctorMode) (input : ValidatedInput) : ValidatedInput :=
  {| vi_mode := mode; vi_sessionId := vi_sessionId input; vi_repairId := vi_repairId input; vi_timestamp := vi_timestamp input;
     vi_report := vi_report input; vi_journal := vi_journal input; vi_sessionPath := vi_sessionPath input;
     vi_journalPath := vi_journalPath input; vi_compaction := vi_compaction input;
     vi_normalizedChecks := vi_normalizedChecks input |}.

Definition mode_str (mode : SessionDoctorMode) : string :=
  match mode with
  | mode_inspect => "inspect"
  | mode_repair_dry_run => "repair_dry_run"
  | mode_repair => "repair"
  end.

Definition ask (mode : SessionDoctorMode) (input : SessionDoctorPlanInput) : SessionDoctorPlanInput :=
  {| di_keys := di_keys input; di_schemaVersion := di_schemaVersion input; di_mode := JString (mode_str mode);
     di_sessionId := di_sessionId input; di_repairId := di_repairId input; di_timestamp := di_timestamp input;
     di_report := di_report input; di_journal := di_journal input; di_paths := di_paths input;
     di_compaction := di_compaction input; di_normalizedChecks := di_normalizedChecks input |}.

Lemma validate_free (input : SessionDoctorPlanInput) (vi : ValidatedInput) : validateInput input = Ok vi -> free_paths vi.
Proof.
  unfold validateInput. intros H. do 7 (apply result_bind_Ok in H as (? & _ & H)).
  apply result_bind_Ok in H as (paths & Hp & H). apply result_bind_Ok in H as (checks & _ & [= <-]).
  unfold free_paths. cbn [vi_sessionPath vi_journalPath].
  unfold given in Hp. destruct (di_paths input); [injection Hp as <-; split; by intros ? ?|..];
    apply result_bind_Ok in Hp as (p & Hp & [= <-]); by apply paths_free in Hp.
Qed.

Lemma validate_ask (input : SessionDoctorPlanInput) (i j : SessionDoctorMode) :
  validateInput (ask j input) = result_map (with_mode j) (validateInput (ask i input)).
Proof.
  unfold validateInput, ask, result_map. cbn [di_keys di_schemaVersion di_mode di_sessionId di_repairId di_timestamp di_report
    di_journal di_paths di_compaction di_normalizedChecks].
  destruct (assertOnlyKeys _ _ _); cbn [result_bind]; [|done]. destruct (check _ _); cbn [result_bind]; [|done].
  replace (mode_of (JString (mode_str j))) with (Some j) by (by destruct j).
  replace (mode_of (JString (mode_str i))) with (Some i) by (by destruct i). cbn [PathPolicy.required result_bind].
  destruct (assertIdentifier (di_sessionId input) _); cbn [result_bind]; [|done].
  destruct (assertIdentifier (di_repairId input) _); cbn [result_bind]; [|done].
  destruct (assertSafeNonNegativeInt _ _); cbn [result_bind]; [|done].
  destruct (match di_journal input with Some _ => _ | None => _ end); cbn [result_bind]; [|done].
  destruct (given (di_paths input) _); cbn [result_bind]; [|done]. by destruct (given _ _).
Qed.

(** ** Dry runs *)

(** What a plan says of a dry run, from what it says of the repair. *)
Definition dry_plan (plan : SessionDoctorPlan) : SessionDoctorPlan :=
  {| dp_mode := mode_repair_dry_run; dp_sessionId := dp_sessionId plan; dp_repairId := dp_repairId plan;
     dp_status := dp_status plan; dp_exitCode := dp_exitCode plan; dp_repairable := dp_repairable plan;
     dp_requiresReinspection := false; dp_scheduledWrites := 0; dp_findings := dp_findings plan; dp_actions := dp_actions plan |}.

Lemma paths_dry_run (input : ValidatedInput) (s j : bool) (acc : Accumulators) :
  free_paths input ->
  derivePaths (with_mode mode_repair_dry_run input) s j acc = derivePaths (with_mode mode_repair input) s j acc.
Proof.
  intros [Hs Hj]. unfold derivePaths. cbn [vi_mode with_mode intentForMode vi_sessionPath vi_journalPath].
  rewrite !bool_decide_eq_false_2 by done. cbn [negb].
  assert (Hdry : forall subject, intent_free subject ->
    evaluatePath subject PathPolicy.repair_dry_run = result_map (option_map as_dry_run) (evaluatePath subject PathPolicy.repair)).
  { intros [value|] Hf; [|done]. destruct (Hf value eq_refl) as (fields & Hv & Hn). by apply (evaluate_dry_run value fields). }
  rewrite !Hdry by done. unfold result_map.
  destruct (evaluatePath (vi_sessionPath input) PathPolicy.repair) as [session|]; cbn [result_bind]; [|done].
  rewrite authorize_dry_run. destruct (authorizeArtifact session _ _ _ _ _) as [acc'|]; cbn [result_bind]; [|done].
  destruct (evaluatePath (vi_journalPath input) PathPolicy.repair) as [journal|]; cbn [result_bind]; [|done].
  apply authorize_dry_run.
Qed.

Lemma gate_dry_run (input : ValidatedInput) (acc : Accumulators) :
  free_paths input ->
  gate_and_assemble (with_mode mode_repair_dry_run input) acc
  = result_map dry_plan (gate_and_assemble (with_mode mode_repair input) acc).
Proof.
  intros Hf. unfold gate_and_assemble, result_map. cbn [vi_mode with_mode]. rewrite !bool_decide_eq_false_2 by done. cbn [negb andb].
  rewrite (paths_dry_run input _ _ _ Hf). destruct (derivePaths _ _ _ _) as [acc1|]; cbn [result_bind]; [|done].
  unfold deriveNormalizedChecks. cbn [vi_normalizedChecks with_mode].
  destruct (derive_checks _ _) as [acc2|]; cbn [result_bind]; [|done].
  destruct (dedupStaleLockActions _ _) as [[specs acc3]|]; cbn [result_bind fst snd]; [|done].
  unfold assemble, dry_plan. cbn [vi_mode with_mode vi_sessionId vi_repairId dp_sessionId dp_repairId dp_status dp_exitCode dp_repairable
    dp_findings dp_actions]. by rewrite !bool_decide_eq_false_2 by done.
Qed.

(** The derivations do not read the mode. *)
Lemma session_mode (mode : SessionDoctorMode) (input : ValidatedInput) (acc : Accumulators) :
  deriveSession (with_mode mode input) acc = deriveSession input acc.
Proof. reflexivity. Qed.

Lemma journal_mode (hashFn : string -> option string) (mode : SessionDoctorMode) (input : ValidatedInput) (acc : Accumulators) :
  deriveJournal hashFn (with_mode mode input) acc = deriveJournal hashFn input acc.
Proof. reflexivity. Qed.

Lemma compaction_mode (mode : SessionDoctorMode) (input : ValidatedInput) (acc : Accumulators) :
  deriveCompaction (with_mode mode input) acc = deriveCompaction input acc.
Proof. reflexivity. Qed.

(** A dry run of the doctor shows exactly what the repair would do: on the same input it finds the same, reports
    the same actions, status and exit code, and fails where the repair fails; it only schedules no write. *)
Theorem doctor_dry_run (hashFn : string -> option string) (input : SessionDoctorPlanInput) :
  planSessionDoctor hashFn (ask mode_repair_dry_run input)
  = option_map (result_map dry_plan) (planSessionDoctor hashFn (ask mode_repair input)).
Proof.
  unfold planSessionDoctor. rewrite (validate_ask input mode_inspect mode_repair_dry_run), (validate_ask input mode_inspect mode_repair).
  destruct (validateInput (ask mode_inspect input)) as [vi|e] eqn:Ev; [|done].
  pose proof (validate_free _ _ Ev) as Hf. cbn [result_map result_bind].
  unfold plan_validated. rewrite !session_mode. destruct (deriveSession vi no_accumulators) as [acc|]; [|done].
  rewrite !journal_mode. destruct (deriveJournal hashFn vi acc) as [journal|]; [|done]. cbn [mbind option_bind option_map]. f_equal.
  destruct journal as [acc1|]; cbn [result_bind]; [|done]. rewrite !compaction_mode.
  destruct (deriveCompaction vi acc1) as [acc2|]; cbn [result_bind]; [|done]. by apply gate_dry_run.
Qed.

(** ** The stages of a plan *)

Record planned (hashFn : string -> option string) (raw : SessionDoctorPlanInput) (plan : SessionDoctorPlan) : Type := {
  pn_input : ValidatedInput;
  pn_session : Accumulators;
  pn_journal : Accumulators;
  pn_compaction : Accumulators;
  pn_paths : Accumulators;
  pn_checks : Accumulators;
  pn_final : Accumulators;
  pn_locks : list StaleLockActionSpec;
  pn_needs_session : bool;
  pn_needs_journal : bool;
  pn_valid : validateInput raw = Ok pn_input;
  pn_session_stage : deriveSession pn_input no_accumulators = Ok pn_session;
  pn_journal_stage : deriveJournal hashFn pn_input pn_session = Some (Ok pn_journal);
  pn_compaction_stage : deriveCompaction pn_input pn_journal = Ok pn_compaction;
  pn_needs_session_def : pn_needs_session
    = negb (bool_decide (vi_mode pn_input = mode_inspect))
      && ((0 <? length (ac_sessionSpecs pn_compaction))%nat || (0 <? length (ac_compactionSpecs pn_compaction))%nat);
  pn_needs_journal_def : pn_needs_journal
    = negb (bool_decide (vi_mode pn_input = mode_inspect)) && (0 <? length (ac_journalSpecs pn_compaction))%nat;
  pn_paths_stage : derivePaths pn_input pn_needs_session pn_needs_journal pn_compaction = Ok pn_paths;
  pn_checks_stage : deriveNormalizedChecks pn_input pn_paths = Ok pn_checks;
  pn_locks_stage : dedupStaleLockActions (ac_pathSpecs pn_checks) pn_checks = Ok (pn_locks, pn_final);
  pn_plan : plan = assemble pn_input pn_locks pn_final;
}.

Lemma plan_stages (hashFn : string -> option string) (raw : SessionDoctorPlanInput) (plan : SessionDoctorPlan) :
  planSessionDoctor hashFn raw = Some (Ok plan) -> inhabited (planned hashFn raw plan).
Proof.
  unfold planSessionDoctor, plan_validated, gate_and_assemble.
  destruct (validateInput raw) as [vi|] eqn:Ev; [|done].
  destruct (deriveSession vi no_accumulators) as [acc|] eqn:Es; [|done].
  destruct (deriveJournal hashFn vi acc) as [[acc1|]|] eqn:Ej; cbn [mbind option_bind result_bind]; try done.
  destruct (deriveCompaction vi acc1) as [acc2|] eqn:Ec; cbn [result_bind]; [|done].
  destruct (derivePaths _ _ _ _) as [acc3|] eqn:Ep; cbn [result_bind]; [|done].
  destruct (deriveNormalizedChecks vi acc3) as [acc4|] eqn:En; cbn [result_bind]; [|done].
  destruct (dedupStaleLockActions _ _) as [[locks acc5]|] eqn:Ed; cbn [result_bind fst snd]; [|done].
  intros [= <-]. constructor. by eapply (Build_planned hashFn raw _ vi acc acc1 acc2 acc3 acc4 acc5 locks).
Qed.

(** Nothing but findings without a refusal, and the specs, as before. *)
Definition same_specs (acc acc' : Accumulators) : Prop :=
  ac_sessionSpecs acc' = ac_sessionSpecs acc /\ ac_journalSpecs acc' = ac_journalSpecs acc
  /\ ac_compactionSpecs acc' = ac_compactionSpecs acc.

#[export] Instance same_specs_po : PreOrder same_specs.
Proof. split; unfold same_specs; [done|]. intros a b c (-> & -> & ->) (-> & -> & ->). done. Qed.

(** No refusal and no blocking finding so far. *)
Definition quiet (acc : Accumulators) : Prop :=
  ac_refused acc = false /\ Forall (fun f => df_severity f = advisory) (ac_findings acc).

Lemma finding_severity (a : SessionDoctorArtifact) (r : SessionDoctorFindingReason) (s : SessionDoctorFindingSeverity)
    (c : option string) (ids : option (list string)) (f : SessionDoctorFinding) :
  finding a r s c ids = Ok f -> df_severity f = s.
Proof.
  unfold finding. intros (? & _ & H)%result_bind_Ok. apply result_bind_Ok in H as (? & _ & [= <-]). done.
Qed.

Lemma observe_Ok (a : SessionDoctorArtifact) (r : SessionDoctorFindingReason) (s : SessionDoctorFindingSeverity)
    (c : option string) (ids : option (list string)) (acc acc' : Accumulators) :
  observe a r s c ids acc = Ok acc' ->
  same_specs acc acc' /\ ac_pathSpecs acc' = ac_pathSpecs acc /\ ac_refused acc' = ac_refused acc
  /\ (quiet acc' -> quiet acc /\ s = advisory).
Proof.
  unfold observe. intros (f & Hf & [= <-])%result_bind_Ok. apply finding_severity in Hf. unfold same_specs, quiet.
  cbn [ac_sessionSpecs ac_journalSpecs ac_compactionSpecs ac_pathSpecs ac_refused ac_findings].
  do 3 (split; [done|]). rewrite Forall_app, Forall_singleton. intros (? & ? & Hs). by rewrite <- Hf.
Qed.

Lemma violate_Ok (a : SessionDoctorArtifact) (r : SessionDoctorFindingReason) (c : string) (acc acc' : Accumulators) :
  violate a r c acc = Ok acc' ->
  same_specs acc acc' /\ ac_pathSpecs acc' = ac_pathSpecs acc /\ ac_refused acc' = true /\ ~ quiet acc'.
Proof.
  unfold violate. intros (acc1 & Ho & [= <-])%result_bind_Ok. apply observe_Ok in Ho as (Hs & Hp & _ & _).
  split; [exact Hs|]. split; [exact Hp|]. split; [done|]. by intros [? _].
Qed.

(** ** Authorised paths *)

Definition subject_of (input : ValidatedInput) (artifact : SessionDoctorActionArtifact) : option jsval :=
  match artifact with
  | on_session => vi_sessionPath input
  | on_journal => vi_journalPath input
  end.

(** The path of an artifact was attested for the mode of the plan, down to an untouched file whose lock permits it
    and is as [P] says. *)
Definition permitted (input : ValidatedInput) (artifact : SessionDoctorActionArtifact)
    (P : PathPolicy.SessionPathLockEvidence -> Prop) : Prop :=
  exists subject access owner lock,
    subject_of input artifact = Some subject
    /\ PathPolicy.validateInput (subject_with_intent subject (intentForMode (vi_mode input))) = Ok access
    /\ attested access /\ PathPolicy.in_identity access = Some owner /\ PathPolicy.in_lock access = Some lock
    /\ untouched (PathPolicy.in_evidence access) owner /\ lock_permits lock /\ P lock.

(** A lock that a dead process of this host left behind. *)
Definition left_by (holderPid : option string) (lock : PathPolicy.SessionPathLockEvidence) : Prop :=
  PathPolicy.lk_state lock = PathPolicy.lock_is_stale /\ PathPolicy.lk_holderPid lock = holderPid /\ is_Some holderPid.

Lemma evaluated_permits (input : ValidatedInput) (artifact : SessionDoctorActionArtifact) (d : PathPolicy.SessionPathDecision) :
  evaluatePath (subject_of input artifact) (intentForMode (vi_mode input)) = Ok (Some d) ->
  PathPolicy.pd_status d = PathPolicy.authorized ->
  permitted input artifact (fun lock => forall holder, head (PathPolicy.pd_plannedActions d) = Some holder -> left_by holder lock).
Proof.
  unfold evaluatePath. destruct (subject_of input artifact) as [subject|] eqn:Es; [|done].
  intros (d' & Hd & [= ->])%result_bind_Ok Ha. apply result_bind_Ok in Hd as (access & Hv & [= <-]).
  pose proof (authorized_attested access Ha) as (_ & Hatt & owner & lock & Ho & Hl & Hu & Hp).
  exists subject, access, owner, lock. do 7 (split; [done|]). intros holder Hh.
  destruct (decision_shape access) as [(Hs & _)|(lock' & Hl' & _ & _ & Hd)]; [done|].
  assert (lock' = lock) as -> by congruence. rewrite Hd in Hh.
  assert (head (PathPolicy.plannedActionsForLock lock) = Some holder) as Hplan by (by destruct (PathPolicy.in_intent access)).
  unfold PathPolicy.plannedActionsForLock in Hplan. unfold left_by.
  destruct (PathPolicy.lk_state lock) eqn:Est; try done. destruct (PathPolicy.lk_holderPid lock) eqn:Ep; [|done].
  injection Hplan as <-. done.
Qed.

Lemma permitted_weaken (input : ValidatedInput) (artifact : SessionDoctorActionArtifact)
    (P Q : PathPolicy.SessionPathLockEvidence -> Prop) :
  (forall lock, P lock -> Q lock) -> permitted input artifact P -> permitted input artifact Q.
Proof.
  intros HPQ (subject & access & owner & lock & H1 & H2 & H3 & H4 & H5 & H6 & H7 & HP).
  exists subject, access, owner, lock. do 7 (split; [done|]). by apply HPQ.
Qed.

(** A lock to remove is one of an authorised path. *)
Definition lock_known (input : ValidatedInput) (spec : StaleLockActionSpec) : Prop :=
  sl_artifact spec ∈ sl_artifacts spec
  /\ forall artifact, artifact ∈ sl_artifacts spec -> permitted input artifact (left_by (sl_holderPid spec)).

Definition any_lock (lock : PathPolicy.SessionPathLockEvidence) : Prop := True.

Lemma authorize_Ok (input : ValidatedInput) (decision : option PathPolicy.SessionPathDecision) (needed : bool)
    (artifact : SessionDoctorActionArtifact) (reason : SessionDoctorFindingReason) (required : bool) (acc acc' : Accumulators) :
  evaluatePath (subject_of input artifact) (intentForMode (vi_mode input)) = Ok decision ->
  authorizeArtifact decision needed artifact reason required acc = Ok acc' ->
  Forall (lock_known input) (ac_pathSpecs acc) ->
  same_specs acc acc' /\ Forall (lock_known input) (ac_pathSpecs acc')
  /\ (ac_refused acc' = false -> ac_refused acc = false /\ (needed && required = true -> permitted input artifact any_lock))
  /\ (quiet acc' -> quiet acc /\ (is_Some (subject_of input artifact) -> permitted input artifact any_lock)).
Proof.
  intros He Ha Hk. unfold authorizeArtifact in Ha. destruct decision as [d|].
  - case_bool_decide as Hs.
    + pose proof (evaluated_permits _ _ _ He Hs) as Hperm.
      assert (Hany : permitted input artifact any_lock).
      { refine (permitted_weaken _ _ _ _ _ Hperm). intros lock _. exact I. }
      destruct (head (PathPolicy.pd_plannedActions d)) as [holder|] eqn:Eh; injection Ha as <-; [|done].
      split; [done|]. split; [|done]. cbn [add_path ac_pathSpecs]. apply Forall_app; split; [done|]. apply Forall_singleton.
      split; [by left|]. intros a' [->|Hn]%elem_of_cons; [|by apply elem_of_nil in Hn]. refine (permitted_weaken _ _ _ _ _ Hperm).
      intros lock Hl. by apply Hl.
    + destruct (needed && required) eqn:En.
      * apply violate_Ok in Ha as (? & Hp & Hr & Hq). rewrite Hp, Hr. done.
      * apply observe_Ok in Ha as (? & Hp & Hr & Hq). rewrite Hp, Hr. repeat (split; [done|]). intros [_ ?]%Hq. done.
  - assert (Hnone : subject_of input artifact = None).
    { unfold evaluatePath in He. destruct (subject_of input artifact); [|done].
      exfalso. revert He. intros (d & _ & [=])%result_bind_Ok. }
    destruct (needed && required) eqn:En.
    + apply violate_Ok in Ha as (? & Hp & Hr & Hq). rewrite Hp, Hr. done.
    + injection Ha as <-. rewrite Hnone. do 3 (split; [done|]). intros Hq. split; [exact Hq|]. intros Hsome. by destruct (is_Some_None Hsome).
Qed.

Lemma paths_Ok (input : ValidatedInput) (s j : bool) (acc acc' : Accumulators) :
  derivePaths input s j acc = Ok acc' -> Forall (lock_known input) (ac_pathSpecs acc) ->
  same_specs acc acc' /\ Forall (lock_known input) (ac_pathSpecs acc')
  /\ (ac_refused acc' = false -> ac_refused acc = false
      /\ (vi_mode input <> mode_inspect ->
          (s = true -> permitted input on_session any_lock) /\ (j = true -> permitted input on_journal any_lock)))
  /\ (quiet acc' -> quiet acc /\ forall artifact, is_Some (subject_of input artifact) -> permitted input artifact any_lock).
Proof.
  unfold derivePaths. intros (session & Hs & H)%result_bind_Ok Hk.
  apply result_bind_Ok in H as (acc1 & Has & H). apply result_bind_Ok in H as (journal & Hj & Haj).
  destruct (authorize_Ok input session s on_session _ _ acc acc1 Hs Has Hk) as (Hs1 & Hk1 & Hr1 & Hq1).
  destruct (authorize_Ok input journal j on_journal _ _ acc1 acc' Hj Haj Hk1) as (Hs2 & Hk2 & Hr2 & Hq2).
  split; [by etrans|]. split; [done|]. split.
  - intros Hr. destruct (Hr2 Hr) as [Hr1' Hpj]. destruct (Hr1 Hr1') as [Hr0 Hps]. split; [done|]. intros Hm.
    rewrite bool_decide_eq_false_2 in Hps, Hpj by done. cbn [negb] in Hps, Hpj. rewrite andb_true_r in Hps, Hpj. done.
  - intros Hq. destruct (Hq2 Hq) as [Hq1' Hpj]. destruct (Hq1 Hq1') as [Hq0 Hps]. split; [done|]. by intros [].
Qed.

(** ** The stages after the paths *)

Lemma checks_Ok (checks : list SessionDoctorNormalizedCheck) (acc acc' : Accumulators) :
  derive_checks checks acc = Ok acc' ->
  same_specs acc acc' /\ ac_pathSpecs acc' = ac_pathSpecs acc /\ ac_refused acc' = ac_refused acc
  /\ (quiet acc' -> quiet acc /\ Forall (fun check => nc_status check = "ok") checks).
Proof.
  revert acc. induction checks as [|check rest IH]; intros acc; cbn [derive_checks]; [by intros [= <-]|].
  intros (acc1 & H1 & (Hs & Hp & Hr & Hq)%IH)%result_bind_Ok. destruct (String.eqb_spec (nc_status check) "ok") as [He|Hne].
  - injection H1 as <-. do 3 (split; [done|]). intros [? ?]%Hq. split; [done|]. by constructor.
  - apply observe_Ok in H1 as (Hs1 & Hp1 & Hr1 & Hq1). split; [by etrans|]. do 2 (split; [congruence|]).
    by intros [[_ ?]%Hq1 _]%Hq.
Qed.

Definition known_groups (input : ValidatedInput) (groups : list (string * list StaleLockActionSpec)) : Prop :=
  Forall (fun group => Forall (lock_known input) (snd group)) groups.

Lemma group_add_known (input : ValidatedInput) (key : string) (spec : StaleLockActionSpec)
    (groups : list (string * list StaleLockActionSpec)) :
  lock_known input spec -> known_groups input groups -> known_groups input (group_add key spec groups).
Proof.
  intros Hs. unfold known_groups. induction 1 as [|[k group] groups Hg Hgs IH]; cbn [group_add].
  - constructor; [by apply Forall_singleton|constructor].
  - destruct (String.eqb k key); constructor; try done. cbn [snd] in *. apply Forall_app; split; [done|by constructor].
Qed.

Lemma group_specs_known (input : ValidatedInput) (specs : list StaleLockActionSpec) :
  Forall (lock_known input) specs -> known_groups input (group_specs specs).
Proof.
  unfold group_specs. assert (H : known_groups input []) by constructor. revert H. generalize (@nil (string * list StaleLockActionSpec)).
  intros groups H Hs. revert groups H. induction Hs as [|spec specs Hk Hs IH]; intros groups Hg; cbn [foldl]; [done|].
  by apply IH, group_add_known.
Qed.

(** Specs that agree on the holder merge to one for all their artifacts. *)
Lemma merge_known (input : ValidatedInput) (first : StaleLockActionSpec) (others : list StaleLockActionSpec) :
  conflicting first others = false -> Forall (lock_known input) (first :: others) ->
  lock_known input (merge_artifacts first (first :: others)).
Proof.
  intros Hc Hk. unfold lock_known, merge_artifacts. cbn [sl_artifact sl_artifacts sl_holderPid]. split.
  - rewrite elem_of_stable_sort, elem_of_dedup. cbn [map concat]. apply elem_of_app. left.
    by apply Forall_inv in Hk as [? _].
  - intros artifact. rewrite elem_of_stable_sort, elem_of_dedup, list_elem_of_In, in_concat.
    intros (artifacts & (spec & <- & Hin)%in_map_iff & Ha). apply list_elem_of_In in Hin, Ha.
    rewrite Forall_forall in Hk. destruct (Hk _ Hin) as [_ Hspec].
    assert (sl_holderPid spec = sl_holderPid first) as <-; [|by apply Hspec].
    apply elem_of_cons in Hin as [->|Hin]; [done|]. unfold conflicting in Hc.
    apply not_true_iff_false in Hc. rewrite existsb_exists in Hc. apply list_elem_of_In in Hin.
    destruct (decide (sl_holderPid spec = sl_holderPid first)) as [|Hne]; [done|]. exfalso. apply Hc. exists spec.
    split; [done|]. by rewrite (bool_decide_eq_false_2 _ Hne), orb_true_r.
Qed.

Definition settled (acc acc' : Accumulators) : Prop :=
  same_specs acc acc' /\ (ac_refused acc' = false -> ac_refused acc = false) /\ (quiet acc' -> quiet acc).

Lemma merge_groups_Ok (input : ValidatedInput) (groups : list (string * list StaleLockActionSpec)) (acc acc' : Accumulators)
    (specs : list StaleLockActionSpec) :
  merge_groups groups acc = Ok (specs, acc') -> known_groups input groups ->
  settled acc acc' /\ Forall (lock_known input) specs.
Proof.
  unfold settled. revert acc specs. induction groups as [|[key group] rest IH]; intros acc specs; cbn [merge_groups].
  - by intros [= <- <-].
  - intros Hm Hk. inversion Hk as [|? ? Hg Hrest]; subst. cbn [snd] in Hg.
    assert (Hplain : forall group', Forall (lock_known input) group' ->
      (merged <-? merge_groups rest acc ;; let (specs, acc) := merged in Ok (group' ++ specs, acc)) = Ok (specs, acc') ->
      (same_specs acc acc' /\ (ac_refused acc' = false -> ac_refused acc = false) /\ (quiet acc' -> quiet acc))
      /\ Forall (lock_known input) specs).
    { intros group' Hg' ([specs' acc1] & H1 & [= <- <-])%result_bind_Ok. destruct (IH _ _ H1 Hrest) as [? ?].
      split; [done|]. by apply Forall_app. }
    destruct group as [|first [|second others]]; [by apply (Hplain [])|by apply (Hplain [first])|].
    destruct (conflicting first (second :: others)) eqn:Ec.
    + apply result_bind_Ok in Hm as (acc1 & Hv & Hm). apply violate_Ok in Hv as (Hs & _ & Hr & Hq).
      destruct (IH _ _ Hm Hrest) as [(Hs' & Hr' & Hq') Hf]. split; [|done]. split; [by etrans|]. split.
      * intros ?%Hr'. congruence.
      * by intros ?%Hq'%Hq.
    + apply (Hplain [merge_artifacts first (first :: second :: others)]); [|exact Hm].
      constructor; [|done]. by apply merge_known.
Qed.

Lemma locks_Ok (input : ValidatedInput) (acc acc' : Accumulators) (specs : list StaleLockActionSpec) :
  dedupStaleLockActions (ac_pathSpecs acc) acc = Ok (specs, acc') -> Forall (lock_known input) (ac_pathSpecs acc) ->
  settled acc acc' /\ Forall (lock_known input) specs.
Proof.
  unfold dedupStaleLockActions. destruct (length (ac_pathSpecs acc) <=? 1)%nat.
  - intros [= <- <-] ?. done.
  - intros Hm Hk. by eapply merge_groups_Ok; [|apply group_specs_known].
Qed.

(** ** The session stage *)

(** The specs of a component only grow, the others stay, and the paths are left to their stage. *)
Record grows (session journal compaction : SessionDoctorActionSpec -> Prop) (acc acc' : Accumulators) : Prop := {
  gr_session : Forall session (ac_sessionSpecs acc) -> Forall session (ac_sessionSpecs acc');
  gr_journal : Forall journal (ac_journalSpecs acc) -> Forall journal (ac_journalSpecs acc');
  gr_compaction : Forall compaction (ac_compactionSpecs acc) -> Forall compaction (ac_compactionSpecs acc');
  gr_paths : ac_pathSpecs acc' = ac_pathSpecs acc;
  gr_more : ac_sessionSpecs acc' = [] /\ ac_journalSpecs acc' = [] /\ ac_compactionSpecs acc' = [] ->
    ac_sessionSpecs acc = [] /\ ac_journalSpecs acc = [] /\ ac_compactionSpecs acc = [];
}.

Definition session_spec (spec : SessionDoctorActionSpec) : Prop :=
  match spec with
  | quarantine_session_trailing_fragment _ _ _ | append_synthetic_tool_result _ _ _ _ => True
  | _ => False
  end.

Definition journal_spec (spec : SessionDoctorActionSpec) : Prop :=
  match spec with
  | quarantine_journal_trailing_fragment _ _ _ | recover_run _ _ _ _ _ => True
  | _ => False
  end.

Definition compaction_spec (spec : SessionDoctorActionSpec) : Prop :=
  match spec with
  | abandon_stale_compaction _ _ _ _ => True
  | _ => False
  end.

Definition in_place : Accumulators -> Accumulators -> Prop := grows session_spec journal_spec compaction_spec.

#[export] Instance in_place_po : PreOrder in_place.
Proof.
  split; [by intros acc; split|]. intros a b c [] []. split; [by auto|by auto|by auto|congruence|by auto].
Qed.

Lemma same_in_place (acc acc' : Accumulators) :
  same_specs acc acc' -> ac_pathSpecs acc' = ac_pathSpecs acc -> in_place acc acc'.
Proof. intros (Hs & Hj & Hc) Hp. by split; rewrite ?Hs, ?Hj, ?Hc. Qed.

Lemma observe_in_place (a : SessionDoctorArtifact) (r : SessionDoctorFindingReason) (s : SessionDoctorFindingSeverity)
    (c : option string) (ids : option (list string)) (acc acc' : Accumulators) :
  observe a r s c ids acc = Ok acc' -> in_place acc acc'.
Proof. intros (? & ? & _)%observe_Ok. by apply same_in_place. Qed.

Lemma violate_in_place (a : SessionDoctorArtifact) (r : SessionDoctorFindingReason) (c : string) (acc acc' : Accumulators) :
  violate a r c acc = Ok acc' -> in_place acc acc'.
Proof. intros (? & ? & _)%violate_Ok. by apply same_in_place. Qed.

Lemma blocking_loud (a : SessionDoctorArtifact) (r : SessionDoctorFindingReason)
    (c : option string) (ids : option (list string)) (acc acc' : Accumulators) :
  observe a r blocking c ids acc = Ok acc' -> ~ quiet acc'.
Proof. by intros (_ & _ & _ & Hq)%observe_Ok [_ ?]%Hq. Qed.

Lemma append_specs_session (actions : list Repair.SessionRepairAction) (specs : list (nat * SessionDoctorActionSpec)) :
  append_specs actions = Ok specs -> Forall session_spec (map snd specs).
Proof.
  revert specs. induction actions as [|[] rest IH]; intros specs; cbn [append_specs]; [by intros [= <-]|by apply IH|].
  intros (_ & _ & (specs' & H & [= <-])%result_bind_Ok)%result_bind_Ok. constructor; [done|]. by apply IH.
Qed.

Lemma quarantine_specs_session (actions : list Repair.SessionRepairAction) : Forall session_spec (quarantine_specs actions).
Proof.
  unfold quarantine_specs. induction actions as [|[] rest IH]; cbn; [constructor|by constructor|done].
Qed.

Lemma add_session_in_place (specs : list SessionDoctorActionSpec) (acc : Accumulators) :
  Forall session_spec specs -> in_place acc (add_session specs acc).
Proof.
  intros Hs. split; cbn [add_session ac_sessionSpecs ac_journalSpecs ac_compactionSpecs ac_pathSpecs]; try done.
  - intros Ha. by apply Forall_app.
  - intros ([-> _]%app_nil & ? & ?). done.
Qed.

(** Nothing was to do: a quiet repair has no action. *)
Lemma repairable_Ok (actions : list Repair.SessionRepairAction) (acc acc' : Accumulators) :
  derive_repairable actions acc = Ok acc' ->
  in_place acc acc' /\ (quiet acc' -> actions = []).
Proof.
  unfold derive_repairable. intros (appends & Ha & (acc1 & H1 & H2)%result_bind_Ok)%result_bind_Ok. split.
  - assert (Hs : Forall session_spec (quarantine_specs actions ++ map snd (stable_sort by_sequence appends))).
    { apply Forall_app; split; [apply quarantine_specs_session|].
      assert (map snd (stable_sort by_sequence appends) ≡ₚ map snd appends) as -> by (by rewrite stable_sort_perm).
      by apply append_specs_session with actions. }
    etrans; [by apply add_session_in_place|]. transitivity acc1.
    + destruct (0 <? length (quarantine_specs actions))%nat; [eapply observe_in_place; exact H1|injection H1 as <-; reflexivity].
    + destruct (0 <? length (missing_ids actions))%nat; [eapply observe_in_place; exact H2|injection H2 as <-; reflexivity].
  - intros Hq. destruct (0 <? length (missing_ids actions))%nat eqn:Em; [by apply blocking_loud in H2|]. injection H2 as <-.
    destruct (0 <? length (quarantine_specs actions))%nat eqn:Eq; [by apply blocking_loud in H1|]. clear -Em Eq.
    destruct actions as [|[] rest]; done.
Qed.

Lemma blocker_Ok (blocker : Repair.SessionRepairBlocker) (acc acc' : Accumulators) :
  derive_blocker blocker acc = Ok acc' -> in_place acc acc' /\ ~ quiet acc' /\ (ac_refused acc' = false -> ac_refused acc = false).
Proof.
  assert (Ho : forall r c ids, observe art_session r blocking c ids acc = Ok acc' ->
    in_place acc acc' /\ ~ quiet acc' /\ (ac_refused acc' = false -> ac_refused acc = false)).
  { intros r c ids H. split; [eapply observe_in_place; exact H|]. split; [eapply blocking_loud; exact H|].
    by apply observe_Ok in H as (_ & _ & -> & _). }
  unfold derive_blocker. destruct (Repair.bk_reason blocker); try apply Ho.
  intros H. split; [eapply violate_in_place; exact H|]. apply violate_Ok in H as (_ & _ & Hr & Hq). split; [done|by rewrite Hr].
Qed.

(** Findings stay. *)
Definition louder (acc acc' : Accumulators) : Prop := quiet acc' -> quiet acc.

Lemma observe_louder (a : SessionDoctorArtifact) (r : SessionDoctorFindingReason) (s : SessionDoctorFindingSeverity)
    (c : option string) (ids : option (list string)) (acc acc' : Accumulators) :
  observe a r s c ids acc = Ok acc' -> louder acc acc'.
Proof. intros (_ & _ & _ & Hq)%observe_Ok Hquiet. by apply Hq. Qed.

Lemma blockers_Ok (blockers : list Repair.SessionRepairBlocker) (acc acc' : Accumulators) :
  derive_blockers blockers acc = Ok acc' -> in_place acc acc' /\ (quiet acc' -> quiet acc /\ blockers = []).
Proof.
  revert acc. induction blockers as [|blocker rest IH]; intros acc; cbn [derive_blockers]; [by intros [= <-]|].
  intros (acc1 & (Hp & Hl & _)%blocker_Ok & (Hp' & Hq)%IH)%result_bind_Ok. split; [by etrans|]. by intros [? _]%Hq.
Qed.

(** A report of a whole transcript: nothing was found in it. *)
Definition sound_session (sessionId : string) (report : SessionIntegrityReport) : Prop :=
  (forall id, sr_headerId report = Some id -> id = sessionId)
  /\ sr_ok report = true /\ NoDup (call_ids (sr_activeMessages report)) /\ balanced (sr_activeMessages report).

Lemma plan_status_actions (report : SessionIntegrityReport) (options : Repair.CreateSessionRepairPlanOptions)
    (plan : Repair.SessionRepairPlan) :
  Repair.createSessionRepairPlan report options = Ok plan ->
  Repair.pl_status plan = Repair.blocked \/ (Repair.pl_status plan = Repair.not_needed /\ Repair.pl_actions plan = [])
  \/ (Repair.pl_status plan = Repair.repairable /\ Repair.pl_actions plan <> []).
Proof.
  unfold Repair.createSessionRepairPlan. intros (z & _ & H)%result_bind_Ok. revert H.
  destruct (negb _); [intros [= <-]; by left|]. destruct (0 <? _)%nat; [intros [= <-]; by left|].
  destruct (sr_transcript report); [|intros [= <-]; by left]. destruct (_ || _); [intros [= <-]; by left|].
  destruct (Repair.missingTailCalls report); [|intros [= <-]; by left]. intros (appended & _ & H)%result_bind_Ok.
  injection H as <-. right. cbn [Repair.basePlan Repair.pl_status Repair.pl_actions].
  set (acts := match sr_trailingFragment report with Some _ => _ | None => _ end ++ appended).
  destruct (Nat.eqb_spec (length acts) 0) as [Hz|Hz].
  - left. split; [done|]. by apply length_zero_iff_nil.
  - right. split; [done|]. intros E. by rewrite E in Hz.
Qed.

Lemma plan_nothing (report : SessionIntegrityReport) (options : Repair.CreateSessionRepairPlanOptions) (plan : Repair.SessionRepairPlan) :
  Repair.createSessionRepairPlan report options = Ok plan ->
  (Repair.pl_status plan = Repair.blocked -> Repair.pl_blockers plan <> [])
  /\ (Repair.pl_status plan <> Repair.blocked -> Repair.pl_actions plan = [] ->
      sr_ok report = true /\ NoDup (call_ids (sr_activeMessages report)) /\ balanced (sr_activeMessages report)).
Proof.
  intros Hp. destruct (Repair.validateOptions options) as [z|e] eqn:Ho.
  2: { unfold Repair.createSessionRepairPlan in Hp. by rewrite Ho in Hp. }
  destruct (Repair.plan_cases report options z Ho) as (plan' & Hp' & Hcases). rewrite Hp in Hp'. injection Hp' as <-.
  destruct Hcases as [(Hb & _ & Hn & _)|(Hb & _ & Hc & Hr & Hn & Hrep)]; [done|]. split; [done|]. intros _ Hact.
  pose proof (repair_outcome (fun _ => inject_Z z) (sr_activeMessages report) (Some (Repair.repairText (Repair.op_reason options)))) as H.
  rewrite Hrep in H. destruct H as (added & Ha & _ & _ & Hok). unfold Repair.plan_results in Hok. rewrite Hact in Hok.
  cbn in Hok. rewrite app_nil_r in Hok. apply inspect_balanced in Hok. split; [|done]. apply Hn.
  by destruct (plan_status_actions _ _ _ Hp) as [|[[? _]|[_ ?]]].
Qed.

Lemma session_Ok (input : ValidatedInput) (acc acc' : Accumulators) :
  deriveSession input acc = Ok acc' ->
  in_place acc acc' /\ (quiet acc' -> quiet acc /\ sound_session (vi_sessionId input) (vi_report input)).
Proof.
  unfold deriveSession. intros (acc1 & H1 & (plan & Hp & H2)%result_bind_Ok)%result_bind_Ok.
  assert (Hhead : in_place acc acc1 /\ (quiet acc1 -> quiet acc /\ forall id, sr_headerId (vi_report input) = Some id -> id = vi_sessionId input)).
  { destruct (sr_headerId (vi_report input)) as [id|]; [|by injection H1 as <-].
    destruct (String.eqb_spec id (vi_sessionId input)) as [Heq|]; [injection H1 as <-|].
    - split; [done|]. intros ?. split; [done|]. intros id' Hid. congruence.
    - split; [eapply violate_in_place; exact H1|]. by apply violate_Ok in H1 as (_ & _ & _ & Hq). }
  destruct Hhead as [Hp1 Hq1]. destruct (plan_nothing _ _ _ Hp) as [Hb Hn].
  destruct (plan_status_actions _ _ _ Hp) as [Es|[[Es Ha]|[Es Ha]]]; rewrite Es in *.
  - destruct (blockers_Ok _ _ _ H2) as [Hp2 Hq2]. split; [by etrans|]. intros [_ Hnil]%Hq2. by destruct (Hb eq_refl).
  - injection H2 as <-. split; [done|]. intros [? Hid]%Hq1. split; [done|]. split; [done|]. by apply Hn.
  - destruct (repairable_Ok _ _ _ H2) as [Hp2 Hq2]. split; [by etrans|]. by intros Hacts%Hq2.
Qed.

(** ** The journal stage *)

(** A journal of the session that holds no more than whole, sound and closed records. *)
Definition sound_journal (hashFn : string -> option string) (sessionId : string)
    (observation : SessionDoctorJournalObservation) : Prop :=
  jo_terminalRecord observation = None
  /\ exists report, inspectRunJournal hashFn (jo_bytes observation) = Some report /\ rp_ok report = true
     /\ Forall (fun r => rj_sessionId (rj_material r) = sessionId) (rp_records report).

Lemma observe_codes_Ok (codes : list RunJournalFindingCode) (acc acc' : Accumulators) :
  observe_codes codes acc = Ok acc' -> in_place acc acc' /\ (quiet acc' -> quiet acc /\ codes = []).
Proof.
  revert acc. induction codes as [|code rest IH]; intros acc; cbn [observe_codes]; [by intros [= <-]|].
  intros (acc1 & H & (Hp & Hq)%IH)%result_bind_Ok. split; [etrans; [eapply observe_in_place; exact H|done]|].
  intros [Hl _]%Hq. by apply blocking_loud in H.
Qed.

Lemma report_ok_iff (hashFn : string -> option string) (bytes : string) (report : RunJournalReport) :
  inspectRunJournal hashFn bytes = Some report -> rp_findings report = [] -> rp_ok report = true.
Proof.
  unfold inspectRunJournal, inspect_text. intros H Hf. revert H.
  destruct (split_complete bytes) as [complete trailing]. destruct (is_empty complete); [|destruct (utf8_decode complete); try done];
    destruct (parse_lines _ _); intros [= <-]; by apply bool_decide_eq_true.
Qed.

Lemma no_findings (report : RunJournalReport) :
  hard_codes report = [] -> has_code trailing_fragment report = false -> has_code run_unclosed report = false ->
  has_code session_mismatch report = false -> rp_findings report = [].
Proof.
  unfold hard_codes, has_code, is_hard. destruct (rp_findings report) as [|f fs]; [done|]. intros Hh Ht Hu Hm. exfalso.
  cbn [existsb] in Ht, Hu, Hm. apply orb_false_iff in Ht as [Ht _], Hu as [Hu _], Hm as [Hm _].
  apply (elem_of_nil (fd_code f)). rewrite <- Hh, elem_of_dedup. cbn [map List.filter]. rewrite Ht, Hu, Hm. by left.
Qed.

Lemma add_journal_in_place (spec : SessionDoctorActionSpec) (acc : Accumulators) :
  journal_spec spec -> in_place acc (add_journal spec acc).
Proof.
  intros Hs. split; cbn [add_journal ac_sessionSpecs ac_journalSpecs ac_compactionSpecs ac_pathSpecs]; try done.
  - intros Ha. apply Forall_app; split; [done|by apply Forall_singleton].
  - intros (? & [-> _]%app_nil & ?). done.
Qed.

Lemma recovery_Ok (hashFn : string -> option string) (observation : SessionDoctorJournalObservation) (report : RunJournalReport)
    (recoverable recovered : bool) (acc acc' : Accumulators) :
  derive_recovery hashFn observation report recoverable acc = Some (Ok (recovered, acc')) ->
  in_place acc acc' /\ (recoverable = false -> recovered = false)
  /\ (quiet acc' -> quiet acc /\ (recovered = true \/ jo_terminalRecord observation = None)).
Proof.
  unfold derive_recovery. destruct (jo_terminalRecord observation) as [supplied|]; [|intros [= Hrec Hacc]; subst recovered acc'; split_and!; [reflexivity|done|by auto]].
  assert (Hv : forall code, (acc1 <-? violate art_journal contract_violation code acc ;; Ok (false, acc1)) = Ok (recovered, acc') ->
    in_place acc acc' /\ recovered = false /\ ~ quiet acc').
  { intros code (acc1 & H & [= <- <-])%result_bind_Ok. split; [eapply violate_in_place; exact H|].
    split; [done|]. by apply violate_Ok in H as (_ & _ & _ & Hq). }
  destruct recoverable; cbn [negb].
  - destruct (inspectRunJournal hashFn _) as [recheck|]; cbn [mbind option_bind]; [|done].
    destruct (recovered_by recheck supplied) as [r|].
    + intros [= Hrec Hacc]. subst recovered acc'. split; [by apply add_journal_in_place|]. split; [done|]. intros Hq. split; [exact Hq|by left].
    + intros H%(inj Some)%Hv. destruct H as (? & -> & ?). split_and!; [done|done|by intros ?].
  - intros H%(inj Some)%Hv. destruct H as (? & -> & ?). split_and!; [done|done|by intros ?].
Qed.

Lemma trailing_Ok (report : RunJournalReport) (quarantines recovered : bool) (acc acc' : Accumulators) :
  derive_trailing report quarantines (recovered, acc) = Ok acc' ->
  in_place acc acc' /\ (quiet acc' -> quiet acc /\ quarantines && negb recovered = false).
Proof.
  unfold derive_trailing. destruct (quarantines && negb recovered); [|by intros [= <-]].
  intros (acc1 & H & [= <-])%result_bind_Ok. split.
  - etrans; [eapply observe_in_place; exact H|by apply add_journal_in_place].
  - intros Hq. by apply blocking_loud in H.
Qed.

Lemma bound_records (input : ValidatedInput) (report : RunJournalReport) :
  all_bound input report = true -> Forall (fun r => rj_sessionId (rj_material r) = vi_sessionId input) (rp_records report).
Proof.
  unfold all_bound. rewrite forallb_forall. intros H. apply Forall_forall. intros r Hr%list_elem_of_In.
  by apply String.eqb_eq, H.
Qed.

Lemma journal_report_Ok (hashFn : string -> option string) (input : ValidatedInput) (observation : SessionDoctorJournalObservation)
    (report : RunJournalReport) (acc acc' : Accumulators) :
  derive_journal_report hashFn input observation report acc = Some (Ok acc') ->
  in_place acc acc'
  /\ (quiet acc' -> quiet acc /\ jo_terminalRecord observation = None /\ rp_findings report = []
      /\ Forall (fun r => rj_sessionId (rj_material r) = vi_sessionId input) (rp_records report)).
Proof.
  unfold derive_journal_report. set (bound := all_bound input report && negb (has_code session_mismatch report)).
  match goal with |- match ?b with _ => _ end = _ -> _ => destruct b as [acc1|] eqn:Hbefore; [|done] end.
  apply result_bind_Ok in Hbefore as (acc2 & Hb & Hbefore). apply result_bind_Ok in Hbefore as (acc3 & Hc & Hu).
  destruct (derive_recovery _ _ _ _ _) as [[[recovered acc4]|]|] eqn:Hr; cbn [mbind option_bind result_bind]; [|done|done].
  intros Ht%(inj Some). apply recovery_Ok in Hr as (Hpr & Hrf & Hqr). apply trailing_Ok in Ht as (Hpt & Hqt).
  apply observe_codes_Ok in Hc as (Hpc & Hqc).
  assert (Hbound : in_place acc acc2 /\ (quiet acc2 -> quiet acc /\ bound = true)).
  { destruct bound; [by injection Hb as <-|]. split; [eapply violate_in_place; exact Hb|].
    by apply violate_Ok in Hb as (_ & _ & _ & Hq). }
  assert (Hunclosed : in_place acc3 acc1 /\ (quiet acc1 -> quiet acc3 /\ has_code run_unclosed report = false)).
  { destruct (has_code run_unclosed report); [|by injection Hu as <-]. split; [eapply observe_in_place; exact Hu|].
    intros Hq. by apply blocking_loud in Hu. }
  destruct Hbound as [Hpb Hqb], Hunclosed as [Hpu Hqu]. split.
  - etrans; [exact Hpb|]. etrans; [exact Hpc|]. etrans; [exact Hpu|]. by etrans.
  - intros [Hq4 Htr]%Hqt. apply Hqr in Hq4 as [Hq1 Hrec]. apply Hqu in Hq1 as [Hq3 Hun]. apply Hqc in Hq3 as [Hq2 Hhard].
    apply Hqb in Hq2 as [Hq Hbd]. rewrite Hun in Hrf. specialize (Hrf eq_refl) as ->. rewrite Hhard, Hbd in Htr. cbn in Htr.
    rewrite !andb_true_r in Htr. apply andb_true_iff in Hbd as [Hall Hmis%negb_true_iff].
    split; [done|]. split; [by destruct Hrec|]. split; [by apply no_findings|by apply bound_records].
Qed.

Lemma journal_Ok (hashFn : string -> option string) (input : ValidatedInput) (acc acc' : Accumulators) :
  deriveJournal hashFn input acc = Some (Ok acc') ->
  in_place acc acc'
  /\ (quiet acc' -> quiet acc /\ forall observation, vi_journal input = Some observation ->
      sound_journal hashFn (vi_sessionId input) observation).
Proof.
  unfold deriveJournal. destruct (vi_journal input) as [observation|]; [|by intros [= <-]].
  destruct (inspectRunJournal hashFn (jo_bytes observation)) as [report|] eqn:Ei; cbn [mbind option_bind]; [|done].
  intros (Hp & Hq)%journal_report_Ok. split; [done|]. intros (Hq0 & Ht & Hf & Hall)%Hq. split; [done|].
  intros ? [= <-]. split; [done|]. exists report. split; [done|]. split; [by apply report_ok_iff in Ei|done].
Qed.

(** ** The compaction stage *)

(** A transaction of the session that its barrier and the state let commit, or that has been committed. *)
Definition sound_compaction (sessionId : string) (observation : DecideCompactionCommitInput) : Prop :=
  part_session "baseRevision" (dc_transaction observation) = Some sessionId
  /\ part_session "source" (dc_transaction observation) = Some sessionId
  /\ match decideCompactionCommit observation with
     | decide_commit _ _ _ | decide_duplicate _ => True
     | _ => False
     end.

Lemma abandon_Ok (transaction : json) (id : string) (reason : StaleReason) (acc acc' : Accumulators) :
  abandon transaction id reason acc = Ok acc' -> in_place acc acc' /\ ~ quiet acc'.
Proof.
  unfold abandon. intros (acc1 & H & [= <-])%result_bind_Ok. split.
  - etrans; [eapply observe_in_place; exact H|].
    split; cbn [add_compaction ac_sessionSpecs ac_journalSpecs ac_compactionSpecs ac_pathSpecs]; try done.
    + intros Ha. apply Forall_app; split; [done|by apply Forall_singleton].
    + intros (? & ? & [-> _]%app_nil). done.
  - intros Hq. by apply blocking_loud in H.
Qed.

Lemma compaction_Ok (input : ValidatedInput) (acc acc' : Accumulators) :
  deriveCompaction input acc = Ok acc' ->
  in_place acc acc'
  /\ (quiet acc' -> quiet acc /\ forall observation, vi_compaction input = Some observation ->
      sound_compaction (vi_sessionId input) observation).
Proof.
  unfold deriveCompaction, sound_compaction. destruct (vi_compaction input) as [observation|]; [|by intros [= <-]].
  assert (Hv : forall code P, violate art_compaction contract_violation code acc = Ok acc' ->
    in_place acc acc' /\ (quiet acc' -> quiet acc /\ P)).
  { intros code P H. split; [eapply violate_in_place; exact H|]. by apply violate_Ok in H as (_ & _ & _ & Hq). }
  destruct (negb _ || negb _) eqn:Eid; [by apply Hv|]. apply orb_false_iff in Eid as [E1 E2].
  apply negb_false_iff, bool_decide_eq_true in E1, E2.
  assert (Ho : forall r c P, observe art_compaction r blocking c None acc = Ok acc' ->
    in_place acc acc' /\ (quiet acc' -> quiet acc /\ P)).
  { intros r c P H. split; [eapply observe_in_place; exact H|]. intros Hq. by apply blocking_loud in H. }
  destruct (decideCompactionCommit observation) eqn:Ed; try apply Hv; try apply Ho; intros H.
  all: try (apply abandon_Ok in H as [? ?]; by split).
  all: split; [eapply observe_in_place; exact H|]; intros Hq; split; [by apply observe_louder in H; apply H|].
  all: intros ? [= <-]; rewrite Ed; done.
Qed.

(** ** The plan *)

(** What an action touches was attested: the transcript's path for the session and compaction actions, the journal's
    for the journal actions, and each path of a lock to remove, the lock left by the holder it names. *)
Definition acts_where_permitted (input : ValidatedInput) (spec : SessionDoctorActionSpec) : Prop :=
  match spec with
  | remove_stale_lock lock => lock_known input lock
  | quarantine_journal_trailing_fragment _ _ _ | recover_run _ _ _ _ _ => permitted input on_journal any_lock
  | _ => permitted input on_session any_lock
  end.

Lemma placed (hashFn : string -> option string) (input : ValidatedInput) (a b c : Accumulators) :
  deriveSession input no_accumulators = Ok a -> deriveJournal hashFn input a = Some (Ok b) -> deriveCompaction input b = Ok c ->
  Forall session_spec (ac_sessionSpecs c) /\ Forall journal_spec (ac_journalSpecs c)
  /\ Forall compaction_spec (ac_compactionSpecs c) /\ ac_pathSpecs c = [].
Proof.
  intros [H1 _]%session_Ok [H2 _]%journal_Ok [H3 _]%compaction_Ok.
  assert (H : in_place no_accumulators c) by (etrans; [exact H1|etrans; [exact H2|exact H3]]).
  destruct H as [Hs Hj Hc Hp _]. split_and!; [apply Hs; constructor|apply Hj; constructor|apply Hc; constructor|by rewrite Hp].
Qed.

Lemma forall_needed {A} (P : A -> Prop) (l : list A) : (l <> [] -> Forall P l) -> Forall P l.
Proof. destruct l; [constructor|]. intros H. by apply H. Qed.

Lemma permitted_specs (input : ValidatedInput) (P : SessionDoctorActionSpec -> Prop) (artifact : SessionDoctorActionArtifact)
    (specs : list SessionDoctorActionSpec) :
  (forall spec, P spec -> permitted input artifact any_lock -> acts_where_permitted input spec) ->
  Forall P specs -> (specs <> [] -> permitted input artifact any_lock) -> Forall (acts_where_permitted input) specs.
Proof.
  intros Himp Hp Hn. apply forall_needed. intros Hne. specialize (Hn Hne). eapply Forall_impl; [exact Hp|]. intros spec Hs. by apply Himp.
Qed.

Lemma needed_length (specs : list SessionDoctorActionSpec) : specs <> [] -> (0 <? length specs)%nat = true.
Proof. by destruct specs. Qed.

(** The specs of a plan that is not refused act where they may. *)
Lemma permitted_final (hashFn : string -> option string) (raw : SessionDoctorPlanInput) (plan : SessionDoctorPlan)
    (H : planned hashFn raw plan) :
  vi_mode (pn_input _ _ _ H) <> mode_inspect -> ac_refused (pn_final _ _ _ H) = false ->
  Forall (acts_where_permitted (pn_input _ _ _ H))
    (ac_sessionSpecs (pn_final _ _ _ H) ++ ac_journalSpecs (pn_final _ _ _ H)
     ++ map remove_stale_lock (pn_locks _ _ _ H) ++ ac_compactionSpecs (pn_final _ _ _ H)).
Proof.
  destruct H as [input a b c paths checks final locks s j Hv Ha Hb Hc Hs Hj Hp Hk Hl Hplan].
  cbn [pn_input pn_final pn_locks]. intros Hmode Hr.
  destruct (placed _ _ _ _ _ Ha Hb Hc) as (Hss & Hjs & Hcs & Hps).
  destruct (paths_Ok _ _ _ _ _ Hp) as (Hsame1 & Hknown & Hr1 & _); [by rewrite Hps|].
  destruct (checks_Ok _ _ _ Hk) as (Hsame2 & Hpaths2 & Hr2 & _).
  destruct (locks_Ok input _ _ _ Hl) as ((Hsame3 & Hr3 & _) & Hlocks); [by rewrite Hpaths2|].
  assert (Hsame : same_specs c final) by (etrans; [exact Hsame1|etrans; [exact Hsame2|exact Hsame3]]).
  destruct Hsame as (-> & -> & ->). specialize (Hr3 Hr). rewrite Hr2 in Hr3. destruct (Hr1 Hr3) as [_ Hperm].
  destruct (Hperm Hmode) as [Hsession Hjournal]. rewrite bool_decide_eq_false_2 in Hs, Hj by done. cbn [negb andb] in Hs, Hj.
  repeat (apply Forall_app; split).
  - apply (permitted_specs input session_spec on_session); [by intros []|done|]. intros Hne%needed_length. apply Hsession.
    by rewrite Hs, Hne.
  - apply (permitted_specs input journal_spec on_journal); [by intros []|done|]. intros Hne%needed_length. apply Hjournal.
    by rewrite Hj, Hne.
  - apply Forall_map. exact Hlocks.
  - apply (permitted_specs input compaction_spec on_session); [by intros []|done|]. intros Hne%needed_length. apply Hsession.
    by rewrite Hs, Hne, orb_true_r.
Qed.

Lemma imap_numbers {A} (l : list A) (k : nat) :
  map fst (imap (fun index x => (k + index, x)) l) = seq k (length l) /\ map snd (imap (fun index x => (k + index, x)) l) = l.
Proof.
  revert k. induction l as [|x l IH]; intros k; [done|]. rewrite imap_cons. cbn [map fst snd length seq].
  rewrite (imap_ext _ (fun index y => (S k + index, y))) by (intros index y _; cbn; by rewrite Nat.add_succ_r).
  destruct (IH (S k)) as [-> ->]. by rewrite Nat.add_0_r.
Qed.

(** C9: The doctor acts only where it was authorised. The actions of a plan are numbered from zero, there are none when
    it only inspects, all of them are scheduled when it repairs and none otherwise; and every action stays within what
    the path policy attested for the mode: the session file, the journal, and the locks left by dead processes of this
    host. *)
Theorem doctor_acts_where_authorized (hashFn : string -> option string) (raw : SessionDoctorPlanInput) (plan : SessionDoctorPlan)
    (Hplan : planSessionDoctor hashFn raw = Some (Ok plan)) :
  exists input, validateInput raw = Ok input
    /\ map fst (dp_actions plan) = seq 0 (length (dp_actions plan))
    /\ (vi_mode input = mode_inspect -> dp_actions plan = [])
    /\ dp_scheduledWrites plan = (if decide (vi_mode input = mode_repair) then length (dp_actions plan) else 0)
    /\ Forall (acts_where_permitted input) (map snd (dp_actions plan)).
Proof.
  destruct (plan_stages _ _ _ Hplan) as [H]. pose proof (permitted_final _ _ _ H) as Hperm.
  exists (pn_input _ _ _ H). split; [apply (pn_valid _ _ _ H)|]. revert Hperm. pose proof (pn_plan _ _ _ H) as Heq. revert Heq.
  generalize (pn_input _ _ _ H) (pn_final _ _ _ H) (pn_locks _ _ _ H). clear. intros input final locks -> Hperm.
  unfold assemble. cbn [dp_actions dp_scheduledWrites].
  set (specs := ac_sessionSpecs final ++ _) in *. destruct (imap_numbers specs 0) as [Hn Hs].
  cbn [Nat.add] in Hn, Hs.
  destruct (ac_refused final) eqn:Er; cbn [orb negb].
  { rewrite andb_false_r. split_and!; [done|done|by destruct (decide _)|constructor]. }
  rewrite andb_true_r. case_bool_decide as Hi.
  { rewrite Hi. split_and!; [done|done|done|constructor]. }
  split_and!; [|done| |].
  - by rewrite Hn, length_imap.
  - by case_bool_decide; destruct (decide _).
  - rewrite Hs. by apply Hperm.
Qed.

Lemma healthy_quiet (input : ValidatedInput) (locks : list StaleLockActionSpec) (acc : Accumulators) :
  dp_status (assemble input locks acc) = healthy ->
  quiet acc /\ dp_actions (assemble input locks acc) = [] /\ dp_exitCode (assemble input locks acc) = 0.
Proof.
  unfold assemble, quiet. cbn [dp_status dp_actions dp_exitCode].
  set (specs := ac_sessionSpecs acc ++ _). destruct (ac_refused acc); [done|].
  destruct (negb (existsb is_blocking (sortFindings (ac_findings acc)))) eqn:Eb; [|done].
  destruct (Nat.eqb_spec (length (imap (fun index spec => (index, spec)) specs)) 0) as [Hl|]; [|done]. intros _.
  split_and!; [done| | |done].
  - apply negb_true_iff, existsb_false_Forall in Eb. unfold sortFindings in Eb. rewrite stable_sort_perm in Eb.
    eapply Forall_impl; [exact Eb|]. intros f Hf. unfold is_blocking in Hf. apply bool_decide_eq_false in Hf.
    by destruct (df_severity f).
  - apply length_zero_iff_nil in Hl. rewrite Hl. by destruct (bool_decide _).
Qed.

(** C10: A healthy session is sound: when a plan says healthy there was nothing to find. The transcript is whole and of
    this session, the journal closed with all its records of this session, the compaction current or committed, every
    path given authorised, and every further check passed. *)
Theorem doctor_healthy_is_sound (hashFn : string -> option string) (raw : SessionDoctorPlanInput) (plan : SessionDoctorPlan)
    (Hplan : planSessionDoctor hashFn raw = Some (Ok plan)) (Hhealthy : dp_status plan = healthy) :
  exists input, validateInput raw = Ok input
    /\ dp_actions plan = [] /\ dp_exitCode plan = 0
    /\ sound_session (vi_sessionId input) (vi_report input)
    /\ (forall observation, vi_journal input = Some observation -> sound_journal hashFn (vi_sessionId input) observation)
    /\ (forall observation, vi_compaction input = Some observation -> sound_compaction (vi_sessionId input) observation)
    /\ (forall artifact, is_Some (subject_of input artifact) -> permitted input artifact any_lock)
    /\ Forall (fun check => nc_status check = "ok") (vi_normalizedChecks input).
Proof.
  destruct (plan_stages _ _ _ Hplan) as [[input a b c paths checks final locks s j Hv Ha Hb Hc Hs Hj Hp Hk Hl Heq]].
  exists input. split; [exact Hv|]. subst plan.
  destruct (placed _ _ _ _ _ Ha Hb Hc) as (_ & _ & _ & Hps).
  destruct (session_Ok _ _ _ Ha) as [_ Hqs]. destruct (journal_Ok _ _ _ _ Hb) as [_ Hqj].
  destruct (compaction_Ok _ _ _ Hc) as [_ Hqc]. destruct (paths_Ok _ _ _ _ _ Hp) as (_ & Hknown & _ & Hqp); [by rewrite Hps|].
  destruct (checks_Ok _ _ _ Hk) as (_ & Hpaths2 & _ & Hqk).
  destruct (locks_Ok input _ _ _ Hl) as ((_ & _ & Hql) & _); [by rewrite Hpaths2|].
  destruct (healthy_quiet _ _ _ Hhealthy) as (Hq & Hact & Hcode).
  apply Hql, Hqk in Hq as [Hq Hchecks]. apply Hqp in Hq as [Hq Hpaths]. apply Hqc in Hq as [Hq Hcomp].
  apply Hqj in Hq as [Hq Hjour]. apply Hqs in Hq as [_ Hsess]. split_and!; done.
Qed.

(** ** Examples *)

Definition text_fields (fields : list (string * string)) : list (string * jsval) :=
  map (fun field => (fst field, JString (snd field))) fields.

Definition sample_stat : jsval :=
  JObject (text_fields [("dev", "66"); ("ino", "4021"); ("owner", "1000")]
           ++ [("nlink", JNumber (NumFin 1)); ("size", JNumber (NumFin 812)); ("mtime", JNumber (NumFin 17)); ("regular", JBool true)]).

Definition sample_link (path : string) : jsval :=
  JObject (text_fields [("lexical", path); ("realpath", path); ("linkKind", "none")]).

(** The evidence on a regular file of a session folder, its lock left by a dead process. *)
Definition sample_path (state target : string) (holder : jsval) : jsval :=
  JObject (text_fields [("platform", "posix"); ("root", "/home/u/sessions"); ("target", target)]
           ++ [("identity", JObject (text_fields [("owner", "1000")]));
               ("lock", JObject [("state", JString state); ("sameHost", JBool true); ("pidDefinitelyAbsent", JBool true);
                                 ("holderPid", holder)]);
               ("evidence", JObject (text_fields [("platform", "posix"); ("trustedRootLexical", "/home/u/sessions");
                                                  ("trustedRootRealpath", "/home/u/sessions")]
                  ++ [("schemaVersion", JNumber (NumFin 1));
                      ("target", JObject (text_fields [("lexical", target); ("realpath", target)]));
                      ("chain", JArray (map sample_link ["/home/u/sessions"; "/home/u/sessions/p"; target]));
                      ("statBefore", sample_stat); ("statAfter", sample_stat);
                      ("opened", JObject (text_fields [("dev", "66"); ("ino", "4021")]))]))]).

Definition sample_input (mode bytes : string) (session : jsval) (journal : option SessionDoctorJournalObservation)
    : option SessionDoctorPlanInput :=
  report ← sample_inspect bytes;
  Some {| di_keys := ["schemaVersion"; "mode"; "sessionId"; "repairId"; "timestamp"; "report"; "paths"];
          di_schemaVersion := JNumber (NumFin 1); di_mode := JString mode; di_sessionId := JString "session-1";
          di_repairId := JString "repair-1"; di_timestamp := JNumber (NumFin 1700000000000); di_report := report; di_journal := journal;
          di_paths := JObject [("session", session)]; di_compaction := None; di_normalizedChecks := JUndefined |}.

Definition sample_plan (mode bytes : string) (session : jsval) (journal : option SessionDoctorJournalObservation)
    : option SessionDoctorPlan :=
  input ← sample_input mode bytes session journal;
  plan ← planSessionDoctor length_hash input;
  match plan with
  | Ok p => Some p
  | Err _ => None
  end.

Definition sample_observation : option SessionDoctorJournalObservation :=
  j ← sample_journal true; Some {| jo_bytes := toBytes j; jo_terminalRecord := None |}.

Definition stale_path : jsval := sample_path "stale" "/home/u/sessions/p/s.jsonl" (JString "77").
Definition free_path : jsval := sample_path "absent" "/home/u/sessions/p/s.jsonl" JNull.

Definition action_name (spec : SessionDoctorActionSpec) : string :=
  match spec with
  | quarantine_session_trailing_fragment _ _ _ => "quarantine_session"
  | append_synthetic_tool_result id _ _ _ => ("append " ++ id)%string
  | quarantine_journal_trailing_fragment _ _ _ => "quarantine_journal"
  | recover_run id _ _ _ _ => ("recover " ++ id)%string
  | remove_stale_lock lock => ("unlock " ++ default "none" (sl_holderPid lock))%string
  | abandon_stale_compaction id _ _ _ => ("abandon " ++ id)%string
  end.

Definition summary (plan : SessionDoctorPlan) : nat * nat * list string :=
  (dp_exitCode plan, dp_scheduledWrites plan, map (action_name ∘ snd) (dp_actions plan)).

(** A torn session is repaired behind its stale lock; it is refused without a path that may be written; and the sound
    session with a closed journal is healthy. *)
Example doctor_examples :
  map (fun p => summary <$> p)
    [sample_plan "repair" Repair.torn_session stale_path None; sample_plan "repair_dry_run" Repair.torn_session stale_path None;
     sample_plan "inspect" Repair.torn_session stale_path None;
     sample_plan "repair" Repair.torn_session (sample_path "live" "/home/u/sessions/p/s.jsonl" (JString "77")) None;
     sample_plan "repair" sample_session free_path sample_observation]
  = [Some (1, 3, ["quarantine_session"; "append a"; "unlock 77"]);
     Some (1, 0, ["quarantine_session"; "append a"; "unlock 77"]);
     Some (1, 0, []); Some (2, 0, []); Some (0, 0, [])].
Proof. vm_compute. reflexivity. Qed.

Lemma sample_plan_planned (mode bytes : string) (session : jsval) (journal : option SessionDoctorJournalObservation)
    (plan : SessionDoctorPlan) :
  sample_plan mode bytes session journal = Some plan -> exists input, planSessionDoctor length_hash input = Some (Ok plan).
Proof.
  unfold sample_plan. destruct (sample_input _ _ _ _) as [input|]; cbn [mbind option_bind]; [|done].
  destruct (planSessionDoctor length_hash input) as [[p|]|] eqn:E; cbn [mbind option_bind]; [|done|done].
  intros [= <-]. by exists input.
Qed.

Lemma sample_repair_planned : option_map summary (sample_plan "repair" Repair.torn_session stale_path None)
  = Some (1, 3, ["quarantine_session"; "append a"; "unlock 77"]).
Proof. vm_compute. reflexivity. Qed.

Lemma doctor_acts_where_authorized_witness :
  match sample_plan "repair" Repair.torn_session stale_path None with
  | Some plan => length (dp_actions plan) = 3 /\ map fst (dp_actions plan) = [0; 1; 2]
  | None => False
  end.
Proof.
  pose proof sample_repair_planned as H.
  destruct (sample_plan "repair" Repair.torn_session stale_path None) as [plan|] eqn:E; [|discriminate H].
  destruct (sample_plan_planned _ _ _ _ _ E) as [input Hp].
  destruct (doctor_acts_where_authorized length_hash input plan Hp) as (vi & _ & Hn & _).
  apply (inj Some) in H. assert (Hl : length (dp_actions plan) = 3) by (apply (f_equal (length ∘ snd)) in H; by rewrite <- (length_map (action_name ∘ snd))).
  split; [exact Hl|]. by rewrite Hn, Hl.
Defined.

Lemma sample_healthy_planned : option_map (fun plan => (dp_status plan, dp_actions plan))
    (sample_plan "repair" sample_session free_path sample_observation)
  = Some (healthy, []).
Proof. vm_compute. reflexivity. Qed.

Lemma doctor_healthy_is_sound_witness :
  match sample_plan "repair" sample_session free_path sample_observation with
  | Some plan => dp_exitCode plan = 0
  | None => False
  end.
Proof.
  pose proof sample_healthy_planned as H.
  destruct (sample_plan "repair" sample_session free_path sample_observation) as [plan|] eqn:E; [|discriminate H].
  destruct (sample_plan_planned _ _ _ _ _ E) as [input Hp]. apply (inj Some) in H.
  destruct (doctor_healthy_is_sound length_hash input plan Hp) as (vi & _ & _ & Hexit & _); [by apply (f_equal fst) in H|].
  exact Hexit.
Defined.
