(* ===== verification/JsText.v ===== *)
(** * Texts as UTF-16 code units

    The strings of JavaScript with their UTF-16 code units, for the tools that
    measure, cut and match the text of files: searching, splitting and joining,
    and the UTF-8 of Node's buffers, in which a surrogate without its partner is
    a replacement character. *)

From Stdlib Require Import Ascii String ZArith Lia.
From stdpp Require Import base list option strings.
From S2P Require Import Prelude.

Open Scope Z_scope.
Open Scope list_scope.

Definition text : Type := list Z.

(** Every element is a code unit. *)
Definition code_units (t : text) : bool := forallb (fun u => (0 <=? u) && (u <? 65536)) t.

Fixpoint literal (s : string) : text :=
  match s with
  | EmptyString => []
  | String a s' => Z.of_nat (nat_of_ascii a) :: literal s'
  end.

Definition line_feed_unit : Z := 10.
Definition carriage_return_unit : Z := 13.

Definition text_eqb (s t : text) : bool := bool_decide (s = t).

(** ** Searching *)

Fixpoint text_prefix (p t : text) : bool :=
  match p, t with
  | [], _ => true
  | u :: p', v :: t' => (u =? v) && text_prefix p' t'
  | _ :: _, [] => false
  end.

(** [t.indexOf(needle)] *)
Fixpoint indexOf (needle t : text) : option nat :=
  if text_prefix needle t then Some 0%nat
  else
    match t with
    | [] => None
    | _ :: t' => S <$> indexOf needle t'
    end.

Definition text_includes (needle t : text) : bool :=
  match indexOf needle t with
  | Some _ => true
  | None => false
  end.

Definition text_ends_with (suffix t : text) : bool := text_prefix (rev suffix) (rev t).

(** ** Splitting and joining *)

(** The pieces between the occurrences of a separator of [S n] code units;
    [skip] counts the units of the current occurrence that are left. *)
Fixpoint split_from (separator : text) (skip : nat) (t : text) : list text :=
  match t with
  | [] => [[]]
  | u :: t' =>
      match skip with
      | S k => split_from separator k t'
      | O =>
          if text_prefix separator t then [] :: split_from separator (length separator - 1) t'
          else
            match split_from separator 0 t' with
            | piece :: pieces => (u :: piece) :: pieces
            | [] => [[u]]
            end
      end
  end.

(** [t.split(separator)]: by the empty separator, the code units. *)
Definition text_split (separator t : text) : list text :=
  match separator with
  | [] => map (fun u => [u]) t
  | _ => split_from separator 0 t
  end.

Fixpoint text_join (separator : text) (pieces : list text) : text :=
  match pieces with
  | [] => []
  | [piece] => piece
  | piece :: rest => piece ++ separator ++ text_join separator rest
  end.

Definition lines_of (t : text) : list text := text_split [line_feed_unit] t.
Definition join_lines (lines : list text) : text := text_join [line_feed_unit] lines.

(** ** White space *)

(** White space and line terminators of the language. *)
Definition is_space_unit (u : Z) : bool :=
  ((9 <=? u) && (u <=? 13)) || existsb (Z.eqb u) [32; 160; 5760; 8232; 8233; 8239; 8287; 12288; 65279]
  || ((8192 <=? u) && (u <=? 8202)).

(** [t.trimEnd()] *)
Fixpoint text_trim_end (t : text) : text :=
  match t with
  | [] => []
  | u :: t' =>
      match text_trim_end t' with
      | [] => if is_space_unit u then [] else [u]
      | kept => u :: kept
      end
  end.

(** ** Code points *)

Definition is_high (u : Z) : bool := (55296 <=? u) && (u <? 56320).
Definition is_low (u : Z) : bool := (56320 <=? u) && (u <? 57344).
Definition replacement_point : Z := 65533.

(** The code points, a lone surrogate replaced. *)
Fixpoint points (t : text) : list Z :=
  match t with
  | [] => []
  | u :: rest =>
      if is_high u then
        match rest with
        | v :: rest' =>
            if is_low v then (65536 + (u - 55296) * 1024 + (v - 56320)) :: points rest' else replacement_point :: points rest
        | [] => [replacement_point]
        end
      else (if is_low u then replacement_point else u) :: points rest
  end.

Definition units_of_point (c : Z) : text :=
  if c <? 65536 then [c] else [55296 + (c - 65536) / 1024; 56320 + (c - 65536) mod 1024].

(** A Unicode scalar value. *)
Definition is_scalar (c : Z) : bool := ((0 <=? c) && (c <? 55296)) || ((57344 <=? c) && (c <=? 1114111)).

(** ** UTF-8 *)

Definition encode_point (c : Z) : list Z :=
  if c <? 128 then [c]
  else if c <? 2048 then [192 + c / 64; 128 + c mod 64]
  else if c <? 65536 then [224 + c / 4096; 128 + c / 64 mod 64; 128 + c mod 64]
  else [240 + c / 262144; 128 + c / 4096 mod 64; 128 + c / 64 mod 64; 128 + c mod 64].

(** [Buffer.from(t, "utf-8")] *)
Definition text_bytes (t : text) : list Z := concat (map encode_point (points t)).

(** [Buffer.byteLength(t, "utf-8")] *)
Definition byteLength (t : text) : nat := length (text_bytes t).

(** A decoder: the point so far, the bytes it still needs, and the bounds of the next. *)
Record Decoder : Type := {
  de_point : Z;
  de_needed : nat;
  de_lower : Z;
  de_upper : Z;
}.

Definition ready : Decoder := {| de_point := 0; de_needed := 0; de_lower := 128; de_upper := 191 |}.

Definition pending (point : Z) (needed : nat) (lower upper : Z) : list Z * Decoder :=
  ([], {| de_point := point; de_needed := needed; de_lower := lower; de_upper := upper |}).

(** The first byte of a character: what it gives at once, and the decoder after it. *)
Definition lead_byte (b : Z) : list Z * Decoder :=
  if b <? 128 then ([b], ready)
  else if (194 <=? b) && (b <=? 223) then pending (b - 192) 1 128 191
  else if (224 <=? b) && (b <=? 239) then
    pending (b - 224) 2 (if b =? 224 then 160 else 128) (if b =? 237 then 159 else 191)
  else if (240 <=? b) && (b <=? 244) then
    pending (b - 240) 3 (if b =? 240 then 144 else 128) (if b =? 244 then 143 else 191)
  else ([replacement_point], ready).

(** A byte: outside the bounds it ends the character with a replacement and starts the next. *)
Definition decode_byte (d : Decoder) (b : Z) : list Z * Decoder :=
  match de_needed d with
  | O => lead_byte b
  | S more =>
      if (de_lower d <=? b) && (b <=? de_upper d) then
        let point := de_point d * 64 + (b - 128) in
        if (more =? 0)%nat then ([point], ready) else pending point more 128 191
      else let (out, d') := lead_byte b in (replacement_point :: out, d')
  end.

Fixpoint decode_points (d : Decoder) (bytes : list Z) : list Z :=
  match bytes with
  | [] => if (de_needed d =? 0)%nat then [] else [replacement_point]
  | b :: rest => let (out, d') := decode_byte d b in out ++ decode_points d' rest
  end.

(** [buffer.toString("utf-8")] *)
Definition bytes_text (bytes : list Z) : text := concat (map units_of_point (decode_points ready bytes)).

(** ** Code points and bytes *)

Lemma code_units_cons (u : Z) (t : text) : code_units (u :: t) = true <-> (0 <= u < 65536) /\ code_units t = true.
Proof. cbn [code_units forallb]. rewrite !andb_true_iff, Z.leb_le, Z.ltb_lt. tauto. Qed.

Lemma code_units_app (s t : text) : code_units (s ++ t) = true <-> code_units s = true /\ code_units t = true.
Proof. unfold code_units. by rewrite forallb_app, andb_true_iff. Qed.

(** Induction over the code points of a text. *)
Lemma text_pair_ind (P : text -> Prop) :
  P [] -> (forall u t, P t -> (forall v t', t = v :: t' -> P t') -> P (u :: t)) -> forall t, P t.
Proof.
  intros Hnil Hcons t. enough (H : P t /\ forall v t', t = v :: t' -> P t') by apply H.
  induction t as [|u t [IH IH']]; [done|]. split; [by apply Hcons|]. by intros v t' [= <- <-].
Qed.

Definition low_first (t : text) : bool :=
  match t with
  | u :: _ => is_low u
  | [] => false
  end.

Lemma points_pair (u v : Z) (t : text) :
  is_high u = true -> is_low v = true -> points (u :: v :: t) = (65536 + (u - 55296) * 1024 + (v - 56320)) :: points t.
Proof. intros Hu Hv. change (points (u :: v :: t)) with (if is_high u then if is_low v then (65536 + (u - 55296) * 1024 + (v - 56320)) :: points t else replacement_point :: points (v :: t) else (if is_low u then replacement_point else u) :: points (v :: t)). by rewrite Hu, Hv. Qed.

Lemma points_single (u : Z) (t : text) :
  is_high u && low_first t = false -> points (u :: t) = (if is_high u || is_low u then replacement_point else u) :: points t.
Proof.
  destruct t as [|v t]; cbn [low_first]; intros H.
  - cbn [points]. by destruct (is_high u).
  - change (points (u :: v :: t)) with (if is_high u then if is_low v then (65536 + (u - 55296) * 1024 + (v - 56320)) :: points t else replacement_point :: points (v :: t) else (if is_low u then replacement_point else u) :: points (v :: t)).
    destruct (is_high u); [cbn in H; by rewrite H|done].
Qed.

(** A text is a pair of surrogates or another unit, and the rest. *)
Lemma text_cases (u : Z) (t : text) :
  (exists v t', t = v :: t' /\ is_high u = true /\ is_low v = true) \/ is_high u && low_first t = false.
Proof.
  destruct (is_high u) eqn:Eh; [|by right]. destruct t as [|v t]; [by right|]. cbn [low_first].
  destruct (is_low v) eqn:El; [left; by exists v, t|by right].
Qed.

(** A unit that is no low surrogate begins a code point. *)
Lemma points_app (s t : text) : low_first t = false -> points (s ++ t) = points s ++ points t.
Proof.
  intros Ht. induction s as [|x s IH IH'] using text_pair_ind; [done|]. cbn [app].
  destruct (text_cases x s) as [(v & s' & -> & Hx & Hv)|Hx].
  - cbn [app]. rewrite !points_pair by done. cbn [app]. f_equal. by apply (IH' v).
  - rewrite (points_single x s Hx), points_single, IH; [done|]. destruct s as [|y s]; [|done]. cbn [app]. by rewrite Ht, andb_false_r.
Qed.

Lemma is_scalar_iff (c : Z) : is_scalar c = true <-> 0 <= c < 55296 \/ 57344 <= c <= 1114111.
Proof. unfold is_scalar. rewrite orb_true_iff, !andb_true_iff, !Z.leb_le, !Z.ltb_lt. lia. Qed.

Lemma is_high_iff (u : Z) : is_high u = true <-> 55296 <= u < 56320.
Proof. unfold is_high. by rewrite andb_true_iff, Z.leb_le, Z.ltb_lt. Qed.

Lemma is_low_iff (u : Z) : is_low u = true <-> 56320 <= u < 57344.
Proof. unfold is_low. by rewrite andb_true_iff, Z.leb_le, Z.ltb_lt. Qed.

Lemma not_surrogate (u : Z) : u < 55296 \/ 57344 <= u -> is_high u = false /\ is_low u = false.
Proof. intros H. split; apply not_true_iff_false; rewrite ?is_high_iff, ?is_low_iff; lia. Qed.

Lemma points_scalar (t : text) : code_units t = true -> Forall (fun c => is_scalar c = true) (points t).
Proof.
  induction t as [|u t IH IH'] using text_pair_ind; intros Hc; [constructor|]. apply code_units_cons in Hc as [Hu Hc].
  destruct (text_cases u t) as [(v & t' & -> & Hh & Hl)|Hs].
  - rewrite points_pair by done. apply code_units_cons in Hc as [Hv Ht]. constructor; [|by apply (IH' v t')].
    apply is_high_iff in Hh. apply is_low_iff in Hl. apply is_scalar_iff. lia.
  - rewrite points_single by done. constructor; [|by apply IH].
    destruct (is_high u || is_low u) eqn:E; [done|]. apply orb_false_iff in E as [E1 E2]. apply is_scalar_iff.
    apply not_true_iff_false in E1, E2. rewrite is_high_iff in E1. rewrite is_low_iff in E2. lia.
Qed.

Lemma points_of_units (ps : list Z) (t : text) :
  Forall (fun c => is_scalar c = true) ps -> points (concat (map units_of_point ps) ++ t) = ps ++ points t.
Proof.
  induction 1 as [|c ps Hc Hps IH]; cbn [map concat app]; [done|]. apply is_scalar_iff in Hc. rewrite <- app_assoc.
  unfold units_of_point at 1. destruct (Z.ltb_spec c 65536) as [Hlt|Hge]; cbn [app].
  - destruct (not_surrogate c) as [Hh Hl]; [lia|]. rewrite points_single by (by rewrite Hh). by rewrite Hh, Hl, IH.
  - rewrite points_pair, IH.
    + f_equal. Z.to_euclidean_division_equations. lia.
    + apply is_high_iff. Z.to_euclidean_division_equations. lia.
    + apply is_low_iff. Z.to_euclidean_division_equations. lia.
Qed.

(** ** Decoding inverts encoding *)

Definition utf8_of (ps : list Z) : list Z := concat (map encode_point ps).

Lemma decode_ready_ascii (b : Z) (bytes : list Z) : b < 128 -> decode_points ready (b :: bytes) = b :: decode_points ready bytes.
Proof. intros H. cbn [decode_points decode_byte de_needed ready]. unfold lead_byte. by rewrite (proj2 (Z.ltb_lt b 128) H). Qed.

(** A byte within its bounds goes on with the character. *)
Lemma decode_within (point : Z) (more : nat) (lower upper b : Z) (bytes : list Z) :
  lower <= b <= upper ->
  decode_points {| de_point := point; de_needed := S more; de_lower := lower; de_upper := upper |} (b :: bytes)
  = if (more =? 0)%nat then (point * 64 + (b - 128)) :: decode_points ready bytes
    else decode_points {| de_point := point * 64 + (b - 128); de_needed := more; de_lower := 128; de_upper := 191 |} bytes.
Proof.
  intros H. cbn [decode_points decode_byte de_needed de_lower de_upper de_point].
  rewrite (proj2 (Z.leb_le lower b)), (proj2 (Z.leb_le b upper)) by lia. cbn [andb]. by destruct (more =? 0)%nat.
Qed.

Definition lead_decoder (b : Z) : Decoder :=
  if b <? 224 then {| de_point := b - 192; de_needed := 1; de_lower := 128; de_upper := 191 |}
  else if b <? 240 then
    {| de_point := b - 224; de_needed := 2; de_lower := if b =? 224 then 160 else 128; de_upper := if b =? 237 then 159 else 191 |}
  else {| de_point := b - 240; de_needed := 3; de_lower := if b =? 240 then 144 else 128; de_upper := if b =? 244 then 143 else 191 |}.

Lemma decode_lead (b : Z) (bytes : list Z) :
  194 <= b <= 244 -> decode_points ready (b :: bytes) = decode_points (lead_decoder b) bytes.
Proof.
  intros H. cbn [decode_points decode_byte de_needed ready]. unfold lead_byte, lead_decoder.
  destruct (Z.ltb_spec b 128); [lia|]. destruct (Z.ltb_spec b 224).
  { rewrite (proj2 (Z.leb_le 194 b)), (proj2 (Z.leb_le b 223)) by lia. done. }
  rewrite (proj2 (Z.leb_gt b 223)), andb_false_r by lia.
  destruct (Z.ltb_spec b 240).
  { rewrite (proj2 (Z.leb_le 224 b)), (proj2 (Z.leb_le b 239)) by lia. done. }
  rewrite (proj2 (Z.leb_gt b 239)), andb_false_r, (proj2 (Z.leb_le 240 b)), (proj2 (Z.leb_le b 244)) by lia. done.
Qed.

Ltac euclid := Z.to_euclidean_division_equations; lia.

(** A whole character is decoded at once. *)
Lemma decode_encode_point (c : Z) (bytes : list Z) :
  is_scalar c = true -> decode_points ready (encode_point c ++ bytes) = c :: decode_points ready bytes.
Proof.
  rewrite is_scalar_iff. intros Hc. unfold encode_point.
  destruct (Z.ltb_spec c 128) as [H1|H1]; [by apply decode_ready_ascii|].
  destruct (Z.ltb_spec c 2048) as [H2|H2]; [|destruct (Z.ltb_spec c 65536) as [H3|H3]]; cbn [app].
  - rewrite decode_lead by euclid. unfold lead_decoder. rewrite (proj2 (Z.ltb_lt _ 224)) by euclid.
    rewrite decode_within by euclid. cbn [Nat.eqb]. f_equal. euclid.
  - rewrite decode_lead by euclid. unfold lead_decoder. rewrite (proj2 (Z.ltb_ge _ 224)) by euclid.
    rewrite (proj2 (Z.ltb_lt _ 240)) by euclid. rewrite decode_within.
    2: { destruct (Z.eqb_spec (224 + c / 4096) 224), (Z.eqb_spec (224 + c / 4096) 237); euclid. }
    cbn [Nat.eqb]. rewrite decode_within by euclid. cbn [Nat.eqb]. f_equal. euclid.
  - rewrite decode_lead by euclid. unfold lead_decoder. rewrite (proj2 (Z.ltb_ge _ 224)) by euclid.
    rewrite (proj2 (Z.ltb_ge _ 240)) by euclid. rewrite decode_within.
    2: { destruct (Z.eqb_spec (240 + c / 262144) 240), (Z.eqb_spec (240 + c / 262144) 244); euclid. }
    cbn [Nat.eqb]. rewrite decode_within by euclid. cbn [Nat.eqb]. rewrite decode_within by euclid. cbn [Nat.eqb]. f_equal. euclid.
Qed.

Lemma decode_utf8 (ps : list Z) : Forall (fun c => is_scalar c = true) ps -> decode_points ready (utf8_of ps) = ps.
Proof.
  unfold utf8_of. induction 1 as [|c ps Hc Hps IH]; cbn [map concat]; [done|]. by rewrite decode_encode_point, IH.
Qed.

(** Text that came from UTF-8 goes back to it. *)
Lemma text_of_utf8 (ps : list Z) : Forall (fun c => is_scalar c = true) ps -> points (bytes_text (utf8_of ps)) = ps.
Proof.
  intros H. unfold bytes_text. rewrite decode_utf8 by done. rewrite <- (app_nil_r (concat _)), points_of_units by done.
  by rewrite app_nil_r.
Qed.

Lemma encode_point_bounds (c : Z) : (1 <= length (encode_point c) <= 4)%nat.
Proof. unfold encode_point. repeat case_match; cbn; lia. Qed.

Lemma text_bytes_app (s t : text) : low_first t = false -> text_bytes (s ++ t) = text_bytes s ++ text_bytes t.
Proof. intros H. unfold text_bytes. by rewrite points_app, map_app, concat_app. Qed.

(** A line feed is one byte and parts the text around it. *)
Lemma text_bytes_line (s t : text) : text_bytes (s ++ line_feed_unit :: t) = text_bytes s ++ line_feed_unit :: text_bytes t.
Proof. rewrite text_bytes_app by done. f_equal; unfold text_bytes; by rewrite points_single. Qed.

(** ** Lines *)

Definition is_line (t : text) : Prop := Forall (fun u => u <> line_feed_unit) t.

Lemma lines_cons (u : Z) (t : text) :
  lines_of (u :: t) = if u =? line_feed_unit then [] :: lines_of t
                      else match lines_of t with
                           | line :: lines => (u :: line) :: lines
                           | [] => [[u]]
                           end.
Proof.
  unfold lines_of, text_split. cbn [split_from text_prefix]. rewrite andb_true_r, (Z.eqb_sym line_feed_unit u). done.
Qed.

Lemma lines_nonempty (t : text) : lines_of t <> [].
Proof. destruct t as [|u t]; [done|]. rewrite lines_cons. destruct (u =? line_feed_unit); [done|]. by destruct (lines_of t). Qed.

Lemma join_lines_cons (line : text) (lines : list text) :
  lines <> [] -> join_lines (line :: lines) = line ++ line_feed_unit :: join_lines lines.
Proof. by destruct lines. Qed.

(** The lines joined are the text, and no line holds a line feed. *)
Lemma join_lines_of (t : text) : join_lines (lines_of t) = t.
Proof.
  induction t as [|u t IH]; [done|]. rewrite lines_cons. pose proof (lines_nonempty t) as Hn.
  destruct (Z.eqb_spec u line_feed_unit) as [->|Hu]; [by rewrite join_lines_cons, IH|].
  destruct (lines_of t) as [|line lines]; [done|]. rewrite <- IH. by destruct lines.
Qed.

Lemma lines_are_lines (t : text) : Forall is_line (lines_of t).
Proof.
  induction t as [|u t IH]; [by repeat constructor|]. rewrite lines_cons.
  destruct (Z.eqb_spec u line_feed_unit) as [->|Hu]; [constructor; [constructor|done]|].
  destruct IH as [|line lines Hl Hls]; [by repeat constructor|]. constructor; [by constructor|done].
Qed.

Lemma lines_of_line (line : text) : is_line line -> lines_of line = [line].
Proof.
  induction 1 as [|u line Hu Hl IH]; [done|]. rewrite lines_cons, IH. by rewrite (proj2 (Z.eqb_neq u line_feed_unit)).
Qed.

Lemma lines_of_app (line t : text) : is_line line -> lines_of (line ++ line_feed_unit :: t) = line :: lines_of t.
Proof.
  induction 1 as [|u line Hu Hl IH]; cbn [app]; rewrite lines_cons; [done|].
  by rewrite IH, (proj2 (Z.eqb_neq u line_feed_unit)).
Qed.

Lemma lines_of_join (lines : list text) : lines <> [] -> Forall is_line lines -> lines_of (join_lines lines) = lines.
Proof.
  intros Hn H. induction H as [|line lines Hl Hls IH]; [done|]. destruct lines as [|l lines]; [by apply lines_of_line|].
  rewrite join_lines_cons by done. rewrite lines_of_app, IH by done. done.
Qed.

Fixpoint sum_bytes (lines : list text) : nat :=
  match lines with
  | [] => 0
  | line :: rest => byteLength line + sum_bytes rest
  end.

Lemma join_lines_bytes (lines : list text) : byteLength (join_lines lines) = (sum_bytes lines + (length lines - 1))%nat.
Proof.
  induction lines as [|line lines IH]; [done|]. destruct lines as [|l lines].
  - change (join_lines [line]) with line. cbn. lia.
  - rewrite join_lines_cons by done. unfold byteLength in *. rewrite text_bytes_line, length_app. cbn [length].
    rewrite IH. cbn [sum_bytes length]. unfold byteLength. lia.
Qed.

Lemma join_lines_snoc (lines : list text) (line : text) :
  join_lines (lines ++ [line]) = match lines with [] => line | _ => join_lines lines ++ line_feed_unit :: line end.
Proof.
  induction lines as [|l lines IH]; [done|]. cbn [app]. rewrite join_lines_cons by (by destruct lines). rewrite IH.
  destruct lines as [|l' lines]; [done|]. rewrite (join_lines_cons l) by done. by rewrite <- app_assoc.
Qed.

(** ** Occurrences *)

Lemma text_prefix_iff (p t : text) : text_prefix p t = true <-> exists rest, t = p ++ rest.
Proof.
  revert t. induction p as [|u p IH]; intros t; cbn [text_prefix]; [split; [by exists t|done]|].
  destruct t as [|v t]; [split; [done|by intros [? ?]]|]. rewrite andb_true_iff, Z.eqb_eq, IH. split.
  - intros [-> [rest ->]]. by exists rest.
  - intros [rest [= -> ->]]. split; [done|]. by exists rest.
Qed.

(** The first occurrence. *)
Lemma indexOf_Some (needle t : text) (i : nat) :
  indexOf needle t = Some i -> exists rest, t = take i t ++ needle ++ rest /\ (i + length needle <= length t)%nat.
Proof.
  revert i. induction t as [|u t IH]; intros i; cbn [indexOf].
  - destruct (text_prefix needle []) eqn:E; [|done]. intros [= <-]. apply text_prefix_iff in E as [rest E].
    exists rest. rewrite (E : [] = needle ++ rest) at 1. split; [done|]. apply (f_equal length) in E. rewrite length_app in E. cbn in *. lia.
  - destruct (text_prefix needle (u :: t)) eqn:E.
    + intros [= <-]. apply text_prefix_iff in E as [rest E]. exists rest. rewrite E. split; [done|]. rewrite length_app. lia.
    + destruct (indexOf needle t) as [j|] eqn:Ej; [|done]. cbn. intros [= <-]. destruct (IH j eq_refl) as (rest & Ht & Hl).
      exists rest. cbn [take app length]. split; [by f_equal|lia].
Qed.

Lemma indexOf_None (needle a b : text) : indexOf needle (a ++ needle ++ b) <> None.
Proof.
  induction a as [|u a IH].
  - cbn [app]. assert (text_prefix needle (needle ++ b) = true) as H by (apply text_prefix_iff; by exists b).
    by destruct (needle ++ b) as [|v t]; cbn [indexOf]; rewrite H.
  - cbn [app indexOf]. destruct (text_prefix needle _); [done|]. by destruct (indexOf needle (a ++ needle ++ b)).
Qed.

Lemma occurrence_at (needle t : text) (i : nat) :
  indexOf needle t = Some i -> take (length needle) (drop i t) = needle.
Proof.
  intros H. destruct (indexOf_Some _ _ _ H) as (rest & Ht & Hl). rewrite Ht, drop_app_ge by (rewrite length_take; lia).
  rewrite length_take, Nat.min_l by lia. by rewrite Nat.sub_diag, drop_0, take_app_length.
Qed.

Lemma split_nonempty (separator : text) (k : nat) (t : text) : split_from separator k t <> [].
Proof.
  destruct t as [|u t]; [done|]. cbn [split_from]. destruct k as [|k].
  - destruct (text_prefix separator (u :: t)); [done|]. by destruct (split_from separator 0 t).
  - revert k. induction t as [|v t IH]; intros k; [done|]. cbn [split_from]. destruct k as [|k]; [|apply IH].
    destruct (text_prefix separator (v :: t)); [done|]. by destruct (split_from separator 0 t).
Qed.

Lemma split_skip (separator : text) (k : nat) (t : text) : split_from separator k t = split_from separator 0 (drop k t).
Proof. revert k. induction t as [|u t IH]; intros k; [by rewrite drop_nil|]. destruct k as [|k]; [done|]. cbn [drop]. apply IH. Qed.

(** A split goes on after the first occurrence. *)
Lemma split_at_occurrence (separator t : text) (i : nat) :
  separator <> [] -> indexOf separator t = Some i ->
  split_from separator 0 t = take i t :: split_from separator 0 (drop (i + length separator) t).
Proof.
  intros Hs. revert i. induction t as [|u t IH]; intros i; cbn [indexOf]; [by destruct separator|]. cbn [split_from].
  destruct (text_prefix separator (u :: t)).
  - intros [= <-]. rewrite split_skip. destruct separator as [|v separator]; [done|]. cbn [length Nat.add take drop].
    by rewrite Nat.sub_succ, Nat.sub_0_r.
  - destruct (indexOf separator t) as [j|]; [|done]. cbn. intros [= <-]. rewrite (IH j eq_refl). done.
Qed.

(** A text that splits in at most two pieces holds at most one occurrence. *)
Lemma split_unique (separator t : text) (i : nat) :
  separator <> [] -> (length (text_split separator t) <= 2)%nat -> indexOf separator t = Some i ->
  indexOf separator (drop (i + length separator) t) = None.
Proof.
  intros Hs Hl Hi. assert (Hsplit : text_split separator t = split_from separator 0 t) by (by destruct separator). rewrite Hsplit in Hl.
  rewrite (split_at_occurrence _ _ _ Hs Hi) in Hl. destruct (indexOf separator (drop _ t)) as [j|] eqn:Ej; [|done]. exfalso.
  rewrite (split_at_occurrence _ _ _ Hs Ej) in Hl. cbn [length] in Hl.
  pose proof (split_nonempty separator 0 (drop (j + length separator) (drop (i + length separator) t))) as Hn.
  destruct (split_from _ _ _); [done|]. cbn in Hl. lia.
Qed.
