(* ===== verification/Truncate.v ===== *)
(** * Truncation of tool output
    (packages/coding-agent/src/core/tools/truncate.ts)

    The two limits on what a tool returns, lines and UTF-8 bytes, applied from
    the head for files and from the tail for commands. Limits are natural
    numbers, as the tools pass them; texts are UTF-16 code units. *)

From Stdlib Require Import Ascii String ZArith Lia.
From stdpp Require Import base list option strings.
From S2P Require Import Prelude JsString JsValue JsText.

Open Scope nat_scope.
Open Scope list_scope.

Definition DEFAULT_MAX_LINES : nat := 2000.
Definition DEFAULT_MAX_BYTES : nat := 50 * 1024.
Definition GREP_MAX_LINE_LENGTH : nat := 500.

Inductive TruncatedBy : Type := by_lines | by_bytes.

Record TruncationResult : Type := {
  tr_content : text;
  tr_truncated : bool;
  tr_truncatedBy : option TruncatedBy;
  tr_totalLines : nat;
  tr_totalBytes : nat;
  tr_outputLines : nat;
  tr_outputBytes : nat;
  tr_lastLinePartial : bool;
  tr_firstLineExceedsLimit : bool;
  tr_maxLines : nat;
  tr_maxBytes : nat;
}.

Record TruncationOptions : Type := {
  opt_maxLines : option nat;
  opt_maxBytes : option nat;
}.

Definition splitLinesForCounting (content : text) : list text :=
  match content with
  | [] => []
  | _ =>
      let lines := lines_of content in
      if text_ends_with [line_feed_unit] content then take (length lines - 1) lines else lines
  end.

(** The decimals of a number, the last of them after a point: [(n / unit).toFixed(1)] for a power of two [unit], so the
    quotient is exact and a half rounds up. *)
Definition to_fixed_one (n unit : nat) : text :=
  let tenths := (20 * n + unit) / (2 * unit) in
  literal (nat_str (tenths / 10)) ++ literal "." ++ literal (nat_str (tenths mod 10)).

Definition formatSize (bytes : nat) : text :=
  if bytes <? 1024 then literal (nat_str bytes) ++ literal "B"
  else if bytes <? 1024 * 1024 then to_fixed_one bytes 1024 ++ literal "KB"
  else to_fixed_one bytes (1024 * 1024) ++ literal "MB".

(** The whole content. *)
Definition not_truncated (content : text) (maxLines maxBytes : nat) : TruncationResult :=
  let totalLines := length (splitLinesForCounting content) in
  {| tr_content := content; tr_truncated := false; tr_truncatedBy := None; tr_totalLines := totalLines;
     tr_totalBytes := byteLength content; tr_outputLines := totalLines; tr_outputBytes := byteLength content;
     tr_lastLinePartial := false; tr_firstLineExceedsLimit := false; tr_maxLines := maxLines; tr_maxBytes := maxBytes |}.

(** The bytes a further line takes, with the line feed before it. *)
Definition line_bytes (line : text) (taken : nat) : nat := byteLength line + (if 0 <? taken then 1 else 0).

(** The loop from line [length taken] on: the lines taken and their bytes, and what ended it. *)
Fixpoint head_loop (maxLines maxBytes : nat) (lines taken : list text) (bytes : nat) : list text * nat * TruncatedBy :=
  match lines with
  | [] => (taken, bytes, by_lines)
  | line :: rest =>
      if length taken <? maxLines then
        if maxBytes <? bytes + line_bytes line (length taken) then (taken, bytes, by_bytes)
        else head_loop maxLines maxBytes rest (taken ++ [line]) (bytes + line_bytes line (length taken))
      else (taken, bytes, by_lines)
  end.

(** What ended a loop, but for the line limit. *)
Definition ended_by (maxLines maxBytes : nat) (taken : list text) (bytes : nat) (by_ : TruncatedBy) : TruncatedBy :=
  if (maxLines <=? length taken) && (bytes <=? maxBytes) then by_lines else by_.

Definition truncateHead (content : text) (options : TruncationOptions) : TruncationResult :=
  let maxLines := default DEFAULT_MAX_LINES (opt_maxLines options) in
  let maxBytes := default DEFAULT_MAX_BYTES (opt_maxBytes options) in
  let totalBytes := byteLength content in
  let lines := splitLinesForCounting content in
  if (length lines <=? maxLines) && (totalBytes <=? maxBytes) then not_truncated content maxLines maxBytes
  else if maxBytes <? byteLength (default [] (head lines)) then
    {| tr_content := []; tr_truncated := true; tr_truncatedBy := Some by_bytes; tr_totalLines := length lines;
       tr_totalBytes := totalBytes; tr_outputLines := 0; tr_outputBytes := 0; tr_lastLinePartial := false;
       tr_firstLineExceedsLimit := true; tr_maxLines := maxLines; tr_maxBytes := maxBytes |}
  else
    let '(taken, bytes, by_) := head_loop maxLines maxBytes lines [] 0 in
    {| tr_content := join_lines taken; tr_truncated := true; tr_truncatedBy := Some (ended_by maxLines maxBytes taken bytes by_);
       tr_totalLines := length lines; tr_totalBytes := totalBytes; tr_outputLines := length taken;
       tr_outputBytes := byteLength (join_lines taken); tr_lastLinePartial := false; tr_firstLineExceedsLimit := false;
       tr_maxLines := maxLines; tr_maxBytes := maxBytes |}.

(** [(b & 0xc0) === 0x80] *)
Definition continues (b : Z) : bool := (Z.land b 192 =? 128)%Z.

(** The bytes from the next start of a character. *)
Fixpoint skip_continuation (bytes : list Z) : list Z :=
  match bytes with
  | b :: rest => if continues b then skip_continuation rest else bytes
  | [] => []
  end.

Definition truncateStringToBytesFromEnd (str : text) (maxBytes : nat) : text :=
  let buf := text_bytes str in
  if length buf <=? maxBytes then str else bytes_text (skip_continuation (drop (length buf - maxBytes) buf)).

(** The loop over the lines from the last: the lines taken, their bytes, what ended it, and whether the line is partial. *)
Fixpoint tail_loop (maxLines maxBytes : nat) (reversed taken : list text) (bytes : nat) : list text * nat * TruncatedBy * bool :=
  match reversed with
  | [] => (taken, bytes, by_lines, false)
  | line :: rest =>
      if length taken <? maxLines then
        if maxBytes <? bytes + line_bytes line (length taken) then
          match taken with
          | [] =>
              let truncatedLine := truncateStringToBytesFromEnd line maxBytes in
              ([truncatedLine], byteLength truncatedLine, by_bytes, true)
          | _ => (taken, bytes, by_bytes, false)
          end
        else tail_loop maxLines maxBytes rest (line :: taken) (bytes + line_bytes line (length taken))
      else (taken, bytes, by_lines, false)
  end.

Definition truncateTail (content : text) (options : TruncationOptions) : TruncationResult :=
  let maxLines := default DEFAULT_MAX_LINES (opt_maxLines options) in
  let maxBytes := default DEFAULT_MAX_BYTES (opt_maxBytes options) in
  let totalBytes := byteLength content in
  let lines := splitLinesForCounting content in
  if (length lines <=? maxLines) && (totalBytes <=? maxBytes) then not_truncated content maxLines maxBytes
  else
    let '(taken, bytes, by_, partial) := tail_loop maxLines maxBytes (rev lines) [] 0 in
    {| tr_content := join_lines taken; tr_truncated := true; tr_truncatedBy := Some (ended_by maxLines maxBytes taken bytes by_);
       tr_totalLines := length lines; tr_totalBytes := totalBytes; tr_outputLines := length taken;
       tr_outputBytes := byteLength (join_lines taken); tr_lastLinePartial := partial; tr_firstLineExceedsLimit := false;
       tr_maxLines := maxLines; tr_maxBytes := maxBytes |}.

(** The line, and whether it was cut. *)
Definition truncateLine (line : text) (maxChars : nat) : text * bool :=
  if length line <=? maxChars then (line, false) else (take maxChars line ++ literal "... [truncated]", true).

(** ** Lines and bytes *)

Lemma counted_lines (content : text) : Forall is_line (splitLinesForCounting content).
Proof.
  unfold splitLinesForCounting. destruct content as [|u t]; [constructor|]. pose proof (lines_are_lines (u :: t)) as H.
  destruct (text_ends_with _ _); [by apply Forall_take|done].
Qed.

(** The bytes of lines joined, counted as the loops count them. *)
Definition joined_bytes (lines : list text) : nat := sum_bytes lines + (length lines - 1).

Lemma joined_snoc (lines : list text) (line : text) :
  joined_bytes (lines ++ [line]) = joined_bytes lines + line_bytes line (length lines).
Proof.
  unfold joined_bytes, line_bytes. rewrite length_app. cbn [length].
  assert (sum_bytes (lines ++ [line]) = sum_bytes lines + byteLength line) as ->.
  { induction lines as [|l lines IH]; cbn [app sum_bytes]; [lia|]. rewrite IH. lia. }
  destruct lines; cbn [length Nat.ltb Nat.leb]; lia.
Qed.

Lemma joined_cons (line : text) (lines : list text) :
  joined_bytes (line :: lines) = joined_bytes lines + line_bytes line (length lines).
Proof. unfold joined_bytes, line_bytes. cbn [sum_bytes length]. destruct lines; cbn [length Nat.ltb Nat.leb]; lia. Qed.

(** ** From the head *)

Lemma head_loop_spec (maxLines maxBytes : nat) (all taken : list text) (k : nat) :
  taken = take k all -> k <= length all -> k <= maxLines -> joined_bytes taken <= maxBytes ->
  let '(out, bytes, by_) := head_loop maxLines maxBytes (drop k all) taken (joined_bytes taken) in
  out = take (length out) all /\ bytes = joined_bytes out /\ length out <= maxLines /\ joined_bytes out <= maxBytes
  /\ length out <= length all
  /\ (length out < maxLines -> length out < length all -> maxBytes < joined_bytes (take (S (length out)) all)).
Proof.
  remember (drop k all) as rest eqn:Hr. revert taken k Hr. induction rest as [|line rest IH]; intros taken k Hr Ht Hk Hm Hb; cbn [head_loop].
  - assert (length all <= k) by (apply (f_equal length) in Hr; rewrite length_drop in Hr; cbn in Hr; lia).
    assert (Hl : length taken = k) by (rewrite Ht, length_take; lia). rewrite Hl. split_and!; try done; lia.
  - assert (Hl : length taken = k) by (rewrite Ht, length_take; lia). rewrite Hl.
    assert (Hline : all !! k = Some line).
    { rewrite <- (Nat.add_0_r k), <- lookup_drop, <- Hr. done. }
    assert (Hlt : k < length all) by (by apply lookup_lt_is_Some_1; rewrite Hline).
    assert (Hnext : take (S k) all = taken ++ [line]) by (rewrite Ht; by apply take_S_r).
    assert (Hbytes : joined_bytes (taken ++ [line]) = joined_bytes taken + line_bytes line k) by (by rewrite joined_snoc, Hl).
    destruct (Nat.ltb_spec k maxLines) as [Hkm|Hkm].
    2: { rewrite Hl. split_and!; try done; lia. }
    destruct (Nat.ltb_spec maxBytes (joined_bytes taken + line_bytes line k)) as [Hov|Hok].
    + rewrite Hl. split_and!; try done; try lia. intros _ _. rewrite Hnext, Hbytes. lia.
    + rewrite <- Hbytes. apply (IH (taken ++ [line]) (S k)); [|done|lia|lia|lia].
      apply (f_equal (drop 1)) in Hr. rewrite drop_drop in Hr. cbn in Hr. by rewrite Nat.add_1_r in Hr.
Qed.


(** ** From the tail *)

Lemma continues_iff (b : Z) : (0 <= b < 256)%Z -> continues b = ((128 <=? b) && (b <? 192))%Z.
Proof.
  intros Hb.
  assert (H : forallb (fun n => Bool.eqb (continues (Z.of_nat n)) ((128 <=? Z.of_nat n) && (Z.of_nat n <? 192))%Z) (seq 0 256) = true)
    by (vm_compute; reflexivity).
  rewrite forallb_forall in H. specialize (H (Z.to_nat b)). rewrite Z2Nat.id in H by lia. apply eqb_prop, H, in_seq. lia.
Qed.

Lemma encode_point_shape (c : Z) : is_scalar c = true ->
  exists b conts, encode_point c = b :: conts /\ continues b = false /\ Forall (fun x => continues x = true) conts
    /\ length conts <= 3.
Proof.
  rewrite is_scalar_iff. intros Hc.
  assert (Hlead : forall b, (0 <= b < 128 \/ 192 <= b < 256)%Z -> continues b = false).
  { intros b Hb. rewrite continues_iff by lia. apply andb_false_iff. rewrite Z.leb_gt, Z.ltb_ge. lia. }
  assert (Hcont : forall x, (128 <= x < 192)%Z -> continues x = true).
  { intros x Hx. rewrite continues_iff by lia. by rewrite (proj2 (Z.leb_le _ _)), (proj2 (Z.ltb_lt _ _)) by lia. }
  unfold encode_point. destruct (Z.ltb_spec c 128) as [H1|H1]; [|destruct (Z.ltb_spec c 2048) as [H2|H2];
    [|destruct (Z.ltb_spec c 65536) as [H3|H3]]]; eexists _, _; (split; [reflexivity|]).
  all: split; [apply Hlead; euclid|split; [repeat (constructor; [apply Hcont; euclid|]); constructor|cbn; lia]].
Qed.

Lemma skip_conts (conts rest : list Z) :
  Forall (fun x => continues x = true) conts -> skip_continuation (conts ++ rest) = skip_continuation rest.
Proof. induction 1 as [|x conts Hx Hc IH]; cbn [app skip_continuation]; [done|]. by rewrite Hx. Qed.

Lemma skip_utf8 (ps : list Z) : Forall (fun c => is_scalar c = true) ps -> skip_continuation (utf8_of ps) = utf8_of ps.
Proof.
  intros H. destruct H as [|c ps Hc Hps]; [done|]. destruct (encode_point_shape c Hc) as (b & conts & He & Hb & _).
  unfold utf8_of. cbn [map concat]. rewrite He. cbn [app skip_continuation]. by rewrite Hb.
Qed.

(** Past a boundary the bytes are whole characters, and at most three are passed. *)
Lemma skip_drop (ps : list Z) (n : nat) :
  Forall (fun c => is_scalar c = true) ps ->
  exists k, skip_continuation (drop n (utf8_of ps)) = utf8_of (drop k ps)
    /\ length (utf8_of ps) - n <= length (utf8_of (drop k ps)) + 3 /\ length (utf8_of (drop k ps)) <= length (utf8_of ps) - n.
Proof.
  intros H. revert n. induction H as [|c ps Hc Hps IH]; intros n.
  { exists 0. change (utf8_of (drop 0 [])) with (@nil Z). change (utf8_of []) with (@nil Z). rewrite drop_nil. split; [done|cbn; lia]. }
  assert (Hcons : utf8_of (c :: ps) = encode_point c ++ utf8_of ps) by done. rewrite Hcons, length_app.
  destruct (encode_point_shape c Hc) as (b & conts & He & Hb & Hconts & Hlen).
  destruct n as [|n].
  { exists 0. rewrite !drop_0, Hcons, length_app.
    split; [|lia]. rewrite <- Hcons. apply skip_utf8. by constructor. }
  destruct (Nat.le_gt_cases (length (encode_point c)) (S n)) as [Hge|Hlt].
  - destruct (IH (S n - length (encode_point c))) as (k & Hk & Hl1 & Hl2). exists (S k). cbn [drop].
    rewrite drop_app_ge by done. split; [exact Hk|]. lia.
  - exists 1. cbn [drop]. rewrite drop_app_le by lia. rewrite He. cbn [drop]. rewrite He in Hlt. cbn [length] in *.
    rewrite skip_conts by (by apply Forall_drop). split; [by apply skip_utf8|]. rewrite ?drop_0. cbn [length]. lia.
Qed.

Lemma cut_line_spec (line : text) (maxBytes : nat) :
  code_units line = true -> maxBytes < byteLength line ->
  let cut := truncateStringToBytesFromEnd line maxBytes in
  text_bytes cut `suffix_of` text_bytes line /\ byteLength cut <= maxBytes <= byteLength cut + 3.
Proof.
  intros Hc Hlong. cbv zeta. unfold truncateStringToBytesFromEnd. unfold byteLength in *.
  rewrite (proj2 (Nat.leb_gt _ _)) by done. pose proof (points_scalar line Hc) as Hs.
  change (text_bytes line) with (utf8_of (points line)) in *.
  destruct (skip_drop (points line) (length (utf8_of (points line)) - maxBytes) Hs) as (k & -> & Hl1 & Hl2).
  assert (Hb : text_bytes (bytes_text (utf8_of (drop k (points line)))) = utf8_of (drop k (points line))).
  { unfold text_bytes. rewrite text_of_utf8; [done|]. by apply Forall_drop. }
  rewrite Hb. split; [|lia]. rewrite <- (take_drop k (points line)) at 2. unfold utf8_of at 2. rewrite map_app, concat_app.
  by eexists.
Qed.

Lemma tail_loop_spec (maxLines maxBytes : nat) (front taken : list text) :
  forallb code_units front = true -> length taken <= maxLines -> joined_bytes taken <= maxBytes ->
  let '(out, bytes, by_, partial) := tail_loop maxLines maxBytes (rev front) taken (joined_bytes taken) in
  length out <= maxLines /\ joined_bytes out <= maxBytes /\ bytes = joined_bytes out
  /\ if partial
     then taken = [] /\ exists line cut, last front = Some line /\ out = [cut] /\ maxBytes < byteLength line
          /\ text_bytes cut `suffix_of` text_bytes line /\ maxBytes <= byteLength cut + 3
     else length taken <= length out /\ out = drop (length (front ++ taken) - length out) (front ++ taken)
          /\ (length out < maxLines -> length out < length (front ++ taken) ->
              maxBytes < joined_bytes (drop (length (front ++ taken) - S (length out)) (front ++ taken))).
Proof.
  revert taken. induction front as [|line front IH] using rev_ind; intros taken Hc Hk Hb.
  - cbn [rev tail_loop app]. rewrite Nat.sub_diag. split_and!; try done. lia.
  - rewrite rev_app_distr. cbn [rev app tail_loop]. rewrite forallb_app in Hc. apply andb_true_iff in Hc as [Hc Hline].
    cbn in Hline. rewrite andb_true_r in Hline. rewrite <- app_assoc. cbn [app].
    assert (Hjoin : joined_bytes (line :: taken) = joined_bytes taken + line_bytes line (length taken)) by apply joined_cons.
    assert (Hdrop : drop (length (front ++ line :: taken) - length taken) (front ++ line :: taken) = taken).
    { rewrite length_app. cbn [length]. replace (length front + S (length taken) - length taken) with (length (front ++ [line]))
        by (rewrite length_app; cbn; lia). change (front ++ line :: taken) with (front ++ [line] ++ taken).
      rewrite app_assoc. apply drop_app_length. }
    assert (Hdrop' : drop (length (front ++ line :: taken) - S (length taken)) (front ++ line :: taken) = line :: taken).
    { rewrite length_app. cbn [length]. replace (length front + S (length taken) - S (length taken)) with (length front) by lia.
      apply drop_app_length. }
    destruct (Nat.ltb_spec (length taken) maxLines) as [Hlt|Hge].
    2: { split_and!; try done. lia. }
    destruct (Nat.ltb_spec maxBytes (joined_bytes taken + line_bytes line (length taken))) as [Hov|Hok].
    + destruct taken as [|first taken].
      * unfold line_bytes in Hov. cbn in Hov. rewrite Nat.add_0_r in Hov.
        destruct (cut_line_spec line maxBytes Hline Hov) as (Hsuf & Hle & Hge3).
        assert (Hcut : joined_bytes [truncateStringToBytesFromEnd line maxBytes] = byteLength (truncateStringToBytesFromEnd line maxBytes))
          by (unfold joined_bytes; cbn; lia).
        rewrite Hcut. split_and!; try done. exists line, (truncateStringToBytesFromEnd line maxBytes). rewrite last_snoc. done.
      * do 3 (split; [done|]). split; [done|]. split; [by rewrite Hdrop|]. intros _ _. rewrite Hdrop', Hjoin. done.
    + rewrite <- Hjoin. specialize (IH (line :: taken) Hc ltac:(cbn; lia) ltac:(lia)).
      destruct (tail_loop _ _ _ _ _) as [[[out bytes] by_] partial]. destruct IH as (H1 & H2 & H3 & H4). split_and!; try done.
      destruct partial; [by destruct H4|]. destruct H4 as (H5 & H6 & H7). cbn [length] in H5. split_and!; try done. lia.
Qed.

Lemma lines_code_units (t : text) : code_units t = true -> forallb code_units (lines_of t) = true.
Proof.
  induction t as [|u t IH]; [done|]. intros Hc. apply code_units_cons in Hc as [Hu Hc]. specialize (IH Hc). rewrite lines_cons.
  destruct (u =? line_feed_unit)%Z; [done|]. pose proof (lines_nonempty t) as Hn. destruct (lines_of t) as [|line lines]; [done|].
  cbn [forallb] in *. apply andb_true_iff in IH as [Hl ->]. rewrite (proj2 (code_units_cons u line)); [done|]. by split.
Qed.

Lemma counted_code_units (content : text) : code_units content = true -> forallb code_units (splitLinesForCounting content) = true.
Proof.
  unfold splitLinesForCounting. destruct content as [|u t]; [done|]. intros H%lines_code_units.
  destruct (text_ends_with _ _); [|done]. rewrite <- (take_drop (length (lines_of (u :: t)) - 1) (lines_of (u :: t))), forallb_app in H.
  by apply andb_true_iff in H as [H _].
Qed.


(** The limit that was hit is misreported: a line feed at the end is counted in the bytes of the content but not in the
    lines, so that the bytes exceed their limit although every line fits, and the result blames the line limit. *)
Lemma trailing_newline_misreported :
  let r := truncateHead (literal "ab" ++ [line_feed_unit]) {| opt_maxLines := Some 5; opt_maxBytes := Some 2 |} in
  tr_truncated r = true /\ tr_truncatedBy r = Some by_lines /\ tr_outputLines r = 1 /\ tr_totalLines r = 1 /\ tr_maxLines r = 5.
Proof. vm_compute. done. Qed.

(** ** Examples *)

Definition limits (maxLines maxBytes : nat) : TruncationOptions := {| opt_maxLines := Some maxLines; opt_maxBytes := Some maxBytes |}.

Example truncation_examples :
  let content := literal "one" ++ [10%Z] ++ literal "two" ++ [10%Z] ++ literal "three" in
  map tr_content [truncateHead content (limits 2 100); truncateHead content (limits 9 8); truncateTail content (limits 2 100);
                  truncateTail content (limits 9 4)]
  = [literal "one" ++ [10%Z] ++ literal "two"; literal "one" ++ [10%Z] ++ literal "two";
     literal "two" ++ [10%Z] ++ literal "three"; literal "hree"]
  /\ map formatSize [1023; 1536; 1024 * 1024 * 5 / 2] = [literal "1023B"; literal "1.5KB"; literal "2.5MB"].
Proof. vm_compute. done. Qed.

