(* ===== verification/EditDiff.v ===== *)
(** * The edits of the edit tool
    (packages/coding-agent/src/core/tools/edit-diff.ts, edit.ts)

    Matching the old texts of edits against a file, exactly or after
    normalization, replacing them, and the diff shown. Texts are UTF-16 code
    units. The Unicode tables of the runtime, [normalize("NFKC")] and the
    combining marks, are arguments, and so is [diffLines] of the diff package. *)

From Stdlib Require Import Ascii String ZArith Lia.
From stdpp Require Import base list option strings.
From S2P Require Import Prelude JsString JsValue JsNumber JsText.

Open Scope nat_scope.
Open Scope list_scope.

(** ** Line endings *)

Definition crlf : text := [carriage_return_unit; line_feed_unit].
Definition lf : text := [line_feed_unit].

Definition detectLineEnding (content : text) : text :=
  match indexOf lf content with
  | None => lf
  | Some lfIdx =>
      match indexOf crlf content with
      | None => lf
      | Some crlfIdx => if crlfIdx <? lfIdx then crlf else lf
      end
  end.

(** [text.replace(/\r\n/g, "\n")] *)
Fixpoint replace_crlf (t : text) : text :=
  match t with
  | [] => []
  | u :: t' =>
      match t' with
      | v :: t'' =>
          if (u =? carriage_return_unit)%Z && (v =? line_feed_unit)%Z then line_feed_unit :: replace_crlf t''
          else u :: replace_crlf t'
      | [] => [u]
      end
  end.

Definition normalizeToLF (t : text) : text :=
  map (fun u => if (u =? carriage_return_unit)%Z then line_feed_unit else u) (replace_crlf t).

Definition restoreLineEndings (t ending : text) : text :=
  if text_eqb ending crlf then concat (map (fun u => if (u =? line_feed_unit)%Z then crlf else [u]) t) else t.

Definition byte_order_unit : Z := 65279.

(** The byte order mark, if there is one, and the text after it. *)
Definition stripBom (content : text) : text * text :=
  match content with
  | u :: rest => if (u =? byte_order_unit)%Z then ([u], rest) else ([], content)
  | [] => ([], [])
  end.

(** ** Folding *)

Definition one_of_units (units : list Z) (u : Z) : bool := existsb (Z.eqb u) units.
Definition SMART_SINGLE_QUOTE (u : Z) : bool := one_of_units [8216; 8217; 8218; 8219]%Z u.
Definition SMART_DOUBLE_QUOTE (u : Z) : bool := one_of_units [8220; 8221; 8222; 8223]%Z u.
Definition UNICODE_DASH (u : Z) : bool := one_of_units [8208; 8209; 8210; 8211; 8212; 8213; 8722]%Z u.
Definition UNICODE_SPACE (u : Z) : bool := one_of_units [160; 8239; 8287; 12288]%Z u || ((8194 <=? u) && (u <=? 8202))%Z.

Definition foldFuzzyChar (u : Z) : Z :=
  if SMART_SINGLE_QUOTE u then 39%Z
  else if SMART_DOUBLE_QUOTE u then 34%Z
  else if UNICODE_DASH u then 45%Z
  else if UNICODE_SPACE u then 32%Z
  else u.

(** [text.replace(/[class]/g, c)] for a class of code units and a single unit. *)
Definition replace_class (class : Z -> bool) (c : Z) (t : text) : text := map (fun u => if class u then c else u) t.

(** A code unit of the normalized text, and the span of the original it came from. *)
Record MappedUnit : Type := {
  mu_unit : Z;
  mu_start : nat;
  mu_end : nat;
}.

Record NormalizedContentMap : Type := {
  normalized : text;
  startOffsets : list nat;
  endOffsets : list nat;
  originalLength : nat;
}.

Record FuzzyMatch : Type := {
  fm_index : nat;
  fm_matchLength : nat;
  fm_usedFuzzyMatch : bool;
  fm_contentForReplacement : text;
}.

Record Edit : Type := {
  oldText : text;
  newText : text;
}.

Record MatchedEdit : Type := {
  editIndex : nat;
  matchIndex : nat;
  matchLength : nat;
  me_newText : text;
}.

Record AppliedEditsResult : Type := {
  baseContent : text;
  newContent : text;
}.

(** The errors thrown, with what their messages tell; an index only with several edits. *)
Inductive EditError : Type :=
| empty_old_text (index total : nat)
| not_found (index total : nat)
| duplicate (index total : nat) (occurrences : Z)
| overlap (previous current : nat)
| no_change (total : nat).

(** The code points of a text with their code units; a lone surrogate counts as itself. *)
Fixpoint code_point_runs (t : text) : list (Z * text) :=
  match t with
  | [] => []
  | u :: rest =>
      match rest with
      | v :: rest' =>
          if is_high u && is_low v then ((65536 + (u - 55296) * 1024 + (v - 56320))%Z, [u; v]) :: code_point_runs rest'
          else (u, [u]) :: code_point_runs rest
      | [] => [(u, [u])]
      end
  end.

Section Unicode.
Context (nfkc : text -> text) (is_mark : Z -> bool).

Definition normalizeForFuzzyMatch (t : text) : text :=
  replace_class UNICODE_SPACE 32
    (replace_class UNICODE_DASH 45
      (replace_class SMART_DOUBLE_QUOTE 34
        (replace_class SMART_SINGLE_QUOTE 39
          (join_lines (map text_trim_end (lines_of (nfkc t))))))).

Definition joinsPreviousChunk (codePoint previousCodePoint : Z) : bool :=
  if (previousCodePoint =? 10)%Z then false
  else if is_mark codePoint then true
  else if ((codePoint =? 65438) || (codePoint =? 65439))%Z then true
  else if ((4448 <=? codePoint) && (codePoint <=? 4607))%Z then
    (((4352 <=? previousCodePoint) && (previousCodePoint <=? 4607))
     || ((44032 <=? previousCodePoint) && (previousCodePoint <=? 55203)))%Z
  else false.

(** The chunks that are normalized on their own: a code point and those that join it. *)
Fixpoint chunks (runs : list (Z * text)) : list text :=
  match runs with
  | [] => []
  | (codePoint, units) :: rest =>
      match rest with
      | (next, _) :: _ =>
          if joinsPreviousChunk next codePoint then
            match chunks rest with
            | chunk :: others => (units ++ chunk) :: others
            | [] => [units]
            end
          else units :: chunks rest
      | [] => [units]
      end
  end.

(** The normalized units of chunks that start at an offset. *)
Fixpoint normalize_chunks (i : nat) (pieces : list text) : list MappedUnit :=
  match pieces with
  | [] => []
  | chunk :: rest =>
      map (fun u => {| mu_unit := u; mu_start := i; mu_end := i + length chunk |}) (nfkc chunk)
      ++ normalize_chunks (i + length chunk) rest
  end.

(** What is kept of a line: without its trailing white space, folded. *)
Definition keep_line (line : list MappedUnit) : list MappedUnit :=
  map (fun m => {| mu_unit := foldFuzzyChar (mu_unit m); mu_start := mu_start m; mu_end := mu_end m |})
    (take (length (text_trim_end (map mu_unit line))) line).

Fixpoint strip_lines (line units : list MappedUnit) : list MappedUnit :=
  match units with
  | [] => keep_line line
  | m :: rest =>
      if (mu_unit m =? line_feed_unit)%Z then keep_line line ++ m :: strip_lines [] rest else strip_lines (line ++ [m]) rest
  end.

Definition buildNormalizedContentMap (t : text) : NormalizedContentMap :=
  let units := strip_lines [] (normalize_chunks 0 (chunks (code_point_runs t))) in
  {| normalized := map mu_unit units; startOffsets := map mu_start units; endOffsets := map mu_end units;
     originalLength := length t |}.

(** The start and the length of a span; the offset of its last unit exists, as the span was found in the text. *)
Definition mapNormalizedSpanToOriginal (m : NormalizedContentMap) (index len : nat) : nat * nat :=
  let start := default (originalLength m) (startOffsets m !! index) in
  let stop := if 0 <? len then default start (endOffsets m !! (index + len - 1)) else start in
  (start, stop - start).

(** ** Matching *)

Definition fuzzyFindText (content old : text) (contentMap : option NormalizedContentMap) : option FuzzyMatch :=
  match indexOf old content with
  | Some exactIndex =>
      Some {| fm_index := exactIndex; fm_matchLength := length old; fm_usedFuzzyMatch := false;
              fm_contentForReplacement := content |}
  | None =>
      let m := default (buildNormalizedContentMap content) contentMap in
      let fuzzyOldText := normalizeForFuzzyMatch old in
      match indexOf fuzzyOldText (normalized m) with
      | None => None
      | Some fuzzyIndex =>
          let (index, len) := mapNormalizedSpanToOriginal m fuzzyIndex (length fuzzyOldText) in
          Some {| fm_index := index; fm_matchLength := len; fm_usedFuzzyMatch := true; fm_contentForReplacement := content |}
      end
  end.

Definition countOccurrences (content old : text) : Z :=
  (Z.of_nat (length (text_split (normalizeForFuzzyMatch old) (normalizeForFuzzyMatch content))) - 1)%Z.

(** ** Applying *)

Definition normalize_edit (edit : Edit) : Edit :=
  {| oldText := normalizeToLF (oldText edit); newText := normalizeToLF (newText edit) |}.

Fixpoint check_old_texts (index total : nat) (edits : list Edit) : result EditError unit :=
  match edits with
  | [] => Ok tt
  | edit :: rest =>
      if length (oldText edit) =? 0 then Err (empty_old_text index total) else check_old_texts (S index) total rest
  end.

(** The matches, with the map of the content once it is built. *)
Fixpoint match_edits (content : text) (contentMap : option NormalizedContentMap) (index total : nat) (edits : list Edit)
    : result EditError (list MatchedEdit) :=
  match edits with
  | [] => Ok []
  | edit :: rest =>
      let contentMap :=
        match contentMap with
        | None => if text_includes (oldText edit) content then None else Some (buildNormalizedContentMap content)
        | Some m => Some m
        end in
      match fuzzyFindText content (oldText edit) contentMap with
      | None => Err (not_found index total)
      | Some found =>
          let occurrences := countOccurrences content (oldText edit) in
          if (1 <? occurrences)%Z then Err (duplicate index total occurrences)
          else
            matched <-? match_edits content contentMap (S index) total rest ;;
            Ok ({| editIndex := index; matchIndex := fm_index found; matchLength := fm_matchLength found;
                   me_newText := newText edit |} :: matched)
      end
  end.

Definition by_match_index (a b : MatchedEdit) : comparison := Nat.compare (matchIndex a) (matchIndex b).

Fixpoint check_overlaps (previous : MatchedEdit) (matched : list MatchedEdit) : result EditError unit :=
  match matched with
  | [] => Ok tt
  | current :: rest =>
      if matchIndex current <? matchIndex previous + matchLength previous
      then Err (overlap (editIndex previous) (editIndex current))
      else check_overlaps current rest
  end.

Definition check_matched (matched : list MatchedEdit) : result EditError unit :=
  match matched with
  | [] => Ok tt
  | first :: rest => check_overlaps first rest
  end.

(** One replacement: [substring(0, i) + newText + substring(i + n)]. *)
Definition replace_match (edit : MatchedEdit) (content : text) : text :=
  take (matchIndex edit) content ++ me_newText edit ++ drop (matchIndex edit + matchLength edit) content.

Definition applyEditsToNormalizedContent (normalizedContent : text) (edits : list Edit) : result EditError AppliedEditsResult :=
  let normalizedEdits := map normalize_edit edits in
  let total := length normalizedEdits in
  _ <-? check_old_texts 0 total normalizedEdits ;;
  matched <-? match_edits normalizedContent None 0 total normalizedEdits ;;
  let matched := stable_sort by_match_index matched in
  _ <-? check_matched matched ;;
  let newContent := foldr replace_match normalizedContent matched in
  if text_eqb normalizedContent newContent then Err (no_change total)
  else Ok {| baseContent := normalizedContent; newContent := newContent |}.
End Unicode.

(** The messages of the errors for a path. *)
Definition edit_error_text (path : text) (e : EditError) : text :=
  let number (n : nat) := literal (nat_str n) in
  match e with
  | empty_old_text index total =>
      if total =? 1 then literal "oldText must not be empty in " ++ path ++ literal "."
      else literal "edits[" ++ number index ++ literal "].oldText must not be empty in " ++ path ++ literal "."
  | not_found index total =>
      if total =? 1 then
        literal "Could not find the exact text in " ++ path
        ++ literal ". The old text must match exactly including all whitespace and newlines."
      else
        literal "Could not find edits[" ++ number index ++ literal "] in " ++ path
        ++ literal ". The oldText must match exactly including all whitespace and newlines."
  | duplicate index total occurrences =>
      if total =? 1 then
        literal "Found " ++ literal (int_text occurrences) ++ literal " occurrences of the text in " ++ path
        ++ literal ". The text must be unique. Please provide more context to make it unique."
      else
        literal "Found " ++ literal (int_text occurrences) ++ literal " occurrences of edits[" ++ number index ++ literal "] in " ++ path
        ++ literal ". Each oldText must be unique. Please provide more context to make it unique."
  | overlap previous current =>
      literal "edits[" ++ number previous ++ literal "] and edits[" ++ number current ++ literal "] overlap in " ++ path
      ++ literal ". Merge them into one edit or target disjoint regions."
  | no_change total =>
      if total =? 1 then
        literal "No changes made to " ++ path
        ++ literal ". The replacement produced identical content. This might indicate an issue with special characters or the text not existing as expected."
      else literal "No changes made to " ++ path ++ literal ". The replacements produced identical content."
  end.

(** ** The diff shown *)

(** A part of [Diff.diffLines]. *)
Record DiffPart : Type := {
  dp_value : text;
  dp_added : bool;
  dp_removed : bool;
}.

(** A line of the diff: with its number in the new file for an added one, in the old file otherwise; or a gap. *)
Inductive DiffLine : Type :=
| line_added (number : nat) (line : text)
| line_removed (number : nat) (line : text)
| line_context (number : nat) (line : text)
| line_gap.

Definition pad_start (width : nat) (t : text) : text := repeat 32%Z (width - length t) ++ t.

Definition render_line (width : nat) (line : DiffLine) : text :=
  let numbered mark (number : nat) content := literal mark ++ pad_start width (literal (nat_str number)) ++ literal " " ++ content in
  match line with
  | line_added number content => numbered "+"%string number content
  | line_removed number content => numbered "-"%string number content
  | line_context number content => numbered " "%string number content
  | line_gap => literal " " ++ pad_start width [] ++ literal " ..."
  end.

Record DiffState : Type := {
  ds_output : list DiffLine;
  ds_oldLineNum : nat;
  ds_newLineNum : nat;
  ds_lastWasChange : bool;
  ds_firstChangedLine : option nat;
}.

Definition diff_start : DiffState :=
  {| ds_output := []; ds_oldLineNum := 1; ds_newLineNum := 1; ds_lastWasChange := false; ds_firstChangedLine := None |}.

(** The lines of a part, without the empty one after a line feed at its end. *)
Definition raw_lines (value : text) : list text :=
  let raw := lines_of value in
  match last raw with
  | Some [] => take (length raw - 1) raw
  | _ => raw
  end.

Definition push_added (s : DiffState) (line : text) : DiffState :=
  {| ds_output := ds_output s ++ [line_added (ds_newLineNum s) line]; ds_oldLineNum := ds_oldLineNum s;
     ds_newLineNum := S (ds_newLineNum s); ds_lastWasChange := ds_lastWasChange s; ds_firstChangedLine := ds_firstChangedLine s |}.

Definition push_removed (s : DiffState) (line : text) : DiffState :=
  {| ds_output := ds_output s ++ [line_removed (ds_oldLineNum s) line]; ds_oldLineNum := S (ds_oldLineNum s);
     ds_newLineNum := ds_newLineNum s; ds_lastWasChange := ds_lastWasChange s; ds_firstChangedLine := ds_firstChangedLine s |}.

Definition push_context (s : DiffState) (line : text) : DiffState :=
  {| ds_output := ds_output s ++ [line_context (ds_oldLineNum s) line]; ds_oldLineNum := S (ds_oldLineNum s);
     ds_newLineNum := S (ds_newLineNum s); ds_lastWasChange := ds_lastWasChange s;
     ds_firstChangedLine := ds_firstChangedLine s |}.

(** Lines that are not shown. *)
Definition skip_context (skipped : nat) (s : DiffState) : DiffState :=
  {| ds_output := ds_output s; ds_oldLineNum := ds_oldLineNum s + skipped; ds_newLineNum := ds_newLineNum s + skipped;
     ds_lastWasChange := ds_lastWasChange s; ds_firstChangedLine := ds_firstChangedLine s |}.

Definition push_gap (skipped : nat) (s : DiffState) : DiffState :=
  {| ds_output := ds_output s ++ [line_gap]; ds_oldLineNum := ds_oldLineNum s + skipped; ds_newLineNum := ds_newLineNum s + skipped;
     ds_lastWasChange := ds_lastWasChange s; ds_firstChangedLine := ds_firstChangedLine s |}.

Definition after_part (change : bool) (s : DiffState) : DiffState :=
  {| ds_output := ds_output s; ds_oldLineNum := ds_oldLineNum s; ds_newLineNum := ds_newLineNum s; ds_lastWasChange := change;
     ds_firstChangedLine := ds_firstChangedLine s |}.

Definition note_first (s : DiffState) : DiffState :=
  {| ds_output := ds_output s; ds_oldLineNum := ds_oldLineNum s; ds_newLineNum := ds_newLineNum s;
     ds_lastWasChange := ds_lastWasChange s;
     ds_firstChangedLine := match ds_firstChangedLine s with
                            | None => Some (ds_newLineNum s)
                            | first => first
                            end |}.

(** The last lines: [raw.slice(raw.length - count)]. *)
Definition last_lines (count : nat) (raw : list text) : list text := drop (length raw - count) raw.

Definition context_part (contextLines : nat) (hasLeadingChange hasTrailingChange : bool) (raw : list text) (s : DiffState) : DiffState :=
  if hasLeadingChange && hasTrailingChange then
    if length raw <=? contextLines * 2 then foldl push_context s raw
    else
      let leadingLines := take contextLines raw in
      let trailingLines := last_lines contextLines raw in
      let skippedLines := length raw - length leadingLines - length trailingLines in
      foldl push_context (push_gap skippedLines (foldl push_context s leadingLines)) trailingLines
  else if hasLeadingChange then
    let shownLines := take contextLines raw in
    let skippedLines := length raw - length shownLines in
    let s := foldl push_context s shownLines in
    if 0 <? skippedLines then push_gap skippedLines s else s
  else if hasTrailingChange then
    let skippedLines := length raw - contextLines in
    let s := if 0 <? skippedLines then push_gap skippedLines s else s in
    foldl push_context s (drop skippedLines raw)
  else skip_context (length raw) s.

Definition is_change (part : DiffPart) : bool := dp_added part || dp_removed part.

Fixpoint diff_parts (contextLines : nat) (parts : list DiffPart) (s : DiffState) : DiffState :=
  match parts with
  | [] => s
  | part :: rest =>
      let raw := raw_lines (dp_value part) in
      let s :=
        if is_change part then
          after_part true (foldl (if dp_added part then push_added else push_removed) (note_first s) raw)
        else
          let nextPartIsChange := match rest with
                                  | next :: _ => is_change next
                                  | [] => false
                                  end in
          after_part false (context_part contextLines (ds_lastWasChange s) nextPartIsChange raw s) in
      diff_parts contextLines rest s
  end.

Section Diff.
Context (diffLines : text -> text -> list DiffPart).

Definition generateDiffString (oldContent newContent : text) (contextLines : nat) : text * option nat :=
  let maxLineNum := Nat.max (length (lines_of oldContent)) (length (lines_of newContent)) in
  let lineNumWidth := String.length (nat_str maxLineNum) in
  let s := diff_parts contextLines (diffLines oldContent newContent) diff_start in
  (join_lines (map (render_line lineNumWidth) (ds_output s)), ds_firstChangedLine s).
End Diff.

(** ** The edit of a file *)

Section Tool.
Context (nfkc : text -> text) (is_mark : Z -> bool).

(** The content to write for the content read. *)
Definition edit_content (rawContent : text) (edits : list Edit) : result EditError (text * AppliedEditsResult) :=
  let (bom, content) := stripBom rawContent in
  let originalEnding := detectLineEnding content in
  applied <-? applyEditsToNormalizedContent nfkc is_mark (normalizeToLF content) edits ;;
  Ok (bom ++ restoreLineEndings (newContent applied) originalEnding, applied).

(** What the file system and the caller do during a call: whether the call was aborted at each check, the error of the
    access, the bytes read or their error, and the error of the write. *)
Record EditRun : Type := {
  er_canWritePath : bool;
  er_aborted : nat -> bool;
  er_access : option text;
  er_read : result text (list Z);
  er_write : option text;
}.

Inductive EditOutcome : Type :=
| edited (count : nat) (applied : AppliedEditsResult)
| edit_failed (message : text).

(** The outcome of a call, and the bytes it gave to the write, if it came to one. *)
Definition edit_execute (run : EditRun) (path : text) (edits : list Edit) : EditOutcome * option (list Z) :=
  let fail message := (edit_failed message, None) in
  let aborted (point : nat) := er_aborted run point in
  if length edits =? 0 then fail (literal "Edit tool input is invalid. edits must contain at least one replacement.")
  else if negb (er_canWritePath run) then fail (literal "Edit blocked by active loadout policy: " ++ path)
  else if aborted 0 then fail (literal "Operation aborted")
  else
    match er_access run with
    | Some errorMessage =>
        if aborted 1 then fail (literal "Operation aborted")
        else fail (literal "Could not edit file: " ++ path ++ literal ". " ++ errorMessage ++ literal ".")
    | None =>
        if aborted 1 then fail (literal "Operation aborted")
        else
          match er_read run with
          | Err message => fail message
          | Ok buffer =>
              if aborted 2 then fail (literal "Operation aborted")
              else
                match edit_content (bytes_text buffer) edits with
                | Err e => fail (edit_error_text path e)
                | Ok (finalContent, applied) =>
                    if aborted 3 then fail (literal "Operation aborted")
                    else
                      let written := Some (text_bytes finalContent) in
                      match er_write run with
                      | Some message => (edit_failed message, written)
                      | None =>
                          if aborted 4 then (edit_failed (literal "Operation aborted"), written)
                          else (edited (length edits) applied, written)
                      end
                end
          end
    end.
End Tool.
