(* ===== verification/EditTheory.v ===== *)
(** * What an edit changes

    An edit of a file changes the regions its old texts were found in and
    nothing else; the map of the normalized content is the normalized content;
    and the numbers of the diff are those of the lines. *)

From Stdlib Require Import Ascii String ZArith Lia Permutation.
From stdpp Require Import base list option strings.
From S2P Require Import Prelude JsString JsValue JsText EditDiff.

Open Scope nat_scope.
Open Scope list_scope.

(** ** Rewriting regions *)

(** The second text is the first with each region replaced, in order. *)
Inductive rewritten : list (text * text) -> text -> text -> Prop :=
| rewritten_none t : rewritten [] t t
| rewritten_one kept region new edits rest rest' :
    rewritten edits rest rest' -> rewritten ((region, new) :: edits) (kept ++ region ++ rest) (kept ++ new ++ rest').

Lemma rewritten_behind (prefix : text) (edits : list (text * text)) (t t' : text) :
  rewritten edits t t' -> rewritten edits (prefix ++ t) (prefix ++ t').
Proof.
  destruct 1 as [t|kept region new edits rest rest' H]; [constructor|]. rewrite !(app_assoc prefix kept). by constructor.
Qed.

Definition region_of (content : text) (m : MatchedEdit) : text := take (matchLength m) (drop (matchIndex m) content).

Definition in_range (content : text) (m : MatchedEdit) : Prop := matchIndex m + matchLength m <= length content.

(** Replacements from the last to the first, each behind the ones before it. *)
Lemma replace_all (content : text) (p : nat) (matched : list MatchedEdit) :
  Forall (in_range content) matched ->
  match matched with
  | [] => True
  | first :: rest => p <= matchIndex first /\ check_overlaps first rest = Ok tt
  end ->
  p <= length content ->
  exists t, foldr replace_match content matched = take p content ++ t
    /\ rewritten (map (fun m => (region_of content m, me_newText m)) matched) (drop p content) t.
Proof.
  intros Hr. revert p. induction Hr as [|m ms Hm Hms IH]; intros p Ho Hp.
  { exists (drop p content). cbn. rewrite take_drop. split; [done|constructor]. }
  destruct Ho as [Hle Ho]. unfold in_range in Hm.
  destruct (IH (matchIndex m + matchLength m)) as (t & Ht & Hrw); [|lia|].
  { destruct ms as [|m' ms]; [done|]. cbn [check_overlaps] in Ho. destruct (Nat.ltb_spec (matchIndex m') (matchIndex m + matchLength m)); done. }
  set (kept := take (matchIndex m - p) (drop p content)).
  assert (Hkept : take (matchIndex m) content = take p content ++ kept).
  { unfold kept. rewrite <- (take_drop p content) at 1. rewrite take_app_ge; rewrite length_take; [|lia]. f_equal. f_equal. lia. }
  assert (Hdrop : drop (matchIndex m) content = region_of content m ++ drop (matchIndex m + matchLength m) content).
  { unfold region_of. rewrite <- drop_drop. symmetry. apply take_drop. }
  exists (kept ++ me_newText m ++ t). cbn [foldr map]. rewrite Ht. split.
  - unfold replace_match. rewrite take_app_le by (rewrite length_take; lia). rewrite take_take, Nat.min_l by lia.
    rewrite drop_app_ge by (rewrite length_take; lia). rewrite length_take, Nat.min_l, Nat.sub_diag, drop_0 by lia.
    by rewrite Hkept, <- app_assoc.
  - assert (drop p content = kept ++ region_of content m ++ drop (matchIndex m + matchLength m) content) as ->.
    { rewrite <- Hdrop. unfold kept. rewrite <- (take_drop (matchIndex m - p) (drop p content)) at 1. f_equal.
      rewrite drop_drop. f_equal. lia. }
    by constructor.
Qed.

(** ** The spans of the normalized content *)

Definition span (m : MappedUnit) : nat * nat := (mu_start m, mu_end m).

(** Spans in order within a bound: no start after a later end. *)
Inductive in_order (bound : nat) : nat -> list (nat * nat) -> Prop :=
| in_order_nil low : in_order bound low []
| in_order_cons low s e rest : low <= s -> s <= e -> e <= bound -> in_order bound s rest -> in_order bound low ((s, e) :: rest).

Lemma in_order_lower (bound low low' : nat) (spans : list (nat * nat)) :
  low' <= low -> in_order bound low spans -> in_order bound low' spans.
Proof. intros H. destruct 1; constructor; try done. lia. Qed.

Lemma in_order_app (bound low mid : nat) (a b : list (nat * nat)) :
  in_order bound low a -> Forall (fun se => fst se <= mid) a -> low <= mid -> in_order bound mid b -> in_order bound low (a ++ b).
Proof.
  induction 1 as [low|low s e rest Hl Hs He Ho IH]; intros Ha Hm Hb; [by apply in_order_lower with mid|].
  apply Forall_cons in Ha as [Hsm Ha]. cbn [app]. constructor; try done. by apply IH.
Qed.

Lemma in_order_sublist (bound low : nat) (a b : list (nat * nat)) : sublist a b -> in_order bound low b -> in_order bound low a.
Proof.
  intros H. revert low. induction H as [|x a b Hs IH|x a b Hs IH]; intros low Ho; [done| |].
  - inversion Ho; subst. constructor; try done. by apply IH.
  - inversion Ho; subst. apply IH. by apply in_order_lower with s.
Qed.

Lemma in_order_above (bound low : nat) (spans : list (nat * nat)) : in_order bound low spans -> Forall (fun se => low <= fst se <= snd se /\ snd se <= bound) spans.
Proof.
  induction 1 as [|low s e rest Hl Hs He Ho IH]; constructor; [cbn; lia|]. eapply Forall_impl; [exact IH|]. cbn. intros [] ?. cbn in *. lia.
Qed.

Lemma in_order_lookup (bound low i j s e s' e' : nat) (spans : list (nat * nat)) :
  in_order bound low spans -> i <= j -> spans !! i = Some (s, e) -> spans !! j = Some (s', e') -> s <= e' <= bound.
Proof.
  intros H. revert i j. induction H as [|low x y rest Hl Hs He Ho IH]; intros i j Hij Hi Hj; [by rewrite lookup_nil in Hi|].
  destruct i as [|i], j as [|j]; cbn in Hi, Hj.
  - injection Hi as <- <-. injection Hj as <- <-. done.
  - injection Hi as <- <-. apply in_order_above in Ho. rewrite Forall_lookup in Ho. specialize (Ho _ _ Hj). cbn in Ho. lia.
  - lia.
  - by apply (IH i j); [lia|..].
Qed.

Lemma runs_text (t : text) : concat (map snd (code_point_runs t)) = t.
Proof.
  induction t as [|u t IH IH'] using text_pair_ind; [done|]. cbn [code_point_runs]. destruct t as [|v t]; [done|].
  destruct (is_high u && is_low v).
  - cbn [map concat snd app]. by rewrite (IH' v t eq_refl).
  - cbn [map concat snd]. by rewrite IH.
Qed.

Section Theory.
Context (nfkc : text -> text) (is_mark : Z -> bool).

Lemma chunks_cons (c : Z) (units : text) (rest : list (Z * text)) :
  chunks is_mark ((c, units) :: rest)
  = match rest with
    | (next, _) :: _ =>
        if joinsPreviousChunk is_mark next c then
          match chunks is_mark rest with
          | chunk :: others => (units ++ chunk) :: others
          | [] => [units]
          end
        else units :: chunks is_mark rest
    | [] => [units]
    end.
Proof. by destruct rest. Qed.

Lemma chunks_nonempty (r : Z * text) (rest : list (Z * text)) : chunks is_mark (r :: rest) <> [].
Proof. destruct r as [c units]. rewrite chunks_cons. destruct rest as [|[next u] rest]; [done|]. destruct (joinsPreviousChunk _ _ _); [|done]. by case_match. Qed.

Lemma chunks_text (runs : list (Z * text)) : concat (chunks is_mark runs) = concat (map snd runs).
Proof.
  induction runs as [|[c units] rest IH]; [done|]. rewrite chunks_cons. destruct rest as [|[next u] rest]; [done|].
  destruct (joinsPreviousChunk _ _ _); [|cbn [concat map snd]; by rewrite IH].
  pose proof (chunks_nonempty (next, u) rest) as Hn. destruct (chunks is_mark ((next, u) :: rest)) as [|chunk others]; [done|].
  cbn [concat] in *. rewrite <- app_assoc, IH. done.
Qed.

Lemma normalize_chunks_order (pieces : list text) (i : nat) :
  in_order (i + length (concat pieces)) i (map span (normalize_chunks nfkc i pieces)).
Proof.
  revert i. induction pieces as [|chunk rest IH]; intros i; cbn [normalize_chunks]; [constructor|].
  rewrite map_app, map_map. cbn [concat]. rewrite length_app.
  apply (in_order_app _ _ (i + length chunk)); [| |lia|rewrite Nat.add_assoc; apply IH].
  - induction (nfkc chunk) as [|u t IHt]; cbn [map]; [constructor|].
    apply in_order_cons; cbn [mu_start mu_end]; [lia|lia|lia|exact IHt].
  - apply Forall_map, Forall_forall. intros u _. cbn. lia.
Qed.

Lemma keep_line_spans (line : list MappedUnit) : sublist (map span (keep_line line)) (map span line).
Proof.
  unfold keep_line. rewrite map_map.
  rewrite (map_ext _ span) by done. exact (fmap_sublist span _ _ (sublist_take line _)).
Qed.

Lemma strip_lines_spans (units line : list MappedUnit) : sublist (map span (strip_lines line units)) (map span (line ++ units)).
Proof.
  revert line. induction units as [|m rest IH]; intros line; cbn [strip_lines].
  - rewrite app_nil_r. apply keep_line_spans.
  - destruct (mu_unit m =? line_feed_unit)%Z.
    + rewrite !map_app. apply sublist_app; [apply keep_line_spans|]. cbn [map]. apply sublist_skip. apply (IH []).
    + change (line ++ m :: rest) with (line ++ [m] ++ rest). rewrite app_assoc. apply IH.
Qed.

(** The spans of a map lie in the text, in order. *)
Lemma map_spans_order (t : text) :
  let m := buildNormalizedContentMap nfkc is_mark t in
  length (startOffsets m) = length (normalized m) /\ length (endOffsets m) = length (normalized m)
  /\ in_order (length t) 0 (zip (startOffsets m) (endOffsets m)).
Proof.
  cbv zeta. unfold buildNormalizedContentMap. cbn [startOffsets endOffsets normalized]. rewrite !length_map. split; [done|]. split; [done|].
  set (units := strip_lines [] _).
  assert (zip (map mu_start units) (map mu_end units) = map span units) as ->.
  { generalize units. induction units0 as [|m us IH]; cbn; [done|]. by rewrite IH. }
  eapply in_order_sublist; [apply strip_lines_spans|]. cbn [app].
  pose proof (normalize_chunks_order (chunks is_mark (code_point_runs t)) 0) as H.
  by rewrite chunks_text, runs_text in H.
Qed.

(** A span of the normalized content maps to one of the content. *)
Lemma mapped_in_range (t : text) (index len : nat) :
  index + len <= length (normalized (buildNormalizedContentMap nfkc is_mark t)) ->
  let (start, n) := mapNormalizedSpanToOriginal (buildNormalizedContentMap nfkc is_mark t) index len in start + n <= length t.
Proof.
  destruct (map_spans_order t) as (Hs & He & Ho). set (m := buildNormalizedContentMap nfkc is_mark t) in *. intros Hlen.
  unfold mapNormalizedSpanToOriginal.
  assert (Hol : originalLength m = length t) by done. rewrite Hol.
  assert (Hz : forall i s e, startOffsets m !! i = Some s -> endOffsets m !! i = Some e -> zip (startOffsets m) (endOffsets m) !! i = Some (s, e)).
  { intros i s e H1 H2. apply lookup_zip_with_Some. by exists s, e. }
  destruct (startOffsets m !! index) as [s|] eqn:Es; cbn [from_option id].
  - assert (Hi : index < length (startOffsets m)) by (by apply lookup_lt_is_Some_1; rewrite Es).
    destruct (lookup_lt_is_Some_2 (endOffsets m) index) as [e Ee]; [lia|].
    destruct (in_order_lookup _ _ index index _ _ _ _ _ Ho (le_n _) (Hz _ _ _ Es Ee) (Hz _ _ _ Es Ee)) as [Hse Hb].
    apply in_order_above in Ho. rewrite Forall_lookup in Ho. specialize (Ho _ _ (Hz _ _ _ Es Ee)) as Hoi. cbn in Hoi.
    destruct (Nat.ltb_spec 0 len) as [Hl|Hl]; cbv beta iota zeta; [|lia].
    destruct (lookup_lt_is_Some_2 (endOffsets m) (index + len - 1)) as [e' Ee']; [lia|]. rewrite Ee'. cbn [default from_option id].
    destruct (lookup_lt_is_Some_2 (startOffsets m) (index + len - 1)) as [s' Es']; [lia|].
    specialize (Ho _ _ (Hz _ _ _ Es' Ee')). cbn in Ho. cbv beta iota zeta. lia.
  - apply lookup_ge_None_1 in Es. destruct (Nat.ltb_spec 0 len) as [Hl|Hl]; [lia|]. cbn [default from_option id]. cbv beta iota zeta. lia.
Qed.

(** ** Where an edit is made *)

(** The old text itself, or, when the content does not hold it, the span of an occurrence of its normalized form. *)
Definition located (content old region : text) : Prop :=
  region = old
  \/ indexOf old content = None
     /\ exists index,
       let m := buildNormalizedContentMap nfkc is_mark content in
       let fuzzy := normalizeForFuzzyMatch nfkc old in
       take (length fuzzy) (drop index (normalized m)) = fuzzy
       /\ let (start, n) := mapNormalizedSpanToOriginal m index (length fuzzy) in region = take n (drop start content).

(** No two occurrences of the old text in the content, both normalized, that do not overlap. *)
Definition unique_in (content old : text) : Prop :=
  forall i, normalizeForFuzzyMatch nfkc old <> [] ->
  indexOf (normalizeForFuzzyMatch nfkc old) (normalizeForFuzzyMatch nfkc content) = Some i ->
  indexOf (normalizeForFuzzyMatch nfkc old)
    (drop (i + length (normalizeForFuzzyMatch nfkc old)) (normalizeForFuzzyMatch nfkc content)) = None.

(** A region and the text that replaces it, for an edit. *)
Definition replaces (content : text) (edit : Edit) (change : text * text) : Prop :=
  snd change = newText edit /\ oldText edit <> [] /\ located content (oldText edit) (fst change) /\ unique_in content (oldText edit).

Definition map_of (content : text) (contentMap : option NormalizedContentMap) : Prop :=
  forall m, contentMap = Some m -> m = buildNormalizedContentMap nfkc is_mark content.

Lemma found_located (content old : text) (contentMap : option NormalizedContentMap) (found : FuzzyMatch) :
  map_of content contentMap -> fuzzyFindText nfkc is_mark content old contentMap = Some found ->
  fm_index found + fm_matchLength found <= length content
  /\ located content old (take (fm_matchLength found) (drop (fm_index found) content)).
Proof.
  intros Hm. unfold fuzzyFindText. destruct (indexOf old content) as [i|] eqn:Ei.
  - intros [= <-]. cbn [fm_index fm_matchLength]. split; [by destruct (indexOf_Some _ _ _ Ei) as (_ & _ & ?)|].
    left. by apply occurrence_at.
  - assert (default (buildNormalizedContentMap nfkc is_mark content) contentMap = buildNormalizedContentMap nfkc is_mark content) as ->.
    { destruct contentMap as [m|]; [by apply Hm|done]. }
    set (m := buildNormalizedContentMap nfkc is_mark content). set (fuzzy := normalizeForFuzzyMatch nfkc old).
    destruct (indexOf fuzzy (normalized m)) as [index|] eqn:Ef; [|done].
    destruct (indexOf_Some _ _ _ Ef) as (_ & _ & Hl). pose proof (mapped_in_range content index (length fuzzy) Hl) as Hr.
    fold m in Hr. destruct (mapNormalizedSpanToOriginal m index (length fuzzy)) as [start n] eqn:Es.
    intros [= <-]. cbn [fm_index fm_matchLength]. split; [exact Hr|]. right. split; [exact Ei|]. exists index.
    cbv zeta. fold m fuzzy. rewrite Es. split; [by apply occurrence_at|done].
Qed.

Lemma counted_unique (content old : text) : (1 <? countOccurrences nfkc content old)%Z = false -> unique_in content old.
Proof.
  intros Hc i Hn Hi. apply split_unique; [done| |done]. apply Z.ltb_ge in Hc. unfold countOccurrences in Hc. lia.
Qed.

Lemma match_edits_spec (content : text) (edits : list Edit) (contentMap : option NormalizedContentMap) (index total : nat)
    (matched : list MatchedEdit) :
  map_of content contentMap -> Forall (fun edit => oldText edit <> []) edits ->
  match_edits nfkc is_mark content contentMap index total edits = Ok matched ->
  Forall (in_range content) matched
  /\ Forall2 (replaces content) edits (map (fun m => (region_of content m, me_newText m)) matched).
Proof.
  intros Hm He. revert contentMap index matched Hm. induction He as [|edit rest Hne Hrest IH]; intros contentMap index matched Hm; cbn [match_edits].
  { intros [= <-]. by split; constructor. }
  set (contentMap' := match contentMap with None => _ | Some _ => _ end).
  assert (Hm' : map_of content contentMap').
  { unfold contentMap'. destruct contentMap as [m|]; [done|]. destruct (text_includes _ _); [done|]. by intros m [= <-]. }
  destruct (fuzzyFindText _ _ _ _ _) as [found|] eqn:Ef; [|done].
  destruct (1 <? countOccurrences nfkc content (oldText edit))%Z eqn:Ec; [done|].
  intros (ms & Hms & [= <-])%result_bind_Ok. destruct (IH _ _ _ Hm' Hms) as [Hr H2].
  destruct (found_located _ _ _ _ Hm' Ef) as [Hin Hl]. split; [by constructor|]. cbn [map]. constructor; [|done].
  split; [done|]. split; [done|]. split; [exact Hl|by apply counted_unique].
Qed.

Lemma old_texts_checked (index total : nat) (edits : list Edit) :
  check_old_texts index total edits = Ok tt -> Forall (fun edit => oldText edit <> []) edits.
Proof.
  revert index. induction edits as [|edit rest IH]; intros index; cbn [check_old_texts]; [constructor|].
  destruct (Nat.eqb_spec (length (oldText edit)) 0) as [|Hn]; [done|]. intros H%IH. constructor; [|done].
  intros E. by rewrite E in Hn.
Qed.

(** The changes an application makes: one for each edit, in the order of the text. *)
Lemma applied_changes (content : text) (edits : list Edit) (r : AppliedEditsResult) :
  applyEditsToNormalizedContent nfkc is_mark content edits = Ok r ->
  baseContent r = content /\ newContent r <> content
  /\ exists made changes, Forall2 (replaces content) (map normalize_edit edits) made /\ changes ≡ₚ made
     /\ rewritten changes content (newContent r).
Proof.
  unfold applyEditsToNormalizedContent. intros ([] & Hold & H)%result_bind_Ok.
  apply result_bind_Ok in H as (matched & Hm & H). apply result_bind_Ok in H as ([] & Ho & H).
  destruct (match_edits_spec _ _ None _ _ _ ltac:(done) (old_texts_checked _ _ _ Hold) Hm) as [Hr H2].
  set (sorted := stable_sort by_match_index matched) in *.
  assert (Hp : sorted ≡ₚ matched) by apply stable_sort_perm.
  assert (Hr' : Forall (in_range content) sorted) by (by rewrite Hp).
  destruct (replace_all content 0 sorted Hr') as (t & Ht & Hrw); [|lia|].
  { destruct sorted as [|first rest]; [done|]. split; [lia|exact Ho]. }
  cbn [take app] in Ht. rewrite drop_0 in Hrw. rewrite Ht in H. unfold text_eqb in H. case_bool_decide as Heq; [done|].
  injection H as <-. cbn [baseContent newContent]. split; [done|]. split; [intros E; by apply Heq|].
  eexists _, _. split; [exact H2|]. split; [|exact Hrw]. by rewrite Hp.
Qed.
End Theory.

(** ** Line endings *)

Definition line_free (t : text) : Prop := Forall (fun u => u <> carriage_return_unit /\ u <> line_feed_unit) t.

(** Every line but the last ends in the same way, and no line holds another line ending. *)
Definition uniform (ending t : text) : Prop :=
  (ending = lf \/ ending = crlf) /\ exists lines, Forall line_free lines /\ t = text_join ending lines.

Lemma restore_app (a b ending : text) : restoreLineEndings (a ++ b) ending = restoreLineEndings a ending ++ restoreLineEndings b ending.
Proof. unfold restoreLineEndings. destruct (text_eqb ending crlf); [|done]. by rewrite map_app, concat_app. Qed.

Lemma restore_free (t ending : text) : line_free t -> restoreLineEndings t ending = t.
Proof.
  unfold restoreLineEndings. destruct (text_eqb ending crlf); [|done]. induction 1 as [|u t [_ Hu] Ht IH]; [done|].
  cbn [map concat]. rewrite IH. by rewrite (proj2 (Z.eqb_neq u line_feed_unit)).
Qed.

Lemma replace_crlf_cons (u : Z) (t : text) : u <> carriage_return_unit -> replace_crlf (u :: t) = u :: replace_crlf t.
Proof.
  intros Hu. destruct t as [|v t]; [done|].
  change (replace_crlf (u :: v :: t)) with (if (u =? carriage_return_unit)%Z && (v =? line_feed_unit)%Z then line_feed_unit :: replace_crlf t else u :: replace_crlf (v :: t)).
  by rewrite (proj2 (Z.eqb_neq u carriage_return_unit)).
Qed.

Lemma normalize_cons (u : Z) (t : text) : u <> carriage_return_unit -> normalizeToLF (u :: t) = u :: normalizeToLF t.
Proof. intros Hu. unfold normalizeToLF. rewrite replace_crlf_cons by done. cbn [map]. by rewrite (proj2 (Z.eqb_neq u carriage_return_unit)). Qed.

Lemma normalize_free (t rest : text) : line_free t -> normalizeToLF (t ++ rest) = t ++ normalizeToLF rest.
Proof. induction 1 as [|u t [Hu _] Ht IH]; [done|]. cbn [app]. by rewrite normalize_cons, IH. Qed.

Lemma text_join_cons (ending line : text) (lines : list text) :
  lines <> [] -> text_join ending (line :: lines) = line ++ ending ++ text_join ending lines.
Proof. by destruct lines. Qed.

Lemma normalize_uniform (ending : text) (lines : list text) :
  ending = lf \/ ending = crlf -> Forall line_free lines -> normalizeToLF (text_join ending lines) = join_lines lines.
Proof.
  intros He. induction 1 as [|line lines Hl Hls IH]; [done|]. destruct lines as [|l lines].
  - change (text_join ending [line]) with line. change (join_lines [line]) with line.
    rewrite <- (app_nil_r line) at 1. rewrite normalize_free by done. apply app_nil_r.
  - rewrite text_join_cons, join_lines_cons by done. rewrite normalize_free by done. rewrite <- IH. f_equal.
    destruct He as [-> | ->]; [by cbn [lf app]; rewrite normalize_cons|done].
Qed.

Lemma restore_uniform (lines : list text) :
  Forall line_free lines -> restoreLineEndings (join_lines lines) crlf = text_join crlf lines.
Proof.
  induction 1 as [|line lines Hl Hls IH]; [done|]. destruct lines as [|l lines]; [by apply restore_free|].
  rewrite text_join_cons, join_lines_cons by done. rewrite (restore_app line). rewrite restore_free by done. f_equal.
  change (line_feed_unit :: join_lines (l :: lines)) with ([line_feed_unit] ++ join_lines (l :: lines)). by rewrite restore_app, IH.
Qed.

Lemma indexOf_free (needle : Z) (t rest : text) :
  Forall (fun u => u <> needle) t -> indexOf [needle] (t ++ needle :: rest) = Some (length t).
Proof.
  induction 1 as [|u t Hu Ht IH]; cbn [app indexOf text_prefix length].
  - by rewrite Z.eqb_refl.
  - rewrite (proj2 (Z.eqb_neq needle u)) by done. cbn [andb]. by rewrite IH.
Qed.

Lemma indexOf_crlf_free (t rest : text) : line_free t -> indexOf crlf (t ++ crlf ++ rest) = Some (length t).
Proof.
  induction 1 as [|u t [Hu _] Ht IH]; [done|]. cbn [app indexOf length].
  assert (text_prefix crlf (u :: t ++ crlf ++ rest) = false) as ->; [|by rewrite IH].
  unfold crlf at 1. cbn [text_prefix]. by rewrite (proj2 (Z.eqb_neq carriage_return_unit u)).
Qed.

Lemma indexOf_absent (u : Z) (needle t : text) : u ∈ needle -> u ∉ t -> indexOf needle t = None.
Proof.
  intros Hu Ht. destruct (indexOf needle t) as [i|] eqn:E; [|done]. destruct (indexOf_Some _ _ _ E) as (rest & Heq & _).
  exfalso. apply Ht. rewrite Heq. apply elem_of_app. right. apply elem_of_app. by left.
Qed.

Lemma detect_free (t : text) : carriage_return_unit ∉ t -> detectLineEnding t = lf.
Proof.
  intros Ht. unfold detectLineEnding. rewrite (indexOf_absent carriage_return_unit crlf t) by (try left; done).
  by destruct (indexOf lf t).
Qed.

Lemma free_no_return (t : text) : line_free t -> carriage_return_unit ∉ t.
Proof. intros H Hin. unfold line_free in H. rewrite Forall_forall in H. by destruct (H _ Hin). Qed.

Lemma join_no_return (lines : list text) : Forall line_free lines -> carriage_return_unit ∉ join_lines lines.
Proof.
  induction 1 as [|line lines Hl Hls IH]; [by intros ?%elem_of_nil|]. destruct lines as [|l lines]; [by apply free_no_return|].
  rewrite join_lines_cons by done. rewrite elem_of_app, elem_of_cons. intros [H|[H|H]]; [by apply free_no_return in H|done|done].
Qed.

(** In a uniform text the endings that were normalized are those restored. *)
Lemma endings_restored (ending t : text) : uniform ending t -> restoreLineEndings (normalizeToLF t) (detectLineEnding t) = t.
Proof.
  intros (He & lines & Hl & ->). rewrite normalize_uniform by done. destruct He as [-> | ->].
  - change (text_join lf lines) with (join_lines lines). by rewrite detect_free by (by apply join_no_return).
  - destruct Hl as [|line lines Hl Hls]; [done|]. destruct lines as [|l lines].
    + change (text_join crlf [line]) with line. change (join_lines [line]) with line. by apply restore_free.
    + assert (detectLineEnding (text_join crlf (line :: l :: lines)) = crlf) as ->; [|by apply restore_uniform; constructor].
      rewrite text_join_cons by done. unfold detectLineEnding. rewrite indexOf_crlf_free by done.
      change (line ++ crlf ++ text_join crlf (l :: lines)) with (line ++ [carriage_return_unit] ++ line_feed_unit :: text_join crlf (l :: lines)).
      rewrite app_assoc. unfold lf. rewrite indexOf_free.
      * rewrite length_app. cbn [length]. by rewrite (proj2 (Nat.ltb_lt _ _)) by lia.
      * apply Forall_app. split; [eapply Forall_impl; [exact Hl|]; by intros u [_ ?]|by apply Forall_singleton].
Qed.

Definition restore_change (ending : text) (change : text * text) : text * text :=
  (restoreLineEndings (fst change) ending, restoreLineEndings (snd change) ending).

Lemma rewritten_restored (ending : text) (changes : list (text * text)) (t t' : text) :
  rewritten changes t t' -> rewritten (map (restore_change ending) changes) (restoreLineEndings t ending) (restoreLineEndings t' ending).
Proof.
  induction 1 as [t|kept region new edits rest rest' H IH]; cbn [map]; [constructor|]. rewrite !restore_app. by constructor.
Qed.


(** ** The map is of the normalized content *)

Lemma fold_classes (nfkc : text -> text) (t : text) :
  normalizeForFuzzyMatch nfkc t = map foldFuzzyChar (join_lines (map text_trim_end (lines_of (nfkc t)))).
Proof.
  unfold normalizeForFuzzyMatch, replace_class. rewrite !map_map. apply map_ext. intros u. unfold foldFuzzyChar.
  destruct (SMART_SINGLE_QUOTE u); [done|]. destruct (SMART_DOUBLE_QUOTE u); [done|]. by destruct (UNICODE_DASH u).
Qed.

Lemma join_lines_fold (lines : list text) : join_lines (map (map foldFuzzyChar) lines) = map foldFuzzyChar (join_lines lines).
Proof.
  induction lines as [|line lines IH]; [done|]. destruct lines as [|l lines]; [done|]. cbn [map] in *.
  rewrite (join_lines_cons line), (join_lines_cons (map foldFuzzyChar line)) by done. rewrite map_app. cbn [map]. by rewrite IH.
Qed.

Lemma trim_end_prefix (t : text) : take (length (text_trim_end t)) t = text_trim_end t.
Proof.
  induction t as [|u t IH]; [done|]. cbn [text_trim_end]. destruct (text_trim_end t) as [|v kept].
  - by destruct (is_space_unit u).
  - cbn [length take] in *. by rewrite IH.
Qed.

Lemma keep_line_units (line : list MappedUnit) :
  map mu_unit (keep_line line) = map foldFuzzyChar (text_trim_end (map mu_unit line)).
Proof.
  unfold keep_line. rewrite map_map. cbn [mu_unit]. rewrite <- (trim_end_prefix (map mu_unit line)) at 2.
  rewrite firstn_map, map_map. done.
Qed.

Lemma strip_lines_units (units line : list MappedUnit) :
  is_line (map mu_unit line) ->
  map mu_unit (strip_lines line units)
  = map foldFuzzyChar (join_lines (map text_trim_end (lines_of (map mu_unit (line ++ units))))).
Proof.
  revert line. induction units as [|m rest IH]; intros line Hl; cbn [strip_lines].
  - rewrite app_nil_r, keep_line_units, lines_of_line by done. done.
  - destruct (Z.eqb_spec (mu_unit m) line_feed_unit) as [Hm|Hm].
    + rewrite !map_app. cbn [map]. rewrite Hm, lines_of_app by done. cbn [map].
      rewrite join_lines_cons; [|intros E%map_eq_nil; by apply lines_nonempty in E]. rewrite map_app. cbn [map].
      rewrite keep_line_units, (IH []) by constructor. done.
    + rewrite IH; [by rewrite <- app_assoc|]. rewrite map_app. apply Forall_app. split; [done|by apply Forall_singleton].
Qed.

(** The runs of a text fall apart where they are cut. *)
Lemma runs_cut (t : text) (a b : list (Z * text)) :
  code_point_runs t = a ++ b ->
  t = concat (map snd a) ++ concat (map snd b) /\ code_point_runs (concat (map snd a)) = a /\ code_point_runs (concat (map snd b)) = b.
Proof.
  intros H. split; [by rewrite <- concat_app, <- map_app, <- H, runs_text|]. revert a b H.
  induction t as [|u t IH IH'] using text_pair_ind; intros a b H; [by destruct a; [destruct b|]|].
  assert (Hb : a = [] -> code_point_runs (concat (map snd a)) = a /\ code_point_runs (concat (map snd b)) = b).
  { intros ->. cbn [app] in H. rewrite <- H, runs_text. by split. }
  destruct a as [|r a]; [by apply Hb|clear Hb]. cbn [code_point_runs] in H. destruct t as [|v t].
  { injection H as <- H. destruct a; [|done]. destruct b; [|done]. done. }
  destruct (is_high u && is_low v) eqn:Ep.
  - injection H as <- H. destruct (IH' v t eq_refl a b H) as [Ha Hb]. split; [|done]. cbn [map concat snd app].
    cbn [code_point_runs]. rewrite Ep. by rewrite Ha.
  - injection H as <- H. destruct (IH a b H) as [Ha Hb]. split; [|done]. cbn [map concat snd app].
    assert (Ht : v :: t = concat (map snd a) ++ concat (map snd b)).
    { rewrite <- concat_app, <- map_app, <- H. symmetry. apply (runs_text (v :: t)). }
    destruct (concat (map snd a)) as [|v' t'] eqn:Ea.
    + cbn [code_point_runs] in Ha |- *. by rewrite <- Ha.
    + injection Ht as <- _. cbn [code_point_runs] in Ha |- *. rewrite Ep. by rewrite Ha.
Qed.

Section Mirror.
Context (nfkc : text -> text) (is_mark : Z -> bool).

(** A place where the chunks end: between code points, the second of which does not join the first. *)
Definition boundary (a b : text) : Prop :=
  code_point_runs (a ++ b) = code_point_runs a ++ code_point_runs b
  /\ match last (code_point_runs a), head (code_point_runs b) with
     | Some (previous, _), Some (next, _) => joinsPreviousChunk is_mark next previous = false
     | _, _ => True
     end.

(** Within a text, normalization goes on its own from such a place. *)
Definition splits_at_boundaries (t : text) : Prop :=
  nfkc [] = [] /\ forall before a b after, t = before ++ a ++ b ++ after -> boundary a b -> nfkc (a ++ b) = nfkc a ++ nfkc b.

(** The first chunk, and a boundary behind it. *)
Lemma chunks_head (r : Z * text) (rest : list (Z * text)) :
  exists a b, r :: rest = a ++ b /\ a <> [] /\ chunks is_mark (r :: rest) = concat (map snd a) :: chunks is_mark b
    /\ match last a, head b with
       | Some (previous, _), Some (next, _) => joinsPreviousChunk is_mark next previous = false
       | _, _ => True
       end.
Proof.
  revert r. induction rest as [|[next u] rest IH]; intros [c units]; rewrite chunks_cons.
  { exists [(c, units)], []. cbn. rewrite app_nil_r. done. }
  destruct (joinsPreviousChunk is_mark next c) eqn:Ej.
  - destruct (IH (next, u)) as (a & b & Hab & Ha & -> & Hb). exists ((c, units) :: a), b. rewrite Hab.
    split; [done|]. split; [done|]. split; [done|]. destruct a as [|x a]; [done|]. exact Hb.
  - exists [(c, units)], ((next, u) :: rest). split; [done|]. split; [done|]. split; [cbn [map concat snd]; by rewrite app_nil_r|].
    exact Ej.
Qed.

Lemma chunks_normalize (t before : text) (runs : list (Z * text)) :
  splits_at_boundaries t -> t = before ++ concat (map snd runs) -> code_point_runs (concat (map snd runs)) = runs ->
  nfkc (concat (map snd runs)) = concat (map nfkc (chunks is_mark runs)).
Proof.
  intros [Hnil Hsplit]. remember (length runs) as n eqn:Hn. revert before runs Hn.
  induction (lt_wf n) as [n _ IH]. intros before runs Hn Ht Hr. destruct runs as [|r rest]; [done|].
  destruct (chunks_head r rest) as (a & b & Hab & Ha & Hc & Hbd). rewrite Hc. rewrite Hab in Hr, Ht |- *. rewrite List.map_cons, List.concat_cons.
  destruct (runs_cut _ _ _ Hr) as (_ & Hra & Hrb). rewrite map_app, concat_app in *.
  assert (Hlen : length b < n) by (rewrite Hn, Hab, length_app; destruct a; [done|cbn; lia]).
  assert (Hb : nfkc (concat (map snd b)) = concat (map nfkc (chunks is_mark b))).
  { apply (IH (length b) Hlen (before ++ concat (map snd a)) b eq_refl); [by rewrite <- app_assoc|exact Hrb]. }
  rewrite (Hsplit before (concat (map snd a)) (concat (map snd b)) []).
  - f_equal. exact Hb.
  - by rewrite app_nil_r.
  - split; by rewrite Hra, Hrb.
Qed.

Lemma normalize_chunks_units (pieces : list text) (i : nat) :
  map mu_unit (normalize_chunks nfkc i pieces) = concat (map nfkc pieces).
Proof.
  revert i. induction pieces as [|chunk rest IH]; intros i; cbn [normalize_chunks]; [done|].
  rewrite map_app, map_map. cbn [mu_unit]. rewrite map_id, IH. done.
Qed.

(** C24: The map of a content mirrors its normalization. Built chunk by chunk with the offsets of the original, it holds
    the very text that the one-shot normalization gives, wherever normalization goes on its own from the boundaries of
    the chunks. *)
Theorem content_map_mirrors (t : text) (Hsplit : splits_at_boundaries t) :
  normalized (buildNormalizedContentMap nfkc is_mark t) = normalizeForFuzzyMatch nfkc t.
Proof.
  unfold buildNormalizedContentMap. cbn [normalized]. rewrite strip_lines_units by constructor. cbn [app].
  rewrite normalize_chunks_units, fold_classes.
  rewrite <- (chunks_normalize t [] (code_point_runs t) Hsplit); rewrite ?runs_text; done.
Qed.
End Mirror.

(** ** The numbers of the diff *)

Definition ends_line (t : text) : Prop := exists t', t = t' ++ [line_feed_unit].

(** Values of whole lines: only the last may lack its line feed. *)
Fixpoint line_values (values : list text) : Prop :=
  match values with
  | [] | [_] => True
  | value :: rest => ends_line value /\ line_values rest
  end.

Lemma lines_app (a b : text) : ends_line a -> lines_of (a ++ b) = raw_lines a ++ lines_of b.
Proof.
  intros [a' ->]. assert (Hl : lines_of (a' ++ [line_feed_unit]) = lines_of a' ++ [[]]).
  { induction a' as [|u a' IH]; [done|]. cbn [app]. rewrite !lines_cons, IH. destruct (u =? line_feed_unit)%Z; [done|].
    pose proof (lines_nonempty a') as Hn. by destruct (lines_of a'). }
  unfold raw_lines. rewrite Hl, last_snoc, length_app. cbn [length]. rewrite Nat.add_sub, take_app_length. clear Hl. rewrite <- app_assoc.
  change ([line_feed_unit] ++ b) with (line_feed_unit :: b).
  induction a' as [|u a' IH]; cbn [app]; [by rewrite lines_cons|]. rewrite !lines_cons, IH.
  destruct (u =? line_feed_unit)%Z; [done|]. pose proof (lines_nonempty a') as Hn. by destruct (lines_of a').
Qed.

Lemma raw_prefix (t : text) : raw_lines t `prefix_of` lines_of t.
Proof. unfold raw_lines. destruct (last (lines_of t)) as [[|]|]; try done. apply prefix_take. Qed.

(** After [k] lines of a content the values left are its other lines. *)
Definition left_over (content : text) (k : nat) (values : list text) : Prop :=
  match values with
  | [] => True
  | _ => drop k (lines_of content) = lines_of (concat values) /\ line_values values
  end.

Lemma left_over_step (content : text) (k : nat) (value : text) (values : list text) :
  left_over content k (value :: values) ->
  raw_lines value `prefix_of` drop k (lines_of content) /\ left_over content (k + length (raw_lines value)) values.
Proof.
  intros [Hd Hv]. rewrite Hd. destruct values as [|v values].
  - cbn [concat]. rewrite app_nil_r. split; [apply raw_prefix|done].
  - destruct Hv as [He Hv]. change (concat (value :: v :: values)) with (value ++ concat (v :: values)) in *.
    rewrite lines_app in Hd |- * by done. split; [by eexists|]. split; [|exact Hv].
    rewrite <- drop_drop, Hd. apply drop_app_length.
Qed.

Section Numbers.
Context (old new : text).

(** A line of the diff is the line of that number. *)
Definition numbered (line : DiffLine) : Prop :=
  match line with
  | line_added number content => 0 < number /\ lines_of new !! (number - 1) = Some content
  | line_removed number content | line_context number content => 0 < number /\ lines_of old !! (number - 1) = Some content
  | line_gap => True
  end.

(** The lines shown are right; [k] lines of the old and [l] lines of the new content have been read; and the lines
    before the first change agree. *)
Definition diff_ok (k l : nat) (s : DiffState) : Prop :=
  Forall numbered (ds_output s) /\ ds_oldLineNum s = S k /\ ds_newLineNum s = S l
  /\ match ds_firstChangedLine s with
     | None => k = l /\ take k (lines_of old) = take k (lines_of new)
     | Some n => take (n - 1) (lines_of old) = take (n - 1) (lines_of new)
     end.

(** A prefix of what is left of a content, line by line. *)
Lemma prefix_lookup (content line : text) (lines : list text) (k : nat) :
  (line :: lines) `prefix_of` drop k (lines_of content) ->
  lines_of content !! k = Some line /\ lines `prefix_of` drop (S k) (lines_of content).
Proof.
  intros [rest Hr]. split.
  - rewrite <- (Nat.add_0_r k), <- lookup_drop, Hr. done.
  - exists rest. rewrite <- Nat.add_1_r, <- drop_drop, Hr. done.
Qed.

Lemma push_added_ok (lines : list text) (k l : nat) (s : DiffState) :
  ds_firstChangedLine s <> None -> diff_ok k l s -> lines `prefix_of` drop l (lines_of new) ->
  diff_ok k (l + length lines) (foldl push_added s lines).
Proof.
  revert l s. induction lines as [|line lines IH]; intros l s Hf Hs Hp; cbn [foldl length]; [by rewrite Nat.add_0_r|].
  apply prefix_lookup in Hp as [Hl Hp]. rewrite Nat.add_succ_r, <- Nat.add_succ_l. apply IH; [done| |done].
  destruct Hs as (Ho & Hk & Hn & Hc). unfold diff_ok, push_added. cbn [ds_output ds_oldLineNum ds_newLineNum ds_firstChangedLine].
  rewrite Hn. split; [|by destruct (ds_firstChangedLine s)]. apply Forall_app. split; [done|]. apply Forall_singleton.
  cbn [numbered]. split; [lia|]. by rewrite Nat.sub_succ, Nat.sub_0_r.
Qed.

Lemma push_removed_ok (lines : list text) (k l : nat) (s : DiffState) :
  ds_firstChangedLine s <> None -> diff_ok k l s -> lines `prefix_of` drop k (lines_of old) ->
  diff_ok (k + length lines) l (foldl push_removed s lines).
Proof.
  revert k s. induction lines as [|line lines IH]; intros k s Hf Hs Hp; cbn [foldl length]; [by rewrite Nat.add_0_r|].
  apply prefix_lookup in Hp as [Hl Hp]. rewrite Nat.add_succ_r, <- Nat.add_succ_l. apply IH; [done| |done].
  destruct Hs as (Ho & Hk & Hn & Hc). unfold diff_ok, push_removed. cbn [ds_output ds_oldLineNum ds_newLineNum ds_firstChangedLine].
  rewrite Hk. split; [|by destruct (ds_firstChangedLine s)]. apply Forall_app. split; [done|]. apply Forall_singleton.
  cbn [numbered]. split; [lia|]. by rewrite Nat.sub_succ, Nat.sub_0_r.
Qed.

(** Lines that come next in both contents. *)
Definition both (k l : nat) (lines : list text) : Prop :=
  lines `prefix_of` drop k (lines_of old) /\ lines `prefix_of` drop l (lines_of new).

Lemma both_app (k l : nat) (a b : list text) : both k l (a ++ b) -> both k l a /\ both (k + length a) (l + length a) b.
Proof.
  intros [[x Hx] [y Hy]]. split.
  - split; [exists (b ++ x)|exists (b ++ y)]; by rewrite app_assoc.
  - split; [exists x|exists y]; rewrite <- drop_drop, ?Hx, ?Hy, <- app_assoc; apply drop_app_length.
Qed.

(** The state after lines that were read, shown or not. *)
Lemma read_ok (lines : list text) (output : list DiffLine) (change : bool) (k l : nat) (s : DiffState) :
  diff_ok k l s -> both k l lines -> Forall numbered output ->
  diff_ok (k + length lines) (l + length lines)
    {| ds_output := output; ds_oldLineNum := ds_oldLineNum s + length lines; ds_newLineNum := ds_newLineNum s + length lines;
       ds_lastWasChange := change; ds_firstChangedLine := ds_firstChangedLine s |}.
Proof.
  intros (_ & Hk & Hl & Hc) [[x Hx] [y Hy]] Ho. unfold diff_ok. cbn [ds_output ds_oldLineNum ds_newLineNum ds_firstChangedLine].
  rewrite Hk, Hl. do 3 (split; [done|]). destruct (ds_firstChangedLine s); [done|]. destruct Hc as [-> Hc]. split; [done|].
  assert (Htake : forall content rest, drop l (lines_of content) = lines ++ rest ->
    take (l + length lines) (lines_of content) = take l (lines_of content) ++ lines).
  { intros content rest Hd. rewrite <- take_take_drop, Hd. by rewrite take_app_length. }
  by rewrite (Htake _ _ Hx), (Htake _ _ Hy), Hc.
Qed.

Lemma push_context_ok (lines : list text) (k l : nat) (s : DiffState) :
  diff_ok k l s -> both k l lines -> diff_ok (k + length lines) (l + length lines) (foldl push_context s lines).
Proof.
  revert k l s. induction lines as [|line lines IH]; intros k l s Hs Hb; cbn [foldl length]; [by rewrite !Nat.add_0_r|].
  destruct (both_app k l [line] lines Hb) as [Hone Hrest]. cbn [length] in Hrest. rewrite !Nat.add_1_r in Hrest.
  rewrite !Nat.add_succ_r, <- !Nat.add_succ_l. apply IH; [|exact Hrest].
  pose proof (read_ok [line] (ds_output s ++ [line_context (ds_oldLineNum s) line]) (ds_lastWasChange s) k l s Hs Hone) as H.
  cbn [length] in H. rewrite !Nat.add_1_r in H. apply H. destruct Hs as (Ho & Hk & _). apply Forall_app. split; [done|].
  apply Forall_singleton. cbn [numbered]. rewrite Hk. split; [lia|]. rewrite Nat.sub_succ, Nat.sub_0_r.
  by destruct (prefix_lookup _ _ _ _ (proj1 Hone)).
Qed.

Lemma push_gap_ok (lines : list text) (k l : nat) (s : DiffState) :
  diff_ok k l s -> both k l lines -> diff_ok (k + length lines) (l + length lines) (push_gap (length lines) s).
Proof.
  intros Hs Hb. apply read_ok; [done|done|]. destruct Hs as (Ho & _). apply Forall_app. split; [done|by apply Forall_singleton].
Qed.

Lemma context_part_ok (contextLines : nat) (lead trail : bool) (raw : list text) (k l : nat) (s : DiffState) :
  diff_ok k l s -> both k l raw -> diff_ok (k + length raw) (l + length raw) (context_part contextLines lead trail raw s).
Proof.
  intros Hs Hb. unfold context_part.
  destruct (lead && trail) eqn:Elt; [destruct (Nat.leb_spec (length raw) (contextLines * 2)) as [Hle|Hgt]; [by apply push_context_ok|]
    |destruct lead; [|destruct trail]].
  - (* both sides *)
    unfold last_lines. set (leading := take contextLines raw). set (trailing := drop (length raw - contextLines) raw).
    set (middle := take (length raw - contextLines - contextLines) (drop contextLines raw)).
    assert (Hraw : raw = leading ++ middle ++ trailing).
    { unfold leading, middle, trailing. rewrite <- (take_drop contextLines raw) at 1. f_equal.
      rewrite <- (take_drop (length raw - contextLines - contextLines) (drop contextLines raw)) at 1. f_equal.
      rewrite drop_drop. f_equal. lia. }
    assert (Hm : length raw - length leading - length trailing = length middle).
    { rewrite Hraw, !length_app. lia. }
    rewrite Hm. rewrite Hraw in Hb |- *. rewrite !length_app, !Nat.add_assoc.
    apply both_app in Hb as [Hb1 Hb2]. apply both_app in Hb2 as [Hb2 Hb3].
    apply push_context_ok; [|done]. apply push_gap_ok; [|done]. by apply push_context_ok.
  - (* after a change *)
    set (shown := take contextLines raw). set (rest := drop contextLines raw).
    assert (Hraw : raw = shown ++ rest) by (symmetry; apply take_drop).
    assert (Hm : length raw - length shown = length rest) by (rewrite Hraw, length_app; lia).
    rewrite Hm. rewrite Hraw in Hb |- *. rewrite length_app, !Nat.add_assoc. apply both_app in Hb as [Hb1 Hb2].
    pose proof (push_context_ok _ _ _ _ Hs Hb1) as H1.
    destruct (Nat.ltb_spec 0 (length rest)) as [Hlt|Hge]; [by apply push_gap_ok|].
    by replace (length rest) with 0 by lia; rewrite !Nat.add_0_r.
  - (* before a change *)
    set (n := length raw - contextLines). set (hidden := take n raw). set (shown := drop n raw).
    assert (Hraw : raw = hidden ++ shown) by (symmetry; apply take_drop).
    assert (Hn : n = length hidden) by (unfold hidden; rewrite length_take; lia).
    rewrite Hraw in Hb |- *. rewrite length_app, !Nat.add_assoc. apply both_app in Hb as [Hb1 Hb2].
    apply push_context_ok; [|done]. destruct (Nat.ltb_spec 0 n) as [Hlt|Hge]; [rewrite Hn; by apply push_gap_ok|].
    replace (length hidden) with 0 by lia. by rewrite !Nat.add_0_r.
  - apply read_ok; [done|done|by destruct Hs].
Qed.
End Numbers.

(** What [Diff.diffLines] says: the parts of the old content, and of the new, are its pieces in order, of whole lines, and
    no part is both added and removed. *)
Definition parts_of (old new : text) (parts : list DiffPart) : Prop :=
  let olds := map dp_value (List.filter (fun part => negb (dp_added part)) parts) in
  let news := map dp_value (List.filter (fun part => negb (dp_removed part)) parts) in
  concat olds = old /\ concat news = new /\ line_values olds /\ line_values news
  /\ Forall (fun part => dp_added part && dp_removed part = false) parts.

Lemma note_first_ok (old new : text) (k l : nat) (s : DiffState) :
  diff_ok old new k l s -> diff_ok old new k l (note_first s) /\ ds_firstChangedLine (note_first s) <> None.
Proof.
  intros (Ho & Hk & Hl & Hc). unfold diff_ok, note_first. cbn [ds_output ds_oldLineNum ds_newLineNum ds_firstChangedLine].
  split; [|by destruct (ds_firstChangedLine s)]. do 3 (split; [done|]). destruct (ds_firstChangedLine s); [done|].
  destruct Hc as [-> Hc]. by rewrite Hl, Nat.sub_succ, Nat.sub_0_r.
Qed.

Lemma after_part_ok (old new : text) (change : bool) (k l : nat) (s : DiffState) :
  diff_ok old new k l s -> diff_ok old new k l (after_part change s).
Proof. done. Qed.

Lemma diff_parts_ok (old new : text) (contextLines k l : nat) (parts : list DiffPart) (s : DiffState) :
  left_over old k (map dp_value (List.filter (fun part => negb (dp_added part)) parts)) ->
  left_over new l (map dp_value (List.filter (fun part => negb (dp_removed part)) parts)) ->
  Forall (fun part => dp_added part && dp_removed part = false) parts -> diff_ok old new k l s ->
  exists k' l', diff_ok old new k' l' (diff_parts contextLines parts s).
Proof.
  revert k l s. induction parts as [|part parts IH]; intros k l s Ho Hn Hp Hs; cbn [diff_parts]; [by exists k, l|].
  apply Forall_cons in Hp as [Hx Hp]. unfold is_change. destruct (note_first_ok _ _ _ _ _ Hs) as [Hs' Hf].
  cbn [List.filter] in Ho, Hn. destruct (dp_added part), (dp_removed part); cbn [negb orb andb] in *; try done; cbn [map] in Ho, Hn.
  - apply left_over_step in Hn as [Hpre Hn]. eapply IH; [exact Ho|exact Hn|done|]. by apply after_part_ok, push_added_ok.
  - apply left_over_step in Ho as [Hpre Ho]. eapply IH; [exact Ho|exact Hn|done|]. by apply after_part_ok, push_removed_ok.
  - apply left_over_step in Hn as [Hpre' Hn]. apply left_over_step in Ho as [Hpre Ho]. eapply IH; [exact Ho|exact Hn|done|].
    apply after_part_ok, context_part_ok; [done|by split].
Qed.

Lemma all_left_over (content : text) (values : list text) : concat values = content -> line_values values -> left_over content 0 values.
Proof. intros Hc Hv. unfold left_over. destruct values; [done|]. by rewrite Hc. Qed.

(** The numbers of a diff are those of its lines. Whatever parts the diff package gives for two contents, every line
    shown is the line of that number, of the new content for an added one and of the old for the others, whatever is
    left out between; and every line before the first changed line is the same in both contents. *)
Theorem diff_numbers_lines (diffLines : text -> text -> list DiffPart) (old new : text) (contextLines : nat)
    (Hparts : parts_of old new (diffLines old new)) :
  exists lines width, fst (generateDiffString diffLines old new contextLines) = join_lines (map (render_line width) lines)
    /\ Forall (numbered old new) lines
    /\ forall n, snd (generateDiffString diffLines old new contextLines) = Some n ->
       take (n - 1) (lines_of old) = take (n - 1) (lines_of new).
Proof.
  destruct Hparts as (Ho & Hn & Hlo & Hln & Hx).
  destruct (diff_parts_ok old new contextLines 0 0 (diffLines old new) diff_start) as (k & l & Hs & _ & _ & Hf); [| |done|done|].
  - by apply all_left_over.
  - by apply all_left_over.
  - unfold generateDiffString. cbn [fst snd]. eexists _, _. split; [reflexivity|]. split; [exact Hs|].
    intros n Hfirst. by rewrite Hfirst in Hf.
Qed.

(** ** The call *)

(** Nothing is given to the write unless the path may be written, no check before it saw an abort, the file was read and
    every edit applied; and then it is the edited content. A call that reports success wrote it. *)
Lemma execute_writes (nfkc : text -> text) (is_mark : Z -> bool) (run : EditRun) (path : text) (edits : list Edit) :
  match edit_execute nfkc is_mark run path edits with
  | (outcome, Some bytes) =>
      er_canWritePath run = true /\ er_access run = None /\ Forall (fun point => er_aborted run point = false) [0; 1; 2; 3]
      /\ exists buffer out applied, er_read run = Ok buffer
         /\ edit_content nfkc is_mark (bytes_text buffer) edits = Ok (out, applied) /\ bytes = text_bytes out
         /\ (forall count applied', outcome = edited count applied' -> er_write run = None /\ applied' = applied)
  | (outcome, None) => exists message, outcome = edit_failed message
  end.
Proof.
  unfold edit_execute. destruct (length edits =? 0); [by eexists|]. destruct (er_canWritePath run); cbn [negb]; [|by eexists].
  destruct (er_aborted run 0) eqn:E0; [by eexists|]. destruct (er_access run) as [message|]; [destruct (er_aborted run 1); by eexists|].
  destruct (er_aborted run 1) eqn:E1; [by eexists|]. destruct (er_read run) as [buffer|message]; [|by eexists].
  destruct (er_aborted run 2) eqn:E2; [by eexists|].
  destruct (edit_content nfkc is_mark (bytes_text buffer) edits) as [[out applied]|e] eqn:Ee; [|by eexists].
  destruct (er_aborted run 3) eqn:E3; [by eexists|].
  assert (Habort : Forall (fun point => er_aborted run point = false) [0; 1; 2; 3]) by (repeat constructor; done).
  destruct (er_write run) as [message|]; [|destruct (er_aborted run 4)];
    do 3 (split; [done|]); exists buffer, out, applied; do 3 (split; [done|]); intros count applied'; by intros [= <- <-].
Qed.

(** ** Examples *)

(** Normalization where nothing is to normalize, and no combining marks. *)
Definition plain (t : text) : text := t.
Definition no_marks (u : Z) : bool := false.

Definition edit_of (old new : string) : Edit := {| oldText := literal old; newText := literal new |}.

(** A file with a byte order mark and CRLF endings, in which the quotes are typographic. *)
Definition sample_content : text := literal "one" ++ crlf ++ [8220%Z] ++ literal "two" ++ [8221%Z] ++ crlf ++ literal "three".
Definition sample_file : text := byte_order_unit :: sample_content.
Definition sample_edits : list Edit := [edit_of "three" "3"; edit_of (String "034" ("two" ++ String "034" EmptyString)) "2"].

Example edit_examples :
  edit_content plain no_marks sample_file sample_edits
  = Ok (byte_order_unit :: literal "one" ++ crlf ++ literal "2" ++ crlf ++ literal "3",
        {| baseContent := normalizeToLF sample_content; newContent := literal "one" ++ lf ++ literal "2" ++ lf ++ literal "3" |})
  /\ edit_content plain no_marks (literal "a b a") [edit_of "a" "c"] = Err (duplicate 0 1 2)
  /\ edit_content plain no_marks (literal "a b a") [edit_of "d" "c"] = Err (not_found 0 1)
  /\ edit_content plain no_marks (literal "abc") [edit_of "bc" "c"; edit_of "ab" "c"] = Err (overlap 1 0).
Proof. vm_compute. done. Qed.

Lemma sample_uniform : uniform crlf sample_content.
Proof.
  split; [by right|]. exists [literal "one"; [8220%Z] ++ literal "two" ++ [8221%Z]; literal "three"]. split; [|reflexivity].
  repeat (constructor; [vm_compute; repeat (constructor; [split; discriminate|]); constructor|]). constructor.
Qed.


Lemma content_map_mirrors_witness :
  normalized (buildNormalizedContentMap plain no_marks sample_content) = normalizeForFuzzyMatch plain sample_content.
Proof. apply (content_map_mirrors plain no_marks sample_content). split; [reflexivity|]. intros before a b after _ _. reflexivity. Defined.

(** A diff of two contents that share their first and last lines. *)
Definition sample_old : text := literal "a" ++ lf ++ literal "b" ++ lf ++ literal "c".
Definition sample_new : text := literal "a" ++ lf ++ literal "x" ++ lf ++ literal "y" ++ lf ++ literal "c".

Definition sample_diff (old new : text) : list DiffPart :=
  [{| dp_value := literal "a" ++ lf; dp_added := false; dp_removed := false |};
   {| dp_value := literal "b" ++ lf; dp_added := false; dp_removed := true |};
   {| dp_value := literal "x" ++ lf ++ literal "y" ++ lf; dp_added := true; dp_removed := false |};
   {| dp_value := literal "c"; dp_added := false; dp_removed := false |}].

Lemma sample_parts : parts_of sample_old sample_new (sample_diff sample_old sample_new).
Proof.
  unfold parts_of. cbv zeta. split; [reflexivity|]. split; [reflexivity|]. cbn. split; [|split; [|by repeat constructor]].
  - split; [by exists (literal "a")|]. split; [by exists (literal "b")|done].
  - split; [by exists (literal "a")|]. split; [by exists (literal "x" ++ lf ++ literal "y")|done].
Qed.

Lemma diff_numbers_lines_witness :
  snd (generateDiffString sample_diff sample_old sample_new 4) = Some 2
  /\ take (2 - 1) (lines_of sample_old) = take (2 - 1) (lines_of sample_new).
Proof.
  destruct (diff_numbers_lines sample_diff sample_old sample_new 4 sample_parts) as (lines & width & _ & _ & Hf).
  split; [vm_compute; reflexivity|]. apply Hf. vm_compute. reflexivity.
Defined.

Example diff_example :
  fst (generateDiffString sample_diff sample_old sample_new 4)
  = join_lines [literal " 1 a"; literal "-2 b"; literal "+2 x"; literal "+3 y"; literal " 3 c"].
Proof. vm_compute. done. Qed.

(** ** What the edits do not keep *)

(** An old text of white space is found in an empty file, which does not hold it. *)
Lemma white_space_found_anywhere :
  indexOf (literal "  ") [] = None
  /\ newContent <$> (match applyEditsToNormalizedContent plain no_marks [] [edit_of "  " "inserted"] with
                     | Ok r => Some r
                     | Err _ => None
                     end) = Some (literal "inserted").
Proof. vm_compute. done. Qed.

(** An old text with two occurrences that overlap counts as unique, and the first is replaced. *)
Lemma overlapping_occurrences_accepted :
  edit_content plain no_marks (literal "aaa") [edit_of "aa" "b"]
  = Ok (literal "ba", {| baseContent := literal "aaa"; newContent := literal "ba" |}).
Proof. vm_compute. done. Qed.

(** In a file of mixed endings those outside the region change too. *)
Lemma mixed_endings_rewritten :
  fst <$> (match edit_content plain no_marks (literal "a" ++ crlf ++ literal "b" ++ lf ++ literal "c") [edit_of "a" "x"] with
           | Ok r => Some r
           | Err _ => None
           end) = Some (literal "x" ++ crlf ++ literal "b" ++ crlf ++ literal "c").
Proof. vm_compute. done. Qed.

Definition sample_run (bytes : list Z) : EditRun :=
  {| er_canWritePath := true; er_aborted := fun _ => false; er_access := None; er_read := Ok bytes; er_write := None |}.

(** A byte that is no UTF-8 is written as a replacement character, though it is outside the region. *)
Lemma invalid_bytes_rewritten :
  snd (edit_execute plain no_marks (sample_run [255; 10; 97]%Z) (literal "f") [edit_of "a" "b"]) = Some [239; 191; 189; 10; 98]%Z.
Proof. vm_compute. done. Qed.

(** Compatibility jamo that compose when they are normalized together are not in one chunk, so that the map of a content
    is not its normalization. *)
Lemma jamo_not_mirrored (nfkc : text -> text) (is_mark : Z -> bool)
    (Hkiyeok : nfkc [12593%Z] = [4352%Z]) (Ha : nfkc [12623%Z] = [4449%Z]) (Hga : nfkc [12593; 12623]%Z = [44032%Z])
    (Hmark : is_mark 12623%Z = false) :
  normalized (buildNormalizedContentMap nfkc is_mark [12593; 12623]%Z) = [4352; 4449]%Z
  /\ normalizeForFuzzyMatch nfkc [12593; 12623]%Z = [44032%Z].
Proof.
  split.
  - unfold buildNormalizedContentMap. cbn [code_point_runs is_high is_low]. change (is_high 12593 && is_low 12623) with false. cbv iota.
    cbn [chunks]. unfold joinsPreviousChunk. rewrite Hmark. cbn. rewrite Hkiyeok, Ha. reflexivity.
  - unfold normalizeForFuzzyMatch. rewrite Hga. reflexivity.
Qed.
