(* ===== verification/CommandSafety.v ===== *)
(** * Command safety
    (packages/coding-agent/src/core/command-safety.ts)

    The verdict on a shell command before it runs: the command and each of its
    segments are classified, destructive file system commands, protected git
    operations and privilege commands by their tokens, and what a wrapper runs
    by classifying it in turn, to a bounded depth. Strings have code units below
    256. Indexing the table of interpreters with the name of a property of every
    object finds a function or an object that is no list, and the call of
    [includes] on it throws: a classification is an [option], [None] where it
    throws. *)

From Stdlib Require Import Ascii String Lia.
From stdpp Require Import base list option strings.
From S2P Require Import Prelude JsString Regex.

Open Scope string_scope.
Open Scope list_scope.
Open Scope nat_scope.

Module CommandSafety.

Inductive CommandRisk : Type := risk_block | risk_confirm | risk_allow.

#[export] Instance risk_eq_dec : EqDecision CommandRisk.
Proof. solve_decision. Defined.

Record CommandVerdict : Type := {
  risk : CommandRisk;
  rule : string;
  reason : string;
}.

Definition RISK_RANK (r : CommandRisk) : nat :=
  match r with
  | risk_allow => 0
  | risk_confirm => 1
  | risk_block => 2
  end.

Definition rank (v : CommandVerdict) : nat := RISK_RANK (risk v).

Definition mem (s : string) (l : list string) : bool := existsb (String.eqb s) l.

Definition PRIVILEGE_COMMANDS : list string := ["sudo"; "su"; "doas"; "pkexec"].
Definition SUDO_OPTIONS_WITH_VALUE : list string :=
  ["-C"; "--close-from"; "-g"; "--group"; "-h"; "--host"; "-p"; "--prompt"; "-T"; "--command-timeout"; "-u"; "--user"].
Definition GIT_GLOBAL_OPTIONS_WITH_VALUE : list string := ["-C"; "-c"; "--git-dir"; "--work-tree"; "--namespace"].
Definition MAX_WRAP_DEPTH : nat := 6.
Definition SHELL_WRAPPERS : list string := ["bash"; "sh"; "zsh"; "dash"; "ksh"; "ash"].

(** What indexing the table of interpreters gives: their flags, a value that is no list, or nothing. *)
Inductive InlineFlags : Type :=
| inline_flags (flags : list string)
| not_a_list
| no_flags.

Definition INTERPRETER_INLINE_FLAGS (executable : string) : InlineFlags :=
  if mem executable ["python"; "python2"; "python3"; "expect"] then inline_flags ["-c"]
  else if String.eqb executable "node" then inline_flags ["-e"; "--eval"; "-p"; "--print"]
  else if mem executable ["perl"; "ruby"] then inline_flags ["-e"; "-E"]
  else if String.eqb executable "php" then inline_flags ["-r"; "--run"]
  else if String.eqb executable "lua" then inline_flags ["-e"]
  else if mem executable ["constructor"; "__proto__"] then not_a_list
  else no_flags.

Definition any_space : regex := RStar RSpace.
Definition not_char (c : ascii) : regex := RChar (fun a => negb (Ascii.eqb a c)).
Definition any_quote : regex := RChar (fun a => Ascii.eqb a "'" || Ascii.eqb a quote_char).

(** A word of an alternative, then an opening parenthesis. *)
Definition call_of (name : regex) : regex := RSeqs [RWordB; name; any_space; RLit "("].
Definition rm_option : regex := RSeqs [RWordB; RLit "rm"; RPlus RSpace; RLit "-"].

Definition INLINE_DESTRUCTIVE_PATTERNS : list regex :=
  [call_of (RLit "os.system"); call_of (RLit "os.remove"); call_of (RLit "os.unlink"); call_of (RLit "shutil.rmtree");
   call_of (RSeq (RLit "subprocess.")
              (RAlts [RLit "call"; RLit "run"; RLit "check_call"; RLit "check_output"; RLit "Popen"]));
   call_of (RSeq (RLit "exec") (ROpt (RAlt (RLit "Sync") (RLit "File"))));
   call_of (RSeq (RLit "spawn") (ROpt (RLit "Sync")));
   RSeqs [RWordB; RLit "child_process"; RWordB];
   RSeqs [RWordB; RLit "require"; any_space; RLit "("; any_space; any_quote; RLit "child_process"; any_quote; any_space; RLit ")"];
   call_of (RAlt (RLit "system") (RLit "popen"));
   RSeqs [RLit "`"; RStar (not_char "`"); rm_option];
   RSeqs [RLit "$("; any_space; RStar (not_char ")"); rm_option]].

Definition XARGS_OPTIONS_WITH_VALUE : list string :=
  ["-I"; "-i"; "-n"; "-L"; "-P"; "-d"; "-E"; "-s"; "-a"; "--max-args"; "--max-procs"; "--delimiter"; "--arg-file"; "--max-lines";
   "--replace"].

Definition HOME_VARIABLE_RM_TARGETS : list string := ["$home"; "${home}"; "$home/"; "${home}/"].

Definition verdict (r : CommandRisk) (rule reason : string) : CommandVerdict := {| risk := r; rule := rule; reason := reason |}.

Definition allowVerdict : CommandVerdict :=
  verdict risk_allow "command.allow" "No destructive or protected command pattern matched.".

(** ** Tokens and segments *)

Definition is_name_start (a : ascii) : bool := is_alpha a || Ascii.eqb a "_".
Definition is_name_char (a : ascii) : bool := is_name_start a || in_range 48 57 a.

Fixpoint after_name (s : string) : string :=
  match s with
  | String a s' => if is_name_char a then after_name s' else s
  | EmptyString => EmptyString
  end.

(** [/^[A-Za-z_][A-Za-z0-9_]*=.*/] *)
Definition isEnvAssignment (token : string) : bool :=
  match token with
  | String a s =>
      is_name_start a && match after_name s with
                         | String b _ => Ascii.eqb b "="
                         | EmptyString => false
                         end
  | EmptyString => false
  end.

Definition snoc (s : string) (a : ascii) : string := (s ++ String a EmptyString)%string.

(** The state of a scan of shell text. *)
Record Lexer : Type := {
  lx_tokens : list string;
  lx_current : string;
  lx_quote : option ascii;
  lx_escaped : bool;
}.

Definition lexer_start : Lexer := {| lx_tokens := []; lx_current := EmptyString; lx_quote := None; lx_escaped := false |}.

Definition is_quote (a : ascii) : bool := Ascii.eqb a "'" || Ascii.eqb a quote_char.

(** Does a backslash escape here? *)
Definition escapes (a : ascii) (quote : option ascii) : bool :=
  Ascii.eqb a backslash_char && negb (bool_decide (quote = Some "'"%char)).

(** One character of the tokenizer; [space] parts tokens. *)
Definition token_step (space : ascii -> bool) (l : Lexer) (a : ascii) : Lexer :=
  let next tokens current quote escaped :=
    {| lx_tokens := tokens; lx_current := current; lx_quote := quote; lx_escaped := escaped |} in
  if lx_escaped l then next (lx_tokens l) (snoc (lx_current l) a) (lx_quote l) false
  else if escapes a (lx_quote l) then next (lx_tokens l) (lx_current l) (lx_quote l) true
  else
    match lx_quote l with
    | Some q =>
        if Ascii.eqb a q then next (lx_tokens l) (lx_current l) None false
        else next (lx_tokens l) (snoc (lx_current l) a) (Some q) false
    | None =>
        if is_quote a then next (lx_tokens l) (lx_current l) (Some a) false
        else if space a then
          if is_empty (lx_current l) then l else next (lx_tokens l ++ [lx_current l]) EmptyString None false
        else next (lx_tokens l) (snoc (lx_current l) a) None false
    end.

Fixpoint tokens_from (space : ascii -> bool) (l : Lexer) (s : string) : Lexer :=
  match s with
  | EmptyString => l
  | String a s' => tokens_from space (token_step space l a) s'
  end.

Definition flush (current : string) (rest : list string) : list string :=
  if is_empty current then rest else current :: rest.

Definition tokenizeShellSegment (segment : string) : list string :=
  let l := tokens_from is_ws lexer_start (trim segment) in
  lx_tokens l ++ flush (if lx_escaped l then snoc (lx_current l) backslash_char else lx_current l) [].

Definition is_separator (a : ascii) : bool :=
  Ascii.eqb a ";" || Ascii.eqb a "|" || (code a =? 10) || (code a =? 13).

(** The segments of the rest of a command, from the state of the scan. *)
Fixpoint split_from (current : string) (quote : option ascii) (escaped : bool) (s : string) : list string :=
  match s with
  | EmptyString => flush (trim current) []
  | String a s' =>
      if escaped then split_from (snoc current a) quote false s'
      else if escapes a quote then split_from (snoc current a) quote true s'
      else
        match quote with
        | Some q => split_from (snoc current a) (if Ascii.eqb a q then None else quote) false s'
        | None =>
            if is_quote a then split_from (snoc current a) (Some a) false s'
            else if is_separator a then flush (trim current) (split_from EmptyString None false s')
            else if Ascii.eqb a "&" then
              match s' with
              | String b s'' =>
                  if Ascii.eqb b "&" then flush (trim current) (split_from EmptyString None false s'')
                  else flush (trim current) (split_from EmptyString None false s')
              | EmptyString => flush (trim current) (split_from EmptyString None false s')
              end
            else split_from (snoc current a) None false s'
        end
  end.

Definition splitShellCommands (command : string) : list string := split_from EmptyString None false command.

(** ** Prefixes *)

Definition lower_is (token : string) (s : string) : bool := String.eqb (toLowerCase token) s.

Fixpoint skip_assignments (tokens : list string) : list string :=
  match tokens with
  | token :: rest => if isEnvAssignment token then skip_assignments rest else tokens
  | [] => []
  end.

Fixpoint skip_env_arguments (tokens : list string) : list string :=
  match tokens with
  | token :: rest => if isEnvAssignment token || startsWith "-" token then skip_env_arguments rest else tokens
  | [] => []
  end.

(** The tokens from the index that skips the environment. *)
Definition skipEnvironmentPrefix (tokens : list string) : list string :=
  match skip_assignments tokens with
  | token :: rest => if lower_is token "env" then skip_env_arguments rest else token :: rest
  | [] => []
  end.

Definition optionConsumesValue (option_ : string) (optionsWithValue : list string) : bool :=
  if includes "=" option_ then false else mem option_ optionsWithValue.

Fixpoint skip_sudo_options (skip : bool) (tokens : list string) : list string :=
  match tokens with
  | [] => []
  | token :: rest =>
      if skip then skip_sudo_options false rest
      else if negb (startsWith "-" token) then tokens
      else if String.eqb token "--" then rest
      else skip_sudo_options (optionConsumesValue token SUDO_OPTIONS_WITH_VALUE) rest
  end.

Definition skipPrivilegeOptions (tokens : list string) (privilege : string) : list string :=
  if String.eqb privilege "sudo" || String.eqb privilege "doas" then skip_sudo_options false tokens else tokens.

(** The command behind its prefixes, and the privilege command among them. *)
Definition stripCommandPrefixes (tokens : list string) : list string * option string :=
  match skipEnvironmentPrefix tokens with
  | token :: rest =>
      let privilege := toLowerCase token in
      if mem privilege PRIVILEGE_COMMANDS
      then (skipEnvironmentPrefix (skipPrivilegeOptions rest privilege), Some privilege)
      else (token :: rest, None)
  | [] => ([], None)
  end.

(** ** File system commands *)

Fixpoint without_space (s : string) : string :=
  match s with
  | EmptyString => EmptyString
  | String a s' => if is_ws a then without_space s' else String a (without_space s')
  end.

Definition hasForkBomb (command : string) : bool := includes ":(){:|:&};:" (without_space command).

(** [replace(/\/+/g, "/")] *)
Fixpoint collapse_slashes (s : string) : string :=
  match s with
  | EmptyString => EmptyString
  | String a s' =>
      match s' with
      | String b _ => if Ascii.eqb a "/" && Ascii.eqb b "/" then collapse_slashes s' else String a (collapse_slashes s')
      | EmptyString => String a EmptyString
      end
  end.

Definition normalizePathTarget (target : string) : string :=
  let stripped := stripTrailing "/" target in
  collapse_slashes (if is_empty stripped && negb (is_empty target) then "/" else stripped).

(** [/^~[A-Za-z0-9._-]/] *)
Definition user_home (s : string) : bool :=
  match s with
  | String a (String b _) =>
      Ascii.eqb a "~" && (is_name_char b || Ascii.eqb b "." || Ascii.eqb b "-")
  | _ => false
  end.

Definition classifyRmTarget (target : string) : option CommandVerdict :=
  let normalized := normalizePathTarget target in
  if mem normalized ["/"; "/*"; "/.*"] then
    Some (verdict risk_block "fs.rm_rf_root" "Recursive forced rm targets filesystem root.")
  else if mem normalized ["~"; "~/"; "~/*"; "~/.*"] then
    Some (verdict risk_block "fs.rm_rf_home" "Recursive forced rm targets the home directory.")
  else if mem (toLowerCase normalized) HOME_VARIABLE_RM_TARGETS then
    Some (verdict risk_confirm "fs.rm_rf_home_var"
            "Recursive forced rm targets $HOME, which expands to the user home directory.")
  else if user_home normalized then
    Some (verdict risk_confirm "fs.rm_rf_user_home" "Recursive forced rm targets another user home directory.")
  else if String.eqb normalized "." then
    Some (verdict risk_confirm "fs.rm_rf_cwd" "Recursive forced rm targets the current working directory.")
  else if String.eqb normalized ".." then
    Some (verdict risk_confirm "fs.rm_rf_parent" "Recursive forced rm targets the parent directory.")
  else None.

Record RmOptions : Type := {
  ro_recursive : bool;
  ro_force : bool;
  ro_endOfOptions : bool;
  ro_targets : list string;
}.

Definition rm_token (o : RmOptions) (token : string) : RmOptions :=
  if negb (ro_endOfOptions o) && String.eqb token "--" then
    {| ro_recursive := ro_recursive o; ro_force := ro_force o; ro_endOfOptions := true; ro_targets := ro_targets o |}
  else if negb (ro_endOfOptions o) && startsWith "-" token && negb (String.eqb token "-") then
    let short := negb (startsWith "--" token) in
    {| ro_recursive := ro_recursive o || String.eqb token "--recursive"
                       || (short && sexists (fun a => Ascii.eqb a "r" || Ascii.eqb a "R") (slice 1 token));
       ro_force := ro_force o || String.eqb token "--force" || (short && sexists (fun a => Ascii.eqb a "f") (slice 1 token));
       ro_endOfOptions := ro_endOfOptions o; ro_targets := ro_targets o |}
  else
    {| ro_recursive := ro_recursive o; ro_force := ro_force o; ro_endOfOptions := ro_endOfOptions o;
       ro_targets := ro_targets o ++ [token] |}.

Fixpoint first_verdict {A} (f : A -> option CommandVerdict) (l : list A) : option CommandVerdict :=
  match l with
  | [] => None
  | x :: rest =>
      match f x with
      | Some v => Some v
      | None => first_verdict f rest
      end
  end.

(** The verdict on [rm] with these arguments. *)
Definition classifyRm (arguments : list string) : option CommandVerdict :=
  let o := foldl rm_token {| ro_recursive := false; ro_force := false; ro_endOfOptions := false; ro_targets := [] |} arguments in
  if negb (ro_recursive o) || negb (ro_force o) then None else first_verdict classifyRmTarget (ro_targets o).

Definition lower_range (lo hi : ascii) (a : ascii) : bool := in_range (code lo) (code hi) (lower_ascii a).
Definition is_letter_i : regex := RChar (lower_range "a" "z").
Definition is_digit_or_letter_i : regex := RChar (fun a => lower_range "a" "z" a || in_range 48 57 a).
Definition any_char : regex := RChar (fun a => negb (is_line_terminator a)).

Definition BLOCK_DEVICE_OUTPUT : regex :=
  RSeqs [RBegin; RLitI "of=/dev/";
    RAlts [RSeqs [RLitI "sd"; is_letter_i; RStar is_digit_or_letter_i];
           RSeqs [RLitI "nvme"; RPlus is_digit_or_letter_i];
           RSeqs [RLitI "disk"; RAlts [RSeq (RChar (in_range 48 57)) (RStar any_char); RSeq (RLit "/") (RStar any_char); REnd]]]].

Definition isBlockDeviceOutput (token : string) : bool := rx_test BLOCK_DEVICE_OUTPUT token.

Definition classifyDestructiveFilesystemCommand (command : string) : option CommandVerdict :=
  if hasForkBomb command then
    Some (verdict risk_block "process.fork_bomb" "Shell fork bomb pattern would exhaust process resources.")
  else
    match fst (stripCommandPrefixes (tokenizeShellSegment command)) with
    | [] => None
    | first :: arguments =>
        let executable := toLowerCase first in
        if String.eqb executable "rm" then classifyRm arguments
        else if startsWith "mkfs" executable then
          Some (verdict risk_block "fs.mkfs" "Filesystem formatting commands are blocked.")
        else if String.eqb executable "dd" && existsb isBlockDeviceOutput arguments then
          Some (verdict risk_block "fs.dd_block_device" "dd writes directly to a block-device output path.")
        else None
    end.

(** ** Git *)

(** The tokens from the git command on, behind the global options. *)
Fixpoint skip_git_options (skip : bool) (tokens : list string) : list string :=
  match tokens with
  | [] => []
  | token :: rest =>
      if skip then skip_git_options false rest
      else if negb (startsWith "-" token) then tokens
      else if String.eqb token "--" then rest
      else
        skip_git_options (optionConsumesValue token GIT_GLOBAL_OPTIONS_WITH_VALUE
                          || optionConsumesValue (toLowerCase token) GIT_GLOBAL_OPTIONS_WITH_VALUE) rest
  end.

(** The git command and its arguments as they were given. *)
Definition findGitCommand (tokens : list string) : option (string * list string) :=
  match tokens with
  | first :: rest =>
      if lower_is first "git" then
        match skip_git_options false rest with
        | command :: originalArgs => Some (toLowerCase command, originalArgs)
        | [] => None
        end
      else None
  | [] => None
  end.

Definition hasGitCleanForceDirectory (args : list string) : bool :=
  let short arg := startsWith "-" arg && negb (startsWith "--" arg) in
  let flag (c : ascii) arg := short arg && sexists (fun a => Ascii.eqb a c) (slice 1 arg) in
  existsb (fun arg => String.eqb arg "--force" || String.eqb arg "-f" || flag "f"%char arg) args
  && existsb (fun arg => String.eqb arg "-d" || flag "d"%char arg) args.

Definition classify_git (command : string) (originalArgs : list string) : option CommandVerdict :=
  let args := map toLowerCase originalArgs in
  let named s := String.eqb command s in
  let confirm rule reason := Some (verdict risk_confirm rule reason) in
  if named "reset" && mem "--hard" args then confirm "git.reset_hard" "git reset --hard can discard worktree changes."
  else if named "restore" && ((mem "." originalArgs || mem "*" originalArgs) || (mem "--worktree" args || mem "--source" args)) then
    confirm "git.restore" "git restore can discard or overwrite local worktree changes."
  else if named "checkout" && mem "." originalArgs then
    confirm "git.checkout_dot" "git checkout . can overwrite local worktree changes."
  else if named "clean" && hasGitCleanForceDirectory args then
    confirm "git.clean_force" "git clean -fd can delete untracked files and directories."
  else if named "stash" && (length originalArgs =? 0) then
    confirm "git.stash_bare" "Bare git stash can hide local worktree changes."
  else if named "commit" && mem "--no-verify" args then
    confirm "git.no_verify" "git commit --no-verify bypasses repository verification hooks."
  else if named "push" && mem "--no-verify" args then
    confirm "git.push_no_verify" "git push --no-verify bypasses remote verification hooks."
  else if named "push" && (mem "-f" originalArgs || mem "--force" args || mem "--force-with-lease" args) then
    confirm "git.force_push" "Force-pushing can rewrite remote history."
  else None.

Definition classifyProtectedGitCommand (command : string) : option CommandVerdict :=
  match findGitCommand (fst (stripCommandPrefixes (tokenizeShellSegment command))) with
  | Some (gitCommand, originalArgs) => classify_git gitCommand originalArgs
  | None => None
  end.

Definition classifyPrivilegeCommand (command : string) : option CommandVerdict :=
  match skipEnvironmentPrefix (tokenizeShellSegment command) with
  | token :: _ =>
      let privilege := toLowerCase token in
      if mem privilege PRIVILEGE_COMMANDS
      then Some (verdict risk_confirm ("priv." ++ privilege)%string (privilege ++ " requires explicit per-command confirmation.")%string)
      else None
  | [] => None
  end.

(** ** Wrappers *)

(** [/^-[a-z]*c$/i] *)
Definition is_command_flag (token : string) : bool :=
  match token with
  | String a s =>
      Ascii.eqb a "-" && sforall (lower_range "a" "z") s && endsWith "c" (toLowerCase s)
  | EmptyString => false
  end.

(** The command string of [shell -c "..."]. *)
Fixpoint findShellCommandString (arguments : list string) : option string :=
  match arguments with
  | [] => None
  | token :: rest =>
      if negb (startsWith "-" token) then None
      else if is_command_flag token then head rest
      else findShellCommandString rest
  end.

(** The program of an interpreter. *)
Fixpoint findInterpreterInline (arguments flags : list string) : option string :=
  match arguments with
  | [] => None
  | token :: rest =>
      if String.eqb token "--" then None
      else if negb (startsWith "-" token) then None
      else if mem token flags || mem (toLowerCase token) flags then head rest
      else findInterpreterInline rest flags
  end.

Fixpoint strip_xargs (skip : bool) (args : list string) : list string :=
  match args with
  | [] => []
  | token :: rest =>
      if skip then strip_xargs false rest
      else if negb (startsWith "-" token) || String.eqb token "-" then args
      else if String.eqb token "--" then rest
      else strip_xargs (negb (includes "=" token) && mem token XARGS_OPTIONS_WITH_VALUE) rest
  end.

Definition stripXargsOptions (args : list string) : list string := strip_xargs false args.

Definition FIND_EXEC_FLAGS : list string := ["-exec"; "-execdir"; "-ok"; "-okdir"].

Fixpoint collect_exec (tokens : list string) : list string :=
  match tokens with
  | [] => []
  | piece :: rest =>
      if String.eqb piece ";" || String.eqb piece "+" then []
      else if String.eqb piece "{}" then collect_exec rest
      else piece :: collect_exec rest
  end.

(** The command of the first clause that runs one. *)
Fixpoint extractFindExec (arguments : list string) : option (list string) :=
  match arguments with
  | [] => None
  | token :: rest =>
      if mem (toLowerCase token) FIND_EXEC_FLAGS then
        match collect_exec rest with
        | [] => None
        | collected => Some collected
        end
      else extractFindExec rest
  end.

Definition find_delete : CommandVerdict := verdict risk_confirm "fs.find_delete" "find -delete removes matched files and directories.".

Definition interpreter_verdict (executable : string) : CommandVerdict :=
  verdict risk_confirm ("interp." ++ executable ++ "_inline_destructive")%string
    (executable ++ " inline program can execute destructive shell commands.")%string.

(** ** Classification *)

Section Wrapped.
(** The classification of what a wrapper runs. *)
Context (classify : string -> option CommandVerdict).

(** The verdict on an inner command, when there is one. *)
Definition inner_verdict (inner : string) : option (option CommandVerdict) :=
  if is_empty inner then Some None else v ← classify inner; Some (Some v).

(** The verdict on what a wrapper runs: [None] where the code throws, [Some None] where there is no verdict. *)
Definition classify_wrapped (command : string) : option (option CommandVerdict) :=
  match fst (stripCommandPrefixes (tokenizeShellSegment command)) with
  | [] => Some None
  | first :: arguments =>
      let executable := toLowerCase first in
      if mem executable SHELL_WRAPPERS then
        match findShellCommandString arguments with
        | Some inner => inner_verdict inner
        | None => Some None
        end
      else if String.eqb executable "eval" then inner_verdict (trim (join " " arguments))
      else if String.eqb executable "xargs" then inner_verdict (trim (join " " (stripXargsOptions arguments)))
      else if String.eqb executable "find" then
        innerVerdict ← match extractFindExec arguments with
                       | Some execTokens => inner_verdict (trim (join " " execTokens))
                       | None => Some None
                       end;
        if mem "-delete" (map toLowerCase (first :: arguments)) then
          Some (match innerVerdict with
                | None => Some find_delete
                | Some inner => if rank inner <? rank find_delete then Some find_delete else Some inner
                end)
        else Some innerVerdict
      else
        match INTERPRETER_INLINE_FLAGS executable with
        | no_flags => Some None
        | not_a_list =>
            match arguments with
            | token :: _ => if negb (String.eqb token "--") && startsWith "-" token then None else Some None
            | [] => Some None
            end
        | inline_flags flags =>
            match findInterpreterInline arguments flags with
            | None => Some None
            | Some program =>
                if existsb (fun pattern => rx_test pattern program) INLINE_DESTRUCTIVE_PATTERNS
                then Some (Some (interpreter_verdict executable))
                else Some None
            end
        end
  end.
End Wrapped.

Section Single.
(** The verdict on what a wrapper runs. *)
Context (wrapped : string -> option (option CommandVerdict)).

Definition is_risk (r : CommandRisk) (v : option CommandVerdict) : bool :=
  match v with
  | Some x => bool_decide (risk x = r)
  | None => false
  end.

(** The verdict of the tokens themselves: git, privilege, what is wrapped, or none. *)
Definition classify_tokens (trimmed : string) (wrappedVerdict : option CommandVerdict) : CommandVerdict :=
  match classifyProtectedGitCommand trimmed with
  | Some v => v
  | None =>
      match classifyPrivilegeCommand trimmed with
      | Some v => v
      | None =>
          match wrappedVerdict with
          | Some v => if RISK_RANK risk_allow <? rank v then v else allowVerdict
          | None => allowVerdict
          end
      end
  end.

Definition classify_single (command : string) : option CommandVerdict :=
  let trimmed := trim command in
  if is_empty trimmed then Some allowVerdict
  else
    match classifyDestructiveFilesystemCommand trimmed with
    | Some v => Some v
    | None =>
        wrappedVerdict ← wrapped trimmed;
        Some (match wrappedVerdict with
              | Some v => if bool_decide (risk v = risk_block) then v else classify_tokens trimmed wrappedVerdict
              | None => classify_tokens trimmed wrappedVerdict
              end)
    end.

(** The worst verdict; the loop ends at the first block. *)
Fixpoint select_worst (selected : CommandVerdict) (segments : list string) : option CommandVerdict :=
  match segments with
  | [] => Some selected
  | segment :: rest =>
      candidate ← classify_single segment;
      let selected := if rank selected <? rank candidate then candidate else selected in
      if bool_decide (risk selected = risk_block) then Some selected else select_worst selected rest
  end.

Definition classify_command (command : string) : option CommandVerdict :=
  selected ← classify_single command; select_worst selected (splitShellCommands command).
End Single.

(** [classifyShellCommandInternal(command, MAX_WRAP_DEPTH - room)] *)
Fixpoint classifyShellCommandInternal (room : nat) (command : string) : option CommandVerdict :=
  match room with
  | O => classify_command (fun _ => Some None) command
  | S room' => classify_command (classify_wrapped (classifyShellCommandInternal room')) command
  end.

Definition classifyShellCommand (command : string) : option CommandVerdict := classifyShellCommandInternal MAX_WRAP_DEPTH command.

Definition isDestructiveFilesystem (command : string) : bool := bool_decide (is_Some (classifyDestructiveFilesystemCommand command)).
Definition isProtectedGitOperation (command : string) : bool := bool_decide (is_Some (classifyProtectedGitCommand command)).
Definition isPrivilegeEscalation (command : string) : bool := bool_decide (is_Some (classifyPrivilegeCommand command)).

(** ** Examples *)

Definition verdict_of (command : string) : option (CommandRisk * string) :=
  (fun v => (risk v, rule v)) <$> classifyShellCommand command.

Example verdict_examples :
  map verdict_of
    ["ls -la"; "rm -rf /"; "rm -r -f //"; "cd /tmp && rm -rf ~"; "sudo -u root rm -rf $HOME"; "git reset --hard HEAD~1";
     "bash -lc 'rm -rf /'"; "find . -name x -exec rm -rf / {} ;"; "find . -delete"; "xargs -n 1 rm -rf .."; "echo 'rm -rf /'";
     "python3 -c 'import os; os.system(1)'"; "dd if=/dev/zero of=/dev/sda1"; "FOO=1 env -i git push --force"; "doas ls"]
  = [Some (risk_allow, "command.allow"); Some (risk_block, "fs.rm_rf_root"); Some (risk_block, "fs.rm_rf_root");
     Some (risk_block, "fs.rm_rf_home"); Some (risk_confirm, "fs.rm_rf_home_var"); Some (risk_confirm, "git.reset_hard");
     Some (risk_block, "fs.rm_rf_root"); Some (risk_block, "fs.rm_rf_root"); Some (risk_confirm, "fs.find_delete");
     Some (risk_confirm, "fs.rm_rf_parent"); Some (risk_allow, "command.allow");
     Some (risk_confirm, "interp.python3_inline_destructive"); Some (risk_block, "fs.dd_block_device");
     Some (risk_confirm, "git.force_push"); Some (risk_confirm, "priv.doas")].
Proof. vm_compute. reflexivity. Qed.
End CommandSafety.
