(* ===== verification/CommandSafetyTheory.v ===== *)
(** * What the verdicts on commands promise

    A command is never hidden behind a separator or inside a shell; words come
    back from the tokenizer as they were; and a forced recursive removal of the
    root is blocked however its options are written. *)

From Stdlib Require Import Ascii String Lia.
From stdpp Require Import base list option strings.
From S2P Require Import Prelude JsString Regex CommandSafety.

Import CommandSafety.

Open Scope string_scope.
Open Scope list_scope.
Open Scope nat_scope.

(** ** The worst verdict *)

Lemma rank_block (v : CommandVerdict) : rank v <= 2 /\ (rank v = 2 <-> risk v = risk_block).
Proof. unfold rank. destruct (risk v); cbn; split; try lia; split; done || lia. Qed.

Section Worst.
Context (wrapped : string -> option (option CommandVerdict)).

(** The selected verdict is as bad as any. *)
Lemma select_worst_spec (selected v : CommandVerdict) (segments : list string) :
  select_worst wrapped selected segments = Some v ->
  rank selected <= rank v
  /\ forall segment w, segment ∈ segments -> classify_single wrapped segment = Some w -> rank w <= rank v.
Proof.
  revert selected. induction segments as [|segment rest IH]; intros selected; cbn [select_worst].
  { intros [= ->]. split; [lia|]. by intros ? ? ?%elem_of_nil. }
  destruct (classify_single wrapped segment) as [candidate|] eqn:Ec; cbn [mbind option_bind]; [|done].
  set (worse := if rank selected <? rank candidate then candidate else selected).
  assert (Hw : rank selected <= rank worse /\ rank candidate <= rank worse).
  { unfold worse. destruct (Nat.ltb_spec (rank selected) (rank candidate)); lia. }
  case_bool_decide as Hb.
  - intros [= <-]. apply rank_block in Hb. split; [lia|]. intros ? w _ _. pose proof (proj1 (rank_block w)). lia.
  - intros [Hs Hall]%IH. split; [lia|]. intros ? w [->|Hin]%elem_of_cons Hc; [|by eapply Hall].
    assert (w = candidate) as -> by congruence. lia.
Qed.

Lemma classify_command_worst (command : string) (v : CommandVerdict) :
  classify_command wrapped command = Some v ->
  (exists w, classify_single wrapped command = Some w /\ rank w <= rank v)
  /\ forall segment w, segment ∈ splitShellCommands command -> classify_single wrapped segment = Some w -> rank w <= rank v.
Proof.
  unfold classify_command. destruct (classify_single wrapped command) as [selected|]; cbn [mbind option_bind]; [|done].
  intros [Hs Hall]%select_worst_spec. split; [by exists selected|done].
Qed.

(** A command of one segment has the verdict of that segment, up to rank. *)
Lemma classify_simple (command : string) (v : CommandVerdict) :
  splitShellCommands command = [command] -> classify_command wrapped command = Some v ->
  exists w, classify_single wrapped command = Some w /\ rank v = rank w.
Proof.
  intros Hs. unfold classify_command. rewrite Hs. destruct (classify_single wrapped command) as [w|] eqn:E; cbn [mbind option_bind select_worst]; [|done].
  rewrite E. cbn [mbind option_bind]. rewrite Nat.ltb_irrefl. case_bool_decide; intros [= <-]; by exists w.
Qed.
End Worst.

(** ** Segments *)

(** The state of the scan after some text. *)
Fixpoint scan_state (quote : option ascii) (escaped : bool) (s : string) : option ascii * bool :=
  match s with
  | EmptyString => (quote, escaped)
  | String a s' =>
      if escaped then scan_state quote false s'
      else if escapes a quote then scan_state quote true s'
      else
        match quote with
        | Some q => scan_state (if Ascii.eqb a q then None else quote) false s'
        | None => scan_state (if is_quote a then Some a else None) false s'
        end
  end.

(** Text that leaves no quote open and nothing escaped. *)
Definition closed (s : string) : Prop := scan_state None false s = (None, false).

(** The characters that part commands: semicolon, bar, ampersand and the line ends. *)
Definition ends_segment (a : ascii) : bool := existsb (Ascii.eqb a) [";"; "|"; "&"; "010"; "013"]%char.

Lemma ends_segment_tests (a : ascii) : ends_segment a = is_separator a || Ascii.eqb a "&".
Proof. destruct a as [[] [] [] [] [] [] [] []]; reflexivity. Qed.

Lemma flush_app (current : string) (a b : list string) : flush current (a ++ b) = flush current a ++ b.
Proof. unfold flush. by destruct (is_empty current). Qed.

Lemma is_quote_not_escape (a : ascii) : ends_segment a = true -> escapes a None = false /\ is_quote a = false.
Proof.
  unfold escapes, is_quote. intros H. split.
  - destruct (Ascii.eqb_spec a backslash_char) as [->|]; [by vm_compute in H|done].
  - destruct (Ascii.eqb_spec a "'") as [->|]; [by vm_compute in H|]. destruct (Ascii.eqb_spec a quote_char) as [->|]; [by vm_compute in H|done].
Qed.

(** A second ampersand only ends an empty segment. *)
Lemma split_ampersand (s : string) : split_from EmptyString None false (String "&" s) = split_from EmptyString None false s.
Proof.
  induction s as [|b s IH]; [done|].
  change (split_from EmptyString None false (String "&" (String b s)))
    with (if Ascii.eqb b "&" then split_from EmptyString None false s else split_from EmptyString None false (String b s)).
  destruct (Ascii.eqb_spec b "&") as [->|]; [by rewrite IH|done].
Qed.

Lemma split_at_end (current : string) (a : ascii) (t : string) :
  ends_segment a = true ->
  split_from current None false (String a t) = flush (trim current) (split_from EmptyString None false t).
Proof.
  intros Ha. destruct (is_quote_not_escape a Ha) as [He Hq]. cbn [split_from]. rewrite He, Hq.
  destruct (is_separator a) eqn:Es; [done|]. rewrite ends_segment_tests, Es in Ha. cbn [orb] in Ha. rewrite Ha.
  destruct t as [|b t]; [done|]. destruct (Ascii.eqb_spec b "&") as [->|]; [|done]. by rewrite split_ampersand.
Qed.

(** The segments around the end of one. *)
Lemma split_from_app (s t : string) (a : ascii) (current : string) (quote : option ascii) (escaped : bool) :
  ends_segment a = true -> scan_state quote escaped s = (None, false) ->
  split_from current quote escaped (s ++ String a t) = split_from current quote escaped s ++ split_from EmptyString None false t.
Proof.
  intros Ha. remember (String.length s) as n eqn:Hn. revert s Hn current quote escaped.
  induction (lt_wf n) as [n _ IH]. intros s Hn current quote escaped Hs. destruct s as [|b s].
  { cbn [scan_state] in Hs. injection Hs as -> ->. cbn [append]. rewrite split_at_end by done. cbn [split_from].
    by rewrite <- flush_app. }
  assert (IHs : forall current quote escaped, scan_state quote escaped s = (None, false) ->
    split_from current quote escaped (s ++ String a t) = split_from current quote escaped s ++ split_from EmptyString None false t).
  { intros. apply (IH (String.length s)); [cbn in Hn; lia|done..]. }
  cbn [append scan_state] in *. cbn [split_from]. destruct escaped; [by apply IHs|]. destruct (escapes b quote); [by apply IHs|].
  destruct quote as [q|]; [by apply IHs|]. destruct (is_quote b) eqn:Eq; [by apply IHs|].
  destruct (is_separator b); [by rewrite IHs, flush_app|]. destruct (Ascii.eqb b "&"); [|by apply IHs].
  destruct s as [|c s].
  - cbn [append]. destruct (Ascii.eqb_spec a "&") as [->|Hne].
    + change (split_from EmptyString None false EmptyString) with (@nil string). by rewrite <- flush_app.
    + rewrite (split_at_end EmptyString a t) by done. change (split_from EmptyString None false EmptyString) with (@nil string).
      by rewrite <- flush_app.
  - cbn [append]. destruct (Ascii.eqb_spec c "&") as [->|Hne]; [|change (String c (s ++ String a t)%string) with (String c s ++ String a t)%string; by rewrite IHs, flush_app].
    rewrite (IH (String.length s)), flush_app; [done|cbn in Hn; lia|done|]. exact Hs.
Qed.

(** A command with no separator of its own. *)
Definition simple (command : string) : Prop := splitShellCommands command = [command].

(** The classification of a command at a depth, with the classification of what it wraps. *)
Lemma classify_at (room : nat) : exists wrapped, forall command, classifyShellCommandInternal room command = classify_command wrapped command.
Proof. destruct room; by eexists. Qed.

Lemma segment_below (wrapped : string -> option (option CommandVerdict)) (whole part : string) (v w : CommandVerdict) :
  classify_command wrapped whole = Some v -> classify_command wrapped part = Some w -> simple part ->
  part ∈ splitShellCommands whole -> rank w <= rank v.
Proof.
  intros Hv Hw Hs Hin. destruct (classify_simple wrapped part w Hs Hw) as (x & Hx & ->).
  apply (classify_command_worst wrapped) in Hv as [_ Hall]. by apply (Hall part).
Qed.


Definition home_verdict : CommandVerdict := verdict risk_block "fs.rm_rf_home" "Recursive forced rm targets the home directory.".


(** ** Words *)

(** A character that stands for itself. *)
Definition is_plain (a : ascii) : bool := negb (is_ws a) && negb (is_quote a) && negb (Ascii.eqb a backslash_char).

Definition plain_word (w : string) : Prop := is_empty w = false /\ sforall is_plain w = true.

Lemma snoc_append (a b : string) (x : ascii) : (snoc a x ++ b)%string = (a ++ String x b)%string.
Proof. unfold snoc. by rewrite app_assoc_str. Qed.

Lemma tokens_from_append (space : ascii -> bool) (l : Lexer) (a b : string) :
  tokens_from space l (a ++ b) = tokens_from space (tokens_from space l a) b.
Proof. revert l. induction a as [|x a IH]; intros l; [done|]. cbn [append tokens_from]. apply IH. Qed.

Lemma plain_escapes (a : ascii) (quote : option ascii) : is_plain a = true -> escapes a quote = false.
Proof. unfold is_plain, escapes. rewrite !andb_true_iff, !negb_true_iff. by intros [_ ->]. Qed.

(** A plain word is added to the current token. *)
Lemma tokens_plain (space : ascii -> bool) (w current : string) (tokens : list string) :
  (forall a, space a = true -> is_ws a = true) -> sforall is_plain w = true ->
  tokens_from space {| lx_tokens := tokens; lx_current := current; lx_quote := None; lx_escaped := false |} w
  = {| lx_tokens := tokens; lx_current := current ++ w; lx_quote := None; lx_escaped := false |}.
Proof.
  intros Hspace. revert current. induction w as [|a w IH]; intros current Hw; cbn [tokens_from]; [by rewrite app_nil_str|].
  cbn [sforall] in Hw. apply andb_true_iff in Hw as [Ha Hw].
  unfold token_step. cbn [lx_escaped lx_quote lx_current lx_tokens]. rewrite plain_escapes by done.
  unfold is_plain in Ha. rewrite !andb_true_iff, !negb_true_iff in Ha. destruct Ha as [[Hs Hq] _]. rewrite Hq.
  assert (space a = false) as -> by (apply not_true_iff_false; intros E%Hspace; congruence).
  rewrite IH by done. by rewrite snoc_append.
Qed.

Definition words (l : list string) : string := join " " l.

Lemma tokens_words (space : ascii -> bool) (tokens : list string) (l : list string) :
  (forall a, space a = true -> is_ws a = true) -> space " "%char = true -> Forall plain_word l ->
  let lexer := tokens_from space {| lx_tokens := tokens; lx_current := EmptyString; lx_quote := None; lx_escaped := false |} (words l) in
  lx_tokens lexer ++ flush (lx_current lexer) [] = tokens ++ l /\ lx_escaped lexer = false.
Proof.
  intros Hspace Hblank H. revert tokens. induction H as [|w l [Hw Hp] Hl IH]; intros tokens; [done|].
  destruct l as [|w' l].
  - unfold words. cbn [join]. rewrite tokens_plain by done. cbn [append lx_tokens lx_current lx_escaped]. unfold flush. by rewrite Hw.
  - unfold words in *. change (join " " (w :: w' :: l)) with (w ++ String " " (join " " (w' :: l)))%string.
    rewrite tokens_from_append, tokens_plain by done. cbn [append]. cbn [tokens_from].
    assert (Hstep : token_step space {| lx_tokens := tokens; lx_current := w; lx_quote := None; lx_escaped := false |} " "
      = {| lx_tokens := tokens ++ [w]; lx_current := EmptyString; lx_quote := None; lx_escaped := false |}).
    { unfold token_step. cbn [lx_escaped lx_quote lx_current lx_tokens]. change (escapes " " None) with false.
      change (is_quote " ") with false. cbv iota. by rewrite Hblank, Hw. }
    rewrite Hstep. specialize (IH (tokens ++ [w])). cbv zeta in *. rewrite <- (app_assoc tokens [w] (w' :: l)) in IH. exact IH.
Qed.

Lemma trim_start_plain (s : string) (a : ascii) : is_ws a = false -> trimStart (String a s) = String a s.
Proof. intros H. cbn. by rewrite H. Qed.

Lemma trim_end_plain (s : string) (a : ascii) : is_ws a = false -> trimEnd (snoc s a) = snoc s a.
Proof.
  intros H. unfold snoc. induction s as [|b s IH]; cbn [append trimEnd]; [by rewrite H|]. rewrite IH. by destruct s.
Qed.

(** Text between two characters that are no white space is not trimmed. *)
Lemma trim_between (s : string) (a b : ascii) : is_ws a = false -> is_ws b = false -> trim (String a (snoc s b)) = String a (snoc s b).
Proof.
  intros Ha Hb. unfold trim. rewrite trim_start_plain by done. by apply (trim_end_plain (String a s)).
Qed.

Lemma word_ends (w : string) : plain_word w -> exists s a, w = snoc s a /\ is_ws a = false.
Proof.
  intros [Hn Hp]. induction w as [|a w IH]; [done|]. cbn [sforall] in Hp. apply andb_true_iff in Hp as [Ha Hp].
  destruct w as [|b w].
  - exists EmptyString, a. split; [done|]. unfold is_plain in Ha. rewrite !andb_true_iff, !negb_true_iff in Ha. by destruct Ha as [[? _] _].
  - destruct (IH eq_refl Hp) as (s & c & -> & Hc). by exists (String a s), c.
Qed.

Lemma trim_words (l : list string) : Forall plain_word l -> trim (words l) = words l.
Proof.
  intros H. assert (Hend : l = [] \/ exists s a, words l = snoc s a /\ is_ws a = false).
  { unfold words. induction H as [|w l Hw Hl IH]; [by left|]. right. destruct IH as [-> | (s & a & Hs & Ha)].
    - by apply word_ends.
    - destruct l as [|w' l]; [by destruct s|]. change (join " " (w :: w' :: l)) with (w ++ String " " (join " " (w' :: l)))%string.
      exists (w ++ String " " s)%string, a. rewrite Hs. split; [|done]. unfold snoc. by rewrite app_assoc_str. }
  destruct Hend as [-> | (s & a & Hs & Ha)]; [done|]. rewrite Hs. unfold trim.
  assert (Hstart : trimStart (snoc s a) = snoc s a); [|by rewrite Hstart, trim_end_plain].
  rewrite <- Hs. destruct H as [|w l [Hn Hp] Hl]; [done|]. destruct w as [|b w]; [done|]. cbn [sforall] in Hp.
  apply andb_true_iff in Hp as [Hb _]. unfold is_plain in Hb. rewrite !andb_true_iff, !negb_true_iff in Hb. destruct Hb as [[Hb _] _].
  unfold words. destruct l as [|w' l]; cbn [join append]; by apply trim_start_plain.
Qed.

(** Words come back from the tokenizer as they were. *)
Lemma tokenize_words (l : list string) : Forall plain_word l -> tokenizeShellSegment (words l) = l.
Proof.
  intros H. unfold tokenizeShellSegment. rewrite trim_words by done.
  destruct (tokens_words is_ws [] l (fun a E => E) eq_refl H) as [Ht He].
  unfold lexer_start. cbv zeta in *. rewrite He. exact Ht.
Qed.

(** ** Removal of the root *)

(** A character that ends no segment and begins no quote. *)
Definition within_segment (a : ascii) : bool := negb (ends_segment a) && negb (is_quote a) && negb (Ascii.eqb a backslash_char).

Lemma split_within (s current : string) :
  sforall within_segment s = true -> split_from current None false s = flush (trim (current ++ s)) [].
Proof.
  revert current. induction s as [|a s IH]; intros current Hs; [cbn [split_from]; by rewrite app_nil_str|].
  cbn [sforall] in Hs. apply andb_true_iff in Hs as [Ha Hs]. unfold within_segment in Ha.
  rewrite !andb_true_iff, !negb_true_iff in Ha. destruct Ha as [[He Hq] Hb]. rewrite ends_segment_tests in He. apply orb_false_iff in He as [Hsep Hamp].
  cbn [split_from]. assert (escapes a None = false) as -> by (unfold escapes; by rewrite Hb).
  rewrite Hq, Hsep, Hamp, IH by done. by rewrite snoc_append.
Qed.

(** Words without separators are one segment. *)
Lemma words_simple (l : list string) :
  l <> [] -> Forall plain_word l -> Forall (fun w => sforall within_segment w = true) l -> simple (words l).
Proof.
  intros Hne Hp Hw. unfold simple, splitShellCommands. rewrite split_within.
  - cbn [append]. rewrite trim_words by done. unfold flush. destruct Hp as [|w l [Hn _] _]; [done|]. unfold words.
    destruct l as [|w' l]; cbn [join]; [by rewrite Hn|]. by destruct w.
  - unfold words. clear Hne Hp. induction Hw as [|w l Hw Hl IH]; [done|]. destruct l as [|w' l]; [done|].
    change (join " " (w :: w' :: l)) with (w ++ String " " (join " " (w' :: l)))%string. rewrite sforall_app, Hw. exact IH.
Qed.

(** An option of [rm], and what it asks for. *)
Definition rm_option_word (w : string) : Prop := startsWith "-" w = true /\ w <> "-" /\ w <> "--".
Definition short_option (w : string) : bool := negb (startsWith "--" w).
Definition asks_recursive (w : string) : bool :=
  String.eqb w "--recursive" || (short_option w && sexists (fun a => Ascii.eqb a "r" || Ascii.eqb a "R") (slice 1 w)).
Definition asks_force (w : string) : bool :=
  String.eqb w "--force" || (short_option w && sexists (fun a => Ascii.eqb a "f") (slice 1 w)).

Lemma rm_options (options : list string) (o : RmOptions) :
  ro_endOfOptions o = false -> Forall rm_option_word options ->
  foldl rm_token o options
  = {| ro_recursive := ro_recursive o || existsb asks_recursive options; ro_force := ro_force o || existsb asks_force options;
       ro_endOfOptions := false; ro_targets := ro_targets o |}.
Proof.
  intros He H. revert o He. induction H as [|w options (Hd & H1 & H2) Hs IH]; intros o He; cbn [foldl existsb].
  { rewrite !orb_false_r, <- He. by destruct o. }
  assert (Hstep : rm_token o w = {| ro_recursive := ro_recursive o || asks_recursive w; ro_force := ro_force o || asks_force w;
                                    ro_endOfOptions := false; ro_targets := ro_targets o |}).
  { unfold rm_token. rewrite He, Hd. rewrite (proj2 (String.eqb_neq w "--")), (proj2 (String.eqb_neq w "-")) by done. cbn [negb andb].
    unfold asks_recursive, asks_force, short_option. by rewrite !orb_assoc. }
  rewrite Hstep, IH by done. cbn [ro_recursive ro_force ro_targets]. by rewrite !orb_assoc.
Qed.

Definition root_target (target : string) : Prop :=
  startsWith "-" target = false /\ mem (normalizePathTarget target) ["/"; "/*"; "/.*"] = true.

Lemma rm_root (options : list string) (target : string) :
  Forall rm_option_word options -> existsb asks_recursive options = true -> existsb asks_force options = true -> root_target target ->
  exists v, classifyRm (options ++ [target]) = Some v /\ risk v = risk_block.
Proof.
  intros Ho Hr Hf [Hd Hroot]. unfold classifyRm. rewrite foldl_app, (rm_options options) by done. cbn [ro_recursive ro_force ro_targets orb].
  rewrite Hr, Hf. cbn [foldl]. unfold rm_token. cbn [ro_endOfOptions ro_recursive ro_force ro_targets negb andb].
  destruct (String.eqb_spec target "--") as [->|]; [done|]. rewrite Hd. cbn [andb ro_recursive ro_force ro_targets negb orb app first_verdict].
  unfold classifyRmTarget. rewrite Hroot. by eexists.
Qed.

(** A forced recursive removal of the root is blocked. However the options are written and ordered, together or
    apart, short or long, and whatever slashes the target has, the verdict on the command is to block it. *)
Theorem forced_rm_of_root_blocked (options : list string) (target : string)
    (Hplain : Forall plain_word (options ++ [target]))
    (Hwithin : Forall (fun w => sforall within_segment w = true) (options ++ [target]))
    (Hoptions : Forall rm_option_word options)
    (Hrecursive : existsb asks_recursive options = true) (Hforce : existsb asks_force options = true) (Hroot : root_target target) :
  exists v, classifyShellCommand (words ("rm" :: options ++ [target])) = Some v /\ risk v = risk_block.
Proof.
  set (command := words ("rm" :: options ++ [target])).
  assert (Hp : Forall plain_word ("rm" :: options ++ [target])) by (constructor; [by split|done]).
  assert (Hs : simple command) by (apply words_simple; [done|done|by constructor]).
  assert (Hsingle : forall wrapped, exists v, classify_single wrapped command = Some v /\ risk v = risk_block).
  { intros wrapped. unfold classify_single. unfold command. rewrite trim_words by done.
    assert (is_empty (words ("rm" :: options ++ [target])) = false) as -> by (by destruct options).
    unfold classifyDestructiveFilesystemCommand. destruct (hasForkBomb _); [by eexists|]. rewrite tokenize_words by done.
    destruct (rm_root options target Hoptions Hrecursive Hforce Hroot) as (v & Hv & Hb).
    change (stripCommandPrefixes ("rm" :: options ++ [target])) with ("rm" :: options ++ [target], @None string).
    cbn [fst]. change (String.eqb (toLowerCase "rm") "rm") with true. cbv iota. rewrite Hv. by exists v. }
  unfold classifyShellCommand. destruct (classify_at MAX_WRAP_DEPTH) as [wrapped Hw]. rewrite Hw.
  destruct (Hsingle wrapped) as (v & Hv & Hb). exists v. split; [|done]. unfold classify_command. rewrite Hs, Hv.
  cbn [mbind option_bind select_worst]. rewrite Hv. cbn [mbind option_bind]. rewrite Nat.ltb_irrefl.
  by rewrite bool_decide_eq_true_2.
Qed.

Lemma forced_rm_of_root_blocked_witness :
  exists v, classifyShellCommand "rm -v --force -Ri ///" = Some v /\ risk v = risk_block.
Proof.
  apply (forced_rm_of_root_blocked ["-v"; "--force"; "-Ri"] "///").
  - repeat (constructor; [by split|]). constructor.
  - repeat (constructor; [vm_compute; reflexivity|]). constructor.
  - repeat (constructor; [split; [reflexivity|split; discriminate]|]). constructor.
  - reflexivity.
  - reflexivity.
  - by split.
Defined.

(** ** Wrappers *)

Definition no_single_quote (s : string) : bool := sforall (fun a => negb (Ascii.eqb a "'")) s.

(** [shell -c '...'] *)
Definition in_shell (shell command : string) : string := (shell ++ " -c '" ++ snoc command "'")%string.

(** Between single quotes every character stands for itself. *)
Lemma tokens_quoted (s current : string) (tokens : list string) :
  no_single_quote s = true ->
  tokens_from is_ws {| lx_tokens := tokens; lx_current := current; lx_quote := Some "'"%char; lx_escaped := false |} (snoc s "'")
  = {| lx_tokens := tokens; lx_current := current ++ s; lx_quote := None; lx_escaped := false |}.
Proof.
  unfold snoc. revert current. induction s as [|a s IH]; intros current Hs; cbn [append]; [cbn; by rewrite app_nil_str|].
  cbn [no_single_quote sforall] in Hs. apply andb_true_iff in Hs as [Ha%negb_true_iff Hs]. cbn [tokens_from].
  assert (Hstep : token_step is_ws {| lx_tokens := tokens; lx_current := current; lx_quote := Some "'"%char; lx_escaped := false |} a
    = {| lx_tokens := tokens; lx_current := snoc current a; lx_quote := Some "'"%char; lx_escaped := false |}).
  { unfold token_step. cbn [lx_escaped lx_quote lx_current lx_tokens]. unfold escapes. rewrite bool_decide_eq_true_2 by done.
    rewrite andb_false_r. by rewrite Ha. }
  rewrite Hstep, IH by done. by rewrite snoc_append.
Qed.

Lemma in_shell_tokens (shell command : string) :
  mem shell SHELL_WRAPPERS = true -> is_empty command = false -> no_single_quote command = true ->
  trim (in_shell shell command) = in_shell shell command /\ tokenizeShellSegment (in_shell shell command) = [shell; "-c"; command]
  /\ toLowerCase shell = shell /\ stripCommandPrefixes [shell; "-c"; command] = ([shell; "-c"; command], None)
  /\ is_empty (in_shell shell command) = false /\ lower_is shell "git" = false.
Proof.
  intros Hs Hn Hq.
  assert (Hshell : tokens_from is_ws lexer_start (shell ++ " -c '")
      = {| lx_tokens := [shell; "-c"]; lx_current := EmptyString; lx_quote := Some "'"%char; lx_escaped := false |}
    /\ (exists a s, shell = String a s /\ is_ws a = false) /\ toLowerCase shell = shell
    /\ stripCommandPrefixes [shell; "-c"; command] = ([shell; "-c"; command], None) /\ lower_is shell "git" = false).
  { apply existsb_exists in Hs as (x & Hin & ->%String.eqb_eq). cbn in Hin.
    repeat (destruct Hin as [<-|Hin]; [split_and!; try reflexivity; by eexists _, _|]). destruct Hin. }
  destruct Hshell as (Hlex & (a & s & Hshape & Ha) & Hlow & Hstrip & Hgit).
  assert (Htrim : trim (in_shell shell command) = in_shell shell command).
  { assert (in_shell shell command = String a (snoc (s ++ " -c '" ++ command) "'")) as ->; [|by apply trim_between].
    unfold in_shell, snoc. by rewrite Hshape, !app_assoc_str. }
  split_and!; try done; [|by rewrite Hshape].
  unfold tokenizeShellSegment. rewrite Htrim. unfold in_shell.
  rewrite <- app_assoc_str, tokens_from_append, Hlex, tokens_quoted by done.
  cbn [lx_escaped lx_current lx_tokens append]. unfold flush. by rewrite Hn.
Qed.



(** ** What the verdicts miss *)

(** The value of an option of [env] is taken for the command, which is then not seen. *)
Lemma env_option_hides_command : verdict_of "env -u X rm -rf /" = Some (risk_allow, "command.allow").
Proof. vm_compute. reflexivity. Qed.

(** So is the command string of a shell behind an option with a value. *)
Lemma shell_option_hides_command : verdict_of "bash -o pipefail -c 'rm -rf /'" = Some (risk_allow, "command.allow").
Proof. vm_compute. reflexivity. Qed.

(** The quotes of a command string are lost when the arguments of [xargs] and [eval] are joined again. *)
Lemma joined_arguments_hide_command : verdict_of "xargs sh -c 'rm -rf /'" = Some (risk_allow, "command.allow").
Proof. vm_compute. reflexivity. Qed.

(** A command named like a property of every object makes the classification throw. *)
Lemma inherited_property_throws : classifyShellCommand "constructor -x" = None.
Proof. vm_compute. reflexivity. Qed.
