(* ===== verification/CommandParser.v ===== *)
(** * Command parser
    (packages/coding-agent/src/core/command-safety-parser.ts)

    The structure of a shell command: its segments and their tokens, the command
    substitutions, subshells and process substitutions it nests to a bounded
    depth, its assignments, expansions and decoder pipelines, and what could not
    be parsed; and the verdict that composes them with the verdict of
    [CommandSafety]. Strings have code units below 256; a place in a text is the
    rest of the text from there. *)

From Stdlib Require Import Ascii String Lia.
From stdpp Require Import base list option strings.
From S2P Require Import Prelude JsString Regex CommandSafety.
Import CommandSafety.

Open Scope string_scope.
Open Scope list_scope.
Open Scope nat_scope.

Module CommandParser.

Definition MAX_SCAN_DEPTH : nat := 6.

Definition DECODER_EXECUTABLES : list string :=
  ["sh"; "bash"; "zsh"; "dash"; "ksh"; "ash"; "eval"; "source"; "."; "python"; "python2"; "python3"; "node"; "perl"; "ruby"; "php"; "lua";
   "expect"; "env"; "xargs"].

Definition LOADER_INJECTION_ENV : list string :=
  ["LD_PRELOAD"; "LD_LIBRARY_PATH"; "LD_AUDIT"; "LD_BIND_NOW"; "LD_PROFILE"; "DYLD_INSERT_LIBRARIES"; "DYLD_LIBRARY_PATH";
   "DYLD_FALLBACK_LIBRARY_PATH"; "NODE_OPTIONS"; "NODE_PATH"; "NODE_REPL_EXTERNAL_MODULE"; "NODE_EXTRA_CA_CERTS";
   "NODE_TLS_REJECT_UNAUTHORIZED"; "PYTHONPATH"; "PYTHONHOME"; "PYTHONSTARTUP"; "PYTHONINSPECT"; "PERL5LIB"; "PERLLIB"; "PERL5OPT";
   "RUBYLIB"; "RUBYOPT"; "RUBYPATH"; "JAVA_TOOL_OPTIONS"; "_JAVA_OPTIONS"; "JDK_JAVA_OPTIONS"; "MAVEN_OPTS"].

Definition SENSITIVE_NAME_EXACT : list string :=
  ["AWS_ACCESS_KEY_ID"; "AWS_SECRET_ACCESS_KEY"; "AWS_SESSION_TOKEN"; "GITHUB_TOKEN"; "GH_TOKEN"; "GITLAB_TOKEN"; "NPM_TOKEN";
   "NODE_AUTH_TOKEN"].

Definition SENSITIVE_NAME_REGEX : regex :=
  RSeqs [RAlt RBegin (RLit "_");
         RAlts (map RLitI ["API_KEY"; "API_TOKEN"; "ACCESS_TOKEN"; "SECRET"; "SECRET_KEY"; "PRIVATE_KEY"; "PASSWORD"; "PASSWD"; "TOKEN"]);
         REnd].

Definition RISKY_EXPANSION_EXEC : list string :=
  ["rm"; "dd"; "mkfs"; "find"; "git"; "chmod"; "chown"; "cp"; "mv"; "install"; "rsync"; "scp"].

Record ShellSegment : Type := {
  sg_text : string;
  sg_tokens : list string;
}.

Inductive SubcommandKind : Type := dollar_paren | backtick.

Record SubcommandNode : Type := {
  sc_kind : SubcommandKind;
  sc_inner : string;
  sc_depth : nat;
}.

Record SubshellNode : Type := {
  sh_inner : string;
  sh_depth : nat;
}.

Inductive Direction : Type := direction_in | direction_out.

Record ProcessSubNode : Type := {
  ps_direction : Direction;
  ps_inner : string;
  ps_depth : nat;
}.

Inductive Position : Type := position_prefix | position_export | position_env | position_inline.

Record EnvAssignment : Type := {
  ea_name : string;
  ea_value : string;
  ea_position : Position;
  ea_loaderInjection : bool;
  ea_sensitiveName : bool;
}.

Inductive ExpansionKind : Type := expansion_var | expansion_brace.

Record ExpansionNode : Type := {
  ex_kind : ExpansionKind;
  ex_name : string;
  ex_depth : nat;
}.

Record DecoderPipeline : Type := {
  dp_stages : list string;
  dp_decoderIndex : nat;
  dp_executorIndex : nat;
  dp_executor : string;
}.

Record ParseDiagnostic : Type := {
  pd_code : string;
  pd_message : string;
  pd_fatal : bool;
}.

Record ShellAnalysis : Type := {
  sa_raw : string;
  sa_segments : list ShellSegment;
  sa_subcommands : list SubcommandNode;
  sa_subshells : list SubshellNode;
  sa_processSubstitutions : list ProcessSubNode;
  sa_assignments : list EnvAssignment;
  sa_dynamicExpansions : list ExpansionNode;
  sa_decoderPipelines : list DecoderPipeline;
  sa_wrapperDepth : nat;
  sa_diagnostics : list ParseDiagnostic;
}.

Inductive CommandAction : Type := action_allow | action_confirm | action_block | action_escalate.

#[export] Instance action_eq_dec : EqDecision CommandAction.
Proof. solve_decision. Defined.

Record RiskReason : Type := {
  rr_code : string;
  rr_message : string;
}.

Record CommandRiskV2Verdict : Type := {
  v2_action : CommandAction;
  v2_reasons : list RiskReason;
  v2_normalizedCommands : list string;
  v2_analysis : ShellAnalysis;
}.

Definition ACTION_RANK (a : CommandAction) : nat :=
  match a with
  | action_allow => 0
  | action_confirm => 1
  | action_escalate => 2
  | action_block => 3
  end.

(** The white space of the parser has no no-break space. *)
Definition isWhitespace (a : ascii) : bool := in_range 9 13 a || Ascii.eqb a " ".

Definition isSensitiveEnvName (name : string) : bool := mem name SENSITIVE_NAME_EXACT || rx_test SENSITIVE_NAME_REGEX name.

(** ** Segments, tokens and stages *)

(** The segments of the rest of a command; a lone bar stays in its segment. *)
Fixpoint top_from (buf : string) (quote : option ascii) (escaped : bool) (s : string) : list string :=
  match s with
  | EmptyString => flush (trim buf) []
  | String ch s' =>
      if escaped then top_from (snoc buf ch) quote false s'
      else if escapes ch quote then top_from (snoc buf ch) quote true s'
      else
        match quote with
        | Some q => top_from (snoc buf ch) (if Ascii.eqb ch q then None else quote) false s'
        | None =>
            let cut rest := flush (trim buf) (top_from EmptyString None false rest) in
            if is_quote ch then top_from (snoc buf ch) (Some ch) false s'
            else if Ascii.eqb ch ";" then cut s'
            else if Ascii.eqb ch "&" then
              match s' with
              | String next s'' => if Ascii.eqb next "&" then cut s'' else cut s'
              | EmptyString => cut s'
              end
            else if Ascii.eqb ch "|" then
              match s' with
              | String next s'' => if Ascii.eqb next "|" then cut s'' else top_from (snoc buf ch) None false s'
              | EmptyString => top_from (snoc buf ch) None false s'
              end
            else if (code ch =? 10) || (code ch =? 13) then cut s'
            else top_from (snoc buf ch) None false s'
        end
  end.

Definition splitTopLevelCommands (command : string) : list string := top_from EmptyString None false command.

Definition tokenize (segment : string) : list string :=
  let l := tokens_from isWhitespace lexer_start segment in lx_tokens l ++ flush (lx_current l) [].

Fixpoint stages_from (buf : string) (quote : option ascii) (escaped : bool) (s : string) : list string :=
  match s with
  | EmptyString => flush (trim buf) []
  | String ch s' =>
      if escaped then stages_from (snoc buf ch) quote false s'
      else if escapes ch quote then stages_from (snoc buf ch) quote true s'
      else
        match quote with
        | Some q => stages_from (snoc buf ch) (if Ascii.eqb ch q then None else quote) false s'
        | None =>
            if is_quote ch then stages_from (snoc buf ch) (Some ch) false s'
            else if Ascii.eqb ch "|" then flush (trim buf) (stages_from EmptyString None false s')
            else stages_from (snoc buf ch) None false s'
        end
  end.

Definition splitPipeStages (segment : string) : list string := stages_from EmptyString None false segment.

(** ** Parentheses and expansions *)

(** The offset in [s] of the parenthesis that closes the outermost of the [depth] open ones. *)
Fixpoint find_paren (depth : nat) (quote : option ascii) (escaped : bool) (s : string) : option nat :=
  match s with
  | EmptyString => None
  | String ch s' =>
      let next depth quote escaped := S <$> find_paren depth quote escaped s' in
      if escaped then next depth quote false
      else if escapes ch quote then next depth quote true
      else
        match quote with
        | Some q => next depth (if Ascii.eqb ch q then None else quote) false
        | None =>
            if is_quote ch then next depth (Some ch) false
            else if Ascii.eqb ch "(" then next (S depth) None false
            else if Ascii.eqb ch ")" then
              match depth with
              | 1 => Some 0
              | _ => next (pred depth) None false
              end
            else next depth None false
        end
  end.

(** [text] starts at the opening parenthesis; the offset is from there. *)
Definition findMatchingParen (text : string) : option nat :=
  match text with
  | String ch _ => if Ascii.eqb ch "(" then find_paren 0 None false text else None
  | EmptyString => None
  end.

Fixpoint find_char (c : ascii) (s : string) : option nat :=
  match s with
  | EmptyString => None
  | String a s' => if Ascii.eqb a c then Some 0 else S <$> find_char c s'
  end.

(** [/^[A-Za-z_][A-Za-z0-9_]*$/] *)
Definition is_name (s : string) : bool :=
  match s with
  | String a s' => is_name_start a && is_empty (after_name s')
  | EmptyString => false
  end.

Fixpoint name_length (s : string) : nat :=
  match s with
  | String a s' => if is_name_char a then S (name_length s') else 0
  | EmptyString => 0
  end.

(** The expansion behind a dollar, and how many characters it has there. *)
Definition readExpansion (s : string) : option (ExpansionKind * string * nat) :=
  match s with
  | EmptyString => None
  | String next s' =>
      if Ascii.eqb next "{" then
        close ← find_char "}" s';
        let name := slice_to close s' in
        if is_name name then Some (expansion_brace, name, close + 2) else None
      else if is_name_start next then Some (expansion_var, slice_to (name_length s) s, name_length s)
      else None
  end.

(** ** Structure *)

Record ScanState : Type := {
  ss_subcommands : list SubcommandNode;
  ss_subshells : list SubshellNode;
  ss_processSubs : list ProcessSubNode;
  ss_expansions : list ExpansionNode;
  ss_diagnostics : list ParseDiagnostic;
  ss_maxDepth : nat;
}.

Definition scan_start : ScanState :=
  {| ss_subcommands := []; ss_subshells := []; ss_processSubs := []; ss_expansions := []; ss_diagnostics := []; ss_maxDepth := 0 |}.

Definition diagnose (d : ParseDiagnostic) (st : ScanState) : ScanState :=
  {| ss_subcommands := ss_subcommands st; ss_subshells := ss_subshells st; ss_processSubs := ss_processSubs st;
     ss_expansions := ss_expansions st; ss_diagnostics := ss_diagnostics st ++ [d]; ss_maxDepth := ss_maxDepth st |}.

Definition push_expansion (e : ExpansionNode) (st : ScanState) : ScanState :=
  {| ss_subcommands := ss_subcommands st; ss_subshells := ss_subshells st; ss_processSubs := ss_processSubs st;
     ss_expansions := ss_expansions st ++ [e]; ss_diagnostics := ss_diagnostics st; ss_maxDepth := ss_maxDepth st |}.

(** The structures a text nests. *)
Inductive Structure : Type :=
| st_subcommand (kind : SubcommandKind)
| st_subshell
| st_process (direction : Direction).

Definition push_node (k : Structure) (inner : string) (depth : nat) (st : ScanState) : ScanState :=
  let deep := Nat.max (ss_maxDepth st) depth in
  match k with
  | st_subcommand kind =>
      {| ss_subcommands := ss_subcommands st ++ [{| sc_kind := kind; sc_inner := inner; sc_depth := depth |}];
         ss_subshells := ss_subshells st; ss_processSubs := ss_processSubs st; ss_expansions := ss_expansions st;
         ss_diagnostics := ss_diagnostics st; ss_maxDepth := deep |}
  | st_subshell =>
      {| ss_subcommands := ss_subcommands st; ss_subshells := ss_subshells st ++ [{| sh_inner := inner; sh_depth := depth |}];
         ss_processSubs := ss_processSubs st; ss_expansions := ss_expansions st; ss_diagnostics := ss_diagnostics st;
         ss_maxDepth := deep |}
  | st_process direction =>
      {| ss_subcommands := ss_subcommands st; ss_subshells := ss_subshells st;
         ss_processSubs := ss_processSubs st ++ [{| ps_direction := direction; ps_inner := inner; ps_depth := depth |}];
         ss_expansions := ss_expansions st; ss_diagnostics := ss_diagnostics st; ss_maxDepth := deep |}
  end.

Definition fatal (code_ message : string) : ParseDiagnostic := {| pd_code := code_; pd_message := message; pd_fatal := true |}.

Definition unterminated (k : Structure) : ParseDiagnostic :=
  match k with
  | st_subcommand dollar_paren => fatal "parser.unterminated_dollar_paren" "Unterminated $( ... )."
  | st_subcommand backtick => fatal "parser.unterminated_backtick" "Unterminated backtick."
  | st_process _ => fatal "parser.unterminated_process_sub" "Unterminated process substitution."
  | st_subshell => fatal "parser.unterminated_subshell" "Unterminated subshell."
  end.

Definition unterminated_quote (q : ascii) : ParseDiagnostic :=
  fatal "parser.unterminated_quote" ("Unterminated " ++ String q " quote.")%string.

Definition depth_exceeded : ParseDiagnostic :=
  {| pd_code := "parser.depth_exceeded"; pd_message := "Wrapper nesting exceeded depth 6."; pd_fatal := false |}.

Definition starts_paren (s : string) : bool :=
  match s with
  | String a _ => Ascii.eqb a "("
  | EmptyString => false
  end.

(** The structure that starts with [ch] before [s]. *)
Definition structure_at (quote : option ascii) (ch : ascii) (s : string) : option Structure :=
  if bool_decide (quote = Some "'"%char) then None
  else if Ascii.eqb ch "$" && starts_paren s then Some (st_subcommand dollar_paren)
  else if Ascii.eqb ch "`" then Some (st_subcommand backtick)
  else if bool_decide (quote <> None) then None
  else if (Ascii.eqb ch "<" || Ascii.eqb ch ">") && starts_paren s
  then Some (st_process (if Ascii.eqb ch "<" then direction_in else direction_out))
  else if Ascii.eqb ch "(" then Some st_subshell
  else None.

(** What a structure holds, and how many characters of [s] it has. *)
Definition extent (k : Structure) (ch : ascii) (s : string) : option (string * nat) :=
  match k with
  | st_subcommand backtick => close ← find_char "`" s; Some (slice_to close s, S close)
  | st_subcommand dollar_paren | st_process _ => close ← findMatchingParen s; Some (slice_to (close - 1) (slice 1 s), S close)
  | st_subshell => close ← findMatchingParen (String ch s); Some (slice_to (close - 1) s, close)
  end.

Definition closes_quote (quote : option ascii) (ch : ascii) : option ascii :=
  match quote with
  | Some q => if Ascii.eqb ch q then None else quote
  | None => if is_quote ch then Some ch else None
  end.

Section Scan.
(** The scan of the text of a structure, one level deeper, and the depth here. *)
Context (scan_inner : string -> ScanState -> ScanState) (depth : nat).

(** The rest of a scan; [skip] characters of it have been read. *)
Fixpoint scan_from (skip : nat) (quote : option ascii) (escaped : bool) (s : string) (st : ScanState) : ScanState :=
  match s with
  | EmptyString =>
      match quote with
      | Some q => diagnose (unterminated_quote q) st
      | None => st
      end
  | String ch s' =>
      match skip with
      | S skip' => scan_from skip' quote escaped s' st
      | O =>
          if escaped then scan_from 0 quote false s' st
          else if escapes ch quote then scan_from 0 quote true s' st
          else
            match structure_at quote ch s' with
            | Some k =>
                match extent k ch s' with
                | None => diagnose (unterminated k) st
                | Some (inner, skip') => scan_from skip' quote false s' (scan_inner inner (push_node k inner depth st))
                end
            | None =>
                if Ascii.eqb ch "$" && negb (bool_decide (quote = Some "'"%char)) then
                  match readExpansion s' with
                  | Some (kind, name, skip') =>
                      scan_from skip' quote false s' (push_expansion {| ex_kind := kind; ex_name := name; ex_depth := depth |} st)
                  | None => scan_from 0 (closes_quote quote ch) false s' st
                  end
                else scan_from 0 (closes_quote quote ch) false s' st
            end
      end
  end.
End Scan.

(** [scanStructural(text, state, MAX_SCAN_DEPTH + 1 - room)] *)
Fixpoint scanStructural (room : nat) (text : string) (st : ScanState) : ScanState :=
  match room with
  | O => diagnose depth_exceeded st
  | S room' => scan_from (scanStructural room') (MAX_SCAN_DEPTH - room') 0 None false text st
  end.

(** ** Assignments and decoders *)

(** A name, an equals sign and a value on one line. *)
Definition read_assignment (token : string) : option (string * string) :=
  match after_name token with
  | String b value =>
      if isEnvAssignment token && sforall (fun a => negb (is_line_terminator a)) value
      then Some (slice_to (name_length token) token, value) else None
  | EmptyString => None
  end.

(** The options of [env] that are taken to have a value. *)
Definition ENV_NAME_OPTIONS : list string := ["-u"; "--unset"; "-s"; "--ignore-environment"].

Fixpoint skip_env_options (tokens : list string) : list string :=
  match tokens with
  | [] => []
  | tok :: rest =>
      if String.eqb tok "--" then rest
      else if negb (startsWith "-" tok) then tokens
      else if mem (toLowerCase tok) ENV_NAME_OPTIONS then
        match rest with
        | [] => []
        | name :: rest' => if includes "=" name then skip_env_options rest else skip_env_options rest'
        end
      else skip_env_options rest
  end.

Fixpoint read_assignments (position : Position) (tokens : list string) : list EnvAssignment :=
  match tokens with
  | [] => []
  | tok :: rest =>
      match read_assignment tok with
      | None => []
      | Some (name, value) =>
          {| ea_name := name; ea_value := value; ea_position := position; ea_loaderInjection := mem name LOADER_INJECTION_ENV;
             ea_sensitiveName := isSensitiveEnvName name |} :: read_assignments position rest
      end
  end.

Definition detectAssignments (segment : string) : list EnvAssignment :=
  match tokenize segment with
  | [] => []
  | first :: rest =>
      let head := toLowerCase first in
      if mem head ["export"; "set"] then read_assignments position_export rest
      else if String.eqb head "env" then read_assignments position_env (skip_env_options rest)
      else read_assignments position_prefix (first :: rest)
  end.

Definition isDecoderStage (exec : string) (tokens : list string) : bool :=
  if String.eqb exec "base64" then existsb (fun t => mem t ["-d"; "--decode"; "-D"]) (drop 1 tokens)
  else if String.eqb exec "xxd" then existsb (fun t => mem t ["-r"; "-rp"; "-r -p"]) (drop 1 tokens)
  else if String.eqb exec "openssl" then
    let lower := map toLowerCase tokens in
    mem "enc" lower && existsb (fun t => mem t ["-d"; "-decrypt"; "-aes-256-cbc"]) lower
  else mem exec ["printf"; "uudecode"; "mmencode"; "recode"].

(** The executable of a stage. *)
Definition stage_exec (stage : string) : option string := toLowerCase <$> head (tokenize stage).

Definition decodes (stage : string) : bool :=
  match stage_exec stage with
  | Some exec => isDecoderStage exec (tokenize stage)
  | None => false
  end.

Definition executes (stage : string) : bool :=
  match stage_exec stage with
  | Some exec => mem exec DECODER_EXECUTABLES
  | None => false
  end.

(** The first index where a test holds. *)
Fixpoint first_index (test : string -> bool) (l : list string) : option nat :=
  match l with
  | [] => None
  | x :: rest => if test x then Some 0 else S <$> first_index test rest
  end.

(** The loop finds the first decoder and the first executor of the stages. *)
Definition detectDecoderPipeline (segment : string) : option DecoderPipeline :=
  let stages := splitPipeStages segment in
  if length stages <? 2 then None
  else
    match first_index decodes stages, first_index executes stages with
    | Some decoderIndex, Some executorIndex =>
        if decoderIndex <=? executorIndex
        then Some {| dp_stages := stages; dp_decoderIndex := decoderIndex; dp_executorIndex := executorIndex;
                     dp_executor := default "" (stages !! executorIndex ≫= stage_exec) |}
        else None
    | _, _ => None
    end.

Definition analyzeShellCommandV2 (command : string) : ShellAnalysis :=
  let topSegments := splitTopLevelCommands command in
  let state := scanStructural (S MAX_SCAN_DEPTH) command scan_start in
  {| sa_raw := command;
     sa_segments := map (fun text => {| sg_text := text; sg_tokens := tokenize text |}) topSegments;
     sa_subcommands := ss_subcommands state;
     sa_subshells := ss_subshells state;
     sa_processSubstitutions := ss_processSubs state;
     sa_assignments := concat (map detectAssignments topSegments);
     sa_dynamicExpansions := ss_expansions state;
     sa_decoderPipelines := omap detectDecoderPipeline topSegments;
     sa_wrapperDepth := ss_maxDepth state;
     sa_diagnostics := ss_diagnostics state |}.

(** ** Verdict *)

Definition bump (current candidate : CommandAction) : CommandAction :=
  if ACTION_RANK current <? ACTION_RANK candidate then candidate else current.

(** The action and the reasons so far. *)
Record Verdict : Type := {
  vd_action : CommandAction;
  vd_reasons : list RiskReason;
}.

(** A reason, and the action it bumps to. *)
Definition note (code_ message : string) (candidate : CommandAction) (v : Verdict) : Verdict :=
  {| vd_action := bump (vd_action v) candidate; vd_reasons := vd_reasons v ++ [{| rr_code := code_; rr_message := message |}] |}.

Definition remark (code_ message : string) (v : Verdict) : Verdict :=
  {| vd_action := vd_action v; vd_reasons := vd_reasons v ++ [{| rr_code := code_; rr_message := message |}] |}.

Definition note_when (b : bool) (code_ message : string) (candidate : CommandAction) (v : Verdict) : Verdict :=
  if b then note code_ message candidate v else v.

(** What an inner command adds; the risky ones of process substitutions are not remarked. *)
Definition inspect_inner (what : string) (remarked : bool) (inner : string) (v : Verdict) : option Verdict :=
  innerVerdict ← classifyShellCommand inner;
  Some (match risk innerVerdict with
        | risk_block =>
            note ("exec.inner_block:" ++ rule innerVerdict)%string (what ++ " hides a destructive command: " ++ reason innerVerdict)%string
              action_block v
        | risk_confirm =>
            if remarked
            then remark ("exec.inner_confirm:" ++ rule innerVerdict)%string (what ++ " hides a risky command: " ++ reason innerVerdict)%string v
            else v
        | risk_allow => v
        end).

Fixpoint inspect_all (what : string) (remarked : bool) (inners : list string) (v : Verdict) : option Verdict :=
  match inners with
  | [] => Some v
  | inner :: rest => v' ← inspect_inner what remarked inner v; inspect_all what remarked rest v'
  end.

Definition nonempty {A} (l : list A) : bool :=
  match l with
  | [] => false
  | _ => true
  end.

Definition note_pipeline (v : Verdict) (dp : DecoderPipeline) : Verdict :=
  note "exec.decoder_pipeline"
    ("Decoder pipeline (" ++ default "" (dp_stages dp !! dp_decoderIndex dp) ++ " -> " ++ dp_executor dp ++ ") can execute a decoded payload.")%string
    action_confirm v.

Definition note_assignment (v : Verdict) (a : EnvAssignment) : Verdict :=
  if ea_loaderInjection a then
    note "env.loader_injection" ("Assignment sets loader/runtime injection variable " ++ ea_name a ++ ".")%string action_confirm v
  else
    note_when (ea_sensitiveName a) "env.sensitive_assignment"
      ("Assignment exposes a sensitive variable " ++ ea_name a ++ " on the command line.")%string action_confirm v.

(** The risky command of a segment whose arguments are expanded. *)
Definition dynamic_target (seg : ShellSegment) : option string :=
  match sg_tokens seg with
  | [] => None
  | first :: arguments =>
      let exec := toLowerCase first in
      if negb (is_empty exec) && mem exec RISKY_EXPANSION_EXEC && existsb (includes "$") arguments then Some exec else None
  end.

Definition note_segment (v : Verdict) (seg : ShellSegment) : Verdict :=
  match dynamic_target seg with
  | Some exec =>
      note "exec.dynamic_target" ("Unresolved expansion in arguments of risky command '" ++ exec ++ "'.")%string action_confirm v
  | None => v
  end.

Definition note_diagnostic (v : Verdict) (d : ParseDiagnostic) : Verdict :=
  note_when (pd_fatal d) (pd_code d) (pd_message d) action_confirm v.

Definition action_of (r : CommandRisk) : CommandAction :=
  match r with
  | risk_block => action_block
  | risk_confirm => action_confirm
  | risk_allow => action_allow
  end.

Definition hasDynamic (a : ShellAnalysis) : bool :=
  nonempty (sa_subcommands a) || nonempty (sa_subshells a) || nonempty (sa_processSubstitutions a).

(** What the structure adds, once the inner commands have been inspected. *)
Definition note_structure (base : CommandVerdict) (a : ShellAnalysis) (v : Verdict) : Verdict :=
  let v := note_when (hasDynamic a && negb (bool_decide (risk base = risk_allow))) "exec.dynamic_elevated"
             "Dynamic shell structure combined with a risky base command." action_escalate v in
  let v := note_when (nonempty (sa_subcommands a)) "exec.command_substitution"
             "Command substitution $(...) or backticks can execute arbitrary commands." action_confirm v in
  let v := note_when (nonempty (sa_subshells a)) "exec.subshell"
             "Subshell grouping (...) can execute arbitrary commands." action_confirm v in
  let v := note_when (nonempty (sa_processSubstitutions a)) "exec.process_substitution"
             "Process substitution <(...) or >(...) spawns a process." action_confirm v in
  let v := foldl note_pipeline v (sa_decoderPipelines a) in
  let v := foldl note_assignment v (sa_assignments a) in
  let v := foldl note_segment v (sa_segments a) in
  foldl note_diagnostic v (sa_diagnostics a).

Definition inner_subcommands (a : ShellAnalysis) : list string := map sc_inner (sa_subcommands a).
Definition inner_subshells (a : ShellAnalysis) : list string := map sh_inner (sa_subshells a).
Definition inner_processes (a : ShellAnalysis) : list string := map ps_inner (sa_processSubstitutions a).

Definition classifyCommandRiskV2 (command : string) : option CommandRiskV2Verdict :=
  let analysis := analyzeShellCommandV2 command in
  base ← classifyShellCommand command;
  let v := {| vd_action := action_of (risk base); vd_reasons := [{| rr_code := rule base; rr_message := reason base |}] |} in
  let v := note_when (startsWith "priv." (rule base)) "priv.escalate" "Privilege escalation requires explicit human approval."
             action_escalate v in
  v ← inspect_all "Command substitution" true (inner_subcommands analysis) v;
  v ← inspect_all "Subshell" true (inner_subshells analysis) v;
  v ← inspect_all "Process substitution" false (inner_processes analysis) v;
  let v := note_structure base analysis v in
  Some {| v2_action := vd_action v; v2_reasons := vd_reasons v;
          v2_normalizedCommands := command :: inner_subcommands analysis ++ inner_subshells analysis ++ inner_processes analysis;
          v2_analysis := analysis |}.

(** ** Examples *)

Definition action_on (command : string) : option (CommandAction * list string) :=
  (fun v => (v2_action v, map rr_code (v2_reasons v))) <$> classifyCommandRiskV2 command.

Definition dq : string := String quote_char EmptyString.

Example action_examples :
  map action_on
    ["ls -la"; "echo $(rm -rf /)"; "echo " ++ dq ++ "$(git push --force)" ++ dq; "echo '$(rm -rf /)'"; "sudo ls"; "sudo ls $(date)";
     "cat <(rm -rf ~)"; "(cd /tmp; ls)"; "echo x | base64 -d | sh"; "LD_PRELOAD=x ls"; "env -u X my_TOKEN=1 ls"; "rm ${x}"; "echo 'abc";
     "echo $(ls"; "a `b` c"; "export aB_secret=1"]%string
  = [Some (action_allow, ["command.allow"]);
     Some (action_block, ["command.allow"; "exec.inner_block:fs.rm_rf_root"; "exec.command_substitution"]);
     Some (action_confirm, ["command.allow"; "exec.inner_confirm:git.force_push"; "exec.command_substitution"]);
     Some (action_allow, ["command.allow"]);
     Some (action_escalate, ["priv.sudo"; "priv.escalate"]);
     Some (action_escalate, ["priv.sudo"; "priv.escalate"; "exec.dynamic_elevated"; "exec.command_substitution"]);
     Some (action_block, ["command.allow"; "exec.inner_block:fs.rm_rf_home"; "exec.process_substitution"]);
     Some (action_confirm, ["command.allow"; "exec.subshell"]);
     Some (action_confirm, ["command.allow"; "exec.decoder_pipeline"]);
     Some (action_confirm, ["command.allow"; "env.loader_injection"]);
     Some (action_confirm, ["command.allow"; "env.sensitive_assignment"]);
     Some (action_confirm, ["command.allow"; "exec.dynamic_target"]);
     Some (action_confirm, ["command.allow"; "parser.unterminated_quote"]);
     Some (action_confirm, ["command.allow"; "parser.unterminated_dollar_paren"]);
     Some (action_confirm, ["command.allow"; "exec.command_substitution"]);
     Some (action_confirm, ["command.allow"; "env.sensitive_assignment"])].
Proof. vm_compute. reflexivity. Qed.

Example analysis_examples :
  let a := analyzeShellCommandV2 ("x $(a `b` <(c $(d))) & y " ++ dq ++ "$E ${F}" ++ dq ++ " || z | w") in
  map sc_inner (sa_subcommands a) = ["a `b` <(c $(d))"; "b"; "d"] /\ map sc_depth (sa_subcommands a) = [0; 1; 2]
  /\ map ps_inner (sa_processSubstitutions a) = ["c $(d)"] /\ sa_wrapperDepth a = 2
  /\ map ex_name (sa_dynamicExpansions a) = ["E"; "F"] /\ map sg_text (sa_segments a) = ["x $(a `b` <(c $(d)))"; "y " ++ dq ++ "$E ${F}" ++ dq; "z | w"]%string.
Proof. vm_compute. done. Qed.
End CommandParser.
