(* ===== verification/CommandParserTheory.v ===== *)
(** * Theory of the command parser

    The action of a command as a table of what was found; that whatever a
    structure nests is found, to the depth of the scan; and that a command that
    cannot be parsed is not allowed. *)

From Stdlib Require Import Ascii String Lia.
From stdpp Require Import base list option strings.
From S2P Require Import Prelude JsString Regex CommandSafety CommandParser.
Import CommandSafety CommandParser.

Open Scope string_scope.
Open Scope list_scope.
Open Scope nat_scope.

(** ** Actions *)

Definition arank (v : Verdict) : nat := ACTION_RANK (vd_action v).

Lemma action_rank_inj (a b : CommandAction) : ACTION_RANK a = ACTION_RANK b -> a = b.
Proof. by destruct a, b. Qed.

Lemma bump_rank (a b : CommandAction) : ACTION_RANK (bump a b) = Nat.max (ACTION_RANK a) (ACTION_RANK b).
Proof. by destruct a, b. Qed.

(** What a test adds to the rank. *)
Definition when (b : bool) (n : nat) : nat := if b then n else 0.

Lemma when_or (b c : bool) (n : nat) : when (b || c) n = Nat.max (when b n) (when c n).
Proof. destruct b, c; cbn [when orb]; lia. Qed.

Lemma arank_note (c m : string) (a : CommandAction) (v : Verdict) : arank (note c m a v) = Nat.max (arank v) (ACTION_RANK a).
Proof. unfold arank, note. cbn [vd_action]. apply bump_rank. Qed.

Lemma arank_note_when (b : bool) (c m : string) (a : CommandAction) (v : Verdict) :
  arank (note_when b c m a v) = Nat.max (arank v) (when b (ACTION_RANK a)).
Proof. destruct b; cbn [note_when when]; [apply arank_note|lia]. Qed.

(** Steps that each add to the rank when their test holds add when one of the tests does. *)
Lemma arank_foldl {A} (f : Verdict -> A -> Verdict) (test : A -> bool) (n : nat) (l : list A) (v : Verdict) :
  (forall v x, arank (f v x) = Nat.max (arank v) (when (test x) n)) ->
  arank (foldl f v l) = Nat.max (arank v) (when (existsb test l) n).
Proof.
  intros Hf. revert v. induction l as [|x l IH]; intros v; cbn [foldl existsb]; [cbn [when]; lia|].
  rewrite IH, Hf. destruct (test x), (existsb test l); cbn [when orb]; lia.
Qed.

Definition blocked (inner : string) : bool :=
  match classifyShellCommand inner with
  | Some w => bool_decide (risk w = risk_block)
  | None => false
  end.

Definition classified (inner : string) : bool := bool_decide (is_Some (classifyShellCommand inner)).

Lemma arank_inspect (what : string) (remarked : bool) (inners : list string) (v : Verdict) :
  arank <$> inspect_all what remarked inners v
  = if forallb classified inners then Some (Nat.max (arank v) (when (existsb blocked inners) 3)) else None.
Proof.
  revert v. induction inners as [|inner inners IH]; intros v; cbn [inspect_all forallb existsb]; [cbn; by rewrite Nat.max_0_r|].
  unfold inspect_inner, classified at 1, blocked at 1. destruct (classifyShellCommand inner) as [w|]; [|done].
  rewrite bool_decide_eq_true_2 by (by eexists). cbn [mbind option_bind andb].
  destruct (risk w); rewrite IH; (destruct (forallb classified inners); [|done]); apply f_equal.
  { rewrite arank_note, bool_decide_eq_true_2 by done. destruct (existsb blocked inners); cbn [when ACTION_RANK orb]; lia. }
  all: rewrite bool_decide_eq_false_2 by done; by destruct remarked.
Qed.

(** What follows an inspection, of which only the rank matters. *)
Lemma inspect_then {A} (what : string) (remarked : bool) (inners : list string) (v : Verdict) (k : Verdict -> option A) (r : option A) :
  (forall v', arank v' = Nat.max (arank v) (when (existsb blocked inners) 3) -> k v' = r) ->
  inspect_all what remarked inners v ≫= k = if forallb classified inners then r else None.
Proof.
  intros Hk. pose proof (arank_inspect what remarked inners v) as H.
  destruct (inspect_all what remarked inners v) as [v'|], (forallb classified inners); try discriminate H; [|done].
  injection H as H. by apply Hk.
Qed.

Lemma fmap_bind {A B C} (f : B -> C) (k : A -> option B) (x : option A) : f <$> (x ≫= k) = x ≫= fun y => f <$> k y.
Proof. by destruct x. Qed.

Lemma if_andb {A} (b c : bool) (x y : A) : (if b && c then x else y) = if b then if c then x else y else y.
Proof. by destruct b. Qed.

(** What makes a command ask for confirmation besides its structures. *)
Definition exposes (x : EnvAssignment) : bool := ea_loaderInjection x || ea_sensitiveName x.

Definition suspicious (a : ShellAnalysis) : bool :=
  hasDynamic a || nonempty (sa_decoderPipelines a) || existsb exposes (sa_assignments a)
  || existsb (fun seg => bool_decide (is_Some (dynamic_target seg))) (sa_segments a) || existsb pd_fatal (sa_diagnostics a).

Lemma existsb_true_nonempty {A} (l : list A) : existsb (fun _ => true) l = nonempty l.
Proof. by destruct l. Qed.

Lemma arank_structure (base : CommandVerdict) (a : ShellAnalysis) (v : Verdict) :
  arank (note_structure base a v)
  = Nat.max (arank v) (Nat.max (when (hasDynamic a && negb (bool_decide (risk base = risk_allow))) 2) (when (suspicious a) 1)).
Proof.
  unfold note_structure. cbv zeta.
  rewrite (arank_foldl note_diagnostic pd_fatal 1), (arank_foldl note_segment (fun seg => bool_decide (is_Some (dynamic_target seg))) 1),
    (arank_foldl note_assignment exposes 1), (arank_foldl note_pipeline (fun _ => true) 1), existsb_true_nonempty, !arank_note_when.
  - unfold suspicious, hasDynamic. cbn [ACTION_RANK].
    generalize (nonempty (sa_subcommands a)), (nonempty (sa_subshells a)), (nonempty (sa_processSubstitutions a)).
    intros b1 b2 b3. by rewrite !when_or, !Nat.max_assoc.
  - intros w x. unfold note_pipeline. apply arank_note.
  - intros w x. unfold note_assignment, exposes. destruct (ea_loaderInjection x); cbn [orb]; [apply arank_note|apply arank_note_when].
  - intros w x. unfold note_segment. destruct (dynamic_target x); cbn; [apply arank_note|]. cbn [when]. lia.
  - intros w x. unfold note_diagnostic. apply arank_note_when.
Qed.

(** The inner commands of a command. *)
Definition inner_commands (a : ShellAnalysis) : list string := inner_subcommands a ++ inner_subshells a ++ inner_processes a.

(** The action as a table: the first row that holds. *)
Definition action_table (base : CommandVerdict) (a : ShellAnalysis) : CommandAction :=
  if bool_decide (risk base = risk_block) || existsb blocked (inner_commands a) then action_block
  else if startsWith "priv." (rule base) || (hasDynamic a && negb (bool_decide (risk base = risk_allow))) then action_escalate
  else if bool_decide (risk base = risk_confirm) || suspicious a then action_confirm
  else action_allow.

(** The outcome of a command: its action, the commands it runs and its analysis. *)
Definition outcome (v : CommandRiskV2Verdict) : CommandAction * list string * ShellAnalysis :=
  (v2_action v, v2_normalizedCommands v, v2_analysis v).

Lemma classify_outcome (command : string) :
  outcome <$> classifyCommandRiskV2 command
  = base ← classifyShellCommand command;
    let a := analyzeShellCommandV2 command in
    if forallb classified (inner_commands a) then Some (action_table base a, command :: inner_commands a, a) else None.
Proof.
  unfold classifyCommandRiskV2. set (a := analyzeShellCommandV2 command). destruct (classifyShellCommand command) as [base|]; [|done].
  cbn [mbind option_bind]. cbv zeta.
  match goal with |- context [inspect_all _ true (inner_subcommands a) ?v] => set (v0 := v) end.
  assert (H0 : arank v0 = Nat.max (ACTION_RANK (action_of (risk base))) (when (startsWith "priv." (rule base)) 2)).
  { unfold v0. by rewrite arank_note_when. }
  unfold inner_commands. rewrite !forallb_app, !if_andb, fmap_bind.
  apply inspect_then. intros v1 H1. rewrite fmap_bind. apply inspect_then. intros v2 H2. rewrite fmap_bind.
  apply inspect_then. intros v3 H3. unfold outcome. cbn [fmap option_fmap option_map v2_action v2_normalizedCommands v2_analysis].
  apply (f_equal Some). unfold inner_commands. do 2 apply (f_equal (fun x => (x, _))). apply action_rank_inj.
  change (arank (note_structure base a v3) = ACTION_RANK (action_table base a)). rewrite arank_structure, H3, H2, H1, H0.
  unfold action_table, inner_commands. rewrite !existsb_app.
  generalize (suspicious a), (hasDynamic a), (startsWith "priv." (rule base)), (existsb blocked (inner_subcommands a)),
    (existsb blocked (inner_subshells a)), (existsb blocked (inner_processes a)), (risk base).
  clear. intros [] [] [] [] [] [] []; reflexivity.
Qed.

(** ** What a scan finds *)

(** A scan only adds to what was found. *)
Record grown (st st' : ScanState) : Prop := {
  gr_subcommands : ss_subcommands st `prefix_of` ss_subcommands st';
  gr_subshells : ss_subshells st `prefix_of` ss_subshells st';
  gr_processSubs : ss_processSubs st `prefix_of` ss_processSubs st';
  gr_expansions : ss_expansions st `prefix_of` ss_expansions st';
  gr_diagnostics : ss_diagnostics st `prefix_of` ss_diagnostics st';
  gr_maxDepth : ss_maxDepth st <= ss_maxDepth st';
}.

#[export] Instance grown_preorder : PreOrder grown.
Proof.
  split; [by intros st; split|]. intros st1 st2 st3 [] []. split; [..|lia]; by etrans.
Qed.

Lemma diagnose_grows (d : ParseDiagnostic) (st : ScanState) : grown st (diagnose d st).
Proof. split; cbn; try done. by apply prefix_app_r. Qed.

Lemma push_expansion_grows (e : ExpansionNode) (st : ScanState) : grown st (push_expansion e st).
Proof. split; cbn; try done. by apply prefix_app_r. Qed.

Lemma push_node_grows (k : Structure) (inner : string) (depth : nat) (st : ScanState) : grown st (push_node k inner depth st).
Proof. destruct k; split; cbn; try done; try lia; by apply prefix_app_r. Qed.

#[local] Hint Resolve diagnose_grows push_expansion_grows push_node_grows : core.

Lemma scan_from_grows (scan_inner : string -> ScanState -> ScanState) (depth : nat) (s : string) :
  (forall text st, grown st (scan_inner text st)) ->
  forall skip quote escaped st, grown st (scan_from scan_inner depth skip quote escaped s st).
Proof.
  intros Hin. induction s as [|ch s IH]; intros skip quote escaped st; cbn [scan_from]; [by destruct quote|].
  destruct skip; [|apply IH]. destruct escaped; [apply IH|]. destruct (escapes ch quote); [apply IH|].
  destruct (structure_at quote ch s) as [k|].
  - destruct (extent k ch s) as [[inner skip]|]; [|done]. etrans; [apply push_node_grows|]. etrans; [apply Hin|apply IH].
  - destruct (Ascii.eqb ch "$" && _); [|apply IH]. destruct (readExpansion s) as [[[kind name] skip]|]; [|apply IH].
    etrans; [apply push_expansion_grows|apply IH].
Qed.

Lemma scanStructural_grows (room : nat) (text : string) (st : ScanState) : grown st (scanStructural room text st).
Proof.
  revert text st. induction room as [|room IH]; intros text st; cbn [scanStructural]; [done|]. by apply scan_from_grows.
Qed.

(** Text that opens no structure, and the quote it ends in. *)
Fixpoint inert (quote : option ascii) (escaped : bool) (p : string) : option (option ascii) :=
  match p with
  | EmptyString => if escaped then None else Some quote
  | String ch p' =>
      if escaped then inert quote false p'
      else if escapes ch quote then inert quote true p'
      else if bool_decide (quote = Some "'"%char) then inert (closes_quote quote ch) false p'
      else if Ascii.eqb ch "$" || Ascii.eqb ch "`" then None
      else if bool_decide (quote = None) && (Ascii.eqb ch "(" || ((Ascii.eqb ch "<" || Ascii.eqb ch ">") && (is_empty p' || starts_paren p'))) then None
      else inert (closes_quote quote ch) false p'
  end.

Lemma starts_paren_app (p rest : string) : is_empty p = false -> starts_paren (p ++ rest) = starts_paren p.
Proof. by destruct p. Qed.

Lemma scan_inert (scan_inner : string -> ScanState -> ScanState) (depth : nat) (p rest : string) (quote quote' : option ascii)
    (escaped : bool) (st : ScanState) :
  inert quote escaped p = Some quote' ->
  scan_from scan_inner depth 0 quote escaped (p ++ rest) st = scan_from scan_inner depth 0 quote' false rest st.
Proof.
  revert quote escaped. induction p as [|ch p IH]; intros quote escaped; cbn [inert append scan_from].
  { destruct escaped; [done|]. by intros [= ->]. }
  destruct escaped; [apply IH|]. destruct (escapes ch quote); [apply IH|]. unfold structure_at.
  case_bool_decide as Hq; [intros Hp; rewrite andb_false_r; by apply IH|]. cbn [negb].
  destruct (Ascii.eqb ch "$"); [done|]. destruct (Ascii.eqb ch "`"); [done|]. cbn [orb andb].
  rewrite bool_decide_not. case_bool_decide as Hn; cbn [negb andb]; [|apply IH].
  destruct (Ascii.eqb ch "("); [done|]. cbn [orb]. destruct (is_empty p) eqn:He.
  - destruct (Ascii.eqb ch "<"), (Ascii.eqb ch ">"); cbn [orb andb]; try done. apply IH.
  - rewrite starts_paren_app by done. cbn [orb].
    destruct (Ascii.eqb ch "<"), (Ascii.eqb ch ">"), (starts_paren p); cbn [orb andb]; try done; apply IH.
Qed.

(** How a structure is written. *)
Definition opening (k : Structure) : string :=
  match k with
  | st_subcommand dollar_paren => "$("
  | st_subcommand backtick => "`"
  | st_subshell => "("
  | st_process direction_in => "<("
  | st_process direction_out => ">("
  end.

Definition closing (k : Structure) : string :=
  match k with
  | st_subcommand backtick => "`"
  | _ => ")"
  end.

(** The text of a structure, which its closing ends. *)
Definition closed (k : Structure) (inner : string) : Prop :=
  match k with
  | st_subcommand backtick => sforall (fun a => negb (Ascii.eqb a "`")) inner = true
  | _ => find_paren 1 None false (inner ++ ")") = Some (String.length inner)
  end.

(** The quotes a structure expands in. *)
Definition expands (k : Structure) (quote : option ascii) : Prop :=
  match k with
  | st_subcommand _ => quote <> Some "'"%char
  | _ => quote = None
  end.

(** [text] holds a structure with the text [inner] behind text that opens none. *)
Inductive embeds (text : string) : Structure -> string -> Prop :=
| embeds_intro (before after inner : string) (k : Structure) (quote : option ascii) :
    inert None false before = Some quote -> expands k quote -> closed k inner ->
    text = (before ++ opening k ++ inner ++ closing k ++ after)%string -> embeds text k inner.

Lemma find_paren_app (s t : string) (depth : nat) (quote : option ascii) (escaped : bool) (n : nat) :
  find_paren depth quote escaped s = Some n -> find_paren depth quote escaped (s ++ t) = Some n.
Proof.
  revert depth quote escaped n. induction s as [|ch s IH]; intros depth quote escaped n; cbn [find_paren append]; [done|].
  assert (Hn : forall d q e, S <$> find_paren d q e s = Some n -> S <$> find_paren d q e (s ++ t) = Some n).
  { intros d q e (m & Hm & ->)%fmap_Some. by rewrite (IH _ _ _ _ Hm). }
  destruct escaped; [apply Hn|]. destruct (escapes ch quote); [apply Hn|]. destruct quote; [apply Hn|].
  destruct (is_quote ch); [apply Hn|]. destruct (Ascii.eqb ch "("); [apply Hn|]. destruct (Ascii.eqb ch ")"); [|apply Hn].
  destruct depth as [|[|depth]]; [apply Hn|done|apply Hn].
Qed.

Lemma find_char_app (c : ascii) (inner after : string) :
  sforall (fun a => negb (Ascii.eqb a c)) inner = true -> find_char c (inner ++ String c after) = Some (String.length inner).
Proof.
  induction inner as [|a inner IH]; cbn [sforall append find_char String.length]; [by rewrite Ascii.eqb_refl|].
  intros [Ha%negb_true_iff H]%andb_true_iff. by rewrite Ha, (IH H).
Qed.

Lemma slice_to_own (a b : string) : slice_to (String.length a) (a ++ b) = a.
Proof. induction a as [|c a IH]; cbn; [by destruct b|by rewrite IH]. Qed.

Lemma matching_paren (inner after : string) :
  find_paren 1 None false (inner ++ ")") = Some (String.length inner) ->
  findMatchingParen (String "(" (inner ++ String ")" after)) = Some (S (String.length inner)).
Proof.
  intros H. change (S <$> find_paren 1 None false (inner ++ ")" ++ after) = Some (S (String.length inner))).
  rewrite <- app_assoc_str. by rewrite (find_paren_app _ after _ _ _ _ H).
Qed.

(** Where a structure starts its whole text is read. *)
Lemma scan_opening (scan_inner : string -> ScanState -> ScanState) (depth : nat) (k : Structure) (quote : option ascii)
    (inner after : string) (st : ScanState) :
  (forall text st, grown st (scan_inner text st)) -> expands k quote -> closed k inner ->
  grown (scan_inner inner (push_node k inner depth st))
        (scan_from scan_inner depth 0 quote false (opening k ++ inner ++ closing k ++ after) st).
Proof.
  intros Hin Hq Hc.
  assert (exists ch s skip, (opening k ++ inner ++ closing k ++ after)%string = String ch s /\ escapes ch quote = false
            /\ structure_at quote ch s = Some k /\ extent k ch s = Some (inner, skip)) as (ch & s & skip & -> & He & Hs & Hx).
  { assert (Hdollar : bool_decide (quote = Some "'"%char) = false \/ ~ expands (st_subcommand dollar_paren) quote).
    { case_bool_decide as H; [right|by left]. intros Hn. by apply Hn. }
    destruct k as [[]| |[]]; cbn [opening closing append closed expands] in *.
    - eexists _, _, _. split_and!; [done|done| |]; unfold structure_at; [by destruct Hdollar as [->|]|].
      cbn [extent]. rewrite (matching_paren inner after Hc). cbn [mbind option_bind slice Nat.sub].
      by rewrite Nat.sub_0_r, slice_to_own.
    - eexists _, _, _. split_and!; [done|done| |]; unfold structure_at; [by destruct Hdollar as [->|]|].
      cbn [extent]. rewrite find_char_app by done. cbn [mbind option_bind]. by rewrite slice_to_own.
    - subst quote. eexists _, _, _. split_and!; [done|done|done|].
      cbn [extent]. rewrite (matching_paren inner after Hc). cbn [mbind option_bind Nat.sub]. by rewrite Nat.sub_0_r, slice_to_own.
    - subst quote. eexists _, _, _. split_and!; [done|done|done|].
      cbn [extent]. rewrite (matching_paren inner after Hc). cbn [mbind option_bind slice Nat.sub].
      by rewrite Nat.sub_0_r, slice_to_own.
    - subst quote. eexists _, _, _. split_and!; [done|done|done|].
      cbn [extent]. rewrite (matching_paren inner after Hc). cbn [mbind option_bind slice Nat.sub].
      by rewrite Nat.sub_0_r, slice_to_own. }
  cbn [scan_from]. rewrite He, Hs, Hx. by apply scan_from_grows.
Qed.

(** ** What no nesting hides *)

(** [text] is the text of a structure [n] levels inside [command]. *)
Inductive reaches (command : string) : nat -> string -> Prop :=
| reaches_here : reaches command 0 command
| reaches_inner (n : nat) (text inner : string) (k : Structure) :
    reaches command n text -> embeds text k inner -> reaches command (S n) inner.

Lemma embeds_scanned (text inner : string) (k : Structure) (room : nat) (st : ScanState) :
  embeds text k inner ->
  grown (scanStructural room inner (push_node k inner (MAX_SCAN_DEPTH - room) st)) (scanStructural (S room) text st).
Proof.
  intros [before after inner' k' quote Hb Hq Hc ->]. cbn [scanStructural]. rewrite (scan_inert _ _ _ _ _ _ _ _ Hb).
  apply scan_opening; [apply scanStructural_grows|done..].
Qed.

Lemma reaches_scanned (command text : string) (n room : nat) (st : ScanState) :
  reaches command n text -> n <= room ->
  exists st', grown st st' /\ grown (scanStructural (room - n) text st') (scanStructural room command st).
Proof.
  induction 1 as [|n text inner k _ IH He]; intros Hn; [exists st; by rewrite Nat.sub_0_r|].
  destruct IH as (st1 & Hst & Hg); [lia|]. replace (room - n) with (S (room - S n)) in Hg by lia.
  eexists. split; [|etrans; [by apply embeds_scanned|done]]. etrans; [done|apply push_node_grows].
Qed.

Definition scanned (command : string) : ScanState := scanStructural (S MAX_SCAN_DEPTH) command scan_start.

(** A structure among those that were found. *)
Definition found (k : Structure) (inner : string) (depth : nat) (st : ScanState) : Prop :=
  match k with
  | st_subcommand kind => {| sc_kind := kind; sc_inner := inner; sc_depth := depth |} ∈ ss_subcommands st
  | st_subshell => {| sh_inner := inner; sh_depth := depth |} ∈ ss_subshells st
  | st_process direction => {| ps_direction := direction; ps_inner := inner; ps_depth := depth |} ∈ ss_processSubs st
  end.

Lemma prefix_elem {A} (l l' : list A) (x : A) : l `prefix_of` l' -> x ∈ l -> x ∈ l'.
Proof. intros [l'' ->] H. apply elem_of_app. by left. Qed.

Lemma push_node_found (k : Structure) (inner : string) (depth : nat) (st st' : ScanState) :
  grown (push_node k inner depth st) st' -> found k inner depth st'.
Proof.
  intros [H1 H2 H3 _ _ _]. destruct k; cbn [found]; (eapply prefix_elem; [eassumption|]); cbn; apply elem_of_app; right; by left.
Qed.

Lemma structure_found (command text inner : string) (n : nat) (k : Structure) :
  reaches command n text -> embeds text k inner -> n <= MAX_SCAN_DEPTH -> found k inner n (scanned command).
Proof.
  intros Hr He Hn. destruct (reaches_scanned command text n (S MAX_SCAN_DEPTH) scan_start Hr) as (st & _ & Hg); [unfold MAX_SCAN_DEPTH in *; lia|].
  replace (S MAX_SCAN_DEPTH - n) with (S (MAX_SCAN_DEPTH - n)) in Hg by lia.
  apply push_node_found with st. replace n with (MAX_SCAN_DEPTH - (MAX_SCAN_DEPTH - n)) at 1 by lia.
  etrans; [apply scanStructural_grows|]. etrans; [by apply embeds_scanned|done].
Qed.

Lemma found_inner (command inner : string) (n : nat) (k : Structure) :
  found k inner n (scanned command) -> inner ∈ inner_commands (analyzeShellCommandV2 command).
Proof.
  unfold inner_commands, inner_subcommands, inner_subshells, inner_processes. rewrite !elem_of_app.
  destruct k; cbn [found]; intros H; [left|right; left|right; right]; apply list_elem_of_In, in_map_iff;
    (eexists; split; [|by apply list_elem_of_In, H]); done.
Qed.

Lemma inner_dynamic (a : ShellAnalysis) (inner : string) : inner ∈ inner_commands a -> hasDynamic a = true.
Proof.
  unfold inner_commands, inner_subcommands, inner_subshells, inner_processes, hasDynamic. rewrite !elem_of_app.
  destruct (sa_subcommands a), (sa_subshells a), (sa_processSubstitutions a); cbn; try done. intros [H|[H|H]]; by apply elem_of_nil in H.
Qed.

(** The outcome of a command that has one. *)
Lemma outcome_of (command : string) (v : CommandRiskV2Verdict) :
  classifyCommandRiskV2 command = Some v ->
  exists base, v2_action v = action_table base (analyzeShellCommandV2 command) /\ v2_analysis v = analyzeShellCommandV2 command
    /\ v2_normalizedCommands v = command :: inner_commands (analyzeShellCommandV2 command).
Proof.
  intros Hv. pose proof (classify_outcome command) as H. rewrite Hv in H. destruct (classifyShellCommand command) as [base|]; [|done].
  cbn [mbind option_bind] in H. cbv zeta in H. destruct (forallb classified _); [|done]. exists base. by injection H.
Qed.

Lemma table_suspicious (base : CommandVerdict) (a : ShellAnalysis) :
  suspicious a = true -> 1 <= ACTION_RANK (action_table base a).
Proof. intros H. unfold action_table. rewrite H, orb_true_r. destruct (_ || _); [cbn; lia|]. destruct (_ || _); cbn; lia. Qed.

Lemma table_blocked (base : CommandVerdict) (a : ShellAnalysis) (inner : string) :
  inner ∈ inner_commands a -> blocked inner = true -> action_table base a = action_block.
Proof.
  intros Hi Hb. unfold action_table. assert (existsb blocked (inner_commands a) = true) as ->; [|by rewrite orb_true_r].
  apply existsb_exists. exists inner. by rewrite <- list_elem_of_In.
Qed.

Lemma dynamic_suspicious (a : ShellAnalysis) : hasDynamic a = true -> suspicious a = true.
Proof. intros H. unfold suspicious. by rewrite H. Qed.

(** A structure that nothing ends. *)
Definition never_closes (k : Structure) (rest : string) : Prop :=
  match k with
  | st_subcommand backtick => sforall (fun a => negb (Ascii.eqb a "`")) rest = true
  | _ => find_paren 1 None false rest = None
  end.

(** A text that ends in a quote or a structure, and what is said of it. *)
Inductive unfinished (text : string) : ParseDiagnostic -> Prop :=
| unfinished_quote (q : ascii) : inert None false text = Some (Some q) -> unfinished text (unterminated_quote q)
| unfinished_structure (before rest : string) (k : Structure) (quote : option ascii) :
    inert None false before = Some quote -> expands k quote -> never_closes k rest -> text = (before ++ opening k ++ rest)%string ->
    unfinished text (unterminated k).

Lemma find_char_none (c : ascii) (s : string) : sforall (fun a => negb (Ascii.eqb a c)) s = true -> find_char c s = None.
Proof.
  induction s as [|a s IH]; cbn [sforall find_char]; [done|]. intros [Ha%negb_true_iff H]%andb_true_iff. by rewrite Ha, (IH H).
Qed.

Lemma unmatched_paren (rest : string) : find_paren 1 None false rest = None -> findMatchingParen (String "(" rest) = None.
Proof. intros H. change (S <$> find_paren 1 None false rest = None). by rewrite H. Qed.

Lemma scan_unclosed (scan_inner : string -> ScanState -> ScanState) (depth : nat) (k : Structure) (quote : option ascii)
    (rest : string) (st : ScanState) :
  expands k quote -> never_closes k rest ->
  scan_from scan_inner depth 0 quote false (opening k ++ rest) st = diagnose (unterminated k) st.
Proof.
  intros Hq Hc. destruct k as [[]| |[]]; cbn [opening append expands never_closes] in *; cbn [scan_from];
    (unfold escapes, structure_at; try subst quote; try rewrite bool_decide_eq_false_2 by done);
    cbn -[findMatchingParen find_char scan_from unterminated];
    rewrite ?unmatched_paren, ?find_char_none by done; reflexivity.
Qed.

Lemma unfinished_diagnosed (text : string) (d : ParseDiagnostic) (room : nat) (st : ScanState) :
  unfinished text d -> d ∈ ss_diagnostics (scanStructural (S room) text st).
Proof.
  assert (Hd : forall e st, e ∈ ss_diagnostics (diagnose e st)) by (intros e st'; cbn; apply elem_of_app; right; by left).
  intros [q Hi|before rest k quote Hi Hq Hc ->]; cbn [scanStructural].
  - rewrite <- (app_nil_str text). rewrite (scan_inert _ _ _ _ _ _ _ _ Hi). apply Hd.
  - rewrite (scan_inert _ _ _ _ _ _ _ _ Hi), scan_unclosed by done. apply Hd.
Qed.

Lemma fatal_suspicious (a : ShellAnalysis) (d : ParseDiagnostic) : d ∈ sa_diagnostics a -> pd_fatal d = true -> suspicious a = true.
Proof.
  intros Hd Hf. unfold suspicious. assert (existsb pd_fatal (sa_diagnostics a) = true) as ->; [|by rewrite orb_true_r].
  apply existsb_exists. exists d. by rewrite <- list_elem_of_In.
Qed.

Lemma unfinished_fatal (text : string) (d : ParseDiagnostic) : unfinished text d -> pd_fatal d = true.
Proof. by intros [q _|before rest [[]| |[]] quote _ _ _ _]. Qed.

(** C22: The action of a command is the one of a table: it is blocked when the verdict on it or on something it nests is to
    block; else escalated when it asks for privilege, or nests something and is itself risky; else confirmed when it is
    risky, nests something, decodes and executes, assigns a loader or sensitive variable, expands the arguments of a risky
    command, or cannot be parsed; else allowed. It has no action exactly when one of the verdicts throws. *)
Theorem action_by_table (command : string) :
  v2_action <$> classifyCommandRiskV2 command
  = base ← classifyShellCommand command;
    let a := analyzeShellCommandV2 command in
    if forallb classified (inner_commands a) then Some (action_table base a) else None.
Proof.
  transitivity ((fun x => fst (fst x)) <$> (outcome <$> classifyCommandRiskV2 command)); [by destruct (classifyCommandRiskV2 command)|].
  rewrite classify_outcome. destruct (classifyShellCommand command) as [base|]; [|done]. cbn [mbind option_bind]. cbv zeta.
  by destruct (forallb classified _).
Qed.


Definition nested_inner : string := ("a < b; c " ++ dq ++ "\( `(rm -r -f /)` (" ++ dq ++ "; x")%string.
Definition nested_example : string := ("echo 'it is' $(" ++ nested_inner ++ ")")%string.




(** The scan keeps to its depth. *)
Lemma wrapper_depth_bounded (command : string) : sa_wrapperDepth (analyzeShellCommandV2 command) <= MAX_SCAN_DEPTH.
Proof.
  change (ss_maxDepth (scanStructural (S MAX_SCAN_DEPTH) command scan_start) <= MAX_SCAN_DEPTH).
  assert (H : forall room text st, ss_maxDepth st <= MAX_SCAN_DEPTH -> ss_maxDepth (scanStructural room text st) <= MAX_SCAN_DEPTH).
  { induction room as [|room IH]; intros text st Hst; cbn [scanStructural]; [done|]. generalize 0, (@None ascii), false.
    revert st Hst. induction text as [|ch text IHt]; intros st Hst skip quote escaped; cbn [scan_from]; [by destruct quote|].
    destruct skip; [|by apply IHt]. destruct escaped; [by apply IHt|]. destruct (escapes ch quote); [by apply IHt|].
    destruct (structure_at quote ch text) as [k|].
    - destruct (extent k ch text) as [[inner skip]|]; [|done]. apply IHt, IH. destruct k; cbn [push_node ss_maxDepth]; lia.
    - destruct (Ascii.eqb ch "$" && _); [|by apply IHt]. destruct (readExpansion text) as [[[kind name] skip]|]; by apply IHt. }
  apply H. cbn. lia.
Qed.

(** ** What the parser misses *)

(** An executor before the decoder keeps the one behind it from being seen. *)
Lemma earlier_executor_hides_pipeline :
  action_on "env | base64 -d | sh" = Some (action_allow, ["command.allow"]) /\ decodes "base64 -d" = true /\ executes "sh" = true.
Proof. vm_compute. done. Qed.

(** The ampersand of a redirection ends a segment, and the pipeline is cut there. *)
Lemma redirection_cuts_pipeline :
  action_on "base64 -d x 2>&1 | sh" = Some (action_allow, ["command.allow"])
  /\ splitTopLevelCommands "base64 -d x 2>&1 | sh" = ["base64 -d x 2>"; "1 | sh"].
Proof. vm_compute. done. Qed.

(** An option of [env] without a value is taken to have one, and the command behind it hides an assignment. *)
Lemma flag_takes_no_name :
  skip_env_options ["--ignore-environment"; "rm"; "x"] = ["x"].
Proof. vm_compute. done. Qed.
