(* ===== verification/TransformMessages.v ===== *)
(** * Transformation of a transcript for a provider
    (packages/ai/src/providers/transform-messages.ts)

    Before a transcript is sent, images a model does not take become
    placeholders, blocks of other models are stripped of what only those
    understand, identifiers of tool calls are normalized, failed answers are
    dropped with their results, and tool calls without a result get one. The
    fields the code only carries along are JSON values. A reading of the clock is
    a function of the number of messages kept so far. *)

From Stdlib Require Import Ascii String ZArith Lia.
From stdpp Require Import base list option strings gmap.
From S2P Require Import Prelude JsString JsValue.

Open Scope string_scope.
Open Scope list_scope.

Module TransformMessages.

(** ** Messages *)

Record TextContent : Type := {
  tx_text : string;
  tx_textSignature : option string;
}.

Inductive UserBlock : Type :=
| user_text (block : TextContent)
| user_image (data mimeType : string).

Record ThinkingContent : Type := {
  th_thinking : string;
  th_thinkingSignature : option string;
  th_redacted : bool;
}.

Record ToolCall : Type := {
  tc_id : string;
  tc_name : string;
  tc_arguments : jsval;
  tc_thoughtSignature : option string;
}.

Inductive AssistantBlock : Type :=
| assistant_text (block : TextContent)
| assistant_thinking (block : ThinkingContent)
| assistant_call (call : ToolCall).

Inductive UserContent : Type :=
| content_string (text : string)
| content_blocks (blocks : list UserBlock).

Inductive StopReason : Type := stop_stop | stop_length | stop_toolUse | stop_error | stop_aborted.

#[export] Instance stop_reason_eq_dec : EqDecision StopReason.
Proof. solve_decision. Defined.

Record AssistantMessage : Type := {
  am_content : list AssistantBlock;
  am_api : string;
  am_provider : string;
  am_model : string;
  am_stopReason : StopReason;
  am_rest : jsval;
}.

Record ToolResultMessage : Type := {
  tr_toolCallId : string;
  tr_toolName : string;
  tr_content : list UserBlock;
  tr_isError : bool;
  tr_timestamp : Z;
  tr_details : option jsval;
}.

(** The last kind: a message of another role, which passes through. *)
Inductive Message : Type :=
| user_message (content : UserContent) (timestamp : Z)
| assistant_message (m : AssistantMessage)
| result_message (r : ToolResultMessage)
| other_message (payload : jsval).

Record Model : Type := {
  md_id : string;
  md_api : string;
  md_provider : string;
  md_input : list string;
}.

(** ** Images *)

Definition NON_VISION_USER_IMAGE_PLACEHOLDER : string := "(image omitted: model does not support images)".
Definition NON_VISION_TOOL_IMAGE_PLACEHOLDER : string := "(tool image omitted: model does not support images)".

Definition plain_text (text : string) : TextContent := {| tx_text := text; tx_textSignature := None |}.

Fixpoint replace_images (placeholder : string) (previousWasPlaceholder : bool) (content : list UserBlock) : list TextContent :=
  match content with
  | [] => []
  | user_image _ _ :: rest =>
      if previousWasPlaceholder then replace_images placeholder true rest
      else plain_text placeholder :: replace_images placeholder true rest
  | user_text block :: rest => block :: replace_images placeholder (String.eqb (tx_text block) placeholder) rest
  end.

Definition replaceImagesWithPlaceholder (content : list UserBlock) (placeholder : string) : list UserBlock :=
  map user_text (replace_images placeholder false content).

Definition with_content (r : ToolResultMessage) (content : list UserBlock) : ToolResultMessage :=
  {| tr_toolCallId := tr_toolCallId r; tr_toolName := tr_toolName r; tr_content := content; tr_isError := tr_isError r;
     tr_timestamp := tr_timestamp r; tr_details := tr_details r |}.

Definition with_id (r : ToolResultMessage) (id : string) : ToolResultMessage :=
  {| tr_toolCallId := id; tr_toolName := tr_toolName r; tr_content := tr_content r; tr_isError := tr_isError r;
     tr_timestamp := tr_timestamp r; tr_details := tr_details r |}.

Definition downgrade_message (msg : Message) : Message :=
  match msg with
  | user_message (content_blocks blocks) timestamp =>
      user_message (content_blocks (replaceImagesWithPlaceholder blocks NON_VISION_USER_IMAGE_PLACEHOLDER)) timestamp
  | result_message r =>
      result_message (with_content r (replaceImagesWithPlaceholder (tr_content r) NON_VISION_TOOL_IMAGE_PLACEHOLDER))
  | _ => msg
  end.

Definition downgradeUnsupportedImages (messages : list Message) (model : Model) : list Message :=
  if existsb (String.eqb "image") (md_input model) then messages else map downgrade_message messages.

(** ** Blocks and identifiers *)

Definition truthy (s : option string) : bool :=
  match s with
  | Some s => negb (is_empty s)
  | None => false
  end.

Definition same_model (m : AssistantMessage) (model : Model) : bool :=
  String.eqb (am_provider m) (md_provider model) && String.eqb (am_api m) (md_api model) && String.eqb (am_model m) (md_id model).

Section Transform.
(** The optional normalization of the caller, and the clock. *)
Context (normalizeToolCallId : option (string -> Model -> AssistantMessage -> string)) (model : Model) (clock : nat -> Z).

(** A tool call and the map of normalized identifiers after it. *)
Definition transform_call (isSameModel : bool) (source : AssistantMessage) (ids : gmap string string) (call : ToolCall) :
    ToolCall * gmap string string :=
  let bare :=
    if negb isSameModel && truthy (tc_thoughtSignature call)
    then {| tc_id := tc_id call; tc_name := tc_name call; tc_arguments := tc_arguments call; tc_thoughtSignature := None |}
    else call in
  match normalizeToolCallId with
  | Some normalize =>
      if isSameModel then (bare, ids)
      else
        let normalizedId := normalize (tc_id call) model source in
        if String.eqb normalizedId (tc_id call) then (bare, ids)
        else
          ({| tc_id := normalizedId; tc_name := tc_name bare; tc_arguments := tc_arguments bare;
              tc_thoughtSignature := tc_thoughtSignature bare |}, <[tc_id call := normalizedId]> ids)
  | None => (bare, ids)
  end.

Definition transform_thinking (isSameModel : bool) (block : ThinkingContent) : list AssistantBlock :=
  if th_redacted block then if isSameModel then [assistant_thinking block] else []
  else if isSameModel && truthy (th_thinkingSignature block) then [assistant_thinking block]
  else if is_empty (th_thinking block) || is_empty (trim (th_thinking block)) then []
  else if isSameModel then [assistant_thinking block]
  else [assistant_text (plain_text (th_thinking block))].

(** The blocks of an answer, from left to right. *)
Fixpoint transform_blocks (isSameModel : bool) (source : AssistantMessage) (ids : gmap string string) (blocks : list AssistantBlock) :
    list AssistantBlock * gmap string string :=
  match blocks with
  | [] => ([], ids)
  | assistant_thinking block :: rest =>
      let (out, ids') := transform_blocks isSameModel source ids rest in (transform_thinking isSameModel block ++ out, ids')
  | assistant_text block :: rest =>
      let (out, ids') := transform_blocks isSameModel source ids rest in
      (assistant_text (if isSameModel then block else plain_text (tx_text block)) :: out, ids')
  | assistant_call call :: rest =>
      let (call', ids1) := transform_call isSameModel source ids call in
      let (out, ids') := transform_blocks isSameModel source ids1 rest in (assistant_call call' :: out, ids')
  end.

Definition with_blocks (m : AssistantMessage) (content : list AssistantBlock) : AssistantMessage :=
  {| am_content := content; am_api := am_api m; am_provider := am_provider m; am_model := am_model m; am_stopReason := am_stopReason m;
     am_rest := am_rest m |}.

Definition rename_result (ids : gmap string string) (r : ToolResultMessage) : ToolResultMessage :=
  match ids !! tr_toolCallId r with
  | Some normalizedId =>
      if negb (is_empty normalizedId) && negb (String.eqb normalizedId (tr_toolCallId r)) then with_id r normalizedId else r
  | None => r
  end.

(** The first pass. *)
Fixpoint transform_from (ids : gmap string string) (messages : list Message) : list Message :=
  match messages with
  | [] => []
  | result_message r :: rest => result_message (rename_result ids r) :: transform_from ids rest
  | assistant_message m :: rest =>
      let (content, ids') := transform_blocks (same_model m model) m ids (am_content m) in
      assistant_message (with_blocks m content) :: transform_from ids' rest
  | msg :: rest => msg :: transform_from ids rest
  end.

(** ** Missing and orphaned results *)

Definition calls_of (m : AssistantMessage) : list ToolCall :=
  omap (fun block => match block with
                     | assistant_call call => Some call
                     | _ => None
                     end) (am_content m).

(** The state of the second pass. *)
Record Replay : Type := {
  rp_result : list Message;
  rp_pendingToolCalls : list ToolCall;
  rp_existingToolResultIds : list string;
  rp_liveToolCallIds : list string;
}.

Definition mem (s : string) (l : list string) : bool := existsb (String.eqb s) l.

Definition synthetic_result (call : ToolCall) (timestamp : Z) : ToolResultMessage :=
  {| tr_toolCallId := tc_id call; tr_toolName := tc_name call; tr_content := [user_text (plain_text "No result provided")];
     tr_isError := true; tr_timestamp := timestamp; tr_details := None |}.

(** One synthetic result, if the call has none. *)
Definition answer_call (existing : list string) (result : list Message) (call : ToolCall) : list Message :=
  if mem (tc_id call) existing then result else result ++ [result_message (synthetic_result call (clock (length result)))].

Definition insertSyntheticToolResults (s : Replay) : Replay :=
  match rp_pendingToolCalls s with
  | [] => s
  | calls =>
      {| rp_result := foldl (answer_call (rp_existingToolResultIds s)) (rp_result s) calls; rp_pendingToolCalls := [];
         rp_existingToolResultIds := []; rp_liveToolCallIds := rp_liveToolCallIds s |}
  end.

Definition push_message (msg : Message) (s : Replay) : Replay :=
  {| rp_result := rp_result s ++ [msg]; rp_pendingToolCalls := rp_pendingToolCalls s;
     rp_existingToolResultIds := rp_existingToolResultIds s; rp_liveToolCallIds := rp_liveToolCallIds s |}.

(** The calls of an answer become pending and live. *)
Definition track_calls (calls : list ToolCall) (s : Replay) : Replay :=
  match calls with
  | [] => s
  | _ =>
      {| rp_result := rp_result s; rp_pendingToolCalls := calls; rp_existingToolResultIds := [];
         rp_liveToolCallIds := rp_liveToolCallIds s ++ filter (fun id => id <> "") (map tc_id calls) |}
  end.

Definition is_failed (m : AssistantMessage) : bool :=
  bool_decide (am_stopReason m = stop_error) || bool_decide (am_stopReason m = stop_aborted).

Definition replay_message (s : Replay) (msg : Message) : Replay :=
  match msg with
  | assistant_message m =>
      let s := insertSyntheticToolResults s in
      if is_failed m then s else push_message msg (track_calls (calls_of m) s)
  | result_message r =>
      let id := trim (tr_toolCallId r) in
      if is_empty id || negb (mem id (rp_liveToolCallIds s)) then s
      else
        push_message (if String.eqb id (tr_toolCallId r) then msg else result_message (with_id r id))
          {| rp_result := rp_result s; rp_pendingToolCalls := rp_pendingToolCalls s;
             rp_existingToolResultIds := rp_existingToolResultIds s ++ [id]; rp_liveToolCallIds := rp_liveToolCallIds s |}
  | user_message _ _ => push_message msg (insertSyntheticToolResults s)
  | other_message _ => push_message msg s
  end.

Definition replay_start : Replay :=
  {| rp_result := []; rp_pendingToolCalls := []; rp_existingToolResultIds := []; rp_liveToolCallIds := [] |}.

(** The second pass. *)
Definition replay (transformed : list Message) : list Message :=
  rp_result (insertSyntheticToolResults (foldl replay_message replay_start transformed)).

Definition transformMessages (messages : list Message) : list Message :=
  replay (transform_from ∅ (downgradeUnsupportedImages messages model)).
End Transform.

(** ** Well-formed transcripts *)

Definition is_result (msg : Message) : bool :=
  match msg with
  | result_message _ => true
  | _ => false
  end.

(** A message that ends the turn of an answer. *)
Definition ends_turn (msg : Message) : bool :=
  match msg with
  | user_message _ _ | assistant_message _ => true
  | _ => false
  end.

(** The results given before the turn ends. *)
Fixpoint turn_results (messages : list Message) : list string :=
  match messages with
  | [] => []
  | result_message r :: rest => tr_toolCallId r :: turn_results rest
  | msg :: rest => if ends_turn msg then [] else turn_results rest
  end.

Definition call_ids (m : AssistantMessage) : list string := map tc_id (calls_of m).

(** Every call has a result before its turn ends. *)
Fixpoint answered (messages : list Message) : Prop :=
  match messages with
  | [] => True
  | assistant_message m :: rest => Forall (fun id => id ∈ turn_results rest) (call_ids m) /\ answered rest
  | _ :: rest => answered rest
  end.

(** Every result has a call before it, among those of [live] or of the messages. *)
Fixpoint parented (live : list string) (messages : list Message) : Prop :=
  match messages with
  | [] => True
  | assistant_message m :: rest => parented (live ++ call_ids m) rest
  | result_message r :: rest => tr_toolCallId r ∈ live /\ parented live rest
  | _ :: rest => parented live rest
  end.

(** The identifiers of the calls of some messages. *)
Fixpoint called (messages : list Message) : list string :=
  match messages with
  | [] => []
  | assistant_message m :: rest => call_ids m ++ called rest
  | _ :: rest => called rest
  end.

(** The messages without the results. *)
Definition conversation (messages : list Message) : list Message := filter (fun msg => is_result msg = false) messages.

Definition quiet (messages : list Message) : Prop := Forall (fun msg => ends_turn msg = false) messages.

Lemma turn_results_stop (a b : list Message) (msg : Message) : ends_turn msg = true -> turn_results (a ++ msg :: b) = turn_results a.
Proof.
  intros H. induction a as [|x a IH]; cbn [app turn_results]; [by destruct msg|]. destruct x; cbn [ends_turn]; [done|done|by rewrite IH|done].
Qed.

Lemma turn_results_grow (a b : list Message) (id : string) : id ∈ turn_results a -> id ∈ turn_results (a ++ b).
Proof.
  induction a as [|x a IH]; cbn [app turn_results]; [by intros ?%elem_of_nil|]. destruct x; cbn [ends_turn]; try done.
  rewrite !elem_of_cons. intros [->|H]; [by left|right; by apply IH].
Qed.

Lemma turn_results_quiet (a b : list Message) : quiet a -> turn_results (a ++ b) = turn_results a ++ turn_results b.
Proof. induction 1 as [|x a Hx _ IH]; [done|]. destruct x; cbn [app turn_results]; try done. by rewrite IH. Qed.

Lemma answered_stop (a b : list Message) (msg : Message) :
  ends_turn msg = true -> answered (a ++ msg :: b) <-> answered a /\ answered (msg :: b).
Proof.
  intros H. induction a as [|x a IH]; cbn [app answered]; [tauto|]. destruct x; [done| |done|done].
  rewrite turn_results_stop, IH by done. tauto.
Qed.

Lemma answered_grow (a b : list Message) : answered a -> answered b -> answered (a ++ b).
Proof.
  intros Ha Hb. induction a as [|x a IH]; [done|]. cbn [app answered] in *. destruct x; [by apply IH| |by apply IH|by apply IH].
  destruct Ha as [Hc Ha]. split; [|by apply IH]. eapply Forall_impl; [exact Hc|]. intros id. apply turn_results_grow.
Qed.

Lemma called_app (a b : list Message) : called (a ++ b) = called a ++ called b.
Proof. induction a as [|x a IH]; [done|]. destruct x; cbn [app called]; rewrite ?IH; try done. by rewrite app_assoc. Qed.

Lemma parented_app (live : list string) (a b : list Message) :
  parented live (a ++ b) <-> parented live a /\ parented (live ++ called a) b.
Proof.
  revert live. induction a as [|x a IH]; intros live; cbn [app parented called]; [rewrite app_nil_r; tauto|].
  destruct x; rewrite IH; [done| |tauto|done]. by rewrite app_assoc.
Qed.

Lemma conversation_app (a b : list Message) : conversation (a ++ b) = conversation a ++ conversation b.
Proof. apply filter_app. Qed.

(** ** The second pass *)

Section Replay.
Context (clock : nat -> Z).

(** The synthetic results of some calls: those that have none, in order. *)
Lemma answer_calls (existing : list string) (calls : list ToolCall) (result : list Message) :
  exists synthetic, foldl (answer_call clock existing) result calls = result ++ synthetic
    /\ Forall (fun msg => is_result msg = true) synthetic
    /\ Forall (fun id => id ∈ existing \/ id ∈ turn_results synthetic) (map tc_id calls)
    /\ Forall (fun id => id ∈ map tc_id calls) (turn_results synthetic)
    /\ (Forall (fun id => id ∈ existing) (map tc_id calls) -> synthetic = []).
Proof.
  revert result. induction calls as [|call calls IH]; intros result; cbn [foldl map]; [exists []; by rewrite app_nil_r|].
  unfold answer_call at 2. destruct (mem (tc_id call) existing) eqn:Hm.
  - apply existsb_eqb_elem in Hm. destruct (IH result) as (synthetic & -> & Hr & Ha & Hp & Hn). exists synthetic. split_and!; try done.
    + constructor; [by left|done].
    + eapply Forall_impl; [exact Hp|]. intros id Hid. by right.
    + intros [_ H]%Forall_cons. by apply Hn.
  - destruct (IH (result ++ [result_message (synthetic_result call (clock (length result)))])) as (synthetic & -> & Hr & Ha & Hp & Hn).
    eexists. rewrite <- app_assoc. split_and!; [done|by constructor| | |].
    + cbn [app turn_results synthetic_result tr_toolCallId]. constructor; [right; by left|].
      eapply Forall_impl; [exact Ha|]. intros id [H|H]; [by left|right; by right].
    + cbn [app turn_results synthetic_result tr_toolCallId]. constructor; [by left|]. eapply Forall_impl; [exact Hp|]. intros id Hid. by right.
    + intros [H _]%Forall_cons. apply existsb_eqb_elem in H. unfold mem in Hm. congruence.
Qed.

Lemma results_quiet (l : list Message) : Forall (fun msg => is_result msg = true) l -> quiet l.
Proof. intros H. eapply Forall_impl; [exact H|]. by intros []. Qed.

Lemma results_answered (l : list Message) : Forall (fun msg => is_result msg = true) l -> answered l /\ called l = [] /\ conversation l = [].
Proof. induction 1 as [|x l Hx _ IH]; [done|]. by destruct x. Qed.

Lemma results_parented (live : list string) (l : list Message) :
  Forall (fun msg => is_result msg = true) l -> parented live l <-> Forall (fun id => id ∈ live) (turn_results l).
Proof.
  induction 1 as [|x l Hx _ IH]; cbn [parented turn_results]; [done|]. destruct x; try done. by rewrite IH, Forall_cons.
Qed.

(** What is open in a state: nothing, or the calls of the last answer, with the results it got. *)
Definition open_turn (s : Replay) : Prop :=
  (rp_pendingToolCalls s = [] /\ answered (rp_result s))
  \/ exists before m after, rp_result s = before ++ assistant_message m :: after /\ calls_of m = rp_pendingToolCalls s
       /\ quiet after /\ answered after /\ rp_existingToolResultIds s = turn_results after /\ answered before.

Record replay_inv (s : Replay) : Prop := {
  ri_live : forall id, id ∈ rp_liveToolCallIds s -> id ∈ called (rp_result s);
  ri_parented : parented [] (rp_result s);
  ri_open : open_turn s;
}.

Lemma insert_inv (s : Replay) :
  replay_inv s ->
  replay_inv (insertSyntheticToolResults clock s) /\ rp_pendingToolCalls (insertSyntheticToolResults clock s) = []
  /\ answered (rp_result (insertSyntheticToolResults clock s))
  /\ conversation (rp_result (insertSyntheticToolResults clock s)) = conversation (rp_result s).
Proof.
  intros [Hlive Hpar Hopen]. unfold insertSyntheticToolResults. destruct (rp_pendingToolCalls s) as [|call calls] eqn:Hp.
  { destruct Hopen as [[_ Ha]|(before & m & after & Hr & Hc & Hq & Haa & He & Hb)]; [by split_and!; [split; [..|left]| | |]|].
    assert (answered (rp_result s)).
    { rewrite Hr. apply answered_stop; [done|]. split; [done|]. cbn [answered]. unfold call_ids. by rewrite Hc, Hp. }
    split_and!; [split; [..|left]| | |]; done. }
  destruct Hopen as [[Hn _]|(before & m & after & Hr & Hc & Hq & Haa & He & Hb)]; [congruence|]. rewrite Hp in Hc.
  destruct (answer_calls (rp_existingToolResultIds s) (call :: calls) (rp_result s)) as (synthetic & -> & Hs & Ha & Hids & _).
  destruct (results_answered synthetic Hs) as (Has & Hcs & Hvs).
  assert (Hall : answered (rp_result s ++ synthetic)).
  { rewrite Hr, <- app_assoc. apply answered_stop; [done|]. split; [done|]. cbn [app answered]. split; [|by apply answered_grow].
    unfold call_ids. rewrite Hc, turn_results_quiet by done. eapply Forall_impl; [exact Ha|]. intros id. by rewrite He, elem_of_app. }
  split_and!; cbn [rp_result rp_pendingToolCalls]; try done.
  - split; cbn [rp_result rp_liveToolCallIds]; [| |by left].
    + intros id Hid. rewrite called_app, elem_of_app. left. by apply Hlive.
    + apply parented_app. split; [done|]. apply results_parented; [done|]. eapply Forall_impl; [exact Hids|]. intros id Hid.
      rewrite Hr, called_app, !elem_of_app. do 2 right. cbn [called]. rewrite elem_of_app. left. unfold call_ids. by rewrite Hc.
  - by rewrite conversation_app, Hvs, app_nil_r.
Qed.

(** A message that ends no turn, with the result it gives. *)
Definition keep_message (msg : Message) (s : Replay) : Replay :=
  {| rp_result := rp_result s ++ [msg]; rp_pendingToolCalls := rp_pendingToolCalls s;
     rp_existingToolResultIds := rp_existingToolResultIds s ++ turn_results [msg]; rp_liveToolCallIds := rp_liveToolCallIds s |}.

Lemma keep_inv (s : Replay) (msg : Message) :
  replay_inv s -> ends_turn msg = false -> parented (called (rp_result s)) [msg] -> replay_inv (keep_message msg s).
Proof.
  intros [Hlive Hpar Hopen] Hq Hp. assert (Ha1 : answered [msg]) by (by destruct msg).
  split; cbn [keep_message rp_result rp_liveToolCallIds].
  - intros id Hid. rewrite called_app, elem_of_app. left. by apply Hlive.
  - by apply parented_app.
  - destruct Hopen as [[Hn Ha]|(before & m & after & Hres & Hc & Hqa & Haa & He & Hb)]; [left; split; [done|by apply answered_grow]|].
    right. exists before, m, (after ++ [msg]). cbn [keep_message rp_result rp_pendingToolCalls rp_existingToolResultIds].
    rewrite Hres, He, <- app_assoc, turn_results_quiet by done. split_and!; try done; [|by apply answered_grow].
    apply Forall_app. split; [done|by constructor].
Qed.

Lemma track_inv (s : Replay) (m : AssistantMessage) :
  replay_inv s -> rp_pendingToolCalls s = [] -> answered (rp_result s) ->
  replay_inv (push_message (assistant_message m) (track_calls (calls_of m) s)).
Proof.
  intros [Hlive Hpar _] Hp Ha. destruct (calls_of m) as [|call calls] eqn:Hc; cbn [track_calls].
  - split; cbn [push_message rp_result rp_liveToolCallIds].
    + intros id Hid. rewrite called_app, elem_of_app. left. by apply Hlive.
    + by apply parented_app.
    + left. split; [done|]. apply answered_stop; [done|]. split; [done|]. cbn [answered]. unfold call_ids. by rewrite Hc.
  - split; cbn [push_message rp_result rp_liveToolCallIds].
    + intros id. rewrite called_app, !elem_of_app. intros [Hid|Hid]; [left; by apply Hlive|]. right.
      apply list_elem_of_filter in Hid as [_ Hid]. cbn [called]. rewrite app_nil_r. unfold call_ids. by rewrite Hc.
    + by apply parented_app.
    + right. exists (rp_result s), m, []. split_and!; try done. constructor.
Qed.

(** The messages a replay keeps. *)
Definition kept (msg : Message) : bool :=
  match msg with
  | assistant_message m => negb (is_failed m)
  | result_message _ => false
  | _ => true
  end.

Lemma user_inv (s : Replay) (content : UserContent) (timestamp : Z) :
  replay_inv s -> rp_pendingToolCalls s = [] -> answered (rp_result s) -> replay_inv (push_message (user_message content timestamp) s).
Proof.
  intros [Hlive Hpar _] Hp Ha. split; cbn [push_message rp_result rp_liveToolCallIds].
  - intros id Hid. rewrite called_app, elem_of_app. left. by apply Hlive.
  - by apply parented_app.
  - left. split; [done|]. by apply answered_stop.
Qed.

Lemma step_inv (s : Replay) (msg : Message) :
  replay_inv s ->
  replay_inv (replay_message clock s msg)
  /\ conversation (rp_result (replay_message clock s msg)) = conversation (rp_result s) ++ (if kept msg then [msg] else []).
Proof.
  intros Hs. destruct (insert_inv s Hs) as (Hi & Hp & Ha & Hv). destruct msg as [content timestamp|m|r|payload]; cbn [replay_message kept].
  - split; [by apply user_inv|]. cbn [push_message rp_result]. by rewrite conversation_app, Hv.
  - destruct (is_failed m); cbn [negb]; [by rewrite app_nil_r|]. split; [by apply track_inv|].
    cbn [push_message rp_result]. rewrite conversation_app. f_equal. rewrite <- Hv. by destruct (calls_of m).
  - rewrite app_nil_r. destruct (is_empty (trim (tr_toolCallId r)) || negb (mem (trim (tr_toolCallId r)) (rp_liveToolCallIds s))) eqn:Hd; [done|].
    apply orb_false_iff in Hd as [_ Hlive%negb_false_iff]. apply existsb_eqb_elem in Hlive. apply (ri_live s Hs) in Hlive.
    set (r' := if String.eqb (trim (tr_toolCallId r)) (tr_toolCallId r) then r else with_id r (trim (tr_toolCallId r))).
    assert (Hr : (if String.eqb (trim (tr_toolCallId r)) (tr_toolCallId r) then result_message r
                  else result_message (with_id r (trim (tr_toolCallId r)))) = result_message r') by (unfold r'; by destruct String.eqb).
    assert (Hid : tr_toolCallId r' = trim (tr_toolCallId r)) by (unfold r'; destruct (String.eqb_spec (trim (tr_toolCallId r)) (tr_toolCallId r)); done).
    rewrite Hr. split.
    + replace [trim (tr_toolCallId r)] with (turn_results [result_message r']) by (cbn; by rewrite Hid).
      apply (keep_inv s (result_message r')); [done|done|]. cbn [parented]. by rewrite Hid.
    + cbn [push_message rp_result]. rewrite conversation_app. apply app_nil_r.
  - split; [|cbn [push_message rp_result]; by rewrite conversation_app].
    assert (push_message (other_message payload) s = keep_message (other_message payload) s) as ->; [|by apply keep_inv].
    unfold keep_message. cbn [turn_results ends_turn]. by rewrite app_nil_r.
Qed.

Lemma replay_from_inv (messages : list Message) (s : Replay) :
  replay_inv s ->
  replay_inv (foldl (replay_message clock) s messages)
  /\ conversation (rp_result (foldl (replay_message clock) s messages))
     = conversation (rp_result s) ++ filter (fun msg => kept msg = true) messages.
Proof.
  revert s. induction messages as [|msg messages IH]; intros s Hs; cbn [foldl]; [by rewrite filter_nil, app_nil_r|].
  destruct (step_inv s msg Hs) as [H1 H2]. destruct (IH _ H1) as [H3 H4]. split; [done|]. rewrite H4, H2, filter_cons, <- app_assoc.
  f_equal. by destruct (kept msg).
Qed.

Lemma start_inv : replay_inv replay_start.
Proof. split; cbn; [by intros id ?%elem_of_nil|done|by left]. Qed.

Lemma replay_spec (messages : list Message) :
  let out := replay clock messages in
  answered out /\ parented [] out /\ conversation out = filter (fun msg => kept msg = true) messages.
Proof.
  destruct (replay_from_inv messages replay_start start_inv) as [Hi Hv]. destruct (insert_inv _ Hi) as (Hi' & _ & Ha & Hc).
  cbv zeta. unfold replay. split_and!; [done|by apply ri_parented|]. by rewrite Hc, Hv.
Qed.

(** A message as a replay leaves it. *)
Definition usable (msg : Message) : Prop :=
  match msg with
  | assistant_message m => is_failed m = false
  | result_message r => trim (tr_toolCallId r) = tr_toolCallId r /\ tr_toolCallId r <> ""
  | _ => True
  end.

Definition replayable (messages : list Message) : Prop := answered messages /\ parented [] messages /\ Forall usable messages.

(** The state behind messages that were kept as they are. *)
Record exact (s : Replay) (past : list Message) : Prop := {
  ex_result : rp_result s = past;
  ex_live : rp_liveToolCallIds s = filter (fun id => id <> "") (called past);
  ex_open : rp_pendingToolCalls s = []
            \/ exists before m after, past = before ++ assistant_message m :: after /\ calls_of m = rp_pendingToolCalls s
                 /\ quiet after /\ rp_existingToolResultIds s = turn_results after;
}.

Lemma answered_split (before after : list Message) (m : AssistantMessage) :
  answered (before ++ assistant_message m :: after) -> Forall (fun id => id ∈ turn_results after) (call_ids m).
Proof. intros H%answered_stop; [|done]. by destruct H as [_ [H _]]. Qed.

Lemma insert_exact (s : Replay) (past rest : list Message) :
  exact s past -> answered (past ++ rest) -> match rest with [] => True | msg :: _ => ends_turn msg = true end ->
  exact (insertSyntheticToolResults clock s) past /\ rp_pendingToolCalls (insertSyntheticToolResults clock s) = [].
Proof.
  intros [Hr Hl Ho] Ha Hrest. unfold insertSyntheticToolResults.
  destruct (rp_pendingToolCalls s) as [|call calls] eqn:Hp; [split; [split; [..|left]|]; done|].
  destruct Ho as [|(before & m & after & -> & Hc & Hq & He)]; [done|]. split; [|done].
  assert (Hall : Forall (fun id => id ∈ rp_existingToolResultIds s) (map tc_id (call :: calls))).
  { rewrite <- app_assoc in Ha. cbn [app] in Ha. apply answered_split in Ha. unfold call_ids in Ha. rewrite Hc in Ha. rewrite He.
    assert (Hsame : turn_results (after ++ rest) = turn_results after).
    { destruct rest as [|msg rest]; [by rewrite app_nil_r|by apply turn_results_stop]. }
    by rewrite Hsame in Ha. }
  destruct (answer_calls (rp_existingToolResultIds s) (call :: calls) (rp_result s)) as (synthetic & -> & _ & _ & _ & Hn).
  rewrite (Hn Hall), app_nil_r. split; [done|done|by left].
Qed.

Lemma keep_exact (s : Replay) (past : list Message) (msg : Message) :
  exact s past -> ends_turn msg = false -> exact (keep_message msg s) (past ++ [msg]).
Proof.
  intros [Hr Hl Ho] Hq. split; cbn [keep_message rp_result rp_liveToolCallIds].
  - by rewrite Hr.
  - rewrite Hl, called_app. destruct msg; try done; cbn [called]; by rewrite app_nil_r.
  - destruct Ho as [|(before & m & after & -> & Hc & Hqa & He)]; [by left|]. right. exists before, m, (after ++ [msg]).
    cbn [keep_message rp_pendingToolCalls rp_existingToolResultIds]. rewrite He, <- app_assoc, turn_results_quiet by done.
    split_and!; try done. apply Forall_app. split; [done|by constructor].
Qed.

Lemma track_exact (s : Replay) (past : list Message) (m : AssistantMessage) :
  exact s past -> rp_pendingToolCalls s = [] ->
  exact (push_message (assistant_message m) (track_calls (calls_of m) s)) (past ++ [assistant_message m]).
Proof.
  intros [Hr Hl _] Hp. split.
  - cbn [push_message rp_result]. rewrite <- Hr. by destruct (calls_of m).
  - rewrite called_app, filter_app, <- Hl. cbn [called]. rewrite app_nil_r. unfold call_ids, track_calls.
    destruct (calls_of m); cbn [push_message rp_liveToolCallIds]; [by rewrite app_nil_r|done].
  - destruct (calls_of m) eqn:Hc; [by left|]. right. exists past, m, []. split_and!; try done. constructor.
Qed.

Lemma replay_exact (rest past : list Message) (s : Replay) :
  exact s past -> answered (past ++ rest) -> parented [] (past ++ rest) -> Forall usable rest ->
  rp_result (insertSyntheticToolResults clock (foldl (replay_message clock) s rest)) = past ++ rest.
Proof.
  revert past s. induction rest as [|msg rest IH]; intros past s Hx Ha Hp Hu; cbn [foldl].
  { rewrite app_nil_r. destruct (insert_exact s past [] Hx Ha I) as [[Hr _ _] _]. done. }
  apply Forall_cons in Hu as [Hm Hu]. replace (past ++ msg :: rest) with ((past ++ [msg]) ++ rest) in * by (by rewrite <- app_assoc).
  apply IH; [|done..]. rewrite <- app_assoc in Ha, Hp. cbn [app] in Ha, Hp. destruct msg as [content timestamp|m|r|payload]; cbn [replay_message].
  - destruct (insert_exact s past (user_message content timestamp :: rest) Hx Ha eq_refl) as [[Hr Hl Ho] Hpend].
    split; cbn [push_message rp_result rp_liveToolCallIds rp_pendingToolCalls]; [by rewrite Hr|by rewrite Hl, called_app, app_nil_r|by left].
  - destruct (insert_exact s past (assistant_message m :: rest) Hx Ha eq_refl) as [Hx' Hpend].
    cbn [usable] in Hm. rewrite Hm. by apply track_exact.
  - destruct Hm as [Htrim Hne]. rewrite Htrim, String.eqb_refl. apply parented_app in Hp as [_ [Hid _]]. rewrite app_nil_l in Hid.
    assert (is_empty (tr_toolCallId r) = false) as -> by (by destruct (tr_toolCallId r)).
    assert (mem (tr_toolCallId r) (rp_liveToolCallIds s) = true) as ->.
    { apply existsb_eqb_elem. rewrite (ex_live s past Hx). apply list_elem_of_filter. by split. }
    by apply (keep_exact s past (result_message r)).
  - assert (push_message (other_message payload) s = keep_message (other_message payload) s) as ->; [|by apply keep_exact].
    unfold keep_message. cbn [turn_results ends_turn]. by rewrite app_nil_r.
Qed.

Lemma replay_fixed (messages : list Message) : replayable messages -> replay clock messages = messages.
Proof. intros (Ha & Hp & Hu). by apply (replay_exact messages [] replay_start); [split; [..|left]| | |]. Qed.
End Replay.

(** ** What a replay holds *)

Lemma called_elem (messages : list Message) (id : string) :
  id ∈ called messages <-> exists m, assistant_message m ∈ messages /\ id ∈ call_ids m.
Proof.
  induction messages as [|x messages IH]; cbn [called]; [split; [by intros ?%elem_of_nil|by intros (m & ?%elem_of_nil & _)]|].
  assert (Hx : (exists m, assistant_message m ∈ x :: messages /\ id ∈ call_ids m)
               <-> (exists m, x = assistant_message m /\ id ∈ call_ids m) \/ id ∈ called messages).
  { rewrite IH. split.
    - intros (m & [H|H]%elem_of_cons & Hid); [left|right]; by exists m.
    - intros [(m & -> & Hid)|(m & H & Hid)]; exists m; (split; [|done]); [by left|by right]. }
  rewrite Hx. destruct x; try (split; [by right|intros [(m' & ? & _)|]; done]). rewrite elem_of_app.
  split; (intros [H|H]; [left|by right]); [by exists m|]. by destruct H as (m' & [= ->] & ?).
Qed.

Lemma parented_elem (live : list string) (messages : list Message) (r : ToolResultMessage) :
  parented live messages -> result_message r ∈ messages -> tr_toolCallId r ∈ live ++ called messages.
Proof.
  revert live. induction messages as [|x messages IH]; intros live; cbn [parented called]; [by intros _ ?%elem_of_nil|].
  destruct x; intros Hp [H|H]%elem_of_cons; try done.
  - by apply IH.
  - rewrite app_assoc. by apply IH.
  - injection H as ->. apply elem_of_app. left. apply Hp.
  - apply IH; [apply Hp|done].
  - by apply IH.
Qed.

Lemma conversation_elem (messages : list Message) (m : AssistantMessage) :
  assistant_message m ∈ conversation messages <-> assistant_message m ∈ messages.
Proof. unfold conversation. rewrite list_elem_of_filter. split; [by intros [_ ?]|done]. Qed.

Lemma replay_replayable (clock : nat -> Z) (messages : list Message) :
  (forall id, id ∈ called messages -> trim id = id /\ id <> "") -> replayable (replay clock messages).
Proof.
  intros Hids. destruct (replay_spec clock messages) as (Ha & Hp & Hc). split_and!; [done..|].
  assert (Hkept : forall m, assistant_message m ∈ replay clock messages -> assistant_message m ∈ messages /\ is_failed m = false).
  { intros m Hm%conversation_elem. rewrite Hc in Hm. apply list_elem_of_filter in Hm as [Hk Hm]. split; [done|].
    by apply negb_true_iff in Hk. }
  apply Forall_forall. intros x Hx. destruct x; cbn [usable]; try done; [by eapply Hkept|].
  apply Hids. apply (parented_elem [] _ _ Hp) in Hx. apply called_elem in Hx as (m & Hm & Hid). apply called_elem. exists m.
  split; [by apply Hkept|done].
Qed.

(** ** The first pass *)

Section Foreign.
Context (g : string -> string) (model : Model).

Definition foreign_call (call : ToolCall) : ToolCall :=
  {| tc_id := g (tc_id call); tc_name := tc_name call; tc_arguments := tc_arguments call;
     tc_thoughtSignature := if truthy (tc_thoughtSignature call) then None else tc_thoughtSignature call |}.

(** What becomes of a block of another model. *)
Definition foreign_block (block : AssistantBlock) : list AssistantBlock :=
  match block with
  | assistant_text block => [assistant_text (plain_text (tx_text block))]
  | assistant_thinking block => transform_thinking false block
  | assistant_call call => [assistant_call (foreign_call call)]
  end.

Definition foreign_message (msg : Message) : Message :=
  match msg with
  | assistant_message m => assistant_message (with_blocks m (concat (map foreign_block (am_content m))))
  | result_message r => result_message (with_id r (g (tr_toolCallId r)))
  | _ => msg
  end.

(** A map that holds the identifiers that changed among those seen. *)
Definition renames (ids : gmap string string) (seen : list string) : Prop :=
  forall id, ids !! id = if decide (id ∈ seen /\ g id <> id) then Some (g id) else None.

Definition block_ids (blocks : list AssistantBlock) : list string :=
  map tc_id (omap (fun block => match block with
                               | assistant_call call => Some call
                               | _ => None
                               end) blocks).

Lemma renames_insert (ids : gmap string string) (seen : list string) (id : string) :
  renames ids seen -> g id <> id -> renames (<[id := g id]> ids) (seen ++ [id]).
Proof.
  intros Hr Hg id'. destruct (decide (id = id')) as [<-|Hne].
  - rewrite lookup_insert_eq, decide_True; [done|]. split; [set_solver|done].
  - rewrite lookup_insert_ne, Hr by done. apply decide_ext. set_solver.
Qed.

Lemma renames_keep (ids : gmap string string) (seen : list string) (id : string) :
  renames ids seen -> g id = id -> renames ids (seen ++ [id]).
Proof. intros Hr Hg id'. rewrite Hr. apply decide_ext. rewrite elem_of_app, list_elem_of_singleton. naive_solver. Qed.

Lemma call_renamed (source : AssistantMessage) (ids : gmap string string) (seen : list string) (call : ToolCall) :
  renames ids seen ->
  exists ids', transform_call (Some (fun id _ _ => g id)) model false source ids call = (foreign_call call, ids')
    /\ renames ids' (seen ++ [tc_id call]).
Proof.
  intros Hr. unfold transform_call, foreign_call. cbn [negb andb].
  destruct (String.eqb_spec (g (tc_id call)) (tc_id call)) as [He|Hne].
  - eexists. split; [|by apply renames_keep]. f_equal. rewrite He. by destruct call as [? ? ? [[]|]].
  - eexists. split; [|by apply renames_insert]. f_equal. by destruct (truthy (tc_thoughtSignature call)).
Qed.

Lemma blocks_renamed (source : AssistantMessage) (blocks : list AssistantBlock) (ids : gmap string string) (seen : list string) :
  renames ids seen ->
  exists ids', transform_blocks (Some (fun id _ _ => g id)) model false source ids blocks = (concat (map foreign_block blocks), ids')
    /\ renames ids' (seen ++ block_ids blocks).
Proof.
  revert ids seen. induction blocks as [|block blocks IH]; intros ids seen Hr; cbn [transform_blocks map concat].
  { exists ids. split; [done|]. unfold block_ids. cbn. by rewrite app_nil_r. }
  destruct block as [block|block|call].
  - destruct (IH ids seen Hr) as (ids' & -> & H). by exists ids'.
  - destruct (IH ids seen Hr) as (ids' & -> & H). by exists ids'.
  - destruct (call_renamed source ids seen call Hr) as (ids1 & -> & H1). destruct (IH ids1 _ H1) as (ids' & -> & H). exists ids'.
    split; [done|]. by rewrite <- app_assoc in H.
Qed.

Lemma result_renamed (ids : gmap string string) (seen : list string) (r : ToolResultMessage) :
  renames ids seen -> tr_toolCallId r ∈ seen -> g (tr_toolCallId r) <> "" -> rename_result ids r = with_id r (g (tr_toolCallId r)).
Proof.
  intros Hr Hs Hne. unfold rename_result. rewrite Hr. destruct (decide _) as [[_ Hg]|Hn].
  - assert (is_empty (g (tr_toolCallId r)) = false) as -> by (by destruct (g (tr_toolCallId r))).
    by rewrite (proj2 (String.eqb_neq _ _) Hg).
  - assert (g (tr_toolCallId r) = tr_toolCallId r) as -> by (destruct (decide (g (tr_toolCallId r) = tr_toolCallId r)); tauto).
    by destruct r.
Qed.

Lemma transform_foreign (messages : list Message) (ids : gmap string string) (seen : list string) :
  renames ids seen -> parented seen messages -> (forall m, assistant_message m ∈ messages -> same_model m model = false) ->
  (forall id, id ∈ seen ++ called messages -> g id <> "") ->
  transform_from (Some (fun id _ _ => g id)) model ids messages = map foreign_message messages.
Proof.
  revert ids seen. induction messages as [|x messages IH]; intros ids seen Hr Hp Hf Hg; cbn [transform_from map]; [done|].
  assert (Hf' : forall m, assistant_message m ∈ messages -> same_model m model = false) by (intros m Hm; apply Hf; by right).
  destruct x as [content timestamp|m|r|payload]; cbn [foreign_message parented called] in *.
  - f_equal. by apply (IH ids seen).
  - rewrite (Hf m) by (by left). destruct (blocks_renamed m (am_content m) ids seen Hr) as (ids' & -> & Hr'). f_equal.
    apply (IH ids' (seen ++ call_ids m)); [done..|]. by rewrite <- app_assoc.
  - destruct Hp as [Hs Hp]. rewrite (result_renamed ids seen) by (try done; apply Hg; set_solver). f_equal. by apply (IH ids seen).
  - f_equal. by apply (IH ids seen).
Qed.
End Foreign.

(** ** Images *)

Definition texts_of (content : list UserBlock) : list TextContent :=
  omap (fun block => match block with
                     | user_text block => Some block
                     | user_image _ _ => None
                     end) content.

Definition has_image (content : list UserBlock) : bool :=
  existsb (fun block => match block with
                        | user_image _ _ => true
                        | user_text _ => false
                        end) content.

(** The images of a content become placeholders and nothing else changes: the texts stay in order, no image is left, and a
    placeholder stands there when there was an image. *)
Lemma images_become_placeholders (content : list UserBlock) (placeholder : string) :
  let out := replaceImagesWithPlaceholder content placeholder in
  has_image out = false
  /\ filter (fun block => tx_text block <> placeholder) (texts_of out)
     = filter (fun block => tx_text block <> placeholder) (texts_of content)
  /\ (has_image content = true -> Exists (fun block => tx_text block = placeholder) (texts_of out)).
Proof.
  cbv zeta. unfold replaceImagesWithPlaceholder.
  assert (Htexts : forall l, has_image (map user_text l) = false /\ texts_of (map user_text l) = l).
  { induction l as [|b l [IH1 IH2]]; [done|]. split; [done|]. unfold texts_of in *. cbn [map omap list_omap]. by rewrite IH2. }
  destruct (Htexts (replace_images placeholder false content)) as [-> ->]. split; [done|].
  assert (H : forall previous,
    filter (fun block => tx_text block <> placeholder) (replace_images placeholder previous content)
    = filter (fun block => tx_text block <> placeholder) (texts_of content)
    /\ (has_image content = true -> previous = false ->
        Exists (fun block => tx_text block = placeholder) (replace_images placeholder previous content))); [|split; [apply (H false)|intros Hi; by apply (H false)]].
  induction content as [|b content IH]; intros previous; [done|].
  destruct b as [block|data mime]; cbn [replace_images texts_of omap list_omap has_image existsb].
  - destruct (IH (String.eqb (tx_text block) placeholder)) as [IH1 IH2]. split.
    + rewrite !filter_cons. fold texts_of. change (list_omap _ _ _ content) with (texts_of content). by rewrite IH1.
    + intros Hi _. destruct (String.eqb_spec (tx_text block) placeholder) as [He|]; [by left|right; by apply IH2].
  - destruct (IH true) as [IH1 _]. change (list_omap _ _ _ content) with (texts_of content). destruct previous; [by split|]. split; [|by left].
    rewrite filter_cons, decide_False by (intros H; by apply H). done.
Qed.

Lemma downgrade_view (messages : list Message) (model : Model) :
  let out := downgradeUnsupportedImages messages model in
  turn_results out = turn_results messages /\ (answered messages -> answered out) /\ called out = called messages
  /\ (forall live, parented live messages -> parented live out) /\ forall m, assistant_message m ∈ out -> assistant_message m ∈ messages.
Proof.
  cbv zeta. unfold downgradeUnsupportedImages. destruct (existsb _ _); [done|].
  induction messages as [|x messages (IH1 & IH2 & IH3 & IH4 & IH5)]; [done|].
  assert (Hin : forall m, assistant_message m ∈ downgrade_message x :: map downgrade_message messages -> assistant_message m ∈ x :: messages).
  { intros m [H|H]%elem_of_cons; [|right; by apply IH5]. rewrite H. by destruct x as [[]| | |]; try discriminate H; left. }
  destruct x as [[text|blocks] timestamp|m|r|payload]; cbn [map downgrade_message turn_results ends_turn answered called parented] in *;
    split_and!; try done.
  - intros [Hc Ha]. rewrite IH1. split; [done|by apply IH2].
  - by rewrite IH3.
  - intros live. apply IH4.
  - cbn [with_content tr_toolCallId]. by rewrite IH1.
  - intros live [Hid Hp]. split; [done|by apply IH4].
Qed.

Lemma map_elem {A B} (f : A -> B) (l : list A) (y : B) : y ∈ map f l <-> exists x, y = f x /\ x ∈ l.
Proof. apply list_elem_of_fmap. Qed.

Lemma map_elem_2 {A B} (f : A -> B) (l : list A) (x : A) : x ∈ l -> f x ∈ map f l.
Proof. apply list_elem_of_fmap_2. Qed.

(** ** Properties *)



(** Replaying changes nothing twice. When the identifiers of the calls are proper, what the second pass made of a
    transcript it leaves alone: nothing is dropped from it and no result is added, whatever the clock says. *)
Theorem replay_idempotent (clock clock' : nat -> Z) (messages : list Message)
    (Hproper : forall id, id ∈ called messages -> trim id = id /\ id <> "") :
  replay clock' (replay clock messages) = replay clock messages.
Proof. by apply replay_fixed, replay_replayable. Qed.

(** ** Examples *)

Definition sample_model : Model := {| md_id := "m"; md_api := "a"; md_provider := "p"; md_input := ["text"] |}.

Definition answer (model : string) (stopReason : StopReason) (content : list AssistantBlock) : Message :=
  assistant_message
    {| am_content := content; am_api := "a"; am_provider := "p"; am_model := model; am_stopReason := stopReason; am_rest := JNull |}.

Definition call_of (id : string) : AssistantBlock :=
  assistant_call {| tc_id := id; tc_name := "read"; tc_arguments := JNull; tc_thoughtSignature := Some "s" |}.

Definition result_of (id text : string) : ToolResultMessage :=
  {| tr_toolCallId := id; tr_toolName := "read"; tr_content := [user_text (plain_text text)]; tr_isError := false; tr_timestamp := 7;
     tr_details := None |}.

Definition user_says (text : string) : Message := user_message (content_string text) 5.

(** Every message with what matters of it. *)
Definition sketch (msg : Message) : string :=
  match msg with
  | user_message _ _ => "user"
  | assistant_message m => "answer " ++ join "," (call_ids m)
  | result_message r => (if tr_isError r then "error " else "result ") ++ tr_toolCallId r
  | other_message _ => "other"
  end.

Definition prefixed (id : string) : string := "n" ++ id.

Definition sketches (messages : list Message) : list string :=
  map sketch (transformMessages (Some (fun id _ _ => prefixed id)) sample_model (fun _ => 0%Z) messages).

Example transform_examples :
  sketches [user_says "go"; answer "x" stop_toolUse [call_of "1"; call_of "2"]; result_message (result_of "2" "b"); user_says "more"]
  = ["user"; "answer n1,n2"; "result n2"; "error n1"; "user"]
  /\ sketches [answer "m" stop_error [call_of "1"]; result_message (result_of "1" "b"); answer "m" stop_toolUse [call_of "3"]]
     = ["answer 3"; "error 3"].
Proof. vm_compute. done. Qed.

Definition sample_transcript : list Message :=
  [user_says "go"; answer "x" stop_toolUse [call_of "1"; call_of "2"]; result_message (result_of "2" "b"); result_message (result_of "1" "a")].


Lemma replay_idempotent_witness :
  let out := replay (fun _ => 0%Z) [answer "m" stop_toolUse [call_of "1"]; user_says "more"] in
  map sketch out = ["answer 1"; "error 1"; "user"] /\ replay (fun _ => 1%Z) out = out.
Proof.
  cbv zeta. split; [vm_compute; reflexivity|]. apply (replay_idempotent (fun _ => 0%Z) (fun _ => 1%Z)).
  intros id Hid. cbn in Hid. rewrite elem_of_cons in Hid. destruct Hid as [->|Hid]; [by split|by apply elem_of_nil in Hid].
Defined.

(** ** What the transformation gets wrong *)

(** A result that comes after its turn has ended is kept beside the one that was made up for it. *)
Lemma late_result_duplicated :
  sketches [answer "m" stop_toolUse [call_of "1"]; user_says "more"; result_message (result_of "1" "a")]
  = ["answer 1"; "error 1"; "user"; "result 1"].
Proof. vm_compute. reflexivity. Qed.

(** The identifiers of results are trimmed, those of calls are not: the result of a call whose identifier has a blank at an
    end is lost, and the call is told that it has none. *)
Lemma spaced_identifier_loses_result :
  sketches [answer "m" stop_toolUse [call_of " 1"]; result_message (result_of " 1" "a")] = ["answer  1"; "error  1"].
Proof. vm_compute. reflexivity. Qed.
End TransformMessages.
