(* ===== verification/StdinBuffer.v ===== *)
(** * Terminal input
    (packages/tui/src/stdin-buffer.ts)

    Input arrives in chunks that may end anywhere; the buffer puts escape
    sequences and bracketed pastes together again. A chunk is a text or the bytes
    of one; the state of the buffer is a record, and processing a chunk gives the
    events and the new state. Whether the timer of the buffer is set is part of
    the state, its firing an operation. *)

From Stdlib Require Import String ZArith Lia.
From stdpp Require Import base list option strings.
From S2P Require Import Prelude JsText.

Open Scope list_scope.
Open Scope Z_scope.

Module StdinBuffer.

Definition ESC : Z := 27.
Definition BRACKETED_PASTE_START : text := ESC :: literal "[200~".
Definition BRACKETED_PASTE_END : text := ESC :: literal "[201~".

(** ** Sequences *)

Inductive SequenceStatus : Type := seq_complete | seq_incomplete | not_escape.

Definition is_digit (u : Z) : bool := (48 <=? u) && (u <=? 57).
Definition digits (t : text) : bool := forallb is_digit t.
Definition some_digits (t : text) : bool := negb (text_eqb t []) && digits t.

(** Behind a run of digits, if there is one. *)
Fixpoint skip_digits (t : text) : text :=
  match t with
  | u :: rest => if is_digit u then skip_digits rest else t
  | [] => []
  end.

Definition eat_digits (t : text) : option text :=
  match t with
  | u :: rest => if is_digit u then Some (skip_digits rest) else None
  | [] => None
  end.

Definition eat_unit (unit : Z) (t : text) : option text :=
  match t with
  | u :: rest => if u =? unit then Some rest else None
  | [] => None
  end.

Definition is_mouse_end (u : Z) : bool := (u =? 77) || (u =? 109).

(** Digits, semicolon, digits, semicolon, digits and the letter M of either case, behind a less-than sign. *)
Definition mouse_match (payload : text) : bool :=
  match (t ← eat_unit 60 payload; t ← eat_digits t; t ← eat_unit 59 t; t ← eat_digits t; t ← eat_unit 59 t; eat_digits t) with
  | Some [u] => is_mouse_end u
  | _ => false
  end.

(** [slice(1, -1)] *)
Definition inside (t : text) : text := take (length t - 2) (drop 1 t).

Definition isCompleteCsiSequence (data : text) : SequenceStatus :=
  if negb (text_prefix [ESC; 91] data) then seq_complete
  else if (length data <? 3)%nat then seq_incomplete
  else
    let payload := drop 2 data in
    let lastChar := default 0 (last payload) in
    if (64 <=? lastChar) && (lastChar <=? 126) then
      if text_prefix [60] payload then
        if mouse_match payload then seq_complete
        else if is_mouse_end lastChar then
          let parts := text_split [59] (inside payload) in
          if (length parts =? 3)%nat && forallb some_digits parts then seq_complete else seq_incomplete
        else seq_incomplete
      else seq_complete
    else seq_incomplete.

Definition string_terminator : text := [ESC; 92].

Definition isCompleteOscSequence (data : text) : SequenceStatus :=
  if negb (text_prefix [ESC; 93] data) then seq_complete
  else if text_ends_with string_terminator data || text_ends_with [7] data then seq_complete
  else seq_incomplete.

Definition isCompleteDcsSequence (data : text) : SequenceStatus :=
  if negb (text_prefix [ESC; 80] data) then seq_complete
  else if text_ends_with string_terminator data then seq_complete
  else seq_incomplete.

Definition isCompleteApcSequence (data : text) : SequenceStatus :=
  if negb (text_prefix [ESC; 95] data) then seq_complete
  else if text_ends_with string_terminator data then seq_complete
  else seq_incomplete.

Definition isCompleteSequence (data : text) : SequenceStatus :=
  if negb (text_prefix [ESC] data) then not_escape
  else if (length data =? 1)%nat then seq_incomplete
  else
    let afterEsc := drop 1 data in
    if text_prefix [91] afterEsc then
      if text_prefix [91; 77] afterEsc then if (6 <=? length data)%nat then seq_complete else seq_incomplete
      else isCompleteCsiSequence data
    else if text_prefix [93] afterEsc then isCompleteOscSequence data
    else if text_prefix [80] afterEsc then isCompleteDcsSequence data
    else if text_prefix [95] afterEsc then isCompleteApcSequence data
    else if text_prefix [79] afterEsc then if (2 <=? length afterEsc)%nat then seq_complete else seq_incomplete
    else seq_complete.

(** The number that a run of digits writes. *)
Definition digits_value (t : text) : Z := fold_left (fun n u => 10 * n + (u - 48)) t 0.

(** [ESC [ code : shifted : base u] with the last two optional. *)
Definition kitty_parts (parts : list text) : bool :=
  match parts with
  | [a] => some_digits a
  | [a; b] => some_digits a && digits b
  | [a; b; c] => some_digits a && digits b && some_digits c
  | _ => false
  end.

Definition parseUnmodifiedKittyPrintableCodepoint (sequence : text) : option Z :=
  if text_prefix [ESC; 91] sequence && text_ends_with [117] sequence then
    let parts := text_split [58] (take (length sequence - 3) (drop 2 sequence)) in
    if kitty_parts parts then
      let codepoint := digits_value (default [] (head parts)) in
      if 32 <=? codepoint then Some codepoint else None
    else None
  else None.

(** The units that begin a sequence behind an escape. *)
Definition introduces (u : Z) : bool := existsb (Z.eqb u) [91; 93; 79; 80; 95].

(** Does [ESC ESC] end before the start of another sequence? *)
Definition restarts (candidate : text) (next : option Z) : bool :=
  text_eqb candidate [ESC; ESC] && match next with
                                   | Some u => introduces u
                                   | None => false
                                   end.

(** The length of the sequence at the start of [remaining]; candidates from [seqEnd] on are tried, [room] of them. *)
Fixpoint seek_end (room seqEnd : nat) (remaining : text) : option nat :=
  match room with
  | O => None
  | S room' =>
      let candidate := take seqEnd remaining in
      match isCompleteSequence candidate with
      | seq_complete => if restarts candidate (remaining !! seqEnd) then Some 1%nat else Some seqEnd
      | seq_incomplete => seek_end room' (S seqEnd) remaining
      | not_escape => Some seqEnd
      end
  end.

(** The sequences of a buffer and what remains of it. *)
Fixpoint extract_from (fuel : nat) (buffer : text) : list text * text :=
  match buffer, fuel with
  | [], _ => ([], [])
  | _, O => ([], buffer)
  | u :: rest, S fuel' =>
      if u =? ESC then
        match seek_end (length buffer) 1 buffer with
        | None => ([], buffer)
        | Some n => let (sequences, remainder) := extract_from fuel' (drop n buffer) in (take n buffer :: sequences, remainder)
        end
      else let (sequences, remainder) := extract_from fuel' rest in ([u] :: sequences, remainder)
  end.

Definition extractCompleteSequences (buffer : text) : list text * text := extract_from (length buffer) buffer.

(** ** The buffer *)

Inductive InputEvent : Type :=
| data_event (sequence : text)
| paste_event (content : text).

Record StdinBuffer : Type := {
  sb_buffer : text;
  sb_timeout : bool;
  sb_pasteMode : bool;
  sb_pasteBuffer : text;
  sb_pendingKitty : option Z;
}.

Definition new_StdinBuffer : StdinBuffer :=
  {| sb_buffer := []; sb_timeout := false; sb_pasteMode := false; sb_pasteBuffer := []; sb_pendingKitty := None |}.

(** A buffer that holds [buffer] outside of a paste. *)
Definition typing (buffer : text) (pending : option Z) : StdinBuffer :=
  {| sb_buffer := buffer; sb_timeout := negb (text_eqb buffer []); sb_pasteMode := false; sb_pasteBuffer := []; sb_pendingKitty := pending |}.

Definition pasting (content : text) (pending : option Z) : StdinBuffer :=
  {| sb_buffer := []; sb_timeout := false; sb_pasteMode := true; sb_pasteBuffer := content; sb_pendingKitty := pending |}.

(** The events of a sequence, and the code point that is pending after it. *)
Definition emitDataSequence (pending : option Z) (sequence : text) : list InputEvent * option Z :=
  match sequence with
  | [u] =>
      if bool_decide (pending = Some u) then ([], None)
      else ([data_event sequence], parseUnmodifiedKittyPrintableCodepoint sequence)
  | _ => ([data_event sequence], parseUnmodifiedKittyPrintableCodepoint sequence)
  end.

Fixpoint emit_all (pending : option Z) (sequences : list text) : list InputEvent * option Z :=
  match sequences with
  | [] => ([], pending)
  | sequence :: rest =>
      let (events, pending1) := emitDataSequence pending sequence in
      let (events', pending2) := emit_all pending1 rest in (events ++ events', pending2)
  end.

(** The rest of [process] once the buffer has been appended to: outside of a paste with [text_], inside with the content. *)
Fixpoint process_text (fuel : nat) (paste : bool) (t : text) (pending : option Z) : list InputEvent * StdinBuffer :=
  let finish (pasteBuffer : text) (pending : option Z) :=
    match indexOf BRACKETED_PASTE_END pasteBuffer with
    | Some endIndex =>
        let remaining := drop (endIndex + length BRACKETED_PASTE_END) pasteBuffer in
        let event := paste_event (take endIndex pasteBuffer) in
        match remaining, fuel with
        | [], _ => ([event], typing [] None)
        | _, S fuel' => let (events, s) := process_text fuel' false remaining None in (event :: events, s)
        | _, O => ([event], typing remaining None)
        end
    | None => ([], pasting pasteBuffer pending)
    end in
  if paste then finish t pending
  else
    match indexOf BRACKETED_PASTE_START t with
    | Some startIndex =>
        let (events, _) := emit_all pending (fst (extractCompleteSequences (take startIndex t))) in
        let (events', s) := finish (drop (startIndex + length BRACKETED_PASTE_START) t) None in (events ++ events', s)
    | None =>
        let (sequences, remainder) := extractCompleteSequences t in
        let (events, pending') := emit_all pending sequences in (events, typing remainder pending')
    end.

Inductive Chunk : Type :=
| chunk_text (t : text)
| chunk_bytes (bytes : list Z).

(** A single high byte stands for an escape and its low bits. *)
Definition chunk_str (c : Chunk) : text :=
  match c with
  | chunk_text t => t
  | chunk_bytes [b] => if 127 <? b then [ESC; b - 128] else bytes_text [b]
  | chunk_bytes bytes => bytes_text bytes
  end.

Definition process (s : StdinBuffer) (data : Chunk) : list InputEvent * StdinBuffer :=
  let str := chunk_str data in
  if text_eqb str [] && text_eqb (sb_buffer s) [] then
    let (events, pending) := emitDataSequence (sb_pendingKitty s) [] in
    (events, {| sb_buffer := []; sb_timeout := false; sb_pasteMode := sb_pasteMode s; sb_pasteBuffer := sb_pasteBuffer s;
                sb_pendingKitty := pending |})
  else
    let buffer := sb_buffer s ++ str in
    let t := if sb_pasteMode s then sb_pasteBuffer s ++ buffer else buffer in
    process_text (length t) (sb_pasteMode s) t (sb_pendingKitty s).

(** The sequences flushed, and the state after. *)
Definition flush (s : StdinBuffer) : list text * StdinBuffer :=
  match sb_buffer s with
  | [] =>
      ([], {| sb_buffer := []; sb_timeout := false; sb_pasteMode := sb_pasteMode s; sb_pasteBuffer := sb_pasteBuffer s;
              sb_pendingKitty := sb_pendingKitty s |})
  | buffer =>
      ([buffer], {| sb_buffer := []; sb_timeout := false; sb_pasteMode := sb_pasteMode s; sb_pasteBuffer := sb_pasteBuffer s;
                    sb_pendingKitty := None |})
  end.

(** The timer fires: what is buffered is emitted as it is. *)
Definition timer_fires (s : StdinBuffer) : list InputEvent * StdinBuffer :=
  if sb_timeout s then
    let (flushed, s') := flush s in
    let (events, pending) := emit_all (sb_pendingKitty s') flushed in
    (events, {| sb_buffer := sb_buffer s'; sb_timeout := sb_timeout s'; sb_pasteMode := sb_pasteMode s';
                sb_pasteBuffer := sb_pasteBuffer s'; sb_pendingKitty := pending |})
  else ([], s).

Definition clear (_ : StdinBuffer) : StdinBuffer := new_StdinBuffer.

Definition getBuffer (s : StdinBuffer) : text := sb_buffer s.

(** Chunks one after the other, before any timer. *)
Fixpoint process_all (s : StdinBuffer) (chunks : list Chunk) : list InputEvent * StdinBuffer :=
  match chunks with
  | [] => ([], s)
  | c :: rest =>
      let (events, s1) := process s c in
      let (events', s2) := process_all s1 rest in (events ++ events', s2)
  end.

(** ** Extraction *)

(** A sequence that begins with an escape: complete, and no part of it is; but for its start an escape in it only begins a
    string terminator. *)
Definition is_sequence (t : text) : bool :=
  text_prefix [ESC] t
  && match isCompleteSequence t with
     | seq_complete => true
     | _ => false
     end
  && forallb (fun k => match isCompleteSequence (take k t) with
                       | seq_incomplete => true
                       | _ => false
                       end) (seq 1 (length t - 1))
  && negb (text_eqb t [ESC; ESC])
  && forallb (fun i => bool_decide (t !! i <> Some ESC) || bool_decide (t !! S i = Some 92)) (seq 1 (length t - 1)).

(** What one key gives: a single unit, or a sequence that does not start a paste. *)
Definition is_key (t : text) : bool :=
  match t with
  | [u] => negb (u =? ESC)
  | _ => is_sequence t && negb (text_eqb t BRACKETED_PASTE_START)
  end.

Record sequence_laws (t : text) : Prop := {
  sl_escape : exists rest, t = ESC :: rest;
  sl_complete : isCompleteSequence t = seq_complete;
  sl_minimal : forall k, (1 <= k < length t)%nat -> isCompleteSequence (take k t) = seq_incomplete;
  sl_not_double : t <> [ESC; ESC];
  sl_inner : forall i, (1 <= i)%nat -> t !! i = Some ESC -> t !! S i = Some 92;
}.

Lemma sequence_iff (t : text) : is_sequence t = true -> sequence_laws t.
Proof.
  unfold is_sequence. intros H. rewrite !andb_true_iff in H. destruct H as [[[[H1 H2] H3] H4] H5].
  apply text_prefix_iff in H1 as [rest H1]. split.
  - by exists rest.
  - by destruct (isCompleteSequence t).
  - intros k Hk. rewrite forallb_forall in H3. specialize (H3 k). destruct (isCompleteSequence (take k t)); [|done|];
      (exfalso; enough (false = true) by done; apply H3, in_seq; lia).
  - intros ->. done.
  - intros i Hi Hl. rewrite forallb_forall in H5. apply lookup_lt_Some in Hl as Hlt.
    assert (Hin : In i (seq 1 (length t - 1))) by (apply in_seq; lia). specialize (H5 i Hin).
    apply orb_true_iff in H5 as [H5|H5]; apply bool_decide_eq_true in H5; congruence.
Qed.

Lemma start_sequence : is_sequence BRACKETED_PASTE_START = true.
Proof. reflexivity. Qed.

Lemma key_cases (t : text) :
  is_key t = true -> (exists u, t = [u] /\ u <> ESC) \/ (sequence_laws t /\ t <> BRACKETED_PASTE_START /\ (2 <= length t)%nat).
Proof.
  unfold is_key. destruct t as [|u [|v t]].
  - done.
  - intros Hu%negb_true_iff%Z.eqb_neq. left. by exists u.
  - intros [Hs Hn]%andb_true_iff. right. split_and!; [by apply sequence_iff| |cbn; lia]. intros He. by rewrite He in Hn.
Qed.

Lemma restarts_other (t : text) (next : option Z) : t <> [ESC; ESC] -> restarts t next = false.
Proof. intros H. unfold restarts, text_eqb. by rewrite bool_decide_eq_false_2. Qed.

Lemma seek_sequence (t rest : text) (k room : nat) :
  sequence_laws t -> (1 <= k <= length t)%nat -> (length t - k < room)%nat -> seek_end room k (t ++ rest) = Some (length t).
Proof.
  intros Ht. remember (length t - k)%nat as d eqn:Hd. revert k room Hd. induction d as [|d IH]; intros k room Hd Hk Hroom.
  - assert (k = length t) as -> by lia. destruct room as [|room]; [lia|]. cbn [seek_end]. rewrite take_app_length.
    rewrite (sl_complete t Ht), restarts_other by apply (sl_not_double t Ht). done.
  - destruct room as [|room]; [lia|]. cbn [seek_end]. rewrite take_app_le, (sl_minimal t Ht) by lia. apply IH; lia.
Qed.

Lemma seek_part (p q : text) (k room : nat) :
  sequence_laws (p ++ q) -> q <> [] -> (1 <= k)%nat -> (k + room <= S (length p))%nat -> seek_end room k p = None.
Proof.
  intros Ht Hq. revert k. induction room as [|room IH]; intros k Hk Hroom; [done|]. cbn [seek_end].
  rewrite <- (take_app_le p q k) by lia. rewrite (sl_minimal _ Ht); [apply IH; lia|].
  rewrite length_app. destruct q; [done|cbn; lia].
Qed.

(** The start of a sequence that is not there yet, or nothing. *)
Definition cut_sequence (p : text) : Prop := p = [] \/ exists q, q <> [] /\ p <> [] /\ sequence_laws (p ++ q).

Lemma cut_escape (p : text) : cut_sequence p -> p = [] \/ exists rest, p = ESC :: rest.
Proof.
  intros [|(q & Hq & Hp & Ht)]; [by left|right]. destruct (sl_escape _ Ht) as [rest Hr]. destruct p as [|u p]; [done|].
  injection Hr as -> _. by exists p.
Qed.

Lemma extract_keys (keys : list text) (p : text) (fuel : nat) :
  Forall (fun t => is_key t = true) keys -> cut_sequence p -> (length (concat keys ++ p) <= fuel)%nat ->
  extract_from fuel (concat keys ++ p) = (keys, p).
Proof.
  intros Hkeys Hp. revert fuel. induction Hkeys as [|t keys Ht _ IH]; intros fuel Hf; cbn [concat app] in *.
  - destruct (cut_escape p Hp) as [->|[rest ->]]; [by destruct fuel|]. destruct fuel as [|fuel]; [cbn in Hf; lia|].
    cbn [extract_from]. change (ESC =? ESC) with true. cbv iota.
    destruct Hp as [|(q & Hq & _ & Hs)]; [done|]. by rewrite (seek_part (ESC :: rest) q) by (done || cbn; lia).
  - rewrite <- app_assoc in *. destruct (key_cases t Ht) as [(u & -> & Hu)|(Hs & _ & Hl)].
    + destruct fuel as [|fuel]; [cbn in Hf; lia|]. cbn [app extract_from length] in *. rewrite (proj2 (Z.eqb_neq u ESC) Hu).
      by rewrite IH by lia.
    + destruct (sl_escape t Hs) as [rest Hr]. destruct fuel as [|fuel]; [rewrite Hr in Hf; cbn in Hf; lia|].
      assert (Hstep : extract_from (S fuel) (t ++ concat keys ++ p)
        = match seek_end (length (t ++ concat keys ++ p)) 1 (t ++ concat keys ++ p) with
          | None => ([], t ++ concat keys ++ p)
          | Some n => let (sequences, remainder) := extract_from fuel (drop n (t ++ concat keys ++ p)) in
                      (take n (t ++ concat keys ++ p) :: sequences, remainder)
          end) by (by rewrite Hr).
      rewrite Hstep, (seek_sequence t _ 1); [|done|lia|rewrite length_app; lia].
      rewrite drop_app_length, take_app_length, IH; [done|]. rewrite length_app in Hf. lia.
Qed.

(** ** Occurrences of the markers *)

Lemma indexOf_skip (needle a b : text) :
  (forall j, (j < length a)%nat -> text_prefix needle (drop j (a ++ b)) = false) ->
  indexOf needle (a ++ b) = Nat.add (length a) <$> indexOf needle b.
Proof.
  induction a as [|u a IH]; intros H; cbn [app length]; [by destruct (indexOf needle b)|]. cbn [indexOf].
  pose proof (H 0%nat ltac:(cbn; lia)) as H0. cbn [drop app] in H0. rewrite H0, IH.
  - by destruct (indexOf needle b).
  - intros j Hj. apply (H (S j)). cbn. lia.
Qed.

Lemma indexOf_start (needle b : text) : needle <> [] -> indexOf needle (needle ++ b) = Some 0%nat.
Proof.
  intros Hn. destruct needle as [|u needle]; [done|]. cbn [app indexOf].
  assert (text_prefix (u :: needle) (u :: needle ++ b) = true) as ->; [|done]. apply text_prefix_iff. by exists b.
Qed.

Lemma indexOf_hit (needle t : text) (i : nat) : indexOf needle t = Some i -> text_prefix needle (drop i t) = true.
Proof.
  revert i. induction t as [|u t IH]; intros i; cbn [indexOf].
  - destruct (text_prefix needle []) eqn:E; [|done]. intros [= <-]. done.
  - destruct (text_prefix needle (u :: t)) eqn:E; [by intros [= <-]|]. intros (j & Hj & ->)%fmap_Some. cbn [drop]. by apply IH.
Qed.

Lemma indexOf_least (needle t : text) (i : nat) :
  text_prefix needle (drop i t) = true -> (i <= length t)%nat -> exists j, indexOf needle t = Some j /\ (j <= i)%nat.
Proof.
  revert i. induction t as [|u t IH]; intros i H Hi; cbn [indexOf].
  - rewrite drop_nil in H. rewrite H. exists 0%nat. split; [done|lia].
  - destruct (text_prefix needle (u :: t)) eqn:E; [exists 0%nat; split; [done|lia]|]. destruct i as [|i]; [cbn [drop] in H; congruence|].
    destruct (IH i H) as (j & -> & Hj); [cbn in Hi; lia|]. exists (S j). split; [done|lia].
Qed.

Lemma start_prefix_length (t : text) : text_prefix BRACKETED_PASTE_START t = true -> (6 <= length t)%nat.
Proof. intros [rest ->]%text_prefix_iff. rewrite length_app. cbn. lia. Qed.

(** Where a start marker stands behind an escape within a sequence there is a string terminator. *)
Lemma no_start_inside (t rest : text) (j : nat) :
  sequence_laws t -> (1 <= j)%nat -> t !! j = Some ESC -> text_prefix BRACKETED_PASTE_START (drop j (t ++ rest)) = false.
Proof.
  intros Ht Hj Hl. apply not_true_iff_false. intros [rest' H]%text_prefix_iff.
  assert (H1 : drop j (t ++ rest) !! 1%nat = Some 91) by (by rewrite H). rewrite lookup_drop in H1.
  pose proof (sl_inner t Ht j Hj Hl) as H2. replace (j + 1)%nat with (S j) in H1 by lia.
  rewrite lookup_app_l in H1 by (by apply lookup_lt_Some in H2).
  pose proof (eq_trans (eq_sym H1) H2) as H3. discriminate H3.
Qed.

Lemma start_needs_escape (t : text) (j : nat) : text_prefix BRACKETED_PASTE_START (drop j t) = true -> t !! j = Some ESC.
Proof.
  intros [rest H]%text_prefix_iff. assert (H0 : drop j t !! 0%nat = Some ESC) by (by rewrite H). rewrite lookup_drop in H0.
  by rewrite Nat.add_0_r in H0.
Qed.

(** A sequence with a start marker at its head is the marker, and so is the one it is a part of. *)
Lemma start_at_head (t : text) : sequence_laws t -> text_prefix BRACKETED_PASTE_START t = true -> t = BRACKETED_PASTE_START.
Proof.
  intros Ht [rest H]%text_prefix_iff. destruct rest as [|u rest]; [by rewrite app_nil_r in H|exfalso].
  pose proof (sl_minimal t Ht 6) as Hm. rewrite H in Hm. rewrite length_app in Hm. cbn [length] in Hm. specialize (Hm ltac:(cbn; lia)).
  cbn [take app] in Hm. discriminate Hm.
Qed.

Lemma sequence_before_start (t rest : text) :
  sequence_laws t -> t <> BRACKETED_PASTE_START -> text_prefix BRACKETED_PASTE_START (t ++ rest) = false.
Proof.
  intros Ht Hn. apply not_true_iff_false. intros H. destruct (decide (6 <= length t)%nat) as [Hl|Hl].
  - apply Hn, start_at_head; [done|]. apply text_prefix_iff in H as [rest' H]. apply text_prefix_iff. exists (drop 6 t).
    rewrite <- (take_drop 6 t) at 1. f_equal. rewrite <- (take_app_le t rest 6) by done. by rewrite H.
  - apply text_prefix_iff in H as [rest' H].
    assert (Ht' : t = take (length t) BRACKETED_PASTE_START).
    { rewrite <- (take_app_length t rest) at 1. rewrite H. apply take_app_le. cbn. lia. }
    pose proof (sl_complete t Ht) as Hc. rewrite Ht' in Hc. destruct (sl_escape t Ht) as [r Hr].
    assert (Hlen : (1 <= length t)%nat) by (rewrite Hr; cbn; lia).
    destruct (length t) as [|[|[|[|[|[|n]]]]]]; try lia; discriminate Hc.
Qed.

Lemma no_start_in_key (t rest : text) (j : nat) :
  is_key t = true -> (j < length t)%nat -> text_prefix BRACKETED_PASTE_START (drop j (t ++ rest)) = false.
Proof.
  intros Ht Hj. destruct (key_cases t Ht) as [(u & -> & Hu)|(Hs & Hn & _)].
  - assert (j = 0%nat) as -> by (cbn in Hj; lia). apply not_true_iff_false. intros H%start_needs_escape.
    change (Some u = Some ESC) in H. congruence.
  - destruct j as [|j]; [by apply sequence_before_start|]. apply not_true_iff_false. intros H. pose proof (start_needs_escape _ _ H) as He.
    assert (Hl : t !! S j = Some ESC) by exact (eq_trans (eq_sym (lookup_app_l t rest (S j) Hj)) He).
    rewrite (no_start_inside t rest (S j) Hs ltac:(lia) Hl) in H. done.
Qed.

Lemma no_start_in_keys (keys : list text) (rest : text) :
  Forall (fun t => is_key t = true) keys ->
  indexOf BRACKETED_PASTE_START (concat keys ++ rest) = Nat.add (length (concat keys)) <$> indexOf BRACKETED_PASTE_START rest.
Proof.
  induction 1 as [|t keys Ht _ IH]; cbn [concat app]; [by destruct (indexOf _ rest)|].
  rewrite <- app_assoc, indexOf_skip by (intros j Hj; by apply no_start_in_key). rewrite IH, length_app.
  destruct (indexOf _ rest); [|done]. cbn. f_equal. lia.
Qed.

Lemma no_start_in_cut (p : text) : cut_sequence p -> indexOf BRACKETED_PASTE_START p = None.
Proof.
  intros [->|(q & Hq & Hp & Ht)]; [done|]. destruct (indexOf BRACKETED_PASTE_START p) as [j|] eqn:E; [exfalso|done].
  apply indexOf_hit in E. pose proof (start_needs_escape _ _ E) as He. destruct j as [|j].
  - rewrite drop_0 in E. assert (Hpq : text_prefix BRACKETED_PASTE_START (p ++ q) = true).
    { apply text_prefix_iff in E as [rest ->]. apply text_prefix_iff. exists (rest ++ q). by rewrite app_assoc. }
    pose proof (start_at_head _ Ht Hpq) as Heq. apply start_prefix_length in E. apply (f_equal length) in Heq. rewrite length_app in Heq.
    destruct q; [done|]. cbn in Heq. lia.
  - assert (Hl : (p ++ q) !! S j = Some ESC) by exact (eq_trans (lookup_app_l p q (S j) (lookup_lt_Some _ _ _ He)) He).
    pose proof (no_start_inside (p ++ q) [] (S j) Ht ltac:(lia) Hl) as Hno. rewrite app_nil_r, drop_app_le in Hno by (apply lookup_lt_Some in He; lia).
    apply text_prefix_iff in E as [rest E]. rewrite E, <- app_assoc in Hno. apply not_true_iff_false in Hno. apply Hno, text_prefix_iff. by eexists.
Qed.

Lemma text_prefix_shorten (p a b : text) : (length p <= length a)%nat -> text_prefix p (a ++ b) = true -> text_prefix p a = true.
Proof.
  intros Hl [rest H]%text_prefix_iff. apply text_prefix_iff. exists (drop (length p) a).
  rewrite <- (take_drop (length p) a) at 1. f_equal. rewrite <- (take_app_le a b (length p)) by done. rewrite H. apply take_app_length.
Qed.

Lemma text_prefix_extend (p a b : text) : text_prefix p a = true -> text_prefix p (a ++ b) = true.
Proof. intros [rest ->]%text_prefix_iff. apply text_prefix_iff. exists (rest ++ b). by rewrite app_assoc. Qed.

(** A pasted content the end marker ends. *)
Definition proper_paste (c : text) : bool :=
  match indexOf BRACKETED_PASTE_END (c ++ BRACKETED_PASTE_END) with
  | Some i => (i =? length c)%nat
  | None => false
  end.

Lemma proper_paste_iff (c : text) :
  proper_paste c = true -> indexOf BRACKETED_PASTE_END (c ++ BRACKETED_PASTE_END) = Some (length c).
Proof. unfold proper_paste. destruct (indexOf _ _); [|done]. by intros ->%Nat.eqb_eq. Qed.

Lemma end_found (c rest : text) :
  proper_paste c = true -> indexOf BRACKETED_PASTE_END (c ++ BRACKETED_PASTE_END ++ rest) = Some (length c).
Proof.
  intros Hc%proper_paste_iff. destruct (indexOf_least BRACKETED_PASTE_END (c ++ BRACKETED_PASTE_END ++ rest) (length c)) as (j & Hj & Hle).
  - rewrite drop_app_length. apply text_prefix_iff. by exists rest.
  - rewrite length_app. lia.
  - rewrite Hj. f_equal. destruct (decide (j = length c)) as [|Hn]; [done|exfalso]. apply indexOf_hit in Hj.
    rewrite app_assoc, drop_app_le in Hj by (rewrite length_app; cbn; lia).
    apply text_prefix_shorten in Hj; [|rewrite length_drop, length_app; cbn; lia].
    destruct (indexOf_least _ _ _ Hj) as (j' & Hj' & Hle'); [rewrite length_app; lia|]. rewrite Hc in Hj'. injection Hj' as <-. lia.
Qed.

Lemma end_absent (c c' q : text) :
  proper_paste c = true -> (c ++ BRACKETED_PASTE_END)%list = c' ++ q -> q <> [] -> indexOf BRACKETED_PASTE_END c' = None.
Proof.
  intros Hc%proper_paste_iff Heq Hq. destruct (indexOf BRACKETED_PASTE_END c') as [i|] eqn:E; [exfalso|done].
  pose proof (indexOf_Some _ _ _ E) as (_ & _ & Hi). cbn [length BRACKETED_PASTE_END literal] in Hi. apply indexOf_hit in E.
  assert (Hlen : (length c + 6 = length c' + length q)%nat) by (rewrite <- length_app, <- Heq, length_app; reflexivity).
  destruct (indexOf_least BRACKETED_PASTE_END (c' ++ q) i) as (j & Hj & Hle).
  - rewrite drop_app_le by lia. by apply text_prefix_extend.
  - rewrite length_app. lia.
  - rewrite <- Heq, Hc in Hj. injection Hj as <-. destruct q; [done|]. cbn in *. lia.
Qed.

(** ** Streams *)

(** What a terminal sends: the text of a key, or a paste. *)
Inductive Token : Type :=
| key_token (t : text)
| paste_token (content : text).

Definition wire (tk : Token) : text :=
  match tk with
  | key_token t => t
  | paste_token content => BRACKETED_PASTE_START ++ content ++ BRACKETED_PASTE_END
  end.

Definition proper (tk : Token) : bool :=
  match tk with
  | key_token t => is_key t
  | paste_token content => proper_paste content
  end.

Definition stream (tokens : list Token) : text := concat (map wire tokens).

(** The events the tokens are for, and the code point pending at the end. *)
Fixpoint events_of (pending : option Z) (tokens : list Token) : list InputEvent * option Z :=
  match tokens with
  | [] => ([], pending)
  | key_token t :: rest =>
      let (events, pending1) := emitDataSequence pending t in
      let (events', pending2) := events_of pending1 rest in (events ++ events', pending2)
  | paste_token content :: rest =>
      let (events, pending') := events_of None rest in (paste_event content :: events, pending')
  end.

Lemma events_app (pending : option Z) (a b : list Token) :
  events_of pending (a ++ b)
  = (fst (events_of pending a) ++ fst (events_of (snd (events_of pending a)) b), snd (events_of (snd (events_of pending a)) b)).
Proof.
  revert pending. induction a as [|tk a IH]; intros pending; cbn [app events_of fst snd]; [by destruct (events_of pending b)|].
  destruct tk as [t|content].
  - destruct (emitDataSequence pending t) as [events pending1]. rewrite IH. destruct (events_of pending1 a) as [events' pending2]. cbn [fst snd].
    by rewrite app_assoc.
  - rewrite IH. by destruct (events_of None a).
Qed.

Lemma events_keys (pending : option Z) (keys : list text) : events_of pending (map key_token keys) = emit_all pending keys.
Proof.
  revert pending. induction keys as [|t keys IH]; intros pending; cbn [map events_of emit_all]; [done|].
  destruct (emitDataSequence pending t). by rewrite IH.
Qed.

Lemma proper_nonempty (tk : Token) : proper tk = true -> wire tk <> [].
Proof. by destruct tk as [[]|]. Qed.

(** What is held back of a token that is not there yet. *)
Definition held (p : text) (tokens : list Token) : Prop :=
  p = [] \/ exists tk more q, tokens = tk :: more /\ wire tk = p ++ q /\ q <> [] /\ p <> [].

(** The state of a buffer that holds [p] back. *)
Definition carry (p : text) (pending : option Z) : StdinBuffer :=
  if text_prefix BRACKETED_PASTE_START p then pasting (drop (length BRACKETED_PASTE_START) p) None else typing p pending.

(** Any start of a stream is some of its tokens and a part of the next. *)
Lemma stream_split (tokens : list Token) (x y : text) :
  stream tokens = x ++ y -> exists done rest p, tokens = done ++ rest /\ x = stream done ++ p /\ held p rest.
Proof.
  unfold stream. revert x. induction tokens as [|tk tokens IH]; intros x; cbn [map concat].
  - intros [-> _]%eq_sym%app_eq_nil. exists [], [], []. split_and!; [done|done|by left].
  - intros H. apply app_eq_inv in H as [(k & Hx & Hy)|(k & Hx & Hy)].
    + destruct k as [|u k].
      * exists [tk], tokens, []. rewrite app_nil_r in Hx. subst x. split_and!; [done|cbn; by rewrite !app_nil_r|by left].
      * destruct x as [|v x]; [exists [], (tk :: tokens), []; split_and!; [done|done|by left]|].
        exists [], (tk :: tokens), (v :: x). split_and!; [done|done|]. right. by exists tk, tokens, (u :: k).
    + destruct (IH _ Hy) as (done & rest & p & -> & -> & Hp). exists (tk :: done), rest, p. subst x.
      split_and!; [done|cbn; by rewrite app_assoc|done].
Qed.

(** A paste whose end is not there yet. *)
Definition cut_paste (p : text) : Prop :=
  exists c c' q, p = BRACKETED_PASTE_START ++ c' /\ (c ++ BRACKETED_PASTE_END)%list = c' ++ q /\ q <> [] /\ proper_paste c = true.

Lemma held_cases (p : text) (tokens : list Token) :
  held p tokens -> Forall (fun tk => proper tk = true) tokens -> cut_sequence p \/ cut_paste p.
Proof.
  intros [->|(tk & more & q & -> & Hw & Hq & Hp)] Hpr; [left; by left|]. apply Forall_inv in Hpr. destruct tk as [t|c]; cbn [wire proper] in *.
  - left. right. exists q. split_and!; [done..|]. rewrite <- Hw. destruct (key_cases t Hpr) as [(u & -> & _)|[Hs _]]; [|done].
    destruct p as [|v [|]]; [done| |done]. by destruct q.
  - apply app_eq_inv in Hw as [(k & Hs & Hk)|(k & Hs & Hk)].
    + destruct k as [|u k].
      * right. rewrite app_nil_r in Hs. exists c, [], q. subst p. split_and!; [by rewrite app_nil_r|by cbn in Hk |done|done].
      * left. right. exists (u :: k). split_and!; [done|done|]. rewrite <- Hs. apply sequence_iff, start_sequence.
    + right. by exists c, k, q.
Qed.

Lemma carry_cut (p : text) (pending : option Z) : cut_sequence p -> carry p pending = typing p pending.
Proof.
  intros Hp%no_start_in_cut. unfold carry. destruct (text_prefix BRACKETED_PASTE_START p) eqn:E; [|done].
  destruct (indexOf_least BRACKETED_PASTE_START p 0) as (j & Hj & _); [by rewrite drop_0|lia|congruence].
Qed.

Lemma carry_paste (c' : text) (pending : option Z) : carry (BRACKETED_PASTE_START ++ c') pending = pasting c' None.
Proof. reflexivity. Qed.

(** Processing within a paste, and at the start of one. *)
Definition finish_paste (fuel : nat) (pasteBuffer : text) (pending : option Z) : list InputEvent * StdinBuffer :=
  process_text fuel true pasteBuffer pending.

Lemma finish_none (fuel : nat) (b : text) (pending : option Z) :
  indexOf BRACKETED_PASTE_END b = None -> finish_paste fuel b pending = ([], pasting b pending).
Proof. intros H. unfold finish_paste. destruct fuel; cbn [process_text]; by rewrite H. Qed.

Lemma finish_some (fuel : nat) (c rest : text) (pending : option Z) :
  proper_paste c = true -> (rest = [] \/ (0 < fuel)%nat) ->
  finish_paste fuel (c ++ BRACKETED_PASTE_END ++ rest) pending
  = match rest with
    | [] => ([paste_event c], typing [] None)
    | _ => let (events, s) := process_text (pred fuel) false rest None in (paste_event c :: events, s)
    end.
Proof.
  intros Hc Hf. unfold finish_paste.
  assert (Hd : drop (length c + length BRACKETED_PASTE_END) (c ++ BRACKETED_PASTE_END ++ rest) = rest).
  { rewrite app_assoc, <- length_app. apply drop_app_length. }
  destruct fuel as [|fuel]; cbn [process_text]; rewrite end_found, Hd, take_app_length by done; destruct rest; try done.
  destruct Hf; [done|lia].
Qed.

(** More fuel than the length of the text changes nothing. *)
Lemma process_text_fuel (fuel : nat) (paste : bool) (t : text) (pending : option Z) :
  (length t <= fuel)%nat -> process_text (S fuel) paste t pending = process_text fuel paste t pending.
Proof.
  revert paste t pending. induction fuel as [|fuel IH]; intros paste t pending Hl.
  { destruct t; [by destruct paste|cbn in Hl; lia]. }
  assert (forall c, (length c <= S fuel)%nat -> forall i, indexOf BRACKETED_PASTE_END c = Some i ->
    process_text (S fuel) false (drop (i + length BRACKETED_PASTE_END) c) None
    = process_text fuel false (drop (i + length BRACKETED_PASTE_END) c) None) as Hc.
  { intros c Hc i Hi. apply IH. rewrite length_drop. change (length BRACKETED_PASTE_END) with 6%nat. lia. }
  assert (length (drop 0 t) <= S fuel)%nat as Ht by done.
  cbn [process_text]. destruct paste.
  - destruct (indexOf BRACKETED_PASTE_END t) as [i|] eqn:Ei; [|done]. specialize (Hc t Hl i Ei). cbn [process_text] in Hc.
    destruct (drop _ t); [done|]. by rewrite Hc.
  - destruct (indexOf BRACKETED_PASTE_START t) as [j|]; [|done]. set (c := drop (j + _) t).
    assert (length c <= S fuel)%nat as Hl' by (unfold c; rewrite length_drop; lia).
    destruct (indexOf BRACKETED_PASTE_END c) as [i|] eqn:Ei; [|done]. specialize (Hc c Hl' i Ei). cbn [process_text] in Hc.
    destruct (drop _ c); [done|]. by rewrite Hc.
Qed.

Lemma process_at_start (fuel : nat) (keys : list text) (y : text) (pending : option Z) :
  Forall (fun t => is_key t = true) keys ->
  process_text fuel false (concat keys ++ BRACKETED_PASTE_START ++ y) pending
  = (fst (emit_all pending keys) ++ fst (finish_paste fuel y None), snd (finish_paste fuel y None)).
Proof.
  intros Hk.
  assert (Hi : indexOf BRACKETED_PASTE_START (concat keys ++ BRACKETED_PASTE_START ++ y) = Some (length (concat keys))).
  { rewrite no_start_in_keys, indexOf_start by done. cbn. by rewrite Nat.add_0_r. }
  assert (Hd : drop (length (concat keys) + length BRACKETED_PASTE_START) (concat keys ++ BRACKETED_PASTE_START ++ y) = y).
  { rewrite app_assoc, <- length_app. apply drop_app_length. }
  assert (He : fst (extractCompleteSequences (concat keys)) = keys).
  { unfold extractCompleteSequences. rewrite <- (app_nil_r (concat keys)) at 2. rewrite extract_keys; [done|done|by left|].
    rewrite app_nil_r. lia. }
  assert (Hstep : process_text fuel false (concat keys ++ BRACKETED_PASTE_START ++ y) pending
    = match indexOf BRACKETED_PASTE_START (concat keys ++ BRACKETED_PASTE_START ++ y) with
      | Some startIndex =>
          let t := concat keys ++ BRACKETED_PASTE_START ++ y in
          let (events, _) := emit_all pending (fst (extractCompleteSequences (take startIndex t))) in
          let (events', s) := finish_paste fuel (drop (startIndex + length BRACKETED_PASTE_START) t) None in (events ++ events', s)
      | None =>
          let (sequences, remainder) := extractCompleteSequences (concat keys ++ BRACKETED_PASTE_START ++ y) in
          let (events, pending') := emit_all pending sequences in (events, typing remainder pending')
      end) by (by destruct fuel).
  rewrite Hstep, Hi. cbv zeta. rewrite take_app_length, He, Hd. destruct (emit_all pending keys). by destruct (finish_paste fuel y None).
Qed.

Lemma process_typing (fuel : nat) (keys : list text) (p : text) (pending : option Z) :
  Forall (fun t => is_key t = true) keys -> cut_sequence p ->
  process_text fuel false (concat keys ++ p) pending = (fst (emit_all pending keys), typing p (snd (emit_all pending keys))).
Proof.
  intros Hk Hp.
  assert (Hi : indexOf BRACKETED_PASTE_START (concat keys ++ p) = None) by (by rewrite no_start_in_keys, no_start_in_cut).
  assert (He : extractCompleteSequences (concat keys ++ p) = (keys, p)) by (by apply extract_keys).
  destruct fuel; cbn [process_text]; rewrite Hi, He; by destruct (emit_all pending keys).
Qed.

Lemma span_keys (tokens : list Token) :
  Forall (fun tk => proper tk = true) tokens ->
  exists keys more, tokens = map key_token keys ++ more /\ Forall (fun t => is_key t = true) keys
    /\ (more = [] \/ exists c rest, more = paste_token c :: rest).
Proof.
  induction 1 as [|tk tokens Htk _ (keys & more & -> & Hk & Hm)]; [exists [], []; split_and!; [done|constructor|by left]|].
  destruct tk as [t|c].
  - exists (t :: keys), more. split_and!; [done|by constructor|done].
  - exists [], (paste_token c :: map key_token keys ++ more). split_and!; [done|constructor|right; by eexists _, _].
Qed.

Lemma stream_keys (keys : list text) (more : list Token) : stream (map key_token keys ++ more) = concat keys ++ stream more.
Proof. unfold stream. rewrite map_app, concat_app. f_equal. induction keys as [|t keys IH]; [done|]. cbn [map concat]. by rewrite IH. Qed.

Lemma process_stream (n : nat) (tokens : list Token) (p : text) (fuel : nat) (pending : option Z) :
  (length tokens <= n)%nat -> Forall (fun tk => proper tk = true) tokens -> cut_sequence p \/ cut_paste p ->
  (length (stream tokens ++ p) <= fuel + 6)%nat ->
  process_text fuel false (stream tokens ++ p) pending
  = (fst (events_of pending tokens), carry p (snd (events_of pending tokens))).
Proof.
  revert tokens fuel pending. induction n as [|n IH]; intros tokens fuel pending Hn Hpr Hp Hf;
    destruct (span_keys tokens Hpr) as (keys & more & -> & Hk & [->|(c & rest & ->)]).
  1, 3: rewrite stream_keys; cbn [stream map concat]; rewrite app_nil_r in *; rewrite events_app, events_keys; cbn [events_of fst snd];
    rewrite app_nil_r; destruct Hp as [Hp|(c & c' & q & -> & Hc & Hq & Hpc)];
      [by rewrite carry_cut, process_typing|rewrite process_at_start, finish_none, carry_paste by (done || by eapply end_absent); cbn;
       by rewrite app_nil_r].
  { rewrite length_app in Hn. cbn in Hn. lia. }
  rewrite stream_keys, <- app_assoc. change (stream (paste_token c :: rest)) with ((BRACKETED_PASTE_START ++ c ++ BRACKETED_PASTE_END) ++ stream rest).
  rewrite <- !app_assoc, process_at_start by done. rewrite length_app in Hn. cbn [length] in Hn.
  rewrite stream_keys in Hf. change (stream (paste_token c :: rest)) with ((BRACKETED_PASTE_START ++ c ++ BRACKETED_PASTE_END) ++ stream rest) in Hf.
  rewrite !length_app in Hf. cbn [length BRACKETED_PASTE_START BRACKETED_PASTE_END literal] in Hf.
  assert (Hrest : Forall (fun tk => proper tk = true) rest) by (apply Forall_app in Hpr as [_ Hpr]; by apply Forall_inv_tail in Hpr).
  assert (Hpc : proper_paste c = true) by (apply Forall_app in Hpr as [_ Hpr]; by apply Forall_inv in Hpr).
  rewrite events_app, events_keys. cbn [events_of]. destruct (events_of None rest) as [events pending'] eqn:Hev. cbn [fst snd].
  assert (Hfin : finish_paste fuel (c ++ BRACKETED_PASTE_END ++ stream rest ++ p) None = (paste_event c :: events, carry p pending')).
  { destruct (decide (stream rest ++ p = [])) as [Hz|Hz].
    - rewrite Hz, finish_some by (done || by left). apply app_eq_nil in Hz as [Hs ->]. rewrite carry_cut by (by left).
      destruct rest as [|tk rest]; [by injection Hev as <- <-|exfalso]. apply Forall_inv in Hrest. unfold stream in Hs. cbn [map concat] in Hs.
      apply app_eq_nil in Hs as [Hw _]. by apply (proper_nonempty tk).
    - assert (Hlen : (0 < length (stream rest ++ p))%nat) by (destruct (stream rest ++ p); [done|cbn; lia]). rewrite length_app in Hlen.
      rewrite finish_some by (done || (right; lia)). destruct (stream rest ++ p) as [|u z] eqn:Hsz; [done|]. rewrite <- Hsz.
      rewrite IH by (done || lia || (rewrite length_app; lia)). by rewrite Hev. }
  rewrite Hfin. done.
Qed.

Lemma process_carry (c : Chunk) (p p' : text) (pending : option Z) (done : list Token) :
  chunk_str c <> [] -> cut_sequence p \/ cut_paste p -> cut_sequence p' \/ cut_paste p' ->
  Forall (fun tk => proper tk = true) done -> p ++ chunk_str c = stream done ++ p' ->
  process (carry p pending) c = (fst (events_of pending done), carry p' (snd (events_of pending done))).
Proof.
  intros Hc Hp Hp' Hd Heq. unfold process. unfold text_eqb at 1. rewrite bool_decide_eq_false_2 by done. cbn [andb].
  destruct Hp as [Hp|(content & c' & q & -> & Hcc & Hq & Hpc)].
  - rewrite carry_cut by done. cbn [typing sb_buffer sb_pasteMode sb_pendingKitty]. rewrite Heq.
    eapply process_stream; [done..|]. lia.
  - rewrite carry_paste. cbn [pasting sb_buffer sb_pasteMode sb_pasteBuffer sb_pendingKitty app].
    rewrite <- app_assoc in Heq. change (process_text ?n true ?t None) with (finish_paste n t None).
    pose proof (process_at_start (length (c' ++ chunk_str c)) [] (c' ++ chunk_str c) pending (Forall_nil_2 _)) as Hs.
    cbn [concat app emit_all fst] in Hs. rewrite (surjective_pairing (finish_paste _ _ _)), <- Hs, Heq.
    eapply process_stream; [done..|]. rewrite <- Heq, length_app. cbn. lia.
Qed.

Lemma held_stream (p : text) (tokens : list Token) :
  Forall (fun tk => proper tk = true) tokens -> held p tokens -> p = stream tokens -> tokens = [] /\ p = [].
Proof.
  intros Hpr Hh Heq. destruct tokens as [|tk tokens]; [done|exfalso]. unfold stream in Heq. cbn [map concat] in Heq.
  pose proof (proper_nonempty tk (Forall_inv Hpr)) as Hw. destruct Hh as [->|(tk' & more & q & [= <- <-] & Hq & Hne & _)].
  - symmetry in Heq. by apply app_eq_nil in Heq as [? _].
  - rewrite Hq in Heq. apply (f_equal length) in Heq. rewrite !length_app in Heq. destruct q; [done|]. cbn in Heq. lia.
Qed.

Lemma process_chunks (chunks : list Chunk) (tokens : list Token) (p : text) (pending : option Z) :
  Forall (fun c => chunk_str c <> []) chunks -> Forall (fun tk => proper tk = true) tokens -> held p tokens ->
  p ++ concat (map chunk_str chunks) = stream tokens ->
  process_all (carry p pending) chunks = (fst (events_of pending tokens), typing [] (snd (events_of pending tokens))).
Proof.
  intros Hc. revert tokens p pending. induction Hc as [|c chunks Hc _ IH]; intros tokens p pending Hpr Hh Heq; cbn [process_all map concat] in *.
  - rewrite app_nil_r in Heq. destruct (held_stream p tokens Hpr Hh Heq) as [-> ->]. done.
  - rewrite app_assoc in Heq. destruct (stream_split tokens _ _ (eq_sym Heq)) as (done & rest & p' & -> & Hx & Hp').
    apply Forall_app in Hpr as [Hd Hr].
    assert (Hcarry : process (carry p pending) c = (fst (events_of pending done), carry p' (snd (events_of pending done)))).
    { apply process_carry; [done| | |done|done]; eapply held_cases; [exact Hh|by apply Forall_app|exact Hp'|done]. }
    rewrite Hcarry. rewrite (IH rest p' (snd (events_of pending done)) Hr Hp').
    + by rewrite events_app.
    + rewrite Hx in Heq. unfold stream in *. rewrite map_app, concat_app, <- app_assoc in Heq. by apply app_inv_head in Heq.
Qed.

(** ** Properties *)


(** Extraction loses and reorders nothing: the sequences and the remainder of a buffer are the buffer, no sequence is
    empty, and what remains is nothing or an escape sequence of which no part is complete. *)
Theorem extraction_conserves (buffer : text) :
  let (sequences, remainder) := extractCompleteSequences buffer in
  concat sequences ++ remainder = buffer /\ Forall (fun s => s <> []) sequences
  /\ (remainder = [] \/ (exists rest, remainder = ESC :: rest)
                        /\ forall k, (1 <= k <= length remainder)%nat -> isCompleteSequence (take k remainder) = seq_incomplete).
Proof.
  unfold extractCompleteSequences.
  assert (Hseek : forall t room k, seek_end room k t = None -> forall j, (k <= j < k + room)%nat -> isCompleteSequence (take j t) = seq_incomplete).
  { intros t room. induction room as [|room IH]; intros k H j Hj; [lia|]. cbn [seek_end] in H.
    destruct (isCompleteSequence (take k t)) eqn:E; [by destruct (restarts _ _)| |done]. destruct (decide (j = k)) as [->|]; [done|].
    apply (IH (S k)); [done|lia]. }
  assert (Hpos : forall t room k n, (1 <= k)%nat -> seek_end room k t = Some n -> (1 <= n)%nat).
  { intros t room. induction room as [|room IH]; intros k n Hk H; [done|]. cbn [seek_end] in H.
    destruct (isCompleteSequence (take k t)); [destruct (restarts _ _); injection H as <-; lia|by apply (IH (S k)) in H; [|lia]|by injection H as <-]. }
  generalize (le_n (length buffer)). generalize (length buffer) at 2 3 as fuel. intros fuel. revert buffer.
  induction fuel as [|fuel IH]; intros buffer Hf; destruct buffer as [|u rest]; cbn [extract_from].
  1, 3: by split_and!; [|constructor|left].
  { cbn in Hf. lia. }
  destruct (Z.eqb_spec u ESC) as [->|Hu].
  - destruct (seek_end (length (ESC :: rest)) 1 (ESC :: rest)) as [n|] eqn:E.
    + apply Hpos in E; [|lia]. specialize (IH (drop n (ESC :: rest))). destruct (extract_from fuel (drop n (ESC :: rest))) as [sequences remainder].
      destruct IH as (H1 & H2 & H3); [rewrite length_drop; cbn in *; lia|]. split_and!; [|constructor; [|done]|done].
      * cbn [concat]. by rewrite <- app_assoc, H1, take_drop.
      * destruct n; [lia|done].
    + split_and!; [done|constructor|right]. split; [by exists rest|]. intros k Hk. apply (Hseek _ _ _ E). cbn [length] in *. lia.
  - specialize (IH rest). destruct (extract_from fuel rest) as [sequences remainder]. cbn in Hf. destruct IH as (H1 & H2 & H3); [lia|].
    split_and!; [cbn; by rewrite H1|by constructor|done].
Qed.

(** ** Examples *)

Definition esc (t : string) : text := ESC :: literal t.

Example key_examples :
  map is_key [literal "a"; esc "[A"; esc "[<35;20;5m"; esc "OP"; esc "x"; esc "]0;t" ++ [7]; esc "_Gi=1" ++ esc "\"; esc "[M abc"]
  = [true; true; true; true; true; true; true; false]
  /\ is_key (esc "[M ab") = true /\ is_key [ESC] = false /\ is_key BRACKETED_PASTE_START = false.
Proof. vm_compute. done. Qed.

Definition feed (chunks : list text) : list InputEvent * StdinBuffer := process_all new_StdinBuffer (map chunk_text chunks).

Example process_examples :
  feed [[ESC]; literal "[<35"; literal ";20;5mx"] = ([data_event (esc "[<35;20;5m"); data_event (literal "x")], new_StdinBuffer)
  /\ feed [esc "[97u"; literal "a"; literal "a"] = ([data_event (esc "[97u"); data_event (literal "a")], new_StdinBuffer)
  /\ fst (feed [esc "[20"; literal "0~one" ++ [ESC]; literal "[201~!"]) = [paste_event (literal "one"); data_event (literal "!")]
  /\ fst (timer_fires (snd (feed [[ESC]]))) = [data_event [ESC]]
  /\ fst (process new_StdinBuffer (chunk_bytes [225])) = [data_event (esc "a")].
Proof. vm_compute. done. Qed.

Definition sample_tokens : list Token :=
  [key_token (esc "[A"); paste_token (esc "[200~ls" ++ [10]); key_token (esc "]0;t" ++ esc "\"); key_token (literal "q")].

Definition sample_chunks : list Chunk :=
  map chunk_text [[ESC]; literal "[A" ++ esc "[2"; literal "00~" ++ esc "[200~l"; literal "s" ++ [10] ++ esc "[201"; literal "~" ++ esc "]0;t" ++ [ESC];
                  literal "\q"].


(** ** What is lost *)

(** An escape that waits for its timer when a paste begins is dropped. *)
Lemma escape_before_paste_lost :
  feed [[ESC]; BRACKETED_PASTE_START ++ literal "x" ++ BRACKETED_PASTE_END] = ([paste_event (literal "x")], new_StdinBuffer).
Proof. vm_compute. reflexivity. Qed.

(** An escape and the sequence behind it are told apart only when they come in one chunk. *)
Lemma double_escape_cut :
  fst (feed [[ESC] ++ esc "[27u"]) = [data_event [ESC]; data_event (esc "[27u")]
  /\ fst (feed [[ESC; ESC]; literal "[27u"])
     = [data_event [ESC; ESC]; data_event (literal "["); data_event (literal "2"); data_event (literal "7"); data_event (literal "u")].
Proof. vm_compute. done. Qed.

(** A character outside the basic plane is emitted as two halves. *)
Lemma surrogates_parted : fst (feed [[55357; 56832]]) = [data_event [55357]; data_event [56832]].
Proof. vm_compute. reflexivity. Qed.
End StdinBuffer.
