(* ===== verification/RecoveryCheckpoint.v ===== *)
(** * Recovery checkpoints
    (packages/coding-agent/src/core/recovery-checkpoint.ts)

    A checkpoint records a session, the files a turn touched and an anchor in the
    ledger. The file validates an untrusted value as a checkpoint, compares the
    anchor with the ledger, judges whether the files of a work tree are as the
    checkpoint left them, and plans a restore. [isAbsolute] is that of the
    platform's path module, [dateMs] the language's [Date.parse]. *)

From Stdlib Require Import Ascii String ZArith QArith Lia.
From stdpp Require Import base list option strings.
From S2P Require Import Prelude JsString JsValue PathSegments Json JsNumber SessionShapes.

Open Scope string_scope.
Open Scope list_scope.

Module RecoveryCheckpoint.

Definition RECOVERY_CHECKPOINT_SCHEMA_VERSION : string := "omk.recovery.checkpoint.v1".

(** ** Data *)

Inductive RecoveryVcs : Type := vcs_git | vcs_none.
Inductive TouchedFileMode : Type := mode_tracked | mode_untracked | mode_deleted.

#[global] Instance vcs_eq_dec : EqDecision RecoveryVcs.
Proof. solve_decision. Defined.
#[global] Instance mode_eq_dec : EqDecision TouchedFileMode.
Proof. solve_decision. Defined.

Record RecoveryCheckpointSession : Type := {
  cs_sessionFile : option string;
  cs_leafId : option string;
  cs_branchPathIds : list string;
  cs_contextHash : string;
}.

Record RecoveryTouchedFile : Type := {
  tf_path : string;
  tf_beforeSha256 : option string;
  tf_afterSha256 : option string;
  tf_mode : TouchedFileMode;
}.

Record RecoveryCheckpointWorkspace : Type := {
  cw_repoRoot : string;
  cw_vcs : RecoveryVcs;
  cw_head : option string;
  cw_statusPorcelainSha256 : string;
  cw_touchedFiles : list RecoveryTouchedFile;
  cw_reversePatchArtifact : option string;
}.

(** The turn index is kept as the literal of the number. *)
Record RecoveryCheckpointTool : Type := {
  ct_turnIndex : string;
  ct_beforeToolCallId : option string;
  ct_afterToolCallId : option string;
  ct_mutatingTools : list string;
}.

Record RecoveryCheckpointLedger : Type := {
  cl_eventId : string;
  cl_previousEventHash : string;
  cl_eventHash : string;
}.

#[global] Instance ledger_eq_dec : EqDecision RecoveryCheckpointLedger.
Proof. solve_decision. Defined.

Record RecoveryCheckpoint : Type := {
  rc_checkpointId : string;
  rc_createdAt : string;
  rc_session : RecoveryCheckpointSession;
  rc_workspace : RecoveryCheckpointWorkspace;
  rc_tool : option RecoveryCheckpointTool;
  rc_ledger : RecoveryCheckpointLedger;
}.

Record RecoveryCheckpointValidation : Type := {
  cv_ok : bool;
  cv_errors : list string;
  cv_checkpoint : option json;
}.

(** ** Values *)

(** [/[0-9a-f]/i] *)
Definition is_hex_any (a : ascii) : bool := in_range 48 57 a || in_range 97 102 a || in_range 65 70 a.

(** [HEX64] *)
Definition HEX64 (s : string) : bool := (String.length s =? 64)%nat && sforall is_hex_any s.

Definition isHex64 (value : option json) : bool :=
  match value with
  | Some (JsStr s) => HEX64 s
  | _ => false
  end.

(** [Array.isArray(value) && value.every((v) => typeof v === "string")] *)
Definition strings_only (value : option json) : bool := is_array_of (fun v => is_string (Some v)) value.

(** The sign of a literal and its value without, as a quotient. *)
Definition quotient (literal : string) : bool * (Z * Z) :=
  let '(negative, unsigned) := match literal with
                               | String a s => if Ascii.eqb a "-" then (true, s) else (false, literal)
                               | EmptyString => (false, literal)
                               end in
  let (m, e) := unsigned_value unsigned in
  (negative, if (e <? 0)%Z then (m, 10 ^ (- e))%Z else (m * 10 ^ e, 1)%Z).

(** [typeof value === "number" && Number.isInteger(value) && value >= 0]: a finite double that is a safe integer or, from
    2^53 on, an integer because all are; 2^53 - 1/2 already rounds to 2^53. *)
Definition whole_non_negative (value : option json) : bool :=
  match value with
  | Some (JsNum literal) =>
      finite_non_negative literal
      && match safe_integer literal with
         | Some z => (0 <=? z)%Z
         | None =>
             let '(negative, (num, den)) := quotient literal in negb negative && ((2 ^ 54 - 1) * den <=? 2 * num)%Z
         end
  | _ => false
  end.

Section Validation.
Context (isAbsolute : string -> bool) (dateMs : string -> jsnum).

Definition iso_text (s : string) : bool :=
  negb (is_empty s) && match dateMs s with
                       | NumNaN => false
                       | _ => true
                       end.

Definition isIsoTimestamp (value : option json) : bool :=
  match value with
  | Some (JsStr s) => iso_text s
  | _ => false
  end.

Definition unsafe_text (path : string) : bool :=
  is_empty path || isAbsolute path || existsb (String.eqb "..") (split slash (normalizePathSlashes path)).

Definition isUnsafeTouchedPath (path : option json) : bool :=
  match path with
  | Some (JsStr s) => unsafe_text s
  | _ => true
  end.

Definition normalizeRelPath (path : string) : string :=
  let s := normalizePathSlashes path in if startsWith "./" s then slice 2 s else s.

(** [if (!b) errors.push(message)] *)
Definition require (b : bool) (message : string) : list string := if b then [] else [message].

Definition absent (value : option json) : bool :=
  match value with
  | None => true
  | Some _ => false
  end.

Definition mode_of (value : option json) : option TouchedFileMode :=
  match value with
  | Some (JsStr s) =>
      if String.eqb s "tracked" then Some mode_tracked
      else if String.eqb s "untracked" then Some mode_untracked
      else if String.eqb s "deleted" then Some mode_deleted else None
  | _ => None
  end.

Definition validateTouchedFile (value : json) (index : nat) : list string :=
  let label := ("workspace.touchedFiles[" ++ nat_str index ++ "]")%string in
  if negb (isRecord value) then [(label ++ " must be an object")%string]
  else
    require (negb (isUnsafeTouchedPath (jget "path" value)))
      (label ++ ".path must be a repo-relative path without '..' segments")
    ++ let before := jget "beforeSha256" value in
       let after := jget "afterSha256" value in
       match mode_of (jget "mode" value) with
       | None => [(label ++ ".mode must be one of tracked|untracked|deleted")%string]
       | Some mode =>
           require (absent_or isHex64 before) (label ++ ".beforeSha256 must be a 64-char hex digest when present")
           ++ require (absent_or isHex64 after) (label ++ ".afterSha256 must be a 64-char hex digest when present")
           ++ match mode with
              | mode_untracked =>
                  require (isHex64 after) (label ++ ".afterSha256 is required for untracked files")
                  ++ require (absent before) (label ++ ".beforeSha256 must be absent for untracked files")
              | mode_deleted =>
                  require (isHex64 before) (label ++ ".beforeSha256 is required for deleted files")
                  ++ require (absent after) (label ++ ".afterSha256 must be absent for deleted files")
              | mode_tracked => require (isHex64 after) (label ++ ".afterSha256 is required for tracked files")
              end
       end.

Definition null_or_string (value : option json) : bool :=
  match value with
  | Some JsNull => true
  | _ => is_string value
  end.

Definition validateSession (value : option json) : list string :=
  match value with
  | Some (JsObj _ as v) =>
      require (null_or_string (jget "leafId" v)) "session.leafId must be a string or null"
      ++ require (strings_only (jget "branchPathIds" v)) "session.branchPathIds must be an array of strings"
      ++ require (isHex64 (jget "contextHash" v)) "session.contextHash must be a 64-char hex digest"
      ++ require (absent_or is_string (jget "sessionFile" v)) "session.sessionFile must be a string when present"
  | _ => ["session must be an object"]
  end.

Definition vcs_of (value : option json) : option RecoveryVcs :=
  match value with
  | Some (JsStr s) => if String.eqb s "git" then Some vcs_git else if String.eqb s "none" then Some vcs_none else None
  | _ => None
  end.

Fixpoint validate_files (index : nat) (files : list json) : list string :=
  match files with
  | [] => []
  | entry :: rest => validateTouchedFile entry index ++ validate_files (S index) rest
  end.

Definition validateWorkspace (value : option json) : list string :=
  match value with
  | Some (JsObj _ as v) =>
      require (nonEmptyString (jget "repoRoot" v)) "workspace.repoRoot must be a non-empty string"
      ++ require (match vcs_of (jget "vcs" v) with Some _ => true | None => false end) "workspace.vcs must be one of git|none"
      ++ require (absent_or is_string (jget "head" v)) "workspace.head must be a string when present"
      ++ require (isHex64 (jget "statusPorcelainSha256" v)) "workspace.statusPorcelainSha256 must be a 64-char hex digest"
      ++ require (absent_or is_string (jget "reversePatchArtifact" v))
           "workspace.reversePatchArtifact must be a string when present"
      ++ match jget "touchedFiles" v with
         | Some (JsArr files) => validate_files 0 files
         | _ => ["workspace.touchedFiles must be an array"]
         end
  | _ => ["workspace must be an object"]
  end.

Definition validateTool (value : option json) : list string :=
  match value with
  | None => []
  | Some (JsObj _ as v) =>
      require (whole_non_negative (jget "turnIndex" v)) "tool.turnIndex must be a non-negative integer"
      ++ require (strings_only (jget "mutatingTools" v)) "tool.mutatingTools must be an array of strings"
      ++ require (absent_or is_string (jget "beforeToolCallId" v)) "tool.beforeToolCallId must be a string when present"
      ++ require (absent_or is_string (jget "afterToolCallId" v)) "tool.afterToolCallId must be a string when present"
  | Some _ => ["tool must be an object when present"]
  end.

Definition validateLedger (value : option json) : list string :=
  match value with
  | Some (JsObj _ as v) =>
      require (nonEmptyString (jget "eventId" v)) "ledger.eventId must be a non-empty string"
      ++ require (isHex64 (jget "previousEventHash" v)) "ledger.previousEventHash must be a 64-char hex digest"
      ++ require (isHex64 (jget "eventHash" v)) "ledger.eventHash must be a 64-char hex digest"
  | _ => ["ledger must be an object"]
  end.

Definition checkpoint_errors (value : json) : list string :=
  require (is_text RECOVERY_CHECKPOINT_SCHEMA_VERSION (jget "schemaVersion" value))
    ("schemaVersion must be " ++ RECOVERY_CHECKPOINT_SCHEMA_VERSION)
  ++ require (nonEmptyString (jget "checkpointId" value)) "checkpointId must be a non-empty string"
  ++ require (isIsoTimestamp (jget "createdAt" value)) "createdAt must be an ISO-8601 timestamp"
  ++ validateSession (jget "session" value)
  ++ validateWorkspace (jget "workspace" value)
  ++ validateTool (jget "tool" value)
  ++ validateLedger (jget "ledger" value).

Definition validateRecoveryCheckpoint (value : json) : RecoveryCheckpointValidation :=
  if negb (isRecord value) then {| cv_ok := false; cv_errors := ["checkpoint must be an object"]; cv_checkpoint := None |}
  else
    match checkpoint_errors value with
    | [] => {| cv_ok := true; cv_errors := []; cv_checkpoint := Some value |}
    | errors => {| cv_ok := false; cv_errors := errors; cv_checkpoint := None |}
    end.
End Validation.

(** ** The anchor *)

Record LedgerAnchorVerification : Type := {
  lv_ok : bool;
  lv_mismatches : list string;
}.

Definition verifyCheckpointLedgerAnchor (checkpoint : RecoveryCheckpoint) (observed : RecoveryCheckpointLedger) :
    LedgerAnchorVerification :=
  let ledger := rc_ledger checkpoint in
  let mismatches :=
    require (String.eqb (cl_eventId ledger) (cl_eventId observed))
      ("eventId mismatch: checkpoint=" ++ cl_eventId ledger ++ " ledger=" ++ cl_eventId observed)
    ++ require (String.eqb (cl_previousEventHash ledger) (cl_previousEventHash observed))
         "previousEventHash mismatch between checkpoint and ledger"
    ++ require (String.eqb (cl_eventHash ledger) (cl_eventHash observed)) "eventHash mismatch between checkpoint and ledger" in
  {| lv_ok := (length mismatches =? 0)%nat; lv_mismatches := mismatches |}.

(** ** The preflight *)

Record ObservedTouchedFile : Type := {
  of_path : string;
  of_exists : bool;
  of_sha256 : option string;
  of_isSymlink : option bool;
  of_escapesRepo : option bool;
}.

Record ObservedWorktree : Type := {
  ow_head : option string;
  ow_statusPorcelainSha256 : option string;
  ow_dirtyPaths : list string;
  ow_touchedFiles : list ObservedTouchedFile;
}.

Inductive RestorePreflightVerdict : Type := preflight_clean | preflight_blocked.

Inductive RestorePreflightIssueCode : Type :=
  | unrelated_dirty_path
  | touched_hash_mismatch
  | missing_touched_file
  | symlink_escape
  | head_mismatch.

Record RestorePreflightIssue : Type := {
  pi_code : RestorePreflightIssueCode;
  pi_path : option string;
  pi_detail : string;
}.

Record RestorePreflightResult : Type := {
  pr_verdict : RestorePreflightVerdict;
  pr_issues : list RestorePreflightIssue;
  pr_unrelatedDirtyPaths : list string;
  pr_hashMismatches : list string;
  pr_symlinkEscapes : list string;
  pr_headChanged : bool;
}.

(** The arrays the classification pushes to. *)
Record Classified : Type := {
  cf_issues : list RestorePreflightIssue;
  cf_unrelatedDirtyPaths : list string;
  cf_hashMismatches : list string;
  cf_symlinkEscapes : list string;
}.

Definition push_issue (code_ : RestorePreflightIssueCode) (path : option string) (detail : string) (s : Classified) : Classified :=
  {| cf_issues := cf_issues s ++ [{| pi_code := code_; pi_path := path; pi_detail := detail |}];
     cf_unrelatedDirtyPaths := cf_unrelatedDirtyPaths s; cf_hashMismatches := cf_hashMismatches s;
     cf_symlinkEscapes := cf_symlinkEscapes s |}.

Definition push_unrelated (path : string) (s : Classified) : Classified :=
  {| cf_issues := cf_issues s; cf_unrelatedDirtyPaths := cf_unrelatedDirtyPaths s ++ [path];
     cf_hashMismatches := cf_hashMismatches s; cf_symlinkEscapes := cf_symlinkEscapes s |}.

Definition push_mismatch (path : string) (s : Classified) : Classified :=
  {| cf_issues := cf_issues s; cf_unrelatedDirtyPaths := cf_unrelatedDirtyPaths s;
     cf_hashMismatches := cf_hashMismatches s ++ [path]; cf_symlinkEscapes := cf_symlinkEscapes s |}.

Definition push_escape (path : string) (s : Classified) : Classified :=
  {| cf_issues := cf_issues s; cf_unrelatedDirtyPaths := cf_unrelatedDirtyPaths s;
     cf_hashMismatches := cf_hashMismatches s; cf_symlinkEscapes := cf_symlinkEscapes s ++ [path] |}.

(** A map by normalized path; a later file takes the place of an earlier one. *)
Definition by_path {A} (path : A -> string) (files : list A) : list (string * A) :=
  foldl (fun m file => map_set (normalizeRelPath (path file)) file m) [] files.

Definition check_dirty (touchedByPath : list (string * RecoveryTouchedFile)) (s : Classified) (dirty : string) : Classified :=
  if map_has (normalizeRelPath dirty) touchedByPath then s
  else
    push_issue unrelated_dirty_path (Some dirty) "dirty path is outside the checkpoint's recorded touched files"
      (push_unrelated dirty s).

Definition escapes (current : ObservedTouchedFile) : bool :=
  bool_decide (of_escapesRepo current = Some true)
  || (bool_decide (of_isSymlink current = Some true) && negb (bool_decide (of_escapesRepo current = Some false))).

Definition check_touched (observedByPath : list (string * ObservedTouchedFile)) (s : Classified)
    (expected : RecoveryTouchedFile) : Classified :=
  let path := tf_path expected in
  match map_get (normalizeRelPath path) observedByPath with
  | None =>
      push_issue missing_touched_file (Some path) "no observed state was provided for a recorded touched file" s
  | Some current =>
      if escapes current then
        push_issue symlink_escape (Some path) "touched path is a symlink resolving outside the repo root" (push_escape path s)
      else if bool_decide (tf_mode expected = mode_deleted) then
        if of_exists current then
          push_issue touched_hash_mismatch (Some path) "expected a deleted file to be absent but it is present"
            (push_mismatch path s)
        else s
      else if negb (of_exists current) then
        push_issue missing_touched_file (Some path) "recorded touched file is missing from the worktree" s
      else if bool_decide (of_sha256 current = tf_afterSha256 expected) then s
      else
        push_issue touched_hash_mismatch (Some path) "current file hash differs from the recorded post-edit hash"
          (push_mismatch path s)
  end.

Definition head_changed (workspace : RecoveryCheckpointWorkspace) (observed : ObservedWorktree) : bool :=
  bool_decide (cw_vcs workspace = vcs_git)
  && match cw_head workspace, ow_head observed with
     | Some before, Some now => negb (String.eqb before now)
     | _, _ => false
     end.

Definition classifyRestorePreflight (checkpoint : RecoveryCheckpoint) (observed : ObservedWorktree)
    (allowNonHeadRestore : option bool) : RestorePreflightResult :=
  let workspace := rc_workspace checkpoint in
  let touchedByPath := by_path tf_path (cw_touchedFiles workspace) in
  let s0 := {| cf_issues := []; cf_unrelatedDirtyPaths := []; cf_hashMismatches := []; cf_symlinkEscapes := [] |} in
  let s1 := foldl (check_dirty touchedByPath) s0 (ow_dirtyPaths observed) in
  let observedByPath := by_path of_path (ow_touchedFiles observed) in
  let s2 := foldl (check_touched observedByPath) s1 (cw_touchedFiles workspace) in
  let headChanged := head_changed workspace observed in
  let s3 :=
    if headChanged && negb (bool_decide (allowNonHeadRestore = Some true)) then
      push_issue head_mismatch None "HEAD moved since the checkpoint; pass allowNonHeadRestore to override" s2
    else s2 in
  {| pr_verdict := if (length (cf_issues s3) =? 0)%nat then preflight_clean else preflight_blocked;
     pr_issues := cf_issues s3; pr_unrelatedDirtyPaths := cf_unrelatedDirtyPaths s3;
     pr_hashMismatches := cf_hashMismatches s3; pr_symlinkEscapes := cf_symlinkEscapes s3; pr_headChanged := headChanged |}.

(** ** Untracked files *)

Inductive UntrackedDisposition : Type := dispose_delete | dispose_quarantine | dispose_skip.

Record UntrackedDispositionDecision : Type := {
  ud_disposition : UntrackedDisposition;
  ud_reason : string;
}.

Record ObservedUntrackedFile : Type := {
  ou_exists : bool;
  ou_sha256 : option string;
}.

Definition decideUntrackedDisposition (touched : RecoveryTouchedFile) (observed : ObservedUntrackedFile) :
    UntrackedDispositionDecision :=
  if negb (bool_decide (tf_mode touched = mode_untracked)) then
    {| ud_disposition := dispose_skip; ud_reason := "disposition only applies to untracked files" |}
  else if negb (ou_exists observed) then
    {| ud_disposition := dispose_skip; ud_reason := "untracked file is already absent" |}
  else if match tf_afterSha256 touched with
          | Some after => HEX64 after && bool_decide (ou_sha256 observed = Some after)
          | None => false
          end then
    {| ud_disposition := dispose_delete; ud_reason := "current hash matches the OMK-created hash" |}
  else {| ud_disposition := dispose_quarantine; ud_reason := "current hash differs from the OMK-created hash" |}.

(** ** Plans *)

Inductive RestoreMode : Type := restore_conversation | restore_code | restore_both.
Inductive RestoreStatus : Type := restore_ready | restore_blocked.

Inductive RestorePlanPhase : Type :=
  | navigate_tree (targetLeafId : option string)
  | apply_reverse_patch (recordedPaths : list string).

(** [rp_preservePreviousLeafId] is [None] where the field is absent; the policy of doubt is present exactly with it. *)
Record RestorePlan : Type := {
  rp_mode : RestoreMode;
  rp_status : RestoreStatus;
  rp_phases : list RestorePlanPhase;
  rp_blockers : list string;
  rp_preservePreviousLeafId : option (option string);
  rp_inDoubtPolicy : option string;
}.

Record PlanRestoreInput : Type := {
  ri_mode : RestoreMode;
  ri_checkpoint : RecoveryCheckpoint;
  ri_preflight : option RestorePreflightResult;
  ri_currentLeafId : option string;
}.

Definition codePhase (checkpoint : RecoveryCheckpoint) : RestorePlanPhase :=
  apply_reverse_patch (map tf_path (cw_touchedFiles (rc_workspace checkpoint))).

Definition conversationPhase (checkpoint : RecoveryCheckpoint) : RestorePlanPhase :=
  navigate_tree (cs_leafId (rc_session checkpoint)).

Definition issue_code_str (code_ : RestorePreflightIssueCode) : string :=
  match code_ with
  | unrelated_dirty_path => "unrelated-dirty-path"
  | touched_hash_mismatch => "touched-hash-mismatch"
  | missing_touched_file => "missing-touched-file"
  | symlink_escape => "symlink-escape"
  | head_mismatch => "head-mismatch"
  end.

Definition issue_text (issue : RestorePreflightIssue) : string :=
  match pi_path issue with
  | Some path => if is_empty path then issue_code_str (pi_code issue) else issue_code_str (pi_code issue) ++ ": " ++ path
  | None => issue_code_str (pi_code issue)
  end%string.

Definition collectPreflightBlockers (preflight : option RestorePreflightResult) : list string :=
  match preflight with
  | None => ["code restore requires a preflight classification"]
  | Some result =>
      match pr_verdict result with
      | preflight_clean => []
      | preflight_blocked => map issue_text (pr_issues result)
      end
  end.

Definition planRestore (input : PlanRestoreInput) : RestorePlan :=
  let checkpoint := ri_checkpoint input in
  let plan status phases blockers preserve policy :=
    {| rp_mode := ri_mode input; rp_status := status; rp_phases := phases; rp_blockers := blockers;
       rp_preservePreviousLeafId := preserve; rp_inDoubtPolicy := policy |} in
  match ri_mode input with
  | restore_conversation => plan restore_ready [conversationPhase checkpoint] [] None None
  | restore_code =>
      match collectPreflightBlockers (ri_preflight input) with
      | [] => plan restore_ready [codePhase checkpoint] [] None None
      | blockers => plan restore_blocked [] blockers None None
      end
  | restore_both =>
      let preservePreviousLeafId := ri_currentLeafId input in
      match collectPreflightBlockers (ri_preflight input) with
      | [] =>
          plan restore_ready [codePhase checkpoint; conversationPhase checkpoint] [] (Some preservePreviousLeafId)
            (Some "preserve-previous-leaf")
      | blockers =>
          plan restore_blocked [] blockers (Some preservePreviousLeafId) (Some "preserve-previous-leaf")
      end
  end.

(** ** Values as typed checkpoints

    The reading of a value by the interfaces: the fields with their types, and
    nothing about their contents. *)

Definition string_value (value : option json) : option string :=
  match value with
  | Some (JsStr s) => Some s
  | _ => None
  end.

Definition optional_string (value : option json) : option (option string) :=
  match value with
  | None => Some None
  | Some (JsStr s) => Some (Some s)
  | Some _ => None
  end.

Definition nullable_string (value : option json) : option (option string) :=
  match value with
  | Some JsNull => Some None
  | Some (JsStr s) => Some (Some s)
  | _ => None
  end.

Definition array_of {A} (read : json -> option A) (value : option json) : option (list A) :=
  match value with
  | Some (JsArr items) => mapM read items
  | _ => None
  end.

Definition string_array (value : option json) : option (list string) := array_of (fun v => string_value (Some v)) value.

Definition read_session (value : option json) : option RecoveryCheckpointSession :=
  match value with
  | Some (JsObj _ as v) =>
      file ← optional_string (jget "sessionFile" v); leaf ← nullable_string (jget "leafId" v);
      ids ← string_array (jget "branchPathIds" v); hash ← string_value (jget "contextHash" v);
      Some {| cs_sessionFile := file; cs_leafId := leaf; cs_branchPathIds := ids; cs_contextHash := hash |}
  | _ => None
  end.

Definition read_file (v : json) : option RecoveryTouchedFile :=
  path ← string_value (jget "path" v); before ← optional_string (jget "beforeSha256" v);
  after ← optional_string (jget "afterSha256" v); mode ← mode_of (jget "mode" v);
  Some {| tf_path := path; tf_beforeSha256 := before; tf_afterSha256 := after; tf_mode := mode |}.

Definition read_workspace (value : option json) : option RecoveryCheckpointWorkspace :=
  match value with
  | Some (JsObj _ as v) =>
      root ← string_value (jget "repoRoot" v); vcs ← vcs_of (jget "vcs" v); head ← optional_string (jget "head" v);
      status ← string_value (jget "statusPorcelainSha256" v); files ← array_of read_file (jget "touchedFiles" v);
      patch ← optional_string (jget "reversePatchArtifact" v);
      Some {| cw_repoRoot := root; cw_vcs := vcs; cw_head := head; cw_statusPorcelainSha256 := status;
              cw_touchedFiles := files; cw_reversePatchArtifact := patch |}
  | _ => None
  end.

Definition number_literal (value : option json) : option string :=
  match value with
  | Some (JsNum literal) => Some literal
  | _ => None
  end.

Definition read_tool (value : option json) : option (option RecoveryCheckpointTool) :=
  match value with
  | None => Some None
  | Some (JsObj _ as v) =>
      turn ← number_literal (jget "turnIndex" v); before ← optional_string (jget "beforeToolCallId" v);
      after ← optional_string (jget "afterToolCallId" v); tools ← string_array (jget "mutatingTools" v);
      Some (Some {| ct_turnIndex := turn; ct_beforeToolCallId := before; ct_afterToolCallId := after;
                    ct_mutatingTools := tools |})
  | Some _ => None
  end.

Definition read_ledger (value : option json) : option RecoveryCheckpointLedger :=
  match value with
  | Some (JsObj _ as v) =>
      id ← string_value (jget "eventId" v); previous ← string_value (jget "previousEventHash" v);
      hash ← string_value (jget "eventHash" v);
      Some {| cl_eventId := id; cl_previousEventHash := previous; cl_eventHash := hash |}
  | _ => None
  end.

Definition read_checkpoint (v : json) : option RecoveryCheckpoint :=
  version ← string_value (jget "schemaVersion" v);
  if String.eqb version RECOVERY_CHECKPOINT_SCHEMA_VERSION then
    id ← string_value (jget "checkpointId" v); created ← string_value (jget "createdAt" v);
    session ← read_session (jget "session" v); workspace ← read_workspace (jget "workspace" v);
    tool ← read_tool (jget "tool" v); ledger ← read_ledger (jget "ledger" v);
    Some {| rc_checkpointId := id; rc_createdAt := created; rc_session := session; rc_workspace := workspace;
            rc_tool := tool; rc_ledger := ledger |}
  else None.

Section Theory.
Context (isAbsolute : string -> bool) (dateMs : string -> jsnum).

(** What the contents of a checkpoint have to be. *)
Definition hex_if_present (h : option string) : bool := from_option HEX64 true h.
Definition hex_present (h : option string) : bool := from_option HEX64 false h.
Definition hex_absent (h : option string) : bool := from_option (fun _ => false) true h.

Definition file_sound (f : RecoveryTouchedFile) : bool :=
  negb (unsafe_text isAbsolute (tf_path f)) && hex_if_present (tf_beforeSha256 f) && hex_if_present (tf_afterSha256 f)
  && match tf_mode f with
     | mode_untracked => hex_present (tf_afterSha256 f) && hex_absent (tf_beforeSha256 f)
     | mode_deleted => hex_present (tf_beforeSha256 f) && hex_absent (tf_afterSha256 f)
     | mode_tracked => hex_present (tf_afterSha256 f)
     end.

Definition workspace_sound (w : RecoveryCheckpointWorkspace) : bool :=
  negb (is_empty (cw_repoRoot w)) && HEX64 (cw_statusPorcelainSha256 w) && forallb file_sound (cw_touchedFiles w).

Definition tool_sound (t : option RecoveryCheckpointTool) : bool :=
  match t with
  | Some t => whole_non_negative (Some (JsNum (ct_turnIndex t)))
  | None => true
  end.

Definition ledger_sound (l : RecoveryCheckpointLedger) : bool :=
  negb (is_empty (cl_eventId l)) && HEX64 (cl_previousEventHash l) && HEX64 (cl_eventHash l).

Definition checkpoint_sound (c : RecoveryCheckpoint) : bool :=
  negb (is_empty (rc_checkpointId c)) && iso_text dateMs (rc_createdAt c) && HEX64 (cs_contextHash (rc_session c))
  && workspace_sound (rc_workspace c) && tool_sound (rc_tool c) && ledger_sound (rc_ledger c).

(** An array of errors is empty where a typed reading exists and is sound. *)
Definition accepts {A} (errors : list string) (read : option A) (sound : A -> bool) : Prop :=
  errors = [] <-> exists a, read = Some a /\ sound a = true.

Lemma require_nil (b : bool) (message : string) : require b message = [] <-> b = true.
Proof. by destruct b. Qed.

Lemma read_some {A} (P : Prop) (a : A) (sound : A -> bool) :
  (P <-> sound a = true) -> (P <-> exists b, Some a = Some b /\ sound b = true).
Proof. intros ->. split; [by exists a|]. by intros (b & [= <-] & Hb). Qed.

Lemma accepts_none {A} (errors : list string) (sound : A -> bool) : errors <> [] -> accepts errors None sound.
Proof. intros H. split; [done|]. by intros (b & Hb & _). Qed.

Lemma files_accepted (files : list json) (n : nat) :
  (forall v i, accepts (validateTouchedFile isAbsolute v i) (read_file v) file_sound) ->
  accepts (validate_files isAbsolute n files) (mapM read_file files) (forallb file_sound).
Proof.
  unfold accepts. intros Hfile. revert n. induction files as [|v files IH]; intros n; [split; [by exists []|done]|].
  cbn [validate_files]. rewrite app_nil, (Hfile v n), (IH (S n)). cbn [mapM]. split.
  - intros [(f & Hf & Hs) (l & Hl & Hs')]. exists (f :: l). rewrite Hf. cbn. rewrite Hl. cbn. by rewrite Hs, Hs'.
  - intros (l & Hl & Hs). destruct (read_file v) as [f|]; [|done]. cbn in Hl.
    destruct (mapM read_file files) as [l'|]; [|done]. injection Hl as <-. cbn in Hs.
    apply andb_true_iff in Hs as [? ?]. split; by eexists.
Qed.

Lemma strings_read (value : option json) : strings_only value = true <-> is_Some (string_array value).
Proof.
  destruct value as [[]|]; try (split; [done|by intros [? ?]]). unfold strings_only, string_array, array_of. cbn [is_array_of].
  induction l as [|v l IH]; [split; [by eexists|done]|].
  cbn [forallb mapM]. destruct v; try (split; [done|by intros [? ?]]). cbn. rewrite IH.
  destruct (mapM _ l); cbn; split; intros [? ?]; try done; by eexists.
Qed.

(** Some field has no reading: there is an error. *)
Ltac unread :=
  split; [intros; exfalso; destruct_and?; (discriminate || (eapply is_Some_None; eassumption))|by intros (? & ? & _)].

Lemma file_accepted (v : json) (i : nat) : accepts (validateTouchedFile isAbsolute v i) (read_file v) file_sound.
Proof.
  unfold validateTouchedFile, read_file. destruct v as [| | | | |fields]; try (by apply accepts_none; cbn).
  cbn [isRecord negb]. generalize ("workspace.touchedFiles[" ++ nat_str i ++ "]")%string as label. intros label.
  generalize (jget "path" (JsObj fields)), (jget "beforeSha256" (JsObj fields)), (jget "afterSha256" (JsObj fields)),
    (mode_of (jget "mode" (JsObj fields))). intros path before after mode.
  unfold accepts. rewrite app_nil, require_nil, negb_true_iff.
  destruct path as [[]|]; cbn; try (split; [by intros [? _]|by intros (? & ? & _)]).
  destruct mode as [mode|].
  2: { split; [by intros [_ ?]|]. destruct before as [[]|], after as [[]|]; cbn; by intros (? & ? & _). }
  rewrite !app_nil, !require_nil. destruct mode; cbn; rewrite ?app_nil, !require_nil;
    destruct before as [[]|], after as [[]|]; cbn; try unread;
    apply read_some; unfold file_sound, hex_if_present, hex_present, hex_absent; cbn;
    rewrite ?andb_true_iff, ?negb_true_iff; intuition congruence.
Qed.

Lemma session_accepted (value : option json) :
  accepts (validateSession value) (read_session value) (fun s => HEX64 (cs_contextHash s)).
Proof.
  unfold validateSession, read_session. destruct value as [[| | | | |fields]|]; try (by apply accepts_none; cbn).
  unfold accepts. rewrite !app_nil, !require_nil, strings_read.
  generalize (jget "sessionFile" (JsObj fields)), (jget "leafId" (JsObj fields)),
    (string_array (jget "branchPathIds" (JsObj fields))), (jget "contextHash" (JsObj fields)). intros file leaf ids hash.
  destruct file as [[]|], leaf as [[]|], ids as [ids|], hash as [[]|]; cbn;
    try unread;
    apply read_some; cbn; intuition eauto.
Qed.

Lemma vcs_read (value : option json) : match vcs_of value with Some _ => true | None => false end = true <-> is_Some (vcs_of value).
Proof. destruct (vcs_of value); [split; [by eexists|done]|split; [done|by intros [? ?]]]. Qed.

Lemma workspace_accepted (value : option json) :
  accepts (validateWorkspace isAbsolute value) (read_workspace value) workspace_sound.
Proof.
  unfold validateWorkspace, read_workspace. destruct value as [[| | | | |fields]|]; try (by apply accepts_none; cbn).
  unfold accepts. rewrite !app_nil, !require_nil, vcs_read.
  pose proof (fun l => files_accepted l 0 file_accepted) as Hfiles. unfold accepts in Hfiles.
  generalize (jget "repoRoot" (JsObj fields)), (vcs_of (jget "vcs" (JsObj fields))), (jget "head" (JsObj fields)),
    (jget "statusPorcelainSha256" (JsObj fields)), (jget "reversePatchArtifact" (JsObj fields)),
    (jget "touchedFiles" (JsObj fields)). intros root vcs head status patch files.
  destruct root as [[]|], vcs as [vcs|], head as [[]|], status as [[]|]; cbn; try unread.
  all: destruct files as [[| | | |items|]|]; try unread.
  all: cbn [array_of]; rewrite Hfiles; destruct patch as [[]|], (mapM read_file items) as [files|]; cbn;
    try (split; [intros; exfalso; naive_solver|by intros (? & ? & _)]);
    apply read_some; unfold workspace_sound; cbn; rewrite !andb_true_iff; split; naive_solver.
Qed.

Lemma tool_accepted (value : option json) : accepts (validateTool value) (read_tool value) tool_sound.
Proof.
  unfold validateTool, read_tool. destruct value as [[| | | | |fields]|]; try (by apply accepts_none; cbn);
    [|by apply read_some].
  unfold accepts. rewrite !app_nil, !require_nil, strings_read.
  generalize (jget "turnIndex" (JsObj fields)), (jget "beforeToolCallId" (JsObj fields)),
    (jget "afterToolCallId" (JsObj fields)), (string_array (jget "mutatingTools" (JsObj fields))).
  intros turn before after tools.
  destruct turn as [[]|], before as [[]|], after as [[]|], tools as [tools|]; cbn; try unread;
    apply read_some; cbn; intuition eauto.
Qed.

Lemma ledger_accepted (value : option json) : accepts (validateLedger value) (read_ledger value) ledger_sound.
Proof.
  unfold validateLedger, read_ledger. destruct value as [[| | | | |fields]|]; try (by apply accepts_none; cbn).
  unfold accepts. rewrite !app_nil, !require_nil.
  generalize (jget "eventId" (JsObj fields)), (jget "previousEventHash" (JsObj fields)), (jget "eventHash" (JsObj fields)).
  intros id previous hash. destruct id as [[]|], previous as [[]|], hash as [[]|]; cbn; try unread;
    apply read_some; unfold ledger_sound; cbn; rewrite !andb_true_iff; tauto.
Qed.

Lemma errors_accepted (v : json) : accepts (checkpoint_errors isAbsolute dateMs v) (read_checkpoint v) checkpoint_sound.
Proof.
  unfold checkpoint_errors, read_checkpoint, accepts. rewrite !app_nil, !require_nil.
  pose proof (session_accepted (jget "session" v)) as Hs. pose proof (workspace_accepted (jget "workspace" v)) as Hw.
  pose proof (tool_accepted (jget "tool" v)) as Ht. pose proof (ledger_accepted (jget "ledger" v)) as Hl.
  unfold accepts in *. rewrite Hs, Hw, Ht, Hl. clear Hs Hw Ht Hl.
  generalize (jget "schemaVersion" v), (jget "checkpointId" v), (jget "createdAt" v), (read_session (jget "session" v)),
    (read_workspace (jget "workspace" v)), (read_tool (jget "tool" v)), (read_ledger (jget "ledger" v)).
  intros version id created session workspace tool ledger.
  destruct version as [[]|]; cbn [is_text string_value mbind option_bind]; try (split; [by intros [? _]|by intros (? & ? & _)]).
  destruct (String.eqb s _); [|split; [by intros [? _]|by intros (? & ? & _)]].
  destruct id as [[]|]; cbn; try (split; [by intros (? & ? & _)|by intros (? & ? & _)]).
  destruct created as [[]|]; cbn; try (split; [by intros (? & ? & ? & _)|by intros (? & ? & _)]).
  destruct session, workspace, tool, ledger; cbn; try (split; [naive_solver|by intros (? & ? & _)]).
  apply read_some. unfold checkpoint_sound. cbn. rewrite !andb_true_iff. naive_solver.
Qed.
End Theory.

(** ** The preflight decides *)

Lemma by_path_get {A} (path : A -> string) (files : list A) (m : list (string * A)) (k : string) :
  map_get k (foldl (fun m file => map_set (normalizeRelPath (path file)) file m) m files)
  = match last (filter (fun file => normalizeRelPath (path file) = k) files) with
    | Some file => Some file
    | None => map_get k m
    end.
Proof.
  revert m. induction files as [|f files IH]; intros m; [done|]. cbn [foldl]. rewrite IH, map_get_set.
  destruct (String.eqb_spec (normalizeRelPath (path f)) k) as [He|He].
  - rewrite filter_cons_True by done. rewrite last_cons. by destruct (last _).
  - by rewrite filter_cons_False.
Qed.

Lemma by_path_has {A} (path : A -> string) (files : list A) (k : string) :
  map_has k (by_path path files) = true <-> exists file, file ∈ files /\ normalizeRelPath (path file) = k.
Proof.
  unfold map_has, by_path. rewrite by_path_get. cbn [map_get]. destruct (last _) as [f|] eqn:E.
  - split; [intros _|done]. apply last_Some_elem_of, list_elem_of_filter in E. naive_solver.
  - apply last_None in E. split; [done|]. intros (f & Hf & Hk). exfalso.
    apply (not_elem_of_nil f). rewrite <- E. by apply list_elem_of_filter.
Qed.

(** What was seen of a path, the last word counting. *)
Definition seen (observed : list ObservedTouchedFile) (path : string) : option ObservedTouchedFile :=
  last (filter (fun o => normalizeRelPath (of_path o) = normalizeRelPath path) observed).

(** The file is as the checkpoint left it. *)
Definition as_left (observed : list ObservedTouchedFile) (f : RecoveryTouchedFile) : Prop :=
  exists current, seen observed (tf_path f) = Some current /\ escapes current = false
  /\ match tf_mode f with
     | mode_deleted => of_exists current = false
     | _ => of_exists current = true /\ of_sha256 current = tf_afterSha256 f
     end.

(** The code of a checkpoint may be restored. *)
Definition restorable (c : RecoveryCheckpoint) (o : ObservedWorktree) (allow : option bool) : Prop :=
  let files := cw_touchedFiles (rc_workspace c) in
  (forall d, d ∈ ow_dirtyPaths o -> exists f, f ∈ files /\ normalizeRelPath (tf_path f) = normalizeRelPath d)
  /\ (forall f, f ∈ files -> as_left (ow_touchedFiles o) f)
  /\ (allow = Some true
      \/ (cw_vcs (rc_workspace c) = vcs_git -> forall a b, cw_head (rc_workspace c) = Some a -> ow_head o = Some b -> a = b)).

Lemma issues_of_foldl {A} (step : Classified -> A -> Classified) (good : A -> Prop) (l : list A) (s : Classified) :
  (forall s x, cf_issues (step s x) = [] <-> cf_issues s = [] /\ good x) ->
  cf_issues (foldl step s l) = [] <-> cf_issues s = [] /\ forall x, x ∈ l -> good x.
Proof.
  intros Hstep. revert s. induction l as [|x l IH]; intros s; cbn [foldl].
  - split; [|by intros [? _]]. intros H. split; [done|]. by intros x ?%elem_of_nil.
  - rewrite IH, Hstep. setoid_rewrite elem_of_cons. naive_solver.
Qed.

Lemma pushed_issue (code_ : RestorePreflightIssueCode) (path : option string) (detail : string) (s : Classified) :
  cf_issues (push_issue code_ path detail s) = [] <-> False.
Proof. cbn. rewrite app_nil. split; [by intros [_ ?]|done]. Qed.

Lemma dirty_issue (files : list RecoveryTouchedFile) (s : Classified) (d : string) :
  cf_issues (check_dirty (by_path tf_path files) s d) = []
  <-> cf_issues s = [] /\ exists f, f ∈ files /\ normalizeRelPath (tf_path f) = normalizeRelPath d.
Proof.
  unfold check_dirty. rewrite <- by_path_has. destruct (map_has _ _); [tauto|]. rewrite pushed_issue.
  split; [done|by intros [_ ?]].
Qed.

Lemma known {A} (x : A) (P : A -> Prop) : (exists y, Some x = Some y /\ P y) <-> P x.
Proof. split; [by intros (y & [= <-] & H)|by exists x]. Qed.

Lemma touched_issue (observed : list ObservedTouchedFile) (s : Classified) (f : RecoveryTouchedFile) :
  cf_issues (check_touched (by_path of_path observed) s f) = [] <-> cf_issues s = [] /\ as_left observed f.
Proof.
  unfold check_touched, by_path, as_left, seen. rewrite by_path_get. cbn [map_get].
  destruct (last _) as [current|]; [|rewrite pushed_issue; split; [done|by intros (_ & ? & ? & _)]].
  rewrite known. destruct (escapes current); [rewrite pushed_issue; split; [done|by intros (_ & ? & _)]|].
  destruct (of_exists current), (tf_mode f); repeat case_bool_decide; try done; cbn [negb];
    rewrite ?pushed_issue; intuition congruence.
Qed.

Lemma head_kept (w : RecoveryCheckpointWorkspace) (o : ObservedWorktree) :
  head_changed w o = false
  <-> (cw_vcs w = vcs_git -> forall a b, cw_head w = Some a -> ow_head o = Some b -> a = b).
Proof.
  unfold head_changed. case_bool_decide as Hv; [|naive_solver].
  destruct (cw_head w) as [a|], (ow_head o) as [b|]; cbn; [|naive_solver..].
  rewrite negb_false_iff, String.eqb_eq. naive_solver.
Qed.

Lemma clean_iff (c : RecoveryCheckpoint) (o : ObservedWorktree) (allow : option bool) :
  pr_issues (classifyRestorePreflight c o allow) = [] <-> restorable c o allow.
Proof.
  unfold classifyRestorePreflight, restorable. cbn [pr_issues]. rewrite <- head_kept.
  set (w := rc_workspace c). set (s2 := foldl (check_touched _) _ _).
  assert (cf_issues s2 = [] <-> (forall d, d ∈ ow_dirtyPaths o ->
      exists f, f ∈ cw_touchedFiles w /\ normalizeRelPath (tf_path f) = normalizeRelPath d)
    /\ forall f, f ∈ cw_touchedFiles w -> as_left (ow_touchedFiles o) f) as Hs.
  { unfold s2. rewrite (issues_of_foldl _ (as_left (ow_touchedFiles o))) by apply touched_issue.
    rewrite (issues_of_foldl _ _ _ _ (dirty_issue (cw_touchedFiles w))). naive_solver. }
  destruct (head_changed w o), (bool_decide_reflect (allow = Some true)); cbn [andb negb];
    rewrite ?pushed_issue, ?Hs; naive_solver.
Qed.

Lemma blockers_iff (c : RecoveryCheckpoint) (o : ObservedWorktree) (allow : option bool) :
  collectPreflightBlockers (Some (classifyRestorePreflight c o allow)) = [] <-> restorable c o allow.
Proof.
  rewrite <- clean_iff. unfold collectPreflightBlockers, classifyRestorePreflight. cbn [pr_verdict pr_issues].
  set (issues := cf_issues _). by destruct issues.
Qed.

(** A touched path has no [..] among its segments: it collapses below any root. *)
Lemma collapse_below (segs acc : list string) :
  ".." ∉ segs -> collapse_loop segs acc = Some (acc ++ filter (fun s => s <> ".") segs).
Proof.
  revert acc. induction segs as [|s segs IH]; intros acc Hs; cbn [collapse_loop]; [by rewrite app_nil_r|].
  apply not_elem_of_cons in Hs as [Hne Hs]. destruct (String.eqb_spec s ".") as [->|Hd].
  - rewrite IH by done. by rewrite filter_cons_False by naive_solver.
  - rewrite (proj2 (String.eqb_neq s "..")) by done. rewrite IH by done.
    rewrite filter_cons_True by done. by rewrite <- (assoc (++)%list).
Qed.

(** ** Properties *)

(** C14: Code is restored only onto the files as they were left. With the preflight of its own checkpoint, a plan that
    touches code is ready exactly if every dirty path is a recorded one, every recorded file was looked at, does not
    lead out of the repository and is as the checkpoint left it (gone if it was deleted, else there with the recorded
    digest), and HEAD is not known to have moved or may have. A ready plan applies the patch to the recorded paths
    and, if asked for both, navigates afterwards; a blocked one has no phase and says why. *)
Theorem restore_ready_iff (c : RecoveryCheckpoint) (o : ObservedWorktree) (allow : option bool) (mode : RestoreMode)
    (leaf : option string) (Hmode : mode <> restore_conversation) :
  let plan := planRestore {| ri_mode := mode; ri_checkpoint := c;
                             ri_preflight := Some (classifyRestorePreflight c o allow); ri_currentLeafId := leaf |} in
  (rp_status plan = restore_ready /\ restorable c o allow /\ rp_blockers plan = []
   /\ rp_phases plan = apply_reverse_patch (map tf_path (cw_touchedFiles (rc_workspace c)))
                       :: (if mode is restore_both then [navigate_tree (cs_leafId (rc_session c))] else []))
  \/ (rp_status plan = restore_blocked /\ ~ restorable c o allow /\ rp_blockers plan <> [] /\ rp_phases plan = []).
Proof.
  cbn zeta. pose proof (blockers_iff c o allow) as H. unfold planRestore. cbn [ri_mode ri_preflight ri_checkpoint].
  destruct mode; [done|..]; destruct (collectPreflightBlockers _) as [|b bs] eqn:E.
  1, 3: left; repeat split; try done; by apply H.
  all: right; repeat split; try done; by intros ?%H.
Qed.

Section Validated.
Context (isAbsolute : string -> bool) (dateMs : string -> jsnum).


(** C38: A restore stays below the repository. The paths a plan for a validated checkpoint would patch, appended segment
    by segment to a root, collapse to paths below that root, whatever preflight the plan was made from. *)
Theorem patched_paths_stay_inside (v : json) (c : RecoveryCheckpoint) (mode : RestoreMode)
    (preflight : option RestorePreflightResult) (leaf : option string) (paths : list string) (p : string) (root : list string)
    (Hv : cv_ok (validateRecoveryCheckpoint isAbsolute dateMs v) = true) (Hc : read_checkpoint v = Some c)
    (Hphase : apply_reverse_patch paths
              ∈ rp_phases (planRestore {| ri_mode := mode; ri_checkpoint := c; ri_preflight := preflight;
                                          ri_currentLeafId := leaf |}))
    (Hp : p ∈ paths) (Hroot : Forall proper_segment root) :
  exists below, collapsePathSegments (root ++ pathSegments (normalizePathSlashes p)) = Some (root ++ below)
                /\ Forall proper_segment below.
Proof.
  assert (paths = map tf_path (cw_touchedFiles (rc_workspace c))) as ->.
  { revert Hphase. unfold planRestore, codePhase, conversationPhase. cbn [ri_mode ri_preflight].
    destruct mode, (collectPreflightBlockers preflight); cbn; rewrite ?elem_of_cons, ?elem_of_nil; naive_solver. }
  apply list_elem_of_fmap in Hp as (f & -> & Hf).
  assert (file_sound isAbsolute f = true) as Hs.
  { assert (checkpoint_errors isAbsolute dateMs v = []) as He.
    { revert Hv. unfold validateRecoveryCheckpoint. destruct (isRecord v); [|done]. by destruct (checkpoint_errors _ _ _). }
    apply errors_accepted in He as (c' & Hc' & Hs). rewrite Hc in Hc'. injection Hc' as <-.
    unfold checkpoint_sound, workspace_sound in Hs. rewrite !andb_true_iff, forallb_true_iff in Hs. naive_solver. }
  assert (".." ∉ pathSegments (normalizePathSlashes (tf_path f))) as Hd.
  { unfold file_sound, unsafe_text in Hs. rewrite !andb_true_iff, negb_true_iff, !orb_false_iff in Hs.
    destruct Hs as [[[[_ Hd] _] _] _]. intros Hin. apply elem_of_filter_list in Hin as [Hin _].
    apply existsb_eqb_elem in Hin. congruence. }
  exists (filter (fun s => s <> ".") (pathSegments (normalizePathSlashes (tf_path f)))). split.
  - unfold collapsePathSegments. rewrite collapse_loop_app, collapse_loop_id by done. cbn [app]. by rewrite collapse_below.
  - apply Forall_forall. intros s [Hdot Hin]%list_elem_of_filter. pose proof (pathSegments_elem _ _ Hin) as [? ?].
    repeat split; try done. by intros ->.
Qed.

End Validated.

(** The anchor is confirmed exactly where the ledger holds it. *)
Lemma anchor_iff (c : RecoveryCheckpoint) (observed : RecoveryCheckpointLedger) :
  lv_ok (verifyCheckpointLedgerAnchor c observed) = true <-> rc_ledger c = observed.
Proof.
  unfold verifyCheckpointLedgerAnchor. destruct (rc_ledger c) as [a b d], observed as [a' b' d']. cbn.
  destruct (String.eqb_spec a a'), (String.eqb_spec b b'), (String.eqb_spec d d'); cbn; split; congruence.
Qed.

(** Only an untracked file that is still what was created is deleted. *)
Lemma delete_iff (f : RecoveryTouchedFile) (o : ObservedUntrackedFile) :
  ud_disposition (decideUntrackedDisposition f o) = dispose_delete
  <-> tf_mode f = mode_untracked /\ ou_exists o = true
      /\ exists hash, tf_afterSha256 f = Some hash /\ HEX64 hash = true /\ ou_sha256 o = Some hash.
Proof.
  unfold decideUntrackedDisposition. case_bool_decide; cbn [negb]; [|split; [done|by intros (? & _)]].
  destruct (ou_exists o); cbn [negb]; [|split; [done|by intros (_ & ? & _)]].
  destruct (tf_afterSha256 f) as [hash|]; cbn; [|split; [done|by intros (_ & _ & ? & ? & _)]].
  destruct (HEX64 hash) eqn:Eh; cbn; [|split; [done|intros (_ & _ & ? & [= ->] & ? & _); congruence]].
  case_bool_decide; cbn; [split; [by eauto 10|done]|]. split; [done|]. intros (_ & _ & ? & [= <-] & _ & ?). congruence.
Qed.
(** ** Runs *)

(** [isAbsolute] on POSIX. *)
Definition posix_absolute (path : string) : bool := startsWith "/" path.

Definition sample_date (s : string) : jsnum := if is_empty s then NumNaN else NumFin 0.

Definition digest_of (a : ascii) : string := string_of_list_ascii (repeat a 64).

Definition sample_file (path mode : string) (fields : list (string * json)) : json :=
  JsObj (("path", JsStr path) :: ("mode", JsStr mode) :: fields).

Definition sample_value (files : list json) : json :=
  JsObj [("schemaVersion", JsStr RECOVERY_CHECKPOINT_SCHEMA_VERSION); ("checkpointId", JsStr "cp-1");
         ("createdAt", JsStr "2026-01-01T00:00:00Z");
         ("session", JsObj [("leafId", JsNull); ("branchPathIds", JsArr [JsStr "a"]); ("contextHash", JsStr (digest_of "c"))]);
         ("workspace", JsObj [("repoRoot", JsStr "/repo"); ("vcs", JsStr "git"); ("head", JsStr "h1");
                              ("statusPorcelainSha256", JsStr (digest_of "0")); ("touchedFiles", JsArr files)]);
         ("ledger", JsObj [("eventId", JsStr "e"); ("previousEventHash", JsStr (digest_of "1"));
                           ("eventHash", JsStr (digest_of "2"))])].

Definition sample_files : list json :=
  [sample_file "src/a.ts" "tracked" [("afterSha256", JsStr (digest_of "a"))];
   sample_file "./b.ts" "untracked" [("afterSha256", JsStr (digest_of "b"))];
   sample_file "old.ts" "deleted" [("beforeSha256", JsStr (digest_of "d"))]].

Definition sample_checkpoint : RecoveryCheckpoint :=
  {| rc_checkpointId := "cp-1"; rc_createdAt := "2026-01-01T00:00:00Z";
     rc_session := {| cs_sessionFile := None; cs_leafId := None; cs_branchPathIds := ["a"]; cs_contextHash := digest_of "c" |};
     rc_workspace :=
       {| cw_repoRoot := "/repo"; cw_vcs := vcs_git; cw_head := Some "h1"; cw_statusPorcelainSha256 := digest_of "0";
          cw_touchedFiles :=
            [{| tf_path := "src/a.ts"; tf_beforeSha256 := None; tf_afterSha256 := Some (digest_of "a"); tf_mode := mode_tracked |};
             {| tf_path := "./b.ts"; tf_beforeSha256 := None; tf_afterSha256 := Some (digest_of "b"); tf_mode := mode_untracked |};
             {| tf_path := "old.ts"; tf_beforeSha256 := Some (digest_of "d"); tf_afterSha256 := None; tf_mode := mode_deleted |}];
          cw_reversePatchArtifact := None |};
     rc_tool := None;
     rc_ledger := {| cl_eventId := "e"; cl_previousEventHash := digest_of "1"; cl_eventHash := digest_of "2" |} |}.

Example read_example : read_checkpoint (sample_value sample_files) = Some sample_checkpoint.
Proof. vm_compute. reflexivity. Qed.

Definition sample_seen (path : string) (hash : option string) : ObservedTouchedFile :=
  {| of_path := path; of_exists := match hash with Some _ => true | None => false end; of_sha256 := hash;
     of_isSymlink := None; of_escapesRepo := None |}.

Definition sample_tree (head : option string) (dirty : list string) : ObservedWorktree :=
  {| ow_head := head; ow_statusPorcelainSha256 := None; ow_dirtyPaths := dirty;
     ow_touchedFiles := [sample_seen "src/a.ts" (Some (digest_of "a")); sample_seen "b.ts" (Some (digest_of "b"));
                         sample_seen "old.ts" None] |}.

Definition plan_for (head : option string) (dirty : list string) (allow : option bool) : RestorePlan :=
  planRestore {| ri_mode := restore_both; ri_checkpoint := sample_checkpoint;
                 ri_preflight := Some (classifyRestorePreflight sample_checkpoint (sample_tree head dirty) allow);
                 ri_currentLeafId := Some "leaf" |}.

Example plan_examples :
  map (fun p => (rp_status p, rp_blockers p))
    [plan_for (Some "h1") ["src/a.ts"; "b.ts"] None; plan_for (Some "h1") ["c.ts"] None; plan_for (Some "h2") [] None;
     plan_for (Some "h2") [] (Some true)]
  = [(restore_ready, []); (restore_blocked, ["unrelated-dirty-path: c.ts"]); (restore_blocked, ["head-mismatch"]);
     (restore_ready, [])].
Proof. vm_compute. reflexivity. Qed.

Example turn_examples :
  map (fun literal => whole_non_negative (Some (JsNum literal)))
    ["0"; "-0"; "3"; "2.0"; "2.5"; "-1"; "1e400"; "1e300"; "9007199254740993"; "2251799813685248.5"; "9007199254740991.5"]
  = [true; true; true; true; false; false; false; true; true; false; true].
Proof. vm_compute. reflexivity. Qed.

Lemma restore_ready_iff_witness :
  restore_both <> restore_conversation
  /\ let c := sample_checkpoint in let o := sample_tree (Some "h1") ["src/a.ts"; "b.ts"] in
     let plan := planRestore {| ri_mode := restore_both; ri_checkpoint := c;
                                ri_preflight := Some (classifyRestorePreflight c o None); ri_currentLeafId := None |} in
     (rp_status plan = restore_ready /\ restorable c o None /\ rp_blockers plan = []
      /\ rp_phases plan = apply_reverse_patch ["src/a.ts"; "./b.ts"; "old.ts"] :: [navigate_tree None])
     \/ (rp_status plan = restore_blocked /\ ~ restorable c o None /\ rp_blockers plan <> [] /\ rp_phases plan = []).
Proof.
  split; [discriminate|]. apply (restore_ready_iff sample_checkpoint (sample_tree (Some "h1") ["src/a.ts"; "b.ts"]) None restore_both None).
  discriminate.
Defined.

Lemma patched_paths_stay_inside_witness :
  exists below, collapsePathSegments (["repo"] ++ pathSegments (normalizePathSlashes "./b.ts")) = Some (["repo"] ++ below)
                /\ Forall proper_segment below.
Proof.
  apply (patched_paths_stay_inside posix_absolute sample_date (sample_value sample_files) sample_checkpoint restore_code
           (Some (classifyRestorePreflight sample_checkpoint (sample_tree None []) None)) None
           ["src/a.ts"; "./b.ts"; "old.ts"] "./b.ts" ["repo"]); try (vm_compute; reflexivity).
  - vm_compute. by left.
  - by right; left.
  - repeat constructor; discriminate.
Defined.

(** A recorded path that begins with a backslash passes the check for absolute paths, which is made before backslashes
    become slashes; for the preflight it is an absolute path. *)
Lemma backslash_root_accepted :
  let path := string_of_list_ascii (["092"; "e"; "t"; "c"])%char in
  cv_ok (validateRecoveryCheckpoint posix_absolute sample_date
           (sample_value [sample_file path "tracked" [("afterSha256", JsStr (digest_of "a"))]])) = true
  /\ normalizeRelPath path = "/etc".
Proof. split; vm_compute; reflexivity. Qed.

(** Only the first [./] is stripped: a dirty path of a recorded file counts as unrelated. *)
Lemma second_dot_unrelated : normalizeRelPath "././a.ts" <> normalizeRelPath "a.ts".
Proof. by vm_compute. Qed.

(** A digest in capitals is accepted; the file it is the digest of does not match it. *)
Lemma capital_digest_never_matches :
  HEX64 (digest_of "A") = true
  /\ let f := {| tf_path := "a.ts"; tf_beforeSha256 := None; tf_afterSha256 := Some (digest_of "A"); tf_mode := mode_tracked |} in
     ~ as_left [sample_seen "a.ts" (Some (toLowerCase (digest_of "A")))] f.
Proof.
  split; [by vm_compute|]. intros f (current & Hs & _ & _ & Hh). vm_compute in Hs. injection Hs as <-. by vm_compute in Hh.
Qed.

(** A HEAD that was not observed does not block. *)
Lemma unseen_head_passes : rp_status (plan_for None [] None) = restore_ready.
Proof. by vm_compute. Qed.

(** A preflight that is blocked without an issue blocks nothing. *)
Lemma bare_verdict_ignored :
  rp_status (planRestore {| ri_mode := restore_code; ri_checkpoint := sample_checkpoint;
                            ri_preflight := Some {| pr_verdict := preflight_blocked; pr_issues := []; pr_unrelatedDirtyPaths := [];
                                                    pr_hashMismatches := []; pr_symlinkEscapes := []; pr_headChanged := false |};
                            ri_currentLeafId := None |}) = restore_ready.
Proof. by vm_compute. Qed.

End RecoveryCheckpoint.
