(* ===== verification/Sandbox.v ===== *)
(** * The sandbox
    (packages/coding-agent/src/core/sandbox/policy.ts, path-resolver.ts, env.ts,
    backend.ts, spawn.ts)

    A policy says which paths may be read and written, which hosts reached and
    whether a shell may be spawned; a request is decided against it, a policy
    narrowed by another, and a command wrapped in the sandbox of the operating
    system. Paths are those of POSIX; [cwd] is the working directory of the
    process, [hostname] the host of a URL ([None] where [new URL] throws), and
    [existsSync] and [realpathSync] ([None] where it throws) are the file
    system. A call that can throw returns a [result]. *)

From Stdlib Require Import Ascii String ZArith Lia.
From stdpp Require Import base list option strings.
From S2P Require Import Prelude JsString Regex PathSegments.

Open Scope string_scope.
Open Scope list_scope.

Module Sandbox.

(** ** Policies and requests (policy.ts) *)

Inductive SandboxMode : Type := sandbox_off | sandbox_audit | sandbox_enforce.
Inductive SandboxProfile : Type := profile_readonly | profile_workspace_write | profile_dev_server | profile_networked.
Inductive NetworkMode : Type := net_none | net_loopback | net_domain_allowlist | net_all_explicit.
Inductive PathAccessKind : Type := access_read | access_write.
Inductive SandboxPlatform : Type := platform_linux | platform_macos | platform_unsupported.

#[global] Instance mode_eq_dec : EqDecision SandboxMode.
Proof. solve_decision. Defined.
#[global] Instance network_mode_eq_dec : EqDecision NetworkMode.
Proof. solve_decision. Defined.
#[global] Instance platform_eq_dec : EqDecision SandboxPlatform.
Proof. solve_decision. Defined.

Record FilesystemPolicy : Type := {
  fp_root : string;
  fp_readAllow : list string;
  fp_readDeny : list string;
  fp_writeAllow : list string;
  fp_denyWrite : list string;
  fp_tempWrite : list string;
  fp_followSymlinks : bool;
}.

Record NetworkPolicy : Type := {
  np_mode : NetworkMode;
  np_allowedDomains : list string;
  np_deniedDomains : list string;
  np_allowUnixSockets : list string;
  np_allowBrowser : bool;
}.

Record ProcessPolicy : Type := {
  pp_allowExec : bool;
  pp_allowShell : bool;
  pp_allowPrivilege : bool;
}.

Record SandboxPolicy : Type := {
  sp_mode : SandboxMode;
  sp_profile : SandboxProfile;
  sp_filesystem : FilesystemPolicy;
  sp_network : NetworkPolicy;
  sp_process : ProcessPolicy;
}.

Record ResolvedSandboxPath : Type := {
  rs_requestedPath : string;
  rs_exists : bool;
  rs_realPath : option string;
  rs_nearestExistingParentRealPath : option string;
  rs_isSymlink : option bool;
  rs_error : option string;
}.

Definition SandboxPathResolver : Type := string -> result string ResolvedSandboxPath.

Record PathAccessRequest : Type := {
  pq_kind : PathAccessKind;
  pq_path : string;
}.

Record SandboxDecision : Type := {
  sd_allowed : bool;
  sd_rule : string;
  sd_reason : string;
}.

Record NetworkAccessRequest : Type := {
  nq_host : option string;
  nq_url : option string;
  nq_unixSocketPath : option string;
  nq_browser : option bool;
  nq_loopback : option bool;
}.

Record SandboxBackendStatus : Type := {
  bs_platform : SandboxPlatform;
  bs_backendAvailable : bool;
  bs_domainAllowlistAvailable : option bool;
}.

Record SandboxFallbackDecision : Type := {
  fd_decision : SandboxDecision;
  fd_allowShell : bool;
  fd_allowExec : bool;
  fd_allowReadOnlyTools : bool;
}.

(** [if (text)] and [if (flag)] of an optional field. *)
Definition text_true (t : option string) : bool := from_option (fun s => negb (is_empty s)) false t.
Definition flag_true (b : option bool) : bool := default false b.

Definition decision (allowed : bool) (rule reason : string) : SandboxDecision :=
  {| sd_allowed := allowed; sd_rule := rule; sd_reason := reason |}.

Definition has_nul (s : string) : bool := sexists (fun a => (code a =? 0)%nat) s.

Definition any_char : regex := RChar (fun a => negb (is_line_terminator a)).

(** The names both versions of the pattern list, and the last alternative with the words it looks for. *)
Definition sensitive_path (words : list regex) : regex :=
  RSeqs [RAlt RBegin (RChar (one_of (String "092" "/")));
         RAlts ([RSeq (RLitI ".env") (ROpt (RSeq (RLit ".") (RStar any_char))); RLitI "auth.json"; RLitI "oauth.json";
                 RLitI ".netrc"; RLitI ".npmrc"; RLitI ".pgpass"; RLitI "credentials"; RLitI "id_rsa"; RLitI "id_dsa";
                 RLitI "id_ecdsa"; RLitI "id_ed25519"]
                ++ [RSeqs [RStar any_char; RAlts words; RStar any_char]]);
         REnd].

Definition private_key : regex := RSeqs [RLitI "private"; ROpt (RChar (one_of "_-")); RLitI "key"].

Definition SENSITIVE_PATH_PATTERN : regex := sensitive_path [RLitI "secret"; RLitI "token"; private_key; RLitI "credential"].

Definition isSensitivePath (value : string) : bool := rx_test SENSITIVE_PATH_PATTERN (normalizePathSlashes value).

Section Policy.
Context (cwd : string) (hostname : string -> option string).

(** The segments of [path.resolve(value)]. *)
Definition resolved_segments (value : string) : list string :=
  collapse_clamped (pathSegments (if startsWith "/" value then value else (cwd ++ "/" ++ value)%string)) [].

(** [path.resolve(value)]: the path without its dots, from the root on. *)
Definition path_resolve (value : string) : string := ("/" ++ join "/" (resolved_segments value))%string.

(** The trailing slashes of a path become nothing, or a slash if they are the value. *)
Definition normalize (value : string) : string :=
  let s := normalizePathSlashes (path_resolve value) in
  let kept := stripTrailing slash s in
  let suffix := slice (String.length kept) s in
  if is_empty suffix then s else if String.eqb value suffix then (kept ++ "/")%string else kept.

Definition text_inside (parent child : string) : bool := String.eqb child parent || startsWith (parent ++ "/") child.

Definition isInside (parent child : string) : bool := text_inside (normalize parent) (normalize child).

Definition stripGlobSuffix (pattern : string) : string :=
  if endsWith "/**" pattern then slice_to (String.length pattern - 3) pattern
  else if endsWith "/*" pattern then slice_to (String.length pattern - 2) pattern else pattern.

Definition matchesPattern (pattern candidate : string) : bool :=
  text_inside (normalize (stripGlobSuffix pattern)) (normalize candidate).

Definition matchesAny (patterns : list string) (candidate : string) : bool :=
  existsb (fun pattern => matchesPattern pattern candidate) patterns.

(** [a ?? b] *)
Definition or_else {A} (a b : option A) : option A :=
  match a with
  | Some _ => a
  | None => b
  end.

Definition resolvedDecisionPath (resolved : ResolvedSandboxPath) : option string :=
  or_else (rs_realPath resolved) (rs_nearestExistingParentRealPath resolved).

Definition rootEscaped (policy : SandboxPolicy) (resolved : ResolvedSandboxPath) : bool :=
  match resolvedDecisionPath resolved with
  | None => true
  | Some candidate => negb (isInside (fp_root (sp_filesystem policy)) candidate)
  end.

Definition decide_read (fs : FilesystemPolicy) (candidate path : string) : SandboxDecision :=
  if matchesAny (fp_readDeny fs) candidate || matchesAny (fp_readDeny fs) path then
    decision false "path.read_deny" "Read path matches a deny rule."
  else if negb (matchesAny (fp_readAllow fs) candidate) then
    decision false "path.read_not_allowed" "Read path is not in an allow rule."
  else decision true "path.read_allow" "Read path is allowed.".

Definition decide_write (fs : FilesystemPolicy) (candidate path : string) : SandboxDecision :=
  if matchesAny (fp_denyWrite fs) candidate || matchesAny (fp_denyWrite fs) path then
    decision false "path.deny_write" "Write path matches an unoverrideable denyWrite rule."
  else if matchesAny (fp_writeAllow fs) candidate || matchesAny (fp_tempWrite fs) candidate then
    decision true "path.write_allow" "Write path is allowed."
  else decision false "path.write_not_allowed" "Write path is not in an allow rule.".

Definition decidePathAccess (policy : SandboxPolicy) (request : PathAccessRequest) (resolver : SandboxPathResolver) :
    result string SandboxDecision :=
  let fs := sp_filesystem policy in
  let path := pq_path request in
  if bool_decide (sp_mode policy = sandbox_off) then Ok (decision true "sandbox.off" "Sandbox policy is disabled.")
  else if has_nul path then Ok (decision false "path.invalid" "Path contains a NUL byte.")
  else if isSensitivePath path then Ok (decision false "path.secret" "Sensitive credential-like paths are denied.")
  else
    resolved <-? resolver path ;;
    if text_true (rs_error resolved) then Ok (decision false "path.resolve_error" (default EmptyString (rs_error resolved)))
    else if rootEscaped policy resolved then
      Ok (decision false "path.root_escape" "Resolved path is outside the sandbox root.")
    else if flag_true (rs_isSymlink resolved) && negb (fp_followSymlinks fs) then
      Ok (decision false "path.symlink" "Symlink traversal is denied by policy.")
    else
      let candidate := default path (resolvedDecisionPath resolved) in
      Ok (match pq_kind request with
          | access_read => decide_read fs candidate path
          | access_write => decide_write fs candidate path
          end).

(** ** The network *)

Definition hostFromRequest (request : NetworkAccessRequest) : option string :=
  if text_true (nq_host request) then toLowerCase <$> nq_host request
  else if negb (text_true (nq_url request)) then None
  else url ← nq_url request; toLowerCase <$> hostname url.

Definition hostMatches (patterns : list string) (host : string) : bool :=
  existsb (fun pattern => let normalized := toLowerCase pattern in
                          String.eqb host normalized || endsWith ("." ++ normalized) host) patterns.

Definition decideNetworkAccess (policy : SandboxPolicy) (request : NetworkAccessRequest) : SandboxDecision :=
  let net := sp_network policy in
  if bool_decide (sp_mode policy = sandbox_off) then decision true "sandbox.off" "Sandbox policy is disabled."
  else if flag_true (nq_browser request) || text_true (nq_unixSocketPath request) then
    decision false "network.socket_or_browser" "Browser and Unix socket access is denied by default."
  else if bool_decide (np_mode net = net_none) then decision false "network.none" "Network access is disabled by policy."
  else if flag_true (nq_loopback request) then
    match np_mode net with
    | net_loopback | net_domain_allowlist | net_all_explicit =>
        decision true "network.loopback" "Loopback access is allowed."
    | net_none => decision false "network.loopback_denied" "Loopback access is denied."
    end
  else
    match hostFromRequest request with
    | None | Some EmptyString => decision false "network.unknown_host" "Network host could not be resolved from request."
    | Some host =>
        if hostMatches (np_deniedDomains net) host then decision false "network.domain_deny" "Host matches a denied domain."
        else if bool_decide (np_mode net = net_all_explicit) then
          decision true "network.explicit_all" "Explicit network profile allows outbound host access."
        else if bool_decide (np_mode net = net_domain_allowlist) && hostMatches (np_allowedDomains net) host then
          decision true "network.domain_allow" "Host matches an allowed domain."
        else decision false "network.domain_not_allowed" "Host is not allowed by network policy."
    end.

Definition decideSandboxFallback (policy : SandboxPolicy) (backend : SandboxBackendStatus) : SandboxFallbackDecision :=
  let fallback d shell exec :=
    {| fd_decision := d; fd_allowShell := shell; fd_allowExec := exec; fd_allowReadOnlyTools := true |} in
  if bool_decide (sp_mode policy = sandbox_off) then
    fallback (decision true "sandbox.off" "Sandbox policy is disabled.") true true
  else if bs_backendAvailable backend then
    fallback (decision true "sandbox.backend_available" "Sandbox backend is available.")
      (pp_allowShell (sp_process policy)) (pp_allowExec (sp_process policy))
  else if bool_decide (sp_mode policy = sandbox_audit) then
    fallback (decision true "sandbox.audit_fallback" "Audit mode permits execution without backend.") true true
  else
    fallback (decision false "sandbox.backend_missing" "Enforce mode blocks shell and exec when no backend is available.")
      false false.

(** ** Merging *)

Record FilesystemOverride : Type := {
  fo_root : option string;
  fo_readAllow : option (list string);
  fo_readDeny : option (list string);
  fo_writeAllow : option (list string);
  fo_denyWrite : option (list string);
  fo_tempWrite : option (list string);
}.

Record NetworkOverride : Type := {
  no_mode : option NetworkMode;
  no_allowedDomains : option (list string);
  no_deniedDomains : option (list string);
  no_allowUnixSockets : option (list string);
}.

Record ProcessOverride : Type := {
  po_allowExec : option bool;
  po_allowShell : option bool;
}.

(** [Partial<SandboxPolicy>]: what the merge reads of it. *)
Record SandboxOverride : Type := {
  so_mode : option SandboxMode;
  so_profile : option SandboxProfile;
  so_filesystem : option FilesystemOverride;
  so_network : option NetworkOverride;
  so_process : option ProcessOverride;
}.

Definition union (base : list string) (override : option (list string)) : list string := dedup (base ++ default [] override).

(** What one pair of patterns adds. *)
Definition intersect_pair (candidate entry : string) : list string :=
  if String.eqb (normalize candidate) (normalize entry) then [candidate]
  else if matchesPattern entry candidate then [candidate]
  else if matchesPattern candidate entry then [entry] else [].

Definition intersectOrBase (base : list string) (override : option (list string)) : list string :=
  match override with
  | None => base
  | Some override => dedup (concat (map (fun candidate => concat (map (intersect_pair candidate) base)) override))
  end.

Definition network_rank (mode : NetworkMode) : nat :=
  match mode with
  | net_none => 0
  | net_loopback => 1
  | net_domain_allowlist => 2
  | net_all_explicit => 3
  end.

Definition narrowNetworkMode (base : NetworkMode) (override : option NetworkMode) : NetworkMode :=
  match override with
  | None => base
  | Some override => if (network_rank override <=? network_rank base)%nat then override else base
  end.

Definition mergeSandboxPolicy (base : SandboxPolicy) (override : SandboxOverride) (options_allowBroaden : option bool) :
    SandboxPolicy :=
  let allowBroaden := bool_decide (options_allowBroaden = Some true) in
  let fs := sp_filesystem base in
  let net := sp_network base in
  let narrowed list given := if allowBroaden then default list given else intersectOrBase list given in
  let flag own given := if allowBroaden then default own given else own && default true given in
  {| sp_mode := default (sp_mode base) (so_mode override);
     sp_profile := default (sp_profile base) (so_profile override);
     sp_filesystem :=
       {| fp_root := default (fp_root fs) (so_filesystem override ≫= fo_root);
          fp_readAllow := narrowed (fp_readAllow fs) (so_filesystem override ≫= fo_readAllow);
          fp_readDeny := union (fp_readDeny fs) (so_filesystem override ≫= fo_readDeny);
          fp_writeAllow := narrowed (fp_writeAllow fs) (so_filesystem override ≫= fo_writeAllow);
          fp_denyWrite := union (fp_denyWrite fs) (so_filesystem override ≫= fo_denyWrite);
          fp_tempWrite := narrowed (fp_tempWrite fs) (so_filesystem override ≫= fo_tempWrite);
          fp_followSymlinks := false |};
     sp_network :=
       {| np_mode :=
            let given := so_network override ≫= no_mode in
            if allowBroaden then default (np_mode net) given else narrowNetworkMode (np_mode net) given;
          np_allowedDomains := narrowed (np_allowedDomains net) (so_network override ≫= no_allowedDomains);
          np_deniedDomains := union (np_deniedDomains net) (so_network override ≫= no_deniedDomains);
          np_allowUnixSockets := narrowed (np_allowUnixSockets net) (so_network override ≫= no_allowUnixSockets);
          np_allowBrowser := false |};
     sp_process :=
       {| pp_allowExec := flag (pp_allowExec (sp_process base)) (so_process override ≫= po_allowExec);
          pp_allowShell := flag (pp_allowShell (sp_process base)) (so_process override ≫= po_allowShell);
          pp_allowPrivilege := false |} |}.

(** ** The preflight of a shell *)

Record BashSpawnPreflightDecision : Type := {
  bp_decision : SandboxDecision;
  bp_allowShell : bool;
}.

Definition preflightBashSpawn (policy : SandboxPolicy) (backend : SandboxBackendStatus) (context_cwd : string)
    (resolver : option SandboxPathResolver) : result string BashSpawnPreflightDecision :=
  let answer d := Ok {| bp_decision := d; bp_allowShell := sd_allowed d |} in
  let fallback := decideSandboxFallback policy backend in
  if bool_decide (sp_mode policy = sandbox_off) then answer (decision true "sandbox.off" "Sandbox policy is disabled.")
  else if negb (pp_allowShell (sp_process policy)) then
    answer (decision false "process.shell_denied" "Shell execution is disabled by policy.")
  else if negb (fd_allowShell fallback) then
    answer (decision false (sd_rule (fd_decision fallback)) (sd_reason (fd_decision fallback)))
  else if has_nul context_cwd then answer (decision false "cwd.invalid" "Working directory contains a NUL byte.")
  else
    resolved <-? match resolver with
                 | Some resolve => resolved <-? resolve context_cwd ;; Ok (Some resolved)
                 | None => Ok None
                 end ;;
    if text_true (resolved ≫= rs_error) then
      answer (decision false "cwd.resolve_error" (default EmptyString (resolved ≫= rs_error)))
    else if flag_true (resolved ≫= rs_isSymlink) then
      answer (decision false "cwd.symlink" "Working directory is a symlink and traversal is denied.")
    else if negb (isInside (fp_root (sp_filesystem policy)) (default context_cwd (resolved ≫= resolvedDecisionPath))) then
      answer (decision false "cwd.root_escape" "Working directory is outside the sandbox root.")
    else answer (decision true "sandbox.shell_preflight_ok" "Bash spawn is permitted by sandbox policy.").

End Policy.

(** ** Resolving a path (path-resolver.ts) *)

Section Files.
Context (cwd : string) (existsSync : string -> bool) (realpathSync : string -> option string).

(** [dirname(path)]: what stands before the last slash that is not at the start and has a character that is no slash
    behind it. The text is reversed. *)
Fixpoint behind_slash (reversed : list ascii) (matchedSlash : bool) : option (list ascii) :=
  match reversed with
  | [] | [_] => None
  | a :: rest =>
      if Ascii.eqb a slash then if matchedSlash then behind_slash rest true else Some rest else behind_slash rest false
  end.

Definition dirname (path : string) : string :=
  let hasRoot := startsWith "/" path in
  match behind_slash (rev (list_ascii_of_string path)) true with
  | None => if hasRoot then "/" else "."
  | Some reversed =>
      let parent := string_of_list_ascii (rev reversed) in
      if hasRoot && (length reversed =? 1)%nat then "//" else parent
  end.

(** The loop of [nearestExistingParent]; [realpathSync] may throw. *)
Fixpoint nearest_from (fuel : nat) (current : string) : result string (option string) :=
  if String.eqb current "/" || is_empty current || String.eqb current "." then Ok None
  else if existsSync current then
    match realpathSync current with
    | Some real => Ok (Some real)
    | None => Err ("realpath " ++ current)%string
    end
  else
    let parent := dirname current in
    if String.eqb parent current then Ok None
    else
      match fuel with
      | O => Ok None
      | S fuel' => nearest_from fuel' parent
      end.

Definition nearestExistingParent (requestPath : string) : result string (option string) :=
  nearest_from (String.length requestPath) requestPath.

Definition resolveSandboxPath (root requestPath : string) : result string ResolvedSandboxPath :=
  if has_nul requestPath then
    Ok {| rs_requestedPath := requestPath; rs_exists := false; rs_realPath := None; rs_nearestExistingParentRealPath := None;
          rs_isSymlink := None; rs_error := Some "Path contains a NUL byte." |}
  else
    let absolutePath := if startsWith "/" requestPath then requestPath else path_resolve (path_resolve cwd root) requestPath in
    match realpathSync absolutePath with
    | Some real =>
        Ok {| rs_requestedPath := requestPath; rs_exists := true; rs_realPath := Some real;
              rs_nearestExistingParentRealPath := Some real;
              rs_isSymlink := Some (negb (String.eqb real (path_resolve cwd absolutePath))); rs_error := None |}
    | None =>
        parent <-? nearestExistingParent absolutePath ;;
        Ok {| rs_requestedPath := requestPath; rs_exists := false; rs_realPath := None;
              rs_nearestExistingParentRealPath := parent; rs_isSymlink := None; rs_error := None |}
    end.
End Files.

(** ** The environment (env.ts) *)

Definition LOADER_INJECTION_VARS : list string := ["LD_PRELOAD"; "DYLD_INSERT_LIBRARIES"].

Definition SECRET_NAME_PATTERNS : list regex :=
  map (fun t => RSeq (RLitI t) REnd)
    ["_API_KEY"; "_API_TOKEN"; "_ACCESS_TOKEN"; "_SECRET"; "_SECRET_KEY"; "_PRIVATE_KEY"; "_PASSWORD"; "_PASSWD"; "_TOKEN"]
  ++ map (fun t => RSeqs [RBegin; RLitI t; REnd])
       ["NPM_TOKEN"; "NODE_AUTH_TOKEN"; "GITHUB_TOKEN"; "GH_TOKEN"; "GITLAB_TOKEN"; "OPENAI_API_KEY"; "ANTHROPIC_API_KEY";
        "GOOGLE_API_KEY"; "AZURE_API_KEY"; "AWS_ACCESS_KEY_ID"; "AWS_SECRET_ACCESS_KEY"].

(** The entries of an environment in their order, a value being [None] where it is [undefined]. *)
Definition ProcessEnv : Type := list (string * option string).

Definition one_of_names (names : list string) (name : string) : bool := existsb (String.eqb name) names.

Definition isSecretName (name : string) (allowlist : list string) : bool :=
  if one_of_names allowlist name then false else existsb (fun pattern => rx_test pattern name) SECRET_NAME_PATTERNS.

(** The assignment [result[key] = value]; one to [__proto__] of a string sets nothing. *)
Definition put (key value : string) (result : list (string * string)) : list (string * string) :=
  if String.eqb key "__proto__" then result else result ++ [(key, value)].

Fixpoint filter_env (env : ProcessEnv) (allowlist extraBlocklist : list string) (result : list (string * string)) :
    list (string * string) :=
  match env with
  | [] => result
  | (key, value) :: rest =>
      filter_env rest allowlist extraBlocklist
        (match value with
         | None => result
         | Some value =>
             if one_of_names LOADER_INJECTION_VARS key || one_of_names extraBlocklist key || isSecretName key allowlist
             then result else put key value result
         end)
  end.

Definition filterSandboxEnv (env : ProcessEnv) (allowlist extraBlocklist : option (list string)) : list (string * string) :=
  filter_env env (default [] allowlist) (default [] extraBlocklist) [].

(** ** Backends (backend.ts) *)

(** What [sysctl] printed, [None] where it failed. *)
Definition userNamespacesEnabled (sysctl : option string) : bool := from_option (fun out => String.eqb (trim out) "1") true sysctl.

Definition detectSandboxBackend (platform : string) (commandExists : string -> bool) (sysctl : option string) : SandboxBackendStatus :=
  if String.eqb platform "darwin" then
    let available := commandExists "sandbox-exec" in
    {| bs_platform := platform_macos; bs_backendAvailable := available; bs_domainAllowlistAvailable := Some available |}
  else if String.eqb platform "linux" then
    {| bs_platform := platform_linux; bs_backendAvailable := commandExists "bwrap" && userNamespacesEnabled sysctl;
       bs_domainAllowlistAvailable := Some false |}
  else {| bs_platform := platform_unsupported; bs_backendAvailable := false; bs_domainAllowlistAvailable := None |}.

Record SandboxInvocation : Type := {
  iv_argv : list string;
  iv_cwd : string;
  iv_env : list (string * string);
  iv_root : string;
  iv_readAllow : list string;
  iv_writeAllow : list string;
  iv_tempWrite : list string;
  iv_denyWrite : list string;
  iv_mode : NetworkMode;
  iv_allowedDomains : option (list string);
  iv_deniedDomains : option (list string);
}.

Definition quoted (s : string) : string := String quote_char (s ++ String quote_char EmptyString)%string.

Definition subpath_rule (verb path : string) : string := ("(" ++ verb ++ " (subpath " ++ quoted path ++ "))")%string.
Definition remote_rule (domain : string) : string := ("(allow network-outbound (remote " ++ quoted domain ++ "))")%string.

Definition seatbelt_lines (invocation : SandboxInvocation) : list string :=
  ["(version 1)"; "(debug deny)"; "(allow default)"; "(deny network*)"]
  ++ map (subpath_rule "allow file-read*") (iv_readAllow invocation)
  ++ map (subpath_rule "allow file-write*") (iv_writeAllow invocation)
  ++ map (subpath_rule "allow file-write*") (iv_tempWrite invocation)
  ++ map (subpath_rule "deny file-write*") (iv_denyWrite invocation)
  ++ match iv_mode invocation, iv_allowedDomains invocation with
     | net_all_explicit, _ => ["(allow network-outbound)"]
     | net_domain_allowlist, Some domains => map remote_rule domains
     | net_loopback, _ => [remote_rule "localhost"; remote_rule "127.0.0.1"]
     | _, _ => []
     end.

Definition seatbeltProfile (invocation : SandboxInvocation) : string :=
  join (String (ascii_of_nat 10) EmptyString) (seatbelt_lines invocation).

Definition buildSeatbeltArgv (invocation : SandboxInvocation) : list string :=
  ["sandbox-exec"; "-p"; seatbeltProfile invocation] ++ iv_argv invocation.

Definition bind_unless_root (root option_ : string) (path : string) : list string :=
  if String.eqb path root then [] else [option_; path; path].

Definition bubblewrap_options (invocation : SandboxInvocation) : list string :=
  let root := iv_root invocation in
  ["bwrap"; "--unshare-all"; "--bind"; root; root]
  ++ concat (map (bind_unless_root root "--ro-bind") (iv_readAllow invocation))
  ++ concat (map (bind_unless_root root "--bind") (iv_writeAllow invocation))
  ++ concat (map (fun path => ["--tmpfs"; path]) (iv_tempWrite invocation))
  ++ concat (map (fun path => ["--remount-ro"; path]) (iv_denyWrite invocation))
  ++ (if bool_decide (iv_mode invocation = net_none) then ["--unshare-net"] else ["--share-net"])
  ++ ["--chdir"; iv_cwd invocation; "--clearenv"]
  ++ concat (map (fun kv => ["--setenv"; fst kv; snd kv]) (iv_env invocation)).

Definition buildBubblewrapArgv (invocation : SandboxInvocation) : list string :=
  bubblewrap_options invocation ++ iv_argv invocation.

Definition platform_str (platform : SandboxPlatform) : string :=
  match platform with
  | platform_linux => "linux"
  | platform_macos => "macos"
  | platform_unsupported => "unsupported"
  end.

Definition buildBackendArgv (backend : SandboxBackendStatus) (invocation : SandboxInvocation) : result string (list string) :=
  match bs_platform backend, bs_backendAvailable backend with
  | platform_macos, true => Ok (buildSeatbeltArgv invocation)
  | platform_linux, true => Ok (buildBubblewrapArgv invocation)
  | platform, _ => Err ("Unsupported or unavailable sandbox backend: " ++ platform_str platform)%string
  end.

Definition strictBackendMissingVerdict (policy : SandboxPolicy) (backend : SandboxBackendStatus) : SandboxDecision :=
  if bool_decide (sp_mode policy = sandbox_off) then decision true "sandbox.off" "Sandbox policy is disabled."
  else if bs_backendAvailable backend then decision true "sandbox.backend_available" "Sandbox backend is available."
  else if bool_decide (sp_mode policy = sandbox_audit) then
    decision true "sandbox.audit_fallback" "Audit mode permits execution without backend."
  else decision false "sandbox.backend_missing" "Enforce mode blocks shell and exec when no backend is available.".

(** ** Spawning (spawn.ts) *)

Record SandboxedSpawnRequestInput : Type := {
  si_argv : list string;
  si_cwd : string;
  si_env : ProcessEnv;
  si_policy : SandboxPolicy;
  si_backend : SandboxBackendStatus;
  si_resolver : option SandboxPathResolver;
}.

Record SpawnPermit : Type := {
  sr_decision : SandboxDecision;
  sr_argv : list string;
  sr_cwd : string;
  sr_env : list (string * string);
  sr_wrapped : bool;
}.

Inductive SandboxedSpawnRequest : Type :=
  | spawn_denied (d : SandboxDecision)
  | spawn_allowed (p : SpawnPermit).

Fixpoint compact_from (env : ProcessEnv) (result : list (string * string)) : list (string * string) :=
  match env with
  | [] => result
  | (key, value) :: rest => compact_from rest (from_option (fun value => put key value result) result value)
  end.

Definition compactEnv (env : ProcessEnv) : list (string * string) := compact_from env [].

Definition denyFrom (d : SandboxDecision) : SandboxedSpawnRequest := spawn_denied (decision false (sd_rule d) (sd_reason d)).

Definition allowUnwrapped (d : SandboxDecision) (input : SandboxedSpawnRequestInput) (env : list (string * string)) :
    SandboxedSpawnRequest :=
  spawn_allowed {| sr_decision := decision true (sd_rule d) (sd_reason d); sr_argv := si_argv input; sr_cwd := si_cwd input;
                   sr_env := env; sr_wrapped := false |}.

Definition buildInvocation (input : SandboxedSpawnRequestInput) (env : list (string * string)) : SandboxInvocation :=
  let fs := sp_filesystem (si_policy input) in
  let net := sp_network (si_policy input) in
  {| iv_argv := si_argv input; iv_cwd := si_cwd input; iv_env := env; iv_root := fp_root fs; iv_readAllow := fp_readAllow fs;
     iv_writeAllow := fp_writeAllow fs; iv_tempWrite := fp_tempWrite fs; iv_denyWrite := fp_denyWrite fs;
     iv_mode := np_mode net; iv_allowedDomains := Some (np_allowedDomains net); iv_deniedDomains := Some (np_deniedDomains net) |}.

Section Spawn.
Context (cwd : string) (existsSync : string -> bool) (realpathSync : string -> option string).

Definition buildSandboxedSpawnRequest (input : SandboxedSpawnRequestInput) : result string SandboxedSpawnRequest :=
  let policy := si_policy input in
  if bool_decide (sp_mode policy = sandbox_off) then
    Ok (allowUnwrapped (decision true "sandbox.off" "Sandbox policy is disabled.") input (compactEnv (si_env input)))
  else
    let resolver :=
      default (resolveSandboxPath cwd existsSync realpathSync (fp_root (sp_filesystem policy))) (si_resolver input) in
    cwdDecision <-? decidePathAccess cwd policy {| pq_kind := access_read; pq_path := si_cwd input |} resolver ;;
    if negb (sd_allowed cwdDecision) then Ok (denyFrom cwdDecision)
    else
      let env := filterSandboxEnv (si_env input) None None in
      let fallback := decideSandboxFallback policy (si_backend input) in
      if negb (sd_allowed (fd_decision fallback)) || negb (fd_allowShell fallback) || negb (fd_allowExec fallback) then
        Ok (denyFrom (fd_decision fallback))
      else if negb (bs_backendAvailable (si_backend input)) then Ok (allowUnwrapped (fd_decision fallback) input env)
      else
        match buildBackendArgv (si_backend input) (buildInvocation input env) with
        | Ok argv =>
            Ok (spawn_allowed {| sr_decision := decision true (sd_rule (fd_decision fallback)) (sd_reason (fd_decision fallback));
                                 sr_argv := argv; sr_cwd := si_cwd input; sr_env := env; sr_wrapped := true |})
        | Err message => Ok (spawn_denied (decision false "sandbox.wrap_failed" message))
        end.
End Spawn.

End Sandbox.
