(* ===== verification/SandboxTheory.v ===== *)
(** * The sandbox decides safely
    (packages/coding-agent/src/core/sandbox)

    The texts of paths are compared as lists of segments; a policy that another
    narrows allows nothing the first one denies; what is spawned under a policy is
    inside the root, without secrets and, where the policy is enforced, wrapped. *)

From Stdlib Require Import Ascii String ZArith Lia.
From stdpp Require Import base list option strings.
From S2P Require Import Prelude JsString Regex PathSegments Json Sandbox.

Import Sandbox.

Open Scope string_scope.
Open Scope list_scope.

(** ** Texts *)

Lemma app_cut (a b c d : string) :
  (a ++ b = c ++ d)%string -> (exists u, c = (a ++ u)%string /\ b = (u ++ d)%string) \/ (exists u, a = (c ++ u)%string /\ d = (u ++ b)%string).
Proof.
  revert c. induction a as [|x a IH]; intros c H; [by left; exists c|].
  destruct c as [|y c]; [right; exists (String x a); by split|]. cbn in H. injection H as -> H.
  destruct (IH c H) as [(u & -> & ->)|(u & -> & ->)]; [left|right]; by exists u.
Qed.

Lemma endsWith_iff (suf s : string) : endsWith suf s = true <-> exists q, s = (q ++ suf)%string.
Proof.
  induction s as [|a s IH]; cbn [endsWith].
  - rewrite orb_false_r, String.eqb_eq. split; [intros ->; by exists EmptyString|]. intros [q H]. by destruct q.
  - rewrite orb_true_iff, String.eqb_eq, IH. split.
    + intros [->|[q ->]]; [by exists EmptyString|by exists (String a q)].
    + intros [[|b q] H]; [by left|]. injection H as -> ->. right. by exists q.
Qed.

Lemma text_inside_iff (parent child : string) :
  text_inside parent child = true <-> child = parent \/ exists rest, child = (parent ++ "/" ++ rest)%string.
Proof.
  unfold text_inside. rewrite orb_true_iff, String.eqb_eq, startsWith_iff.
  split; (intros [?|[rest ->]]; [by left|right; exists rest]); by rewrite app_assoc_str.
Qed.

Lemma text_inside_trans (a b c : string) : text_inside a b = true -> text_inside b c = true -> text_inside a c = true.
Proof.
  rewrite !text_inside_iff. intros [->|[r ->]] [->|[r' ->]]; eauto.
  right. exists (r ++ "/" ++ r')%string. by rewrite !app_assoc_str.
Qed.

Lemma text_inside_refl (a : string) : text_inside a a = true.
Proof. apply text_inside_iff. by left. Qed.

Lemma slice_to_suffix (q suf : string) (n : nat) :
  n = String.length suf -> slice_to (String.length (q ++ suf) - n) (q ++ suf) = q.
Proof.
  intros ->. rewrite slice_to_app. replace (String.length (q ++ suf)) with (String.length q + String.length suf)%nat.
  2: { induction q; cbn; [done|]. by f_equal. }
  rewrite slice_to_all by lia. replace (_ - _ - _)%nat with 0%nat by lia. destruct suf; by rewrite app_nil_str.
Qed.

(** What [stripGlobSuffix] takes off. *)
Definition glob_end (suf : string) : Prop := suf = "/**" \/ suf = "/*".

Lemma strip_cases (p : string) :
  stripGlobSuffix p = p \/ exists suf, glob_end suf /\ p = (stripGlobSuffix p ++ suf)%string.
Proof.
  unfold stripGlobSuffix. destruct (endsWith "/**" p) eqn:E.
  { apply endsWith_iff in E as [q ->]. right. exists "/**". split; [by left|]. by rewrite slice_to_suffix. }
  destruct (endsWith "/*" p) eqn:E'; [|by left].
  apply endsWith_iff in E' as [q ->]. right. exists "/*". split; [by right|]. by rewrite slice_to_suffix.
Qed.

Lemma stripTrailing_app (c : ascii) (a b : string) :
  stripTrailing c (a ++ b) = if is_empty (stripTrailing c b) then stripTrailing c a else (a ++ stripTrailing c b)%string.
Proof.
  induction a as [|x a IH]; cbn [append stripTrailing]; [by destruct (stripTrailing c b)|].
  rewrite IH. destruct (stripTrailing c b) eqn:E; cbn [is_empty]; [done|].
  destruct a; cbn; [done|done].
Qed.

Lemma stripTrailing_last (c a : ascii) (s : string) :
  Ascii.eqb a c = false -> stripTrailing c (s ++ String a EmptyString) = (s ++ String a EmptyString)%string.
Proof. intros H. rewrite stripTrailing_app. cbn. by rewrite H. Qed.

Lemma stripTrailing_idem (c : ascii) (s : string) : stripTrailing c (stripTrailing c s) = stripTrailing c s.
Proof.
  induction s as [|a s IH]; [done|]. cbn [stripTrailing]. destruct (stripTrailing c s) as [|b t] eqn:E.
  - destruct (Ascii.eqb a c) eqn:Ea; [done|]. cbn. by rewrite Ea.
  - cbn [stripTrailing]. cbn [stripTrailing] in IH. by rewrite IH.
Qed.

Lemma smap_app (f : ascii -> ascii) (a b : string) : smap f (a ++ b) = (smap f a ++ smap f b)%string.
Proof. induction a as [|x a IH]; [done|]. cbn. by rewrite IH. Qed.

Lemma stripTrailing_rest (c : ascii) (s : string) :
  exists r, s = (stripTrailing c s ++ r)%string /\ sforall (fun a => Ascii.eqb a c) r = true.
Proof.
  induction s as [|a s (r & Hs & Hr)]; [by exists EmptyString|]. cbn [stripTrailing].
  destruct (stripTrailing c s) as [|b t]; cbn [append] in *.
  - subst r. destruct (Ascii.eqb a c) eqn:Ea; [exists (String a s)|by exists s]. cbn. by rewrite Ea.
  - exists r. by rewrite Hs at 1.
Qed.

Lemma slice_app (a b : string) : slice (String.length a) (a ++ b) = b.
Proof. by induction a as [|x a IH]; [destruct b|]. Qed.

Lemma slashes_no_segments (s : string) : sforall (fun a => Ascii.eqb a slash) s = true -> pathSegments s = [].
Proof.
  induction s as [|a s IH]; [done|]. cbn [sforall]. rewrite andb_true_iff, Ascii.eqb_eq. intros [-> H].
  rewrite pathSegments_slash. by apply IH.
Qed.

Lemma join_snoc (l : list string) (w : string) :
  l <> [] -> join "/" (l ++ [w]) = (join "/" l ++ "/" ++ w)%string.
Proof.
  induction l as [|x l IH]; [done|]. intros _. destruct l as [|y l]; [done|].
  change ((x :: y :: l) ++ [w]) with (x :: ((y :: l) ++ [w])). rewrite (join_cons _ x), (join_cons _ x).
  cbn [app] in *. rewrite IH by done. by rewrite !app_assoc_str.
Qed.

Lemma collapse_clamped_snoc (l acc : list string) (w : string) :
  w <> "." -> w <> ".." -> collapse_clamped (l ++ [w]) acc = collapse_clamped l acc ++ [w].
Proof.
  intros H1 H2. revert acc. induction l as [|s l IH]; intros acc; cbn [app collapse_clamped].
  - by rewrite (proj2 (String.eqb_neq w ".")), (proj2 (String.eqb_neq w "..")) by done.
  - destruct (String.eqb s "."); [apply IH|]. destruct (String.eqb s ".."); apply IH.
Qed.

(** ** Normal texts *)

Section Paths.
Context (cwd : string).

Abbreviation segments := (resolved_segments cwd).
Abbreviation normal := (normalize cwd).

Lemma startsWith_first (c : ascii) (q t : string) : q <> EmptyString -> startsWith (String c EmptyString) (q ++ t) = startsWith (String c EmptyString) q.
Proof. destruct q as [|a q]; [done|]. intros _. cbn [append]. by rewrite !startsWith_char. Qed.

Lemma segments_glob (q suf : string) :
  glob_end suf -> q <> EmptyString -> segments (q ++ suf) = segments q ++ [slice 1 suf].
Proof.
  intros Hs Hq. unfold resolved_segments. rewrite startsWith_first by done.
  assert (exists w, suf = ("/" ++ w)%string /\ slice 1 suf = w /\ pathSegments w = [w] /\ w <> "." /\ w <> "..") as (w & -> & -> & Hw & H1 & H2).
  { destruct Hs as [->| ->]; [exists "**"|exists "*"]; repeat split; try done; discriminate. }
  destruct (startsWith "/" q).
  - rewrite pathSegments_app, Hw. by apply collapse_clamped_snoc.
  - rewrite !pathSegments_app, Hw, (assoc_L (++)). by apply collapse_clamped_snoc.
Qed.

Lemma resolve_glob (q suf : string) :
  glob_end suf -> q <> EmptyString -> segments q <> [] -> path_resolve cwd (q ++ suf) = (path_resolve cwd q ++ suf)%string.
Proof.
  intros Hs Hq Hn. unfold path_resolve. rewrite segments_glob, join_snoc by done. destruct Hs as [->| ->]; by rewrite !app_assoc_str.
Qed.

Lemma all_slashes (v : string) : sforall (fun a => Ascii.eqb a slash) v = true -> v <> EmptyString -> segments v = [].
Proof.
  intros H Hv. unfold resolved_segments. destruct v as [|a v]; [done|].
  assert (a = slash) as -> by (cbn in H; apply andb_true_iff in H as [?%Ascii.eqb_eq _]; done).
  unfold slash at 1. rewrite startsWith_char. cbn [Ascii.eqb]. by rewrite slashes_no_segments.
Qed.

(** Except for the root, a normal text is the resolved one with its backslashes turned and no slash at its end. *)
Lemma normal_text (v : string) :
  segments v <> [] -> normal v = stripTrailing slash (normalizePathSlashes (path_resolve cwd v)).
Proof.
  intros Hn. unfold normalize. set (s := normalizePathSlashes _).
  destruct (stripTrailing_rest slash s) as (r & Hs & Hr).
  assert (slice (String.length (stripTrailing slash s)) s = r) as -> by (rewrite Hs at 2; apply slice_app).
  destruct r as [|a r]; cbn [is_empty]; [rewrite app_nil_str in Hs; done|].
  destruct (String.eqb_spec v (String a r)) as [->|_]; [|done]. by rewrite all_slashes in Hn.
Qed.

(** A normal text that is neither empty nor the root has no slash at its end. *)
Lemma normal_no_slash (v : string) :
  normal v <> EmptyString -> normal v <> "/" -> stripTrailing slash (normal v) = normal v.
Proof.
  intros He Hr. destruct (segments v) as [|w ws] eqn:E; [|by rewrite normal_text, stripTrailing_idem by congruence].
  exfalso. revert He Hr. unfold normalize, path_resolve. rewrite E. cbn. by destruct (String.eqb v "/").
Qed.

(** A base pattern whose narrowings stay below it: it stands for a path other than the root, and what is left of it once its
    glob is off does not itself end in a glob. *)
Definition narrowable (entry : string) : bool :=
  let E := normal (stripGlobSuffix entry) in
  negb (is_empty (stripGlobSuffix entry)) && negb (is_empty E) && negb (String.eqb E "/") && negb (endsWith "/**" E) && negb (endsWith "/*" E).

Lemma smap_glob (suf : string) : glob_end suf -> smap (fun a => if Ascii.eqb a backslash_char then slash else a) suf = suf.
Proof. by intros [->| ->]. Qed.

Lemma glob_kept (s suf : string) : glob_end suf -> stripTrailing slash (s ++ suf) = (s ++ suf)%string.
Proof.
  intros [->| ->]; rewrite stripTrailing_app; reflexivity.
Qed.

Lemma normal_glob (q suf : string) :
  glob_end suf -> q <> EmptyString -> segments q <> [] ->
  normal (q ++ suf) = (normalizePathSlashes (path_resolve cwd q) ++ suf)%string.
Proof.
  intros Hs Hq Hn. rewrite normal_text by (rewrite segments_glob by done; by intros [_ ?]%app_nil).
  rewrite resolve_glob by done. unfold normalizePathSlashes. rewrite smap_app, (smap_glob suf) by done. by apply glob_kept.
Qed.

Lemma normal_root_glob (q suf : string) :
  glob_end suf -> q <> EmptyString -> segments q = [] -> normal (q ++ suf) = suf.
Proof.
  intros Hs Hq Hn. rewrite normal_text by (rewrite segments_glob by done; by intros [_ ?]%app_nil).
  unfold path_resolve. rewrite segments_glob, Hn by done. by destruct Hs as [->| ->].
Qed.

Lemma normal_bare_glob (suf : string) : glob_end suf -> normal suf = suf.
Proof. by intros [->| ->]. Qed.

Lemma glob_parts (suf u rest : string) :
  glob_end suf -> suf = (u ++ rest)%string -> u = EmptyString \/ u = "/" \/ glob_end u.
Proof.
  intros Hs ->. destruct u as [|a [|b [|c [|d u]]]]; [by left|..]; right; destruct Hs as [H|H]; injection H; intros; subst;
    try (by left); right; (by left) || (by right).
Qed.

(** Stripping the glob of a pattern that lies below a narrowable one leaves it below. *)
Lemma strip_inside (entry p : string) :
  narrowable entry = true -> text_inside (normal (stripGlobSuffix entry)) (normal p) = true ->
  text_inside (normal (stripGlobSuffix entry)) (normal (stripGlobSuffix p)) = true.
Proof.
  unfold narrowable. rewrite !andb_true_iff, !negb_true_iff, String.eqb_neq. intros [[[[_ He] Hr] Hg1] Hg2].
  pose proof (normal_no_slash (stripGlobSuffix entry)) as Hns. set (E := normal (stripGlobSuffix entry)) in *.
  assert (E <> EmptyString) as Hne by (intros H; by rewrite H in He). specialize (Hns Hne Hr).
  destruct (strip_cases p) as [->|(suf & Hsuf & Hp)]; [done|]. set (q := stripGlobSuffix p) in *. rewrite Hp.
  assert (endsWith suf E = false) as Hg by by destruct Hsuf as [->| ->].
  assert (stripTrailing slash (E ++ "/") = E) as HE by (by rewrite stripTrailing_app).
  assert (forall T, text_inside E (T ++ suf) = true -> text_inside E (stripTrailing slash T) = true) as Hcut.
  { intros T [H|[rest H]]%text_inside_iff; [assert (endsWith suf E = true) by (apply endsWith_iff; eauto); congruence|].
    rewrite <- app_assoc_str in H. apply app_cut in H as [(u & Hu & Hs)|(u & -> & _)].
    - destruct (glob_parts suf u rest Hsuf Hs) as [->|[->|Hu']].
      + rewrite app_nil_str in Hu. rewrite <- Hu, HE. apply text_inside_refl.
      + apply (f_equal (stripTrailing slash)) in Hu. rewrite HE, stripTrailing_app in Hu. cbn in Hu. rewrite <- Hu. apply text_inside_refl.
      + rewrite Hu, glob_kept in HE by done. assert (endsWith u E = true) by (apply endsWith_iff; eauto).
        by destruct Hu' as [->| ->]; congruence.
    - rewrite stripTrailing_app, HE. destruct (is_empty (stripTrailing slash u)); [apply text_inside_refl|].
      apply text_inside_iff. right. exists (stripTrailing slash u). by rewrite app_assoc_str. }
  destruct (decide (q = EmptyString)) as [->|Hq].
  - cbn [append]. rewrite normal_bare_glob by done. intros H. pose proof (Hcut EmptyString H) as Hc. cbn in Hc.
    apply text_inside_iff in Hc as [Hc|[? Hc]]; [congruence|by destruct E].
  - destruct (decide (segments q = [])) as [Hn|Hn].
    + rewrite normal_root_glob by done. intros H. pose proof (Hcut EmptyString H) as Hc. cbn in Hc.
      apply text_inside_iff in Hc as [Hc|[? Hc]]; [congruence|by destruct E].
    + rewrite normal_glob, normal_text by done. apply Hcut.
Qed.

Lemma own_inside (entry : string) :
  narrowable entry = true -> text_inside (normal (stripGlobSuffix entry)) (normal entry) = true.
Proof.
  unfold narrowable. rewrite !andb_true_iff, !negb_true_iff, String.eqb_neq. intros [[[[Hq He] Hr] _] _].
  destruct (strip_cases entry) as [->|(suf & Hsuf & Hp)]; [apply text_inside_refl|].
  set (q := stripGlobSuffix entry) in *. rewrite Hp. assert (q <> EmptyString) as Hq' by by intros ->.
  destruct (decide (segments q = [])) as [Hn|Hn].
  { exfalso. revert He Hr. unfold normalize, path_resolve. rewrite Hn. cbn. by destruct (String.eqb q "/"). }
  rewrite normal_glob, normal_text by done. destruct (stripTrailing_rest slash (normalizePathSlashes (path_resolve cwd q))) as (r & Hs & Hr').
  rewrite Hs at 2. rewrite app_assoc_str. apply text_inside_iff. right.
  destruct r as [|a r]; [by destruct Hsuf as [->| ->]; eexists|].
  cbn in Hr'. apply andb_true_iff in Hr' as [->%Ascii.eqb_eq _]. by exists (r ++ suf)%string.
Qed.

Lemma matchesAny_iff (patterns : list string) (c : string) :
  matchesAny cwd patterns c = true <-> exists p, p ∈ patterns /\ matchesPattern cwd p c = true.
Proof. apply existsb_true_iff. Qed.

Lemma matchesAny_false (patterns : list string) (c : string) :
  matchesAny cwd patterns c = false -> forall p, p ∈ patterns -> matchesPattern cwd p c = false.
Proof. intros H p Hp. apply not_true_iff_false. intros Hm. assert (matchesAny cwd patterns c = true) by (apply matchesAny_iff; eauto). congruence. Qed.

Lemma intersect_below (base : list string) (override : option (list string)) (c : string) :
  Forall (fun entry => narrowable entry = true) base ->
  matchesAny cwd (intersectOrBase cwd base override) c = true -> matchesAny cwd base c = true.
Proof.
  rewrite Forall_forall, !matchesAny_iff. intros Hb (p & Hp & Hc). destruct override as [override|]; [|by eauto].
  cbn [intersectOrBase] in Hp. rewrite elem_of_dedup in Hp. apply elem_of_concat_map in Hp as (candidate & _ & Hp).
  apply elem_of_concat_map in Hp as (entry & He & Hp). revert Hp. unfold intersect_pair.
  assert (forall r, text_inside (normal (stripGlobSuffix entry)) (normal r) = true -> matchesPattern cwd r c = true ->
    matchesPattern cwd entry c = true) as Hchain.
  { intros r Hr Hm. eapply text_inside_trans; [|exact Hm]. apply strip_inside; auto. }
  destruct (String.eqb_spec (normal candidate) (normal entry)) as [Hn|_].
  - intros ->%list_elem_of_singleton. exists entry. split; [done|]. apply (Hchain candidate); [|done].
    rewrite Hn. apply own_inside. auto.
  - destruct (matchesPattern cwd entry candidate) eqn:Em.
    + intros ->%list_elem_of_singleton. exists entry. split; [done|]. by apply (Hchain candidate).
    + destruct (matchesPattern cwd candidate entry); [|by intros ?%elem_of_nil].
      intros ->%list_elem_of_singleton. by exists entry.
Qed.

Lemma union_above (base : list string) (override : option (list string)) (c : string) :
  matchesAny cwd (union base override) c = false -> matchesAny cwd base c = false.
Proof.
  rewrite <- !not_true_iff_false, !matchesAny_iff. intros H (p & Hp & Hc). apply H. exists p. split; [|done].
  unfold union. rewrite elem_of_dedup. apply elem_of_app. by left.
Qed.

(** ** When access is granted *)

Definition permits (fs : FilesystemPolicy) (kind : PathAccessKind) (candidate path : string) : bool :=
  match kind with
  | access_read =>
      negb (matchesAny cwd (fp_readDeny fs) candidate) && negb (matchesAny cwd (fp_readDeny fs) path)
      && matchesAny cwd (fp_readAllow fs) candidate
  | access_write =>
      negb (matchesAny cwd (fp_denyWrite fs) candidate) && negb (matchesAny cwd (fp_denyWrite fs) path)
      && (matchesAny cwd (fp_writeAllow fs) candidate || matchesAny cwd (fp_tempWrite fs) candidate)
  end.

(** The request may go ahead although the policy is on. *)
Definition granted (policy : SandboxPolicy) (request : PathAccessRequest) (resolver : SandboxPathResolver) : Prop :=
  let fs := sp_filesystem policy in
  has_nul (pq_path request) = false /\ isSensitivePath (pq_path request) = false
  /\ exists resolved candidate, resolver (pq_path request) = Ok resolved /\ text_true (rs_error resolved) = false
     /\ resolvedDecisionPath resolved = Some candidate /\ isInside cwd (fp_root fs) candidate = true
     /\ (flag_true (rs_isSymlink resolved) = false \/ fp_followSymlinks fs = true)
     /\ permits fs (pq_kind request) candidate (pq_path request) = true.

Definition allows (policy : SandboxPolicy) (request : PathAccessRequest) (resolver : SandboxPathResolver) : Prop :=
  exists d, decidePathAccess cwd policy request resolver = Ok d /\ sd_allowed d = true.

Lemma allows_iff (policy : SandboxPolicy) (request : PathAccessRequest) (resolver : SandboxPathResolver) :
  allows policy request resolver <-> sp_mode policy = sandbox_off \/ granted policy request resolver.
Proof.
  unfold allows, granted, decidePathAccess. case_bool_decide as Hm; [split; [by left|by eexists]|].
  destruct (has_nul _); [split; [by intros (? & [= <-] & ?)|by intros [?|[? _]]]|].
  destruct (isSensitivePath _); [split; [by intros (? & [= <-] & ?)|by intros [?|(_ & ? & _)]]|].
  destruct (resolver (pq_path request)) as [resolved|e]; cbn [result_bind]; [|split; [by intros (? & ? & _)|by intros [?|(_ & _ & ? & ? & ? & _)]]].
  destruct (text_true _) eqn:Et; [split; [by intros (? & [= <-] & ?)|intros [?|(_ & _ & ? & ? & [= ->] & ? & _)]; congruence]|].
  unfold rootEscaped. destruct (resolvedDecisionPath resolved) as [candidate|] eqn:Ec.
  2: { split; [by intros (? & [= <-] & ?)|intros [?|(_ & _ & ? & ? & [= ->] & _ & ? & _)]; congruence]. }
  destruct (isInside _ _ _) eqn:Ei; cbn [negb].
  2: { split; [by intros (? & [= <-] & ?)|intros [?|(_ & _ & ? & ? & [= ->] & _ & ? & ? & _)]; congruence]. }
  destruct (flag_true _ && negb _) eqn:Es.
  { split; [by intros (? & [= <-] & ?)|intros [?|(_ & _ & ? & ? & [= ->] & _ & _ & _ & Hs & _)]; [done|]].
    apply andb_true_iff in Es as [? ?%negb_true_iff]. destruct Hs; congruence. }
  assert (flag_true (rs_isSymlink resolved) = false \/ fp_followSymlinks (sp_filesystem policy) = true) as Hs.
  { apply andb_false_iff in Es as [?|?%negb_false_iff]; auto. }
  cbn [default from_option].
  enough (sd_allowed (match pq_kind request with
                      | access_read => decide_read cwd (sp_filesystem policy) candidate (pq_path request)
                      | access_write => decide_write cwd (sp_filesystem policy) candidate (pq_path request)
                      end) = permits (sp_filesystem policy) (pq_kind request) candidate (pq_path request)) as Hp.
  { split.
    - intros (d & [= <-] & Hd). right. rewrite Hp in Hd. repeat split; try done. exists resolved, candidate. by repeat split.
    - intros [?|(_ & _ & ? & c & [= <-] & _ & Hc & _ & _ & Hd)]; [done|]. rewrite Ec in Hc. injection Hc as <-. eexists. split; [done|].
      exact (eq_trans Hp Hd). }
  unfold permits, decide_read, decide_write. destruct (pq_kind request);
    repeat (match goal with |- context [matchesAny ?a ?b ?c] => destruct (matchesAny a b c) end; cbn); done.
Qed.

(** ** Domains are narrowed as if they were paths *)

Definition domain_name (d : string) : bool :=
  negb (is_empty d) && negb (String.eqb d ".") && negb (String.eqb d "..")
  && sforall (fun a => negb (Ascii.eqb a slash) && negb (Ascii.eqb a backslash_char)) d.

Lemma no_slash_in (d t : string) :
  domain_name d = true -> d <> ("/" ++ t)%string /\ (forall p, d <> (p ++ "/" ++ t)%string).
Proof.
  unfold domain_name. rewrite !andb_true_iff. intros [_ H].
  assert (forall p, d <> (p ++ "/" ++ t)%string) as Hp by (intros p ->; by rewrite sforall_app, andb_true_iff in H; destruct H as [_ ?]).
  split; [exact (Hp EmptyString)|done].
Qed.

Lemma name_segment (d : string) : domain_name d = true -> pathSegments d = [d] /\ d <> "." /\ d <> ".." /\ normalizePathSlashes d = d /\ stripTrailing slash d = d.
Proof.
  unfold domain_name. rewrite !andb_true_iff, !negb_true_iff, !String.eqb_neq. intros [[[He H1] H2] H].
  assert (sforall (fun a => negb (Ascii.eqb a slash)) d = true) as Hs.
  { clear -H. induction d as [|a d IH]; [done|]. cbn in *. apply andb_true_iff in H as [[-> _]%andb_true_iff H]. by apply IH. }
  repeat split; try done.
  - unfold pathSegments. rewrite split_free by done. cbn. by rewrite He.
  - clear -H. unfold normalizePathSlashes. induction d as [|a d IH]; [done|]. cbn in *.
    apply andb_true_iff in H as [[_ ->%negb_true_iff]%andb_true_iff H]. by rewrite IH.
  - clear -Hs. induction d as [|a d IH]; [done|]. cbn in *. apply andb_true_iff in Hs as [Ha%negb_true_iff H]. rewrite IH by done.
    rewrite Ha. by destruct d.
Qed.

Lemma name_normal : exists P, forall d, domain_name d = true -> normal d = (P ++ d)%string.
Proof.
  pose (S := collapse_clamped (pathSegments cwd) []).
  exists (if decide (S = []) then "/" else (normalizePathSlashes ("/" ++ join "/" S) ++ "/")%string).
  intros d Hd. pose proof Hd as (Hseg & H1 & H2 & Hn & Ht)%name_segment.
  assert (segments d = S ++ [d]) as Hs.
  { unfold resolved_segments. replace (startsWith "/" d) with false.
    - rewrite pathSegments_app, Hseg. by apply collapse_clamped_snoc.
    - symmetry. destruct (startsWith "/" d) eqn:E; [|done]. apply startsWith_iff in E as [t ->]. by destruct (no_slash_in _ t Hd). }
  rewrite normal_text by (rewrite Hs; by intros [_ ?]%app_nil). unfold path_resolve. rewrite Hs.
  assert (d <> EmptyString) as Hne by by intros ->.
  assert (forall X, stripTrailing slash (normalizePathSlashes (X ++ d)) = (normalizePathSlashes X ++ d)%string) as HX.
  { intros X. unfold normalizePathSlashes in *. rewrite smap_app, Hn, stripTrailing_app, Ht. by destruct d. }
  destruct (decide (S = [])) as [->|HS]; [apply (HX "/")|].
  rewrite join_snoc by done. replace ("/" ++ join "/" S ++ "/" ++ d)%string with (("/" ++ join "/" S ++ "/") ++ d)%string.
  - rewrite HX. unfold normalizePathSlashes. by rewrite !smap_app, !app_assoc_str.
  - by rewrite !app_assoc_str.
Qed.

Lemma name_strip (d : string) : domain_name d = true -> stripGlobSuffix d = d.
Proof.
  intros Hd. destruct (strip_cases d) as [?|(suf & Hs & Hp)]; [done|]. exfalso.
  destruct Hs as [->| ->]; [exact (proj2 (no_slash_in d "**" Hd) _ Hp)|exact (proj2 (no_slash_in d "*" Hd) _ Hp)].
Qed.

Lemma name_matches (a b : string) : domain_name a = true -> domain_name b = true -> matchesPattern cwd a b = true -> a = b.
Proof.
  intros Ha Hb. unfold matchesPattern. rewrite name_strip by done. destruct name_normal as [P HP]. rewrite !HP by done.
  rewrite text_inside_iff. intros [H|[rest H]]; rewrite ?app_assoc_str in H; apply app_inj_l_str in H; [done|].
  exfalso. exact (proj2 (no_slash_in b rest Hb) _ H).
Qed.

Lemma domains_subset (base : list string) (override : option (list string)) (p : string) :
  Forall (fun d => domain_name d = true) (base ++ default [] override) -> p ∈ intersectOrBase cwd base override -> p ∈ base.
Proof.
  rewrite Forall_app, !Forall_forall. intros [Hb Ho]. destruct override as [override|]; [|done]. cbn in Ho. cbn [intersectOrBase].
  rewrite elem_of_dedup. intros (candidate & Hc & Hp)%elem_of_concat_map.
  apply elem_of_concat_map in Hp as (entry & He & Hp). revert Hp. unfold intersect_pair.
  destruct name_normal as [P HP]. specialize (Hb _ He). specialize (Ho _ Hc).
  destruct (String.eqb_spec (normal candidate) (normal entry)) as [Hn|_].
  - intros ->%list_elem_of_singleton. rewrite !HP in Hn by done. apply app_inj_l_str in Hn. congruence.
  - destruct (matchesPattern cwd entry candidate) eqn:Em.
    + intros ->%list_elem_of_singleton. apply name_matches in Em; congruence.
    + destruct (matchesPattern cwd candidate entry); [|by intros ?%elem_of_nil]. by intros ->%list_elem_of_singleton.
Qed.

(** ** Properties *)

Context (hostname : string -> option string).

Definition connects (policy : SandboxPolicy) (request : NetworkAccessRequest) : Prop :=
  sd_allowed (decideNetworkAccess hostname policy request) = true.

(** The request may go out although the policy is on. *)
Definition outbound (net : NetworkPolicy) (request : NetworkAccessRequest) : Prop :=
  flag_true (nq_browser request) || text_true (nq_unixSocketPath request) = false /\ np_mode net <> net_none
  /\ (flag_true (nq_loopback request) = true
      \/ flag_true (nq_loopback request) = false
         /\ exists host, hostFromRequest hostname request = Some host /\ host <> EmptyString
            /\ hostMatches (np_deniedDomains net) host = false
            /\ (np_mode net = net_all_explicit \/ np_mode net = net_domain_allowlist /\ hostMatches (np_allowedDomains net) host = true)).

Lemma connects_iff (policy : SandboxPolicy) (request : NetworkAccessRequest) :
  connects policy request <-> sp_mode policy = sandbox_off \/ outbound (sp_network policy) request.
Proof.
  unfold connects, decideNetworkAccess, outbound. case_bool_decide; [split; [by left|done]|].
  destruct (_ || _); [split; [done|by intros [?|[? _]]]|]. case_bool_decide as Hn; [split; [done|by intros [?|(_ & ? & _)]]|].
  destruct (flag_true (nq_loopback request)).
  { split; [intros _; right; by auto|intros _]. by destruct (np_mode (sp_network policy)). }
  destruct (hostFromRequest hostname request) as [host|]; [|split; [done|by intros [?|(_ & _ & [?|(_ & ? & ? & _)])]]].
  destruct host as [|a h]; [split; [done|intros [?|(_ & _ & [?|(_ & ? & [= <-] & ? & _)])]; done]|]. set (host := String a h).
  destruct (hostMatches (np_deniedDomains _) host) eqn:Ed.
  { split; [done|]. intros [?|(_ & _ & [?|(_ & ? & [= <-] & _ & ? & _)])]; [done..|]. subst host. congruence. }
  case_bool_decide as Ha.
  { split; [intros _; right; repeat split; try done; right; split; [done|]; exists host; by auto|done]. }
  case_bool_decide as Hd; cbn [andb].
  2: { split; [done|]. intros [?|(_ & _ & [?|(_ & ? & [= <-] & _ & _ & [?|[? _]])])]; done. }
  destruct (hostMatches (np_allowedDomains _) host) eqn:Em.
  - split; [intros _; right; repeat split; try done; right; split; [done|]; exists host; by auto 10|done].
  - split; [done|]. intros [?|(_ & _ & [?|(_ & ? & [= <-] & _ & _ & [?|[_ ?]])])]; [done..|]. subst host. congruence.
Qed.

Lemma hostMatches_mono (l l' : list string) (host : string) :
  (forall d, d ∈ l -> d ∈ l') -> hostMatches l host = true -> hostMatches l' host = true.
Proof. unfold hostMatches. rewrite !existsb_true_iff. intros H (d & Hd & Hh). eauto. Qed.

Lemma outbound_mono (net net' : NetworkPolicy) (request : NetworkAccessRequest) :
  (network_rank (np_mode net') <= network_rank (np_mode net))%nat ->
  (forall d, d ∈ np_deniedDomains net -> d ∈ np_deniedDomains net') ->
  (forall d, d ∈ np_allowedDomains net' -> d ∈ np_allowedDomains net) -> outbound net' request -> outbound net request.
Proof.
  intros Hr Hd Ha (Hb & Hm & Hh). split; [done|].
  split; [by intros Hn; rewrite Hn in Hr; destruct (np_mode net'); cbn in Hr; [|lia..]|].
  destruct Hh as [Hl|(Hl & host & Hhost & Hne & Hden & Hok)]; [by left|right]. split; [done|]. exists host. repeat split; try done.
  - apply not_true_iff_false. intros H. apply (hostMatches_mono _ _ _ Hd) in H. congruence.
  - destruct (np_mode net) eqn:Em; destruct Hok as [Hn|[Hn Hok]]; rewrite Hn in Hr; cbn in Hr; try lia; try (by left).
    right. split; [done|]. by eapply hostMatches_mono.
Qed.

Lemma narrow_rank (base : NetworkMode) (override : option NetworkMode) :
  (network_rank (narrowNetworkMode base override) <= network_rank base)%nat.
Proof. destruct override as [o|]; cbn; [|done]. by destruct (Nat.leb_spec (network_rank o) (network_rank base)). Qed.

(** C11: Merging only narrows. Without leave to broaden, and unless it turns the policy off or moves the root out of the old
    one, an override yields a policy that grants no read and no write the base policy would not grant, lets nothing out
    to a host the base would not, and allows no shell and no command the base forbids, whatever lists it brings. Asked of
    the base: its patterns, their glob taken off, are not the root and do not still end in a glob, and its domains, like
    the override's, are names. *)
Theorem merge_only_narrows (base : SandboxPolicy) (override : SandboxOverride) (allow : option bool)
    (Hallow : allow <> Some true) (Hmode : so_mode override = Some sandbox_off -> sp_mode base = sandbox_off)
    (Hroot : forall r, so_filesystem override ≫= fo_root = Some r -> isInside cwd (fp_root (sp_filesystem base)) r = true)
    (Hread : Forall (fun p => narrowable p = true) (fp_readAllow (sp_filesystem base)))
    (Hwrite : Forall (fun p => narrowable p = true) (fp_writeAllow (sp_filesystem base)))
    (Htemp : Forall (fun p => narrowable p = true) (fp_tempWrite (sp_filesystem base)))
    (Hnames : Forall (fun d => domain_name d = true)
                (np_allowedDomains (sp_network base) ++ default [] (so_network override ≫= no_allowedDomains))) :
  let merged := mergeSandboxPolicy cwd base override allow in
  (forall request resolver, allows merged request resolver -> allows base request resolver)
  /\ (forall request, connects merged request -> connects base request)
  /\ (pp_allowShell (sp_process merged) = true -> pp_allowShell (sp_process base) = true)
  /\ (pp_allowExec (sp_process merged) = true -> pp_allowExec (sp_process base) = true).
Proof.
  cbn zeta. unfold mergeSandboxPolicy. rewrite (bool_decide_eq_false_2 _ Hallow).
  assert (forall A (P : Prop), default (sp_mode base) (so_mode override) = sandbox_off \/ A -> (A -> sp_mode base = sandbox_off \/ P) ->
    sp_mode base = sandbox_off \/ P) as Hoff.
  { intros A P [H|H] HA; [|by apply HA]. left. destruct (so_mode override); cbn in H; [subst; auto|done]. }
  split; [|split; [|split]].
  - intros request resolver. rewrite !allows_iff. cbn [sp_mode]. intros H. apply (Hoff _ _ H). clear H Hoff. unfold granted.
    cbn [sp_filesystem fp_root fp_followSymlinks].
    intros (Hn & Hs & resolved & candidate & Hr & He & Hc & Hi & Hl & Hp). right. split; [done|]. split; [done|].
    exists resolved, candidate. repeat split; try done.
    + destruct (so_filesystem override ≫= fo_root) as [r|] eqn:Er; cbn in Hi; [|done].
      eapply text_inside_trans; [exact (Hroot r eq_refl)|exact Hi].
    + destruct Hl; [by left|done].
    + revert Hp. unfold permits. cbn [fp_readAllow fp_readDeny fp_writeAllow fp_denyWrite fp_tempWrite].
      destruct (pq_kind request); rewrite !andb_true_iff, !negb_true_iff, ?orb_true_iff; intros [[H1 H2] H3];
        (split; [split; by eapply union_above|]); [by eapply intersect_below|].
      destruct H3; [left|right]; by eapply intersect_below.
  - intros request. rewrite !connects_iff. cbn [sp_mode]. intros H. apply (Hoff _ _ H). clear H Hoff.
    intros Ho. right. revert Ho. apply outbound_mono; cbn [sp_network np_mode np_deniedDomains np_allowedDomains].
    + apply narrow_rank.
    + intros d Hd. unfold union. rewrite elem_of_dedup. apply elem_of_app. by left.
    + intros d. by apply domains_subset.
  - cbn. by intros [? _]%andb_true_iff.
  - cbn. by intros [? _]%andb_true_iff.
Qed.

(** ** Segments *)

Lemma collapse_clamped_proper (l acc : list string) :
  (forall w, w ∈ l -> w <> EmptyString /\ sforall (fun a => negb (Ascii.eqb a slash)) w = true) ->
  Forall proper_segment acc -> Forall proper_segment (collapse_clamped l acc).
Proof.
  revert acc. induction l as [|s l IH]; intros acc Hl Ha; [done|]. cbn [collapse_clamped].
  assert (forall w, w ∈ l -> w <> EmptyString /\ sforall (fun a => negb (Ascii.eqb a slash)) w = true) as Hl' by
    (intros; apply Hl; by right).
  destruct (String.eqb_spec s "."); [by apply IH|]. destruct (String.eqb_spec s ".."); apply IH; try done.
  - apply Forall_forall. intros w Hw. rewrite Forall_forall in Ha. apply Ha.
    destruct (decide (acc = [])) as [->|Hne]; [done|]. rewrite (app_removelast_last EmptyString Hne). apply elem_of_app. by left.
  - apply Forall_app. split; [done|]. apply Forall_singleton. destruct (Hl s) as [? ?]; [by left|]. by repeat split.
Qed.

Lemma segments_proper (v : string) : Forall proper_segment (segments v).
Proof. apply collapse_clamped_proper; [|constructor]. intros w Hw. by eapply pathSegments_elem. Qed.

(** No backslash in the resolved path. *)
Definition plain_path (v : string) : bool := no_backslash (path_resolve cwd v).

Lemma normal_plain (v : string) : plain_path v = true -> segments v <> [] -> normal v = path_resolve cwd v.
Proof.
  intros Hp Hn. rewrite normal_text, normalizePathSlashes_id by done. unfold path_resolve.
  destruct (exists_last Hn) as (l & w & E). rewrite E.
  assert (proper_segment w) as (Hne & _ & _ & Hw).
  { pose proof (segments_proper v) as H. rewrite E, Forall_app in H. destruct H as [_ H]. exact (proj1 (Forall_singleton _ _) H). }
  assert (stripTrailing slash w = w) as Ht.
  { clear -Hw. induction w as [|a w IH]; [done|]. cbn in *. apply andb_true_iff in Hw as [Ha%negb_true_iff Hw]. rewrite IH by done.
    rewrite Ha. by destruct w. }
  assert (forall X, stripTrailing slash (X ++ w) = (X ++ w)%string) as HX by (intros X; rewrite stripTrailing_app, Ht; by destruct w).
  destruct (decide (l = [])) as [->|Hl]; [apply (HX "/")|]. rewrite join_snoc by done.
  replace ("/" ++ join "/" l ++ "/" ++ w)%string with (("/" ++ join "/" l ++ "/") ++ w)%string; [by rewrite HX|].
  by rewrite !app_assoc_str.
Qed.

Lemma inside_segments (parent child : string) :
  plain_path parent = true -> plain_path child = true -> segments parent <> [] -> segments child <> [] ->
  isInside cwd parent child = true -> exists rest, segments child = segments parent ++ rest.
Proof.
  intros Hp Hc Hnp Hnc. unfold isInside. rewrite !normal_plain, text_inside_iff by done. unfold path_resolve.
  intros [H|[rest H]]; rewrite ?app_assoc_str in H; apply app_inj_l_str in H; apply (f_equal pathSegments) in H;
    rewrite ?pathSegments_app, !pathSegments_join in H by apply segments_proper.
  - exists []. by rewrite app_nil_r.
  - by exists (pathSegments rest).
Qed.

Lemma root_outside (parent child : string) :
  plain_path parent = true -> segments parent <> [] -> segments child = [] -> isInside cwd parent child = false.
Proof.
  intros Hp Hn Hc. apply not_true_iff_false. unfold isInside. rewrite (normal_plain parent) by done. rewrite text_inside_iff.
  assert (normal child = "/" \/ normal child = EmptyString) as Hchild.
  { unfold normalize, path_resolve. rewrite Hc. cbn. destruct (String.eqb child "/"); auto. }
  assert (join "/" (segments parent) <> EmptyString) as Hj.
  { pose proof (segments_proper parent) as H. destruct (segments parent) as [|w ws]; [done|]. rewrite join_cons.
    apply Forall_cons in H as [[Hw _] _]. by destruct w. }
  unfold path_resolve. destruct Hchild as [->| ->]; intros [H|[rest H]]; try done; injection H; [congruence|].
  by destruct (join "/" (segments parent)).
Qed.

(** C12: What a policy grants lies below its root. When a policy that is on allows an access, the path has no NUL and does
    not look like a secret, the resolver knew its place without error and without an unwanted symbolic link, the segments
    of that place begin with those of the root, an allow pattern of the kind matches it, and no deny pattern of the kind
    matches it or the path asked for. Paths with backslashes and the root directory itself are set aside. *)
Theorem access_stays_inside (policy : SandboxPolicy) (request : PathAccessRequest) (resolver : SandboxPathResolver)
    (d : SandboxDecision) (Hd : decidePathAccess cwd policy request resolver = Ok d) (Hallowed : sd_allowed d = true)
    (Hon : sp_mode policy <> sandbox_off) (Hroot : segments (fp_root (sp_filesystem policy)) <> [])
    (Hplain : plain_path (fp_root (sp_filesystem policy)) = true) :
  let fs := sp_filesystem policy in
  has_nul (pq_path request) = false /\ isSensitivePath (pq_path request) = false
  /\ exists resolved candidate, resolver (pq_path request) = Ok resolved /\ resolvedDecisionPath resolved = Some candidate
     /\ (rs_error resolved = None \/ rs_error resolved = Some EmptyString)
     /\ (rs_isSymlink resolved = Some true -> fp_followSymlinks fs = true)
     /\ (plain_path candidate = true -> exists rest, segments candidate = segments (fp_root fs) ++ rest)
     /\ let '(denied, permitted) := match pq_kind request with
                              | access_read => (fp_readDeny fs, fp_readAllow fs)
                              | access_write => (fp_denyWrite fs, fp_writeAllow fs ++ fp_tempWrite fs)
                              end in
        (exists p, p ∈ permitted /\ matchesPattern cwd p candidate = true)
        /\ forall p, p ∈ denied -> matchesPattern cwd p candidate = false /\ matchesPattern cwd p (pq_path request) = false.
Proof.
  assert (allows policy request resolver) as H by by exists d.
  apply allows_iff in H as [?|(Hn & Hs & resolved & candidate & Hr & He & Hc & Hi & Hl & Hp)]; [done|].
  cbn zeta. split; [done|]. split; [done|]. exists resolved, candidate. split; [done|]. split; [done|]. split; [|split; [|split]].
  - destruct (rs_error resolved) as [e|]; [right|by left]. cbn in He. by destruct e.
  - intros Hl'. rewrite Hl' in Hl. by destruct Hl.
  - intros Hcp. apply inside_segments; try done. intros Hc0.
    by rewrite (root_outside _ _ Hplain Hroot Hc0) in Hi.
  - unfold permits in Hp. destruct (pq_kind request); rewrite !andb_true_iff, !negb_true_iff, ?orb_true_iff, ?matchesAny_iff in Hp;
      destruct Hp as [[Hd1 Hd2] Ha].
    + split; [done|]. intros p Hpd. by split; eapply matchesAny_false.
    + split.
      * destruct Ha as [(p & ? & ?)|(p & ? & ?)]; exists p; rewrite elem_of_app; by auto.
      * intros p Hpd. by split; eapply matchesAny_false.
Qed.
End Paths.

(** ** Spawning *)

(** A variable the sandbox passes on. *)
Definition passes (extraBlocklist allowlist : list string) (key : string) : bool :=
  negb (one_of_names LOADER_INJECTION_VARS key || one_of_names extraBlocklist key || isSecretName key allowlist)
  && negb (String.eqb key "__proto__").

Lemma filter_env_elem (env : ProcessEnv) (allowlist extraBlocklist : list string) (out : list (string * string)) (k v : string) :
  (k, v) ∈ filter_env env allowlist extraBlocklist out
  <-> (k, v) ∈ out \/ (k, Some v) ∈ env /\ passes extraBlocklist allowlist k = true.
Proof.
  revert out. induction env as [|[key value] env IH]; intros out; cbn [filter_env].
  - split; [by left|]. intros [?|[H _]]; [done|by apply elem_of_nil in H].
  - rewrite IH, elem_of_cons. destruct value as [value|]; [|naive_solver].
    destruct (passes extraBlocklist allowlist key) eqn:Ep; pose proof Ep as Eq; unfold passes in Eq.
    + apply andb_true_iff in Eq as [Eb%negb_true_iff Ek%negb_true_iff]. rewrite Eb. unfold put. rewrite Ek.
      rewrite elem_of_app, list_elem_of_singleton. naive_solver.
    + assert ((if one_of_names LOADER_INJECTION_VARS key || one_of_names extraBlocklist key || isSecretName key allowlist
               then out else put key value out) = out) as ->.
      { apply andb_false_iff in Eq as [->%negb_false_iff|Ek%negb_false_iff]; [done|]. unfold put. rewrite Ek. by destruct (_ || _ || _). }
      split; [naive_solver|]. intros [?|[[[= -> ->]|?] Hk]]; [by left|congruence|by right].
Qed.

(** The first word of a wrapped command. *)
Definition is_wrapper (word : string) : Prop := word = "sandbox-exec" \/ word = "bwrap".

Lemma wrapped_argv (backend : SandboxBackendStatus) (invocation : SandboxInvocation) (argv : list string) :
  buildBackendArgv backend invocation = Ok argv ->
  bs_backendAvailable backend = true
  /\ exists wrapper options, argv = wrapper :: options ++ iv_argv invocation /\ is_wrapper wrapper.
Proof.
  unfold buildBackendArgv. destruct (bs_platform backend), (bs_backendAvailable backend); try done; intros [= <-]; (split; [done|]).
  - eexists "bwrap", (tail (bubblewrap_options invocation)). split; [done|by right].
  - by exists "sandbox-exec", ["-p"; seatbeltProfile invocation]; split; [|left].
Qed.

(** C13: What is spawned under a policy is contained. A request that is allowed under a policy that is on runs in the
    directory asked for, one the policy lets be read; of the environment it gets exactly the variables that are defined,
    inject nothing into the loader and have no name of a secret; and its command is the one asked for behind a wrapper of an
    available backend, with a shell and commands allowed, or, under an audited policy without a backend only, bare. *)
Theorem spawn_is_contained (cwd : string) (existsSync : string -> bool) (realpathSync : string -> option string)
    (input : SandboxedSpawnRequestInput) (p : SpawnPermit)
    (Hp : buildSandboxedSpawnRequest cwd existsSync realpathSync input = Ok (spawn_allowed p))
    (Hon : sp_mode (si_policy input) <> sandbox_off) :
  let policy := si_policy input in
  let resolver := default (resolveSandboxPath cwd existsSync realpathSync (fp_root (sp_filesystem policy))) (si_resolver input) in
  sr_cwd p = si_cwd input /\ allows cwd policy {| pq_kind := access_read; pq_path := si_cwd input |} resolver
  /\ (forall k v, (k, v) ∈ sr_env p <-> (k, Some v) ∈ si_env input /\ passes [] [] k = true)
  /\ (if sr_wrapped p then
        pp_allowShell (sp_process policy) = true /\ pp_allowExec (sp_process policy) = true
        /\ bs_backendAvailable (si_backend input) = true
        /\ exists wrapper options, sr_argv p = wrapper :: options ++ si_argv input /\ is_wrapper wrapper
      else sp_mode policy = sandbox_audit /\ bs_backendAvailable (si_backend input) = false /\ sr_argv p = si_argv input).
Proof.
  cbn zeta. revert Hp. unfold buildSandboxedSpawnRequest. rewrite (bool_decide_eq_false_2 _ Hon).
  set (resolver := default _ _). destruct (decidePathAccess _ _ _ _) as [d|e] eqn:Ed; cbn [result_bind]; [|done].
  destruct (sd_allowed d) eqn:Ha; cbn [negb]; [|done].
  assert (allows cwd (si_policy input) {| pq_kind := access_read; pq_path := si_cwd input |} resolver) as Hal by by exists d.
  assert (forall k v, (k, v) ∈ filterSandboxEnv (si_env input) None None <-> (k, Some v) ∈ si_env input /\ passes [] [] k = true) as Henv.
  { intros k v. unfold filterSandboxEnv. rewrite filter_env_elem. cbn. split; [intros [H|H]; [by apply elem_of_nil in H|done]|by right]. }
  unfold decideSandboxFallback. rewrite (bool_decide_eq_false_2 _ Hon).
  destruct (bs_backendAvailable (si_backend input)) eqn:Eb.
  - cbn. destruct (pp_allowShell _) eqn:Es, (pp_allowExec _) eqn:Ex; cbn; try done.
    destruct (buildBackendArgv _ _) as [argv|] eqn:Ew; [|done]. intros [= <-]. apply wrapped_argv in Ew as [_ Hw]. by cbn.
  - destruct (bool_decide_reflect (sp_mode (si_policy input) = sandbox_audit)) as [Hm|Hm]; cbn; [|done]. intros [= <-]. by cbn.
Qed.

(** ** The search for an existing parent ends *)

Lemma behind_shorter (l r : list ascii) (m : bool) :
  behind_slash l m = Some r -> (length r + (if m then 2 else 1) <= length l)%nat.
Proof.
  revert m. induction l as [|a l IH]; intros m; [done|]. destruct l as [|b l]; [done|]. cbn [behind_slash].
  destruct (Ascii.eqb a slash); [destruct m|]; intros H.
  - pose proof (IH true H). cbn [length] in *. lia.
  - injection H as <-. cbn [length]. lia.
  - pose proof (IH false H). cbn [length] in *. destruct m; lia.
Qed.

Lemma length_of_ascii (l : list ascii) : String.length (string_of_list_ascii l) = length l.
Proof. induction l as [|a l IH]; [done|]. cbn. by rewrite IH. Qed.

Lemma dirname_shorter (path : string) :
  path <> "/" -> path <> EmptyString -> dirname path = "." \/ (String.length (dirname path) < String.length path)%nat.
Proof.
  intros Hr He. unfold dirname. destruct (behind_slash _ _) as [r|] eqn:E.
  - right. apply behind_shorter in E. rewrite length_rev, length_list_ascii in E.
    destruct (startsWith "/" path && _) eqn:Eh.
    + apply andb_true_iff in Eh as [_ Eh%Nat.eqb_eq]. cbn. lia.
    + rewrite length_of_ascii, length_rev. lia.
  - destruct (startsWith "/" path) eqn:Es; [right|by left]. apply startsWith_iff in Es as [t ->].
    destruct t as [|a t]; [by rewrite app_nil_str in Hr|]. cbn. lia.
Qed.

(** More fuel than the length of the path changes nothing. *)
Lemma nearest_fuel (existsSync : string -> bool) (realpathSync : string -> option string) (fuel : nat) (current : string) :
  (String.length current <= fuel)%nat \/ current = "." ->
  nearest_from existsSync realpathSync (S fuel) current = nearest_from existsSync realpathSync fuel current.
Proof.
  revert current. induction fuel as [|fuel IH]; intros current Hc.
  - destruct Hc as [Hc| ->]; [|done]. destruct current; [done|]. cbn in Hc. lia.
  - cbn [nearest_from] in *. destruct (String.eqb_spec current "/") as [|Hr]; [done|]. destruct (is_empty current) eqn:Ee; [done|].
    destruct (String.eqb_spec current ".") as [|Hd]; [done|]. cbn [orb]. destruct (existsSync current); [done|].
    destruct (String.eqb (dirname current) current); [done|]. apply IH.
    destruct Hc as [Hc|?]; [|done]. assert (current <> EmptyString) as He by by intros ->.
    destruct (dirname_shorter current Hr He) as [->|Hs]; [by right|left; lia].
Qed.

(** ** Runs *)

Definition sample_fs : FilesystemPolicy :=
  {| fp_root := "/work"; fp_readAllow := ["/work/**"]; fp_readDeny := ["/work/private/**"]; fp_writeAllow := ["/work/src/**"];
     fp_denyWrite := ["/work/src/gen/*"]; fp_tempWrite := ["/tmp"]; fp_followSymlinks := false |}.

Definition sample_policy (mode : SandboxMode) (network : NetworkMode) (shell : bool) : SandboxPolicy :=
  {| sp_mode := mode; sp_profile := profile_workspace_write; sp_filesystem := sample_fs;
     sp_network := {| np_mode := network; np_allowedDomains := ["example.com"]; np_deniedDomains := ["ads.example.com"];
                      np_allowUnixSockets := []; np_allowBrowser := false |};
     sp_process := {| pp_allowExec := shell; pp_allowShell := shell; pp_allowPrivilege := false |} |}.

Definition no_file (_ : string) : bool := false.
Definition plain_real (path : string) : option string := Some path.
Definition sample_host (url : string) : option string := if startsWith "https://" url then Some (slice 8 url) else None.

Definition real_resolver (path : string) : result string ResolvedSandboxPath :=
  resolveSandboxPath "/work" no_file plain_real "/work" path.

Definition answer_of (d : result string SandboxDecision) : option (bool * string) :=
  match d with
  | Ok d => Some (sd_allowed d, sd_rule d)
  | Err _ => None
  end.

Definition asked (kind : PathAccessKind) (path : string) : option (bool * string) :=
  answer_of (decidePathAccess "/work" (sample_policy sandbox_enforce net_none true) {| pq_kind := kind; pq_path := path |} real_resolver).

Example sandbox_access_examples :
  [asked access_read "src/a.ts"; asked access_read "private/a"; asked access_write "src/a.ts"; asked access_write "src/gen/a.ts";
   asked access_write "a.ts"; asked access_read "../etc/passwd"; asked access_read "/work/.env"; asked access_read "src/token.ts"]
  = [Some (true, "path.read_allow"); Some (false, "path.read_deny"); Some (true, "path.write_allow"); Some (false, "path.deny_write");
     Some (false, "path.write_not_allowed"); Some (false, "path.root_escape"); Some (false, "path.secret"); Some (false, "path.secret")].
Proof. vm_compute. reflexivity. Qed.

Example dirname_examples : map dirname ["/a/b"; "/a"; "a"; "//a"; "/a//b/"; "//"; "a/"] = ["/a"; "/"; "."; "//"; "/a/"; "/"; "."].
Proof. vm_compute. reflexivity. Qed.

Definition request_to (host : string) : NetworkAccessRequest :=
  {| nq_host := Some host; nq_url := None; nq_unixSocketPath := None; nq_browser := None; nq_loopback := None |}.

Definition sample_override (mode : option NetworkMode) (domains : option (list string)) (allowed : list string) : SandboxOverride :=
  {| so_mode := None; so_profile := None;
     so_filesystem := Some {| fo_root := None; fo_readAllow := Some allowed; fo_readDeny := None; fo_writeAllow := Some allowed;
                              fo_denyWrite := None; fo_tempWrite := None |};
     so_network := Some {| no_mode := mode; no_allowedDomains := domains; no_deniedDomains := None; no_allowUnixSockets := None |};
     so_process := None |}.

Lemma merge_only_narrows_witness :
  let base := sample_policy sandbox_enforce net_domain_allowlist true in
  let merged := mergeSandboxPolicy "/work" base (sample_override None (Some ["example.com"; "other.org"]) ["/work/src/**"; "/etc"]) None in
  fp_readAllow (sp_filesystem merged) = ["/work/src/**"]
  /\ ((forall request resolver, allows "/work" merged request resolver -> allows "/work" base request resolver)
      /\ (forall request, connects sample_host merged request -> connects sample_host base request)
      /\ (pp_allowShell (sp_process merged) = true -> pp_allowShell (sp_process base) = true)
      /\ (pp_allowExec (sp_process merged) = true -> pp_allowExec (sp_process base) = true)).
Proof.
  split; [vm_compute; reflexivity|].
  apply (merge_only_narrows "/work" sample_host (sample_policy sandbox_enforce net_domain_allowlist true)
           (sample_override None (Some ["example.com"; "other.org"]) ["/work/src/**"; "/etc"]) None); try discriminate;
    repeat constructor.
Defined.

Lemma access_stays_inside_witness :
  exists rest, resolved_segments "/work" "/work/src/a.ts" = ["work"] ++ rest.
Proof.
  destruct (access_stays_inside "/work" (sample_policy sandbox_enforce net_none true)
              {| pq_kind := access_read; pq_path := "src/a.ts" |} real_resolver (decision true "path.read_allow" "Read path is allowed."))
    as (_ & _ & resolved & candidate & Hr & Hc & _ & _ & Hrest & _).
  - vm_compute. reflexivity.
  - reflexivity.
  - discriminate.
  - discriminate.
  - vm_compute. reflexivity.
  - vm_compute in Hr. injection Hr as <-. vm_compute in Hc. injection Hc as <-. apply Hrest. vm_compute. reflexivity.
Defined.

Definition linux_backend (available : bool) : SandboxBackendStatus :=
  {| bs_platform := platform_linux; bs_backendAvailable := available; bs_domainAllowlistAvailable := None |}.

Definition sample_spawn (policy : SandboxPolicy) (backend : SandboxBackendStatus) : SandboxedSpawnRequestInput :=
  {| si_argv := ["bash"; "-c"; "make"]; si_cwd := "/work/src";
     si_env := [("PATH", Some "/bin"); ("LD_PRELOAD", Some "x.so"); ("my_api_key", Some "k"); ("EMPTY", None)];
     si_policy := policy; si_backend := backend; si_resolver := None |}.

Definition sample_permit : SpawnPermit :=
  {| sr_decision := decision true "sandbox.audit_fallback" "Audit mode permits execution without backend.";
     sr_argv := ["bash"; "-c"; "make"]; sr_cwd := "/work/src"; sr_env := [("PATH", "/bin")]; sr_wrapped := false |}.

Lemma spawn_is_contained_witness :
  sr_cwd sample_permit = "/work/src" /\ sp_mode (sample_policy sandbox_audit net_none true) = sandbox_audit.
Proof.
  pose proof (spawn_is_contained "/work" no_file plain_real (sample_spawn (sample_policy sandbox_audit net_none true) (linux_backend false))
                sample_permit ltac:(vm_compute; reflexivity) ltac:(discriminate)) as (H & _ & _ & Hw).
  split; [exact H|exact (proj1 Hw)].
Defined.

(** ** What the models show *)

Definition invocation_of (policy : SandboxPolicy) : SandboxInvocation :=
  buildInvocation (sample_spawn policy (linux_backend true)) [].

(** The profile of the macOS sandbox allows everything by default; what it denies on files is only [denyWrite]. *)
Lemma seatbelt_denies_only_denyWrite (iv : SandboxInvocation) (line : string) :
  line ∈ seatbelt_lines iv -> startsWith "(deny file" line = true ->
  "(allow default)" ∈ seatbelt_lines iv /\ exists path, path ∈ iv_denyWrite iv /\ line = subpath_rule "deny file-write*" path.
Proof.
  intros Hl Hd. split; [apply elem_of_app; left; by right; right; left|]. unfold seatbelt_lines in Hl.
  rewrite !elem_of_app in Hl.
  destruct Hl as [Hl|[Hl|[Hl|[Hl|[Hl|Hl]]]]].
  - exfalso. rewrite !elem_of_cons, elem_of_nil in Hl. by destruct Hl as [->|[->|[->|[->|?]]]].
  - apply list_elem_of_fmap in Hl as (path & -> & _). done.
  - apply list_elem_of_fmap in Hl as (path & -> & _). done.
  - apply list_elem_of_fmap in Hl as (path & -> & _). done.
  - apply list_elem_of_fmap in Hl as (path & -> & Hp). eauto.
  - exfalso. destruct (iv_mode iv), (iv_allowedDomains iv); try (by apply elem_of_nil in Hl);
      rewrite ?elem_of_cons, ?elem_of_nil in Hl; try (by destruct Hl as [->|[->|?]]); try (by destruct Hl as [->|?]);
      apply list_elem_of_fmap in Hl as (d & -> & _); done.
Qed.

(** Under bubblewrap a loopback or an allowlist policy shares the whole network, like an explicit one. *)
Lemma bubblewrap_shares_network (policy : SandboxPolicy) (mode : NetworkMode) :
  mode <> net_none ->
  let with_mode m := invocation_of (sample_policy sandbox_enforce m true) in
  bubblewrap_options (with_mode mode) = bubblewrap_options (with_mode net_all_explicit).
Proof. by destruct mode. Qed.

(** It binds the root writable, although nothing in it may be written. *)
Lemma bubblewrap_root_writable (iv : SandboxInvocation) :
  exists rest, bubblewrap_options iv = ["bwrap"; "--unshare-all"; "--bind"; iv_root iv; iv_root iv] ++ rest.
Proof. by eexists. Qed.

(** Without a backend, an audited policy that forbids the shell spawns one. *)
Lemma audit_ignores_process_policy :
  let forbidden := sample_policy sandbox_audit net_none false in
  (exists d, buildSandboxedSpawnRequest "/work" no_file plain_real (sample_spawn forbidden (linux_backend true)) = Ok (spawn_denied d))
  /\ (exists p, buildSandboxedSpawnRequest "/work" no_file plain_real (sample_spawn forbidden (linux_backend false)) = Ok (spawn_allowed p)).
Proof. split; eexists; vm_compute; reflexivity. Qed.

(** The root as [/] holds nothing; as [/.] everything. *)
Lemma root_holds_nothing : isInside "/work" "/" "/etc" = false /\ isInside "/work" "/." "/etc" = true.
Proof. by vm_compute. Qed.

(** The pattern for everything stands for the working directory. *)
Lemma everything_is_cwd : matchesPattern "/work" "/**" "/work/a" = true /\ matchesPattern "/work" "/**" "/etc/a" = false.
Proof. by vm_compute. Qed.

(** A pattern with a glob elsewhere than at its end matches no path of a file. *)
Lemma inner_glob_matches_nothing : matchesPattern "/work" "**/.env.local" "/work/app/.env.local" = false.
Proof. by vm_compute. Qed.

(** A sibling whose name goes on with a backslash counts as inside. *)
Lemma backslash_sibling_inside : isInside "/" "/work" (string_of_list_ascii ["/"; "w"; "o"; "r"; "k"; "092"; "x"])%char = true.
Proof. by vm_compute. Qed.

(** An override turns a policy off without leave to broaden. *)
Lemma merge_turns_off :
  sp_mode (mergeSandboxPolicy "/work" (sample_policy sandbox_enforce net_none true)
             {| so_mode := Some sandbox_off; so_profile := None; so_filesystem := None; so_network := None; so_process := None |} None)
  = sandbox_off.
Proof. reflexivity. Qed.

(** A list of fewer domains is compared as paths: narrowing to a subdomain, or to an allowlist where everything was allowed,
    allows no host at all. *)
Lemma subdomain_narrowing_lost :
  np_allowedDomains (sp_network (mergeSandboxPolicy "/work" (sample_policy sandbox_enforce net_domain_allowlist true)
                                   (sample_override None (Some ["api.example.com"]) []) None)) = [].
Proof. by vm_compute. Qed.

(** A narrowing that the hypotheses of [merge_only_narrows] exclude: the override matches more than the base did. *)
Lemma double_glob_broadens :
  let base := ["src/**/**"] in
  matchesAny "/work" base "/work/src/a" = false
  /\ matchesAny "/work" (intersectOrBase "/work" base (Some ["src/**"])) "/work/src/a" = true.
Proof. by vm_compute. Qed.
