(* ===== verification/SandboxV2.v ===== *)
(** * The second evaluator of the sandbox
    (packages/coding-agent/src/core/sandbox-policy-v2.ts)

    One decision over an environment, a list of path requests and a network
    request, against the policies of [Sandbox]. Patterns with globs are matched by
    [minimatch], a package and here a parameter; [cwd] and [hostname] are those of
    [Sandbox]. *)

From Stdlib Require Import Ascii String ZArith Lia.
From stdpp Require Import base list option strings.
From S2P Require Import Prelude JsString Regex PathSegments Json Sandbox SandboxTheory.

Import Sandbox.

Open Scope string_scope.
Open Scope list_scope.

Module SandboxV2.

Definition SENSITIVE_ENV_EXACT : list string :=
  ["AWS_ACCESS_KEY_ID"; "AWS_SECRET_ACCESS_KEY"; "AWS_SESSION_TOKEN"; "GITHUB_TOKEN"; "GH_TOKEN"; "GITLAB_TOKEN"; "NPM_TOKEN";
   "NODE_AUTH_TOKEN"].

Definition SENSITIVE_ENV_REGEX : regex :=
  RSeqs [RAlt RBegin (RLit "_");
         RAlts (map RLitI ["API_KEY"; "API_TOKEN"; "ACCESS_TOKEN"; "SECRET"; "SECRET_KEY"; "PRIVATE_KEY"; "PASSWORD"; "PASSWD"; "TOKEN"]);
         REnd].

Definition ENV_DENY_NAMES : list string :=
  ["LD_PRELOAD"; "LD_LIBRARY_PATH"; "LD_AUDIT"; "LD_BIND_NOW"; "LD_PROFILE"; "DYLD_INSERT_LIBRARIES"; "DYLD_LIBRARY_PATH";
   "DYLD_FALLBACK_LIBRARY_PATH"; "NODE_OPTIONS"; "NODE_PATH"; "NODE_REPL_EXTERNAL_MODULE"; "NODE_EXTRA_CA_CERTS";
   "NODE_TLS_REJECT_UNAUTHORIZED"; "PYTHONPATH"; "PYTHONHOME"; "PYTHONSTARTUP"; "PYTHONINSPECT"; "PERL5LIB"; "PERLLIB"; "PERL5OPT";
   "RUBYLIB"; "RUBYOPT"; "RUBYPATH"; "JAVA_TOOL_OPTIONS"; "_JAVA_OPTIONS"; "JDK_JAVA_OPTIONS"; "MAVEN_OPTS"].

Definition none_of (chars : string) (a : ascii) : bool := negb (one_of chars a).
Definition letter : regex := RChar is_alpha.

Definition AUTH_URL_REGEX : regex :=
  let no_space_or chars := RPlus (RChar (fun a => negb (is_ws a) && none_of chars a)) in
  RSeqs [RBegin; letter; RStar (RChar (fun a => is_alpha a || in_range 48 57 a || one_of "+.-" a)); RLit "://"; no_space_or "/@:"; RLit ":";
         no_space_or "/@"; RLit "@"; RChar (fun a => negb (is_ws a) && none_of "/@" a)].

Definition SENSITIVE_PATH_REGEX : regex := sensitive_path [RLitI "token"; private_key; RLitI "credential"].

Inductive Severity : Type := severity_info | severity_warn | severity_block.

Record PolicyDiagnostic : Type := {
  pg_code : string;
  pg_message : string;
  pg_severity : Severity;
}.

Inductive Verdict : Type := verdict_allow | verdict_block.

#[global] Instance verdict_eq_dec : EqDecision Verdict.
Proof. solve_decision. Defined.

Record PathDecisionV2 : Type := {
  pv_requestedPath : string;
  pv_candidate : string;
  pv_kind : PathAccessKind;
  pv_action : Verdict;
  pv_rule : string;
  pv_reason : string;
  pv_matchedPattern : option string;
}.

Record EnvDecisionV2 : Type := {
  ev_action : Verdict;
  ev_rule : string;
  ev_reason : string;
  ev_deniedNames : list string;
}.

Inductive PolicyAction : Type := policy_allow | policy_confirm | policy_block.

Record SandboxPolicyV2Decision : Type := {
  v2_action : PolicyAction;
  v2_rule : string;
  v2_reason : string;
  v2_diagnostics : list PolicyDiagnostic;
  v2_pathDecisions : list PathDecisionV2;
  v2_networkDecision : option SandboxDecision;
  v2_envDecision : option EnvDecisionV2;
}.

Record SandboxPolicyV2Input : Type := {
  vi_policy : SandboxPolicy;
  vi_pathRequests : option (list PathAccessRequest);
  vi_networkRequest : option NetworkAccessRequest;
  vi_env : option ProcessEnv;
  vi_resolver : option SandboxPathResolver;
}.

Definition isSensitiveEnvName (name : string) : bool :=
  one_of_names SENSITIVE_ENV_EXACT name || rx_test SENSITIVE_ENV_REGEX name.

Definition isSensitivePath (value : string) : bool := rx_test SENSITIVE_PATH_REGEX (normalizePathSlashes value).

Definition ruleHasGlob (pattern : string) : bool := sexists (one_of "*?[]{}") pattern.

(** [replace(/^\[|\]$/g, "")] *)
Definition unbracket (s : string) : string :=
  let s := if startsWith "[" s then slice 1 s else s in
  if endsWith "]" s then slice_to (String.length s - 1) s else s.

Definition isLoopbackHost (host : string) : bool :=
  let h := trim (unbracket (toLowerCase host)) in
  one_of_names ["localhost"; "127.0.0.1"; "::1"; "0:0:0:0:0:0:0:1"; "::ffff:127.0.0.1"; "::ffff:7f00:1"] h || startsWith "127." h.

(** [replace(/\.$/, "")] *)
Definition undot (s : string) : string := if endsWith "." s then slice_to (String.length s - 1) s else s.

Definition hostMatches (patterns : list string) (host : string) : bool :=
  let h := undot host in
  existsb (fun raw => let p := undot (toLowerCase raw) in String.eqb h p || endsWith ("." ++ p) h) patterns.

Section Evaluator.
Context (cwd : string) (hostname : string -> option string) (minimatch : string -> string -> bool).

Definition normalizePathValue (value : string) : string :=
  let normalized := normalizePathSlashes (path_resolve cwd value) in
  if (1 <? String.length normalized)%nat then stripTrailing slash normalized else normalized.

Definition matchesRule (pattern candidate : string) : bool :=
  let normPattern := normalizePathValue pattern in
  let normCandidate := normalizePathValue candidate in
  if ruleHasGlob normPattern then minimatch normCandidate normPattern || minimatch normCandidate (normPattern ++ "/**")
  else text_inside normPattern normCandidate.

(** The first pattern that matches. *)
Fixpoint matchesAny (patterns : list string) (candidate : string) : option string :=
  match patterns with
  | [] => None
  | pattern :: rest => if matchesRule pattern candidate then Some pattern else matchesAny rest candidate
  end.

Definition isInsideRoot (root candidate : string) : bool :=
  text_inside (normalizePathValue root) (normalizePathValue candidate).

(** ** The network *)

Definition normalizeNetworkLoopback (request : NetworkAccessRequest) : NetworkAccessRequest :=
  let host := if negb (text_true (nq_host request)) && text_true (nq_url request) then nq_url request ≫= hostname else nq_host request in
  match host with
  | Some h =>
      if negb (is_empty h) && isLoopbackHost h then
        {| nq_host := Some h; nq_url := nq_url request; nq_unixSocketPath := nq_unixSocketPath request;
           nq_browser := nq_browser request; nq_loopback := Some true |}
      else request
  | None => request
  end.

Definition decideNetworkV2 (policy : SandboxPolicy) (request : NetworkAccessRequest) : SandboxDecision :=
  let net := sp_network policy in
  if bool_decide (sp_mode policy = sandbox_off) then decision true "sandbox.off" "Sandbox policy is disabled."
  else if flag_true (nq_browser request) || text_true (nq_unixSocketPath request) then
    decision false "network.socket_or_browser" "Browser and Unix socket access is denied by default."
  else if bool_decide (np_mode net = net_none) then decision false "network.none" "Network access is disabled by policy."
  else if flag_true (nq_loopback request) then
    match np_mode net with
    | net_loopback | net_domain_allowlist | net_all_explicit => decision true "network.loopback" "Loopback access is allowed."
    | net_none => decision false "network.loopback_denied" "Loopback access is denied."
    end
  else
    match hostFromRequest hostname request with
    | None | Some EmptyString => decision false "network.unknown_host" "Network host could not be resolved from request."
    | Some host =>
        if hostMatches (np_deniedDomains net) host then decision false "network.domain_deny" "Host matches a denied domain."
        else if bool_decide (np_mode net = net_all_explicit) then
          decision true "network.explicit_all" "Explicit network profile allows outbound host access."
        else if bool_decide (np_mode net = net_domain_allowlist) && hostMatches (np_allowedDomains net) host then
          decision true "network.domain_allow" "Host matches an allowed domain."
        else decision false "network.domain_not_allowed" "Host is not allowed by network policy."
    end.

(** ** Paths *)

Definition path_decision (request : PathAccessRequest) (rule reason candidate : string) (action : Verdict)
    (matchedPattern : option string) : PathDecisionV2 :=
  {| pv_requestedPath := pq_path request; pv_candidate := candidate; pv_kind := pq_kind request; pv_action := action;
     pv_rule := rule; pv_reason := reason; pv_matchedPattern := matchedPattern |}.

Definition decide_read_v2 (fs : FilesystemPolicy) (request : PathAccessRequest) (candidate : string) : PathDecisionV2 :=
  let decide rule reason := path_decision request rule reason candidate in
  match or_else (matchesAny (fp_readDeny fs) candidate) (matchesAny (fp_readDeny fs) (pq_path request)) with
  | Some pattern => decide "path.read_deny" "Read path matches a deny rule." verdict_block (Some pattern)
  | None =>
      match matchesAny (fp_readAllow fs) candidate with
      | Some _ => decide "path.read_allow" "Read path is allowed." verdict_allow None
      | None => decide "path.read_not_allowed" "Read path is not in an allow rule." verdict_block None
      end
  end.

Definition decide_write_v2 (fs : FilesystemPolicy) (request : PathAccessRequest) (candidate : string) : PathDecisionV2 :=
  let decide rule reason := path_decision request rule reason candidate in
  match or_else (matchesAny (fp_denyWrite fs) candidate) (matchesAny (fp_denyWrite fs) (pq_path request)) with
  | Some pattern =>
      decide "path.deny_write" "Write path matches an unoverrideable denyWrite rule." verdict_block (Some pattern)
  | None =>
      match or_else (matchesAny (fp_writeAllow fs) candidate) (matchesAny (fp_tempWrite fs) candidate) with
      | Some _ => decide "path.write_allow" "Write path is allowed." verdict_allow None
      | None => decide "path.write_not_allowed" "Write path is not in an allow rule." verdict_block None
      end
  end.

(** From the place of the path on. *)
Definition decide_candidate (fs : FilesystemPolicy) (request : PathAccessRequest) (candidate : string) (isSymlink : bool) :
    PathDecisionV2 :=
  let block rule reason := path_decision request rule reason candidate verdict_block None in
  if isSensitivePath (pq_path request) || isSensitivePath candidate then
    block "path.sensitive" "Sensitive credential-like path is denied."
  else if negb (isInsideRoot (fp_root fs) candidate) then block "path.root_escape" "Resolved path is outside the sandbox root."
  else if isSymlink && negb (fp_followSymlinks fs) then block "path.symlink" "Symlink traversal is denied by policy."
  else
    match pq_kind request with
    | access_read => decide_read_v2 fs request candidate
    | access_write => decide_write_v2 fs request candidate
    end.

Definition decidePathV2 (policy : SandboxPolicy) (request : PathAccessRequest) (resolver : option SandboxPathResolver) :
    result string PathDecisionV2 :=
  let fs := sp_filesystem policy in
  let requested := pq_path request in
  if has_nul requested then Ok (path_decision request "path.invalid" "Path contains a NUL byte." requested verdict_block None)
  else
    match resolver with
    | None => Ok (decide_candidate fs request (normalizePathValue requested) false)
    | Some resolver =>
        resolved <-? resolver requested ;;
        if text_true (rs_error resolved) then
          Ok (path_decision request "path.resolve_error" (default EmptyString (rs_error resolved)) requested verdict_block None)
        else
          Ok (decide_candidate fs request (default (normalizePathValue requested) (resolvedDecisionPath resolved))
                (bool_decide (rs_isSymlink resolved = Some true)))
    end.

(** ** The environment *)

(** A variable the evaluator denies. *)
Definition denied_variable (name value : string) : bool :=
  one_of_names ENV_DENY_NAMES name || isSensitiveEnvName name || rx_test AUTH_URL_REGEX value.

Fixpoint denied_names (env : ProcessEnv) : list string :=
  match env with
  | [] => []
  | (_, None) :: rest => denied_names rest
  | (name, Some value) :: rest => if denied_variable name value then name :: denied_names rest else denied_names rest
  end.

Definition decideEnvV2 (env : ProcessEnv) : EnvDecisionV2 :=
  match denied_names env with
  | [] => {| ev_action := verdict_allow; ev_rule := "env.allow"; ev_reason := "No denied environment variables."; ev_deniedNames := [] |}
  | denied =>
      {| ev_action := verdict_block; ev_rule := "env.denied_pattern";
         ev_reason := "Environment contains denied variable(s): " ++ join ", " denied ++ "."; ev_deniedNames := denied |}
  end.

(** ** The decision *)

(** [worst], [diagnostics] and [pathDecisions] while requests are evaluated. *)
Record Evaluation : Type := {
  el_worst : Verdict;
  el_diagnostics : list PolicyDiagnostic;
  el_pathDecisions : list PathDecisionV2;
}.

Definition blocked_by (code_ message : string) (e : Evaluation) : Evaluation :=
  {| el_worst := verdict_block;
     el_diagnostics := el_diagnostics e ++ [{| pg_code := code_; pg_message := message; pg_severity := severity_block |}];
     el_pathDecisions := el_pathDecisions e |}.

Definition with_path (d : PathDecisionV2) (e : Evaluation) : Evaluation :=
  {| el_worst := el_worst e; el_diagnostics := el_diagnostics e; el_pathDecisions := el_pathDecisions e ++ [d] |}.

Fixpoint evaluate_paths (policy : SandboxPolicy) (resolver : option SandboxPathResolver) (requests : list PathAccessRequest)
    (e : Evaluation) : result string Evaluation :=
  match requests with
  | [] => Ok e
  | request :: rest =>
      d <-? decidePathV2 policy request resolver ;;
      let e := with_path d e in
      evaluate_paths policy resolver rest
        (if bool_decide (pv_action d = verdict_block) then blocked_by (pv_rule d) (pv_reason d) e else e)
  end.

Definition evaluateSandboxPolicyV2 (input : SandboxPolicyV2Input) : result string SandboxPolicyV2Decision :=
  let policy := vi_policy input in
  if bool_decide (sp_mode policy = sandbox_off) then
    Ok {| v2_action := policy_allow; v2_rule := "sandbox.off"; v2_reason := "Sandbox policy is disabled."; v2_diagnostics := [];
          v2_pathDecisions := []; v2_networkDecision := None; v2_envDecision := None |}
  else
    let e0 := {| el_worst := verdict_allow; el_diagnostics := []; el_pathDecisions := [] |} in
    let envDecision := decideEnvV2 <$> vi_env input in
    let e1 :=
      match envDecision with
      | Some d =>
          if bool_decide (ev_action d = verdict_block)
          then blocked_by (ev_rule d) ("Denied env name(s): " ++ join ", " (ev_deniedNames d)) e0 else e0
      | None => e0
      end in
    e2 <-? evaluate_paths policy (vi_resolver input) (default [] (vi_pathRequests input)) e1 ;;
    let networkDecision := (fun r => decideNetworkV2 policy (normalizeNetworkLoopback r)) <$> vi_networkRequest input in
    let e3 :=
      match networkDecision with
      | Some d => if sd_allowed d then e2 else blocked_by (sd_rule d) (sd_reason d) e2
      | None => e2
      end in
    let answer action rule reason :=
      Ok {| v2_action := action; v2_rule := rule; v2_reason := reason; v2_diagnostics := el_diagnostics e3;
            v2_pathDecisions := el_pathDecisions e3; v2_networkDecision := networkDecision; v2_envDecision := envDecision |} in
    match el_worst e3 with
    | verdict_allow => answer policy_allow "policy.composite_allow" "All sandbox checks passed."
    | verdict_block =>
        if bool_decide (sp_mode policy = sandbox_audit) then
          answer policy_confirm "policy.audit_block" "Audit mode: a would-block check is downgraded to confirm."
        else answer policy_block "policy.block" "One or more sandbox checks blocked the request."
    end.
End Evaluator.

(** ** Both evaluators read literal patterns alike *)

Section Agreement.
Context (cwd : string) (minimatch : string -> string -> bool).

Abbreviation segments := (resolved_segments cwd).

(** A pattern without a glob that is not the root. *)
Definition literal_pattern (p : string) : bool :=
  negb (ruleHasGlob (normalizePathValue cwd p)) && negb (bool_decide (segments p = [])).

Lemma value_normal (v : string) : segments v <> [] -> normalizePathValue cwd v = normalize cwd v.
Proof.
  intros Hn. rewrite normal_text by done. unfold normalizePathValue. destruct (Nat.ltb_spec 1 (String.length (normalizePathSlashes (path_resolve cwd v)))) as [|Hl]; [done|].
  exfalso. unfold path_resolve, normalizePathSlashes in Hl. rewrite length_smap in Hl. cbn in Hl.
  pose proof (segments_proper cwd v) as Hp. destruct (segments v) as [|w ws]; [done|]. rewrite join_cons in Hl.
  apply Forall_cons in Hp as [[Hw _] _]. destruct w; [done|]. cbn in Hl. lia.
Qed.

Lemma value_root (v : string) : segments v = [] -> normalizePathValue cwd v = "/".
Proof. intros Hn. unfold normalizePathValue, path_resolve. by rewrite Hn. Qed.

Lemma stripped_inside (P : string) : stripTrailing slash P = P -> text_inside P "/" = text_inside P EmptyString.
Proof.
  intros HP. destruct P as [|a P]; [done|]. unfold text_inside. cbn [append]. rewrite (startsWith_cons _ _ _ _).
  destruct (String.eqb_spec "/" (String a P)) as [H|H]; [|].
  - injection H as <- <-. discriminate HP.
  - destruct P as [|b P]; cbn; [|by rewrite andb_false_r].
    destruct (Ascii.eqb_spec a "/") as [->|]; [by destruct H|done].
Qed.

(** A literal text covers the same paths for both. *)
Lemma literal_inside (p c : string) :
  segments p <> [] -> text_inside (normalizePathValue cwd p) (normalizePathValue cwd c) = isInside cwd p c.
Proof.
  intros Hp. unfold isInside. rewrite (value_normal p) by done. destruct (decide (segments c = [])) as [Hc|Hc]; [|by rewrite value_normal].
  rewrite value_root by done. unfold normalize at 3, path_resolve. rewrite Hc. cbn.
  destruct (String.eqb c "/"); [done|]. apply stripped_inside. by rewrite normal_text, stripTrailing_idem.
Qed.

Lemma glob_literal (s suf : string) : glob_end suf -> ruleHasGlob (s ++ suf) = true.
Proof.
  intros Hs. unfold ruleHasGlob, sexists. rewrite sforall_app. destruct Hs as [->| ->]; cbn; by rewrite andb_false_r.
Qed.

Lemma literal_strip (p : string) : literal_pattern p = true -> stripGlobSuffix p = p.
Proof.
  unfold literal_pattern. rewrite andb_true_iff, !negb_true_iff, bool_decide_eq_false. intros [Hg Hn].
  destruct (strip_cases p) as [?|(suf & Hs & Hp)]; [done|]. exfalso. set (q := stripGlobSuffix p) in *.
  rewrite value_normal, Hp in Hg by done. destruct (decide (q = EmptyString)) as [Hq|Hq].
  { rewrite Hq in Hg. cbn in Hg. rewrite normal_bare_glob in Hg by done. by destruct Hs as [->| ->]. }
  destruct (decide (segments q = [])) as [Hn'|Hn'].
  - rewrite normal_root_glob in Hg by done. by destruct Hs as [->| ->].
  - rewrite normal_glob, glob_literal in Hg by done. done.
Qed.

Lemma literal_rule (p c : string) : literal_pattern p = true -> matchesRule cwd minimatch p c = matchesPattern cwd p c.
Proof.
  intros Hl. unfold matchesPattern. rewrite literal_strip by done. revert Hl. unfold literal_pattern, matchesRule.
  rewrite andb_true_iff, !negb_true_iff, bool_decide_eq_false. intros [-> Hn]. by apply literal_inside.
Qed.

Lemma literal_any (l : list string) (c : string) :
  Forall (fun p => literal_pattern p = true) l ->
  match matchesAny cwd minimatch l c with Some _ => true | None => false end = Sandbox.matchesAny cwd l c.
Proof.
  induction 1 as [|p l Hp Hl IH]; [done|]. cbn [matchesAny Sandbox.matchesAny existsb]. rewrite literal_rule by done.
  by destruct (matchesPattern cwd p c).
Qed.

Lemma or_else_some {A} (a b : option A) :
  match or_else a b with Some _ => true | None => false end
  = match a with Some _ => true | None => false end || match b with Some _ => true | None => false end.
Proof. by destruct a. Qed.

(** The decision from a place on, by the tests of the first evaluator. *)
Lemma candidate_allowed (fs : FilesystemPolicy) (request : PathAccessRequest) (candidate : string) (isSymlink : bool) :
  segments (fp_root fs) <> [] ->
  Forall (fun p => literal_pattern p = true)
    (fp_readAllow fs ++ fp_readDeny fs ++ fp_writeAllow fs ++ fp_denyWrite fs ++ fp_tempWrite fs) ->
  pv_action (decide_candidate cwd minimatch fs request candidate isSymlink) = verdict_allow
  <-> isSensitivePath (pq_path request) = false /\ isSensitivePath candidate = false /\ isInside cwd (fp_root fs) candidate = true
      /\ (isSymlink = false \/ fp_followSymlinks fs = true) /\ permits cwd fs (pq_kind request) candidate (pq_path request) = true.
Proof.
  rewrite !Forall_app. intros Hroot (Hra & Hrd & Hwa & Hdw & Htw). unfold decide_candidate, isInsideRoot.
  rewrite literal_inside by done.
  destruct (isSensitivePath (pq_path request)); [split; [done|by intros [? _]]|].
  destruct (isSensitivePath candidate); [split; [done|by intros (_ & ? & _)]|]. cbn [orb].
  destruct (isInside cwd (fp_root fs) candidate); [|split; [done|by intros (_ & _ & ? & _)]]. cbn [negb].
  destruct (isSymlink && negb (fp_followSymlinks fs)) eqn:Es.
  { split; [done|]. intros (_ & _ & _ & H & _). apply andb_true_iff in Es as [? ?%negb_true_iff]. destruct H; congruence. }
  assert (isSymlink = false \/ fp_followSymlinks fs = true) as Hs by (apply andb_false_iff in Es as [?|?%negb_false_iff]; auto).
  enough (pv_action (match pq_kind request with
                     | access_read => decide_read_v2 cwd minimatch fs request candidate
                     | access_write => decide_write_v2 cwd minimatch fs request candidate
                     end) = verdict_allow <-> permits cwd fs (pq_kind request) candidate (pq_path request) = true) as -> by tauto.
  unfold permits, decide_read_v2, decide_write_v2. destruct (pq_kind request).
  - rewrite <- !(literal_any (fp_readDeny fs)), <- (literal_any (fp_readAllow fs)) by done.
    rewrite <- negb_orb, <- or_else_some. destruct (or_else _ _); [done|]. by destruct (matchesAny _ _ (fp_readAllow fs) _).
  - rewrite <- !(literal_any (fp_denyWrite fs)), <- (literal_any (fp_writeAllow fs)), <- (literal_any (fp_tempWrite fs)) by done.
    rewrite <- negb_orb, <- !or_else_some. destruct (or_else (matchesAny _ _ (fp_denyWrite fs) _) _); [done|]. by destruct (or_else _ _).
Qed.

(** C36: On literal patterns the second evaluator is the first. Where the policy is on, no pattern of it holds a glob or is
    the root, and the resolver names a place, the second evaluator allows an access to a path the first does not take for a
    secret exactly if the first allows it and the second takes neither the path nor its place for a secret. *)
Theorem v2_agrees_with_v1 (policy : SandboxPolicy) (request : PathAccessRequest) (resolver : SandboxPathResolver)
    (resolved : ResolvedSandboxPath) (candidate : string)
    (Hon : sp_mode policy <> sandbox_off) (Hr : resolver (pq_path request) = Ok resolved)
    (Hc : resolvedDecisionPath resolved = Some candidate) (Hroot : segments (fp_root (sp_filesystem policy)) <> [])
    (Hliteral : let fs := sp_filesystem policy in
                Forall (fun p => literal_pattern p = true)
                  (fp_readAllow fs ++ fp_readDeny fs ++ fp_writeAllow fs ++ fp_denyWrite fs ++ fp_tempWrite fs)) :
  (exists d, decidePathV2 cwd minimatch policy request (Some resolver) = Ok d /\ pv_action d = verdict_allow)
  /\ Sandbox.isSensitivePath (pq_path request) = false
  <-> allows cwd policy request resolver /\ isSensitivePath (pq_path request) = false /\ isSensitivePath candidate = false.
Proof.
  unfold allows. split.
  - intros [(d & Hd & Ha) Hsens]. unfold decidePathV2 in Hd. destruct (has_nul _) eqn:En; [by injection Hd as <-|].
    rewrite Hr in Hd. cbn [result_bind] in Hd. destruct (text_true _) eqn:Et; injection Hd as <-; [done|].
    rewrite Hc in Ha. apply candidate_allowed in Ha as (H1 & H2 & Hi & Hs & Hp); [|done..].
    split; [|done]. apply allows_iff. right. split; [done|]. split; [done|]. exists resolved, candidate. repeat split; try done.
    destruct Hs as [Hs|?]; [left|by right]. revert Hs. destruct (rs_isSymlink resolved) as [[]|]; by case_bool_decide.
  - intros [Ha [H1 H2]]. apply allows_iff in Ha as [?|(En & Hsens & r & c & Hr' & Et & Hc' & Hi & Hs & Hp)]; [done|].
    rewrite Hr in Hr'. injection Hr' as <-. rewrite Hc in Hc'. injection Hc' as <-. split; [|done].
    unfold decidePathV2. rewrite En, Hr. cbn [result_bind]. rewrite Et, Hc. eexists. split; [done|].
    apply candidate_allowed; try done. repeat split; try done. destruct Hs as [Hs|?]; [left|by right].
    revert Hs. destruct (rs_isSymlink resolved) as [[]|]; by case_bool_decide.
Qed.
End Agreement.

(** ** The decision *)

Section Decision.
Context (cwd : string) (hostname : string -> option string) (minimatch : string -> string -> bool).

(** No check of a request fails. *)
Definition env_clean (env : option ProcessEnv) : Prop :=
  forall name value, (name, Some value) ∈ default [] env -> denied_variable name value = false.

Definition net_clean (policy : SandboxPolicy) (request : option NetworkAccessRequest) : Prop :=
  forall r, request = Some r -> sd_allowed (decideNetworkV2 hostname policy (normalizeNetworkLoopback hostname r)) = true.

Lemma denied_none (env : ProcessEnv) :
  denied_names env = [] <-> forall name value, (name, Some value) ∈ env -> denied_variable name value = false.
Proof.
  induction env as [|[name [value|]] env IH]; cbn [denied_names].
  - split; [by intros _ ? ? ?%elem_of_nil|done].
  - setoid_rewrite elem_of_cons. destruct (denied_variable name value) eqn:E; [split; [done|]|rewrite IH; split].
    + intros H. specialize (H name value (or_introl eq_refl)). congruence.
    + intros H n v [[= -> ->]|?]; [done|by apply H].
    + intros H n v ?. apply H. by right.
  - rewrite IH. setoid_rewrite elem_of_cons. split; [intros H n v [?|?]; [done|by apply H]|intros H n v ?; apply H; by right].
Qed.

Lemma paths_evaluated (policy : SandboxPolicy) (resolver : option SandboxPathResolver) (requests : list PathAccessRequest) (e e' : Evaluation) :
  evaluate_paths cwd minimatch policy resolver requests e = Ok e' ->
  exists ds, el_pathDecisions e' = el_pathDecisions e ++ ds
    /\ Forall2 (fun r d => decidePathV2 cwd minimatch policy r resolver = Ok d) requests ds
    /\ (el_worst e' = verdict_allow <-> el_worst e = verdict_allow /\ Forall (fun d => pv_action d = verdict_allow) ds)
    /\ (el_diagnostics e' = [] <-> el_diagnostics e = [] /\ Forall (fun d => pv_action d = verdict_allow) ds).
Proof.
  revert e. induction requests as [|r requests IH]; intros e; cbn [evaluate_paths].
  { intros [= <-]. exists []. rewrite app_nil_r. split_and!; try done; rewrite Forall_nil; tauto. }
  destruct (decidePathV2 _ _ _ _ _) as [d|] eqn:Ed; cbn [result_bind]; [|done].
  destruct (pv_action d) eqn:Ea; [rewrite bool_decide_eq_false_2 by done|rewrite bool_decide_eq_true_2 by done];
    intros (ds & Hp & Hf & Hw & Hd)%IH; exists (d :: ds); cbn in Hp, Hw, Hd; rewrite Hp, Hw, Hd, !Forall_cons, Ea, <- (assoc_L (++)).
  - split_and!; [done|by constructor|tauto..].
  - split_and!; [done|by constructor|split; [by intros [? _]|by intros (_ & ? & _)]|].
    rewrite app_nil. split; [by intros [[_ ?] _]|by intros (_ & ? & _)].
Qed.

(** C35: The decision is allow exactly if every check passed. With the policy on, the decision has one path decision for
    each request, in their order; and it is clean, no variable of the environment being denied, every path allowed and
    the network request, if any, allowed, exactly if its action is to allow and exactly if it holds no diagnostic.
    Otherwise it is to confirm under an audited policy, and to block under an enforced one. *)
Theorem evaluation_table (input : SandboxPolicyV2Input) (d : SandboxPolicyV2Decision)
    (Hd : evaluateSandboxPolicyV2 cwd hostname minimatch input = Ok d) (Hon : sp_mode (vi_policy input) <> sandbox_off) :
  let policy := vi_policy input in
  let clean := env_clean (vi_env input) /\ Forall (fun p => pv_action p = verdict_allow) (v2_pathDecisions d)
               /\ net_clean policy (vi_networkRequest input) in
  Forall2 (fun r p => decidePathV2 cwd minimatch policy r (vi_resolver input) = Ok p)
    (default [] (vi_pathRequests input)) (v2_pathDecisions d)
  /\ (v2_diagnostics d = [] <-> clean)
  /\ (clean /\ v2_action d = policy_allow
      \/ ~ clean /\ v2_action d = (if decide (sp_mode policy = sandbox_audit) then policy_confirm else policy_block)).
Proof.
  cbn zeta. revert Hd. unfold evaluateSandboxPolicyV2. rewrite (bool_decide_eq_false_2 _ Hon).
  set (e1 := match _ with Some d => _ | None => _ end). destruct (evaluate_paths _ _ _ _ _ _) as [e2|] eqn:E2; cbn [result_bind]; [|done].
  apply paths_evaluated in E2 as (ds & Hp & Hf & Hw & Hdiag).
  assert (el_pathDecisions e1 = [] /\ (el_worst e1 = verdict_allow <-> env_clean (vi_env input))
          /\ (el_diagnostics e1 = [] <-> env_clean (vi_env input))) as (Hp1 & Hw1 & Hd1).
  { unfold e1, env_clean. destruct (vi_env input) as [env|]; cbn; [|split_and!; [done|..]; split; try done; by intros _ ? ? ?%elem_of_nil].
    rewrite <- denied_none. unfold decideEnvV2. by destruct (denied_names env). }
  rewrite Hp1 in Hp. cbn in Hp. rewrite Hw1 in Hw. rewrite Hd1 in Hdiag.
  set (e3 := match _ <$> vi_networkRequest input with Some d => _ | None => _ end).
  assert (el_pathDecisions e3 = ds /\ (el_worst e3 = verdict_allow <-> el_worst e2 = verdict_allow /\ net_clean (vi_policy input) (vi_networkRequest input))
          /\ (el_diagnostics e3 = [] <-> el_diagnostics e2 = [] /\ net_clean (vi_policy input) (vi_networkRequest input))) as (Hp3 & Hw3 & Hd3).
  { unfold e3, net_clean. destruct (vi_networkRequest input) as [r|]; cbn; [|split_and!; [done|naive_solver..]].
    destruct (sd_allowed _) eqn:Es; (split_and!; [done|..]).
    - split; [|by intros [? _]]. intros ?. split; [done|]. by intros ? [= <-].
    - split; [|by intros [? _]]. intros ?. split; [done|]. by intros ? [= <-].
    - cbn. split; [done|]. intros [_ H]. specialize (H r eq_refl). congruence.
    - cbn. rewrite app_nil. split; [by intros [_ ?]|]. intros [_ H]. specialize (H r eq_refl). congruence. }
  assert (forall P, (el_diagnostics e3 = [] <-> P) -> (el_worst e3 = verdict_allow <-> P) ->
    (el_diagnostics e3 = [] <-> P) /\ (P /\ el_worst e3 = verdict_allow \/ ~ P /\ el_worst e3 = verdict_block)) as Hcases.
  { intros P H1 H2. split; [done|]. destruct (el_worst e3); [left; split; [by apply H2|done]|right; split; [by intros ?%H2|done]]. }
  destruct (Hcases (env_clean (vi_env input) /\ Forall (fun p => pv_action p = verdict_allow) ds
               /\ net_clean (vi_policy input) (vi_networkRequest input))) as [H1 H2]; [tauto..|].
  destruct H2 as [[H2 E]|[H2 E]]; rewrite E; [|case_bool_decide as Em]; intros [= <-]; cbn; rewrite Hp3; (split; [done|]; split; [done|]).
  - by left.
  - right. split; [done|]. by rewrite decide_True.
  - right. split; [done|]. by rewrite decide_False.
Qed.
End Decision.

(** ** Runs *)

(** A matcher that knows the recursive glob at the end of a pattern. *)
Definition sample_minimatch (candidate pattern : string) : bool :=
  endsWith "/**" pattern && startsWith (slice_to (String.length pattern - 2) pattern) candidate.

Definition sample_input (mode : SandboxMode) (env : ProcessEnv) (paths : list string) (host : string) : SandboxPolicyV2Input :=
  {| vi_policy := sample_policy mode net_domain_allowlist true;
     vi_pathRequests := Some (map (fun path => {| pq_kind := access_read; pq_path := path |}) paths);
     vi_networkRequest := Some (request_to host); vi_env := Some env; vi_resolver := Some real_resolver |}.

Definition outcome (input : SandboxPolicyV2Input) : option (PolicyAction * list string) :=
  match evaluateSandboxPolicyV2 "/work" sample_host sample_minimatch input with
  | Ok d => Some (v2_action d, map pg_code (v2_diagnostics d))
  | Err _ => None
  end.

Example evaluation_examples :
  map outcome
    [sample_input sandbox_enforce [("PATH", Some "/bin")] ["src/a.ts"; "b.ts"] "api.example.com";
     sample_input sandbox_audit [("NODE_OPTIONS", Some "-r x")] ["src/a.ts"] "api.example.com";
     sample_input sandbox_enforce [("DB", Some "pg://u:p@h/d")] ["../x"; ".env"] "ads.example.com"]
  = [Some (policy_allow, []); Some (policy_confirm, ["env.denied_pattern"]);
     Some (policy_block, ["env.denied_pattern"; "path.root_escape"; "path.sensitive"; "network.domain_deny"])].
Proof. vm_compute. reflexivity. Qed.

Lemma evaluation_table_witness :
  exists d, evaluateSandboxPolicyV2 "/work" sample_host sample_minimatch
              (sample_input sandbox_audit [("NODE_OPTIONS", Some "-r x")] ["src/a.ts"] "api.example.com") = Ok d
            /\ v2_diagnostics d <> [] /\ v2_action d = policy_confirm.
Proof.
  eexists. split; [vm_compute; reflexivity|]. split; [discriminate|].
  match goal with |- v2_action ?d = _ =>
    pose proof (evaluation_table "/work" sample_host sample_minimatch
      (sample_input sandbox_audit [("NODE_OPTIONS", Some "-r x")] ["src/a.ts"] "api.example.com") d
      ltac:(vm_compute; reflexivity) ltac:(discriminate)) as (_ & _ & [[_ H]|[_ H]])
  end; [discriminate H|exact H].
Defined.

Definition literal_policy : SandboxPolicy :=
  {| sp_mode := sandbox_enforce; sp_profile := profile_readonly;
     sp_filesystem := {| fp_root := "/work"; fp_readAllow := ["/work"]; fp_readDeny := ["private"]; fp_writeAllow := []; fp_denyWrite := [];
                         fp_tempWrite := []; fp_followSymlinks := false |};
     sp_network := sp_network (sample_policy sandbox_enforce net_none true);
     sp_process := sp_process (sample_policy sandbox_enforce net_none true) |}.

Lemma v2_agrees_with_v1_witness :
  let request := {| pq_kind := access_read; pq_path := "src/a.ts" |} in
  (exists d, decidePathV2 "/work" sample_minimatch literal_policy request (Some real_resolver) = Ok d /\ pv_action d = verdict_allow)
  /\ Sandbox.isSensitivePath "src/a.ts" = false
  <-> allows "/work" literal_policy request real_resolver /\ isSensitivePath "src/a.ts" = false
      /\ isSensitivePath "/work/src/a.ts" = false.
Proof.
  apply (v2_agrees_with_v1 "/work" sample_minimatch literal_policy {| pq_kind := access_read; pq_path := "src/a.ts" |} real_resolver
           {| rs_requestedPath := "src/a.ts"; rs_exists := true; rs_realPath := Some "/work/src/a.ts";
              rs_nearestExistingParentRealPath := Some "/work/src/a.ts"; rs_isSymlink := Some false; rs_error := None |} "/work/src/a.ts");
    try discriminate; try (vm_compute; reflexivity).
  repeat constructor.
Defined.

(** ** What the models show *)

(** A host whose name only begins like a loopback address counts as loopback, and needs no place on a list. *)
Lemma loopback_name_trusted :
  let policy := sample_policy sandbox_enforce net_loopback true in
  sd_allowed (decideNetworkV2 sample_host policy (normalizeNetworkLoopback sample_host (request_to "127.0.0.1.attacker.org"))) = true
  /\ sd_allowed (decideNetworkV2 sample_host policy (normalizeNetworkLoopback sample_host (request_to "attacker.org"))) = false.
Proof. split; vm_compute; reflexivity. Qed.

(** A path with the word secret is sensitive to the first evaluator and not to the second. *)
Lemma secret_not_sensitive :
  Sandbox.isSensitivePath "config/client_secret.json" = true /\ isSensitivePath "config/client_secret.json" = false.
Proof. split; vm_compute; reflexivity. Qed.

(** Under a working directory with a bracket in its name every relative pattern is a glob. *)
Lemma bracket_directory_globs : ruleHasGlob (normalizePathValue "/home/app[1]" "private") = true.
Proof. by vm_compute. Qed.

(** Where the resolver knows no place, the second evaluator decides on the text of the path; the first denies. *)
Lemma unresolved_path_decided :
  let nowhere path := Ok {| rs_requestedPath := path; rs_exists := false; rs_realPath := None; rs_nearestExistingParentRealPath := None;
                            rs_isSymlink := None; rs_error := None |} in
  let request := {| pq_kind := access_read; pq_path := "src/a.ts" |} in
  answer_of (decidePathAccess "/work" literal_policy request nowhere) = Some (false, "path.root_escape")
  /\ exists d, decidePathV2 "/work" sample_minimatch literal_policy request (Some nowhere) = Ok d /\ pv_action d = verdict_allow.
Proof. split; [vm_compute; reflexivity|]. eexists. split; [vm_compute; reflexivity|reflexivity]. Qed.

End SandboxV2.
